(* ===== verification/_CoqProject ===== *)
-Q . S2P
Prelude.v
UtlString.v
UtlStringRefine.v
Regex.v
Containable.v
UtlLink.v
UtlList.v
UtlListRefine.v
UtlSListSpec.v
UtlSortedListSpec.v
UtlListIterSpec.v
UtlHashMap.v
UtlHashMapSpec.v
UtlHashMapIterSpec.v
UtlHashMapWalk.v
NetBase64Codec.v
NetBase64CodecSpec.v
NetMd5Codec.v
BranchId.v
BranchIdSpec.v
NameValuePair.v
RouteState.v
RouteStateSpec.v
NameValueTokenizer.v
NameValueTokenizerSpec.v
HttpMessage.v
HttpMessageSpec.v
Format.v
OsTime.v
OsDateTime.v
OsDateTimeSpec.v
OsSem.v
OsRWMutex.v
OsRWMutexSpec.v
OsMsgQ.v
OsTimer.v
Pcre.v
PcreSpec.v
PcreText.v
DigitMap.v
Patterns.v
TinyXml.v
UrlCodec.v
Url.v
UrlSyntax.v
UrlSpec.v
UrlSound.v
UrlRoundtrip.v
UrlParamSpec.v
RouteStateMsg.v
RouteStateMsgSpec.v
UrlTotal.v
ProxyRoutes.v
RouteTableSpec.v
ProxyRoutesSpec.v
ProxyDialogSpec.v
SipNonceDb.v
SipMatch.v
SipMatchSpec.v
SipTarget.v
Redirect.v
RedirectHeap.v
RedirectDue.v
RedirectPass.v
RedirectRun.v
RedirectAnswer.v
RedirectSpec.v
UrlMapping.v
UrlMappingSpec.v
UrlTransformSpec.v
UrlContactSpec.v
ForwardRules.v
ForwardRulesSpec.v
SipXauthIdentity.v
SipXauthIdentitySpec.v
HttpAuth.v
HttpAuthSpec.v
SipRouter.v
SipRouterSpec.v
AuthPlugins.v
