(* ===== verification/Prelude.v ===== *)
(** * Verification of the sipXrouter C++ sources

    sipXrouter is a SIP proxy, registrar and event server in C++.  Its
    layers, from the bottom: [sipXportLib] (strings, containers, operating
    system wrappers), [sipXtackLib] (SIP messages, transactions, codecs,
    identifiers), [sipXcommserverLib] (databases, dial rules) and the
    servers [sipXproxy], [sipXregistry] and [sipXpublisher].  This library
    models, from the bottom up, the parts that carry state and logic of their
    own and proves what the layers above rely on.

    ** How C++ is represented

    A C++ function is a Rocq function in the [outcome] monad of this file:
    [Ok] is a normal return, [Throw] an exception of [new], [AssertFail] a
    failed [assert] and [UB] an access outside live storage, through a null
    pointer or to freed memory.  A theorem that concludes [Ok] therefore
    excludes undefined behaviour.  [size_t] and [int] values are [Z] with
    their wrap-around written out ([to_size], [to_uint], [to_int]); a [char]
    is an [ascii], read as unsigned or signed where the code does.  Buffers
    are byte lists of their exact capacity ([read_at], [write_at]); fresh
    storage holds unknown bytes.  Linked structures live on an explicit heap
    ([gmap loc Link]) so that aliasing, freed cells and iterators that point
    into a list are those of the program.

    ** Files and sources

    - [Prelude]: outcomes, machine integers, characters and C strings
      ([strcmp], [strlen], [strcasecmp]), buffers, list lemmas, the hint
      databases [cxx] and [cxxb].
    - [UtlString], [UtlStringRefine]: [sipXportLib/src/utl/UtlString.cpp].
      The record has the fields [mSize], [mCapacity], [mpData] and whether
      the buffer is the built-in one.  The second file has the representation
      relation [repr] and the byte-string specification.
    - [Containable]: [UtlContainable] as a type class; containers are proved
      against it and [UtlString] is an instance, [UtlInt] one of the weaker
      class that hash maps need.
    - [UtlLink]: [UtlChain], [UtlLink] and [UtlChainPool] of [UtlLink.h/.cpp].
      [UtlList]: [UtlList.cpp], [UtlSList.cpp], [UtlSortedList.cpp],
      [UtlListIterator.cpp], [UtlSortedListIterator.cpp].
      [UtlListRefine]: the ownership predicate [owns] and one lemma per
      operation.  [UtlSListSpec], [UtlSortedListSpec], [UtlListIterSpec]: the
      refinement theorems.
    - [UtlHashMap], [UtlHashMapSpec], [UtlHashMapIterSpec]: [UtlHashMap.cpp]
      and [UtlHashMapIterator.cpp], buckets as lists of pairs in hash order,
      resize included.  [UtlHashMapWalk]: a loop that removes on its way.
    - [NetBase64Codec], [NetBase64CodecSpec]: [NetBase64Codec.cpp].
    - [NetMd5Codec]: [NetMd5Codec.cpp], with the digest of
      RFC 1321 written independently of the streaming code.
    - [BranchId], [BranchIdSpec]: [sipXtackLib/src/net/BranchId.cpp].
    - [Regex]: regular expressions with a matcher proved correct; the
      recognizers of the proxy are stated with it.
    - [NameValuePair]: [NameValuePair.cpp], [NameValuePairInsensitive.cpp].
    - [RouteState], [RouteStateSpec]: [sipXproxy/src/RouteState.cpp], the
      signed dialog state of the proxy.
    - [NameValueTokenizer], [NameValueTokenizerSpec]:
      [NameValueTokenizer.cpp] and the loop of [SdpBody::parseBody].
    - [HttpMessage], [HttpMessageSpec]: the header parser and the header
      table of [HttpMessage.cpp], the subfields and Record-Routes of
      [SipMessage.cpp].
    - [Format]: [sprintf] conversions, [atoi] and [strtol].
    - [OsTime], [OsDateTime], [OsDateTimeSpec]: times, calendar dates and
      HTTP date strings of [OsTime.cpp], [OsDateTime.cpp] and
      [OsDateTimeLinux.cpp].
    - [OsSem], [OsRWMutex], [OsRWMutexSpec]: the semaphores of
      [os/linux/pt_csem.c] and the reader/writer lock [OsRWMutex.cpp], run by
      any number of threads as a step relation whose steps are the accesses
      under one guard.
    - [OsMsgQ]: the message queue [OsMsgQShared.cpp/.h] with its
      semaphores and condition variables, again as a step relation.
    - [OsTimer]: [OsTimer.cpp], a client and the threads of the
      Boost io_service.
    - [Pcre], [PcreSpec]: the pattern syntax the sources use, its backtracking
      semantics, the class [Pcre] of libraries that behave so, and the
      wrapper [RegEx] of [UtlRegex.cpp]; what a match consumes and captures.
      [PcreText]: the text of expressions that are made at run time, read by a
      lexer and a parser, and the class [PcreCompile] of compilers that agree
      with it.
    - [DigitMap]: user patterns of the dial rules and their
      translation to expressions ([UrlMapping::convertRegularExpression]).
      [Patterns]: subnets and DNS wildcards of
      [digitmaps/Patterns.cpp].  [TinyXml]: the document tree as its readers
      see it, and [ExtractContent.cpp].
    - [UrlCodec]: [HttpMessage::escape], [unescape] and
      [HttpRequestContext::parseCgiVariables].
    - [Url]: [Url.cpp], patterns, parser, printers and parameters.
      [UrlSyntax]: what each pattern takes.  [UrlSpec]: each phase of
      [parseString] on printed texts.  [UrlSound]: every phase on every text.
      [UrlRoundtrip], [UrlParamSpec]: the theorems about printing, parsing,
      parameters and identity.
    - [RouteStateMsg], [RouteStateMsgSpec]: the constructor and [update] of
      [RouteState.cpp] over the header table and Url.
    - [UrlTotal]: printing of whatever [Url::parseString] left.
    - [ProxyRoutes], [RouteTableSpec], [ProxyRoutesSpec]:
      [SipMessage::normalizeProxyRoutes] with the request line, the Route
      headers and the host aliases of [SipUserAgent].  [ProxyDialogSpec]: the
      routes it removes handed to RouteState.
    - [SipNonceDb]: the digest nonces of
      [sipXcommserverLib/src/sipXecsService/SipNonceDb.cpp] and
      [SharedSecret.cpp].
    - [SipMatch], [SipMatchSpec]: which messages belong together (sessions,
      transactions, responses, CANCEL) and how a response is made from a
      request, of [SipMessage.cpp].  [SipTarget]: header
      parameters of a target URI, Max-Forwards, the top Via and Warning.
    - [Redirect]: [sipXregistry/src/SipRedirectServer.cpp],
      [RedirectPlugin.cpp] and [RedirectSuspend.cpp]; plug-ins are a class,
      suspend objects live on a heap, what the server does to the outside is a
      trace of events.  [RedirectHeap]: the invariant of list and heap;
      [RedirectDue]: which plug-ins are owed a cancel; [RedirectPass]: the loop over the plug-ins; [RedirectRun]: every message,
      against the interface [MessageWork]; [RedirectAnswer]: the responses;
      [RedirectSpec]: the two instances of the interface and the theorems.
    - [UrlMapping]: [sipXcommserverLib/src/digitmaps/UrlMapping.cpp] and its
      four readers of rule files, over Url, the document tree and the patterns.
      [UrlMappingSpec]: which rule applies; [UrlTransformSpec]: the tokens of a
      transform; [UrlContactSpec]: the contacts.
    - [ForwardRules], [ForwardRulesSpec]: [sipXproxy/src/ForwardRules.cpp], the
      targets of requests by host, method and header fields.
    - [SipXauthIdentity], [SipXauthIdentitySpec]: the signed identities of
      [sipXtackLib/src/net/SipXauthIdentity.cpp].
    - [HttpAuth], [HttpAuthSpec]: digest authentication of
      [HttpMessage.cpp], [SipMessage.cpp] and [NetAttributeTokenizer.cpp].
    - [SipRouter]: [sipXproxy/src/SipRouter.cpp].  proxyMessage is a function in
      a monad with the request, the response, the calls of the plug-ins and the
      exceptions that are caught, each of its phases a definition;
      handleMessage and handleRequest move requests between the semaphore and
      the thread pool.  It joins [ProxyRoutes], [RouteStateMsg],
      [ForwardRules], [SipXauthIdentity], [SipNonceDb] and [HttpAuth].
      [SipRouterSpec]: its theorems.
    - [AuthPlugins]: the plug-ins EnforceAuthRules, SubscriptionAuth,
      CallDestination, CallerAlertInfo and RequestLinter of
      [sipXproxy/lib/authplugins], as values of the interface the router calls,
      over the rule files of [UrlMapping].

    The string refinement carries the upper layers: from [BranchId] on, a
    UtlString is its contents and a container the sequence or map it was
    proved to implement ([UtlSListSpec], [UtlSortedListSpec]).

    ** What the theorems show

    Refinements: any sequence of operations of UtlSortedList and UtlHashMap,
    any sequence of the mutators of UtlString (but for growing with capacity
    and for arguments inside the string itself), and any interleaving of a list
    iterator with changes of its list, ends without undefined behaviour and
    returns what the same operations return on byte strings, sequences, sorted
    sequences and association lists; so does one of UtlSList, exactly unless
    UtlSList::find runs into the end of the list, where it calls a member
    through a null pointer.  Codecs: base64 decoding inverts
    encoding and never leaves its buffers on strings without a final newline;
    streaming MD5 equals the reference digest.  Identifiers: branch ids of
    consecutive transactions differ, and a request that loops back is
    detected.  Dialog state: the parameters of a RouteState are a finite map,
    its tokens decode to what they were made from, and only correctly signed
    text is accepted; the state a proxy writes into a Record-Route is found
    again by the requests of the dialog (and cannot be changed there) and by
    the same request on a spiral (where it can).  Headers: printed headers are parsed back, the header
    table is a sequence of values per name, subfields are found by index.
    URLs: parsing ends on every text without undefined behaviour and leaves
    members of the right grammar, a printed SIP URL is parsed back, parameter
    operations are those of tables from names to values, identities are
    equal exactly for equal addresses, and any parsed URL prints.  Routing:
    the route processing of a request ends, leaves neither a request URI nor
    a first Route that names this proxy, and records, in order, the URLs of
    this proxy it resolved; among those a request of a dialog carries the state
    of the dialog.
    Registration: a nonce is accepted for its call until it expires and for
    another call only with a collision of MD5; a response that is built from
    a request is recognised as its response.  Redirection: over every run of
    messages each request is answered once or waits for a plug-in that owes a
    call back (or a warning of a plug-in overflows its buffer), list and heap
    of the suspended requests stay in step, a plug-in is asked exactly if it
    has the authority of the last one that succeeded with changed contacts,
    a 302 carries the contacts that were found, a plug-in that asked for time
    is told when the request is over and called no more, stale call backs do nothing
    and a shutdown cancels and frees everything.
    Dial rules: a user pattern finds exactly the users its notation describes
    and its variable digits are what follows the constants, a wildcard stands
    for a domain and the names under it, a subnet for the addresses with its
    prefix; the permissions are those of the first rule of the file that
    matches as the schema says; the tokens of a transform are replaced by what they stand for, and
    each transform of a rule that follows the schema gives the contact its
    elements describe.
    Forwarding: the target of a request is that of the first route that
    matches it.  Identities: a signed identity that was inserted is read back,
    and what is accepted carries the digest over the secret, the time and the
    identity.  The proxy: a request is sent on only when the plug-ins allowed
    it or the forwarding rules trust it, a user counts as authenticated only
    with the digest over its password and a nonce of this call, who answers a
    challenge rightly is authenticated, refusals have the status of their
    reason, and the places of the thread pool are free, in use or lost.
    Authorization: behind plug-ins that decide nothing, EnforceAuthRules lets a
    new request pass only for a user with a permission its rules ask for.
    Concurrency: in every interleaving the
    lock excludes writers and loses no wake-up, the queue is a bounded FIFO
    whose sleepers are only those that must wait, and a one-shot timer fires
    at most once, and once if it is left alone.  Dates: the HTTP date of a
    calendar time is parsed back, and the epoch count is that of the Gregorian
    calendar.  Where the code does not do what it means to do, a theorem
    states the exact behaviour (growing [capacity] loses the terminator,
    appending a string to itself, hash map iterators under removal, the final
    newline in base64, [topViaIsMyBranch], [setSecret], [stringHash], folded
    headers, Record-Route indexes, escaped characters of user patterns, unset and empty RouteStates,
    [tryAcquireWrite], timers restarted while they fire, six-digit ports and
    quotes in field parameters of a Url, the buffer of a Warning header,
    searches for extensions that do not end, UtlSList::find at the end of its
    list, exceptions of redirect plug-ins, Event headers with parameters, route flags that survive a mismatch, identities signed without
    delimiters, identities asserted for another user, places lost when the
    pool has no thread).

    ** Bounds and fuel

    Loops over links take the number of heap cells plus one as fuel, which a
    well-formed chain cannot exceed; the theorems conclude [Ok], never "if it
    returns".  Loops that consume a list are structural.  The hash map
    theorem assumes fewer than 3*2^30 entries, where doubling the buckets
    would shift an [int] out of its range.  String theorems are stated up to
    any bound [B] with [B + 301 <= PTRDIFF_MAX], the largest object.  The
    loops over field parameters and CGI variables take the length of the text
    plus one as fuel; every round takes a character.  Route processing takes
    the number of routes plus two; its theorem is for Route headers up to
    65536 characters and texts whose escaping stays below 10^8.  The redirect
    server is run for fewer than 3*2^30 messages, so that its sequence numbers
    do not wrap; its loops over the suspend list take the number of entries
    plus one.  The replacement of tokens takes the length of the text plus one:
    every round goes on behind a token.  The parser of expression texts takes
    the number of their tokens plus one.  The loops over credentials take the
    number of headers, and reading attributes the length of the header.  The
    contacts that SipRouter::addNatMappingInfoToContacts changes can be without
    end, so its fuel is an argument of proxyMessage and the theorems hold for
    every fuel.  The lock theorem is for
    at most [SEMAPHORE_CNT_MAX] (100) threads, the number its semaphores
    count.  Progress theorems bound the number of steps by a measure of the
    state.

    ** Parameters

    The regular expression matcher (PCRE) is a class with laws for the
    recognizers the sources compile ([Regex]), or for a pattern syntax
    ([Pcre]), each with an instance that satisfies them; RegEx limits the
    recursion of PCRE, so a search is complete only up to a length
    ([state_limit], [pcre_limit]), and theorems about every text use only that
    what is found is right.  [gmtime] and the deadline_timer of Boost are
    represented by the documented results their callers use.  Redirect
    plug-ins, loaded at run time, are the class [RedirectPlugin]; they change
    contact lists and error descriptions only through public methods.  The
    databases of the router are a record of functions that may throw, and so
    are its authorization plug-ins, of which [AuthPlugins] has five; the thread pool is the
    result of its schedule, and boost::lexical_cast a function.  Tags of responses come from a function without NUL
    bytes.  The
    contents of fresh storage
    ([uninit], [fill]) are arbitrary functions.

    ** Not modelled

    Sockets, tasks, files, DNS, databases and logging; the vendored
    parsers; the destructors that only free memory.  Where a container or a
    string is shared, its lock is assumed to serialise the operations, as the
    code takes it around each.  Redirect plug-ins are assumed to throw only
    from lookUp, and the serialization of messages, SipUserAgent::send and the
    body of an error response are events.  The registrar, the publisher, the
    dialog and transaction state machines ([SipDialogMgr.cpp],
    [SipTransaction.cpp]) and the timers of SipUserAgent are not modelled: they
    rest on the resolver, on sockets and on databases in most of their steps.
    Of SipRouter the configuration, the statistics and exceptions of send are
    left out.  The plug-ins TransferControl, CallerAlias,
    EmergencyLineIdentifier and MSFT_ExchangeTransferHack are not modelled: the
    router's theorems hold for any plug-ins in their place. *)
From Stdlib Require Import ZArith Lia Ascii String.
From stdpp Require Import base list strings gmap sorting.
Local Open Scope Z_scope.

(** ** Outcomes of C++ code

    [Ok a] is a normal return, [Throw] an exception ([new char[n]] beyond
    the largest object size), [AssertFail] a failed [assert], and [UB] an
    access outside the storage the language gives the program. *)
Inductive outcome (A : Type) : Type :=
| Ok (a : A)
| Throw
| AssertFail
| UB.
Arguments Ok {A} a.
Arguments Throw {A}.
Arguments AssertFail {A}.
Arguments UB {A}.

Definition obind {A B : Type} (m : outcome A) (f : A -> outcome B) : outcome B :=
  match m with
  | Ok a => f a
  | Throw => Throw
  | AssertFail => AssertFail
  | UB => UB
  end.

Declare Scope outcome_scope.
Delimit Scope outcome_scope with outcome.
Notation "'let!' x ':=' c1 'in' c2" := (obind c1 (fun x => c2))
  (at level 10, x pattern, c1 at level 100, c2 at level 200) : outcome_scope.
Open Scope outcome_scope.

Definition is_ok {A : Type} (m : outcome A) : bool :=
  match m with Ok _ => true | _ => false end.

Lemma obind_Ok {A B} (m : outcome A) (f : A -> outcome B) b :
  obind m f = Ok b <-> exists a, m = Ok a /\ f a = Ok b.
Proof.
  destruct m as [a| | |]; simpl; split; try done.
  - intros H. by exists a.
  - by intros (a' & [= <-] & H).
  - by intros (a' & [=] & H).
  - by intros (a' & [=] & H).
  - by intros (a' & [=] & H).
Qed.

(** ** Machine integers

    [size_t] is 64 bits wide, [int] and [unsigned] 32 bits; conversions
    wrap as on the x86-64 Linux targets the makefiles build for. *)
Definition SIZE_MAX : Z := 2 ^ 64 - 1.
Definition PTRDIFF_MAX : Z := 2 ^ 63 - 1.
Definition to_size (z : Z) : Z := z mod 2 ^ 64.
Definition to_uint (z : Z) : Z := z mod 2 ^ 32.
Definition to_int (z : Z) : Z := (z + 2 ^ 31) mod 2 ^ 32 - 2 ^ 31.
Definition to_ssize (z : Z) : Z := (z + 2 ^ 63) mod 2 ^ 64 - 2 ^ 63.
Definition INT_MAX : Z := 2 ^ 31 - 1.

Definition INT_MIN : Z := - 2 ^ 31.
Definition LONG_MAX : Z := 2 ^ 63 - 1.
Definition LONG_MIN : Z := - 2 ^ 63.

(** The result of a signed operation: overflow is undefined behaviour. *)
Definition int_arith (z : Z) : outcome Z :=
  if (INT_MIN <=? z) && (z <=? INT_MAX) then Ok z else UB.
Definition long_arith (z : Z) : outcome Z :=
  if (LONG_MIN <=? z) && (z <=? LONG_MAX) then Ok z else UB.

Lemma int_arith_ok z : INT_MIN <= z <= INT_MAX -> int_arith z = Ok z.
Proof.
  intros [H1 H2]. unfold int_arith.
  by rewrite (proj2 (Z.leb_le _ _) H1), (proj2 (Z.leb_le _ _) H2).
Qed.

Lemma int_arith_inv z r : int_arith z = Ok r -> r = z /\ INT_MIN <= z <= INT_MAX.
Proof.
  unfold int_arith. destruct (INT_MIN <=? z) eqn:E1, (z <=? INT_MAX) eqn:E2; try done.
  intros [= <-]. apply Z.leb_le in E1, E2. done.
Qed.

Lemma long_arith_ok z : LONG_MIN <= z <= LONG_MAX -> long_arith z = Ok z.
Proof.
  intros [H1 H2]. unfold long_arith.
  by rewrite (proj2 (Z.leb_le _ _) H1), (proj2 (Z.leb_le _ _) H2).
Qed.

Lemma to_size_small z : 0 <= z <= SIZE_MAX -> to_size z = z.
Proof. unfold to_size, SIZE_MAX. intros. apply Z.mod_small. lia. Qed.

Lemma to_size_range z : 0 <= to_size z <= SIZE_MAX.
Proof. unfold to_size, SIZE_MAX. pose proof (Z.mod_pos_bound z (2 ^ 64)). lia. Qed.

Lemma to_uint_range z : 0 <= to_uint z < 2 ^ 32.
Proof. unfold to_uint. apply Z.mod_pos_bound. lia. Qed.

Lemma to_uint_small z : 0 <= z < 2 ^ 32 -> to_uint z = z.
Proof. apply Z.mod_small. Qed.

Lemma to_int_small z : - 2 ^ 31 <= z <= INT_MAX -> to_int z = z.
Proof. unfold to_int, INT_MAX. intros. rewrite Z.mod_small; lia. Qed.

(** ** Bytes

    A [char] is a byte; on the targets it is signed, so promotion to [int]
    goes through [schar]. *)
Definition NUL : ascii := Ascii.zero.
Definition uchar (c : ascii) : Z := Z.of_N (N_of_ascii c).
Definition schar (c : ascii) : Z := if uchar c <? 128 then uchar c else uchar c - 256.
Definition chr (z : Z) : ascii := ascii_of_N (Z.to_N (z mod 256)).
Definition bytes (s : string) : list ascii := String.list_ascii_of_string s.
Coercion bytes : string >-> list.

Lemma uchar_range c : 0 <= uchar c < 256.
Proof. unfold uchar. pose proof (N_ascii_bounded c). lia. Qed.

Lemma chr_uchar c : chr (uchar c) = c.
Proof.
  unfold chr. rewrite Z.mod_small by apply uchar_range.
  unfold uchar. rewrite N2Z.id. apply ascii_N_embedding.
Qed.

Lemma uchar_chr z : 0 <= z < 256 -> uchar (chr z) = z.
Proof.
  intros. unfold chr, uchar. rewrite Z.mod_small by lia.
  rewrite N_ascii_embedding by lia. lia.
Qed.

Lemma uchar_inj a b : uchar a = uchar b -> a = b.
Proof. intros H. rewrite <- (chr_uchar a), <- (chr_uchar b). by rewrite H. Qed.

Lemma uchar_NUL c : uchar c = 0 <-> c = NUL.
Proof. split; [intros H; by apply uchar_inj | by intros ->]. Qed.

(** [tolower] and [toupper] of the C locale. *)
Definition tolower (c : ascii) : ascii :=
  if (65 <=? uchar c) && (uchar c <=? 90) then chr (uchar c + 32) else c.
Definition toupper (c : ascii) : ascii :=
  if (97 <=? uchar c) && (uchar c <=? 122) then chr (uchar c - 32) else c.

Lemma tolower_idem c : tolower (tolower c) = tolower c.
Proof. destruct c as [[] [] [] [] [] [] [] []]; vm_compute; reflexivity. Qed.

Lemma tolower_NUL c : tolower c = NUL <-> c = NUL.
Proof. destruct c as [[] [] [] [] [] [] [] []]; vm_compute; split; congruence. Qed.

(** ** Results of a search over the characters of a C string

    [strcmp] and [strcasecmp] are modelled by the sign of their result, the
    only thing the C standard fixes.  A list stands for the bytes of a
    terminated string: its end counts as the terminator, and so does an
    embedded NUL. *)
Fixpoint cstr (l : list ascii) : list ascii :=
  match l with
  | [] => []
  | c :: l' => if decide (c = NUL) then [] else c :: cstr l'
  end.

Fixpoint strcmp_by (f : ascii -> ascii) (a b : list ascii) : Z :=
  match a, b with
  | [], [] => 0
  | [], y :: _ => if decide (y = NUL) then 0 else -1
  | x :: _, [] => if decide (x = NUL) then 0 else 1
  | x :: a', y :: b' =>
      if decide (f x = f y) then
        (if decide (f x = NUL) then 0 else strcmp_by f a' b')
      else if uchar (f x) <? uchar (f y) then -1 else 1
  end.

Definition strcmp : list ascii -> list ascii -> Z := strcmp_by id.
Definition strcasecmp : list ascii -> list ascii -> Z := strcmp_by tolower.

(** Lexicographic comparison, the reference for both. *)
Fixpoint lexcmp (a b : list ascii) : Z :=
  match a, b with
  | [], [] => 0
  | [], _ :: _ => -1
  | _ :: _, [] => 1
  | x :: a', y :: b' =>
      if uchar x =? uchar y then lexcmp a' b'
      else if uchar x <? uchar y then -1 else 1
  end.

Definition nul_free (l : list ascii) : Prop := Forall (fun c => c <> NUL) l.

#[global] Instance nul_free_dec l : Decision (nul_free l).
Proof. unfold nul_free. apply _. Defined.

Lemma cstr_nul_free l : nul_free (cstr l).
Proof.
  induction l as [|c l IH]; simpl; [constructor|].
  case_decide; constructor; auto.
Qed.

Lemma cstr_id l : nul_free l -> cstr l = l.
Proof.
  induction 1 as [|c l Hc Hl IH]; simpl; [done|].
  rewrite decide_False by done. by rewrite IH.
Qed.

Lemma cstr_app_nul l r : nul_free l -> cstr (l ++ NUL :: r) = l.
Proof.
  induction 1 as [|c l Hc Hl IH]; simpl.
  - done.
  - rewrite decide_False by done. by rewrite IH.
Qed.

Lemma cstr_app_term l r : cstr (l ++ NUL :: r) = cstr l.
Proof. induction l as [|c l IH]; simpl; [done|]. case_decide; congruence. Qed.

Lemma strcmp_by_lex f a b :
  (forall c, f c = NUL <-> c = NUL) ->
  strcmp_by f a b = lexcmp (f <$> cstr a) (f <$> cstr b).
Proof.
  intros Hf. revert b. induction a as [|x a IH]; intros [|y b]; simpl.
  - done.
  - by case_decide.
  - by case_decide.
  - destruct (decide (f x = f y)) as [E|E].
    + destruct (decide (f x = NUL)) as [Hx|Hx].
      * rewrite !decide_True; [done| |]; apply Hf; congruence.
      * rewrite !decide_False by (rewrite <- Hf; congruence).
        simpl. rewrite E, Z.eqb_refl. apply IH.
    + assert (uchar (f x) <> uchar (f y)) by (intros ?%uchar_inj; done).
      pose proof (uchar_range (f x)). pose proof (uchar_range (f y)).
      destruct (decide (x = NUL)) as [->|Hx]; destruct (decide (y = NUL)) as [->|Hy]; simpl.
      * done.
      * rewrite (proj2 (Hf NUL) eq_refl) in *. change (uchar NUL) with 0 in *.
        destruct (Z.ltb_spec 0 (uchar (f y))); lia.
      * rewrite (proj2 (Hf NUL) eq_refl) in *. change (uchar NUL) with 0 in *.
        destruct (Z.ltb_spec (uchar (f x)) 0); lia.
      * by rewrite (proj2 (Z.eqb_neq _ _)).
Qed.

Lemma strcmp_lex a b : strcmp a b = lexcmp (cstr a) (cstr b).
Proof.
  unfold strcmp. rewrite strcmp_by_lex by done. by rewrite !list_fmap_id.
Qed.

Lemma strcasecmp_lex a b :
  strcasecmp a b = lexcmp (tolower <$> cstr a) (tolower <$> cstr b).
Proof. apply strcmp_by_lex. apply tolower_NUL. Qed.

Lemma lexcmp_refl a : lexcmp a a = 0.
Proof. induction a; simpl; [done|]. by rewrite Z.eqb_refl. Qed.

Lemma lexcmp_eq a b : lexcmp a b = 0 <-> a = b.
Proof.
  split; [|intros ->; apply lexcmp_refl].
  revert b. induction a as [|x a IH]; intros [|y b]; simpl; try done.
  destruct (Z.eqb_spec (uchar x) (uchar y)) as [E|E].
  - intros H. apply uchar_inj in E. f_equal; auto.
  - destruct (_ <? _); done.
Qed.

Lemma lexcmp_antisym a b : lexcmp b a = - lexcmp a b.
Proof.
  revert b. induction a as [|x a IH]; intros [|y b]; simpl; try done.
  rewrite (Z.eqb_sym (uchar y)).
  destruct (Z.eqb_spec (uchar x) (uchar y)); [apply IH|].
  destruct (Z.ltb_spec (uchar x) (uchar y)), (Z.ltb_spec (uchar y) (uchar x)); lia.
Qed.

Lemma lexcmp_cases a b : lexcmp a b = -1 \/ lexcmp a b = 0 \/ lexcmp a b = 1.
Proof.
  revert b. induction a as [|x a IH]; intros [|y b]; simpl; auto.
  destruct (_ =? _); [apply IH|]. destruct (_ <? _); auto.
Qed.

Lemma lexcmp_trans a b c : lexcmp a b <= 0 -> lexcmp b c <= 0 -> lexcmp a c <= 0.
Proof.
  revert b c. induction a as [|x a IH]; intros [|y b] [|z c]; simpl; try lia.
  repeat match goal with
  | |- context [?p =? ?q] => destruct (Z.eqb_spec p q)
  | |- context [?p <? ?q] => destruct (Z.ltb_spec p q)
  end; try lia; eauto.
Qed.

Lemma strcasecmp_refl s : strcasecmp s s = 0.
Proof. rewrite strcasecmp_lex. apply lexcmp_refl. Qed.

Lemma strcmp_refl s : strcmp s s = 0.
Proof. rewrite strcmp_lex. apply lexcmp_refl. Qed.

Lemma strcmp_eq_nul_free a b : nul_free a -> nul_free b -> strcmp a b = 0 -> a = b.
Proof. intros Ha Hb. rewrite strcmp_lex, !cstr_id by done. by intros ->%lexcmp_eq. Qed.

(** The storage of a C string with these contents. *)
Definition c_str (l : list ascii) : list ascii := l ++ [NUL].

(** ** Buffers

    [read_at] and [write_at] are [memcpy]/[memmove] and array accesses:
    outside the buffer they are undefined behaviour. *)
Definition read_at (buf : list ascii) (off n : Z) : outcome (list ascii) :=
  if (0 <=? off) && (0 <=? n) && (off + n <=? Z.of_nat (length buf))
  then Ok (take (Z.to_nat n) (drop (Z.to_nat off) buf)) else UB.

Definition write_at (buf : list ascii) (off : Z) (src : list ascii) : outcome (list ascii) :=
  if (0 <=? off) && (off + Z.of_nat (length src) <=? Z.of_nat (length buf))
  then Ok (take (Z.to_nat off) buf ++ src ++ drop (Z.to_nat off + length src) buf)
  else UB.

Lemma read_at_ok buf off n :
  0 <= off -> 0 <= n -> off + n <= Z.of_nat (length buf) ->
  read_at buf off n = Ok (take (Z.to_nat n) (drop (Z.to_nat off) buf)).
Proof.
  intros. unfold read_at.
  rewrite (proj2 (Z.leb_le 0 off)), (proj2 (Z.leb_le 0 n)), (proj2 (Z.leb_le _ _)) by lia.
  done.
Qed.

Lemma write_at_ok buf off src :
  0 <= off -> off + Z.of_nat (length src) <= Z.of_nat (length buf) ->
  write_at buf off src
    = Ok (take (Z.to_nat off) buf ++ src ++ drop (Z.to_nat off + length src) buf).
Proof.
  intros. unfold write_at.
  rewrite (proj2 (Z.leb_le 0 off)), (proj2 (Z.leb_le _ _)) by lia. done.
Qed.

Lemma write_at_length buf off src buf' :
  write_at buf off src = Ok buf' -> length buf' = length buf.
Proof.
  unfold write_at. destruct (_ && _) eqn:E; [|done]. intros [= <-].
  apply andb_prop in E as [?%Z.leb_le ?%Z.leb_le].
  rewrite !length_app, length_take, length_drop. lia.
Qed.

(** The two accesses on a buffer given by its parts. *)
Lemma read_at_split a b c off n :
  off = Z.of_nat (length a) -> n = Z.of_nat (length b) ->
  read_at (a ++ b ++ c) off n = Ok b.
Proof.
  intros -> ->. rewrite read_at_ok; rewrite ?length_app; try lia.
  rewrite !Nat2Z.id, drop_app_length, take_app_length. done.
Qed.

Lemma write_at_split a b b' c off :
  off = Z.of_nat (length a) -> length b = length b' ->
  write_at (a ++ b ++ c) off b' = Ok (a ++ b' ++ c).
Proof.
  intros -> Hb. rewrite write_at_ok; rewrite ?length_app; try lia.
  rewrite Nat2Z.id, take_app_length, <- Hb, <- drop_drop.
  by rewrite !drop_app_length.
Qed.

Lemma list_split_at {A} (l : list A) (n : nat) :
  (n <= length l)%nat -> exists a b, l = a ++ b /\ length a = n.
Proof.
  intros. exists (take n l), (drop n l). rewrite take_drop, length_take. split; [done|lia].
Qed.

(** [strlen] runs off the buffer when there is no terminator in it. *)
Fixpoint strlen_from (buf : list ascii) : option Z :=
  match buf with
  | [] => None
  | c :: buf' => if decide (c = NUL) then Some 0 else (Z.succ <$> strlen_from buf')
  end.

Definition strlen (buf : list ascii) : outcome Z :=
  match strlen_from buf with Some n => Ok n | None => UB end.

Lemma strlen_terminated l r : strlen (l ++ NUL :: r) = Ok (Z.of_nat (length (cstr l))).
Proof.
  unfold strlen.
  enough (strlen_from (l ++ NUL :: r) = Some (Z.of_nat (length (cstr l)))) as -> by done.
  induction l as [|c l IH]; simpl; [done|].
  case_decide; [done|]. rewrite IH. simpl. f_equal. lia.
Qed.

Lemma take_cstr l r : take (length (cstr l)) (l ++ r) = cstr l.
Proof.
  induction l as [|c l IH]; simpl; [done|]. case_decide; simpl; [done|]. by rewrite IH.
Qed.

Lemma length_cstr l : (length (cstr l) <= length l)%nat.
Proof. induction l as [|c l IH]; simpl; [done|]. case_decide; simpl; lia. Qed.

(** ** Automation *)
Ltac zbool :=
  repeat match goal with
  | H : (_ && _)%bool = true |- _ => apply andb_prop in H as [? ?]
  | H : (_ <=? _) = true |- _ => apply Z.leb_le in H
  | H : (_ <=? _) = false |- _ => apply Z.leb_gt in H
  | H : (_ <? _) = true |- _ => apply Z.ltb_lt in H
  | H : (_ <? _) = false |- _ => apply Z.ltb_ge in H
  | H : (_ =? _) = true |- _ => apply Z.eqb_eq in H
  | H : (_ =? _) = false |- _ => apply Z.eqb_neq in H
  end.

(** Split on the integer comparisons the goal still tests. *)
Ltac zcase :=
  match goal with
  | |- context [?p <=? ?q] => destruct (Z.leb_spec p q)
  | |- context [?p <? ?q] => destruct (Z.ltb_spec p q)
  | |- context [?p =? ?q] => destruct (Z.eqb_spec p q)
  end; simpl; try lia.

(** ** Deleting by index *)

Lemma delete_ge {A} (l : list A) i : (length l <= i)%nat -> delete i l = l.
Proof. intros Hi. by rewrite delete_take_drop, take_ge, drop_ge, app_nil_r by lia. Qed.

Lemma delete_app_l {A} (l1 l2 : list A) i :
  (i < length l1)%nat -> delete i (l1 ++ l2) = delete i l1 ++ l2.
Proof. intros Hi. by rewrite !delete_take_drop, take_app_le, drop_app_le, app_assoc by lia. Qed.

Lemma delete_app_r {A} (l1 l2 : list A) i :
  (length l1 <= i)%nat -> delete i (l1 ++ l2) = l1 ++ delete (i - length l1)%nat l2.
Proof.
  intros Hi. rewrite !delete_take_drop, take_app_ge, drop_app_ge by lia.
  rewrite <- app_assoc. do 3 f_equal. lia.
Qed.

(** ** Hint databases

    [cxx] discharges the side conditions of machine arithmetic and C
    strings, [cxxb] rewrites the buffer and comparison functions. *)
Create HintDb cxx discriminated.
Create HintDb cxxb.
#[export] Hint Resolve to_size_range to_uint_range uchar_range cstr_nul_free : cxx.
#[export] Hint Resolve length_cstr lexcmp_cases : cxx.
#[export] Hint Rewrite @to_size_small @to_uint_small @to_int_small using (unfold SIZE_MAX, INT_MAX in *; lia) : cxxb.
#[export] Hint Rewrite lexcmp_refl strcmp_refl strcasecmp_refl chr_uchar tolower_idem strlen_terminated cstr_app_term : cxxb.
