(* ===== verification/UtlString.v ===== *)
(** * UtlString: the byte string class of sipXportLib

    The class of src/sipXportLib/src/utl/UtlString.cpp at the level of its
    buffer: [mpData] is the storage of [mCapacity] bytes, [mSize] the bytes
    in use.  Every store goes through [write_at], so an operation that
    leaves its buffer evaluates to [UB].  [contents] is the abstract byte
    string; the refinement theorems say what each operation does to it.
    Other components are written over [list ascii], the type of
    [contents]. *)
From Stdlib Require Import ZArith Lia Ascii String.
From stdpp Require Import base list strings.
From S2P Require Import Prelude.
Local Open Scope Z_scope.

Definition DEFAULT_UTLSTRING_CAPACITY : Z := 100.
Definition UTLSTRING_MIN_INCREMENT : Z := 100.
Definition UTLSTRING_NOT_FOUND : Z := -1.
Definition UTLSTRING_TO_END : Z := -1.
Definition MAX_NUMBER_STRING_SIZE : Z := 256.

(** The bytes of storage nobody has written yet. *)
Class Storage : Type := uninit : nat -> ascii.

(** [mOnHeap] is the test [mpData != mBuiltIn]. *)
Record UtlString : Type := mkUtlString {
  mpData : list ascii;
  mSize : Z;
  mCapacity : Z;
  mOnHeap : bool
}.

(** A [const char*] argument: null, a pointer to storage of another object
    (its readable bytes), or a pointer into the string's own buffer. *)
Inductive charptr : Type :=
| PNull
| PExt (mem : list ascii)
| PSelf (off : Z).

(** A [const UtlString&] argument: another object or [*this]. *)
Inductive strref : Type :=
| Other (t : UtlString)
| This.

Inductive StripType : Type := leading | trailing | both.
Inductive CompareCase : Type := matchCase | ignoreCase.

Definition contents (s : UtlString) : list ascii := take (Z.to_nat (mSize s)) (mpData s).

Section Operations.
Context `{Storage}.

Definition new_char (n : Z) : outcome (list ascii) :=
  if n <=? PTRDIFF_MAX then Ok (uninit <$> seq 0 (Z.to_nat n)) else Throw.

(** UtlString::UtlString(): the built-in buffer, of which only the first
    byte is initialised. *)
Definition UtlString_default : UtlString :=
  {| mpData := NUL :: (uninit <$> seq 1 99);
     mSize := 0;
     mCapacity := DEFAULT_UTLSTRING_CAPACITY;
     mOnHeap := false |}.

(** UtlString::capacity(size_t): grows the buffer by at least
    UTLSTRING_MIN_INCREMENT.  Only [mSize] bytes are copied. *)
Definition capacity (s : UtlString) (N : Z) : outcome UtlString :=
  if (mCapacity s <? N) && (0 <? N) then
    let N' := if N <? to_size (mCapacity s + UTLSTRING_MIN_INCREMENT)
              then to_size (mCapacity s + UTLSTRING_MIN_INCREMENT) else N in
    let! newData := new_char N' in
    let! newData' :=
      (if 0 <? mSize s
       then let! src := read_at (mpData s) 0 (mSize s) in write_at newData 0 src
       else write_at newData 0 [NUL]) in
    Ok {| mpData := newData'; mSize := mSize s; mCapacity := N'; mOnHeap := true |}
  else Ok s.

(** The bytes at pointer [p] once [capacity] has turned [s] into [s1]: a
    pointer into the string's own heap buffer is dangling when the buffer
    was replaced, the built-in buffer stays readable. *)
Definition read_ptr (s s1 : UtlString) (p : charptr) (n : Z) : outcome (list ascii) :=
  match p with
  | PNull => UB
  | PExt mem => read_at mem 0 n
  | PSelf off =>
      if mCapacity s =? mCapacity s1 then read_at (mpData s1) off n
      else if mOnHeap s then UB else read_at (mpData s) off n
  end.

Definition strlen_ptr (s : UtlString) (p : charptr) : outcome Z :=
  match p with
  | PNull => UB
  | PExt mem => strlen mem
  | PSelf off => strlen (drop (Z.to_nat off) (mpData s))
  end.

Definition is_null (p : charptr) : bool :=
  match p with PNull => true | _ => false end.

(** UtlString::append(const char*, size_t) *)
Definition append_n (s : UtlString) (szStr : charptr) (N : Z) : outcome UtlString :=
  if negb (is_null szStr) && (0 <? N) && negb (N =? to_size UTLSTRING_NOT_FOUND) then
    let maxCap := to_size (mSize s + N + 1) in
    let! s1 := capacity s maxCap in
    if maxCap <=? mCapacity s1 then
      let! src := read_ptr s s1 szStr N in
      let! d1 := write_at (mpData s1) (mSize s1) src in
      let! d2 := write_at d1 (mSize s1 + N) [NUL] in
      Ok {| mpData := d2; mSize := mSize s1 + N;
            mCapacity := mCapacity s1; mOnHeap := mOnHeap s1 |}
    else Ok s1
  else Ok s.

(** UtlString::append(const char* ) *)
Definition append (s : UtlString) (szStr : charptr) : outcome UtlString :=
  if is_null szStr then Ok s
  else let! n := strlen_ptr s szStr in append_n s szStr n.

(** UtlString::append(const char) *)
Definition append_char (s : UtlString) (c : ascii) : outcome UtlString :=
  append_n s (PExt [c]) 1.

Definition ref_ptr (r : strref) (off : Z) : charptr :=
  match r with
  | Other t => PExt (drop (Z.to_nat off) (mpData t))
  | This => PSelf off
  end.

Definition ref_size (s : UtlString) (r : strref) : Z :=
  match r with Other t => mSize t | This => mSize s end.

(** UtlString::append(const UtlString&) *)
Definition append_str (s : UtlString) (str : strref) : outcome UtlString :=
  append_n s (ref_ptr str 0) (ref_size s str).

(** UtlString::append(const UtlString&, size_t, size_t) *)
Definition append_sub (s : UtlString) (str : strref) (position len : Z) : outcome UtlString :=
  if position <? ref_size s str then
    let len' := if (len =? to_size UTLSTRING_TO_END)
                   || (ref_size s str <? to_size (position + len))
                then ref_size s str - position else len in
    append_n s (ref_ptr str position) len'
  else Ok s.

(** UtlString::appendFormattedNumber: [formatResult] is what snprintf
    returned and [conversionString] its buffer. *)
Definition appendFormattedNumber (s : UtlString) (formatResult : Z)
    (conversionString format : list ascii) : outcome UtlString :=
  if (0 <? formatResult) && (formatResult <? MAX_NUMBER_STRING_SIZE) then
    append s (PExt conversionString)
  else
    let! s1 := append s (PExt ("(UtlString::appendNumber format error using '" ++ [NUL])) in
    let! s2 := append s1 (PExt format) in
    append s2 (PExt ("')" ++ [NUL])).

(** UtlString::insert(size_t, const char*, size_t) *)
Definition insert_n (s : UtlString) (position : Z) (source : charptr) (sourceLength : Z)
    : outcome UtlString :=
  if position <=? mSize s then
    let! s1 := (if mCapacity s <? to_size (mSize s + sourceLength + 1)
                then capacity s (to_size (mSize s + sourceLength + 1)) else Ok s) in
    let! tail := read_at (mpData s1) position (mSize s1 - position) in
    let! d1 := write_at (mpData s1) (position + sourceLength) tail in
    let s1' := {| mpData := d1; mSize := mSize s1; mCapacity := mCapacity s1;
                  mOnHeap := mOnHeap s1 |} in
    let! src := read_ptr s s1' source sourceLength in
    let! d2 := write_at d1 position src in
    let! d3 := write_at d2 (mSize s1 + sourceLength) [NUL] in
    Ok {| mpData := d3; mSize := mSize s1 + sourceLength;
          mCapacity := mCapacity s1; mOnHeap := mOnHeap s1 |}
  else Ok s.

(** UtlString::insert(size_t, const char* ) *)
Definition insert (s : UtlString) (position : Z) (source : charptr) : outcome UtlString :=
  if negb (is_null source) && (position <? mSize s) then
    let! len := strlen_ptr s source in insert_n s position source len
  else if negb (is_null source) && (position =? mSize s) then append s source
  else Ok s.

(** UtlString::insert(size_t, const char) *)
Definition insert_char (s : UtlString) (position : Z) (source : ascii) : outcome UtlString :=
  insert_n s position (PExt [source]) 1.

(** UtlString::insert(size_t, const UtlString&) *)
Definition insert_str (s : UtlString) (start : Z) (str : strref) : outcome UtlString :=
  if (0 <=? start) && (start <=? mSize s) && (0 <? ref_size s str)
  then insert_n s start (ref_ptr str 0) (ref_size s str)
  else Ok s.

(** UtlString::remove(size_t) *)
Definition remove (s : UtlString) (pos : Z) : outcome UtlString :=
  if (0 <=? pos) && (pos <? mSize s) then
    let! d := write_at (mpData s) pos [NUL] in
    Ok {| mpData := d; mSize := pos; mCapacity := mCapacity s; mOnHeap := mOnHeap s |}
  else Ok s.

(** UtlString::remove(size_t, size_t) *)
Definition remove_n (s : UtlString) (pos N : Z) : outcome UtlString :=
  if (0 <? N) && (N <=? to_size (mSize s - pos)) && (0 <=? pos) && (pos <? mSize s) then
    let bytesToShift := to_size (mSize s - (pos + N) + 1) in
    let! tail := read_at (mpData s) (pos + N) bytesToShift in
    let! d1 := write_at (mpData s) pos tail in
    let! d2 := write_at d1 (mSize s - N) [NUL] in
    Ok {| mpData := d2; mSize := mSize s - N; mCapacity := mCapacity s;
          mOnHeap := mOnHeap s |}
  else Ok s.

(** UtlString::replaceAt *)
Definition replaceAt (s : UtlString) (pos : Z) (newChar : ascii) : outcome UtlString :=
  if pos <? mSize s then
    let! d := write_at (mpData s) pos [newChar] in
    Ok {| mpData := d; mSize := mSize s; mCapacity := mCapacity s; mOnHeap := mOnHeap s |}
  else Ok s.

(** UtlString::replace(size_t, size_t, const char*, size_t); the
    replacement is a separate object. *)
Definition replace_n (s : UtlString) (pos N : Z) (replaceStr : charptr) (L : Z)
    : outcome UtlString :=
  if is_null replaceStr then Ok s else
  let! len := strlen_ptr s replaceStr in
  if (0 <=? pos) && (0 <=? N) && (L <=? len) then
    let! n1 := append_n UtlString_default (PExt (mpData s)) pos in
    let! n2 := append_n n1 (match replaceStr with
                            | PSelf off => PExt (drop (Z.to_nat off) (mpData s))
                            | p => p end) L in
    let! n3 := (if 0 <? to_int (mSize s - N - pos)
                then append_n n2 (PExt (drop (Z.to_nat (pos + N)) (mpData s)))
                              (to_size (mSize s - N - pos))
                else Ok n2) in
    let! s1 := remove s 0 in
    append_str s1 (Other n3)
  else Ok s.

(** UtlString::replace(size_t, size_t, const char* ) *)
Definition replace (s : UtlString) (pos N : Z) (replaceStr : charptr) : outcome UtlString :=
  let! len := strlen_ptr s replaceStr in replace_n s pos N replaceStr len.

(** UtlString::replace(size_t, size_t, const UtlString&) *)
Definition replace_str (s : UtlString) (pos N : Z) (replaceStr : strref) : outcome UtlString :=
  replace_n s pos N (ref_ptr replaceStr 0) (ref_size s replaceStr).

Definition with_data (s : UtlString) (d : list ascii) : UtlString :=
  {| mpData := d; mSize := mSize s; mCapacity := mCapacity s; mOnHeap := mOnHeap s |}.

(** The loops over the first [mSize] bytes of the buffer. *)
Definition map_used (f : ascii -> ascii) (s : UtlString) : UtlString :=
  with_data s ((f <$> take (Z.to_nat (mSize s)) (mpData s)) ++ drop (Z.to_nat (mSize s)) (mpData s)).

(** UtlString::replace(const char, const char) *)
Definition replace_char (s : UtlString) (src tgt : ascii) : UtlString :=
  if bool_decide (src <> NUL) && bool_decide (tgt <> NUL) then
    map_used (fun c => if bool_decide (c = src) then tgt else c) s
  else s.

(** UtlString::toLower and UtlString::toUpper *)
Definition toLower (s : UtlString) : UtlString := map_used tolower s.
Definition toUpper (s : UtlString) : UtlString := map_used toupper s.

Definition is_blank (c : ascii) : bool :=
  (uchar c =? 9) || (uchar c =? 32) || (uchar c =? 10) || (uchar c =? 13).

(** The counting loop of the strip functions: how many of the bytes from
    the front satisfy [p]. *)
Fixpoint count_while (p : ascii -> bool) (l : list ascii) : Z :=
  match l with
  | [] => 0
  | c :: l' => if p c then 1 + count_while p l' else 0
  end.

Definition strip_leading (p : ascii -> bool) (s : UtlString) : outcome UtlString :=
  let removeLeading := count_while p (contents s) in
  if 0 <? removeLeading then remove_n s 0 removeLeading else Ok s.

Definition strip_trailing (p : ascii -> bool) (s : UtlString) : outcome UtlString :=
  let removeTrailing := count_while p (rev (contents s)) in
  if 0 <? removeTrailing then remove s (mSize s - removeTrailing) else Ok s.

(** UtlString::strip(StripType): the [both] case calls itself twice, and
    each call tests [mSize] again. *)
Definition strip (s : UtlString) (type : StripType) : outcome UtlString :=
  if 0 <? mSize s then
    match type with
    | both =>
        let! s1 := strip_leading is_blank s in
        if 0 <? mSize s1 then strip_trailing is_blank s1 else Ok s1
    | leading => strip_leading is_blank s
    | trailing => strip_trailing is_blank s
    end
  else Ok s.

(** UtlString::strip(StripType, char) *)
Definition strip_char (s : UtlString) (type : StripType) (toBeStriped : ascii) : outcome UtlString :=
  let p := fun c => bool_decide (c = toBeStriped) in
  if 0 <? mSize s then
    let! s1 := (match type with leading | both => strip_leading p s | trailing => Ok s end) in
    match type with trailing | both => strip_trailing p s1 | leading => Ok s1 end
  else Ok s.

(** UtlString::setLength *)
Definition setLength (s : UtlString) (newLength : Z) : outcome UtlString :=
  if to_size (newLength + 1) <=? mCapacity s then
    let! d := write_at (mpData s) newLength [NUL] in
    Ok {| mpData := d; mSize := newLength; mCapacity := mCapacity s; mOnHeap := mOnHeap s |}
  else AssertFail.

(** UtlString::resize *)
Definition resize (s : UtlString) (N : Z) : outcome UtlString :=
  if mSize s <? N then
    let! s1 := (if mCapacity s <=? N then capacity s (to_size (N + 1)) else Ok s) in
    let! d := write_at (mpData s1) (mSize s1) (replicate (Z.to_nat (N - mSize s1)) NUL) in
    let! d' := write_at d N [NUL] in
    Ok {| mpData := d'; mSize := N; mCapacity := mCapacity s1; mOnHeap := mOnHeap s1 |}
  else remove s N.

(** UtlString::operator=(const char* ) *)
Definition assign (s : UtlString) (szStr : charptr) : outcome UtlString :=
  let! s1 := remove s 0 in
  match szStr with
  | PNull => Ok s1
  | _ => let! n := strlen_ptr s1 szStr in
         if 0 <? n then append s1 szStr else Ok s1
  end.

(** UtlString::operator=(const UtlString&) *)
Definition assign_str (s : UtlString) (str : strref) : outcome UtlString :=
  match str with
  | This => Ok s
  | Other t =>
      let! s1 := remove s 0 in
      let! s2 := (if mCapacity s1 <? mCapacity t then capacity s1 (mCapacity t) else Ok s1) in
      append_n s2 (PExt (mpData t)) (mSize t)
  end.

(** UtlString::prepend *)
Definition prepend (s : UtlString) (szStr : charptr) : outcome UtlString :=
  let szStr' := match szStr with
                | PSelf off => PExt (drop (Z.to_nat off) (mpData s)) | p => p end in
  let! n1 := append UtlString_default szStr' in
  let! n2 := append n1 (PExt (mpData s)) in
  let! s1 := remove s 0 in
  append_str s1 (Other n2).

(** The constructors from a C string, from a counted buffer, and the two
    copy constructors. *)
Definition UtlString_of_sz (szSource : charptr) : outcome UtlString :=
  append UtlString_default szSource.

Definition UtlString_of_buf (szSource : charptr) (len : Z) : outcome UtlString :=
  append_n UtlString_default szSource len.

Definition UtlString_copy (source : UtlString) : outcome UtlString :=
  let! s := capacity UtlString_default (mCapacity source) in
  append_str s (Other source).

Definition UtlString_copy_n (source : UtlString) (len : Z) : outcome UtlString :=
  let! s := capacity UtlString_default (mCapacity source) in
  append_n s (PExt (mpData source)) (if mSize source <? len then mSize source else len).

(** operator+ in its three overloads *)
Definition plus_str (str1 str2 : UtlString) : outcome UtlString :=
  let! n := UtlString_copy str1 in append_str n (Other str2).
Definition plus_sz (str : UtlString) (szStr : charptr) : outcome UtlString :=
  let! n := UtlString_copy str in append n szStr.
Definition sz_plus (szStr : charptr) (str : UtlString) : outcome UtlString :=
  let! n := UtlString_of_sz szStr in append_str n (Other str).

(** UtlString::operator()(size_t, size_t) *)
Definition substring (s : UtlString) (start len : Z) : outcome UtlString :=
  if (start <=? mSize s) && (len =? to_size UTLSTRING_TO_END) then
    append_n UtlString_default (PExt (drop (Z.to_nat start) (mpData s))) (mSize s - start)
  else if (start <=? to_size (start + len)) && (to_size (start + len) <=? mSize s) then
    append_n UtlString_default (PExt (drop (Z.to_nat start) (mpData s))) len
  else Ok UtlString_default.

End Operations.

(** ** Accessors *)

(** UtlString::operator()(size_t) *)
Definition char_at (s : UtlString) (N : Z) : ascii :=
  if (0 <=? N) && (N <? mSize s) then default NUL (mpData s !! Z.to_nat N) else NUL.

(** The search loops: [fuel] iterations starting at [pos], stopping at the
    first position where [hit] holds. *)
Fixpoint find_loop (hit : Z -> bool) (fuel : nat) (pos : Z) : Z :=
  match fuel with
  | O => UTLSTRING_NOT_FOUND
  | S fuel' => if hit pos then pos else find_loop hit fuel' (pos + 1)
  end.

Definition byte_at (s : UtlString) (pos : Z) : option ascii := mpData s !! Z.to_nat pos.

(** UtlString::index(char, size_t) *)
Definition index_char (s : UtlString) (searchChar : ascii) (start : Z) : Z :=
  find_loop (fun pos => bool_decide (byte_at s pos = Some searchChar))
            (Z.to_nat (mSize s - start)) start.

(** memcmp and strncasecmp of the [n] bytes at [pos] with [pat]. *)
Definition memcmp_at (s : UtlString) (pat : list ascii) (pos : Z) : bool :=
  bool_decide (take (length pat) (drop (Z.to_nat pos) (mpData s)) = pat).
Definition strncasecmp_at (s : UtlString) (pat : list ascii) (pos : Z) : bool :=
  strcasecmp (take (length pat) (drop (Z.to_nat pos) (mpData s))) pat =? 0.

Definition index_loop (hit : Z -> bool) (s : UtlString) (patLen start : Z) : Z :=
  if patLen <=? mSize s then
    find_loop hit (Z.to_nat (mSize s - patLen - start + 1)) start
  else UTLSTRING_NOT_FOUND.

(** UtlString::index(const UtlString&, size_t) and its three argument form *)
Definition index_str (s searchString : UtlString) (start : Z) : Z :=
  index_loop (memcmp_at s (contents searchString)) s (mSize searchString) start.
Definition index_str_case (s searchString : UtlString) (start : Z) (type : CompareCase) : Z :=
  match type with
  | matchCase => index_str s searchString start
  | ignoreCase =>
      index_loop (strncasecmp_at s (contents searchString)) s (mSize searchString) start
  end.

(** UtlString::index(const char*, size_t) and its three argument form *)
Definition index_sz (s : UtlString) (searchStr : option (list ascii)) (start : Z) : Z :=
  match searchStr with
  | None => UTLSTRING_NOT_FOUND
  | Some p => index_loop (memcmp_at s (cstr p)) s (Z.of_nat (length (cstr p))) start
  end.
Definition index_sz_case (s : UtlString) (searchStr : option (list ascii)) (start : Z)
    (type : CompareCase) : Z :=
  match searchStr, type with
  | None, _ => UTLSTRING_NOT_FOUND
  | Some _, matchCase => index_sz s searchStr start
  | Some p, ignoreCase =>
      index_loop (strncasecmp_at s (cstr p)) s (Z.of_nat (length (cstr p))) start
  end.

(** UtlString::first, UtlString::contains and UtlString::isNull *)
Definition first_char (s : UtlString) (c : ascii) : Z := index_char s c 0.
Definition first_sz (s : UtlString) (p : option (list ascii)) : Z := index_sz s p 0.
Definition contains (s : UtlString) (searchStr : option (list ascii)) : bool :=
  negb (index_sz s searchStr 0 =? UTLSTRING_NOT_FOUND).
Definition isNull (s : UtlString) : bool := mSize s =? 0.

(** UtlString::last: the loop overwrites the position at each hit. *)
Fixpoint last_loop (l : list ascii) (searchChar : ascii) (pos found : Z) : Z :=
  match l with
  | [] => found
  | c :: l' => last_loop l' searchChar (pos + 1) (if bool_decide (c = searchChar) then pos else found)
  end.
Definition last_char (s : UtlString) (searchChar : ascii) : Z :=
  last_loop (contents s) searchChar 0 UTLSTRING_NOT_FOUND.

(** UtlString::hash: [hashValue] is [unsigned], [*pHashData] a signed char. *)
Fixpoint hash_loop (l : list ascii) (hashValue : Z) : Z :=
  match l with
  | [] => hashValue
  | c :: l' => hash_loop l' (to_uint (to_uint (Z.shiftl hashValue 5) - hashValue + schar c))
  end.
Definition hash (s : UtlString) : Z := hash_loop (contents s) 0.

(** UtlString::compareTo(const char*, CompareCase) *)
Definition compareTo_sz_case (s : UtlString) (compareStr : option (list ascii)) (type : CompareCase) : Z :=
  match type with
  | matchCase => strcmp (mpData s) (default [] compareStr)
  | ignoreCase => strcasecmp (mpData s) (default [] compareStr)
  end.

(** UtlString::compareTo(const char* ) *)
Definition compareTo_sz (s : UtlString) (compareStr : option (list ascii)) : Z :=
  match compareStr with
  | Some _ => compareTo_sz_case s compareStr matchCase
  | None => if 0 <? mSize s then 1 else 0
  end.

(** UtlString::compareTo(UtlString const*, CompareCase) *)
Definition compareTo_str (s compareStr : UtlString) (type : CompareCase) : Z :=
  if (mSize s =? 0) || (mSize compareStr =? 0) then
    if negb (mSize compareStr =? mSize s)
    then (if mSize compareStr <? mSize s then 1 else -1) else 0
  else match type with
       | matchCase => strcmp (mpData s) (mpData compareStr)
       | ignoreCase => strcasecmp (mpData s) (mpData compareStr)
       end.

(** UtlString::compareTo(UtlContainable const* ) for a UtlString argument *)
Definition compareTo (s compareContainable : UtlString) : Z :=
  compareTo_sz s (Some (mpData compareContainable)).

(** UtlString::isEqual *)
Definition isEqual (s compareContainable : UtlString) : bool := compareTo s compareContainable =? 0.

(** operator==(const char, const UtlString&) *)
Definition eq_char (compareChar : ascii) (s : UtlString) : bool :=
  (mSize s =? 1) && bool_decide (byte_at s 0 = Some compareChar).
