(* ===== verification/UtlStringRefine.v ===== *)
(** * Refinement of UtlString to byte strings

    [repr s l] relates a [UtlString] buffer to the byte string [l] it holds.
    Each mutator is shown to succeed and to act on [l] as its list-level
    specification says, then whole sequences of calls ([run_ops]) are.  The
    last part covers the accessors (search, hash, comparison) and the two
    places where the buffer discipline does not hold. *)
From Stdlib Require Import ZArith Lia Ascii String.
From stdpp Require Import base list strings.
From S2P Require Import Prelude UtlString.
Local Open Scope Z_scope.

(** ** The abstraction

    [repr s l]: the buffer of [s] holds [l] followed by a terminator, the
    size and capacity fields agree with it.  [held s l] is the same without
    the terminator, the state [capacity] leaves behind. *)
Definition held (s : UtlString) (l : list ascii) : Prop :=
  exists rest, mpData s = l ++ rest
    /\ mSize s = Z.of_nat (length l)
    /\ mCapacity s = Z.of_nat (length (mpData s))
    /\ mCapacity s <= PTRDIFF_MAX.

Definition repr (s : UtlString) (l : list ascii) : Prop :=
  exists rest, mpData s = l ++ NUL :: rest
    /\ mSize s = Z.of_nat (length l)
    /\ mCapacity s = Z.of_nat (length (mpData s))
    /\ mCapacity s <= PTRDIFF_MAX.

(** Enough address space is left to add [n] bytes. *)
Definition room (s : UtlString) (n : Z) : Prop :=
  mCapacity s + UTLSTRING_MIN_INCREMENT <= PTRDIFF_MAX
  /\ mSize s + n + 1 <= PTRDIFF_MAX.

Lemma repr_held s l : repr s l -> held s l.
Proof. intros (rest & ? & ? & ? & ?). by exists (NUL :: rest). Qed.

Lemma repr_contents s l : repr s l -> contents s = l.
Proof.
  intros (rest & Hd & Hs & _). unfold contents.
  by rewrite Hs, Hd, Nat2Z.id, take_app_length.
Qed.

Lemma repr_size s l : repr s l -> mSize s = Z.of_nat (length l).
Proof. by intros (? & ? & ? & ?). Qed.

Lemma repr_lookup s l i :
  repr s l -> (i < length l)%nat -> mpData s !! i = l !! i.
Proof. intros (rest & -> & _) Hi. by apply lookup_app_l. Qed.

Ltac size_consts :=
  unfold room, to_size, SIZE_MAX, PTRDIFF_MAX, UTLSTRING_MIN_INCREMENT, UTLSTRING_NOT_FOUND,
    UTLSTRING_TO_END, DEFAULT_UTLSTRING_CAPACITY in *.

Section Refinement.
Context `{Storage}.

Lemma repr_default : repr UtlString_default [].
Proof. exists (uninit <$> seq 1 99). repeat split; simpl; try done. Qed.

Lemma new_char_ok n :
  0 <= n <= PTRDIFF_MAX -> exists d, new_char n = Ok d /\ Z.of_nat (length d) = n.
Proof.
  intros. unfold new_char. rewrite (proj2 (Z.leb_le _ _)) by lia.
  eexists; split; [done|]. rewrite length_fmap, length_seq. lia.
Qed.

(** What [capacity] keeps when the buffer must grow, and when it need not. *)
Lemma capacity_grow s l N :
  held s l -> mCapacity s < N -> N <= PTRDIFF_MAX ->
  mCapacity s + UTLSTRING_MIN_INCREMENT <= PTRDIFF_MAX ->
  exists s', capacity s N = Ok s' /\ held s' l /\ N <= mCapacity s' <= N + UTLSTRING_MIN_INCREMENT
    /\ mCapacity s < mCapacity s'.
Proof.
  intros (rest & Hd & Hs & Hc & Hp) HN Hmax Hroom. unfold capacity.
  assert (0 <= mCapacity s) by lia.
  rewrite (proj2 (Z.ltb_lt _ _)), (proj2 (Z.ltb_lt _ _)) by lia. simpl.
  replace (to_size _) with (mCapacity s + UTLSTRING_MIN_INCREMENT)
    by (symmetry; apply to_size_small; size_consts; lia).
  set (N' := if N <? _ then _ else _).
  assert (N <= N' <= PTRDIFF_MAX /\ N' <= N + UTLSTRING_MIN_INCREMENT /\ mCapacity s < N') as (HN' & Hup & Hlt)
    by (subst N'; destruct (Z.ltb_spec N (mCapacity s + UTLSTRING_MIN_INCREMENT)); size_consts; lia).
  destruct (new_char_ok N') as (d & -> & Hd'); [lia|]. simpl.
  assert (Z.of_nat (length l) <= mCapacity s) by (rewrite Hc, Hd, length_app; lia).
  destruct (Z.ltb_spec 0 (mSize s)).
  - rewrite Hd. rewrite (read_at_split [] l rest) by (simpl; lia). simpl.
    destruct (list_split_at d (length l)) as (d1 & d2 & -> & Hl); [lia|].
    rewrite (write_at_split [] d1 l d2) by (simpl; lia). simpl.
    eexists; split; [done|]. split; [|simpl; lia].
    exists d2. simpl. rewrite !length_app in *. repeat split; try done; lia.
  - destruct l; [|simpl in *; lia].
    destruct d as [|c d]; [simpl in *; lia|].
    rewrite (write_at_split [] [c] [NUL] d) by done. simpl.
    eexists; split; [done|]. split; [|simpl; lia].
    exists (NUL :: d). simpl in *. repeat split; try done; lia.
Qed.

Lemma capacity_enough s N : N <= mCapacity s -> capacity s N = Ok s.
Proof. intros. unfold capacity. by rewrite (proj2 (Z.ltb_ge _ _)) by lia. Qed.

(** Sizes are bounded by [B], so capacities stay below [B + 201]. *)
Variable B : Z.
Hypothesis HB : B + 301 <= PTRDIFF_MAX.

Definition heldB (s : UtlString) (l : list ascii) : Prop :=
  held s l /\ mCapacity s <= B + 201.
Definition reprB (s : UtlString) (l : list ascii) : Prop :=
  repr s l /\ mCapacity s <= B + 201.

Lemma reprB_heldB s l : reprB s l -> heldB s l.
Proof. intros [? ?]; split; auto using repr_held. Qed.

Lemma heldB_size s l : heldB s l -> mSize s = Z.of_nat (length l).
Proof. by intros [(? & ? & ? & ?) ?]. Qed.

Lemma reprB_size s l : reprB s l -> mSize s = Z.of_nat (length l).
Proof. intros [? ?]. by apply repr_size. Qed.

Lemma reprB_default : 0 <= B -> reprB UtlString_default [].
Proof. split; [apply repr_default|]. simpl. size_consts. lia. Qed.

Lemma capacity_heldB s l N :
  heldB s l -> N <= B + 101 ->
  exists s', capacity s N = Ok s' /\ heldB s' l /\ N <= mCapacity s'
    /\ (s' = s \/ mCapacity s < mCapacity s').
Proof.
  intros [Hh Hb] HN. destruct (Z.le_gt_cases N (mCapacity s)) as [Hle|Hgt].
  - exists s. rewrite capacity_enough by lia. repeat split; auto.
  - destruct (capacity_grow s l N) as (s' & ? & ? & ? & ?); [done|done|size_consts; lia..|].
    exists s'. size_consts. repeat split; auto; lia.
Qed.

(** Storing [src] and a terminator after the [l] a buffer holds. *)
Lemma store_after s l src :
  held s l -> mSize s + Z.of_nat (length src) + 1 <= mCapacity s ->
  exists rest',
    (let! d1 := write_at (mpData s) (mSize s) src in
     write_at d1 (mSize s + Z.of_nat (length src)) [NUL]) = Ok ((l ++ src) ++ NUL :: rest')
    /\ length ((l ++ src) ++ NUL :: rest') = length (mpData s).
Proof.
  intros (rest & Hd & Hs & Hc & Hp) Hfit. rewrite Hd, Hs in *.
  rewrite Hc, length_app in Hfit.
  destruct (list_split_at rest (length src)) as (r1 & r2 & -> & Hr); [lia|].
  rewrite length_app in Hfit. destruct r2 as [|c r2]; [simpl in *; lia|].
  exists r2. rewrite (write_at_split l r1 src (c :: r2)) by done. simpl.
  rewrite (app_assoc l src), (write_at_split (l ++ src) [c] [NUL] r2)
    by (rewrite ?length_app; lia || done).
  simpl. split; [done|]. rewrite !length_app; simpl; lia.
Qed.

(** append(const char*, size_t) stores what the pointer yields. *)
Lemma append_n_src s l p N src :
  heldB s l -> p <> PNull -> 0 < N -> mSize s + N <= B ->
  Z.of_nat (length src) = N ->
  (forall s1, capacity s (mSize s + N + 1) = Ok s1 -> read_ptr s s1 p N = Ok src) ->
  exists s', append_n s p N = Ok s' /\ reprB s' (l ++ src).
Proof.
  intros Hh Hp HN HsB Hsrc Hread. unfold append_n.
  pose proof (heldB_size _ _ Hh) as Hs.
  replace (is_null p) with false by (destruct p; done). simpl.
  rewrite (proj2 (Z.ltb_lt _ _)) by lia.
  rewrite (proj2 (Z.eqb_neq N _)) by (size_consts; change ((-1) mod 2 ^ 64) with (2 ^ 64 - 1); lia).
  simpl. rewrite to_size_small by (size_consts; lia).
  destruct (capacity_heldB s l (mSize s + N + 1)) as (s1 & Hc1 & Hh1 & Hcap & _); [done|lia|].
  specialize (Hread s1 Hc1). rewrite Hc1. simpl. rewrite (proj2 (Z.leb_le _ _)) by done.
  rewrite Hread. simpl. pose proof (heldB_size _ _ Hh1) as Hs1. destruct Hh1 as [Hh1 HB1].
  destruct (store_after s1 l src) as (rest & Hst & Hlen); [done|lia|]. rewrite Hsrc in Hst.
  destruct (write_at (mpData s1) (mSize s1) src) as [d1| | |] eqn:E1; simpl in *; try done.
  rewrite Hst. simpl. eexists; split; [done|].
  destruct Hh1 as (r & Hd1 & _ & Hcc1 & Hp1). split; [|done].
  exists rest. simpl. rewrite Hlen. repeat split; [|lia|lia]. rewrite length_app. lia.
Qed.

Lemma append_n_zero s p : append_n s p 0 = Ok s.
Proof. unfold append_n. by rewrite andb_false_r. Qed.

Lemma append_n_repr s l mem N :
  reprB s l -> 0 <= N <= Z.of_nat (length mem) -> mSize s + N <= B ->
  exists s', append_n s (PExt mem) N = Ok s' /\ reprB s' (l ++ take (Z.to_nat N) mem).
Proof.
  intros Hr HN HsB. destruct (decide (N = 0)) as [->|HN0].
  - exists s. rewrite append_n_zero, app_nil_r. done.
  - apply append_n_src; [by apply reprB_heldB|done|lia|done|rewrite length_take; lia|].
    intros s1 _. simpl. rewrite read_at_ok by lia. by rewrite drop_0.
Qed.

(** Appending the string to itself: fine as long as the buffer is not
    replaced, or the one replaced is the built-in one. *)
Lemma append_self_repr s l :
  reprB s l -> l <> [] -> 2 * Z.of_nat (length l) <= B ->
  mOnHeap s = false \/ 2 * mSize s + 1 <= mCapacity s ->
  exists s', append_str s This = Ok s' /\ reprB s' (l ++ l).
Proof.
  intros Hr Hl HsB Hok. pose proof (reprB_size _ _ Hr) as Hs. unfold append_str. simpl.
  assert (0 < length l)%nat by (destruct l; simpl; [done|lia]).
  apply append_n_src; [by apply reprB_heldB|done|lia|lia|lia|].
  intros s1 Hc1. simpl. destruct Hr as [(rest & Hd & _ & Hc & Hp) Hb].
  assert (read_at (mpData s) 0 (mSize s) = Ok l) as Hrd
    by (rewrite Hd; apply (read_at_split [] l); simpl; lia).
  destruct (Z.le_gt_cases (mSize s + mSize s + 1) (mCapacity s)).
  - rewrite capacity_enough in Hc1 by lia. injection Hc1 as <-. by rewrite Z.eqb_refl.
  - destruct (capacity_grow s l (mSize s + mSize s + 1)) as (s1' & Hc1' & _ & _ & Hlt).
    + exists (NUL :: rest). auto.
    + lia.
    + size_consts. lia.
    + size_consts. lia.
    + rewrite Hc1 in Hc1'. injection Hc1' as <-.
      rewrite (proj2 (Z.eqb_neq _ _)) by lia. destruct Hok as [->|]; [done|lia].
Qed.

Lemma append_sz_repr s l m r :
  reprB s l -> Z.of_nat (length l + length (cstr m)) <= B ->
  exists s', append s (PExt (m ++ NUL :: r)) = Ok s' /\ reprB s' (l ++ cstr m).
Proof.
  intros Hr HsB. unfold append. simpl. rewrite strlen_terminated. simpl.
  pose proof (reprB_size _ _ Hr). pose proof (length_cstr m).
  destruct (append_n_repr s l (m ++ NUL :: r) (Z.of_nat (length (cstr m)))) as (s' & Hs' & Hr');
    [done|rewrite length_app; simpl; lia|lia|].
  exists s'. rewrite Nat2Z.id, take_cstr in Hr'. done.
Qed.

Lemma append_char_repr s l c :
  reprB s l -> Z.of_nat (length l) + 1 <= B ->
  exists s', append_char s c = Ok s' /\ reprB s' (l ++ [c]).
Proof.
  intros Hr HsB. pose proof (reprB_size _ _ Hr).
  apply (append_n_repr s l [c] 1); [done|simpl; lia|lia].
Qed.

Lemma append_str_repr s l t m :
  reprB s l -> repr t m -> Z.of_nat (length l + length m) <= B ->
  exists s', append_str s (Other t) = Ok s' /\ reprB s' (l ++ m).
Proof.
  intros Hr Ht HsB. pose proof (reprB_size _ _ Hr). pose proof (repr_size _ _ Ht) as Hts.
  unfold append_str. simpl. rewrite Hts, drop_0. destruct Ht as (rest & -> & _).
  destruct (append_n_repr s l (m ++ NUL :: rest) (Z.of_nat (length m))) as (s' & Hs' & Hr');
    [done|rewrite length_app; lia|lia|].
  exists s'. rewrite Nat2Z.id, take_app_length in Hr'. done.
Qed.

(** remove(size_t) truncates. *)
Lemma remove_repr s l pos :
  reprB s l -> 0 <= pos ->
  exists s', remove s pos = Ok s' /\ reprB s' (take (Z.to_nat pos) l).
Proof.
  intros Hr Hpos. pose proof (reprB_size _ _ Hr) as Hs. unfold remove.
  rewrite (proj2 (Z.leb_le _ _)) by lia. simpl.
  destruct (Z.ltb_spec pos (mSize s)) as [Hlt|Hge].
  - destruct Hr as [(rest & Hd & _ & Hc & Hp) Hb].
    destruct (list_split_at l (Z.to_nat pos)) as (a & b & -> & Ha); [lia|].
    rewrite length_app in *. destruct b as [|c b]; [simpl in *; lia|].
    rewrite Hd, <- app_assoc. simpl.
    rewrite (write_at_split a [c] [NUL] (b ++ NUL :: rest)) by (simpl; lia || done). simpl.
    eexists; split; [done|]. split; [|done].
    exists (b ++ NUL :: rest). rewrite <- Ha, take_app_length. simpl.
    rewrite Hd in Hc. repeat rewrite length_app in *. simpl in *.
    repeat rewrite length_app in *. simpl in *. repeat split; auto; lia.
  - exists s. rewrite take_ge by lia. done.
Qed.

(** setLength truncates too, within the contents. *)
Lemma setLength_repr s l N :
  reprB s l -> 0 <= N <= Z.of_nat (length l) ->
  exists s', setLength s N = Ok s' /\ reprB s' (take (Z.to_nat N) l).
Proof.
  intros Hr HN. pose proof (reprB_size _ _ Hr) as Hs. destruct (remove_repr s l N Hr) as (s' & E & Hr'); [lia|].
  destruct Hr as [(rest & Hd & _ & Hc & Hp) Hb].
  assert (N + 1 <= mCapacity s) as Hcap by (rewrite Hc, Hd, length_app; simpl; lia).
  unfold setLength. rewrite to_size_small by (size_consts; lia). rewrite (proj2 (Z.leb_le _ _)) by lia.
  unfold remove in E. rewrite (proj2 (Z.leb_le _ _)) in E by lia. simpl in E.
  destruct (Z.ltb_spec N (mSize s)) as [Hlt|Hge]; [by exists s'|]. injection E as <-.
  rewrite Hd. change (l ++ NUL :: rest) with (l ++ [NUL] ++ rest).
  rewrite (write_at_split l [NUL] [NUL] rest) by (simpl; lia || done). simpl. rewrite <- Hd. eexists. split; [done|].
  assert (N = mSize s) as -> by lia. by destruct s.
Qed.

(** The text that appendNumber appends. *)
Definition number_text (formatResult : Z) (text format : list ascii) : list ascii :=
  if (0 <? formatResult) && (formatResult <? MAX_NUMBER_STRING_SIZE) then cstr text
  else bytes "(UtlString::appendNumber format error using '" ++ cstr format ++ bytes "')".

Lemma appendFormattedNumber_repr s l res m r f q :
  reprB s l -> Z.of_nat (length l + length (number_text res m f)) <= B ->
  exists s', appendFormattedNumber s res (m ++ NUL :: r) (f ++ NUL :: q) = Ok s' /\ reprB s' (l ++ number_text res m f).
Proof.
  intros Hr HsB. unfold appendFormattedNumber, number_text in *. destruct (_ && _); [by apply append_sz_repr|].
  rewrite !length_app in HsB. set (a := bytes "(UtlString::appendNumber format error using '") in *. set (z := bytes "')") in *.
  destruct (append_sz_repr s l a []) as (s1 & E1 & Hr1); [done|change (cstr a) with a; lia|]. change (cstr a) with a in Hr1.
  rewrite E1. cbn [obind].
  destruct (append_sz_repr s1 (l ++ a) f q) as (s2 & -> & Hr2); [done|rewrite length_app; lia|]. cbn [obind].
  destruct (append_sz_repr s2 ((l ++ a) ++ cstr f) z []) as (s3 & E3 & Hr3); [done|rewrite !length_app; change (cstr z) with z; lia|].
  change (cstr z) with z in Hr3. exists s3. split; [exact E3|]. by rewrite <- !app_assoc in Hr3.
Qed.

(** remove(size_t, size_t) cuts [N] bytes out, when they are all there. *)
Lemma remove_n_repr s l pos N :
  reprB s l -> 0 <= pos -> 0 <= N ->
  exists s', remove_n s pos N = Ok s' /\
    reprB s' (if (pos + N <=? Z.of_nat (length l)) then
                take (Z.to_nat pos) l ++ drop (Z.to_nat (pos + N)) l else l).
Proof.
  intros Hr Hpos HN. pose proof (reprB_size _ _ Hr) as Hs. unfold remove_n.
  rewrite (proj2 (Z.leb_le 0 pos)) by lia. rewrite andb_true_r.
  destruct Hr as [(rest & Hd & _ & Hc & Hp) Hb].
  assert (Z.of_nat (length l) < mCapacity s) by (rewrite Hc, Hd, length_app; simpl; lia).
  assert (reprB s l) as Hr by (split; [exists rest|]; auto).
  destruct (Z.ltb_spec pos (mSize s)); [|rewrite andb_false_r].
  2:{ exists s. split; [done|]. destruct (Z.leb_spec (pos + N) (Z.of_nat (length l))); [|done].
      rewrite take_ge, drop_ge, app_nil_r by lia. done. }
  rewrite to_size_small, andb_true_r by (size_consts; lia).
  destruct (Z.ltb_spec 0 N); simpl.
  2:{ exists s. split; [done|]. replace N with 0 by lia. rewrite Z.add_0_r.
      rewrite take_drop. by destruct (_ <=? _). }
  rewrite Hs in *. destruct (Z.leb_spec (pos + N) (Z.of_nat (length l))).
  2:{ rewrite (proj2 (Z.leb_gt _ _)) by lia. by exists s. }
  rewrite (proj2 (Z.leb_le _ _)) by lia. rewrite to_size_small by (size_consts; lia).
  destruct (list_split_at l (Z.to_nat pos)) as (a & l2 & -> & Ha); [lia|].
  rewrite length_app in *. destruct (list_split_at l2 (Z.to_nat N)) as (b & c & -> & Hbl); [lia|].
  rewrite length_app in *. rewrite Hd.
  replace (((a ++ b ++ c) ++ NUL :: rest)) with ((a ++ b) ++ (c ++ [NUL]) ++ rest)
    by (rewrite <- !app_assoc; done).
  rewrite read_at_split by (rewrite ?length_app; simpl; lia). simpl.
  destruct (list_split_at (b ++ c ++ [NUL]) (length (c ++ [NUL]))) as (x & y & Hxy & Hx);
    [rewrite !length_app; lia|].
  replace ((a ++ b) ++ (c ++ [NUL]) ++ rest) with (a ++ x ++ (y ++ rest))
    by (rewrite (app_assoc x y rest), <- Hxy, <- !app_assoc; done).
  rewrite (write_at_split a x) by (lia || done). simpl.
  replace (a ++ (c ++ [NUL]) ++ y ++ rest) with ((a ++ c) ++ [NUL] ++ (y ++ rest))
    by (rewrite <- !app_assoc; done).
  rewrite write_at_split by (rewrite ?length_app; lia || done). simpl.
  eexists; split; [done|]. split; [|done].
  replace (take (Z.to_nat pos) (a ++ b ++ c)) with a by (rewrite <- Ha, take_app_length; done).
  replace (drop (Z.to_nat (pos + N)) (a ++ b ++ c)) with c
    by (rewrite app_assoc, drop_app_length'; [done|rewrite length_app; lia]).
  exists (y ++ rest). simpl. repeat split; auto; [rewrite length_app; lia|].
  apply (f_equal length) in Hxy. rewrite Hd in Hc.
  repeat (rewrite length_app in * || simpl in * ). lia.
Qed.

(** insert(size_t, const char*, size_t) *)
Lemma insert_n_repr s l pos mem n :
  reprB s l -> 0 <= pos <= Z.of_nat (length l) -> 0 <= n <= Z.of_nat (length mem) ->
  Z.of_nat (length l) + n <= B ->
  exists s', insert_n s pos (PExt mem) n = Ok s' /\
    reprB s' (take (Z.to_nat pos) l ++ take (Z.to_nat n) mem ++ drop (Z.to_nat pos) l).
Proof.
  intros Hr Hpos Hn HsB. pose proof (reprB_size _ _ Hr) as Hs. unfold insert_n.
  rewrite (proj2 (Z.leb_le _ _)) by lia. rewrite to_size_small by (size_consts; lia).
  assert (exists s1, (if mCapacity s <? mSize s + n + 1 then capacity s (mSize s + n + 1) else Ok s)
            = Ok s1 /\ heldB s1 l /\ mSize s + n + 1 <= mCapacity s1) as (s1 & -> & Hh1 & Hcap).
  { destruct (Z.ltb_spec (mCapacity s) (mSize s + n + 1)).
    - destruct (capacity_heldB s l (mSize s + n + 1)) as (s1 & ? & ? & ? & _); eauto using reprB_heldB; lia.
    - exists s. auto using reprB_heldB. }
  simpl. pose proof (heldB_size _ _ Hh1) as Hs1. rewrite Hs1 in *. rewrite Hs in *.
  destruct Hh1 as [(rest & Hd & _ & Hc & Hp) Hb].
  destruct (list_split_at l (Z.to_nat pos)) as (a & b & -> & Ha); [lia|].
  rewrite length_app in *. rewrite Hd in *. rewrite <- app_assoc.
  rewrite read_at_split by lia. simpl.
  destruct (list_split_at (a ++ b ++ rest) (Z.to_nat (pos + n))) as (e & f & He & Hel);
    [rewrite !length_app in *; lia|].
  rewrite He. assert (length f >= length b + 1)%nat.
  { apply (f_equal length) in He. rewrite !length_app in *. lia. }
  destruct (list_split_at f (length b)) as (f1 & f2 & -> & Hf1); [lia|].
  rewrite (write_at_split e f1 b f2) by (lia || done). simpl.
  rewrite length_app in *. destruct f2 as [|c f2]; [simpl in *; lia|].
  assert (exists y, e = a ++ y) as [y ->].
  { exists (drop (length a) e). rewrite <- (take_drop (length a) e) at 1. f_equal.
    rewrite <- (take_app_le e (f1 ++ c :: f2)) by lia. rewrite <- He. apply take_app_length. }
  rewrite length_app in *. rewrite (read_at_ok mem) by lia. simpl. rewrite <- app_assoc.
  rewrite (write_at_split a y (take (Z.to_nat n) (drop 0 mem)))
    by (rewrite ?length_take, ?length_drop; lia).
  simpl. rewrite drop_0.
  replace (a ++ take (Z.to_nat n) mem ++ b ++ c :: f2)
    with ((a ++ take (Z.to_nat n) mem ++ b) ++ [c] ++ f2) by (rewrite <- !app_assoc; done).
  rewrite (write_at_split _ [c] [NUL] f2) by (rewrite ?length_app, ?length_take; lia || done).
  simpl. eexists; split; [done|]. split; [|done].
  rewrite <- Ha, take_app_length, drop_app_length.
  exists f2. simpl. split; [done|]. split; [rewrite !length_app, length_take; lia|].
  split; [|done]. apply (f_equal length) in He.
  rewrite Hc. rewrite ?length_app, ?length_take in *. simpl in *. lia.
Qed.

Lemma replaceAt_repr s l pos c :
  reprB s l -> 0 <= pos ->
  exists s', replaceAt s pos c = Ok s' /\ reprB s' (<[Z.to_nat pos := c]> l).
Proof.
  intros Hr Hpos. pose proof (reprB_size _ _ Hr) as Hs. unfold replaceAt.
  destruct (Z.ltb_spec pos (mSize s)).
  - destruct Hr as [(rest & Hd & _ & Hc & Hp) Hb].
    destruct (list_split_at l (Z.to_nat pos)) as (a & b & -> & Ha); [lia|].
    rewrite length_app in *. destruct b as [|x b]; [simpl in *; lia|].
    rewrite Hd, <- app_assoc. simpl.
    rewrite (write_at_split a [x] [c] (b ++ NUL :: rest)) by (lia || done). simpl.
    eexists; split; [done|]. split; [|done].
    rewrite <- Ha, insert_app_r_alt, Nat.sub_diag by lia. simpl.
    exists rest. simpl. rewrite Hd in Hc. rewrite !length_app in *. simpl in *.
    rewrite length_app in *. simpl in *. rewrite <- app_assoc. simpl. repeat split; auto; lia.
  - exists s. rewrite list_insert_ge by lia. done.
Qed.

Lemma map_used_repr f s l : reprB s l -> reprB (map_used f s) (f <$> l).
Proof.
  intros Hr. pose proof (reprB_size _ _ Hr) as Hs.
  destruct Hr as [(rest & Hd & _ & Hc & Hp) Hb]. split; [|done].
  unfold map_used, with_data. rewrite Hs, Hd, Nat2Z.id, take_app_length, drop_app_length.
  exists rest. simpl. rewrite Hd in Hc. rewrite !length_app, ?length_fmap in *.
  repeat split; auto; lia.
Qed.

(** The counting loops of strip. *)
Lemma count_while_spec p l :
  0 <= count_while p l <= Z.of_nat (length l)
  /\ Forall (fun c => p c = true) (take (Z.to_nat (count_while p l)) l)
  /\ (forall c, l !! Z.to_nat (count_while p l) = Some c -> p c = false).
Proof.
  induction l as [|c l IH]; simpl; [by repeat split|]. destruct IH as (IH1 & IH2 & IH3).
  destruct (p c) eqn:E.
  - replace (Z.to_nat (1 + count_while p l)) with (S (Z.to_nat (count_while p l))) by lia.
    simpl. repeat split; [lia|lia|by constructor|done].
  - simpl. repeat split; [lia|lia|constructor|naive_solver].
Qed.

Definition strip_front (p : ascii -> bool) (l : list ascii) : list ascii :=
  drop (Z.to_nat (count_while p l)) l.
Definition strip_back (p : ascii -> bool) (l : list ascii) : list ascii :=
  rev (strip_front p (rev l)).

Lemma strip_leading_repr p s l :
  reprB s l -> exists s', strip_leading p s = Ok s' /\ reprB s' (strip_front p l).
Proof.
  intros Hr. unfold strip_leading, strip_front. rewrite (repr_contents s l) by apply Hr.
  destruct (count_while_spec p l) as (Hc & _). destruct (Z.ltb_spec 0 (count_while p l)).
  - destruct (remove_n_repr s l 0 (count_while p l)) as (s' & ? & Hr'); [done|lia|lia|].
    exists s'. split; [done|]. rewrite (proj2 (Z.leb_le _ _)) in Hr' by lia. done.
  - exists s. replace (count_while p l) with 0 by lia. done.
Qed.

Lemma strip_trailing_repr p s l :
  reprB s l -> exists s', strip_trailing p s = Ok s' /\ reprB s' (strip_back p l).
Proof.
  intros Hr. unfold strip_trailing, strip_back, strip_front.
  pose proof (reprB_size _ _ Hr) as Hs.
  rewrite (repr_contents s l) by apply Hr.
  destruct (count_while_spec p (rev l)) as (Hc & _). rewrite length_rev in Hc.
  set (n := count_while p (rev l)) in *.
  assert (rev (drop (Z.to_nat n) (rev l)) = take (length l - Z.to_nat n) l) as ->.
  { rewrite skipn_rev, rev_involutive. done. }
  destruct (Z.ltb_spec 0 n).
  - destruct (remove_repr s l (mSize s - n)) as (s' & ? & Hr'); [done|lia|].
    exists s'. split; [done|]. replace (Z.to_nat (mSize s - n)) with (length l - Z.to_nat n)%nat in Hr' by lia.
    done.
  - exists s. split; [done|]. rewrite take_ge by lia. done.
Qed.

Lemma cstr_prefix l : exists r, l = cstr l ++ r.
Proof.
  induction l as [|c l [r IH]]; simpl; [by exists []|].
  case_decide; [by exists (c :: l)|]. exists r. simpl. by rewrite <- IH.
Qed.

Definition blank_both (p : ascii -> bool) (l : list ascii) : list ascii :=
  strip_back p (strip_front p l).

Definition strip_spec (p : ascii -> bool) (type : StripType) (l : list ascii) : list ascii :=
  match type with
  | leading => strip_front p l
  | trailing => strip_back p l
  | both => blank_both p l
  end.

Lemma strip_spec_nil p type : strip_spec p type [] = [].
Proof. by destruct type. Qed.

Lemma reprB_nil_size s l : reprB s l -> mSize s <= 0 -> l = [].
Proof. intros Hr ?. rewrite (reprB_size _ _ Hr) in *. destruct l; [done|simpl in *; lia]. Qed.

(** strip(StripType) *)
Lemma strip_repr s l type :
  reprB s l -> exists s', strip s type = Ok s' /\ reprB s' (strip_spec is_blank type l).
Proof.
  intros Hr. unfold strip. destruct (Z.ltb_spec 0 (mSize s)) as [Hlt|Hle].
  2:{ assert (l = []) as -> by eauto using reprB_nil_size. rewrite strip_spec_nil. eauto. }
  destruct type; simpl.
  - by apply strip_leading_repr.
  - by apply strip_trailing_repr.
  - destruct (strip_leading_repr is_blank s l) as (s1 & -> & Hr1); [done|]. simpl.
    destruct (Z.ltb_spec 0 (mSize s1)); [by apply strip_trailing_repr|].
    exists s1. split; [done|]. unfold blank_both.
    assert (strip_front is_blank l = []) as E by eauto using reprB_nil_size.
    by rewrite E in *.
Qed.

(** strip(StripType, char) *)
Lemma strip_char_repr s l type c :
  reprB s l ->
  exists s', strip_char s type c = Ok s'
    /\ reprB s' (strip_spec (fun x => bool_decide (x = c)) type l).
Proof.
  intros Hr. unfold strip_char. destruct (Z.ltb_spec 0 (mSize s)) as [Hlt|Hle].
  2:{ assert (l = []) as -> by eauto using reprB_nil_size. rewrite strip_spec_nil. eauto. }
  destruct type; simpl.
  - destruct (strip_leading_repr (fun x => bool_decide (x = c)) s l) as (s1 & -> & ?); eauto.
  - by apply strip_trailing_repr.
  - destruct (strip_leading_repr (fun x => bool_decide (x = c)) s l) as (s1 & -> & ?); [done|].
    simpl. by apply strip_trailing_repr.
Qed.

(** resize(size_t) truncates or pads with NUL bytes. *)
Lemma resize_repr s l N :
  reprB s l -> 0 <= N <= B ->
  exists s', resize s N = Ok s'
    /\ reprB s' (take (Z.to_nat N) l ++ replicate (Z.to_nat N - length l) NUL).
Proof.
  intros Hr HN. pose proof (reprB_size _ _ Hr) as Hs. unfold resize.
  destruct (Z.ltb_spec (mSize s) N) as [Hlt|Hge].
  - assert (exists s1, (if mCapacity s <=? N then capacity s (to_size (N + 1)) else Ok s) = Ok s1
              /\ heldB s1 l /\ N + 1 <= mCapacity s1) as (s1 & -> & Hh & Hcap).
    { destruct (Z.leb_spec (mCapacity s) N).
      - rewrite to_size_small by (size_consts; lia).
        destruct (capacity_heldB s l (N + 1)) as (s1 & ? & ? & ? & _);
          [by apply reprB_heldB|lia|eauto].
      - exists s. split; [done|]. split; [by apply reprB_heldB|lia]. }
    simpl. pose proof (heldB_size _ _ Hh) as Hs1. destruct Hh as [Hh Hb].
    set (pad := replicate (Z.to_nat (N - mSize s1)) NUL).
    assert (Z.of_nat (length pad) = N - mSize s1) as Hpad by (subst pad; rewrite length_replicate; lia).
    destruct (store_after s1 l pad) as (rest & Hst & Hlen); [done|lia|].
    replace (mSize s1 + Z.of_nat (length pad)) with N in Hst by lia.
    destruct (write_at (mpData s1) (mSize s1) pad) as [d1| | |]; simpl in *; try done.
    rewrite Hst. simpl. eexists; split; [done|]. split; [|done].
    destruct Hh as (r & Hd1 & _ & Hcc1 & Hp1).
    rewrite take_ge by lia. replace (Z.to_nat N - length l)%nat with (Z.to_nat (N - mSize s1)) by lia.
    fold pad. exists rest. simpl. rewrite Hlen. rewrite length_app. repeat split; auto; lia.
  - destruct (remove_repr s l N) as (s' & ? & ?); [done|lia|]. exists s'. split; [done|].
    replace (Z.to_nat N - length l)%nat with 0%nat by lia. simpl. by rewrite app_nil_r.
Qed.

(** operator=(const char* ) *)
Lemma assign_repr s l m r :
  reprB s l -> Z.of_nat (length (cstr m)) <= B ->
  exists s', assign s (PExt (m ++ NUL :: r)) = Ok s' /\ reprB s' (cstr m).
Proof.
  intros Hr Hm. unfold assign. destruct (remove_repr s l 0) as (s1 & -> & Hr1); [done|lia|].
  simpl in *. rewrite strlen_terminated. simpl. destruct (Z.ltb_spec 0 (Z.of_nat (length (cstr m)))).
  - apply (append_sz_repr s1 [] m r Hr1). simpl. lia.
  - exists s1. split; [done|]. destruct (cstr m); [done|simpl in *; lia].
Qed.

(** The terminator survives [capacity] only in an empty string. *)
Lemma capacity_empty s s' N :
  repr s [] -> held s' [] -> capacity s N = Ok s' -> repr s' [].
Proof.
  intros Hr (r & Hd & Hs & Hc & Hp) E. revert E. unfold capacity.
  rewrite (repr_size _ _ Hr). simpl. destruct (_ && _); [|by intros [= <-]].
  destruct (new_char _) as [d| | |]; simpl; try done.
  unfold write_at. destruct d as [|c d]; simpl; [done|]. case_match; simpl; [|done].
  intros [= <-]. exists (drop 0 d). simpl in *. by repeat split.
Qed.

(** operator=(const UtlString&) *)
Lemma assign_str_repr s l t m :
  reprB s l -> reprB t m -> Z.of_nat (length m) <= B -> mCapacity t <= B + 101 ->
  exists s', assign_str s (Other t) = Ok s' /\ reprB s' m.
Proof.
  intros Hr Ht Hm Hct. unfold assign_str.
  destruct (remove_repr s l 0) as (s1 & -> & Hr1); [done|lia|]. simpl in *.
  assert (exists s2, (if mCapacity s1 <? mCapacity t then capacity s1 (mCapacity t) else Ok s1) = Ok s2
            /\ heldB s2 [] /\ (m = [] -> reprB s2 [])) as (s2 & -> & Hh2 & Hnil).
  { destruct (Z.ltb_spec (mCapacity s1) (mCapacity t)); [|eauto using reprB_heldB].
    destruct (capacity_heldB s1 [] (mCapacity t)) as (s2 & E & Hh & _);
      [by apply reprB_heldB|lia|].
    exists s2. split; [done|]. split; [done|]. intros _.
    split; [|apply Hh]. eapply capacity_empty; [apply Hr1|apply Hh|done]. }
  simpl. pose proof (reprB_size _ _ Ht) as Hts. rewrite Hts.
  destruct Ht as [(rest & Hd & _) _]. rewrite Hd.
  destruct (decide (m = [])) as [->|Hne].
  { simpl. rewrite append_n_zero. eauto. }
  assert (0 < length m)%nat by (destruct m; simpl; [done|lia]).
  apply (append_n_src s2 [] _ _ m); [done|done|lia|rewrite (heldB_size _ _ Hh2); simpl; lia|done|].
  intros s3 _. simpl. by apply (read_at_split [] m).
Qed.

(** prepend(const char* ) *)
Lemma prepend_repr s l m r :
  reprB s l -> 0 <= B -> Z.of_nat (length (cstr m) + length l) <= B ->
  exists s', prepend s (PExt (m ++ NUL :: r)) = Ok s' /\ reprB s' (cstr m ++ cstr l).
Proof.
  intros Hr HB0 Hm. unfold prepend. pose proof (length_cstr l).
  destruct (append_sz_repr UtlString_default [] m r) as (n1 & -> & Hn1);
    [by apply reprB_default|simpl; lia|]. simpl in *.
  pose proof Hr as [(rest & Hd & _) _]. rewrite Hd.
  destruct (append_sz_repr n1 (cstr m) l rest) as (n2 & -> & Hn2); [done|lia|]. simpl.
  destruct (remove_repr s l 0) as (s1 & -> & Hr1); [done|lia|]. simpl in *.
  apply (append_str_repr s1 [] n2); [done|apply Hn2|rewrite length_app; simpl; lia].
Qed.

(** replace(size_t, size_t, const char*, size_t): the tail is kept when its
    length, converted to [int], is positive. *)
Lemma replace_n_repr s l pos N m r L :
  reprB s l -> 0 <= B -> 0 <= pos <= Z.of_nat (length l) -> 0 <= N ->
  0 <= L <= Z.of_nat (length (cstr m)) ->
  - 2 ^ 31 <= Z.of_nat (length l) - N - pos <= INT_MAX ->
  let l' := take (Z.to_nat pos) l ++ take (Z.to_nat L) m ++ drop (Z.to_nat (pos + N)) l in
  Z.of_nat (length l') <= B ->
  exists s', replace_n s pos N (PExt (m ++ NUL :: r)) L = Ok s' /\ reprB s' l'.
Proof.
  intros Hr HB0 Hpos HN HL Hint l' Hl'. pose proof (reprB_size _ _ Hr) as Hs.
  pose proof (length_cstr m). unfold replace_n. simpl. rewrite strlen_terminated. simpl.
  rewrite (proj2 (Z.leb_le 0 pos)), (proj2 (Z.leb_le 0 N)), (proj2 (Z.leb_le L _)) by lia. simpl.
  subst l'. rewrite !length_app, !length_take, length_drop in Hl'.
  assert (mpData s = l ++ drop (length l) (mpData s)) as Hd.
  { destruct Hr as [(rest & -> & _) _]. by rewrite drop_app_length. }
  destruct (append_n_repr UtlString_default [] (mpData s) pos) as (n1 & -> & Hn1);
    [by apply reprB_default|rewrite Hd, length_app; lia|simpl; lia|]. simpl in *.
  rewrite Hd, take_app_le in Hn1 by lia. pose proof (reprB_size _ _ Hn1) as Hz1.
  rewrite length_take in Hz1.
  destruct (append_n_repr n1 (take (Z.to_nat pos) l) (m ++ NUL :: r) L) as (n2 & -> & Hn2);
    [done|rewrite length_app; lia|lia|]. simpl.
  rewrite take_app_le in Hn2 by lia. pose proof (reprB_size _ _ Hn2) as Hz2.
  rewrite length_app, !length_take in Hz2. rewrite to_int_small by lia.
  assert (exists n3, (if 0 <? mSize s - N - pos
             then append_n n2 (PExt (drop (Z.to_nat (pos + N)) (mpData s))) (to_size (mSize s - N - pos))
             else Ok n2) = Ok n3
           /\ reprB n3 (take (Z.to_nat pos) l ++ take (Z.to_nat L) m ++ drop (Z.to_nat (pos + N)) l))
    as (n3 & -> & Hn3).
  { destruct (Z.ltb_spec 0 (mSize s - N - pos)).
    - rewrite to_size_small by (size_consts; lia). rewrite Hd, drop_app_le by lia.
      destruct (append_n_repr n2 _ (drop (Z.to_nat (pos + N)) l ++ drop (length l) (mpData s))
                  (mSize s - N - pos) Hn2) as (n3 & -> & Hn3);
        [rewrite length_app, length_drop; lia|lia|].
      exists n3. split; [done|]. rewrite take_app_length' in Hn3 by (rewrite length_drop; lia).
      by rewrite <- app_assoc in Hn3.
    - exists n2. split; [done|]. rewrite (drop_ge l) by lia. by rewrite app_nil_r. }
  simpl. destruct (remove_repr s l 0) as (s1 & -> & Hr1); [done|lia|]. simpl in *.
  apply (append_str_repr s1 [] n3); [done|apply Hn3|].
  rewrite !length_app, !length_take, length_drop. simpl. lia.
Qed.

End Refinement.

(** ** Sequences of calls

    The public mutators as data, with the call each stands for and what it
    does to the byte string. *)
Inductive op : Type :=
| OAppend (mem : list ascii) (N : Z)
| OAppendSz (m r : list ascii)
| OAppendChar (c : ascii)
| OInsert (pos : Z) (mem : list ascii) (n : Z)
| ORemove (pos : Z)
| ORemoveN (pos N : Z)
| OReplaceAt (pos : Z) (c : ascii)
| OReplace (pos N : Z) (m r : list ascii) (L : Z)
| OReplaceChar (src tgt : ascii)
| OToLower
| OToUpper
| OStrip (type : StripType)
| OStripChar (type : StripType) (c : ascii)
| OResize (N : Z)
| OAssign (m r : list ascii)
| OPrepend (m r : list ascii)
| OSetLength (N : Z)
| OAppendNumber (formatResult : Z) (m r f q : list ascii).

Definition run_op `{Storage} (o : op) (s : UtlString) : outcome UtlString :=
  match o with
  | OAppend mem N => append_n s (PExt mem) N
  | OAppendSz m r => append s (PExt (m ++ NUL :: r))
  | OAppendChar c => append_char s c
  | OInsert pos mem n => insert_n s pos (PExt mem) n
  | ORemove pos => remove s pos
  | ORemoveN pos N => remove_n s pos N
  | OReplaceAt pos c => replaceAt s pos c
  | OReplace pos N m r L => replace_n s pos N (PExt (m ++ NUL :: r)) L
  | OReplaceChar src tgt => Ok (replace_char s src tgt)
  | OToLower => Ok (toLower s)
  | OToUpper => Ok (toUpper s)
  | OStrip type => strip s type
  | OStripChar type c => strip_char s type c
  | OResize N => resize s N
  | OAssign m r => assign s (PExt (m ++ NUL :: r))
  | OPrepend m r => prepend s (PExt (m ++ NUL :: r))
  | OSetLength N => setLength s N
  | OAppendNumber res m r f q => appendFormattedNumber s res (m ++ NUL :: r) (f ++ NUL :: q)
  end.

Definition spec_op (o : op) (l : list ascii) : list ascii :=
  match o with
  | OAppend mem N => l ++ take (Z.to_nat N) mem
  | OAppendSz m r => l ++ cstr m
  | OAppendChar c => l ++ [c]
  | OInsert pos mem n =>
      if pos <=? Z.of_nat (length l)
      then take (Z.to_nat pos) l ++ take (Z.to_nat n) mem ++ drop (Z.to_nat pos) l else l
  | ORemove pos => take (Z.to_nat pos) l
  | ORemoveN pos N =>
      if pos + N <=? Z.of_nat (length l)
      then take (Z.to_nat pos) l ++ drop (Z.to_nat (pos + N)) l else l
  | OReplaceAt pos c => <[Z.to_nat pos := c]> l
  | OReplace pos N m r L =>
      take (Z.to_nat pos) l ++ take (Z.to_nat L) m ++ drop (Z.to_nat (pos + N)) l
  | OReplaceChar src tgt =>
      if bool_decide (src <> NUL) && bool_decide (tgt <> NUL)
      then (fun c => if bool_decide (c = src) then tgt else c) <$> l else l
  | OToLower => tolower <$> l
  | OToUpper => toupper <$> l
  | OStrip type => strip_spec is_blank type l
  | OStripChar type c => strip_spec (fun x => bool_decide (x = c)) type l
  | OResize N => take (Z.to_nat N) l ++ replicate (Z.to_nat N - length l) NUL
  | OAssign m r => cstr m
  | OPrepend m r => cstr m ++ cstr l
  | OSetLength N => take (Z.to_nat N) l
  | OAppendNumber res m r f q => l ++ number_text res m f
  end.

(** The arguments are what the C++ types and the callee's reads require;
    no intermediate string is longer than [B]. *)
Definition valid_op (B : Z) (o : op) (l : list ascii) : Prop :=
  match o with
  | OAppend mem N => 0 <= N <= Z.of_nat (length mem)
  | OInsert pos mem n => 0 <= pos /\ 0 <= n <= Z.of_nat (length mem)
  | ORemove pos | OReplaceAt pos _ => 0 <= pos
  | ORemoveN pos N => 0 <= pos /\ 0 <= N
  | OReplace pos N m r L =>
      0 <= pos <= Z.of_nat (length l) /\ 0 <= N /\ 0 <= L <= Z.of_nat (length (cstr m))
      /\ - 2 ^ 31 <= Z.of_nat (length l) - N - pos <= INT_MAX
  | OResize N => 0 <= N
  | OPrepend m r => Z.of_nat (length (cstr m) + length l) <= B
  | OSetLength N => 0 <= N <= Z.of_nat (length l)
  | _ => True
  end /\ Z.of_nat (length (spec_op o l)) <= B.

#[global] Instance valid_op_dec B o l : Decision (valid_op B o l).
Proof. unfold valid_op. destruct o; apply _. Defined.

Fixpoint run_ops `{Storage} (os : list op) (s : UtlString) : outcome UtlString :=
  match os with
  | [] => Ok s
  | o :: os' => let! s1 := run_op o s in run_ops os' s1
  end.

Definition spec_ops (os : list op) (l : list ascii) : list ascii :=
  foldl (fun l o => spec_op o l) l os.

Fixpoint valid_ops (B : Z) (os : list op) (l : list ascii) : Prop :=
  match os with
  | [] => True
  | o :: os' => valid_op B o l /\ valid_ops B os' (spec_op o l)
  end.

#[global] Instance valid_ops_dec B os l : Decision (valid_ops B os l).
Proof. revert l. induction os; intros l; simpl; apply _. Defined.

Lemma run_op_repr `{Storage} B o s l :
  B + 301 <= PTRDIFF_MAX -> 0 <= B -> reprB B s l -> valid_op B o l ->
  exists s', run_op o s = Ok s' /\ reprB B s' (spec_op o l).
Proof.
  intros HB HB0 Hr [Hv Hlen]. pose proof (reprB_size _ _ _ Hr) as Hs.
  destruct o; simpl in *; rewrite ?length_app, ?length_take in Hlen.
  - apply append_n_repr; auto; lia.
  - apply append_sz_repr; auto; lia.
  - apply append_char_repr; auto. simpl in *. lia.
  - destruct (Z.leb_spec pos (Z.of_nat (length l))).
    + rewrite !length_app, !length_take, length_drop in Hlen.
      apply insert_n_repr; auto; lia.
    + exists s. unfold insert_n. rewrite (proj2 (Z.leb_gt _ _)) by lia. done.
  - apply remove_repr; auto.
  - destruct Hv. apply remove_n_repr; auto.
  - apply replaceAt_repr; auto.
  - destruct Hv as (? & ? & ? & ?). apply replace_n_repr; auto.
    rewrite !length_app, ?length_take. lia.
  - eexists; split; [done|]. unfold replace_char. destruct (_ && _); auto using map_used_repr.
  - eexists; split; [done|]. by apply map_used_repr.
  - eexists; split; [done|]. by apply map_used_repr.
  - by apply strip_repr.
  - by apply strip_char_repr.
  - rewrite length_replicate in Hlen. apply resize_repr; auto; lia.
  - eapply assign_repr; eauto.
  - apply prepend_repr; auto.
  - apply setLength_repr; auto.
  - apply appendFormattedNumber_repr; auto; lia.
Qed.

Lemma reprB_repr B s l : reprB B s l -> repr s l.
Proof. by intros [? ?]. Qed.

(** C29: any sequence of these calls of UtlString mutators: append (of a C
    string, a number of bytes, a character, a formatted number), insert,
    remove, replace, strip, resize, setLength, assignment, prepend and case
    conversion, with arguments in range ([valid_op]: enough bytes to read,
    [setLength] within the contents, [replace] within the width of its int,
    no text longer than [B]) succeeds without leaving the buffer, and what it
    leaves in the buffer is what the same sequence of byte string functions
    computes; the terminator and the size and capacity fields are maintained
    throughout.  Not among the calls are capacity(N), which loses the
    terminator when it grows the buffer ([capacity_drops_terminator]), and
    calls whose argument is the string itself or a pointer into it
    ([append_self_use_after_free]). *)
Theorem run_ops_refines `{Storage} B os s l :
  0 <= B -> B + 301 <= PTRDIFF_MAX -> reprB B s l -> valid_ops B os l ->
  exists s', run_ops os s = Ok s' /\ reprB B s' (spec_ops os l).
Proof.
  intros HB0 HB. revert s l. induction os as [|o os IH]; simpl; intros s l Hr Hv; [eauto|].
  destruct Hv as [Hv Hvs]. destruct (run_op_repr B o s l) as (s1 & -> & Hr1); auto.
  simpl. eauto.
Qed.

(** The storage of the witnesses: fresh memory is full of letters. *)
#[local] Instance letters : Storage := fun _ => "x"%char.

Definition sample_ops : list op :=
  [OAppendSz (bytes "  Via: ") []; OAppend (bytes "SIP/2.0/UDP host") 11;
   OInsert 7 (bytes "now ") 4; OReplace 2 3 (bytes "v") [] 1; OStrip both;
   ORemoveN 1 1; OToUpper; OReplaceChar "/" "-"; OResize 20; ORemove 19;
   OPrepend (bytes "<") []; OAppendChar ">"; OAppendNumber 2 (bytes "42") [] (bytes "%d") []; OSetLength 19].

Lemma run_ops_refines_witness :
  exists s', run_ops sample_ops UtlString_default = Ok s'
    /\ contents s' = spec_ops sample_ops [] /\ spec_ops sample_ops [] = bytes "<V NOW SIP-2.0-UDP>".
Proof.
  destruct (run_ops_refines 1000 sample_ops UtlString_default []) as (s' & H1 & H2).
  - lia.
  - vm_compute. discriminate.
  - apply reprB_default. lia.
  - apply (bool_decide_unpack _). vm_compute. exact I.
  - exists s'. split; [exact H1|]. split; [apply repr_contents, H2|vm_compute; reflexivity].
Defined.

(** ** Growing the buffer *)

(** [capacity] does not copy the terminator.  Whenever it has to grow
    the buffer of a non-empty string, the byte after the contents is
    whatever the new storage held, so [data()] need no longer be a C
    string. *)
Theorem capacity_drops_terminator `{Storage} s l N :
  repr s l -> l <> [] -> mCapacity s < N -> N <= PTRDIFF_MAX ->
  mCapacity s + UTLSTRING_MIN_INCREMENT <= PTRDIFF_MAX ->
  exists s', capacity s N = Ok s' /\ contents s' = l
    /\ mpData s' !! length l = Some (uninit (length l)).
Proof.
  intros Hr Hl HN Hmax Hroom. pose proof (repr_size _ _ Hr) as Hs.
  destruct Hr as (rest & Hd & _ & Hc & Hp). unfold capacity.
  assert (0 < length l)%nat by (destruct l; simpl; [done|lia]).
  rewrite (proj2 (Z.ltb_lt _ _)), (proj2 (Z.ltb_lt _ _)) by lia. simpl.
  rewrite to_size_small by (size_consts; lia).
  set (N' := if N <? _ then _ else _).
  assert (N <= N' <= PTRDIFF_MAX /\ mCapacity s < N') as [HN' Hlt]
    by (subst N'; destruct (Z.ltb_spec N (mCapacity s + UTLSTRING_MIN_INCREMENT)); lia).
  assert (Z.of_nat (length l) < mCapacity s) by (rewrite Hc, Hd, length_app; simpl; lia).
  unfold new_char. rewrite (proj2 (Z.leb_le N' _)) by lia. simpl.
  rewrite (proj2 (Z.ltb_lt _ _)) by lia. rewrite Hd, (read_at_split [] l (NUL :: rest)) by (simpl; lia). simpl.
  rewrite write_at_ok by (rewrite ?length_fmap, ?length_seq; lia). simpl.
  eexists; split; [done|]. unfold contents. simpl.
  rewrite Hs, Nat2Z.id, take_app_length. split; [done|].
  rewrite lookup_app_r by lia. rewrite Nat.sub_diag, lookup_drop, Nat.add_0_r, list_lookup_fmap.
  rewrite lookup_seq_lt by lia. done.
Qed.

Definition abc : UtlString :=
  {| mpData := bytes "abc" ++ NUL :: replicate 96 "x"%char; mSize := 3; mCapacity := 100; mOnHeap := false |}.

Lemma repr_abc : repr abc (bytes "abc").
Proof. exists (replicate 96 "x"%char). repeat split; vm_compute; congruence. Qed.

Lemma capacity_drops_terminator_witness :
  exists s', capacity abc 300 = Ok s' /\ mpData s' !! 3%nat = Some "x"%char.
Proof.
  destruct (capacity_drops_terminator abc (bytes "abc") 300) as (s' & H1 & _ & H3);
    [apply repr_abc|discriminate|vm_compute; reflexivity|vm_compute; discriminate|vm_compute; discriminate|].
  exists s'. split; [exact H1|exact H3].
Defined.

(** appending a string to itself reads freed storage when its buffer is
    on the heap and has to grow: [append(str.mpData, str.mSize)] keeps a
    pointer to the buffer that [capacity] deletes. *)
Theorem append_self_use_after_free `{Storage} s l :
  repr s l -> l <> [] -> mOnHeap s = true -> mCapacity s < 2 * mSize s + 1 ->
  2 * mSize s + 1 <= PTRDIFF_MAX -> mCapacity s + UTLSTRING_MIN_INCREMENT <= PTRDIFF_MAX ->
  append_str s This = UB.
Proof.
  intros Hr Hl Hheap Hgrow Hmax Hroom. pose proof (repr_size _ _ Hr) as Hs.
  assert (0 < length l)%nat by (destruct l; simpl; [done|lia]).
  unfold append_str, append_n. simpl. rewrite (proj2 (Z.ltb_lt _ _)) by lia.
  rewrite (proj2 (Z.eqb_neq (mSize s) _)) by (size_consts; change ((-1) mod 2 ^ 64) with (2 ^ 64 - 1); lia).
  simpl. rewrite to_size_small by (size_consts; lia).
  destruct (capacity_grow s l (mSize s + mSize s + 1)) as (s1 & -> & _ & Hle & Hlt);
    [by apply repr_held|lia|lia|done|].
  simpl. rewrite (proj2 (Z.leb_le _ _)) by lia.
  rewrite (proj2 (Z.eqb_neq _ _)) by lia. by rewrite Hheap.
Qed.

Definition heap60 : UtlString :=
  {| mpData := replicate 60 "a"%char ++ NUL :: replicate 39 "x"%char;
     mSize := 60; mCapacity := 100; mOnHeap := true |}.

Lemma append_self_use_after_free_witness : append_str heap60 This = UB.
Proof.
  apply (append_self_use_after_free heap60 (replicate 60 "a"%char)); try (vm_compute; (reflexivity || discriminate)).
  exists (replicate 39 "x"%char). repeat split; vm_compute; congruence.
Defined.

(** ** Searching *)

Definition occurs_at (l pat : list ascii) (j : Z) : Prop :=
  0 <= j /\ j + Z.of_nat (length pat) <= Z.of_nat (length l)
  /\ take (length pat) (drop (Z.to_nat j) l) = pat.

(** [r] is the first position from [start] on where [P] holds, -1 if there
    is none. *)
Definition first_from (P : Z -> Prop) (start r : Z) : Prop :=
  (r = UTLSTRING_NOT_FOUND /\ forall j, start <= j -> ~ P j)
  \/ (start <= r /\ P r /\ forall j, start <= j < r -> ~ P j).

Lemma find_loop_first (P : Z -> Prop) (hit : Z -> bool) fuel pos :
  (forall j, pos <= j < pos + Z.of_nat fuel -> hit j = true <-> P j) ->
  (forall j, pos + Z.of_nat fuel <= j -> ~ P j) ->
  first_from P pos (find_loop hit fuel pos).
Proof.
  revert pos. induction fuel as [|fuel IH]; intros pos Hhit Hend; simpl.
  - left. split; [done|]. intros j Hj. apply Hend. lia.
  - destruct (hit pos) eqn:E.
    + right. repeat split; [lia|apply Hhit; [lia|done]|lia].
    + assert (~ P pos) as Hn by (intros ?%Hhit; [congruence|lia]).
      destruct (IH (pos + 1)) as [[-> Hno]|(Hle & HP & Hno)].
      * intros j Hj. apply Hhit. lia.
      * intros j Hj. apply Hend. lia.
      * left. split; [done|]. intros j Hj. destruct (decide (j = pos)) as [->|]; [done|].
        apply Hno. lia.
      * right. repeat split; [lia|done|]. intros j Hj.
        destruct (decide (j = pos)) as [->|]; [done|]. apply Hno. lia.
Qed.

Lemma memcmp_at_occurs s l pat j :
  repr s l -> 0 <= j -> j + Z.of_nat (length pat) <= Z.of_nat (length l) ->
  memcmp_at s pat j = true <-> occurs_at l pat j.
Proof.
  intros (rest & Hd & _) Hj Hfit. unfold memcmp_at, occurs_at. rewrite bool_decide_eq_true, Hd.
  rewrite drop_app_le by lia. rewrite take_app_le by (rewrite length_drop; lia). naive_solver.
Qed.

Lemma index_loop_first s l pat start :
  repr s l -> 0 <= start ->
  first_from (occurs_at l pat) start
    (index_loop (memcmp_at s pat) s (Z.of_nat (length pat)) start).
Proof.
  intros Hr Hst. pose proof (repr_size _ _ Hr) as Hs. unfold index_loop.
  destruct (Z.leb_spec (Z.of_nat (length pat)) (mSize s)).
  - apply find_loop_first.
    + intros j Hj. apply memcmp_at_occurs; [done|lia|lia].
    + intros j Hj (? & ? & _). lia.
  - left. split; [done|]. intros j Hj (? & ? & _). lia.
Qed.

(** [index] with a C string or a UtlString argument returns the first
    position, from the start position on, where the argument occurs in the
    contents, and UTLSTRING_NOT_FOUND exactly when there is none. *)
Theorem index_is_first_occurrence s l t pat start :
  repr s l -> repr t pat -> 0 <= start ->
  first_from (occurs_at l pat) start (index_str s t start)
  /\ first_from (occurs_at l (cstr pat)) start (index_sz s (Some (pat ++ [NUL])) start).
Proof.
  intros Hr Ht Hst. split.
  - unfold index_str. rewrite (repr_contents _ _ Ht), (repr_size _ _ Ht).
    by apply index_loop_first.
  - simpl. rewrite cstr_app_term. by apply index_loop_first.
Qed.

Definition lit (x : list ascii) : UtlString :=
  {| mpData := x ++ NUL :: replicate 20 "x"%char; mSize := Z.of_nat (length x);
     mCapacity := Z.of_nat (length x) + 21; mOnHeap := true |}.

Lemma repr_lit x : Z.of_nat (length x) + 21 <= PTRDIFF_MAX -> repr (lit x) x.
Proof.
  intros. exists (replicate 20 "x"%char). repeat split; simpl; [|done].
  rewrite length_app. simpl. lia.
Qed.

Lemma index_is_first_occurrence_witness :
  first_from (occurs_at (bytes "a,b;a,c") (bytes "a,")) 1
    (index_str (lit (bytes "a,b;a,c")) (lit (bytes "a,")) 1)
  /\ index_str (lit (bytes "a,b;a,c")) (lit (bytes "a,")) 1 = 4
  /\ index_str (lit (bytes "a,b;a,c")) (lit (bytes "a;")) 0 = -1.
Proof.
  split; [|split; vm_compute; reflexivity].
  eapply (proj1 (index_is_first_occurrence _ _ _ _ 1 _ _ _)).
  Unshelve. all: try (apply repr_lit; vm_compute; discriminate). lia.
Defined.

(** ** Comparison and hash: the UtlContainable contract *)

Lemma repr_cstr s l : repr s l -> cstr (mpData s) = cstr l.
Proof. intros (rest & -> & _). apply cstr_app_term. Qed.

Lemma compareTo_repr s t l m : repr s l -> repr t m -> compareTo s t = lexcmp (cstr l) (cstr m).
Proof.
  intros Hs Ht. unfold compareTo, compareTo_sz, compareTo_sz_case. simpl.
  by rewrite strcmp_lex, (repr_cstr s l), (repr_cstr t m).
Qed.

Lemma compareTo_case_repr s t l m :
  repr s l -> repr t m ->
  compareTo_sz_case s (Some (mpData t)) ignoreCase = lexcmp (tolower <$> cstr l) (tolower <$> cstr m).
Proof.
  intros Hs Ht. simpl. by rewrite strcasecmp_lex, (repr_cstr s l), (repr_cstr t m).
Qed.

(** on strings without NUL bytes UtlString meets the contract of
    UtlContainable: equality by [isEqual] is equality of the contents, equal
    strings have equal hashes, and [compareTo] is a total order. *)
Theorem utlstring_containable_contract s t u l m n :
  repr s l -> repr t m -> repr u n -> nul_free l -> nul_free m -> nul_free n ->
  (isEqual s t = true <-> l = m)
  /\ (isEqual s t = true -> hash s = hash t)
  /\ compareTo t s = - compareTo s t
  /\ (compareTo s t <= 0 -> compareTo t u <= 0 -> compareTo s u <= 0).
Proof.
  intros Hs Ht Hu Hl Hm Hn.
  assert (isEqual s t = true <-> l = m) as Heq.
  { unfold isEqual. rewrite (compareTo_repr s t l m), Z.eqb_eq, lexcmp_eq by done.
    by rewrite !cstr_id. }
  split; [done|]. split.
  { intros ->%Heq. unfold hash. by rewrite (repr_contents s m), (repr_contents t m). }
  rewrite (compareTo_repr s t l m), (compareTo_repr t s m l), (compareTo_repr t u m n),
    (compareTo_repr s u l n) by done.
  split; [apply lexcmp_antisym|apply lexcmp_trans].
Qed.

Lemma utlstring_containable_contract_witness :
  isEqual (lit (bytes "alice")) (lit (bytes "alice")) = true
  /\ hash (lit (bytes "alice")) = hash (lit (bytes "alice"))
  /\ compareTo (lit (bytes "bob")) (lit (bytes "alice")) = - compareTo (lit (bytes "alice")) (lit (bytes "bob")).
Proof.
  assert (forall x, x = bytes "alice" \/ x = bytes "bob" -> repr (lit x) x) as R
    by (intros x [->| ->]; apply repr_lit; vm_compute; discriminate).
  assert (forall x, x = bytes "alice" \/ x = bytes "bob" -> nul_free x) as F
    by (intros x [->| ->]; apply (bool_decide_unpack _); vm_compute; exact I).
  destruct (utlstring_containable_contract (lit (bytes "alice")) (lit (bytes "bob")) (lit (bytes "bob")) _ _ _
    (R _ (or_introl eq_refl)) (R _ (or_intror eq_refl)) (R _ (or_intror eq_refl))
    (F _ (or_introl eq_refl)) (F _ (or_intror eq_refl)) (F _ (or_intror eq_refl))) as (_ & _ & H & _).
  split; [vm_compute; reflexivity|]. split; [reflexivity|exact H].
Defined.

(** with embedded NUL bytes the contract fails: [isEqual] stops at the
    first NUL while [hash] covers all [mSize] bytes, so two strings can be
    equal and hash differently. *)
Theorem hash_contract_fails_on_nul :
  exists s t l m, repr s l /\ repr t m /\ isEqual s t = true /\ hash s <> hash t.
Proof.
  exists (lit [ "a"%char; NUL; "b"%char ]), (lit [ "a"%char; NUL; "c"%char ]), [ "a"%char; NUL; "b"%char ],
    [ "a"%char; NUL; "c"%char ].
  repeat split; try (apply repr_lit; vm_compute; discriminate); vm_compute; congruence.
Qed.
