(* ===== verification/Regex.v ===== *)
(** * Regular expressions

    The sources recognise text with PCRE through the class RegEx of
    src/sipXportLib/src/utl/UtlRegex.cpp.  PCRE itself is not part of the
    sources: the models take its searches as parameters whose laws are
    stated with the language of the expression.  This file has the
    expressions the sources use, their language [accepts], and a matcher by
    derivatives, proved equivalent, which the concrete searches of the
    witnesses run. *)
From Stdlib Require Import ZArith Lia Ascii String.
From stdpp Require Import base list strings.
From S2P Require Import Prelude.

(** A character class: ranges of characters, complemented when [negated]. *)
Record cls : Type := mkCls { negated : bool; ranges : list (ascii * ascii) }.

#[export] Instance cls_eq_dec : EqDecision cls.
Proof. solve_decision. Defined.

Definition in_range (c : ascii) (r : ascii * ascii) : bool :=
  (N_of_ascii (fst r) <=? N_of_ascii c)%N && (N_of_ascii c <=? N_of_ascii (snd r))%N.
Definition in_cls (c : ascii) (k : cls) : bool := xorb (negated k) (existsb (in_range c) (ranges k)).

Inductive re : Type :=
| Void
| Eps
| Cls (k : cls)
| Seq (r1 r2 : re)
| Alt (r1 r2 : re)
| Star (r : re).

#[export] Instance re_eq_dec : EqDecision re.
Proof. solve_decision. Defined.

(** [[abc]], [x{n}], [x{n,}], a literal string, [.] *)
Definition one_of (l : list ascii) : re := Cls (mkCls false ((fun c => (c, c)) <$> l)).
Definition any_char : re := Cls (mkCls true [("010"%char, "010"%char)]).
Fixpoint times (n : nat) (r : re) : re := match n with O => Eps | S n' => Seq r (times n' r) end.
Definition at_least (n : nat) (r : re) : re := Seq (times n r) (Star r).
Fixpoint re_lit (l : list ascii) : re := match l with [] => Eps | c :: l' => Seq (one_of [c]) (re_lit l') end.

Inductive accepts : re -> list ascii -> Prop :=
| MEps : accepts Eps []
| MCls k c : in_cls c k = true -> accepts (Cls k) [c]
| MSeq r1 r2 s1 s2 : accepts r1 s1 -> accepts r2 s2 -> accepts (Seq r1 r2) (s1 ++ s2)
| MAltL r1 r2 s : accepts r1 s -> accepts (Alt r1 r2) s
| MAltR r1 r2 s : accepts r2 s -> accepts (Alt r1 r2) s
| MStarNil r : accepts (Star r) []
| MStarCons r s1 s2 : accepts r s1 -> accepts (Star r) s2 -> accepts (Star r) (s1 ++ s2).

Create HintDb regex discriminated.
#[export] Hint Constructors accepts : regex.

(** ** Inversion *)

Lemma accepts_void s : ~ accepts Void s.
Proof. inversion 1. Qed.

Lemma accepts_eps s : accepts Eps s <-> s = [].
Proof. split; [by inversion 1|intros ->; constructor]. Qed.

Lemma accepts_cls k s : accepts (Cls k) s <-> exists c, s = [c] /\ in_cls c k = true.
Proof. split; [inversion 1; subst; eauto|intros (c & -> & H); by constructor]. Qed.

Lemma accepts_seq r1 r2 s :
  accepts (Seq r1 r2) s <-> exists s1 s2, s = s1 ++ s2 /\ accepts r1 s1 /\ accepts r2 s2.
Proof. split; [inversion 1; subst; eauto 10|intros (s1 & s2 & -> & H1 & H2); by constructor]. Qed.

Lemma accepts_alt r1 r2 s : accepts (Alt r1 r2) s <-> accepts r1 s \/ accepts r2 s.
Proof. split; [inversion 1; subst; eauto|intros [H|H]; eauto with regex]. Qed.

Lemma accepts_star_cons r c s :
  accepts (Star r) (c :: s) -> exists s1 s2, s = s1 ++ s2 /\ accepts r (c :: s1) /\ accepts (Star r) s2.
Proof.
  remember (Star r) as q eqn:Eq. remember (c :: s) as t eqn:Et. intros H. revert s Et.
  induction H as [| | | | |r'|r' s1 s2 H1 IH1 H2 IH2]; try discriminate; intros s Et.
  simplify_eq. destruct s1 as [|x s1]; simpl in *; [by apply IH2|]. simplify_eq. eauto.
Qed.

(** A starred class is a string of characters of the class. *)
Lemma accepts_star_cls k s : accepts (Star (Cls k)) s <-> Forall (fun c => in_cls c k = true) s.
Proof.
  split.
  - remember (Star (Cls k)) as q eqn:Eq. induction 1 as [| | | | |r|r s1 s2 H1 IH1 H2 IH2];
      try discriminate; [constructor|]. simplify_eq. apply accepts_cls in H1 as (c & -> & Hc).
    simpl. constructor; auto.
  - induction 1 as [|c s Hc Hs IH]; [constructor|].
    change (c :: s) with ([c] ++ s). by constructor; [constructor|].
Qed.

Lemma accepts_times_cls n k s :
  accepts (times n (Cls k)) s <-> length s = n /\ Forall (fun c => in_cls c k = true) s.
Proof.
  revert s. induction n as [|n IH]; intros s; simpl.
  - rewrite accepts_eps. split; [intros ->; done|intros [H _]; by apply nil_length_inv].
  - rewrite accepts_seq. split.
    + intros (s1 & s2 & -> & (c & -> & Hc)%accepts_cls & [<- Hs]%IH). simpl. auto.
    + intros [Hn Hs]. destruct s as [|c s]; [done|]. inversion Hs; subst.
      exists [c], s. split; [done|]. split; [by constructor|]. apply IH. auto.
Qed.

Lemma accepts_at_least_cls n k s :
  accepts (at_least n (Cls k)) s <-> (n <= length s)%nat /\ Forall (fun c => in_cls c k = true) s.
Proof.
  unfold at_least. rewrite accepts_seq. split.
  - intros (s1 & s2 & -> & [<- H1]%accepts_times_cls & H2%accepts_star_cls).
    rewrite length_app, Forall_app. split; [lia|done].
  - intros [Hn Hs]. rewrite <- (take_drop n s) in Hs. apply Forall_app in Hs as [H1 H2].
    exists (take n s), (drop n s). rewrite take_drop. split; [done|]. split.
    + apply accepts_times_cls. rewrite length_take. split; [lia|done].
    + by apply accepts_star_cls.
Qed.

(** ** The matcher *)

Fixpoint nullable (r : re) : bool :=
  match r with
  | Void | Cls _ => false
  | Eps | Star _ => true
  | Seq r1 r2 => nullable r1 && nullable r2
  | Alt r1 r2 => nullable r1 || nullable r2
  end.

(** Constructors that drop [Void], [Eps] and repeated alternatives, which
    keeps the derivatives small. *)
Definition mkSeq (r1 r2 : re) : re :=
  match r1 with Void => Void | Eps => r2 | _ => match r2 with Void => Void | _ => Seq r1 r2 end end.
Fixpoint alternatives (r : re) : list re :=
  match r with Alt r1 r2 => alternatives r1 ++ alternatives r2 | Void => [] | _ => [r] end.
Definition add_alt (a b : re) : re :=
  if bool_decide (b ∈ alternatives a) then a
  else match a with Void => b | _ => Alt a b end.
Definition mkAlt (a b : re) : re := foldl add_alt a (alternatives b).

Fixpoint deriv (c : ascii) (r : re) : re :=
  match r with
  | Void | Eps => Void
  | Cls k => if in_cls c k then Eps else Void
  | Seq r1 r2 =>
      if nullable r1 then mkAlt (mkSeq (deriv c r1) r2) (deriv c r2) else mkSeq (deriv c r1) r2
  | Alt r1 r2 => mkAlt (deriv c r1) (deriv c r2)
  | Star r1 => mkSeq (deriv c r1) (Star r1)
  end.

Definition re_match (r : re) (s : list ascii) : bool := nullable (foldl (fun q c => deriv c q) r s).

Lemma nullable_spec r : nullable r = true <-> accepts r [].
Proof.
  induction r as [| |k|r1 IH1 r2 IH2|r1 IH1 r2 IH2|r IH]; simpl.
  - split; [done|intros H; by apply accepts_void in H].
  - split; [constructor|done].
  - split; [done|]. intros (c & [=] & _)%accepts_cls.
  - rewrite andb_true_iff, IH1, IH2, accepts_seq. split.
    + intros [H1 H2]. by exists [], [].
    + intros (s1 & s2 & E & H1 & H2). symmetry in E. apply app_nil in E as [-> ->]. done.
  - by rewrite orb_true_iff, IH1, IH2, accepts_alt.
  - split; [constructor|done].
Qed.

Lemma mkSeq_spec r1 r2 s : accepts (mkSeq r1 r2) s <-> accepts (Seq r1 r2) s.
Proof.
  assert (forall r, accepts (Seq r Void) s <-> accepts Void s) as HV.
  { intros r. rewrite accepts_seq. split; [intros (s1 & s2 & _ & _ & H)|intros H];
      by apply accepts_void in H. }
  destruct r1; simpl; try (destruct r2; by rewrite ?HV).
  - rewrite accepts_seq. split; [intros H|intros (s1 & s2 & _ & H & _)]; by apply accepts_void in H.
  - rewrite accepts_seq. split; [intros H; exists [], s; eauto with regex|].
    intros (s1 & s2 & -> & ->%accepts_eps & H). done.
Qed.

Lemma alternatives_spec r s : accepts r s <-> exists q, q ∈ alternatives r /\ accepts q s.
Proof.
  induction r as [| |k|r1 IH1 r2 IH2|r1 IH1 r2 IH2|r IH]; simpl;
    try (split; [intros Hm; eexists; split; [by apply list_elem_of_singleton|done]
                |by intros (q & ->%list_elem_of_singleton & Hm)]).
  - split; [intros H; by apply accepts_void in H|intros (q & H & _); by apply not_elem_of_nil in H].
  - rewrite accepts_alt, IH1, IH2. split.
    + intros [(q & Hq & H)|(q & Hq & H)]; exists q; split; auto; apply elem_of_app; auto.
    + intros (q & [Hq|Hq]%elem_of_app & H); eauto.
Qed.

Lemma add_alt_spec a b s : accepts (add_alt a b) s <-> accepts a s \/ accepts b s.
Proof.
  unfold add_alt. case_bool_decide as Hin.
  - split; [auto|]. intros [H|H]; [done|]. apply alternatives_spec. eauto.
  - destruct a; rewrite ?accepts_alt; try done.
    split; [auto|intros [H|H]; [by apply accepts_void in H|done]].
Qed.

Lemma mkAlt_spec a b s : accepts (mkAlt a b) s <-> accepts (Alt a b) s.
Proof.
  unfold mkAlt. rewrite accepts_alt, (alternatives_spec b). generalize (alternatives b) as l.
  intros l. revert a. induction l as [|q l IH]; intros a; simpl.
  - split; [auto|]. intros [H|(q & H & _)]; [done|by apply not_elem_of_nil in H].
  - rewrite IH, add_alt_spec. split.
    + intros [[H|H]|(p & Hp & H)]; [auto| |]; right; eexists; split; eauto; constructor; done.
    + intros [H|(p & Hp & H)]; [auto|]. apply elem_of_cons in Hp as [->|Hp]; eauto.
Qed.

Lemma deriv_spec r c s : accepts (deriv c r) s <-> accepts r (c :: s).
Proof.
  revert s. induction r as [| |k|r1 IH1 r2 IH2|r1 IH1 r2 IH2|r IH]; intros s; simpl.
  - split; intros H; by apply accepts_void in H.
  - split; [intros H; by apply accepts_void in H|by intros ?%accepts_eps].
  - rewrite accepts_cls. destruct (in_cls c k) eqn:E.
    + rewrite accepts_eps. split; [intros ->; eauto|intros (d & [= -> ->] & _); done].
    + split; [intros H; by apply accepts_void in H|intros (d & [= <- ->] & H); congruence].
  - assert (accepts (Seq (deriv c r1) r2) s \/ (accepts r1 [] /\ accepts (deriv c r2) s)
            <-> accepts (Seq r1 r2) (c :: s)) as Hd.
    { rewrite !accepts_seq. split.
      - intros [(s1 & s2 & -> & H1%IH1 & H2)|[H1 H2%IH2]]; [by exists (c :: s1), s2|by exists [], (c :: s)].
      - intros (s1 & s2 & E & H1 & H2). destruct s1 as [|x s1]; simpl in E; subst.
        + right. by rewrite IH2.
        + simplify_eq. left. exists s1, s2. by rewrite IH1. }
    rewrite <- Hd. destruct (nullable r1) eqn:E.
    + apply nullable_spec in E. rewrite mkAlt_spec, accepts_alt, mkSeq_spec. naive_solver.
    + rewrite mkSeq_spec. split; [auto|]. intros [H|[H%nullable_spec _]]; [done|congruence].
  - by rewrite mkAlt_spec, !accepts_alt, IH1, IH2.
  - rewrite mkSeq_spec, accepts_seq. split.
    + intros (s1 & s2 & -> & H1%IH & H2). change (c :: s1 ++ s2) with ((c :: s1) ++ s2). by constructor.
    + intros (s1 & s2 & -> & H1 & H2)%accepts_star_cons. exists s1, s2. by rewrite IH.
Qed.

(** The matcher decides the language. *)
Lemma re_match_spec r s : re_match r s = true <-> accepts r s.
Proof.
  unfold re_match. revert r. induction s as [|c s IH]; intros r; simpl; [apply nullable_spec|].
  by rewrite IH, deriv_spec.
Qed.

#[export] Instance accepts_dec r s : Decision (accepts r s).
Proof. refine (cast_if (decide (re_match r s = true))); by rewrite <- re_match_spec. Defined.
