(* ===== verification/Containable.v ===== *)
(** * UtlContainable: what the containers require of their elements

    The abstract class of src/sipXportLib/include/utl/UtlContainable.h as a
    type class, its documented requirements as laws, and the instances that
    byte strings (the contents of a UtlString) and UtlInt give. *)
From Stdlib Require Import ZArith Lia Ascii String.
From stdpp Require Import base list strings.
From S2P Require Import Prelude UtlString UtlStringRefine.
Local Open Scope Z_scope.

Class Containable (A : Type) : Type := {
  hash_of : A -> Z;
  compare_to : A -> A -> Z
}.

(** UtlContainable::isEqual *)
Definition is_equal {A} `{Containable A} (a b : A) : bool := compare_to a b =? 0.

(** The requirements: [hash] is an [unsigned], [compareTo] orders the valid
    objects, and equal objects have equal hashes. *)
Class ContainableLaws (A : Type) `{Containable A} (valid : A -> Prop) : Prop := {
  hash_range : forall a, 0 <= hash_of a < 2 ^ 32;
  compare_refl : forall a, compare_to a a = 0;
  compare_flip : forall a b, Z.sgn (compare_to b a) = - Z.sgn (compare_to a b);
  compare_trans : forall a b c, compare_to a b <= 0 -> compare_to b c <= 0 -> compare_to a c <= 0;
  equal_hash : forall a b, valid a -> valid b -> compare_to a b = 0 -> hash_of a = hash_of b
}.

Section Derived.
Context {A : Type} `{ContainableLaws A valid}.

Lemma compare_sym a b : compare_to a b = 0 -> compare_to b a = 0.
Proof. intros E. pose proof (compare_flip a b) as F. rewrite E in F. simpl in F. lia. Qed.

Lemma compare_eq_trans a b c : compare_to a b = 0 -> compare_to b c = 0 -> compare_to a c = 0.
Proof.
  intros E1 E2. pose proof (compare_trans a b c). pose proof (compare_trans c b a).
  pose proof (compare_sym _ _ E1). pose proof (compare_sym _ _ E2).
  pose proof (compare_flip a c). lia.
Qed.

Lemma compare_le_flip a b : compare_to a b < 0 -> compare_to b a > 0.
Proof. pose proof (compare_flip a b). lia. Qed.

Lemma compare_ge_flip a b : compare_to a b >= 0 -> compare_to b a <= 0.
Proof. pose proof (compare_flip a b). lia. Qed.

End Derived.

(** What a hash map needs of its keys: [compareTo] decides an equivalence that
    the hash respects. *)
Class EqualLaws (A : Type) `{Containable A} (valid : A -> Prop) : Prop := {
  key_hash_range : forall a, 0 <= hash_of a < 2 ^ 32;
  key_refl : forall a, compare_to a a = 0;
  key_sym : forall a b, compare_to a b = 0 -> compare_to b a = 0;
  key_trans : forall a b c, compare_to a b = 0 -> compare_to b c = 0 -> compare_to a c = 0;
  key_equal_hash : forall a b, valid a -> valid b -> compare_to a b = 0 -> hash_of a = hash_of b
}.

#[export] Instance ContainableLaws_equal {A} `{ContainableLaws A valid} : EqualLaws A valid.
Proof.
  split.
  - apply hash_range.
  - apply compare_refl.
  - apply compare_sym.
  - apply compare_eq_trans.
  - apply equal_hash.
Qed.

(** UtlInt: an [intptr_t], hashed to its low 32 bits; compareTo returns the
    difference as an [int]. *)
Record UtlInt : Type := mkInt { mValue : Z }.
#[export] Instance UtlInt_eq_dec : EqDecision UtlInt.
Proof. solve_decision. Defined.
#[export] Instance UtlInt_Containable : Containable UtlInt := {
  hash_of := fun a => to_uint (mValue a);
  compare_to := fun a b => to_int (mValue a - mValue b)
}.

Lemma int_equal a b : compare_to (mkInt a) (mkInt b) = 0 <-> to_uint a = to_uint b.
Proof.
  simpl. unfold to_int, to_uint. split; intros E.
  - assert ((a - b) mod 2 ^ 32 = 0) as Hd.
    { assert ((a - b + 2 ^ 31) mod 2 ^ 32 = 2 ^ 31) as E' by lia.
      replace (a - b) with (a - b + 2 ^ 31 - 2 ^ 31) by lia. by rewrite Zminus_mod, E', Zminus_diag. }
    apply Z.mod_divide in Hd as [q Hq]; [|lia]. replace a with (b + q * 2 ^ 32) by lia. by rewrite Z.mod_add.
  - rewrite <- Zplus_mod_idemp_l, Zminus_mod, E, Zminus_diag. reflexivity.
Qed.

#[export] Instance UtlInt_EqualLaws : EqualLaws UtlInt (fun _ => True).
Proof.
  split.
  - intros [a]. apply to_uint_range.
  - intros [a]. by apply int_equal.
  - intros [a] [b]. rewrite !int_equal. congruence.
  - intros [a] [b] [c]. rewrite !int_equal. congruence.
  - intros [a] [b] _ _. by rewrite int_equal.
Qed.

(** Byte strings, ordered as [UtlString::compareTo] orders them. *)
#[export] Instance bytes_Containable : Containable (list ascii) := {
  hash_of := fun l => hash_loop l 0;
  compare_to := strcmp
}.

Lemma hash_loop_range l v : 0 <= v < 2 ^ 32 -> 0 <= hash_loop l v < 2 ^ 32.
Proof.
  revert v. induction l as [|c l IH]; intros v Hv; simpl; [done|].
  apply IH. apply to_uint_range.
Qed.

#[export] Instance bytes_ContainableLaws : ContainableLaws (list ascii) nul_free.
Proof.
  split; simpl.
  - intros a. apply hash_loop_range. lia.
  - intros a. rewrite strcmp_lex. apply lexcmp_refl.
  - intros a b. rewrite !strcmp_lex, lexcmp_antisym. lia.
  - intros a b c. rewrite !strcmp_lex. apply lexcmp_trans.
  - intros a b Ha Hb. rewrite strcmp_lex, !cstr_id by done. by intros ->%lexcmp_eq.
Qed.

(** The instance is what the UtlString methods compute. *)
Lemma utlstring_instance s t l m :
  repr s l -> repr t m ->
  UtlString.hash s = hash_of l /\ UtlString.compareTo s t = compare_to l m.
Proof.
  intros Hs Ht. split.
  - unfold UtlString.hash. by rewrite (repr_contents s l).
  - rewrite (compareTo_repr s t l m) by done. simpl. by rewrite strcmp_lex.
Qed.

(** ** UtlContainable::stringHash

    The loop [while (!*value)] neither advances [value] nor runs on a
    non-empty string: [None] means that [fuel] iterations did not end it. *)
Fixpoint stringHash_loop (fuel : nat) (value : list ascii) (result : Z) : option Z :=
  match fuel with
  | O => None
  | S fuel' =>
      let star := match value with [] => NUL | c :: _ => c end in
      if bool_decide (star = NUL) then
        stringHash_loop fuel' value
          (to_uint (Z.lxor (Z.lxor (Z.land result 63) (Z.shiftl result 6)) (schar star)))
      else Some result
  end.

Definition stringHash (fuel : nat) (value : list ascii) : option Z := stringHash_loop fuel value 0.

(** [stringHash] returns 0 for every non-empty C string and does not
    return for the empty one, whatever the number of iterations. *)
Theorem stringHash_degenerate :
  (forall c l fuel, c <> NUL -> stringHash (S fuel) (c :: l) = Some 0)
  /\ (forall fuel l, stringHash fuel [] = None /\ stringHash fuel (NUL :: l) = None).
Proof.
  split.
  - intros c l fuel Hc. unfold stringHash. simpl. by rewrite bool_decide_false.
  - assert (forall fuel v r, (match v with [] => NUL | c :: _ => c end) = NUL ->
              stringHash_loop fuel v r = None) as Hloop.
    { induction fuel as [|fuel IH]; intros v r Hv; simpl; [done|].
      rewrite Hv. apply IH. done. }
    intros fuel l. split; by apply Hloop.
Qed.
