(* ===== verification/UtlLink.v ===== *)
(** * UtlChain, UtlLink and the link pool of sipXportLib

    The doubly linked chains of src/sipXportLib/include/utl/UtlLink.h and
    src/sipXportLib/src/utl/UtlLink.cpp, on a heap of link blocks: a heap
    maps locations to [Link] records, a null pointer is [None], following a
    pointer to no block is [UB].  A list header is a block whose [next] is
    the head and whose [prev] is the tail of its list.  [is_list h hdr xs]
    says that the blocks [xs], in this order, form the list of [hdr]. *)
From Stdlib Require Import ZArith Lia.
From stdpp Require Import base list gmap.
From S2P Require Import Prelude.
Local Open Scope Z_scope.

Definition loc : Type := nat.

Record Link (A : Type) : Type := mkLink {
  prev : option loc;
  next : option loc;
  data : option A;
  hash : Z
}.
Arguments mkLink {A} _ _ _ _.
Arguments prev {A} _.
Arguments next {A} _.
Arguments data {A} _.
Arguments hash {A} _.

Section Chains.
Context {A : Type}.
Abbreviation heap := (gmap loc (Link A)).

Definition set_prev (p : option loc) (n : Link A) : Link A := mkLink p (next n) (data n) (hash n).
Definition set_next (p : option loc) (n : Link A) : Link A := mkLink (prev n) p (data n) (hash n).
Definition set_data (d : option A) (z : Z) (n : Link A) : Link A := mkLink (prev n) (next n) d z.

Definition deref (h : heap) (p : loc) : outcome (Link A) :=
  match h !! p with Some n => Ok n | None => UB end.

Definition upd (f : Link A -> Link A) (p : loc) (h : heap) : outcome heap :=
  match h !! p with Some n => Ok (<[p := f n]> h) | None => UB end.

(** [if (p) p->field = ...] *)
Definition upd_opt (f : Link A -> Link A) (p : option loc) (h : heap) : outcome heap :=
  match p with Some q => upd f q h | None => Ok h end.

(** UtlChain::isUnLinked *)
Definition isUnLinked (n : Link A) : bool := bool_decide (prev n = None /\ next n = None).

(** UtlChain::unchain *)
Definition unchain (this : loc) (h : heap) : outcome heap :=
  let! n := deref h this in
  let! h1 := upd_opt (set_next (next n)) (prev n) h in
  let! h2 := upd_opt (set_prev (prev n)) (next n) h1 in
  let! h3 := upd (set_prev None) this h2 in
  upd (set_next None) this h3.

(** UtlChain::chainBefore *)
Definition chainBefore (this existing : loc) (h : heap) : outcome heap :=
  let! n := deref h this in
  if isUnLinked n then
    let! h1 := upd (set_next (Some existing)) this h in
    let! e := deref h1 existing in
    let! h2 := (match prev e with Some _ => upd (set_prev (prev e)) this h1 | None => Ok h1 end) in
    let! n2 := deref h2 this in
    let! h3 := upd_opt (set_next (Some this)) (prev n2) h2 in
    upd (set_prev (Some this)) existing h3
  else AssertFail.

(** UtlChain::chainAfter *)
Definition chainAfter (this existing : loc) (h : heap) : outcome heap :=
  let! n := deref h this in
  if isUnLinked n then
    let! h1 := upd (set_prev (Some existing)) this h in
    let! e := deref h1 existing in
    let! h2 := upd (set_next (next e)) this h1 in
    let! n2 := deref h2 this in
    let! h3 := upd_opt (set_prev (Some this)) (next n2) h2 in
    upd (set_next (Some this)) existing h3
  else AssertFail.

(** UtlChain::listBefore *)
Definition listBefore (this list : loc) (existing : option loc) (h : heap) : outcome heap :=
  match existing with
  | None =>
      let! l := deref h list in
      match prev l with
      | Some t =>
          let! h1 := chainAfter this t h in
          upd (set_prev (Some this)) list h1
      | None =>
          let! h1 := upd (set_next (Some this)) list h in
          upd (set_prev (Some this)) list h1
      end
  | Some e =>
      let! h1 := chainBefore this e h in
      let! l := deref h1 list in
      if bool_decide (next l = Some e) then upd (set_next (Some this)) list h1 else Ok h1
  end.

(** UtlChain::listAfter *)
Definition listAfter (this list : loc) (existing : option loc) (h : heap) : outcome heap :=
  match existing with
  | None =>
      let! l := deref h list in
      match next l with
      | Some t =>
          let! h1 := chainBefore this t h in
          upd (set_next (Some this)) list h1
      | None =>
          let! h1 := upd (set_next (Some this)) list h in
          upd (set_prev (Some this)) list h1
      end
  | Some e =>
      let! h1 := chainAfter this e h in
      let! l := deref h1 list in
      if bool_decide (prev l = Some e) then upd (set_prev (Some this)) list h1 else Ok h1
  end.

(** UtlChain::detachFromList *)
Definition detachFromList (this list : loc) (h : heap) : outcome heap :=
  let! l := deref h list in
  let! n := deref h this in
  let! h1 := (if bool_decide (Some this = next l) then upd (set_next (next n)) list h else Ok h) in
  let! l1 := deref h1 list in
  let! h2 := (if bool_decide (Some this = prev l1) then upd (set_prev (prev n)) list h1 else Ok h1) in
  unchain this h2.

(** ** The pool of link blocks

    [mBlocks] chains the first link of every allocated array, the others go
    to [mPool]; the second component of a pool state is [mAllocations]. *)
Record Pool : Type := mkPool { mPool : loc; mBlocks : loc; mBlockSize : nat }.

Definition new_link : Link A := mkLink None None None 0.

(** A location above every allocated one. *)
Definition fresh_base (h : heap) : loc :=
  foldr (fun kn m => Nat.max (S (fst kn)) m) 0%nat (map_to_list h).

Fixpoint push_all (hdr : loc) (ls : list loc) (h : heap) : outcome heap :=
  match ls with
  | [] => Ok h
  | l :: ls' => let! h1 := listBefore l hdr None h in push_all hdr ls' h1
  end.

Definition new_links (base : loc) (n : nat) (h : heap) : heap :=
  foldr (fun l h => <[l := new_link]> h) h (seq base n).

(** UtlLink::allocate *)
Definition allocate (blocksize : nat) (blockList pool : loc) (h : heap) : outcome heap :=
  let newBlock := fresh_base h in
  let! h1 := listBefore newBlock blockList None (new_links newBlock blocksize h) in
  push_all pool (seq (S newBlock) (blocksize - 1)) h1.

(** UtlChainPool::get *)
Definition pool_get (P : Pool) (st : heap * Z) : outcome (option loc * (heap * Z)) :=
  let '(h, mAllocations) := st in
  let! p := deref h (mPool P) in
  let! st1 := (if isUnLinked p then
                 let! h1 := allocate (mBlockSize P) (mBlocks P) (mPool P) h in
                 Ok (h1, mAllocations + 1)
               else Ok st) in
  let! p1 := deref (fst st1) (mPool P) in
  match next p1 with
  | Some newChain =>
      let! h2 := detachFromList newChain (mPool P) (fst st1) in
      Ok (Some newChain, (h2, snd st1))
  | None => Ok (None, st1)
  end.

(** UtlChainPool::release *)
Definition pool_release (P : Pool) (freeChain : loc) (h : heap) : outcome heap :=
  listBefore freeChain (mPool P) None h.

(** UtlChainPool::totalAllocated *)
Definition totalAllocated (P : Pool) (mAllocations : Z) : Z :=
  to_size (mAllocations * (Z.of_nat (mBlockSize P) - 1)).

(** ** The list predicate *)

Definition hd_or (n : option loc) (ys : list loc) : option loc :=
  match ys with [] => n | y :: _ => Some y end.
Definition last_or (p : option loc) (xs : list loc) : option loc :=
  match last xs with Some x => Some x | None => p end.

Fixpoint seg (h : heap) (p : option loc) (xs : list loc) (n : option loc) : Prop :=
  match xs with
  | [] => True
  | x :: xs' =>
      (exists d z, h !! x = Some (mkLink p (hd_or n xs') d z)) /\ seg h (Some x) xs' n
  end.

Definition is_list (h : heap) (hdr : loc) (xs : list loc) : Prop :=
  NoDup (hdr :: xs)
  /\ (exists d z, h !! hdr = Some (mkLink (last_or None xs) (hd_or None xs) d z))
  /\ seg h None xs None.

(** Only pointers of the blocks in [ls] may differ. *)
Definition only_links (ls : list loc) (h h' : heap) : Prop :=
  (forall l, l ∉ ls -> h' !! l = h !! l)
  /\ (forall l, (fun n => (data n, hash n)) <$> h' !! l = (fun n => (data n, hash n)) <$> h !! l).

Lemma last_or_app p xs ys : last_or p (xs ++ ys) = last_or (last_or p xs) ys.
Proof. unfold last_or. rewrite last_app. destruct (last ys); done. Qed.

Lemma hd_or_app n xs ys : hd_or n (xs ++ ys) = hd_or (hd_or n ys) xs.
Proof. by destruct xs. Qed.

Lemma last_or_cons p x xs : last_or p (x :: xs) = last_or (Some x) xs.
Proof. change (x :: xs) with ([x] ++ xs). by rewrite last_or_app. Qed.

Lemma seg_app h p xs ys n :
  seg h p (xs ++ ys) n <-> seg h p xs (hd_or n ys) /\ seg h (last_or p xs) ys n.
Proof.
  revert p. induction xs as [|x xs IH]; intros p; simpl; [naive_solver|].
  rewrite IH, hd_or_app, last_or_cons. naive_solver.
Qed.

Lemma seg_frame h h' p xs n :
  (forall x, x ∈ xs -> h' !! x = h !! x) -> seg h p xs n -> seg h' p xs n.
Proof.
  revert p. induction xs as [|x xs IH]; intros p Hf; simpl; [done|].
  intros [(d & z & Hx) Hs]. split.
  - exists d, z. rewrite Hf by set_solver. done.
  - apply IH; [|done]. intros y Hy. apply Hf. set_solver.
Qed.

Lemma seg_insert h p xs n k v : k ∉ xs -> seg h p xs n -> seg (<[k := v]> h) p xs n.
Proof. intros Hk. apply seg_frame. intros x Hx. rewrite lookup_insert_ne; [done|set_solver]. Qed.

Lemma is_list_frame h h' hdr xs :
  (forall x, x ∈ hdr :: xs -> h' !! x = h !! x) -> is_list h hdr xs -> is_list h' hdr xs.
Proof.
  intros Hf (Hnd & (d & z & Hh) & Hs). split; [done|]. split.
  - exists d, z. rewrite Hf by set_solver. done.
  - eapply seg_frame; [|done]. intros x Hx. apply Hf. set_solver.
Qed.

Lemma only_links_refl ls h : only_links ls h h.
Proof. by split. Qed.

Lemma only_links_upd ls k f n (h : heap) :
  k ∈ ls -> h !! k = Some n -> data (f n) = data n -> hash (f n) = hash n ->
  only_links ls h (<[k := f n]> h).
Proof.
  intros Hk Hn Hd Hz. split.
  - intros l Hl. rewrite lookup_insert_ne; [done|set_solver].
  - intros l. destruct (decide (l = k)) as [->|].
    + rewrite lookup_insert_eq, Hn. simpl. by rewrite Hd, Hz.
    + by rewrite lookup_insert_ne.
Qed.

Lemma only_links_trans ls h1 h2 h3 :
  only_links ls h1 h2 -> only_links ls h2 h3 -> only_links ls h1 h3.
Proof. intros [H1 H2] [H3 H4]. split; intros l; [intros ?; rewrite H3, H1; done|by rewrite H4, H2]. Qed.

(** Rewriting reads of a heap under known updates. *)
Ltac heap_simpl :=
  repeat first
    [ progress simpl
    | rewrite lookup_insert_eq
    | rewrite lookup_insert_ne by congruence
    | match goal with H : _ !! ?k = Some _ |- context [_ !! ?k] => rewrite H end
    | rewrite bool_decide_true by (simpl; (done || congruence))
    | rewrite bool_decide_false by (simpl; (done || congruence)) ].

Ltac seg_solve :=
  repeat match goal with
  | |- seg (<[_ := _]> _) _ _ _ => apply seg_insert; [set_solver|]
  end; try done.

(** The neighbours of a position of a list. *)
Lemma is_list_split h hdr xs1 xs2 :
  is_list h hdr (xs1 ++ xs2) ->
  NoDup (hdr :: xs1 ++ xs2)
  /\ (exists d z, h !! hdr = Some (mkLink (last_or (last_or None xs1) xs2)
                                          (hd_or (hd_or None xs2) xs1) d z))
  /\ seg h None xs1 (hd_or None xs2) /\ seg h (last_or None xs1) xs2 None.
Proof. intros (Hnd & Hh & Hs). rewrite seg_app in Hs. rewrite last_or_app, hd_or_app in Hh. naive_solver. Qed.

Lemma seg_snoc h p xs a n :
  seg h p (xs ++ [a]) n <->
  seg h p xs (Some a) /\ exists d z, h !! a = Some (mkLink (last_or p xs) n d z).
Proof. rewrite seg_app. simpl. naive_solver. Qed.

Lemma NoDup_link_in (hdr x : loc) xs1 xs2 :
  NoDup (hdr :: xs1 ++ xs2) -> x ∉ hdr :: xs1 ++ xs2 -> NoDup (hdr :: xs1 ++ x :: xs2).
Proof.
  intros Hnd Hx. rewrite <- Permutation_middle.
  rewrite !NoDup_cons in *. set_solver.
Qed.

(** A hypothesis the case analysis below must leave alone. *)
Definition kept (P : Prop) : Prop := P.
#[local] Arguments kept : simpl never.

Ltac list_facts :=
  repeat match goal with
  | H : NoDup (_ :: _) |- _ => apply NoDup_cons in H as [? ?]
  | H : NoDup (_ ++ _) |- _ => apply NoDup_app in H as (? & ? & ?)
  | H : _ ∉ _ ++ _ |- _ => apply not_elem_of_app in H as [? ?]
  | H : _ ∉ _ :: _ |- _ => apply not_elem_of_cons in H as [? ?]
  end.

Ltac links_solve :=
  repeat match goal with
  | |- only_links _ _ (<[_ := _]> _) =>
      eapply only_links_trans; [|eapply only_links_upd; [set_solver|heap_simpl; reflexivity|done|done]]
  end; try apply only_links_refl.

Lemma last_or_ne (x b : loc) xs : x <> b -> x ∉ xs -> Some x <> last_or (Some b) xs.
Proof.
  intros Hb Hx. unfold last_or. destruct (last xs) as [y|] eqn:E; [|congruence].
  apply last_Some_elem_of in E. set_solver.
Qed.

Lemma hd_or_ne (x a : loc) xs : x <> a -> x ∉ xs -> Some x <> hd_or (Some a) xs.
Proof. destruct xs; simpl; set_solver. Qed.

(** Linking a block in before [xs2]. *)
Lemma listBefore_spec h hdr xs1 xs2 x n :
  is_list h hdr (xs1 ++ xs2) -> x ∉ hdr :: xs1 ++ xs2 ->
  h !! x = Some n -> prev n = None -> next n = None ->
  exists h', listBefore x hdr (hd_or None xs2) h = Ok h'
    /\ is_list h' hdr (xs1 ++ x :: xs2) /\ only_links (x :: hdr :: xs1 ++ xs2) h h'.
Proof.
  intros Hl Hx Hn Hp Hnx. apply is_list_split in Hl as (Hnd & (d & z & Hh) & Hs1 & Hs2).
  destruct n as [p0 n0 dx zx]. simpl in *. subst p0 n0.
  assert (kept (NoDup (hdr :: xs1 ++ x :: xs2))) as Hnd' by by apply NoDup_link_in.
  destruct xs1 as [|a xs1 _] using rev_ind; destruct xs2 as [|b xs2].
  - simpl in *. list_facts. unfold listBefore, deref, upd. heap_simpl.
    eexists; split; [done|]. split; [|links_solve].
    split; [done|]. split; [eexists _, _; heap_simpl; done|]. simpl. split; [|done].
    eexists _, _; heap_simpl. done.
  - simpl in *. destruct Hs2 as [(db & zb & Hb) Hs2]. list_facts.
    unfold listBefore, chainBefore, isUnLinked, upd_opt, deref, upd. heap_simpl.
    eexists; split; [done|]. split; [|links_solve].
    split; [done|]. rewrite !last_or_cons in *.
    split; [eexists _, _; heap_simpl; done|]. simpl. split; [eexists _, _; heap_simpl; done|].
    split; [eexists _, _; heap_simpl; done|]. seg_solve.
  - rewrite !last_or_app in *. simpl in *. apply seg_snoc in Hs1 as [Hs1 (da & za & Ha)].
    rewrite !hd_or_app in *. rewrite <- !app_assoc in *. simpl in *. list_facts.
    unfold listBefore, chainAfter, isUnLinked, upd_opt, deref, upd. heap_simpl.
    eexists; split; [done|]. split; [|links_solve].
    split; [done|]. 
    split; [eexists _, _; heap_simpl; rewrite last_or_app, hd_or_app; done|].
    rewrite seg_app. simpl. split; [seg_solve|]. split; [eexists _, _; heap_simpl; done|].
    split; [eexists _, _; heap_simpl; done|]. done.
  - rewrite !last_or_app in *. simpl in *. apply seg_snoc in Hs1 as [Hs1 (da & za & Ha)].
    destruct Hs2 as [(db & zb & Hb) Hs2].
    rewrite !hd_or_app in *. rewrite <- !app_assoc in *. simpl in *. list_facts.
    assert (Some b <> hd_or (Some a) xs1) by (apply hd_or_ne; set_solver).
    unfold listBefore, chainBefore, isUnLinked, upd_opt, deref, upd. heap_simpl.
    eexists; split; [done|]. split; [|links_solve].
    split; [done|].
    split; [eexists _, _; heap_simpl; rewrite last_or_app, hd_or_app, !last_or_cons; done|].
    rewrite seg_app. simpl. split; [seg_solve|]. split; [eexists _, _; heap_simpl; done|].
    split; [eexists _, _; heap_simpl; done|]. split; [eexists _, _; heap_simpl; done|]. seg_solve.
Qed.

(** Linking a block in after [xs1]. *)
Lemma listAfter_spec h hdr xs1 xs2 x n :
  is_list h hdr (xs1 ++ xs2) -> x ∉ hdr :: xs1 ++ xs2 ->
  h !! x = Some n -> prev n = None -> next n = None ->
  exists h', listAfter x hdr (last_or None xs1) h = Ok h'
    /\ is_list h' hdr (xs1 ++ x :: xs2) /\ only_links (x :: hdr :: xs1 ++ xs2) h h'.
Proof.
  intros Hl Hx Hn Hp Hnx. apply is_list_split in Hl as (Hnd & (d & z & Hh) & Hs1 & Hs2).
  destruct n as [p0 n0 dx zx]. simpl in *. subst p0 n0.
  assert (kept (NoDup (hdr :: xs1 ++ x :: xs2))) as Hnd' by by apply NoDup_link_in.
  destruct xs1 as [|a xs1 _] using rev_ind; destruct xs2 as [|b xs2].
  - simpl in *. list_facts. unfold listAfter, deref, upd. heap_simpl.
    eexists; split; [done|]. split; [|links_solve].
    split; [done|]. split; [eexists _, _; heap_simpl; done|]. simpl. split; [|done].
    eexists _, _; heap_simpl; done.
  - simpl in *. destruct Hs2 as [(db & zb & Hb) Hs2]. list_facts.
    unfold listAfter, chainBefore, isUnLinked, upd_opt, deref, upd. heap_simpl.
    eexists; split; [done|]. split; [|links_solve].
    split; [done|]. rewrite !last_or_cons in *.
    split; [eexists _, _; heap_simpl; done|]. simpl. split; [eexists _, _; heap_simpl; done|].
    split; [eexists _, _; heap_simpl; done|]. seg_solve.
  - rewrite !last_or_app in *. simpl in *. apply seg_snoc in Hs1 as [Hs1 (da & za & Ha)].
    rewrite !hd_or_app in *. rewrite <- !app_assoc in *. simpl in *. list_facts.
    unfold listAfter, chainAfter, isUnLinked, upd_opt, deref, upd. heap_simpl.
    eexists; split; [done|]. split; [|links_solve].
    split; [done|].
    split; [eexists _, _; heap_simpl; rewrite last_or_app, hd_or_app; done|].
    rewrite seg_app. simpl. split; [seg_solve|]. split; [eexists _, _; heap_simpl; done|].
    split; [eexists _, _; heap_simpl; done|]. done.
  - rewrite !last_or_app in *. simpl in *. apply seg_snoc in Hs1 as [Hs1 (da & za & Ha)].
    destruct Hs2 as [(db & zb & Hb) Hs2].
    rewrite !hd_or_app in *. rewrite <- !app_assoc in *. simpl in *. list_facts.
    rewrite last_or_cons in *.
    assert (Some a <> last_or (Some b) xs2) by (apply last_or_ne; set_solver).
    unfold listAfter, chainAfter, isUnLinked, upd_opt, deref, upd. heap_simpl.
    eexists; split; [done|]. split; [|links_solve].
    split; [done|].
    split; [eexists _, _; heap_simpl; rewrite last_or_app, hd_or_app, !last_or_cons; done|].
    rewrite seg_app. simpl. split; [seg_solve|]. split; [eexists _, _; heap_simpl; done|].
    split; [eexists _, _; heap_simpl; done|]. split; [eexists _, _; heap_simpl; done|]. seg_solve.
Qed.

(** Detaching a block. *)
Lemma detachFromList_spec h hdr xs1 xs2 x :
  is_list h hdr (xs1 ++ x :: xs2) ->
  exists h', detachFromList x hdr h = Ok h' /\ is_list h' hdr (xs1 ++ xs2)
    /\ (exists d z, h' !! x = Some (mkLink None None d z))
    /\ only_links (x :: hdr :: xs1 ++ xs2) h h'.
Proof.
  intros Hl. apply is_list_split in Hl as (Hnd & (d & z & Hh) & Hs1 & Hs2).
  simpl in Hs2. destruct Hs2 as [(dx & zx & Hx) Hs2].
  assert (kept (NoDup (hdr :: xs1 ++ xs2))) as Hnd'.
  { unfold kept. rewrite <- Permutation_middle, !NoDup_cons in *. set_solver. }
  rewrite last_or_cons in *.
  destruct xs1 as [|a xs1 _] using rev_ind; destruct xs2 as [|b xs2].
  - simpl in *. list_facts. unfold detachFromList, unchain, upd_opt, deref, upd. heap_simpl.
    eexists; split; [done|]. split; [|split; [eexists _, _; heap_simpl; done|links_solve]].
    split; [done|]. split; [eexists _, _; heap_simpl; done|]. done.
  - simpl in *. destruct Hs2 as [(db & zb & Hb) Hs2]. rewrite !last_or_cons in *. list_facts.
    assert (Some x <> last_or (Some b) xs2) by (apply last_or_ne; set_solver).
    unfold detachFromList, unchain, upd_opt, deref, upd. heap_simpl.
    eexists; split; [done|]. split; [|split; [eexists _, _; heap_simpl; done|links_solve]].
    split; [done|]. rewrite !last_or_cons. split; [eexists _, _; heap_simpl; done|].
    simpl. split; [eexists _, _; heap_simpl; done|]. seg_solve.
  - rewrite !last_or_app in *. simpl in *. apply seg_snoc in Hs1 as [Hs1 (da & za & Ha)].
    rewrite !hd_or_app in *. rewrite <- !app_assoc in *. simpl in *. list_facts.
    assert (Some x <> hd_or (Some a) xs1) by (apply hd_or_ne; set_solver).
    unfold detachFromList, unchain, upd_opt, deref, upd. heap_simpl.
    eexists; split; [done|]. split; [|split; [eexists _, _; heap_simpl; done|links_solve]].
    split; [done|]. split; [eexists _, _; heap_simpl; rewrite last_or_app, hd_or_app; done|].
    rewrite seg_app. simpl. split; [seg_solve|]. split; [eexists _, _; heap_simpl; done|done].
  - rewrite !last_or_app in *. simpl in *. apply seg_snoc in Hs1 as [Hs1 (da & za & Ha)].
    destruct Hs2 as [(db & zb & Hb) Hs2]. rewrite !last_or_cons in *.
    rewrite !hd_or_app in *. rewrite <- !app_assoc in *. simpl in *. list_facts.
    assert (Some x <> hd_or (Some a) xs1) by (apply hd_or_ne; set_solver).
    assert (Some x <> last_or (Some b) xs2) by (apply last_or_ne; set_solver).
    unfold detachFromList, unchain, upd_opt, deref, upd. heap_simpl.
    eexists; split; [done|]. split; [|split; [eexists _, _; heap_simpl; done|links_solve]].
    split; [done|].
    split; [eexists _, _; heap_simpl; rewrite last_or_app, hd_or_app, !last_or_cons; done|].
    rewrite seg_app. simpl. split; [seg_solve|]. split; [eexists _, _; heap_simpl; done|].
    split; [eexists _, _; heap_simpl; done|]. seg_solve.
Qed.

(** ** The pool invariant *)

Definition unlinked (h : heap) (l : loc) : Prop :=
  exists d z, h !! l = Some (mkLink None None d z).

Definition pool_inv (h : heap) (P : Pool) (ps bs : list loc) : Prop :=
  is_list h (mPool P) ps /\ is_list h (mBlocks P) bs
  /\ (mPool P :: ps) ## (mBlocks P :: bs).

(** The blocks the pool owns. *)
Definition pool_locs (P : Pool) (ps bs : list loc) : list loc :=
  (mPool P :: ps) ++ (mBlocks P :: bs).

Lemma is_list_alloc h hdr xs l : is_list h hdr xs -> l ∈ hdr :: xs -> is_Some (h !! l).
Proof.
  intros (Hnd & (d & z & Hh) & Hs) Hl. apply elem_of_cons in Hl as [->|Hl]; [by eexists|].
  clear Hnd Hh. revert Hs. generalize (@None loc) at 1. induction xs as [|x xs IH]; [set_solver|].
  intros p [(d' & z' & Hx) Hs]. apply elem_of_cons in Hl as [->|Hl]; [by eexists|eauto].
Qed.

Lemma fresh_base_spec h l : (fresh_base h <= l)%nat -> h !! l = None.
Proof.
  intros Hl. destruct (h !! l) as [n|] eqn:E; [|done]. exfalso.
  apply elem_of_map_to_list in E. unfold fresh_base in Hl. revert Hl E.
  induction (map_to_list h) as [|[k v] m IH]; simpl; intros Hl Hin; [set_solver|].
  apply elem_of_cons in Hin as [[= -> ->]|Hin]; [lia|]. apply IH; [lia|done].
Qed.

Lemma new_links_lookup base n h l :
  new_links base n h !! l = if decide (base <= l < base + n)%nat then Some new_link else h !! l.
Proof.
  unfold new_links. revert base. induction n as [|n IH]; intros base; simpl.
  - case_decide; [lia|done].
  - destruct (decide (l = base)) as [->|Hne].
    + rewrite lookup_insert_eq. rewrite decide_True by lia. done.
    + rewrite lookup_insert_ne by done. rewrite IH.
      destruct (decide (S base <= l < S base + n)%nat), (decide (base <= l < base + S n)%nat); (done || lia).
Qed.

Lemma only_links_mono ls ls' h h' : ls ⊆ ls' -> only_links ls h h' -> only_links ls' h h'.
Proof. intros Hsub [H1 H2]. split; [|done]. intros l Hl. apply H1. set_solver. Qed.

Lemma unlinked_frame ls h h' l : only_links ls h h' -> l ∉ ls -> unlinked h l -> unlinked h' l.
Proof. intros [H1 _] Hl (d & z & E). exists d, z. by rewrite H1. Qed.

(** Linking a sequence of blocks in at the tail. *)
Lemma push_all_spec h hdr xs ls :
  is_list h hdr xs -> NoDup ls -> ls ## (hdr :: xs) -> Forall (unlinked h) ls ->
  exists h', push_all hdr ls h = Ok h' /\ is_list h' hdr (xs ++ ls)
    /\ only_links (ls ++ hdr :: xs) h h'.
Proof.
  revert h xs. induction ls as [|l ls IH]; intros h xs Hl Hnd Hdis Hun; simpl.
  - exists h. rewrite app_nil_r. auto using only_links_refl.
  - apply NoDup_cons in Hnd as [Hnl Hnd]. apply Forall_cons in Hun as [(d & z & Hn) Hun].
    assert (l ∉ hdr :: xs) as Hlx by set_solver.
    destruct (listBefore_spec h hdr xs [] l (mkLink None None d z)) as (h1 & E1 & Hl1 & Ho1);
      rewrite ?app_nil_r in *; try done.
    simpl in E1. rewrite E1. simpl.
    destruct (IH h1 (xs ++ [l])) as (h2 & -> & Hl2 & Ho2); try done.
    + set_solver.
    + rewrite Forall_forall in *. intros y Hy. eapply unlinked_frame; [done| |by apply Hun].
      set_solver.
    + exists h2. rewrite <- app_assoc in Hl2. split; [done|]. split; [done|].
      eapply only_links_trans; [eapply only_links_mono, Ho1|eapply only_links_mono, Ho2]; set_solver.
Qed.

Lemma is_list_bound h hdr xs l :
  is_list h hdr xs -> l ∈ hdr :: xs -> (l < fresh_base h)%nat.
Proof.
  intros Hl Hin. destruct (is_list_alloc _ _ _ _ Hl Hin) as [n Hn].
  destruct (decide (fresh_base h <= l)%nat) as [Hle|]; [|lia].
  rewrite fresh_base_spec in Hn by done. done.
Qed.

Lemma allocate_spec h n pool blocks bs :
  is_list h pool [] -> is_list h blocks bs -> pool ∉ blocks :: bs -> (1 <= n)%nat ->
  exists h', allocate n blocks pool h = Ok h'
    /\ is_list h' pool (seq (S (fresh_base h)) (n - 1))
    /\ is_list h' blocks (bs ++ [fresh_base h])
    /\ (forall l, is_Some (h !! l) -> l ∉ pool :: blocks :: bs -> h' !! l = h !! l).
Proof.
  intros Hp Hb Hdis Hn. set (base := fresh_base h).
  assert (forall l, l ∈ pool :: blocks :: bs -> (l < base)%nat) as Hold.
  { intros l Hl. apply elem_of_cons in Hl as [->|Hl];
      eapply is_list_bound; [apply Hp| |apply Hb|]; set_solver. }
  set (h0 := new_links base n h).
  assert (forall l, (l < base)%nat -> h0 !! l = h !! l) as Hh0
    by (intros l Hl; unfold h0; rewrite new_links_lookup, decide_False by lia; done).
  assert (is_list h0 pool []) as Hp0
    by (eapply is_list_frame; [|done]; intros x Hx; apply Hh0, Hold; set_solver).
  assert (is_list h0 blocks bs) as Hb0
    by (eapply is_list_frame; [|done]; intros x Hx; apply Hh0, Hold; set_solver).
  assert (h0 !! base = Some new_link) as Hbase
    by (unfold h0; rewrite new_links_lookup, decide_True by lia; done).
  unfold allocate. fold base h0.
  destruct (listBefore_spec h0 blocks bs [] base new_link) as (h1 & E1 & Hl1 & Ho1);
    rewrite ?app_nil_r in *; try done.
  { intros Hin. specialize (Hold base). set_solver by lia. }
  cbn [hd_or] in E1. rewrite E1. cbn [obind]. destruct Ho1 as [Ho1 _].
  destruct (push_all_spec h1 pool [] (seq (S base) (n - 1))) as (h2 & -> & Hp2 & [Ho2 _]).
  - eapply is_list_frame; [|done]. intros x Hx. apply Ho1.
    assert (x = pool) as -> by set_solver. pose proof (Hold pool). set_solver by lia.
  - apply NoDup_seq.
  - intros x Hx Hx'. apply elem_of_seq in Hx. assert (x = pool) as -> by set_solver.
    pose proof (Hold pool). set_solver by lia.
  - rewrite Forall_forall. intros x Hx. apply elem_of_seq in Hx.
    exists None, 0. rewrite Ho1.
    + unfold h0. rewrite new_links_lookup, decide_True by lia. done.
    + intros Hin. apply elem_of_cons in Hin as [->|Hin]; [lia|]. pose proof (Hold x). set_solver by lia.
  - exists h2. split; [done|]. split; [done|]. split.
    + eapply is_list_frame; [|done]. intros x Hx. apply Ho2.
      intros Hin. apply elem_of_app in Hin as [Hin|Hin].
      * apply elem_of_seq in Hin. pose proof (Hold x). set_solver by lia.
      * assert (x = pool) as -> by set_solver. pose proof (Hold pool). set_solver by lia.
    + intros l [m Hm] Hl. assert (l < base)%nat.
      { destruct (decide (base <= l)%nat) as [Hle|]; [|lia].
        unfold base in Hle. rewrite fresh_base_spec in Hm by done. done. }
      rewrite Ho2, Ho1, Hh0; [done|done|set_solver by lia|].
      intros Hin. apply elem_of_app in Hin as [Hin|Hin]; [apply elem_of_seq in Hin; lia|set_solver].
Qed.

(** Taking the head off a non-empty pool. *)
Lemma pool_pop_spec h P x ps bs :
  pool_inv h P (x :: ps) bs ->
  exists h', detachFromList x (mPool P) h = Ok h' /\ pool_inv h' P ps bs
    /\ unlinked h' x /\ x ∉ pool_locs P ps bs
    /\ (forall l, l ∉ x :: mPool P :: ps -> h' !! l = h !! l).
Proof.
  intros (Hp & Hb & Hdis). destruct (detachFromList_spec h (mPool P) [] ps x Hp)
    as (h' & E & Hp' & Hun & [Ho _]).
  exists h'. split; [done|]. destruct Hp as (Hnd & _ & _).
  assert (x ∉ pool_locs P ps bs) by
    (apply NoDup_cons in Hnd as [? Hnd]; apply NoDup_cons in Hnd as [? _]; unfold pool_locs; set_solver).
  repeat split; try done.
  - apply Hp'.
  - apply Hp'.
  - apply Hp'.
  - apply Hb.
  - destruct Hb as (_ & (d & z & Hh) & _). exists d, z. rewrite Ho by set_solver. done.
  - destruct Hb as (_ & _ & Hs). eapply seg_frame; [|done]. intros y Hy. apply Ho. set_solver.
  - set_solver.
Qed.

(** UtlChainPool::get always yields an unlinked block, taken from the pool
    or freshly allocated. *)
Lemma pool_get_spec h P ps bs k :
  pool_inv h P ps bs -> (2 <= mBlockSize P)%nat ->
  exists x h' k' ps' bs', pool_get P (h, k) = Ok (Some x, (h', k'))
    /\ pool_inv h' P ps' bs' /\ unlinked h' x /\ x ∉ pool_locs P ps' bs'
    /\ (forall l, is_Some (h !! l) -> l ∉ pool_locs P ps bs -> h' !! l = h !! l)
    /\ (forall l, l ∈ x :: pool_locs P ps' bs' -> l ∈ pool_locs P ps bs \/ h !! l = None).
Proof.
  intros Hinv Hsz. pose proof Hinv as (Hp & Hb & Hdis). pose proof Hp as (_ & (d & z & Hpl) & _).
  unfold pool_get, deref at 1. rewrite Hpl. cbn [obind].
  destruct ps as [|x ps].
  - replace (isUnLinked _) with true by done. cbn [fst snd].
    destruct (allocate_spec h (mBlockSize P) (mPool P) (mBlocks P) bs) as (h1 & -> & Hp1 & Hb1 & Hf1);
      [done|done|set_solver|lia|]. simpl.
    replace (mBlockSize P - 1)%nat with (S (mBlockSize P - 2)) in Hp1 by lia. cbn [seq] in Hp1.
    assert (forall l, l ∈ pool_locs P [] bs -> (l < fresh_base h)%nat) as Hold.
    { unfold pool_locs. intros l Hl. apply elem_of_app in Hl as [Hl|Hl];
        eapply is_list_bound; [apply Hp|done|apply Hb|done]. }
    assert (pool_inv h1 P (S (fresh_base h) :: seq (S (S (fresh_base h))) (mBlockSize P - 2))
              (bs ++ [fresh_base h])) as Hinv1.
    { repeat split; try apply Hp1; try apply Hb1. intros l Hl Hl'.
      assert (l = mPool P \/ (S (fresh_base h) <= l)%nat) as Hc.
      { apply elem_of_cons in Hl as [->|Hl]; [by left|]. right.
        apply elem_of_cons in Hl as [->|Hl]; [done|]. apply elem_of_seq in Hl. lia. }
      assert (l = fresh_base h \/ l ∈ mBlocks P :: bs) as Hc' by set_solver.
      pose proof (Hold l). unfold pool_locs in *.
      destruct Hc as [Hc|Hc], Hc' as [Hc'|Hc'].
      - set_solver by lia.
      - apply (Hdis l); set_solver.
      - lia.
      - set_solver by lia. }
    pose proof Hp1 as (_ & (d1 & z1 & Hpl1) & _). unfold deref. rewrite Hpl1. simpl.
    destruct (pool_pop_spec _ _ _ _ _ Hinv1) as (h2 & -> & Hinv2 & Hun & Hni & Hf2). simpl.
    eexists _, h2, _, _, _. split; [done|]. repeat split; try apply Hinv2; try done.
    + intros l Hs Hl. rewrite Hf2, Hf1; [done|done|unfold pool_locs in *; set_solver|].
      intros Hin. destruct (decide (l < fresh_base h)%nat) as [|Hge].
      * apply elem_of_cons in Hin as [->|Hin]; [lia|]. apply elem_of_cons in Hin as [->|Hin];
          [unfold pool_locs in *; set_solver|]. apply elem_of_seq in Hin. lia.
      * rewrite fresh_base_spec in Hs by lia. by destruct Hs.
    + intros l Hl. destruct (decide (l < fresh_base h)%nat) as [Hlt|Hge];
        [left|right; apply fresh_base_spec; lia].
      apply elem_of_cons in Hl as [->|Hl]; [lia|]. unfold pool_locs in *.
      apply elem_of_app in Hl as [Hl|Hl].
      * apply elem_of_cons in Hl as [->|Hl]; [set_solver|]. apply elem_of_seq in Hl. lia.
      * assert (l = fresh_base h \/ l ∈ mBlocks P :: bs) as [->|] by set_solver; [lia|set_solver].
  - replace (isUnLinked _) with false
      by (symmetry; apply bool_decide_false; simpl; intros [_ [=]]).
    cbn [obind fst snd]. unfold deref. rewrite Hpl. simpl.
    destruct (pool_pop_spec _ _ _ _ _ Hinv) as (h2 & -> & Hinv2 & Hun & Hni & Hf2). simpl.
    eexists x, h2, k, ps, bs. split; [done|]. repeat split; try apply Hinv2; try done.
    + intros l _ Hl. apply Hf2. unfold pool_locs in *. set_solver.
    + intros l Hl. left. unfold pool_locs in *. set_solver.
Qed.

End Chains.

(** Clients reason with the specifications, not the bodies. *)
#[global] Arguments pool_get {A} P st : simpl never.
#[global] Arguments listBefore {A} this list existing h : simpl never.
#[global] Arguments listAfter {A} this list existing h : simpl never.
#[global] Arguments detachFromList {A} this list h : simpl never.
#[global] Arguments deref {A} h p : simpl never.
#[global] Arguments upd {A} f p h : simpl never.
