(* ===== verification/UtlList.v ===== *)
(** * UtlList, UtlSList, UtlSortedList and their iterators

    The list containers of src/sipXportLib/src/utl on the chains of
    [UtlLink]: a list object is its header block, its elements are the data
    of the linked blocks, and the iterators registered with it are told of
    every removal.  An element is a reference to an object; equality of
    references is [decide (a = b)], equality of objects is [compare_to].
    Loops over a chain take as fuel the number of blocks of the heap.  The
    container locks make each operation atomic, which is how the operations
    are written here. *)
From Stdlib Require Import ZArith Lia.
From stdpp Require Import base list gmap sorting.
From S2P Require Import Prelude Containable UtlLink.
Local Open Scope Z_scope.

Definition UTL_NOT_FOUND : Z := -1.

(** UtlListIterator::mpCurrentNode: null before the first element, a link,
    or the stub link OFF_LIST_END. *)
Inductive cursor : Type :=
| BeforeFirst
| At (l : loc)
| OffListEnd.

#[export] Instance cursor_eq_dec : EqDecision cursor.
Proof. solve_decision. Defined.

Inductive MatchType : Type := EXACTLY | POSITION.

Section Lists.
Context {A : Type} `{Containable A} `{EqDecision A}.
Abbreviation heap := (gmap loc (Link A)).

(** The heap with [mAllocations], and the registered iterators. *)
Record state : Type := mkState { mem : heap * Z; iterators : list cursor }.

Definition heap_of (s : state) : heap := fst (mem s).
Definition with_mem (s : state) (m : heap * Z) : state := mkState m (iterators s).

(** ** UtlLink: links with data *)

(** UtlLink::listBefore *)
Definition link_listBefore (P : Pool) (list : loc) (existing : option loc) (newData : A)
    (m : heap * Z) : outcome (loc * (heap * Z)) :=
  let! r := pool_get P m in
  match fst r with
  | None => UB
  | Some newLink =>
      let! h1 := upd (set_data (Some newData) (hash_of newData)) newLink (fst (snd r)) in
      let! h2 := listBefore newLink list existing h1 in
      Ok (newLink, (h2, snd (snd r)))
  end.

(** UtlLink::listAfter *)
Definition link_listAfter (P : Pool) (list : loc) (existing : option loc) (newData : A)
    (m : heap * Z) : outcome (loc * (heap * Z)) :=
  let! r := pool_get P m in
  match fst r with
  | None => UB
  | Some newLink =>
      let! h1 := upd (set_data (Some newData) (hash_of newData)) newLink (fst (snd r)) in
      let! h2 := listAfter newLink list existing h1 in
      Ok (newLink, (h2, snd (snd r)))
  end.

(** UtlLink::release *)
Definition link_release (P : Pool) (this : loc) (h : heap) : outcome heap :=
  let! h1 := upd (set_data None 0) this h in pool_release P this h1.

(** UtlLink::detachFrom *)
Definition detachFrom (P : Pool) (this list : loc) (m : heap * Z) : outcome (option A * (heap * Z)) :=
  let! n := deref (fst m) this in
  let! h1 := upd (set_data None 0) this (fst m) in
  let! h2 := detachFromList this list h1 in
  let! h3 := link_release P this h2 in
  Ok (data n, (h3, snd m)).

(** Enough for a walk along any chain of the heap. *)
Definition fuel_of (h : heap) : nat := S (size h).

(** UtlLink::findNextHash: the loop, from a link or from the end of the
    list, and the call, which is undefined through a null pointer. *)
Fixpoint next_hash (fuel : nat) (h : heap) (theLink : option loc) (targetHash : Z)
    : outcome (option loc) :=
  match theLink, fuel with
  | None, _ => Ok None
  | Some _, O => UB
  | Some l, S fuel' =>
      let! n := deref h l in
      if bool_decide (hash n <> targetHash) then next_hash fuel' h (next n) targetHash
      else Ok (Some l)
  end.
Definition findNextHash (h : heap) (this : option loc) (targetHash : Z) : outcome (option loc) :=
  match this with
  | None => UB
  | Some _ => next_hash (fuel_of h) h this targetHash
  end.

(** ** UtlListIterator *)

(** UtlListIterator::removing *)
Definition removing (h : heap) (node : loc) (c : cursor) : outcome cursor :=
  if bool_decide (c = At node) then
    let! n := deref h node in
    Ok (match prev n with None => BeforeFirst | Some p => At p end)
  else Ok c.

Fixpoint removing_all (h : heap) (node : loc) (cs : list cursor) : outcome (list cursor) :=
  match cs with
  | [] => Ok []
  | c :: cs' =>
      let! c1 := removing h node c in
      let! cs1 := removing_all h node cs' in
      Ok (c1 :: cs1)
  end.

(** UtlListIterator::reset *)
Definition iter_reset : cursor := BeforeFirst.

(** UtlListIterator::operator() on the list [this]: the new position and
    the element returned.  OFF_LIST_END has no successor. *)
Definition iter_next (this : loc) (h : heap) (c : cursor) : outcome (cursor * option A) :=
  let! nextNode :=
    (match c with
     | BeforeFirst => let! l := deref h this in Ok (next l)
     | At p => let! n := deref h p in Ok (next n)
     | OffListEnd => Ok None
     end) in
  match nextNode with
  | Some l => let! n := deref h l in Ok (At l, data n)
  | None => Ok (OffListEnd, None)
  end.

(** UtlListIterator::toLast *)
Definition iter_toLast (this : loc) (h : heap) : outcome (cursor * option A) :=
  let! l := deref h this in
  match prev l with
  | Some t => let! n := deref h t in Ok (At t, data n)
  | None => Ok (BeforeFirst, None)
  end.

(** UtlListIterator::item; the stub's data is null. *)
Definition iter_item (h : heap) (c : cursor) : outcome (option A) :=
  match c with
  | At p => let! n := deref h p in Ok (data n)
  | _ => Ok None
  end.

(** UtlListIterator::atLast *)
Definition iter_atLast (this : loc) (h : heap) (c : cursor) : outcome bool :=
  let! l := deref h this in
  Ok (match c with At p => bool_decide (Some p = prev l) | _ => false end).

(** ** UtlList *)

(** UtlList::removeLink *)
Definition removeLink (P : Pool) (this toBeRemoved : loc) (s : state) : outcome state :=
  let! cs := removing_all (heap_of s) toBeRemoved (iterators s) in
  let! r := detachFrom P toBeRemoved this (mem s) in
  Ok (mkState (snd r) cs).

Definition head (this : loc) (h : heap) : outcome (option loc) :=
  let! l := deref h this in Ok (next l).
Definition tail (this : loc) (h : heap) : outcome (option loc) :=
  let! l := deref h this in Ok (prev l).

(** [for (n = 0, link = head(); link && n < N; link = link->next(), n++)] *)
Fixpoint nth_link (fuel : nat) (h : heap) (link : option loc) (n N : Z) : outcome (option loc * Z) :=
  match link, fuel with
  | None, _ => Ok (None, n)
  | Some _, O => UB
  | Some l, S fuel' =>
      if n <? N then
        let! nd := deref h l in nth_link fuel' h (next nd) (n + 1) N
      else Ok (link, n)
  end.

(** [for (listNode = head(); listNode && !found; listNode = listNode->next())]:
    the first link whose block satisfies the test, with its index. *)
Fixpoint find_link (fuel : nat) (h : heap) (test : Link A -> bool) (link : option loc) (i : Z)
    : outcome (option (loc * Z)) :=
  match link, fuel with
  | None, _ => Ok None
  | Some _, O => UB
  | Some l, S fuel' =>
      let! n := deref h l in
      if test n then Ok (Some (l, i)) else find_link fuel' h test (next n) (i + 1)
  end.

(** UtlList::get *)
Definition get (P : Pool) (this : loc) (s : state) : outcome (option A * state) :=
  let! hd := head this (heap_of s) in
  match hd with
  | Some firstNode =>
      let! n := deref (heap_of s) firstNode in
      let! s1 := removeLink P this firstNode s in
      Ok (data n, s1)
  | None => Ok (None, s)
  end.

(** Remove the link found by [find_link], returning its data. *)
Definition remove_found (P : Pool) (this : loc) (test : Link A -> bool) (s : state)
    : outcome (option A * state) :=
  let! hd := head this (heap_of s) in
  let! f := find_link (fuel_of (heap_of s)) (heap_of s) test hd 0 in
  match f with
  | Some (foundNode, _) =>
      let! n := deref (heap_of s) foundNode in
      let! s1 := removeLink P this foundNode s in
      Ok (data n, s1)
  | None => Ok (None, s)
  end.

(** UtlList::removeReference *)
Definition removeReference (P : Pool) (this : loc) (containableToMatch : A) (s : state) :=
  remove_found P this (fun n => bool_decide (data n = Some containableToMatch)) s.

(** UtlList::removeAt *)
Definition removeAt (P : Pool) (this : loc) (N : Z) (s : state) : outcome (option A * state) :=
  let! hd := head this (heap_of s) in
  let! r := nth_link (fuel_of (heap_of s)) (heap_of s) hd 0 N in
  match fst r with
  | Some link =>
      let! n := deref (heap_of s) link in
      let! s1 := removeLink P this link s in
      Ok (data n, s1)
  | None => Ok (None, s)
  end.

(** UtlList::removeAll: [while ((node = head())) removeLink(node);] *)
Fixpoint removeAll_loop (fuel : nat) (P : Pool) (this : loc) (s : state) : outcome state :=
  let! hd := head this (heap_of s) in
  match hd, fuel with
  | None, _ => Ok s
  | Some _, O => UB
  | Some node, S fuel' =>
      let! s1 := removeLink P this node s in removeAll_loop fuel' P this s1
  end.
Definition removeAll (P : Pool) (this : loc) (s : state) : outcome state :=
  removeAll_loop (fuel_of (heap_of s)) P this s.

(** UtlList::first, UtlList::last, UtlList::at, UtlList::entries,
    UtlList::isEmpty and UtlList::containsReference *)
Definition data_of (h : heap) (link : option loc) : outcome (option A) :=
  match link with Some l => let! n := deref h l in Ok (data n) | None => Ok None end.

Definition first (this : loc) (h : heap) : outcome (option A) :=
  let! hd := head this h in data_of h hd.
Definition last_element (this : loc) (h : heap) : outcome (option A) :=
  let! tl := tail this h in data_of h tl.
Definition at_index (this : loc) (N : Z) (h : heap) : outcome (option A) :=
  let! hd := head this h in
  let! r := nth_link (fuel_of h) h hd 0 N in data_of h (fst r).

Fixpoint count_links (fuel : nat) (h : heap) (test : Link A -> bool) (link : option loc) (count : Z)
    : outcome Z :=
  match link, fuel with
  | None, _ => Ok count
  | Some _, O => UB
  | Some l, S fuel' =>
      let! n := deref h l in
      count_links fuel' h test (next n) (if test n then count + 1 else count)
  end.

Definition entries (this : loc) (h : heap) : outcome Z :=
  let! hd := head this h in count_links (fuel_of h) h (fun _ => true) hd 0.
Definition isEmpty (this : loc) (h : heap) : outcome bool :=
  let! hd := head this h in Ok (bool_decide (hd = None)).
Definition containsReference (this : loc) (containableToMatch : A) (h : heap) : outcome bool :=
  let! hd := head this h in
  let! f := find_link (fuel_of h) h (fun n => bool_decide (data n = Some containableToMatch)) hd 0 in
  Ok (bool_decide (f <> None)).

(** ** UtlSList *)

Definition matches (obj : A) (n : Link A) : bool :=
  match data n with Some visitNode => compare_to visitNode obj =? 0 | None => false end.

(** UtlSList::append and UtlSList::insert; a null object is ignored. *)
Definition slist_append (P : Pool) (this : loc) (obj : option A) (s : state) : outcome state :=
  match obj with
  | Some o => let! r := link_listBefore P this None o (mem s) in Ok (with_mem s (snd r))
  | None => Ok s
  end.

(** UtlSList::insertAt *)
Definition insertAt (P : Pool) (this : loc) (N : Z) (obj : A) (s : state) : outcome (option A * state) :=
  let! hd := head this (heap_of s) in
  let! r := nth_link (fuel_of (heap_of s)) (heap_of s) hd 0 N in
  if snd r =? N then
    let! r1 := link_listBefore P this (fst r) obj (mem s) in
    Ok (Some obj, with_mem s (snd r1))
  else Ok (None, s).

(** UtlSList::insertAfter *)
Definition insertAfter (P : Pool) (this : loc) (afterNode : option loc) (obj : A) (s : state)
    : outcome state :=
  let! r := link_listAfter P this afterNode obj (mem s) in Ok (with_mem s (snd r)).

(** UtlSList::remove *)
Definition slist_remove (P : Pool) (this : loc) (obj : A) (s : state) : outcome (option A * state) :=
  remove_found P this (matches obj) s.

(** UtlSList::find: the step of its loop moves on from a link, through
    [findNextHash] of the next one, before the loop looks whether the link
    held the object. *)
Fixpoint slist_find_loop (fuel : nat) (h : heap) (obj : A) (listNode : option loc) : outcome (option A) :=
  match listNode, fuel with
  | None, _ => Ok None
  | Some _, O => UB
  | Some l, S fuel' =>
      let! n := deref h l in
      let! l1 := findNextHash h (next n) (hash_of obj) in
      if matches obj n then Ok (data n) else slist_find_loop fuel' h obj l1
  end.
Definition slist_find (this : loc) (obj : A) (h : heap) : outcome (option A) :=
  let! hd := head this h in
  let! l0 := findNextHash h hd (hash_of obj) in
  slist_find_loop (fuel_of h) h obj l0.

(** UtlSList::occurrencesOf and UtlSList::index *)
Definition slist_occurrencesOf (this : loc) (obj : A) (h : heap) : outcome Z :=
  let! hd := head this h in count_links (fuel_of h) h (matches obj) hd 0.
Definition slist_index (this : loc) (obj : A) (h : heap) : outcome Z :=
  let! hd := head this h in
  let! f := find_link (fuel_of h) h (matches obj) hd 0 in
  Ok (match f with Some (_, i) => i | None => UTL_NOT_FOUND end).

(** ** UtlSortedList *)

Definition not_before (obj : A) (n : Link A) : bool :=
  match data n with Some e => 0 <=? compare_to e obj | None => false end.

(** UtlSortedList::findNode *)
Definition findNode (h : heap) (start : option loc) (match_ : MatchType) (obj : A)
    : outcome (option loc) :=
  let! f := find_link (fuel_of h) h (not_before obj) start 0 in
  match f with
  | None => Ok None
  | Some (foundNode, _) =>
      match match_ with
      | POSITION => Ok (Some foundNode)
      | EXACTLY =>
          let! n := deref h foundNode in
          Ok (if matches obj n then Some foundNode else None)
      end
  end.

(** UtlSortedList::insert *)
Definition sorted_insert (P : Pool) (this : loc) (obj : A) (s : state) : outcome state :=
  let! hd := head this (heap_of s) in
  let! pos := findNode (heap_of s) hd POSITION obj in
  let! r := link_listBefore P this pos obj (mem s) in
  Ok (with_mem s (snd r)).

(** UtlSortedList::remove *)
Definition sorted_remove (P : Pool) (this : loc) (obj : A) (s : state) : outcome (option A * state) :=
  let! hd := head this (heap_of s) in
  let! f := findNode (heap_of s) hd EXACTLY obj in
  match f with
  | Some listNode =>
      let! n := deref (heap_of s) listNode in
      let! s1 := removeLink P this listNode s in
      Ok (data n, s1)
  | None => Ok (None, s)
  end.

(** UtlSortedList::find *)
Definition sorted_find (this : loc) (obj : A) (h : heap) : outcome (option A) :=
  let! hd := head this h in
  let! f := findNode h hd EXACTLY obj in data_of h f.

(** UtlSortedList::index *)
Definition sorted_index (this : loc) (obj : A) (h : heap) : outcome Z :=
  let! hd := head this h in
  let! f := find_link (fuel_of h) h (fun n => (hash n =? hash_of obj) && matches obj n) hd 0 in
  Ok (match f with Some (_, i) => i | None => UTL_NOT_FOUND end).

(** UtlSortedList::occurrencesOf: [comparison] stays 0, so the loop visits
    the whole list. *)
Definition sorted_occurrencesOf (this : loc) (obj : A) (h : heap) : outcome Z :=
  let! hd := head this h in count_links (fuel_of h) h (matches obj) hd 0.

(** UtlSortedListIterator::findNext *)
Definition sorted_iter_findNext (this : loc) (obj : A) (h : heap) (c : cursor)
    : outcome (cursor * option A) :=
  let! tl := tail this h in
  let miss := match tl with Some t => At t | None => BeforeFirst end in
  match c with
  | OffListEnd => Ok (miss, None)
  | _ =>
      let! start := (match c with At p => Ok (Some p) | _ => head this h end) in
      let! f := findNode h start EXACTLY obj in
      match f with
      | Some nextNode =>
          let! n := deref h nextNode in
          Ok (match data n with Some _ => At nextNode | None => miss end, data n)
      | None => Ok (miss, None)
      end
  end.

End Lists.
Arguments state A : clear implicits.
