(* ===== verification/UtlListRefine.v ===== *)
(** * The list containers as sequences: the representation predicate

    [owns P this m xs ds]: in memory [m] the list object [this] links the
    blocks [xs], whose data are [ds], apart from the blocks of the pool.
    The lemmas here say what the loops over a chain compute, what linking a
    new element in and removing one do to [ds], and how a removal moves the
    registered iterators.  The clients are UtlSListSpec, UtlSortedListSpec
    and UtlListIterSpec. *)
From Stdlib Require Import ZArith Lia Ascii String.
From stdpp Require Import base list gmap sorting.
From S2P Require Import Prelude Containable UtlLink UtlList.
Local Open Scope Z_scope.

Section Refine.
Context {A : Type} `{Containable A} `{EqDecision A}.
Abbreviation heap := (gmap loc (Link A)).
Implicit Types (h : heap) (m : heap * Z) (xs : list loc) (ds : list A).

Definition holds h (x : loc) (d : A) : Prop :=
  exists p n, h !! x = Some (mkLink p n (Some d) (hash_of d)).

Definition owns (P : Pool) (this : loc) m xs ds : Prop :=
  (2 <= mBlockSize P)%nat
  /\ (exists ps bs, pool_inv (fst m) P ps bs /\ (this :: xs) ## pool_locs P ps bs)
  /\ is_list (fst m) this xs /\ Forall2 (holds (fst m)) xs ds.

(** ** Loops over a chain *)

Lemma list_fuel h hdr xs : is_list h hdr xs -> (length xs < fuel_of h)%nat.
Proof.
  intros Hl. unfold fuel_of. rewrite <- size_dom.
  assert (list_to_set xs ⊆ dom h) as Hsub.
  { intros x Hx. apply elem_of_list_to_set in Hx. apply elem_of_dom.
    eapply is_list_alloc; [done|set_solver]. }
  destruct Hl as (Hnd & _). apply NoDup_cons in Hnd as [_ Hnd].
  apply subseteq_size in Hsub. rewrite size_list_to_set in Hsub by done. lia.
Qed.

(** A test on blocks that only looks at the element and its hash. *)
Definition tests (test : Link A -> bool) (T : A -> bool) : Prop :=
  forall p n d, test (mkLink p n (Some d) (hash_of d)) = T d.

Lemma seg_holds_head h p x xs n d ds :
  seg h p (x :: xs) n -> Forall2 (holds h) (x :: xs) (d :: ds) ->
  h !! x = Some (mkLink p (hd_or n xs) (Some d) (hash_of d))
  /\ seg h (Some x) xs n /\ Forall2 (holds h) xs ds.
Proof.
  intros [(d' & z & Hx) Hs] Hh. apply Forall2_cons in Hh as [(p' & n' & Hx') Hh].
  rewrite Hx in Hx'. simplify_eq. by repeat split.
Qed.

Lemma find_link_spec fuel h p xs ds test T i :
  tests test T -> seg h p xs None -> Forall2 (holds h) xs ds -> (length xs < fuel)%nat ->
  (find_link fuel h test (hd_or None xs) i = Ok None /\ Forall (fun d => T d = false) ds)
  \/ exists xs1 x xs2 ds1 d ds2, xs = xs1 ++ x :: xs2 /\ ds = ds1 ++ d :: ds2
       /\ length xs1 = length ds1 /\ Forall (fun d => T d = false) ds1 /\ T d = true
       /\ find_link fuel h test (hd_or None xs) i = Ok (Some (x, i + Z.of_nat (length ds1))).
Proof.
  intros HT. revert h p ds fuel i. induction xs as [|x xs IH]; intros h p ds fuel i Hs Hh Hf.
  - apply Forall2_nil_inv_l in Hh as ->. left. destruct fuel; [simpl in Hf; lia|]. by split.
  - destruct fuel as [|fuel]; [simpl in Hf; lia|].
    destruct ds as [|d ds]; [by apply Forall2_cons_nil_inv in Hh|].
    apply (seg_holds_head h p x xs None d ds) in Hs as (Hx & Hs & Hh'); [|done].
    assert (find_link (S fuel) h test (hd_or None (x :: xs)) i
            = if T d then Ok (Some (x, i)) else find_link fuel h test (hd_or None xs) (i + 1)) as Hstep
      by (simpl; unfold deref; rewrite Hx; simpl; by rewrite HT).
    destruct (T d) eqn:E.
    + right. exists [], x, xs, [], d, ds.
      split; [done|]. split; [done|]. split; [done|]. split; [by apply Forall_nil|].
      split; [done|]. rewrite Hstep. simpl. by rewrite Z.add_0_r.
    + destruct (IH h (Some x) ds fuel (i + 1))
        as [[Hf1 Hall]|(xs1 & y & xs2 & ds1 & e & ds2 & -> & -> & Hlen & Hall & Ht & Hf1)];
        [done|done|simpl in Hf; lia| |].
      * left. rewrite Hstep. split; [done|]. by constructor.
      * right. exists (x :: xs1), y, xs2, (d :: ds1), e, ds2.
        split; [done|]. split; [done|]. split; [simpl; by f_equal|]. split; [by constructor|].
        split; [done|]. rewrite Hstep, Hf1. do 3 f_equal. simpl. lia.
Qed.

Lemma nth_link_spec fuel h p xs n N :
  seg h p xs None -> (length xs < fuel)%nat -> n <= N ->
  nth_link fuel h (hd_or None xs) n N
  = Ok (xs !! Z.to_nat (N - n), Z.min N (n + Z.of_nat (length xs))).
Proof.
  revert h p fuel n. induction xs as [|x xs IH]; intros h p fuel n Hs Hf Hn.
  - simpl. rewrite Z.add_0_r, Z.min_r by lia. by destruct fuel.
  - destruct fuel as [|fuel]; [simpl in Hf; lia|]. destruct Hs as [(d & z & Hx) Hs].
    simpl. destruct (Z.ltb_spec n N).
    + unfold deref. rewrite Hx. simpl.
      rewrite (IH h (Some x)) by (simpl in Hf; (done || lia)).
      replace (Z.to_nat (N - n)) with (S (Z.to_nat (N - (n + 1)))) by lia. simpl.
      f_equal. f_equal. lia.
    + replace (Z.to_nat (N - n)) with 0%nat by lia. simpl. f_equal. f_equal. lia.
Qed.

Lemma count_links_spec fuel h p xs ds test T k :
  tests test T -> seg h p xs None -> Forall2 (holds h) xs ds -> (length xs < fuel)%nat ->
  count_links fuel h test (hd_or None xs) k
  = Ok (k + Z.of_nat (length (filter (fun d => T d = true) ds))).
Proof.
  intros HT. revert h p ds fuel k. induction xs as [|x xs IH]; intros h p ds fuel k Hs Hh Hf.
  - apply Forall2_nil_inv_l in Hh as ->. simpl. rewrite Z.add_0_r. by destruct fuel.
  - destruct fuel as [|fuel]; [simpl in Hf; lia|].
    destruct ds as [|d ds]; [by apply Forall2_cons_nil_inv in Hh|].
    apply (seg_holds_head h p x xs None d ds) in Hs as (Hx & Hs & Hh'); [|done].
    simpl. unfold deref. rewrite Hx. simpl. rewrite HT.
    rewrite (IH h (Some x) ds) by (simpl in Hf; (done || lia)).
    rewrite filter_cons. f_equal. case_decide as E; [rewrite E; simpl; lia|].
    apply not_true_is_false in E. by rewrite E.
Qed.

Lemma head_spec m P this xs ds : owns P this m xs ds -> head this (fst m) = Ok (hd_or None xs).
Proof. intros (_ & _ & (_ & (d & z & Hh) & _) & _). unfold head, deref. by rewrite Hh. Qed.

Lemma tail_spec m P this xs ds : owns P this m xs ds -> tail this (fst m) = Ok (last_or None xs).
Proof. intros (_ & _ & (_ & (d & z & Hh) & _) & _). unfold tail, deref. by rewrite Hh. Qed.

Lemma owns_seg m P this xs ds :
  owns P this m xs ds ->
  seg (fst m) None xs None /\ Forall2 (holds (fst m)) xs ds /\ (length xs < fuel_of (fst m))%nat.
Proof. intros (_ & _ & Hl & Hh). pose proof (list_fuel _ _ _ Hl). destruct Hl as (_ & _ & Hs). auto. Qed.

Lemma holds_frame h h' xs ds :
  (forall x, x ∈ xs -> (fun n => (data n, hash n)) <$> h' !! x = (fun n => (data n, hash n)) <$> h !! x) ->
  Forall2 (holds h) xs ds -> Forall2 (holds h') xs ds.
Proof.
  intros Hf Hh. induction Hh as [|x d xs ds (p & n & Hx) Hh IH]; constructor.
  - specialize (Hf x ltac:(set_solver)). rewrite Hx in Hf.
    destruct (h' !! x) as [[p' n' d' z']|] eqn:E; simpl in Hf; simplify_eq. by exists p', n'.
  - apply IH. intros y Hy. apply Hf. set_solver.
Qed.

(** ** Linking in and removing *)

Lemma Forall2_insert h xs1 xs2 ds1 ds2 x d :
  length xs1 = length ds1 -> Forall2 (holds h) (xs1 ++ xs2) (ds1 ++ ds2) -> holds h x d ->
  Forall2 (holds h) (xs1 ++ x :: xs2) (ds1 ++ d :: ds2).
Proof.
  intros Hlen Hh Hx. apply Forall2_app_inv in Hh as [H1 H2]; [|done].
  by apply Forall2_app, Forall2_cons.
Qed.

Lemma link_in_owns P this m xs1 xs2 ds1 ds2 d
    (link_op : loc -> loc -> option loc -> heap -> outcome heap) (existing : option loc) :
  (forall h x n, is_list h this (xs1 ++ xs2) -> x ∉ this :: xs1 ++ xs2 ->
     h !! x = Some n -> prev n = None -> next n = None ->
     exists h', link_op x this existing h = Ok h'
       /\ is_list h' this (xs1 ++ x :: xs2) /\ only_links (x :: this :: xs1 ++ xs2) h h') ->
  owns P this m (xs1 ++ xs2) (ds1 ++ ds2) -> length xs1 = length ds1 ->
  exists x m',
    (let! r := pool_get P m in
     match fst r with
     | None => UB
     | Some newLink =>
         let! h1 := upd (set_data (Some d) (hash_of d)) newLink (fst (snd r)) in
         let! h2 := link_op newLink this existing h1 in
         Ok (newLink, (h2, snd (snd r)))
     end) = Ok (x, m')
    /\ owns P this m' (xs1 ++ x :: xs2) (ds1 ++ d :: ds2) /\ x ∉ this :: xs1 ++ xs2.
Proof.
  intros Hop (Hsz & (ps & bs & Hpool & Hdis) & Hl & Hh) Hlen. destruct m as [h k]. simpl in *.
  destruct (pool_get_spec h P ps bs k Hpool Hsz)
    as (x & h1 & k1 & ps1 & bs1 & -> & Hpool1 & (d0 & z0 & Hx) & Hxp & Hframe & Hnew).
  simpl. unfold upd. rewrite Hx. simpl.
  assert (forall l, l ∈ this :: xs1 ++ xs2 -> is_Some (h !! l)) as Hall
    by (intros l; by apply is_list_alloc).
  assert (forall l, l ∈ this :: xs1 ++ xs2 -> l ∉ x :: pool_locs P ps1 bs1) as Hsep.
  { intros l Hl' Hin. destruct (Hnew l Hin) as [Hold|Hnone].
    - by apply (Hdis l).
    - destruct (Hall l Hl') as [? E]. congruence. }
  assert (x ∉ this :: xs1 ++ xs2) as Hxl by (intros Hin; apply (Hsep x Hin); set_solver).
  set (h2 := <[x := set_data (Some d) (hash_of d) (mkLink None None d0 z0)]> h1).
  assert (forall l, l ∈ this :: xs1 ++ xs2 -> h2 !! l = h !! l) as Heq.
  { intros l Hl'. unfold h2. rewrite lookup_insert_ne by set_solver.
    apply Hframe; [by apply Hall|]. intros Hin. by apply (Hdis l). }
  destruct (Hop h2 x (mkLink None None (Some d) (hash_of d))) as (h3 & -> & Hl3 & Ho3).
  - by eapply is_list_frame.
  - done.
  - unfold h2. by rewrite lookup_insert_eq.
  - done.
  - done.
  - simpl. exists x, (h3, k1). split; [done|]. split; [|done]. split; [done|].
    assert (forall l, l ∈ pool_locs P ps1 bs1 -> h3 !! l = h1 !! l) as Hpeq.
    { intros l Hin. destruct Ho3 as [Ho3 _]. rewrite Ho3.
      - unfold h2. rewrite lookup_insert_ne; [done|]. set_solver.
      - intros Hin'. apply elem_of_cons in Hin' as [->|Hin']; [done|].
        apply (Hsep l Hin'). set_solver. }
    split.
    + exists ps1, bs1. destruct Hpool1 as (Hp1 & Hb1 & Hd1). split.
      * split; [|split; [|done]]; (eapply is_list_frame; [|done]); intros l Hin; apply Hpeq;
          unfold pool_locs; set_solver.
      * intros l Hin Hin'. apply elem_of_cons in Hin as [->|Hin]; [apply (Hsep this); set_solver|].
        apply elem_of_app in Hin as [Hin|Hin]; [apply (Hsep l); set_solver|].
        apply elem_of_cons in Hin as [->|Hin]; [done|apply (Hsep l); set_solver].
    + split; [done|]. apply Forall2_insert; [done| |].
      * eapply holds_frame; [|done]. intros l Hin. destruct Ho3 as [_ Ho3].
        rewrite Ho3, Heq; [done|set_solver].
      * destruct Ho3 as [_ Ho3]. specialize (Ho3 x). unfold h2 in Ho3. rewrite lookup_insert_eq in Ho3.
        destruct (h3 !! x) as [[p' n' d' z']|] eqn:E; simpl in Ho3; simplify_eq. by exists p', n'.
Qed.

Lemma seg_set_data h p xs n x nd d z :
  h !! x = Some nd -> seg h p xs n -> seg (<[x := set_data d z nd]> h) p xs n.
Proof.
  intros Hx. revert p. induction xs as [|y xs IH]; intros p; simpl; [done|].
  intros [(d' & z' & Hy) Hs]. split; [|by apply IH].
  destruct (decide (y = x)) as [->|Hne].
  - rewrite Hx in Hy. injection Hy as ->. exists d, z. by rewrite lookup_insert_eq.
  - exists d', z'. by rewrite lookup_insert_ne.
Qed.

Lemma is_list_set_data h hdr xs x nd d z :
  h !! x = Some nd -> is_list h hdr xs -> is_list (<[x := set_data d z nd]> h) hdr xs.
Proof.
  intros Hx (Hnd & (d' & z' & Hh) & Hs). split; [done|]. split; [|by apply seg_set_data].
  destruct (decide (hdr = x)) as [->|Hne].
  - rewrite Hx in Hh. injection Hh as ->. exists d, z. by rewrite lookup_insert_eq.
  - exists d', z'. by rewrite lookup_insert_ne.
Qed.

Lemma detachFrom_owns P this m xs1 xs2 x ds1 ds2 d :
  owns P this m (xs1 ++ x :: xs2) (ds1 ++ d :: ds2) -> length xs1 = length ds1 ->
  exists m', detachFrom P x this m = Ok (Some d, m') /\ owns P this m' (xs1 ++ xs2) (ds1 ++ ds2).
Proof.
  intros (Hsz & (ps & bs & (Hp & Hb & Hpb) & Hdis) & Hl & Hh) Hlen. destruct m as [h k]. simpl in *.
  pose proof Hl as (Hnd & _). rewrite <- Permutation_middle, !NoDup_cons in Hnd.
  apply Forall2_app_inv in Hh as [Hh1 Hh2]; [|done].
  apply Forall2_cons in Hh2 as [(p0 & n0 & Hx) Hh2].
  unfold detachFrom, deref, upd. simpl. rewrite Hx. simpl.
  destruct (detachFromList_spec (<[x := set_data None 0 (mkLink p0 n0 (Some d) (hash_of d))]> h)
    this xs1 xs2 x) as (h2 & -> & Hl2 & (d2 & z2 & Hx2) & Ho2); [by apply is_list_set_data|].
  simpl. unfold link_release, upd. rewrite Hx2. simpl.
  set (h3 := <[x := mkLink None None None 0]> h2).
  assert (forall l, l ∉ this :: xs1 ++ x :: xs2 -> h3 !! l = h !! l) as Heq.
  { intros l Hin. destruct Ho2 as [Ho2 _]. unfold h3.
    rewrite lookup_insert_ne, Ho2, lookup_insert_ne by set_solver. done. }
  assert (is_list h3 (mPool P) ps) as Hp3.
  { eapply is_list_frame; [|done]. intros l Hin. apply Heq. intros Hin'.
    apply (Hdis l); [done|]. unfold pool_locs. set_solver. }
  assert (x ∉ mPool P :: ps) as Hxp.
  { intros Hin. apply (Hdis x); unfold pool_locs; set_solver. }
  unfold pool_release.
  destruct (listBefore_spec h3 (mPool P) ps [] x (mkLink None None None 0)) as (h4 & E4 & Hp4 & Ho4);
    rewrite ?app_nil_r in *; try done; [unfold h3; by rewrite lookup_insert_eq|].
  cbn [hd_or] in E4. change (set_data None 0 _) with (mkLink (@None loc) None (@None A) 0). fold h3.
  rewrite E4. simpl. eexists; split; [done|]. split; [done|]. simpl.
  assert (forall l, l ∉ x :: mPool P :: ps -> h4 !! l = h3 !! l) as Heq4 by apply Ho4.
  assert (forall l, l ∈ this :: xs1 ++ xs2 -> l ∉ x :: mPool P :: ps) as Hsep.
  { intros l Hin Hin'. apply elem_of_cons in Hin' as [->|Hin']; [set_solver|].
    apply (Hdis l); unfold pool_locs; set_solver. }
  split.
  - exists (ps ++ [x]), bs. split.
    + split; [done|]. split.
      * eapply is_list_frame; [|done]. intros l Hin. rewrite Heq4, Heq; [done| |].
        -- intros Hin'. apply (Hdis l); [done|]. unfold pool_locs. set_solver.
        -- intros Hin'. apply elem_of_cons in Hin' as [->|Hin'].
           ++ apply (Hdis x); unfold pool_locs; set_solver.
           ++ by apply (Hpb l).
      * intros l Hin Hin'. apply elem_of_cons in Hin as [->|Hin]; [by apply (Hpb (mPool P)); set_solver|].
        apply elem_of_app in Hin as [Hin|Hin]; [apply (Hpb l); set_solver|].
        assert (l = x) as -> by set_solver. apply (Hdis x); unfold pool_locs; set_solver.
    + intros l Hin Hin'. specialize (Hsep l Hin).
      assert (l ∈ pool_locs P ps bs) by (unfold pool_locs in *; set_solver).
      apply (Hdis l); set_solver.
  - split.
    + eapply is_list_frame; [|exact Hl2]. intros l Hin. rewrite Heq4 by by apply Hsep.
      unfold h3. rewrite lookup_insert_ne; [done|]. set_solver.
    + assert (Forall2 (holds h) (xs1 ++ xs2) (ds1 ++ ds2)) as Hh12 by by apply Forall2_app.
      eapply holds_frame; [|exact Hh12]. intros l Hin. rewrite Heq4 by (apply Hsep; set_solver).
      unfold h3. rewrite lookup_insert_ne by set_solver. destruct Ho2 as [_ Ho2]. rewrite Ho2.
      rewrite lookup_insert_ne; [done|]. set_solver.
Qed.

(** What [removing] does to a cursor when [x], preceded by [xs1], goes. *)
Definition step_back (xs1 : list loc) (x : loc) (c : cursor) : cursor :=
  if bool_decide (c = At x)
  then match last_or None xs1 with None => BeforeFirst | Some p => At p end else c.

Lemma removeLink_owns P this s xs1 xs2 x ds1 ds2 d :
  owns P this (mem s) (xs1 ++ x :: xs2) (ds1 ++ d :: ds2) -> length xs1 = length ds1 ->
  exists s', removeLink P this x s = Ok s'
    /\ owns P this (mem s') (xs1 ++ xs2) (ds1 ++ ds2)
    /\ iterators s' = step_back xs1 x <$> iterators s.
Proof.
  intros Ho Hlen. pose proof Ho as (_ & _ & Hl & _).
  apply is_list_split in Hl as (_ & _ & _ & Hs2). simpl in Hs2. destruct Hs2 as [(d0 & z0 & Hx) _].
  assert (forall cs, removing_all (heap_of s) x cs = Ok (step_back xs1 x <$> cs)) as Hrem.
  { unfold heap_of. induction cs as [|c cs IH]; simpl; [done|]. unfold removing at 1, step_back at 1.
    destruct (bool_decide (c = At x)); simpl; [|by rewrite IH].
    unfold deref. rewrite Hx. simpl. by rewrite IH. }
  unfold removeLink. rewrite Hrem. simpl.
  destruct (detachFrom_owns P this (mem s) xs1 xs2 x ds1 ds2 d Ho Hlen) as (m' & -> & Ho').
  simpl. eexists; split; [done|]. by split.
Qed.

(** ** The shared operations *)

Lemma listBefore_owns P this m xs1 xs2 ds1 ds2 d :
  owns P this m (xs1 ++ xs2) (ds1 ++ ds2) -> length xs1 = length ds1 ->
  exists x m', link_listBefore P this (hd_or None xs2) d m = Ok (x, m')
    /\ owns P this m' (xs1 ++ x :: xs2) (ds1 ++ d :: ds2) /\ x ∉ this :: xs1 ++ xs2.
Proof.
  intros Ho Hlen. apply (link_in_owns P this m xs1 xs2 ds1 ds2 d listBefore (hd_or None xs2)); [|done..].
  intros h x n. apply listBefore_spec.
Qed.

Lemma listAfter_owns P this m xs1 xs2 ds1 ds2 d :
  owns P this m (xs1 ++ xs2) (ds1 ++ ds2) -> length xs1 = length ds1 ->
  exists x m', link_listAfter P this (last_or None xs1) d m = Ok (x, m')
    /\ owns P this m' (xs1 ++ x :: xs2) (ds1 ++ d :: ds2) /\ x ∉ this :: xs1 ++ xs2.
Proof.
  intros Ho Hlen. apply (link_in_owns P this m xs1 xs2 ds1 ds2 d listAfter (last_or None xs1)); [|done..].
  intros h x n. apply listAfter_spec.
Qed.

Lemma owns_length P this m xs ds : owns P this m xs ds -> length xs = length ds.
Proof. intros (_ & _ & _ & Hh). by eapply Forall2_length. Qed.

(** The data of a linked block. *)
Lemma owns_data P this m xs ds i x :
  owns P this m xs ds -> xs !! i = Some x ->
  exists d n, ds !! i = Some d /\ deref (fst m) x = Ok n /\ data n = Some d.
Proof.
  intros (_ & _ & _ & Hh) Hx. destruct (Forall2_lookup_l _ _ _ _ _ Hh Hx) as (d & Hd & p & n & E).
  exists d. eexists. unfold deref. rewrite E. by repeat split.
Qed.

(** A removal of the [i]-th block. *)
Lemma removeLink_nth P this s xs ds i x :
  owns P this (mem s) xs ds -> xs !! i = Some x ->
  exists s', removeLink P this x s = Ok s'
    /\ owns P this (mem s') (delete i xs) (delete i ds)
    /\ iterators s' = step_back (take i xs) x <$> iterators s.
Proof.
  intros Ho Hx. pose proof (owns_length _ _ _ _ _ Ho) as Hlen.
  destruct (owns_data _ _ _ _ _ _ _ Ho Hx) as (d & _ & Hd & _).
  rewrite !delete_take_drop.
  rewrite <- (take_drop_middle xs i x), <- (take_drop_middle ds i d) in Ho by done.
  apply (removeLink_owns P this s _ _ x _ _ d Ho). rewrite !length_take. lia.
Qed.

End Refine.
