(* ===== verification/UtlSListSpec.v ===== *)
(** * UtlSList refines sequences of objects

    [slist_spec] says what each UtlList/UtlSList operation does to the
    sequence of contained objects and what it returns; [slist_run] runs the
    operations of the model on the chained blocks.  A sequence of operations
    on any list object gives the specified results, whatever iterators are
    registered, unless it calls UtlSList::find where the search reaches the
    end of the list: that is undefined behaviour ([slist_defined]). *)
From Stdlib Require Import ZArith Lia Ascii String.
From stdpp Require Import base list gmap.
From S2P Require Import Prelude UtlStringRefine Containable UtlLink UtlList UtlListRefine.
Local Open Scope Z_scope.

Inductive slist_op (A : Type) : Type :=
| SAppend (obj : option A) | SInsertAt (N : Z) (obj : A) | SRemoveAt (N : Z) | SGet
| SRemove (obj : A) | SRemoveReference (obj : A) | SRemoveAll
| SFirst | SLast | SAt (N : Z) | SFind (obj : A) | SIndex (obj : A) | SOccurrencesOf (obj : A)
| SEntries | SIsEmpty | SContainsReference (obj : A).
Arguments SAppend {A} _. Arguments SInsertAt {A} _ _. Arguments SRemoveAt {A} _.
Arguments SGet {A}. Arguments SRemove {A} _. Arguments SRemoveReference {A} _.
Arguments SRemoveAll {A}. Arguments SFirst {A}. Arguments SLast {A}. Arguments SAt {A} _.
Arguments SFind {A} _. Arguments SIndex {A} _. Arguments SOccurrencesOf {A} _.
Arguments SEntries {A}. Arguments SIsEmpty {A}. Arguments SContainsReference {A} _.

Inductive list_result (A : Type) : Type :=
| RNone | RElem (e : option A) | RNum (n : Z) | RBool (b : bool).
Arguments RNone {A}. Arguments RElem {A} _. Arguments RNum {A} _. Arguments RBool {A} _.

Section SList.
Context {A : Type} `{ContainableLaws A valid} `{EqDecision A}.
Abbreviation heap := (gmap loc (Link A)).
Implicit Types (ds : list A) (s : state A) (xs : list loc).

(** An operation of the model, with what it returns. *)
Definition slist_run (P : Pool) (this : loc) (o : slist_op A) s : outcome (list_result A * state A) :=
  match o with
  | SAppend obj => let! s1 := slist_append P this obj s in Ok (RNone, s1)
  | SInsertAt N obj => let! r := insertAt P this N obj s in Ok (RElem (fst r), snd r)
  | SRemoveAt N => let! r := removeAt P this N s in Ok (RElem (fst r), snd r)
  | SGet => let! r := get P this s in Ok (RElem (fst r), snd r)
  | SRemove obj => let! r := slist_remove P this obj s in Ok (RElem (fst r), snd r)
  | SRemoveReference obj => let! r := removeReference P this obj s in Ok (RElem (fst r), snd r)
  | SRemoveAll => let! s1 := removeAll P this s in Ok (RNone, s1)
  | SFirst => let! e := first this (heap_of s) in Ok (RElem e, s)
  | SLast => let! e := last_element this (heap_of s) in Ok (RElem e, s)
  | SAt N => let! e := at_index this N (heap_of s) in Ok (RElem e, s)
  | SFind obj => let! e := slist_find this obj (heap_of s) in Ok (RElem e, s)
  | SIndex obj => let! i := slist_index this obj (heap_of s) in Ok (RNum i, s)
  | SOccurrencesOf obj => let! n := slist_occurrencesOf this obj (heap_of s) in Ok (RNum n, s)
  | SEntries => let! n := entries this (heap_of s) in Ok (RNum n, s)
  | SIsEmpty => let! b := isEmpty this (heap_of s) in Ok (RBool b, s)
  | SContainsReference obj => let! b := containsReference this obj (heap_of s) in Ok (RBool b, s)
  end.

(** Remove the first object satisfying [Q]. *)
Definition extract (Q : A -> Prop) `{forall d, Decision (Q d)} ds : option A * list A :=
  match list_find Q ds with Some (i, d) => (Some d, delete i ds) | None => (None, ds) end.

Definition equals (obj d : A) : Prop := compare_to d obj = 0.
#[local] Instance equals_dec obj d : Decision (equals obj d) := decide (compare_to d obj = 0).

(** The same operation on the sequence of objects. *)
Definition slist_spec (o : slist_op A) ds : list_result A * list A :=
  match o with
  | SAppend (Some obj) => (RNone, ds ++ [obj])
  | SAppend None => (RNone, ds)
  | SInsertAt N obj =>
      if bool_decide (N <= Z.of_nat (length ds))
      then (RElem (Some obj), take (Z.to_nat N) ds ++ obj :: drop (Z.to_nat N) ds)
      else (RElem None, ds)
  | SRemoveAt N => (RElem (ds !! Z.to_nat N), delete (Z.to_nat N) ds)
  | SGet => (RElem (ds !! 0%nat), delete 0%nat ds)
  | SRemove obj => let r := extract (equals obj) ds in (RElem (fst r), snd r)
  | SRemoveReference obj => let r := extract (eq obj) ds in (RElem (fst r), snd r)
  | SRemoveAll => (RNone, [])
  | SFirst => (RElem (ds !! 0%nat), ds)
  | SLast => (RElem (last ds), ds)
  | SAt N => (RElem (ds !! Z.to_nat N), ds)
  | SFind obj => (RElem (fst (extract (equals obj) ds)), ds)
  | SIndex obj => (RNum (match list_find (equals obj) ds with
                         | Some (i, _) => Z.of_nat i | None => UTL_NOT_FOUND end), ds)
  | SOccurrencesOf obj => (RNum (Z.of_nat (length (filter (equals obj) ds))), ds)
  | SEntries => (RNum (Z.of_nat (length ds)), ds)
  | SIsEmpty => (RBool (bool_decide (ds = [])), ds)
  | SContainsReference obj => (RBool (bool_decide (obj ∈ ds)), ds)
  end.

(** What an operation requires: indexes are [size_t], objects are valid. *)
Definition slist_valid (o : slist_op A) : Prop :=
  match o with
  | SAppend (Some obj) => valid obj
  | SInsertAt N obj => 0 <= N <= SIZE_MAX /\ valid obj
  | SRemoveAt N | SAt N => 0 <= N <= SIZE_MAX
  | SRemove obj | SRemoveReference obj | SFind obj => valid obj
  | _ => True
  end.

(** UtlSList::find is defined on a list whose last object has another hash,
    or has an equal object before it; otherwise, and on the empty list, it
    calls UtlLink::findNextHash through a null pointer. *)
Fixpoint find_defined (obj : A) ds : bool :=
  match ds with
  | [] => false
  | [d] => bool_decide (hash_of d <> hash_of obj)
  | d :: ds' => bool_decide (equals obj d) || find_defined obj ds'
  end.
Definition slist_defined (o : slist_op A) ds : bool :=
  match o with SFind obj => find_defined obj ds | _ => true end.

Fixpoint slist_runs (P : Pool) (this : loc) (os : list (slist_op A)) s
    : outcome (list (list_result A) * state A) :=
  match os with
  | [] => Ok ([], s)
  | o :: os' =>
      let! r := slist_run P this o s in
      let! rs := slist_runs P this os' (snd r) in
      Ok (fst r :: fst rs, snd rs)
  end.

Fixpoint slist_specs (os : list (slist_op A)) ds : list (list_result A) * list A :=
  match os with
  | [] => ([], ds)
  | o :: os' =>
      let r := slist_spec o ds in
      let rs := slist_specs os' (snd r) in (fst r :: fst rs, snd rs)
  end.

Fixpoint slist_defineds (os : list (slist_op A)) ds : bool :=
  match os with
  | [] => true
  | o :: os' => slist_defined o ds && slist_defineds os' (snd (slist_spec o ds))
  end.

(** ** Searches *)

Lemma tests_equals obj : tests (matches obj) (fun d => bool_decide (equals obj d)).
Proof. intros p n d. unfold matches, equals. simpl. by destruct (Z.eqb_spec (compare_to d obj) 0); [rewrite bool_decide_true|rewrite bool_decide_false]. Qed.

Lemma tests_reference obj :
  tests (fun n => bool_decide (data n = Some obj)) (fun d => bool_decide (obj = d)).
Proof. intros p n d. simpl. apply bool_decide_ext. naive_solver. Qed.

Lemma find_link_owns P this m xs ds test (Q : A -> Prop) `{forall d, Decision (Q d)} :
  owns P this m xs ds -> tests test (fun d => bool_decide (Q d)) ->
  (find_link (fuel_of (fst m)) (fst m) test (hd_or None xs) 0 = Ok None /\ list_find Q ds = None)
  \/ exists i x d, xs !! i = Some x /\ ds !! i = Some d /\ list_find Q ds = Some (i, d)
       /\ find_link (fuel_of (fst m)) (fst m) test (hd_or None xs) 0 = Ok (Some (x, Z.of_nat i)).
Proof.
  intros Ho HT. apply owns_seg in Ho as (Hs & Hh & Hf).
  destruct (find_link_spec _ _ None xs ds test _ 0 HT Hs Hh Hf)
    as [[E Hall]|(xs1 & x & xs2 & ds1 & d & ds2 & -> & -> & Hlen & Hall & Hd & E)].
  - left. split; [done|]. apply list_find_None. eapply Forall_impl; [done|].
    intros d Hd. by apply bool_decide_eq_false in Hd.
  - right. exists (length ds1), x, d. apply bool_decide_eq_true in Hd.
    split; [rewrite <- Hlen; by apply list_lookup_middle|].
    split; [by apply list_lookup_middle|]. split; [|by rewrite E].
    apply list_find_Some. split; [by apply list_lookup_middle|]. split; [done|].
    intros j y Hj Hlt. rewrite lookup_app_l in Hj by done. rewrite Forall_lookup in Hall.
    specialize (Hall _ _ Hj). by apply bool_decide_eq_false in Hall.
Qed.

Lemma remove_found_owns P this s xs ds test (Q : A -> Prop) `{forall d, Decision (Q d)} :
  owns P this (mem s) xs ds -> tests test (fun d => bool_decide (Q d)) ->
  exists s' xs', remove_found P this test s = Ok (fst (extract Q ds), s')
    /\ owns P this (mem s') xs' (snd (extract Q ds)).
Proof.
  intros Ho HT. unfold remove_found, extract, heap_of. rewrite (head_spec _ _ _ _ _ Ho). cbn [obind].
  destruct (find_link_owns _ _ _ _ _ _ Q Ho HT) as [[-> ->]|(i & x & d & Hx & Hd & -> & ->)]; simpl.
  - by eexists _, _.
  - destruct (owns_data _ _ _ _ _ _ _ Ho Hx) as (d' & n & Hd' & -> & En). simpl.
    destruct (removeLink_nth _ _ _ _ _ _ _ Ho Hx) as (s' & -> & Ho' & _). simpl.
    rewrite En. simplify_eq. by eexists _, _.
Qed.

(** UtlSList::find skips by hash: it still finds the first equal object. *)
Lemma next_hash_spec fuel h p xs ds z :
  seg h p xs None -> Forall2 (holds h) xs ds -> (length xs < fuel)%nat ->
  exists xs1 xs2 ds1 ds2, xs = xs1 ++ xs2 /\ ds = ds1 ++ ds2 /\ length xs1 = length ds1
    /\ Forall (fun d => hash_of d <> z) ds1
    /\ match ds2 with d :: _ => hash_of d = z | [] => True end
    /\ next_hash fuel h (hd_or None xs) z = Ok (hd_or None xs2).
Proof.
  revert p ds fuel. induction xs as [|x xs IH]; intros p ds fuel Hs Hh Hf.
  - apply Forall2_nil_inv_l in Hh as ->. exists [], [], [], []. destruct fuel; [simpl in Hf; lia|].
    repeat split; by apply Forall_nil.
  - destruct fuel as [|fuel]; [simpl in Hf; lia|].
    destruct ds as [|d ds]; [by apply Forall2_cons_nil_inv in Hh|].
    pose proof (seg_holds_head h p x xs None d ds Hs Hh) as (Hx & Hs' & Hh').
    simpl. unfold deref. rewrite Hx. simpl. case_bool_decide as E.
    + destruct (IH (Some x) ds fuel) as (xs1 & xs2 & ds1 & ds2 & -> & -> & Hlen & Hall & Hd & Hr);
        [done|done|simpl in Hf; lia|].
      exists (x :: xs1), xs2, (d :: ds1), ds2. simpl. repeat split; [by f_equal|by constructor|done..].
    + exists [], (x :: xs), [], (d :: ds). repeat split; [by apply Forall_nil|done].
Qed.

Lemma extract_skip (Q : A -> Prop) `{forall d, Decision (Q d)} ds1 ds2 :
  Forall (fun d => ~ Q d) ds1 -> fst (extract Q (ds1 ++ ds2)) = fst (extract Q ds2).
Proof.
  intros Hall. unfold extract. induction Hall as [|d ds1 Hd Hall IH]; simpl; [done|].
  rewrite decide_False by done. destruct (list_find Q (ds1 ++ ds2)) as [[i e]|]; simpl in *; done.
Qed.

Lemma hash_skip obj ds :
  valid obj -> Forall valid ds -> Forall (fun d => hash_of d <> hash_of obj) ds ->
  Forall (fun d => ~ equals obj d) ds.
Proof.
  intros Ho Hv Hh. rewrite Forall_forall in *. intros d Hd E. apply (Hh d Hd).
  apply (equal_hash d obj); auto.
Qed.

Lemma find_defined_skip obj ds1 ds2 :
  ds2 <> [] -> Forall (fun d => ~ equals obj d) ds1 ->
  find_defined obj (ds1 ++ ds2) = find_defined obj ds2.
Proof.
  intros Hne. induction 1 as [|d ds1 Hd _ IH]; [done|]. simpl. rewrite IH.
  destruct (ds1 ++ ds2) eqn:E; [by apply app_nil in E as [_ ->]|].
  by rewrite bool_decide_false.
Qed.

Lemma find_defined_hash obj ds :
  ds <> [] -> Forall (fun d => hash_of d <> hash_of obj) ds -> find_defined obj ds = true.
Proof.
  intros Hne. induction 1 as [|d ds Hd _ IH]; [done|]. simpl.
  destruct ds; [by rewrite bool_decide_true|]. rewrite IH by done. apply orb_true_r.
Qed.

(** What UtlSList::find returns on the objects from some link on. *)
Definition found (obj : A) ds : outcome (option A) :=
  if find_defined obj ds then Ok (fst (extract (equals obj) ds)) else UB.

Lemma found_skip obj ds1 ds2 :
  valid obj -> Forall valid ds1 -> ds1 ++ ds2 <> [] ->
  Forall (fun d => hash_of d <> hash_of obj) ds1 ->
  found obj (ds1 ++ ds2) = if ds2 is [] then Ok None else found obj ds2.
Proof.
  intros Hv Hvs Hne Hh. pose proof (hash_skip obj ds1 Hv Hvs Hh) as Hn. unfold found. destruct ds2 as [|d ds2].
  - rewrite app_nil_r in *. rewrite find_defined_hash by done.
    pose proof (extract_skip _ ds1 [] Hn) as E. rewrite app_nil_r in E. by rewrite E.
  - by rewrite find_defined_skip, extract_skip.
Qed.

Lemma findNextHash_found h p xs ds obj (k : option loc -> outcome (option A)) :
  seg h p xs None -> Forall2 (holds h) xs ds -> (length xs < fuel_of h)%nat ->
  valid obj -> Forall valid ds -> k None = Ok None ->
  (forall xs1 xs2 ds1 ds2 q, xs = xs1 ++ xs2 -> ds = ds1 ++ ds2 -> seg h q xs2 None ->
     Forall2 (holds h) xs2 ds2 -> Forall valid ds2 ->
     match ds2 with d :: _ => hash_of d = hash_of obj | [] => False end ->
     k (hd_or None xs2) = found obj ds2) ->
  (let! l := findNextHash h (hd_or None xs) (hash_of obj) in k l) = found obj ds.
Proof.
  intros Hs Hh Hf Hv Hvs Hk0 Hk.
  destruct xs as [|x xs]; [by apply Forall2_nil_inv_l in Hh as ->|]. unfold findNextHash.
  cbn [hd_or]. destruct (next_hash_spec _ _ _ _ _ (hash_of obj) Hs Hh Hf)
    as (xs1 & xs2 & ds1 & ds2 & Ex & -> & Hlen & Hall & Hd & E).
  cbn [hd_or] in E. rewrite E. cbn [obind]. rewrite Ex in Hh, Hs.
  apply seg_app in Hs as [_ Hs2]. apply Forall2_app_inv in Hh as [Hh1 Hh2]; [|done].
  apply Forall_app in Hvs as [Hv1 Hv2]. rewrite found_skip; [|done..| |done].
  - destruct ds2 as [|d ds2]; [by apply Forall2_nil_inv_r in Hh2 as ->|]. by eapply Hk.
  - intros Hnil. apply app_nil in Hnil as [-> ->]. apply Forall2_nil_inv_r in Hh1, Hh2. by subst.
Qed.

Lemma slist_find_loop_spec fuel h p xs ds obj :
  seg h p xs None -> Forall2 (holds h) xs ds -> (length xs < fuel)%nat -> (length xs < fuel_of h)%nat ->
  valid obj -> Forall valid ds ->
  match ds with d :: _ => hash_of d = hash_of obj | [] => False end ->
  slist_find_loop fuel h obj (hd_or None xs) = found obj ds.
Proof.
  revert p xs ds. induction fuel as [|fuel IH]; intros p xs ds Hs Hh Hf Hf' Hv Hvs Hd; [lia|].
  destruct ds as [|d ds]; [done|]. destruct xs as [|x xs]; [by apply Forall2_nil_cons_inv in Hh|].
  pose proof (seg_holds_head h p x xs None d ds Hs Hh) as (Hx & Hs' & Hh').
  apply Forall_cons in Hvs as [Hvd Hvs]. simpl in Hf, Hf'.
  cbn [slist_find_loop hd_or]. unfold deref. rewrite Hx. cbn [obind data next].
  assert (found obj (d :: ds) = if ds is [] then UB else
            if decide (equals obj d) then Ok (Some d) else found obj ds) as ->.
  { destruct ds as [|d' ds]; unfold found; [simpl; by case_bool_decide|].
    change (find_defined obj (d :: d' :: ds)) with (bool_decide (equals obj d) || find_defined obj (d' :: ds)).
    unfold extract at 1. change (list_find (equals obj) (d :: d' :: ds)) with
      (if decide (equals obj d) then Some (0%nat, d)
       else prod_map S id <$> list_find (equals obj) (d' :: ds)).
    case_decide; [by rewrite bool_decide_true|]. rewrite bool_decide_false by done.
    cbn [orb]. destruct (find_defined obj (d' :: ds)); [|done]. f_equal. unfold extract.
    by destruct (list_find _ (d' :: ds)) as [[i e]|]. }
  destruct ds as [|d' ds]; [by apply Forall2_nil_inv_r in Hh' as ->|].
  rewrite tests_equals. case_decide as E.
  - rewrite bool_decide_true by done. destruct xs as [|x' xs]; [by apply Forall2_nil_cons_inv in Hh'|].
    unfold findNextHash. cbn [hd_or].
    destruct (next_hash_spec (fuel_of h) h (Some x) (x' :: xs) (d' :: ds) (hash_of obj))
      as (? & ? & ? & ? & _ & _ & _ & _ & _ & E'); [done|done|simpl in *; lia|].
    cbn [hd_or] in E'. by rewrite E'.
  - rewrite bool_decide_false by done.
    apply (findNextHash_found _ (Some x)); [done|done|lia|done|done|by destruct fuel|].
    intros xs1 xs2 ds1 ds2 q -> _ Hs2 Hh2 Hv2 Hd2. rewrite length_app in Hf, Hf'.
    apply (IH q); (done || lia).
Qed.

Lemma slist_find_owns P this m xs ds obj :
  owns P this m xs ds -> valid obj -> Forall valid ds -> slist_find this obj (fst m) = found obj ds.
Proof.
  intros Ho Hv Hvs. unfold slist_find. rewrite (head_spec _ _ _ _ _ Ho). cbn [obind].
  apply owns_seg in Ho as (Hs & Hh & Hf).
  apply (findNextHash_found _ None); [done..| |].
  - unfold fuel_of. by destruct (_ : nat).
  - intros xs1 xs2 ds1 ds2 q -> _ Hs2 Hh2 Hv2 Hd2. rewrite length_app in Hf.
    apply (slist_find_loop_spec _ _ q); (done || lia).
Qed.

(** ** One operation *)

Lemma append_owns P this s xs ds obj :
  owns P this (mem s) xs ds ->
  exists s' x, slist_append P this (Some obj) s = Ok s' /\ owns P this (mem s') (xs ++ [x]) (ds ++ [obj])
    /\ iterators s' = iterators s.
Proof.
  intros Ho. pose proof (owns_length _ _ _ _ _ Ho) as Hlen.
  destruct (listBefore_owns P this (mem s) xs [] ds [] obj) as (x & m' & E & Ho' & _);
    rewrite ?app_nil_r; [done..|].
  unfold slist_append. cbn [hd_or] in E. rewrite E. simpl. by eexists _, x.
Qed.

Lemma insertAt_in P this s xs ds N obj :
  owns P this (mem s) xs ds -> 0 <= N <= Z.of_nat (length ds) ->
  exists s' x, insertAt P this N obj s = Ok (Some obj, s')
    /\ owns P this (mem s') (take (Z.to_nat N) xs ++ x :: drop (Z.to_nat N) xs)
                            (take (Z.to_nat N) ds ++ obj :: drop (Z.to_nat N) ds)
    /\ iterators s' = iterators s.
Proof.
  intros Ho HN. pose proof (owns_length _ _ _ _ _ Ho) as Hlen.
  pose proof (owns_seg _ _ _ _ _ Ho) as (Hs & _ & Hf).
  unfold insertAt, heap_of. rewrite (head_spec _ _ _ _ _ Ho). cbn [obind].
  rewrite (nth_link_spec _ _ None xs 0 N) by (done || lia). cbn [obind fst snd].
  rewrite Z.sub_0_r, Z.min_l, Z.eqb_refl by lia.
  rewrite <- (take_drop (Z.to_nat N) xs), <- (take_drop (Z.to_nat N) ds) in Ho.
  assert (hd_or None (drop (Z.to_nat N) xs) = xs !! Z.to_nat N) as Hhd.
  { rewrite <- (Nat.add_0_r (Z.to_nat N)) at 2. rewrite <- lookup_drop. by destruct (drop _ _). }
  destruct (listBefore_owns P this (mem s) _ _ _ _ obj Ho) as (x & m' & Er & Ho' & _);
    [rewrite !length_take; lia|].
  rewrite Hhd in Er. rewrite Er. simpl. by eexists _, x.
Qed.

Lemma insertAt_out P this s xs ds N obj :
  owns P this (mem s) xs ds -> Z.of_nat (length ds) < N -> insertAt P this N obj s = Ok (None, s).
Proof.
  intros Ho HN. pose proof (owns_length _ _ _ _ _ Ho) as Hlen.
  pose proof (owns_seg _ _ _ _ _ Ho) as (Hs & _ & Hf).
  unfold insertAt, heap_of. rewrite (head_spec _ _ _ _ _ Ho). cbn [obind].
  rewrite (nth_link_spec _ _ None xs 0 N) by (done || lia). cbn [obind fst snd].
  destruct (Z.eqb_spec (Z.min N (0 + Z.of_nat (length xs))) N); [lia|done].
Qed.

Lemma removeAt_owns P this s xs ds N :
  owns P this (mem s) xs ds -> 0 <= N ->
  exists s', removeAt P this N s = Ok (ds !! Z.to_nat N, s')
    /\ owns P this (mem s') (delete (Z.to_nat N) xs) (delete (Z.to_nat N) ds)
    /\ iterators s' = match xs !! Z.to_nat N with
         | Some x => step_back (take (Z.to_nat N) xs) x <$> iterators s
         | None => iterators s end.
Proof.
  intros Ho HN. pose proof (owns_length _ _ _ _ _ Ho) as Hlen.
  pose proof (owns_seg _ _ _ _ _ Ho) as (Hs & _ & Hf).
  unfold removeAt, heap_of. rewrite (head_spec _ _ _ _ _ Ho). cbn [obind].
  rewrite (nth_link_spec _ _ None xs 0 N) by done. cbn [obind fst snd]. rewrite Z.sub_0_r.
  destruct (xs !! Z.to_nat N) as [x|] eqn:Hx.
  - destruct (owns_data _ _ _ _ _ _ _ Ho Hx) as (d & n & Hd & -> & En).
    destruct (removeLink_nth _ _ _ _ _ _ _ Ho Hx) as (s' & Er & Ho' & Hi).
    cbn [obind]. rewrite Er, Hd, En. simpl. eauto.
  - apply lookup_ge_None in Hx. rewrite (lookup_ge_None_2 ds) by lia.
    rewrite !delete_ge by lia. eauto.
Qed.

Lemma get_owns P this s xs ds :
  owns P this (mem s) xs ds ->
  exists s', get P this s = Ok (ds !! 0%nat, s') /\ owns P this (mem s') (delete 0%nat xs) (delete 0%nat ds).
Proof.
  intros Ho. pose proof (owns_length _ _ _ _ _ Ho) as Hlen.
  unfold get, heap_of. rewrite (head_spec _ _ _ _ _ Ho). cbn [obind].
  destruct xs as [|x xs], ds as [|d ds]; try done; simpl hd_or; [by eexists|].
  destruct (owns_data _ _ _ _ _ 0%nat x Ho) as (d' & n & Hd & -> & En); [done|]. simpl in Hd.
  destruct (removeLink_nth _ _ _ _ _ 0%nat x Ho) as (s' & Er & Ho' & _); [done|].
  cbn [obind]. rewrite Er. simplify_eq. simpl. rewrite En. eauto.
Qed.

Lemma removeAll_owns P this s xs ds :
  owns P this (mem s) xs ds -> exists s', removeAll P this s = Ok s' /\ owns P this (mem s') [] [].
Proof.
  intros Ho. pose proof (owns_seg _ _ _ _ _ Ho) as (_ & _ & Hf). unfold removeAll, heap_of.
  revert Hf. generalize (fuel_of (mem s).1). intros fuel. revert s xs ds Ho.
  induction fuel as [|fuel IH]; intros s xs ds Ho Hf; [lia|].
  pose proof (owns_length _ _ _ _ _ Ho) as Hlen.
  cbn [removeAll_loop]. unfold heap_of. rewrite (head_spec _ _ _ _ _ Ho). cbn [obind].
  destruct xs as [|x xs], ds as [|d ds]; try done; simpl hd_or; cbn beta iota; [by eexists|].
  destruct (removeLink_nth _ _ _ _ _ 0%nat x Ho) as (s' & -> & Ho' & _); [done|].
  cbn [obind]. apply (IH s' xs ds); [done|simpl in Hf; lia].
Qed.

Lemma data_of_owns P this m xs ds i :
  owns P this m xs ds -> data_of (fst m) (xs !! i) = Ok (ds !! i).
Proof.
  intros Ho. destruct (xs !! i) as [x|] eqn:Hx; simpl.
  - destruct (owns_data _ _ _ _ _ _ _ Ho Hx) as (d & n & -> & -> & En). simpl. by rewrite En.
  - apply lookup_ge_None in Hx. rewrite (owns_length _ _ _ _ _ Ho) in Hx.
    by rewrite lookup_ge_None_2.
Qed.

Lemma hd_or_lookup xs : hd_or None xs = xs !! 0%nat.
Proof. by destruct xs. Qed.

Lemma last_or_lookup xs : last_or None xs = xs !! pred (length xs).
Proof. unfold last_or. rewrite last_lookup. by destruct (xs !! pred (length xs)). Qed.

Lemma extract_valid (Q : A -> Prop) `{forall d, Decision (Q d)} ds :
  Forall valid ds -> Forall valid (snd (extract Q ds)).
Proof.
  intros Hv. unfold extract. destruct (list_find Q ds) as [[i d]|]; simpl; [|done].
  rewrite delete_take_drop. apply Forall_app. split; [by apply Forall_take|by apply Forall_drop].
Qed.

Lemma slist_spec_valid o ds :
  slist_valid o -> Forall valid ds -> Forall valid (snd (slist_spec o ds)).
Proof.
  intros Ho Hv. destruct o as [[obj|]|N obj|N| |obj|obj| | | |N|obj|obj|obj| | |obj]; simpl in *;
    auto using extract_valid.
  - apply Forall_app. auto.
  - case_bool_decide; simpl; [|done]. apply Forall_app. split; [by apply Forall_take|].
    constructor; [tauto|by apply Forall_drop].
  - rewrite delete_take_drop. apply Forall_app. split; [by apply Forall_take|by apply Forall_drop].
  - by destruct Hv.
Qed.

(** The operations that change the list. *)
Lemma slist_run_update P this o s xs ds :
  owns P this (mem s) xs ds -> slist_valid o ->
  match o with
  | SAppend _ | SInsertAt _ _ | SRemoveAt _ | SGet | SRemove _ | SRemoveReference _ | SRemoveAll => True
  | _ => False end ->
  exists s' xs', slist_run P this o s = Ok (fst (slist_spec o ds), s')
    /\ owns P this (mem s') xs' (snd (slist_spec o ds)).
Proof.
  intros Ho Hv Hu.
  destruct o as [[obj|]|N obj|N| |obj|obj| | | |N|obj|obj|obj| | |obj]; try done; unfold slist_run.
  - destruct (append_owns P this s xs ds obj Ho) as (s' & x & -> & Ho' & _). by eexists _, _.
  - by eexists _, _.
  - destruct Hv as [HN Hv].
    simpl. case_bool_decide.
    + destruct (insertAt_in P this s xs ds N obj Ho) as (s' & x & -> & Ho' & _); [lia|]. by eexists _, _.
    + rewrite (insertAt_out P this s xs ds N obj Ho) by lia. by eexists _, _.
  - simpl in Hv. destruct (removeAt_owns P this s xs ds N Ho) as (s' & -> & Ho' & _); [lia|].
    by eexists _, _.
  - destruct (get_owns P this s xs ds Ho) as (s' & -> & Ho'). by eexists _, _.
  - unfold slist_remove.
    destruct (remove_found_owns P this s xs ds _ (equals obj) Ho (tests_equals obj)) as (s' & xs' & -> & Ho').
    by eexists _, _.
  - unfold removeReference.
    destruct (remove_found_owns P this s xs ds _ (eq obj) Ho (tests_reference obj)) as (s' & xs' & -> & Ho').
    by eexists _, _.
  - destruct (removeAll_owns P this s xs ds Ho) as (s' & -> & Ho'). by eexists _, _.
Qed.

Lemma count_owns P this m xs ds test (Q : A -> Prop) `{forall d, Decision (Q d)} :
  owns P this m xs ds -> tests test (fun d => bool_decide (Q d)) ->
  count_links (fuel_of (fst m)) (fst m) test (hd_or None xs) 0
  = Ok (Z.of_nat (length (filter Q ds))).
Proof.
  intros Ho HT. apply owns_seg in Ho as (Hs & Hh & Hf).
  rewrite (count_links_spec _ _ None xs ds test _ 0 HT) by done. rewrite Z.add_0_l. do 3 f_equal.
  apply list_filter_iff. intros d. apply bool_decide_eq_true.
Qed.

(** The inquiries. *)
Lemma slist_run_inquiry P this o s xs ds :
  owns P this (mem s) xs ds -> slist_valid o -> Forall valid ds -> slist_defined o ds = true ->
  match o with
  | SAppend _ | SInsertAt _ _ | SRemoveAt _ | SGet | SRemove _ | SRemoveReference _ | SRemoveAll => False
  | _ => True end ->
  slist_run P this o s = Ok (fst (slist_spec o ds), s) /\ snd (slist_spec o ds) = ds.
Proof.
  intros Ho Hv Hvs Hdef Hu. pose proof (owns_length _ _ _ _ _ Ho) as Hlen.
  split; [|by destruct o as [[obj|]|N obj|N| |obj|obj| | | |N|obj|obj|obj| | |obj]].
  destruct o as [[obj|]|N obj|N| |obj|obj| | | |N|obj|obj|obj| | |obj]; try done;
    unfold slist_run, heap_of; simpl fst.
  - unfold first. rewrite (head_spec _ _ _ _ _ Ho). cbn [obind].
    by rewrite hd_or_lookup, (data_of_owns _ _ _ _ _ _ Ho).
  - unfold last_element. rewrite (tail_spec _ _ _ _ _ Ho). cbn [obind].
    by rewrite last_or_lookup, (data_of_owns _ _ _ _ _ _ Ho), last_lookup, Hlen.
  - unfold at_index. rewrite (head_spec _ _ _ _ _ Ho). cbn [obind].
    pose proof (owns_seg _ _ _ _ _ Ho) as (Hs & _ & Hf). simpl in Hv.
    rewrite (nth_link_spec _ _ None xs 0 N) by (done || lia). cbn [obind fst].
    by rewrite Z.sub_0_r, (data_of_owns _ _ _ _ _ _ Ho).
  - rewrite (slist_find_owns _ _ _ _ _ obj Ho) by done. unfold found.
    simpl in Hdef. by rewrite Hdef.
  - unfold slist_index. rewrite (head_spec _ _ _ _ _ Ho). cbn [obind].
    by destruct (find_link_owns _ _ _ _ _ _ (equals obj) Ho (tests_equals obj))
      as [[-> ->]|(i & x & d & _ & _ & -> & ->)].
  - unfold slist_occurrencesOf. rewrite (head_spec _ _ _ _ _ Ho). cbn [obind].
    by rewrite (count_owns _ _ _ _ _ _ (equals obj) Ho (tests_equals obj)).
  - unfold entries. rewrite (head_spec _ _ _ _ _ Ho). cbn [obind].
    rewrite (count_owns _ _ _ _ _ _ (fun _ => True) Ho); [|done]. cbn [obind]. do 4 f_equal.
    clear. by induction ds as [|d ds IH]; simpl; [|rewrite IH].
  - unfold isEmpty. rewrite (head_spec _ _ _ _ _ Ho). cbn [obind].
    destruct xs, ds; try done.
  - unfold containsReference. rewrite (head_spec _ _ _ _ _ Ho). cbn [obind].
    destruct (find_link_owns _ _ _ _ _ _ (eq obj) Ho (tests_reference obj))
      as [[-> E]|(i & x & d & _ & Hd & E & ->)]; cbn [obind]; do 3 f_equal; apply bool_decide_ext.
    + apply list_find_None in E. rewrite Forall_forall in E. naive_solver.
    + apply list_find_Some in E as (_ & -> & _). split; [|done]. intros _.
      by eapply list_elem_of_lookup_2.
Qed.

Lemma slist_run_undefined P this o s xs ds :
  owns P this (mem s) xs ds -> slist_valid o -> Forall valid ds -> slist_defined o ds = false ->
  slist_run P this o s = UB.
Proof.
  intros Ho Hv Hvs Hd. destruct o; try done. unfold slist_run, heap_of.
  rewrite (slist_find_owns _ _ _ _ _ _ Ho) by done. unfold found. simpl in Hd. by rewrite Hd.
Qed.

(** C30: A sequence of UtlList/UtlSList operations on a list holding the
    objects [ds] returns what the operations return on the plain sequence
    [ds], and leaves the list holding the resulting sequence, the pool and
    the chain well formed, unless it calls UtlSList::find on an empty list,
    or where no object before the last one is equal and the last one has the
    hash searched for ([slist_defineds]): then it has undefined behaviour, a
    member call through a null pointer.  Objects are valid and indexes are
    [size_t]. *)
Theorem slist_runs_refine P this os s xs ds :
  owns P this (mem s) xs ds -> Forall valid ds -> Forall slist_valid os ->
  if slist_defineds os ds then
    exists s' xs', slist_runs P this os s = Ok (fst (slist_specs os ds), s')
      /\ owns P this (mem s') xs' (snd (slist_specs os ds))
  else slist_runs P this os s = UB.
Proof.
  intros Ho Hvs Hos. revert s xs ds Ho Hvs.
  induction Hos as [|o os Hv Hos IH]; intros s xs ds Ho Hvs; cbn [slist_runs slist_specs slist_defineds];
    [by eexists _, _|].
  destruct (slist_defined o ds) eqn:Hd; [|by rewrite (slist_run_undefined P this o s xs ds)].
  assert (exists s1 xs1, slist_run P this o s = Ok (fst (slist_spec o ds), s1)
            /\ owns P this (mem s1) xs1 (snd (slist_spec o ds))) as (s1 & xs1 & -> & Ho1).
  { pose proof (slist_run_update P this o s xs ds Ho Hv) as Hu.
    pose proof (slist_run_inquiry P this o s xs ds Ho Hv Hvs Hd) as Hi.
    destruct o; try (apply Hu; exact I); destruct (Hi I) as [-> ->]; by eexists _, _. }
  cbn [obind fst snd andb].
  specialize (IH s1 xs1 _ Ho1 (slist_spec_valid _ _ Hv Hvs)).
  destruct (slist_defineds os _); [|by rewrite IH]. destruct IH as (s2 & xs2 & -> & Ho2).
  by eexists _, _.
Qed.

End SList.

(** ** A concrete list *)

(** An empty list object at 2, beside an empty pool whose arrays have four
    blocks. *)
Definition sample_pool : Pool := mkPool 0%nat 1%nat 4.
Definition sample_heap (A : Type) : gmap loc (Link A) :=
  <[0%nat := new_link]> (<[1%nat := new_link]> (<[2%nat := new_link]> ∅)).

Lemma sample_owns (A : Type) `{Containable A} : owns sample_pool 2%nat (sample_heap A, 0) [] [].
Proof.
  split; [simpl; lia|]. split.
  - exists [], []. split; [|set_solver]. split; [|split; [|set_solver]];
      (split; [apply NoDup_singleton|split; [by exists None, 0|done]]).
  - split; [|by apply Forall2_nil]. split; [apply NoDup_singleton|]. split; [by exists None, 0|done].
Qed.

Definition sample_ops : list (slist_op (list ascii)) :=
  [SAppend (Some (bytes "b")); SAppend (Some (bytes "c")); SInsertAt 0 (bytes "a");
   SInsertAt 7 (bytes "z"); SAppend (Some (bytes "d")); SAppend (Some (bytes "c"));
   SFind (bytes "c"); SIndex (bytes "c"); SOccurrencesOf (bytes "c"); SRemove (bytes "c");
   SRemoveAt 1; SEntries; SLast; SGet; SRemove (bytes "x"); SRemoveAll; SIsEmpty].

Lemma slist_runs_refine_witness :
  (exists s', slist_runs sample_pool 2%nat sample_ops (mkState (sample_heap (list ascii), 0) [BeforeFirst])
  = Ok ([RNone; RNone; RElem (Some (bytes "a")); RElem None; RNone; RNone;
         RElem (Some (bytes "c")); RNum 2; RNum 2; RElem (Some (bytes "c"));
         RElem (Some (bytes "b")); RNum 3; RElem (Some (bytes "c")); RElem (Some (bytes "a"));
         RElem None; RNone; RBool true], s'))
  /\ slist_runs sample_pool 2%nat (sample_ops ++ [SFind (bytes "a")])
       (mkState (sample_heap (list ascii), 0) [BeforeFirst]) = UB.
Proof.
  split.
  - destruct (slist_runs_refine sample_pool 2%nat sample_ops
      (mkState (sample_heap (list ascii), 0) [BeforeFirst]) [] []) as (s' & xs' & E & _).
    + apply sample_owns.
    + by apply Forall_nil.
    + repeat apply Forall_cons_2; try apply Forall_nil_2; simpl;
        first [done | apply (bool_decide_unpack _); vm_compute; done].
    + exists s'. exact E.
  - refine (slist_runs_refine sample_pool 2%nat (sample_ops ++ [SFind (bytes "a")])
      (mkState (sample_heap (list ascii), 0) [BeforeFirst]) [] [] _ _ _).
    + apply sample_owns.
    + by apply Forall_nil.
    + repeat apply Forall_cons_2; try apply Forall_nil_2; simpl;
        first [done | apply (bool_decide_unpack _); vm_compute; done].
Defined.
