(* ===== verification/UtlSortedListSpec.v ===== *)
(** * UtlSortedList keeps its objects sorted

    The operations of UtlSortedList against sequences: [insert] puts an
    object before the first one that is not smaller, so the sequence stays
    sorted; [find], [remove], [index] and [occurrencesOf] answer as a search
    of the whole sequence would, although [findNode] stops at the first
    object that is not smaller. *)
From Stdlib Require Import ZArith Lia Ascii String.
From stdpp Require Import base list gmap sorting.
From S2P Require Import Prelude UtlStringRefine Containable UtlLink UtlList UtlListRefine UtlSListSpec.
Local Open Scope Z_scope.

Inductive sorted_op (A : Type) : Type :=
| OInsert (obj : A) | ORemove (obj : A) | OFind (obj : A) | OIndex (obj : A) | OOccurrencesOf (obj : A)
| OBase (o : slist_op A).
Arguments OInsert {A} _. Arguments ORemove {A} _. Arguments OFind {A} _.
Arguments OIndex {A} _. Arguments OOccurrencesOf {A} _. Arguments OBase {A} _.

Section SortedList.
Context {A : Type} `{ContainableLaws A valid} `{EqDecision A}.
Implicit Types (ds : list A) (s : state A) (xs : list loc).

Definition sorted ds : Prop := StronglySorted (fun a b => compare_to a b <= 0) ds.

Definition reaches (obj d : A) : Prop := 0 <= compare_to d obj.
#[local] Instance reaches_dec obj d : Decision (reaches obj d) := decide (0 <= compare_to d obj).
#[local] Existing Instance equals_dec.

(** The sequence with [obj] put before the first object that is not smaller. *)
Definition insert_sorted (obj : A) ds : list A :=
  match list_find (reaches obj) ds with
  | Some (i, _) => take i ds ++ obj :: drop i ds
  | None => ds ++ [obj]
  end.

(** UtlSortedList inherits from UtlList the operations that do not insert. *)
Definition inherited (o : slist_op A) : Prop :=
  match o with
  | SRemoveAt _ | SGet | SRemoveReference _ | SRemoveAll | SFirst | SLast | SAt _
  | SEntries | SIsEmpty | SContainsReference _ => True
  | _ => False
  end.

Definition sorted_run (P : Pool) (this : loc) (o : sorted_op A) s : outcome (list_result A * state A) :=
  match o with
  | OInsert obj => let! s1 := sorted_insert P this obj s in Ok (RElem (Some obj), s1)
  | ORemove obj => let! r := sorted_remove P this obj s in Ok (RElem (fst r), snd r)
  | OFind obj => let! e := sorted_find this obj (heap_of s) in Ok (RElem e, s)
  | OIndex obj => let! i := sorted_index this obj (heap_of s) in Ok (RNum i, s)
  | OOccurrencesOf obj => let! n := sorted_occurrencesOf this obj (heap_of s) in Ok (RNum n, s)
  | OBase o' => slist_run P this o' s
  end.

(** The specification: inserting sorts, everything else is as in [slist_spec]. *)
Definition sorted_spec (o : sorted_op A) ds : list_result A * list A :=
  match o with
  | OInsert obj => (RElem (Some obj), insert_sorted obj ds)
  | ORemove obj => slist_spec (SRemove obj) ds
  | OFind obj => slist_spec (SFind obj) ds
  | OIndex obj => slist_spec (SIndex obj) ds
  | OOccurrencesOf obj => slist_spec (SOccurrencesOf obj) ds
  | OBase o' => slist_spec o' ds
  end.

Definition sorted_valid (o : sorted_op A) : Prop :=
  match o with
  | OInsert obj | ORemove obj | OFind obj | OIndex obj | OOccurrencesOf obj => valid obj
  | OBase o' => inherited o' /\ slist_valid (valid := valid) o'
  end.

Fixpoint sorted_runs (P : Pool) (this : loc) (os : list (sorted_op A)) s
    : outcome (list (list_result A) * state A) :=
  match os with
  | [] => Ok ([], s)
  | o :: os' =>
      let! r := sorted_run P this o s in
      let! rs := sorted_runs P this os' (snd r) in
      Ok (fst r :: fst rs, snd rs)
  end.

Fixpoint sorted_specs (os : list (sorted_op A)) ds : list (list_result A) * list A :=
  match os with
  | [] => ([], ds)
  | o :: os' =>
      let r := sorted_spec o ds in
      let rs := sorted_specs os' (snd r) in (fst r :: fst rs, snd rs)
  end.

(** ** Facts on sorted sequences *)

(** The split [insert_sorted] makes. *)
Lemma insert_sorted_split obj ds :
  exists ds1 ds2, ds = ds1 ++ ds2 /\ insert_sorted obj ds = ds1 ++ obj :: ds2
    /\ Forall (fun d => compare_to d obj < 0) ds1
    /\ (forall d, ds2 !! 0%nat = Some d -> 0 <= compare_to d obj).
Proof.
  unfold insert_sorted. destruct (list_find (reaches obj) ds) as [[i d]|] eqn:E.
  - apply list_find_Some in E as (Hd & Hr & Hlt). exists (take i ds), (drop i ds).
    split; [by rewrite take_drop|]. split; [done|]. split.
    + rewrite Forall_lookup. intros j e He. apply lookup_take_Some in He as [He Hj].
      specialize (Hlt _ _ He Hj). unfold reaches in Hlt. lia.
    + intros e He. rewrite (drop_S _ d) in He by done. simpl in He. by simplify_eq.
  - apply list_find_None in E. exists ds, []. rewrite app_nil_r. repeat split; try done.
    eapply Forall_impl; [done|]. unfold reaches. intros; simpl in *; lia.
Qed.

Lemma sorted_app ds1 ds2 :
  sorted (ds1 ++ ds2) <-> sorted ds1 /\ sorted ds2
    /\ (forall a b, a ∈ ds1 -> b ∈ ds2 -> compare_to a b <= 0).
Proof.
  unfold sorted. induction ds1 as [|d ds1 IH]; simpl.
  - split; [intros; repeat split; [constructor|done|set_solver]|naive_solver].
  - split.
    + inversion 1 as [|? ? Hs Hf]; subst. apply IH in Hs as (? & ? & Hc).
      apply Forall_app in Hf as [? Hf]. rewrite Forall_forall in Hf.
      repeat split; [by constructor|done|]. intros a b Ha Hb.
      apply elem_of_cons in Ha as [->|Ha]; auto.
    + intros (Hs1 & Hs2 & Hc). inversion Hs1 as [|? ? Hs Hf]; subst. constructor.
      * apply IH. repeat split; [done|done|]. intros; apply Hc; set_solver.
      * apply Forall_app. split; [done|]. apply Forall_forall. intros. apply Hc; set_solver.
Qed.

Lemma sorted_above d ds e : sorted (d :: ds) -> e ∈ d :: ds -> compare_to d e <= 0.
Proof.
  inversion 1 as [|? ? Hs Hf]; subst. intros Hin. apply elem_of_cons in Hin as [->|Hin].
  - by rewrite compare_refl.
  - rewrite Forall_forall in Hf. auto.
Qed.

Lemma insert_sorted_sorted obj ds : sorted ds -> sorted (insert_sorted obj ds).
Proof.
  intros Hs. destruct (insert_sorted_split obj ds) as (ds1 & ds2 & -> & -> & Hlt & Hge).
  apply sorted_app in Hs as (Hs1 & Hs2 & Hc). rewrite Forall_forall in Hlt.
  assert (forall b, b ∈ ds2 -> compare_to obj b <= 0) as Hob.
  { intros b Hb. destruct ds2 as [|d ds2]; [set_solver|].
    specialize (Hge d eq_refl). apply (compare_trans obj d b); [|by eapply sorted_above].
    apply (compare_ge_flip d obj). lia. }
  apply sorted_app. split; [done|]. split; [constructor; [done|by apply Forall_forall]|].
  intros a b Ha Hb. specialize (Hlt a Ha). apply elem_of_cons in Hb as [->|Hb]; [lia|auto].
Qed.

Lemma sorted_delete i ds : sorted ds -> sorted (delete i ds).
Proof.
  intros Hs. rewrite delete_take_drop. rewrite <- (take_drop i ds) in Hs.
  apply sorted_app in Hs as (Hs1 & Hs2 & Hc). apply sorted_app. split; [done|].
  rewrite <- (take_drop 1 (drop i ds)) in Hs2. rewrite drop_drop, Nat.add_1_r in Hs2.
  apply sorted_app in Hs2 as (_ & Hs2 & _). split; [done|]. intros a b Ha Hb. apply Hc; [done|].
  rewrite <- Nat.add_1_r, <- drop_drop in Hb. rewrite <- (take_drop 1 (drop i ds)). set_solver.
Qed.

Lemma sorted_spec_sorted o ds : sorted_valid o -> sorted ds -> sorted (snd (sorted_spec o ds)).
Proof.
  intros Hv Hs. destruct o as [obj|obj|obj|obj|obj|o]; simpl; auto using insert_sorted_sorted.
  - unfold extract. destruct (list_find _ ds) as [[i d]|]; simpl; auto using sorted_delete.
  - destruct Hv as [Hi _]. destruct o; simpl in *; try done; auto using sorted_delete.
    + unfold extract. destruct (list_find _ ds) as [[i d]|]; simpl; auto using sorted_delete.
    + constructor.
Qed.

Lemma sorted_spec_valid o ds :
  sorted_valid o -> Forall valid ds -> Forall valid (snd (sorted_spec o ds)).
Proof.
  intros Hv Hvs. destruct o as [obj|obj|obj|obj|obj|o];
    try (apply slist_spec_valid; [simpl in *; tauto|done]).
  simpl. destruct (insert_sorted_split obj ds) as (ds1 & ds2 & -> & -> & _).
  apply Forall_app in Hvs as [? ?]. apply Forall_app. auto.
Qed.

(** In a sorted sequence the first object that is not smaller decides. *)
Lemma sorted_list_find obj ds :
  sorted ds ->
  list_find (equals obj) ds
  = match list_find (reaches obj) ds with
    | Some (i, d) => if decide (equals obj d) then Some (i, d) else None
    | None => None
    end.
Proof.
  intros Hs. induction ds as [|d ds IH]; simpl; [done|].
  assert (sorted ds) as Hs' by (by inversion Hs).
  destruct (decide (reaches obj d)) as [Hr|Hr].
  - destruct (decide (equals obj d)) as [He|He]; [done|].
    destruct (list_find (equals obj) ds) as [[i e]|] eqn:E; [|done]. exfalso.
    apply list_find_Some in E as (Hin & Heq & _). apply list_elem_of_lookup_2 in Hin.
    assert (compare_to d e <= 0) by (apply (sorted_above d ds e Hs); set_solver).
    unfold reaches, equals in *. pose proof (compare_trans d e obj). lia.
  - rewrite decide_False by (unfold reaches, equals in *; lia). rewrite IH by done.
    destruct (list_find (reaches obj) ds) as [[i e]|]; simpl; [|done]. by case_decide.
Qed.

(** ** The model's operations *)

Lemma tests_reaches obj : tests (not_before obj) (fun d => bool_decide (reaches obj d)).
Proof. intros p n d. simpl. unfold not_before, reaches. simpl. by destruct (Z.leb_spec 0 (compare_to d obj)); [rewrite bool_decide_true|rewrite bool_decide_false by lia]. Qed.

Lemma findNode_position P this m xs ds obj :
  owns P this m xs ds ->
  exists ds1 ds2 xs1 xs2, ds = ds1 ++ ds2 /\ xs = xs1 ++ xs2 /\ length xs1 = length ds1
    /\ insert_sorted obj ds = ds1 ++ obj :: ds2
    /\ findNode (fst m) (hd_or None xs) POSITION obj = Ok (hd_or None xs2).
Proof.
  intros Ho. pose proof (owns_length _ _ _ _ _ Ho) as Hlen. unfold findNode, insert_sorted.
  destruct (find_link_owns _ _ _ _ _ _ (reaches obj) Ho (tests_reaches obj))
    as [[-> ->]|(i & x & d & Hx & Hd & -> & ->)]; cbn [obind].
  - exists ds, [], xs, []. by rewrite !app_nil_r.
  - exists (take i ds), (drop i ds), (take i xs), (drop i xs). rewrite !take_drop, !length_take.
    repeat split; try done; [lia|]. by rewrite (drop_S _ x).
Qed.

Lemma findNode_exactly P this m xs ds obj :
  owns P this m xs ds -> sorted ds ->
  (findNode (fst m) (hd_or None xs) EXACTLY obj = Ok None /\ list_find (equals obj) ds = None)
  \/ exists i x d, xs !! i = Some x /\ list_find (equals obj) ds = Some (i, d)
       /\ findNode (fst m) (hd_or None xs) EXACTLY obj = Ok (Some x).
Proof.
  intros Ho Hs. rewrite (sorted_list_find obj ds Hs). unfold findNode.
  destruct (find_link_owns _ _ _ _ _ _ (reaches obj) Ho (tests_reaches obj))
    as [[-> ->]|(i & x & d & Hx & Hd & -> & ->)]; cbn [obind]; [by left|].
  destruct Ho as (_ & _ & _ & Hh). destruct (Forall2_lookup_l _ _ _ _ _ Hh Hx) as (d' & Hd' & p & n & E).
  unfold deref. rewrite E. cbn [obind]. rewrite tests_equals. simplify_eq.
  case_decide as He; [right|left].
  - exists i, x, d. rewrite tests_equals, bool_decide_true by done. done.
  - by rewrite bool_decide_false by done.
Qed.

Lemma list_find_valid_hash obj ds :
  valid obj -> Forall valid ds ->
  list_find (fun d => hash_of d = hash_of obj /\ equals obj d) ds = list_find (equals obj) ds.
Proof.
  intros Ho Hvs. induction Hvs as [|d ds Hv Hvs IH]; simpl; [done|]. rewrite IH.
  destruct (decide (equals obj d)) as [He|He].
  - rewrite decide_True; [done|]. split; [by apply (equal_hash d obj)|done].
  - by rewrite decide_False by tauto.
Qed.

Lemma tests_hash_equals obj :
  tests (fun n => (hash n =? hash_of obj) && matches obj n)
        (fun d => bool_decide (hash_of d = hash_of obj /\ equals obj d)).
Proof.
  intros p n d. rewrite tests_equals, bool_decide_and. simpl. f_equal.
  by destruct (Z.eqb_spec (hash_of d) (hash_of obj)); [rewrite bool_decide_true|rewrite bool_decide_false].
Qed.

(** One operation. *)
Lemma sorted_run_refines P this o s xs ds :
  owns P this (mem s) xs ds -> sorted ds -> Forall valid ds -> sorted_valid o ->
  exists s' xs', sorted_run P this o s = Ok (fst (sorted_spec o ds), s')
    /\ owns P this (mem s') xs' (snd (sorted_spec o ds)).
Proof.
  intros Ho Hs Hvs Hv. destruct o as [obj|obj|obj|obj|obj|o]; cbn [sorted_run sorted_spec]; unfold heap_of.
  - unfold sorted_insert, heap_of. rewrite (head_spec _ _ _ _ _ Ho). cbn [obind].
    destruct (findNode_position _ _ _ _ _ obj Ho) as (ds1 & ds2 & xs1 & xs2 & -> & -> & Hlen & -> & ->).
    cbn [obind]. destruct (listBefore_owns _ _ _ _ _ _ _ obj Ho Hlen) as (x & m' & -> & Ho' & _).
    by eexists _, _.
  - unfold sorted_remove, heap_of. rewrite (head_spec _ _ _ _ _ Ho). cbn [obind]. simpl slist_spec.
    unfold extract. destruct (findNode_exactly _ _ _ _ _ obj Ho Hs) as [[-> ->]|(i & x & d & Hx & E & ->)];
      cbn [obind]; [by eexists _, _|]. rewrite E.
    apply list_find_Some in E as (Hd & _). destruct (owns_data _ _ _ _ _ _ _ Ho Hx) as (d' & n & Hd' & -> & En).
    destruct (removeLink_nth _ _ _ _ _ _ _ Ho Hx) as (s' & Er & Ho' & _). cbn [obind]. rewrite Er, En.
    simplify_eq. by eexists _, _.
  - unfold sorted_find. rewrite (head_spec _ _ _ _ _ Ho). cbn [obind]. simpl slist_spec. unfold extract.
    destruct (findNode_exactly _ _ _ _ _ obj Ho Hs) as [[-> ->]|(i & x & d & Hx & E & ->)]; [by eexists _, _|].
    cbn [obind]. rewrite <- Hx, (data_of_owns _ _ _ _ _ _ Ho), E.
    apply list_find_Some in E as (-> & _). by eexists _, _.
  - unfold sorted_index. rewrite (head_spec _ _ _ _ _ Ho). cbn [obind]. simpl slist_spec.
    rewrite <- (list_find_valid_hash obj ds) by done.
    destruct (find_link_owns _ _ _ _ _ _ _ Ho (tests_hash_equals obj))
      as [[-> ->]|(i & x & d & _ & _ & -> & ->)]; by eexists _, _.
  - apply (slist_run_inquiry P this (SOccurrencesOf obj) s xs ds Ho) in Hvs as [E _]; [|done..].
    eexists _, _. split; [exact E|exact Ho].
  - destruct Hv as [Hi Hv].
    pose proof (slist_run_update P this o s xs ds Ho Hv) as Hu.
    pose proof (slist_run_inquiry P this o s xs ds Ho Hv Hvs) as Hq.
    destruct o; try done; try (apply Hu; exact I); destruct (Hq eq_refl I) as [-> ->]; by eexists _, _.
Qed.

(** C31: Every sequence of operations on a sorted UtlSortedList (its own and
    the inherited ones) ends without undefined behaviour, returns what a
    search of the whole sequence gives, and leaves the list sorted. *)
Theorem sorted_runs_refine P this os s xs ds :
  owns P this (mem s) xs ds -> sorted ds -> Forall valid ds -> Forall sorted_valid os ->
  exists s' xs', sorted_runs P this os s = Ok (fst (sorted_specs os ds), s')
    /\ owns P this (mem s') xs' (snd (sorted_specs os ds)) /\ sorted (snd (sorted_specs os ds)).
Proof.
  intros Ho Hs Hvs Hos. revert s xs ds Ho Hs Hvs.
  induction Hos as [|o os Hv Hos IH]; intros s xs ds Ho Hs Hvs; cbn [sorted_runs sorted_specs]; [by eexists _, _|].
  destruct (sorted_run_refines P this o s xs ds Ho Hs Hvs Hv) as (s1 & xs1 & -> & Ho1).
  cbn [obind fst snd].
  destruct (IH s1 xs1 _ Ho1 (sorted_spec_sorted _ _ Hv Hs) (sorted_spec_valid _ _ Hv Hvs))
    as (s2 & xs2 & -> & Ho2 & Hs2).
  by eexists _, _.
Qed.

(** UtlSortedList::insert adds the object and nothing else, after every
    smaller object and before every object that compares equal to it. *)
Theorem sorted_insert_position P this obj s xs ds :
  owns P this (mem s) xs ds -> sorted ds ->
  exists s' xs' ds1 ds2, sorted_insert P this obj s = Ok s'
    /\ owns P this (mem s') xs' (ds1 ++ obj :: ds2) /\ ds = ds1 ++ ds2
    /\ Forall (fun d => compare_to d obj < 0) ds1 /\ Forall (fun d => 0 <= compare_to d obj) ds2.
Proof.
  intros Ho Hs. unfold sorted_insert, heap_of. rewrite (head_spec _ _ _ _ _ Ho). cbn [obind].
  destruct (findNode_position _ _ _ _ _ obj Ho) as (ds1 & ds2 & xs1 & xs2 & Eds & -> & Hlen & Ei & ->).
  rewrite Eds in Ho. cbn [obind]. destruct (listBefore_owns _ _ _ _ _ _ _ obj Ho Hlen) as (x & m' & -> & Ho' & _).
  destruct (insert_sorted_split obj ds) as (ds3 & ds4 & -> & Ei' & Hlt & Hge).
  eexists _, _, ds3, ds4. split; [done|]. rewrite Ei' in Ei. rewrite Ei. split; [exact Ho'|].
  split; [done|]. split; [done|]. apply sorted_app in Hs as (_ & Hs & _).
  destruct ds4 as [|d ds4]; [by apply Forall_nil|]. specialize (Hge d eq_refl).
  apply Forall_forall. intros e He. pose proof (sorted_above _ _ _ Hs He).
  pose proof (compare_flip d e). pose proof (compare_flip d obj). pose proof (compare_flip e obj).
  pose proof (compare_trans obj d e). lia.
Qed.

(** UtlSortedListIterator::findNext searches from the current element
    on, so after a match the next call returns the same element again and
    the iterator never gets to further equal elements. *)
Theorem sorted_findNext_repeats this obj (h : gmap loc (Link A)) c c' d :
  sorted_iter_findNext this obj h c = Ok (c', Some d) ->
  sorted_iter_findNext this obj h c' = Ok (c', Some d).
Proof.
  unfold sorted_iter_findNext. destruct (tail this h) as [tl| | |]; cbn [obind]; try done.
  destruct c as [|p|]; [|cbn [obind]|done].
  1: destruct (head this h) as [hd| | |]; cbn [obind]; try done.
  1: generalize hd as start. 2: generalize (Some p) as start.
  all: intros start; destruct (findNode h start EXACTLY obj) as [[y|]| | |] eqn:Ef; cbn [obind]; try done.
  all: destruct (deref h y) as [n| | |] eqn:En; cbn [obind]; try done;
    destruct (data n) as [e|] eqn:Ed; [|done]; intros [= <- <-]; cbn [obind].
  all: assert (matches obj n = true) as Hm by
    (unfold findNode in Ef; destruct (find_link _ _ _ _ _) as [[[z i]|]| | |]; cbn [obind] in Ef; try done;
     destruct (deref h z) as [m| | |] eqn:Ez; cbn [obind] in Ef; try done;
     destruct (matches obj m) eqn:Em; [injection Ef as ->; congruence|discriminate Ef]).
  all: assert (not_before obj n = true) as Hn by
    (unfold matches in Hm; unfold not_before; rewrite Ed in Hm |- *; apply Z.eqb_eq in Hm; by rewrite Hm).
  all: unfold findNode, fuel_of; cbn [find_link]; rewrite En; cbn [obind]; rewrite Hn; cbn [obind];
    rewrite En; cbn [obind]; rewrite Hm, En; cbn [obind]; by rewrite Ed.
Qed.

End SortedList.

Lemma sorted_findNext_repeats_witness :
  exists s', sorted_runs sample_pool 2%nat [OInsert (bytes "c"); OInsert (bytes "c")]
               (mkState (sample_heap (list ascii), 0) []) = Ok ([RElem (Some (bytes "c")); RElem (Some (bytes "c"))], s')
    /\ count_links (fuel_of (heap_of s')) (heap_of s') (fun _ => true) (Some 5%nat) 0 = Ok 2
    /\ sorted_iter_findNext 2%nat (bytes "c") (heap_of s') (At 5%nat) = Ok (At 5%nat, Some (bytes "c")).
Proof.
  eexists. split; [vm_compute; reflexivity|]. split; [vm_compute; reflexivity|].
  apply (sorted_findNext_repeats 2%nat (bytes "c") _ BeforeFirst). vm_compute. reflexivity.
Defined.

Definition sorted_sample_ops : list (sorted_op (list ascii)) :=
  [OInsert (bytes "m"); OInsert (bytes "c"); OInsert (bytes "z"); OInsert (bytes "c");
   OFind (bytes "c"); OFind (bytes "d"); OIndex (bytes "m"); OOccurrencesOf (bytes "c");
   OBase (SAt 1); ORemove (bytes "m"); OBase SEntries; OBase SLast].

Lemma sorted_runs_refine_witness :
  exists s', sorted_runs sample_pool 2%nat sorted_sample_ops (mkState (sample_heap (list ascii), 0) [])
  = Ok ([RElem (Some (bytes "m")); RElem (Some (bytes "c")); RElem (Some (bytes "z"));
         RElem (Some (bytes "c")); RElem (Some (bytes "c")); RElem None; RNum 2; RNum 2;
         RElem (Some (bytes "c")); RElem (Some (bytes "m")); RNum 3; RElem (Some (bytes "z"))], s').
Proof.
  destruct (sorted_runs_refine sample_pool 2%nat sorted_sample_ops
    (mkState (sample_heap (list ascii), 0) []) [] []) as (s' & xs' & E & _).
  - apply sample_owns.
  - constructor.
  - by apply Forall_nil.
  - repeat apply Forall_cons_2; try apply Forall_nil_2; simpl;
      first [done | apply (bool_decide_unpack _); vm_compute; done].
  - exists s'. exact E.
Defined.

Lemma sorted_insert_position_witness :
  exists s' xs', sorted_insert sample_pool 2%nat (bytes "c") (mkState (sample_heap (list ascii), 0) []) = Ok s'
    /\ owns sample_pool 2%nat (mem s') xs' [bytes "c"].
Proof.
  destruct (sorted_insert_position sample_pool 2%nat (bytes "c") (mkState (sample_heap (list ascii), 0) []) [] [])
    as (s' & xs' & ds1 & ds2 & E & Ho & Eds & _).
  - apply sample_owns.
  - constructor.
  - symmetry in Eds. apply app_eq_nil in Eds as [-> ->]. by exists s', xs'.
Defined.
