(* ===== verification/UtlListIterSpec.v ===== *)
(** * Iterators over a list that changes

    A registered UtlListIterator splits the sequence of its list in the
    objects it has passed and the pending ones.  [iter_spec] gives the
    effect of every operation on this split: a removal under the iterator
    only takes the object away, an insertion adds one on its side, and the
    iterator returns the pending objects in order, each once. *)
From Stdlib Require Import ZArith Lia Ascii String.
From stdpp Require Import base list gmap.
From S2P Require Import Prelude UtlStringRefine Containable UtlLink UtlList UtlListRefine UtlSListSpec.
Local Open Scope Z_scope.

Inductive iter_op (A : Type) : Type :=
| INext | IReset | IToLast | IItem
| IRemoveAt (N : Z) | IInsertAt (N : Z) (obj : A) | IAppend (obj : A).
Arguments INext {A}. Arguments IReset {A}. Arguments IToLast {A}. Arguments IItem {A}.
Arguments IRemoveAt {A} _. Arguments IInsertAt {A} _ _. Arguments IAppend {A} _.

Section Iterators.
Context {A : Type} `{Containable A} `{EqDecision A}.
Implicit Types (ds vis pen : list A) (s : state A) (xs ys : list loc).

Definition set_cursor (k : nat) (c : cursor) s : state A := mkState (mem s) (<[k := c]> (iterators s)).

(** The [k]-th registered iterator, and its list, at work. *)
Definition iter_run (P : Pool) (this : loc) (k : nat) (o : iter_op A) s : outcome (option A * state A) :=
  match iterators s !! k with
  | None => UB
  | Some c =>
      match o with
      | INext => let! r := iter_next this (heap_of s) c in Ok (snd r, set_cursor k (fst r) s)
      | IReset => Ok (None, set_cursor k iter_reset s)
      | IToLast => let! r := iter_toLast this (heap_of s) in Ok (snd r, set_cursor k (fst r) s)
      | IItem => let! e := iter_item (heap_of s) c in Ok (e, s)
      | IRemoveAt N => removeAt P this N s
      | IInsertAt N obj => insertAt P this N obj s
      | IAppend obj => let! s1 := slist_append P this (Some obj) s in Ok (None, s1)
      end
  end.

(** Passed objects, pending objects, and whether the end was reached. *)
Record split : Type := mkSplit { passed : list A; pending : list A; ended : bool }.

Definition iter_spec (o : iter_op A) (z : split) : option A * split :=
  let '(mkSplit vis pen e) := z in
  let n := length vis in
  match o with
  | INext => match pen with
             | [] => (None, mkSplit vis [] true)
             | d :: pen' => (Some d, mkSplit (vis ++ [d]) pen' false)
             end
  | IReset => (None, mkSplit [] (vis ++ pen) false)
  | IToLast => (last (vis ++ pen), mkSplit (vis ++ pen) [] false)
  | IItem => (if e then None else last vis, z)
  | IRemoveAt N => ((vis ++ pen) !! Z.to_nat N,
                    if bool_decide (N < Z.of_nat n) then mkSplit (delete (Z.to_nat N) vis) pen e
                    else mkSplit vis (delete (Z.to_nat N - n)%nat pen) e)
  | IInsertAt N obj =>
      if bool_decide (N <= Z.of_nat (length (vis ++ pen))) then
        (Some obj,
         if e || bool_decide (N < Z.of_nat n)
         then mkSplit (take (Z.to_nat N) vis ++ obj :: drop (Z.to_nat N) vis) pen e
         else mkSplit vis (take (Z.to_nat N - n) pen ++ obj :: drop (Z.to_nat N - n) pen) e)
      else (None, z)
  | IAppend obj => (None, if e then mkSplit (vis ++ [obj]) pen e else mkSplit vis (pen ++ [obj]) e)
  end.

Definition iter_valid (o : iter_op A) : Prop :=
  match o with IRemoveAt N | IInsertAt N _ => 0 <= N <= SIZE_MAX | _ => True end.

Fixpoint iter_runs (P : Pool) (this : loc) (k : nat) (os : list (iter_op A)) s
    : outcome (list (option A) * state A) :=
  match os with
  | [] => Ok ([], s)
  | o :: os' =>
      let! r := iter_run P this k o s in
      let! rs := iter_runs P this k os' (snd r) in
      Ok (fst r :: fst rs, snd rs)
  end.

Fixpoint iter_specs (os : list (iter_op A)) (z : split) : list (option A) * split :=
  match os with
  | [] => ([], z)
  | o :: os' =>
      let r := iter_spec o z in
      let rs := iter_specs os' (snd r) in (fst r :: fst rs, snd rs)
  end.

(** ** The position of a cursor *)

Definition pos_of xs : cursor := match last_or None xs with None => BeforeFirst | Some p => At p end.

Definition cursor_at (c : cursor) xs ys (e : bool) : Prop :=
  if e then c = OffListEnd /\ ys = [] else c = pos_of xs.

(** Iterator [k] of list [this] is at the split [z]. *)
Definition iterates (P : Pool) (this : loc) (k : nat) s (z : split) : Prop :=
  exists xs ys c, owns P this (mem s) (xs ++ ys) (passed z ++ pending z)
    /\ length xs = length (passed z)
    /\ iterators s !! k = Some c /\ cursor_at c xs ys (ended z).

Lemma pos_of_snoc xs x : pos_of (xs ++ [x]) = At x.
Proof. unfold pos_of. by rewrite last_or_app. Qed.

Lemma owns_NoDup P this m xs ds : owns P this m xs ds -> NoDup xs.
Proof. intros (_ & _ & (Hnd & _) & _). by apply NoDup_cons in Hnd as [_ ?]. Qed.

Lemma split_ended xs ys (vis pen : list A) e c P this m :
  owns P this m (xs ++ ys) (vis ++ pen) -> length xs = length vis -> cursor_at c xs ys e ->
  e = true -> pen = [] /\ ys = [].
Proof.
  intros Ho Hlen Hc ->. destruct Hc as [_ ->]. apply owns_length in Ho.
  rewrite !length_app in Ho. destruct pen; simpl in *; [done|lia].
Qed.

(** What the cursor becomes when the [i]-th block goes. *)
Lemma step_back_at c xs ys e i x :
  NoDup (xs ++ ys) -> (xs ++ ys) !! i = Some x -> cursor_at c xs ys e ->
  if decide (i < length xs)%nat
  then cursor_at (step_back (take i (xs ++ ys)) x c) (delete i xs) ys e
  else cursor_at (step_back (take i (xs ++ ys)) x c) xs (delete (i - length xs)%nat ys) e.
Proof.
  intros Hnd Hx Hc. unfold step_back. destruct (decide (i < length xs)%nat) as [Hi|Hi].
  - rewrite lookup_app_l in Hx by done. rewrite take_app_le by lia.
    destruct e; simpl in *.
    + destruct Hc as [-> ->]. by rewrite bool_decide_false.
    + subst c. apply NoDup_app in Hnd as (Hnd & _ & _).
      destruct xs as [|y xs _] using rev_ind; [done|]. rewrite pos_of_snoc.
      rewrite length_app in Hi. simpl in Hi.
      destruct (decide (i = length xs)) as [->|Hne].
      * rewrite list_lookup_middle in Hx by done. simplify_eq. rewrite bool_decide_true by done.
        rewrite take_app_length. rewrite delete_middle, app_nil_r. done.
      * rewrite lookup_app_l in Hx by lia. rewrite bool_decide_false.
        -- rewrite delete_take_drop, take_app_le, drop_app_le by lia.
           by rewrite app_assoc, pos_of_snoc.
        -- intros [= ->]. apply NoDup_app in Hnd as (_ & Hnd & _).
           apply (Hnd x); [by eapply list_elem_of_lookup_2|set_solver].
  - destruct e; simpl in *.
    + destruct Hc as [-> ->]. by rewrite bool_decide_false.
    + subst c. rewrite bool_decide_false; [done|]. unfold pos_of, last_or.
      destruct (last xs) as [p|] eqn:El; [|done]. intros [= ->].
      apply NoDup_app in Hnd as (_ & Hnd & _). rewrite lookup_app_r in Hx by lia.
      apply (Hnd x); [by apply last_Some_elem_of|by eapply list_elem_of_lookup_2].
Qed.

Lemma set_cursor_iterates P this k s c0 c xs ys vis pen e :
  owns P this (mem s) (xs ++ ys) (vis ++ pen) -> length xs = length vis ->
  iterators s !! k = Some c0 -> cursor_at c xs ys e ->
  iterates P this k (set_cursor k c s) (mkSplit vis pen e).
Proof.
  intros Ho Hlen Hk Hc. exists xs, ys, c. split_and!; try done. simpl.
  apply list_lookup_insert_eq. by eapply lookup_lt_Some.
Qed.

Lemma iter_next_split P this m xs ys vis pen e c :
  owns P this m (xs ++ ys) (vis ++ pen) -> length xs = length vis -> cursor_at c xs ys e ->
  match ys, pen with
  | [], [] => iter_next this (fst m) c = Ok (OffListEnd, None)
  | y :: _, d :: _ => iter_next this (fst m) c = Ok (At y, Some d)
  | _, _ => False
  end.
Proof.
  intros Ho Hlen Hc. pose proof (owns_length _ _ _ _ _ Ho) as Hl. rewrite !length_app in Hl.
  pose proof Ho as (_ & _ & (Hnd & (d0 & z0 & Hh) & Hs) & Hhold).
  apply seg_app in Hs as [Hs1 Hs2]. apply Forall2_app_inv in Hhold as [_ Hhold]; [|done].
  assert ((let! nextNode :=
      (match c with
       | BeforeFirst => let! l := deref (fst m) this in Ok (next l)
       | At p => let! n := deref (fst m) p in Ok (next n)
       | OffListEnd => Ok None
       end) in Ok nextNode) = Ok (hd_or None ys)) as Hnext.
  { destruct e; simpl in Hc; [by destruct Hc as [-> ->]|]. subst c.
    destruct xs as [|x xs _] using rev_ind.
    - simpl. unfold deref. by rewrite Hh.
    - rewrite pos_of_snoc. apply seg_snoc in Hs1 as [_ (d & z & Hx)].
      unfold deref. by rewrite Hx. }
  unfold iter_next. destruct (match c with BeforeFirst => _ | At p => _ | OffListEnd => _ end) as [v| | |];
    simpl in Hnext; try done. injection Hnext as ->. cbn [obind].
  destruct ys as [|y ys], pen as [|d pen]; simpl in *; try lia; [done|].
  apply Forall2_cons in Hhold as [(p & n & Hy) _]. unfold deref. by rewrite Hy.
Qed.

Lemma iter_last_spec P this m xs ds :
  owns P this m xs ds -> iter_toLast this (fst m) = Ok (pos_of xs, last ds).
Proof.
  intros Ho. pose proof (tail_spec _ _ _ _ _ Ho) as Ht. unfold tail in Ht. unfold iter_toLast.
  destruct (deref (fst m) this) as [l| | |]; simpl in Ht; try done. injection Ht as Ht. cbn [obind].
  rewrite Ht. unfold pos_of. rewrite last_or_lookup.
  rewrite last_lookup, <- (owns_length _ _ _ _ _ Ho).
  destruct (xs !! pred (length xs)) as [x|] eqn:Hx; simpl.
  - destruct (owns_data _ _ _ _ _ _ _ Ho Hx) as (d & n & -> & -> & En). simpl. by rewrite En.
  - apply lookup_ge_None in Hx. rewrite (owns_length _ _ _ _ _ Ho) in Hx |- *.
    by rewrite lookup_ge_None_2.
Qed.

Lemma iter_item_spec P this m xs ys vis pen e c :
  owns P this m (xs ++ ys) (vis ++ pen) -> length xs = length vis -> cursor_at c xs ys e ->
  iter_item (fst m) c = Ok (if e then None else last vis).
Proof.
  intros Ho Hlen Hc. destruct e; simpl in Hc; [by destruct Hc as [-> _]|]. subst c.
  destruct xs as [|x xs _] using rev_ind; destruct vis as [|d vis _] using rev_ind;
    rewrite ?length_app in Hlen; simpl in Hlen; try lia; [done|].
  rewrite pos_of_snoc, last_snoc. simpl.
  destruct (owns_data _ _ _ _ _ (length xs) x Ho) as (d' & n & Hd & -> & En).
  { rewrite <- app_assoc. by apply list_lookup_middle. }
  simpl. rewrite <- app_assoc in Hd. simpl in Hd. rewrite list_lookup_middle in Hd by lia. simplify_eq. by rewrite En.
Qed.

(** ** One operation *)

Lemma iter_run_move P this k o s z :
  iterates P this k s z -> match o with INext | IReset | IToLast | IItem => True | _ => False end ->
  exists s', iter_run P this k o s = Ok (fst (iter_spec o z), s')
    /\ iterates P this k s' (snd (iter_spec o z)).
Proof.
  destruct z as [vis pen e]. intros (xs & ys & c & Ho & Hlen & Hk & Hc) Hm. simpl in Ho, Hlen, Hc.
  unfold iter_run, heap_of. rewrite Hk. destruct o; try done; clear Hm.
  - pose proof (iter_next_split _ _ _ _ _ _ _ _ _ Ho Hlen Hc) as Hn.
    destruct ys as [|y ys], pen as [|d pen]; try done; rewrite Hn; cbn [obind fst snd iter_spec];
      (eexists; split; [reflexivity|]).
    + by apply (set_cursor_iterates P this k s c _ xs []).
    + apply (set_cursor_iterates P this k s c _ (xs ++ [y]) ys).
      * by rewrite <- !app_assoc.
      * rewrite !length_app. simpl. lia.
      * done.
      * simpl. by rewrite pos_of_snoc.
  - eexists; split; [done|]. by eapply (set_cursor_iterates P this k s c _ [] (xs ++ ys)).
  - rewrite (iter_last_spec _ _ _ _ _ Ho). cbn [obind]. eexists; split; [done|].
    eapply (set_cursor_iterates P this k s c _ (xs ++ ys) []); try done; rewrite ?app_nil_r; [done|].
    by apply owns_length in Ho.
  - rewrite (iter_item_spec _ _ _ _ _ _ _ _ _ Ho Hlen Hc). cbn [obind]. eexists; split; [done|].
    by exists xs, ys, c.
Qed.

Lemma iter_run_removeAt P this k N s z :
  iterates P this k s z -> 0 <= N ->
  exists s', iter_run P this k (IRemoveAt N) s = Ok (fst (iter_spec (IRemoveAt N) z), s')
    /\ iterates P this k s' (snd (iter_spec (IRemoveAt N) z)).
Proof.
  destruct z as [vis pen e]. intros (xs & ys & c & Ho & Hlen & Hk & Hc) HN. simpl in Ho, Hlen, Hc.
  unfold iter_run. rewrite Hk.
  destruct (removeAt_owns P this s _ _ N Ho HN) as (s' & -> & Ho' & Hi).
  exists s'. split; [done|]. pose proof (owns_length _ _ _ _ _ Ho) as Hl. rewrite !length_app in Hl.
  destruct ((xs ++ ys) !! Z.to_nat N) as [x|] eqn:Hx.
  - pose proof (step_back_at c xs ys e _ x (owns_NoDup _ _ _ _ _ Ho) Hx Hc) as Hc'.
    exists (if decide (Z.to_nat N < length xs)%nat then delete (Z.to_nat N) xs else xs),
      (if decide (Z.to_nat N < length xs)%nat then ys else delete (Z.to_nat N - length xs)%nat ys),
      (step_back (take (Z.to_nat N) (xs ++ ys)) x c).
    rewrite Hi, list_lookup_fmap, Hk. simpl.
    case_decide as Hd; [rewrite bool_decide_true by lia|rewrite bool_decide_false by lia]; simpl.
    + rewrite delete_app_l, delete_app_l in Ho' by lia. split_and!; try done.
      rewrite !length_delete; [lia|apply lookup_lt_is_Some; lia..].
    + rewrite delete_app_r, delete_app_r in Ho' by lia. rewrite <- Hlen in Ho' |- *. by split_and!.
  - apply lookup_ge_None in Hx. rewrite length_app in Hx. simpl. rewrite bool_decide_false by lia.
    rewrite !delete_ge in Ho' by (rewrite length_app; lia). rewrite delete_ge by lia.
    exists xs, ys, c. by rewrite Hi.
Qed.

Lemma iter_run_grow P this k o s z :
  iterates P this k s z -> iter_valid o ->
  match o with IInsertAt _ _ | IAppend _ => True | _ => False end ->
  exists s', iter_run P this k o s = Ok (fst (iter_spec o z), s')
    /\ iterates P this k s' (snd (iter_spec o z)).
Proof.
  destruct z as [vis pen e]. intros (xs & ys & c & Ho & Hlen & Hk & Hc) Hv Hm. simpl in Ho, Hlen, Hc.
  pose proof (owns_length _ _ _ _ _ Ho) as Hl.
  assert (e = true -> pen = [] /\ ys = []) as He by (by eapply split_ended).
  unfold iter_run. rewrite Hk. destruct o as [| | | |N|N obj|obj]; try done; simpl in Hv.
  - simpl iter_spec. case_bool_decide as HN; simpl.
    + destruct (insertAt_in P this s _ _ N obj Ho) as (s' & x & -> & Ho' & Hi); [lia|].
      exists s'. split; [done|]. rewrite length_app in HN, Hl. rewrite length_app in Hl.
      destruct (e || bool_decide (N < Z.of_nat (length vis))) eqn:Hb.
      * rewrite !take_app_le, !drop_app_le in Ho'; try
          (destruct e; [destruct (He eq_refl) as [-> ->]; simpl in *; lia|];
           apply bool_decide_eq_true in Hb; lia).
        exists (take (Z.to_nat N) xs ++ x :: drop (Z.to_nat N) xs), ys, c.
        rewrite Hi. simpl. rewrite <- !app_assoc. split_and!; try done.
        -- rewrite !length_app. simpl. rewrite !length_take, !length_drop. lia.
        -- destruct e; simpl in *; [done|]. subst c. apply bool_decide_eq_true in Hb.
           unfold pos_of. rewrite last_or_app, last_or_cons.
           destruct (drop (Z.to_nat N) xs) as [|y l] eqn:Ed;
             [apply (f_equal length) in Ed; rewrite length_drop in Ed; simpl in Ed; lia|].
           rewrite <- (take_drop (Z.to_nat N) xs), Ed. by rewrite last_or_app, !last_or_cons.
      * apply orb_false_iff in Hb as [-> Hb]. apply bool_decide_eq_false in Hb.
        rewrite !take_app_ge, !drop_app_ge in Ho' by lia.
        exists xs, (take (Z.to_nat N - length xs) ys ++ x :: drop (Z.to_nat N - length xs) ys), c.
        rewrite Hi, Hlen. rewrite Hlen in Ho'. simpl. by rewrite <- !app_assoc in Ho'.
    + rewrite (insertAt_out P this s _ _ N obj Ho) by lia. exists s. split; [done|]. by exists xs, ys, c.
  - destruct (append_owns P this s _ _ obj Ho) as (s' & x & -> & Ho' & Hi). simpl.
    eexists; split; [done|]. destruct e; simpl in *.
    + destruct (He eq_refl) as [-> ->]. rewrite !app_nil_r in Ho'.
      exists (xs ++ [x]), [], c. rewrite !app_nil_r, Hi. simpl. split_and!; try done; try apply Hc.
      rewrite !length_app. simpl. lia.
    + exists xs, (ys ++ [x]), c. rewrite Hi. simpl. by rewrite <- !app_assoc in Ho'.
Qed.

(** For every registered iterator, any interleaving of its moves with
    insertions and removals on its list behaves as on the pair of passed and
    pending objects: the iterator returns the pending objects in order, each
    once; a removed object is never returned afterwards and no other object
    is lost, also when the iterator stands on the removed object; an object
    inserted at or behind the position is not returned, one inserted further
    on is; past the end it stays past the end. *)
Theorem iter_runs_refine P this k os s z :
  iterates P this k s z -> Forall iter_valid os ->
  exists s', iter_runs P this k os s = Ok (fst (iter_specs os z), s')
    /\ iterates P this k s' (snd (iter_specs os z)).
Proof.
  intros Hz Hos. revert s z Hz.
  induction Hos as [|o os Hv Hos IH]; intros s z Hz; cbn [iter_runs iter_specs]; [by eexists|].
  assert (exists s1, iter_run P this k o s = Ok (fst (iter_spec o z), s1)
            /\ iterates P this k s1 (snd (iter_spec o z))) as (s1 & -> & Hz1).
  { destruct o; try (apply iter_run_move; [done|exact I]); try (apply iter_run_grow; [done|done|exact I]).
    apply iter_run_removeAt; [done|]. simpl in Hv. lia. }
  cbn [obind fst snd]. destruct (IH s1 _ Hz1) as (s2 & -> & Hz2). by eexists.
Qed.

End Iterators.

Definition iter_sample_ops : list (iter_op (list ascii)) :=
  [IAppend (bytes "a"); IAppend (bytes "b"); IAppend (bytes "c"); IAppend (bytes "d");
   INext; INext; IRemoveAt 1; IItem; INext; IRemoveAt 2; IInsertAt 0 (bytes "z"); INext;
   IAppend (bytes "e"); INext; IReset; INext].

Lemma iter_runs_refine_witness :
  exists s', iter_runs sample_pool 2%nat 0%nat iter_sample_ops
      (mkState (sample_heap (list ascii), 0) [BeforeFirst])
  = Ok ([None; None; None; None; Some (bytes "a"); Some (bytes "b"); Some (bytes "b");
         Some (bytes "a"); Some (bytes "c"); Some (bytes "d"); Some (bytes "z"); None;
         None; None; None; Some (bytes "z")], s').
Proof.
  destruct (iter_runs_refine sample_pool 2%nat 0%nat iter_sample_ops
    (mkState (sample_heap (list ascii), 0) [BeforeFirst]) (mkSplit [] [] false)) as (s' & E & _).
  - exists [], [], BeforeFirst. split; [apply sample_owns|done].
  - repeat apply Forall_cons_2; try apply Forall_nil_2; simpl;
      first [done | apply (bool_decide_unpack _); vm_compute; done].
  - exists s'. exact E.
Defined.
