(* ===== verification/UtlHashMap.v ===== *)
(** * UtlHashMap and its iterator

    src/sipXportLib/src/utl/UtlHashMap.cpp, UtlHashMapIterator.cpp and
    UtlPair.  A bucket is the sequence of UtlPair blocks chained on its
    header; what chaining and detaching do to the blocks themselves is the
    subject of UtlLink.v.  A pair has the address of its block, which is how
    iterators refer to it; [next_addr] supplies the address of the next block.
    The container locks make each operation atomic. *)
From Stdlib Require Import ZArith Lia Ascii String.
From stdpp Require Import base list.
From S2P Require Import Prelude UtlString UtlStringRefine Containable.
Local Open Scope Z_scope.

(** A value pointer: NULL, [UtlHashMap::INTERNAL_NULL], or an object. *)
Inductive vptr (V : Type) : Type := VNull | InternalNull | VObj (v : V).
Arguments VNull {V}. Arguments InternalNull {V}. Arguments VObj {V} v.

#[export] Instance vptr_eq_dec {V} `{EqDecision V} : EqDecision (vptr V).
Proof. solve_decision. Defined.

Definition is_internal_null {V} (v : vptr V) : bool := match v with InternalNull => true | _ => false end.

Record UtlPair (K V : Type) : Type := mkPair {
  addr : nat; key : K; pair_hash : Z; value : vptr V
}.
Arguments mkPair {K V} _ _ _ _.
Arguments addr {K V} _.
Arguments key {K V} _.
Arguments pair_hash {K V} _.
Arguments value {K V} _.

Record UtlHashMapIterator : Type := mkIter {
  mPosition : Z; mpCurrentPair : option nat; mPairIsValid : bool
}.

Record UtlHashMap (K V : Type) : Type := mkMap {
  mElements : Z;
  mBucketBits : nat;
  mpBucket : list (list (UtlPair K V));
  mIteratorList : list UtlHashMapIterator;
  next_addr : nat
}.
Arguments mkMap {K V} _ _ _ _ _.
Arguments mElements {K V} _.
Arguments mBucketBits {K V} _.
Arguments mpBucket {K V} _.
Arguments mIteratorList {K V} _.
Arguments next_addr {K V} _.

(** NUM_HASHMAP_BUCKETS *)
Definition NUM_HASHMAP_BUCKETS (bits : nat) : Z := Z.shiftl 1 (Z.of_nat bits).

(** The folding loop of UtlHashMap::bucketNumber; the hash has 32 bits. *)
Fixpoint fold_loop (fuel : nat) (mBucketBits : nat) (lowBitsMask foldedHash highBits : Z) : Z :=
  match fuel with
  | O => foldedHash
  | S fuel' =>
      let highBits' := Z.shiftr highBits (Z.of_nat mBucketBits) in
      if highBits' =? 0 then foldedHash
      else fold_loop fuel' mBucketBits lowBitsMask (Z.lxor foldedHash (Z.land highBits' lowBitsMask)) highBits'
  end.

(** UtlHashMap::bucketNumber *)
Definition bucketNumber (mBucketBits : nat) (hash : Z) : Z :=
  let lowBitsMask := NUM_HASHMAP_BUCKETS mBucketBits - 1 in
  fold_loop 33 mBucketBits lowBitsMask (Z.land hash lowBitsMask) hash.

(** The first loop of UtlHashMap::resize; [mElements] has 64 bits. *)
Fixpoint grow_bits (fuel : nat) (elements : Z) (newBucketBits : nat) : nat :=
  match fuel with
  | O => newBucketBits
  | S fuel' =>
      if 3 <=? elements / NUM_HASHMAP_BUCKETS newBucketBits
      then grow_bits fuel' elements (S newBucketBits) else newBucketBits
  end.

Section HashMap.
Context {K V : Type} `{Containable K}.
Abbreviation pair := (UtlPair K V).
Abbreviation hmap := (UtlHashMap K V).

Definition HASHMAP_INITIAL_BUCKET_BITS : nat := 4.

(** [new UtlChain[NUM_HASHMAP_BUCKETS(bits)]] *)
Definition new_buckets (bits : nat) : list (list pair) := replicate (Z.to_nat (NUM_HASHMAP_BUCKETS bits)) [].

(** UtlHashMap::UtlHashMap *)
Definition UtlHashMap_default : hmap :=
  mkMap 0 HASHMAP_INITIAL_BUCKET_BITS (new_buckets HASHMAP_INITIAL_BUCKET_BITS) [] 0.

Definition numberOfBuckets (m : hmap) : Z := NUM_HASHMAP_BUCKETS (mBucketBits m).

Definition with_buckets (m : hmap) (bs : list (list pair)) : hmap :=
  mkMap (mElements m) (mBucketBits m) bs (mIteratorList m) (next_addr m).
Definition with_elements (m : hmap) (n : Z) : hmap :=
  mkMap n (mBucketBits m) (mpBucket m) (mIteratorList m) (next_addr m).
Definition with_iterators (m : hmap) (its : list UtlHashMapIterator) : hmap :=
  mkMap (mElements m) (mBucketBits m) (mpBucket m) its (next_addr m).

(** [mpBucket[i]] *)
Definition bucket_at (m : hmap) (i : Z) : outcome (list pair) :=
  match mpBucket m !! Z.to_nat i with Some b => Ok b | None => UB end.

(** The search of UtlHashMap::lookup in a bucket. *)
Fixpoint lookup_in (k : K) (keyHash : Z) (b : list pair) : option pair :=
  match b with
  | [] => None
  | check :: b' =>
      if keyHash <=? pair_hash check then
        if (pair_hash check =? keyHash) && is_equal (key check) k then Some check
        else lookup_in k keyHash b'
      else None
  end.

(** UtlHashMap::lookup: the bucket's number and the pair, if found. *)
Definition lookup (m : hmap) (k : K) : outcome (Z * option pair) :=
  let keyHash := hash_of k in
  let bn := bucketNumber (mBucketBits m) keyHash in
  let! b := bucket_at m bn in
  Ok (bn, lookup_in k keyHash b).

(** The position loop of UtlHashMap::insert and [listBefore(bucket, position)]. *)
Fixpoint insert_in (p : pair) (b : list pair) : list pair :=
  match b with
  | [] => [p]
  | position :: b' =>
      if pair_hash p <=? pair_hash position then position :: insert_in p b' else p :: b
  end.

(** The loops of UtlHashMap::resize that move the pairs, with [ins] for
    UtlHashMap::insert. *)
Section Move.
Context (ins : hmap -> pair -> Z -> outcome hmap).

Fixpoint move_pairs (old : list pair) (m : hmap) : outcome hmap :=
  match old with
  | [] => Ok m
  | p :: old' =>
      let! m1 := ins m p (bucketNumber (mBucketBits m) (pair_hash p)) in move_pairs old' m1
  end.

Fixpoint move_buckets (oldBucket : list (list pair)) (toBeMoved : Z) (m : hmap) : outcome hmap :=
  match oldBucket with
  | [] => Ok m
  | b :: bs =>
      if toBeMoved =? 0 then Ok m
      else let! m1 := move_pairs b m in
           move_buckets bs (to_size (toBeMoved - Z.of_nat (length b))) m1
  end.

(** UtlHashMap::resize *)
Definition resize_with (m : hmap) : outcome hmap :=
  let newBucketBits := grow_bits 64 (mElements m) (S (mBucketBits m)) in
  move_buckets (mpBucket m) (mElements m)
    (mkMap (mElements m) newBucketBits (new_buckets newBucketBits) (mIteratorList m) (next_addr m)).
End Move.

(** The guard of UtlHashMap::resizeIfNeededAndSafe *)
Definition resize_needed (m : hmap) : bool :=
  (3 <=? mElements m / NUM_HASHMAP_BUCKETS (mBucketBits m)) && bool_decide (mIteratorList m = []).

(** UtlHashMap::insert(UtlPair, UtlChain) with resizeIfNeededAndSafe and
    resize, which call each other: [fuel] bounds the depth of the calls. *)
Fixpoint insert_pair (fuel : nat) (m : hmap) (p : pair) (bn : Z) : outcome hmap :=
  let! b := bucket_at m bn in
  let m1 := with_buckets m (<[Z.to_nat bn := insert_in p b]> (mpBucket m)) in
  if resize_needed m1 then
    match fuel with
    | O => UB
    | S fuel' => resize_with (insert_pair fuel') m1
    end
  else Ok m1.

(** UtlHashMap::resizeIfNeededAndSafe *)
Definition resizeIfNeededAndSafe (fuel : nat) (m : hmap) : outcome hmap :=
  if resize_needed m then resize_with (insert_pair fuel) m else Ok m.

(** Calls nest at most insert, resize, insert. *)
Definition depth : nat := 1.

(** UtlHashMap::insertKeyAndValue; [None] for the key is a null pointer. *)
Definition insertKeyAndValue (m : hmap) (k : option K) (v : vptr V) : outcome (option K * hmap) :=
  let v := match v with VNull => InternalNull | _ => v end in
  match k with
  | None => Ok (None, m)
  | Some key =>
      let! r := lookup m key in
      match snd r with
      | None =>
          let p := mkPair (next_addr m) key (hash_of key) v in
          let m1 := mkMap (to_size (mElements m + 1)) (mBucketBits m) (mpBucket m) (mIteratorList m)
                          (S (next_addr m)) in
          let! m2 := insert_pair depth m1 p (fst r) in Ok (Some key, m2)
      | Some _ => Ok (None, m)
      end
  end.

(** UtlHashMap::insert(UtlContainable) *)
Definition insert (m : hmap) (obj : option K) : outcome (option K * hmap) := insertKeyAndValue m obj VNull.

(** ** The neighbours of a pair in its bucket *)

Fixpoint prev_in (before : option nat) (a : nat) (b : list pair) : option (option nat) :=
  match b with
  | [] => None
  | p :: b' => if bool_decide (addr p = a) then Some before else prev_in (Some (addr p)) a b'
  end.

Fixpoint next_in (a : nat) (b : list pair) : option (option pair) :=
  match b with
  | [] => None
  | p :: b' => if bool_decide (addr p = a) then Some (head b') else next_in a b'
  end.

(** [p->prev] and [p->next]; a pair that is no longer in a bucket was
    released. *)
Definition prev_of (m : hmap) (a : nat) : outcome (option nat) :=
  match omap (prev_in None a) (mpBucket m) with r :: _ => Ok r | [] => UB end.
Definition next_of (m : hmap) (a : nat) : outcome (option pair) :=
  match omap (next_in a) (mpBucket m) with r :: _ => Ok r | [] => UB end.

(** UtlHashMapIterator::removing: the condition is the assignment
    [key = mpCurrentPair], so the removed pair plays no part. *)
Definition removing (m : hmap) (it : UtlHashMapIterator) : outcome UtlHashMapIterator :=
  match mpCurrentPair it with
  | Some c => let! p := prev_of m c in Ok (mkIter (mPosition it) p false)
  | None => Ok it
  end.

(** UtlHashMap::notifyIteratorsOfRemove *)
Fixpoint notify (m : hmap) (its : list UtlHashMapIterator) : outcome (list UtlHashMapIterator) :=
  match its with
  | [] => Ok []
  | i :: its' => let! i1 := removing m i in let! its1 := notify m its' in Ok (i1 :: its1)
  end.

Definition notifyIteratorsOfRemove (m : hmap) : outcome hmap :=
  let! its := notify m (mIteratorList m) in Ok (with_iterators m its).

(** [pair->detachFromList(bucket)] *)
Definition detach (p : pair) (b : list pair) : list pair := filter (fun q => addr q <> addr p) b.

(** UtlHashMap::removeKeyAndValue *)
Definition removeKeyAndValue (m : hmap) (k : option K) : outcome (option K * vptr V * hmap) :=
  match k with
  | None => Ok (None, VNull, m)
  | Some k =>
      let! r := lookup m k in
      match snd r with
      | Some p =>
          let! m1 := notifyIteratorsOfRemove m in
          let! b := bucket_at m1 (fst r) in
          let m2 := with_buckets m1 (<[Z.to_nat (fst r) := detach p b]> (mpBucket m1)) in
          Ok (Some (key p), value p, with_elements m2 (to_size (mElements m2 - 1)))
      | None => Ok (None, VNull, m)
      end
  end.

(** UtlHashMap::remove and UtlHashMap::removeReference *)
Definition remove (m : hmap) (k : option K) : outcome (option K * hmap) :=
  let! r := removeKeyAndValue m k in Ok (fst (fst r), snd r).

(** UtlHashMap::destroy: what is deleted is returned beside the result. *)
Definition destroy (m : hmap) (k : option K) : outcome (bool * option (K * option V) * hmap) :=
  let! r := removeKeyAndValue m k in
  match fst (fst r) with
  | Some removedKey =>
      let deleted := match snd (fst r) with VObj v => Some v | _ => None end in
      Ok (true, Some (removedKey, deleted), snd r)
  | None => Ok (false, None, snd r)
  end.

(** UtlHashMap::removeAll: the pairs leave bucket by bucket, from the head. *)
Fixpoint removeAll_bucket (fuel : nat) (i : nat) (m : hmap) : outcome hmap :=
  match mpBucket m !! i, fuel with
  | None, _ => UB
  | Some [], _ => Ok m
  | Some (p :: b), O => UB
  | Some (p :: b), S fuel' =>
      let! m1 := notifyIteratorsOfRemove m in
      removeAll_bucket fuel' i (with_buckets m1 (<[i := b]> (mpBucket m1)))
  end.

Fixpoint removeAll_loop (n i : nat) (toBeRemoved : Z) (m : hmap) : outcome hmap :=
  match n with
  | O => Ok m
  | S n' =>
      if toBeRemoved =? 0 then Ok m
      else
        match mpBucket m !! i with
        | None => UB
        | Some b =>
            let! m1 := removeAll_bucket (length b) i m in
            removeAll_loop n' (S i) (to_size (toBeRemoved - Z.of_nat (length b))) m1
        end
  end.

Definition removeAll (m : hmap) : outcome hmap :=
  let! m1 := removeAll_loop (Z.to_nat (numberOfBuckets m)) 0 (mElements m) m in
  Ok (with_elements m1 0).

(** UtlHashMap::find, findValue, contains, entries and isEmpty *)
Definition find (m : hmap) (k : K) : outcome (option K) :=
  let! r := lookup m k in Ok (key <$> snd r).
Definition findValue (m : hmap) (k : K) : outcome (vptr V) :=
  let! r := lookup m k in
  Ok (match snd r with
      | Some p => if is_internal_null (value p) then VNull else value p
      | None => VNull
      end).
Definition contains (m : hmap) (k : K) : outcome bool :=
  let! r := find m k in Ok (bool_decide (is_Some r)).
Definition entries (m : hmap) : Z := mElements m.
Definition isEmpty (m : hmap) : bool := entries m =? 0.

(** ** UtlHashMapIterator *)

(** UtlHashMapIterator::init *)
Definition iter_init : UtlHashMapIterator := mkIter 0 None true.

(** The constructor registers the iterator, the destructor takes it away
    and resizes the map if that had been put off. *)
Definition iter_new (m : hmap) : hmap := with_iterators m (mIteratorList m ++ [iter_init]).
Definition iter_delete (m : hmap) (k : nat) : outcome hmap :=
  resizeIfNeededAndSafe depth (with_iterators m (delete k (mIteratorList m))).

(** [!pair && ++mPosition < numberOfBuckets()] *)
Fixpoint next_bucket (fuel : nat) (m : hmap) (position : Z) (p : option pair) : outcome (Z * option pair) :=
  match p, fuel with
  | Some _, _ => Ok (position, p)
  | None, O => UB
  | None, S fuel' =>
      let position' := position + 1 in
      if position' <? numberOfBuckets m
      then let! b := bucket_at m position' in next_bucket fuel' m position' (head b)
      else Ok (position', None)
  end.

(** UtlHashMapIterator::operator() *)
Definition iter_next (m : hmap) (it : UtlHashMapIterator) : outcome (option K * UtlHashMapIterator) :=
  if mPosition it <? numberOfBuckets m then
    let! p0 := (match mpCurrentPair it with
                | Some c => next_of m c
                | None => let! b := bucket_at m (mPosition it) in Ok (head b)
                end) in
    let! r := next_bucket (S (Z.to_nat (numberOfBuckets m))) m (mPosition it) p0 in
    Ok (match snd r with
        | Some p => (Some (key p), mkIter (fst r) (Some (addr p)) true)
        | None => (None, mkIter (fst r) (mpCurrentPair it) true)
        end)
  else Ok (None, mkIter (mPosition it) None true).

(** The pair an iterator stands on. *)
Definition pair_at (m : hmap) (a : nat) : outcome pair :=
  match filter (fun p => addr p = a) (concat (mpBucket m)) with p :: _ => Ok p | [] => UB end.

(** UtlHashMapIterator::key and UtlHashMapIterator::value *)
Definition iter_key (m : hmap) (it : UtlHashMapIterator) : outcome (option K) :=
  match mpCurrentPair it with
  | Some c => if (mPosition it <? numberOfBuckets m) && mPairIsValid it
              then let! p := pair_at m c in Ok (Some (key p)) else Ok None
  | None => Ok None
  end.
Definition iter_value (m : hmap) (it : UtlHashMapIterator) : outcome (vptr V) :=
  match mpCurrentPair it with
  | Some c => if (mPosition it <? numberOfBuckets m) && mPairIsValid it
              then let! p := pair_at m c in
                   Ok (if is_internal_null (value p) then VNull else value p)
              else Ok VNull
  | None => Ok VNull
  end.

(** UtlHashMap::copyInto: iterates over this map, inserting into the other. *)
Fixpoint copy_loop (fuel : nat) (m : hmap) (it : UtlHashMapIterator) (into : hmap) : outcome hmap :=
  match fuel with
  | O => UB
  | S fuel' =>
      let! r := iter_next m it in
      match fst r with
      | None => Ok into
      | Some _ =>
          let! k := iter_key m (snd r) in
          let! v := iter_value m (snd r) in
          let! r1 := insertKeyAndValue into k v in
          copy_loop fuel' m (snd r) (snd r1)
      end
  end.

Definition copyInto (m into : hmap) : outcome (hmap * hmap) :=
  let m1 := iter_new m in
  let! into1 := copy_loop (S (length (concat (mpBucket m)))) m1 iter_init into in
  let! m2 := iter_delete m1 (length (mIteratorList m)) in
  Ok (m2, into1).

End HashMap.

(** A call of operator() of the [j]-th registered iterator. *)
Definition iter_call {K V} (m : UtlHashMap K V) (j : nat) : outcome (option K * UtlHashMap K V) :=
  match mIteratorList m !! j with
  | Some it =>
      let! r := iter_next m it in Ok (fst r, with_iterators m (<[j := snd r]> (mIteratorList m)))
  | None => UB
  end.
