(* ===== verification/UtlHashMapSpec.v ===== *)
(** * UtlHashMap refines finite maps

    [hm_inv] is the invariant of a hash map: each pair is in the bucket its
    hash selects, buckets are ordered by descending hash, no two keys are
    equal, the counter is the number of pairs and the number of buckets is
    in range.  Any sequence of operations on a map without iterators keeps
    the invariant and answers as the association list of its entries. *)
From Stdlib Require Import ZArith Lia Ascii String.
From stdpp Require Import base list sets gmap sorting.
From S2P Require Import Prelude UtlString UtlStringRefine Containable UtlHashMap.
Local Open Scope Z_scope.

(** ** Bucket numbers *)

Lemma NUM_pow bits : NUM_HASHMAP_BUCKETS bits = 2 ^ Z.of_nat bits.
Proof. unfold NUM_HASHMAP_BUCKETS. rewrite Z.shiftl_mul_pow2; lia. Qed.

Lemma NUM_pos bits : 0 < NUM_HASHMAP_BUCKETS bits.
Proof. rewrite NUM_pow. lia. Qed.

Lemma lxor_range n a b : 0 <= n -> 0 <= a < 2 ^ n -> 0 <= b < 2 ^ n -> 0 <= Z.lxor a b < 2 ^ n.
Proof.
  intros Hn Ha Hb. split; [apply Z.lxor_nonneg; lia|].
  assert (Z.lxor a b = Z.lxor a b mod 2 ^ n) as ->; [|apply Z.mod_pos_bound; lia].
  rewrite <- Z.land_ones by done. apply Z.bits_inj'. intros i Hi.
  rewrite Z.land_spec, Z.lxor_spec.
  destruct (Z.ltb_spec i n) as [Hlt|Hge].
  - by rewrite Z.ones_spec_low, andb_true_r by lia.
  - rewrite Z.ones_spec_high, andb_false_r by lia.
    rewrite <- (Z.mod_small a (2 ^ n)), <- (Z.mod_small b (2 ^ n)) by done.
    by rewrite !Z.mod_pow2_bits_high by lia.
Qed.

Lemma land_mask_range bits h : 0 <= Z.land h (NUM_HASHMAP_BUCKETS bits - 1) < NUM_HASHMAP_BUCKETS bits.
Proof.
  rewrite NUM_pow. replace (2 ^ Z.of_nat bits - 1) with (Z.ones (Z.of_nat bits))
    by (rewrite Z.ones_equiv; lia).
  rewrite Z.land_ones by lia. apply Z.mod_pos_bound. lia.
Qed.

Lemma bucketNumber_range bits h : 0 <= bucketNumber bits h < NUM_HASHMAP_BUCKETS bits.
Proof.
  unfold bucketNumber.
  assert (forall fuel f hb, 0 <= f < NUM_HASHMAP_BUCKETS bits ->
    0 <= fold_loop fuel bits (NUM_HASHMAP_BUCKETS bits - 1) f hb < NUM_HASHMAP_BUCKETS bits) as Hloop.
  { induction fuel as [|fuel IH]; intros f hb Hf; simpl; [done|]. zcase. apply IH.
    pose proof (land_mask_range bits (Z.shiftr hb (Z.of_nat bits))). rewrite NUM_pow in *.
    by apply lxor_range; [lia|..]. }
  apply Hloop, land_mask_range.
Qed.

(** The loop has ended when the fuel does: 33 shifts leave nothing of a
    32-bit hash. *)
Lemma fold_loop_enough bits mask f hb fuel extra :
  (1 <= bits)%nat -> 0 <= hb < 2 ^ Z.of_nat fuel ->
  fold_loop (S fuel + extra) bits mask f hb = fold_loop (S fuel) bits mask f hb.
Proof.
  intros Hb. revert f hb. induction fuel as [|fuel IH]; intros f hb Hh.
  - assert (hb = 0) as -> by (simpl in Hh; lia). simpl. by rewrite Z.shiftr_0_l.
  - cbn [fold_loop Nat.add]. destruct (_ =? 0); [done|]. apply IH. rewrite Z.shiftr_div_pow2 by lia.
    split; [apply Z.div_pos; lia|]. apply Z.div_lt_upper_bound; [lia|].
    rewrite <- Z.pow_add_r by lia. eapply Z.lt_le_trans; [apply Hh|]. apply Z.pow_le_mono_r; lia.
Qed.

Lemma bucketNumber_total bits h extra :
  (1 <= bits)%nat -> 0 <= h < 2 ^ 32 ->
  bucketNumber bits h
  = fold_loop (33 + extra) bits (NUM_HASHMAP_BUCKETS bits - 1) (Z.land h (NUM_HASHMAP_BUCKETS bits - 1)) h.
Proof. intros Hb Hh. unfold bucketNumber. symmetry. apply (fold_loop_enough _ _ _ _ 32); [done|lia]. Qed.

(** The new size restores the mean bucket length in a number of bits that
    keeps [1<<bits] an int. *)
Lemma grow_bits_spec fuel e b :
  0 <= e < 3 * 2 ^ 30 -> (b <= 30)%nat -> (30 - b < fuel)%nat ->
  (b <= grow_bits fuel e b <= 30)%nat /\ e / NUM_HASHMAP_BUCKETS (grow_bits fuel e b) < 3.
Proof.
  intros He. revert b. induction fuel as [|fuel IH]; intros b Hb Hf; [lia|]. simpl.
  destruct (Z.leb_spec 3 (e / NUM_HASHMAP_BUCKETS b)) as [Hge|Hlt]; [|lia].
  assert (b <> 30%nat) as Hne.
  { intros ->. assert (e / NUM_HASHMAP_BUCKETS 30 < 3); [|lia].
    rewrite NUM_pow. apply Z.div_lt_upper_bound; lia. }
  destruct (IH (S b)) as [H1 H2]; [lia|lia|]. split; [lia|done].
Qed.

Section Spec.
Context {K V : Type} `{EqualLaws K valid}.
Abbreviation pair := (UtlPair K V).
Abbreviation hmap := (UtlHashMap K V).
Implicit Types (m : hmap) (p q : pair) (b : list pair) (bs : list (list pair)).

(** ** The invariant *)

Definition descending b : Prop := StronglySorted (fun p q => pair_hash q <= pair_hash p) b.

Definition bucket_ok (bits : nat) (i : nat) b : Prop :=
  descending b
  /\ Forall (fun p => pair_hash p = hash_of (key p) /\ bucketNumber bits (pair_hash p) = Z.of_nat i) b.

Definition buckets_ok (bits : nat) bs : Prop :=
  Z.of_nat (length bs) = NUM_HASHMAP_BUCKETS bits /\ forall i b, bs !! i = Some b -> bucket_ok bits i b.

(** Facts on the entries that do not depend on how they are distributed. *)
Definition entries_ok (ps : list pair) (next : nat) : Prop :=
  NoDup (addr <$> ps) /\ Forall (fun p => (addr p < next)%nat /\ valid (key p)) ps
  /\ (forall p q, p ∈ ps -> q ∈ ps -> compare_to (key p) (key q) = 0 -> p = q).

Definition hm_inv m : Prop :=
  (1 <= mBucketBits m <= 30)%nat /\ buckets_ok (mBucketBits m) (mpBucket m)
  /\ mElements m = Z.of_nat (length (concat (mpBucket m)))
  /\ entries_ok (concat (mpBucket m)) (next_addr m).

(** ** One bucket *)

Lemma insert_in_perm p b : insert_in p b ≡ₚ p :: b.
Proof.
  induction b as [|q b IH]; simpl; [done|]. destruct (_ <=? _); [|done].
  rewrite IH. apply Permutation_swap.
Qed.

Lemma insert_in_descending p b : descending b -> descending (insert_in p b).
Proof.
  unfold descending. induction 1 as [|q b Hs IH Hf]; simpl; [by repeat constructor|].
  destruct (Z.leb_spec (pair_hash p) (pair_hash q)) as [Hle|Hlt].
  - constructor; [done|]. rewrite insert_in_perm. by constructor.
  - constructor; [by constructor|]. constructor; [lia|].
    eapply Forall_impl; [done|]. simpl. lia.
Qed.

Lemma insert_in_ok bits i p b :
  bucket_ok bits i b -> pair_hash p = hash_of (key p) -> bucketNumber bits (pair_hash p) = Z.of_nat i ->
  bucket_ok bits i (insert_in p b).
Proof.
  intros [Hd Hf] Hp Hb. split; [by apply insert_in_descending|]. rewrite insert_in_perm. by constructor.
Qed.

Lemma lookup_in_Some k h b p :
  lookup_in k h b = Some p -> p ∈ b /\ pair_hash p = h /\ compare_to (key p) k = 0.
Proof.
  induction b as [|q b IH]; simpl; [done|]. destruct (h <=? pair_hash q); [|done].
  destruct (Z.eqb_spec (pair_hash q) h); simpl; [|intros ?; set_solver].
  unfold is_equal. destruct (Z.eqb_spec (compare_to (key q) k) 0); [|intros ?; set_solver].
  intros [= ->]. set_solver.
Qed.

Lemma lookup_in_None k h b :
  descending b -> lookup_in k h b = None ->
  Forall (fun p => pair_hash p = h -> compare_to (key p) k <> 0) b.
Proof.
  induction 1 as [|q b Hs IH Hf]; simpl; [by constructor|].
  destruct (Z.leb_spec h (pair_hash q)) as [Hle|Hlt].
  - unfold is_equal. destruct (Z.eqb_spec (pair_hash q) h); simpl.
    + destruct (Z.eqb_spec (compare_to (key q) k) 0); [done|]. constructor; auto.
    + constructor; [done|auto].
  - intros _. constructor; [lia|]. eapply Forall_impl; [exact Hf|]. simpl. lia.
Qed.

(** ** All buckets *)

Lemma concat_insert bs i b b' :
  bs !! i = Some b -> exists rest, concat bs ≡ₚ b ++ rest /\ concat (<[i := b']> bs) ≡ₚ b' ++ rest.
Proof.
  intros Hb. exists (concat (take i bs) ++ concat (drop (S i) bs)).
  pose proof (lookup_lt_Some _ _ _ Hb). split.
  - rewrite <- (take_drop_middle bs i b) at 1 by done. rewrite concat_app. simpl.
    rewrite !app_assoc. by rewrite (Permutation_app_comm (concat (take i bs)) b).
  - rewrite insert_take_drop, concat_app by done. simpl.
    rewrite !app_assoc. by rewrite (Permutation_app_comm (concat (take i bs)) b').
Qed.

Lemma bucket_lookup bits bs h :
  buckets_ok bits bs -> exists b, bs !! Z.to_nat (bucketNumber bits h) = Some b
    /\ bucket_ok bits (Z.to_nat (bucketNumber bits h)) b.
Proof.
  intros [Hl Hb]. pose proof (bucketNumber_range bits h).
  destruct (lookup_lt_is_Some_2 bs (Z.to_nat (bucketNumber bits h))) as [b E]; [lia|]. eauto.
Qed.

Lemma put_ok bits bs p b :
  buckets_ok bits bs -> pair_hash p = hash_of (key p) ->
  bs !! Z.to_nat (bucketNumber bits (pair_hash p)) = Some b ->
  buckets_ok bits (<[Z.to_nat (bucketNumber bits (pair_hash p)) := insert_in p b]> bs)
  /\ concat (<[Z.to_nat (bucketNumber bits (pair_hash p)) := insert_in p b]> bs) ≡ₚ p :: concat bs.
Proof.
  intros [Hl Hb] Hp E. pose proof (bucketNumber_range bits (pair_hash p)). split.
  - split; [by rewrite length_insert|]. intros i b' Hi.
    apply list_lookup_insert_Some in Hi as [(<- & <- & _)|(_ & Hi)]; [|by apply Hb].
    apply insert_in_ok; [by apply Hb|done|]. rewrite Z2Nat.id; lia.
  - destruct (concat_insert bs _ b (insert_in p b) E) as (rest & -> & ->).
    by rewrite insert_in_perm.
Qed.

Lemma new_buckets_ok bits : buckets_ok bits (new_buckets bits) /\ concat (@new_buckets K V bits) = [].
Proof.
  pose proof (NUM_pos bits). unfold new_buckets. split; [split|].
  - rewrite length_replicate. lia.
  - intros i b Hi. apply lookup_replicate in Hi as [-> _]. split; by constructor.
  - by induction (Z.to_nat _).
Qed.

(** ** Inserting and resizing *)

Lemma insert_pair_fits fuel m p :
  buckets_ok (mBucketBits m) (mpBucket m) -> pair_hash p = hash_of (key p) -> resize_needed m = false ->
  exists bs, insert_pair fuel m p (bucketNumber (mBucketBits m) (pair_hash p)) = Ok (with_buckets m bs)
    /\ buckets_ok (mBucketBits m) bs /\ concat bs ≡ₚ p :: concat (mpBucket m).
Proof.
  intros Hb Hp Hr. destruct (bucket_lookup _ _ (pair_hash p) Hb) as (b & E & _).
  destruct (put_ok _ _ p b Hb Hp E) as [Hok Hperm].
  exists (<[Z.to_nat (bucketNumber (mBucketBits m) (pair_hash p)) := insert_in p b]> (mpBucket m)).
  split; [|done]. destruct fuel; cbn [insert_pair]; unfold bucket_at; rewrite E; cbn [obind];
    change (resize_needed (with_buckets m _)) with (resize_needed m); by rewrite Hr.
Qed.

Lemma move_pairs_spec fuel old m :
  buckets_ok (mBucketBits m) (mpBucket m) -> Forall (fun p => pair_hash p = hash_of (key p)) old ->
  resize_needed m = false ->
  exists bs, move_pairs (insert_pair fuel) old m = Ok (with_buckets m bs)
    /\ buckets_ok (mBucketBits m) bs /\ concat bs ≡ₚ old ++ concat (mpBucket m).
Proof.
  intros Hb Hold Hr. revert m Hb Hr. induction Hold as [|p old Hp Hold IH]; intros m Hb Hr; simpl.
  - exists (mpBucket m). by destruct m.
  - destruct (insert_pair_fits fuel m p Hb Hp Hr) as (bs & -> & Hok & Hperm). cbn [obind].
    destruct (IH (with_buckets m bs)) as (bs' & -> & Hok' & Hperm'); [done..|].
    exists bs'. split; [done|]. split; [done|]. rewrite Hperm'. simpl. rewrite Hperm.
    symmetry. apply Permutation_middle.
Qed.

Lemma move_buckets_spec fuel olds m :
  buckets_ok (mBucketBits m) (mpBucket m) ->
  Forall (fun p => pair_hash p = hash_of (key p)) (concat olds) ->
  resize_needed m = false -> Z.of_nat (length (concat olds)) <= SIZE_MAX ->
  exists bs, move_buckets (insert_pair fuel) olds (Z.of_nat (length (concat olds))) m = Ok (with_buckets m bs)
    /\ buckets_ok (mBucketBits m) bs /\ concat bs ≡ₚ concat olds ++ concat (mpBucket m).
Proof.
  revert m. induction olds as [|b olds IH]; intros m Hb Hall Hr Hlen; cbn [move_buckets].
  - exists (mpBucket m). by destruct m.
  - destruct (Z.eqb_spec (Z.of_nat (length (concat (b :: olds)))) 0) as [Hz|Hz].
    + exists (mpBucket m). destruct (concat (b :: olds)); [|simpl in Hz; lia]. by destruct m.
    + simpl in Hall, Hlen. rewrite length_app in Hlen. apply Forall_app in Hall as [Hb1 Hall].
      destruct (move_pairs_spec fuel b m Hb Hb1 Hr) as (bs & -> & Hok & Hperm). cbn [obind].
      replace (to_size _) with (Z.of_nat (length (concat olds))).
      2: { simpl. rewrite length_app. rewrite to_size_small; lia. }
      destruct (IH (with_buckets m bs)) as (bs' & -> & Hok' & Hperm'); [done|done|done|lia|].
      exists bs'. split; [done|]. split; [done|]. rewrite Hperm'. simpl. rewrite Hperm.
      rewrite !app_assoc. by rewrite (Permutation_app_comm (concat olds) b).
Qed.

Lemma resize_with_spec fuel m :
  (1 <= mBucketBits m <= 30)%nat -> buckets_ok (mBucketBits m) (mpBucket m) ->
  mElements m = Z.of_nat (length (concat (mpBucket m))) -> mElements m < 3 * 2 ^ 30 ->
  resize_needed m = true ->
  exists bits bs, resize_with (insert_pair fuel) m
      = Ok (mkMap (mElements m) bits bs (mIteratorList m) (next_addr m))
    /\ (1 <= bits <= 30)%nat /\ buckets_ok bits bs /\ concat bs ≡ₚ concat (mpBucket m)
    /\ mElements m / NUM_HASHMAP_BUCKETS bits < 3.
Proof.
  intros Hbits Hb He Hlt Hr. unfold resize_needed in Hr. apply andb_true_iff in Hr as [Hr Hi].
  zbool. apply bool_decide_eq_true in Hi.
  assert (mBucketBits m <> 30%nat) as Hne.
  { intros E. rewrite E, NUM_pow in Hr.
    assert (mElements m / 2 ^ Z.of_nat 30 < 3); [|lia]. apply Z.div_lt_upper_bound; lia. }
  destruct (grow_bits_spec 64 (mElements m) (S (mBucketBits m))) as [Hg Hratio]; [lia|lia|lia|].
  unfold resize_with. set (bits := grow_bits 64 (mElements m) (S (mBucketBits m))) in *.
  destruct (new_buckets_ok bits) as [Hnew Hempty].
  destruct (move_buckets_spec fuel (mpBucket m)
    (mkMap (mElements m) bits (new_buckets bits) (mIteratorList m) (next_addr m))) as (bs & E & Hok & Hperm).
  - done.
  - destruct Hb as [_ Hb]. apply Forall_concat. apply Forall_lookup. intros i b E.
    destruct (Hb i b E) as [_ Hf]. eapply Forall_impl; [exact Hf|]. tauto.
  - unfold resize_needed. simpl. destruct (Z.leb_spec 3 (mElements m / NUM_HASHMAP_BUCKETS bits)); [lia|done].
  - unfold SIZE_MAX. lia.
  - simpl in Hperm. rewrite Hempty, app_nil_r in Hperm. exists bits, bs.
    rewrite <- He in E. rewrite E. split; [done|]. split; [lia|]. done.
Qed.

Lemma insert_pair_S fuel m p bn :
  insert_pair (S fuel) m p bn
  = let! b := bucket_at m bn in
    let m1 := with_buckets m (<[Z.to_nat bn := insert_in p b]> (mpBucket m)) in
    if resize_needed m1 then resize_with (insert_pair fuel) m1 else Ok m1.
Proof. done. Qed.

(** What an insertion leaves: the same entries and one more. *)
Definition adds (m m' : hmap) p : Prop :=
  (1 <= mBucketBits m' <= 30)%nat /\ buckets_ok (mBucketBits m') (mpBucket m')
  /\ concat (mpBucket m') ≡ₚ p :: concat (mpBucket m)
  /\ mElements m' = mElements m /\ mIteratorList m' = mIteratorList m /\ next_addr m' = next_addr m.

Lemma insert_pair_spec m p :
  (1 <= mBucketBits m <= 30)%nat -> buckets_ok (mBucketBits m) (mpBucket m) ->
  mElements m = Z.of_nat (S (length (concat (mpBucket m)))) -> mElements m < 3 * 2 ^ 30 ->
  pair_hash p = hash_of (key p) ->
  exists m', insert_pair depth m p (bucketNumber (mBucketBits m) (pair_hash p)) = Ok m' /\ adds m m' p.
Proof.
  intros Hbits Hb He Hlt Hp. destruct (resize_needed m) eqn:Hr.
  - destruct (bucket_lookup _ _ (pair_hash p) Hb) as (b & E & _).
    destruct (put_ok _ _ p b Hb Hp E) as [Hok Hperm].
    unfold depth. rewrite insert_pair_S. unfold bucket_at. rewrite E. cbn [obind]. cbv zeta.
    change (resize_needed (with_buckets m _)) with (resize_needed m). rewrite Hr.
    destruct (resize_with_spec 0 (with_buckets m (<[Z.to_nat (bucketNumber (mBucketBits m) (pair_hash p))
      := insert_in p b]> (mpBucket m)))) as (bits & bs & -> & Hbits' & Hok' & Hperm' & _); try done.
    { simpl. by rewrite Hperm. }
    eexists; split; [done|]. unfold adds. simpl. split_and!; try done; try lia. simpl in Hperm'.
    by rewrite Hperm', Hperm.
  - destruct (insert_pair_fits depth m p Hb Hp Hr) as (bs & -> & Hok & Hperm).
    eexists; split; [done|]. unfold adds. simpl. split_and!; (done || lia).
Qed.

(** ** Lookup *)

Lemma elem_of_concat p bs : p ∈ concat bs <-> exists i b, bs !! i = Some b /\ p ∈ b.
Proof.
  rewrite list_elem_of_In, in_concat. split.
  - intros (b & Hb & Hp). apply list_elem_of_In, list_elem_of_lookup in Hb as [i Hi].
    exists i, b. by rewrite list_elem_of_In.
  - intros (i & b & Hi & Hp). exists b. rewrite <- !list_elem_of_In. by split; [eapply list_elem_of_lookup_2|].
Qed.

Lemma lookup_spec m k :
  hm_inv m -> valid k ->
  exists r, lookup m k = Ok (bucketNumber (mBucketBits m) (hash_of k), r)
    /\ match r with
       | Some p => p ∈ concat (mpBucket m) /\ compare_to (key p) k = 0
                   /\ exists b, mpBucket m !! Z.to_nat (bucketNumber (mBucketBits m) (hash_of k)) = Some b /\ p ∈ b
       | None => forall p, p ∈ concat (mpBucket m) -> compare_to (key p) k <> 0
       end.
Proof.
  intros (Hbits & Hb & He & (_ & Hv & _)) Hk. destruct (bucket_lookup _ _ (hash_of k) Hb) as (b & E & Hd & Hf).
  unfold lookup, bucket_at. rewrite E. cbn [obind]. eexists; split; [done|].
  destruct (lookup_in k (hash_of k) b) as [p|] eqn:El.
  - apply lookup_in_Some in El as (Hin & _ & Hc). split; [|eauto]. apply elem_of_concat. eauto.
  - apply lookup_in_None in El; [|done]. intros p Hp Hc.
    rewrite Forall_forall in Hv. destruct (Hv p Hp) as [_ Hvp].
    assert (hash_of (key p) = hash_of k) as Hh by (by apply key_equal_hash).
    apply elem_of_concat in Hp as (i & b' & Hi & Hp). destruct Hb as [_ Hb].
    destruct (Hb i b' Hi) as [_ Hf']. rewrite Forall_forall in Hf'.
    destruct (Hf' p Hp) as [Hph Hbn].
    rewrite Hph, Hh in Hbn. rewrite Hbn, Nat2Z.id, Hi in E. simplify_eq.
    rewrite Forall_forall in El. apply (El p Hp); [congruence|done].
Qed.

(** ** Operations against association lists *)

Inductive hop : Type :=
| HInsertKeyAndValue (k : option K) (v : vptr V) | HInsert (k : option K)
| HRemoveKeyAndValue (k : option K) | HRemove (k : option K) | HDestroy (k : option K) | HRemoveAll
| HFind (k : K) | HFindValue (k : K) | HContains (k : K) | HEntries | HIsEmpty.

Inductive hres : Type :=
| HKey (k : option K) | HKeyValue (k : option K) (v : vptr V) | HDeleted (k : option (K * option V))
| HValue (v : vptr V) | HBool (b : bool) | HNum (n : Z) | HUnit.

Definition hm_run (o : hop) m : outcome (hres * hmap) :=
  match o with
  | HInsertKeyAndValue k v => let! r := insertKeyAndValue m k v in Ok (HKey (fst r), snd r)
  | HInsert k => let! r := insert m k in Ok (HKey (fst r), snd r)
  | HRemoveKeyAndValue k => let! r := removeKeyAndValue m k in Ok (HKeyValue (fst (fst r)) (snd (fst r)), snd r)
  | HRemove k => let! r := remove m k in Ok (HKey (fst r), snd r)
  | HDestroy k => let! r := destroy m k in Ok (HDeleted (snd (fst r)), snd r)
  | HRemoveAll => let! m1 := removeAll m in Ok (HUnit, m1)
  | HFind k => let! r := find m k in Ok (HKey r, m)
  | HFindValue k => let! r := findValue m k in Ok (HValue r, m)
  | HContains k => let! r := contains m k in Ok (HBool r, m)
  | HEntries => Ok (HNum (entries m), m)
  | HIsEmpty => Ok (HBool (isEmpty m), m)
  end.

(** An abstract map: its entries, in no particular order. *)
Abbreviation amap := (list (K * vptr V)).
Implicit Types l : amap.

Definition find_kv (k : K) l : option (K * vptr V) := head (filter (fun kv => compare_to (fst kv) k = 0) l).
Definition remove_kv (k : K) l : amap := filter (fun kv => compare_to (fst kv) k <> 0) l.

#[local] Instance remove_kv_proper k : Proper ((≡ₚ) ==> (≡ₚ)) (remove_kv k).
Proof. intros l1 l2 E. unfold remove_kv. by rewrite E. Qed.

(** A missing value is stored as the internal null object. *)
Definition stored (v : vptr V) : vptr V := match v with VNull => InternalNull | _ => v end.
Definition shown (v : vptr V) : vptr V := if is_internal_null v then VNull else v.
Definition owned (v : vptr V) : option V := match v with VObj x => Some x | _ => None end.

Definition spec_insert (k : option K) (v : vptr V) l : option K * amap :=
  match k with
  | Some k' => match find_kv k' l with Some _ => (None, l) | None => (Some k', (k', stored v) :: l) end
  | None => (None, l)
  end.
Definition spec_remove (k : option K) l : option (K * vptr V) * amap :=
  match k with Some k' => (find_kv k' l, remove_kv k' l) | None => (None, l) end.

Definition hm_spec (o : hop) l : hres * amap :=
  match o with
  | HInsertKeyAndValue k v => let r := spec_insert k v l in (HKey (fst r), snd r)
  | HInsert k => let r := spec_insert k VNull l in (HKey (fst r), snd r)
  | HRemoveKeyAndValue k =>
      let r := spec_remove k l in
      (match fst r with Some (k', v) => HKeyValue (Some k') v | None => HKeyValue None VNull end, snd r)
  | HRemove k => let r := spec_remove k l in (HKey (fst <$> fst r), snd r)
  | HDestroy k =>
      let r := spec_remove k l in (HDeleted ((fun kv => (fst kv, owned (snd kv))) <$> fst r), snd r)
  | HRemoveAll => (HUnit, [])
  | HFind k => (HKey (fst <$> find_kv k l), l)
  | HFindValue k => (HValue (match find_kv k l with Some kv => shown (snd kv) | None => VNull end), l)
  | HContains k => (HBool (bool_decide (is_Some (find_kv k l))), l)
  | HEntries => (HNum (Z.of_nat (length l)), l)
  | HIsEmpty => (HBool (Z.of_nat (length l) =? 0), l)
  end.

Definition hm_valid (o : hop) : Prop :=
  match o with
  | HInsertKeyAndValue (Some k) _ | HInsert (Some k) | HRemoveKeyAndValue (Some k) | HRemove (Some k)
  | HDestroy (Some k) | HFind k | HFindValue k | HContains k => valid k
  | _ => True
  end.

Fixpoint hm_runs (os : list hop) m : outcome (list hres * hmap) :=
  match os with
  | [] => Ok ([], m)
  | o :: os' => let! r := hm_run o m in let! rs := hm_runs os' (snd r) in Ok (fst r :: fst rs, snd rs)
  end.

Fixpoint hm_specs (os : list hop) l : list hres * amap :=
  match os with
  | [] => ([], l)
  | o :: os' => let r := hm_spec o l in let rs := hm_specs os' (snd r) in (fst r :: fst rs, snd rs)
  end.

(** The map [m] has the entries [l], and no iterator. *)
Definition kv_of p : K * vptr V := (key p, value p).
Definition abstracts m l : Prop :=
  hm_inv m /\ mIteratorList m = [] /\ kv_of <$> concat (mpBucket m) ≡ₚ l.

Lemma find_kv_Some k (l : amap) kv :
  (forall x y, x ∈ l -> y ∈ l -> compare_to (fst x) (fst y) = 0 -> x = y) ->
  kv ∈ l -> compare_to (fst kv) k = 0 -> find_kv k l = Some kv.
Proof.
  intros Hu Hin Hc. unfold find_kv.
  destruct (filter (fun x => compare_to (fst x) k = 0) l) as [|y f] eqn:E; simpl.
  - assert (kv ∈ filter (fun x => compare_to (fst x) k = 0) l) as Hf by (apply list_elem_of_filter; done).
    rewrite E in Hf. set_solver.
  - assert (y ∈ filter (fun x => compare_to (fst x) k = 0) l) as Hy by (rewrite E; set_solver).
    apply list_elem_of_filter in Hy as [Hy Hyl]. f_equal. apply Hu; [done..|].
    eapply key_trans; [exact Hy|by apply key_sym].
Qed.

Lemma find_kv_None k (l : amap) :
  (forall kv, kv ∈ l -> compare_to (fst kv) k <> 0) -> find_kv k l = None.
Proof.
  intros Hn. unfold find_kv. destruct (filter _ l) as [|y f] eqn:E; [done|].
  assert (y ∈ filter (fun x => compare_to (fst x) k = 0) l) as Hy by (rewrite E; set_solver).
  apply list_elem_of_filter in Hy as [Hy Hyl]. by destruct (Hn y Hyl).
Qed.

Lemma abstracts_unique m l :
  abstracts m l -> forall x y, x ∈ l -> y ∈ l -> compare_to (fst x) (fst y) = 0 -> x = y.
Proof.
  intros ((_ & _ & _ & (_ & _ & Hu)) & _ & Hp) x y Hx Hy Hc. rewrite <- Hp in Hx, Hy.
  apply list_elem_of_fmap in Hx as (p & -> & Hx), Hy as (q & -> & Hy).
  by rewrite (Hu p q Hx Hy Hc).
Qed.

Lemma lookup_abstract m l k :
  abstracts m l -> valid k ->
  exists r, lookup m k = Ok (bucketNumber (mBucketBits m) (hash_of k), r) /\ kv_of <$> r = find_kv k l
    /\ match r with
       | Some p => p ∈ concat (mpBucket m) /\ compare_to (key p) k = 0
                   /\ exists b, mpBucket m !! Z.to_nat (bucketNumber (mBucketBits m) (hash_of k)) = Some b /\ p ∈ b
       | None => forall p, p ∈ concat (mpBucket m) -> compare_to (key p) k <> 0
       end.
Proof.
  intros Ha Hk. pose proof (abstracts_unique m l Ha) as Hu. destruct Ha as (Hinv & _ & Hp).
  destruct (lookup_spec m k Hinv Hk) as (r & -> & Hr). exists r. split; [done|]. split; [|done].
  destruct r as [p|]; simpl.
  - destruct Hr as (Hin & Hc & _). symmetry. apply find_kv_Some; [done| |done].
    rewrite <- Hp. by apply list_elem_of_fmap_2.
  - symmetry. apply find_kv_None. intros kv Hkv. rewrite <- Hp in Hkv.
    apply list_elem_of_fmap in Hkv as (p & -> & Hin). by apply Hr.
Qed.

(** ** Insertion *)

Lemma entries_ok_add p ps next :
  entries_ok ps next -> addr p = next -> valid (key p) ->
  (forall q, q ∈ ps -> compare_to (key q) (key p) <> 0) -> entries_ok (p :: ps) (S next).
Proof.
  intros (Hnd & Hf & Hu) Ha Hv Hn. rewrite Forall_forall in Hf. split_and!.
  - simpl. apply NoDup_cons. split; [|done]. intros Hin.
    apply list_elem_of_fmap in Hin as (q & E & Hq). destruct (Hf q Hq). lia.
  - constructor; [split; [lia|done]|]. apply Forall_forall. intros q Hq. destruct (Hf q Hq). split; [lia|done].
  - intros x y Hx Hy Hc. apply elem_of_cons in Hx as [->|Hx], Hy as [->|Hy]; try done; auto.
    + by destruct (Hn y Hy (key_sym _ _ Hc)).
    + by destruct (Hn x Hx).
Qed.

Lemma entries_ok_perm (ps qs : list pair) next : ps ≡ₚ qs -> entries_ok ps next -> entries_ok qs next.
Proof.
  intros Hp (Hnd & Hf & Hu). split_and!.
  - by rewrite <- Hp.
  - by rewrite <- Hp.
  - intros x y Hx Hy. rewrite <- Hp in Hx, Hy. by apply Hu.
Qed.

Lemma insertKeyAndValue_spec m l k v :
  abstracts m l -> valid k -> Z.of_nat (length l) + 1 < 3 * 2 ^ 30 ->
  exists m', insertKeyAndValue m (Some k) v = Ok (fst (spec_insert (Some k) v l), m')
    /\ abstracts m' (snd (spec_insert (Some k) v l)).
Proof.
  intros Ha Hk Hl. destruct (lookup_abstract m l k Ha Hk) as (r & Er & Hr & Hcase).
  pose proof Ha as ((Hbits & Hb & He & Hent) & Hit & Hp).
  assert (length (concat (mpBucket m)) = length l) as Hlen by (rewrite <- Hp; by rewrite length_fmap).
  unfold insertKeyAndValue. rewrite Er. cbn [obind fst snd]. unfold spec_insert. rewrite <- Hr.
  destruct r as [p|]; simpl fmap; cbn beta iota; [by eexists|]. fold (stored v).
  set (p := mkPair (next_addr m) k (hash_of k) (stored v)).
  destruct (insert_pair_spec (mkMap (to_size (mElements m + 1)) (mBucketBits m) (mpBucket m)
    (mIteratorList m) (S (next_addr m))) p) as (m' & E & Hadd); simpl; try done.
  - rewrite to_size_small by (unfold SIZE_MAX; lia). lia.
  - rewrite to_size_small by (unfold SIZE_MAX; lia). lia.
  - simpl in E. rewrite E. cbn [obind]. exists m'. split; [done|].
    destruct Hadd as (Hbits' & Hb' & Hperm & He' & Hit' & Hna). simpl in *. split; [|split].
    + split; [done|]. split; [done|]. split.
      * rewrite He', Hperm. rewrite to_size_small by (unfold SIZE_MAX; lia). simpl. lia.
      * rewrite Hna. eapply entries_ok_perm; [symmetry; exact Hperm|].
        by apply entries_ok_add.
    + congruence.
    + by rewrite Hperm, fmap_cons, Hp.
Qed.

(** ** Removal *)

Lemma detach_perm p b : p ∈ b -> NoDup (addr <$> b) -> b ≡ₚ p :: detach p b.
Proof.
  unfold detach. induction b as [|q b IH]; intros Hin Hnd; [set_solver|].
  simpl in Hnd. apply NoDup_cons in Hnd as [Hq Hnd]. rewrite filter_cons.
  apply elem_of_cons in Hin as [->|Hin].
  - rewrite decide_False by (intros E; by apply E). f_equiv.
    assert (forall c : list pair, addr q ∉ addr <$> c -> filter (fun r => addr r <> addr q) c = c) as Hid.
    { induction c as [|x c IHc]; intros Hx; [done|]. simpl in Hx. rewrite filter_cons, decide_True by set_solver.
      f_equal. apply IHc. set_solver. }
    by rewrite Hid.
  - rewrite decide_True.
    + rewrite (IH Hin Hnd) at 1. apply Permutation_swap.
    + intros E. apply Hq. rewrite E. by apply list_elem_of_fmap_2.
Qed.

Lemma StronglySorted_filter (R : pair -> pair -> Prop) (Q : pair -> Prop) `{forall x, Decision (Q x)} b :
  StronglySorted R b -> StronglySorted R (filter Q b).
Proof.
  induction 1 as [|x b Hs IH Hf]; [constructor|]. rewrite filter_cons. case_decide; [|done].
  constructor; [done|]. rewrite Forall_forall in *. intros y Hy. apply list_elem_of_filter in Hy as [_ Hy]. auto.
Qed.

Lemma detach_ok bits i p b : bucket_ok bits i b -> bucket_ok bits i (detach p b).
Proof.
  intros [Hd Hf]. split; [by apply StronglySorted_filter|]. rewrite Forall_forall in *.
  intros q Hq. apply list_elem_of_filter in Hq as [_ Hq]. auto.
Qed.

Lemma entries_ok_tail p ps next : entries_ok (p :: ps) next -> entries_ok ps next.
Proof.
  intros (Hnd & Hf & Hu). simpl in Hnd. apply NoDup_cons in Hnd as [_ Hnd].
  apply Forall_cons in Hf as [_ Hf]. split_and!; [done..|]. intros x y Hx Hy. apply Hu; set_solver.
Qed.

(** Only the entry removed has a key equal to the target. *)
Lemma remove_kv_tail k p (ps : list pair) next :
  entries_ok (p :: ps) next -> compare_to (key p) k = 0 ->
  remove_kv k (kv_of <$> p :: ps) = kv_of <$> ps.
Proof.
  intros (Hnd & _ & Hu) Hc. unfold remove_kv. rewrite fmap_cons, filter_cons, decide_False by (intros E; by apply E).
  simpl in Hnd. apply NoDup_cons in Hnd as [Hp _].
  assert (forall qs, qs ⊆ ps -> filter (fun kv => compare_to (fst kv) k <> 0) (kv_of <$> qs) = kv_of <$> qs) as Hid.
  { induction qs as [|q qs IH]; intros Hsub; [done|].
    rewrite fmap_cons, filter_cons, decide_True; [f_equal; apply IH; set_solver|].
    simpl. intros E. assert (q = p) as ->.
    { apply Hu; [set_solver..|]. eapply key_trans; [exact E|by apply key_sym]. }
    apply Hp, list_elem_of_fmap_2. set_solver. }
  by apply Hid.
Qed.

Lemma remove_kv_none k l : (forall kv, kv ∈ l -> compare_to (fst kv) k <> 0) -> remove_kv k l = l.
Proof.
  intros Hn. unfold remove_kv. induction l as [|kv l IH]; [done|].
  rewrite filter_cons, decide_True by (apply Hn; set_solver). f_equal. apply IH. set_solver.
Qed.

Lemma notify_none m : mIteratorList m = [] -> notifyIteratorsOfRemove m = Ok m.
Proof. intros E. unfold notifyIteratorsOfRemove. rewrite E. simpl. unfold with_iterators. rewrite <- E. by destruct m. Qed.

Lemma removeKeyAndValue_spec m l k :
  abstracts m l -> valid k -> Z.of_nat (length l) < 3 * 2 ^ 30 ->
  exists m', removeKeyAndValue m (Some k)
      = Ok (fst <$> find_kv k l, match find_kv k l with Some kv => snd kv | None => VNull end, m')
    /\ abstracts m' (remove_kv k l).
Proof.
  intros Ha Hk Hl. destruct (lookup_abstract m l k Ha Hk) as (r & Er & Hr & Hcase).
  pose proof Ha as ((Hbits & Hb & He & Hent) & Hit & Hp).
  assert (length (concat (mpBucket m)) = length l) as Hlen by (rewrite <- Hp; by rewrite length_fmap).
  unfold removeKeyAndValue. rewrite Er. cbn [obind fst snd]. rewrite <- Hr. destruct r as [p|]; simpl fmap; cbn beta iota.
  - destruct Hcase as (Hin & Hc & b & Eb & Hpb). rewrite notify_none by done. cbn [obind].
    unfold bucket_at. rewrite Eb. cbn [obind]. eexists. split; [done|].
    destruct (concat_insert (mpBucket m) _ b (detach p b) Eb) as (rest & Hold & Hnew).
    assert (NoDup (addr <$> b)) as Hndb.
    { destruct Hent as (Hnd & _). rewrite Hold, fmap_app in Hnd. by apply NoDup_app in Hnd as (? & _). }
    rewrite (detach_perm p b Hpb Hndb) in Hold. simpl in Hold. rewrite <- Hnew in Hold.
    apply (entries_ok_perm _ _ _ Hold) in Hent. split; [|split]; simpl.
    + split; [done|]. split; [|split].
      * destruct Hb as [Hlb Hb]. simpl. split; [by rewrite length_insert|]. intros i b' Hi.
        apply list_lookup_insert_Some in Hi as [(<- & <- & _)|(_ & Hi)]; [by apply detach_ok, Hb|by apply Hb].
      * simpl. rewrite Hold in Hlen. simpl in Hlen.
        rewrite He, Hold. simpl. rewrite to_size_small; unfold SIZE_MAX; lia.
      * by eapply entries_ok_tail.
    + done.
    + rewrite <- Hp, Hold. by rewrite (remove_kv_tail k p _ _ Hent Hc).
  - exists m. split; [done|]. replace (remove_kv k l) with l; [done|].
    symmetry. apply remove_kv_none. intros kv Hkv. rewrite <- Hp in Hkv.
    apply list_elem_of_fmap in Hkv as (p & -> & Hin). by apply Hcase.
Qed.

(** ** removeAll *)

Lemma concat_empty bs : concat bs = [] -> bs = replicate (length bs) [].
Proof.
  induction bs as [|b bs IH]; simpl; [done|]. intros E. apply app_eq_nil in E as [-> E].
  f_equal. auto.
Qed.

Lemma removeAll_bucket_spec m i b :
  mIteratorList m = [] -> mpBucket m !! i = Some b ->
  removeAll_bucket (length b) i m = Ok (with_buckets m (<[i := []]> (mpBucket m))).
Proof.
  revert m. induction b as [|p b IH]; intros m Hit Hb; simpl; rewrite Hb.
  - rewrite list_insert_id by done. by destruct m.
  - rewrite notify_none by done. cbn [obind].
    rewrite IH; [|done|simpl; apply list_lookup_insert_eq; by eapply lookup_lt_Some].
    unfold with_buckets. simpl. by rewrite list_insert_insert_eq.
Qed.

Lemma removeAll_loop_spec n i m :
  mIteratorList m = [] -> length (mpBucket m) = (i + n)%nat -> concat (take i (mpBucket m)) = [] ->
  Z.of_nat (length (concat (mpBucket m))) <= SIZE_MAX ->
  removeAll_loop n i (Z.of_nat (length (concat (mpBucket m)))) m
  = Ok (with_buckets m (replicate (length (mpBucket m)) [])).
Proof.
  revert i m. induction n as [|n IH]; intros i m Hit Hlen He Hmax; cbn [removeAll_loop].
  - rewrite take_ge in He by lia. rewrite <- (concat_empty _ He). by destruct m.
  - destruct (Z.eqb_spec (Z.of_nat (length (concat (mpBucket m)))) 0) as [Hz|Hz].
    + destruct (concat (mpBucket m)) eqn:Ec; [|simpl in Hz; lia].
      rewrite <- (concat_empty _ Ec). by destruct m.
    + destruct (lookup_lt_is_Some_2 (mpBucket m) i) as [b Hb]; [lia|]. rewrite Hb.
      rewrite (removeAll_bucket_spec m i b) by done. cbn [obind].
      destruct (concat_insert (mpBucket m) i b [] Hb) as (rest & Hold & Hnew).
      replace (to_size _) with (Z.of_nat (length (concat (<[i := []]> (mpBucket m))))).
      2: { apply Permutation_length in Hold, Hnew. rewrite length_app in Hold. simpl in Hnew.
           rewrite Hold, Hnew. rewrite to_size_small; lia. }
      pose proof (IH (S i) (with_buckets m (<[i := []]> (mpBucket m)))) as IHi. simpl in IHi. rewrite IHi; try done.
      * unfold with_buckets. simpl. by rewrite length_insert.
      * rewrite length_insert. lia.
      * rewrite (take_S_r _ _ []) by (apply list_lookup_insert_eq; by eapply lookup_lt_Some).
        by rewrite take_insert_ge, concat_app, He by lia.
      * apply Permutation_length in Hold, Hnew. rewrite length_app in Hold. simpl in Hnew. lia.
Qed.

Lemma removeAll_spec m l :
  abstracts m l -> Z.of_nat (length l) < 3 * 2 ^ 30 -> exists m', removeAll m = Ok m' /\ abstracts m' [].
Proof.
  intros ((Hbits & Hb & He & Hent) & Hit & Hp) Hl.
  assert (length (concat (mpBucket m)) = length l) as Hlen by (rewrite <- Hp; by rewrite length_fmap).
  unfold removeAll. rewrite He, (removeAll_loop_spec _ 0 m); [|done| |done|unfold SIZE_MAX; lia].
  2: { destruct Hb as [Hb _]. unfold numberOfBuckets. lia. }
  cbn [obind]. eexists; split; [done|].
  assert (concat (replicate (length (mpBucket m)) (@nil pair)) = []) as Hc by (by induction (length (mpBucket m))).
  split; [|split; [done|simpl; by rewrite Hc]]. split; [done|]. simpl. rewrite Hc. split_and!; try done.
  - split; [rewrite length_replicate; by destruct Hb|].
    intros i b Hi. apply lookup_replicate in Hi as [-> _]. split; by constructor.
  - split_and!; [by apply NoDup_nil|by apply Forall_nil|set_solver].
Qed.

(** ** Sequences of operations *)

Lemma hm_run_refines o m l :
  abstracts m l -> hm_valid o -> Z.of_nat (length l) + 1 < 3 * 2 ^ 30 ->
  exists m', hm_run o m = Ok (fst (hm_spec o l), m') /\ abstracts m' (snd (hm_spec o l)).
Proof.
  intros Ha Hv Hl. pose proof Ha as ((_ & _ & He & _) & _ & Hp).
  assert (entries m = Z.of_nat (length l)) as Hlen
    by (unfold entries; rewrite He, <- Hp; by rewrite length_fmap).
  destruct o as [[k|] v|[k|]|[k|]|[k|]|[k|]| |k|k|k| |]; cbn [hm_run];
    unfold insert, remove, destroy, contains, find, findValue, isEmpty in *; simpl in Hv; try (by eexists).
  - destruct (insertKeyAndValue_spec m l k v Ha Hv Hl) as (m' & -> & Ha'). by eexists.
  - destruct (insertKeyAndValue_spec m l k VNull Ha Hv Hl) as (m' & -> & Ha'). by eexists.
  - destruct (removeKeyAndValue_spec m l k Ha Hv) as (m' & -> & Ha'); [lia|]. eexists.
    split; [|exact Ha']. simpl. by destruct (find_kv k l) as [[k' v]|].
  - destruct (removeKeyAndValue_spec m l k Ha Hv) as (m' & -> & Ha'); [lia|]. by eexists.
  - destruct (removeKeyAndValue_spec m l k Ha Hv) as (m' & -> & Ha'); [lia|]. eexists.
    split; [|exact Ha']. simpl. by destruct (find_kv k l) as [[k' v]|].
  - destruct (removeAll_spec m l Ha) as (m' & -> & Ha'); [lia|]. by eexists.
  - destruct (lookup_abstract m l k Ha Hv) as (r & -> & Hr & _). exists m. split; [|done].
    simpl. rewrite <- Hr. by destruct r.
  - destruct (lookup_abstract m l k Ha Hv) as (r & -> & Hr & _). exists m. split; [|done].
    simpl. rewrite <- Hr. by destruct r.
  - destruct (lookup_abstract m l k Ha Hv) as (r & -> & Hr & _). exists m. split; [|done].
    simpl. rewrite <- Hr. by destruct r.
  - exists m. split; [|done]. simpl. by rewrite Hlen.
  - exists m. split; [|done]. simpl. by rewrite Hlen.
Qed.

Lemma hm_spec_length o l : (length (snd (hm_spec o l)) <= S (length l))%nat.
Proof.
  assert (forall k, length (remove_kv k l) <= S (length l))%nat as Hr.
  { intros k. unfold remove_kv. pose proof (length_filter (fun kv : K * vptr V => compare_to (fst kv) k <> 0) l). lia. }
  destruct o as [[k|] v|[k|]|[k|]|[k|]|[k|]| |k|k|k| |]; simpl; try done; try lia; try apply Hr;
    destruct (find_kv k l); simpl; lia.
Qed.

(** C32: Any sequence of UtlHashMap operations on a map with the entries [l],
    no iterator and less than 3*2^30 entries ends without undefined
    behaviour (through every resize), returns what the same operations
    return on the association list [l] and leaves the invariant: every key
    is in the bucket its hash selects, keys are unique, the counter is exact
    and the bucket bits stay within an int shift. *)
Theorem hm_runs_refine os m l :
  abstracts m l -> Forall hm_valid os -> Z.of_nat (length l) + Z.of_nat (length os) < 3 * 2 ^ 30 ->
  exists m', hm_runs os m = Ok (fst (hm_specs os l), m') /\ abstracts m' (snd (hm_specs os l)).
Proof.
  intros Ha Hos Hl. revert m l Ha Hl.
  induction Hos as [|o os Hv Hos IH]; intros m l Ha Hl; cbn [hm_runs hm_specs]; [by eexists|].
  simpl in Hl. destruct (hm_run_refines o m l Ha Hv) as (m1 & -> & Ha1); [lia|]. cbn [obind fst snd].
  pose proof (hm_spec_length o l).
  destruct (IH m1 _ Ha1) as (m2 & -> & Ha2); [lia|]. by eexists.
Qed.

Lemma default_abstracts : abstracts UtlHashMap_default [].
Proof.
  destruct (new_buckets_ok HASHMAP_INITIAL_BUCKET_BITS) as [Hok Hempty].
  unfold abstracts, hm_inv, UtlHashMap_default. simpl mpBucket. rewrite Hempty. simpl.
  split_and!; try done; unfold HASHMAP_INITIAL_BUCKET_BITS; try lia; try apply Hok.
  split_and!; [by apply NoDup_nil|by apply Forall_nil|set_solver].
Qed.

End Spec.

(** ** Concrete maps *)

(** Fifty one-byte keys: the 48th insertion doubles the buckets. *)
Definition sample_keys : list (list ascii) := (fun i => [chr (Z.of_nat i)]) <$> seq 1 50.

Definition sample_hops : list (hop (K := list ascii) (V := nat)) :=
  ((fun k => HInsertKeyAndValue (Some k) (VObj 7%nat)) <$> sample_keys)
  ++ [HFind (bytes "!"); HInsert (Some (bytes "!")); HInsert (Some (bytes "xyz")); HFindValue (bytes "xyz");
      HFindValue (bytes "!"); HRemove (Some (bytes "!")); HContains (bytes "!"); HEntries].

Lemma hm_runs_refine_witness :
  exists m', hm_runs sample_hops UtlHashMap_default
    = Ok (((fun k => HKey (Some k)) <$> sample_keys)
          ++ [HKey (Some (bytes "!")); HKey None; HKey (Some (bytes "xyz")); HValue VNull;
              HValue (VObj 7%nat); HKey (Some (bytes "!")); HBool false; HNum 50], m')
    /\ (1 <= mBucketBits m' <= 30)%nat.
Proof.
  destruct (hm_runs_refine sample_hops UtlHashMap_default []) as (m' & E & ((Hb & _) & _)).
  - apply default_abstracts.
  - assert (Forall nul_free (sample_keys ++ [bytes "!"; bytes "xyz"])) as Hf
      by (apply (bool_decide_unpack _); vm_compute; done).
    unfold sample_hops. apply Forall_app. split.
    + apply Forall_fmap. apply Forall_app in Hf as [Hf _]. eapply Forall_impl; [exact Hf|]. done.
    + apply Forall_app in Hf as [_ Hf]. apply Forall_cons in Hf as [H1 Hf]. apply Forall_cons in Hf as [H2 _].
      repeat apply Forall_cons_2; try apply Forall_nil_2; simpl; done.
  - vm_compute. done.
  - exists m'. split; [rewrite E; f_equal; f_equal; vm_compute; reflexivity|done].
Defined.

(** Removing an entry steps every iterator back that stands on an
    entry, whichever entry is removed: the condition of
    UtlHashMapIterator::removing assigns instead of comparing. *)
Theorem removing_moves_every_iterator {K V} `{Containable K} (m m' : UtlHashMap K V) k rk v j it c :
  removeKeyAndValue m (Some k) = Ok (Some rk, v, m') ->
  mIteratorList m !! j = Some it -> mpCurrentPair it = Some c ->
  exists p, prev_of m c = Ok p /\ mIteratorList m' !! j = Some (mkIter (mPosition it) p false).
Proof.
  intros E Hj Hc. unfold removeKeyAndValue in E.
  destruct (lookup m k) as [[bn [q|]]| | |]; cbn [obind fst snd] in E; try done.
  unfold notifyIteratorsOfRemove in E.
  destruct (notify m (mIteratorList m)) as [its| | |] eqn:En; cbn [obind] in E; try done.
  destruct (bucket_at _ _) as [b| | |]; cbn [obind] in E; try done. injection E as _ _ <-. simpl.
  clear -En Hj Hc. revert j its Hj En. induction (mIteratorList m) as [|i l IH]; intros j its Hj En; [done|].
  simpl in En. destruct (removing m i) as [i1| | |] eqn:Er; cbn [obind] in En; try done.
  destruct (notify m l) as [l1| | |]; cbn [obind] in En; try done. injection En as <-.
  destruct j as [|j]; simpl in Hj |- *; [|by apply IH].
  injection Hj as ->. unfold removing in Er. rewrite Hc in Er.
  destruct (prev_of m c) as [p| | |]; cbn [obind] in Er; try done. injection Er as <-. by exists p.
Qed.

(** Three entries, "b" in one bucket, "p" before "a" in another, and an
    iterator that has returned all three. *)
Definition iterated_map : outcome (UtlHashMap (list ascii) nat) :=
  let! r1 := insert UtlHashMap_default (Some (bytes "a")) in
  let! r2 := insert (snd r1) (Some (bytes "p")) in
  let! r3 := insert (snd r2) (Some (bytes "b")) in
  let! c1 := iter_call (iter_new (snd r3)) 0 in
  let! c2 := iter_call (snd c1) 0 in
  let! c3 := iter_call (snd c2) 0 in
  if bool_decide ([fst c1; fst c2; fst c3] = [Some (bytes "b"); Some (bytes "p"); Some (bytes "a")])
  then Ok (snd c3) else AssertFail.

Lemma removing_moves_every_iterator_witness :
  exists m m', iterated_map = Ok m
    /\ removeKeyAndValue m (Some (bytes "b")) = Ok (Some (bytes "b"), InternalNull, m')
    /\ mIteratorList m !! 0%nat = Some (mkIter 7 (Some 0%nat) true)
    /\ exists p, prev_of m 0 = Ok p /\ mIteratorList m' !! 0%nat = Some (mkIter 7 p false).
Proof.
  eexists _, _. split; [vm_compute; reflexivity|]. split; [vm_compute; reflexivity|].
  split; [reflexivity|].
  apply (removing_moves_every_iterator _ _ (bytes "b") (bytes "b") InternalNull 0%nat
    (mkIter 7 (Some 0%nat) true) 0%nat); [vm_compute; reflexivity|reflexivity|reflexivity].
Defined.

(** After the iterator returned the last entry "a", removing the other
    entry "b" makes it return "a" a second time; removing "p", which
    precedes "a" in its bucket, leaves it on the released pair. *)
Theorem iterator_broken_by_removal :
  (exists m m1 m2, iterated_map = Ok m
     /\ removeKeyAndValue m (Some (bytes "b")) = Ok (Some (bytes "b"), InternalNull, m1)
     /\ iter_call m1 0 = Ok (Some (bytes "a"), m2))
  /\ (exists m m1, iterated_map = Ok m
     /\ removeKeyAndValue m (Some (bytes "p")) = Ok (Some (bytes "p"), InternalNull, m1)
     /\ iter_call m1 0 = UB).
Proof.
  split; [eexists _, _, _|eexists _, _]; (split; [vm_compute; reflexivity|]);
    (split; [vm_compute; reflexivity|]); vm_compute; reflexivity.
Qed.
