(* ===== verification/UtlHashMapIterSpec.v ===== *)
(** * Iterating over a UtlHashMap

    On a map that is not changed, an iterator returns every key once, bucket
    by bucket; [copyInto], which is written with such an iterator, adds to
    the other map the entries it does not have. *)
From Stdlib Require Import ZArith Lia Ascii String.
From stdpp Require Import base list sets gmap sorting.
From S2P Require Import Prelude UtlString UtlStringRefine Containable UtlHashMap UtlHashMapSpec.
Local Open Scope Z_scope.

Section Iterate.
Context {K V : Type} `{EqualLaws K valid}.
Abbreviation pair := (UtlPair K V).
Abbreviation hmap := (UtlHashMap K V).
Abbreviation inv := (hm_inv (valid := valid)).
Implicit Types (m : hmap) (p q : pair) (b : list pair) (bs : list (list pair)).

(** The pairs the iterator has still to return. *)
Definition iter_at m (it : UtlHashMapIterator) (pend : list pair) : Prop :=
  (numberOfBuckets m <= mPosition it /\ pend = [])
  \/ exists i, mPosition it = Z.of_nat i /\ (i < length (mpBucket m))%nat
     /\ ((mpCurrentPair it = None /\ pend = concat (drop i (mpBucket m)))
         \/ exists b1 p b2, mpBucket m !! i = Some (b1 ++ p :: b2) /\ mpCurrentPair it = Some (addr p)
              /\ pend = b2 ++ concat (drop (S i) (mpBucket m))).

Lemma next_in_absent a b : a ∉ addr <$> b -> next_in a b = None.
Proof.
  induction b as [|q b IH]; simpl; [done|]. intros Ha. rewrite bool_decide_false by set_solver.
  apply IH. set_solver.
Qed.

Lemma next_in_middle p b1 b2 : addr p ∉ addr <$> b1 -> next_in (addr p) (b1 ++ p :: b2) = Some (head b2).
Proof.
  induction b1 as [|q b1 IH]; simpl; intros Ha.
  - by rewrite bool_decide_true.
  - rewrite bool_decide_false by set_solver. apply IH. set_solver.
Qed.

Lemma concat_middle bs i b :
  bs !! i = Some b -> concat bs = concat (take i bs) ++ b ++ concat (drop (S i) bs).
Proof. intros Hb. rewrite <- (take_drop_middle bs i b) at 1 by done. by rewrite concat_app. Qed.

Lemma omap_absent a bs : a ∉ addr <$> concat bs -> omap (next_in a) bs = [].
Proof.
  induction bs as [|b bs IH]; simpl; [done|]. rewrite fmap_app. intros Ha.
  rewrite next_in_absent by set_solver. apply IH. set_solver.
Qed.

Lemma next_of_spec m i b1 p b2 :
  NoDup (addr <$> concat (mpBucket m)) -> mpBucket m !! i = Some (b1 ++ p :: b2) ->
  next_of m (addr p) = Ok (head b2).
Proof.
  intros Hnd Hb. unfold next_of. rewrite (concat_middle _ _ _ Hb) in Hnd.
  rewrite !fmap_app, fmap_cons in Hnd. apply NoDup_app in Hnd as (_ & Hd & Hnd).
  apply NoDup_app in Hnd as (Hnd & _). apply NoDup_app in Hnd as (_ & Hd2 & _).
  rewrite <- (take_drop_middle _ i _ Hb). rewrite omap_app, omap_absent.
  - simpl. rewrite next_in_middle; [done|]. intros Hin. apply (Hd2 (addr p)); [done|set_solver].
  - intros Hin. apply (Hd (addr p)); [done|set_solver].
Qed.

Lemma next_bucket_Some fuel m pos p : next_bucket (S fuel) m pos (Some p) = Ok (pos, Some p).
Proof. done. Qed.

(** The loop over the buckets finds the next non-empty one. *)
Lemma next_bucket_spec fuel m i :
  Z.of_nat (length (mpBucket m)) = numberOfBuckets m -> (i < length (mpBucket m))%nat ->
  (length (mpBucket m) - i <= fuel)%nat ->
  match concat (drop (S i) (mpBucket m)) with
  | [] => next_bucket fuel m (Z.of_nat i) None = Ok (numberOfBuckets m, None)
  | p :: rest => exists j b2, next_bucket fuel m (Z.of_nat i) None = Ok (Z.of_nat j, Some p)
      /\ mpBucket m !! j = Some (p :: b2) /\ rest = b2 ++ concat (drop (S j) (mpBucket m))
  end.
Proof.
  intros Hn. revert i. induction fuel as [|fuel IH]; intros i Hi Hf; [lia|]. cbn [next_bucket].
  destruct (Z.ltb_spec (Z.of_nat i + 1) (numberOfBuckets m)) as [Hlt|Hge].
  - destruct (lookup_lt_is_Some_2 (mpBucket m) (S i)) as [b Hb]; [lia|].
    rewrite (drop_S _ _ _ Hb). simpl concat. unfold bucket_at.
    replace (Z.to_nat (Z.of_nat i + 1)) with (S i) by lia. rewrite Hb. cbn [obind].
    replace (Z.of_nat i + 1) with (Z.of_nat (S i)) by lia. destruct b as [|p b].
    + simpl head. apply IH; lia.
    + simpl. exists (S i), b. by destruct fuel.
  - rewrite drop_ge by lia. simpl. do 2 f_equal. lia.
Qed.

(** One call of the iterator. *)
Lemma iter_next_spec m it pend :
  inv m -> iter_at m it pend ->
  match pend with
  | [] => exists it', iter_next m it = Ok (None, it') /\ iter_at m it' []
  | p :: rest => exists it', iter_next m it = Ok (Some (key p), it') /\ iter_at m it' rest
      /\ mpCurrentPair it' = Some (addr p) /\ mPairIsValid it' = true /\ mPosition it' < numberOfBuckets m
  end.
Proof.
  intros (_ & Hb & _ & (Hnd & _)) Hat. assert (Z.of_nat (length (mpBucket m)) = numberOfBuckets m) as Hn by apply Hb.
  unfold iter_next. destruct Hat as [[Hpos ->]|(i & Hpos & Hi & Hcur)].
  - destruct (Z.ltb_spec (mPosition it) (numberOfBuckets m)); [lia|]. eexists; split; [done|]. by left.
  - destruct (Z.ltb_spec (mPosition it) (numberOfBuckets m)); [|lia]. rewrite Hpos.
    assert (exists o b1 b2, (match mpCurrentPair it with
        | Some c => next_of m c
        | None => let! b := bucket_at m (Z.of_nat i) in Ok (head b) end) = Ok o
      /\ mpBucket m !! i = Some (b1 ++ b2) /\ o = head b2
      /\ pend = b2 ++ concat (drop (S i) (mpBucket m))) as (o & b1 & b2 & -> & Hbi & -> & ->).
    { destruct Hcur as [[-> ->]|(b1 & p & b2 & Hbi & -> & ->)].
      - destruct (lookup_lt_is_Some_2 (mpBucket m) i Hi) as [b Hbi]. unfold bucket_at.
        rewrite Nat2Z.id, Hbi. cbn [obind]. exists (head b), [], b. rewrite (drop_S _ _ _ Hbi). done.
      - exists (head b2), (b1 ++ [p]), b2. rewrite <- app_assoc. rewrite (next_of_spec m i b1 p b2); done. }
    cbn [obind]. destruct b2 as [|p b2].
    + change (head (@nil pair)) with (@None pair). rewrite app_nil_l. pose proof (next_bucket_spec (S (Z.to_nat (numberOfBuckets m))) m i Hn Hi) as Hnb.
      destruct (concat (drop (S i) (mpBucket m))) as [|p rest].
      * rewrite Hnb by lia. cbn [obind fst snd]. eexists; split; [done|]. left. simpl. split; [lia|done].
      * destruct Hnb as (j & b2 & -> & Hj & ->); [lia|]. cbn [obind fst snd]. eexists; split; [done|].
        apply lookup_lt_Some in Hj as Hlt. split; [|split_and!; simpl; (done || lia)].
        right. exists j. split_and!; [done|done|]. right. by exists [], p, b2.
    + change (head (p :: b2)) with (Some p). rewrite next_bucket_Some. cbn [obind fst snd]. eexists; split; [done|].
      split; [|split_and!; simpl; (done || lia)].
      right. exists i. split_and!; [done|done|]. right. by exists b1, p, b2.
Qed.

Lemma iter_init_at m : inv m -> iter_at m iter_init (concat (mpBucket m)).
Proof.
  intros (_ & (Hl & _) & _ & _). pose proof (NUM_pos (mBucketBits m)). right. exists 0%nat.
  split_and!; [done|lia|]. left. done.
Qed.

(** The keys an iterator returns in [n] calls. *)
Fixpoint iter_calls (n : nat) m (it : UtlHashMapIterator) : outcome (list (option K)) :=
  match n with
  | O => Ok []
  | S n' => let! r := iter_next m it in let! l := iter_calls n' m (snd r) in Ok (fst r :: l)
  end.

(** On an unchanged map, a new iterator returns every key of the map
    exactly once and then, however often it is called, NULL. *)
Theorem iterator_visits_all m n :
  inv m ->
  iter_calls (length (concat (mpBucket m)) + n) m iter_init
  = Ok ((Some ∘ key <$> concat (mpBucket m)) ++ replicate n None).
Proof.
  intros Hinv. pose proof (iter_init_at m Hinv) as Hat. revert Hat. generalize iter_init as it.
  generalize (concat (mpBucket m)) as pend. induction pend as [|p pend IH]; intros it Hat; simpl.
  - revert it Hat. induction n as [|n IHn]; intros it Hat; simpl; [done|].
    destruct (iter_next_spec m it [] Hinv Hat) as (it' & -> & Hat'). cbn [obind fst snd].
    by rewrite (IHn it' Hat').
  - destruct (iter_next_spec m it (p :: pend) Hinv Hat) as (it' & -> & Hat' & _). cbn [obind fst snd].
    by rewrite (IH it' Hat').
Qed.

(** ** copyInto *)

Lemma iter_at_in m it pend : iter_at m it pend -> pend ⊆ concat (mpBucket m).
Proof.
  intros [[_ ->]|(i & _ & Hi & [[_ ->]|(b1 & p & b2 & Hb & _ & ->)])]; [set_solver| |].
  - rewrite <- (take_drop i (mpBucket m)) at 2. rewrite concat_app. set_solver.
  - rewrite (concat_middle _ _ _ Hb). set_solver.
Qed.

Lemma addr_inj (ps : list pair) p q :
  NoDup (addr <$> ps) -> p ∈ ps -> q ∈ ps -> addr p = addr q -> p = q.
Proof.
  intros Hnd [i Hi]%list_elem_of_lookup [j Hj]%list_elem_of_lookup E.
  assert (i = j) as ->; [|congruence].
  eapply (NoDup_lookup _ _ _ (addr p) Hnd); rewrite list_lookup_fmap.
  - by rewrite Hi.
  - rewrite Hj. simpl. by rewrite E.
Qed.

Lemma pair_at_spec m p : inv m -> p ∈ concat (mpBucket m) -> pair_at m (addr p) = Ok p.
Proof.
  intros (_ & _ & _ & (Hnd & _)) Hp. unfold pair_at.
  destruct (filter (fun q => addr q = addr p) (concat (mpBucket m))) as [|q f] eqn:E.
  - assert (p ∈ filter (fun q => addr q = addr p) (concat (mpBucket m))) as Hf
      by (apply list_elem_of_filter; done).
    rewrite E in Hf. set_solver.
  - assert (q ∈ filter (fun q => addr q = addr p) (concat (mpBucket m))) as Hf by (rewrite E; set_solver).
    apply list_elem_of_filter in Hf as [Hq Hin]. f_equal. by eapply addr_inj.
Qed.

Lemma find_kv_elem k (l : list (K * vptr V)) x :
  find_kv k l = Some x -> compare_to (fst x) k = 0 /\ x ∈ l.
Proof.
  unfold find_kv. intros E. destruct (filter _ l) as [|y f] eqn:Ef; [done|]. injection E as ->.
  assert (x ∈ filter (fun kv => compare_to (fst kv) k = 0) l) as Hx by (rewrite Ef; set_solver).
  by apply list_elem_of_filter in Hx.
Qed.

Lemma find_kv_none_elem k (l : list (K * vptr V)) x :
  find_kv k l = None -> x ∈ l -> compare_to (fst x) k <> 0.
Proof.
  unfold find_kv. intros E Hx Hc.
  assert (x ∈ filter (fun kv => compare_to (fst kv) k = 0) l) as Hf by (by apply list_elem_of_filter).
  destruct (filter _ l); [set_solver|done].
Qed.

Lemma find_kv_perm m l k :
  abstracts (valid := valid) m l -> find_kv k (kv_of <$> concat (mpBucket m)) = find_kv k l.
Proof.
  intros Ha. pose proof (abstracts_unique m l Ha) as Hu. destruct Ha as (_ & _ & Hp).
  destruct (find_kv k (kv_of <$> concat (mpBucket m))) as [x|] eqn:E.
  - apply find_kv_elem in E as [Hc Hin]. rewrite Hp in Hin. symmetry. by apply find_kv_Some.
  - symmetry. apply find_kv_None. intros kv Hin. rewrite <- Hp in Hin. by eapply find_kv_none_elem.
Qed.

Definition add_kv (acc : list (K * vptr V)) (kv : K * vptr V) : list (K * vptr V) :=
  snd (spec_insert (Some (fst kv)) (shown (snd kv)) acc).

Lemma add_kv_length acc kv : (length (add_kv acc kv) <= S (length acc))%nat.
Proof. unfold add_kv, spec_insert. destruct (find_kv _ _); simpl; lia. Qed.

Lemma copy_loop_spec m it pend into (l : list (K * vptr V)) :
  inv m -> iter_at m it pend -> abstracts (valid := valid) into l ->
  Z.of_nat (length l) + Z.of_nat (length pend) < 3 * 2 ^ 30 ->
  exists into', copy_loop (S (length pend)) m it into = Ok into'
    /\ abstracts (valid := valid) into' (foldl add_kv l (kv_of <$> pend)).
Proof.
  intros Hinv. revert it into l. induction pend as [|p pend IH]; intros it into l Hat Ha Hl.
  - destruct (iter_next_spec m it [] Hinv Hat) as (it' & E & _). simpl. rewrite E. cbn [obind fst]. by eexists.
  - destruct (iter_next_spec m it (p :: pend) Hinv Hat) as (it' & E & Hat' & Hc & Hval & Hpos).
    assert (p ∈ concat (mpBucket m)) as Hp by (apply (iter_at_in _ _ _ Hat); set_solver).
    remember (S (length pend)) as fuel eqn:Hfuel. cbn [length copy_loop]. rewrite E. cbn [obind fst snd].
    unfold iter_key, iter_value. rewrite Hc, Hval.
    destruct (Z.ltb_spec (mPosition it') (numberOfBuckets m)); [|lia]. simpl andb. cbn beta iota.
    rewrite (pair_at_spec m p Hinv Hp). cbn [obind].
    assert (valid (key p)) as Hv.
    { destruct Hinv as (_ & _ & _ & (_ & Hf & _)). rewrite Forall_forall in Hf. by apply Hf. }
    simpl in Hl. destruct (insertKeyAndValue_spec into l (key p) (shown (value p)) Ha Hv) as (into1 & E1 & Ha1); [lia|].
    unfold shown in E1. rewrite E1. cbn [obind snd].
    pose proof (add_kv_length l (kv_of p)).
    destruct (IH it' into1 (add_kv l (kv_of p)) Hat' Ha1) as (into2 & E2 & Ha2); [lia|]. subst fuel. by exists into2.
Qed.

Lemma iter_delete_spec m (l : list (K * vptr V)) :
  abstracts (valid := valid) m l -> Z.of_nat (length l) < 3 * 2 ^ 30 ->
  exists m', iter_delete (iter_new m) (length (mIteratorList m)) = Ok m' /\ abstracts (valid := valid) m' l.
Proof.
  intros Ha Hl. pose proof Ha as ((Hbits & Hb & He & Hent) & Hit & Hp).
  assert (length (concat (mpBucket m)) = length l) as Hlen by (rewrite <- Hp; by rewrite length_fmap).
  unfold iter_delete, resizeIfNeededAndSafe.
  assert (with_iterators (iter_new m) (delete (length (mIteratorList m)) (mIteratorList (iter_new m))) = m) as ->
    by (unfold iter_new; destruct m; simpl in *; by subst).
  destruct (resize_needed m) eqn:Hr; [|by exists m].
  destruct (resize_with_spec depth m) as (bits & bs & -> & Hbits' & Hok & Hperm & _); try done; [lia|].
  eexists; split; [done|]. split; [|split; [done|simpl; by rewrite Hperm]].
  split; [done|]. simpl. split; [done|]. split; [by rewrite Hperm|].
  eapply entries_ok_perm; [|exact Hent]. by rewrite Hperm.
Qed.

Lemma find_add_kv k (acc : list (K * vptr V)) kv :
  find_kv k (add_kv acc kv)
  = match find_kv k acc with
    | Some x => Some x
    | None => if decide (compare_to (fst kv) k = 0) then Some (fst kv, stored (snd kv)) else None
    end.
Proof.
  unfold add_kv, spec_insert. destruct (find_kv (fst kv) acc) as [x|] eqn:E; simpl.
  - destruct (find_kv k acc) as [y|] eqn:Ek; [done|]. case_decide as Hc; [|done]. exfalso.
    apply find_kv_elem in E as [Hx Hin]. apply (find_kv_none_elem _ _ _ Ek Hin).
    by eapply key_trans.
  - unfold find_kv at 1. rewrite filter_cons. simpl. replace (stored (shown (snd kv))) with (stored (snd kv))
      by (by destruct (snd kv)).
    case_decide as Hc; [|fold (find_kv k acc); by destruct (find_kv k acc)]. simpl.
    destruct (find_kv k acc) as [y|] eqn:Ek; [|done]. exfalso.
    apply find_kv_elem in Ek as [Hy Hin]. apply (find_kv_none_elem _ _ _ E Hin).
    eapply key_trans; [exact Hy|by apply key_sym].
Qed.

Lemma find_foldl_add k (kvs acc : list (K * vptr V)) :
  find_kv k (foldl add_kv acc kvs)
  = match find_kv k acc with
    | Some x => Some x
    | None => (fun kv => (fst kv, stored (snd kv))) <$> find_kv k kvs
    end.
Proof.
  revert acc. induction kvs as [|kv kvs IH]; intros acc; simpl; [by destruct (find_kv k acc)|].
  rewrite IH, find_add_kv. destruct (find_kv k acc); [done|].
  unfold find_kv at 2. rewrite filter_cons. by case_decide.
Qed.

(** copyInto leaves the source map with its entries and adds to the
    target exactly the entries whose keys it did not have. *)
Theorem copyInto_spec m into (l l' : list (K * vptr V)) :
  abstracts (valid := valid) m l -> abstracts (valid := valid) into l' ->
  Z.of_nat (length l) + Z.of_nat (length l') < 3 * 2 ^ 30 ->
  exists m2 into2 l2, copyInto m into = Ok (m2, into2)
    /\ abstracts (valid := valid) m2 l /\ abstracts (valid := valid) into2 l2
    /\ forall k, find_kv k l2 = match find_kv k l' with
                               | Some x => Some x
                               | None => (fun kv => (fst kv, stored (snd kv))) <$> find_kv k l
                               end.
Proof.
  intros Ha Ha' Hl. pose proof Ha as (Hinv & Hit & Hp).
  assert (length (concat (mpBucket m)) = length l) as Hlen by (rewrite <- Hp; by rewrite length_fmap).
  assert (inv (iter_new m)) as Hinv1 by exact Hinv.
  destruct (copy_loop_spec (iter_new m) iter_init _ into l' Hinv1 (iter_init_at _ Hinv1) Ha')
    as (into2 & E & Ha2); [simpl; lia|].
  destruct (iter_delete_spec m l Ha) as (m2 & E2 & Hm2); [lia|].
  exists m2, into2, (foldl add_kv l' (kv_of <$> concat (mpBucket m))).
  unfold copyInto. simpl mpBucket in E. rewrite E. cbn [obind]. rewrite E2. split; [done|]. split; [done|].
  split; [done|]. intros k. rewrite find_foldl_add. destruct (find_kv k l'); [done|]. f_equal.
  by apply (find_kv_perm m l).
Qed.

(** A key inserted without a value is looked up with a NULL value, but
    removeKeyAndValue hands out the internal null object for it: the test
    for INTERNAL_NULL is overwritten after the pair is detached. *)
Theorem removeKeyAndValue_leaks_internal_null m (l : list (K * vptr V)) k :
  abstracts (valid := valid) m l -> valid k -> find_kv k l = None ->
  Z.of_nat (length l) + 1 < 3 * 2 ^ 30 ->
  exists m1 m2, insert m (Some k) = Ok (Some k, m1) /\ findValue m1 k = Ok VNull
    /\ removeKeyAndValue m1 (Some k) = Ok (Some k, InternalNull, m2).
Proof.
  intros Ha Hk Hn Hl. destruct (insertKeyAndValue_spec m l k VNull Ha Hk Hl) as (m1 & E1 & Ha1).
  unfold spec_insert in *. rewrite Hn in E1, Ha1. simpl in E1, Ha1.
  assert (find_kv k ((k, InternalNull) :: l) = Some (k, @InternalNull V)) as Hf
    by (unfold find_kv; rewrite filter_cons, decide_True; [done|apply key_refl]).
  destruct (lookup_abstract m1 _ k Ha1 Hk) as (r & El & Hr & _). rewrite Hf in Hr.
  destruct r as [p|]; [|done]. injection Hr as Hk1 Hv1.
  assert (insert m (Some k) = Ok (Some k, m1)) as Hi by exact E1.
  destruct (removeKeyAndValue_spec m1 _ k Ha1 Hk) as (m2 & E2 & _); [simpl; lia|]. rewrite Hf in E2.
  exists m1, m2. split; [done|]. split; [|done]. unfold findValue. rewrite El. simpl. by rewrite Hv1.
Qed.

End Iterate.

(** ** Concrete maps *)

Definition abp_ops : list (hop (K := list ascii) (V := nat)) :=
  [HInsertKeyAndValue (Some (bytes "a")) (VObj 1%nat); HInsert (Some (bytes "p"));
   HInsertKeyAndValue (Some (bytes "b")) (VObj 2%nat)].

Definition abp : UtlHashMap (list ascii) nat :=
  match hm_runs abp_ops UtlHashMap_default with Ok r => snd r | _ => UtlHashMap_default end.

Lemma abp_abstracts :
  abstracts (valid := nul_free) abp [(bytes "b", VObj 2%nat); (bytes "p", InternalNull); (bytes "a", VObj 1%nat)].
Proof.
  destruct (hm_runs_refine (valid := nul_free) abp_ops UtlHashMap_default []) as (m' & E & Ha).
  - apply default_abstracts.
  - repeat apply Forall_cons_2; try apply Forall_nil_2; simpl; apply (bool_decide_unpack _); vm_compute; done.
  - vm_compute. done.
  - unfold abp. rewrite E. exact Ha.
Qed.

Lemma iterator_visits_all_witness :
  iter_calls (length (concat (mpBucket abp)) + 2) abp iter_init
  = Ok [Some (bytes "b"); Some (bytes "p"); Some (bytes "a"); None; None].
Proof.
  rewrite (iterator_visits_all (valid := nul_free) abp 2); [vm_compute; reflexivity|apply abp_abstracts].
Defined.

Lemma copyInto_spec_witness :
  exists m2 into2 l2, copyInto abp UtlHashMap_default = Ok (m2, into2)
    /\ abstracts (valid := nul_free) into2 l2 /\ find_kv (bytes "b") l2 = Some (bytes "b", VObj 2%nat)
    /\ find_kv (bytes "z") l2 = None.
Proof.
  destruct (copyInto_spec (valid := nul_free) abp UtlHashMap_default _ [] abp_abstracts)
    as (m2 & into2 & l2 & E & _ & Ha & Hf).
  - apply default_abstracts.
  - vm_compute. done.
  - exists m2, into2, l2. split; [exact E|]. split; [exact Ha|]. rewrite !Hf. split; vm_compute; reflexivity.
Defined.

Lemma removeKeyAndValue_leaks_internal_null_witness :
  exists m1 m2, insert abp (Some (bytes "k")) = Ok (Some (bytes "k"), m1)
    /\ findValue m1 (bytes "k") = Ok VNull
    /\ removeKeyAndValue m1 (Some (bytes "k")) = Ok (Some (bytes "k"), InternalNull, m2).
Proof.
  apply (removeKeyAndValue_leaks_internal_null (valid := nul_free) abp _ (bytes "k") abp_abstracts).
  - apply (bool_decide_unpack _). vm_compute. done.
  - vm_compute. reflexivity.
  - vm_compute. done.
Defined.
