(* ===== verification/UtlHashMapWalk.v ===== *)
(** * Walking through a UtlHashMap and removing on the way

    A loop over a UtlHashMapIterator may remove the entry it stands on (its
    iterator is then moved back to the previous entry of the bucket): it still
    meets every other entry exactly once. *)
From Stdlib Require Import ZArith Lia Ascii String.
From stdpp Require Import base list sets gmap sorting.
From S2P Require Import Prelude Containable UtlHashMap UtlHashMapSpec UtlHashMapIterSpec.
Local Open Scope Z_scope.

Section Walk.
Context {K V : Type} `{EqualLaws K valid}.
Abbreviation pair := (UtlPair K V).
Abbreviation hmap := (UtlHashMap K V).
Abbreviation inv := (hm_inv (valid := valid)).
Implicit Types (m : hmap) (p q : pair) (b : list pair) (bs : list (list pair)).

(** The one iterator of the map has still to return [pend]. *)
Definition walking m (pend : list pair) : Prop :=
  inv m /\ exists it, mIteratorList m = [it] /\ iter_at m it pend.

(** It stands on [p]. *)
Definition standing m p (pend : list pair) : Prop :=
  inv m /\ exists it i b1 b2, mIteratorList m = [it] /\ mPosition it = Z.of_nat i /\ mpBucket m !! i = Some (b1 ++ p :: b2)
    /\ mpCurrentPair it = Some (addr p) /\ mPairIsValid it = true /\ pend = b2 ++ concat (drop (S i) (mpBucket m)).

Lemma standing_in m p pend : standing m p pend -> p ∈ concat (mpBucket m).
Proof.
  intros (_ & it & i & b1 & b2 & _ & _ & Hb & _). rewrite (concat_middle _ _ _ Hb). set_solver.
Qed.

Lemma standing_walking m p pend : standing m p pend -> walking m pend.
Proof.
  intros (Hi & it & i & b1 & b2 & Hl & Hp & Hb & Hc & _ & ->). split; [done|]. exists it. split; [done|].
  right. exists i. apply lookup_lt_Some in Hb as Hlt. split_and!; [done|done|]. right. eauto 6.
Qed.

Lemma walk_start m : inv m -> mIteratorList m = [] -> walking (iter_new m) (concat (mpBucket m)).
Proof.
  intros Hi Hl. split; [exact Hi|]. exists iter_init. split; [unfold iter_new; simpl; by rewrite Hl|].
  exact (iter_init_at (iter_new m) Hi).
Qed.

(** [itor()] *)
Lemma walk_next m pend :
  walking m pend ->
  match pend with
  | [] => exists m', iter_call m 0 = Ok (None, m') /\ walking m' [] /\ mpBucket m' = mpBucket m
  | p :: rest => exists m', iter_call m 0 = Ok (Some (key p), m') /\ standing m' p rest /\ mpBucket m' = mpBucket m
  end.
Proof.
  intros (Hi & it & Hl & Hat). unfold iter_call. rewrite Hl. change ([it] !! 0%nat) with (Some it). cbn beta iota.
  pose proof (iter_next_spec m it pend Hi Hat) as Hn. destruct pend as [|p rest].
  - destruct Hn as (it' & -> & Hat'). cbn [obind fst snd]. eexists. split; [done|]. split; [|done].
    split; [exact Hi|]. exists it'. split; [done|exact Hat'].
  - destruct Hn as (it' & -> & Hat' & Hc & Hv & Hpos). cbn [obind fst snd]. eexists. split; [done|]. split; [|done].
    split; [exact Hi|]. exists it'. destruct Hat' as [[Hge _]|(i & Hpos' & Hlt & Hcur)]; [lia|].
    destruct Hcur as [[Hnone _]|(b1 & q & b2 & Hb & Hq & ->)]; [congruence|].
    assert (q = p) as ->.
    { destruct Hi as (_ & _ & _ & (Hnd & _)). eapply (addr_inj _ q p Hnd); [rewrite (concat_middle _ _ _ Hb); set_solver| |congruence].
      apply (iter_at_in m it _ Hat). set_solver. }
    exists i, b1, b2. split_and!; done.
Qed.

(** [itor.key()] and [itor.value()] *)
Lemma walk_key_value m p pend :
  standing m p pend -> exists it, mIteratorList m !! 0%nat = Some it /\ iter_key m it = Ok (Some (key p))
    /\ iter_value m it = Ok (if is_internal_null (value p) then VNull else value p).
Proof.
  intros Hs. pose proof (standing_in _ _ _ Hs) as Hin. destruct Hs as (Hi & it & i & b1 & b2 & Hl & Hp & Hb & Hc & Hv & _).
  exists it. split; [by rewrite Hl|]. unfold iter_key, iter_value. rewrite Hc, Hv, Hp.
  apply lookup_lt_Some in Hb as Hlt. destruct Hi as (Hbits & Hbk & Hrest). pose proof Hbk as [Hlen _].
  unfold numberOfBuckets. rewrite (proj2 (Z.ltb_lt _ _)) by lia. cbn [andb].
  rewrite (pair_at_spec m p) by done. done.
Qed.

Lemma prev_in_absent a b o : a ∉ addr <$> b -> prev_in o a b = None.
Proof.
  revert o. induction b as [|q b IH]; intros o; simpl; [done|]. intros Ha. rewrite bool_decide_false by set_solver.
  apply IH. set_solver.
Qed.

Lemma prev_in_middle p b1 b2 o :
  addr p ∉ addr <$> b1 -> prev_in o (addr p) (b1 ++ p :: b2) = Some (match last b1 with Some q => Some (addr q) | None => o end).
Proof.
  revert o. induction b1 as [|q b1 IH]; intros o Ha; simpl.
  - by rewrite bool_decide_true.
  - rewrite bool_decide_false by set_solver. rewrite IH by set_solver. destruct b1 as [|r b1]; [done|].
    rewrite last_cons_cons. destruct (last (r :: b1)) eqn:E; [done|]. by apply last_None in E.
Qed.

Lemma prev_of_spec m i b1 p b2 :
  NoDup (addr <$> concat (mpBucket m)) -> mpBucket m !! i = Some (b1 ++ p :: b2) ->
  prev_of m (addr p) = Ok (addr <$> last b1).
Proof.
  intros Hnd Hb. unfold prev_of. rewrite (concat_middle _ _ _ Hb) in Hnd.
  rewrite !fmap_app, fmap_cons in Hnd. apply NoDup_app in Hnd as (_ & Hd & Hnd).
  apply NoDup_app in Hnd as (Hnd & _). apply NoDup_app in Hnd as (_ & Hd2 & _).
  rewrite <- (take_drop_middle _ i _ Hb). rewrite omap_app.
  assert (omap (prev_in None (addr p)) (take i (mpBucket m)) = []) as ->.
  { assert (addr p ∉ addr <$> concat (take i (mpBucket m))) as Hn.
    { intros Hin. apply (Hd (addr p)); [done|set_solver]. }
    revert Hn. generalize (take i (mpBucket m)) as bs. induction bs as [|b bs IH]; simpl; [done|]. rewrite fmap_app. intros Ha.
    rewrite prev_in_absent by set_solver. apply IH. set_solver. }
  simpl. rewrite prev_in_middle.
  - by destruct (last b1).
  - intros Hin. apply (Hd2 (addr p)); [done|set_solver].
Qed.

Lemma detach_middle p b1 b2 : NoDup (addr <$> b1 ++ p :: b2) -> detach p (b1 ++ p :: b2) = b1 ++ b2.
Proof.
  rewrite fmap_app, fmap_cons. intros Hnd. apply NoDup_app in Hnd as (Hn1 & Hd & Hn2). apply NoDup_cons in Hn2 as [Hp Hn2].
  assert (forall b : list pair, Forall (fun q => addr q <> addr p) b -> filter (fun q => addr q <> addr p) b = b) as Hall.
  { induction 1 as [|q b Hq _ IH]; [done|]. by rewrite filter_cons_True, IH. }
  unfold detach. rewrite filter_app, filter_cons_False by naive_solver. f_equal; apply Hall.
  - apply Forall_forall. intros q Hq E. apply (Hd (addr q)); [by apply list_elem_of_fmap_2|rewrite E; set_solver].
  - apply Forall_forall. intros q Hq E. apply Hp. rewrite <- E. by apply list_elem_of_fmap_2.
Qed.

(** Removing the entry the iterator stands on leaves the others to come. *)
Lemma walk_remove m p pend :
  standing m p pend -> Z.of_nat (length (concat (mpBucket m))) <= SIZE_MAX ->
  exists m', removeKeyAndValue m (Some (key p)) = Ok (Some (key p), value p, m') /\ walking m' pend
    /\ concat (mpBucket m) ≡ₚ p :: concat (mpBucket m').
Proof.
  intros Hs Hmax. pose proof (standing_in _ _ _ Hs) as Hin.
  destruct Hs as (Hi & it & i & b1 & b2 & Hl & Hp & Hb & Hc & Hv & ->). pose proof Hi as (Hbits & Hbk & He & Hent).
  pose proof Hent as (Hnd & Hf & Hu). rewrite Forall_forall in Hf. destruct (Hf p Hin) as [_ Hvalid].
  destruct (lookup_spec m (key p) Hi Hvalid) as (r & Er & Hr). unfold removeKeyAndValue. rewrite Er. cbn [obind fst snd].
  destruct r as [q|]; [|destruct (Hr p Hin); apply key_refl]. destruct Hr as (Hq & Hcq & b & Eb & Hqb).
  assert (q = p) as -> by (by apply Hu).
  pose proof Hbk as [Hlen Hok]. destruct (Hok i _ Hb) as [_ Hbf]. rewrite Forall_forall in Hbf.
  destruct (Hbf p) as [Hph Hpn]; [set_solver|].
  assert (Z.to_nat (bucketNumber (mBucketBits m) (hash_of (key p))) = i) as Ei by (rewrite <- Hph, Hpn; lia).
  rewrite Ei, Hb in Eb. injection Eb as <-.
  unfold notifyIteratorsOfRemove. rewrite Hl. cbn [notify]. unfold removing. rewrite Hc, (prev_of_spec m i b1 p b2 Hnd Hb).
  cbn [obind]. set (it' := mkIter _ _ _). unfold bucket_at. cbn [mpBucket with_iterators]. rewrite Ei, Hb. cbn [obind].
  assert (NoDup (addr <$> b1 ++ p :: b2)) as Hndb.
  { rewrite (concat_middle _ _ _ Hb), !fmap_app in Hnd. apply NoDup_app in Hnd as (_ & _ & Hnd).
    rewrite <- fmap_app in Hnd. by apply NoDup_app in Hnd as (? & _). }
  eexists. split; [done|]. cbn [mpBucket with_elements with_buckets with_iterators mElements]. rewrite detach_middle by done.
  destruct (concat_insert (mpBucket m) i _ (b1 ++ b2) Hb) as (rest & Hold & Hnew).
  assert (concat (mpBucket m) ≡ₚ p :: concat (<[i:=b1 ++ b2]> (mpBucket m))) as Hperm.
  { rewrite Hold, Hnew. by rewrite <- Permutation_middle. }
  split; [|done]. apply lookup_lt_Some in Hb as Hlt. split.
  - split; [done|]. simpl. split; [|split].
    + split; [by rewrite length_insert|]. intros j b' Hj.
      apply list_lookup_insert_Some in Hj as [(<- & <- & _)|(_ & Hj)]; [|by apply Hok].
      rewrite <- (detach_middle p) by done. by apply detach_ok, Hok.
    + rewrite He. pose proof Hperm as Hpl. apply Permutation_length in Hpl. simpl in Hpl.
      rewrite to_size_small; unfold SIZE_MAX in *; lia.
    + apply (entries_ok_tail p). by apply (entries_ok_perm _ _ _ Hperm).
  - exists it'. split; [done|]. right. exists i. simpl. rewrite length_insert. split_and!; [done|done|].
    unfold it'. destruct (last b1) as [q|] eqn:Elast; simpl.
    + right. apply last_Some in Elast as (b1' & ->). exists b1', q, b2. rewrite list_lookup_insert_eq by done.
      split; [by rewrite <- app_assoc|]. split; [done|]. by rewrite drop_insert_lt by lia.
    + left. split; [done|]. apply last_None in Elast as ->.
      rewrite (drop_S (<[i:=b2]> (mpBucket m)) b2 i) by (by apply list_lookup_insert_eq). simpl.
      by rewrite drop_insert_lt by lia.
Qed.

(** [~UtlHashMapIterator()] *)
Lemma walk_end m :
  walking m [] -> Z.of_nat (length (concat (mpBucket m))) < 3 * 2 ^ 30 ->
  exists m', iter_delete m 0 = Ok m' /\ inv m' /\ mIteratorList m' = [] /\ concat (mpBucket m') ≡ₚ concat (mpBucket m).
Proof.
  intros (Hi & it & Hl & _) Hmax. unfold iter_delete, resizeIfNeededAndSafe. rewrite Hl. cbn [delete list_delete].
  set (m0 := with_iterators m []). assert (inv m0) as Hi0 by exact Hi.
  destruct (resize_needed m0) eqn:Hr; [|exists m0; done].
  pose proof Hi0 as (Hbits & Hb & He & Hent).
  destruct (resize_with_spec depth m0) as (bits & bs & -> & Hbits' & Hok & Hperm & _); [done|done|done|by rewrite He|done|].
  eexists; split; [done|]. simpl. split; [|split; [done|exact Hperm]].
  split; [done|]. simpl. split; [done|]. split; [by rewrite Hperm|].
  eapply entries_ok_perm; [|exact Hent]. by rewrite Hperm.
Qed.
End Walk.
