(* ===== verification/NetBase64Codec.v ===== *)
(** * NetBase64Codec: base64 encoding with three alphabets

    src/sipXtackLib/src/net/NetBase64Codec.cpp.  Encoding builds the output
    three octets at a time; decoding works by index on the encoded storage
    and on the output buffer, where an access outside either is [UB].  The
    syntax check is a PCRE search: the search engine is a parameter with its
    documented meaning ([Base64SearchLaws]), in particular that [$] also
    matches before a final newline. *)
From Stdlib Require Import ZArith Lia Ascii String.
From stdpp Require Import base list strings sets gmap.
From S2P Require Import Prelude.
Local Open Scope Z_scope.

(** The three alphabets the class accepts. *)
Inductive Base64Alphabet : Type := RFC4648MimeAlphabet | RFC4648UrlSafeAlphabet | SipTokenSafeAlphabet.

Definition alphabet_chars (a : Base64Alphabet) : list ascii :=
  match a with
  | RFC4648MimeAlphabet => bytes "ABCDEFGHIJKLMNOPQRSTUVWXYZabcdefghijklmnopqrstuvwxyz0123456789+/="
  | RFC4648UrlSafeAlphabet => bytes "ABCDEFGHIJKLMNOPQRSTUVWXYZabcdefghijklmnopqrstuvwxyz0123456789-_="
  | SipTokenSafeAlphabet => bytes "ABCDEFGHIJKLMNOPQRSTUVWXYZabcdefghijklmnopqrstuvwxyz0123456789_`'"
  end.

Definition PAD_CHAR : Z := 64.

(** [alphabet[i]] *)
Definition letter (a : Base64Alphabet) (i : Z) : ascii := nth (Z.to_nat i) (alphabet_chars a) NUL.

(** NetBase64Codec::encodedSize *)
Definition encodedSize (dataSize : Z) : Z :=
  let size := Z.quot dataSize 3 in
  let size := if Z.rem dataSize 3 =? 0 then size else size + 1 in size * 4.

(** The four indexes into the alphabet; [data[i]] is a signed char. *)
Definition index1 (c0 : ascii) : Z := Z.shiftr (Z.land (schar c0) 252) 2.
Definition index2 (c0 c1 : ascii) : Z :=
  Z.lor (Z.shiftl (Z.land (schar c0) 3) 4) (Z.shiftr (Z.land (schar c1) 240) 4).
Definition index3 (c1 c2 : ascii) : Z :=
  Z.lor (Z.shiftl (Z.land (schar c1) 15) 2) (Z.shiftr (Z.land (schar c2) 192) 6).
Definition index4 (c2 : ascii) : Z := Z.land (schar c2) 63.
Definition index2_last (c0 : ascii) : Z := Z.shiftl (Z.land (schar c0) 3) 4.
Definition index3_last (c1 : ascii) : Z := Z.shiftl (Z.land (schar c1) 15) 2.

(** NetBase64Codec::encode: the loop over groups of three octets and the
    switch on what is left. *)
Fixpoint encode (a : Base64Alphabet) (data : list ascii) : list ascii :=
  match data with
  | c0 :: c1 :: c2 :: data' =>
      letter a (index1 c0) :: letter a (index2 c0 c1) :: letter a (index3 c1 c2) :: letter a (index4 c2)
      :: encode a data'
  | [c0; c1] => [letter a (index1 c0); letter a (index2 c0 c1); letter a (index3_last c1); letter a PAD_CHAR]
  | [c0] => [letter a (index1 c0); letter a (index2_last c0); letter a PAD_CHAR; letter a PAD_CHAR]
  | [] => []
  end.

(** The result of [validBase64.Search(encodedData, encodedDataSize)] with the
    regular expression of an alphabet: the lengths of its two groups. *)
Class Base64Search : Type := search : Base64Alphabet -> list ascii -> option (Z * Z).

Definition LF : ascii := "010"%char.

(** [(set+)(pad{0,2})] up to the end or to a final newline. *)
Definition base64_match (a : Base64Alphabet) (s b p t : list ascii) : Prop :=
  s = b ++ p ++ t /\ b <> [] /\ Forall (fun c => c ∈ take 64 (alphabet_chars a)) b
  /\ (length p <= 2)%nat /\ Forall (fun c => c = letter a PAD_CHAR) p /\ (t = [] \/ t = [LF]).

Class Base64SearchLaws `{Base64Search} : Prop :=
  search_spec : forall a s n1 n2, search a s = Some (n1, n2) <->
    exists b p t, base64_match a s b p t /\ n1 = Z.of_nat (length b) /\ n2 = Z.of_nat (length p).

Section Codec.
Context `{Base64Search}.

(** NetBase64Codec::validEncodingBytes *)
Definition validEncodingBytes (a : Base64Alphabet) (s : list ascii) : Z :=
  match search a s with
  | Some (encodingBytes, paddingBytes) =>
      let syntaxIsValid :=
        if paddingBytes =? 0 then 0 =? Z.rem encodingBytes 4
        else if paddingBytes =? 1 then 3 =? Z.rem encodingBytes 4
        else if paddingBytes =? 2 then 2 =? Z.rem encodingBytes 4
        else false in
      if syntaxIsValid then encodingBytes else 0
  | None => 0
  end.

(** NetBase64Codec::isValid *)
Definition isValid (a : Base64Alphabet) (s : list ascii) : bool := 0 <? validEncodingBytes a s.

(** NetBase64Codec::decodedSize *)
Definition decodedSize (a : Base64Alphabet) (s : list ascii) : Z :=
  let nonPadBytes := validEncodingBytes a s in
  if nonPadBytes =? 0 then 0 else Z.quot (nonPadBytes * 3) 4.

(** [strchr(alphabet, c) - alphabet]: the terminator counts as found, a
    character that is not found gives a null pointer. *)
Fixpoint strchr_offset (c : ascii) (l : list ascii) (i : Z) : outcome Z :=
  match l with
  | [] => if bool_decide (c = NUL) then Ok i else UB
  | d :: l' => if bool_decide (c = d) then Ok i else strchr_offset c l' (i + 1)
  end.

(** NetBase64Codec::decodeChar *)
Definition decodeChar (a : Base64Alphabet) (encoded : ascii) : outcome Z :=
  if bool_decide (encoded = letter a PAD_CHAR) then Ok 0 else strchr_offset encoded (alphabet_chars a) 0.

(** [decodeChar(encodedData[i], alphabet)] *)
Definition decode_at (a : Base64Alphabet) (encodedData : list ascii) (i : Z) : outcome Z :=
  let! c := read_at encodedData i 1 in
  match c with x :: _ => decodeChar a x | [] => UB end.

(** The loop of NetBase64Codec::decode *)
Fixpoint decode_loop (fuel : nat) (a : Base64Alphabet) (encodedDataSize : Z) (encodedData : list ascii)
    (dataSize i j : Z) (data : list ascii) : outcome (list ascii) :=
  if i <? encodedDataSize then
    match fuel with
    | O => UB
    | S fuel' =>
        let! d0 := decode_at a encodedData i in
        let! d1 := decode_at a encodedData (i + 1) in
        let! data1 := write_at data j [chr (Z.lor (Z.shiftl d0 2) (Z.shiftr (Z.land d1 48) 4))] in
        let! data2 :=
          (if j + 1 <? dataSize then
             let! d2 := decode_at a encodedData (i + 2) in
             let! data2 := write_at data1 (j + 1)
               [chr (Z.lor (Z.shiftl (Z.land d1 15) 4) (Z.shiftr (Z.land d2 60) 2))] in
             if j + 2 <? dataSize then
               let! d3 := decode_at a encodedData (i + 3) in
               write_at data2 (j + 2) [chr (Z.lor (Z.shiftl (Z.land d2 3) 6) (Z.land d3 63))]
             else Ok data2
           else Ok data1) in
        decode_loop fuel' a encodedDataSize encodedData dataSize (i + 4) (j + 3) data2
    end
  else Ok data.

(** NetBase64Codec::decode(int, const char[], int&, char[]): the size and
    the storage of the encoded data, and the output buffer. *)
Definition decode_array (a : Base64Alphabet) (encodedDataSize : Z) (encodedData data : list ascii)
    : outcome (bool * Z * list ascii) :=
  let! s := read_at encodedData 0 encodedDataSize in
  if isValid a s then
    let dataSize := decodedSize a s in
    let! data' := decode_loop (Z.to_nat encodedDataSize) a encodedDataSize encodedData dataSize 0 0 data in
    Ok (true, dataSize, data')
  else Ok (false, 0, data).

(** NetBase64Codec::decode(UtlString, UtlString&): the encoded string with
    its terminator; the output gets [decodedSize + 2] bytes of capacity,
    whose contents [fill] are not initialised. *)
Definition decode (a : Base64Alphabet) (fill : nat -> ascii) (encodedData : list ascii)
    : outcome (bool * list ascii) :=
  if isValid a encodedData then
    let sizeNeeded := decodedSize a encodedData + 1 in
    let buffer := fill <$> seq 0 (Z.to_nat (sizeNeeded + 1)) in
    let! r := decode_array a (Z.of_nat (length encodedData)) (encodedData ++ [NUL]) buffer in
    let '(valid, size, buffer') := r in
    Ok (valid, if valid then take (Z.to_nat size) buffer' else [])
  else Ok (false, []).

End Codec.
