(* ===== verification/NetBase64CodecSpec.v ===== *)
(** * Correctness of the base64 codec

    Decoding an encoding gives the data back for every alphabet; decoding
    never leaves its buffers on any input the syntax check accepts, except
    that the check accepts a final newline, which the decoder cannot read. *)
From Stdlib Require Import ZArith Lia Ascii String.
From stdpp Require Import base list strings sets gmap.
From S2P Require Import Prelude NetBase64Codec.
Local Open Scope Z_scope.

(** ** Facts checked on all octets *)

Definition all_bytes : list ascii := ascii_of_nat <$> seq 0 256.

Lemma all_bytes_in c : c ∈ all_bytes.
Proof.
  apply list_elem_of_fmap. exists (nat_of_ascii c). rewrite ascii_nat_embedding. split; [done|].
  apply elem_of_seq. pose proof (nat_ascii_bounded c). lia.
Qed.

Lemma check_pairs (P : ascii -> ascii -> bool) :
  forallb (fun c => forallb (P c) all_bytes) all_bytes = true -> forall c d, P c d = true.
Proof.
  intros E c d. rewrite forallb_forall in E.
  specialize (E c (proj1 (list_elem_of_In _ _) (all_bytes_in c))). rewrite forallb_forall in E.
  exact (E d (proj1 (list_elem_of_In _ _) (all_bytes_in d))).
Qed.

(** The high nibble of an octet, as index2 and index3 carry it. *)
Definition high (c : ascii) : Z := Z.land (Z.shiftr (schar c) 4) 15.

Definition pair_facts (c d : ascii) : bool :=
  Ascii.eqb (chr (Z.lor (Z.shiftl (index1 c) 2) (Z.shiftr (Z.land (index2 c d) 48) 4))) c
  && (Z.land (index2 c d) 15 =? high d)
  && Ascii.eqb (chr (Z.lor (Z.shiftl (high c) 4) (Z.shiftr (Z.land (index3 c d) 60) 2))) c
  && Ascii.eqb (chr (Z.lor (Z.shiftl (Z.land (index3 c d) 3) 6) (Z.land (index4 d) 63))) d
  && (0 <=? index1 c) && (index1 c <? 64) && (0 <=? index2 c d) && (index2 c d <? 64)
  && (0 <=? index3 c d) && (index3 c d <? 64) && (0 <=? index4 d) && (index4 d <? 64).

Lemma pair_facts_hold c d :
  chr (Z.lor (Z.shiftl (index1 c) 2) (Z.shiftr (Z.land (index2 c d) 48) 4)) = c
  /\ Z.land (index2 c d) 15 = high d
  /\ chr (Z.lor (Z.shiftl (high c) 4) (Z.shiftr (Z.land (index3 c d) 60) 2)) = c
  /\ chr (Z.lor (Z.shiftl (Z.land (index3 c d) 3) 6) (Z.land (index4 d) 63)) = d
  /\ (0 <= index1 c < 64) /\ (0 <= index2 c d < 64) /\ (0 <= index3 c d < 64) /\ (0 <= index4 d < 64).
Proof.
  assert (pair_facts c d = true) as E by (revert c d; apply check_pairs; vm_compute; reflexivity).
  unfold pair_facts in E. rewrite !andb_true_iff, !Z.leb_le, !Z.ltb_lt, Z.eqb_eq, !Ascii.eqb_eq in E. tauto.
Qed.

Lemma index2_last_eq c : index2_last c = index2 c NUL.
Proof. unfold index2_last, index2. change (schar NUL) with 0. by rewrite Z.land_0_l, Z.lor_0_r. Qed.
Lemma index3_last_eq c : index3_last c = index3 c NUL.
Proof. unfold index3_last, index3. change (schar NUL) with 0. by rewrite Z.land_0_l, Z.lor_0_r. Qed.

Lemma decodeChar_letter a i : 0 <= i < 64 -> decodeChar a (letter a i) = Ok i.
Proof.
  intros Hi. assert (forallb (fun n => match decodeChar a (letter a (Z.of_nat n)) with
    | Ok j => j =? Z.of_nat n | _ => false end) (seq 0 64) = true) as E by (destruct a; vm_compute; reflexivity).
  rewrite forallb_forall in E. specialize (E (Z.to_nat i)).
  rewrite in_seq, Z2Nat.id in E by lia. specialize (E ltac:(lia)).
  destruct (decodeChar a (letter a i)); try done. apply Z.eqb_eq in E. by subst.
Qed.

Lemma letter_in a i : 0 <= i < 64 -> letter a i ∈ take 64 (alphabet_chars a).
Proof.
  intros Hi. assert (forallb (fun n => bool_decide (letter a (Z.of_nat n) ∈ take 64 (alphabet_chars a))) (seq 0 64)
    = true) as E by (destruct a; vm_compute; reflexivity).
  rewrite forallb_forall in E. specialize (E (Z.to_nat i)).
  rewrite in_seq, Z2Nat.id in E by lia. specialize (E ltac:(lia)). by apply bool_decide_eq_true in E.
Qed.

(** ** The decoding loop on an encoding *)

Fixpoint groups (data : list ascii) : nat :=
  match data with _ :: _ :: _ :: data' => S (groups data') | [] => 0 | _ => 1 end.

Lemma length_encode a data : length (encode a data) = (4 * groups data)%nat.
Proof.
  remember (length data) as n eqn:Hn. revert data Hn. induction (lt_wf n) as [n _ IH]. intros data ->.
  destruct data as [|c0 [|c1 [|c2 data]]]; simpl; try done.
  specialize (IH (length data) ltac:(simpl; lia) data eq_refl). rewrite IH. lia.
Qed.

Lemma decode_at_nth a l1 x l2 i :
  i = Z.of_nat (length l1) -> decode_at a (l1 ++ x :: l2) i = decodeChar a x.
Proof.
  intros ->. unfold decode_at. change (l1 ++ x :: l2) with (l1 ++ [x] ++ l2).
  by rewrite (read_at_split l1 [x] l2) by done.
Qed.

Lemma write_at_nth l1 x y l2 i :
  i = Z.of_nat (length l1) -> write_at (l1 ++ x :: l2) i [y] = Ok (l1 ++ y :: l2).
Proof. intros ->. change (l1 ++ x :: l2) with (l1 ++ [x] ++ l2). by rewrite (write_at_split l1 [x] [y] l2). Qed.


Lemma app_cons_assoc {T} (l : list T) x r : l ++ x :: r = (l ++ [x]) ++ r.
Proof. by rewrite <- app_assoc. Qed.

(** One turn of the loop, by the number of octets it still has to write. *)
Section Group.
Context (a : Base64Alphabet) (fuel : nat) (size dataSize i j : Z).
Context (E1 E2 D1 : list ascii) (x0 x1 x2 x3 : ascii) (d0 d1 : Z).
Hypothesis Hi : i = Z.of_nat (length E1).
Hypothesis Hj : j = Z.of_nat (length D1).
Hypothesis Hsize : i < size.
Hypothesis Hd0 : decodeChar a x0 = Ok d0.
Hypothesis Hd1 : decodeChar a x1 = Ok d1.
Let mem := E1 ++ x0 :: x1 :: x2 :: x3 :: E2.

Lemma mem_at :
  decode_at a mem i = Ok d0 /\ decode_at a mem (i + 1) = Ok d1
  /\ decode_at a mem (i + 2) = decodeChar a x2 /\ decode_at a mem (i + 3) = decodeChar a x3.
Proof.
  rewrite <- Hd0, <- Hd1. unfold mem. split_and!; [by apply decode_at_nth|..].
  - rewrite (app_cons_assoc E1). apply decode_at_nth. rewrite length_app. simpl. lia.
  - rewrite (app_cons_assoc E1), (app_cons_assoc (E1 ++ [x0])). apply decode_at_nth. rewrite !length_app. simpl. lia.
  - rewrite (app_cons_assoc E1), (app_cons_assoc (E1 ++ [x0])), (app_cons_assoc ((E1 ++ [x0]) ++ [x1])).
    apply decode_at_nth. rewrite !length_app. simpl. lia.
Qed.

Lemma group_one b0 B :
  dataSize = j + 1 ->
  decode_loop (S fuel) a size mem dataSize i j (D1 ++ b0 :: B)
  = decode_loop fuel a size mem dataSize (i + 4) (j + 3)
      (D1 ++ chr (Z.lor (Z.shiftl d0 2) (Z.shiftr (Z.land d1 48) 4)) :: B).
Proof.
  intros Hs. destruct mem_at as (M0 & M1 & _). cbn [decode_loop]. rewrite (proj2 (Z.ltb_lt _ _)) by lia.
  rewrite M0. cbn [obind]. rewrite M1. cbn [obind]. rewrite write_at_nth by done. cbn [obind].
  by rewrite (proj2 (Z.ltb_ge _ _)) by lia.
Qed.

Lemma group_two b0 b1 B d2 :
  dataSize = j + 2 -> decodeChar a x2 = Ok d2 ->
  decode_loop (S fuel) a size mem dataSize i j (D1 ++ b0 :: b1 :: B)
  = decode_loop fuel a size mem dataSize (i + 4) (j + 3)
      (D1 ++ chr (Z.lor (Z.shiftl d0 2) (Z.shiftr (Z.land d1 48) 4))
         :: chr (Z.lor (Z.shiftl (Z.land d1 15) 4) (Z.shiftr (Z.land d2 60) 2)) :: B).
Proof.
  intros Hs Hd2. destruct mem_at as (M0 & M1 & M2 & _). cbn [decode_loop]. rewrite (proj2 (Z.ltb_lt i _)) by lia.
  rewrite M0. cbn [obind]. rewrite M1. cbn [obind]. rewrite write_at_nth by done. cbn [obind].
  rewrite (proj2 (Z.ltb_lt (j + 1) _)) by lia. rewrite M2, Hd2. cbn [obind].
  set (y0 := chr (Z.lor (Z.shiftl d0 2) _)). rewrite (app_cons_assoc D1 y0).
  rewrite write_at_nth by (rewrite length_app; simpl; lia). cbn [obind].
  rewrite (proj2 (Z.ltb_ge (j + 2) _)) by lia. cbn [obind]. by rewrite <- app_assoc.
Qed.

Lemma group_three b0 b1 b2 B d2 d3 :
  j + 3 <= dataSize -> decodeChar a x2 = Ok d2 -> decodeChar a x3 = Ok d3 ->
  decode_loop (S fuel) a size mem dataSize i j (D1 ++ b0 :: b1 :: b2 :: B)
  = decode_loop fuel a size mem dataSize (i + 4) (j + 3)
      (D1 ++ chr (Z.lor (Z.shiftl d0 2) (Z.shiftr (Z.land d1 48) 4))
         :: chr (Z.lor (Z.shiftl (Z.land d1 15) 4) (Z.shiftr (Z.land d2 60) 2))
         :: chr (Z.lor (Z.shiftl (Z.land d2 3) 6) (Z.land d3 63)) :: B).
Proof.
  intros Hs Hd2 Hd3. destruct mem_at as (M0 & M1 & M2 & M3). cbn [decode_loop].
  rewrite (proj2 (Z.ltb_lt i _)) by lia.
  rewrite M0. cbn [obind]. rewrite M1. cbn [obind]. rewrite write_at_nth by done. cbn [obind].
  rewrite (proj2 (Z.ltb_lt (j + 1) _)) by lia. rewrite M2, Hd2. cbn [obind].
  set (y0 := chr (Z.lor (Z.shiftl d0 2) _)). set (y1 := chr (Z.lor (Z.shiftl (Z.land d1 15) 4) _)).
  rewrite (app_cons_assoc D1 y0). rewrite write_at_nth by (rewrite length_app; simpl; lia). cbn [obind].
  rewrite (proj2 (Z.ltb_lt (j + 2) _)) by lia. rewrite M3, Hd3. cbn [obind].
  rewrite (app_cons_assoc _ y1). rewrite write_at_nth by (rewrite !length_app; simpl; lia). cbn [obind].
  by rewrite <- !app_assoc.
Qed.
End Group.

Lemma decode_loop_encode a data : forall fuel size E1 E2 D1 B,
  (groups data <= fuel)%nat -> (length data <= length B)%nat ->
  Z.of_nat (length E1 + length (encode a data)) <= size ->
  decode_loop fuel a size (E1 ++ encode a data ++ E2) (Z.of_nat (length D1 + length data))
    (Z.of_nat (length E1)) (Z.of_nat (length D1)) (D1 ++ B)
  = decode_loop (fuel - groups data) a size (E1 ++ encode a data ++ E2) (Z.of_nat (length D1 + length data))
      (Z.of_nat (length E1 + 4 * groups data)) (Z.of_nat (length D1 + 3 * groups data))
      (D1 ++ data ++ drop (length data) B).
Proof.
  remember (length data) as n eqn:Hn. revert data Hn. induction (lt_wf n) as [n _ IH].
  intros data -> fuel size E1 E2 D1 B Hf HB Hs.
  destruct data as [|c0 [|c1 [|c2 data]]]; simpl encode in *; simpl groups in *; simpl length in *.
  - rewrite Nat.sub_0_r, !Nat.add_0_r, drop_0. done.
  - destruct fuel as [|fuel]; [lia|]. destruct B as [|b0 B]; [simpl in HB; lia|].
    destruct (pair_facts_hold c0 NUL) as (F1 & _ & _ & _ & R1 & R2 & _).
    rewrite index2_last_eq. cbn [app]. erewrite group_one; try done; try lia;
      [|by apply decodeChar_letter|by apply decodeChar_letter].
    rewrite F1. simpl. rewrite Nat.sub_0_r. f_equal; lia.
  - destruct fuel as [|fuel]; [lia|]. destruct B as [|b0 [|b1 B]]; [simpl in HB; lia..|].
    destruct (pair_facts_hold c0 c1) as (F1 & F2 & _ & _ & R1 & R2 & _).
    destruct (pair_facts_hold c1 NUL) as (_ & _ & F3 & _ & _ & _ & R3 & _).
    rewrite index3_last_eq. cbn [app]. erewrite group_two; try done; try lia;
      [|by apply decodeChar_letter..].
    rewrite F1, F2, F3. simpl. rewrite Nat.sub_0_r. f_equal; lia.
  - destruct fuel as [|fuel]; [lia|]. destruct B as [|b0 [|b1 [|b2 B]]]; [simpl in HB; lia..|].
    destruct (pair_facts_hold c0 c1) as (F1 & F2 & _ & _ & R1 & R2 & _).
    destruct (pair_facts_hold c1 c2) as (_ & _ & F3 & F4 & _ & _ & R3 & R4).
    cbn [app]. erewrite group_three; try done; try lia; [|by apply decodeChar_letter..].
    rewrite F1, F2, F3, F4.
    set (q := [letter a (index1 c0); letter a (index2 c0 c1); letter a (index3 c1 c2); letter a (index4 c2)]).
    change (letter a (index1 c0) :: letter a (index2 c0 c1) :: letter a (index3 c1 c2) :: letter a (index4 c2)
      :: encode a data ++ E2) with (q ++ encode a data ++ E2).
    rewrite (app_assoc E1 q). change (D1 ++ c0 :: c1 :: c2 :: B) with (D1 ++ [c0; c1; c2] ++ B). rewrite (app_assoc D1 [c0; c1; c2]).
    specialize (IH (length data) ltac:(lia) data eq_refl fuel size (E1 ++ q) E2 (D1 ++ [c0; c1; c2]) B).
    rewrite !length_app in IH. simpl length in IH.
    replace (Z.of_nat (length E1) + 4) with (Z.of_nat (length E1 + 4)) by lia.
    replace (Z.of_nat (length D1) + 3) with (Z.of_nat (length D1 + 3)) by lia.
    replace (Z.of_nat (length D1 + S (S (S (length data))))) with (Z.of_nat (length D1 + 3 + length data)) by lia.
    rewrite IH by (simpl in HB; lia). f_equal; [lia..|]. by rewrite <- app_assoc.
Qed.

(** ** The syntax check on an encoding *)

Ltac letters :=
  repeat (apply Forall_cons_2; [first [done | by apply letter_in]|]); apply Forall_nil_2.

Lemma encode_split a data :
  data <> [] -> exists b p, encode a data = b ++ p /\ b <> []
    /\ Forall (fun c => c ∈ take 64 (alphabet_chars a)) b
    /\ (length p <= 2)%nat /\ Forall (fun c => c = letter a PAD_CHAR) p
    /\ (length b + length p = 4 * groups data)%nat /\ (length data + length p = 3 * groups data)%nat.
Proof.
  remember (length data) as n eqn:Hn. revert data Hn. induction (lt_wf n) as [n _ IH]. intros data -> Hne.
  destruct data as [|c0 [|c1 [|c2 data]]]; [done|..].
  - destruct (pair_facts_hold c0 NUL) as (_ & _ & _ & _ & R1 & R2 & _).
    exists [letter a (index1 c0); letter a (index2_last c0)], [letter a PAD_CHAR; letter a PAD_CHAR].
    cbn [encode]. rewrite index2_last_eq. split_and!; try done; try (simpl; lia); letters.
  - destruct (pair_facts_hold c0 c1) as (_ & _ & _ & _ & R1 & R2 & _).
    destruct (pair_facts_hold c1 NUL) as (_ & _ & _ & _ & _ & _ & R3 & _).
    exists [letter a (index1 c0); letter a (index2 c0 c1); letter a (index3_last c1)], [letter a PAD_CHAR].
    cbn [encode]. rewrite index3_last_eq. split_and!; try done; try (simpl; lia); letters.
  - destruct (pair_facts_hold c0 c1) as (_ & _ & _ & _ & R1 & R2 & _).
    destruct (pair_facts_hold c1 c2) as (_ & _ & _ & _ & _ & _ & R3 & R4).
    assert (Forall (fun c => c ∈ take 64 (alphabet_chars a)) [letter a (index1 c0); letter a (index2 c0 c1);
      letter a (index3 c1 c2); letter a (index4 c2)]) as Hq by letters.
    destruct data as [|c3 data].
    + exists [letter a (index1 c0); letter a (index2 c0 c1); letter a (index3 c1 c2); letter a (index4 c2)], [].
      split_and!; try done; try (simpl; lia).
    + destruct (IH (length (c3 :: data)) ltac:(simpl; lia) (c3 :: data) eq_refl ltac:(done))
        as (b & p & E & _ & Hb & Hp & Hpp & H1 & H2).
      exists ([letter a (index1 c0); letter a (index2 c0 c1); letter a (index3 c1 c2); letter a (index4 c2)] ++ b), p.
      change (encode a (c0 :: c1 :: c2 :: c3 :: data)) with ([letter a (index1 c0); letter a (index2 c0 c1);
        letter a (index3 c1 c2); letter a (index4 c2)] ++ encode a (c3 :: data)).
      change (groups (c0 :: c1 :: c2 :: c3 :: data)) with (S (groups (c3 :: data))).
      rewrite E, app_assoc. rewrite !length_app. simpl length in H2 |- *.
      split_and!; try done; try lia. by apply Forall_app.
Qed.

Section Theorems.
Context `{Base64SearchLaws}.

Lemma validEncodingBytes_encode a data t :
  data <> [] -> (t = [] \/ t = [LF]) ->
  validEncodingBytes a (encode a data ++ t) > 0
  /\ decodedSize a (encode a data ++ t) = Z.of_nat (length data).
Proof.
  intros Hne Ht. destruct (encode_split a data Hne) as (b & p & E & Hbne & Hb & Hp & Hpp & H1 & H2).
  assert (search a (encode a data ++ t) = Some (Z.of_nat (length b), Z.of_nat (length p))) as Es.
  { apply search_spec. exists b, p, t. split; [|done]. unfold base64_match. rewrite E, <- app_assoc. done. }
  assert (validEncodingBytes a (encode a data ++ t) = Z.of_nat (length b)) as Hv.
  { unfold validEncodingBytes. rewrite Es. rewrite Z.rem_mod_nonneg by lia.
    assert (length p = 0 \/ length p = 1 \/ length p = 2)%nat as [E0|[E0|E0]] by lia; rewrite E0; simpl.
    - replace (Z.of_nat (length b) mod 4) with 0; [done|]. symmetry. apply Z.mod_divide; [lia|].
      exists (Z.of_nat (groups data)). lia.
    - replace (Z.of_nat (length b) mod 4) with 3; [done|].
      apply (Z.mod_unique_pos _ _ (Z.of_nat (groups data) - 1)); lia.
    - replace (Z.of_nat (length b) mod 4) with 2; [done|].
      apply (Z.mod_unique_pos _ _ (Z.of_nat (groups data) - 1)); lia. }
  assert (0 < length b)%nat by (destruct b; [done|simpl; lia]).
  split; [lia|]. unfold decodedSize. rewrite Hv. destruct (Z.eqb_spec (Z.of_nat (length b)) 0); [lia|].
  rewrite Z.quot_div_nonneg by lia. symmetry.
  apply (Z.div_unique_pos _ _ _ (Z.of_nat (length b) * 3 - 4 * Z.of_nat (length data))); lia.
Qed.

Lemma read_at_all (l t : list ascii) n : n = Z.of_nat (length l) -> read_at (l ++ t) 0 n = Ok l.
Proof. intros ->. by apply (read_at_split [] l t). Qed.

Lemma decode_encode a fill data : data <> [] -> decode a fill (encode a data) = Ok (true, data).
Proof.
  intros Hne. destruct (validEncodingBytes_encode a data [] Hne) as [Hv Hs]; [by left|].
  rewrite app_nil_r in Hv, Hs.
  assert (isValid a (encode a data) = true) as Hval by (unfold isValid; apply Z.ltb_lt; lia).
  unfold decode. rewrite Hval, Hs. unfold decode_array.
  rewrite read_at_all by done. cbn [obind]. rewrite Hval, Hs.
  set (buf := fill <$> seq 0 _).
  assert (length data <= length buf)%nat as Hbuf by (unfold buf; rewrite length_fmap, length_seq; lia).
  pose proof (length_encode a data) as Hl.
  pose proof (decode_loop_encode a data (length (encode a data)) (Z.of_nat (length (encode a data))) [] [NUL] [] buf)
    as Hloop. simpl in Hloop. change (Z.of_nat 0) with 0 in Hloop. rewrite Nat2Z.id. rewrite Hloop by lia. clear Hloop.
  replace (decode_loop _ _ _ _ _ _ _ _) with (Ok (data ++ drop (length data) buf)).
  - cbn [obind]. by rewrite Nat2Z.id, take_app_length.
  - destruct (length (encode a data) - groups data)%nat; cbn [decode_loop];
      by rewrite (proj2 (Z.ltb_ge _ _)) by lia.
Qed.

Lemma encodedSize_groups data : encodedSize (Z.of_nat (length data)) = 4 * Z.of_nat (groups data).
Proof.
  unfold encodedSize. rewrite Z.quot_div_nonneg, Z.rem_mod_nonneg by lia.
  assert (forall n l, (length l <= n)%nat ->
    Z.of_nat (groups l) = Z.of_nat (length l) / 3 + if Z.of_nat (length l) mod 3 =? 0 then 0 else 1) as Hg.
  { induction n as [|n IH]; intros l Hl; [by destruct l; simpl in Hl; [|lia]|].
    destruct l as [|x [|y [|z l]]]; try reflexivity.
    cbn [groups length] in *. rewrite Nat2Z.inj_succ, IH by lia.
    replace (Z.of_nat (S (S (S (length l))))) with (Z.of_nat (length l) + 1 * 3) by lia.
    rewrite Z.div_add, Z_mod_plus_full by lia. lia. }
  rewrite (Hg (length data)) by lia. destruct (_ =? 0); lia.
Qed.

(** Decoding what [encode] produced returns exactly the encoded octets,
    for each of the three alphabets and any non-empty data whose encoding
    fits the [int] sizes of the interface, and the encoding has the size
    [encodedSize] promises. *)
Theorem base64_roundtrip a fill data :
  data <> [] -> Z.of_nat (length (encode a data)) <= INT_MAX ->
  decode a fill (encode a data) = Ok (true, data)
  /\ Z.of_nat (length (encode a data)) = encodedSize (Z.of_nat (length data)).
Proof.
  intros Hne _. split; [by apply decode_encode|]. rewrite encodedSize_groups, length_encode. lia.
Qed.

Lemma decodeChar_LF a : decodeChar a LF = UB.
Proof. by destruct a. Qed.

(** A newline after a valid encoding passes the syntax check, and the
    decoder then looks the newline up in the alphabet, where it is not:
    [strchr] returns null and the subtraction is undefined. *)
Theorem base64_newline_accepted a fill data :
  data <> [] -> Z.of_nat (length (encode a data)) < INT_MAX ->
  isValid a (encode a data ++ [LF]) = true /\ decode a fill (encode a data ++ [LF]) = UB.
Proof.
  intros Hne _. destruct (validEncodingBytes_encode a data [LF] Hne) as [Hv Hs]; [by right|].
  assert (isValid a (encode a data ++ [LF]) = true) as Hval by (unfold isValid; apply Z.ltb_lt; lia).
  split; [done|]. unfold decode. rewrite Hval, Hs. unfold decode_array.
  rewrite read_at_all by done. cbn [obind]. rewrite Hval, Hs.
  set (buf := fill <$> seq 0 _).
  assert (length data <= length buf)%nat as Hbuf by (unfold buf; rewrite length_fmap, length_seq; lia).
  pose proof (length_encode a data) as Hl. rewrite Nat2Z.id, length_app. simpl length.
  pose proof (decode_loop_encode a data (length (encode a data) + 1) (Z.of_nat (length (encode a data) + 1))
    [] [LF; NUL] [] buf) as Hloop. simpl in Hloop. change (Z.of_nat 0) with 0 in Hloop. rewrite <- app_assoc. simpl app.
  rewrite Hloop by lia. clear Hloop.
  destruct (length (encode a data) + 1 - groups data)%nat eqn:Ef; [lia|]. cbn [decode_loop].
  rewrite (proj2 (Z.ltb_lt _ _)) by lia. rewrite decode_at_nth by lia.
  by rewrite decodeChar_LF.
Qed.

(** Any character of a match can be decoded. *)
Lemma decodeChar_in a c : c ∈ take 64 (alphabet_chars a) \/ c = letter a PAD_CHAR -> exists d, decodeChar a c = Ok d.
Proof.
  intros [Hc| ->]; [|exists 0; unfold decodeChar; by rewrite bool_decide_true].
  assert (forallb (fun c => is_ok (decodeChar a c)) (take 64 (alphabet_chars a)) = true) as E
    by (destruct a; vm_compute; reflexivity).
  rewrite forallb_forall in E. specialize (E c (proj1 (list_elem_of_In _ _) Hc)).
  destruct (decodeChar a c) as [d| | |]; [by exists d|done..].
Qed.

Lemma decode_loop_total a : forall r fuel size E1 R E2 dataSize D1 B,
  length R = (4 * r)%nat -> Forall (fun c => exists d, decodeChar a c = Ok d) R ->
  (r <= fuel)%nat -> size = Z.of_nat (length E1 + length R) ->
  Z.of_nat (length D1 + 3 * r) <= dataSize + 2 -> dataSize <= Z.of_nat (length D1 + length B) ->
  exists data, decode_loop fuel a size (E1 ++ R ++ E2) dataSize (Z.of_nat (length E1)) (Z.of_nat (length D1))
    (D1 ++ B) = Ok data /\ length data = (length D1 + length B)%nat.
Proof.
  induction r as [|r IH]; intros fuel size E1 R E2 dataSize D1 B HR Hd Hf Hs Hds HB.
  - destruct R; [|simpl in HR; lia]. exists (D1 ++ B). rewrite length_app. simpl in Hs. split; [|done].
    destruct fuel; cbn [decode_loop]; by rewrite (proj2 (Z.ltb_ge _ _)) by lia.
  - destruct fuel as [|fuel]; [lia|].
    destruct R as [|x0 [|x1 [|x2 [|x3 R]]]]; simpl in HR; try lia.
    repeat match goal with H : Forall _ (_ :: _) |- _ => apply Forall_cons in H as [[? ?] ?] end.
    simpl in Hs. cbn [app].
    assert (forall D2 B2, length D2 = (length D1 + 3)%nat -> (length D2 + length B2 = length D1 + length B)%nat ->
      exists data, decode_loop fuel a size ((E1 ++ [x0; x1; x2; x3]) ++ R ++ E2) dataSize
        (Z.of_nat (length E1) + 4) (Z.of_nat (length D1) + 3) (D2 ++ B2) = Ok data
        /\ length data = (length D1 + length B)%nat) as Hnext.
    { intros D2 B2 HD2 HB2. rewrite <- HB2.
      replace (Z.of_nat (length E1) + 4) with (Z.of_nat (length (E1 ++ [x0; x1; x2; x3])))
        by (rewrite length_app; simpl; lia).
      replace (Z.of_nat (length D1) + 3) with (Z.of_nat (length D2)) by lia.
      apply IH; try done; rewrite ?length_app; simpl; lia. }
    rewrite <- app_assoc in Hnext. cbn [app] in Hnext.
    destruct (Z.leb_spec (Z.of_nat (length D1) + 3) dataSize).
    + destruct B as [|b0 [|b1 [|b2 B]]]; simpl in HB; try lia.
      erewrite group_three; try done; try lia. rewrite (app_cons_assoc D1), (app_cons_assoc (D1 ++ _)), (app_cons_assoc ((D1 ++ _) ++ _)).
      apply Hnext; rewrite !length_app; simpl; lia.
    + assert (r = 0%nat) as -> by lia. destruct R; [|simpl in HR; lia].
      assert (forall D, decode_loop fuel a size (E1 ++ x0 :: x1 :: x2 :: x3 :: [] ++ E2) dataSize
        (Z.of_nat (length E1) + 4) (Z.of_nat (length D1) + 3) D = Ok D) as Hend
        by (intros D; destruct fuel; cbn [decode_loop]; by rewrite (proj2 (Z.ltb_ge _ _)) by (simpl in Hs; lia)).
      destruct (Z.eqb_spec (Z.of_nat (length D1) + 2) dataSize).
      * destruct B as [|b0 [|b1 B]]; simpl in HB; try lia.
        erewrite group_two; try done; try lia. rewrite Hend. eexists; split; [done|]. rewrite length_app. simpl. lia.
      * destruct B as [|b0 B]; simpl in HB; try lia.
        erewrite group_one; try done; try lia. rewrite Hend. eexists; split; [done|]. rewrite length_app. simpl. lia.
Qed.

Lemma decode_no_newline a fill s :
  last s <> Some LF ->
  exists data, decode a fill s = Ok (isValid a s, data) /\ Z.of_nat (length data) = decodedSize a s.
Proof.
  intros Hlf. unfold decode. destruct (isValid a s) eqn:Hv.
  - unfold isValid, validEncodingBytes in Hv. destruct (search a s) as [[n1 n2]|] eqn:Es; [|done].
    pose proof Es as Es'. apply search_spec in Es' as (b & p & t & (Hst & Hbne & Hb & Hp & Hpp & Ht) & -> & ->).
    assert (t = []) as ->.
    { destruct Ht as [->| ->]; [done|]. rewrite Hst, app_assoc, last_snoc in Hlf. done. }
    rewrite app_nil_r in Hst. assert (0 < length b)%nat by (destruct b; [done|simpl; lia]).
    assert (exists r, (length b + length p = 4 * r)%nat) as (r & Hr).
    { rewrite Z.rem_mod_nonneg in Hv by lia. pose proof (Z.div_mod (Z.of_nat (length b)) 4 ltac:(lia)) as Hdm.
      destruct (Z.eqb_spec (Z.of_nat (length p)) 0); [|destruct (Z.eqb_spec (Z.of_nat (length p)) 1);
        [|destruct (Z.eqb_spec (Z.of_nat (length p)) 2); [|lia]]];
        match type of Hv with context [?k =? Z.of_nat (length b) mod 4] =>
          destruct (Z.eqb_spec k (Z.of_nat (length b) mod 4)) as [Em|Em] end; try done.
      - exists (Z.to_nat (Z.of_nat (length b) / 4)). lia.
      - exists (Z.to_nat (Z.of_nat (length b) / 4 + 1)). lia.
      - exists (Z.to_nat (Z.of_nat (length b) / 4 + 1)). lia. }
    assert (decodedSize a s = Z.of_nat (3 * r - length p)) as Hds.
    { unfold decodedSize, validEncodingBytes. rewrite Es. destruct (if _ =? 0 then _ else _) eqn:Eg in Hv |- *;
        [|done]. destruct (Z.eqb_spec (Z.of_nat (length b)) 0); [lia|]. rewrite Z.quot_div_nonneg by lia. symmetry.
      apply (Z.div_unique_pos _ _ _ (Z.of_nat (length b) * 3 - 4 * Z.of_nat (3 * r - length p))); lia. }
    unfold decode_array. rewrite read_at_all by done. cbn [obind].
    assert (isValid a s = true) as -> by (unfold isValid, validEncodingBytes; by rewrite Es). rewrite Hds.
    set (buf := fill <$> seq 0 _).
    assert (length buf = (3 * r - length p + 2)%nat) as Hbuf by (unfold buf; rewrite length_fmap, length_seq; lia).
    assert (length s = (4 * r)%nat) as Hsl by (rewrite Hst, length_app; lia).
    destruct (decode_loop_total a r (length s) (Z.of_nat (length s)) [] s [NUL]
      (Z.of_nat (3 * r - length p)) [] buf) as (data & E & Hlen); try (simpl; lia).
    { rewrite Hst. apply Forall_app. split; (eapply Forall_impl; [eassumption|]); intros c Hc;
        apply decodeChar_in; [by left|by right]. }
    cbn [app length] in E. change (Z.of_nat 0) with 0 in E. rewrite Nat2Z.id, E. cbn [obind].
    eexists; split; [done|]. rewrite length_take. simpl in Hlen. lia.
  - exists []. split; [done|]. unfold isValid in Hv. apply Z.ltb_ge in Hv. unfold decodedSize.
    assert (validEncodingBytes a s = 0) as ->; [|done].
    unfold validEncodingBytes in *. destruct (search a s) as [[n1 n2]|] eqn:Es; [|done].
    apply search_spec in Es as (b & p & t & _ & -> & ->). destruct (if _ =? 0 then _ else _); lia.
Qed.

(** Without a final newline, decoding any string ends without leaving
    its buffers: a string the syntax check accepts decodes to exactly
    [decodedSize] octets, any other string is refused with no data. *)
Theorem base64_decode_total a fill s :
  last s <> Some LF -> Z.of_nat (length s) <= INT_MAX ->
  exists data, decode a fill s = Ok (isValid a s, data) /\ Z.of_nat (length data) = decodedSize a s
    /\ (isValid a s = false -> data = []).
Proof.
  intros Hlf _. destruct (decode_no_newline a fill s Hlf) as (data & E & Hlen). exists data. split_and!; try done.
  intros Hv. apply nil_length_inv. unfold isValid in Hv. apply Z.ltb_ge in Hv. unfold decodedSize in Hlen.
  destruct (Z.eqb_spec (validEncodingBytes a s) 0); [lia|].
  assert (0 <= validEncodingBytes a s); [|lia]. unfold validEncodingBytes.
  destruct (search a s) as [[n1 n2]|] eqn:Es; [|lia].
  apply search_spec in Es as (b & q & t & _ & -> & _). destruct (if _ =? 0 then _ else _); lia.
Qed.

End Theorems.

(** ** A search engine *)

Fixpoint span (p : ascii -> bool) (l : list ascii) : list ascii * list ascii :=
  match l with
  | c :: l' => if p c then let r := span p l' in (c :: fst r, snd r) else ([], l)
  | [] => ([], [])
  end.

Definition regex_search : Base64Search := fun a s =>
  let b := span (fun c => bool_decide (c ∈ take 64 (alphabet_chars a))) s in
  let p := span (fun c => bool_decide (c = letter a PAD_CHAR)) (snd b) in
  if bool_decide (fst b <> []) && (length (fst p) <=? 2)%nat && bool_decide (snd p = [] \/ snd p = [LF])
  then Some (Z.of_nat (length (fst b)), Z.of_nat (length (fst p))) else None.

Lemma span_spec p l : l = fst (span p l) ++ snd (span p l) /\ Forall (fun c => p c = true) (fst (span p l)).
Proof.
  induction l as [|c l [IH1 IH2]]; simpl; [done|]. destruct (p c) eqn:E; simpl; [|done].
  split; [by rewrite <- IH1|by constructor].
Qed.

Lemma span_app p l r :
  Forall (fun c => p c = true) l -> (forall c r', r = c :: r' -> p c = false) -> span p (l ++ r) = (l, r).
Proof.
  intros Hl Hr. induction Hl as [|c l Hc Hl IH]; simpl.
  - destruct r as [|c r]; [done|]. simpl. by rewrite (Hr c r).
  - by rewrite Hc, IH.
Qed.

Lemma regex_search_laws : @Base64SearchLaws regex_search.
Proof.
  intros a s n1 n2. unfold search, regex_search. split.
  - set (b := span _ s). set (p := span _ (snd b)).
    destruct (bool_decide (fst b <> []) && _ && _) eqn:E; [|done]. intros [= <- <-].
    apply andb_true_iff in E as [E Et]. apply andb_true_iff in E as [Eb Ep].
    apply bool_decide_eq_true in Et, Eb. apply Nat.leb_le in Ep.
    destruct (span_spec (fun c => bool_decide (c ∈ take 64 (alphabet_chars a))) s) as [Hs Hb].
    destruct (span_spec (fun c => bool_decide (c = letter a PAD_CHAR)) (snd b)) as [Hr Hp]. fold b in Hs, Hb. fold p in Hr, Hp.
    exists (fst b), (fst p), (snd p). split; [|done]. split_and!; try done.
    + by rewrite <- Hr.
    + eapply Forall_impl; [exact Hb|]. intros c Hc. by apply bool_decide_eq_true in Hc.
    + eapply Forall_impl; [exact Hp|]. intros c Hc. by apply bool_decide_eq_true in Hc.
  - intros (b & p & t & (-> & Hbne & Hb & Hlen & Hp & Ht) & -> & ->).
    assert (forall a, letter a PAD_CHAR ∉ take 64 (alphabet_chars a) /\ LF ∉ take 64 (alphabet_chars a)
      /\ LF <> letter a PAD_CHAR) as Hdis by (intros a'; destruct a'; apply (bool_decide_unpack _); vm_compute; done).
    destruct (Hdis a) as (D1 & D2 & D3).
    rewrite (span_app _ b (p ++ t)).
    + cbn [fst snd]. rewrite (span_app _ p t).
      * cbn [fst snd]. rewrite bool_decide_true by done. rewrite (proj2 (Nat.leb_le _ _)) by done.
        by rewrite bool_decide_true by done.
      * eapply Forall_impl; [exact Hp|]. intros c ->. by apply bool_decide_eq_true.
      * intros c r' ->. destruct Ht as [|[= -> ->]]; [done|]. by apply bool_decide_eq_false.
    + eapply Forall_impl; [exact Hb|]. intros c Hc. by apply bool_decide_eq_true.
    + intros c r' E. apply bool_decide_eq_false. destruct p as [|c' p]; simpl in E.
      * subst t. destruct Ht as [|[= -> ->]]; done.
      * injection E as -> _. apply Forall_cons in Hp as [-> _]. done.
Qed.

Lemma base64_roundtrip_witness :
  encode SipTokenSafeAlphabet (bytes "sipX") = bytes "c2lwWA''"
  /\ @decode regex_search SipTokenSafeAlphabet (fun _ => NUL) (bytes "c2lwWA''") = Ok (true, bytes "sipX").
Proof.
  split; [vm_compute; reflexivity|].
  apply (@base64_roundtrip regex_search regex_search_laws SipTokenSafeAlphabet (fun _ => NUL) (bytes "sipX"));
    [done|vm_compute; done].
Defined.

Lemma base64_newline_accepted_witness :
  @isValid regex_search RFC4648MimeAlphabet (bytes "QUJD" ++ [LF]) = true
  /\ @decode regex_search RFC4648MimeAlphabet (fun _ => NUL) (bytes "QUJD" ++ [LF]) = UB.
Proof.
  apply (@base64_newline_accepted regex_search regex_search_laws RFC4648MimeAlphabet (fun _ => NUL) (bytes "ABC"));
    [done|vm_compute; done].
Defined.

Lemma base64_decode_total_witness :
  exists data, @decode regex_search RFC4648MimeAlphabet (fun _ => NUL) (bytes "QUI=") = Ok (true, data)
    /\ Z.of_nat (length data) = 2.
Proof.
  destruct (@base64_decode_total regex_search regex_search_laws RFC4648MimeAlphabet (fun _ => NUL) (bytes "QUI="))
    as (data & E & Hl & _); [vm_compute; done|vm_compute; done|].
  exists data. split; [exact E|exact Hl].
Defined.
