(* ===== verification/NetMd5Codec.v ===== *)
(** * NetMd5Codec: the MD5 digest

    src/sipXtackLib/src/net/NetMd5Codec.cpp.  Words are 32-bit integers in Z
    with the wrap-around of [UINT4] written out; the context keeps four state
    words, the 64-bit count of message bits in two words and a 64-byte
    buffer.  Copies into the buffer go through [write_at], so a copy that
    does not fit is [UB]. *)
From Stdlib Require Import ZArith Lia Ascii String.
From stdpp Require Import base list strings.
From S2P Require Import Prelude NetBase64Codec NetBase64CodecSpec.
Local Open Scope Z_scope.

Definition S11 : Z := 7.
Definition S12 : Z := 12.
Definition S13 : Z := 17.
Definition S14 : Z := 22.
Definition S21 : Z := 5.
Definition S22 : Z := 9.
Definition S23 : Z := 14.
Definition S24 : Z := 20.
Definition S31 : Z := 4.
Definition S32 : Z := 11.
Definition S33 : Z := 16.
Definition S34 : Z := 23.
Definition S41 : Z := 6.
Definition S42 : Z := 10.
Definition S43 : Z := 15.
Definition S44 : Z := 21.

(** F, G, H and I on 32-bit words; [~x] flips all 32 bits. *)
Module Round.
Definition compl (x : Z) : Z := Z.lxor x (2 ^ 32 - 1).
Definition F (x y z : Z) : Z := Z.lor (Z.land x y) (Z.land (compl x) z).
Definition G (x y z : Z) : Z := Z.lor (Z.land x z) (Z.land y (compl z)).
Definition H (x y z : Z) : Z := Z.lxor (Z.lxor x y) z.
Definition I (x y z : Z) : Z := Z.lxor y (Z.lor x (compl z)).
End Round.

Definition ROTATE_LEFT (x n : Z) : Z := Z.lor (to_uint (Z.shiftl x n)) (Z.shiftr x (32 - n)).

(** The macros FF, GG, HH and II: the new value of [a]. *)
Definition round_step (f : Z -> Z -> Z -> Z) (a b c d x s ac : Z) : Z :=
  to_uint (ROTATE_LEFT (to_uint (a + (f b c d + x + ac))) s + b).
Definition FF : Z -> Z -> Z -> Z -> Z -> Z -> Z -> Z := round_step Round.F.
Definition GG : Z -> Z -> Z -> Z -> Z -> Z -> Z -> Z := round_step Round.G.
Definition HH : Z -> Z -> Z -> Z -> Z -> Z -> Z -> Z := round_step Round.H.
Definition II : Z -> Z -> Z -> Z -> Z -> Z -> Z -> Z := round_step Round.I.

Definition state4 : Type := (Z * Z * Z * Z)%type.

(** Decode: little-endian words. *)
Fixpoint Decode (input : list ascii) : list Z :=
  match input with
  | b0 :: b1 :: b2 :: b3 :: input' =>
      Z.lor (Z.lor (Z.lor (uchar b0) (Z.shiftl (uchar b1) 8)) (Z.shiftl (uchar b2) 16)) (Z.shiftl (uchar b3) 24)
      :: Decode input'
  | _ => []
  end.

(** Encode: the octets of words. *)
Definition Encode (input : list Z) : list ascii :=
  flat_map (fun w => [chr (Z.land w 255); chr (Z.land (Z.shiftr w 8) 255);
                      chr (Z.land (Z.shiftr w 16) 255); chr (Z.land (Z.shiftr w 24) 255)]) input.

(** MD5Transform *)
Definition MD5Transform (state : state4) (block : list ascii) : state4 :=
  let '(a0, b0, c0, d0) := state in
  let w := Decode block in
  let x := fun i : Z => nth (Z.to_nat i) w 0 in
  let a := a0 in let b := b0 in let c := c0 in let d := d0 in
  let a := FF a b c d (x 0) S11 3614090360 in
  let d := FF d a b c (x 1) S12 3905402710 in
  let c := FF c d a b (x 2) S13 606105819 in
  let b := FF b c d a (x 3) S14 3250441966 in
  let a := FF a b c d (x 4) S11 4118548399 in
  let d := FF d a b c (x 5) S12 1200080426 in
  let c := FF c d a b (x 6) S13 2821735955 in
  let b := FF b c d a (x 7) S14 4249261313 in
  let a := FF a b c d (x 8) S11 1770035416 in
  let d := FF d a b c (x 9) S12 2336552879 in
  let c := FF c d a b (x 10) S13 4294925233 in
  let b := FF b c d a (x 11) S14 2304563134 in
  let a := FF a b c d (x 12) S11 1804603682 in
  let d := FF d a b c (x 13) S12 4254626195 in
  let c := FF c d a b (x 14) S13 2792965006 in
  let b := FF b c d a (x 15) S14 1236535329 in
  let a := GG a b c d (x 1) S21 4129170786 in
  let d := GG d a b c (x 6) S22 3225465664 in
  let c := GG c d a b (x 11) S23 643717713 in
  let b := GG b c d a (x 0) S24 3921069994 in
  let a := GG a b c d (x 5) S21 3593408605 in
  let d := GG d a b c (x 10) S22 38016083 in
  let c := GG c d a b (x 15) S23 3634488961 in
  let b := GG b c d a (x 4) S24 3889429448 in
  let a := GG a b c d (x 9) S21 568446438 in
  let d := GG d a b c (x 14) S22 3275163606 in
  let c := GG c d a b (x 3) S23 4107603335 in
  let b := GG b c d a (x 8) S24 1163531501 in
  let a := GG a b c d (x 13) S21 2850285829 in
  let d := GG d a b c (x 2) S22 4243563512 in
  let c := GG c d a b (x 7) S23 1735328473 in
  let b := GG b c d a (x 12) S24 2368359562 in
  let a := HH a b c d (x 5) S31 4294588738 in
  let d := HH d a b c (x 8) S32 2272392833 in
  let c := HH c d a b (x 11) S33 1839030562 in
  let b := HH b c d a (x 14) S34 4259657740 in
  let a := HH a b c d (x 1) S31 2763975236 in
  let d := HH d a b c (x 4) S32 1272893353 in
  let c := HH c d a b (x 7) S33 4139469664 in
  let b := HH b c d a (x 10) S34 3200236656 in
  let a := HH a b c d (x 13) S31 681279174 in
  let d := HH d a b c (x 0) S32 3936430074 in
  let c := HH c d a b (x 3) S33 3572445317 in
  let b := HH b c d a (x 6) S34 76029189 in
  let a := HH a b c d (x 9) S31 3654602809 in
  let d := HH d a b c (x 12) S32 3873151461 in
  let c := HH c d a b (x 15) S33 530742520 in
  let b := HH b c d a (x 2) S34 3299628645 in
  let a := II a b c d (x 0) S41 4096336452 in
  let d := II d a b c (x 7) S42 1126891415 in
  let c := II c d a b (x 14) S43 2878612391 in
  let b := II b c d a (x 5) S44 4237533241 in
  let a := II a b c d (x 12) S41 1700485571 in
  let d := II d a b c (x 3) S42 2399980690 in
  let c := II c d a b (x 10) S43 4293915773 in
  let b := II b c d a (x 1) S44 2240044497 in
  let a := II a b c d (x 8) S41 1873313359 in
  let d := II d a b c (x 15) S42 4264355552 in
  let c := II c d a b (x 6) S43 2734768916 in
  let b := II b c d a (x 13) S44 1309151649 in
  let a := II a b c d (x 4) S41 4149444226 in
  let d := II d a b c (x 11) S42 3174756917 in
  let c := II c d a b (x 2) S43 718787259 in
  let b := II b c d a (x 9) S44 3951481745 in
  (to_uint (a0 + a), to_uint (b0 + b), to_uint (c0 + c), to_uint (d0 + d)).

(** MD5_CTX_PT *)
Record MD5_CTX : Type := mkCtx { ctx_state : state4; count0 : Z; count1 : Z; buffer : list ascii }.

(** MD5Init; the buffer is not initialised. *)
Definition MD5_INIT_STATE : state4 := (1732584193, 4023233417, 2562383102, 271733878).
Definition MD5Init (fill : nat -> ascii) : MD5_CTX := mkCtx MD5_INIT_STATE 0 0 (fill <$> seq 0 64).

(** [for (i = partLen; i + 63 < inputLen; i += 64)] *)
Fixpoint update_loop (fuel : nat) (state : state4) (input : list ascii) (i : Z) : outcome (state4 * Z) :=
  if i + 63 <? Z.of_nat (length input) then
    match fuel with
    | O => UB
    | S fuel' =>
        let! block := read_at input i 64 in
        update_loop fuel' (MD5Transform state block) input (i + 64)
    end
  else Ok (state, i).

(** MD5Update *)
Definition MD5Update (context : MD5_CTX) (input : list ascii) : outcome MD5_CTX :=
  let inputLen := Z.of_nat (length input) in
  let index := Z.land (Z.shiftr (count0 context) 3) 63 in
  let bits := to_uint (Z.shiftl (to_uint inputLen) 3) in
  let c0 := to_uint (count0 context + bits) in
  let c1 := if c0 <? bits then to_uint (count1 context + 1) else count1 context in
  let c1 := to_uint (c1 + Z.shiftr (to_uint inputLen) 29) in
  let partLen := 64 - index in
  if partLen <=? inputLen then
    let! src := read_at input 0 partLen in
    let! buf := write_at (buffer context) index src in
    let! r := update_loop (length input) (MD5Transform (ctx_state context) buf) input partLen in
    let! rest := read_at input (snd r) (inputLen - snd r) in
    let! buf' := write_at buf 0 rest in
    Ok (mkCtx (fst r) c0 c1 buf')
  else
    let! buf' := write_at (buffer context) index input in
    Ok (mkCtx (ctx_state context) c0 c1 buf').

Definition PADDING : list ascii := chr 128 :: replicate 63 NUL.

(** MD5Final: the digest (the context is cleared afterwards). *)
Definition MD5Final (context : MD5_CTX) : outcome (list ascii) :=
  let bits := Encode [count0 context; count1 context] in
  let index := Z.land (Z.shiftr (count0 context) 3) 63 in
  let padLen := if index <? 56 then 56 - index else 120 - index in
  let! pad := read_at PADDING 0 padLen in
  let! c1 := MD5Update context pad in
  let! c2 := MD5Update c1 bits in
  let '(a, b, c, d) := ctx_state c2 in
  Ok (Encode [a; b; c; d]).

(** ** The class *)

(** [mFinalized] and the context; the destructed context is not used again. *)
Record NetMd5Codec : Type := mkCodec { mContext : MD5_CTX; mFinalized : bool }.

Definition NetMd5Codec_default (fill : nat -> ascii) : NetMd5Codec := mkCodec (MD5Init fill) false.

(** NetMd5Codec::hash *)
Definition hash (m : NetMd5Codec) (input : list ascii) : outcome NetMd5Codec :=
  if mFinalized m then AssertFail
  else let! c := MD5Update (mContext m) input in Ok (mkCodec c false).

Fixpoint hash_all (m : NetMd5Codec) (inputs : list (list ascii)) : outcome NetMd5Codec :=
  match inputs with
  | [] => Ok m
  | i :: inputs' => let! m1 := hash m i in hash_all m1 inputs'
  end.

Definition hex_digit (n : Z) : ascii := nth (Z.to_nat n) (bytes "0123456789abcdef") NUL.
Definition hex (digest : list ascii) : list ascii :=
  flat_map (fun c => [hex_digit (Z.shiftr (uchar c) 4); hex_digit (Z.land (uchar c) 15)]) digest.

(** NetMd5Codec::appendHashValue *)
Definition appendHashValue (m : NetMd5Codec) (output : list ascii) : outcome (list ascii * NetMd5Codec) :=
  if mFinalized m then AssertFail
  else let! digest := MD5Final (mContext m) in Ok (output ++ hex digest, mkCodec (mContext m) true).

Definition BASE64_ENCODED_SIZE : nat := 22.

(** NetMd5Codec::appendBase64Sig *)
Definition appendBase64Sig (m : NetMd5Codec) (output : list ascii) (alphabet : Base64Alphabet)
    : outcome (list ascii * NetMd5Codec) :=
  if mFinalized m then AssertFail
  else let! digest := MD5Final (mContext m) in
       Ok (output ++ take BASE64_ENCODED_SIZE (encode alphabet digest), mkCodec (mContext m) true).

(** NetMd5Codec::encode and NetMd5Codec::encodeBase64Sig of a C string *)
Definition md5_encode (fill : nat -> ascii) (text : list ascii) : outcome (list ascii) :=
  let! c := MD5Update (MD5Init fill) (cstr text) in
  let! digest := MD5Final c in Ok (hex digest).
Definition md5_encodeBase64Sig (fill : nat -> ascii) (text : list ascii) (alphabet : Base64Alphabet)
    : outcome (list ascii) :=
  let! c := MD5Update (MD5Init fill) (cstr text) in
  let! digest := MD5Final c in Ok (take BASE64_ENCODED_SIZE (encode alphabet digest)).

(** * Streaming MD5 equals MD5 of the whole message

    [md5] is the digest as RFC 1321 describes it: pad the message to a
    multiple of 64 octets, ending in its bit length, and run the block
    transformation over the blocks.  Feeding a message to MD5Update in
    pieces of any sizes and calling MD5Final gives that digest, whatever the
    uninitialised buffer held. *)
(** ** The reference *)

(** The first [n] blocks of [l]. *)
Fixpoint absorb (n : nat) (st : state4) (l : list ascii) : state4 :=
  match n with O => st | S n' => absorb n' (MD5Transform st (take 64 l)) (drop 64 l) end.

(** 0x80, zeros up to 56 octets modulo 64, the 64-bit count of bits. *)
Definition padding (len : nat) : list ascii :=
  let r := (len mod 64)%nat in
  (chr 128 :: replicate (if (r <? 56)%nat then 55 - r else 119 - r) NUL)
  ++ Encode [(8 * Z.of_nat len) mod 2 ^ 32; (8 * Z.of_nat len) / 2 ^ 32 mod 2 ^ 32].

Definition encode_state (st : state4) : list ascii := let '(a, b, c, d) := st in Encode [a; b; c; d].

Definition md5 (msg : list ascii) : list ascii :=
  let l := msg ++ padding (length msg) in
  encode_state (absorb (length l / 64) MD5_INIT_STATE l).

(** ** Blocks *)

Lemma absorb_add m n st l : absorb (m + n) st l = absorb n (absorb m st l) (drop (64 * m) l).
Proof.
  revert st l. induction m as [|m IH]; intros st l; [done|].
  cbn [Nat.add absorb]. rewrite IH. f_equal. rewrite drop_drop. f_equal. lia.
Qed.

Lemma absorb_prefix n st l r : (64 * n <= length l)%nat -> absorb n st (l ++ r) = absorb n st l.
Proof.
  revert st l. induction n as [|n IH]; intros st l Hl; [done|]. cbn [absorb].
  rewrite take_app_le, drop_app_le by lia. apply IH. rewrite length_drop. lia.
Qed.

Lemma absorb_last n st l :
  absorb (S n) st l = MD5Transform (absorb n st l) (take 64 (drop (64 * n) l)).
Proof. replace (S n) with (n + 1)%nat by lia. by rewrite absorb_add. Qed.

(** ** The invariant of a context *)

Record holds_msg (c : MD5_CTX) (msg : list ascii) : Prop := {
  hm_buffer : length (buffer c) = 64%nat;
  hm_tail : take (length msg mod 64) (buffer c) = drop (64 * (length msg / 64)) msg;
  hm_state : ctx_state c = absorb (length msg / 64) MD5_INIT_STATE msg;
  hm_count0 : count0 c = (8 * Z.of_nat (length msg)) mod 2 ^ 32;
  hm_count1 : count1 c = (8 * Z.of_nat (length msg)) / 2 ^ 32 mod 2 ^ 32
}.

Lemma init_holds fill : holds_msg (MD5Init fill) [].
Proof. split; simpl; try done. Qed.

Lemma index_spec len :
  Z.land (Z.shiftr ((8 * Z.of_nat len) mod 2 ^ 32) 3) 63 = Z.of_nat (len mod 64).
Proof.
  change 63 with (Z.ones 6). rewrite Z.land_ones, Z.shiftr_div_pow2 by lia.
  rewrite Nat2Z.inj_mod. change (2 ^ 32) with (8 * 2 ^ 29).
  rewrite Z.mul_mod_distr_l by lia. change (2 ^ 3) with 8.
  rewrite (Z.mul_comm 8), Z.div_mul by lia.
  change (2 ^ 29) with (2 ^ 6 * 2 ^ 23). rewrite Z.rem_mul_r by lia.
  rewrite (Z.mul_comm (2 ^ 6)), Z.mod_add by lia. by rewrite Z.mod_mod by lia.
Qed.

(** The two-word counter adds the bits of the input. *)
Lemma count_update len n :
  0 <= n < 2 ^ 32 -> 0 <= len ->
  let bits := to_uint (Z.shiftl (to_uint n) 3) in
  let c0 := to_uint ((8 * len) mod 2 ^ 32 + bits) in
  let c1 := (8 * len) / 2 ^ 32 mod 2 ^ 32 in
  c0 = (8 * (len + n)) mod 2 ^ 32
  /\ to_uint ((if c0 <? bits then to_uint (c1 + 1) else c1) + Z.shiftr (to_uint n) 29)
     = (8 * (len + n)) / 2 ^ 32 mod 2 ^ 32.
Proof.
  intros Hn Hl. simpl. unfold to_uint.
  rewrite (Z.mod_small n) by lia. rewrite Z.shiftl_mul_pow2, Z.shiftr_div_pow2 by lia.
  change (2 ^ 3) with 8. set (M := 2 ^ 32) in *.
  assert (HM : 0 < M) by (unfold M; lia).
  pose proof (Z.div_mod (8 * len) M ltac:(lia)) as E1. pose proof (Z.mod_pos_bound (8 * len) M HM) as B1.
  pose proof (Z.div_mod (n * 8) M ltac:(lia)) as E2. pose proof (Z.mod_pos_bound (n * 8) M HM) as B2.
  assert (n / 2 ^ 29 = n * 8 / M) as ->.
  { unfold M. change (2 ^ 32) with (2 ^ 29 * 8). by rewrite Z.div_mul_cancel_r by lia. }
  set (q1 := 8 * len / M) in *. set (r1 := (8 * len) mod M) in *.
  set (q2 := n * 8 / M) in *. set (r2 := (n * 8) mod M) in *.
  replace (8 * (len + n)) with ((r1 + r2) + (q1 + q2) * M) by lia.
  assert ((r1 + r2) / M = 0 \/ (r1 + r2) / M = 1) as Hq.
  { assert (0 <= (r1 + r2) / M) by (apply Z.div_pos; lia).
    assert ((r1 + r2) / M < 2) by (apply Z.div_lt_upper_bound; lia). lia. }
  pose proof (Z.div_mod (r1 + r2) M ltac:(lia)) as E3. pose proof (Z.mod_pos_bound (r1 + r2) M HM) as B3.
  rewrite Z.mod_add, Z.div_add by lia. split; [done|].
  destruct (Z.ltb_spec ((r1 + r2) mod M) r2) as [Hlt|Hge].
  - assert ((r1 + r2) / M = 1) as -> by lia.
    rewrite Z.add_mod_idemp_l, <- Z.add_assoc, Z.add_mod_idemp_l by lia. f_equal. lia.
  - assert ((r1 + r2) / M = 0) as -> by lia.
    rewrite Z.add_mod_idemp_l by lia. f_equal; lia.
Qed.

Lemma update_loop_spec fuel st input i :
  (i <= length input)%nat -> (length input - i <= 64 * fuel)%nat ->
  let K := ((length input - i) / 64)%nat in
  update_loop fuel st input (Z.of_nat i) = Ok (absorb K st (drop i input), Z.of_nat (i + 64 * K)).
Proof.
  revert st i. induction fuel as [|fuel IH]; intros st i Hi Hf; cbv zeta; cbn [update_loop].
  - destruct (Z.ltb_spec (Z.of_nat i + 63) (Z.of_nat (length input))); [lia|].
    rewrite Nat.div_small by lia. by rewrite Nat.mul_0_r, Nat.add_0_r.
  - destruct (Z.ltb_spec (Z.of_nat i + 63) (Z.of_nat (length input))) as [Hlt|Hge].
    + rewrite read_at_ok by lia. cbn [obind]. rewrite Nat2Z.id. change (Z.to_nat 64) with 64%nat.
      replace (Z.of_nat i + 64) with (Z.of_nat (i + 64)) by lia.
      rewrite IH by lia.
      replace ((length input - i) / 64)%nat with (S ((length input - (i + 64)) / 64))%nat.
      * cbn [absorb]. rewrite drop_drop. do 2 f_equal. lia.
      * replace (length input - i)%nat with (length input - (i + 64) + 1 * 64)%nat by lia.
        rewrite Nat.div_add by lia. lia.
    + rewrite Nat.div_small by lia. by rewrite Nat.mul_0_r, Nat.add_0_r.
Qed.


Lemma MD5Update_holds c msg input :
  holds_msg c msg -> Z.of_nat (length input) < 2 ^ 32 ->
  exists c', MD5Update c input = Ok c' /\ holds_msg c' (msg ++ input).
Proof.
  intros [Hbuf Htail Hst H0 H1] Hn. unfold MD5Update. rewrite H0, H1, index_spec.
  destruct (count_update (Z.of_nat (length msg)) (Z.of_nat (length input))) as [C0 C1]; [lia..|].
  cbv zeta in C0, C1 |- *. rewrite C1, C0. clear C0 C1.
  pose proof (Nat.div_mod (length msg) 64 ltac:(lia)) as Edm.
  set (q := (length msg / 64)%nat) in *. set (r := (length msg mod 64)%nat) in *.
  assert (r < 64)%nat as Hr by (apply Nat.mod_upper_bound; lia).
  set (tail := drop (64 * q) msg) in *.
  assert (length tail = r) as Htl by (unfold tail; rewrite length_drop; lia).
  destruct (list_split_at (buffer c) r) as (b1 & b2 & Eb & Hb1); [lia|].
  rewrite Eb, <- Hb1, take_app_length in Htail. subst b1. rewrite Eb in *. rewrite length_app in Hbuf.
  assert (drop (64 * q) (msg ++ input) = tail ++ input) as Hdrop by (rewrite drop_app_le by lia; done).
  destruct (Z.leb_spec (64 - Z.of_nat r) (Z.of_nat (length input))) as [Hge|Hlt].
  - destruct (list_split_at input (64 - r)) as (i1 & i2 & Ei & Hi1); [lia|].
    assert (read_at input 0 (64 - Z.of_nat r) = Ok i1) as ->
      by (rewrite Ei; apply (read_at_split [] i1 i2); simpl; lia). cbn [obind].
    replace (tail ++ b2) with (tail ++ b2 ++ []) by (by rewrite app_nil_r).
    rewrite (write_at_split tail b2 i1 []) by lia. rewrite app_nil_r. cbn [obind].
    replace (64 - Z.of_nat r) with (Z.of_nat (64 - r)) by lia.
    rewrite update_loop_spec by lia. cbv zeta. cbn [obind fst snd].
    set (K := ((length input - (64 - r)) / 64)%nat).
    pose proof (Nat.div_mod (length input - (64 - r)) 64 ltac:(lia)) as EK. fold K in EK.
    pose proof (Nat.mod_upper_bound (length input - (64 - r)) 64 ltac:(lia)) as HK.
    set (rest := drop (64 - r + 64 * K) input).
    assert (read_at input (Z.of_nat (64 - r + 64 * K)) (Z.of_nat (length input) - Z.of_nat (64 - r + 64 * K)) = Ok rest) as ->.
    { rewrite read_at_ok by lia. unfold rest. rewrite Nat2Z.id. f_equal. apply take_ge. rewrite length_drop. lia. }
    cbn [obind]. assert (length rest = (length input - (64 - r)) mod 64)%nat as Hrest by (unfold rest; rewrite length_drop; lia).
    destruct (list_split_at (tail ++ i1) (length rest)) as (f1 & f2 & Ef & Hf1); [rewrite length_app; lia|].
    rewrite Ef. rewrite (write_at_split [] f1 rest f2) by done. cbn [obind]. eexists; split; [done|].
    assert (length (tail ++ i1) = 64%nat) as H64 by (rewrite length_app; lia).
    assert ((length (msg ++ input)) / 64 = q + 1 + K)%nat as Hq'.
    { rewrite length_app. symmetry. apply (Nat.div_unique _ _ _ (length rest)); lia. }
    assert ((length (msg ++ input)) mod 64 = length rest)%nat as Hr'.
    { rewrite length_app. symmetry. apply (Nat.mod_unique _ _ (q + 1 + K)); lia. }
    assert (drop (64 - r) input = i2) as Hi2 by (rewrite Ei, <- Hi1; apply drop_app_length).
    split; cbn [buffer ctx_state count0 count1 app].
    + rewrite Ef, length_app in H64. rewrite length_app. lia.
    + rewrite Hr', Hq', take_app_length. unfold rest.
      rewrite drop_app_ge by lia. f_equal. lia.
    + rewrite Hq', absorb_add, Nat.add_1_r, absorb_last, Hdrop.
      replace (take 64 (tail ++ input)) with (tail ++ i1).
      2: { rewrite Ei, app_assoc, <- H64. by rewrite take_app_length. }
      rewrite (absorb_prefix q _ msg input) by lia. rewrite Hst, Ef. f_equal.
      rewrite drop_app_ge by lia. f_equal. lia.
    + rewrite length_app. f_equal. lia.
    + rewrite length_app. do 2 f_equal. lia.
  - destruct (list_split_at b2 (length input)) as (b3 & b4 & -> & Hb3); [lia|].
    rewrite (write_at_split tail b3 input b4) by lia. cbn [obind]. eexists; split; [done|].
    assert ((length (msg ++ input)) / 64 = q)%nat as Hq'.
    { rewrite length_app. symmetry. apply (Nat.div_unique _ _ _ (r + length input)); lia. }
    assert ((length (msg ++ input)) mod 64 = r + length input)%nat as Hr'.
    { rewrite length_app. symmetry. apply (Nat.mod_unique _ _ q); lia. }
    split; cbn [buffer ctx_state count0 count1 app].
    + rewrite !length_app in *. lia.
    + rewrite Hr', Hq', Hdrop, app_assoc, <- Htl, <- length_app. apply take_app_length.
    + rewrite Hq', (absorb_prefix q) by lia. done.
    + rewrite length_app. f_equal. lia.
    + rewrite length_app. do 2 f_equal. lia.
Qed.

Lemma MD5Final_holds c msg : holds_msg c msg -> MD5Final c = Ok (md5 msg).
Proof.
  intros Hm. pose proof Hm as [_ _ _ H0 H1]. unfold MD5Final. rewrite H0, H1, index_spec.
  pose proof (Nat.div_mod (length msg) 64 ltac:(lia)) as Edm.
  set (r := (length msg mod 64)%nat) in *.
  assert (r < 64)%nat as Hr by (apply Nat.mod_upper_bound; lia).
  set (k := (if (r <? 56)%nat then 55 - r else 119 - r)%nat).
  set (pad := chr 128 :: replicate k NUL).
  assert (k <= 63)%nat as Hk by (unfold k; destruct (Nat.ltb_spec r 56); lia).
  assert (read_at PADDING 0 (if Z.of_nat r <? 56 then 56 - Z.of_nat r else 120 - Z.of_nat r) = Ok pad) as ->.
  { replace (if Z.of_nat r <? 56 then _ else _) with (Z.of_nat (S k)).
    2: { unfold k. destruct (Nat.ltb_spec r 56), (Z.ltb_spec (Z.of_nat r) 56); lia. }
    unfold PADDING, pad. replace 63%nat with (k + (63 - k))%nat by lia. rewrite replicate_add.
    change (chr 128 :: replicate k NUL ++ replicate (63 - k) NUL)
      with ([] ++ (chr 128 :: replicate k NUL) ++ replicate (63 - k) NUL).
    apply read_at_split; [done|]. simpl. by rewrite length_replicate. }
  cbn [obind]. destruct (MD5Update_holds c msg pad Hm) as (c1 & -> & Hm1).
  { unfold pad. simpl. rewrite length_replicate. lia. }
  cbn [obind]. set (bits := Encode _).
  destruct (MD5Update_holds c1 (msg ++ pad) bits Hm1) as (c2 & -> & [_ _ Hst _ _]); [done|].
  cbn [obind]. unfold md5, padding. fold r k pad bits. rewrite app_assoc. unfold encode_state. rewrite Hst.
  by destruct (absorb _ _ _) as [[[a b] cc] d].
Qed.

Lemma length_encode_state st : length (encode_state st) = 16%nat.
Proof. by destruct st as [[[a b] c] d]. Qed.

Lemma length_md5 msg : length (md5 msg) = 16%nat.
Proof. apply length_encode_state. Qed.

(** A piece that fits the [unsigned] length of MD5Update. *)
Definition short (l : list ascii) : Prop := Z.of_nat (length l) < 2 ^ 32.

(** Hashing any pieces holds their concatenation. *)
Lemma hash_all_holds inputs m msg :
  holds_msg (mContext m) msg -> mFinalized m = false ->
  Forall short inputs ->
  exists m', hash_all m inputs = Ok m' /\ holds_msg (mContext m') (msg ++ concat inputs) /\ mFinalized m' = false.
Proof.
  intros Hm Hf Hi. revert m msg Hm Hf. induction Hi as [|i inputs Hlen Hi IH]; intros m msg Hm Hf; simpl.
  - exists m. by rewrite app_nil_r.
  - unfold hash. rewrite Hf. destruct (MD5Update_holds _ _ i Hm Hlen) as (c & -> & Hm'). cbn [obind].
    rewrite app_assoc. by apply IH.
Qed.

(** C39: Hashing a message in pieces of any sizes below 4 GiB and then asking
    for the value, in hexadecimal or as a base64 signature, gives the MD5
    digest of the concatenated pieces; asking a second time, or hashing more
    input afterwards, fails the assertion. *)
Theorem md5_streaming fill inputs output a :
  Forall short inputs ->
  exists m m', hash_all (NetMd5Codec_default fill) inputs = Ok m
    /\ appendHashValue m output = Ok (output ++ hex (md5 (concat inputs)), m')
    /\ appendBase64Sig m output a = Ok (output ++ take 22 (encode a (md5 (concat inputs))), m')
    /\ appendHashValue m' output = AssertFail /\ appendBase64Sig m' output a = AssertFail
    /\ (forall i, hash m' i = AssertFail).
Proof.
  intros Hi. destruct (hash_all_holds inputs (NetMd5Codec_default fill) [] (init_holds fill) eq_refl Hi)
    as (m & E & Hm & Hf). simpl in Hm.
  exists m, (mkCodec (mContext m) true). split; [done|]. unfold appendHashValue, appendBase64Sig, hash. rewrite Hf.
  rewrite (MD5Final_holds _ _ Hm). simpl. done.
Qed.

Lemma md5_streaming_witness :
  exists m m', hash_all (NetMd5Codec_default (fun _ => "?"%char)) [bytes "message "; []; bytes "digest"] = Ok m
    /\ appendHashValue m [] = Ok (bytes "f96b697d7cb7938d525a2f31aaf161d0", m').
Proof.
  destruct (md5_streaming (fun _ => "?"%char) [bytes "message "; []; bytes "digest"] [] SipTokenSafeAlphabet)
    as (m & m' & E & Ev & _).
  - repeat apply Forall_cons_2; try apply Forall_nil_2; vm_compute; done.
  - exists m, m'. split; [exact E|]. rewrite Ev. vm_compute. reflexivity.
Defined.
