(* ===== verification/BranchId.v ===== *)
(** * BranchId: signed Via branch parameters with loop detection

    src/sipXtackLib/src/net/BranchId.cpp.  A branch id is the cookie, a
    counter, a signature over the server's secret, the counter and the
    Call-Id, and for a forked request the hash of its sorted fork URIs.  A
    message is what BranchId reads of it: the Call-Id and, for each Via
    from the top, its branch parameter if it has one.  The recognizer is a
    PCRE search, a parameter with its documented meaning. *)
From Stdlib Require Import ZArith Lia Ascii String.
From stdpp Require Import base list strings.
From S2P Require Import Prelude UtlString UtlStringRefine Containable UtlList UtlSListSpec UtlSortedListSpec.
From S2P Require Import NetBase64Codec NetMd5Codec.
Local Open Scope Z_scope.

Definition RFC3261_MAGIC_COOKIE : list ascii := bytes "z9hG4bK".
Definition SIPXECS_MAGIC_COOKIE : list ascii := bytes "z9hG4bK-XX-".
Definition SIPXECS_MAGIC_COOKIE_LENGTH : nat := 11.
Definition SIPXECS_LOOP_KEY_SEPARATOR : ascii := "~".

(** What the class reads of a SipMessage. *)
Record SipMessage : Type := mkMessage {
  callId : list ascii;
  viaBranches : list (option (list ascii))
}.

(** The static members. *)
Record BranchStatics : Type := mkStatics { smIdSecret : list ascii; smCounter : Z }.

Record BranchId : Type := mkBranch {
  branch_value : list ascii;
  mParentStringValid : bool;
  mLoopDetectionKey : list ascii;
  mForks : list (list ascii)
}.

(** ** Hexadecimal counters *)

(** [appendNumber(n & 0xFFFF, "%04x")] *)
Definition hex4 (n : Z) : list ascii :=
  let n := Z.land n 65535 in
  [hex_digit (Z.shiftr n 12); hex_digit (Z.land (Z.shiftr n 8) 15);
   hex_digit (Z.land (Z.shiftr n 4) 15); hex_digit (Z.land n 15)].

Definition hex_value (c : ascii) : Z :=
  let u := uchar c in
  if (48 <=? u) && (u <=? 57) then u - 48
  else if (97 <=? u) && (u <=? 102) then u - 87
  else if (65 <=? u) && (u <=? 70) then u - 55 else 0.

Definition is_hex (c : ascii) : bool :=
  let u := uchar c in
  ((48 <=? u) && (u <=? 57)) || ((97 <=? u) && (u <=? 102)) || ((65 <=? u) && (u <=? 70)).

(** [strtoul(s, &endptr, 16)] on hexadecimal digits *)
Definition strtoul16 (s : list ascii) : Z := foldl (fun n c => 16 * n + hex_value c) 0 s.

(** The octets of a size_t. *)
Definition size_octets (n : Z) : list ascii := Encode [n mod 2 ^ 32; n / 2 ^ 32].

(** ** The recognizer *)

(** MD5_B64SIG_REGEX *)
Definition is_sig_char (c : ascii) : bool := bool_decide (c ∈ take 64 (alphabet_chars SipTokenSafeAlphabet)).
Definition is_sig (s : list ascii) : Prop := length s = 22%nat /\ Forall (fun c => is_sig_char c = true) s.

Definition branch_match (s h sig : list ascii) (key : option (list ascii)) (t : list ascii) : Prop :=
  s = SIPXECS_MAGIC_COOKIE ++ h ++ sig
      ++ match key with Some k => SIPXECS_LOOP_KEY_SEPARATOR :: k | None => [] end ++ t
  /\ length h = 4%nat /\ Forall (fun c => is_hex c = true) h /\ is_sig sig
  /\ match key with Some k => is_sig k | None => True end /\ (t = [] \/ t = [LF]).

(** [SipXBranchRecognizer.Search(s)]: its three groups. *)
Class BranchSearch : Type :=
  branch_search : list ascii -> option (list ascii * list ascii * option (list ascii)).
Class BranchSearchLaws `{BranchSearch} : Prop :=
  branch_search_spec : forall s h sig key,
    branch_search s = Some (h, sig, key) <-> exists t, branch_match s h sig key t.

Section BranchId.
Context `{BranchSearch} (fill : nat -> ascii).

(** BranchId::parse: the counter, the signature and the loop key. *)
Definition parse (branchValue : list ascii) : option (Z * list ascii * list ascii) :=
  match branch_search branchValue with
  | Some (hexCounter, uniqueValue, key) =>
      Some (strtoul16 hexCounter, uniqueValue, match key with Some k => k | None => [] end)
  | None => None
  end.

(** The hashes, through NetMd5Codec. *)
Definition md5_sig (pieces : list (list ascii)) : outcome (list ascii) :=
  let! m := hash_all (NetMd5Codec_default fill) pieces in
  let! r := appendBase64Sig m [] SipTokenSafeAlphabet in Ok (fst r).

(** BranchId::generateUniquePart *)
Definition generateUniquePart (st : BranchStatics) (message : SipMessage) (uniqueCounter : Z)
    : outcome (list ascii) :=
  let! sig := md5_sig [smIdSecret st; size_octets uniqueCounter; callId message] in
  Ok (SIPXECS_MAGIC_COOKIE ++ hex4 uniqueCounter ++ sig).

(** [append(SIPXECS_LOOP_KEY_SEPARATOR); append(mLoopDetectionKey)] *)
Definition key_suffix (key : list ascii) : list ascii :=
  match key with [] => [] | _ => SIPXECS_LOOP_KEY_SEPARATOR :: key end.

(** BranchId::generateFullValue *)
Definition generateFullValue (b : BranchId) : outcome BranchId :=
  if mParentStringValid b then Ok b
  else
    let! key := md5_sig (mForks b) in
    Ok (match parse (branch_value b) with
        | Some (existingCounter, existingUniquePart, _) =>
            mkBranch (SIPXECS_MAGIC_COOKIE ++ hex4 existingCounter ++ existingUniquePart ++ key_suffix key)
              true key (mForks b)
        | None => mkBranch (branch_value b) false key (mForks b)
        end).

(** The constructor for a client transaction in a User Agent Client *)
Definition BranchId_client (st : BranchStatics) (message : SipMessage) : outcome (BranchId * BranchStatics) :=
  let uniqueCounter := smCounter st in
  let st' := mkStatics (smIdSecret st) (Z.land (to_uint (smCounter st + 1)) 65535) in
  let! v := generateUniquePart st' message uniqueCounter in
  Ok (mkBranch v true [] [], st').

(** The constructor for a server transaction in a proxy *)
Definition BranchId_server (existingBranchIdValue : list ascii) : BranchId :=
  mkBranch existingBranchIdValue true [] [].

(** The constructor for a client transaction in a proxy: the branch, the
    parent after its value was generated, and the statics. *)
Definition BranchId_child (st : BranchStatics) (parentId : BranchId) (message : SipMessage)
    : outcome (BranchId * BranchId * BranchStatics) :=
  let uniqueCounter := smCounter st in
  let st' := mkStatics (smIdSecret st) (Z.land (to_uint (smCounter st + 1)) 65535) in
  let! v := generateUniquePart st' message uniqueCounter in
  let! parent' := generateFullValue parentId in
  let key := mLoopDetectionKey parent' in
  Ok (mkBranch (v ++ key_suffix key) true key [], parent', st').

(** BranchId::data and BranchId::utlString *)
Definition data (b : BranchId) : outcome (list ascii * BranchId) :=
  let! b' := generateFullValue b in Ok (branch_value b', b').

(** BranchId::equals(const UtlString&) *)
Definition equals_str (b : BranchId) (other : list ascii) : outcome (bool * BranchId) :=
  let! b' := generateFullValue b in Ok (strcmp (branch_value b') other =? 0, b').

(** BranchId::isRFC3261: the cookie is found at index 0. *)
Definition isRFC3261 (otherBranchId : list ascii) : bool :=
  bool_decide (take (length RFC3261_MAGIC_COOKIE) otherBranchId = RFC3261_MAGIC_COOKIE).

(** BranchId::addFork, with the URI of the stripped contact: the fork list
    is a UtlSortedList without duplicates. *)
Definition contains_fork (forks : list (list ascii)) (uri : list ascii) : bool :=
  existsb (fun f => compare_to f uri =? 0) forks.
Definition addFork (b : BranchId) (contactUri : list ascii) : BranchId :=
  mkBranch (branch_value b) false (mLoopDetectionKey b)
    (if contains_fork (mForks b) contactUri then mForks b else insert_sorted contactUri (mForks b)).

(** BranchId::topViaIsMyBranch *)
Definition topViaIsMyBranch (st : BranchStatics) (response : SipMessage) : outcome bool :=
  match viaBranches response with
  | Some branch :: _ =>
      match parse branch with
      | Some (counter, uniqueKey, _) =>
          let! generatedKey := generateUniquePart st response counter in
          Ok (strcmp generatedKey uniqueKey =? 0)
      | None => Ok false
      end
  | _ => Ok false
  end.

(** The loop of BranchId::loopDetected *)
Fixpoint loop_vias (st : BranchStatics) (key : list ascii) (message : SipMessage)
    (vias : list (option (list ascii))) (viaNumber : Z) : outcome Z :=
  match vias with
  | [] => Ok 0
  | via :: vias' =>
      let! found :=
        (match via with
         | Some branch =>
             match parse branch with
             | Some (counter, uniqueKey, loopDetectKey) =>
                 if strcmp key loopDetectKey =? 0 then
                   let! generatedKey := generateUniquePart st message counter in
                   let generatedSignature := drop (SIPXECS_MAGIC_COOKIE_LENGTH + 4) generatedKey in
                   Ok (strcmp generatedSignature uniqueKey =? 0)
                 else Ok false
             | None => Ok false
             end
         | None => Ok false
         end) in
      if found then Ok (viaNumber + 1) else loop_vias st key message vias' (viaNumber + 1)
  end.

(** BranchId::loopDetected *)
Definition loopDetected (st : BranchStatics) (b : BranchId) (message : SipMessage) : outcome (Z * BranchId) :=
  let! b' := generateFullValue b in
  match mLoopDetectionKey b' with
  | [] => Ok (0, b')
  | key => let! n := loop_vias st key message (viaBranches message) 0 in Ok (n, b')
  end.

End BranchId.

(** BranchId::setSecret *)
Definition setSecret (st : BranchStatics) (secret : list ascii) : BranchStatics :=
  let s := if negb (bool_decide (smIdSecret st = [])) && negb (strcmp (smIdSecret st) secret =? 0)
           then [] else smIdSecret st in
  mkStatics (s ++ secret) (smCounter st).
