(* ===== verification/BranchIdSpec.v ===== *)
(** * Branch ids: recognition, uniqueness and loop detection

    A value the class produces is parsed back into its parts; ids generated
    by one server differ within a cycle of the counter; a request that comes
    back to a server that forked it to the same set of targets is found to
    loop, whatever the order in which the forks were added. *)
From Stdlib Require Import ZArith Lia Ascii String.
From stdpp Require Import base list strings sets gmap sorting.
From S2P Require Import Prelude UtlString UtlStringRefine Containable UtlList UtlSListSpec UtlSortedListSpec.
From S2P Require Import NetBase64Codec NetBase64CodecSpec NetMd5Codec BranchId.
Local Open Scope Z_scope.

(** ** Counters in hexadecimal *)

Lemma hex_digit_facts d : 0 <= d < 16 -> hex_value (hex_digit d) = d /\ is_hex (hex_digit d) = true.
Proof.
  intros Hd. assert (forallb (fun n => (hex_value (hex_digit (Z.of_nat n)) =? Z.of_nat n)
    && is_hex (hex_digit (Z.of_nat n))) (seq 0 16) = true) as E by (vm_compute; reflexivity).
  rewrite forallb_forall in E. specialize (E (Z.to_nat d)). rewrite in_seq, Z2Nat.id in E by lia.
  specialize (E ltac:(lia)). apply andb_true_iff in E as [E1%Z.eqb_eq E2]. done.
Qed.

Lemma hex4_digits n :
  0 <= n < 65536 -> exists d3 d2 d1 d0, hex4 n = [hex_digit d3; hex_digit d2; hex_digit d1; hex_digit d0]
    /\ 0 <= d3 < 16 /\ 0 <= d2 < 16 /\ 0 <= d1 < 16 /\ 0 <= d0 < 16 /\ n = 16 * (16 * (16 * d3 + d2) + d1) + d0.
Proof.
  intros Hn. unfold hex4. change 65535 with (Z.ones 16). change 15 with (Z.ones 4).
  rewrite !Z.land_ones by lia. rewrite (Z.mod_small n) by lia. rewrite !Z.shiftr_div_pow2 by lia.
  exists (n / 2 ^ 12), (n / 2 ^ 8 mod 2 ^ 4), (n / 2 ^ 4 mod 2 ^ 4), (n mod 2 ^ 4). split; [done|].
  pose proof (Z.mod_pos_bound n (2 ^ 4) ltac:(lia)). pose proof (Z.div_mod n (2 ^ 4) ltac:(lia)).
  pose proof (Z.mod_pos_bound (n / 2 ^ 4) (2 ^ 4) ltac:(lia)). pose proof (Z.div_mod (n / 2 ^ 4) (2 ^ 4) ltac:(lia)).
  pose proof (Z.mod_pos_bound (n / 2 ^ 8) (2 ^ 4) ltac:(lia)). pose proof (Z.div_mod (n / 2 ^ 8) (2 ^ 4) ltac:(lia)).
  assert (n / 2 ^ 8 = n / 2 ^ 4 / 2 ^ 4) by (by rewrite Z.div_div by lia).
  assert (n / 2 ^ 12 = n / 2 ^ 8 / 2 ^ 4) by (by rewrite Z.div_div by lia).
  assert (0 <= n / 2 ^ 12 < 16) by (split; [apply Z.div_pos; lia|apply Z.div_lt_upper_bound; lia]). lia.
Qed.

Lemma hex4_facts n :
  0 <= n < 65536 -> strtoul16 (hex4 n) = n /\ Forall (fun c => is_hex c = true) (hex4 n) /\ length (hex4 n) = 4%nat.
Proof.
  intros Hn. destruct (hex4_digits n Hn) as (d3 & d2 & d1 & d0 & -> & R3 & R2 & R1 & R0 & E).
  destruct (hex_digit_facts d3 R3) as [V3 X3]. destruct (hex_digit_facts d2 R2) as [V2 X2].
  destruct (hex_digit_facts d1 R1) as [V1 X1]. destruct (hex_digit_facts d0 R0) as [V0 X0].
  split; [|split; [by repeat constructor|done]]. unfold strtoul16. simpl. rewrite V3, V2, V1, V0. lia.
Qed.

(** ** Signatures *)

Definition sig_of (msg : list ascii) : list ascii := take 22 (encode SipTokenSafeAlphabet (md5 msg)).

Lemma sig_of_is_sig msg : is_sig (sig_of msg).
Proof.
  pose proof (length_md5 msg) as Hl. unfold sig_of.
  destruct (encode_split SipTokenSafeAlphabet (md5 msg)) as (b & p & -> & _ & Hb & Hp & _ & H1 & H2).
  { intros E. by rewrite E in Hl. }
  assert (length b = 22%nat) as Hbl by lia.
  rewrite take_app_le, take_ge by lia. split; [done|]. eapply Forall_impl; [exact Hb|].
  intros c Hc. unfold is_sig_char. by apply bool_decide_eq_true.
Qed.

Lemma md5_sig_ok fill pieces : Forall short pieces -> md5_sig fill pieces = Ok (sig_of (concat pieces)).
Proof.
  intros Hp. destruct (hash_all_holds pieces (NetMd5Codec_default fill) [] (init_holds fill) eq_refl Hp)
    as (m & E & Hm & Hf). simpl in Hm.
  unfold md5_sig, appendBase64Sig. rewrite E. cbn [obind]. rewrite Hf. by rewrite (MD5Final_holds _ _ Hm).
Qed.

Lemma sig_nul_free s : is_sig s -> nul_free s.
Proof.
  intros [_ Hs]. unfold nul_free. eapply Forall_impl; [exact Hs|]. intros c Hc ->. done.
Qed.

(** ** Parsing *)

Section Recognition.
Context `{BranchSearchLaws} (fill : nat -> ascii).

Definition format (counter : Z) (sig key : list ascii) : list ascii :=
  SIPXECS_MAGIC_COOKIE ++ hex4 counter ++ sig ++ key_suffix key.

Lemma parse_format counter sig key :
  0 <= counter < 65536 -> is_sig sig -> (key = [] \/ is_sig key) ->
  parse (format counter sig key) = Some (counter, sig, key).
Proof.
  intros Hc Hs Hk. destruct (hex4_facts counter Hc) as (Hv & Hx & Hl). unfold parse.
  assert (branch_search (format counter sig key)
    = Some (hex4 counter, sig, match key with [] => None | _ => Some key end)) as ->.
  { apply branch_search_spec. exists []. split_and!; try done; [|destruct key; [done|]|by left].
    - unfold format, key_suffix. rewrite app_nil_r. by destruct key.
    - by destruct Hk. }
  rewrite Hv. by destruct key.
Qed.

Lemma parse_inv s c sig key :
  parse s = Some (c, sig, key) -> is_sig sig /\ 0 <= c < 65536.
Proof.
  unfold parse. destruct (branch_search s) as [[[h sg] k]|] eqn:E; [|done]. intros [= <- <- _].
  apply branch_search_spec in E as (t & _ & Hl & Hx & Hsig & _). split; [done|].
  assert (forall d, is_hex d = true -> 0 <= hex_value d < 16) as Hd.
  { intros d. unfold is_hex, hex_value.
    destruct (Z.leb_spec 48 (uchar d)), (Z.leb_spec (uchar d) 57), (Z.leb_spec 97 (uchar d)),
      (Z.leb_spec (uchar d) 102), (Z.leb_spec 65 (uchar d)), (Z.leb_spec (uchar d) 70); simpl; (done || lia). }
  destruct h as [|d3 [|d2 [|d1 [|d0 [|]]]]]; try done.
  repeat match goal with H : Forall _ (_ :: _) |- _ => apply Forall_cons in H as [?%Hd H] end.
  unfold strtoul16. simpl. lia.
Qed.

Lemma generateUniquePart_ok st msg n :
  short (smIdSecret st) -> short (callId msg) ->
  generateUniquePart fill st msg n
  = Ok (SIPXECS_MAGIC_COOKIE ++ hex4 n ++ sig_of (smIdSecret st ++ size_octets n ++ callId msg)).
Proof.
  intros Hs Hc. unfold generateUniquePart. rewrite md5_sig_ok.
  - simpl. by rewrite app_nil_r.
  - repeat apply Forall_cons_2; try done.
Qed.

(** ** Uniqueness *)

Fixpoint clients (st : BranchStatics) (msgs : list SipMessage) : outcome (list BranchId * BranchStatics) :=
  match msgs with
  | [] => Ok ([], st)
  | msg :: msgs' =>
      let! r := BranchId_client fill st msg in
      let! rs := clients (snd r) msgs' in Ok (fst r :: fst rs, snd rs)
  end.

Definition next_counter (c : Z) : Z := Z.land (to_uint (c + 1)) 65535.

Lemma next_counter_mod c : 0 <= c < 65536 -> next_counter c = (c + 1) mod 65536.
Proof.
  intros Hc. unfold next_counter. rewrite to_uint_small by lia. change 65535 with (Z.ones 16).
  by rewrite Z.land_ones by lia.
Qed.

Lemma clients_values msgs st :
  short (smIdSecret st) -> Forall (fun m => short (callId m)) msgs -> 0 <= smCounter st < 65536 ->
  exists bs st', clients st msgs = Ok (bs, st') /\ length bs = length msgs
    /\ forall i b, bs !! i = Some b ->
         exists rest, branch_value b = SIPXECS_MAGIC_COOKIE ++ hex4 ((smCounter st + Z.of_nat i) mod 65536) ++ rest.
Proof.
  intros Hs Hm. revert st Hs. induction Hm as [|msg msgs Hc Hm IH]; intros st Hs Hctr; simpl.
  - exists [], st. split; [done|]. split; [done|]. intros i b Hi. done.
  - unfold BranchId_client. rewrite generateUniquePart_ok by done. cbn [obind fst snd].
    fold (next_counter (smCounter st)). rewrite next_counter_mod by done.
    destruct (IH (mkStatics (smIdSecret st) ((smCounter st + 1) mod 65536))) as (bs & st' & -> & Hlen & Hbs);
      [done|simpl; apply Z.mod_pos_bound; lia|].
    cbn [obind fst snd]. eexists _, _. split; [done|]. split; [simpl; by rewrite Hlen|].
    intros i b Hi. destruct i as [|i]; simpl in Hi.
    + injection Hi as <-. cbn [branch_value]. rewrite Nat2Z.inj_0, Z.add_0_r, (Z.mod_small _ 65536) by lia. eexists. reflexivity.
    + destruct (Hbs i b Hi) as (rest & ->). cbn [smCounter]. exists rest.
      rewrite Z.add_mod_idemp_l by lia. by replace (smCounter st + 1 + Z.of_nat i) with (smCounter st + Z.of_nat (S i)) by lia.
Qed.

Lemma hex4_inj a b : 0 <= a < 65536 -> 0 <= b < 65536 -> hex4 a = hex4 b -> a = b.
Proof.
  intros Ha Hb E. destruct (hex4_facts a Ha) as [Va _]. destruct (hex4_facts b Hb) as [Vb _]. congruence.
Qed.

(** The branch ids a user agent client generates for up to 65536
    consecutive messages are pairwise different, whatever the messages and
    also when the counter wraps. *)
Theorem client_branches_unique st msgs :
  short (smIdSecret st) -> Forall (fun m => short (callId m)) msgs -> 0 <= smCounter st < 65536 ->
  (length msgs <= Z.to_nat 65536)%nat ->
  exists bs st', clients st msgs = Ok (bs, st') /\ length bs = length msgs /\ NoDup (branch_value <$> bs).
Proof.
  intros Hs Hm Hc Hl. destruct (clients_values msgs st Hs Hm Hc) as (bs & st' & E & Hlen & Hbs).
  exists bs, st'. split; [done|]. split; [done|]. apply NoDup_alt. intros i j x Hi Hj.
  rewrite list_lookup_fmap in Hi, Hj.
  destruct (bs !! i) as [b1|] eqn:E1; [|done]. destruct (bs !! j) as [b2|] eqn:E2; [|done].
  simpl in Hi, Hj. injection Hi as Hi. injection Hj as Hj.
  destruct (Hbs i b1 E1) as (r1 & V1), (Hbs j b2 E2) as (r2 & V2). rewrite <- Hj in Hi. rewrite V1, V2 in Hi.
  apply app_inv_head in Hi. set (a := (smCounter st + Z.of_nat i) mod 65536) in *.
  set (b := (smCounter st + Z.of_nat j) mod 65536) in *.
  pose proof (Z.mod_pos_bound (smCounter st + Z.of_nat i) 65536 ltac:(lia)).
  pose proof (Z.mod_pos_bound (smCounter st + Z.of_nat j) 65536 ltac:(lia)).
  apply app_inj_1 in Hi as [Hh _]; [|done]. apply hex4_inj in Hh; [|done..].
  apply lookup_lt_Some in E1, E2. unfold a, b in Hh.
  rewrite !Z.mod_eq in Hh by lia.
  assert (Z.of_nat i - Z.of_nat j
    = 65536 * ((smCounter st + Z.of_nat i) / 65536 - (smCounter st + Z.of_nat j) / 65536)) by lia. lia.
Qed.

(** ** Forks *)

Definition addForks (b : BranchId) (uris : list (list ascii)) : BranchId := foldl addFork b uris.

Record forks_ok (fs uris : list (list ascii)) : Prop := {
  fo_sorted : sorted fs;
  fo_nodup : NoDup fs;
  fo_valid : Forall nul_free fs;
  fo_elems : forall u, u ∈ fs <-> u ∈ uris
}.

Lemma contains_fork_spec fs u :
  Forall nul_free fs -> nul_free u -> contains_fork fs u = true <-> u ∈ fs.
Proof.
  intros Hf Hu. unfold contains_fork. rewrite existsb_exists. rewrite Forall_forall in Hf. split.
  - intros (f & Hin & E). apply list_elem_of_In in Hin. apply Z.eqb_eq in E.
    apply strcmp_eq_nul_free in E; [by subst|auto|done].
  - intros Hin. exists u. split; [by apply list_elem_of_In|]. apply Z.eqb_eq, compare_refl.
Qed.

Lemma addFork_ok b uris u :
  forks_ok (mForks b) uris -> nul_free u -> forks_ok (mForks (addFork b u)) (uris ++ [u]).
Proof.
  intros [Hs Hnd Hv He] Hu. unfold addFork. cbn [mForks].
  pose proof (contains_fork_spec (mForks b) u Hv Hu) as Hc. destruct (contains_fork (mForks b) u) eqn:E.
  - assert (u ∈ mForks b) as Hin by (by apply Hc). split; try done. intros x. rewrite He in Hin |- *. set_solver.
  - assert (u ∉ mForks b) as Hni by (intros Hin; apply Hc in Hin; done).
    pose proof (insert_sorted_sorted u _ Hs) as Hs'.
    destruct (insert_sorted_split u (mForks b)) as (d1 & d2 & Ed & Ei & _). rewrite Ei in Hs' |- *.
    assert (d1 ++ u :: d2 ≡ₚ u :: mForks b) as Hp by (rewrite Ed; symmetry; apply Permutation_middle).
    split; [done| | |].
    + rewrite Hp. by apply NoDup_cons.
    + rewrite Hp. by constructor.
    + intros x. rewrite Hp. set_solver.
Qed.

Lemma addForks_ok b uris0 uris :
  forks_ok (mForks b) uris0 -> Forall nul_free uris -> forks_ok (mForks (addForks b uris)) (uris0 ++ uris).
Proof.
  intros Hb Hu. revert b uris0 Hb. induction Hu as [|u uris Hu Hus IH]; intros b uris0 Hb; simpl.
  - by rewrite app_nil_r.
  - specialize (IH (addFork b u) (uris0 ++ [u]) (addFork_ok _ _ _ Hb Hu)). by rewrite <- app_assoc in IH.
Qed.

(** The fork list only depends on the set of targets. *)
Lemma forks_unique fs1 fs2 uris1 uris2 :
  forks_ok fs1 uris1 -> forks_ok fs2 uris2 -> (forall u, u ∈ uris1 <-> u ∈ uris2) -> fs1 = fs2.
Proof.
  intros [Hs1 Hn1 Hv1 He1] [Hs2 Hn2 Hv2 He2] Hu. rewrite Forall_forall in Hv1, Hv2.
  eapply StronglySorted_unique_strong; [|exact Hs1|exact Hs2|].
  - intros x y Hx Hy R1 R2. apply strcmp_eq_nul_free; [auto..|].
    pose proof (compare_flip x y) as Hf. simpl in *. lia.
  - apply NoDup_Permutation; [done..|]. intros x. rewrite He1, He2. apply Hu.
Qed.

Lemma forks_of_server v uris :
  Forall nul_free uris -> forks_ok (mForks (addForks (BranchId_server v) uris)) uris.
Proof.
  intros Hu. apply (addForks_ok (BranchId_server v) [] uris); [|done].
  split; [constructor|apply NoDup_nil_2|by apply Forall_nil|done].
Qed.

Lemma addForks_invalid v uris :
  uris <> [] -> mParentStringValid (addForks (BranchId_server v) uris) = false.
Proof.
  destruct uris as [|u uris _] using rev_ind; [done|]. intros _. unfold addForks. by rewrite foldl_app.
Qed.

(** The loop key of a forked server transaction. *)
Lemma forked_key b :
  mParentStringValid b = false -> Forall short (mForks b) ->
  exists b', generateFullValue fill b = Ok b' /\ mLoopDetectionKey b' = sig_of (concat (mForks b)).
Proof.
  intros Hv Hs. unfold generateFullValue. rewrite Hv, md5_sig_ok by done. cbn [obind].
  eexists; split; [done|]. by destruct (parse (branch_value b)) as [[[c u] k]|].
Qed.

(** ** Loop detection *)

Lemma drop_cookie n sig : length (hex4 n) = 4%nat ->
  drop (SIPXECS_MAGIC_COOKIE_LENGTH + 4) (SIPXECS_MAGIC_COOKIE ++ hex4 n ++ sig) = sig.
Proof. intros Hl. rewrite app_assoc. apply drop_app_length'. by rewrite length_app, Hl. Qed.

Lemma loop_vias_found st key msg vias i counter sig k :
  short (smIdSecret st) -> short (callId msg) -> is_sig key -> 0 <= counter < 65536 -> 0 <= i ->
  vias !! k = Some (Some (format counter sig key)) -> is_sig sig ->
  sig = sig_of (smIdSecret st ++ size_octets counter ++ callId msg) ->
  exists n, loop_vias fill st key msg vias i = Ok n /\ i < n <= i + Z.of_nat k + 1.
Proof.
  intros Hs Hc Hkey Hctr. revert i k. induction vias as [|via vias IH]; intros i k Hi Hk Hsig Esig; [done|].
  cbn [loop_vias].
  match goal with |- context [obind ?c _] => assert (exists found, c = Ok found /\ (k = 0%nat -> found = true)) as (found & -> & Hf) end.
  { destruct k as [|k].
    - simpl in Hk. injection Hk as ->. rewrite parse_format by (done || by right).
      rewrite strcmp_refl. simpl Z.eqb. cbn beta iota. rewrite generateUniquePart_ok by done. cbn [obind].
      rewrite drop_cookie by (by apply hex4_facts). rewrite <- Esig, strcmp_refl. by exists true.
    - destruct via as [branch|]; [|by exists false].
      destruct (parse branch) as [[[c u] lk]|]; [|by exists false].
      destruct (strcmp key lk =? 0); [|by exists false].
      rewrite generateUniquePart_ok by done. cbn [obind]. by eexists. }
  cbn [obind]. destruct found.
  - exists (i + 1). split; [done|lia].
  - destruct k as [|k]; [by specialize (Hf eq_refl)|]. simpl in Hk.
    destruct (IH (i + 1) k) as (n & -> & Hn); [lia|done..|]. exists n. split; [done|lia].
Qed.

(** Loops are detected.  A proxy forks a request to the targets [uris]
    and sends a child with a branch id of its own; when a request with the
    same Call-Id carries that branch in its [k]-th Via and is forked to the
    same set of targets, in any order and with any repetitions, loopDetected
    reports a hop between 1 and k+1. *)
Theorem loop_is_detected st0 st v v' uris uris' msg0 msg child parent' st1 k :
  Forall nul_free uris -> Forall short uris -> uris <> [] -> (forall u, u ∈ uris <-> u ∈ uris') ->
  smIdSecret st0 = smIdSecret st -> short (smIdSecret st) -> 0 <= smCounter st0 < 65536 ->
  callId msg0 = callId msg -> short (callId msg) ->
  BranchId_child fill st0 (addForks (BranchId_server v) uris) msg0 = Ok (child, parent', st1) ->
  viaBranches msg !! k = Some (Some (branch_value child)) ->
  exists n b', loopDetected fill st (addForks (BranchId_server v') uris') msg = Ok (n, b')
    /\ 0 < n <= Z.of_nat k + 1.
Proof.
  intros Hnf Hsh Hne Hsame Hsec Hss Hctr Hcall Hsc Hchild Hvia.
  assert (Forall nul_free uris') as Hnf' by (rewrite Forall_forall in *; intros u Hu; apply Hnf, Hsame, Hu).
  assert (uris' <> []) as Hne'.
  { destruct uris as [|u uris]; [done|]. intros ->. assert (u ∈ @nil (list ascii)) by (apply Hsame; set_solver). set_solver. }
  pose proof (forks_of_server v uris Hnf) as F1. pose proof (forks_of_server v' uris' Hnf') as F2.
  pose proof (forks_unique _ _ _ _ F1 F2 Hsame) as Efs.
  assert (Forall short (mForks (addForks (BranchId_server v) uris))) as Hfs.
  { rewrite Forall_forall in *. intros u Hu. apply Hsh. by apply (fo_elems _ _ F1). }
  destruct (forked_key (addForks (BranchId_server v) uris)) as (p1 & E1 & K1); [by apply addForks_invalid|done|].
  destruct (forked_key (addForks (BranchId_server v') uris')) as (p2 & E2 & K2);
    [by apply addForks_invalid|by rewrite <- Efs|].
  unfold BranchId_child in Hchild. rewrite generateUniquePart_ok in Hchild by (simpl; congruence).
  cbn [obind] in Hchild. rewrite E1 in Hchild. cbn [obind smIdSecret] in Hchild. injection Hchild as <- _ _.
  cbn [branch_value] in Hvia. rewrite K1, Efs, <- K2 in Hvia.
  set (key := mLoopDetectionKey p2) in *. assert (is_sig key) as Hkey by (rewrite K2; apply sig_of_is_sig).
  unfold loopDetected. rewrite E2. cbn [obind]. fold key.
  set (sig := sig_of (smIdSecret st0 ++ size_octets (smCounter st0) ++ callId msg0)) in *.
  assert (viaBranches msg !! k = Some (Some (format (smCounter st0) sig key))) as Hvia'
    by (rewrite Hvia; reflexivity).
  destruct (loop_vias_found st key msg (viaBranches msg) 0 (smCounter st0) sig k) as (n & En & Hn); try done.
  - apply sig_of_is_sig.
  - unfold sig. by rewrite Hsec, Hcall.
  - destruct key as [|c key']; [by destruct Hkey|]. rewrite En. cbn [obind]. eexists _, _. split; [done|lia].
Qed.

(** [topViaIsMyBranch] never recognises a branch, not even one this
    server has just generated: it compares the whole generated value with
    the signature alone. *)
Theorem topVia_never_mine st msg :
  short (smIdSecret st) -> short (callId msg) -> topViaIsMyBranch fill st msg = Ok false.
Proof.
  intros Hs Hc. unfold topViaIsMyBranch. destruct (viaBranches msg) as [|[branch|] vias]; try done.
  destruct (parse branch) as [[[c u] k]|] eqn:E; [|done]. apply parse_inv in E as [Hu Hctr].
  rewrite generateUniquePart_ok by done. cbn [obind]. f_equal. apply Z.eqb_neq. intros Hz.
  destruct (hex4_facts c Hctr) as (_ & Hx & Hl).
  set (sig := sig_of _) in Hz. pose proof (sig_of_is_sig (smIdSecret st ++ size_octets c ++ callId msg)) as Hsig.
  apply strcmp_eq_nul_free in Hz.
  - apply (f_equal length) in Hz. destruct Hu as [Hu _]. destruct Hsig as [Hsl _]. fold sig in Hsl.
    rewrite !length_app, Hl, Hu, Hsl in Hz. done.
  - apply Forall_app. split; [by apply (bool_decide_unpack _)|]. apply Forall_app.
    split; [eapply Forall_impl; [exact Hx|]; by intros ch Hch ->|by apply sig_nul_free].
  - by apply sig_nul_free.
Qed.

End Recognition.

(** Setting the secret that is already set appends it once more, so
    ids signed before are signed with another key than ids signed after. *)
Theorem setSecret_twice st secret :
  secret <> [] ->
  smIdSecret (setSecret (setSecret (mkStatics [] (smCounter st)) secret) secret) = secret ++ secret.
Proof.
  intros Hne. unfold setSecret. cbn [smIdSecret]. simpl app.
  rewrite bool_decide_false by done. by rewrite strcmp_refl.
Qed.

(** ** A recognizer *)

Definition all_hex (h : list ascii) : bool := (length h =? 4)%nat && forallb is_hex h.
Definition all_sig (s : list ascii) : bool := (length s =? 22)%nat && forallb is_sig_char s.
Definition ends (t : list ascii) : bool := bool_decide (t = [] \/ t = [LF]).

Definition recognize : BranchSearch := fun s =>
  let h := take 4 (drop 11 s) in
  let sig := take 22 (drop 15 s) in
  let rest := drop 37 s in
  if bool_decide (take 11 s = SIPXECS_MAGIC_COOKIE) && all_hex h && all_sig sig then
    match rest with
    | c :: r =>
        if bool_decide (c = SIPXECS_LOOP_KEY_SEPARATOR) then
          if all_sig (take 22 r) && ends (drop 22 r) then Some (h, sig, Some (take 22 r)) else None
        else if ends rest then Some (h, sig, None) else None
    | [] => Some (h, sig, None)
    end
  else None.

Lemma all_sig_spec s : all_sig s = true <-> is_sig s.
Proof.
  unfold all_sig, is_sig. rewrite andb_true_iff, Nat.eqb_eq, forallb_forall, Forall_forall.
  by setoid_rewrite list_elem_of_In.
Qed.

Lemma all_hex_spec h : all_hex h = true <-> length h = 4%nat /\ Forall (fun c => is_hex c = true) h.
Proof.
  unfold all_hex. rewrite andb_true_iff, Nat.eqb_eq, forallb_forall, Forall_forall.
  by setoid_rewrite list_elem_of_In.
Qed.

Lemma split_branch (s : list ascii) :
  s = take 11 s ++ take 4 (drop 11 s) ++ take 22 (drop 15 s) ++ drop 37 s.
Proof.
  rewrite <- (take_drop 11 s) at 1. f_equal. rewrite <- (take_drop 4 (drop 11 s)) at 1. f_equal.
  rewrite drop_drop. simpl Nat.add. rewrite <- (take_drop 22 (drop 15 s)) at 1. by rewrite drop_drop.
Qed.

Lemma join_branch (a h sig r : list ascii) :
  length a = 11%nat -> length h = 4%nat -> length sig = 22%nat ->
  let s := a ++ h ++ sig ++ r in
  take 11 s = a /\ take 4 (drop 11 s) = h /\ take 22 (drop 15 s) = sig /\ drop 37 s = r.
Proof.
  intros Ha Hh Hs s.
  assert (drop 11 s = h ++ sig ++ r) as D1 by (by apply drop_app_length').
  assert (drop 15 s = sig ++ r) as D2 by (change 15%nat with (11 + 4)%nat; rewrite <- drop_drop, D1; by apply drop_app_length').
  assert (drop 37 s = r) as D3 by (change 37%nat with (15 + 22)%nat; rewrite <- drop_drop, D2; by apply drop_app_length').
  rewrite D1, D2, D3. split_and!; try done; by apply take_app_length'.
Qed.

Lemma recognize_laws : @BranchSearchLaws recognize.
Proof.
  intros s h sig key. unfold branch_search, recognize. split.
  - destruct (bool_decide (take 11 s = SIPXECS_MAGIC_COOKIE) && _ && _) eqn:E; [|done].
    apply andb_true_iff in E as [E Es]. apply andb_true_iff in E as [Ec Eh].
    apply bool_decide_eq_true in Ec. apply all_hex_spec in Eh as [Hl Hx]. apply all_sig_spec in Es.
    pose proof (split_branch s) as Hsplit. rewrite Ec in Hsplit.
    destruct (drop 37 s) as [|c r] eqn:Er.
    + intros [= <- <- <-]. exists []. split_and!; try done; by left.
    + case_bool_decide as Esep.
      * destruct (all_sig (take 22 r) && ends (drop 22 r)) eqn:E2; [|done]. intros [= <- <- <-].
        apply andb_true_iff in E2 as [Ek Et]. apply all_sig_spec in Ek. apply bool_decide_eq_true in Et.
        exists (drop 22 r). split_and!; try done. rewrite Hsplit at 1. subst c.
        cbn [app]. by rewrite (take_drop 22 r).
      * destruct (ends (c :: r)) eqn:E2; [|done]. intros [= <- <- <-]. apply bool_decide_eq_true in E2.
        by exists (c :: r).
  - intros (t & -> & Hl & Hx & Hsig & Hkey & Ht).
    set (rest := match key with Some k => SIPXECS_LOOP_KEY_SEPARATOR :: k | None => [] end ++ t).
    destruct (join_branch SIPXECS_MAGIC_COOKIE h sig rest) as (J1 & J2 & J3 & J4);
      [done|done|by destruct Hsig|].
    rewrite J1, J2, J3, J4. rewrite bool_decide_true by done.
    rewrite (proj2 (all_hex_spec h)) by done. rewrite (proj2 (all_sig_spec sig)) by done. cbn [andb].
    unfold rest. destruct key as [k|].
    + cbn [app]. rewrite bool_decide_true by done. destruct Hkey as [Hk1 Hk2].
      rewrite take_app_length', drop_app_length' by done. rewrite (proj2 (all_sig_spec k)) by (by split).
      unfold ends. by rewrite bool_decide_true.
    + cbn [app]. destruct Ht as [->| ->]; [done|]. rewrite bool_decide_false by done.
      unfold ends. by rewrite bool_decide_true by (by right).
Qed.

(** ** Concrete branches *)

Definition demo_statics : BranchStatics := mkStatics (bytes "secret") 65535.
Definition demo_msg : SipMessage := mkMessage (bytes "f88dfabce84b6a2787ef024a7dbe8749") [].
Definition no_fill : nat -> ascii := fun _ => NUL.

Lemma client_branches_unique_witness :
  exists b1 b2 b3 st', @clients no_fill demo_statics [demo_msg; demo_msg; demo_msg] = Ok ([b1; b2; b3], st')
    /\ branch_value b1 <> branch_value b2 /\ branch_value b2 <> branch_value b3.
Proof.
  destruct (client_branches_unique no_fill demo_statics [demo_msg; demo_msg; demo_msg])
    as (bs & st' & E & Hl & Hnd).
  - vm_compute. done.
  - repeat apply Forall_cons_2; try apply Forall_nil_2; vm_compute; done.
  - vm_compute. done.
  - simpl length. lia.
  - destruct bs as [|b1 [|b2 [|b3 [|]]]]; try discriminate Hl. exists b1, b2, b3, st'. split; [exact E|].
    cbn [fmap list_fmap] in Hnd. apply NoDup_cons in Hnd as [H1 Hnd]. apply NoDup_cons in Hnd as [H2 _]. clear E. set_solver.
Defined.

Definition uri1 : list ascii := bytes "sip:someone@example.com".
Definition uri2 : list ascii := bytes "sip:another-someone@example.com".

(** The branch of a child sent after forking to [uri1] and [uri2]. *)
Definition demo_child : list ascii :=
  match @BranchId_child recognize no_fill demo_statics (addForks (BranchId_server []) [uri1; uri2]) demo_msg with
  | Ok r => branch_value (fst (fst r))
  | _ => []
  end.

Definition looped_msg : SipMessage :=
  mkMessage (bytes "f88dfabce84b6a2787ef024a7dbe8749") [Some (bytes "z9hG4bK-other"); None; Some demo_child].

Lemma loop_is_detected_witness :
  exists n b', @loopDetected recognize no_fill demo_statics
      (addForks (BranchId_server (bytes "z9hG4bK-other")) [uri2; uri1; uri2]) looped_msg = Ok (n, b')
    /\ 0 < n <= 3.
Proof.
  destruct (@BranchId_child recognize no_fill demo_statics (addForks (BranchId_server []) [uri1; uri2]) demo_msg)
    as [[[child parent'] st1]| | |] eqn:E; [|vm_compute in E; discriminate E..].
  apply (@loop_is_detected recognize recognize_laws no_fill demo_statics demo_statics [] (bytes "z9hG4bK-other")
    [uri1; uri2] [uri2; uri1; uri2] demo_msg looped_msg child parent' st1 2%nat).
  - repeat apply Forall_cons_2; try apply Forall_nil_2; apply (bool_decide_unpack _); vm_compute; done.
  - repeat apply Forall_cons_2; try apply Forall_nil_2; vm_compute; done.
  - discriminate.
  - intros u. rewrite !elem_of_cons. tauto.
  - reflexivity.
  - vm_compute. reflexivity.
  - vm_compute. split; [discriminate|reflexivity].
  - reflexivity.
  - vm_compute. reflexivity.
  - exact E.
  - change (Some (Some demo_child) = Some (Some (branch_value child))). unfold demo_child. rewrite E. reflexivity.
Defined.

Lemma topVia_never_mine_witness :
  topViaIsMyBranch (H := recognize) no_fill demo_statics (mkMessage (bytes "f88dfabce84b6a2787ef024a7dbe8749") [Some demo_child])
  = Ok false.
Proof. apply (@topVia_never_mine recognize recognize_laws); vm_compute; done. Defined.

Lemma setSecret_twice_witness :
  smIdSecret (setSecret (setSecret (mkStatics [] 0) (bytes "key")) (bytes "key")) = bytes "keykey".
Proof. apply (setSecret_twice (mkStatics [] 0) (bytes "key")). done. Defined.
