(* ===== verification/NameValuePair.v ===== *)
(** * NameValuePair and NameValuePairInsensitive

    src/sipXtackLib/src/net/NameValuePair.cpp and
    NameValuePairInsensitive.cpp: a UtlString with a C string value in
    storage of its own.  [valueString] is that storage, [None] the null
    pointer; setValue reuses it when the new value is not longer. *)
From Stdlib Require Import ZArith Lia Ascii String.
From stdpp Require Import base list strings.
From S2P Require Import Prelude UtlString UtlStringRefine Containable.
Local Open Scope Z_scope.

Record NameValuePair : Type := mkNV { nv_name : list ascii; valueString : option (list ascii) }.

Section Pair.
Context (fill : nat -> ascii).

(** [new char[n]] *)
Definition new_chars (n : Z) : list ascii := fill <$> seq 0 (Z.to_nat n).

(** NameValuePair::setValue; [newValue] is the storage the pointer points to. *)
Definition setValue (nv : NameValuePair) (newValue : option (list ascii)) : outcome NameValuePair :=
  match newValue with
  | Some v =>
      let! len := strlen v in
      let! buf := match valueString nv with
                  | Some b => let! blen := strlen b in Ok (if blen <? len then new_chars (len + 1) else b)
                  | None => Ok (new_chars (len + 1))
                  end in
      let! src := read_at v 0 (len + 1) in
      let! buf' := write_at buf 0 src in
      Ok (mkNV (nv_name nv) (Some buf'))
  | None => Ok (mkNV (nv_name nv) None)
  end.

(** NameValuePair(const char* name, const char* value) *)
Definition NameValuePair_new (name : list ascii) (value : option (list ascii)) : outcome NameValuePair :=
  setValue (mkNV (cstr name) None) value.

(** The copy constructor and operator= *)
Definition NameValuePair_copy (nv : NameValuePair) : outcome NameValuePair :=
  setValue (mkNV (nv_name nv) None) (valueString nv).
Definition NameValuePair_assign (nv rhs : NameValuePair) : outcome NameValuePair :=
  setValue (mkNV (cstr (nv_name rhs)) (valueString nv)) (valueString rhs).
End Pair.

(** [UtlString(nv->getValue())] and [append(nv->getValue())]: the null
    pointer gives the empty string. *)
Definition getValue (nv : NameValuePair) : outcome (list ascii) :=
  match valueString nv with
  | Some b => let! len := strlen b in read_at b 0 len
  | None => Ok []
  end.

(** ** What the value is *)

(** The pair has the value [v]. *)
Definition holds_value (nv : NameValuePair) (v : list ascii) : Prop :=
  nul_free v /\ exists r, valueString nv = Some (v ++ NUL :: r).

(** A pair whose value is the null pointer or a terminated string. *)
Definition terminated (nv : NameValuePair) : Prop :=
  valueString nv = None \/ exists v, holds_value nv v.

Lemma getValue_holds nv v : holds_value nv v -> getValue nv = Ok v.
Proof.
  intros (Hv & r & E). unfold getValue. rewrite E, strlen_terminated, cstr_id by done. cbn [obind].
  by apply (read_at_split [] v (NUL :: r)).
Qed.

Lemma length_new_chars fill n : 0 <= n -> Z.of_nat (length (new_chars fill n)) = n.
Proof. intros. unfold new_chars. rewrite length_fmap, length_seq. lia. Qed.

(** After setValue the value is the new one, whatever storage was reused;
    nothing outside the storage is touched. *)
Lemma setValue_holds fill nv l r :
  terminated nv ->
  exists nv', setValue fill nv (Some (l ++ NUL :: r)) = Ok nv' /\ nv_name nv' = nv_name nv
    /\ holds_value nv' (cstr l).
Proof.
  intros Ht. unfold setValue. rewrite strlen_terminated. cbn [obind].
  set (len := Z.of_nat (length (cstr l))).
  assert (exists buf, (match valueString nv with
     | Some b => let! blen := strlen b in Ok (if blen <? len then new_chars fill (len + 1) else b)
     | None => Ok (new_chars fill (len + 1)) end) = Ok buf /\ len + 1 <= Z.of_nat (length buf)) as (buf & -> & Hb).
  { destruct Ht as [->|(v & Hv & r' & ->)].
    - eexists. split; [done|]. rewrite length_new_chars; lia.
    - rewrite strlen_terminated, cstr_id by done. cbn [obind]. eexists. split; [done|].
      destruct (Z.ltb_spec (Z.of_nat (length v)) len).
      + rewrite length_new_chars; lia.
      + rewrite length_app. simpl. lia. }
  cbn [obind]. pose proof (length_cstr l).
  assert (read_at (l ++ NUL :: r) 0 (len + 1) = Ok (cstr l ++ [NUL])) as ->.
  { rewrite read_at_ok; [|lia|lia|rewrite length_app; simpl; lia].
    rewrite drop_0. f_equal. unfold len. rewrite Z2Nat.inj_add, Nat2Z.id by lia.
    change (Z.to_nat 1) with 1%nat.
    assert (exists t, l ++ NUL :: r = cstr l ++ NUL :: t) as (t & ->).
    { clear. induction l as [|c l IH]; simpl; [eauto|]. case_decide; subst; [by eexists|].
      destruct IH as (t & ->). by exists t. }
    rewrite take_app, firstn_all2 by lia. f_equal. by rewrite Nat.add_1_r, Nat.sub_succ_l, Nat.sub_diag by lia. }
  cbn [obind]. rewrite write_at_ok; [|lia|rewrite length_app; simpl; lia]. cbn [obind].
  eexists. split; [done|]. split; [done|]. split; [auto with cxx|].
  eexists. cbn [valueString]. rewrite take_0, <- app_assoc. done.
Qed.

(** The constructor gives a pair with that name and value. *)
Lemma NameValuePair_new_holds fill name l r :
  exists nv, NameValuePair_new fill name (Some (l ++ NUL :: r)) = Ok nv /\ nv_name nv = cstr name
    /\ holds_value nv (cstr l).
Proof. apply setValue_holds. by left. Qed.

(** The pair as a name and a value. *)
Definition entry_of (nv : NameValuePair) (e : list ascii * list ascii) : Prop :=
  nv_name nv = fst e /\ holds_value nv (snd e).

Lemma NameValuePair_new_value fill n v :
  nul_free n -> nul_free v ->
  exists nv, NameValuePair_new fill (c_str n) (Some (c_str v)) = Ok nv /\ nv_name nv = n /\ holds_value nv v.
Proof.
  intros Hn Hv. destruct (NameValuePair_new_holds fill (c_str n) v []) as (nv & E & Hname & Hval).
  exists nv. unfold c_str in *. rewrite cstr_app_nul in Hname by done. rewrite cstr_id in Hval by done. done.
Qed.

(** The pairs with storage of the exact size. *)
Definition pair_of (e : list ascii * list ascii) : NameValuePair := mkNV (fst e) (Some (c_str (snd e))).

Lemma pairs_of es : Forall (fun e => nul_free (snd e)) es -> Forall2 entry_of (pair_of <$> es) es.
Proof. induction 1 as [|e es He _ IH]; simpl; constructor; [|done]. by repeat split; [|exists []]. Qed.

(** Pairs are ordered by their names in containers. *)
#[export] Instance nv_Containable : Containable NameValuePair := {
  hash_of := fun nv => hash_of (nv_name nv);
  compare_to := fun a b => compare_to (nv_name a) (nv_name b)
}.

#[export] Instance nv_ContainableLaws : ContainableLaws NameValuePair (fun nv => nul_free (nv_name nv)).
Proof.
  destruct bytes_ContainableLaws as [Hr Href Hf Ht He].
  split; intros; cbn [hash_of compare_to nv_Containable] in *; eauto.
Qed.

(** ** NameValuePairInsensitive *)

(** NameValuePairInsensitive::hash *)
Fixpoint hash_upper (l : list ascii) (hashValue : Z) : Z :=
  match l with
  | [] => hashValue
  | c :: l' => hash_upper l' (to_uint (to_uint (Z.shiftl hashValue 5) - hashValue + schar (toupper c)))
  end.

(** NameValuePairInsensitive::compareTo of two such pairs *)
Definition compare_insensitive (a b : NameValuePair) : Z := strcasecmp (nv_name a) (nv_name b).

Lemma toupper_tolower c d : tolower c = tolower d -> toupper c = toupper d.
Proof.
  assert (forall c, toupper c = toupper (tolower c)) as H.
  { intros x. by destruct x as [[] [] [] [] [] [] [] []]. }
  intros E. by rewrite (H c), (H d), E.
Qed.

Lemma hash_upper_eq l m v : tolower <$> l = tolower <$> m -> hash_upper l v = hash_upper m v.
Proof.
  revert m v. induction l as [|c l IH]; intros [|d m] v E; try discriminate; [done|].
  simpl in E. injection E as E1 E2. simpl. rewrite (toupper_tolower c d) by done. auto.
Qed.

(** The insensitive pair meets the contract of UtlContainable too: names
    that differ in case only are equal and have the same hash. *)
Theorem insensitive_contract a b c :
  nul_free (nv_name a) -> nul_free (nv_name b) -> nul_free (nv_name c) ->
  (compare_insensitive a b = 0 <-> tolower <$> nv_name a = tolower <$> nv_name b)
  /\ (compare_insensitive a b = 0 -> hash_upper (nv_name a) 0 = hash_upper (nv_name b) 0)
  /\ compare_insensitive b a = - compare_insensitive a b
  /\ (compare_insensitive a b <= 0 -> compare_insensitive b c <= 0 -> compare_insensitive a c <= 0).
Proof.
  intros Ha Hb Hc. unfold compare_insensitive. rewrite !strcasecmp_lex, !cstr_id by done.
  split; [apply lexcmp_eq|]. split; [intros E%lexcmp_eq; by apply hash_upper_eq|].
  split; [apply lexcmp_antisym|apply lexcmp_trans].
Qed.

Lemma insensitive_contract_witness :
  compare_insensitive (mkNV (bytes "Via") None) (mkNV (bytes "VIA") None) = 0
  /\ hash_upper (bytes "Via") 0 = hash_upper (bytes "VIA") 0.
Proof.
  assert (compare_insensitive (mkNV (bytes "Via") None) (mkNV (bytes "VIA") None) = 0) as E by reflexivity.
  split; [done|].
  apply (insensitive_contract (mkNV (bytes "Via") None) (mkNV (bytes "VIA") None) (mkNV [] None));
    [..|done]; apply (bool_decide_unpack _); by vm_compute.
Defined.
