(* ===== verification/RouteState.v ===== *)
(** * RouteState: signed dialog state of the authorization proxy

    src/sipXproxy/src/RouteState.cpp.  The state is a sorted list of
    name/value pairs, encoded into one SIP token with a signature over the
    server's secret, the Call-Id and the encoded pairs.  Strings are their
    contents (UtlStringRefine), the list is the sequence UtlSortedList
    implements (UtlSortedListSpec), a C string argument is its contents
    without the terminator.  The regular expression searches are parameters
    with the documented meaning of the expressions ([RouteSearchLaws]); the
    search for a whole token may also give up, because RegEx limits the
    recursion depth of PCRE, which [state_limit] bounds from below. *)
From Stdlib Require Import ZArith Lia Ascii String.
From stdpp Require Import base list strings.
From S2P Require Import Prelude UtlString UtlStringRefine Regex Containable UtlList UtlSListSpec UtlSortedListSpec.
From S2P Require Import NetBase64Codec NetMd5Codec NameValuePair.
Local Open Scope Z_scope.

(** ** The expressions *)

Definition NAME_cls : cls :=
  mkCls false [("*", "*"); ("a", "z"); ("A", "Z"); ("0", "9"); ("_", "_"); ("-", "-")]%char.
Definition VALUE_cls : cls :=
  mkCls false [("a", "z"); ("A", "Z"); ("0", "9"); ("'", "'"); ("/", "/"); ("`", "`")]%char.
Definition HEX_cls : cls := mkCls false [("0", "9"); ("a", "f"); ("A", "F")]%char.
Definition PARAM_cls : cls := mkCls false [("a", "z"); ("A", "Z"); ("0", "9"); ("_", "_"); ("-", "-")]%char.

Definition NAME : re := at_least 2 (Cls NAME_cls).
Definition VALUE : re := Star (Cls VALUE_cls).

Definition NAME_PART_SEP : ascii := "*".
Definition NV_SEP : ascii := "~".
Definition NV_LIST_SEP : ascii := ".".
Definition SIG_SEP : ascii := "!".

Definition namevalue : re := Seq NAME (Seq (re_lit [NV_SEP]) VALUE).

(** In StateAndSignature the separator [NV_LIST_SEP] is the unescaped
    metacharacter [.], any character but a newline. *)
Definition nvpairs : re := Seq namevalue (Star (Seq any_char namevalue)).

(** StateAndSignature: its two groups in the subject [s]. *)
Definition state_match (s pairs sig : list ascii) : Prop :=
  exists t, s = pairs ++ SIG_SEP :: sig ++ t /\ accepts nvpairs pairs
    /\ accepts (times 32 (Cls HEX_cls)) sig /\ (t = [] \/ t = [LF]).

(** NameValue at the start of [s]: its two groups and what follows. *)
Definition nv_match (s name value rest : list ascii) : Prop :=
  exists sep, s = name ++ NV_SEP :: value ++ sep :: rest /\ accepts NAME name /\ accepts VALUE value
    /\ (sep = NV_LIST_SEP \/ sep = SIG_SEP).

(** RouteParameterName::ParameterNamePattern *)
Definition param_match (s : list ascii) : Prop :=
  exists n t, s = n ++ t /\ accepts (Star (Cls PARAM_cls)) n /\ (t = [] \/ t = [LF]).

(** The searches: StateAndSignature in a subject, NameValue anchored or not
    in the rest of a subject, ParameterNamePattern. *)
Class RouteSearch : Type := {
  state_search : list ascii -> option (list ascii * list ascii);
  state_limit : nat;
  nv_search : bool -> list ascii -> option (list ascii * list ascii * list ascii);
  param_search : list ascii -> bool
}.

Class RouteSearchLaws `{RouteSearch} : Prop := {
  state_search_sound : forall s p g, state_search s = Some (p, g) -> state_match s p g;
  state_search_complete : forall s p g,
    state_match s p g -> (length s <= state_limit)%nat -> state_search s = Some (p, g);
  nv_search_spec : forall anchored s n v r, nv_search anchored s = Some (n, v, r) <->
    exists skipped q, s = skipped ++ q /\ nv_match q n v r /\ (anchored = true -> skipped = [])
      /\ forall skipped' q' n' v' r', s = skipped' ++ q' -> nv_match q' n' v' r' ->
           (anchored = true -> skipped' = []) -> (length skipped <= length skipped')%nat;
  param_search_spec : forall s, param_search s = true <-> param_match s
}.

Record RouteState : Type := mkState {
  mRouteHostPort : list ascii;
  mMayBeMutable : bool;
  mRecordRouteIndices : list Z;
  mModified : bool;
  mFoundRouteState : bool;
  mAddCopyRequested : bool;
  mValues : list NameValuePair;
  mCallId : list ascii;
  mFromTag : list ascii
}.

Definition with_values (rs : RouteState) (vs : list NameValuePair) : RouteState :=
  mkState (mRouteHostPort rs) (mMayBeMutable rs) (mRecordRouteIndices rs) (mModified rs) (mFoundRouteState rs)
    (mAddCopyRequested rs) vs (mCallId rs) (mFromTag rs).
Definition with_modified (rs : RouteState) (b : bool) : RouteState :=
  mkState (mRouteHostPort rs) (mMayBeMutable rs) (mRecordRouteIndices rs) b (mFoundRouteState rs)
    (mAddCopyRequested rs) (mValues rs) (mCallId rs) (mFromTag rs).

Definition AUTHORIZED_DIALOG_PARAM : list ascii := bytes "auth".

Section RouteState.
Context `{Base64Search} `{RouteSearch} (fill : nat -> ascii).

(** ** Parameters *)

(** RouteParameterName(pluginInstance, parameterName): the empty string when
    a part is invalid. *)
Definition RouteParameterName (pluginInstance parameterName : list ascii) : list ascii :=
  if param_search pluginInstance && param_search parameterName
  then pluginInstance ++ NAME_PART_SEP :: parameterName else [].

(** [mValues.find(&name)]: the position of the pair in the sorted list. *)
Definition find_value (name : list ascii) (vs : list NameValuePair) : option (nat * NameValuePair) :=
  list_find (fun nv => strcmp (nv_name nv) name = 0) vs.

(** RouteState::getParameter: the value when there is one. *)
Definition getParameter (rs : RouteState) (pluginInstance parameterName : list ascii)
    : outcome (option (list ascii)) :=
  match RouteParameterName pluginInstance parameterName with
  | [] => Ok None
  | name =>
      match find_value name (mValues rs) with
      | Some (_, nv) => let! v := getValue nv in Ok (Some v)
      | None => Ok None
      end
  end.

(** RouteState::setParameter *)
Definition setParameter (rs : RouteState) (pluginInstance parameterName parameterValue : list ascii)
    : outcome RouteState :=
  if mMayBeMutable rs then
    match RouteParameterName pluginInstance parameterName with
    | [] => Ok rs
    | name =>
        let! vs := match find_value name (mValues rs) with
                   | Some (i, nv) =>
                       let! nv' := setValue fill nv (Some (c_str parameterValue)) in
                       Ok (<[i := nv']> (mValues rs))
                   | None =>
                       let! nv := NameValuePair_new fill (c_str name) (Some (c_str parameterValue)) in
                       Ok (insert_sorted nv (mValues rs))
                   end in
        Ok (with_modified (with_values rs vs) true)
    end
  else Ok rs.

(** RouteState::unsetParameter *)
Definition unsetParameter (rs : RouteState) (pluginInstance parameterName : list ascii) : RouteState :=
  if mMayBeMutable rs then
    match RouteParameterName pluginInstance parameterName with
    | [] => rs
    | name =>
        match find_value name (mValues rs) with
        | Some (i, _) => with_values rs (delete i (mValues rs))
        | None => rs
        end
    end
  else rs.

(** RouteState::originalCallerFromTagValue: the tag when it is known. *)
Definition originalCallerFromTagValue (rs : RouteState) (instanceName : list ascii)
    : outcome (option (list ascii) * RouteState) :=
  match instanceName with
  | [] => AssertFail
  | _ =>
      let! found := getParameter rs [] (bytes "from") in
      match found with
      | Some tag => Ok (Some tag, rs)
      | None =>
          if mMayBeMutable rs then
            let! rs' := setParameter rs [] (bytes "from") (mFromTag rs) in Ok (Some (mFromTag rs), rs')
          else Ok (None, rs)
      end
  end.

(** RouteState::directionIsCallerToCalled *)
Definition directionIsCallerToCalled (rs : RouteState) (instanceName : list ascii)
    : outcome (bool * RouteState) :=
  match instanceName with
  | [] => AssertFail
  | _ =>
      let! r := originalCallerFromTagValue rs instanceName in
      Ok (match fst r with
          | Some originalFromTag => strcasecmp originalFromTag (mFromTag rs) =? 0
          | None => false
          end, snd r)
  end.

(** RouteState::markDialogAsAuthorized, RouteState::isDialogAuthorized *)
Definition markDialogAsAuthorized (rs : RouteState) : outcome RouteState :=
  if mMayBeMutable rs then setParameter rs [] AUTHORIZED_DIALOG_PARAM [] else Ok rs.
Definition isDialogAuthorized (rs : RouteState) : outcome bool :=
  let! v := getParameter rs [] AUTHORIZED_DIALOG_PARAM in
  Ok (match v with Some _ => true | None => false end).

Definition addCopy (rs : RouteState) : RouteState :=
  mkState (mRouteHostPort rs) (mMayBeMutable rs) (mRecordRouteIndices rs) (mModified rs) (mFoundRouteState rs)
    true (mValues rs) (mCallId rs) (mFromTag rs).

(** ** Tokens *)

(** token_esc() and its inverse *)
Definition token_esc (l : list ascii) : list ascii :=
  (fun c => if bool_decide (c = "+"%char) then "'"%char else if bool_decide (c = "="%char) then "`"%char else c) <$> l.
Definition token_unesc (l : list ascii) : list ascii :=
  (fun c => if bool_decide (c = "'"%char) then "+"%char else if bool_decide (c = "`"%char) then "="%char else c) <$> l.

(** The loop of RouteState::encode over the pairs *)
Fixpoint encode_pairs (firstParam : bool) (vs : list NameValuePair) (stateToken : list ascii)
    : outcome (list ascii) :=
  match vs with
  | [] => Ok stateToken
  | nvpair :: vs' =>
      let! value := getValue nvpair in
      let encodedValue := token_esc (NetBase64Codec.encode RFC4648MimeAlphabet value) in
      encode_pairs false vs'
        (stateToken ++ (if firstParam then [] else [NV_LIST_SEP]) ++ cstr (nv_name nvpair)
         ++ [NV_SEP] ++ encodedValue)
  end.

(** The signature of [text] for a Call-Id: hash(secret), hash(callid),
    hash(text), appendHashValue. *)
Definition signature (secret callId text : list ascii) : outcome (list ascii) :=
  let! m := hash_all (NetMd5Codec_default fill) [secret; callId; text] in
  let! r := appendHashValue m [] in Ok (fst r).

(** RouteState::encode *)
Definition encode (secret : list ascii) (rs : RouteState) (stateToken : list ascii) : outcome (list ascii) :=
  let! t := encode_pairs true (mValues rs) stateToken in
  let! sig := signature secret (mCallId rs) t in
  Ok (t ++ [SIG_SEP] ++ sig).

(** [exactly one '*' in names] *)
Definition one_star (names : list ascii) : bool :=
  match list_find (fun c => c = NAME_PART_SEP) names with
  | Some (star, _) =>
      match list_find (fun c => c = NAME_PART_SEP) (drop (S star) names) with Some _ => false | None => true end
  | None => false
  end.

(** The body of the do loop of RouteState::decode for one match: the pair to
    insert, or none when [decodedOk] became false. *)
Definition decode_pair (names encodedValue : list ascii) : outcome (option NameValuePair) :=
  if one_star names then
    match encodedValue with
    | [] => let! nv := NameValuePair_new fill (c_str names) (Some (c_str [])) in Ok (Some nv)
    | _ =>
        let! r := NetBase64Codec.decode RFC4648MimeAlphabet fill (token_unesc encodedValue) in
        if fst r then
          let! nv := NameValuePair_new fill (c_str names) (Some (c_str (snd r))) in Ok (Some nv)
        else Ok None
    end
  else Ok None.

(** The do loop, from the result of the last search: the values and
    [decodedOk].  Every further search starts after the last match. *)
Fixpoint decode_loop (fuel : nat) (found : option (list ascii * list ascii * list ascii))
    (vs : list NameValuePair) : outcome (bool * list NameValuePair) :=
  match fuel with
  | O => UB
  | S fuel' =>
      match found with
      | None => Ok (false, vs)
      | Some (names, encodedValue, rest) =>
          let! p := decode_pair names encodedValue in
          match p with
          | None => Ok (false, vs)
          | Some nv =>
              let vs' := insert_sorted nv vs in
              match rest with
              | [] => Ok (true, vs')
              | _ =>
                  match nv_search false rest with
                  | Some m => decode_loop fuel' (Some m) vs'
                  | None => Ok (true, vs')
                  end
              end
          end
      end
  end.

(** RouteState::decode *)
Definition decode (secret : list ascii) (rs : RouteState) (stateToken : list ascii)
    : outcome (bool * RouteState) :=
  let rs0 := with_values rs [] in
  match state_search (cstr stateToken) with
  | Some (pairs, actualSignature) =>
      let! validSignature := signature secret (mCallId rs) pairs in
      if strcmp actualSignature validSignature =? 0 then
        let! r := decode_loop (S (length stateToken)) (nv_search true stateToken) [] in
        Ok (if fst r : bool then (true, with_values rs (snd r)) else (false, rs0))
      else Ok (false, rs0)
  | None => Ok (false, rs0)
  end.

(** RouteState::setSecret *)
Definition setSecret (mSignatureSecret secret : list ascii) : list ascii := secret.
End RouteState.
