(* ===== verification/RouteStateSpec.v ===== *)
(** * RouteState keeps a finite map of parameters and its tokens are faithful

    The parameters of a RouteState behave as a finite map from names to
    values; a token decodes, for the same Call-Id and secret, to the
    parameters it was made from, so that the state set in the dialog-forming
    request is what later requests of the dialog read; a token that does not
    carry the right signature gives no parameters. *)
From Stdlib Require Import ZArith Lia Ascii String.
From stdpp Require Import base list strings gmap sorting.
From S2P Require Import Prelude UtlString UtlStringRefine Regex Containable UtlList UtlSListSpec UtlSortedListSpec.
From S2P Require Import NetBase64Codec NetBase64CodecSpec NetMd5Codec NameValuePair RouteState.
Local Open Scope Z_scope.

Notation params := (gmap (list ascii) (list ascii)).

(** The sorted list [vs] holds the parameters [M]. *)
Record represents (vs : list NameValuePair) (M : params) : Prop := {
  rp_sorted : sorted vs;
  rp_nodup : NoDup (nv_name <$> vs);
  rp_names : Forall (fun nv => nul_free (nv_name nv)) vs;
  rp_values : Forall (fun nv => exists v, holds_value nv v /\ M !! nv_name nv = Some v) vs;
  rp_dom : forall n, is_Some (M !! n) -> n ∈ nv_name <$> vs
}.

Lemma represents_nil : represents [] ∅.
Proof. split; try constructor. intros n [v Hv]. done. Qed.

(** ** The list operations *)

Lemma find_value_None vs M n :
  represents vs M -> nul_free n -> find_value n vs = None -> M !! n = None /\ n ∉ nv_name <$> vs.
Proof.
  intros [Hs Hd Hn Hv Hdom] Hnf E. apply list_find_None in E.
  assert (n ∉ nv_name <$> vs) as Hni.
  { intros (nv & -> & Hin)%list_elem_of_fmap. rewrite Forall_forall in E.
    by apply (E nv Hin), strcmp_refl. }
  split; [|done]. apply eq_None_not_Some. auto.
Qed.

Lemma find_value_Some vs M n i nv :
  represents vs M -> nul_free n -> find_value n vs = Some (i, nv) ->
  vs !! i = Some nv /\ nv_name nv = n /\ exists v, holds_value nv v /\ M !! n = Some v.
Proof.
  intros [Hs Hd Hn Hv Hdom] Hnf (Hi & He & _)%list_find_Some.
  pose proof (list_elem_of_lookup_2 _ _ _ Hi) as Hin. rewrite Forall_forall in Hn, Hv.
  assert (nv_name nv = n) as <- by (apply strcmp_eq_nul_free; auto). auto.
Qed.

Lemma insert_sorted_perm (nv : NameValuePair) vs : insert_sorted nv vs ≡ₚ nv :: vs.
Proof.
  destruct (insert_sorted_split nv vs) as (vs1 & vs2 & -> & -> & _). by rewrite <- Permutation_middle.
Qed.

Lemma represents_insert vs M nv n v :
  represents vs M -> nv_name nv = n -> holds_value nv v -> nul_free n -> n ∉ nv_name <$> vs ->
  represents (insert_sorted nv vs) (<[n := v]> M).
Proof.
  intros [Hs Hd Hn Hv Hdom] <- Hval Hnf Hni. split.
  - by apply insert_sorted_sorted.
  - rewrite insert_sorted_perm. simpl. by constructor.
  - rewrite insert_sorted_perm. by constructor.
  - rewrite insert_sorted_perm. constructor; [exists v; by rewrite lookup_insert_eq|].
    rewrite Forall_forall in Hv |- *. intros x Hx. destruct (Hv x Hx) as (w & Hw & E).
    exists w. split; [done|]. rewrite lookup_insert_ne; [done|]. intros Heq. apply Hni. rewrite Heq.
    by apply list_elem_of_fmap_2.
  - intros m. rewrite insert_sorted_perm. simpl. rewrite elem_of_cons, lookup_insert_is_Some. naive_solver.
Qed.

(** Sortedness and the names depend on the names only. *)
Lemma sorted_same_names vs vs' : nv_name <$> vs = nv_name <$> vs' -> sorted vs -> sorted vs'.
Proof.
  unfold sorted. revert vs'. induction vs as [|a vs IH]; intros [|b vs'] E Hs; try discriminate; [done|].
  assert (nv_name a = nv_name b /\ nv_name <$> vs = nv_name <$> vs') as [E1 E2] by (by injection E).
  inversion Hs as [|? ? Hs1 Hf]; subst. constructor; [by apply IH|].
  apply Forall_forall. intros x Hx. apply (list_elem_of_fmap_2 nv_name) in Hx. rewrite <- E2 in Hx.
  apply list_elem_of_fmap in Hx as (y & Exy & Hy). rewrite Forall_forall in Hf. specialize (Hf y Hy).
  cbn [compare_to nv_Containable] in *. by rewrite <- E1, Exy.
Qed.

Lemma represents_update vs M i nv nv' v :
  represents vs M -> vs !! i = Some nv -> nv_name nv' = nv_name nv -> holds_value nv' v ->
  represents (<[i := nv']> vs) (<[nv_name nv := v]> M).
Proof.
  intros [Hs Hd Hn Hv Hdom] Hi Hname Hval.
  assert (nv_name <$> <[i := nv']> vs = nv_name <$> vs) as Hnames.
  { rewrite list_fmap_insert, Hname. apply list_insert_id. by rewrite list_lookup_fmap, Hi. }
  split.
  - by eapply sorted_same_names.
  - by rewrite Hnames.
  - apply Forall_insert; [done|]. rewrite Hname. by eapply Forall_lookup_1 in Hn.
  - apply Forall_lookup. intros j x Hx. destruct (decide (i = j)) as [<-|Hij].
    + rewrite list_lookup_insert_eq in Hx by (by eapply lookup_lt_Some). simplify_eq.
      exists v. by rewrite Hname, lookup_insert_eq.
    + rewrite list_lookup_insert_ne in Hx by done. rewrite Forall_lookup in Hv.
      destruct (Hv j x Hx) as (w & Hw & E). exists w. split; [done|]. rewrite lookup_insert_ne; [done|].
      intros Heq. apply Hij. eapply (NoDup_lookup _ i j (nv_name nv)); [done| |];
        rewrite list_lookup_fmap, ?Hi, ?Hx; simpl; congruence.
  - intros m Hm. rewrite Hnames. apply lookup_insert_is_Some in Hm as [<-|[_ Hm]]; [|auto].
    apply list_elem_of_fmap_2. by eapply list_elem_of_lookup_2.
Qed.

Lemma represents_delete vs M i nv :
  represents vs M -> vs !! i = Some nv -> represents (delete i vs) (delete (nv_name nv) M).
Proof.
  intros [Hs Hd Hn Hv Hdom] Hi. pose proof (delete_Permutation vs i nv Hi) as Hp.
  rewrite Hp in Hd, Hn, Hv. simpl in Hd. apply NoDup_cons in Hd as [Hni Hd].
  inversion Hn as [|? ? _ Hn']; subst. inversion Hv as [|? ? _ Hv']; subst. split; try done.
  - by apply sorted_delete.
  - rewrite Forall_forall in Hv' |- *. intros x Hx. destruct (Hv' x Hx) as (w & Hw & E).
    exists w. split; [done|]. rewrite lookup_delete_ne; [done|]. intros Heq. apply Hni. rewrite Heq.
    by apply list_elem_of_fmap_2.
  - intros m Hm. apply lookup_delete_is_Some in Hm as [Hne Hm]. apply Hdom in Hm. rewrite Hp in Hm.
    simpl in Hm. apply elem_of_cons in Hm as [->|Hm]; [done|done].
Qed.

(** ** Parameters as a finite map *)

Inductive rs_op : Type :=
| OSet (plugin param value : list ascii) | OUnset (plugin param : list ascii) | OGet (plugin param : list ascii)
| OMark | OIsAuthorized | OFromTag (instance : list ascii) | ODirection (instance : list ascii).

Inductive rs_result : Type := RUnit | RValue (v : option (list ascii)) | RFlag (b : bool).

(** The abstract state: whether it may change, the From tag of the message,
    the parameters and whether they count as modified. *)
Record abstract : Type := mkAbs { a_mutable : bool; a_tag : list ascii; a_map : params; a_modified : bool }.

Definition represents_state (rs : RouteState) (a : abstract) : Prop :=
  represents (mValues rs) (a_map a) /\ mMayBeMutable rs = a_mutable a /\ mFromTag rs = a_tag a
  /\ mModified rs = a_modified a /\ nul_free (a_tag a).

Section Params.
Context `{Base64Search} `{RouteSearchLaws} (fill : nat -> ascii).

Definition rs_run (o : rs_op) (rs : RouteState) : outcome (rs_result * RouteState) :=
  match o with
  | OSet p n v => let! rs' := setParameter fill rs p n v in Ok (RUnit, rs')
  | OUnset p n => Ok (RUnit, unsetParameter rs p n)
  | OGet p n => let! v := getParameter rs p n in Ok (RValue v, rs)
  | OMark => let! rs' := markDialogAsAuthorized fill rs in Ok (RUnit, rs')
  | OIsAuthorized => let! b := isDialogAuthorized rs in Ok (RFlag b, rs)
  | OFromTag i => let! r := originalCallerFromTagValue fill rs i in Ok (RValue (fst r), snd r)
  | ODirection i => let! r := directionIsCallerToCalled fill rs i in Ok (RFlag (fst r), snd r)
  end.

Definition set_spec (a : abstract) (key v : list ascii) : abstract :=
  if a_mutable a && negb (bool_decide (key = [])) then mkAbs true (a_tag a) (<[key := v]> (a_map a)) true else a.
Definition get_spec (a : abstract) (key : list ascii) : option (list ascii) :=
  if bool_decide (key = []) then None else a_map a !! key.

(** The names of the shared parameters. *)
Definition FROM_KEY : list ascii := bytes "*from".
Definition AUTH_KEY : list ascii := bytes "*auth".

Definition from_spec (a : abstract) : option (list ascii) * abstract :=
  match get_spec a FROM_KEY with
  | Some tag => (Some tag, a)
  | None => if a_mutable a then (Some (a_tag a), set_spec a FROM_KEY (a_tag a)) else (None, a)
  end.

Definition rs_spec (o : rs_op) (a : abstract) : rs_result * abstract :=
  match o with
  | OSet p n v => (RUnit, set_spec a (RouteParameterName p n) v)
  | OUnset p n =>
      (RUnit, if a_mutable a && negb (bool_decide (RouteParameterName p n = []))
              then mkAbs true (a_tag a) (delete (RouteParameterName p n) (a_map a)) (a_modified a) else a)
  | OGet p n => (RValue (get_spec a (RouteParameterName p n)), a)
  | OMark => (RUnit, set_spec a AUTH_KEY [])
  | OIsAuthorized => (RFlag (bool_decide (is_Some (get_spec a AUTH_KEY))), a)
  | OFromTag _ => (RValue (fst (from_spec a)), snd (from_spec a))
  | ODirection _ =>
      (RFlag (match fst (from_spec a) with Some t => strcasecmp t (a_tag a) =? 0 | None => false end),
       snd (from_spec a))
  end.

Definition rs_valid (o : rs_op) : Prop :=
  match o with
  | OSet _ _ v => nul_free v
  | OFromTag i | ODirection i => i <> []
  | _ => True
  end.

Fixpoint rs_runs (os : list rs_op) (rs : RouteState) : outcome (list rs_result * RouteState) :=
  match os with
  | [] => Ok ([], rs)
  | o :: os' =>
      let! r := rs_run o rs in
      let! q := rs_runs os' (snd r) in Ok (fst r :: fst q, snd q)
  end.
Fixpoint rs_specs (os : list rs_op) (a : abstract) : list rs_result * abstract :=
  match os with
  | [] => ([], a)
  | o :: os' => let r := rs_spec o a in let q := rs_specs os' (snd r) in (fst r :: fst q, snd q)
  end.

Lemma cls_nul_free k l : in_cls NUL k = false -> Forall (fun c => in_cls c k = true) l -> nul_free l.
Proof. intros Hk Hl. unfold nul_free. eapply Forall_impl; [exact Hl|]. simpl. intros c Hc ->. congruence. Qed.

Lemma param_nul_free s : param_search s = true -> nul_free s.
Proof.
  intros (n & t & -> & Hn%accepts_star_cls & Ht)%param_search_spec. apply Forall_app. split.
  - by apply (cls_nul_free PARAM_cls).
  - destruct Ht as [-> | ->]; repeat constructor; discriminate.
Qed.

Lemma key_nul_free p n : nul_free (RouteParameterName p n).
Proof.
  unfold RouteParameterName. destruct (param_search p) eqn:Ep, (param_search n) eqn:En; simpl; try constructor.
  apply Forall_app. split; [by apply param_nul_free|]. constructor; [discriminate|by apply param_nul_free].
Qed.

Lemma shared_key n :
  Forall (fun c => in_cls c PARAM_cls = true) n -> RouteParameterName [] n = NAME_PART_SEP :: n.
Proof.
  intros Hn. unfold RouteParameterName.
  rewrite !(proj2 (param_search_spec _)); [done| |].
  - exists n, []. rewrite app_nil_r, accepts_star_cls. auto.
  - exists [], []. rewrite accepts_star_cls. auto.
Qed.

Lemma from_key : RouteParameterName [] (bytes "from") = FROM_KEY.
Proof. apply shared_key. repeat constructor. Qed.
Lemma auth_key : RouteParameterName [] AUTHORIZED_DIALOG_PARAM = AUTH_KEY.
Proof. apply shared_key. repeat constructor. Qed.

Lemma getParameter_lookup rs M p n :
  represents (mValues rs) M ->
  getParameter rs p n
  = Ok (if bool_decide (RouteParameterName p n = []) then None else M !! RouteParameterName p n).
Proof.
  intros Hr. unfold getParameter. pose proof (key_nul_free p n) as Hk.
  case_bool_decide as Hne; [by rewrite Hne|].
  destruct (RouteParameterName p n) as [|c k] eqn:Ek; [done|].
  destruct (find_value (c :: k) (mValues rs)) as [[i nv]|] eqn:E.
  - destruct (find_value_Some _ _ _ _ _ Hr Hk E) as (_ & _ & v & Hv & ->).
    by rewrite (getValue_holds nv v Hv).
  - by destruct (find_value_None _ _ _ Hr Hk E) as [-> _].
Qed.

Lemma getParameter_refines rs a p n :
  represents_state rs a -> getParameter rs p n = Ok (get_spec a (RouteParameterName p n)).
Proof. intros (Hr & _). by apply getParameter_lookup. Qed.

Lemma setParameter_refines rs a p n v :
  represents_state rs a -> nul_free v ->
  exists rs', setParameter fill rs p n v = Ok rs' /\ represents_state rs' (set_spec a (RouteParameterName p n) v)
    /\ mCallId rs' = mCallId rs.
Proof.
  intros Hrs Hv. pose proof Hrs as (Hr & Hm & Ht & Hmod & Hnt). unfold setParameter, set_spec. rewrite Hm. pose proof (key_nul_free p n) as Hk.
  destruct (a_mutable a) eqn:Ea; cbn [andb negb]; [|by exists rs].
  case_bool_decide as Hne; cbn [andb negb]; [rewrite Hne; by exists rs|].
  destruct (RouteParameterName p n) as [|c k] eqn:Ek; [done|].
  destruct (find_value (c :: k) (mValues rs)) as [[i nv]|] eqn:E.
  - destruct (find_value_Some _ _ _ _ _ Hr Hk E) as (Hi & Hname & w & Hw & _).
    destruct (setValue_holds fill nv v []) as (nv' & E' & Hname' & Hval); [right; eauto|].
    unfold c_str. rewrite E'. cbn [obind]. eexists. split; [done|]. rewrite cstr_id in Hval by done.
    rewrite <- Hname. split; [|done]. split_and!; try done. by apply represents_update.
  - destruct (find_value_None _ _ _ Hr Hk E) as [_ Hni].
    destruct (NameValuePair_new_value fill (c :: k) v Hk Hv) as (nv & -> & Hname & Hval). cbn [obind].
    eexists. split; [done|]. split; [|done]. split_and!; try done. by apply represents_insert.
Qed.

Lemma unsetParameter_refines rs a p n :
  represents_state rs a ->
  represents_state (unsetParameter rs p n) (snd (rs_spec (OUnset p n) a))
  /\ mCallId (unsetParameter rs p n) = mCallId rs.
Proof.
  intros Hrs. pose proof Hrs as (Hr & Hm & Ht & Hmod & Hnt). unfold unsetParameter. simpl. rewrite Hm. pose proof (key_nul_free p n) as Hk.
  destruct (a_mutable a) eqn:Ea; simpl; [|done].
  case_bool_decide as Hne; simpl; [by rewrite Hne|].
  destruct (RouteParameterName p n) as [|c k] eqn:Ek; [done|].
  destruct (find_value (c :: k) (mValues rs)) as [[i nv]|] eqn:E; (split; [|done]); split_and!; try done.
  - destruct (find_value_Some _ _ _ _ _ Hr Hk E) as (Hi & <- & _). by apply represents_delete.
  - destruct (find_value_None _ _ _ Hr Hk E) as [Hno _]. cbn [a_map]. by rewrite delete_id.
Qed.

Lemma from_refines rs a i :
  represents_state rs a -> i <> [] ->
  exists rs', originalCallerFromTagValue fill rs i = Ok (fst (from_spec a), rs')
    /\ represents_state rs' (snd (from_spec a)) /\ mCallId rs' = mCallId rs.
Proof.
  intros Hr Hi. pose proof Hr as (_ & Hm & Ht & _ & Hnt).
  unfold originalCallerFromTagValue, from_spec. destruct i as [|c i]; [done|].
  rewrite (getParameter_refines rs a) by done. rewrite from_key. cbn [obind].
  destruct (get_spec a FROM_KEY) as [tag|]; [by exists rs|]. rewrite Hm.
  destruct (a_mutable a); [|by exists rs].
  destruct (setParameter_refines rs a [] (bytes "from") (mFromTag rs) Hr) as (rs' & -> & Hr' & Hc).
  { by rewrite Ht. }
  rewrite from_key, Ht in Hr'. cbn [obind fst snd]. rewrite Ht. eauto.
Qed.

Lemma rs_run_refines o rs a :
  represents_state rs a -> rs_valid o ->
  exists rs', rs_run o rs = Ok (fst (rs_spec o a), rs') /\ represents_state rs' (snd (rs_spec o a))
    /\ mCallId rs' = mCallId rs.
Proof.
  intros Hr Hv. pose proof Hr as (_ & Hm & Ht & _).
  destruct o as [p n v|p n|p n| | |i|i]; cbn [rs_run rs_spec rs_valid fst snd] in *.
  - destruct (setParameter_refines rs a p n v Hr Hv) as (rs' & -> & Hr'). by exists rs'.
  - destruct (unsetParameter_refines rs a p n Hr) as [Hr' Hc]. by eexists.
  - rewrite (getParameter_refines rs a) by done. by exists rs.
  - unfold markDialogAsAuthorized. rewrite Hm. destruct (a_mutable a) eqn:Ea.
    + destruct (setParameter_refines rs a [] AUTHORIZED_DIALOG_PARAM [] Hr) as (rs' & -> & Hr'); [constructor|].
      rewrite auth_key in Hr'. by exists rs'.
    + exists rs. unfold set_spec. by rewrite Ea.
  - unfold isDialogAuthorized. rewrite (getParameter_refines rs a), auth_key by done. exists rs. cbn [obind].
    by destruct (get_spec a AUTH_KEY).
  - destruct (from_refines rs a i Hr Hv) as (rs' & -> & Hr'). by exists rs'.
  - unfold directionIsCallerToCalled. destruct (from_refines rs a i Hr Hv) as (rs' & -> & Hr').
    destruct i as [|c i]; [done|]. exists rs'. cbn [obind fst snd]. by rewrite Ht.
Qed.

(** Any sequence of parameter operations on a RouteState behaves as on a
    finite map from names to values: what is set is read back, a name with
    an invalid part is ignored, a state that may not change does not, the
    first question for the direction records the From tag; [mModified]
    becomes true with the first effective setParameter. *)
Theorem rs_runs_refine os rs a :
  represents_state rs a -> Forall rs_valid os ->
  exists rs', rs_runs os rs = Ok (fst (rs_specs os a), rs') /\ represents_state rs' (snd (rs_specs os a))
    /\ mCallId rs' = mCallId rs.
Proof.
  intros Hr Hv. revert rs a Hr. induction Hv as [|o os Ho Hv IH]; intros rs a Hr; [by exists rs|].
  cbn [rs_runs rs_specs]. destruct (rs_run_refines o rs a Hr Ho) as (rs1 & -> & Hr1 & Hc1). cbn [obind fst snd].
  destruct (IH rs1 _ Hr1) as (rs2 & -> & Hr2 & Hc2). cbn [obind fst snd]. exists rs2. split; [done|].
  split; [done|congruence].
Qed.

(** Unsetting a parameter takes effect at once, but does not mark the state
    as modified: alone it is never written back to the message. *)
Theorem unset_not_recorded rs a p n v :
  represents_state rs a -> a_mutable a = true -> a_modified a = false ->
  RouteParameterName p n <> [] -> a_map a !! RouteParameterName p n = Some v ->
  getParameter rs p n = Ok (Some v) /\ getParameter (unsetParameter rs p n) p n = Ok None
  /\ mModified (unsetParameter rs p n) = false.
Proof.
  intros Hr Hm Hmod Hne Hv. destruct (unsetParameter_refines rs a p n Hr) as [Hr' _].
  cbn [rs_spec snd] in Hr'. rewrite Hm, (bool_decide_false _ Hne) in Hr'. cbn [andb negb] in Hr'.
  rewrite (getParameter_refines _ _ _ _ Hr), (getParameter_refines _ _ _ _ Hr'). unfold get_spec.
  rewrite !(bool_decide_false _ Hne), Hv. cbn [a_map]. rewrite lookup_delete_eq. split_and!; try done.
  destruct Hr' as (_ & _ & _ & -> & _). done.
Qed.
End Params.

(** ** The text of the pairs *)

(** [encodedvalue] and [namevalue] of the grammar *)
Definition enc (v : list ascii) : list ascii := token_esc (NetBase64Codec.encode RFC4648MimeAlphabet v).
Definition pair_text (e : list ascii * list ascii) : list ascii := fst e ++ NV_SEP :: enc (snd e).
Definition rest_text (es : list (list ascii * list ascii)) : list ascii :=
  concat ((fun e => NV_LIST_SEP :: pair_text e) <$> es).
Definition pairs_text (es : list (list ascii * list ascii)) : list ascii :=
  match es with [] => [] | e :: es' => pair_text e ++ rest_text es' end.

(** A name the grammar allows: at least two characters, one star; a value
    that is a C string. *)
Definition wf_entry (e : list ascii * list ascii) : Prop :=
  (2 <= length (fst e))%nat /\ Forall (fun c => in_cls c NAME_cls = true) (fst e)
  /\ one_star (fst e) = true /\ nul_free (snd e).

Lemma represents_entries vs M :
  represents vs M -> exists es, Forall2 entry_of vs es /\ list_to_map es = M /\ es.*1 = nv_name <$> vs.
Proof.
  intros Hr. assert (exists es, Forall2 entry_of vs es /\ Forall (fun e => M !! e.1 = Some e.2) es) as (es & He & HM).
  { destruct Hr as [_ _ _ Hv _]. clear -Hv. induction Hv as [|nv vs (v & Hv & HM) Hvs IH]; [by exists []|].
    destruct IH as (es & IH1 & IH2). exists ((nv_name nv, v) :: es). by split; constructor. }
  assert (es.*1 = nv_name <$> vs) as Hn.
  { clear -He. induction He as [|nv e vs es [Hn _] _ IH]; [done|]. rewrite !fmap_cons. by f_equal. }
  exists es. split; [done|]. split; [|done]. destruct Hr as [_ Hd _ _ Hdom]. rewrite <- Hn in Hd, Hdom.
  apply map_eq. intros n. rewrite Forall_forall in HM. destruct (M !! n) as [v|] eqn:E.
  - specialize (Hdom n). rewrite E in Hdom. specialize (Hdom ltac:(eauto)).
    apply list_elem_of_fmap in Hdom as ([n' v'] & -> & Hin). specialize (HM _ Hin). simpl in *. simplify_eq.
    by apply elem_of_list_to_map_1.
  - apply not_elem_of_list_to_map_1. intros ([n' v'] & -> & Hin)%list_elem_of_fmap. specialize (HM _ Hin).
    simpl in *. congruence.
Qed.

Lemma enc_facts v :
  Forall (fun c => in_cls c VALUE_cls = true) (enc v) /\ token_unesc (enc v) = NetBase64Codec.encode RFC4648MimeAlphabet v
  /\ (enc v = [] -> v = []).
Proof.
  assert (Forall (fun c => c ∈ alphabet_chars RFC4648MimeAlphabet) (NetBase64Codec.encode RFC4648MimeAlphabet v)) as Hall.
  { destruct (decide (v = [])) as [->|Hne]; [constructor|].
    destruct (encode_split RFC4648MimeAlphabet v Hne) as (b & p & -> & _ & Hb & _ & Hp & _). apply Forall_app. split.
    - eapply Forall_impl; [exact Hb|]. intros c Hc. by apply (subseteq_take 64 (alphabet_chars RFC4648MimeAlphabet)) in Hc.
    - eapply Forall_impl; [exact Hp|]. intros c ->. apply (bool_decide_unpack _). by vm_compute. }
  assert (forallb (fun c => let d := (if bool_decide (c = "+"%char) then "'"%char
      else if bool_decide (c = "="%char) then "`"%char else c) in
      in_cls d VALUE_cls && bool_decide ((if bool_decide (d = "'"%char) then "+"%char
        else if bool_decide (d = "`"%char) then "="%char else d) = c)) (alphabet_chars RFC4648MimeAlphabet) = true)
    as Hf by (vm_compute; reflexivity).
  rewrite forallb_forall in Hf. rewrite Forall_forall in Hall. unfold enc, token_esc, token_unesc. split_and!.
  - apply Forall_fmap, Forall_forall. intros c Hc. specialize (Hf c). rewrite <- list_elem_of_In in Hf.
    specialize (Hf (Hall c Hc)). apply andb_true_iff in Hf as [Hf _]. exact Hf.
  - rewrite <- list_fmap_compose. rewrite <- (list_fmap_id (NetBase64Codec.encode _ v)) at 2.
    apply list_fmap_ext. intros i c Hc. apply list_elem_of_lookup_2 in Hc. specialize (Hf c).
    rewrite <- list_elem_of_In in Hf. specialize (Hf (Hall c Hc)). apply andb_true_iff in Hf as [_ Hf].
    by apply bool_decide_eq_true in Hf.
  - intros E. apply fmap_nil_inv in E. destruct v as [|c0 [|c1 [|c2 v]]]; done.
Qed.

Lemma encode_pairs_rest vs es t :
  Forall2 entry_of vs es -> Forall (fun e => nul_free (fst e)) es ->
  encode_pairs false vs t = Ok (t ++ rest_text es).
Proof.
  intros He. revert t. induction He as [|nv e vs es [Hn Hv] He IH]; intros t Hf.
  - unfold rest_text. simpl. by rewrite app_nil_r.
  - inversion Hf as [|? ? Hfe Hf']; subst. cbn [encode_pairs]. rewrite (getValue_holds nv (snd e)) by done.
    cbn [obind]. rewrite IH by done. f_equal. unfold rest_text. cbn [fmap list_fmap concat].
    rewrite Hn, cstr_id by done. unfold pair_text, enc. rewrite <- !app_assoc. simpl. by rewrite <- !app_assoc.
Qed.

Lemma encode_pairs_text vs es t :
  Forall2 entry_of vs es -> Forall (fun e => nul_free (fst e)) es ->
  encode_pairs true vs t = Ok (t ++ pairs_text es).
Proof.
  intros He Hf. destruct He as [|nv e vs es [Hn Hv] He]; [simpl; by rewrite app_nil_r|].
  inversion Hf as [|? ? Hfe Hf']; subst. cbn [encode_pairs]. rewrite (getValue_holds nv (snd e)) by done.
  cbn [obind]. rewrite (encode_pairs_rest vs es) by done. f_equal. cbn [pairs_text].
  rewrite Hn, cstr_id by done. unfold pair_text, enc. by rewrite <- !app_assoc.
Qed.

Lemma wf_nul_free e : wf_entry e -> nul_free (fst e).
Proof. intros (_ & Hn & _). by apply (cls_nul_free NAME_cls). Qed.

(** ** The expressions on such a text *)

Lemma accepts_pair e : wf_entry e -> accepts namevalue (pair_text e).
Proof.
  intros (Hl & Hn & _). unfold namevalue, pair_text. constructor.
  - by apply accepts_at_least_cls.
  - change (NV_SEP :: enc (snd e)) with ([NV_SEP] ++ enc (snd e)). constructor.
    + rewrite <- (app_nil_r [NV_SEP]). repeat constructor.
    + apply accepts_star_cls, enc_facts.
Qed.

Lemma accepts_pairs es : es <> [] -> Forall wf_entry es -> accepts nvpairs (pairs_text es).
Proof.
  intros Hne Hw. destruct Hw as [|e es He Hw]; [done|]. unfold nvpairs. cbn [pairs_text].
  constructor; [by apply accepts_pair|]. unfold rest_text. clear Hne He. induction Hw as [|e' es He' Hw IH]; simpl.
  - constructor.
  - change (NV_LIST_SEP :: pair_text e' ++ ?r) with (([NV_LIST_SEP] ++ pair_text e') ++ r).
    constructor; [|done]. constructor; [by constructor|by apply accepts_pair].
Qed.

(** No text of the pairs contains NUL. *)
Lemma pairs_text_nul_free es : Forall wf_entry es -> nul_free (pairs_text es).
Proof.
  intros Hw. assert (forall e, wf_entry e -> nul_free (pair_text e)) as Hp.
  { intros e He. apply Forall_app. split; [by apply wf_nul_free|]. constructor; [discriminate|].
    apply (cls_nul_free VALUE_cls); [done|]. apply enc_facts. }
  destruct Hw as [|e es He Hw]; [constructor|]. apply Forall_app. split; [by apply Hp|].
  apply Forall_concat, Forall_fmap. eapply Forall_impl; [exact Hw|]. intros x Hx. simpl.
  constructor; [discriminate|]. by apply Hp.
Qed.

(** The hexadecimal signature. *)
Definition sig_text (secret callId text : list ascii) : list ascii := hex (md5 (secret ++ callId ++ text)).

Lemma hex_accepted d : Forall (fun c => in_cls c HEX_cls = true) (hex d).
Proof.
  assert (forall n, 0 <= n < 16 -> in_cls (hex_digit n) HEX_cls = true) as Hd.
  { intros n Hn. assert (forallb (fun k => in_cls (hex_digit (Z.of_nat k)) HEX_cls) (seq 0 16) = true) as E
      by (vm_compute; reflexivity).
    rewrite forallb_forall in E. specialize (E (Z.to_nat n)). rewrite in_seq, Z2Nat.id in E by lia. apply E. lia. }
  unfold hex. induction d as [|c d IH]; simpl; [constructor|]. pose proof (uchar_range c).
  constructor; [|constructor; [|done]]; apply Hd.
  - rewrite Z.shiftr_div_pow2 by lia. change (2 ^ 4) with 16. split; [apply Z.div_pos; lia|].
    apply Z.div_lt_upper_bound; lia.
  - rewrite (Z.land_ones _ 4) by lia. apply Z.mod_pos_bound. lia.
Qed.

Lemma sig_text_accepted s c t : accepts (times 32 (Cls HEX_cls)) (sig_text s c t).
Proof.
  apply accepts_times_cls. split; [|apply hex_accepted]. unfold sig_text.
  assert (forall d, length (hex d) = (2 * length d)%nat) as Hl by (induction d; simpl in *; lia).
  by rewrite Hl, length_md5.
Qed.

Lemma sig_text_nul_free s c t : nul_free (sig_text s c t).
Proof. apply (cls_nul_free HEX_cls); [done|]. apply hex_accepted. Qed.

Lemma signature_ok fill secret callId text :
  short secret -> short callId -> short text ->
  signature fill secret callId text = Ok (sig_text secret callId text).
Proof.
  intros H1 H2 H3. destruct (hash_all_holds [secret; callId; text] (NetMd5Codec_default fill) [] (init_holds fill) eq_refl)
    as (m & E & Hm & Hf); [by repeat constructor|].
  unfold signature, appendHashValue. rewrite E. cbn [obind]. rewrite Hf, (MD5Final_holds _ _ Hm). cbn [obind fst].
  unfold sig_text. simpl. by rewrite app_nil_r.
Qed.

(** ** Decoding *)

Section Tokens.
Context `{Base64SearchLaws} `{RouteSearchLaws} (fill : nat -> ascii).

Lemma nv_search_pair b e sep rest :
  wf_entry e -> sep = NV_LIST_SEP \/ sep = SIG_SEP ->
  nv_search b (pair_text e ++ sep :: rest) = Some (fst e, enc (snd e), rest).
Proof.
  intros (Hl & Hn & _) Hs. apply nv_search_spec. exists [], (pair_text e ++ sep :: rest). split; [done|].
  split; [|split; [done|intros; simpl; lia]]. exists sep. split; [unfold pair_text; by rewrite <- app_assoc|].
  split; [by apply accepts_at_least_cls|]. split; [apply accepts_star_cls, enc_facts|done].
Qed.

Lemma nv_search_none b s : NV_SEP ∉ s -> nv_search b s = None.
Proof.
  intros Hs. destruct (nv_search b s) as [[[n v] r]|] eqn:E; [|done]. exfalso. apply Hs.
  apply nv_search_spec in E as (p & q & -> & (sep & -> & _) & _). set_solver.
Qed.

Lemma decode_pair_wf e :
  wf_entry e -> exists nv, decode_pair fill (fst e) (enc (snd e)) = Ok (Some nv) /\ entry_of nv e.
Proof.
  intros He. pose proof (wf_nul_free e He) as Hn. destruct He as (_ & _ & Hstar & Hv).
  destruct (enc_facts (snd e)) as (_ & Hun & Hnil). unfold decode_pair. rewrite Hstar.
  destruct (NameValuePair_new_value fill (fst e) (snd e) Hn Hv) as (nv & E & Hname & Hval).
  exists nv. split; [|done]. destruct (enc (snd e)) as [|c l] eqn:Ee.
  - rewrite (Hnil eq_refl) in E. by rewrite E.
  - rewrite Hun, decode_encode; [cbn [obind fst snd]; by rewrite E|]. intros E0.
    unfold enc in Ee. by rewrite E0 in Ee.
Qed.

Lemma decode_loop_text es : forall e fuel b vs M sig,
  Forall wf_entry (e :: es) -> represents vs M -> NoDup (e :: es).*1 ->
  (forall n, n ∈ (e :: es).*1 -> n ∉ nv_name <$> vs) -> NV_SEP ∉ sig -> (length es < fuel)%nat ->
  exists vs', decode_loop fill fuel (nv_search b (pair_text e ++ rest_text es ++ SIG_SEP :: sig)) vs = Ok (true, vs')
    /\ represents vs' (list_to_map (e :: es) ∪ M).
Proof.
  induction es as [|e' es IH]; intros e fuel b vs M sig Hw Hr Hnd Hni Hsig Hf;
    (destruct fuel as [|fuel]; [simpl in *; lia|]); inversion Hw as [|? ? He Hw']; subst;
    destruct (decode_pair_wf e He) as (nv & Ed & Hname & Hval);
    assert (represents (insert_sorted nv vs) (<[fst e := snd e]> M)) as Hr'
      by (apply represents_insert; try done; [by apply wf_nul_free|apply Hni; set_solver]).
  - change (rest_text [] ++ SIG_SEP :: sig) with (SIG_SEP :: sig). rewrite nv_search_pair by auto. cbn [decode_loop].
    rewrite Ed. cbn [obind]. exists (insert_sorted nv vs). split.
    + destruct sig as [|c sig]; [done|]. by rewrite nv_search_none.
    + simpl. by rewrite insert_empty, insert_union_singleton_l in *.
  - assert (rest_text (e' :: es) ++ SIG_SEP :: sig
            = NV_LIST_SEP :: pair_text e' ++ rest_text es ++ SIG_SEP :: sig) as ->.
    { unfold rest_text. simpl. by rewrite <- !app_assoc. }
    rewrite nv_search_pair by auto. cbn [decode_loop]. rewrite Ed. cbn [obind].
    apply NoDup_cons in Hnd as [Hne Hnd].
    destruct (IH e' fuel false _ _ sig Hw' Hr' Hnd) as (vs' & E & Hr2); [|done|simpl in Hf; lia|].
    { intros n Hn. rewrite insert_sorted_perm. simpl. rewrite Hname. intros [->|Hv]%elem_of_cons; [done|].
      by apply (Hni n); [right|]. }
    exists vs'. split.
    + assert (pair_text e' ++ rest_text es ++ SIG_SEP :: sig <> []) as Hnn.
      { unfold pair_text. by destruct (fst e'). }
      destruct (pair_text e' ++ rest_text es ++ SIG_SEP :: sig) as [|c l]; [done|].
      destruct (nv_search false (c :: l)) as [m|] eqn:Es; [done|]. exfalso. clear -E Es.
      destruct fuel; cbn [decode_loop] in E; discriminate E.
    + replace (list_to_map (e :: e' :: es) ∪ M) with (list_to_map (e' :: es) ∪ <[fst e := snd e]> M); [done|].
      destruct e as [n v]. change (list_to_map ((n, v) :: e' :: es) : params)
        with (<[n := v]> (list_to_map (e' :: es) : params)). rewrite <- insert_union_l. symmetry.
      apply insert_union_r. by apply not_elem_of_list_to_map_1.
Qed.

(** A signed text decodes to its entries. *)
Lemma decode_text secret rs es :
  Forall wf_entry es -> es <> [] -> NoDup es.*1 -> short secret -> short (mCallId rs) -> short (pairs_text es) ->
  (length (pairs_text es) + 33 <= state_limit)%nat ->
  exists vs, decode fill secret rs (pairs_text es ++ SIG_SEP :: sig_text secret (mCallId rs) (pairs_text es))
             = Ok (true, with_values rs vs)
    /\ represents vs (list_to_map es).
Proof.
  intros Hw Hne Hnd Hs Hc Ht Hlim. set (sig := sig_text _ _ _).
  assert (nul_free (pairs_text es ++ SIG_SEP :: sig)) as Hnf.
  { apply Forall_app. split; [by apply pairs_text_nul_free|]. constructor; [discriminate|apply sig_text_nul_free]. }
  pose proof (sig_text_accepted secret (mCallId rs) (pairs_text es)) as Hacc. fold sig in Hacc.
  pose proof Hacc as Hacc'. apply accepts_times_cls in Hacc' as [Hlen Hhex].
  unfold decode. rewrite (cstr_id _ Hnf), (state_search_complete _ (pairs_text es) sig).
  2: { exists []. rewrite app_nil_r. split; [done|]. split; [by apply accepts_pairs|]. auto. }
  2: { rewrite length_app. simpl. rewrite Hlen. lia. }
  rewrite signature_ok by done. cbn [obind]. fold sig. autorewrite with cxxb. cbn [Z.eqb].
  destruct es as [|e es]; [done|].
  destruct (decode_loop_text es e (S (length (pairs_text (e :: es) ++ SIG_SEP :: sig))) true [] ∅ sig)
    as (vs & E & Hr); try done.
  - apply represents_nil.
  - intros n _. apply not_elem_of_nil.
  - intros Hin. rewrite Forall_forall in Hhex. by specialize (Hhex _ Hin).
  - cbn [pairs_text]. rewrite !length_app.
    assert (length es <= length (rest_text es))%nat; [|simpl; lia].
    clear. unfold rest_text. induction es as [|e es IH]; [simpl; lia|]. rewrite fmap_cons.
    cbn [concat app length]. rewrite length_app. lia.
  - cbn [pairs_text] in E |- *. rewrite <- !app_assoc in E |- *. rewrite E. cbn [obind fst snd].
    exists vs. split; [done|]. by rewrite map_union_empty in Hr.
Qed.

Lemma encode_text secret rs es :
  Forall2 entry_of (mValues rs) es -> Forall wf_entry es ->
  short secret -> short (mCallId rs) -> short (pairs_text es) ->
  encode fill secret rs [] = Ok (pairs_text es ++ SIG_SEP :: sig_text secret (mCallId rs) (pairs_text es)).
Proof.
  intros He Hw Hs Hc Ht. unfold encode.
  rewrite (encode_pairs_text _ es [] He) by (eapply Forall_impl; [exact Hw|exact wf_nul_free]).
  cbn [obind app]. by rewrite signature_ok.
Qed.

(** C33: The state survives the token: a token made from parameters with names
    the grammar allows decodes, in another request with the same Call-Id
    and in any server with the same secret, to the same parameters.  [rs2]
    may have any From tag: it is not part of what is signed, although
    RouteState.h says that the signature binds the state to it.  There is a
    parameter, and secret, Call-Id and text are short enough to be hashed and
    the token to be matched. *)
Theorem token_roundtrip secret rs rs2 es :
  represents (mValues rs) (list_to_map es) -> Forall2 entry_of (mValues rs) es -> es <> [] -> Forall wf_entry es ->
  mCallId rs2 = mCallId rs -> short secret -> short (mCallId rs) -> short (pairs_text es) ->
  (length (pairs_text es) + 33 <= state_limit)%nat ->
  exists token vs, encode fill secret rs [] = Ok token
    /\ decode fill secret rs2 token = Ok (true, with_values rs2 vs) /\ represents vs (list_to_map es).
Proof.
  intros Hr He Hne Hw Hc Hs Hcs Ht Hlim.
  destruct (decode_text secret rs2 es) as (vs & E & Hvs); rewrite ?Hc; try done.
  - replace (es.*1) with (nv_name <$> mValues rs); [apply Hr|].
    clear -He. induction He as [|nv e l es [Hn _] _ IH]; [done|]. rewrite !fmap_cons. by f_equal.
  - eexists _, vs. split; [by apply encode_text|]. rewrite Hc in E. done.
Qed.

(** The signature does not separate the Call-Id from the text: a token made
    in one call is accepted in a call whose Call-Id continues with the first
    characters of the first name, and gives a parameter nobody set. *)
Theorem signature_ambiguous secret rs rs2 p n v es :
  Forall2 entry_of (mValues rs) ((p ++ n, v) :: es) -> Forall wf_entry ((p ++ n, v) :: es) -> wf_entry (n, v) ->
  NoDup (n :: es.*1) -> mCallId rs2 = mCallId rs ++ p ->
  short secret -> short (mCallId rs2) -> short (pairs_text ((p ++ n, v) :: es)) ->
  (length (pairs_text ((p ++ n, v) :: es)) + 33 <= state_limit)%nat ->
  exists token vs, encode fill secret rs [] = Ok token
    /\ decode fill secret rs2 (drop (length p) token) = Ok (true, with_values rs2 vs)
    /\ represents vs (list_to_map ((n, v) :: es)).
Proof.
  intros He Hw Hwn Hnd Hc Hs Hcs Ht Hlim.
  assert (pairs_text ((p ++ n, v) :: es) = p ++ pairs_text ((n, v) :: es)) as Hp.
  { cbn [pairs_text]. unfold pair_text. simpl. by rewrite <- !app_assoc. }
  assert (short (mCallId rs) /\ short (pairs_text ((n, v) :: es))) as [Hcs' Ht'].
  { unfold short in *. rewrite Hc, length_app in Hcs. rewrite Hp, length_app in Ht. lia. }
  assert (length p + length (pairs_text ((n, v) :: es)) + 33 <= state_limit)%nat as Hlim'.
  { by rewrite Hp, length_app in Hlim. }
  assert (Forall wf_entry ((n, v) :: es)) as Hw'.
  { inversion Hw; subst. by constructor. }
  destruct (decode_text secret rs2 ((n, v) :: es)) as (vs & E & Hvs); try done; [lia|].
  eexists _, vs. split; [by apply encode_text|]. split; [|done].
  rewrite Hp. rewrite <- app_assoc, drop_app_length. unfold sig_text in E |- *. rewrite Hc in E.
  by rewrite <- app_assoc in E.
Qed.

(** A state without parameters encodes to a token that is refused. *)
Theorem empty_token_refused secret rs rs2 :
  mValues rs = [] -> short secret -> short (mCallId rs) ->
  exists token, encode fill secret rs [] = Ok token
    /\ decode fill secret rs2 token = Ok (false, with_values rs2 []).
Proof.
  intros Hv Hs Hc. eexists. split; [apply (encode_text secret rs []); rewrite ?Hv; done|].
  unfold decode. cbn [pairs_text app].
  rewrite cstr_id by (constructor; [discriminate|apply sig_text_nul_free]).
  destruct (state_search _) as [[p g]|] eqn:E; [|done]. exfalso.
  apply state_search_sound in E as (t & E & Hp & Hg & Ht).
  unfold nvpairs, namevalue in Hp. apply accepts_seq in Hp as (p1 & p2 & -> & Hp & _).
  apply accepts_seq in Hp as (p3 & p4 & -> & Hp & _). apply accepts_at_least_cls in Hp as [Hl Hp].
  destruct p3 as [|c p3]; [simpl in Hl; lia|]. simpl in E. injection E as E _. inversion Hp as [|? ? Hcl]; subst. done.
Qed.

(** ** Any token *)

Lemma NameValuePair_new_total n v :
  exists nv, NameValuePair_new fill (c_str n) (Some (c_str v)) = Ok nv.
Proof. destruct (NameValuePair_new_holds fill (c_str n) v []) as (nv & E & _). by exists nv. Qed.

Lemma decode_pair_total n v :
  accepts NAME n -> accepts VALUE v -> exists r, decode_pair fill n v = Ok r.
Proof.
  intros [_ Hn]%accepts_at_least_cls Hv%accepts_star_cls. unfold decode_pair.
  destruct (one_star n); [|eauto]. destruct v as [|c v].
  - destruct (NameValuePair_new_total n []) as (nv & ->). eauto.
  - destruct (decode_no_newline RFC4648MimeAlphabet fill (token_unesc (c :: v))) as (data & -> & _).
    + unfold token_unesc. rewrite fmap_last. intros (d & E & Hd)%fmap_Some. symmetry in E.
      assert (forallb (fun b => negb (in_cls b VALUE_cls && bool_decide ((if bool_decide (b = "'"%char) then "+"%char
        else if bool_decide (b = "`"%char) then "="%char else b) = LF))) all_bytes = true) as Hf
        by (vm_compute; reflexivity).
      rewrite forallb_forall in Hf. specialize (Hf d). rewrite <- list_elem_of_In in Hf.
      specialize (Hf (all_bytes_in d)). symmetry in E. apply last_Some_elem_of in E.
      rewrite Forall_forall in Hv. rewrite (Hv d E), bool_decide_true in Hf by done. done.
    + cbn [obind fst snd]. destruct (isValid _ _); [|eauto].
      destruct (NameValuePair_new_total n data) as (nv & ->). eauto.
Qed.

Lemma decode_pairs_total fuel : forall b s vs, (length s < fuel)%nat ->
  exists ok vs', decode_loop fill fuel (nv_search b s) vs = Ok (ok, vs').
Proof.
  induction fuel as [|fuel IH]; intros b s vs Hf; [lia|]. cbn [decode_loop].
  destruct (nv_search b s) as [[[n v] r]|] eqn:E; [|eauto].
  apply nv_search_spec in E as (k & q & -> & (sep & -> & Hn & Hv & _) & _).
  destruct (decode_pair_total n v Hn Hv) as ([nv|] & ->); cbn [obind]; [|eauto].
  destruct r as [|c r]; [eauto|]. specialize (IH false (c :: r) (insert_sorted nv vs)).
  destruct (nv_search false (c :: r)) as [m|]; [|eauto]. apply IH.
  rewrite !length_app in Hf. simpl in *. rewrite length_app in Hf. simpl in Hf. lia.
Qed.

(** C34: Decoding any string of bytes ends without undefined behaviour.  It
    succeeds only for a text of pairs followed by its signature under the
    secret and the Call-Id; otherwise there are no parameters. *)
Theorem decode_authentic secret rs token :
  short secret -> short (mCallId rs) -> short token ->
  exists ok rs', decode fill secret rs token = Ok (ok, rs')
    /\ (ok = false -> mValues rs' = [])
    /\ (ok = true -> exists text t, cstr token = text ++ SIG_SEP :: sig_text secret (mCallId rs) text ++ t
          /\ accepts nvpairs text /\ (t = [] \/ t = [LF])).
Proof.
  intros Hs Hc Ht. unfold decode. destruct (state_search (cstr token)) as [[text sig]|] eqn:E; [|by eexists _, _].
  apply state_search_sound in E as (t & E & Hp & Hg & Hend).
  assert (short text) as Htext.
  { unfold short in *. pose proof (length_cstr token) as Hl. rewrite E, length_app in Hl. lia. }
  rewrite signature_ok by done. cbn [obind].
  destruct (Z.eqb_spec (strcmp sig (sig_text secret (mCallId rs) text)) 0) as [Hcmp|_]; [|by eexists _, _].
  apply strcmp_eq_nul_free in Hcmp as ->; [| |apply sig_text_nul_free].
  2: { apply accepts_times_cls in Hg as [_ Hg]. by apply (cls_nul_free HEX_cls). }
  destruct (decode_pairs_total (S (length token)) true token [] ltac:(lia)) as ([|] & vs & ->); cbn [obind fst snd];
    eexists _, _; split_and!; try done; eauto.
Qed.

(** ** Direction *)

Lemma encode_length secret rs es token :
  Forall2 entry_of (mValues rs) es -> Forall wf_entry es -> encode fill secret rs [] = Ok token ->
  (length (pairs_text es) < length token)%nat.
Proof.
  intros He Hw. unfold encode.
  rewrite (encode_pairs_text _ es [] He) by (eapply Forall_impl; [exact Hw|exact wf_nul_free]).
  cbn [obind app]. destruct (signature _ _ _ _) as [sig| | |]; cbn [obind]; intros [= <-].
  rewrite length_app. simpl. lia.
Qed.

(** The direction of a request is decided by the From tag of the request
    that formed the dialog: a first request counts as sent by the caller and
    records its tag, and a later request with the token it produced counts
    as sent by the caller exactly when its From tag is that one (case
    ignored). *)
Theorem direction_across_dialog secret rs1 a instance :
  represents_state rs1 a -> a_mutable a = true -> a_map a !! FROM_KEY = None -> instance <> [] ->
  map_Forall (fun n v => wf_entry (n, v)) (a_map a) -> short secret -> short (mCallId rs1) ->
  exists rs1', directionIsCallerToCalled fill rs1 instance = Ok (true, rs1') /\ mModified rs1' = true
    /\ forall token rs2, encode fill secret rs1' [] = Ok token -> short token ->
         (length token + 33 <= state_limit)%nat -> mCallId rs2 = mCallId rs1 ->
         exists rs2', decode fill secret rs2 token = Ok (true, rs2')
           /\ directionIsCallerToCalled fill rs2' instance
              = Ok (strcasecmp (a_tag a) (mFromTag rs2) =? 0, rs2').
Proof.
  intros Hr Hm Hnone Hi Hwf Hs Hc. pose proof Hr as (_ & _ & Ht & _ & Hnt).
  assert (from_spec a = (Some (a_tag a), mkAbs true (a_tag a) (<[FROM_KEY := a_tag a]> (a_map a)) true)) as Hfs.
  { unfold from_spec, get_spec, set_spec. rewrite !bool_decide_false by done. by rewrite Hnone, Hm. }
  destruct (from_refines fill rs1 a instance Hr Hi) as (rs1' & E1 & Hr1 & Hc1). rewrite Hfs in E1, Hr1. cbn [fst snd] in *.
  exists rs1'. split; [|split].
  - unfold directionIsCallerToCalled. rewrite E1. destruct instance as [|c i]; [done|]. cbn [obind fst snd].
    rewrite Ht. by autorewrite with cxxb.
  - by destruct Hr1 as (_ & _ & _ & -> & _).
  - intros token rs2 Etok Htok Hlim Hc2. destruct Hr1 as (Hrep & _).
    destruct (represents_entries _ _ Hrep) as (es & He & HM & Hnames). cbn [a_map] in HM, Hrep.
    assert (Forall wf_entry es) as Hw.
    { apply Forall_forall. intros [n v] Hin. assert (NoDup es.*1) as Hnd by (rewrite Hnames; apply Hrep).
      apply (elem_of_list_to_map_1 (M := gmap (list ascii))) in Hin; [|done]. rewrite HM in Hin.
      apply lookup_insert_Some in Hin as [[<- <-]|[_ Hin]]; [|by apply Hwf].
      split_and!; [simpl; lia| |done|done]. repeat constructor. }
    assert (es <> []) as Hne.
    { intros ->. simpl in HM. apply (f_equal (lookup FROM_KEY)) in HM. by rewrite lookup_insert_eq in HM. }
    pose proof (encode_length secret rs1' es token He Hw Etok) as Hlen.
    assert (short (pairs_text es)) as Hst by (unfold short in *; lia).
    rewrite (encode_text secret rs1' es He Hw Hs) in Etok by (by rewrite ?Hc1). injection Etok as <-.
    destruct (decode_text secret rs2 es) as (vs & E2 & Hvs); try done; [by rewrite Hnames; apply Hrep|by rewrite Hc2|lia|].
    rewrite Hc2 in E2. rewrite Hc1, E2. eexists. split; [done|]. rewrite HM in Hvs.
    assert (getParameter (with_values rs2 vs) [] (bytes "from") = Ok (Some (a_tag a))) as Eg.
    { rewrite (getParameter_lookup (with_values rs2 vs) _ _ _ Hvs), from_key, bool_decide_false by done. by rewrite lookup_insert_eq. }
    unfold directionIsCallerToCalled, originalCallerFromTagValue. destruct instance as [|c i]; [done|].
    rewrite Eg. done.
Qed.
End Tokens.

(** ** Searches that meet the laws *)

(** The subject without a final newline. *)
Definition chop (s : list ascii) : list ascii :=
  match last s with Some c => if bool_decide (c = LF) then take (length s - 1) s else s | None => s end.

Lemma chop_spec s : (s = chop s \/ s = chop s ++ [LF]) /\ forall b t, LF ∉ b -> s = b ++ t -> t = [] \/ t = [LF] -> chop s = b.
Proof.
  unfold chop. split.
  - destruct (last s) as [c|] eqn:E; [|auto]. case_bool_decide as Hc; [|auto]. subst. right.
    apply last_Some in E as (l & ->). by rewrite length_app, Nat.add_sub, take_app_length.
  - intros b t Hb -> [-> | ->].
    + rewrite app_nil_r. destruct (last b) as [c|] eqn:E; [|done]. rewrite bool_decide_false; [done|].
      intros ->. by apply last_Some_elem_of in E.
    + rewrite last_snoc, bool_decide_true by done. by rewrite length_app, Nat.add_sub, take_app_length.
Qed.

(** NameValue at the start of a string. *)
Definition nv_here (s : list ascii) : option (list ascii * list ascii * list ascii) :=
  let '(n, r) := span (fun c => in_cls c NAME_cls) s in
  match r with
  | c :: r1 =>
      let '(v, r2) := span (fun c => in_cls c VALUE_cls) r1 in
      match r2 with
      | d :: r3 =>
          if (2 <=? length n)%nat && bool_decide (c = NV_SEP) && (bool_decide (d = NV_LIST_SEP) || bool_decide (d = SIG_SEP))
          then Some (n, v, r3) else None
      | [] => None
      end
  | [] => None
  end.

Fixpoint nv_scan (s : list ascii) : option (list ascii * list ascii * list ascii) :=
  match nv_here s with
  | Some m => Some m
  | None => match s with [] => None | _ :: s' => nv_scan s' end
  end.

Definition pcre_search : RouteSearch := {|
  state_search := fun s =>
    let b := chop s in
    let pairs := take (length b - 33) b in
    let sig := drop (length b - 32) b in
    if bool_decide (b = pairs ++ SIG_SEP :: sig) && re_match nvpairs pairs && re_match (times 32 (Cls HEX_cls)) sig
    then Some (pairs, sig) else None;
  state_limit := 4096;
  nv_search := fun anchored s => if anchored then nv_here s else nv_scan s;
  param_search := fun s => forallb (fun c => in_cls c PARAM_cls) (chop s)
|}.

Lemma nv_here_spec s n v r : nv_here s = Some (n, v, r) <-> nv_match s n v r.
Proof.
  unfold nv_here, nv_match. split.
  - pose proof (span_spec (fun c => in_cls c NAME_cls) s) as [Es Hn].
    destruct (span (fun c => in_cls c NAME_cls) s) as [n' r0]. simpl in Es, Hn. destruct r0 as [|c r1]; [done|].
    pose proof (span_spec (fun c => in_cls c VALUE_cls) r1) as [Er Hv].
    destruct (span (fun c => in_cls c VALUE_cls) r1) as [v' r2]. simpl in Er, Hv. destruct r2 as [|d r3]; [done|].
    destruct (_ && _) eqn:E; [|done]. intros [= <- <- <-].
    apply andb_true_iff in E as [[Hl%Nat.leb_le Hc%bool_decide_eq_true]%andb_true_iff Hd%orb_true_iff].
    rewrite !bool_decide_eq_true in Hd. exists d. subst. split; [done|].
    split; [by apply accepts_at_least_cls|]. split; [by apply accepts_star_cls|done].
  - intros (sep & -> & [Hl Hn]%accepts_at_least_cls & Hv%accepts_star_cls & Hsep).
    rewrite (span_app _ n (NV_SEP :: v ++ sep :: r)) by (try done; by intros ? ? [= <- _]). cbv beta iota.
    rewrite (span_app _ v (sep :: r)) by (try done; intros ? ? [= <- _]; by destruct Hsep as [-> | ->]).
    cbv beta iota. rewrite (proj2 (Nat.leb_le _ _) Hl).
    by destruct Hsep as [-> | ->].
Qed.

Lemma nv_scan_spec s n v r :
  nv_scan s = Some (n, v, r) <->
  exists skipped q, s = skipped ++ q /\ nv_match q n v r
    /\ forall skipped' q' n' v' r', s = skipped' ++ q' -> nv_match q' n' v' r' -> (length skipped <= length skipped')%nat.
Proof.
  induction s as [|c s IH].
  - cbn [nv_scan]. split; [done|]. intros (k & q & E & (sep & -> & _) & _).
    symmetry in E. apply app_nil in E as [_ E]. by apply app_nil in E as [_ ?].
  - cbn [nv_scan]. destruct (nv_here (c :: s)) as [[[n0 v0] r0]|] eqn:E.
    + pose proof E as E'. apply nv_here_spec in E'. split.
      * intros [= <- <- <-]. exists [], (c :: s). split; [done|]. split; [done|]. intros; simpl; lia.
      * intros (k & q & Eq & Hq & Hmin). specialize (Hmin [] (c :: s) _ _ _ eq_refl E').
        destruct k as [|x k]; [|simpl in Hmin; lia]. simpl in Eq. subst q.
        apply nv_here_spec in Hq. congruence.
    + assert (forall q' n' v' r', c :: s = q' -> ~ nv_match q' n' v' r') as Hno.
      { intros q' n' v' r' <- Hm. apply nv_here_spec in Hm. congruence. }
      rewrite IH. split.
      * intros (k & q & -> & Hq & Hmin). exists (c :: k), q. split; [done|]. split; [done|].
        intros [|x k'] q' n' v' r' E' Hm; simpl in E'; [by apply Hno in Hm|]. injection E' as _ E'.
        specialize (Hmin _ _ _ _ _ E' Hm). simpl. lia.
      * intros ([|x k] & q & Eq & Hq & Hmin); simpl in Eq; [by apply Hno in Hq|]. injection Eq as <- ->.
        exists k, q. split; [done|]. split; [done|]. intros k' q' n' v' r' E' Hm.
        specialize (Hmin (c :: k') q' n' v' r'). simpl in Hmin. rewrite E' in Hmin. specialize (Hmin eq_refl Hm). lia.
Qed.

Lemma cls_no_newline k l : in_cls LF k = false -> Forall (fun c => in_cls c k = true) l -> LF ∉ l.
Proof. intros Hk Hl Hin. rewrite Forall_forall in Hl. specialize (Hl _ Hin). congruence. Qed.

Lemma pcre_search_laws : @RouteSearchLaws pcre_search.
Proof.
  split; cbn [state_search state_limit nv_search param_search pcre_search].
  - intros s p g. destruct (_ && _) eqn:E; [|done]. intros [= <- <-].
    apply andb_true_iff in E as [[Hb%bool_decide_eq_true Hp%re_match_spec]%andb_true_iff Hg%re_match_spec].
    pose proof (proj1 (chop_spec s)) as Es. revert Es Hb Hp Hg. generalize (chop s). intros b Es Hb Hp Hg.
    destruct Es as [-> | ->].
    + exists []. rewrite app_nil_r. auto.
    + exists [LF]. split; [|auto]. rewrite Hb at 1. by rewrite <- app_assoc.
  - intros s p g (t & -> & Hp & Hg & Ht) _. pose proof Hg as Hg'. apply accepts_times_cls in Hg' as [Hl Hh].
    assert (chop (p ++ SIG_SEP :: g ++ t) = p ++ SIG_SEP :: g) as ->.
    { destruct Ht as [-> | ->].
      - rewrite app_nil_r. unfold chop. destruct g as [|x g] using rev_ind; [done|].
        change (SIG_SEP :: g ++ [x]) with ((SIG_SEP :: g) ++ [x]). rewrite app_assoc, last_snoc.
        rewrite bool_decide_false; [done|]. intros ->. apply Forall_app in Hh as [_ Hh]. by inversion Hh.
      - unfold chop. replace (p ++ SIG_SEP :: g ++ [LF]) with ((p ++ SIG_SEP :: g) ++ [LF])
          by (by rewrite <- app_assoc). rewrite last_snoc, bool_decide_true by done.
        by rewrite length_app, Nat.add_sub, take_app_length. }
    assert (length (p ++ SIG_SEP :: g) - 33 = length p /\ length (p ++ SIG_SEP :: g) - 32 = length p + 1)%nat
      as [-> ->] by (rewrite length_app; simpl; lia).
    rewrite take_app_length. rewrite <- drop_drop, drop_app_length. cbn [drop].
    rewrite bool_decide_true, !(proj2 (re_match_spec _ _)) by done. done.
  - intros [] s n v r.
    + rewrite nv_here_spec. split.
      * intros Hm. exists [], s. split; [done|]. split; [done|]. split; [done|]. intros; simpl; lia.
      * intros (k & q & -> & Hq & Hk & _). by rewrite Hk.
    + rewrite nv_scan_spec. split; intros (k & q & E & Hq & Hm); exists k, q; naive_solver.
  - intros s. rewrite forallb_forall. unfold param_match. split.
    + intros Hf. destruct (proj1 (chop_spec s)) as [Es|Es]; [exists (chop s), []|exists (chop s), [LF]];
        rewrite ?app_nil_r, accepts_star_cls, Forall_forall; split_and!; auto; intros c Hc; apply Hf; by apply list_elem_of_In.
    + intros (n & t & E & Hn%accepts_star_cls & Ht) c Hc.
      rewrite (proj2 (chop_spec s) n t) in Hc; [|by apply (cls_no_newline PARAM_cls)|done|done].
      rewrite Forall_forall in Hn. apply Hn. by apply list_elem_of_In.
Qed.

(** ** Witnesses *)

#[local] Existing Instances pcre_search regex_search.
#[local] Definition sample_fill : nat -> ascii := fun _ => "?"%char.
#[local] Definition sample_call : list ascii := bytes "f88dfabce84b6a2787ef024a7dbe8749".
#[local] Definition sample_tag : list ascii := bytes "30543f3483e1cb11ecb40866edd3295b".
#[local] Definition sample_es : list (list ascii * list ascii) :=
  [(bytes "plugin*param1", bytes "value1"); (bytes "plugin2*", bytes "value2")].
#[local] Definition sample_vs : list NameValuePair := pair_of <$> sample_es.

Definition sample_state (mutable modified : bool) (call : list ascii) (vs : list NameValuePair) : RouteState :=
  mkState (bytes "myhost.example.com") mutable [] modified false false vs call sample_tag.

Lemma sample_entries es : Forall wf_entry es -> Forall2 entry_of (pair_of <$> es) es.
Proof. intros Hw. apply pairs_of. eapply Forall_impl; [exact Hw|]. by intros e (_ & _ & _ & ?). Qed.

Lemma wf_by_computation e :
  (2 <=? length (fst e))%nat && forallb (fun c => in_cls c NAME_cls) (fst e) && one_star (fst e)
    && bool_decide (nul_free (snd e)) = true -> wf_entry e.
Proof.
  intros [[[H1%Nat.leb_le H2]%andb_true_iff H3]%andb_true_iff H4%bool_decide_eq_true]%andb_true_iff.
  split_and!; try done. apply Forall_forall. intros c Hc. rewrite forallb_forall in H2. apply H2.
  by apply list_elem_of_In.
Qed.

Lemma represents_by_entries es :
  sorted (pair_of <$> es) -> NoDup es.*1 -> Forall wf_entry es ->
  represents (pair_of <$> es) (list_to_map es).
Proof.
  intros Hs Hd Hw. assert (nv_name <$> (pair_of <$> es) = es.*1) as Hn.
  { rewrite <- list_fmap_compose. done. }
  split; [done|by rewrite Hn| | |].
  - apply Forall_fmap. eapply Forall_impl; [exact Hw|]. exact wf_nul_free.
  - apply Forall_fmap, Forall_forall. intros [n v] Hin. exists v. split.
    + split; [|by exists []]. rewrite Forall_forall in Hw. by destruct (Hw _ Hin) as (_ & _ & _ & ?).
    + by apply elem_of_list_to_map_1.
  - intros n [v Hv]. rewrite Hn. apply elem_of_list_to_map_2 in Hv. by apply (list_elem_of_fmap_2 fst) in Hv.
Qed.

Ltac wfs := repeat (apply Forall_cons_2; [apply wf_by_computation; vm_compute; reflexivity|]); apply Forall_nil_2.

Lemma sample_wf : Forall wf_entry sample_es.
Proof. wfs. Qed.

Lemma sample_represents : represents sample_vs (list_to_map sample_es).
Proof.
  apply represents_by_entries; [|apply (bool_decide_unpack _); vm_compute; exact I|apply sample_wf].
  repeat constructor; vm_compute; discriminate.
Qed.

Lemma sample_short l : Z.ltb (Z.of_nat (length l)) (2 ^ 32) = true -> short l.
Proof. intros E. by apply Z.ltb_lt. Qed.

Ltac shorts := apply sample_short; vm_compute; reflexivity.

Lemma token_roundtrip_witness :
  exists token vs, encode sample_fill [] (sample_state true true sample_call sample_vs) [] = Ok token
    /\ token = bytes "plugin*param1~dmFsdWUx.plugin2*~dmFsdWUy!6cedf2bb36711d2e69b3012ab3d1e16d"
    /\ decode sample_fill [] (sample_state false false sample_call []) token
       = Ok (true, sample_state false false sample_call vs)
    /\ represents vs (list_to_map sample_es).
Proof.
  destruct (@token_roundtrip regex_search regex_search_laws pcre_search pcre_search_laws sample_fill []
    (sample_state true true sample_call sample_vs) (sample_state false false sample_call []) sample_es)
    as (token & vs & E & D & R).
  - apply sample_represents.
  - apply sample_entries, sample_wf.
  - discriminate.
  - apply sample_wf.
  - reflexivity.
  - shorts.
  - shorts.
  - shorts.
  - apply Nat.leb_le. vm_compute. reflexivity.
  - exists token, vs. split; [exact E|]. split; [|by split].
    assert (Ok token = Ok (bytes "plugin*param1~dmFsdWUx.plugin2*~dmFsdWUy!6cedf2bb36711d2e69b3012ab3d1e16d")) as Et.
    { rewrite <- E. vm_compute. reflexivity. }
    by injection Et.
Defined.

(** The call "x" signs the name "ab*c"; the call "xa" accepts it as "b*c". *)
Lemma signature_ambiguous_witness :
  exists token vs, encode sample_fill [] (sample_state true true (bytes "x") [mkNV (bytes "ab*c") (Some (c_str (bytes "1")))]) []
      = Ok token
    /\ decode sample_fill [] (sample_state false false (bytes "xa") []) (drop 1 token)
       = Ok (true, sample_state false false (bytes "xa") vs)
    /\ represents vs {[ bytes "b*c" := bytes "1" ]}.
Proof.
  destruct (@signature_ambiguous regex_search regex_search_laws pcre_search pcre_search_laws sample_fill []
    (sample_state true true (bytes "x") [mkNV (bytes "ab*c") (Some (c_str (bytes "1")))])
    (sample_state false false (bytes "xa") []) (bytes "a") (bytes "b*c") (bytes "1") [])
    as (token & vs & E & D & R); try shorts.
  - apply (sample_entries [(bytes "ab*c", bytes "1")]). wfs.
  - wfs.
  - apply wf_by_computation. vm_compute. reflexivity.
  - apply (bool_decide_unpack _). vm_compute. exact I.
  - reflexivity.
  - apply Nat.leb_le. vm_compute. reflexivity.
  - exists token, vs. split; [exact E|]. split; [exact D|exact R].
Defined.

Lemma empty_token_refused_witness :
  exists token, encode sample_fill [] (sample_state true true sample_call []) [] = Ok token
    /\ decode sample_fill [] (sample_state false false sample_call []) token
       = Ok (false, sample_state false false sample_call []).
Proof.
  apply (@empty_token_refused regex_search pcre_search pcre_search_laws sample_fill []
    (sample_state true true sample_call []) (sample_state false false sample_call [])); [reflexivity|shorts|shorts].
Defined.

Lemma decode_authentic_witness :
  exists rs', decode sample_fill [] (sample_state false false sample_call [])
      (bytes "plugin*param1~dmFsdWUx.plugin2*~dmFsdWUy!00000000000000000000000000000000") = Ok (false, rs')
    /\ mValues rs' = [].
Proof.
  destruct (@decode_authentic regex_search regex_search_laws pcre_search pcre_search_laws sample_fill []
    (sample_state false false sample_call [])
    (bytes "plugin*param1~dmFsdWUx.plugin2*~dmFsdWUy!00000000000000000000000000000000"))
    as (ok & rs' & E & Hf & _); try shorts.
  assert (ok = false) as ->.
  { assert (decode sample_fill [] (sample_state false false sample_call [])
      (bytes "plugin*param1~dmFsdWUx.plugin2*~dmFsdWUy!00000000000000000000000000000000")
      = Ok (false, sample_state false false sample_call [])) as E' by (vm_compute; reflexivity).
    rewrite E in E'. by injection E'. }
  exists rs'. split; [exact E|exact (Hf eq_refl)].
Defined.

#[local] Definition fresh_abs : abstract := mkAbs true sample_tag ∅ false.

Lemma fresh_represents : represents_state (sample_state true false sample_call []) fresh_abs.
Proof.
  split_and!; try reflexivity; [apply represents_nil|]. apply (bool_decide_unpack _). vm_compute. exact I.
Qed.

#[local] Definition sample_rs_ops : list rs_op :=
  [OGet (bytes "plugin") (bytes "p"); OSet (bytes "plugin") (bytes "p") (bytes "long value");
   OSet (bytes "bad*name") (bytes "p") (bytes "x"); OSet (bytes "plugin") (bytes "p") (bytes "v");
   OGet (bytes "plugin") (bytes "p"); OIsAuthorized; OMark; OIsAuthorized;
   ODirection (bytes "plugin"); OFromTag (bytes "plugin"); OUnset (bytes "plugin") (bytes "p");
   OGet (bytes "plugin") (bytes "p")].

Lemma rs_runs_refine_witness :
  exists rs', rs_runs sample_fill sample_rs_ops (sample_state true false sample_call [])
    = Ok ([RValue None; RUnit; RUnit; RUnit; RValue (Some (bytes "v")); RFlag false; RUnit; RFlag true;
           RFlag true; RValue (Some sample_tag); RUnit; RValue None], rs')
    /\ mModified rs' = true.
Proof.
  destruct (@rs_runs_refine pcre_search pcre_search_laws sample_fill sample_rs_ops
    (sample_state true false sample_call []) fresh_abs) as (rs' & E & (_ & _ & _ & Hm & _) & _).
  - apply fresh_represents.
  - repeat (apply Forall_cons_2; [first [exact I | discriminate | apply (bool_decide_unpack _); vm_compute; exact I]|]).
    apply Forall_nil_2.
  - exists rs'. split; [rewrite E; vm_compute; reflexivity|rewrite Hm; vm_compute; reflexivity].
Defined.

Lemma unset_not_recorded_witness :
  let rs := sample_state true false sample_call sample_vs in
  getParameter rs (bytes "plugin") (bytes "param1") = Ok (Some (bytes "value1"))
  /\ getParameter (unsetParameter rs (bytes "plugin") (bytes "param1")) (bytes "plugin") (bytes "param1") = Ok None
  /\ mModified (unsetParameter rs (bytes "plugin") (bytes "param1")) = false.
Proof.
  apply (@unset_not_recorded pcre_search pcre_search_laws (sample_state true false sample_call sample_vs)
    (mkAbs true sample_tag (list_to_map sample_es) false)).
  - split_and!; try reflexivity; [apply sample_represents|apply fresh_represents].
  - reflexivity.
  - reflexivity.
  - vm_compute. discriminate.
  - vm_compute. reflexivity.
Defined.

Lemma direction_across_dialog_witness :
  exists rs1', directionIsCallerToCalled sample_fill (sample_state true false sample_call []) (bytes "plugin") = Ok (true, rs1')
    /\ forall token, encode sample_fill [] rs1' [] = Ok token -> short token -> (length token + 33 <= 4096)%nat ->
       exists rs2', decode sample_fill [] (sample_state false false sample_call []) token = Ok (true, rs2')
         /\ directionIsCallerToCalled sample_fill rs2' (bytes "plugin") = Ok (true, rs2').
Proof.
  destruct (@direction_across_dialog regex_search regex_search_laws pcre_search pcre_search_laws sample_fill []
    (sample_state true false sample_call []) fresh_abs (bytes "plugin")) as (rs1' & E & _ & D); try shorts.
  - apply fresh_represents.
  - reflexivity.
  - reflexivity.
  - discriminate.
  - apply map_Forall_empty.
  - exists rs1'. split; [exact E|]. intros token Et Hs Hl.
    destruct (D token (sample_state false false sample_call []) Et Hs Hl eq_refl) as (rs2' & E2 & D2).
    exists rs2'. split; [exact E2|]. rewrite D2. reflexivity.
Defined.
