(* ===== verification/NameValueTokenizer.v ===== *)
(** * NameValueTokenizer: lines, name/value pairs and subfields of SIP text

    src/sipXtackLib/src/net/NameValueTokenizer.cpp.  A [const char*] is the
    storage it points to, terminator included; every [text[i]] is a read
    that is [UB] outside that storage.  The UtlString results are their
    contents, changed as UtlStringRefine specifies the string methods. *)
From Stdlib Require Import ZArith Lia Ascii String.
From stdpp Require Import base list strings.
From S2P Require Import Prelude UtlString UtlStringRefine.
Local Open Scope Z_scope.

Definition NEWLINE : ascii := "010".
Definition CARRIAGE_RETURN : ascii := "013".

(** [text[i]] *)
Definition char_of (text : list ascii) (i : Z) : outcome ascii :=
  let! r := read_at text i 1 in match r with c :: _ => Ok c | [] => UB end.

(** NameValueTokenizer::findNextLineTerminator on [&text[off]]: the index
    of the terminator and of the next line, -1 when there is none. *)
Fixpoint find_terminator (fuel : nat) (text : list ascii) (off length byteIndex : Z) : outcome (Z * Z) :=
  if byteIndex <? length then
    match fuel with
    | O => UB
    | S fuel' =>
        let! c := char_of text (off + byteIndex) in
        if bool_decide (c = NEWLINE) || bool_decide (c = CARRIAGE_RETURN) then
          let! crlf := (if byteIndex <? length - 1 then
                          let! d := char_of text (off + byteIndex + 1) in
                          Ok (bool_decide (d = NEWLINE) && bool_decide (c = CARRIAGE_RETURN))
                        else Ok false) in
          Ok (byteIndex, byteIndex + if crlf : bool then 2 else 1)
        else find_terminator fuel' text off length (byteIndex + 1)
    end
  else Ok (-1, -1).

Definition findNextLineTerminator (text : list ascii) (off length : Z) : outcome (Z * Z) :=
  find_terminator (Z.to_nat length) text off length 0.

(** [strchr(whiteSpace, c)] is not null; the terminator is found too. *)
Definition in_set (whiteSpace : list ascii) (c : ascii) : bool := bool_decide (c ∈ whiteSpace \/ c = NUL).

(** NameValueTokenizer::frontTrim, backTrim, frontBackTrim *)
Definition frontTrim (string whiteSpace : list ascii) : list ascii :=
  let index := count_while (in_set whiteSpace) string in
  if 0 <? index then spec_op (ORemoveN 0 index) string else string.
Definition backTrim (string whiteSpace : list ascii) : list ascii :=
  let len := Z.of_nat (length string) in
  let index := count_while (in_set whiteSpace) (rev string) in
  if 0 <? index then spec_op (ORemoveN (len - index) index) string else string.
Definition frontBackTrim (string whiteSpace : list ascii) : list ascii :=
  backTrim (frontTrim string whiteSpace) whiteSpace.

(** isChar, isCtl, isPrintableChar of a [char] *)
Definition isChar (c : Z) : bool := (0 <=? c) && (c <=? 127).
Definition isCtl (c : Z) : bool := ((0 <=? c) && (c <=? 8)) || ((14 <=? c) && (c <=? 31)) || (c =? 127).
Definition isPrintableChar (c : Z) : bool := negb (isCtl c) && isChar c.

(** The separator test of getSubField, by the number of separators. *)
Definition is_separator (subFieldSeparators : list ascii) (c : ascii) : bool :=
  match subFieldSeparators with
  | [s0] => bool_decide (s0 = c)
  | [s0; s1] => bool_decide (s0 = c) || bool_decide (s1 = c)
  | _ :: _ :: _ :: _ => in_set subFieldSeparators c
  | [] => false
  end.

(** What the loop of getSubField leaves: subFieldI, subFieldBegin and
    separatorIndex, or nothing at a character that is not printable. *)
Fixpoint subfield_loop (fuel : nat) (textField : list ascii) (textFieldLength subFieldIndex : Z)
    (separators : list ascii) (validateChars : bool) (subFieldI subFieldBegin separatorIndex charIndex : Z)
    : outcome (option (Z * Z * Z)) :=
  if subFieldI <? subFieldIndex then
    match fuel with
    | O => UB
    | S fuel' =>
        let! atEnd := (if (0 <=? textFieldLength) && (textFieldLength <=? charIndex) then Ok true
                       else let! c := char_of textField charIndex in Ok (bool_decide (c = NUL))) in
        if atEnd : bool then Ok (Some (subFieldI + 1, separatorIndex + 1, charIndex))
        else
          let! c := char_of textField charIndex in
          if validateChars && negb (isPrintableChar (schar c)) then Ok None
          else if is_separator separators c then
            subfield_loop fuel' textField textFieldLength subFieldIndex separators validateChars
              (if negb (separatorIndex + 1 =? charIndex) then subFieldI + 1 else subFieldI)
              (separatorIndex + 1) charIndex (charIndex + 1)
          else
            subfield_loop fuel' textField textFieldLength subFieldIndex separators validateChars
              subFieldI subFieldBegin separatorIndex (charIndex + 1)
    end
  else Ok (Some (subFieldI, subFieldBegin, separatorIndex)).

(** getSubField(textField, textFieldLength, ...): the offset and length of
    the subfield and lastCharIndex when it was found. *)
Definition getSubField_ptr (textField : list ascii) (textFieldLength subFieldIndex : Z)
    (subFieldSeparators : list ascii) (validateChars : bool) : outcome (option (Z * Z * Z)) :=
  let! r := subfield_loop (S (length textField)) textField textFieldLength subFieldIndex (cstr subFieldSeparators)
              validateChars (-1) 0 (-1) 0 in
  Ok (match r with
      | Some (subFieldI, subFieldBegin, separatorIndex) =>
          if subFieldI =? subFieldIndex
          then Some (subFieldBegin, separatorIndex - subFieldBegin, separatorIndex) else None
      | None => None
      end).

(** getSubField(textField, subFieldIndex, ...): whether it was found and
    what [*subFieldText] holds afterwards. *)
Definition getSubField (textField : list ascii) (subFieldIndex : Z) (subFieldSeparators : list ascii)
    (subFieldText : list ascii) (validateChars : bool) : outcome (bool * list ascii) :=
  let! fieldLen := strlen textField in
  if 65536 <? fieldLen then Ok (false, subFieldText)
  else
    let! r := getSubField_ptr textField fieldLen subFieldIndex subFieldSeparators validateChars in
    match r with
    | Some (subFieldPtr, subFieldLength, _) =>
        if 0 <? subFieldLength then
          Ok (true, spec_op (ORemove subFieldLength)
                      (spec_op (OReplace 0 subFieldLength (cstr (drop (Z.to_nat subFieldPtr) textField)) []
                                  subFieldLength) subFieldText))
        else Ok (true, spec_op (ORemove 0) subFieldText)
    | None => Ok (false, spec_op (ORemove 0) subFieldText)
    end.

(** ** The tokenizer object *)

Record NameValueTokenizer : Type := mkTokenizer { textPtr : list ascii; textLen : Z; bytesConsumed : Z }.

(** NameValueTokenizer(multiLineText, length) *)
Definition NameValueTokenizer_new (multiLineText : list ascii) (length : Z) : outcome NameValueTokenizer :=
  if length <? 0 then let! n := strlen multiLineText in Ok (mkTokenizer multiLineText n 0)
  else Ok (mkTokenizer multiLineText length 0).

(** [while(nameEnd < lineLength && textPtr[bytesConsumed + nameEnd] != separator) nameEnd++] *)
Fixpoint name_end (fuel : nat) (text : list ascii) (off lineLength : Z) (separator : ascii) (nameEnd : Z) : outcome Z :=
  if nameEnd <? lineLength then
    match fuel with
    | O => UB
    | S fuel' =>
        let! c := char_of text (off + nameEnd) in
        if bool_decide (c = separator) then Ok nameEnd else name_end fuel' text off lineLength separator (nameEnd + 1)
    end
  else Ok nameEnd.

(** The block of getNextPair that takes the name and the value out of a line
    of [lineLength] characters. *)
Definition line_pair (t : NameValueTokenizer) (lineLength : Z) (separator : ascii)
    : outcome (list ascii * list ascii) :=
  if 0 <? lineLength then
    let! nameEnd := name_end (Z.to_nat lineLength) (textPtr t) (bytesConsumed t) lineLength separator 0 in
    let! name := (if 0 <? nameEnd then
                    let! raw := read_at (textPtr t) (bytesConsumed t) nameEnd in Ok (strip_spec is_blank both raw)
                  else Ok []) in
    let nameEnd := nameEnd + 1 in
    let! value := (if nameEnd <? lineLength then
                     let! raw := read_at (textPtr t) (bytesConsumed t + nameEnd) (lineLength - nameEnd) in
                     Ok (strip_spec is_blank both raw)
                   else Ok []) in
    Ok (name, value)
  else Ok ([], []).

(** NameValueTokenizer::getNextPair: nameFound, name, value *)
Definition getNextPair (t : NameValueTokenizer) (separator : ascii)
    : outcome (bool * list ascii * list ascii * NameValueTokenizer) :=
  let! r := findNextLineTerminator (textPtr t) (bytesConsumed t) (textLen t - bytesConsumed t) in
  let nextLineOffset := snd r in
  let lineLength := if fst r <? 0 then textLen t - bytesConsumed t else fst r in
  let! nv := line_pair t lineLength separator in
  Ok (negb (bool_decide (fst nv = [])), fst nv, snd nv,
      mkTokenizer (textPtr t) (textLen t)
        (bytesConsumed t + if 0 <? nextLineOffset then nextLineOffset else lineLength)).

(** NameValueTokenizer::getProcessedIndex, NameValueTokenizer::isAtEnd *)
Definition getProcessedIndex (t : NameValueTokenizer) : Z := bytesConsumed t.
Definition isAtEnd (t : NameValueTokenizer) : bool := textLen t <=? bytesConsumed t.

(** The loop of SdpBody::parseBody: the fields it appends to sdpFields. *)
Fixpoint sdp_fields_loop (fuel : nat) (parser : NameValueTokenizer) (separator : ascii)
    : outcome (list (list ascii * list ascii)) :=
  match fuel with
  | O => UB
  | S fuel' =>
      let! r := getNextPair parser separator in
      let '(nameFound, name, value, parser') := r in
      let nameValue := if nameFound : bool then [(cstr name, cstr value)] else [] in
      if isAtEnd parser' then Ok nameValue
      else let! rest := sdp_fields_loop fuel' parser' separator in Ok (nameValue ++ rest)
  end.
