(* ===== verification/NameValueTokenizerSpec.v ===== *)
(** * What NameValueTokenizer reads of a text

    getNextPair reads one line, whatever of CR, LF or CRLF ends it, and
    splits it at the first separator; getSubField returns the fields of a
    text split at any of the separators, where empty fields do not count
    except the last.  Neither reads outside the text. *)
From Stdlib Require Import ZArith Lia Ascii String.
From stdpp Require Import base list strings sets.
From S2P Require Import Prelude UtlString UtlStringRefine NameValueTokenizer.
Local Open Scope Z_scope.

(** ** Reference definitions *)

Definition is_terminator (c : ascii) : bool := bool_decide (c = NEWLINE) || bool_decide (c = CARRIAGE_RETURN).

(** The first line and what follows its terminator. *)
Fixpoint next_line (r : list ascii) : list ascii * list ascii :=
  match r with
  | [] => ([], [])
  | c :: r' =>
      if is_terminator c then
        ([], match r' with
             | d :: r'' => if bool_decide (d = NEWLINE) && bool_decide (c = CARRIAGE_RETURN) then r'' else r'
             | [] => []
             end)
      else (c :: fst (next_line r'), snd (next_line r'))
  end.

(** What is before the first separator. *)
Fixpoint before (separator : ascii) (line : list ascii) : list ascii :=
  match line with
  | [] => []
  | c :: line' => if bool_decide (c = separator) then [] else c :: before separator line'
  end.

Definition trim : list ascii -> list ascii := strip_spec is_blank both.

Definition parse_line (separator : ascii) (line : list ascii) : list ascii * list ascii :=
  let n := before separator line in (trim n, trim (drop (S (length n)) line)).

(** The pair of a line that has a name. *)
Definition line_field (separator : ascii) (line : list ascii) : list (list ascii * list ascii) :=
  let p := parse_line separator line in
  if bool_decide (fst p = []) then [] else [(cstr (fst p), cstr (snd p))].

(** The pairs of every line of a text. *)
Fixpoint text_fields (fuel : nat) (separator : ascii) (r : list ascii) : list (list ascii * list ascii) :=
  match fuel, r with
  | S fuel', _ :: _ => line_field separator (fst (next_line r)) ++ text_fields fuel' separator (snd (next_line r))
  | _, _ => []
  end.

(** The fields of a text, [cur] being the field read so far. *)
Fixpoint fields (separators cur t : list ascii) : list (list ascii) :=
  match t with
  | [] => [cur]
  | c :: t' =>
      if bool_decide (c ∈ separators) then
        match cur with [] => fields separators [] t' | _ => cur :: fields separators [] t' end
      else fields separators (cur ++ [c]) t'
  end.

(** ** Lines *)

Lemma char_of_app text a c b i : text = a ++ c :: b -> i = Z.of_nat (length a) -> char_of text i = Ok c.
Proof. intros -> ->. unfold char_of. by rewrite (read_at_split a [c] b). Qed.

Lemma next_line_length r : (length (snd (next_line r)) <= length r)%nat.
Proof.
  induction r as [|c r IH]; simpl; [lia|]. destruct (is_terminator c); simpl; [|lia].
  destruct r as [|d r]; simpl; [lia|]. destruct (_ && _); simpl; lia.
Qed.

Lemma next_line_progress r : r <> [] -> (length (snd (next_line r)) < length r)%nat.
Proof.
  destruct r as [|c r]; [done|]. intros _. simpl. pose proof (next_line_length r).
  destruct (is_terminator c); simpl; [|lia]. destruct r as [|d r]; simpl; [lia|]. destruct (_ && _); simpl; lia.
Qed.

Lemma next_line_split r : exists t, r = fst (next_line r) ++ t ++ snd (next_line r).
Proof.
  induction r as [|c r (t & IH)]; [by exists []|]. cbn [next_line]. destruct (is_terminator c).
  - destruct r as [|d r]; [by exists [c]|]. destruct (_ && _); [by exists [c; d]|by exists [c]].
  - exists t. cbn [fst snd app]. by rewrite <- IH.
Qed.

Ltac texts := simplify_list_eq; rewrite ?length_app in *; simpl in *; try done; try lia.

(** The terminator search, started [k] characters into the remaining text. *)
Lemma find_terminator_spec r : forall fuel text pre k done post off len,
  text = pre ++ done ++ r ++ post -> off = Z.of_nat (length pre) -> k = Z.of_nat (length done) ->
  len = k + Z.of_nat (length r) -> (length r <= fuel)%nat ->
  find_terminator fuel text off len k
  = Ok (if bool_decide (fst (next_line r) = r) then (-1, -1)
        else (k + Z.of_nat (length (fst (next_line r))), k + Z.of_nat (length r) - Z.of_nat (length (snd (next_line r))))).
Proof.
  induction r as [|c r IH]; intros fuel text pre k done post off len Ht -> -> -> Hf.
  - destruct fuel; cbn [find_terminator]; rewrite (proj2 (Z.ltb_ge _ _)) by (simpl; lia); done.
  - destruct fuel as [|fuel]; [simpl in Hf; lia|]. cbn [find_terminator].
    rewrite (proj2 (Z.ltb_lt _ _)) by (simpl; lia).
    rewrite (char_of_app text (pre ++ done) c (r ++ post)) by texts.
    cbn [obind next_line]. fold (is_terminator c). destruct (is_terminator c) eqn:Ec.
    + rewrite (bool_decide_false ([] = c :: r)) by done. cbn [fst snd].
      destruct r as [|d r].
      * rewrite (proj2 (Z.ltb_ge _ _)) by (simpl; lia). cbn [obind length]. f_equal. f_equal; lia.
      * rewrite (proj2 (Z.ltb_lt _ _)) by (simpl; lia).
        rewrite (char_of_app text (pre ++ done ++ [c]) d (r ++ post)) by texts. cbn [obind].
        destruct (bool_decide (d = NEWLINE) && bool_decide (c = CARRIAGE_RETURN)); cbn [length]; f_equal; f_equal; lia.
    + rewrite (IH fuel text pre _ (done ++ [c]) post) by texts.
      cbn [fst snd length].
      destruct (decide (fst (next_line r) = r)) as [E|E].
      * rewrite !bool_decide_true by congruence. done.
      * rewrite !bool_decide_false by (intros ?; simplify_eq; done). f_equal. f_equal; lia.
Qed.

Lemma name_end_spec line : forall fuel text pre done post off k len sep,
  text = pre ++ done ++ line ++ post -> off = Z.of_nat (length pre) -> k = Z.of_nat (length done) ->
  len = k + Z.of_nat (length line) -> (length line <= fuel)%nat ->
  name_end fuel text off len sep k = Ok (k + Z.of_nat (length (before sep line))).
Proof.
  induction line as [|c line IH]; intros fuel text pre done post off k len sep Ht -> -> -> Hf.
  - destruct fuel; cbn [name_end]; rewrite (proj2 (Z.ltb_ge _ _)) by (simpl; lia); f_equal; simpl; lia.
  - destruct fuel as [|fuel]; [simpl in Hf; lia|]. cbn [name_end before].
    rewrite (proj2 (Z.ltb_lt _ _)) by (simpl; lia).
    rewrite (char_of_app text (pre ++ done) c (line ++ post)) by texts.
    cbn [obind]. case_bool_decide; [f_equal; simpl; lia|].
    rewrite (IH fuel text pre (done ++ [c]) post) by texts.
    f_equal. simpl. lia.
Qed.

Lemma before_prefix sep line : exists t, line = before sep line ++ t /\ (t = [] \/ exists t', t = sep :: t').
Proof.
  induction line as [|c line (t & IH & Ht)]; [exists []; auto|]. simpl. case_bool_decide; subst; [exists (sep :: line); eauto|].
  exists t. simpl. by rewrite <- IH.
Qed.

(** A tokenizer that has consumed [pre] of [pre ++ r]. *)
Definition at_text (t : NameValueTokenizer) (pre r : list ascii) : Prop :=
  (exists post, textPtr t = pre ++ r ++ post) /\ bytesConsumed t = Z.of_nat (length pre)
  /\ textLen t = Z.of_nat (length pre) + Z.of_nat (length r).

(** Where the line ends and where the next one starts. *)
Lemma line_bounds t pre r :
  at_text t pre r ->
  exists term a b, findNextLineTerminator (textPtr t) (bytesConsumed t) (textLen t - bytesConsumed t) = Ok (a, b)
    /\ r = fst (next_line r) ++ term ++ snd (next_line r)
    /\ (if a <? 0 then textLen t - bytesConsumed t else a) = Z.of_nat (length (fst (next_line r)))
    /\ (if 0 <? b then b else Z.of_nat (length (fst (next_line r)))) = Z.of_nat (length (fst (next_line r) ++ term)).
Proof.
  intros ((post & Ht) & Hb & Hl). destruct (next_line_split r) as (term & Hsplit). exists term.
  unfold findNextLineTerminator. rewrite (find_terminator_spec r _ (textPtr t) pre 0 [] post) by (try done; simpl; lia).
  set (line := fst (next_line r)) in *. set (rest := snd (next_line r)) in *.
  assert (length r = (length line + length term + length rest)%nat) as Hlen by (rewrite Hsplit, !length_app; lia).
  rewrite length_app. case_bool_decide as E; eexists _, _; (split; [done|]); (split; [done|]).
  - rewrite E in *. assert (length term = 0%nat) by lia.
    split; [rewrite (proj2 (Z.ltb_lt (-1) 0)) by lia; lia|]. rewrite (proj2 (Z.ltb_ge 0 (-1))) by lia. lia.
  - assert (length rest < length r)%nat.
    { apply next_line_progress. intros Hr. apply E. unfold line. by rewrite Hr. }
    split; [rewrite (proj2 (Z.ltb_ge _ 0)) by lia; lia|]. rewrite (proj2 (Z.ltb_lt 0 _)) by lia. lia.
Qed.

Lemma line_pair_spec t pre line post sep :
  textPtr t = pre ++ line ++ post -> bytesConsumed t = Z.of_nat (length pre) ->
  line_pair t (Z.of_nat (length line)) sep = Ok (parse_line sep line).
Proof.
  intros Ht Hb. unfold line_pair. destruct (Z.ltb_spec 0 (Z.of_nat (length line))) as [Hlt|Hge].
  2: { assert (line = []) as -> by (destruct line; simpl in *; [done|lia]). done. }
  rewrite (name_end_spec line _ (textPtr t) pre [] post) by (try done; simpl; lia).
  destruct (before_prefix sep line) as (tail & Htail & Hsep).
  cbn [obind]. rewrite Z.add_0_l. unfold parse_line. set (n := before sep line) in *.
  assert ((if 0 <? Z.of_nat (length n) then let! raw := read_at (textPtr t) (bytesConsumed t) (Z.of_nat (length n)) in
            Ok (strip_spec is_blank both raw) else Ok []) = Ok (trim n)) as ->.
  { destruct (Z.ltb_spec 0 (Z.of_nat (length n))) as [_|H0].
    - rewrite Ht, Htail, <- !app_assoc. by rewrite (read_at_split pre n).
    - assert (n = []) as -> by (destruct n; simpl in *; [done|lia]). done. }
  cbn [obind]. destruct Hsep as [-> | (tail' & ->)].
  - rewrite (proj2 (Z.ltb_ge _ _)) by (rewrite Htail, app_nil_r; lia). cbn [obind].
    rewrite drop_ge by (rewrite Htail at 1; rewrite app_nil_r; lia). done.
  - assert (drop (S (length n)) line = tail') as ->.
    { rewrite Htail, cons_middle, app_assoc. apply drop_app_length'. rewrite length_app. simpl. lia. }
    assert (length line = (length n + 1 + length tail')%nat) as Hll by (rewrite Htail at 1; rewrite length_app; simpl; lia).
    destruct (Z.ltb_spec (Z.of_nat (length n) + 1) (Z.of_nat (length line))) as [_|H0].
    + replace (textPtr t) with ((pre ++ n ++ [sep]) ++ tail' ++ post) by (rewrite Ht, Htail; by simplify_list_eq).
      rewrite (read_at_split (pre ++ n ++ [sep]) tail') by (rewrite ?length_app; simpl; lia). done.
    + assert (tail' = []) as -> by (destruct tail'; simpl in *; [done|lia]). done.
Qed.

Lemma getNextPair_spec t pre r sep :
  at_text t pre r ->
  let p := parse_line sep (fst (next_line r)) in
  exists t' taken, getNextPair t sep = Ok (negb (bool_decide (fst p = [])), fst p, snd p, t')
    /\ r = taken ++ snd (next_line r) /\ at_text t' (pre ++ taken) (snd (next_line r)).
Proof.
  intros Hat. cbv zeta. destruct (line_bounds t pre r Hat) as (term & a & b & E & Hsplit & Hline & Hnext).
  destruct Hat as ((post & Ht) & Hb & Hl).
  set (line := fst (next_line r)) in *. set (rest := snd (next_line r)) in *.
  unfold getNextPair. rewrite E. cbn [obind fst snd]. rewrite Hline, Hnext.
  assert (textPtr t = pre ++ line ++ term ++ rest ++ post) as Htext by (rewrite Ht, Hsplit; by rewrite <- !app_assoc).
  rewrite (line_pair_spec t pre line (term ++ rest ++ post)) by done.
  cbn [obind]. eexists _, (line ++ term). split; [done|]. split; [by rewrite <- app_assoc|].
  split; [|split]; cbn [textPtr bytesConsumed textLen].
  - exists post. rewrite Htext. by simplify_list_eq.
  - rewrite Hb, !length_app. lia.
  - rewrite Hl, Hsplit, !length_app. lia.
Qed.

Lemma text_fields_nil fuel sep : text_fields fuel sep [] = [].
Proof. by destruct fuel. Qed.

Lemma sdp_fields_spec sep fuel : forall t pre r,
  at_text t pre r -> (length r < fuel)%nat -> sdp_fields_loop fuel t sep = Ok (text_fields fuel sep r).
Proof.
  induction fuel as [|fuel IH]; intros t pre r Hat Hf; [lia|]. cbn [sdp_fields_loop].
  destruct (getNextPair_spec t pre r sep Hat) as (t' & taken & -> & _ & Hat'). cbn [obind].
  assert ((if negb (bool_decide (fst (parse_line sep (fst (next_line r))) = []))
           then [(cstr (fst (parse_line sep (fst (next_line r)))), cstr (snd (parse_line sep (fst (next_line r)))))]
           else []) = line_field sep (fst (next_line r))) as -> by (unfold line_field; by case_bool_decide).
  pose proof Hat' as (_ & Hb & Hl). unfold isAtEnd. rewrite Hb, Hl.
  destruct r as [|c r]; [by rewrite (proj2 (Z.leb_le _ _)) by (simpl; lia)|].
  pose proof (next_line_progress (c :: r) ltac:(done)) as Hp. cbn [text_fields].
  destruct (snd (next_line (c :: r))) as [|d rest] eqn:E.
  - rewrite (proj2 (Z.leb_le _ _)) by (simpl; lia). by rewrite text_fields_nil, app_nil_r.
  - rewrite (proj2 (Z.leb_gt _ _)) by (simpl; lia). rewrite (IH t' _ _ Hat') by (simpl length in *; lia). done.
Qed.

(** Reading the fields of any body terminates, stays inside the text and
    gives a pair for every line that has a name, split at its first
    separator and trimmed, whichever of CR, LF and CRLF end the lines. *)
Theorem fields_are_lines text post sep :
  exists t, NameValueTokenizer_new (text ++ post) (Z.of_nat (length text)) = Ok t
    /\ sdp_fields_loop (S (length text)) t sep = Ok (text_fields (S (length text)) sep text).
Proof.
  eexists. split; [unfold NameValueTokenizer_new; rewrite (proj2 (Z.ltb_ge _ _)) by lia; done|].
  apply (sdp_fields_spec sep _ _ [] text); [|lia]. split_and!; [by exists post|done|done].
Qed.

(** ** Subfields *)

Lemma is_separator_spec seps c : c <> NUL -> is_separator seps c = bool_decide (c ∈ seps).
Proof.
  intros Hc. unfold is_separator, in_set.
  destruct seps as [|s0 [|s1 [|s2 seps]]];
    repeat (case_bool_decide; simpl); try done; exfalso; set_solver.
Qed.

(** Every character is one validateChars lets pass. *)
Definition printable (l : list ascii) : Prop := Forall (fun c => isPrintableChar (schar c) = true) l.

(** The loop of getSubField with the text [cur] since the last separator:
    it ends at the subfield that is wanted, or past the last one. *)
Lemma subfield_loop_spec seps validate idx rest : forall fuel text pre cur post I b len,
  text = pre ++ cur ++ rest ++ post -> len = Z.of_nat (length (pre ++ cur ++ rest)) -> nul_free rest ->
  (validate = false \/ printable rest) -> I < idx -> (length rest < fuel)%nat ->
  exists i off sep, subfield_loop fuel text len idx seps validate I b (Z.of_nat (length pre) - 1)
                      (Z.of_nat (length pre + length cur)) = Ok (Some (i, off, sep))
    /\ match fields seps cur rest !! Z.to_nat (idx - I - 1) with
       | Some f => i = idx /\ sep = off + Z.of_nat (length f) /\ sep <= len
                   /\ exists p q, text = p ++ f ++ q /\ off = Z.of_nat (length p)
       | None => i <> idx
       end.
Proof.
  induction rest as [|c rest IH]; intros fuel text pre cur post I b len Ht Hlen Hnf Hval HI Hf;
    (destruct fuel as [|fuel]; [simpl in Hf; lia|]); cbn [subfield_loop]; rewrite (proj2 (Z.ltb_lt _ _) HI).
  - rewrite (proj2 (Z.leb_le 0 len)), (proj2 (Z.leb_le len _)) by (rewrite Hlen, !length_app; cbn [length]; lia).
    cbn [andb obind]. eexists _, _, _. split; [done|]. cbn [fields].
    destruct (decide (idx = I + 1)) as [->|Hne].
    + replace (Z.to_nat (I + 1 - I - 1)) with 0%nat by lia. cbn [lookup list_lookup]. split; [done|].
      split; [lia|]. split; [rewrite Hlen, !length_app; lia|]. exists pre, post. split; [by rewrite Ht|lia].
    + destruct (Z.to_nat (idx - I - 1)) as [|k] eqn:E; [lia|].
      change ([cur] !! S k) with (([] : list (list ascii)) !! k). rewrite lookup_nil. lia.
  - rewrite (proj2 (Z.leb_gt len _)) by (rewrite Hlen, !length_app; cbn [length]; lia). rewrite andb_false_r.
    rewrite (char_of_app text (pre ++ cur) c (rest ++ post)) by first [rewrite length_app; lia | rewrite Ht; by simplify_list_eq].
    inversion Hnf as [|? ? Hc Hnf']; subst x l. cbn [obind]. rewrite bool_decide_false by done. cbn [obind].
    assert (validate && negb (isPrintableChar (schar c)) = false) as ->.
    { destruct Hval as [-> |Hp]; [done|]. inversion Hp as [|? ? Hpc]; subst. rewrite Hpc. by rewrite andb_false_r. }
    assert (validate = false \/ printable rest) as Hval'.
    { destruct Hval as [?|Hp]; [auto|right]. by inversion Hp. }
    rewrite is_separator_spec by done. cbn [fields]. case_bool_decide as Hsep.
    + replace (Z.of_nat (length pre) - 1 + 1) with (Z.of_nat (length pre)) by lia.
      destruct cur as [|x cur].
      * rewrite (proj2 (Z.eqb_eq _ _)) by (simpl; lia). cbn [negb].
        destruct (IH fuel text (pre ++ [c]) [] post I (Z.of_nat (length pre)) len)
          as (i & off & sp & E & Hm); try done; [rewrite Ht; by simplify_list_eq|rewrite Hlen; f_equal; f_equal; by simplify_list_eq|simpl in Hf; lia|].
        exists i, off, sp. split; [|done]. rewrite <- E. f_equal; rewrite ?length_app; simpl; lia.
      * rewrite (proj2 (Z.eqb_neq _ _)) by (simpl; lia). cbn [negb].
        destruct (decide (idx = I + 1)) as [->|Hne].
        -- replace (Z.to_nat (I + 1 - I - 1)) with 0%nat by lia. cbn [lookup list_lookup].
           eexists _, _, _. split.
           { destruct fuel; cbn [subfield_loop]; rewrite (proj2 (Z.ltb_ge _ _)) by lia; done. }
           split; [done|]. split; [simpl; lia|]. split; [rewrite Hlen, !length_app; simpl; lia|].
           exists pre, ((c :: rest) ++ post). done.
        -- destruct (IH fuel text (pre ++ (x :: cur) ++ [c]) [] post (I + 1) (Z.of_nat (length pre)) len)
             as (i & off & sp & E & Hm); try done; [rewrite Ht; by simplify_list_eq|rewrite Hlen; f_equal; f_equal; by simplify_list_eq|lia|simpl in Hf; lia|].
           exists i, off, sp. split; [rewrite <- E; f_equal; rewrite ?length_app; simpl; rewrite ?length_app; simpl; lia|].
           replace (Z.to_nat (idx - I - 1)) with (S (Z.to_nat (idx - (I + 1) - 1))) by lia. done.
    + destruct (IH fuel text pre (cur ++ [c]) post I b len) as (i & off & sp & E & Hm); try done;
        [rewrite Ht; by simplify_list_eq|rewrite Hlen; f_equal; f_equal; by simplify_list_eq|simpl in Hf; lia|].
      exists i, off, sp. split; [|done]. rewrite <- E. f_equal. rewrite length_app. simpl. lia.
Qed.

Lemma fields_nul_free seps t : forall cur, nul_free cur -> nul_free t -> Forall nul_free (fields seps cur t).
Proof.
  induction t as [|c t IH]; intros cur Hcur Ht; cbn [fields]; [by constructor|]. inversion Ht; subst.
  case_bool_decide.
  - destruct cur; [|constructor; [done|]]; (apply IH; [constructor|done]).
  - apply IH; [|done]. apply Forall_app. split; [done|]. by apply Forall_singleton.
Qed.

Lemma cstr_app_l f q : nul_free f -> take (length f) (cstr (f ++ q)) = f.
Proof. induction 1 as [|c f Hc Hf IH]; simpl; [done|]. rewrite decide_False by done. simpl. by rewrite IH. Qed.

Lemma getSubField_spec text post i seps old validate :
  nul_free text -> nul_free seps -> 0 <= i -> validate = false \/ printable text ->
  getSubField (text ++ NUL :: post) i (seps ++ [NUL]) old validate
  = Ok (if 65536 <? Z.of_nat (length text) then (false, old)
        else match fields seps [] text !! Z.to_nat i with Some f => (true, f) | None => (false, []) end).
Proof.
  intros Ht Hs Hi Hv. unfold getSubField. rewrite strlen_terminated, cstr_id by done. cbn [obind].
  destruct (65536 <? Z.of_nat (length text)); [done|].
  unfold getSubField_ptr. rewrite cstr_app_nul by done.
  destruct (subfield_loop_spec seps validate i text (S (length (text ++ NUL :: post))) (text ++ NUL :: post) [] []
    (NUL :: post) (-1) 0 (Z.of_nat (length text))) as (k & off & sep & E & Hm); try done; [lia|rewrite length_app; simpl; lia|].
  simpl length in E. change (Z.of_nat 0 - 1) with (-1) in E. change (Z.of_nat (0 + 0)) with 0 in E. rewrite E.
  cbn [obind]. clear E. replace (i - -1 - 1) with i in Hm by lia.
  destruct (fields seps [] text !! Z.to_nat i) as [f|] eqn:Ef.
  - destruct Hm as (-> & -> & _ & p & q & Epq & ->). rewrite Z.eqb_refl.
    assert (nul_free f) as Hf.
    { eapply Forall_lookup_1; [|exact Ef]. apply fields_nul_free; [constructor|done]. }
    replace (Z.of_nat (length p) + Z.of_nat (length f) - Z.of_nat (length p)) with (Z.of_nat (length f)) by lia.
    destruct (Z.ltb_spec 0 (Z.of_nat (length f))).
    + cbn [spec_op]. do 2 f_equal. rewrite Epq, !Nat2Z.id, drop_app_length, cstr_app_l by done.
      change (Z.to_nat 0) with 0%nat. rewrite take_0. simpl. by rewrite take_app_length.
    + cbn [spec_op]. destruct f; simpl in *; [done|lia].
  - by rewrite (proj2 (Z.eqb_neq _ _) Hm).
Qed.

(** The fields with a separator between them. *)
Fixpoint join_fields (sep : ascii) (fs : list (list ascii)) : list ascii :=
  match fs with [] => [] | [f] => f | f :: fs' => f ++ sep :: join_fields sep fs' end.

Lemma fields_run sep f rest cur : sep ∉ f -> fields [sep] cur (f ++ rest) = fields [sep] (cur ++ f) rest.
Proof.
  revert cur. induction f as [|c f IH]; intros cur Hf; simpl; [by rewrite app_nil_r|].
  rewrite bool_decide_false by (intros Hc%list_elem_of_singleton; apply Hf; set_solver).
  rewrite IH by set_solver. by rewrite <- app_assoc.
Qed.

Lemma fields_join sep fs :
  fs <> [] -> Forall (fun f => sep ∉ f) fs -> Forall (fun f => f <> []) (take (length fs - 1) fs) ->
  fields [sep] [] (join_fields sep fs) = fs.
Proof.
  intros Hne Hs Hl. induction Hs as [|f fs Hf Hs IH]; [done|]. destruct fs as [|g fs].
  - cbn [join_fields]. rewrite <- (app_nil_r f) at 1. by rewrite fields_run.
  - cbn [join_fields]. rewrite fields_run by done. cbn [fields app]. rewrite bool_decide_true by set_solver.
    simpl length in Hl. simpl take in Hl. inversion Hl as [|? ? Hfne Hl']; subst. destruct f as [|x f]; [done|].
    f_equal. apply IH; [done|]. simpl length. rewrite Nat.sub_succ, Nat.sub_0_r. by destruct fs.
Qed.

(** A text is split at the separators: for fields without separators, of
    which only the last may be empty, getSubField returns each field of the
    joined text by its index and clears the result past the last; a text
    longer than 65536 is refused and leaves the result as it was. *)
Theorem getSubField_fields fs sep text post i old :
  fs <> [] -> text = join_fields sep fs -> nul_free text -> sep <> NUL -> 0 <= i ->
  Forall (fun f => sep ∉ f) fs -> Forall (fun f => f <> []) (take (length fs - 1) fs) ->
  getSubField (text ++ NUL :: post) i [sep; NUL] old false
  = Ok (if 65536 <? Z.of_nat (length text) then (false, old)
        else match fs !! Z.to_nat i with Some f => (true, f) | None => (false, []) end).
Proof.
  intros Hne -> Hnf Hsep Hi Hfs Hlast. rewrite (getSubField_spec _ post i [sep] old false); auto; [|by apply Forall_singleton].
  destruct (65536 <? _); [done|]. by rewrite fields_join.
Qed.

(** ** Witnesses *)

Lemma getSubField_fields_witness :
  getSubField (bytes "sip:a@b.c;lr,<sip:d>,x" ++ [NUL]) 1 (bytes "," ++ [NUL]) (bytes "old") false = Ok (true, bytes "<sip:d>")
  /\ getSubField (bytes "sip:a@b.c;lr,<sip:d>,x" ++ [NUL]) 3 (bytes "," ++ [NUL]) (bytes "old") false = Ok (false, []).
Proof.
  assert (forall i, 0 <= i -> getSubField (bytes "sip:a@b.c;lr,<sip:d>,x" ++ [NUL]) i [","%char; NUL] (bytes "old") false
    = Ok (if 65536 <? 22 then (false, bytes "old")
          else match [bytes "sip:a@b.c;lr"; bytes "<sip:d>"; bytes "x"] !! Z.to_nat i with
               | Some f => (true, f) | None => (false, []) end)) as H.
  { intros i Hi. apply (getSubField_fields [bytes "sip:a@b.c;lr"; bytes "<sip:d>"; bytes "x"] ","%char
      (bytes "sip:a@b.c;lr,<sip:d>,x") [] i (bytes "old")); [done|reflexivity| |done|done| |];
      apply (bool_decide_unpack _); vm_compute; exact I. }
  split; [exact (H 1 ltac:(lia))|exact (H 3 ltac:(lia))].
Defined.
