(* ===== verification/HttpMessage.v ===== *)
(** * Header fields of HTTP and SIP messages

    The header parser and the header table of
    src/sipXtackLib/src/net/HttpMessage.cpp, and the subfield and
    Record-Route access of src/sipXtackLib/src/net/SipMessage.cpp.  The
    table [mNameValues] is the sequence a UtlDList implements; an iterator
    over it is the number of elements it has passed. *)
From Stdlib Require Import ZArith Lia Ascii String.
From stdpp Require Import base list strings.
From S2P Require Import Prelude UtlString UtlStringRefine NameValuePair NameValueTokenizer.
Local Open Scope Z_scope.

Definition HTTP_NAME_VALUE_DELIMITER : ascii := ":".
Definition HTTP_NOT_FOUND : Z := -1.
Definition SIP_RECORD_ROUTE_FIELD : list ascii := bytes "RECORD-ROUTE".
Definition SIP_MULTIFIELD_SEPARATOR : list ascii := bytes ",".
Definition BOTTOM_SUBFIELD : Z := INT_MAX.

Section Message.
Context (fill : nat -> ascii).

(** ** Parsing *)

(** HttpMessage::parseFirstLine: the first line and the bytes consumed. *)
Definition parseFirstLine (messageBytes : list ascii) (byteCount : Z) : outcome (list ascii * Z) :=
  let! r := findNextLineTerminator messageBytes 0 byteCount in
  let headerLineLength := if fst r <? 0 then byteCount else fst r in
  if 0 <? headerLineLength then
    let! line := read_at messageBytes 0 headerLineLength in
    Ok (line, if 0 <? snd r then snd r else byteCount)
  else Ok ([], 0).

(** HttpMessage::findHeaderEnd: the loop over the lines leaves bytesConsumed
    and nextLineIndex. *)
Fixpoint header_end_loop (fuel : nat) (headerBytes : list ascii) (messageLength bytesConsumed nextLineIndex : Z)
    : outcome (Z * Z) :=
  if 0 <? messageLength - bytesConsumed then
    match fuel with
    | O => UB
    | S fuel' =>
        let! r := findNextLineTerminator headerBytes bytesConsumed (messageLength - bytesConsumed) in
        if fst r =? 0 then Ok (bytesConsumed, snd r)
        else
          header_end_loop fuel' headerBytes messageLength
            (bytesConsumed + if 0 <? snd r then snd r
                             else if fst r <? 0 then messageLength - bytesConsumed else fst r) (snd r)
    end
  else Ok (bytesConsumed, nextLineIndex).

(** [headerBytes[i] == NEWLINE || headerBytes[i] == CARRIAGE_RETURN] *)
Definition ends_line (headerBytes : list ascii) (i : Z) : outcome bool :=
  let! c := char_of headerBytes i in Ok (bool_decide (c = NEWLINE) || bool_decide (c = CARRIAGE_RETURN)).

Definition findHeaderEnd (headerBytes : list ascii) (messageLength : Z) : outcome Z :=
  let! r := header_end_loop (Z.to_nat messageLength) headerBytes messageLength 0 0 in
  let '(bytesConsumed, nextLineIndex) := r in
  if nextLineIndex =? 1 then
    let! e := ends_line headerBytes bytesConsumed in
    Ok (if e : bool then bytesConsumed + 1 else HTTP_NOT_FOUND)
  else if nextLineIndex =? 2 then
    let! e1 := ends_line headerBytes bytesConsumed in
    if e1 : bool then
      let! e2 := ends_line headerBytes (bytesConsumed + 1) in
      Ok (if e2 : bool then bytesConsumed + 2 else HTTP_NOT_FOUND)
    else Ok HTTP_NOT_FOUND
  else Ok HTTP_NOT_FOUND.

(** The line of parseHeaders with a name: the table afterwards and the
    position of previousHeaderField. *)
Definition add_line (name value : list ascii) (previous : option nat) (l : list NameValuePair)
    : outcome (option nat * list NameValuePair) :=
  let nameFirstChar := match name with c :: _ => c | [] => NUL end in
  match previous with
  | Some k =>
      if bool_decide (nameFirstChar = " "%char) || bool_decide (nameFirstChar = "009"%char) then
        let name := match value with [] => name | _ => name ++ HTTP_NAME_VALUE_DELIMITER :: cstr value end in
        match l !! k with
        | Some previousHeaderField =>
            let! old := getValue previousHeaderField in
            let! nv := setValue fill previousHeaderField (Some (c_str (old ++ name))) in
            Ok (Some k, <[k := nv]> l)
        | None => UB
        end
      else
        let! headerField := NameValuePair_new fill (c_str (backTrim (toupper <$> name) (bytes " " ++ ["009"%char])))
                              (Some (c_str value)) in
        Ok (Some (length l), l ++ [headerField])
  | None =>
      let! headerField := NameValuePair_new fill (c_str (backTrim (toupper <$> name) (bytes " " ++ ["009"%char])))
                            (Some (c_str value)) in
      Ok (Some (length l), l ++ [headerField])
  end.

(** HttpMessage::parseHeaders: the do loop *)
Fixpoint parse_headers_loop (fuel : nat) (parser : NameValueTokenizer) (previous : option nat)
    (l : list NameValuePair) : outcome (Z * list NameValuePair) :=
  match fuel with
  | O => UB
  | S fuel' =>
      let! r := getNextPair parser HTTP_NAME_VALUE_DELIMITER in
      let '(nameFound, name, value, parser') := r in
      if nameFound : bool then
        let! q := add_line name value previous l in
        parse_headers_loop fuel' parser' (fst q) (snd q)
      else Ok (getProcessedIndex parser', l)
  end.

Definition parseHeaders (headerBytes : list ascii) (messageLength : Z) (headerNameValues : list NameValuePair)
    : outcome (Z * list NameValuePair) :=
  let! parser := NameValueTokenizer_new headerBytes messageLength in
  parse_headers_loop (S (length headerBytes)) parser None headerNameValues.

(** ** The header table *)

(** The fields an iterator stops at: those with the name, all without one. *)
Definition has_name (name : option (list ascii)) (nv : NameValuePair) : Prop :=
  match name with Some n => strcmp (nv_name nv) n = 0 | None => True end.
#[global] Instance has_name_dec name nv : Decision (has_name name nv).
Proof. unfold has_name. destruct name; apply _. Defined.

(** [while(fieldIndex <= index)]: the [k+1]-th such field after [pos]. *)
Fixpoint field_loop (k : nat) (name : option (list ascii)) (l : list NameValuePair) (pos : nat)
    : option (nat * NameValuePair) :=
  match list_find (has_name name) (drop pos l) with
  | Some (i, headerField) =>
      match k with
      | O => Some ((pos + i)%nat, headerField)
      | S k' => field_loop k' name l (pos + i + 1)
      end
  | None => None
  end.

(** HttpMessage::getHeaderField: the field and its position. *)
Definition getHeaderField (l : list NameValuePair) (index : Z) (name : option (list ascii))
    : option (nat * NameValuePair) :=
  if index <? 0 then None else field_loop (Z.to_nat index) ((fun n : list ascii => toupper <$> n) <$> name) l 0.

(** HttpMessage::getHeaderValue: the null pointer for an empty value too. *)
Definition getHeaderValue (l : list NameValuePair) (index : Z) (name : option (list ascii))
    : outcome (option (list ascii)) :=
  match getHeaderField l index name with
  | Some (_, headerField) =>
      let! v := getValue headerField in Ok (match v with [] => None | _ => Some v end)
  | None => Ok None
  end.

(** HttpMessage::addHeaderField *)
Definition addHeaderField (l : list NameValuePair) (name value : list ascii) : outcome (list NameValuePair) :=
  let! headerField := NameValuePair_new fill (c_str name) (Some (c_str value)) in
  Ok (l ++ [mkNV (toupper <$> nv_name headerField) (valueString headerField)]).

(** HttpMessage::insertHeaderField; insertAt refuses an index past the end. *)
Definition insertHeaderField (l : list NameValuePair) (name value : list ascii) (index : nat)
    : outcome (list NameValuePair) :=
  let! headerField := NameValuePair_new fill (c_str name) (Some (c_str value)) in
  Ok (if (index <=? length l)%nat
      then take index l ++ mkNV (toupper <$> nv_name headerField) (valueString headerField) :: drop index l else l).

(** HttpMessage::setHeaderValue *)
Definition setHeaderValue (l : list NameValuePair) (name newValue : list ascii) (index : Z)
    : outcome (list NameValuePair) :=
  match getHeaderField l index (Some name) with
  | Some (i, headerField) =>
      let! nv := setValue fill headerField (Some (c_str newValue)) in Ok (<[i := nv]> l)
  | None => addHeaderField l name newValue
  end.

(** HttpMessage::removeHeader *)
Definition removeHeader (l : list NameValuePair) (name : option (list ascii)) (index : Z)
    : bool * list NameValuePair :=
  match getHeaderField l index name with
  | Some (i, _) => (true, delete i l)
  | None => (false, l)
  end.

(** ** Subfields *)

(** [while(!url.isNull() && index < addressIndex)] of
    SipMessage::getFieldSubfield: url, urlBackup and index. *)
Fixpoint subfields_loop (fuel : nat) (value url urlBackup : list ascii) (subFieldIndex index addressIndex : Z)
    (validateChars : bool) : outcome (list ascii * list ascii * Z) :=
  if negb (bool_decide (url = [])) && (index <? addressIndex) then
    match fuel with
    | O => UB
    | S fuel' =>
        let! r := getSubField (c_str value) (subFieldIndex + 1) (c_str SIP_MULTIFIELD_SEPARATOR) url validateChars in
        subfields_loop fuel' value (snd r) url (subFieldIndex + 1) (index + 1) addressIndex validateChars
    end
  else Ok (url, urlBackup, index).

(** The outer loop: the uri when it was found, and urlBackup. *)
Fixpoint field_values_loop (fuel : nat) (l : list NameValuePair) (fieldName : list ascii)
    (fieldIndex index addressIndex : Z) (url urlBackup : list ascii) (validateChars : bool)
    : outcome (option (list ascii) * list ascii) :=
  let! value := getHeaderValue l fieldIndex (Some fieldName) in
  match value with
  | Some v =>
      if index <=? addressIndex then
        match fuel with
        | O => UB
        | S fuel' =>
            let! r := getSubField (c_str v) 0 (c_str SIP_MULTIFIELD_SEPARATOR) url validateChars in
            let! q := subfields_loop (S (length v)) v (snd r) urlBackup 0 index addressIndex validateChars in
            let '(url', urlBackup', index') := q in
            if (index' =? addressIndex) && negb (bool_decide (url' = [])) then Ok (Some url', urlBackup')
            else if addressIndex <? index' then Ok (None, urlBackup')
            else field_values_loop fuel' l fieldName (fieldIndex + 1) index' addressIndex url' urlBackup' validateChars
        end
      else Ok (None, urlBackup)
  | None => Ok (None, urlBackup)
  end.

(** SipMessage::getFieldSubfield: uriFound and the uri *)
Definition getFieldSubfield (l : list NameValuePair) (fieldName : list ascii) (addressIndex : Z)
    (validateChars : bool) : outcome (bool * list ascii) :=
  let! r := field_values_loop (S (length l)) l fieldName 0 0 addressIndex [] [] validateChars in
  let '(found, urlBackup) := r in
  let uri := match found with Some u => u | None => [] end in
  let uriFound := match found with Some _ => true | None => false end in
  Ok (if (addressIndex =? BOTTOM_SUBFIELD) && negb (bool_decide (urlBackup = []))
      then (true, uri ++ urlBackup) else (uriFound, uri)).

(** SipMessage::getRecordRouteUri *)
Definition getRecordRouteUri (l : list NameValuePair) (index : Z) : outcome (bool * list ascii) :=
  let! r := getFieldSubfield l SIP_RECORD_ROUTE_FIELD index false in
  let uri := frontBackTrim (snd r) (bytes " " ++ ["009"%char]) in
  Ok (fst r && negb (bool_decide (uri = [])), uri).

(** SipMessage::setRecordRouteField *)
Definition setRecordRouteField (l : list NameValuePair) (recordRouteField : list ascii) (index : Z)
    : outcome (list NameValuePair) := setHeaderValue l SIP_RECORD_ROUTE_FIELD recordRouteField index.

(** SipMessage::addRecordRouteUri: [mNameValues.index(rrHeader)] is the first
    Record-Route header. *)
Definition addRecordRouteUri (l : list NameValuePair) (recordRouteUri : list ascii)
    : outcome (list NameValuePair) :=
  let s := if bool_decide ("<"%char ∈ recordRouteUri) then recordRouteUri
           else bytes "<" ++ recordRouteUri ++ bytes ">" in
  let! rrHeader := NameValuePair_new fill (c_str SIP_RECORD_ROUTE_FIELD) (Some (c_str s)) in
  let firstRR := match list_find (fun nv => strcmp (nv_name nv) (nv_name rrHeader) = 0) l with
                 | Some (i, _) => i | None => 0%nat end in
  Ok (take firstRR l ++ rrHeader :: drop firstRR l).
End Message.
