(* ===== verification/HttpMessageSpec.v ===== *)
(** * The header table and its subfields

    The table behaves, for each header name, as a sequence of values; a
    message printed with CRLF line ends is parsed back to its headers and
    body; the subfield access sees the comma separated values of all headers
    of a name as one sequence.  Two theorems state what the code does with
    folded headers and with Record-Route headers that hold several routes. *)
From Stdlib Require Import ZArith Lia Ascii String.
From stdpp Require Import base list strings sets.
From S2P Require Import Prelude UtlString UtlStringRefine NameValuePair NameValueTokenizer.
From S2P Require Import NameValueTokenizerSpec HttpMessage.
Local Open Scope Z_scope.

Notation header := (list ascii * list ascii)%type.

(** The values of the headers named [n], in order. *)
Definition values_of (n : list ascii) (es : list header) : list (list ascii) :=
  snd <$> filter (fun e => fst e = n) es.

(** The table [l] holds the headers [es]. *)
Definition table (l : list NameValuePair) (es : list header) : Prop :=
  Forall2 entry_of l es /\ Forall (fun e => nul_free (fst e)) es.

Definition upper (n : list ascii) : list ascii := toupper <$> n.

Lemma values_of_app n a b : values_of n (a ++ b) = values_of n a ++ values_of n b.
Proof. unfold values_of. by rewrite filter_app, fmap_app. Qed.

Lemma values_of_cons_eq n v es : values_of n ((n, v) :: es) = v :: values_of n es.
Proof. unfold values_of. by rewrite filter_cons_True. Qed.

Lemma values_of_cons_ne n m v es : m <> n -> values_of n ((m, v) :: es) = values_of n es.
Proof. intros. unfold values_of. by rewrite filter_cons_False. Qed.

Lemma upper_nul_free n : nul_free n -> nul_free (upper n).
Proof.
  intros Hn. apply Forall_fmap. eapply Forall_impl; [exact Hn|]. intros c Hc. simpl.
  by destruct c as [[] [] [] [] [] [] [] []].
Qed.

Lemma table_app l1 l2 es1 es2 : table l1 es1 -> table l2 es2 -> table (l1 ++ l2) (es1 ++ es2).
Proof. intros [H1 H2] [H3 H4]. split; [by apply Forall2_app|by apply Forall_app]. Qed.

Lemma table_one nv n v : nv_name nv = n -> holds_value nv v -> nul_free n -> table [nv] [(n, v)].
Proof. intros. split; [by apply Forall2_cons; split; [split|apply Forall2_nil]|by apply Forall_singleton]. Qed.

Lemma table_split l es1 e es2 :
  table l (es1 ++ e :: es2) ->
  exists l1 nv l2, l = l1 ++ nv :: l2 /\ length l1 = length es1 /\ table l1 es1 /\ entry_of nv e /\ table l2 es2.
Proof.
  intros [H1 H2]. apply Forall2_app_inv_r in H1 as (l1 & l2 & H1 & H3 & ->).
  inversion H3 as [|nv ? l2' ? He H4]; subst. apply Forall_app in H2 as [H2 H5]. inversion H5; subst.
  exists l1, nv, l2'. split_and!; try done. by eapply Forall2_length.
Qed.

(** What the search for a name finds. *)
Lemma find_name n l es :
  table l es -> nul_free n ->
  (values_of n es = [] /\ list_find (has_name (Some n)) l = None)
  \/ exists es1 v es2 nv, es = es1 ++ (n, v) :: es2 /\ entry_of nv (n, v) /\ values_of n es1 = []
       /\ list_find (has_name (Some n)) l = Some (length es1, nv).
Proof.
  intros [Hf Hn] Hnf. induction Hf as [|nv [m w] l es [Hm Hw] Hf IH]; [by left|].
  inversion Hn as [|? ? Hm' Hn']; subst. simpl in Hm, Hm'. cbn [list_find].
  destruct (decide (has_name (Some n) nv)) as [Hh|Hh].
  - right. assert (m = n) as <-. { apply strcmp_eq_nul_free; [done|done|]. by rewrite <- Hm. }
    exists [], w, es, nv. done.
  - assert (m <> n) as Hne. { intros <-. apply Hh. unfold has_name. rewrite Hm. by autorewrite with cxxb. }
    destruct (IH Hn') as [[Hv ->]|(es1 & v & es2 & nv' & -> & He & Hv & ->)].
    + left. by rewrite values_of_cons_ne.
    + right. exists ((m, w) :: es1), v, es2, nv'. by rewrite values_of_cons_ne.
Qed.

Lemma field_loop_spec n k : forall l esp es,
  table l (esp ++ es) -> nul_free n ->
  ((length (values_of n es) <= k)%nat /\ field_loop k (Some n) l (length esp) = None)
  \/ exists es1 v es2 nv, es = es1 ++ (n, v) :: es2 /\ entry_of nv (n, v) /\ length (values_of n es1) = k
       /\ field_loop k (Some n) l (length esp) = Some ((length esp + length es1)%nat, nv).
Proof.
  induction k as [|k IH]; intros l esp es Ht Hn; cbn [field_loop];
    (assert (table (drop (length esp) l) es) as Hd;
      [destruct Ht as [H1 H2]; apply Forall_app in H2 as [_ H2]; apply Forall2_app_inv_r in H1 as (l1 & l2 & H1 & H3 & ->);
       by rewrite <- (Forall2_length _ _ _ H1), drop_app_length|]);
    destruct (find_name n _ es Hd Hn) as [[Hv ->]|(es1 & v & es2 & nv & -> & He & Hv & ->)].
  - left. by rewrite Hv.
  - right. exists es1, v, es2, nv. by rewrite Hv.
  - left. split; [rewrite Hv; simpl; lia|done].
  - assert (length esp + length es1 + 1 = length (esp ++ es1 ++ [(n, v)]))%nat as -> by (rewrite !length_app; simpl; lia).
    destruct (IH l (esp ++ es1 ++ [(n, v)]) es2) as [[Hl ->]|(es3 & w & es4 & nv' & -> & He' & Hl & ->)]; [|done| |].
    + rewrite <- !app_assoc. done.
    + left. split; [|done]. rewrite values_of_app, values_of_cons_eq, Hv. simpl. lia.
    + right. exists (es1 ++ (n, v) :: es3), w, es4, nv'. split; [by rewrite <- app_assoc|]. split; [done|].
      split; [rewrite values_of_app, values_of_cons_eq, Hv; simpl; lia|]. f_equal. f_equal. rewrite !length_app. simpl. lia.
Qed.

(** What getHeaderField finds: the [k]-th header of the name. *)
Lemma getHeaderField_spec l es name k :
  table l es -> nul_free name ->
  ((length (values_of (upper name) es) <= k)%nat /\ getHeaderField l (Z.of_nat k) (Some name) = None)
  \/ exists es1 v es2 nv, es = es1 ++ (upper name, v) :: es2 /\ entry_of nv (upper name, v)
       /\ length (values_of (upper name) es1) = k
       /\ getHeaderField l (Z.of_nat k) (Some name) = Some (length es1, nv).
Proof.
  intros Ht Hn. unfold getHeaderField. rewrite (proj2 (Z.ltb_ge _ _)), Nat2Z.id by lia.
  apply (field_loop_spec (upper name) k l [] es Ht). by apply upper_nul_free.
Qed.

Lemma getHeaderValue_nth l es name k :
  table l es -> nul_free name ->
  getHeaderValue l (Z.of_nat k) (Some name)
  = Ok (match values_of (upper name) es !! k with Some (c :: w) => Some (c :: w) | _ => None end).
Proof.
  intros Ht Hn. unfold getHeaderValue.
  destruct (getHeaderField_spec l es name k Ht Hn) as [[Hl ->]|(es1 & w & es2 & nv & -> & [_ Hval] & <- & ->)].
  - by rewrite lookup_ge_None_2.
  - rewrite (getValue_holds nv w Hval). cbn [obind]. rewrite values_of_app, values_of_cons_eq, list_lookup_middle by done.
    by destruct w.
Qed.

Section Table.
Context (fill : nat -> ascii).

Lemma addHeaderField_spec l es name value :
  table l es -> nul_free name -> nul_free value ->
  exists l', addHeaderField fill l name value = Ok l' /\ table l' (es ++ [(upper name, value)]).
Proof.
  intros Ht Hn Hv. unfold addHeaderField.
  destruct (NameValuePair_new_value fill name value Hn Hv) as (nv & -> & Hname & Hval). cbn [obind].
  eexists. split; [done|]. apply table_app; [done|]. apply table_one; [simpl; by rewrite Hname|done|by apply upper_nul_free].
Qed.

(** Two places in a list of headers: what follows from the position. *)
Lemma values_of_middle n es1 e es2 m : fst e = n -> m <> n -> values_of m (es1 ++ e :: es2) = values_of m (es1 ++ es2).
Proof. destruct e as [x y]. intros Hx Hm. simpl in Hx. subst x. by rewrite !values_of_app, values_of_cons_ne. Qed.

Lemma setHeaderValue_spec l es name k v :
  table l es -> nul_free name -> nul_free v ->
  let n := upper name in
  let vs := values_of n es in
  exists l' es', setHeaderValue fill l name v (Z.of_nat k) = Ok l' /\ table l' es'
    /\ values_of n es' = (if (k <? length vs)%nat then <[k := v]> vs else vs ++ [v])
    /\ forall m, m <> n -> values_of m es' = values_of m es.
Proof.
  intros Ht Hn Hv. cbv zeta. unfold setHeaderValue.
  destruct (getHeaderField_spec l es name k Ht Hn) as [[Hl ->]|(es1 & w & es2 & nv & -> & [Hname Hval] & <- & ->)].
  - rewrite (proj2 (Nat.ltb_ge _ _)) by lia.
    destruct (addHeaderField_spec l es name v Ht Hn Hv) as (l' & -> & Ht'). eexists _, _. split; [done|].
    split; [done|]. rewrite values_of_app, values_of_cons_eq. split; [done|]. intros m Hm.
    rewrite values_of_app, values_of_cons_ne by done. by rewrite app_nil_r.
  - destruct (table_split _ _ _ _ Ht) as (l1 & nv' & l2 & -> & Hlen & Ht1 & _ & Ht2).
    rewrite values_of_app, values_of_cons_eq, length_app. cbn [length]. rewrite (proj2 (Nat.ltb_lt _ _)) by lia.
    destruct (setValue_holds fill nv v []) as (nv2 & E & Hname2 & Hval2); [right; eauto|].
    unfold c_str. rewrite E. cbn [obind]. rewrite cstr_id in Hval2 by done.
    exists (l1 ++ nv2 :: l2), (es1 ++ (upper name, v) :: es2). split; [by rewrite <- Hlen, insert_app_r_alt, Nat.sub_diag by lia|].
    split; [apply table_app; [done|]; apply (table_app [nv2] l2 [(upper name, v)] es2); [|done];
      by apply table_one; [rewrite Hname2| |apply upper_nul_free]|].
    split; [rewrite values_of_app, values_of_cons_eq, insert_app_r_alt, Nat.sub_diag by lia; done|].
    intros m Hm. by rewrite !(values_of_middle (upper name)).
Qed.

Lemma removeHeader_spec l es name k :
  table l es -> nul_free name ->
  let n := upper name in
  let vs := values_of n es in
  exists l' es', removeHeader l (Some name) (Z.of_nat k) = ((k <? length vs)%nat, l') /\ table l' es'
    /\ values_of n es' = delete k vs /\ forall m, m <> n -> values_of m es' = values_of m es.
Proof.
  intros Ht Hn. cbv zeta. unfold removeHeader.
  destruct (getHeaderField_spec l es name k Ht Hn) as [[Hl ->]|(es1 & w & es2 & nv & -> & _ & <- & ->)].
  - rewrite (proj2 (Nat.ltb_ge _ _)) by lia. exists l, es. rewrite delete_ge by lia. done.
  - destruct (table_split _ _ _ _ Ht) as (l1 & nv' & l2 & -> & Hlen & Ht1 & _ & Ht2).
    rewrite values_of_app, values_of_cons_eq, length_app. cbn [length]. rewrite (proj2 (Nat.ltb_lt _ _)) by lia.
    exists (l1 ++ l2), (es1 ++ es2). split; [by rewrite <- Hlen, delete_middle|]. split; [by apply table_app|].
    split; [by rewrite values_of_app, delete_middle|]. intros m Hm. by rewrite (values_of_middle (upper name)).
Qed.

(** The header table is, for each name, a sequence of values: reading gives
    the [k]-th value (a null pointer when it is empty), setting replaces the
    [k]-th or adds a header at the end, removing deletes the [k]-th; headers
    of other names are not touched. *)
Theorem header_table_spec l es name k v :
  table l es -> nul_free name -> nul_free v ->
  let n := upper name in
  let vs := values_of n es in
  getHeaderValue l (Z.of_nat k) (Some name) = Ok (match vs !! k with Some (c :: w) => Some (c :: w) | _ => None end)
  /\ (exists l' es', setHeaderValue fill l name v (Z.of_nat k) = Ok l' /\ table l' es'
        /\ values_of n es' = (if (k <? length vs)%nat then <[k := v]> vs else vs ++ [v])
        /\ forall m, m <> n -> values_of m es' = values_of m es)
  /\ (exists l' es', removeHeader l (Some name) (Z.of_nat k) = ((k <? length vs)%nat, l') /\ table l' es'
        /\ values_of n es' = delete k vs /\ forall m, m <> n -> values_of m es' = values_of m es).
Proof.
  intros Ht Hn Hv. cbv zeta. split; [by apply getHeaderValue_nth|]. split; [by apply setHeaderValue_spec|by apply removeHeader_spec].
Qed.
End Table.

(** ** Printing and parsing *)

Definition CRLF : list ascii := [CARRIAGE_RETURN; NEWLINE].

(** A character of a header name: visible, not a colon. *)
Definition name_char (c : ascii) : Prop := 33 <= uchar c <= 126 /\ c <> HTTP_NAME_VALUE_DELIMITER.

(** A header name in upper case, and a value without line ends and without
    blanks at its ends. *)
Definition wf_name (n : list ascii) : Prop := n <> [] /\ Forall name_char n /\ upper n = n.
Definition wf_text (v : list ascii) : Prop := Forall (fun c => is_terminator c = false /\ c <> NUL) v.
Definition wf_header (h : header) : Prop := wf_name (fst h) /\ wf_text (snd h) /\ trim (snd h) = snd h.

Definition print_header (h : header) : list ascii :=
  fst h ++ HTTP_NAME_VALUE_DELIMITER :: " "%char :: snd h.
Definition print_headers (hs : list header) : list ascii := concat ((fun h => print_header h ++ CRLF) <$> hs).

Lemma name_char_facts c :
  name_char c -> is_terminator c = false /\ c <> NUL /\ is_blank c = false
    /\ in_set (bytes " " ++ ["009"%char]) c = false /\ c <> " "%char /\ c <> "009"%char.
Proof.
  intros [Hr Hc]. assert (forall d, uchar d < 33 -> c <> d) as Hd by (intros d Hd ->; lia).
  assert (c <> NEWLINE /\ c <> CARRIAGE_RETURN /\ c <> NUL /\ c <> " "%char /\ c <> "009"%char) as (H1 & H2 & H3 & H4 & H5)
    by (split_and!; apply Hd; vm_compute; reflexivity).
  split_and!; try done.
  - unfold is_terminator. by rewrite !bool_decide_false.
  - unfold is_blank. repeat (rewrite (proj2 (Z.eqb_neq _ _)) by lia). done.
  - unfold in_set. apply bool_decide_eq_false. intros [Hin|?]; [|done].
    apply elem_of_cons in Hin as [?|Hin]; [done|]. by apply list_elem_of_singleton in Hin.
Qed.

Lemma count_while_none p l : Forall (fun c => p c = false) l -> count_while p l = 0.
Proof. destruct 1 as [|c l Hc]; simpl; [done|]. by rewrite Hc. Qed.

Lemma trim_visible n : Forall (fun c => is_blank c = false) n -> trim n = n.
Proof.
  intros Hn. unfold trim, strip_spec, blank_both, strip_back, strip_front.
  rewrite (count_while_none is_blank n) by done. cbn [Z.to_nat drop].
  rewrite count_while_none by (by apply Forall_rev). cbn [Z.to_nat drop]. apply rev_involutive.
Qed.

Lemma trim_space v : trim (" "%char :: v) = trim v.
Proof.
  unfold trim, strip_spec, blank_both. f_equal. unfold strip_front. change (count_while is_blank (" "%char :: v))
    with (1 + count_while is_blank v).
  destruct (count_while_spec is_blank v) as (Hc & _). rewrite Z2Nat.inj_add by lia. done.
Qed.

Lemma backTrim_visible n ws : Forall (fun c => in_set ws c = false) n -> backTrim n ws = n.
Proof. intros Hn. unfold backTrim. rewrite count_while_none; [done|]. by apply Forall_rev. Qed.

Lemma next_line_crlf line rest :
  Forall (fun c => is_terminator c = false) line -> next_line (line ++ CRLF ++ rest) = (line, rest).
Proof.
  induction 1 as [|c line Hc Hl IH]; [done|]. cbn [app next_line]. rewrite Hc. unfold CRLF in IH. simpl app in IH.
  unfold CRLF. simpl app. rewrite IH. done.
Qed.

Lemma before_sep n sep rest : sep ∉ n -> before sep (n ++ sep :: rest) = n.
Proof.
  induction n as [|c n IH]; intros Hn; cbn [app before]; [by rewrite bool_decide_true|].
  rewrite bool_decide_false by (intros ->; apply Hn; set_solver). rewrite IH; [done|set_solver].
Qed.

Lemma before_none n sep : sep ∉ n -> before sep n = n.
Proof.
  induction n as [|c n IH]; intros Hn; cbn [before]; [done|].
  rewrite bool_decide_false by (intros ->; apply Hn; set_solver). rewrite IH; [done|set_solver].
Qed.

Lemma wf_name_facts n :
  wf_name n -> nul_free n /\ Forall (fun c => is_terminator c = false) n /\ trim n = n
    /\ backTrim (toupper <$> n) (bytes " " ++ ["009"%char]) = n /\ HTTP_NAME_VALUE_DELIMITER ∉ n
    /\ exists c n', n = c :: n' /\ c <> " "%char /\ c <> "009"%char.
Proof.
  intros (Hne & Hn & Hu). fold (upper n). rewrite Hu. split_and!.
  - eapply Forall_impl; [exact Hn|]. intros c Hc. by apply name_char_facts.
  - eapply Forall_impl; [exact Hn|]. intros c Hc. by apply name_char_facts.
  - apply trim_visible. eapply Forall_impl; [exact Hn|]. intros c Hc. by apply name_char_facts.
  - apply backTrim_visible. eapply Forall_impl; [exact Hn|]. intros c Hc. by apply name_char_facts.
  - intros Hin. rewrite Forall_forall in Hn. by destruct (Hn _ Hin).
  - destruct n as [|c n]; [done|]. inversion Hn as [|? ? Hc _]; subst. exists c, n. split; [done|].
    by apply name_char_facts.
Qed.

Lemma print_header_line h :
  wf_header h -> Forall (fun c => is_terminator c = false) (print_header h)
    /\ parse_line HTTP_NAME_VALUE_DELIMITER (print_header h) = h.
Proof.
  intros (Hn & Hv & Ht). destruct (wf_name_facts _ Hn) as (_ & Hterm & Htrim & _ & Hsep & _). split.
  - apply Forall_app. split; [done|]. do 2 (constructor; [done|]). eapply Forall_impl; [exact Hv|]. by intros c [? _].
  - unfold parse_line, print_header. rewrite before_sep by done. destruct h as [n v]. cbn [fst snd] in *. f_equal; [done|].
    rewrite cons_middle, app_assoc, drop_app_length' by (rewrite length_app; simpl; lia).
    by rewrite trim_space.
Qed.

Lemma wf_text_nul_free v : wf_text v -> nul_free v.
Proof. intros Hv. eapply Forall_impl; [exact Hv|]. by intros c [_ ?]. Qed.

Section Parse.
Context (fill : nat -> ascii).

(** A line with a name adds a header, also after other headers. *)
Lemma add_line_new n v previous l es :
  table l es -> nul_free n -> nul_free v -> (forall c n', n = c :: n' -> c <> " "%char /\ c <> "009"%char) -> n <> [] ->
  let m := backTrim (toupper <$> n) (bytes " " ++ ["009"%char]) in nul_free m ->
  exists q l', add_line fill n v previous l = Ok (Some q, l') /\ table l' (es ++ [(m, v)]).
Proof.
  intros Ht Hn Hv Hfirst Hne m Hm. destruct n as [|c n]; [done|]. destruct (Hfirst c n eq_refl) as [H1 H2].
  destruct (NameValuePair_new_value fill m v Hm Hv) as (nv & E & Hname & Hval).
  exists (length l), (l ++ [nv]). split; [|by apply table_app, table_one].
  unfold add_line. destruct previous as [k|].
  - rewrite !bool_decide_false by done. cbn [orb]. fold m. by rewrite E.
  - fold m. by rewrite E.
Qed.

(** One turn of the loop on a line with a name. *)
Lemma parse_step fuel parser pre previous l es line n v rest :
  let m := backTrim (toupper <$> n) (bytes " " ++ ["009"%char]) in
  at_text parser pre (line ++ CRLF ++ rest) -> Forall (fun c => is_terminator c = false) line ->
  parse_line HTTP_NAME_VALUE_DELIMITER line = (n, v) -> n <> [] ->
  (forall c n', n = c :: n' -> c <> " "%char /\ c <> "009"%char) ->
  table l es -> nul_free n -> nul_free v -> nul_free m ->
  exists p' taken q l', at_text p' (pre ++ taken) rest /\ length taken = (length line + 2)%nat
    /\ table l' (es ++ [(m, v)])
    /\ parse_headers_loop fill (S fuel) parser previous l = parse_headers_loop fill fuel p' (Some q) l'.
Proof.
  intros m Hat Hterm Hparse Hne Hfirst Ht Hn Hv Hm.
  destruct (getNextPair_spec _ _ _ HTTP_NAME_VALUE_DELIMITER Hat) as (p' & taken & E & Er & Hat').
  rewrite next_line_crlf in * by done. cbn [fst snd] in *. rewrite Hparse in E. cbn [fst snd] in E.
  rewrite bool_decide_false in E by done.
  destruct (add_line_new n v previous l es Ht Hn Hv Hfirst Hne Hm) as (q & l' & Eq & Ht').
  exists p', taken, q, l'. split; [done|]. split.
  - apply (f_equal length) in Er. rewrite !length_app in Er. simpl in *. lia.
  - split; [done|]. cbn [parse_headers_loop]. rewrite E. cbn [obind negb]. by rewrite Eq.
Qed.

Lemma parse_loop_headers hs : forall fuel parser pre previous l es body,
  Forall wf_header hs -> table l es -> at_text parser pre (print_headers hs ++ CRLF ++ body) -> (length hs < fuel)%nat ->
  exists l', parse_headers_loop fill fuel parser previous l
             = Ok (Z.of_nat (length pre + length (print_headers hs) + 2), l') /\ table l' (es ++ hs).
Proof.
  induction hs as [|h hs IH]; intros fuel parser pre previous l es body Hw Ht Hat Hf;
    (destruct fuel as [|fuel]; [simpl in Hf; lia|]).
  - cbn [parse_headers_loop].
    destruct (getNextPair_spec _ _ _ HTTP_NAME_VALUE_DELIMITER Hat) as (p' & taken & -> & Er & _ & Hb & _).
    change (print_headers [] ++ CRLF ++ body) with ([] ++ CRLF ++ body) in *.
    rewrite next_line_crlf in * by constructor. cbn [fst snd] in *. cbn [obind].
    exists l. rewrite app_nil_r. split; [|done]. unfold getProcessedIndex. rewrite Hb. do 3 f_equal.
    rewrite length_app. apply (f_equal length) in Er. rewrite !length_app in Er. simpl in *. lia.
  - inversion Hw as [|? ? Hh Hw']; subst. destruct (print_header_line h Hh) as [Hterm Hparse].
    assert (print_headers (h :: hs) ++ CRLF ++ body = print_header h ++ CRLF ++ print_headers hs ++ CRLF ++ body) as E.
    { unfold print_headers. rewrite fmap_cons. cbn [concat]. by rewrite <- !app_assoc. }
    rewrite E in Hat. destruct h as [n v]. destruct Hh as (Hn & Hv & _). cbn [fst snd] in *.
    destruct (wf_name_facts n Hn) as (Hnf & _ & _ & Hback & _ & c & n' & Hcn & H1 & H2).
    destruct (parse_step fuel parser pre previous l es _ n v _ Hat Hterm Hparse) as (p' & taken & q & l' & Hat' & Hlen & Ht' & ->);
      rewrite ?Hback; try done; [by rewrite Hcn|intros c0 n0 ->; by simplify_eq|by apply wf_text_nul_free|].
    rewrite Hback in Ht'.
    destruct (IH fuel p' _ (Some q) l' _ body Hw' Ht' Hat') as (l2 & -> & Ht2); [simpl in Hf; lia|].
    exists l2. split; [|by rewrite <- app_assoc in Ht2]. do 3 f_equal.
    apply (f_equal length) in E. rewrite !length_app in E. rewrite length_app, Hlen. simpl length in E. lia.
Qed.

(** A folded header is not joined: the line that continues a header value
    becomes a header of its own, named by the text of the line.  The test
    for a leading blank comes after getNextPair has stripped the blanks. *)
Theorem folded_line_becomes_header n v cont body post l es :
  wf_header (n, v) -> cont <> [] -> Forall name_char cont -> table l es ->
  let text := print_header (n, v) ++ CRLF ++ (" "%char :: cont) ++ CRLF ++ CRLF ++ body in
  exists pos l', parseHeaders fill (text ++ post) (Z.of_nat (length text)) l = Ok (pos, l')
    /\ table l' (es ++ [(n, v); (upper cont, [])]).
Proof.
  intros Hw Hne Hc Ht. cbv zeta. unfold parseHeaders, NameValueTokenizer_new. rewrite (proj2 (Z.ltb_ge _ _)) by lia. cbn [obind].
  set (text := print_header (n, v) ++ _). set (t0 := mkTokenizer _ _ _).
  assert (at_text t0 [] text) as Hat by (split_and!; [by exists post|done|done]).
  assert (exists fuel, length (text ++ post) = S (S fuel)) as (fuel & ->).
  { exists (length (text ++ post) - 2)%nat. assert (2 <= length (text ++ post))%nat; [|lia].
    unfold text. rewrite !length_app. simpl. lia. }
  destruct (print_header_line _ Hw) as [Hterm Hparse]. destruct Hw as (Hn & Hv & _). cbn [fst snd] in *.
  destruct (wf_name_facts n Hn) as (Hnf & _ & _ & Hback & _ & c & n' & Hcn & H1 & H2).
  destruct (parse_step (S (S fuel)) t0 [] None l es _ n v _ Hat Hterm Hparse) as (p1 & k1 & q1 & l1 & Hat1 & _ & Ht1 & ->);
    rewrite ?Hback; try done; [by rewrite Hcn|intros c0 n0 ->; by simplify_eq|by apply wf_text_nul_free|].
  rewrite Hback in Ht1. clear Hcn H1 H2 c n'.
  assert (nul_free cont /\ Forall (fun c => is_terminator c = false) cont /\ Forall (fun c => is_blank c = false) cont) as (Hcn & Hct & Hcb).
  { split_and!; (eapply Forall_impl; [exact Hc|]); intros x Hx; by apply name_char_facts. }
  assert (backTrim (toupper <$> cont) (bytes " " ++ ["009"%char]) = upper cont) as Hbc.
  { apply backTrim_visible, Forall_fmap. eapply Forall_impl; [exact Hc|]. intros x Hx. simpl.
    assert (toupper x = x \/ name_char (toupper x)) as [-> | Hu]; [|by apply name_char_facts..]. 
    destruct (decide (toupper x = x)); [auto|right]. revert Hx n0. unfold name_char. clear.
    destruct x as [[] [] [] [] [] [] [] []]; vm_compute; intuition discriminate. }
  destruct (parse_step (S fuel) p1 ([] ++ k1) (Some q1) l1 (es ++ [(n, v)]) (" "%char :: cont) cont [] (CRLF ++ body) Hat1)
    as (p2 & k2 & q2 & l2 & Hat2 & _ & Ht2 & ->); rewrite ?Hbc; try done.
  - constructor; [done|done].
  - unfold parse_line. rewrite before_none.
    + rewrite trim_space, trim_visible by done. rewrite drop_ge by (simpl; lia). done.
    + intros [Hx|Hx]%elem_of_cons; [discriminate Hx|]. rewrite Forall_forall in Hc. by destruct (Hc _ Hx).
  - intros c n' ->. inversion Hc as [|? ? Hx _]; subst. by apply name_char_facts in Hx as (_ & _ & _ & _ & ? & ?).
  - constructor.
  - by apply upper_nul_free.
  - rewrite Hbc in Ht2.
    destruct (parse_loop_headers [] (S fuel) p2 _ (Some q2) l2 _ body (Forall_nil_2 _) Ht2 Hat2) as (l3 & -> & Ht3); [simpl; lia|].
    eexists _, l3. split; [done|]. rewrite app_nil_r in Ht3. by rewrite <- app_assoc in Ht3.
Qed.

Lemma header_end_lines hs : forall fuel text pre body post next,
  Forall wf_header hs -> text = pre ++ print_headers hs ++ CRLF ++ body ++ post -> (length hs < fuel)%nat ->
  header_end_loop fuel text (Z.of_nat (length (pre ++ print_headers hs ++ CRLF ++ body))) (Z.of_nat (length pre)) next
  = Ok (Z.of_nat (length pre + length (print_headers hs)), 2).
Proof.
  induction hs as [|h hs IH]; intros fuel text pre body post next Hw Ht Hf;
    (destruct fuel as [|fuel]; [simpl in Hf; lia|]); cbn [header_end_loop].
  - rewrite (proj2 (Z.ltb_lt _ _)) by (rewrite !length_app; simpl; lia). unfold findNextLineTerminator.
    rewrite (find_terminator_spec (CRLF ++ body) _ text pre 0 [] post); cycle 1; try done;
      [rewrite !length_app; simpl; lia..|].
    change (CRLF ++ body) with ([] ++ CRLF ++ body). rewrite next_line_crlf by constructor. cbn [fst snd].
    rewrite bool_decide_false by done. cbn [obind fst snd]. rewrite (proj2 (Z.eqb_eq _ _)) by (simpl; lia).
    f_equal. f_equal; [simpl; lia|]. rewrite !length_app. simpl. lia.
  - inversion Hw as [|? ? Hh Hw']; subst. destruct (print_header_line h Hh) as [Hterm _].
    assert (print_headers (h :: hs) = print_header h ++ CRLF ++ print_headers hs) as E.
    { unfold print_headers. rewrite fmap_cons. cbn [concat]. by rewrite <- app_assoc. }
    rewrite E in *. set (text := pre ++ _ ++ _ ++ body ++ post).
    rewrite (proj2 (Z.ltb_lt _ _)) by (rewrite !length_app; simpl; lia). unfold findNextLineTerminator.
    rewrite (find_terminator_spec (print_header h ++ CRLF ++ print_headers hs ++ CRLF ++ body) _ text pre 0 [] post) by
      (first [unfold text; by simplify_list_eq | rewrite !length_app; simpl; lia]).
    rewrite next_line_crlf by done. cbn [fst snd].
    assert (0 < length (print_header h))%nat by (unfold print_header; rewrite length_app; simpl; lia).
    rewrite bool_decide_false by (intros X; apply (f_equal length) in X; rewrite !length_app in X; simpl in X; lia).
    cbn [obind fst snd]. rewrite (proj2 (Z.eqb_neq _ _)) by lia.
    rewrite (proj2 (Z.ltb_lt 0 _)) by (rewrite !length_app; simpl; lia).
    pose proof (IH fuel text (pre ++ print_header h ++ CRLF) body post
      (0 + Z.of_nat (length (print_header h ++ CRLF ++ print_headers hs ++ CRLF ++ body))
       - Z.of_nat (length (print_headers hs ++ CRLF ++ body))) Hw') as IH'.
    replace (Z.of_nat (length (pre ++ (print_header h ++ CRLF ++ print_headers hs) ++ CRLF ++ body)))
      with (Z.of_nat (length ((pre ++ print_header h ++ CRLF) ++ print_headers hs ++ CRLF ++ body)))
      by (f_equal; f_equal; by simplify_list_eq).
    match goal with |- header_end_loop _ _ _ ?bc _ = _ => replace bc with (Z.of_nat (length (pre ++ print_header h ++ CRLF)))
      by (rewrite !length_app; simpl; lia) end.
    rewrite IH'; [|unfold text; by simplify_list_eq|simpl in Hf; lia].
    f_equal. f_equal. rewrite !length_app. simpl. lia.
Qed.

(** Printing and parsing: the headers of a printed message are read back,
    in order and after those already in the table, and the parser and
    findHeaderEnd agree that the body starts right after the empty line. *)
Theorem parse_printed hs body post l es :
  Forall wf_header hs -> table l es ->
  let text := print_headers hs ++ CRLF ++ body in
  let bodyStart := Z.of_nat (length (print_headers hs) + 2) in
  (exists l', parseHeaders fill (text ++ post) (Z.of_nat (length text)) l = Ok (bodyStart, l') /\ table l' (es ++ hs))
  /\ findHeaderEnd (text ++ post) (Z.of_nat (length text)) = Ok bodyStart.
Proof.
  intros Hw Ht. cbv zeta.
  assert (length hs < length (print_headers hs ++ CRLF ++ body))%nat as Hlen.
  { rewrite length_app. simpl. assert (length hs <= length (print_headers hs))%nat; [|lia]. clear. unfold print_headers.
    induction hs as [|h hs IH]; [simpl; lia|]. rewrite fmap_cons. cbn [concat]. rewrite !length_app. simpl. lia. }
  split.
  - unfold parseHeaders, NameValueTokenizer_new. rewrite (proj2 (Z.ltb_ge _ _)) by lia. cbn [obind].
    eapply (parse_loop_headers hs _ _ [] None l es body Hw Ht).
    + split_and!; [exists post; by rewrite <- app_assoc|done|done].
    + rewrite length_app. lia.
  - unfold findHeaderEnd. rewrite Nat2Z.id.
    pose proof (header_end_lines hs (length (print_headers hs ++ CRLF ++ body))
      ((print_headers hs ++ CRLF ++ body) ++ post) [] body post 0 Hw) as E.
    change ([] ++ print_headers hs ++ CRLF ++ body) with (print_headers hs ++ CRLF ++ body) in E.
    change (Z.of_nat (length [])) with 0 in E. rewrite E; [|by simplify_list_eq|done]. cbn [obind length Nat.add].
    unfold ends_line. change (2 =? 1) with false. change (2 =? 2) with true. cbn iota.
    rewrite (char_of_app _ (print_headers hs) CARRIAGE_RETURN (NEWLINE :: body ++ post)) by (by simplify_list_eq).
    cbn [obind]. change (bool_decide (CARRIAGE_RETURN = NEWLINE) || bool_decide (CARRIAGE_RETURN = CARRIAGE_RETURN)) with true.
    cbn iota. rewrite (char_of_app _ (print_headers hs ++ [CARRIAGE_RETURN]) NEWLINE (body ++ post))
      by (first [by simplify_list_eq | rewrite length_app; simpl; lia]).
    cbn [obind]. change (bool_decide (NEWLINE = NEWLINE) || bool_decide (NEWLINE = CARRIAGE_RETURN)) with true.
    cbn iota. f_equal. lia.
Qed.
End Parse.

(** ** Subfields *)

(** The comma separated values of a header that are not empty. *)
Definition subs (v : list ascii) : list (list ascii) :=
  filter (fun f => f <> []) (fields SIP_MULTIFIELD_SEPARATOR [] v).

(** All of them in the headers of a name, up to the first empty header. *)
Fixpoint flat (vs : list (list ascii)) : list (list ascii) :=
  match vs with [] => [] | [] :: _ => [] | v :: vs' => subs v ++ flat vs' end.

Lemma fields_shape seps t : forall cur,
  exists e, fields seps cur t = filter (fun f => f <> []) (fields seps cur t) ++ e /\ (e = [] \/ e = [[]]).
Proof.
  induction t as [|c t IH]; intros cur; cbn [fields].
  - destruct cur as [|x cur]; [exists [[]]|exists []]; split; auto.
  - case_bool_decide; [|apply IH]. destruct cur as [|x cur]; [apply IH|].
    destruct (IH []) as (e & E & He). exists e. split; [|done]. rewrite filter_cons_True by done.
    simpl. by rewrite <- E.
Qed.

Lemma subs_nonempty v : Forall (fun f => f <> []) (subs v).
Proof. apply Forall_forall. intros f Hf. by apply list_elem_of_filter in Hf as [? _]. Qed.

Lemma length_subs v : (length (subs v) <= length v)%nat.
Proof.
  unfold subs. assert (forall t cur, (length (filter (fun f => f <> []) (fields SIP_MULTIFIELD_SEPARATOR cur t))
    <= length t + (if decide (cur = []) then 0 else 1))%nat) as H.
  { induction t as [|c t IH]; intros cur; cbn [fields].
    - destruct cur; simpl; lia.
    - case_bool_decide.
      + specialize (IH []). destruct cur as [|x cur]; simpl in *; lia.
      + specialize (IH (cur ++ [c])). assert (cur ++ [c] <> []) by (by destruct cur).
        destruct (decide (cur ++ [c] = [])); [done|]. destruct (decide (cur = [])); simpl; lia. }
  specialize (H v []). simpl in H. lia.
Qed.

Lemma getSubField_subs (validate : bool) v j url :
  nul_free v -> Z.of_nat (length v) <= 65536 -> validate = false \/ printable v ->
  exists b, getSubField (c_str v) (Z.of_nat j) (c_str SIP_MULTIFIELD_SEPARATOR) url validate
            = Ok (b, default [] (subs v !! j)).
Proof.
  intros Hv Hl Hp. unfold c_str. rewrite getSubField_spec; [|done|apply (bool_decide_unpack _); vm_compute; exact I|lia|done].
  rewrite (proj2 (Z.ltb_ge _ _)), Nat2Z.id by lia.
  destruct (fields_shape SIP_MULTIFIELD_SEPARATOR v []) as (e & E & He). fold (subs v) in E. rewrite E.
  destruct (lt_dec j (length (subs v))) as [Hj|Hj].
  - rewrite lookup_app_l by done. destruct (subs v !! j) eqn:Ej; eauto.
  - rewrite lookup_app_r, (lookup_ge_None_2 (subs v)) by lia.
    destruct He as [-> | ->]; [rewrite lookup_nil; eauto|].
    destruct (j - length (subs v))%nat as [|k]; [by exists true|by exists false].
Qed.

Lemma subfields_loop_spec (validate : bool) v A : validate = false \/ printable v -> forall rem fuel j url bk index,
  nul_free v -> Z.of_nat (length v) <= 65536 -> rem = drop j (subs v) -> url = default [] (rem !! 0%nat) ->
  0 <= index <= A -> (length rem <= fuel)%nat ->
  let m := Z.to_nat (A - index) in
  subfields_loop fuel v url bk (Z.of_nat j) index A validate
  = Ok (default [] (rem !! m), default bk (last (take m rem)), index + Z.of_nat (Nat.min m (length rem))).
Proof.
  intros Hp. induction rem as [|u rem IH]; intros fuel j url bk index Hv Hl Hrem Hurl Hi Hf m.
  - subst url. simpl default. destruct fuel; cbn [subfields_loop]; rewrite bool_decide_true by done; cbn [negb andb];
      by rewrite take_nil, Nat.min_0_r, Z.add_0_r.
  - simpl in Hurl. subst url. assert (u <> []) as Hu.
    { pose proof (subs_nonempty v) as Hs. rewrite Forall_forall in Hs. apply Hs.
      rewrite <- (take_drop j (subs v)), <- Hrem. set_solver. }
    destruct fuel as [|fuel]; [simpl in Hf; lia|]. cbn [subfields_loop]. rewrite bool_decide_false by done. cbn [negb andb].
    destruct (Z.ltb_spec index A).
    + destruct (getSubField_subs validate v (S j) u Hv Hl Hp) as (b & Eb).
      replace (Z.of_nat j + 1) with (Z.of_nat (S j)) by lia. rewrite Eb. cbn [obind snd].
      assert (rem = drop (S j) (subs v)) as Hrem'.
      { replace (S j) with (j + 1)%nat by lia. by rewrite <- drop_drop, <- Hrem. }
      rewrite IH; [|done|done|done|by rewrite Hrem', lookup_drop, Nat.add_0_r|lia|simpl in Hf; lia].
      assert (m = S (Z.to_nat (A - (index + 1)))) as -> by lia. cbn [take]. f_equal. f_equal; [f_equal|].
      * destruct (take _ rem) as [|x l]; [done|]. rewrite last_cons_cons.
        destruct (last (x :: l)) eqn:El; [done|]. by apply last_None in El.
      * cbn [length]. lia.
    + assert (m = 0%nat) as -> by lia. cbn [take]. f_equal. f_equal. simpl. lia.
Qed.

Section Subfields.
Context (l : list NameValuePair) (es : list header) (Ht : table l es) (name : list ascii) (Hn : nul_free name).

Lemma value_nul_free n k v : values_of n es !! k = Some v -> nul_free v.
Proof.
  intros Hv%list_elem_of_lookup_2. apply list_elem_of_fmap in Hv as (e & -> & He).
  apply list_elem_of_filter in He as [_ He]. destruct Ht as [Hf _].
  apply list_elem_of_lookup_1 in He as (i & Hi). eapply Forall2_lookup_r in Hf as (nv & _ & [_ [Hv _]]); done.
Qed.

Lemma field_values_spec (validate : bool) A rv : forall fuel k index bk,
  rv = drop k (values_of (upper name) es) ->
  Forall (fun v => Z.of_nat (length v) <= 65536 /\ (validate = false \/ printable v)) rv ->
  0 <= index <= A -> (length rv < fuel)%nat ->
  let m := Z.to_nat (A - index) in
  field_values_loop fuel l name (Z.of_nat k) index A [] bk validate
  = Ok (flat rv !! m, default bk (last (take m (flat rv)))).
Proof.
  induction rv as [|v rv IH]; intros fuel k index bk Hrv Hlen Hi Hf m.
  - destruct fuel as [|fuel]; [simpl in Hf; lia|]. cbn [field_values_loop]. rewrite (getHeaderValue_nth l es name k Ht Hn).
    assert (values_of (upper name) es !! k = None) as ->.
    { apply lookup_ge_None_2. apply (f_equal length) in Hrv. rewrite length_drop in Hrv. simpl in Hrv. lia. }
    cbn [obind flat]. by rewrite take_nil.
  - destruct fuel as [|fuel]; [simpl in Hf; lia|]. cbn [field_values_loop]. rewrite (getHeaderValue_nth l es name k Ht Hn).
    assert (values_of (upper name) es !! k = Some v) as Hk.
    { rewrite <- (Nat.add_0_r k), <- lookup_drop, <- Hrv. done. }
    assert (rv = drop (S k) (values_of (upper name) es)) as Hrv'.
    { replace (S k) with (k + 1)%nat by lia. by rewrite <- drop_drop, <- Hrv. }
    pose proof (value_nul_free _ _ _ Hk) as Hnv. rewrite Hk. cbn [obind]. inversion Hlen as [|? ? [Hlv Hpv] Hlen']; subst x l0.
    destruct v as [|c v]; [cbn [flat]; by rewrite take_nil|]. cbn [flat].
    rewrite (proj2 (Z.leb_le _ _)) by lia. destruct (getSubField_subs validate (c :: v) 0 [] Hnv Hlv Hpv) as (b & Eb).
    change (Z.of_nat 0) with 0 in Eb. rewrite Eb. cbn [obind snd]. set (w := c :: v) in *.
    pose proof (length_subs w) as Hsl.
    rewrite (subfields_loop_spec validate w A Hpv (subs w) (S (length w)) 0 _ bk index Hnv Hlv) by (try done; lia). cbn [obind]. fold m.
    destruct (lt_dec m (length (subs w))) as [Hm|Hm].
    + rewrite Nat.min_l by lia. rewrite (proj2 (Z.eqb_eq _ _)) by lia.
      rewrite lookup_app_l, take_app_le by lia. destruct (subs w !! m) as [u|] eqn:Eu;
        [|apply lookup_ge_None in Eu; lia]. simpl default.
      assert (u <> []) by (pose proof (subs_nonempty w) as Hs; by apply (Forall_lookup_1 _ _ _ _ Hs Eu)).
      by rewrite bool_decide_false.
    + rewrite Nat.min_r by lia. rewrite (lookup_ge_None_2 (subs w)) by lia. simpl default.
      rewrite (bool_decide_true (([] : list ascii) = [])), andb_false_r by done.
      rewrite (proj2 (Z.ltb_ge _ _)) by lia. replace (Z.of_nat k + 1) with (Z.of_nat (S k)) by lia.
      rewrite IH by (try done; simpl in Hf; lia).
      assert (Z.to_nat (A - (index + Z.of_nat (length (subs w)))) = m - length (subs w))%nat as -> by lia.
      rewrite lookup_app_r, take_app_ge, last_app by lia. f_equal. f_equal.
      rewrite (take_ge (subs w)) by lia. by destruct (last (take _ (flat rv))).
Qed.
End Subfields.

Lemma flat_nonempty vs : Forall (fun f => f <> []) (flat vs).
Proof.
  induction vs as [|[|c v] vs IH]; cbn [flat]; [constructor|constructor|].
  apply Forall_app. split; [apply subs_nonempty|done].
Qed.

Lemma length_values_of l es n : table l es -> (length (values_of n es) <= length l)%nat.
Proof.
  intros [Hf _]. rewrite (Forall2_length _ _ _ Hf). unfold values_of. rewrite length_fmap. apply length_filter.
Qed.

(** The loop over the headers, for any index. *)
Lemma field_values_valid (validate : bool) l es name A :
  table l es -> nul_free name -> 0 <= A ->
  Forall (fun v => Z.of_nat (length v) <= 65536 /\ (validate = false \/ printable v)) (values_of (upper name) es) ->
  let f := flat (values_of (upper name) es) in
  field_values_loop (S (length l)) l name 0 0 A [] [] validate
  = Ok (f !! Z.to_nat A, default [] (last (take (Z.to_nat A) f))).
Proof.
  intros Ht Hn HA Hl. pose proof (length_values_of l es (upper name) Ht). cbv zeta.
  pose proof (field_values_spec l es Ht name Hn validate A (values_of (upper name) es) (S (length l)) 0 0 []) as E.
  cbv zeta in E. rewrite Z.sub_0_r in E. apply E; [done|done|lia|lia].
Qed.

Lemma field_values_all l es name A :
  table l es -> nul_free name -> 0 <= A -> Forall (fun v => Z.of_nat (length v) <= 65536) (values_of (upper name) es) ->
  let f := flat (values_of (upper name) es) in
  field_values_loop (S (length l)) l name 0 0 A [] [] false
  = Ok (f !! Z.to_nat A, default [] (last (take (Z.to_nat A) f))).
Proof.
  intros Ht Hn HA Hl. apply field_values_valid; [done..|]. eapply Forall_impl; [exact Hl|].
  intros v Hv. split; [exact Hv|by left].
Qed.

Lemma getFieldSubfield_valid (validate : bool) l es name A :
  table l es -> nul_free name -> 0 <= A ->
  Forall (fun v => Z.of_nat (length v) <= 65536 /\ (validate = false \/ printable v)) (values_of (upper name) es) ->
  Z.of_nat (length (flat (values_of (upper name) es))) <= INT_MAX ->
  getFieldSubfield l name A validate
  = Ok (match (if A =? BOTTOM_SUBFIELD then last (flat (values_of (upper name) es))
               else flat (values_of (upper name) es) !! Z.to_nat A) with
        | Some u => (true, u) | None => (false, []) end).
Proof.
  intros Ht Hn HA Hl Hmax. unfold getFieldSubfield. rewrite (field_values_valid validate l es name A) by done.
  cbn [obind]. set (f := flat _) in *. destruct (Z.eqb_spec A BOTTOM_SUBFIELD) as [->|Hne]; cbn [andb].
  - rewrite lookup_ge_None_2, take_ge by (unfold BOTTOM_SUBFIELD; lia). destruct (last f) as [u|] eqn:E; [|done].
    simpl default. assert (u <> []) as Hu.
    { pose proof (flat_nonempty (values_of (upper name) es)) as Hs. rewrite Forall_forall in Hs.
      apply Hs. by apply last_Some_elem_of. }
    by rewrite bool_decide_false.
  - by destruct (f !! Z.to_nat A).
Qed.

(** The subfields of all headers of a name form one sequence, in the order
    of the headers and of the commas in them (up to a header with an empty
    value): getFieldSubfield returns its element, and the last one for
    BOTTOM_SUBFIELD. *)
Theorem getFieldSubfield_flat l es name A :
  table l es -> nul_free name -> 0 <= A -> Forall (fun v => Z.of_nat (length v) <= 65536) (values_of (upper name) es) ->
  Z.of_nat (length (flat (values_of (upper name) es))) <= INT_MAX ->
  getFieldSubfield l name A false
  = Ok (match (if A =? BOTTOM_SUBFIELD then last (flat (values_of (upper name) es))
               else flat (values_of (upper name) es) !! Z.to_nat A) with
        | Some u => (true, u) | None => (false, []) end).
Proof.
  intros Ht Hn HA Hl Hmax. apply getFieldSubfield_valid; [done..| |done].
  eapply Forall_impl; [exact Hl|]. intros v Hv. split; [exact Hv|by left].
Qed.

(** getRecordRouteUri counts routes, setRecordRouteField counts headers: with
    two routes in one header, setting the second one adds a header and leaves
    the old route in its place. *)
Theorem record_route_index_mismatch fill l es v x u :
  table l es -> values_of SIP_RECORD_ROUTE_FIELD es = [v] -> v <> [] -> Z.of_nat (length v) <= 65536 ->
  Z.of_nat (length x) <= 65536 -> nul_free x -> subs v !! 1%nat = Some u ->
  let route := frontBackTrim u (bytes " " ++ ["009"%char]) in
  let found := negb (bool_decide (route = [])) in
  getRecordRouteUri l 1 = Ok (found, route)
  /\ exists l' es', setRecordRouteField fill l x 1 = Ok l' /\ table l' es'
       /\ values_of SIP_RECORD_ROUTE_FIELD es' = [v; x] /\ getRecordRouteUri l' 1 = Ok (found, route).
Proof.
  intros Ht Hv Hne Hlv Hlx Hx Hu. cbv zeta.
  assert (nul_free SIP_RECORD_ROUTE_FIELD) as Hn by (apply (bool_decide_unpack _); vm_compute; exact I).
  assert (upper SIP_RECORD_ROUTE_FIELD = SIP_RECORD_ROUTE_FIELD) as Hup by reflexivity.
  assert (forall l0 es0 vs, table l0 es0 -> values_of SIP_RECORD_ROUTE_FIELD es0 = v :: vs ->
    Forall (fun w => Z.of_nat (length w) <= 65536) vs ->
    getRecordRouteUri l0 1 = Ok (negb (bool_decide (frontBackTrim u (bytes " " ++ ["009"%char]) = [])),
                                 frontBackTrim u (bytes " " ++ ["009"%char]))) as Hget.
  { intros l0 es0 vs Ht0 Hv0 Hvs. unfold getRecordRouteUri, getFieldSubfield.
    rewrite (field_values_all l0 es0 SIP_RECORD_ROUTE_FIELD 1 Ht0 Hn ltac:(lia)) by (rewrite Hup, Hv0; by constructor).
    rewrite Hup, Hv0. destruct v as [|c v]; [done|]. cbn [flat]. change (Z.to_nat 1) with 1%nat.
    rewrite lookup_app_l by (by eapply lookup_lt_Some). rewrite Hu. done. }
  split; [by apply (Hget l es [])|]. unfold setRecordRouteField, setHeaderValue.
  destruct (getHeaderField_spec l es SIP_RECORD_ROUTE_FIELD 1 Ht Hn) as [[_ E]|(es1 & w & es2 & nv & -> & _ & Hl & _)].
  - change (Z.of_nat 1) with 1 in E. rewrite E.
    destruct (addHeaderField_spec fill l es SIP_RECORD_ROUTE_FIELD x Ht Hn Hx) as (l' & -> & Ht'). rewrite Hup in Ht'.
    exists l', (es ++ [(SIP_RECORD_ROUTE_FIELD, x)]).
    assert (values_of SIP_RECORD_ROUTE_FIELD (es ++ [(SIP_RECORD_ROUTE_FIELD, x)]) = [v; x]) as Hv'
      by (by rewrite values_of_app, Hv, values_of_cons_eq).
    split_and!; try done. apply (Hget l' _ [x] Ht' Hv'). by apply Forall_singleton.
  - rewrite Hup, values_of_app, values_of_cons_eq in *. apply (f_equal length) in Hv. rewrite length_app, Hl in Hv. simpl in Hv. lia.
Qed.

(** ** Witnesses *)

#[local] Definition no_fill : nat -> ascii := fun _ => "?"%char.
#[local] Definition sample_headers : list header :=
  [(bytes "VIA", bytes "SIP/2.0/UDP 10.0.0.1"); (bytes "RECORD-ROUTE", bytes "<sip:a;lr>, <sip:b;lr>");
   (bytes "VIA", bytes "SIP/2.0/TCP 10.0.0.2")].
#[local] Definition sample_table : list NameValuePair :=
  pair_of <$> sample_headers.

Lemma sample_table_holds : table sample_table sample_headers.
Proof.
  split; [apply pairs_of|];
    repeat (apply Forall_cons_2; [apply (bool_decide_unpack _); vm_compute; exact I|]); apply Forall_nil_2.
Qed.

Lemma header_table_spec_witness :
  getHeaderValue sample_table 1 (Some (bytes "Via")) = Ok (Some (bytes "SIP/2.0/TCP 10.0.0.2"))
  /\ exists l' es', setHeaderValue no_fill sample_table (bytes "Via") (bytes "x") 1 = Ok l' /\ table l' es'
       /\ values_of (bytes "VIA") es' = [bytes "SIP/2.0/UDP 10.0.0.1"; bytes "x"].
Proof.
  destruct (header_table_spec no_fill sample_table sample_headers (bytes "Via") 1 (bytes "x")) as (G & (l' & es' & S & T & V & _) & _).
  - apply sample_table_holds.
  - apply (bool_decide_unpack _). vm_compute. exact I.
  - apply (bool_decide_unpack _). vm_compute. exact I.
  - split; [exact G|]. exists l', es'. split; [exact S|]. split; [exact T|exact V].
Defined.

Lemma wf_header_by_computation h :
  bool_decide (fst h <> []) && forallb (fun c => (33 <=? uchar c) && (uchar c <=? 126) && negb (bool_decide (c = HTTP_NAME_VALUE_DELIMITER))) (fst h)
  && bool_decide (upper (fst h) = fst h) && forallb (fun c => negb (is_terminator c) && negb (bool_decide (c = NUL))) (snd h)
  && bool_decide (trim (snd h) = snd h) = true -> wf_header h.
Proof.
  intros [[[[H1%bool_decide_eq_true H2]%andb_true_iff H3%bool_decide_eq_true]%andb_true_iff H4]%andb_true_iff
    H5%bool_decide_eq_true]%andb_true_iff. rewrite forallb_forall in H2, H4.
  split; [split_and!; try done|split; [|done]]; apply Forall_forall; intros c Hc%list_elem_of_In.
  - apply H2 in Hc. apply andb_true_iff in Hc as [[A%Z.leb_le B%Z.leb_le]%andb_true_iff C%negb_true_iff].
    split; [lia|]. by apply bool_decide_eq_false in C.
  - apply H4 in Hc. apply andb_true_iff in Hc as [A%negb_true_iff B%negb_true_iff]. by apply bool_decide_eq_false in B.
Qed.

Lemma sample_headers_wf : Forall wf_header sample_headers.
Proof. repeat (apply Forall_cons_2; [apply wf_header_by_computation; vm_compute; reflexivity|]). apply Forall_nil_2. Qed.

Lemma table_nil : table [] [].
Proof. split; constructor. Qed.

Lemma parse_printed_witness :
  exists l', parseHeaders no_fill ((print_headers sample_headers ++ CRLF ++ bytes "body") ++ [NUL]) 98 [] = Ok (94, l')
    /\ table l' sample_headers
    /\ findHeaderEnd ((print_headers sample_headers ++ CRLF ++ bytes "body") ++ [NUL]) 98 = Ok 94.
Proof.
  destruct (parse_printed no_fill sample_headers (bytes "body") [NUL] [] [] sample_headers_wf table_nil) as [(l' & E & T) F].
  exists l'. split; [exact E|]. split; [exact T|exact F].
Defined.

Lemma folded_line_becomes_header_witness :
  exists pos l', parseHeaders no_fill (bytes "TO: <sip:a@b>" ++ CRLF ++ bytes " ;tag=1" ++ CRLF ++ CRLF ++ [NUL]) 26 [] = Ok (pos, l')
    /\ table l' [(bytes "TO", bytes "<sip:a@b>"); (bytes ";TAG=1", [])].
Proof.
  apply (folded_line_becomes_header no_fill (bytes "TO") (bytes "<sip:a@b>") (bytes ";tag=1") [] [NUL] [] []).
  - apply wf_header_by_computation. vm_compute. reflexivity.
  - discriminate.
  - repeat (apply Forall_cons_2; [split; [vm_compute; split; discriminate|discriminate]|]). apply Forall_nil_2.
  - apply table_nil.
Defined.

Lemma getFieldSubfield_flat_witness :
  getFieldSubfield sample_table (bytes "record-route") 1 false = Ok (true, bytes " <sip:b;lr>")
  /\ getFieldSubfield sample_table (bytes "record-route") BOTTOM_SUBFIELD false = Ok (true, bytes " <sip:b;lr>").
Proof.
  assert (nul_free (bytes "record-route")) as Hn by (apply (bool_decide_unpack _); vm_compute; exact I).
  split.
  - rewrite (getFieldSubfield_flat sample_table sample_headers (bytes "record-route") 1 sample_table_holds Hn);
      [vm_compute; reflexivity|lia|apply (bool_decide_unpack _); vm_compute; exact I|vm_compute; discriminate].
  - rewrite (getFieldSubfield_flat sample_table sample_headers (bytes "record-route") BOTTOM_SUBFIELD sample_table_holds Hn);
      [vm_compute; reflexivity|vm_compute; discriminate|apply (bool_decide_unpack _); vm_compute; exact I|vm_compute; discriminate].
Defined.

Lemma record_route_index_mismatch_witness :
  getRecordRouteUri sample_table 1 = Ok (true, bytes "<sip:b;lr>")
  /\ exists l', setRecordRouteField no_fill sample_table (bytes "<sip:new>") 1 = Ok l'
       /\ getRecordRouteUri l' 1 = Ok (true, bytes "<sip:b;lr>").
Proof.
  destruct (record_route_index_mismatch no_fill sample_table sample_headers (bytes "<sip:a;lr>, <sip:b;lr>") (bytes "<sip:new>")
    (bytes " <sip:b;lr>")) as (G & l' & es' & S & _ & _ & G').
  - apply sample_table_holds.
  - vm_compute. reflexivity.
  - discriminate.
  - vm_compute. discriminate.
  - vm_compute. discriminate.
  - apply (bool_decide_unpack _). vm_compute. exact I.
  - vm_compute. reflexivity.
  - split; [exact G|]. exists l'. split; [exact S|exact G'].
Defined.
