(* ===== verification/Format.v ===== *)
(** * Number conversions of the C library

    The integer conversions of [printf] that the sources use ([%d], [%.Nd],
    [%0Nd]), the character classes, and [atoi] and [strtol] that read numbers
    back. *)
From Stdlib Require Import ZArith Lia Ascii.
From stdpp Require Import base list.
From S2P Require Import Prelude.
Local Open Scope Z_scope.

(** ** Character classes of the C locale *)
Definition in_range (lo hi : Z) (c : ascii) : bool := (lo <=? uchar c) && (uchar c <=? hi).
Definition isdigit : ascii -> bool := in_range 48 57.
Definition isupper : ascii -> bool := in_range 65 90.
Definition islower : ascii -> bool := in_range 97 122.
Definition isalpha (c : ascii) : bool := isupper c || islower c.
Definition isalnum (c : ascii) : bool := isalpha c || isdigit c.
Definition isxdigit (c : ascii) : bool := isdigit c || in_range 65 70 c || in_range 97 102 c.
Definition isspace (c : ascii) : bool := in_range 9 13 c || (uchar c =? 32).

(** A property of every byte, by evaluation. *)
Ltac all_bytes c := destruct c as [[] [] [] [] [] [] [] []]; vm_compute.

Lemma isdigit_uchar c : isdigit c = true <-> 48 <= uchar c <= 57.
Proof. unfold isdigit, in_range. rewrite andb_true_iff, !Z.leb_le. done. Qed.

(** ** Printing *)
Definition digit (d : Z) : ascii := chr (48 + d).
Definition digit_value (c : ascii) : Z := schar c - 48.

Lemma digit_spec d : 0 <= d < 10 -> isdigit (digit d) = true /\ digit_value (digit d) = d.
Proof.
  intros Hd. unfold digit. rewrite isdigit_uchar. unfold digit_value, schar.
  rewrite uchar_chr by lia. destruct (Z.ltb_spec (48 + d) 128); lia.
Qed.

(** The digits of a non-negative number; twenty are enough for 64 bits. *)
Fixpoint dec_digits (fuel : nat) (n : Z) : list ascii :=
  match fuel with
  | O => []
  | S f => (if n <? 10 then [] else dec_digits f (n / 10)) ++ [digit (n mod 10)]
  end.

Definition fmt_unsigned (n : Z) : list ascii := dec_digits 20 n.

(** [%d] *)
Definition fmt_d (n : Z) : list ascii :=
  if n <? 0 then "-"%char :: fmt_unsigned (- n) else fmt_unsigned n.

(** [%.Nd] (and [%0Nd]) of a non-negative number *)
Definition fmt_0d (w : nat) (n : Z) : list ascii :=
  repeat "0"%char (w - length (fmt_unsigned n)) ++ fmt_unsigned n.

(** ** Reading *)
Definition digits_value (l : list ascii) : Z :=
  fold_left (fun acc c => 10 * acc + digit_value c) l 0.

Fixpoint span (p : ascii -> bool) (l : list ascii) : list ascii * list ascii :=
  match l with
  | [] => ([], [])
  | c :: l' => if p c then (let '(a, b) := span p l' in (c :: a, b)) else ([], l)
  end.

(** [atoi]: white space, a sign and digits; a value that does not fit an
    [int] is undefined behaviour. *)
Definition atoi (s : list ascii) : outcome Z :=
  let s1 := snd (span isspace (cstr s)) in
  match s1 with
  | c :: s2 =>
      if decide (c = "-"%char) then int_arith (- digits_value (fst (span isdigit s2)))
      else if decide (c = "+"%char) then int_arith (digits_value (fst (span isdigit s2)))
      else int_arith (digits_value (fst (span isdigit s1)))
  | [] => Ok 0
  end.

(** ** [strtol] *)

Definition LONG_MIN : Z := - 2 ^ 63.
Definition LONG_MAX : Z := 2 ^ 63 - 1.

(** The value of a character as a digit; 36 is no digit of any base. *)
Definition digit_of (c : ascii) : Z :=
  if isdigit c then uchar c - 48 else if islower c then uchar c - 87 else if isupper c then uchar c - 55 else 36.

Definition is_digit_of (base : Z) (c : ascii) : bool := digit_of c <? base.

Definition number_of (base : Z) (ds : list ascii) : Z := foldl (fun n c => base * n + digit_of c) 0 ds.

Definition skip_0x (base : Z) (s : list ascii) : list ascii :=
  match s with
  | z :: x :: d :: _ =>
      if (base =? 16) && bool_decide (z = "0"%char) && bool_decide (x = "x"%char \/ x = "X"%char)
         && is_digit_of 16 d then drop 2 s else s
  | _ => s
  end.

(** [strtol(s, &end, base)]: the value, whether it was out of range, and the
    text at [end].  Base 16 allows a prefix 0x before a digit. *)
Definition strtol (s : list ascii) (base : Z) : Z * bool * list ascii :=
  let s := cstr s in
  let s1 := snd (span isspace s) in
  let '(neg, s2) := match s1 with
                    | c :: s2 => if decide (c = "-"%char) then (true, s2)
                                 else if decide (c = "+"%char) then (false, s2) else (false, s1)
                    | [] => (false, s1)
                    end in
  let s3 := skip_0x base s2 in
  let '(ds, rest) := span (is_digit_of base) s3 in
  match ds with
  | [] => (0, false, s)
  | _ =>
      let v := (if neg : bool then -1 else 1) * number_of base ds in
      if v <? LONG_MIN then (LONG_MIN, true, rest)
      else if LONG_MAX <? v then (LONG_MAX, true, rest) else (v, false, rest)
  end.

Definition all_digits (l : list ascii) : Prop := Forall (fun c => isdigit c = true) l.

Lemma fmt_span_app p a b :
  Forall (fun c => p c = true) a -> match b with [] => True | c :: _ => p c = false end ->
  span p (a ++ b) = (a, b).
Proof.
  intros Ha Hb. induction Ha as [|c a Hc Ha IH]; simpl.
  - destruct b as [|c b]; simpl; [done|]. by rewrite Hb.
  - by rewrite Hc, IH.
Qed.

Lemma span_split p l a b :
  span p l = (a, b) ->
  l = a ++ b /\ Forall (fun c => p c = true) a /\ match b with [] => True | c :: _ => p c = false end.
Proof.
  revert a b. induction l as [|c l IH]; simpl; intros a b H; [by injection H as <- <-|].
  destruct (p c) eqn:Hc; [|by injection H as <- <-].
  destruct (span p l) as [a' b'] eqn:E. injection H as <- <-.
  destruct (IH a' b' eq_refl) as (-> & Ha & Hb). auto.
Qed.

Lemma digits_value_app a c : digits_value (a ++ [c]) = 10 * digits_value a + digit_value c.
Proof. unfold digits_value. by rewrite fold_left_app. Qed.

Lemma digits_value_bound l : all_digits l -> 0 <= digits_value l < 10 ^ Z.of_nat (length l).
Proof.
  induction l as [|c l IH] using rev_ind; intros Hl; [cbn; lia|].
  apply Forall_app in Hl as [Hl Hc]. apply Forall_inv, isdigit_uchar in Hc.
  rewrite digits_value_app, length_app. cbn [length].
  rewrite Nat2Z.inj_add, Z.pow_add_r by lia. specialize (IH Hl).
  change (10 ^ Z.of_nat 1) with 10.
  unfold digit_value, schar. destruct (Z.ltb_spec (uchar c) 128); lia.
Qed.

Lemma dec_digits_spec fuel n :
  (0 < fuel)%nat -> 0 <= n < 10 ^ Z.of_nat fuel ->
  all_digits (dec_digits fuel n) /\ digits_value (dec_digits fuel n) = n /\
  (0 < length (dec_digits fuel n))%nat.
Proof.
  revert n. induction fuel as [|f IH]; intros n Hf Hn; [lia|]. cbn [dec_digits].
  pose proof (Z.mod_pos_bound n 10 ltac:(lia)) as Hm.
  destruct (digit_spec _ Hm) as [Hd Hv].
  rewrite digits_value_app, length_app, Hv. cbn [length].
  unfold all_digits. rewrite Forall_app, Forall_singleton.
  destruct (Z.ltb_spec n 10) as [Hs|Hs].
  - rewrite Z.mod_small in * by lia. change (digits_value []) with 0. cbn [length]. split_and!; try done; lia.
  - destruct f as [|f].
    { change (10 ^ Z.of_nat 1) with 10 in Hn. lia. }
    destruct (IH (n / 10)) as (Ha & Hb & _); [lia| |].
    { rewrite Nat2Z.inj_succ, Z.pow_succ_r in Hn by lia.
      split; [apply Z.div_pos; lia|apply Z.div_lt_upper_bound; lia]. }
    split_and!; [done|done| |lia]. rewrite Hb. pose proof (Z.div_mod n 10). lia.
Qed.

Lemma dec_digits_length fuel n k :
  0 <= n < 10 ^ Z.of_nat k -> (0 < k)%nat -> (length (dec_digits fuel n) <= k)%nat.
Proof.
  revert n k. induction fuel as [|f IH]; intros n k Hn Hk; simpl; [lia|].
  rewrite length_app. simpl. destruct (Z.ltb_spec n 10); simpl; [lia|].
  destruct k as [|[|k]]; [lia| change (10 ^ Z.of_nat 1) with 10 in Hn; lia |].
  enough (length (dec_digits f (n / 10)) <= S k)%nat by lia.
  apply IH; [|lia].
  rewrite Nat2Z.inj_succ, Z.pow_succ_r in Hn by lia.
  split; [apply Z.div_pos; lia|apply Z.div_lt_upper_bound; lia].
Qed.

Lemma fmt_unsigned_spec n :
  0 <= n < 10 ^ 20 ->
  all_digits (fmt_unsigned n) /\ digits_value (fmt_unsigned n) = n /\
  (0 < length (fmt_unsigned n))%nat.
Proof. intros. apply dec_digits_spec; [lia|]. change (Z.of_nat 20) with 20. done. Qed.

Lemma fmt_unsigned_length n k :
  0 <= n < 10 ^ Z.of_nat k -> (0 < k)%nat -> (length (fmt_unsigned n) <= k)%nat.
Proof. apply dec_digits_length. Qed.

Lemma digits_value_zeros k l : digits_value (repeat "0"%char k ++ l) = digits_value l.
Proof.
  unfold digits_value. rewrite fold_left_app. f_equal. induction k as [|k IH]; simpl; [done|].
  change (digit_value "0"%char) with 0. exact IH.
Qed.

(** A zero-padded number that fits its width has exactly that width. *)
Lemma fmt_0d_spec w n :
  (0 < w)%nat -> (w <= 20)%nat -> 0 <= n < 10 ^ Z.of_nat w ->
  length (fmt_0d w n) = w /\ all_digits (fmt_0d w n) /\ digits_value (fmt_0d w n) = n.
Proof.
  intros Hw Hw' Hn.
  assert (0 <= n < 10 ^ 20) as Hn'.
  { split; [lia|]. eapply Z.lt_le_trans; [apply Hn|]. apply Z.pow_le_mono_r; lia. }
  destruct (fmt_unsigned_spec n Hn') as (Ha & Hv & Hl).
  pose proof (fmt_unsigned_length n w Hn Hw). unfold fmt_0d.
  rewrite length_app, repeat_length, digits_value_zeros, Hv. split_and!; [lia| |done].
  apply Forall_app. split; [|done]. clear. induction (w - _)%nat; simpl; by constructor.
Qed.

Lemma isspace_digit c : isdigit c = true -> isspace c = false.
Proof. all_bytes c; congruence. Qed.

Lemma isdigit_not_nul c : isdigit c = true -> c <> NUL.
Proof. all_bytes c; congruence. Qed.

(** [atoi] reads back digits that are followed by another character. *)
Lemma atoi_digits l r :
  all_digits l -> l <> [] -> digits_value l <= INT_MAX ->
  match r with [] => True | c :: _ => isdigit c = false end ->
  atoi (l ++ r) = Ok (digits_value l).
Proof.
  intros Hl Hne Hv Hr. destruct l as [|d l]; [done|]. unfold atoi.
  assert (nul_free (d :: l)) as Hnf by (eapply Forall_impl; [exact Hl|]; apply isdigit_not_nul).
  assert (cstr ((d :: l) ++ r) = (d :: l) ++ cstr r) as ->.
  { clear -Hnf. induction Hnf as [|c l0 Hc Hn IH]; simpl; [done|].
    rewrite decide_False by done. by rewrite IH. }
  pose proof (Forall_inv Hl) as Hd. cbn beta in Hd.
  assert (span isspace ((d :: l) ++ cstr r) = ([], (d :: l) ++ cstr r)) as ->
    by (simpl; by rewrite (isspace_digit d Hd)).
  cbn [snd app]. rewrite !decide_False by (intros ->; vm_compute in Hd; done).
  change (d :: l ++ cstr r) with ((d :: l) ++ cstr r).
  rewrite (fmt_span_app isdigit (d :: l)); [|done|].
  - cbn [fst]. apply int_arith_ok. pose proof (digits_value_bound _ Hl).
    unfold INT_MIN. lia.
  - destruct r as [|c r]; simpl; [done|]. by case_decide.
Qed.
