(* ===== verification/OsTime.v ===== *)
(** * OsTime: time intervals

    Model of [sipXportLib/src/os/OsTime.cpp] and [include/os/OsTime.h]: a
    pair of [int] fields, the constructors that normalise them, the
    arithmetic and comparison operators and the conversion to milliseconds.
    Signed overflow is undefined behaviour ([int_arith]); the conversion of a
    [long] to an [int] field wraps ([to_int]).  The second half proves that
    the operators compute exactly with the represented number of
    microseconds as long as the seconds fit an [int]. *)
From Stdlib Require Import ZArith Lia.
From stdpp Require Import base list.
From S2P Require Import Prelude.
Local Open Scope Z_scope.

Definition MSECS_PER_SEC : Z := 1000.
Definition USECS_PER_MSEC : Z := 1000.
Definition USECS_PER_SEC : Z := 1000000.

Record OsTime := mkOsTime { mSeconds : Z; mUsecs : Z }.

#[global] Instance OsTime_eq_dec : EqDecision OsTime.
Proof. solve_decision. Defined.

Definition OsTime_default : OsTime := mkOsTime 0 0.

(** [OsTime(const long msecs)]: C division truncates towards zero. *)
Definition OsTime_msecs (msecs : Z) : outcome OsTime :=
  let secs := to_int (Z.quot msecs MSECS_PER_SEC) in
  let us := Z.rem msecs MSECS_PER_SEC * USECS_PER_MSEC in
  if us <? 0 then
    let! secs' := int_arith (secs - 1) in
    Ok (mkOsTime secs' (us + USECS_PER_SEC))
  else Ok (mkOsTime secs us).

(** [OsTime(const long seconds, const long usecs)] *)
Definition OsTime_sec_usec (seconds usecs : Z) : outcome OsTime :=
  let secs := to_int seconds in
  if (usecs <? 0) || (USECS_PER_SEC <=? usecs) then
    let secs1 := to_int (secs + Z.quot usecs USECS_PER_SEC) in
    let us := Z.rem usecs USECS_PER_SEC in
    if usecs <? 0 then
      let! secs2 := int_arith (secs1 - 1) in
      Ok (mkOsTime secs2 (us + USECS_PER_SEC))
    else Ok (mkOsTime secs1 us)
  else Ok (mkOsTime secs usecs).

(** [operator+] and [operator-]: the fields are [int], so their sum and
    difference can overflow before the constructor normalises them. *)
Definition time_add (a b : OsTime) : outcome OsTime :=
  let! s := int_arith (mSeconds a + mSeconds b) in
  let! u := int_arith (mUsecs a + mUsecs b) in
  let! sum := OsTime_sec_usec s u in
  if USECS_PER_SEC <=? mUsecs sum then
    let! s' := int_arith (mSeconds sum + 1) in
    Ok (mkOsTime s' (mUsecs sum - USECS_PER_SEC))
  else Ok sum.

Definition time_sub (a b : OsTime) : outcome OsTime :=
  let! s := int_arith (mSeconds a - mSeconds b) in
  let! u := int_arith (mUsecs a - mUsecs b) in
  let! diff := OsTime_sec_usec s u in
  if mUsecs diff <? 0 then
    let! s' := int_arith (mSeconds diff - 1) in
    Ok (mkOsTime s' (mUsecs diff + USECS_PER_SEC))
  else Ok diff.

Definition time_eqb (a b : OsTime) : bool :=
  (mSeconds a =? mSeconds b) && (mUsecs a =? mUsecs b).
Definition time_neb (a b : OsTime) : bool :=
  negb (mSeconds a =? mSeconds b) || negb (mUsecs a =? mUsecs b).
Definition time_gtb (a b : OsTime) : bool :=
  (mSeconds b <? mSeconds a) || ((mSeconds a =? mSeconds b) && (mUsecs b <? mUsecs a)).
Definition time_geb (a b : OsTime) : bool :=
  (mSeconds b <? mSeconds a) || ((mSeconds a =? mSeconds b) && (mUsecs b <=? mUsecs a)).
Definition time_ltb (a b : OsTime) : bool :=
  (mSeconds a <? mSeconds b) || ((mSeconds a =? mSeconds b) && (mUsecs a <? mUsecs b)).
Definition time_leb (a b : OsTime) : bool :=
  (mSeconds a <? mSeconds b) || ((mSeconds a =? mSeconds b) && (mUsecs a <=? mUsecs b)).

(** [cvtToMsecs] computes in [int]. *)
Definition cvtToMsecs (t : OsTime) : outcome Z :=
  let! ms := int_arith (mSeconds t * MSECS_PER_SEC) in
  int_arith (ms + Z.quot (mUsecs t) USECS_PER_MSEC).

(** The two named intervals are built by the constructor. *)
Definition OS_INFINITY : outcome OsTime := OsTime_sec_usec 0x7FFFFFFF 0x7FFFFFFF.
Definition NO_WAIT : outcome OsTime := OsTime_sec_usec 0 0.

(** [isInfinite] and [isNoWait]: the comparison of addresses implies the
    comparison of values. *)
Definition isInfinite (t : OsTime) : outcome bool :=
  let! inf := OS_INFINITY in
  Ok ((mSeconds t =? mSeconds inf) && (mUsecs t =? mUsecs inf)).
Definition isNoWait (t : OsTime) : bool := (mSeconds t =? 0) && (mUsecs t =? 0).

(** ** The represented interval *)

Definition usec_value (t : OsTime) : Z := mSeconds t * USECS_PER_SEC + mUsecs t.

(** The class invariant of the header: [0 <= mUsecs < USECS_PER_SEC]. *)
Definition normal (t : OsTime) : Prop :=
  0 <= mUsecs t < USECS_PER_SEC /\ INT_MIN <= mSeconds t <= INT_MAX.

#[global] Instance normal_dec t : Decision (normal t).
Proof. unfold normal. apply _. Defined.

(** A number of microseconds whose whole seconds fit an [int]. *)
Definition fits (v : Z) : Prop := INT_MIN <= v / USECS_PER_SEC <= INT_MAX.

#[global] Instance fits_dec v : Decision (fits v).
Proof. unfold fits. apply _. Defined.

(** The normal interval of that length. *)
Definition of_usecs (v : Z) : OsTime :=
  mkOsTime (v / USECS_PER_SEC) (v mod USECS_PER_SEC).

Ltac time_unfold :=
  unfold MSECS_PER_SEC, USECS_PER_MSEC, USECS_PER_SEC, INT_MIN, INT_MAX, LONG_MIN, LONG_MAX in *.

Lemma of_usecs_unique s u v :
  0 <= u < USECS_PER_SEC -> v = s * USECS_PER_SEC + u -> mkOsTime s u = of_usecs v.
Proof.
  intros Hu ->. unfold of_usecs.
  rewrite Z.div_add_l, (Z.div_small u), Z.add_0_r by (time_unfold; lia).
  by rewrite Z.add_comm, Z_mod_plus_full, Z.mod_small by done.
Qed.

Lemma normal_of_usecs t : normal t -> t = of_usecs (usec_value t).
Proof. destruct t as [s u]. intros [Hu _]. by apply of_usecs_unique. Qed.

Lemma of_usecs_normal v : fits v -> normal (of_usecs v).
Proof.
  intros Hv. split; [apply Z.mod_pos_bound; time_unfold; lia|done].
Qed.

Lemma usec_value_of_usecs v : usec_value (of_usecs v) = v.
Proof.
  unfold usec_value, of_usecs; cbn [mSeconds mUsecs].
  pose proof (Z.div_mod v USECS_PER_SEC ltac:(time_unfold; lia)). lia.
Qed.

Lemma normal_fits t : normal t -> fits (usec_value t).
Proof. intros Hn. pose proof Hn as [_ Hs]. rewrite (normal_of_usecs t Hn) in Hs. exact Hs. Qed.

Lemma to_int_id z : INT_MIN <= z <= INT_MAX -> to_int z = z.
Proof. intros. apply to_int_small. unfold INT_MIN in *. lia. Qed.

(** Arithmetic with the constants [/], [%] (truncating) and their floor. *)
Ltac time_lia := time_unfold; Z.to_euclidean_division_equations; lia.

(** ** The constructors and operators are exact *)

Lemma OsTime_msecs_exact m :
  fits (m * USECS_PER_MSEC) -> Z.quot m MSECS_PER_SEC <= INT_MAX ->
  OsTime_msecs m = Ok (of_usecs (m * USECS_PER_MSEC)).
Proof.
  intros Hf Hm. unfold OsTime_msecs, fits in *.
  rewrite to_int_id by time_lia.
  destruct (Z.ltb_spec (Z.rem m MSECS_PER_SEC * USECS_PER_MSEC) 0).
  - rewrite int_arith_ok by time_lia. cbn [obind].
    f_equal. apply of_usecs_unique; time_lia.
  - f_equal. apply of_usecs_unique; time_lia.
Qed.

(** A negative whole number of seconds in [usecs] is the one argument the
    constructor does not normalise. *)
Lemma OsTime_sec_usec_exact s u :
  INT_MIN <= s <= INT_MAX -> fits (s * USECS_PER_SEC + u) ->
  ~ (u < 0 /\ Z.rem u USECS_PER_SEC = 0) ->
  INT_MIN <= s + Z.quot u USECS_PER_SEC <= INT_MAX ->
  OsTime_sec_usec s u = Ok (of_usecs (s * USECS_PER_SEC + u)).
Proof.
  intros Hs Hf Hu Hq. unfold OsTime_sec_usec, fits in *.
  rewrite (to_int_id s) by done.
  destruct (Z.ltb_spec u 0); cbn [orb].
  - rewrite to_int_id by done. rewrite int_arith_ok by time_lia. cbn [obind].
    f_equal. apply of_usecs_unique; time_lia.
  - destruct (Z.leb_spec USECS_PER_SEC u).
    + rewrite to_int_id by done. f_equal. apply of_usecs_unique; time_lia.
    + f_equal. apply of_usecs_unique; lia.
Qed.

Lemma OsTime_sec_usec_not_normal s k :
  INT_MIN < s - k - 1 /\ s <= INT_MAX -> 0 < k ->
  OsTime_sec_usec s (- (k * USECS_PER_SEC)) = Ok (mkOsTime (s - k - 1) USECS_PER_SEC).
Proof.
  intros Hs Hk. unfold OsTime_sec_usec.
  assert (Z.quot (- (k * USECS_PER_SEC)) USECS_PER_SEC = - k) as -> by time_lia.
  assert (Z.rem (- (k * USECS_PER_SEC)) USECS_PER_SEC = 0) as -> by time_lia.
  rewrite (proj2 (Z.ltb_lt _ 0)) by time_lia. cbn [orb].
  rewrite !to_int_id, int_arith_ok by (rewrite ?to_int_id; time_lia). done.
Qed.

Lemma time_add_exact a b :
  normal a -> normal b -> INT_MIN <= mSeconds a + mSeconds b <= INT_MAX ->
  fits (usec_value a + usec_value b) ->
  time_add a b = Ok (of_usecs (usec_value a + usec_value b)).
Proof.
  intros [Ha ?] [Hb ?] Hs Hf. unfold time_add.
  rewrite (int_arith_ok (mSeconds a + mSeconds b)) by done. cbn [obind].
  rewrite int_arith_ok by time_lia. cbn [obind].
  assert (usec_value a + usec_value b
    = (mSeconds a + mSeconds b) * USECS_PER_SEC + (mUsecs a + mUsecs b)) as E
    by (unfold usec_value; lia).
  rewrite E in *. unfold fits in Hf.
  rewrite OsTime_sec_usec_exact by (try done; time_lia). cbn [obind].
  cbn [of_usecs mUsecs]. rewrite (proj2 (Z.leb_gt _ _)) by time_lia. done.
Qed.

Lemma time_sub_exact a b :
  normal a -> normal b -> INT_MIN <= mSeconds a - mSeconds b <= INT_MAX ->
  fits (usec_value a - usec_value b) ->
  time_sub a b = Ok (of_usecs (usec_value a - usec_value b)).
Proof.
  intros [Ha ?] [Hb ?] Hs Hf. unfold time_sub.
  rewrite (int_arith_ok (mSeconds a - mSeconds b)) by done. cbn [obind].
  rewrite int_arith_ok by time_lia. cbn [obind].
  assert (usec_value a - usec_value b
    = (mSeconds a - mSeconds b) * USECS_PER_SEC + (mUsecs a - mUsecs b)) as E
    by (unfold usec_value; lia).
  rewrite E in *. unfold fits in Hf.
  rewrite OsTime_sec_usec_exact by (try done; time_lia). cbn [obind].
  cbn [of_usecs mUsecs]. rewrite (proj2 (Z.ltb_ge _ _)) by time_lia. done.
Qed.

(** ** Expressions over intervals *)

Inductive time_exp :=
| TMsecs (m : Z)
| TSecUsec (s u : Z)
| TAdd (a b : time_exp)
| TSub (a b : time_exp).

Fixpoint time_eval (e : time_exp) : outcome OsTime :=
  match e with
  | TMsecs m => OsTime_msecs m
  | TSecUsec s u => OsTime_sec_usec s u
  | TAdd a b => let! x := time_eval a in let! y := time_eval b in time_add x y
  | TSub a b => let! x := time_eval a in let! y := time_eval b in time_sub x y
  end.

(** What the expression means, in microseconds. *)
Fixpoint time_denote (e : time_exp) : Z :=
  match e with
  | TMsecs m => m * USECS_PER_MSEC
  | TSecUsec s u => s * USECS_PER_SEC + u
  | TAdd a b => time_denote a + time_denote b
  | TSub a b => time_denote a - time_denote b
  end.

(** Every interval of the expression stays within [limit] seconds, and no
    constructor is called with negative microseconds. *)
Definition TIME_LIMIT : Z := 2 ^ 31 - 2.
Definition within (v : Z) : Prop :=
  - TIME_LIMIT * USECS_PER_SEC <= v <= TIME_LIMIT * USECS_PER_SEC.

Fixpoint time_bounded (e : time_exp) : Prop :=
  match e with
  | TMsecs m => within (m * USECS_PER_MSEC)
  | TSecUsec s u => INT_MIN <= s <= INT_MAX /\ 0 <= u /\ within (s * USECS_PER_SEC + u)
  | TAdd a b | TSub a b => time_bounded a /\ time_bounded b /\ within (time_denote e)
  end.

#[global] Instance within_dec v : Decision (within v).
Proof. unfold within. apply _. Defined.
#[global] Instance time_bounded_dec e : Decision (time_bounded e).
Proof. induction e; simpl; apply _. Defined.

Lemma within_fits v : within v -> fits v.
Proof. unfold within, fits, TIME_LIMIT. intros. time_lia. Qed.

Lemma time_bounded_within e : time_bounded e -> within (time_denote e).
Proof. destruct e; simpl; naive_solver. Qed.

Lemma seconds_bound v : within v -> - TIME_LIMIT <= v / USECS_PER_SEC <= TIME_LIMIT.
Proof. unfold within, TIME_LIMIT. intros. time_lia. Qed.

Lemma time_op_in_range (x y : OsTime) v :
  within v ->
  (v = usec_value x + usec_value y -> normal x -> normal y ->
     INT_MIN <= mSeconds x + mSeconds y <= INT_MAX) /\
  (v = usec_value x - usec_value y -> normal x -> normal y ->
     INT_MIN <= mSeconds x - mSeconds y <= INT_MAX).
Proof.
  unfold within, TIME_LIMIT, usec_value, normal. intros Hv. time_unfold. split; intros; lia.
Qed.

(** the arithmetic of OsTime is exact: an expression whose intermediate
    results stay below 2^31 - 1 seconds evaluates without overflow to the
    normalised interval of the exact number of microseconds. *)
Theorem time_eval_exact e :
  time_bounded e ->
  exists t, time_eval e = Ok t /\ normal t /\ usec_value t = time_denote e.
Proof.
  intros He. exists (of_usecs (time_denote e)).
  split_and!; [|by apply of_usecs_normal, within_fits, time_bounded_within|apply usec_value_of_usecs].
  induction e as [m|s u|a IHa b IHb|a IHa b IHb]; simpl in *.
  - apply OsTime_msecs_exact; [by apply within_fits|].
    unfold within, TIME_LIMIT in He. time_lia.
  - destruct He as (Hs & Hu & Hw). apply OsTime_sec_usec_exact; [done|by apply within_fits|lia|].
    unfold within, TIME_LIMIT in Hw. time_lia.
  - destruct He as (Ha & Hb & Hw). rewrite IHa, IHb by done. cbn [obind].
    pose proof (of_usecs_normal _ (within_fits _ (time_bounded_within _ Ha))) as Na.
    pose proof (of_usecs_normal _ (within_fits _ (time_bounded_within _ Hb))) as Nb.
    destruct (time_op_in_range (of_usecs (time_denote a)) (of_usecs (time_denote b)) _ Hw)
      as [Hadd _]. rewrite !usec_value_of_usecs in Hadd.
    rewrite time_add_exact by (rewrite ?usec_value_of_usecs; auto using within_fits).
    by rewrite !usec_value_of_usecs.
  - destruct He as (Ha & Hb & Hw). rewrite IHa, IHb by done. cbn [obind].
    pose proof (of_usecs_normal _ (within_fits _ (time_bounded_within _ Ha))) as Na.
    pose proof (of_usecs_normal _ (within_fits _ (time_bounded_within _ Hb))) as Nb.
    destruct (time_op_in_range (of_usecs (time_denote a)) (of_usecs (time_denote b)) _ Hw)
      as [_ Hsub]. rewrite !usec_value_of_usecs in Hsub.
    rewrite time_sub_exact by (rewrite ?usec_value_of_usecs; auto using within_fits).
    by rewrite !usec_value_of_usecs.
Qed.

Definition time_sample : time_exp :=
  TSub (TAdd (TSecUsec 5 2500000) (TMsecs (-1700))) (TSecUsec 9 999999).

Lemma time_eval_exact_witness :
  exists t, time_eval time_sample = Ok t /\ normal t /\ usec_value t = -4199999.
Proof. apply (time_eval_exact time_sample). apply (bool_decide_unpack _). vm_compute. exact I. Defined.

(** on normalised intervals the six comparison operators are the
    comparisons of the represented number of microseconds. *)
Theorem time_compare_exact a b :
  normal a -> normal b ->
  time_eqb a b = (usec_value a =? usec_value b) /\
  time_neb a b = negb (usec_value a =? usec_value b) /\
  time_ltb a b = (usec_value a <? usec_value b) /\
  time_leb a b = (usec_value a <=? usec_value b) /\
  time_gtb a b = (usec_value b <? usec_value a) /\
  time_geb a b = (usec_value b <=? usec_value a).
Proof.
  destruct a as [s u], b as [s' u']. intros [Ha _] [Hb _].
  unfold time_eqb, time_neb, time_ltb, time_leb, time_gtb, time_geb, usec_value.
  cbn [mSeconds mUsecs] in *. time_unfold.
  split_and!; repeat zcase; lia.
Qed.

Lemma time_compare_exact_witness :
  time_ltb (mkOsTime 3 999999) (mkOsTime 4 0) = (3999999 <? 4000000).
Proof.
  apply (time_compare_exact (mkOsTime 3 999999) (mkOsTime 4 0));
    apply (bool_decide_unpack _); vm_compute; exact I.
Defined.

(** cvtToMsecs returns the whole milliseconds of the interval up to
    24 days (2147483 seconds) and overflows beyond, and it reads back every
    [int] number of milliseconds an OsTime is made from. *)
Theorem cvtToMsecs_range t :
  normal t ->
  cvtToMsecs t =
    (if (INT_MIN <=? mSeconds t * MSECS_PER_SEC)
        && (usec_value t / USECS_PER_MSEC <=? INT_MAX)
     then Ok (usec_value t / USECS_PER_MSEC) else UB) /\
  (forall m, INT_MIN + 1000 <= m <= INT_MAX ->
     exists t', OsTime_msecs m = Ok t' /\ cvtToMsecs t' = Ok m).
Proof.
  assert (forall t, normal t -> cvtToMsecs t =
    (if (INT_MIN <=? mSeconds t * MSECS_PER_SEC)
        && (usec_value t / USECS_PER_MSEC <=? INT_MAX)
     then Ok (usec_value t / USECS_PER_MSEC) else UB)) as Main.
  { clear t. intros [s u] [Hu Hs]. cbn [mSeconds mUsecs usec_value] in *.
    unfold cvtToMsecs, int_arith, usec_value; cbn [mSeconds mUsecs].
    assert ((s * USECS_PER_SEC + u) / USECS_PER_MSEC = s * MSECS_PER_SEC + Z.quot u USECS_PER_MSEC)
      as -> by time_lia.
    assert (0 <= Z.quot u USECS_PER_MSEC < 1000) by time_lia.
    repeat (zcase; cbn [obind andb]); try done; time_unfold; lia. }
  intros Hn. split; [by apply Main|]. intros m Hm.
  assert (fits (m * USECS_PER_MSEC)) as Hf by (unfold fits; time_lia).
  exists (of_usecs (m * USECS_PER_MSEC)). split.
  - apply OsTime_msecs_exact; [done|time_lia].
  - rewrite Main by (by apply of_usecs_normal). rewrite usec_value_of_usecs.
    rewrite Z.div_mul by done. unfold of_usecs; cbn [mSeconds].
    rewrite !(proj2 (Z.leb_le _ _)) by time_lia. done.
Qed.

Lemma cvtToMsecs_range_witness : cvtToMsecs (mkOsTime 2147483 647999) = Ok 2147483647.
Proof. apply (cvtToMsecs_range (mkOsTime 2147483 647999)). apply (bool_decide_unpack _). vm_compute. exact I. Defined.

(** OS_INFINITY, built through the normalising constructor, wraps to a
    negative interval: it is recognised by [isInfinite], but it compares as
    smaller than [NO_WAIT] and than any interval from a non-negative number
    of milliseconds, where the name promises the largest interval. *)
Theorem infinity_is_negative :
  exists inf nowait, OS_INFINITY = Ok inf /\ NO_WAIT = Ok nowait /\
    isInfinite inf = Ok true /\ usec_value inf < 0 /\
    time_ltb inf nowait = true /\
    (forall m t, 0 <= m -> within (m * USECS_PER_MSEC) -> OsTime_msecs m = Ok t ->
       time_ltb inf t = true).
Proof.
  exists (mkOsTime (-2147481502) 483647), (mkOsTime 0 0).
  split_and!; [vm_compute; reflexivity..|].
  intros m t Hm Hw Ht.
  rewrite OsTime_msecs_exact in Ht; [|by apply within_fits|unfold within, TIME_LIMIT in Hw; time_lia].
  injection Ht as <-. unfold time_ltb, of_usecs; cbn [mSeconds].
  rewrite (proj2 (Z.ltb_lt _ _)) by time_lia. done.
Qed.

(** the constructor breaks the class invariant on a negative whole number
    of seconds given as microseconds: the result has [mUsecs] equal to
    1000000, and it does not compare equal to the same interval made from
    seconds. *)
Theorem negative_usecs_not_normal s k :
  0 < k -> INT_MIN < s - k - 1 -> s <= INT_MAX ->
  exists t t', OsTime_sec_usec s (- (k * USECS_PER_SEC)) = Ok t /\
    OsTime_sec_usec (s - k) 0 = Ok t' /\
    ~ normal t /\ usec_value t = usec_value t' /\ time_eqb t t' = false.
Proof.
  intros Hk Hlo Hhi. exists (mkOsTime (s - k - 1) USECS_PER_SEC), (mkOsTime (s - k) 0).
  split_and!.
  - by apply OsTime_sec_usec_not_normal.
  - unfold OsTime_sec_usec. rewrite (to_int_id (s - k)) by (time_unfold; lia). done.
  - intros [[_ Hu] _]. cbn in Hu. lia.
  - unfold usec_value; cbn [mSeconds mUsecs]. lia.
  - unfold time_eqb; cbn [mSeconds mUsecs]. rewrite (proj2 (Z.eqb_neq _ _)) by lia. done.
Qed.

Lemma negative_usecs_not_normal_witness :
  exists t t', OsTime_sec_usec 0 (-1000000) = Ok t /\ OsTime_sec_usec (-1) 0 = Ok t' /\
    ~ normal t /\ usec_value t = usec_value t' /\ time_eqb t t' = false.
Proof. apply (negative_usecs_not_normal 0 1); unfold INT_MIN, INT_MAX; lia. Defined.
