(* ===== verification/OsDateTime.v ===== *)
(** * OsDateTime: calendar dates

    Model of [sipXportLib/src/os/OsDateTime.cpp] and of the constructor from
    OsTime in [src/os/linux/OsDateTimeLinux.cpp]: the conversion of a date
    to seconds since 1970, the day of the week, the HTTP date printer and
    the HTTP date parser with its three formats.  A C string is the list of
    its bytes before the terminator; [c_at] reads the terminator at the end
    of the list and is undefined behaviour past it. *)
From Stdlib Require Import ZArith Lia Ascii String.
From stdpp Require Import base list strings.
From S2P Require Import Prelude Format OsTime.
Local Open Scope Z_scope.

(** The fields of [struct tm] that the code uses. *)
Record tm := mkTm {
  tm_year : Z; tm_mon : Z; tm_mday : Z; tm_hour : Z; tm_min : Z; tm_sec : Z }.

(** The fields of OsDateTimeBase: an unsigned short, five unsigned chars and
    an unsigned int. *)
Record OsDateTime := mkOsDateTime {
  mYear : Z; mMonth : Z; mDay : Z; mHour : Z; mMinute : Z; mSecond : Z; mMicrosecond : Z }.

Definition BAD_DATE : Z := 0.
Definition dayoffset : list Z := [306; 337; 0; 31; 61; 92; 122; 153; 184; 214; 245; 275].

(** An access to a constant array. *)
Definition arr_at {A} (l : list A) (i : Z) : outcome A :=
  if i <? 0 then UB else
  match l !! Z.to_nat i with Some x => Ok x | None => UB end.

(** [tm2Epoch]: the day count is computed in [int], the seconds in the 64
    bits of [time_t]. *)
Definition tm2Epoch (t : tm) : outcome Z :=
  if tm_year t <? 70 then Ok BAD_DATE else
  let year := if tm_mon t <? 2 then tm_year t - 1 else tm_year t in
  let! y365 := int_arith (year * 365) in
  let! days0 := int_arith (y365 + Z.quot year 4 - Z.quot year 100 + Z.quot (Z.quot year 100 + 3) 4) in
  let! off := arr_at dayoffset (tm_mon t) in
  let days := days0 + (off + tm_mday t - 1) - 25508 in
  let secs := ((days * 24 + tm_hour t) * 60 + tm_min t) * 60 + tm_sec t in
  if secs <? 0 then Ok BAD_DATE else Ok secs.

(** [cvtToTimeSinceEpoch] *)
Definition tm_of (d : OsDateTime) : tm :=
  mkTm (mYear d - 1900) (mMonth d) (mDay d) (mHour d) (mMinute d) (mSecond d).

Definition cvtToTimeSinceEpoch (d : OsDateTime) : outcome OsTime :=
  let! t := tm2Epoch (tm_of d) in
  if t <? 0 then AssertFail else OsTime_sec_usec t (mMicrosecond d).

(** [getDayOfWeek(year, month, dayOfMonth, dayOfWeek)], month from 0 *)
Definition getDayOfWeek (year month dayOfMonth : Z) : Z :=
  let month := month + 1 in
  let a := Z.quot (14 - month) 12 in
  let gy := year - a in
  let m := month + 12 * a - 2 in
  Z.rem (dayOfMonth + gy + Z.quot gy 4 - Z.quot gy 100 + Z.quot gy 400 + Z.quot (31 * m) 12) 7.

Definition spMonthStrings : list (list ascii) :=
  map bytes ["Jan"; "Feb"; "Mar"; "Apr"; "May"; "Jun"; "Jul"; "Aug"; "Sep"; "Oct"; "Nov"; "Dec"]%string.
Definition spDayStrings : list (list ascii) :=
  map bytes ["Sun"; "Mon"; "Tue"; "Wed"; "Thu"; "Fri"; "Sat"]%string.

(** [getHttpTimeString]: ["%s, %.2d %s %d %.2d:%.2d:%.2d GMT"] *)
Definition getHttpTimeString (d : OsDateTime) : outcome (list ascii) :=
  let! day := arr_at spDayStrings (getDayOfWeek (mYear d) (mMonth d) (mDay d)) in
  let! mon := arr_at spMonthStrings (mMonth d) in
  Ok (day ++ ", "%string ++ fmt_0d 2 (mDay d) ++ " "%string ++ mon ++ " "%string ++
      fmt_d (mYear d) ++ " "%string ++ fmt_0d 2 (mHour d) ++ ":"%string ++
      fmt_0d 2 (mMinute d) ++ ":"%string ++ fmt_0d 2 (mSecond d) ++ " GMT"%string).

(** ** The HTTP date parser *)

Definition c_at (s : list ascii) (i : nat) : outcome ascii :=
  match s !! i with
  | Some c => Ok c
  | None => if decide (i = length s) then Ok NUL else UB
  end.

(** One comparison of [checkmask]; [None] goes on with the next character. *)
Definition mask_char (m d : ascii) : bool :=
  if decide (m = "@"%char) then isupper d
  else if decide (m = "$"%char) then islower d
  else if decide (m = "#"%char) then isdigit d
  else if decide (m = "&"%char) then isxdigit d
  else if decide (m = "~"%char) then bool_decide (d = " "%char) || isdigit d
  else bool_decide (m = d).

Fixpoint checkmask_loop (fuel : nat) (data mask : list ascii) (i : nat) : outcome bool :=
  match fuel with
  | O => Ok false
  | S fuel' =>
      let! d := c_at data i in
      let! m := c_at mask i in
      if decide (m = NUL) then Ok (bool_decide (d = NUL))
      else if decide (m = "*"%char) then Ok true
      else if mask_char m d then checkmask_loop fuel' data mask (S i) else Ok false
  end.

Definition checkmask (data : list ascii) (mask : string) : outcome bool :=
  checkmask_loop 256 data mask 0.

(** [date[i] - '0'] and the number of two such digits *)
Definition dig (s : list ascii) (i : nat) : outcome Z :=
  let! c := c_at s i in Ok (digit_value c).
Definition dig2 (s : list ascii) (i : nat) : outcome Z :=
  let! a := dig s i in let! b := dig s (S i) in Ok (a * 10 + b).

(** The three formats: year, day of the month and the offsets of the month
    and the time; [None] is the return of [BAD_DATE]. *)
Definition http_fields (date : list ascii) : outcome (option (Z * Z * nat * nat)) :=
  let! rfc1123 := checkmask date "## @$$ #### ##:##:## *" in
  if rfc1123 : bool then
    let! cent := dig2 date 7 in
    let year := (cent - 19) * 100 in
    if year <? 0 then Ok None else
    let! yy := dig2 date 9 in
    let! mday := dig2 date 0 in
    Ok (Some (year + yy, mday, 3%nat, 12%nat))
  else
  let! rfc850 := checkmask date "##-@$$-## ##:##:## *" in
  if rfc850 : bool then
    let! yy := dig2 date 7 in
    let! mday := dig2 date 0 in
    Ok (Some (if yy <? 70 then yy + 100 else yy, mday, 3%nat, 10%nat))
  else
  let! asc := checkmask date "@$$ ~# ##:##:## ####*" in
  if asc : bool then
    let! cent := dig2 date 16 in
    let year := (cent - 19) * 100 in
    if year <? 0 then Ok None else
    let! yy := dig2 date 18 in
    let! c := c_at date 4 in
    let! tens := (if decide (c = " "%char) then Ok 0 else let! d := dig date 4 in Ok (d * 10)) in
    let! ones := dig date 5 in
    Ok (Some (year + yy, tens + ones, 0%nat, 7%nat))
  else Ok None.

Definition month_code (a b c : ascii) : Z :=
  Z.lor (Z.lor (Z.shiftl (schar a) 16) (Z.shiftl (schar b) 8)) (schar c).

Definition months : list Z :=
  map (fun s => match s with [a; b; c] => month_code a b c | _ => 0 end) spMonthStrings.

(** The loop that looks the month up; 12 when there is none. *)
Definition find_month (mint : Z) : Z :=
  match list_find (fun m => mint = m) months with
  | Some (i, _) => Z.of_nat i
  | None => 12
  end.

(** The checks after the fields are read, and the conversion. *)
Definition http_check (date : list ascii) (f : Z * Z * nat * nat) : outcome Z :=
  let '(year, mday, monstr, timstr) := f in
  if (mday <=? 0) || (31 <? mday) then Ok BAD_DATE else
  let! hour := dig2 date timstr in
  let! min := dig2 date (timstr + 3) in
  let! sec := dig2 date (timstr + 6) in
  if (23 <? hour) || (59 <? min) || (61 <? sec) then Ok BAD_DATE else
  let! c0 := c_at date monstr in
  let! c1 := c_at date (S monstr) in
  let! c2 := c_at date (S (S monstr)) in
  let mon := find_month (month_code c0 c1 c2) in
  if mon =? 12 then Ok BAD_DATE else
  if (mday =? 31) && ((mon =? 3) || (mon =? 5) || (mon =? 8) || (mon =? 10)) then Ok BAD_DATE else
  if (mon =? 1) && ((29 <? mday) || ((mday =? 29) &&
       (negb (Z.land year 3 =? 0) || ((Z.rem year 100 =? 0) && negb (Z.rem year 400 =? 100)))))
  then Ok BAD_DATE else
  tm2Epoch (mkTm year mon mday hour min sec).

(** [strchr(date, ' ')], the pointer after the space *)
Fixpoint after_space (s : list ascii) : option (list ascii) :=
  match s with
  | [] => None
  | c :: s' => if decide (c = " "%char) then Some s' else after_space s'
  end.

Definition convertHttpDateToEpoch (date : option (list ascii)) : outcome Z :=
  match date with
  | None => Ok BAD_DATE
  | Some s =>
      let s1 := snd (span isspace s) in
      match s1 with
      | [] => Ok BAD_DATE
      | _ =>
          match after_space s1 with
          | None => Ok BAD_DATE
          | Some d =>
              let! f := http_fields d in
              match f with None => Ok BAD_DATE | Some f => http_check d f end
          end
      end
  end.

(** [OsDateTimeLinux(const OsTime&)]: [gmtime_r] of the C library breaks
    the seconds down. *)
Definition OsDateTime_of_time (gmtime : Z -> tm) (t : OsTime) : OsDateTime :=
  let d := gmtime (mSeconds t) in
  mkOsDateTime (to_uint (1900 + tm_year d) mod 2 ^ 16) (tm_mon d mod 2 ^ 8) (tm_mday d mod 2 ^ 8)
    (tm_hour d mod 2 ^ 8) (tm_min d mod 2 ^ 8) (tm_sec d mod 2 ^ 8) (mUsecs t).

Example http_date_1994 :
  convertHttpDateToEpoch (Some ("Sun, 06 Nov 1994 08:49:37 GMT"%string : list ascii)) = Ok 784111777.
Proof. vm_compute. reflexivity. Qed.
Example http_date_850 :
  convertHttpDateToEpoch (Some ("Sunday, 06-Nov-94 08:49:37 GMT"%string : list ascii)) = Ok 784111777.
Proof. vm_compute. reflexivity. Qed.
Example http_date_asctime :
  convertHttpDateToEpoch (Some ("Sun Nov  6 08:49:37 1994"%string : list ascii)) = Ok 784111777.
Proof. vm_compute. reflexivity. Qed.
