(* ===== verification/OsDateTimeSpec.v ===== *)
(** * OsDateTime against the Gregorian calendar

    A reference calendar that counts days year by year and month by month,
    the proof that [tm2Epoch] and [getDayOfWeek] compute it, the HTTP date
    round trip, and what the parser accepts. *)
From Stdlib Require Import ZArith Lia Ascii String.
From stdpp Require Import base list strings.
From S2P Require Import Prelude Format OsTime OsDateTime.
Local Open Scope Z_scope.

(** ** The reference calendar *)

Definition is_leap (y : Z) : bool :=
  ((y mod 4 =? 0) && negb (y mod 100 =? 0)) || (y mod 400 =? 0).

Definition month_days (y : Z) (m : nat) : Z :=
  match m with
  | 0%nat | 2%nat | 4%nat | 6%nat | 7%nat | 9%nat | 11%nat => 31
  | 3%nat | 5%nat | 8%nat | 10%nat => 30
  | 1%nat => if is_leap y then 29 else 28
  | _ => 0
  end.

Fixpoint days_before_month (y : Z) (m : nat) : Z :=
  match m with O => 0 | S m' => days_before_month y m' + month_days y m' end.

Definition year_days (y : Z) : Z := days_before_month y 12.

(** Days from 1 January 1970 to 1 January of 1970 + k *)
Fixpoint days_before_year (k : nat) : Z :=
  match k with O => 0 | S k' => days_before_year k' + year_days (1970 + Z.of_nat k') end.

Definition civil_days (y : Z) (m : nat) (d : Z) : Z :=
  days_before_year (Z.to_nat (y - 1970)) + days_before_month y m + (d - 1).

Definition civil_secs (y : Z) (m : nat) (d hh mm ss : Z) : Z :=
  civil_days y m d * 86400 + hh * 3600 + mm * 60 + ss.

(** A date of the calendar from 1970 on. *)
Definition valid_date (y : Z) (m : nat) (d : Z) : Prop :=
  1970 <= y /\ (m < 12)%nat /\ 1 <= d <= month_days y m.

#[global] Instance valid_date_dec y m d : Decision (valid_date y m d).
Proof. unfold valid_date. apply _. Defined.

Definition valid_time (hh mm ss : Z) : Prop := 0 <= hh <= 23 /\ 0 <= mm <= 59 /\ 0 <= ss <= 61.

#[global] Instance valid_time_dec hh mm ss : Decision (valid_time hh mm ss).
Proof. unfold valid_time. apply _. Defined.

(** ** Closed forms *)

(** The twelve months. *)
Lemma month_cases (P : nat -> Prop) :
  P 0%nat -> P 1%nat -> P 2%nat -> P 3%nat -> P 4%nat -> P 5%nat -> P 6%nat -> P 7%nat ->
  P 8%nat -> P 9%nat -> P 10%nat -> P 11%nat -> forall m, (m < 12)%nat -> P m.
Proof. intros. do 12 (destruct m as [|m]; [assumption|]). exfalso. lia. Qed.

Definition leap_day (y : Z) : Z := if is_leap y then 1 else 0.

Lemma year_days_eq y : year_days y = 365 + leap_day y.
Proof. unfold year_days, leap_day. cbn. destruct (is_leap y); lia. Qed.

(** Leap days up to the end of the year before [y]. *)
Definition leaps_before (y : Z) : Z := (y - 1) / 4 - (y - 1) / 100 + (y - 1) / 400.

Lemma leaps_before_succ y : leaps_before (y + 1) = leaps_before y + leap_day y.
Proof.
  unfold leaps_before, leap_day, is_leap.
  replace (y + 1 - 1) with y by lia.
  assert (forall k, 0 < k -> y / k = (y - 1) / k + (if y mod k =? 0 then 1 else 0)) as Hk.
  { intros k Hk. pose proof (Z.div_mod y k ltac:(lia)) as E.
    pose proof (Z.mod_pos_bound y k Hk) as B.
    destruct (Z.eqb_spec (y mod k) 0) as [H0|H0].
    - enough (y / k - 1 = (y - 1) / k) by lia.
      apply (Z.div_unique _ _ _ (k - 1)); lia.
    - enough (y / k = (y - 1) / k) by lia.
      apply (Z.div_unique _ _ _ (y mod k - 1)); lia. }
  rewrite (Hk 4), (Hk 100), (Hk 400) by lia.
  assert (y mod 400 = 0 -> y mod 100 = 0) by (Z.to_euclidean_division_equations; lia).
  assert (y mod 100 = 0 -> y mod 4 = 0) by (Z.to_euclidean_division_equations; lia).
  repeat match goal with |- context [?p =? 0] => destruct (Z.eqb_spec p 0) end; cbn; lia.
Qed.

Lemma days_before_year_eq k :
  days_before_year k
  = 365 * Z.of_nat k + leaps_before (1970 + Z.of_nat k) - leaps_before 1970.
Proof.
  induction k as [|k IH]; cbn [days_before_year].
  - rewrite Z.add_0_r. lia.
  - rewrite IH, year_days_eq.
    replace (1970 + Z.of_nat (S k)) with (1970 + Z.of_nat k + 1) by lia.
    rewrite leaps_before_succ. lia.
Qed.

(** The table [dayoffset] of a year that begins in March. *)
Lemma dayoffset_spec m :
  (m < 12)%nat ->
  exists off, arr_at dayoffset (Z.of_nat m) = Ok off /\
    forall y, days_before_month y m
      = off - 306 + (if (m <? 2)%nat then 0 else 365 + leap_day y).
Proof.
  revert m. apply month_cases;
    (eexists; split; [vm_compute; reflexivity|]; intros y; unfold leap_day; cbn;
     destruct (is_leap y); reflexivity).
Qed.

Lemma days_before_month_bound y m : (m < 12)%nat -> 0 <= days_before_month y m <= 335.
Proof. revert m. apply month_cases; cbn; destruct (is_leap y); lia. Qed.

Lemma civil_days_nonneg y m d : valid_date y m d -> 0 <= civil_days y m d.
Proof.
  intros (Hy & Hm & Hd). unfold civil_days.
  pose proof (days_before_month_bound y m Hm).
  enough (forall k, 0 <= days_before_year k) as H0 by (specialize (H0 (Z.to_nat (y - 1970))); lia).
  induction k as [|k IH]; cbn [days_before_year]; [lia|].
  rewrite year_days_eq. unfold leap_day. destruct (is_leap _); lia.
Qed.

(** The core of [tm2Epoch]: the day count of the code is the calendar's. *)
Lemma day_count y m d off :
  valid_date y m d -> arr_at dayoffset (Z.of_nat m) = Ok off ->
  let yr := if Z.of_nat m <? 2 then y - 1900 - 1 else y - 1900 in
  yr * 365 + Z.quot yr 4 - Z.quot yr 100 + Z.quot (Z.quot yr 100 + 3) 4
    + (off + d - 1) - 25508 = civil_days y m d.
Proof.
  intros (Hy & Hm & Hd) Hoff. destruct (dayoffset_spec m Hm) as (off' & E & Hmon).
  rewrite E in Hoff. injection Hoff as ->.
  unfold civil_days. rewrite days_before_year_eq, Hmon.
  rewrite !Z2Nat.id by lia. replace (1970 + (y - 1970)) with y by lia.
  change (leaps_before 1970) with 477.
  assert ((m <? 2)%nat = (Z.of_nat m <? 2)) as ->
    by (destruct (Nat.ltb_spec m 2), (Z.ltb_spec (Z.of_nat m) 2); lia).
  destruct (Z.of_nat m <? 2); cbv zeta.
  - unfold leaps_before. Z.to_euclidean_division_equations; lia.
  - assert (leaps_before (y + 1) = leaps_before y + leap_day y) as L by apply leaps_before_succ.
    unfold leaps_before in *. replace (y + 1 - 1) with y in L by lia.
    revert L. generalize (leap_day y). intros l L.
    Z.to_euclidean_division_equations; lia.
Qed.

Lemma days_before_year_bound k : 0 <= days_before_year k <= 366 * Z.of_nat k.
Proof.
  induction k as [|k IH]; cbn [days_before_year]; [lia|].
  rewrite year_days_eq. unfold leap_day. destruct (is_leap _); lia.
Qed.

Lemma tm2Epoch_civil y m d hh mm ss :
  valid_date y m d -> y <= 70000 -> 0 <= hh -> 0 <= mm -> 0 <= ss ->
  tm2Epoch (mkTm (y - 1900) (Z.of_nat m) d hh mm ss) = Ok (civil_secs y m d hh mm ss).
Proof.
  intros Hv Hhi Hh Hmi Hs. pose proof Hv as (Hy & Hm & Hd).
  destruct (dayoffset_spec m Hm) as (off & Eoff & _).
  pose proof (day_count y m d off Hv Eoff) as E. cbv zeta in E.
  unfold tm2Epoch; cbn [tm_year tm_mon tm_mday tm_hour tm_min tm_sec].
  rewrite (proj2 (Z.ltb_ge _ _)) by lia.
  set (yr := if Z.of_nat m <? 2 then y - 1900 - 1 else y - 1900) in *.
  assert (69 <= yr <= 69000) as Hyr by (subst yr; destruct (_ <? 2); lia).
  rewrite int_arith_ok by (unfold INT_MIN, INT_MAX; lia). cbn [obind].
  rewrite int_arith_ok by (unfold INT_MIN, INT_MAX; Z.to_euclidean_division_equations; lia).
  cbn [obind]. rewrite Eoff. cbn [obind].
  pose proof (civil_days_nonneg _ _ _ Hv).
  rewrite (proj2 (Z.ltb_ge _ _)) by lia.
  f_equal. unfold civil_secs. lia.
Qed.

(** for every date of the Gregorian calendar from 1970 on, tm2Epoch is the
    number of seconds that counting days year by year and month by month
    gives, and a year before 1970 gives BAD_DATE. *)
Theorem tm2Epoch_is_calendar y m d hh mm ss :
  valid_date y m d -> y <= 70000 -> valid_time hh mm ss ->
  tm2Epoch (mkTm (y - 1900) (Z.of_nat m) d hh mm ss) = Ok (civil_secs y m d hh mm ss) /\
  (forall y' m', y' < 1970 -> tm2Epoch (mkTm (y' - 1900) m' d hh mm ss) = Ok BAD_DATE).
Proof.
  intros Hv Hhi (? & ? & ?). split; [apply tm2Epoch_civil; (done || lia)|].
  intros y' m' Hy'. unfold tm2Epoch; cbn [tm_year].
  by rewrite (proj2 (Z.ltb_lt _ _)) by lia.
Qed.

Lemma tm2Epoch_is_calendar_witness :
  tm2Epoch (mkTm 100 1 29 23 59 59) = Ok (civil_secs 2000 1 29 23 59 59).
Proof.
  apply (tm2Epoch_is_calendar 2000 1 29 23 59 59); apply (bool_decide_unpack _); vm_compute; exact I.
Defined.

(** The sum under the remainder of [getDayOfWeek] is the day count up to
    whole weeks. *)
Definition week_sum (year month dayOfMonth : Z) : Z :=
  let month := month + 1 in
  let a := Z.quot (14 - month) 12 in
  let gy := year - a in
  let m := month + 12 * a - 2 in
  dayOfMonth + gy + Z.quot gy 4 - Z.quot gy 100 + Z.quot gy 400 + Z.quot (31 * m) 12.

Definition week_offset (m : nat) : Z :=
  (week_sum 1970 (Z.of_nat m) 1 - civil_days 1970 m 1 - 4) / 7.

Lemma week_sum_count y m d :
  valid_date y m d ->
  week_sum y (Z.of_nat m) d = civil_days y m d + 4 + (week_offset m - 52 * (y - 1970)) * 7.
Proof.
  intros (Hy & Hm & Hd). unfold week_sum, civil_days.
  rewrite days_before_year_eq, Z2Nat.id by lia.
  replace (1970 + (y - 1970)) with y by lia. change (leaps_before 1970) with 477.
  pose proof (leaps_before_succ y) as L. unfold leaps_before, leap_day in *.
  replace (y + 1 - 1) with y in L by lia.
  clear Hd. revert m Hm. apply month_cases;
    match goal with |- context [week_offset ?m] =>
      let v := eval vm_compute in (week_offset m) in change (week_offset m) with v end;
    cbn [days_before_month month_days];
    match goal with |- context [Z.quot (14 - ?k) 12] =>
      let v := eval vm_compute in (Z.quot (14 - k) 12) in change (Z.quot (14 - k) 12) with v end;
    match goal with |- context [Z.quot (31 * ?k) 12] =>
      let v := eval vm_compute in (Z.quot (31 * k) 12) in change (Z.quot (31 * k) 12) with v end;
    destruct (is_leap y); rewrite ?Z.sub_0_r, !Z.quot_div_nonneg in * by lia; lia.
Qed.

(** getDayOfWeek is the number of days since Thursday, 1 January 1970,
    modulo seven, for every date of the calendar. *)
Theorem getDayOfWeek_counts_days y m d :
  valid_date y m d ->
  getDayOfWeek y (Z.of_nat m) d = (civil_days y m d + 4) mod 7.
Proof.
  intros Hv. pose proof (week_sum_count y m d Hv) as E.
  change (getDayOfWeek y (Z.of_nat m) d) with (Z.rem (week_sum y (Z.of_nat m) d) 7).
  assert (0 <= week_sum y (Z.of_nat m) d) as Hpos.
  { destruct Hv as (Hy & Hm & Hd). unfold week_sum. clear E.
    destruct Hd as [Hd _]. revert m Hm. apply month_cases; Z.to_euclidean_division_equations; lia. }
  rewrite Z.rem_mod_nonneg by lia. rewrite E. apply Z_mod_plus_full.
Qed.

Lemma getDayOfWeek_counts_days_witness :
  getDayOfWeek 2024 1 29 = (civil_days 2024 1 29 + 4) mod 7 /\ getDayOfWeek 2024 1 29 = 4.
Proof.
  split; [|reflexivity]. apply (getDayOfWeek_counts_days 2024 1 29).
  apply (bool_decide_unpack _). vm_compute. exact I.
Defined.

(** ** checkmask as a function of the two strings *)

Fixpoint mask_match (data mask : list ascii) {struct mask} : bool :=
  match mask with
  | [] => bool_decide (data = [])
  | m :: mask' =>
      if decide (m = "*"%char) then true else
      match data with [] => false | d :: data' => mask_char m d && mask_match data' mask' end
  end.

Lemma mask_char_NUL m : m <> NUL -> mask_char m NUL = false.
Proof.
  intros Hm. unfold mask_char. do 5 (destruct (decide (m = _)); [reflexivity|]).
  by apply bool_decide_eq_false.
Qed.

Lemma c_at_app a b : c_at (a ++ b) (length a) = Ok (hd NUL b).
Proof.
  unfold c_at. rewrite lookup_app_r, Nat.sub_diag by lia.
  destruct b as [|c b]; simpl; [|done]. rewrite decide_True; [done|]. rewrite length_app; simpl; lia.
Qed.

Lemma checkmask_loop_match fuel : forall data mask pd pm,
  length pd = length pm -> nul_free data -> nul_free mask -> (length mask < fuel)%nat ->
  checkmask_loop fuel (pd ++ data) (pm ++ mask) (length pm) = Ok (mask_match data mask).
Proof.
  induction fuel as [|fuel IH]; intros data mask pd pm Hl Hd Hm Hf; [lia|].
  cbn [checkmask_loop]. rewrite c_at_app. rewrite <- Hl, c_at_app. cbn [obind].
  destruct mask as [|m mask]; cbn [hd mask_match].
  - rewrite decide_True by done. destruct data as [|d data]; [done|]. cbn [hd].
    rewrite (bool_decide_eq_false_2 (d = NUL)) by (by apply Forall_inv in Hd). done.
  - pose proof (Forall_inv Hm) as Hm0. apply Forall_inv_tail in Hm. cbn beta in Hm0.
    destruct (decide (m = NUL)); [done|]. destruct (decide (m = "*"%char)); [done|].
    destruct data as [|d data]; cbn [hd]; [by rewrite mask_char_NUL|].
    destruct (mask_char m d); cbn [andb]; [|done].
    rewrite (cons_middle d pd data), (cons_middle m pm mask), !app_assoc.
    replace (S (length pd)) with (length (pm ++ [m])) by (rewrite length_app; simpl; lia).
    apply IH; [rewrite !length_app; simpl; lia|by apply Forall_inv_tail in Hd|done|simpl in Hf; lia].
Qed.

Lemma checkmask_match data (mask : string) :
  nul_free data -> nul_free mask -> (length (bytes mask) < 256)%nat ->
  checkmask data mask = Ok (mask_match data mask).
Proof. intros. by apply (checkmask_loop_match 256 data mask [] []). Qed.

(** Mask characters of the three formats. *)
Lemma mask_upper d : mask_char "@" d = isupper d.
Proof. reflexivity. Qed.
Lemma mask_lower d : mask_char "$" d = islower d.
Proof. reflexivity. Qed.
Lemma mask_digit d : mask_char "#" d = isdigit d.
Proof. reflexivity. Qed.
Lemma mask_tilde d : mask_char "~" d = (bool_decide (d = " "%char) || isdigit d).
Proof. reflexivity. Qed.
Lemma mask_space d : mask_char " " d = bool_decide (" "%char = d).
Proof. reflexivity. Qed.
Lemma mask_colon d : mask_char ":" d = bool_decide (":"%char = d).
Proof. reflexivity. Qed.
Lemma mask_dash d : mask_char "-" d = bool_decide ("-"%char = d).
Proof. reflexivity. Qed.

Ltac mask_norm :=
  repeat match goal with |- context [mask_char ?m ?d] =>
    first [ rewrite (mask_upper d) | rewrite (mask_lower d) | rewrite (mask_digit d)
          | rewrite (mask_tilde d) | rewrite (mask_space d) | rewrite (mask_colon d)
          | rewrite (mask_dash d) ]
  end.

(** ** Printing and reading back *)

Definition http_printable (d : OsDateTime) : Prop :=
  0 <= mMonth d /\ valid_date (mYear d) (Z.to_nat (mMonth d)) (mDay d) /\ mYear d <= 9999 /\
  valid_time (mHour d) (mMinute d) (mSecond d).

#[global] Instance http_printable_dec d : Decision (http_printable d).
Proof. unfold http_printable. apply _. Defined.

Lemma two_digits n : 0 <= n < 100 ->
  exists a b, fmt_0d 2 n = [a; b] /\ isdigit a = true /\ isdigit b = true /\
    digit_value a * 10 + digit_value b = n.
Proof.
  intros Hn. destruct (fmt_0d_spec 2 n) as (Hl & Hd & Hv); [lia|lia|done|].
  destruct (fmt_0d 2 n) as [|a [|b [|]]]; try done. exists a, b.
  do 2 apply Forall_cons in Hd as [? Hd]. split_and!; try done.
  unfold digits_value in Hv. cbn [fold_left] in Hv. lia.
Qed.

Lemma four_digits n : 1000 <= n <= 9999 ->
  exists a b c e, fmt_d n = [a; b; c; e] /\
    isdigit a = true /\ isdigit b = true /\ isdigit c = true /\ isdigit e = true /\
    (digit_value a * 10 + digit_value b) * 100 + (digit_value c * 10 + digit_value e) = n.
Proof.
  intros Hn. unfold fmt_d. rewrite (proj2 (Z.ltb_ge _ _)) by lia.
  destruct (fmt_unsigned_spec n) as (Hd & Hv & _); [lia|].
  pose proof (fmt_unsigned_length n 4 ltac:(change (10 ^ Z.of_nat 4) with 10000; lia) ltac:(lia)) as Hl.
  pose proof (digits_value_bound _ Hd) as Hb. rewrite Hv in Hb.
  destruct (fmt_unsigned n) as [|a [|b [|c [|e [|]]]]]; cbn [length] in Hl, Hb;
    try (change (10 ^ Z.of_nat 0) with 1 in Hb); try (change (10 ^ Z.of_nat 1) with 10 in Hb);
    try (change (10 ^ Z.of_nat 2) with 100 in Hb); try (change (10 ^ Z.of_nat 3) with 1000 in Hb);
    try lia.
  exists a, b, c, e. do 4 apply Forall_cons in Hd as [? Hd]. split_and!; try done.
  unfold digits_value in Hv. cbn [fold_left] in Hv. lia.
Qed.

Lemma digit_value_range c : isdigit c = true -> 0 <= digit_value c <= 9.
Proof.
  rewrite isdigit_uchar. unfold digit_value, schar. intros.
  destruct (Z.ltb_spec (uchar c) 128); lia.
Qed.

Lemma month_name m : (m < 12)%nat ->
  exists a b c, arr_at spMonthStrings (Z.of_nat m) = Ok [a; b; c] /\
    isupper a = true /\ islower b = true /\ islower c = true /\
    find_month (month_code a b c) = Z.of_nat m.
Proof.
  revert m. apply month_cases;
    (do 3 eexists; split; [reflexivity|]; split_and!; vm_compute; reflexivity).
Qed.

Lemma day_name k : 0 <= k < 7 ->
  exists a b c, arr_at spDayStrings k = Ok [a; b; c] /\
    isspace a = false /\ Forall (fun x => x <> " "%char) [a; b; c].
Proof.
  intros Hk. assert (k = 0 \/ k = 1 \/ k = 2 \/ k = 3 \/ k = 4 \/ k = 5 \/ k = 6) as H by lia.
  repeat destruct H as [H | H]; subst k; (do 3 eexists; split; [reflexivity|];
    split; [vm_compute; reflexivity|]; repeat constructor; discriminate).
Qed.

Lemma alpha_not_nul c : isupper c = true \/ islower c = true -> c <> NUL.
Proof. all_bytes c; intros []; congruence. Qed.

(** The parser on an RFC 1123 date whose fields are in range. *)
Lemma parse_rfc1123 d1 d2 m1 m2 m3 y1 y2 y3 y4 h1 h2 i1 i2 s1 s2 r year m d hh mm ss :
  nul_free r ->
  Forall (fun c => isdigit c = true) [d1; d2; y1; y2; y3; y4; h1; h2; i1; i2; s1; s2] ->
  isupper m1 = true -> islower m2 = true -> islower m3 = true ->
  find_month (month_code m1 m2 m3) = Z.of_nat m ->
  digit_value d1 * 10 + digit_value d2 = d ->
  (digit_value y1 * 10 + digit_value y2) * 100 + (digit_value y3 * 10 + digit_value y4) = year ->
  digit_value h1 * 10 + digit_value h2 = hh -> digit_value i1 * 10 + digit_value i2 = mm ->
  digit_value s1 * 10 + digit_value s2 = ss ->
  http_fields (d1 :: d2 :: " "%char :: m1 :: m2 :: m3 :: " "%char :: y1 :: y2 :: y3 :: y4 ::
    " "%char :: h1 :: h2 :: ":"%char :: i1 :: i2 :: ":"%char :: s1 :: s2 :: " "%char :: r)
  = Ok (if (digit_value y1 * 10 + digit_value y2 - 19) * 100 <? 0 then None
        else Some (year - 1900, d, 3%nat, 12%nat)).
Proof.
  intros Hr Hd Hm1 Hm2 Hm3 Hmon Ed Ey Eh Ei Es. unfold http_fields.
  repeat match type of Hd with Forall _ (_ :: _) =>
    let H := fresh "D" in apply Forall_cons in Hd as [H Hd] end.
  rewrite checkmask_match; [| |repeat constructor; discriminate|vm_compute; lia].
  2:{ repeat (constructor; [first [by apply isdigit_not_nul | by (apply alpha_not_nul; auto)
        | discriminate]|]). exact Hr. }
  change (bytes "## @$$ #### ##:##:## *") with
    (["#"; "#"; " "; "@"; "$"; "$"; " "; "#"; "#"; "#"; "#"; " "; "#"; "#"; ":"; "#"; "#"; ":";
      "#"; "#"; " "; "*"]%char).
  cbn [mask_match]. repeat (rewrite decide_False by discriminate). rewrite decide_True by done.
  mask_norm.
  repeat match goal with H : isdigit _ = true |- _ => rewrite H; clear H end.
  rewrite Hm1, Hm2, Hm3. rewrite !bool_decide_eq_true_2 by done. cbn [andb obind].
  cbn [dig2 dig c_at lookup list_lookup obind].
  destruct (_ <? 0); [done|]. cbn [obind]. subst. do 5 f_equal. lia.
Qed.

Lemma find_month_range mint : 0 <= find_month mint <= 12.
Proof.
  unfold find_month. destruct (list_find _ months) as [[i x]|] eqn:E; [|lia].
  apply list_find_Some in E as (Hi & _). apply lookup_lt_Some in Hi.
  change (length months) with 12%nat in Hi. lia.
Qed.

(** The rejected days are exactly those the month does not have. *)
Lemma day_checks year mon mday :
  0 <= year -> 0 <= mon < 12 -> 1 <= mday <= 31 ->
  (((mday =? 31) && ((mon =? 3) || (mon =? 5) || (mon =? 8) || (mon =? 10)))
   || ((mon =? 1) && ((29 <? mday) || ((mday =? 29) &&
       (negb (Z.land year 3 =? 0) || ((Z.rem year 100 =? 0) && negb (Z.rem year 400 =? 100)))))))
  = (month_days (year + 1900) (Z.to_nat mon) <? mday).
Proof.
  intros Hy Hmon Hd.
  change 3 with (Z.ones 2) at 2. rewrite Z.land_ones by lia. change (2 ^ 2) with 4.
  rewrite !Z.rem_mod_nonneg by lia.
  assert (is_leap (year + 1900)
    = (year mod 4 =? 0) && (negb (year mod 100 =? 0) || (year mod 400 =? 100))) as L.
  { unfold is_leap.
    assert ((year + 1900) mod 4 = year mod 4) as -> by (Z.to_euclidean_division_equations; lia).
    assert ((year + 1900) mod 100 = year mod 100) as -> by (Z.to_euclidean_division_equations; lia).
    assert ((year + 1900) mod 400 = 0 <-> year mod 400 = 100) by (Z.to_euclidean_division_equations; lia).
    assert (year mod 400 = 100 -> year mod 4 = 0 /\ year mod 100 = 0) by (Z.to_euclidean_division_equations; lia).
    destruct (Z.eqb_spec ((year + 1900) mod 400) 0), (Z.eqb_spec (year mod 400) 100);
      destruct (Z.eqb_spec (year mod 4) 0), (Z.eqb_spec (year mod 100) 0); cbn;
      (reflexivity || (exfalso; lia)). }
  assert (forall (b : bool) (m : nat), (m < 12)%nat ->
    (((mday =? 31) && ((Z.of_nat m =? 3) || (Z.of_nat m =? 5) || (Z.of_nat m =? 8) || (Z.of_nat m =? 10)))
     || ((Z.of_nat m =? 1) && ((29 <? mday) || ((mday =? 29) && negb b))))
    = ((match m with
        | 0%nat | 2%nat | 4%nat | 6%nat | 7%nat | 9%nat | 11%nat => 31
        | 3%nat | 5%nat | 8%nat | 10%nat => 30
        | 1%nat => if b then 29 else 28 | _ => 0 end) <? mday)) as H.
  { intros []; apply month_cases; cbn;
      repeat match goal with
      | |- context [mday =? ?k] => destruct (Z.eqb_spec mday k)
      | |- context [?k <? mday] => destruct (Z.ltb_spec k mday)
      end; cbn; (reflexivity || (exfalso; lia)). }
  specialize (H ((year mod 4 =? 0) && (negb (year mod 100 =? 0) || (year mod 400 =? 100)))
    (Z.to_nat mon) ltac:(lia)).
  rewrite Z2Nat.id in H by lia. unfold month_days. rewrite L, <- H.
  f_equal. f_equal. f_equal. f_equal.
  destruct (year mod 4 =? 0), (year mod 100 =? 0), (year mod 400 =? 100); reflexivity.
Qed.

(** What the checks and the conversion return for readable fields. *)
Lemma http_check_eq date year mday ms ts c0 c1 c2 hh mm ss :
  0 <= year <= 60000 -> 0 <= hh -> 0 <= mm -> 0 <= ss ->
  dig2 date ts = Ok hh -> dig2 date (ts + 3) = Ok mm -> dig2 date (ts + 6) = Ok ss ->
  c_at date ms = Ok c0 -> c_at date (S ms) = Ok c1 -> c_at date (S (S ms)) = Ok c2 ->
  let m := Z.to_nat (find_month (month_code c0 c1 c2)) in
  http_check date (year, mday, ms, ts) =
    Ok (if decide (valid_date (year + 1900) m mday /\ valid_time hh mm ss)
        then civil_secs (year + 1900) m mday hh mm ss else BAD_DATE).
Proof.
  intros Hy Hh Hm Hs E1 E2 E3 E4 E5 E6 m. unfold http_check.
  pose proof (find_month_range (month_code c0 c1 c2)) as Hr.
  assert (Hdays : (m < 12)%nat -> month_days (year + 1900) m <= 31).
  { generalize m. apply month_cases; cbn; try lia. destruct (is_leap _); lia. }
  destruct (Z.leb_spec mday 0), (Z.ltb_spec 31 mday); cbn [orb];
    try (rewrite decide_False; [done|intros [(? & ? & ?) _]; specialize (Hdays ltac:(done)); lia]).
  rewrite E1, E2, E3. cbn [obind].
  destruct (Z.ltb_spec 23 hh), (Z.ltb_spec 59 mm), (Z.ltb_spec 61 ss); cbn [orb];
    try (rewrite decide_False; [done|intros [_ (? & ? & ?)]; lia]).
  rewrite E4, E5, E6. cbn [obind]. fold m.
  destruct (Z.eqb_spec (find_month (month_code c0 c1 c2)) 12) as [E12|E12].
  { rewrite decide_False; [done|]. intros [(_ & Hm' & _) _]. unfold m in Hm'. lia. }
  pose proof (day_checks year (find_month (month_code c0 c1 c2)) mday ltac:(lia) ltac:(lia) ltac:(lia)) as DC.
  fold m in DC.
  destruct ((mday =? 31) && _); cbn [orb] in DC.
  { symmetry in DC. apply Z.ltb_lt in DC. rewrite decide_False; [done|]. intros [(? & ? & ?) _]. lia. }
  destruct ((find_month _ =? 1) && _).
  { symmetry in DC. apply Z.ltb_lt in DC. rewrite decide_False; [done|]. intros [(? & ? & ?) _]. lia. }
  symmetry in DC. apply Z.ltb_ge in DC.
  destruct (decide (70 <= year)) as [H70|H70].
  - assert (valid_date (year + 1900) m mday) as Hv by (split_and!; [lia|unfold m; lia|lia|done]).
    rewrite decide_True by (split; [done|repeat split; lia]).
    rewrite <- (tm2Epoch_civil (year + 1900) m mday hh mm ss) by (done || lia).
    unfold m. rewrite Z2Nat.id by lia. do 2 f_equal. lia.
  - rewrite decide_False by (intros [(? & _) _]; lia).
    unfold tm2Epoch; cbn [tm_year]. rewrite (proj2 (Z.ltb_lt _ _)) by lia. done.
Qed.

(** a date from 1970 to 9999 printed by getHttpTimeString is parsed by
    convertHttpDateToEpoch to the seconds of that date since 1970. *)
Theorem http_date_roundtrip d :
  http_printable d ->
  exists s, getHttpTimeString d = Ok s /\
    convertHttpDateToEpoch (Some s)
      = Ok (civil_secs (mYear d) (Z.to_nat (mMonth d)) (mDay d) (mHour d) (mMinute d) (mSecond d)).
Proof.
  intros (Hm0 & Hv & Hy & Ht). pose proof Hv as (Hy0 & Hm & Hd). pose proof Ht as (Hh & Hi & Hs).
  assert (month_days (mYear d) (Z.to_nat (mMonth d)) <= 31) as H31.
  { revert Hm. generalize (Z.to_nat (mMonth d)). apply month_cases; cbn; try lia. destruct (is_leap _); lia. }
  destruct (two_digits (mDay d)) as (d1 & d2 & Ed & ? & ? & Vd); [lia|].
  destruct (two_digits (mHour d)) as (h1 & h2 & Eh & ? & ? & Vh); [lia|].
  destruct (two_digits (mMinute d)) as (i1 & i2 & Ei & ? & ? & Vi); [lia|].
  destruct (two_digits (mSecond d)) as (s1 & s2 & Es & ? & ? & Vs); [lia|].
  destruct (four_digits (mYear d)) as (y1 & y2 & y3 & y4 & Ey & ? & ? & ? & ? & Vy); [lia|].
  destruct (month_name _ Hm) as (m1 & m2 & m3 & Emon & ? & ? & ? & Vm).
  rewrite Z2Nat.id in Emon, Vm by lia.
  pose proof (getDayOfWeek_counts_days _ _ _ Hv) as Edow. rewrite Z2Nat.id in Edow by lia.
  destruct (day_name (getDayOfWeek (mYear d) (mMonth d) (mDay d))) as (w1 & w2 & w3 & Ew & Hw & Hws).
  { rewrite Edow. apply Z.mod_pos_bound. lia. }
  eexists. split.
  { unfold getHttpTimeString. rewrite Ew, Emon. cbn [obind].
    rewrite Ed, Ey, Eh, Ei, Es. reflexivity. }
  cbn [app bytes String.list_ascii_of_string convertHttpDateToEpoch span]. rewrite Hw. cbn [snd].
  do 3 apply Forall_cons in Hws as [? Hws]. cbn [after_space].
  do 3 rewrite decide_False by done. do 1 rewrite decide_False by discriminate.
  rewrite decide_True by done.
  rewrite (parse_rfc1123 _ _ _ _ _ _ _ _ _ _ _ _ _ _ _ _ (mYear d) (Z.to_nat (mMonth d)) (mDay d)
    (mHour d) (mMinute d) (mSecond d));
    [|repeat constructor; discriminate|by repeat constructor|done|done|done
     |by rewrite Z2Nat.id by lia|done..].
  pose proof (digit_value_range y3 ltac:(done)). pose proof (digit_value_range y4 ltac:(done)).
  rewrite (proj2 (Z.ltb_ge _ 0)) by lia. cbn [obind].
  rewrite (http_check_eq _ _ _ _ _ m1 m2 m3 (mHour d) (mMinute d) (mSecond d));
    [|lia|lia|lia|lia|cbn [dig2 dig c_at lookup list_lookup obind Nat.add]; by f_equal
     |cbn [dig2 dig c_at lookup list_lookup obind Nat.add]; by f_equal
     |cbn [dig2 dig c_at lookup list_lookup obind Nat.add]; by f_equal|reflexivity..].
  rewrite Vm. replace (mYear d - 1900 + 1900) with (mYear d) by lia.
  by rewrite decide_True by done.
Qed.

Definition sample_date : OsDateTime := mkOsDateTime 2024 1 29 8 49 37 0.

Lemma http_date_roundtrip_witness :
  exists s, getHttpTimeString sample_date = Ok s /\
    convertHttpDateToEpoch (Some s) = Ok (civil_secs 2024 1 29 8 49 37).
Proof.
  apply (http_date_roundtrip sample_date). apply (bool_decide_unpack _). vm_compute. exact I.
Defined.

(** ** What the parser accepts *)

(** The fields of a recognised format can be read back. *)
Definition fields_readable (date : list ascii) (f : Z * Z * nat * nat) : Prop :=
  let '(year, _, ms, ts) := f in
  0 <= year <= 60000 /\
  exists c0 c1 c2 hh mm ss, 0 <= hh /\ 0 <= mm /\ 0 <= ss /\
    dig2 date ts = Ok hh /\ dig2 date (ts + 3) = Ok mm /\ dig2 date (ts + 6) = Ok ss /\
    c_at date ms = Ok c0 /\ c_at date (S ms) = Ok c1 /\ c_at date (S (S ms)) = Ok c2.

(** Characters of a string that matches a mask, one by one. *)
Lemma mask_match_cons data m mask :
  m <> "*"%char -> mask_match data (m :: mask) = true ->
  exists d data', data = d :: data' /\ mask_char m d = true /\ mask_match data' mask = true.
Proof.
  intros Hm. cbn [mask_match]. rewrite decide_False by done.
  destruct data as [|d data]; [done|]. intros [H1 H2]%andb_prop. eauto.
Qed.

Ltac mask_split H :=
  cbn [bytes String.list_ascii_of_string] in H;
  match type of H with
  | mask_match _ ("*"%char :: _) = true => clear H
  | mask_match _ (_ :: _) = true =>
      let d := fresh "d" in let r := fresh "r" in let M := fresh "M" in
      apply mask_match_cons in H as (d & r & -> & M & H); [|discriminate];
      first [ rewrite (mask_digit d) in M; apply digit_value_range in M | idtac ];
      mask_split H
  end.

Ltac read_fields := cbn [dig2 dig c_at lookup list_lookup obind Nat.add].

Lemma http_fields_total date :
  nul_free date ->
  exists f, http_fields date = Ok f /\
    match f with None => True | Some f => fields_readable date f end.
Proof.
  intros Hn. unfold http_fields.
  rewrite !checkmask_match by (done || (repeat constructor; discriminate) || (vm_compute; lia)).
  cbn [obind].
  destruct (mask_match date (bytes "## @$$ #### ##:##:## *")) eqn:H1;
    [clear Hn|destruct (mask_match date (bytes "##-@$$-## ##:##:## *")) eqn:H2;
      [clear Hn H1|destruct (mask_match date (bytes "@$$ ~# ##:##:## ####*")) eqn:H3; [clear Hn H1 H2|]]].
  - mask_split H1. read_fields. destruct (Z.ltb_spec ((digit_value d6 * 10 + digit_value d7 - 19) * 100) 0).
    + by exists None.
    + eexists. split; [reflexivity|]. split; [lia|].
      do 6 eexists. read_fields. split_and!; [| | |reflexivity..]; lia.
  - mask_split H2. read_fields. eexists. split; [reflexivity|]. split; [destruct (_ <? 70); lia|].
    do 6 eexists. read_fields. split_and!; [| | |reflexivity..]; lia.
  - mask_split H3. read_fields. destruct (_ <? 0) eqn:Hneg; [by exists None|].
    apply Z.ltb_ge in Hneg.
    match goal with |- context [decide (?c = " "%char)] => destruct (decide (c = " "%char)) end;
    cbn [obind]; (eexists; split; [reflexivity|]; split; [lia|];
      do 6 eexists; read_fields; split_and!; [| | |reflexivity..]; lia).
  - by exists None.
Qed.

Lemma nul_free_suffix a b : nul_free (a ++ b) -> nul_free b.
Proof. by intros [_ ?]%Forall_app. Qed.

Lemma after_space_suffix s d : after_space s = Some d -> exists a, s = a ++ d.
Proof.
  induction s as [|c s IH]; simpl; [done|]. case_decide; [|intros H'; destruct (IH H') as [a ->]; by exists (c :: a)].
  intros [= <-]. by exists [c].
Qed.

(** convertHttpDateToEpoch reads no byte outside any C string it is given,
    and its result is BAD_DATE or the seconds of a date that exists in the
    calendar (no 31 June, 29 February only in leap years) with a time of day
    in range. *)
Theorem http_date_parser_sound s :
  nul_free s ->
  exists v, convertHttpDateToEpoch (Some s) = Ok v /\
    (v = BAD_DATE \/ exists y m d hh mm ss, valid_date y m d /\ valid_time hh mm ss /\
       v = civil_secs y m d hh mm ss).
Proof.
  intros Hs. unfold convertHttpDateToEpoch.
  destruct (span isspace s) as [w s1] eqn:E. apply span_split in E as (-> & _ & _). cbn [snd].
  apply nul_free_suffix in Hs. destruct s1 as [|c s1]; [eauto|].
  destruct (after_space (c :: s1)) as [d|] eqn:Ed; [|eauto].
  apply after_space_suffix in Ed as [a Ea]. rewrite Ea in Hs. apply nul_free_suffix in Hs.
  destruct (http_fields_total d Hs) as ([f|] & -> & Hf); cbn [obind]; [|eauto].
  destruct f as [[[year mday] ms] ts].
  destruct Hf as (Hy & c0 & c1 & c2 & hh & mm & ss & Hh & Hm & Hss & E1 & E2 & E3 & E4 & E5 & E6).
  rewrite (http_check_eq d year mday ms ts c0 c1 c2 hh mm ss) by done.
  eexists. split; [reflexivity|]. case_decide as Hv; [|by left].
  right. destruct Hv. do 6 eexists. split_and!; [done|done|reflexivity].
Qed.

Lemma http_date_parser_sound_witness :
  exists v, convertHttpDateToEpoch (Some ("Thu, 31 Jun 2001 08:49:37 GMT"%string : list ascii)) = Ok v /\
    (v = BAD_DATE \/ exists y m d hh mm ss, valid_date y m d /\ valid_time hh mm ss /\
       v = civil_secs y m d hh mm ss).
Proof.
  apply (http_date_parser_sound ("Thu, 31 Jun 2001 08:49:37 GMT"%string : list ascii)).
  apply (bool_decide_unpack _). vm_compute. exact I.
Defined.

(** ** Conversion to OsTime *)

Lemma cvtToTimeSinceEpoch_eq d :
  http_printable d -> 0 <= mMicrosecond d < 1000000 ->
  cvtToTimeSinceEpoch d = Ok (mkOsTime (to_int
    (civil_secs (mYear d) (Z.to_nat (mMonth d)) (mDay d) (mHour d) (mMinute d) (mSecond d)))
    (mMicrosecond d)).
Proof.
  intros (Hm0 & Hv & Hy & (Hh & Hi & Hs)) Hu. unfold cvtToTimeSinceEpoch, tm_of.
  pose proof (tm2Epoch_civil (mYear d) (Z.to_nat (mMonth d)) (mDay d) (mHour d) (mMinute d) (mSecond d)
    Hv ltac:(lia) ltac:(lia) ltac:(lia) ltac:(lia)) as E.
  rewrite Z2Nat.id in E by lia. rewrite E. cbn [obind].
  pose proof (civil_days_nonneg _ _ _ Hv). unfold civil_secs at 1.
  rewrite (proj2 (Z.ltb_ge _ _)) by lia.
  unfold OsTime_sec_usec. rewrite (proj2 (Z.ltb_ge (mMicrosecond d) 0)) by lia.
  rewrite (proj2 (Z.leb_gt _ _)) by (unfold USECS_PER_SEC; lia). done.
Qed.

(** What the manual pages state of [gmtime_r]: the broken down time is the
    date of the calendar with that number of seconds. *)
Class Gmtime (gmtime : Z -> tm) : Prop := gmtime_calendar : forall t, 0 <= t <= INT_MAX ->
  exists y m d hh mm ss, gmtime t = mkTm (y - 1900) (Z.of_nat m) d hh mm ss /\
    valid_date y m d /\ y <= 9999 /\ 0 <= hh <= 23 /\ 0 <= mm <= 59 /\ 0 <= ss <= 59 /\
    t = civil_secs y m d hh mm ss.

(** converting a time to a date and back is the identity for every
    normalised OsTime from 1970 to the end of the range of [int]. *)
Theorem datetime_roundtrip gmtime (G : Gmtime gmtime) t :
  normal t -> 0 <= mSeconds t ->
  cvtToTimeSinceEpoch (OsDateTime_of_time gmtime t) = Ok t.
Proof.
  intros [Hu Hs] H0. destruct (G (mSeconds t) ltac:(lia))
    as (y & m & d & hh & mm & ss & E & Hv & Hy & Hh & Hm & Hss & Et).
  pose proof Hv as (Hy0 & Hm0 & Hd).
  assert (month_days y m <= 31) as H31.
  { revert Hm0. generalize m. apply month_cases; cbn; try lia. destruct (is_leap _); lia. }
  assert (OsDateTime_of_time gmtime t = mkOsDateTime y (Z.of_nat m) d hh mm ss (mUsecs t)) as ->.
  { unfold OsDateTime_of_time. rewrite E; cbn [tm_year tm_mon tm_mday tm_hour tm_min tm_sec].
    rewrite to_uint_small by lia. rewrite !Z.mod_small by lia. f_equal; lia. }
  rewrite cvtToTimeSinceEpoch_eq; cbn [mYear mMonth mDay mHour mMinute mSecond mMicrosecond].
  - rewrite Nat2Z.id, <- Et, to_int_id by done. by destruct t.
  - repeat split; cbn; rewrite ?Nat2Z.id; (done || lia || apply Hv).
  - done.
Qed.

(** An instance that searches the year and the month. *)
Fixpoint split_year (fuel : nat) (y days : Z) : Z * Z :=
  match fuel with
  | O => (y, days)
  | S f => if days <? year_days y then (y, days) else split_year f (y + 1) (days - year_days y)
  end.

Fixpoint split_month (fuel : nat) (y : Z) (m : nat) (days : Z) : nat * Z :=
  match fuel with
  | O => (m, days)
  | S f => if days <? month_days y m then (m, days) else split_month f y (S m) (days - month_days y m)
  end.

Definition calendar_gmtime (t : Z) : tm :=
  let '(y, yd) := split_year 100 1970 (t / 86400) in
  let '(m, d) := split_month 12 y 0 yd in
  mkTm (y - 1900) (Z.of_nat m) (d + 1) (t mod 86400 / 3600) (t mod 3600 / 60) (t mod 60).

Lemma split_year_spec fuel : forall y days y' d',
  1970 <= y -> 0 <= days < 365 * Z.of_nat fuel -> split_year fuel y days = (y', d') ->
  1970 <= y' <= y + Z.of_nat fuel /\ 0 <= d' < year_days y' /\
  days_before_year (Z.to_nat (y - 1970)) + days = days_before_year (Z.to_nat (y' - 1970)) + d'.
Proof.
  induction fuel as [|f IH]; intros y days y' d' Hy Hd E; [lia|]. cbn [split_year] in E.
  destruct (Z.ltb_spec days (year_days y)); [injection E as <- <-; lia|].
  assert (365 <= year_days y) by (rewrite year_days_eq; unfold leap_day; destruct (is_leap y); lia).
  apply IH in E as (H1 & H2 & H3); [|lia|lia]. split_and!; [lia|lia|lia|lia|].
  rewrite <- H3. replace (Z.to_nat (y + 1 - 1970)) with (S (Z.to_nat (y - 1970))) by lia.
  cbn [days_before_year]. replace (1970 + Z.of_nat (Z.to_nat (y - 1970))) with y by lia. lia.
Qed.

Lemma split_month_spec fuel : forall y m days m' d',
  (m + fuel = 12)%nat -> 0 <= days -> days_before_month y m + days < year_days y ->
  split_month fuel y m days = (m', d') ->
  (m' < 12)%nat /\ 0 <= d' < month_days y m' /\
  days_before_month y m + days = days_before_month y m' + d'.
Proof.
  induction fuel as [|f IH]; intros y m days m' d' Hm Hd Hy E.
  - assert (m = 12)%nat as -> by lia. unfold year_days in Hy. lia.
  - cbn [split_month] in E. destruct (Z.ltb_spec days (month_days y m)).
    + injection E as <- <-. lia.
    + apply IH in E as (H1 & H2 & H3); cbn [days_before_month] in *; lia.
Qed.

#[global] Instance calendar_gmtime_ok : Gmtime calendar_gmtime.
Proof.
  intros t Ht. unfold calendar_gmtime, INT_MAX in *.
  destruct (split_year 100 1970 (t / 86400)) as [y yd] eqn:Ey.
  destruct (split_month 12 y 0 yd) as [m d] eqn:Em.
  apply split_year_spec in Ey as (Hy & Hyd & E1); [|lia|Z.to_euclidean_division_equations; lia].
  apply split_month_spec in Em as (Hm & Hd & E2); [|lia|lia|cbn [days_before_month]; lia].
  exists y, m, (d + 1), (t mod 86400 / 3600), (t mod 3600 / 60), (t mod 60).
  split; [done|]. split; [repeat split; lia|].
  change (days_before_year (Z.to_nat (1970 - 1970))) with 0 in E1. cbn [days_before_month] in E2.
  unfold civil_secs, civil_days.
  replace (days_before_year (Z.to_nat (y - 1970)) + days_before_month y m + (d + 1 - 1))
    with (t / 86400) by lia.
  clear E1 E2. repeat split; Z.to_euclidean_division_equations; lia.
Qed.

Lemma datetime_roundtrip_witness :
  cvtToTimeSinceEpoch (OsDateTime_of_time calendar_gmtime (mkOsTime 1709196577 250000))
    = Ok (mkOsTime 1709196577 250000).
Proof.
  apply (datetime_roundtrip calendar_gmtime calendar_gmtime_ok);
    apply (bool_decide_unpack _); vm_compute; exact I.
Defined.

(** from 19 January 2038, 03:14:08 on, cvtToTimeSinceEpoch stores the
    64-bit count of seconds in the [int] of OsTime: the result is 2^32 seconds
    early, before 1970. *)
Theorem epoch_2038 d :
  http_printable d -> 0 <= mMicrosecond d < 1000000 ->
  let secs := civil_secs (mYear d) (Z.to_nat (mMonth d)) (mDay d) (mHour d) (mMinute d) (mSecond d) in
  2 ^ 31 <= secs < 2 ^ 32 ->
  exists t, cvtToTimeSinceEpoch d = Ok t /\ mSeconds t = secs - 2 ^ 32 /\ mSeconds t < 0.
Proof.
  intros Hp Hu secs Hs. eexists. split; [by apply cvtToTimeSinceEpoch_eq|].
  cbn [mSeconds]. fold secs. unfold to_int.
  rewrite <- (Z.mod_unique (secs + 2 ^ 31) (2 ^ 32) 1 (secs - 2 ^ 31)) by lia. lia.
Qed.

Lemma epoch_2038_witness :
  exists t, cvtToTimeSinceEpoch (mkOsDateTime 2038 0 19 3 14 8 0) = Ok t /\
    mSeconds t = 2147483648 - 2 ^ 32 /\ mSeconds t < 0.
Proof.
  apply (epoch_2038 (mkOsDateTime 2038 0 19 3 14 8 0));
    apply (bool_decide_unpack _); vm_compute; exact I.
Defined.
