(* ===== verification/OsSem.v ===== *)
(** * Semaphores

    Model of the counting semaphore [pt_csem] ([include/os/linux/pt_csem.h],
    [src/os/linux/pt_csem.c]) and of the statuses of OsCSem and OsBSem
    ([src/os/linux/OsCSemLinux.cpp], [OsBSemLinux.cpp]).  Each operation
    runs under the mutex of the semaphore, so it is one atomic step; a wait
    on the condition variable is an operation that cannot be taken yet
    ([None]). *)
From Stdlib Require Import ZArith Lia.
From stdpp Require Import base list.
From S2P Require Import Prelude.
Local Open Scope Z_scope.

Inductive OsStatus := OS_SUCCESS | OS_BUSY | OS_ALREADY_SIGNALED | OS_WAIT_TIMEOUT | OS_FAILED.

#[global] Instance OsStatus_eq_dec : EqDecision OsStatus.
Proof. solve_decision. Defined.

Record pt_sem := mkSem { count : Z; max : Z }.

Definition pt_sem_init (mx cnt : Z) : option pt_sem :=
  if mx =? 0 then None else Some (mkSem cnt mx).

(** [pt_sem_wait]: waits while the count is zero. *)
Definition pt_sem_wait (s : pt_sem) : option pt_sem :=
  if count s =? 0 then None else Some (mkSem (count s - 1) (max s)).

(** [pt_sem_trywait]: [false] is [EAGAIN]. *)
Definition pt_sem_trywait (s : pt_sem) : pt_sem * bool :=
  if count s =? 0 then (s, false) else (mkSem (count s - 1) (max s), true).

(** [pt_sem_post]: [false] is [ERANGE]. *)
Definition pt_sem_post (s : pt_sem) : pt_sem * bool :=
  if count s <? max s then (mkSem (count s + 1) (max s), true) else (s, false).

(** OsCSemLinux and OsBSemLinux: acquire without timeout, tryAcquire and the
    two releases, which differ in the status of a full semaphore. *)
Definition sem_acquire (s : pt_sem) : option (pt_sem * OsStatus) :=
  match pt_sem_wait s with Some s' => Some (s', OS_SUCCESS) | None => None end.
Definition sem_tryAcquire (s : pt_sem) : pt_sem * OsStatus :=
  let '(s', ok) := pt_sem_trywait s in (s', if ok then OS_SUCCESS else OS_BUSY).
Definition csem_release (s : pt_sem) : pt_sem * OsStatus :=
  let '(s', ok) := pt_sem_post s in (s', if ok then OS_SUCCESS else OS_BUSY).
Definition bsem_release (s : pt_sem) : pt_sem * OsStatus :=
  let '(s', ok) := pt_sem_post s in (s', if ok then OS_SUCCESS else OS_ALREADY_SIGNALED).

(** A semaphore whose count is within its bounds; every operation keeps it. *)
Definition sem_ok (s : pt_sem) : Prop := 0 <= count s <= max s.

(** ** Counting threads

    A system of threads is the list of their program counters; [total f] sums
    a weight over them.  A step replaces one element. *)
Section Total.
Context {P : Type}.

Fixpoint total (f : P -> Z) (l : list P) : Z :=
  match l with [] => 0 | p :: l' => f p + total f l' end.

Lemma total_app f a b : total f (a ++ b) = total f a + total f b.
Proof. induction a as [|p a IH]; simpl; lia. Qed.

Lemma total_mid f a p b : total f (a ++ p :: b) = total f a + f p + total f b.
Proof. rewrite total_app. simpl. lia. Qed.

Lemma total_nonneg f l : (forall p, 0 <= f p) -> 0 <= total f l.
Proof. intros Hf. induction l as [|p l IH]; simpl; [lia|]. specialize (Hf p). lia. Qed.

Lemma total_le f g l : (forall p, f p <= g p) -> total f l <= total g l.
Proof. intros Hf. induction l as [|p l IH]; simpl; [lia|]. specialize (Hf p). lia. Qed.

Lemma total_add f g l : total (fun p => f p + g p) l = total f l + total g l.
Proof. induction l as [|p l IH]; simpl; lia. Qed.

Lemma total_pos f l : (forall p, 0 <= f p) -> 0 < total f l -> exists p, p ∈ l /\ 0 < f p.
Proof.
  intros Hf. induction l as [|p l IH]; simpl; [lia|]. intros Ht.
  destruct (decide (0 < f p)); [exists p; split; [left|done]|].
  destruct IH as (q & ? & ?); [specialize (Hf p); lia|]. exists q. split; [by right|done].
Qed.

Lemma total_in f l p : (forall q, 0 <= f q) -> p ∈ l -> f p <= total f l.
Proof.
  intros Hf. induction 1 as [x l|x y l H IH]; simpl.
  - pose proof (total_nonneg f l Hf). lia.
  - specialize (Hf y). lia.
Qed.

Lemma total_lookup f l i p : (forall q, 0 <= f q) -> l !! i = Some p -> f p <= total f l.
Proof. intros Hf H. apply total_in; [done|]. by eapply list_elem_of_lookup_2. Qed.

Lemma total_ext_in f g l : (forall p, p ∈ l -> f p = g p) -> total f l = total g l.
Proof.
  intros H. induction l as [|p l IH]; simpl; [done|].
  rewrite H by (left). rewrite IH; [done|]. intros q Hq. apply H. by right.
Qed.

(** Two different threads. *)
Lemma total_two f l i j p q :
  (forall x, 0 <= f x) -> i <> j -> l !! i = Some p -> l !! j = Some q -> f p + f q <= total f l.
Proof.
  intros Hf. revert i j. induction l as [|x l IH]; intros [|i] [|j] Hij Hi Hj; simplify_eq/=.
  - pose proof (total_lookup f l j q Hf Hj). lia.
  - pose proof (total_lookup f l i p Hf Hi). lia.
  - specialize (IH i j ltac:(lia) Hi Hj). specialize (Hf x). lia.
Qed.
End Total.
