(* ===== verification/OsRWMutex.v ===== *)
(** * OsRWMutex: a lock for readers and writers

    Model of [sipXportLib/src/os/OsRWMutex.cpp] run by any number of threads.
    The shared state has the four semaphores and the four counters of the
    object; each thread has a program counter, one constructor per point of
    the code between two accesses to the shared state.  [tstep] executes the
    next access of a thread, so threads interleave at every access. *)
From Stdlib Require Import ZArith Lia.
From stdpp Require Import base list relations.
From S2P Require Import Prelude OsSem.
Local Open Scope Z_scope.

Definition SEMAPHORE_CNT_MAX : Z := 100.

Record OsRWMutex := mkRW {
  mGuard : pt_sem; mReadSem : pt_sem; mWriteSem : pt_sem; mWriteExclSem : pt_sem;
  mActiveReadersCnt : Z; mActiveWritersCnt : Z; mRunningReadersCnt : Z; mRunningWritersCnt : Z }.

(** The constructor. *)
Definition OsRWMutex_new : OsRWMutex :=
  mkRW (mkSem 1 1) (mkSem 0 SEMAPHORE_CNT_MAX) (mkSem 0 SEMAPHORE_CNT_MAX) (mkSem 1 1) 0 0 0 0.

(** What follows a call of grantReadTickets or grantWriteTickets. *)
Inductive gr_cont := AfterAcquireRead | AfterReleaseWrite | AfterTryFailed.
Inductive gw_cont := AfterReleaseRead | AfterAcquireWrite (dontBlock : bool).

Inductive pc :=
| Idle (last : OsStatus)            (* outside the object; the last status returned *)
| Reading                           (* holds the resource for reading *)
| Writing                           (* holds the resource for writing *)
(* doAcquireRead *)
| AR_guard (dontBlock : bool) | AR_test (dontBlock : bool) | AR_busy | AR_unguard | AR_ticket
(* doAcquireWrite *)
| AW_guard (dontBlock : bool) | AW_test (dontBlock : bool) | AW_busy | AW_try
| AW_unguard (dontBlock : bool) | AW_ticket | AW_excl (dontBlock : bool)
(* releaseRead *)
| RR_assert | RR_guard | RR_dec | RR_unguard
(* releaseWrite *)
| RW_assert | RW_excl | RW_guard | RW_dec (guardIsHeld : bool) | RW_unguard
(* grantReadTickets, grantWriteTickets *)
| GR_test (k : gr_cont) | GR_loop (k : gr_cont) | GR_release (k : gr_cont)
| GW_test (k : gw_cont) | GW_loop (k : gw_cont) | GW_release (k : gw_cont).

#[global] Instance gr_cont_eq_dec : EqDecision gr_cont.
Proof. solve_decision. Defined.
#[global] Instance gw_cont_eq_dec : EqDecision gw_cont.
Proof. solve_decision. Defined.
#[global] Instance pc_eq_dec : EqDecision pc.
Proof. solve_decision. Defined.

Definition gr_return (k : gr_cont) : pc :=
  match k with
  | AfterAcquireRead => AR_unguard
  | AfterReleaseWrite => RW_unguard
  | AfterTryFailed => AW_busy
  end.
Definition gw_return (k : gw_cont) : pc :=
  match k with
  | AfterReleaseRead => RR_unguard
  | AfterAcquireWrite true => AW_try
  | AfterAcquireWrite false => AW_unguard false
  end.

(** Updates of single fields. *)
Definition set_guard (f : pt_sem) (m : OsRWMutex) : OsRWMutex :=
  mkRW f (mReadSem m) (mWriteSem m) (mWriteExclSem m) (mActiveReadersCnt m) (mActiveWritersCnt m) (mRunningReadersCnt m) (mRunningWritersCnt m).
Definition set_read (f : pt_sem) (m : OsRWMutex) : OsRWMutex :=
  mkRW (mGuard m) f (mWriteSem m) (mWriteExclSem m) (mActiveReadersCnt m) (mActiveWritersCnt m) (mRunningReadersCnt m) (mRunningWritersCnt m).
Definition set_write (f : pt_sem) (m : OsRWMutex) : OsRWMutex :=
  mkRW (mGuard m) (mReadSem m) f (mWriteExclSem m) (mActiveReadersCnt m) (mActiveWritersCnt m) (mRunningReadersCnt m) (mRunningWritersCnt m).
Definition set_excl (f : pt_sem) (m : OsRWMutex) : OsRWMutex :=
  mkRW (mGuard m) (mReadSem m) (mWriteSem m) f (mActiveReadersCnt m) (mActiveWritersCnt m) (mRunningReadersCnt m) (mRunningWritersCnt m).
Definition add_readers (da dr : Z) (m : OsRWMutex) : OsRWMutex :=
  mkRW (mGuard m) (mReadSem m) (mWriteSem m) (mWriteExclSem m) (mActiveReadersCnt m + da) (mActiveWritersCnt m) (mRunningReadersCnt m + dr) (mRunningWritersCnt m).
Definition add_writers (da dr : Z) (m : OsRWMutex) : OsRWMutex :=
  mkRW (mGuard m) (mReadSem m) (mWriteSem m) (mWriteExclSem m) (mActiveReadersCnt m) (mActiveWritersCnt m + da) (mRunningReadersCnt m) (mRunningWritersCnt m + dr).

(** The result of running a thread to its next access: a step, a wait, or
    an assertion that fails. *)
Inductive tres := Step (m : OsRWMutex) (p : pc) | Blocked | Failed.

(** [mGuard.acquire()] and [mGuard.release()] with their assertions *)
Definition guard_acquire (m : OsRWMutex) (p : pc) : tres :=
  match sem_acquire (mGuard m) with
  | Some (g, r) => if decide (r = OS_SUCCESS) then Step (set_guard g m) p else Failed
  | None => Blocked
  end.
Definition guard_release (m : OsRWMutex) (p : pc) : tres :=
  let '(g, r) := bsem_release (mGuard m) in
  if decide (r = OS_SUCCESS) then Step (set_guard g m) p else Failed.

(** doAcquireExclWrite: the status of [tryAcquire] is checked by the
    assertion only, and the function returns [OS_SUCCESS]. *)
Definition doAcquireExclWrite (m : OsRWMutex) (dontBlock : bool) : option (OsRWMutex * OsStatus) :=
  if dontBlock then
    let '(s, _) := sem_tryAcquire (mWriteExclSem m) in Some (set_excl s m, OS_SUCCESS)
  else
    match sem_acquire (mWriteExclSem m) with
    | Some (s, _) => Some (set_excl s m, OS_SUCCESS)
    | None => None
    end.

Definition tstep (m : OsRWMutex) (p : pc) : tres :=
  match p with
  | Idle _ | Reading | Writing => Blocked
  (* doAcquireRead *)
  | AR_guard b => guard_acquire m (AR_test b)
  | AR_test b =>
      if b && (0 <? mActiveWritersCnt m) then Step m AR_busy
      else Step (add_readers 1 0 m) (GR_test AfterAcquireRead)
  | AR_busy => guard_release m (Idle OS_BUSY)
  | AR_unguard => guard_release m AR_ticket
  | AR_ticket =>
      match sem_acquire (mReadSem m) with
      | Some (s, _) => Step (set_read s m) Reading
      | None => Blocked
      end
  (* doAcquireWrite *)
  | AW_guard b => guard_acquire m (AW_test b)
  | AW_test b =>
      if b && ((0 <? mRunningReadersCnt m) || (0 <? mRunningWritersCnt m)) then Step m AW_busy
      else Step (add_writers 1 0 m) (GW_test (AfterAcquireWrite b))
  | AW_busy => guard_release m (Idle OS_BUSY)
  | AW_try =>
      let '(s, r) := sem_tryAcquire (mWriteSem m) in
      if decide (r = OS_SUCCESS) then Step (set_write s m) (AW_unguard true)
      else Step (set_write s m) (RW_dec true)
  | AW_unguard b => guard_release m (if b then AW_excl true else AW_ticket)
  | AW_ticket =>
      match sem_acquire (mWriteSem m) with
      | Some (s, _) => Step (set_write s m) (AW_excl false)
      | None => Blocked
      end
  | AW_excl b =>
      match doAcquireExclWrite m b with
      | Some (m', r) => if decide (r = OS_SUCCESS) then Step m' Writing else Step m' RW_guard
      | None => Blocked
      end
  (* releaseRead *)
  | RR_assert => if 0 <? mRunningReadersCnt m then Step m RR_guard else Failed
  | RR_guard => guard_acquire m RR_dec
  | RR_dec =>
      let m' := add_readers (-1) (-1) m in
      if (0 <=? mRunningReadersCnt m') && (0 <=? mActiveReadersCnt m')
         && (mRunningReadersCnt m' <=? mActiveReadersCnt m')
      then Step m' (GW_test AfterReleaseRead) else Failed
  | RR_unguard => guard_release m (Idle OS_SUCCESS)
  (* releaseWrite: doReleaseExclWrite, then doReleaseNonExclWrite *)
  | RW_assert => if 0 <? mRunningWritersCnt m then Step m RW_excl else Failed
  | RW_excl =>
      let '(s, r) := bsem_release (mWriteExclSem m) in
      if decide (r = OS_SUCCESS) then Step (set_excl s m) RW_guard else Failed
  | RW_guard => guard_acquire m (RW_dec false)
  | RW_dec held =>
      let m' := add_writers (-1) (-1) m in
      if (0 <=? mRunningWritersCnt m') && (0 <=? mActiveWritersCnt m')
         && (mRunningWritersCnt m' <=? mActiveWritersCnt m')
      then Step m' (GR_test (if held then AfterTryFailed else AfterReleaseWrite)) else Failed
  | RW_unguard => guard_release m (Idle OS_SUCCESS)
  (* grantReadTickets *)
  | GR_test k => Step m (if mActiveWritersCnt m =? 0 then GR_loop k else gr_return k)
  | GR_loop k =>
      if mRunningReadersCnt m <? mActiveReadersCnt m
      then Step (add_readers 0 1 m) (GR_release k) else Step m (gr_return k)
  | GR_release k => Step (set_read (fst (csem_release (mReadSem m))) m) (GR_loop k)
  (* grantWriteTickets *)
  | GW_test k => Step m (if mRunningReadersCnt m =? 0 then GW_loop k else gw_return k)
  | GW_loop k =>
      if mRunningWritersCnt m <? mActiveWritersCnt m
      then Step (add_writers 0 1 m) (GW_release k) else Step m (gw_return k)
  | GW_release k => Step (set_write (fst (csem_release (mWriteSem m))) m) (GW_loop k)
  end.

(** ** The operations a client can call *)
Inductive rw_op := AcquireRead | AcquireWrite | TryAcquireRead | TryAcquireWrite.

Definition start (o : rw_op) : pc :=
  match o with
  | AcquireRead => AR_guard false
  | AcquireWrite => AW_guard false
  | TryAcquireRead => AR_guard true
  | TryAcquireWrite => AW_guard true
  end.

(** A system: the object and its threads. *)
Definition system : Type := OsRWMutex * list pc.

(** [rw_step calls]: a thread outside starts one of [calls], a holder starts
    its release, or a thread inside the object takes its next access. *)
Inductive rw_step (calls : rw_op -> Prop) : system -> system -> Prop :=
| step_call m l1 l2 r o : calls o ->
    rw_step calls (m, l1 ++ Idle r :: l2) (m, l1 ++ start o :: l2)
| step_release_read m l1 l2 :
    rw_step calls (m, l1 ++ Reading :: l2) (m, l1 ++ RR_assert :: l2)
| step_release_write m l1 l2 :
    rw_step calls (m, l1 ++ Writing :: l2) (m, l1 ++ RW_assert :: l2)
| step_thread m m' l1 l2 p p' : tstep m p = Step m' p' ->
    rw_step calls (m, l1 ++ p :: l2) (m', l1 ++ p' :: l2).

(** The object is new and [n] threads are outside. *)
Definition rw_init (n : nat) : system := (OsRWMutex_new, replicate n (Idle OS_SUCCESS)).

Definition rw_reach (calls : rw_op -> Prop) (n : nat) (s : system) : Prop :=
  rtc (rw_step calls) (rw_init n) s.
