(* ===== verification/OsRWMutexSpec.v ===== *)
(** * OsRWMutex: mutual exclusion, progress, and the race of tryAcquireWrite

    The invariant [rw_inv] relates the counters and semaphores to the number
    of threads at each point of the code; it is preserved by every access of
    every thread, for up to [SEMAPHORE_CNT_MAX] threads.  From it follow
    mutual exclusion and the absence of failed assertions for the blocking
    operations and tryAcquireRead, and progress.  The last part runs the
    interleaving in which tryAcquireWrite admits a second writer. *)
From Stdlib Require Import ZArith Lia.
From stdpp Require Import base list relations.
From S2P Require Import Prelude OsSem OsRWMutex.
Local Open Scope Z_scope.

(** ** Weights of program counters *)

Definition b2z (b : bool) : Z := if b then 1 else 0.

(** Holds [mGuard]. *)
Definition in_guard (p : pc) : Z :=
  match p with
  | AR_test _ | AR_busy | AR_unguard | AW_test _ | AW_busy | AW_try | AW_unguard _
  | RR_dec | RR_unguard | RW_dec _ | RW_unguard
  | GR_test _ | GR_loop _ | GR_release _ | GW_test _ | GW_loop _ | GW_release _ => 1
  | _ => 0
  end.

(** Counted in [mActiveReadersCnt] and [mActiveWritersCnt]. *)
Definition active_r (p : pc) : Z :=
  match p with
  | GR_test AfterAcquireRead | GR_loop AfterAcquireRead | GR_release AfterAcquireRead
  | AR_unguard | AR_ticket | Reading | RR_assert | RR_guard | RR_dec => 1
  | _ => 0
  end.
Definition active_w (p : pc) : Z :=
  match p with
  | GW_test (AfterAcquireWrite _) | GW_loop (AfterAcquireWrite _) | GW_release (AfterAcquireWrite _)
  | AW_try | AW_unguard _ | AW_ticket | AW_excl _ | Writing
  | RW_assert | RW_excl | RW_guard | RW_dec _ => 1
  | _ => 0
  end.

(** Has taken a ticket from [mReadSem], from [mWriteSem]. *)
Definition ticket_r (p : pc) : Z :=
  match p with Reading | RR_assert | RR_guard | RR_dec => 1 | _ => 0 end.
Definition ticket_w (p : pc) : Z :=
  match p with
  | AW_unguard true | AW_excl _ | Writing | RW_assert | RW_excl | RW_guard | RW_dec false => 1
  | _ => 0
  end.

(** Is about to put a ticket that is already counted as running. *)
Definition pending_r (p : pc) : Z := match p with GR_release _ => 1 | _ => 0 end.
Definition pending_w (p : pc) : Z := match p with GW_release _ => 1 | _ => 0 end.

(** Holds [mWriteExclSem]. *)
Definition excl_w (p : pc) : Z := match p with Writing | RW_assert | RW_excl => 1 | _ => 0 end.

(** ** The invariant *)

(** The counters when no thread is inside the critical section: a resource
    without running readers is granted to every active writer, one without
    active writers to every active reader, never to both. *)
Definition settled (aR aW rR rW : Z) : Prop :=
  (rR = 0 -> rW = aW) /\ (aW = 0 -> rR = aR) /\ (0 < rR -> rW = 0).

(** What the thread in the critical section knows at each point. *)
Definition at_pc (aR aW rR rW : Z) (p : pc) : Prop :=
  match p with
  | GR_test AfterTryFailed | GR_loop AfterTryFailed | GR_release AfterTryFailed | RW_dec true => False
  | GR_test _ => (rR = 0 -> rW = aW) /\ (0 < rR -> rW = 0)
  | GR_loop _ | GR_release _ => aW = 0 /\ rW = 0
  | GW_test k => (aW = 0 -> rR = aR) /\ (0 < rR -> rW = 0) /\
                 match k with AfterAcquireWrite true => rR = 0 | _ => True end
  | GW_loop _ | GW_release _ => rR = 0 /\ (aW = 0 -> rR = aR)
  | AW_try => settled aR aW rR rW /\ rR = 0
  | _ => in_guard p = 1 -> settled aR aW rR rW
  end.

Definition counters_at (m : OsRWMutex) (p : pc) : Prop :=
  at_pc (mActiveReadersCnt m) (mActiveWritersCnt m) (mRunningReadersCnt m) (mRunningWritersCnt m) p.

Record rw_inv (s : system) : Prop := {
  inv_len : Z.of_nat (length (snd s)) <= SEMAPHORE_CNT_MAX;
  inv_guard : count (mGuard (fst s)) + total in_guard (snd s) = 1 /\ max (mGuard (fst s)) = 1
              /\ 0 <= count (mGuard (fst s));
  inv_active_r : mActiveReadersCnt (fst s) = total active_r (snd s);
  inv_active_w : mActiveWritersCnt (fst s) = total active_w (snd s);
  inv_running_r : mRunningReadersCnt (fst s)
    = count (mReadSem (fst s)) + total ticket_r (snd s) + total pending_r (snd s);
  inv_running_w : mRunningWritersCnt (fst s)
    = count (mWriteSem (fst s)) + total ticket_w (snd s) + total pending_w (snd s);
  inv_sems : 0 <= count (mReadSem (fst s)) /\ 0 <= count (mWriteSem (fst s)) /\
    max (mReadSem (fst s)) = SEMAPHORE_CNT_MAX /\ max (mWriteSem (fst s)) = SEMAPHORE_CNT_MAX;
  inv_le : mRunningReadersCnt (fst s) <= mActiveReadersCnt (fst s) /\
           mRunningWritersCnt (fst s) <= mActiveWritersCnt (fst s);
  inv_settled : total in_guard (snd s) = 0 ->
    settled (mActiveReadersCnt (fst s)) (mActiveWritersCnt (fst s))
            (mRunningReadersCnt (fst s)) (mRunningWritersCnt (fst s));
  inv_pcs : Forall (counters_at (fst s)) (snd s) }.

(** ** Weights are counts *)

(** One goal per point of the code, with its arguments. *)
Ltac pc_cases p :=
  destruct p as [ | | |b|b| | | |b|b| | |b| |b| | | | | | | |b| |k|k|k|k|k|k];
  try destruct b; try destruct k as [| |]; try destruct k as [|[]].

Lemma weights_nonneg p :
  0 <= in_guard p /\ 0 <= active_r p /\ 0 <= active_w p /\ 0 <= ticket_r p /\ 0 <= ticket_w p /\
  0 <= pending_r p /\ 0 <= pending_w p /\ 0 <= excl_w p.
Proof. pc_cases p; cbn; lia. Qed.

Lemma at_pc_outside aR aW rR rW p : in_guard p = 0 -> at_pc aR aW rR rW p.
Proof. pc_cases p; cbn; done. Qed.

Lemma total_in_guard_zero l : total in_guard l = 0 -> Forall (fun p => in_guard p = 0) l.
Proof.
  induction l as [|p l IH]; simpl; [constructor|]. intros H.
  pose proof (proj1 (weights_nonneg p)).
  pose proof (total_nonneg in_guard l (fun q => proj1 (weights_nonneg q))).
  constructor; [lia|apply IH; lia].
Qed.

Lemma outside_at m l : total in_guard l = 0 -> Forall (counters_at m) l.
Proof.
  intros H%total_in_guard_zero. eapply Forall_impl; [exact H|]. intros. by apply at_pc_outside.
Qed.

(** Facts on the totals of the other threads. *)
Lemma totals_nonneg l :
  0 <= total in_guard l /\ 0 <= total active_r l /\ 0 <= total active_w l /\
  0 <= total ticket_r l /\ 0 <= total ticket_w l /\ 0 <= total pending_r l /\
  0 <= total pending_w l /\ 0 <= total excl_w l.
Proof. split_and!; apply total_nonneg; intros p; apply (weights_nonneg p). Qed.

Lemma totals_le l :
  total ticket_r l <= total active_r l /\ total ticket_w l <= total active_w l /\
  total pending_r l <= total in_guard l /\ total pending_w l <= total in_guard l /\
  total excl_w l <= total ticket_w l /\
  total active_r l <= Z.of_nat (length l) /\ total active_w l <= Z.of_nat (length l).
Proof.
  assert (forall f, (forall p, f p <= 1) -> total f l <= Z.of_nat (length l)) as Hlen.
  { intros f Hf. induction l as [|p l IH]; cbn [total length]; [lia|]. specialize (Hf p). lia. }
  split_and!; first [apply total_le | apply Hlen];
    (intros p; pc_cases p; cbn; lia).
Qed.

(** ** Preservation *)

(** A step of one thread: the invariant of the others needs no look at the
    code, since at most one thread is inside the critical section. *)
Lemma rw_inv_replace m m' l1 l2 p p' :
  rw_inv (m, l1 ++ p :: l2) ->
  (in_guard p = 0 -> total in_guard (l1 ++ l2) = 0 \/
     (mActiveReadersCnt m' = mActiveReadersCnt m /\ mActiveWritersCnt m' = mActiveWritersCnt m /\
      mRunningReadersCnt m' = mRunningReadersCnt m /\ mRunningWritersCnt m' = mRunningWritersCnt m)) ->
  counters_at m' p' ->
  Forall (counters_at m') (l1 ++ p' :: l2).
Proof.
  intros I Hg Hp'. pose proof (inv_guard _ I) as (G & _ & G0). pose proof (inv_pcs _ I) as F.
  cbn [fst snd] in *. rewrite total_mid in G.
  pose proof (proj1 (totals_nonneg l1)). pose proof (proj1 (totals_nonneg l2)).
  assert (in_guard p = 0 \/ in_guard p = 1) as [Hp | Hp] by (pc_cases p; cbn; auto).
  - destruct (Hg Hp) as [Hz | (E1 & E2 & E3 & E4)].
    + rewrite total_app in Hz. apply Forall_app. split; [apply outside_at; lia|].
      constructor; [done|apply outside_at; lia].
    + assert (forall q, counters_at m q -> counters_at m' q) as Hq
        by (unfold counters_at; rewrite E1, E2, E3, E4; done).
      apply Forall_app in F as [F1 F2]. apply Forall_cons in F2 as [_ F2].
      apply Forall_app. split; [eapply Forall_impl; eauto|].
      constructor; [done|eapply Forall_impl; eauto].
  - apply Forall_app. split; [apply outside_at; lia|]. constructor; [done|apply outside_at; lia].
Qed.

(** Execute the access of [tstep] in hypothesis [E], one goal per outcome. *)
Ltac run_access E :=
  unfold guard_acquire, guard_release, doAcquireExclWrite, sem_acquire, sem_tryAcquire, csem_release,
    bsem_release, pt_sem_wait, pt_sem_trywait, pt_sem_post in E; cbn in E;
  repeat match type of E with
  | context [?a =? ?b] => destruct (Z.eqb_spec a b); cbn in E
  | context [?a <? ?b] => destruct (Z.ltb_spec a b); cbn in E
  | context [?a <=? ?b] => destruct (Z.leb_spec a b); cbn in E
  end; try discriminate E; injection E as <- <-.

Lemma rw_inv_tstep m m' l1 l2 p p' :
  rw_inv (m, l1 ++ p :: l2) -> tstep m p = Step m' p' -> rw_inv (m', l1 ++ p' :: l2).
Proof.
  intros I E. pose proof (rw_inv_replace m m' l1 l2 p p' I) as R.
  pose proof (totals_nonneg l1) as N1. pose proof (totals_nonneg l2) as N2.
  pose proof (totals_le l1) as L1. pose proof (totals_le l2) as L2.
  destruct I as [Hlen Hguard Har Haw Hrr Hrw Hsem Hle Hset Hpcs].
  cbn [fst snd] in *. rewrite ?total_mid in *.
  apply Forall_app in Hpcs as [_ Hpcs]. apply Forall_inv in Hpcs.
  assert (Z.of_nat (length l1) + Z.of_nat (length l2) + 1 <= SEMAPHORE_CNT_MAX) as Hlen'
    by (rewrite length_app in Hlen; simpl in Hlen; lia).
  destruct m as [[gc gm] [rc rm] [wc wm] [ec em] aR aW rR rW].
  unfold counters_at, settled, SEMAPHORE_CNT_MAX in *. cbn in *.
  pc_cases p; cbn in *; unfold settled in *; try discriminate E; run_access E;
    (constructor; unfold counters_at, settled, SEMAPHORE_CNT_MAX; cbn; rewrite ?length_app, ?total_mid; cbn;
      [lia|lia|lia|lia|lia|lia|lia|lia|lia|apply R; cbn; [try lia; rewrite ?total_app; lia|unfold settled; lia]]).
Qed.

Lemma rw_inv_step calls s s' : rw_inv s -> rw_step calls s s' -> rw_inv s'.
Proof.
  intros I H. destruct H as [m l1 l2 r o Ho|m l1 l2|m l1 l2|m m' l1 l2 p p' E];
    [..|by eapply rw_inv_tstep].
  all: match type of I with rw_inv (_, ?a ++ ?p :: ?b) =>
         match goal with |- rw_inv (_, a ++ ?q :: b) =>
           pose proof (rw_inv_replace m m a b p q I) as R end end;
    destruct I as [Hlen Hguard Har Haw Hrr Hrw Hsem Hle Hset Hpcs];
    cbn [fst snd] in *; rewrite ?total_mid in *; try destruct o; cbn in *;
    (constructor; cbn [fst snd]; rewrite ?total_mid; cbn;
      [rewrite length_app in *; exact Hlen|lia|lia|lia|lia|lia|lia|lia
      |intros Hz; apply Hset; lia
      |apply R; [intros _; right; done|intros; lia]]).
Qed.

Lemma total_replicate {P} (f : P -> Z) n p : total f (replicate n p) = Z.of_nat n * f p.
Proof. induction n as [|n IH]; cbn [replicate total]; lia. Qed.

Lemma rw_inv_init n : Z.of_nat n <= SEMAPHORE_CNT_MAX -> rw_inv (rw_init n).
Proof.
  intros Hn. constructor; unfold rw_init, OsRWMutex_new, settled, SEMAPHORE_CNT_MAX in *;
    cbn [fst snd mGuard mReadSem mWriteSem mActiveReadersCnt mActiveWritersCnt mRunningReadersCnt
      mRunningWritersCnt count max]; rewrite ?length_replicate, ?total_replicate;
    cbn [in_guard active_r active_w ticket_r ticket_w pending_r pending_w]; try lia.
  apply Forall_replicate. by apply at_pc_outside.
Qed.

Lemma rw_reach_inv calls n s :
  Z.of_nat n <= SEMAPHORE_CNT_MAX -> rw_reach calls n s -> rw_inv s.
Proof.
  intros Hn H. unfold rw_reach in H. remember (rw_init n) as s0 eqn:E.
  assert (rw_inv s0) as I by (subst; by apply rw_inv_init). clear E.
  induction H as [|s0 s1 s2 Hs _ IH]; [done|]. apply IH. by eapply rw_inv_step.
Qed.

(** Readers and writers are never granted the resource together, also while
    a thread is inside the critical section. *)
Lemma rw_inv_exclusive m ts :
  rw_inv (m, ts) -> 0 < mRunningReadersCnt m -> mRunningWritersCnt m = 0.
Proof.
  intros I Hr. pose proof (inv_guard _ I) as (G & _ & G0). pose proof (inv_pcs _ I) as F.
  pose proof (inv_settled _ I) as S. cbn [fst snd] in *. unfold settled in S.
  destruct (decide (total in_guard ts = 0)); [lia|].
  destruct (total_pos in_guard ts) as (p & Hp & Hp1);
    [intros q; apply (weights_nonneg q)|pose proof (proj1 (totals_nonneg ts)); lia|].
  rewrite Forall_forall in F. specialize (F p Hp). unfold counters_at in F.
  pc_cases p; cbn in F, Hp1; unfold settled in *; lia.
Qed.

(** ** The exclusive semaphore without tryAcquireWrite *)

Definition no_try (o : rw_op) : Prop := o <> TryAcquireWrite.

(** A call of tryAcquireWrite in progress. *)
Definition in_try (p : pc) : bool :=
  match p with
  | AW_guard true | AW_test true | AW_try | AW_unguard true | AW_excl true | RW_dec true
  | GW_test (AfterAcquireWrite true) | GW_loop (AfterAcquireWrite true)
  | GW_release (AfterAcquireWrite true)
  | GR_test AfterTryFailed | GR_loop AfterTryFailed | GR_release AfterTryFailed => true
  | _ => false
  end.

Record excl_inv (s : system) : Prop := {
  excl_count : count (mWriteExclSem (fst s)) + total excl_w (snd s) = 1;
  excl_bounds : 0 <= count (mWriteExclSem (fst s)) /\ max (mWriteExclSem (fst s)) = 1;
  excl_no_try : Forall (fun p => in_try p = false) (snd s) }.

Lemma excl_inv_step calls s s' :
  (forall o, calls o -> no_try o) -> excl_inv s -> rw_step calls s s' -> excl_inv s'.
Proof.
  intros Hc [C B T] H. destruct H as [m l1 l2 r o Ho|m l1 l2|m l1 l2|m m' l1 l2 p p' E];
    cbn [fst snd] in *; rewrite total_mid in C;
    apply Forall_app in T as [T1 T2]; apply Forall_cons in T2 as [T2 T3].
  - specialize (Hc o Ho). constructor; cbn [fst snd]; [|done|].
    + rewrite total_mid. destruct o; cbn in *; done.
    + apply Forall_app. split; [done|]. constructor; [|done]. destruct o; try reflexivity. by destruct Hc.
  - constructor; cbn [fst snd]; [rewrite total_mid; cbn in *; lia|done|].
    apply Forall_app. split; [done|]. by constructor.
  - constructor; cbn [fst snd]; [rewrite total_mid; cbn in *; lia|done|].
    apply Forall_app. split; [done|]. by constructor.
  - destruct m as [[gc gm] [rc rm] [wc wm] [ec em] aR aW rR rW].
    pose proof (totals_nonneg l1). pose proof (totals_nonneg l2).
    pc_cases p; cbn in *; try discriminate E; try discriminate T2; run_access E;
      (constructor; cbn [fst snd mWriteExclSem set_excl set_read set_write set_guard add_readers
         add_writers count max]; [rewrite total_mid; cbn; lia|lia|];
       apply Forall_app; split; [done|by constructor]).
Qed.

Lemma excl_reach calls n s :
  (forall o, calls o -> no_try o) -> rw_reach calls n s -> excl_inv s.
Proof.
  intros Hc H. unfold rw_reach in H. remember (rw_init n) as s0 eqn:E.
  assert (excl_inv s0) as I.
  { subst. constructor; cbn; [rewrite total_replicate; cbn; lia|lia|by apply Forall_replicate]. }
  clear E. induction H as [|s0 s1 s2 Hs _ IH]; [done|]. apply IH. by eapply excl_inv_step.
Qed.

(** No assertion of the code fails at the next access of a thread. *)
Lemma no_failure m ts p : rw_inv (m, ts) -> excl_inv (m, ts) -> p ∈ ts -> tstep m p <> Failed.
Proof.
  intros I X Hp E. apply list_elem_of_split in Hp as (l1 & l2 & ->).
  pose proof (totals_nonneg l1) as N1. pose proof (totals_nonneg l2) as N2.
  destruct I as [_ Hguard Har Haw Hrr Hrw Hsem Hle _ Hpcs]. destruct X as [Xc Xb Xt].
  cbn [fst snd] in *. rewrite ?total_mid in *.
  apply Forall_app in Hpcs as [_ Hpcs]. apply Forall_inv in Hpcs.
  apply Forall_app in Xt as [_ Xt]. apply Forall_inv in Xt.
  destruct m as [[gc gm] [rc rm] [wc wm] [ec em] aR aW rR rW]. cbn in *.
  pc_cases p; cbn in *; try discriminate E; try discriminate Xt;
  unfold guard_acquire, guard_release, doAcquireExclWrite, sem_acquire, sem_tryAcquire, csem_release,
    bsem_release, pt_sem_wait, pt_sem_trywait, pt_sem_post in E; cbn in E;
  repeat match type of E with
  | context [?a =? ?b] => destruct (Z.eqb_spec a b); cbn in E
  | context [?a <? ?b] => destruct (Z.ltb_spec a b); cbn in E
  | context [?a <=? ?b] => destruct (Z.leb_spec a b); cbn in E
  end; try discriminate E; lia.
Qed.

(** C35: for up to 100 threads that acquire and release in any interleaving
    (everything but tryAcquireWrite), a reader and a writer never hold the
    resource together, two writers never do, and no assertion fails. *)
Theorem rw_mutual_exclusion calls n m ts :
  Z.of_nat n <= SEMAPHORE_CNT_MAX -> (forall o, calls o -> no_try o) ->
  rw_reach calls n (m, ts) ->
  ~ (Reading ∈ ts /\ Writing ∈ ts) /\
  (forall i j, ts !! i = Some Writing -> ts !! j = Some Writing -> i = j) /\
  (forall p, p ∈ ts -> tstep m p <> Failed).
Proof.
  intros Hn Hc Hr. pose proof (rw_reach_inv _ _ _ Hn Hr) as I.
  pose proof (excl_reach _ _ _ Hc Hr) as X. split_and!.
  - intros [H1 H2].
    pose proof (total_in ticket_r ts Reading (fun q => proj1 (proj2 (proj2 (proj2 (weights_nonneg q))))) H1) as T1.
    pose proof (total_in ticket_w ts Writing (fun q => proj1 (proj2 (proj2 (proj2 (proj2 (weights_nonneg q)))))) H2) as T2.
    cbn in T1, T2. pose proof (totals_nonneg ts).
    pose proof (inv_running_r _ I). pose proof (inv_running_w _ I). pose proof (inv_sems _ I).
    pose proof (rw_inv_exclusive _ _ I). cbn [fst snd] in *. lia.
  - intros i j Hi Hj. destruct (decide (i = j)) as [|Hij]; [done|exfalso].
    pose proof (total_two excl_w ts i j _ _ (fun q => proj2 (proj2 (proj2 (proj2 (proj2 (proj2 (proj2 (weights_nonneg q)))))))) Hij Hi Hj) as T.
    pose proof (excl_count _ X). pose proof (excl_bounds _ X). cbn in *. lia.
  - intros p Hp. by eapply no_failure.
Qed.

(** ** Executable runs *)

(** A schedule names the thread that moves and, for a thread outside, the
    operation it calls. *)
Definition sched_step (s : system) (i : nat) (o : rw_op) : option system :=
  match snd s !! i with
  | Some (Idle _) => Some (fst s, <[i := start o]> (snd s))
  | Some Reading => Some (fst s, <[i := RR_assert]> (snd s))
  | Some Writing => Some (fst s, <[i := RW_assert]> (snd s))
  | Some p => match tstep (fst s) p with Step m p' => Some (m, <[i := p']> (snd s)) | _ => None end
  | None => None
  end.

Fixpoint sched_run (s : system) (sched : list (nat * rw_op)) : option system :=
  match sched with
  | [] => Some s
  | (i, o) :: sched' => match sched_step s i o with Some s' => sched_run s' sched' | None => None end
  end.

Lemma sched_step_sound (calls : rw_op -> Prop) s i o s' :
  calls o -> sched_step s i o = Some s' -> rw_step calls s s'.
Proof.
  destruct s as [m ts]. unfold sched_step. cbn [fst snd].
  destruct (ts !! i) as [p|] eqn:Hi; [|done]. intros Ho.
  pose proof (list_elem_of_split_length ts i p Hi) as (l1 & l2 & -> & ->).
  intros E.
  assert (forall q, <[length l1:=q]> (l1 ++ p :: l2) = l1 ++ q :: l2) as Hins
    by (intros q; by rewrite insert_app_r_alt, Nat.sub_diag by lia).
  destruct p; try (injection E as <-; rewrite Hins; by constructor);
    match type of E with match ?t with _ => _ end = _ => destruct t eqn:Et; try discriminate E end;
    injection E as <-; rewrite Hins; by apply step_thread.
Qed.

Lemma sched_run_sound (calls : rw_op -> Prop) sched s s' :
  Forall (fun io => calls (snd io)) sched -> sched_run s sched = Some s' -> rtc (rw_step calls) s s'.
Proof.
  intros Hc. revert s. induction Hc as [|[i o] sched Ho Hc IH]; simpl; intros s H;
    [injection H as <-; constructor|].
  destruct (sched_step s i o) as [s1|] eqn:E; [|done].
  eapply rtc_l; [eapply sched_step_sound; [exact Ho|exact E]|by apply IH].
Qed.

(** A reader holds the resource and a writer waits for it. *)
Definition reader_then_writer : list (nat * rw_op) :=
  replicate 9 (0%nat, AcquireRead) ++ replicate 5 (1%nat, AcquireWrite).

Definition reader_then_writer_end : system :=
  (mkRW (mkSem 1 1) (mkSem 0 100) (mkSem 0 100) (mkSem 1 1) 1 1 1 0, [Reading; AW_ticket]).

Lemma rw_mutual_exclusion_witness :
  ~ (Reading ∈ snd reader_then_writer_end /\ Writing ∈ snd reader_then_writer_end).
Proof.
  apply (rw_mutual_exclusion no_try 2 (fst reader_then_writer_end) (snd reader_then_writer_end));
    [unfold SEMAPHORE_CNT_MAX; lia|done|].
  apply (sched_run_sound no_try reader_then_writer).
  - repeat constructor; discriminate.
  - vm_compute. reflexivity.
Defined.

(** ** Progress *)

(** A step of a thread that is inside the object. *)
Inductive inside_step : system -> system -> Prop :=
| inside m m' l1 l2 p p' : tstep m p = Step m' p' ->
    inside_step (m, l1 ++ p :: l2) (m', l1 ++ p' :: l2).

Lemma inside_rw_step calls s s' : inside_step s s' -> rw_step calls s s'.
Proof. intros []. by apply step_thread. Qed.

(** Accesses a thread has before it on its longest way out, the iterations
    of the grant loops apart. *)
Definition gr_left (k : gr_cont) : Z := match k with AfterAcquireRead => 3 | _ => 2 end.
Definition gw_left (k : gw_cont) : Z := match k with AfterReleaseRead => 2 | _ => 6 end.
Definition left_of (p : pc) : Z :=
  match p with
  | Idle _ | Reading | Writing => 0
  | AR_guard _ => 9 | AR_test _ => 8 | AR_busy => 1 | AR_unguard => 2 | AR_ticket => 1
  | AW_guard _ => 12 | AW_test _ => 11 | AW_busy => 1 | AW_try => 5 | AW_unguard _ => 3
  | AW_ticket => 2 | AW_excl _ => 1
  | RR_assert => 6 | RR_guard => 5 | RR_dec => 4 | RR_unguard => 1
  | RW_assert => 7 | RW_excl => 6 | RW_guard => 5 | RW_dec _ => 4 | RW_unguard => 1
  | GR_test k => gr_left k + 1 | GR_loop k => gr_left k | GR_release k => gr_left k + 1
  | GW_test k => gw_left k + 1 | GW_loop k => gw_left k | GW_release k => gw_left k + 1
  end.

Definition rw_measure (s : system) : Z :=
  2 * (mActiveReadersCnt (fst s) - mRunningReadersCnt (fst s))
  + 2 * (mActiveWritersCnt (fst s) - mRunningWritersCnt (fst s)) + total left_of (snd s).

Lemma rw_measure_nonneg s : rw_inv s -> 0 <= rw_measure s.
Proof.
  intros I. pose proof (inv_le _ I). unfold rw_measure.
  enough (0 <= total left_of (snd s)) by lia. apply total_nonneg. intros p. pc_cases p; cbn; lia.
Qed.

Lemma inside_decreases s s' : inside_step s s' -> rw_measure s' < rw_measure s.
Proof.
  intros [m m' l1 l2 p p' E]. unfold rw_measure; cbn [fst snd]. rewrite !total_mid.
  destruct m as [[gc gm] [rc rm] [wc wm] [ec em] aR aW rR rW].
  pc_cases p; cbn in *; try discriminate E; run_access E; cbn; lia.
Qed.

Lemma inside_bounded k s s' : rw_inv s -> nsteps inside_step k s s' -> Z.of_nat k <= rw_measure s.
Proof.
  intros I H. induction H as [s|k s s1 s' Hs _ IH].
  - pose proof (rw_measure_nonneg s I). lia.
  - pose proof (inside_decreases _ _ Hs).
    specialize (IH (rw_inv_step (fun _ => False) _ _ I (inside_rw_step _ _ _ Hs))). lia.
Qed.

(** Waits for a ticket or for the exclusive semaphore. *)
Definition waiting (p : pc) : bool :=
  match p with AR_ticket | AW_ticket | AW_excl _ => true | _ => false end.

Definition outside (p : pc) : bool :=
  match p with Idle _ | Reading | Writing => true | _ => false end.

Lemma stuck_threads m ts :
  rw_inv (m, ts) -> excl_inv (m, ts) -> (forall s', ~ inside_step (m, ts) s') ->
  forall p, p ∈ ts -> (outside p = true \/ waiting p = true) /\ tstep m p = Blocked.
Proof.
  intros I X Hstuck.
  assert (forall p, p ∈ ts -> tstep m p = Blocked) as Hb.
  { intros p Hp. destruct (tstep m p) as [m' p'| |] eqn:E; [exfalso|done|exfalso].
    - apply list_elem_of_split in Hp as (l1 & l2 & ->). by eapply Hstuck, inside.
    - by eapply no_failure. }
  assert (forall p, p ∈ ts -> in_guard p = 0) as Hg.
  { intros p Hp. specialize (Hb p Hp). destruct m as [[gc gm] [rc rm] [wc wm] [ec em] aR aW rR rW].
    pc_cases p; try reflexivity; exfalso; cbn in Hb;
      unfold guard_release, bsem_release, pt_sem_post, sem_tryAcquire, pt_sem_trywait in Hb; cbn in Hb;
      repeat match type of Hb with
      | context [?a =? ?b] => destruct (Z.eqb_spec a b); cbn in Hb
      | context [?a <? ?b] => destruct (Z.ltb_spec a b); cbn in Hb
      | context [?a <=? ?b] => destruct (Z.leb_spec a b); cbn in Hb
      end; discriminate Hb. }
  assert (total in_guard ts = 0) as Hz.
  { clear -Hg. induction ts as [|p ts IH]; simpl; [done|].
    rewrite Hg by (left). rewrite IH; [done|]. intros q Hq. apply Hg. by right. }
  pose proof (inv_guard _ I) as (G & _). cbn [fst snd] in G.
  intros p Hp. specialize (Hb p Hp). split; [|done]. specialize (Hg p Hp).
  destruct m as [[gc gm] [rc rm] [wc wm] [ec em] aR aW rR rW]. cbn in G.
  assert (gc = 1) as -> by lia.
  pc_cases p; cbn in Hg; try discriminate Hg; cbn; auto; exfalso; cbn in Hb;
    unfold guard_acquire, sem_acquire, pt_sem_wait, bsem_release, pt_sem_post in Hb; cbn in Hb;
    try discriminate Hb;
    repeat match type of Hb with
    | context [?a <? ?b] => destruct (Z.ltb_spec a b); cbn in Hb
    end; discriminate Hb.
Qed.

(** The waiting threads, by what they wait for. *)
Definition at_read_ticket (p : pc) : Z := match p with AR_ticket => 1 | _ => 0 end.
Definition at_write_ticket (p : pc) : Z := match p with AW_ticket => 1 | _ => 0 end.
Definition at_excl (p : pc) : Z := match p with AW_excl _ => 1 | _ => 0 end.

(** Where all threads are outside or wait and nobody holds the resource,
    nobody waits. *)
Lemma nobody_waits m ts :
  rw_inv (m, ts) -> excl_inv (m, ts) ->
  (forall p, p ∈ ts -> (outside p = true \/ waiting p = true) /\ tstep m p = Blocked) ->
  Reading ∉ ts -> Writing ∉ ts -> forall p, p ∈ ts -> waiting p = false.
Proof.
  intros I X Hall HR HW.
  assert (forall f g : pc -> Z,
    (forall r, f (Idle r) = g (Idle r)) -> f AR_ticket = g AR_ticket -> f AW_ticket = g AW_ticket ->
    (forall b, f (AW_excl b) = g (AW_excl b)) -> total f ts = total g ts) as Hsum.
  { intros f g H1 H2 H3 H4. apply total_ext_in. intros p Hp. destruct (Hall p Hp) as [Hp' _].
    destruct p; cbn in Hp'; naive_solver. }
  pose proof (Hsum active_r at_read_ticket (fun _ => eq_refl) eq_refl eq_refl (fun _ => eq_refl)) as S1.
  pose proof (Hsum ticket_r (fun _ => 0) (fun _ => eq_refl) eq_refl eq_refl (fun _ => eq_refl)) as S2.
  pose proof (Hsum ticket_w at_excl (fun _ => eq_refl) eq_refl eq_refl (fun b => ltac:(by destruct b))) as S3.
  pose proof (Hsum active_w (fun p => at_write_ticket p + at_excl p)
    (fun _ => eq_refl) eq_refl eq_refl (fun b => eq_refl)) as S4.
  pose proof (Hsum excl_w (fun _ => 0) (fun _ => eq_refl) eq_refl eq_refl (fun _ => eq_refl)) as S5.
  pose proof (Hsum in_guard (fun _ => 0) (fun _ => eq_refl) eq_refl eq_refl (fun _ => eq_refl)) as S6.
  pose proof (Hsum pending_r (fun _ => 0) (fun _ => eq_refl) eq_refl eq_refl (fun _ => eq_refl)) as S7.
  pose proof (Hsum pending_w (fun _ => 0) (fun _ => eq_refl) eq_refl eq_refl (fun _ => eq_refl)) as S8.
  assert (total (fun _ : pc => 0) ts = 0) as Z0 by (clear; induction ts; simpl; lia).
  rewrite total_add in S4.
  assert (0 < total at_read_ticket ts -> count (mReadSem m) = 0) as B1.
  { intros (q & Hq & Hq1)%total_pos; [|intros q; destruct q; cbn; lia].
    destruct q; cbn in Hq1; try lia. destruct (Hall _ Hq) as [_ E]. cbn in E.
    unfold sem_acquire, pt_sem_wait in E. destruct (Z.eqb_spec (count (mReadSem m)) 0); done. }
  assert (0 < total at_write_ticket ts -> count (mWriteSem m) = 0) as B2.
  { intros (q & Hq & Hq1)%total_pos; [|intros q; destruct q; cbn; lia].
    destruct q; cbn in Hq1; try lia. destruct (Hall _ Hq) as [_ E]. cbn in E.
    unfold sem_acquire, pt_sem_wait in E. destruct (Z.eqb_spec (count (mWriteSem m)) 0); done. }
  assert (0 < total at_excl ts -> count (mWriteExclSem m) = 0) as B3.
  { intros (q & Hq & Hq1)%total_pos; [|intros q; destruct q; cbn; lia].
    destruct q as [| | | | | | | | | | | | | |b| | | | | | | | | | | | | | |]; cbn in Hq1; try lia.
    destruct (Hall _ Hq) as [_ E]. cbn in E. unfold doAcquireExclWrite in E.
    destruct b; [destruct (sem_tryAcquire (mWriteExclSem m)); done|].
    unfold sem_acquire, pt_sem_wait in E. destruct (Z.eqb_spec (count (mWriteExclSem m)) 0); done. }
  pose proof (inv_active_r _ I). pose proof (inv_active_w _ I). pose proof (inv_running_r _ I).
  pose proof (inv_running_w _ I). pose proof (inv_sems _ I). pose proof (inv_le _ I).
  pose proof (inv_settled _ I) as HS. pose proof (excl_count _ X). pose proof (totals_nonneg ts).
  assert (0 <= total at_write_ticket ts) by (apply total_nonneg; intros []; cbn; lia).
  cbn [fst snd] in *. unfold settled in HS.
  assert (total at_read_ticket ts = 0 /\ total at_write_ticket ts = 0 /\ total at_excl ts = 0) as (T1 & T2 & T3) by lia.
  intros p Hp. destruct (waiting p) eqn:Hw; [exfalso|done].
  assert (1 <= total at_read_ticket ts \/ 1 <= total at_write_ticket ts \/ 1 <= total at_excl ts) as H';
    [|lia].
  destruct p; try discriminate Hw;
    [left; apply (total_in at_read_ticket ts AR_ticket)
    |right; left; apply (total_in at_write_ticket ts AW_ticket)
    |right; right; apply (total_in at_excl ts (AW_excl dontBlock))]; try done; intros []; cbn; lia.
Qed.

(** C38: the lock makes progress, for up to SEMAPHORE_CNT_MAX (100) threads none
    of which calls tryAcquireWrite, which lets two writers in.  From every
    state they can reach, a run of threads inside the object ends after at most [rw_measure] accesses, and where no
    thread inside can move, every thread is outside, holds the resource or
    waits for it, and threads wait only while some thread reads or writes:
    there is no deadlock and no lost wake-up. *)
Theorem rw_progress calls n m ts :
  Z.of_nat n <= SEMAPHORE_CNT_MAX -> (forall o, calls o -> no_try o) ->
  rw_reach calls n (m, ts) ->
  (forall k s', nsteps inside_step k (m, ts) s' -> Z.of_nat k <= rw_measure (m, ts)) /\
  ((forall s', ~ inside_step (m, ts) s') ->
     (forall p, p ∈ ts -> outside p = true \/ waiting p = true) /\
     ((exists p, p ∈ ts /\ waiting p = true) -> Reading ∈ ts \/ Writing ∈ ts)).
Proof.
  intros Hn Hc Hr. pose proof (rw_reach_inv _ _ _ Hn Hr) as I.
  pose proof (excl_reach _ _ _ Hc Hr) as X.
  split; [intros k s'; by apply inside_bounded|]. intros Hstuck.
  pose proof (stuck_threads _ _ I X Hstuck) as Hall. split; [intros p Hp; by apply Hall|].
  intros (p & Hp & Hw).
  destruct (decide (Reading ∈ ts)); [by left|]. destruct (decide (Writing ∈ ts)); [by right|].
  rewrite (nobody_waits m ts I X Hall) in Hw by done. done.
Qed.

Lemma rw_progress_witness :
  (forall k s', nsteps inside_step k reader_then_writer_end s' ->
     Z.of_nat k <= rw_measure reader_then_writer_end) /\
  ((forall s', ~ inside_step reader_then_writer_end s') ->
     (forall p, p ∈ [Reading; AW_ticket] -> outside p = true \/ waiting p = true) /\
     ((exists p, p ∈ [Reading; AW_ticket] /\ waiting p = true) ->
        Reading ∈ [Reading; AW_ticket] \/ Writing ∈ [Reading; AW_ticket])).
Proof.
  apply (rw_progress no_try 2 (fst reader_then_writer_end) (snd reader_then_writer_end));
    [unfold SEMAPHORE_CNT_MAX; lia|done|].
  apply (sched_run_sound no_try reader_then_writer).
  - repeat constructor; discriminate.
  - vm_compute. reflexivity.
Defined.

(** ** The race of tryAcquireWrite *)

(** Thread 0 calls tryAcquireWrite and is overtaken, after it left the
    critical section, by thread 1 that calls acquireWrite. *)
Definition try_race_schedule : list (nat * rw_op) :=
  replicate 9 (0%nat, TryAcquireWrite) ++ replicate 10 (1%nat, AcquireWrite) ++ [(0%nat, TryAcquireWrite)].

(** Thread 0 then begins to release, and thread 1 after it. *)
Definition try_race_release : list (nat * rw_op) :=
  replicate 3 (0%nat, TryAcquireWrite) ++ replicate 2 (1%nat, AcquireWrite).

(** with tryAcquireWrite two threads can hold the resource for writing at
    the same time, and the release of the second then fails an assertion:
    doAcquireExclWrite reports success also when the exclusive semaphore was
    busy. *)
Theorem try_write_race :
  (exists m, rw_reach (fun _ => True) 2 (m, [Writing; Writing])) /\
  (exists m ts p, rw_reach (fun _ => True) 2 (m, ts) /\ p ∈ ts /\ tstep m p = Failed).
Proof.
  split.
  - eexists. apply (sched_run_sound _ try_race_schedule); [by repeat constructor|].
    vm_compute. reflexivity.
  - do 2 eexists. exists RW_excl. split_and!.
    + apply (sched_run_sound _ (try_race_schedule ++ try_race_release)); [by repeat constructor|].
      vm_compute. reflexivity.
    + right. left.
    + vm_compute. reflexivity.
Qed.
