(* ===== verification/OsMsgQ.v ===== *)
(** * OsMsgQShared: message queues between threads

    Model of [sipXportLib/src/os/shared/OsMsgQShared.cpp] and the inline
    functions of [include/os/shared/OsMsgQShared.h]: the Semaphore class with
    its mutex and condition variable, enqueue and dequeue with and without
    timeout, and doSendCore and doReceive on top of them, run by any number of
    threads.  A message is its address, a number.  A thread that waits on a
    condition variable is asleep ([.._sleep]) until [notify_one] picks it. *)
From Stdlib Require Import ZArith Lia.
From stdpp Require Import base list relations.
From S2P Require Import Prelude OsSem.
Local Open Scope Z_scope.

(** OsMsgQShared::Semaphore, its mutex implicit: every operation holds it. *)
Record Semaphore := mkSemaphore { s_max : Z; s_count : Z }.

Definition UINT_MAX : Z := 2 ^ 32 - 1.
Definition Semaphore_default : Semaphore := mkSemaphore UINT_MAX 0.

(** [_queuePreference == QUEUE_LIMITED] is [limited]; [deleted] records the
    messages the queue itself deleted. *)
Record OsMsgQShared := mkQ {
  limited : bool; q_empty : Semaphore; q_full : Semaphore; q_cs : bool;
  q_queue : list Z; deleted : list Z }.

(** The constructor; [_empty] is NULL for an unlimited queue. *)
Definition OsMsgQShared_new (lim : bool) (maxMsgs : Z) : OsMsgQShared :=
  if lim then mkQ true (mkSemaphore maxMsgs maxMsgs) (mkSemaphore maxMsgs 0) false [] []
  else mkQ false Semaphore_default Semaphore_default false [] [].

Definition set_empty (s : Semaphore) (q : OsMsgQShared) : OsMsgQShared :=
  mkQ (limited q) s (q_full q) (q_cs q) (q_queue q) (deleted q).
Definition set_full (s : Semaphore) (q : OsMsgQShared) : OsMsgQShared :=
  mkQ (limited q) (q_empty q) s (q_cs q) (q_queue q) (deleted q).
Definition set_cs (b : bool) (q : OsMsgQShared) : OsMsgQShared :=
  mkQ (limited q) (q_empty q) (q_full q) b (q_queue q) (deleted q).
Definition set_queue (l : list Z) (q : OsMsgQShared) : OsMsgQShared :=
  mkQ (limited q) (q_empty q) (q_full q) (q_cs q) l (deleted q).
Definition add_deleted (m : Z) (q : OsMsgQShared) : OsMsgQShared :=
  mkQ (limited q) (q_empty q) (q_full q) (q_cs q) (q_queue q) (deleted q ++ [m]).

(** Points of the code of send and receive. *)
Inductive qpc :=
| QIdle (r : OsStatus) (got : option Z)
| S_start (m : Z) (timed del : bool)                     (* doSendCore: the hook *)
| S_empty (m : Z) (timed : bool) | S_empty_sleep (m : Z) (timed : bool)  (* _empty->wait *)
| S_lock (m : Z) | S_push (m : Z) | S_unlock (m : Z)     (* _queue.push under _cs *)
| S_full (m : Z) | S_full_sleep (m : Z)                  (* _full->signal *)
| S_count (r : OsStatus)                                 (* numMsgs *)
| R_full (timed : bool) | R_full_sleep (timed : bool)    (* _full->wait *)
| R_lock | R_pop | R_unlock (m : Z)
| R_empty (m : Z) | R_empty_sleep (m : Z).               (* _empty->signal *)

#[global] Instance qpc_eq_dec : EqDecision qpc.
Proof. solve_decision. Defined.

(** The condition variable that is notified. *)
Inductive cond := CEmpty | CFull.

Inductive qres :=
| QStep (q : OsMsgQShared) (p : qpc) (notify : option cond)
| QBlocked
| QUB.

(** Semaphore::wait up to the test of the count: decrement or sleep. *)
Definition sem_wait (s : Semaphore) : option Semaphore :=
  if s_count s =? 0 then None else Some (mkSemaphore (s_max s) (s_count s - 1)).

(** Semaphore::signal up to the test of the count: increment or sleep. *)
Definition sem_signal (s : Semaphore) : option Semaphore :=
  if s_max s <=? s_count s then None else Some (mkSemaphore (s_max s) (s_count s + 1)).

Section Queue.
(** [mSendHookFunc]: NULL is the hook that handles no message. *)
Variable hook : Z -> bool.

Definition qtstep (q : OsMsgQShared) (p : qpc) : qres :=
  match p with
  | QIdle _ _ | S_empty_sleep _ _ | S_full_sleep _ | R_full_sleep _ | R_empty_sleep _ => QBlocked
  (* doSendCore *)
  | S_start m t del =>
      if hook m then
        QStep (if del then add_deleted m q else q) (QIdle OS_SUCCESS None) None
      else QStep q (if limited q then S_empty m t else S_lock m) None
  (* enqueue, try_enqueue *)
  | S_empty m t =>
      match sem_wait (q_empty q) with
      | Some s => QStep (set_empty s q) (S_lock m) None
      | None => QStep q (S_empty_sleep m t) None
      end
  | S_lock m => if q_cs q then QBlocked else QStep (set_cs true q) (S_push m) None
  | S_push m => QStep (set_queue (q_queue q ++ [m]) q) (S_unlock m) None
  | S_unlock m => QStep (set_cs false q) (S_full m) None
  | S_full m =>
      match sem_signal (q_full q) with
      | Some s => QStep (set_full s q) (S_count OS_SUCCESS) (Some CFull)
      | None => QStep q (S_full_sleep m) None
      end
  | S_count r => if q_cs q then QBlocked else QStep q (QIdle r None) None
  (* dequeue, try_dequeue *)
  | R_full t =>
      match sem_wait (q_full q) with
      | Some s => QStep (set_full s q) R_lock None
      | None => QStep q (R_full_sleep t) None
      end
  | R_lock => if q_cs q then QBlocked else QStep (set_cs true q) R_pop None
  | R_pop =>
      match q_queue q with
      | m :: l => QStep (set_queue l q) (R_unlock m) None
      | [] => QUB
      end
  | R_unlock m =>
      QStep (set_cs false q) (if limited q then R_empty m else QIdle OS_SUCCESS (Some m)) None
  | R_empty m =>
      match sem_signal (q_empty q) with
      | Some s => QStep (set_empty s q) (QIdle OS_SUCCESS (Some m)) (Some CEmpty)
      | None => QStep q (R_empty_sleep m) None
      end
  end.

(** The point where a sleeper goes on after it is woken. *)
Definition woken (c : cond) (p : qpc) : option qpc :=
  match c, p with
  | CEmpty, S_empty_sleep m t => Some (S_empty m t)
  | CEmpty, R_empty_sleep m => Some (R_empty m)
  | CFull, R_full_sleep t => Some (R_full t)
  | CFull, S_full_sleep m => Some (S_full m)
  | _, _ => None
  end.

(** [notify_one]: some sleeper wakes up, if there is one. *)
Inductive notify : option cond -> list qpc -> list qpc -> Prop :=
| notify_nothing ts : notify None ts ts
| notify_nobody c ts : Forall (fun p => woken c p = None) ts -> notify (Some c) ts ts
| notify_wakes c l1 l2 p p' : woken c p = Some p' ->
    notify (Some c) (l1 ++ p :: l2) (l1 ++ p' :: l2).

Definition qsystem : Type := OsMsgQShared * list qpc.

(** Threads inside the queue. *)
Inductive q_inside : qsystem -> qsystem -> Prop :=
| q_thread q q' l1 l2 p p' c ts' : qtstep q p = QStep q' p' c ->
    notify c (l1 ++ p' :: l2) ts' -> q_inside (q, l1 ++ p :: l2) (q', ts').

(** The environment: calls of send and receive, timeouts of [timed_wait],
    and wake-ups without a notification. *)
Inductive q_outside : qsystem -> qsystem -> Prop :=
| q_send q l1 l2 r g m t del :
    q_outside (q, l1 ++ QIdle r g :: l2) (q, l1 ++ S_start m t del :: l2)
| q_receive q l1 l2 r g t :
    q_outside (q, l1 ++ QIdle r g :: l2) (q, l1 ++ R_full t :: l2)
| q_send_timeout q l1 l2 m :
    q_outside (q, l1 ++ S_empty_sleep m true :: l2) (q, l1 ++ S_count OS_WAIT_TIMEOUT :: l2)
| q_receive_timeout q l1 l2 :
    q_outside (q, l1 ++ R_full_sleep true :: l2) (q, l1 ++ QIdle OS_WAIT_TIMEOUT None :: l2)
| q_spurious q l1 l2 c p p' : woken c p = Some p' ->
    q_outside (q, l1 ++ p :: l2) (q, l1 ++ p' :: l2).

Definition q_step (s s' : qsystem) : Prop := q_inside s s' \/ q_outside s s'.

Definition q_init (lim : bool) (maxMsgs : Z) (n : nat) : qsystem :=
  (OsMsgQShared_new lim maxMsgs, replicate n (QIdle OS_SUCCESS None)).

Definition q_reach (lim : bool) (maxMsgs : Z) (n : nat) (s : qsystem) : Prop :=
  rtc q_step (q_init lim maxMsgs n) s.
End Queue.

(** * OsMsgQShared: bounds, progress and no lost wake-up

    The invariant [q_inv] counts threads at each point of the code against
    the two semaphores and the length of the queue. *)
(** ** Weights of the points of the code *)

Definition in_cs (p : qpc) : Z :=
  match p with S_push _ | S_unlock _ | R_pop | R_unlock _ => 1 | _ => 0 end.

(** Between the wait on one semaphore and the signal of the other. *)
Definition slot (p : qpc) : Z :=
  match p with
  | S_lock _ | S_push _ | S_unlock _ | S_full _ | S_full_sleep _
  | R_lock | R_pop | R_unlock _ | R_empty _ | R_empty_sleep _ => 1
  | _ => 0
  end.

(** Its message is in the queue and not signalled; it may take a message. *)
Definition filled (p : qpc) : Z :=
  match p with S_unlock _ | S_full _ | S_full_sleep _ => 1 | _ => 0 end.
Definition taking (p : qpc) : Z := match p with R_lock | R_pop => 1 | _ => 0 end.

Definition wait_empty (p : qpc) : Z := match p with S_empty _ _ => 1 | _ => 0 end.
Definition sleep_empty (p : qpc) : Z := match p with S_empty_sleep _ _ => 1 | _ => 0 end.
Definition wait_full (p : qpc) : Z := match p with R_full _ => 1 | _ => 0 end.
Definition sleep_full (p : qpc) : Z := match p with R_full_sleep _ => 1 | _ => 0 end.
Definition sleep_signal (p : qpc) : Z := match p with S_full_sleep _ | R_empty_sleep _ => 1 | _ => 0 end.

Record q_inv (maxMsgs : Z) (s : qsystem) : Prop := {
  qi_limited : limited (fst s) = true;
  qi_max : s_max (q_empty (fst s)) = maxMsgs /\ s_max (q_full (fst s)) = maxMsgs;
  qi_counts : 0 <= s_count (q_empty (fst s)) /\ 0 <= s_count (q_full (fst s));
  qi_cs : (if q_cs (fst s) then 1 else 0) = total in_cs (snd s);
  qi_slots : s_count (q_empty (fst s)) + s_count (q_full (fst s)) + total slot (snd s) = maxMsgs;
  qi_queue : Z.of_nat (length (q_queue (fst s)))
    = s_count (q_full (fst s)) + total filled (snd s) + total taking (snd s);
  qi_signal : total sleep_signal (snd s) = 0;
  qi_wake_empty : 0 < total sleep_empty (snd s) ->
    s_count (q_empty (fst s)) <= total wait_empty (snd s);
  qi_wake_full : 0 < total sleep_full (snd s) ->
    s_count (q_full (fst s)) <= total wait_full (snd s) }.

Lemma q_weights l :
  0 <= total in_cs l /\ 0 <= total slot l /\ 0 <= total filled l /\ 0 <= total taking l /\
  0 <= total wait_empty l /\ 0 <= total sleep_empty l /\ 0 <= total wait_full l /\
  0 <= total sleep_full l /\ 0 <= total sleep_signal l.
Proof. split_and!; apply total_nonneg; intros []; cbn; lia. Qed.

Lemma q_weights_le l :
  total filled l + total taking l <= total slot l.
Proof. rewrite <- total_add. apply total_le. intros []; cbn; lia. Qed.

(** ** Waking up *)

(** The threads that a notification leaves alone have no sleeper of their
    condition; otherwise one sleeper becomes a waiter. *)
Lemma notify_full ts ts' :
  notify (Some CFull) ts ts' -> total sleep_signal ts = 0 ->
  (ts' = ts /\ total sleep_full ts = 0) \/
  (exists l1 l2 t, ts = l1 ++ R_full_sleep t :: l2 /\ ts' = l1 ++ R_full t :: l2).
Proof.
  intros H Hs. inversion H as [|c ts1 Hn|c l1 l2 p p' Hw]; subst.
  - left. split; [done|]. clear H Hs. induction Hn as [|p ts Hp Hn IH]; simpl; [done|].
    rewrite IH. destruct p; try discriminate Hp; done.
  - right. rewrite total_mid in Hs. pose proof (q_weights l1). pose proof (q_weights l2).
    destruct p; try discriminate Hw; cbn in Hs; [lia|]. injection Hw as <-. eauto.
Qed.

Lemma notify_empty ts ts' :
  notify (Some CEmpty) ts ts' -> total sleep_signal ts = 0 ->
  (ts' = ts /\ total sleep_empty ts = 0) \/
  (exists l1 l2 m t, ts = l1 ++ S_empty_sleep m t :: l2 /\ ts' = l1 ++ S_empty m t :: l2).
Proof.
  intros H Hs. inversion H as [|c ts1 Hn|c l1 l2 p p' Hw]; subst.
  - left. split; [done|]. clear H Hs. induction Hn as [|p ts Hp Hn IH]; simpl; [done|].
    rewrite IH. destruct p; try discriminate Hp; done.
  - right. rewrite total_mid in Hs. pose proof (q_weights l1). pose proof (q_weights l2).
    destruct p; try discriminate Hw; cbn in Hs; [|lia]. injection Hw as <-. by do 4 eexists.
Qed.

(** ** Preservation *)

Section Spec.
Variable hook : Z -> bool.

(** An access that notifies nobody. *)
Lemma q_inv_access N q q' l1 l2 p p' :
  q_inv N (q, l1 ++ p :: l2) -> qtstep hook q p = QStep q' p' None ->
  q_inv N (q', l1 ++ p' :: l2).
Proof.
  intros I E.
  pose proof (q_weights l1) as W1. pose proof (q_weights l2) as W2.
  pose proof (q_weights_le l1) as L1. pose proof (q_weights_le l2) as L2.
  destruct I as [Hlim Hmax Hcnt Hcs Hslot Hq Hsig He Hf]. cbn [fst snd] in *.
  rewrite ?total_mid in *.
  destruct q as [lim [em ec] [fm fc] cs queue del]. cbn in *. subst lim.
  destruct p, cs; cbn in *; try discriminate E;
    repeat match type of E with
    | context [hook ?m] => destruct (hook m); cbn in E
    | context [if ?b then _ else _] => is_var b; destruct b; cbn in E
    | context [sem_wait ?s] => unfold sem_wait in E; cbn in E
    | context [sem_signal ?s] => unfold sem_signal in E; cbn in E
    | context [?a =? ?b] => destruct (Z.eqb_spec a b); cbn in E
    | context [?a <=? ?b] => destruct (Z.leb_spec a b); cbn in E
    | match ?l with [] => _ | _ => _ end = _ => is_var l; destruct l; cbn in E
    end; try discriminate E; injection E as <- <-;
    (constructor; cbn; rewrite ?total_mid, ?length_app; cbn in *; try reflexivity; lia).
Qed.

(** The signal of [_full] by a sender, of [_empty] by a receiver. *)
Lemma q_inv_signal_full N q l1 l2 m ts' :
  q_inv N (q, l1 ++ S_full m :: l2) ->
  notify (Some CFull) (l1 ++ S_count OS_SUCCESS :: l2) ts' ->
  q_inv N (set_full (mkSemaphore N (s_count (q_full q) + 1)) q, ts').
Proof.
  intros I Hn. pose proof (q_weights l1) as W1. pose proof (q_weights l2) as W2.
  destruct I as [Hlim Hmax Hcnt Hcs Hslot Hq Hsig He Hf]. cbn [fst snd] in *.
  rewrite ?total_mid in *. cbn in *.
  apply notify_full in Hn as [[-> Hz] | (a & b & t & E & ->)]; [| |rewrite total_mid; cbn; lia].
  - rewrite total_mid in Hz. cbn in Hz.
    constructor; cbn; rewrite ?total_mid; cbn; (done || lia).
  - assert (forall f, total f l1 + f (S_count OS_SUCCESS) + total f l2
      = total f a + f (R_full_sleep t) + total f b) as Hs
      by (intros f; rewrite <- !total_mid; by rewrite E).
    pose proof (Hs in_cs). pose proof (Hs slot). pose proof (Hs filled). pose proof (Hs taking).
    pose proof (Hs wait_empty). pose proof (Hs sleep_empty). pose proof (Hs wait_full).
    pose proof (Hs sleep_full). pose proof (Hs sleep_signal). clear Hs. cbn in *.
    constructor; cbn; rewrite ?total_mid; cbn; (done || lia).
Qed.

Lemma q_inv_signal_empty N q l1 l2 m ts' :
  q_inv N (q, l1 ++ R_empty m :: l2) ->
  notify (Some CEmpty) (l1 ++ QIdle OS_SUCCESS (Some m) :: l2) ts' ->
  q_inv N (set_empty (mkSemaphore N (s_count (q_empty q) + 1)) q, ts').
Proof.
  intros I Hn. pose proof (q_weights l1) as W1. pose proof (q_weights l2) as W2.
  destruct I as [Hlim Hmax Hcnt Hcs Hslot Hq Hsig He Hf]. cbn [fst snd] in *.
  rewrite ?total_mid in *. cbn in *.
  apply notify_empty in Hn as [[-> Hz] | (a & b & m' & t & E & ->)]; [| |rewrite total_mid; cbn; lia].
  - rewrite total_mid in Hz. cbn in Hz.
    constructor; cbn; rewrite ?total_mid; cbn; (done || lia).
  - assert (forall f, total f l1 + f (QIdle OS_SUCCESS (Some m)) + total f l2
      = total f a + f (S_empty_sleep m' t) + total f b) as Hs
      by (intros f; rewrite <- !total_mid; by rewrite E).
    pose proof (Hs in_cs). pose proof (Hs slot). pose proof (Hs filled). pose proof (Hs taking).
    pose proof (Hs wait_empty). pose proof (Hs sleep_empty). pose proof (Hs wait_full).
    pose proof (Hs sleep_full). pose proof (Hs sleep_signal). clear Hs. cbn in *.
    constructor; cbn; rewrite ?total_mid; cbn; (done || lia).
Qed.

Lemma q_inv_inside N s s' : q_inv N s -> q_inside hook s s' -> q_inv N s'.
Proof.
  intros I H. destruct H as [q q' l1 l2 p p' c ts' E Hn]. destruct c as [c|].
  2:{ inversion Hn; subst. eapply q_inv_access; [exact I|exact E]. }
  pose proof (qi_max _ _ I) as [M1 M2]. cbn [fst] in M1, M2.
  destruct p; cbn in E; try discriminate E.
  - destruct (hook m); discriminate E.
  - destruct (sem_wait _); discriminate E.
  - destruct (q_cs q); discriminate E.
  - unfold sem_signal in E. destruct (s_max (q_full q) <=? s_count (q_full q)); [discriminate E|].
    injection E as <- <- <-. rewrite M2. by eapply q_inv_signal_full.
  - destruct (q_cs q); discriminate E.
  - destruct (sem_wait _); discriminate E.
  - destruct (q_cs q); discriminate E.
  - destruct (q_queue q); discriminate E.
  - unfold sem_signal in E. destruct (s_max (q_empty q) <=? s_count (q_empty q)); [discriminate E|].
    injection E as <- <- <-. rewrite M1. by eapply q_inv_signal_empty.
Qed.

Lemma q_inv_outside N s s' : q_inv N s -> q_outside s s' -> q_inv N s'.
Proof.
  intros I H.
  destruct H as [q l1 l2 r g m t del|q l1 l2 r g t|q l1 l2 m|q l1 l2|q l1 l2 c p p' Hw];
    pose proof (q_weights l1) as W1; pose proof (q_weights l2) as W2;
    destruct I as [Hlim Hmax Hcnt Hcs Hslot Hq Hsig He Hf]; cbn [fst snd] in *;
    rewrite ?total_mid in *;
    try (destruct c, p; try discriminate Hw; injection Hw as <-);
    (constructor; cbn [fst snd]; rewrite ?total_mid; cbn in *; (done || lia)).
Qed.

Lemma q_inv_init N n : 0 <= N -> q_inv N (q_init true N n).
Proof.
  intros HN. assert (forall f : qpc -> Z, f (QIdle OS_SUCCESS None) = 0 ->
    total f (replicate n (QIdle OS_SUCCESS None)) = 0) as Ht.
  { intros f Hf. induction n as [|n IH]; simpl; [done|]. lia. }
  constructor; cbn; rewrite ?Ht by done; (done || lia).
Qed.

Lemma q_reach_inv N n s : 0 <= N -> q_reach hook true N n s -> q_inv N s.
Proof.
  intros HN H. unfold q_reach in H. remember (q_init true N n) as s0 eqn:E.
  assert (q_inv N s0) as I by (subst; by apply q_inv_init). clear E.
  induction H as [|s0 s1 s2 [Hs | Hs] _ IH]; [done|..]; apply IH;
    [by eapply q_inv_inside|by eapply q_inv_outside].
Qed.

(** ** Safety *)

(** The abstract channel: a sequence of at most [N] messages. *)
Inductive fifo_step (N : Z) : list Z -> list Z -> Prop :=
| fifo_stutter l : fifo_step N l l
| fifo_send l m : Z.of_nat (length l) < N -> fifo_step N l (l ++ [m])
| fifo_receive l m : fifo_step N (m :: l) l.

Lemma q_inv_bound N s : q_inv N s -> Z.of_nat (length (q_queue (fst s))) <= N.
Proof.
  intros I. pose proof (q_weights (snd s)). pose proof (q_weights_le (snd s)).
  pose proof (qi_counts _ _ I). pose proof (qi_slots _ _ I). pose proof (qi_queue _ _ I). lia.
Qed.

Lemma q_step_fifo N s s' :
  q_inv N s -> q_step hook s s' -> fifo_step N (q_queue (fst s)) (q_queue (fst s')).
Proof.
  intros I [H | H]; [|destruct H; constructor].
  destruct H as [q q' l1 l2 p p' c ts' E Hn]. cbn [fst].
  destruct p; cbn in E;
    repeat match type of E with
    | context [hook ?m] => destruct (hook m)
    | context [sem_wait ?s] => destruct (sem_wait s)
    | context [sem_signal ?s] => destruct (sem_signal s)
    | context [if q_cs q then _ else _] => destruct (q_cs q)
    end; try discriminate E; try (injection E as <- <- <-; try destruct del; constructor).
  - pose proof (q_weights l1). pose proof (q_weights l2).
    pose proof (q_weights_le l1). pose proof (q_weights_le l2).
    pose proof (qi_slots _ _ I) as Hsl. pose proof (qi_queue _ _ I) as Hqu.
    pose proof (qi_counts _ _ I). cbn [fst snd] in *. rewrite !total_mid in *. cbn in *. lia.
  - destruct (q_queue q) as [|x l] eqn:Eq; [discriminate E|]. injection E as <- <- <-. constructor.
Qed.

(** C36: a limited queue is a bounded FIFO channel in every interleaving of
    senders, receivers, timeouts and spurious wake-ups: each step leaves the
    sequence of messages, appends one while there is room or removes the
    first, the queue never holds more than [maxMsgs] messages, no receiver
    takes the front of an empty [std::queue], and no signal of a semaphore
    ever waits. *)
Theorem queue_is_bounded_fifo N n q ts :
  0 <= N -> q_reach hook true N n (q, ts) ->
  Z.of_nat (length (q_queue q)) <= N /\
  (forall s', q_step hook (q, ts) s' -> fifo_step N (q_queue q) (q_queue (fst s'))) /\
  (forall p, p ∈ ts -> qtstep hook q p <> QUB /\ sleep_signal p = 0).
Proof.
  intros HN Hr. pose proof (q_reach_inv _ _ _ HN Hr) as I.
  split_and!; [by apply (q_inv_bound N (q, ts))|intros s' Hs; by apply (q_step_fifo N (q, ts))|].
  intros p Hp. split.
  - apply list_elem_of_split in Hp as (l1 & l2 & ->).
    pose proof (q_weights l1). pose proof (q_weights l2).
    pose proof (qi_queue _ _ I) as Hqu. pose proof (qi_counts _ _ I). cbn [fst snd] in *.
    rewrite !total_mid in Hqu.
    destruct p; cbn in *; repeat case_match; try done; cbn in Hqu; lia.
  - pose proof (qi_signal _ _ I) as Hs. cbn [snd] in Hs.
    pose proof (total_in sleep_signal ts p ltac:(intros []; cbn; lia) Hp).
    destruct p; cbn in *; (reflexivity || lia).
Qed.

(** ** Progress *)

Definition q_left (p : qpc) : Z :=
  match p with
  | QIdle _ _ => 0
  | S_start _ _ _ => 9 | S_empty _ _ => 8 | S_empty_sleep _ _ => 7 | S_lock _ => 6 | S_push _ => 5
  | S_unlock _ => 4 | S_full _ => 3 | S_full_sleep _ => 2 | S_count _ => 1
  | R_full _ => 8 | R_full_sleep _ => 7 | R_lock => 6 | R_pop => 5 | R_unlock _ => 4
  | R_empty _ => 2 | R_empty_sleep _ => 1
  end.

Lemma notify_left c ts ts' :
  notify c ts ts' -> total q_left ts' <= total q_left ts + match c with Some _ => 1 | None => 0 end.
Proof.
  intros [ts0|c' ts0 _|c' l1 l2 p p' Hw]; [lia|lia|]. rewrite !total_mid.
  destruct c', p; try discriminate Hw; injection Hw as <-; cbn; lia.
Qed.

Lemma q_inside_decreases s s' :
  q_inside hook s s' -> total q_left (snd s') < total q_left (snd s).
Proof.
  intros [q q' l1 l2 p p' c ts' E Hn]. cbn [snd]. apply notify_left in Hn.
  rewrite total_mid in *.
  destruct p; cbn in E;
    repeat match type of E with
    | context [hook ?m] => destruct (hook m)
    | context [sem_wait ?s] => destruct (sem_wait s)
    | context [sem_signal ?s] => destruct (sem_signal s)
    | context [if q_cs q then _ else _] => destruct (q_cs q)
    | context [if limited q then _ else _] => destruct (limited q)
    | context [match q_queue q with _ => _ end] => destruct (q_queue q)
    end; try discriminate E; injection E as <- <- <-; cbn in *; lia.
Qed.

Lemma q_inside_bounded k s s' :
  nsteps (q_inside hook) k s s' -> Z.of_nat k <= total q_left (snd s).
Proof.
  intros H. induction H as [s|k s s1 s' Hs _ IH].
  - apply total_nonneg. intros []; cbn; lia.
  - pose proof (q_inside_decreases _ _ Hs). lia.
Qed.

Definition q_asleep (p : qpc) : bool :=
  match p with S_empty_sleep _ _ | R_full_sleep _ => true | _ => false end.

Lemma notify_exists c ts : exists ts', notify c ts ts'.
Proof.
  destruct c as [c|]; [|eexists; constructor].
  destruct (decide (Exists (fun p => is_Some (woken c p)) ts)) as [H|H].
  - apply Exists_exists in H as (p & Hp & [p' Hw]).
    apply list_elem_of_split in Hp as (l1 & l2 & ->). eexists. by eapply notify_wakes.
  - apply not_Exists_Forall in H; [|intros; apply _].
    exists ts. apply notify_nobody. eapply Forall_impl; [exact H|]. cbn. intros p Hp.
    destruct (woken c p); [exfalso; eauto|done].
Qed.

(** In a state where no thread can move the critical section is free. *)
Lemma q_stuck_asleep N q ts :
  q_inv N (q, ts) -> (forall s', ~ q_inside hook (q, ts) s') ->
  forall p, p ∈ ts -> (exists r g, p = QIdle r g) \/ q_asleep p = true.
Proof.
  intros I Hstuck.
  assert (forall p q' p' c, p ∈ ts -> qtstep hook q p = QStep q' p' c -> False) as Hno.
  { intros p q' p' c Hp E. apply list_elem_of_split in Hp as (l1 & l2 & ->).
    destruct (notify_exists c (l1 ++ p' :: l2)) as [ts' Hn].
    by eapply Hstuck, q_thread. }
  assert (q_cs q = false) as Hcs.
  { destruct (q_cs q) eqn:E; [exfalso|done]. pose proof (qi_cs _ _ I) as H. cbn [fst snd] in H.
    rewrite E in H. destruct (total_pos in_cs ts) as (p & Hp & Hp1); [intros []; cbn; lia|lia|].
    destruct p; cbn in Hp1; try lia; try by eapply Hno.
    destruct (q_queue q) as [|x l] eqn:Eq.
    - apply list_elem_of_split in Hp as (l1 & l2 & ->).
      pose proof (q_weights l1). pose proof (q_weights l2).
      pose proof (qi_queue _ _ I) as Hqu. pose proof (qi_counts _ _ I). cbn [fst snd] in *.
      rewrite !total_mid, Eq in Hqu. cbn in Hqu. lia.
    - eapply Hno; [exact Hp|]. cbn. rewrite Eq. reflexivity. }
  intros p Hp.
  pose proof (qi_signal _ _ I) as Hs. cbn [snd] in Hs.
  pose proof (total_in sleep_signal ts p ltac:(intros []; cbn; lia) Hp).
  assert (forall q' p' c, qtstep hook q p <> QStep q' p' c) as Hp' by (intros ??? E; by eapply Hno).
  destruct p; cbn in *; eauto; try lia; exfalso; rewrite ?Hcs in Hp';
    repeat match type of Hp' with
    | context [hook ?m] => destruct (hook m)
    | context [sem_wait ?s] => destruct (sem_wait s)
    | context [sem_signal ?s] => destruct (sem_signal s)
    end; try (by eapply Hp').
  assert (in_cs R_pop <= total in_cs ts) as Hc by (apply total_in; [intros []; cbn; lia|done]).
  pose proof (qi_cs _ _ I) as H'. cbn [fst snd] in H'. rewrite Hcs in H'. cbn in Hc. lia.
Qed.

(** a limited queue makes progress and loses no wake-up.  A run of
    threads inside the queue ends after at most the accesses left to them,
    and where no thread can move, every thread is outside or asleep, a
    sender sleeps only on a full queue and a receiver only on an empty
    one. *)
Theorem queue_progress N n q ts :
  0 <= N -> q_reach hook true N n (q, ts) ->
  (forall k s', nsteps (q_inside hook) k (q, ts) s' -> Z.of_nat k <= total q_left ts) /\
  ((forall s', ~ q_inside hook (q, ts) s') ->
     (forall p, p ∈ ts -> (exists r g, p = QIdle r g) \/ q_asleep p = true) /\
     (forall m t, S_empty_sleep m t ∈ ts -> Z.of_nat (length (q_queue q)) = N) /\
     (forall t, R_full_sleep t ∈ ts -> q_queue q = [])).
Proof.
  intros HN Hr. pose proof (q_reach_inv _ _ _ HN Hr) as I.
  split; [intros k s'; apply (q_inside_bounded k (q, ts))|]. intros Hstuck.
  pose proof (q_stuck_asleep N q ts I Hstuck) as Hall.
  assert (forall f : qpc -> Z, (forall r g, f (QIdle r g) = 0) -> (forall m t, f (S_empty_sleep m t) = 0) ->
    (forall t, f (R_full_sleep t) = 0) -> total f ts = 0) as Hz.
  { intros f Hsl Hqu H3. rewrite (total_ext_in f (fun _ => 0)); [clear; induction ts; simpl; lia|].
    intros p Hp. destruct (Hall p Hp) as [(r & g & ->) | Ha]; [done|]. by destruct p. }
  pose proof (Hz slot ltac:(done) ltac:(done) ltac:(done)) as Z1.
  pose proof (Hz filled ltac:(done) ltac:(done) ltac:(done)) as Z2.
  pose proof (Hz taking ltac:(done) ltac:(done) ltac:(done)) as Z3.
  pose proof (Hz wait_empty ltac:(done) ltac:(done) ltac:(done)) as Z4.
  pose proof (Hz wait_full ltac:(done) ltac:(done) ltac:(done)) as Z5.
  pose proof (qi_slots _ _ I) as Hsl. pose proof (qi_queue _ _ I) as Hqu. pose proof (qi_counts _ _ I).
  pose proof (qi_wake_empty _ _ I) as He. pose proof (qi_wake_full _ _ I) as Hf.
  cbn [fst snd] in *. split_and!; [done| |].
  - intros m t Hp. pose proof (total_in sleep_empty ts _ ltac:(intros []; cbn; lia) Hp) as Hs.
    cbn in Hs. lia.
  - intros t Hp. pose proof (total_in sleep_full ts _ ltac:(intros []; cbn; lia) Hp) as Hs.
    cbn in Hs. destruct (q_queue q); [done|cbn in Hqu; lia].
Qed.
End Spec.

(** ** Executable runs *)

Inductive q_action := ASend (m : Z) (t del : bool) | AReceive (t : bool) | AStep | ATimeout.

(** [notify_one] that picks the first sleeper. *)
Fixpoint wake_first (c : cond) (ts : list qpc) : list qpc :=
  match ts with
  | [] => []
  | p :: ts' => match woken c p with Some p' => p' :: ts' | None => p :: wake_first c ts' end
  end.

Definition wake_opt (c : option cond) (ts : list qpc) : list qpc :=
  match c with Some c => wake_first c ts | None => ts end.

Definition q_act (hook : Z -> bool) (s : qsystem) (i : nat) (a : q_action) : option qsystem :=
  match snd s !! i, a with
  | Some (QIdle _ _), ASend m t del => Some (fst s, <[i := S_start m t del]> (snd s))
  | Some (QIdle _ _), AReceive t => Some (fst s, <[i := R_full t]> (snd s))
  | Some (S_empty_sleep _ true), ATimeout => Some (fst s, <[i := S_count OS_WAIT_TIMEOUT]> (snd s))
  | Some (R_full_sleep true), ATimeout => Some (fst s, <[i := QIdle OS_WAIT_TIMEOUT None]> (snd s))
  | Some p, AStep =>
      match qtstep hook (fst s) p with
      | QStep q' p' c => Some (q', wake_opt c (<[i := p']> (snd s)))
      | _ => None
      end
  | _, _ => None
  end.

Fixpoint q_run (hook : Z -> bool) (s : qsystem) (l : list (nat * q_action)) : option qsystem :=
  match l with
  | [] => Some s
  | (i, a) :: l' => match q_act hook s i a with Some s' => q_run hook s' l' | None => None end
  end.

Lemma notify_cons c p ts ts' :
  notify (Some c) ts ts' -> woken c p = None -> notify (Some c) (p :: ts) (p :: ts').
Proof.
  intros H Hw. inversion H as [|c' ts0 Hn|c' l1 l2 x x' Hx]; subst.
  - apply notify_nobody. by constructor.
  - by apply (notify_wakes c (p :: l1) l2).
Qed.

Lemma wake_first_notify c ts : notify (Some c) ts (wake_first c ts).
Proof.
  induction ts as [|p ts IH]; simpl; [by apply notify_nobody|].
  destruct (woken c p) as [p'|] eqn:Hw; [by apply (notify_wakes c [] ts)|by apply notify_cons].
Qed.

Lemma wake_opt_notify c ts : notify c ts (wake_opt c ts).
Proof. destruct c; [apply wake_first_notify|constructor]. Qed.

Lemma q_act_sound hook s i a s' : q_act hook s i a = Some s' -> q_step hook s s'.
Proof.
  destruct s as [q ts]. unfold q_act. cbn [fst snd].
  destruct (ts !! i) as [p|] eqn:Hi; [|done].
  pose proof (list_elem_of_split_length ts i p Hi) as (l1 & l2 & -> & ->).
  assert (forall x, <[length l1:=x]> (l1 ++ p :: l2) = l1 ++ x :: l2) as Hins
    by (intros x; by rewrite insert_app_r_alt, Nat.sub_diag by lia).
  intros E. destruct a.
  - destruct p; try discriminate E; try (destruct timed; discriminate E).
    injection E as <-. rewrite Hins. right. constructor.
  - destruct p; try discriminate E; try (destruct timed; discriminate E).
    injection E as <-. rewrite Hins. right. constructor.
  - assert (match qtstep hook q p with
      | QStep q' p' c => Some (q', wake_opt c (<[length l1:=p']> (l1 ++ p :: l2))) | _ => None end
      = Some s') as E' by (destruct p; try exact E; destruct timed; exact E).
    destruct (qtstep hook q p) as [q' p' c| |] eqn:Et; try discriminate E'.
    injection E' as <-. rewrite Hins. left. eapply q_thread; [exact Et|]. apply wake_opt_notify.
  - destruct p; try discriminate E; destruct timed; try discriminate E; injection E as <-; rewrite Hins; right; constructor.
Qed.

Lemma q_run_sound hook l s s' : q_run hook s l = Some s' -> rtc (q_step hook) s s'.
Proof.
  revert s. induction l as [|[i a] l IH]; simpl; intros s H; [injection H as <-; constructor|].
  destruct (q_act hook s i a) as [s1|] eqn:E; [|done].
  eapply rtc_l; [by eapply q_act_sound|by apply IH].
Qed.

(** Thread 0 fills a queue for one message, thread 1 waits for room. *)
Definition full_queue_schedule : list (nat * q_action) :=
  (0%nat, ASend 7 false true) :: replicate 7 (0%nat, AStep) ++
  (1%nat, ASend 8 true true) :: replicate 2 (1%nat, AStep).

Definition no_hook (m : Z) : bool := false.

Definition full_queue_end : qsystem :=
  (mkQ true (mkSemaphore 1 0) (mkSemaphore 1 1) false [7] [], [QIdle OS_SUCCESS None; S_empty_sleep 8 true]).

Lemma queue_is_bounded_fifo_witness :
  Z.of_nat (length (q_queue (fst full_queue_end))) <= 1.
Proof.
  apply (queue_is_bounded_fifo no_hook 1 2 (fst full_queue_end) (snd full_queue_end)); [lia|].
  apply (q_run_sound no_hook full_queue_schedule). vm_compute. reflexivity.
Defined.

Lemma queue_progress_witness :
  (forall k s', nsteps (q_inside no_hook) k full_queue_end s' -> Z.of_nat k <= 7) /\
  ((forall s', ~ q_inside no_hook full_queue_end s') ->
     (forall p, p ∈ snd full_queue_end -> (exists r g, p = QIdle r g) \/ q_asleep p = true) /\
     (forall m t, S_empty_sleep m t ∈ snd full_queue_end -> Z.of_nat (length [7]) = 1) /\
     (forall t, R_full_sleep t ∈ snd full_queue_end -> [7] = [])).
Proof.
  apply (queue_progress no_hook 1 2 (fst full_queue_end) (snd full_queue_end)); [lia|].
  apply (q_run_sound no_hook full_queue_schedule). vm_compute. reflexivity.
Defined.

(** a send that times out loses its message: the status is
    OS_WAIT_TIMEOUT and the message is neither in the queue nor deleted, also
    when [deleteWhenDone] says that the queue owns it. *)
Theorem timeout_leaks hook m0 m :
  hook m0 = false -> hook m = false -> m <> m0 ->
  exists q, q_reach hook true 1 2 (q, [QIdle OS_SUCCESS None; QIdle OS_WAIT_TIMEOUT None]) /\
    (exists q0 ts0, q_reach hook true 1 2 (q0, ts0) /\ S_start m true true ∈ ts0 /\
       rtc (q_step hook) (q0, ts0) (q, [QIdle OS_SUCCESS None; QIdle OS_WAIT_TIMEOUT None])) /\
    m ∉ q_queue q /\ m ∉ deleted q.
Proof.
  intros H0 Hm Hne.
  assert (q_run hook (q_init true 1 2)
    ((0%nat, ASend m0 false true) :: replicate 7 (0%nat, AStep) ++ [(1%nat, ASend m true true)])
    = Some (mkQ true (mkSemaphore 1 0) (mkSemaphore 1 1) false [m0] [],
            [QIdle OS_SUCCESS None; S_start m true true])) as E1
    by (cbn; rewrite H0; reflexivity).
  assert (q_run hook (mkQ true (mkSemaphore 1 0) (mkSemaphore 1 1) false [m0] [],
      [QIdle OS_SUCCESS None; S_start m true true])
    [(1%nat, AStep); (1%nat, AStep); (1%nat, ATimeout); (1%nat, AStep)]
    = Some (mkQ true (mkSemaphore 1 0) (mkSemaphore 1 1) false [m0] [],
            [QIdle OS_SUCCESS None; QIdle OS_WAIT_TIMEOUT None])) as E2
    by (cbn; rewrite Hm; reflexivity).
  apply q_run_sound in E1, E2.
  exists (mkQ true (mkSemaphore 1 0) (mkSemaphore 1 1) false [m0] []). split_and!.
  - unfold q_reach. etrans; [exact E1|exact E2].
  - do 2 eexists. split_and!; [exact E1|right; left|exact E2].
  - cbn. by rewrite list_elem_of_singleton.
  - cbn. by intros ?%elem_of_nil.
Qed.

Lemma timeout_leaks_witness :
  exists q, q_reach no_hook true 1 2 (q, [QIdle OS_SUCCESS None; QIdle OS_WAIT_TIMEOUT None]) /\
    (exists q0 ts0, q_reach no_hook true 1 2 (q0, ts0) /\ S_start 8 true true ∈ ts0 /\
       rtc (q_step no_hook) (q0, ts0) (q, [QIdle OS_SUCCESS None; QIdle OS_WAIT_TIMEOUT None])) /\
    8 ∉ q_queue q /\ 8 ∉ deleted q.
Proof. apply (timeout_leaks no_hook 7 8); [reflexivity..|lia]. Defined.
