(* ===== verification/OsTimer.v ===== *)
(** * OsTimer: one-shot and periodic timers

    Model of [sipXportLib/src/os/OsTimer.cpp] and the inline functions of
    [include/os/OsTimer.h]: one timer, its client thread, and the threads of
    the [io_service] that run onTimerFire.  Each constructor of [cpc] and
    [hpc] is a point of the code between two locked sections.

    The [deadline_timer] of Boost.Asio is represented by the waits it holds:
    [pending] waits for the deadline, and the completed waits in [ready],
    each with the error code its handler will be given ([true] is
    [operation_aborted]).  Its documentation states that [cancel] and a new
    expiry time complete the pending waits with [operation_aborted], and that
    waits that have already completed are not affected. *)
From Stdlib Require Import ZArith Lia.
From stdpp Require Import base list relations.
From S2P Require Import Prelude OsSem.
Local Open Scope Z_scope.

(** OsTimer::Timer with its deadline_timer; [alive] is the life of the
    owning OsTimer object. *)
Record Timer := mkTimer {
  expiresAt : Z; periodic : bool; period : Z; isRunning : bool;
  pending : nat; ready : list bool; alive : bool }.

Definition Timer_new : Timer := mkTimer 0 false 0 false 0 [] true.

Definition set_running (b : bool) (t : Timer) : Timer :=
  mkTimer (expiresAt t) (periodic t) (period t) b (pending t) (ready t) (alive t).
Definition set_expires (e : Z) (t : Timer) : Timer :=
  mkTimer e (periodic t) (period t) (isRunning t) (pending t) (ready t) (alive t).
Definition set_periodic (b : bool) (p : Z) (t : Timer) : Timer :=
  mkTimer (expiresAt t) b p (isRunning t) (pending t) (ready t) (alive t).
Definition set_waits (n : nat) (r : list bool) (t : Timer) : Timer :=
  mkTimer (expiresAt t) (periodic t) (period t) (isRunning t) n r (alive t).
Definition set_dead (t : Timer) : Timer :=
  mkTimer (expiresAt t) (periodic t) (period t) (isRunning t) (pending t) (ready t) false.

(** ** The deadline_timer *)

Definition abort_waits (t : Timer) : Timer :=
  set_waits 0 (ready t ++ replicate (pending t) true) t.
(** [expires_from_now] followed by [async_wait] *)
Definition arm (t : Timer) : Timer :=
  let t' := abort_waits t in set_waits 1 (ready t') t'.
Definition expire (t : Timer) : Timer :=
  set_waits 0 (ready t ++ replicate (pending t) false) t.

(** ** Calls of the client *)

(** Times and intervals are microseconds ([TIME_TO_INTERVAL]). *)
Inductive call :=
| OneshotAfter (offset : Z)
| OneshotAt (when : Z)
| PeriodicEvery (offset per : Z)
| PeriodicAt (when per : Z)
| Stop
| Destroy.

Inductive cpc :=
| C_idle (last : option (call * OsStatus))
| C_periodic (c : call)     (* periodicEvery, periodicAt: set _periodic *)
| C_test (c : call)         (* oneshotAfter, oneshotAt: the locked test *)
| C_arm (c : call)          (* under gTimerServiceMutex *)
| C_return (c : call)       (* return _isRunning *)
| C_stop (c : call)         (* stop: isRunning() *)
| C_clear (c : call)        (* clearPeriodic() *)
| C_cancel (c : call)       (* cancel() *)
| C_destroy                 (* the rest of ~OsTimer *)
| C_dead.

Definition begin (c : call) : cpc :=
  match c with
  | PeriodicEvery _ _ | PeriodicAt _ _ => C_periodic c
  | OneshotAfter _ | OneshotAt _ => C_test c
  | Stop | Destroy => C_stop c
  end.

(** After stop: return its status, or go on with the destructor. *)
Definition stopped (c : call) (r : OsStatus) : cpc :=
  match c with Destroy => C_destroy | _ => C_idle (Some (c, r)) end.

Definition cstep (now : Z) (t : Timer) (p : cpc) : option (Timer * cpc) :=
  match p with
  | C_idle _ | C_dead => None
  | C_periodic c =>
      let per := match c with PeriodicEvery _ p | PeriodicAt _ p => p | _ => 0 end in
      Some (set_periodic true per t, C_test c)
  | C_test c =>
      if isRunning t then Some (t, C_idle (Some (c, OS_FAILED))) else
      match c with
      | OneshotAt w | PeriodicAt w _ =>
          if w <=? now then Some (t, C_idle (Some (c, OS_FAILED)))
          else Some (set_expires w (set_running true t), C_arm c)
      | OneshotAfter off | PeriodicEvery off _ =>
          Some (set_expires (off + now) (set_running true t), C_arm c)
      | _ => None
      end
  | C_arm c => Some (arm t, C_return c)
  | C_return c => Some (t, C_idle (Some (c, if isRunning t then OS_SUCCESS else OS_FAILED)))
  | C_stop c => Some (t, if isRunning t then C_clear c else stopped c OS_FAILED)
  | C_clear c => Some (set_periodic false (period t) t, C_cancel c)
  | C_cancel c => Some (abort_waits (set_running false t), stopped c OS_SUCCESS)
  | C_destroy => Some (set_dead t, C_dead)
  end.

(** ** onTimerFire *)

Inductive hpc :=
| H_test (aborted : bool)     (* the locked test of _isRunning *)
| H_signal (aborted : bool)   (* signalHandler or signalNotifier *)
| H_periodic                  (* the locked test of _periodic *)
| H_rearm                     (* under gTimerServiceMutex *)
| H_running.                  (* _isRunning = true *)

(** How the timer notifies: a handler function, or an OsNotification. *)
Inductive notifier := ByHandler | ByNotification.

(** What the application sees. *)
Inductive event := Called (aborted : bool) | Signalled.

Inductive hres := HStep (t : Timer) (p : option hpc) (e : list event) | HUseAfterFree.

Definition hstep (n : notifier) (now : Z) (t : Timer) (p : hpc) : hres :=
  match p with
  | H_test e =>
      if isRunning t then HStep (set_running false t) (Some (H_signal e)) []
      else HStep t None []
  | H_signal e =>
      if alive t then
        match n with
        | ByHandler => HStep t (Some H_periodic) [Called e]
        | ByNotification => HStep t (Some H_periodic) (if e then [] else [Signalled])
        end
      else HUseAfterFree
  | H_periodic => HStep t (if periodic t then Some H_rearm else None) []
  | H_rearm => HStep (arm (set_expires (now + period t) t)) (Some H_running) []
  | H_running => HStep (set_running true t) None []
  end.

(** ** The system *)

Record tsystem := mkTS { ts_timer : Timer; ts_client : cpc; ts_handlers : list hpc; ts_log : list event }.

Definition opt_list {A} (o : option A) : list A := match o with Some a => [a] | None => [] end.

Inductive t_label := LCall (c : call) | LClient | LExpire | LDispatch | LHandler.

Inductive t_step (n : notifier) : t_label -> tsystem -> tsystem -> Prop :=
| t_call t r hs log c :
    t_step n (LCall c) (mkTS t (C_idle r) hs log) (mkTS t (begin c) hs log)
| t_client now t p t' p' hs log : cstep now t p = Some (t', p') ->
    t_step n LClient (mkTS t p hs log) (mkTS t' p' hs log)
| t_expire t p hs log : (0 < pending t)%nat ->
    t_step n LExpire (mkTS t p hs log) (mkTS (expire t) p hs log)
| t_dispatch t p e r hs log : ready t = e :: r ->
    t_step n LDispatch (mkTS t p hs log) (mkTS (set_waits (pending t) r t) p (hs ++ [H_test e]) log)
| t_handler now t p h1 h2 h t' o es log : hstep n now t h = HStep t' o es ->
    t_step n LHandler (mkTS t p (h1 ++ h :: h2) log) (mkTS t' p (h1 ++ opt_list o ++ h2) (log ++ es)).

Definition t_init : tsystem := mkTS Timer_new (C_idle None) [] [].

Definition t_any (n : notifier) (s s' : tsystem) : Prop := exists l, t_step n l s s'.
Definition t_reach (n : notifier) (s : tsystem) : Prop := rtc (t_any n) t_init s.

(** * OsTimer: what a client can rely on, and the races

    One-shot timers notify at most once per start in every interleaving, and
    exactly once when they are started while the timer is quiet and then left
    alone.  The last part gives the interleavings in which the timer departs
    from the description in its header. *)
(** ** At most one notification per start *)

(** Runs with the labels of their steps. *)
Inductive t_run (n : notifier) : list t_label -> tsystem -> tsystem -> Prop :=
| t_run_nil s : t_run n [] s s
| t_run_snoc tr l s s1 s2 : t_run n tr s s1 -> t_step n l s1 s2 -> t_run n (tr ++ [l]) s s2.

Definition is_start (l : t_label) : Z :=
  match l with LCall (OneshotAfter _) | LCall (OneshotAt _) => 1 | _ => 0 end.
Definition one_shot (l : t_label) : Prop :=
  match l with LCall (PeriodicEvery _ _) | LCall (PeriodicAt _ _) => False | _ => True end.

Definition h_signal (p : hpc) : Z := match p with H_signal _ => 1 | _ => 0 end.
Definition h_rearm (p : hpc) : Z := match p with H_rearm | H_running => 1 | _ => 0 end.
Definition c_test (p : cpc) : Z :=
  match p with C_test (OneshotAfter _) | C_test (OneshotAt _) => 1 | _ => 0 end.
Definition c_oneshot (p : cpc) : Prop :=
  match p with
  | C_periodic _ => False
  | C_test c => match c with OneshotAfter _ | OneshotAt _ => True | _ => False end
  | _ => True
  end.

Definition b2z (b : bool) : Z := if b then 1 else 0.

Definition budget (s : tsystem) : Z :=
  Z.of_nat (length (ts_log s)) + total h_signal (ts_handlers s) + b2z (isRunning (ts_timer s))
  + c_test (ts_client s).

Record oneshot_inv (tr : list t_label) (s : tsystem) : Prop := {
  oi_budget : budget s <= total is_start tr;
  oi_not_periodic : periodic (ts_timer s) = false;
  oi_rearm : total h_rearm (ts_handlers s) = 0;
  oi_client : c_oneshot (ts_client s) }.

Lemma h_weights l : 0 <= total h_signal l /\ 0 <= total h_rearm l.
Proof. split; apply total_nonneg; intros []; cbn; lia. Qed.

Lemma oneshot_inv_step n tr l s s' :
  oneshot_inv tr s -> one_shot l -> t_step n l s s' -> oneshot_inv (tr ++ [l]) s'.
Proof.
  intros [B P R C] Hl H. unfold budget in *.
  destruct H as [t r hs log c|now t p t' p' hs log E|t p hs log Hp|t p e r hs log Hr
                |now t p h1 h2 h t' o es log E]; cbn [ts_timer ts_client ts_handlers ts_log] in *.
  - constructor; unfold budget; cbn [ts_timer ts_client ts_handlers ts_log]; try done;
      [rewrite total_app; destruct c; cbn in *; lia|by destruct c].
  - destruct t as [ex pe pr ru pd rd al]; cbn in *; subst pe; destruct ru; cbn in *.
    all: destruct p as [|c|c|c|c|c|c|c| |]; cbn in E, C; try done; try destruct c; try done;
      repeat match type of E with
      | context [if ?b then _ else _] => destruct b eqn:?; cbn in E
      end; try discriminate E; injection E as <- <-;
      (constructor; unfold budget; cbn in *; rewrite ?total_app; cbn; (done || lia)).
  - constructor; unfold budget; cbn in *; rewrite ?total_app; cbn; (done || lia).
  - constructor; unfold budget; cbn in *; rewrite ?total_app; cbn; (done || lia).
  - pose proof (h_weights h1). pose proof (h_weights h2).
    destruct t as [ex pe pr ru pd rd al]; cbn in *; subst pe; destruct ru; cbn in *; rewrite !total_mid in *.
    all: destruct h as [e|e| | |]; cbn in E;
      repeat match type of E with
      | context [if ?b then _ else _] => destruct b eqn:?; cbn in E
      | context [match ?x with ByHandler => _ | ByNotification => _ end] => destruct x; cbn in E
      end; try discriminate E; injection E as <- <- <-;
      (constructor; unfold budget; cbn in *; rewrite ?total_app, ?length_app; cbn in *; (done || lia)).
Qed.

(** C37: a client that starts only one-shot timers is notified at most once
    per call of a start method, in every interleaving of the client, the
    deadline and the threads that run onTimerFire. *)
Theorem oneshot_at_most_once n tr s :
  t_run n tr t_init s -> Forall one_shot tr ->
  Z.of_nat (length (ts_log s)) <= total is_start tr.
Proof.
  intros H Ht.
  assert (oneshot_inv tr s) as [B _ _ _].
  { remember t_init as s0 eqn:E. induction H as [s0|tr l s0 s1 s2 H IH Hs]; subst.
    - constructor; done.
    - apply Forall_app in Ht as [Ht Hl]. apply Forall_inv in Hl.
      by eapply oneshot_inv_step; [apply IH| |]. }
  unfold budget in B. pose proof (h_weights (ts_handlers s)).
  assert (0 <= b2z (isRunning (ts_timer s))) by (destruct (isRunning (ts_timer s)); cbn; lia).
  assert (0 <= c_test (ts_client s)) by (destruct (ts_client s) as [| |[]| | | | | | |]; cbn; lia).
  lia.
Qed.

(** ** Executable runs *)

Inductive t_action := TCall (c : call) | TClient (now : Z) | TExpire | TDispatch | THandler (i : nat) (now : Z).

Definition t_label_of (a : t_action) : t_label :=
  match a with
  | TCall c => LCall c | TClient _ => LClient | TExpire => LExpire
  | TDispatch => LDispatch | THandler _ _ => LHandler
  end.

Definition t_act (n : notifier) (s : tsystem) (a : t_action) : option tsystem :=
  let '(mkTS t p hs log) := s in
  match a with
  | TCall c => match p with C_idle _ => Some (mkTS t (begin c) hs log) | _ => None end
  | TClient now => match cstep now t p with Some (t', p') => Some (mkTS t' p' hs log) | None => None end
  | TExpire => if decide (0 < pending t)%nat then Some (mkTS (expire t) p hs log) else None
  | TDispatch =>
      match ready t with
      | e :: r => Some (mkTS (set_waits (pending t) r t) p (hs ++ [H_test e]) log)
      | [] => None
      end
  | THandler i now =>
      match hs !! i with
      | Some h =>
          match hstep n now t h with
          | HStep t' o es => Some (mkTS t' p (take i hs ++ opt_list o ++ drop (S i) hs) (log ++ es))
          | HUseAfterFree => None
          end
      | None => None
      end
  end.

Fixpoint t_exec (n : notifier) (s : tsystem) (l : list t_action) : option tsystem :=
  match l with
  | [] => Some s
  | a :: l' => match t_act n s a with Some s' => t_exec n s' l' | None => None end
  end.

Lemma t_act_sound n s a s' : t_act n s a = Some s' -> t_step n (t_label_of a) s s'.
Proof.
  destruct s as [t p hs log]. destruct a as [c|now| | |i now]; cbn; intros E.
  - destruct p; try discriminate E. injection E as <-. constructor.
  - destruct (cstep now t p) as [[t' p']|] eqn:Ec; [|discriminate E]. injection E as <-.
    by econstructor.
  - case_decide; [|discriminate E]. injection E as <-. by constructor.
  - destruct (ready t) eqn:Er; [discriminate E|]. injection E as <-. by constructor.
  - destruct (hs !! i) as [h|] eqn:Hi; [|discriminate E].
    destruct (hstep n now t h) as [t' o es|] eqn:Eh; [|discriminate E]. injection E as <-.
    rewrite <- (take_drop_middle hs i h Hi) at 1. by econstructor.
Qed.

Lemma t_exec_run n l : forall s s', t_exec n s l = Some s' -> t_run n (map t_label_of l) s s'.
Proof.
  induction l as [|a l IH] using rev_ind; intros s s' H.
  - injection H as <-. constructor.
  - assert (exists s1, t_exec n s l = Some s1 /\ t_act n s1 a = Some s') as (s1 & E1 & E2).
    { clear IH. revert s H. induction l as [|b l IHl]; cbn; intros s H.
      - destruct (t_act n s a) as [x|] eqn:Ex; [|done]. injection H as <-. eauto.
      - destruct (t_act n s b) as [x|]; [|done]. eauto. }
    rewrite map_app. econstructor; [by apply IH|by apply t_act_sound].
Qed.

Lemma t_exec_reach n l s : t_exec n t_init l = Some s -> t_reach n s.
Proof.
  intros H%t_exec_run. unfold t_reach. remember t_init as s0. clear Heqs0.
  induction H as [|tr lb s0 s1 s2 _ IH Hs]; [constructor|]. eapply rtc_r; [exact IH|]. by exists lb.
Qed.

(** Start, fire, start again, stop. *)
Definition fire_once (off : Z) : list t_action :=
  [TCall (OneshotAfter off); TClient 0; TClient 0; TClient 0; TExpire; TDispatch;
   THandler 0 off; THandler 0 off; THandler 0 off].

Definition fired_once (off : Z) : tsystem :=
  mkTS (mkTimer (off + 0) false 0 false 0 [] true) (C_idle (Some (OneshotAfter off, OS_SUCCESS))) [] [Signalled].

Lemma oneshot_at_most_once_witness : Z.of_nat (length (ts_log (fired_once 5000))) <= 1.
Proof.
  apply (oneshot_at_most_once ByNotification (map t_label_of (fire_once 5000)) (fired_once 5000)).
  - apply t_exec_run. vm_compute. reflexivity.
  - repeat constructor.
Defined.

(** ** A timer that is left alone fires *)

Definition quiet_step (n : notifier) (s s' : tsystem) : Prop :=
  exists l, (forall c, l <> LCall c) /\ t_step n l s s'.

(** No wait, no handler, not started. *)
Definition quiet (s : tsystem) : Prop :=
  exists ex pr r, s = mkTS (mkTimer ex false pr false 0 [] true) (C_idle r) [] (ts_log s).

Definition notification (n : notifier) : event :=
  match n with ByHandler => Called false | ByNotification => Signalled end.

(** The client after it armed the timer, with the number of its steps left. *)
Inductive f_client (c : call) : nat -> cpc -> Prop :=
| fc_return : f_client c 1 (C_return c)
| fc_idle r : f_client c 0 (C_idle (Some (c, r))).

(** The way of a start to its notification, with the number of steps left. *)
Inductive firing (n : notifier) (c : call) (log : list event) : nat -> tsystem -> Prop :=
| f_test ex pr : firing n c log 8 (mkTS (mkTimer ex false pr false 0 [] true) (C_test c) [] log)
| f_arm ex pr : firing n c log 7 (mkTS (mkTimer ex false pr true 0 [] true) (C_arm c) [] log)
| f_wait k p ex pr : f_client c k p ->
    firing n c log (k + 5) (mkTS (mkTimer ex false pr true 1 [] true) p [] log)
| f_ready k p ex pr : f_client c k p ->
    firing n c log (k + 4) (mkTS (mkTimer ex false pr true 0 [false] true) p [] log)
| f_handler k p ex pr : f_client c k p ->
    firing n c log (k + 3) (mkTS (mkTimer ex false pr true 0 [] true) p [H_test false] log)
| f_signal k p ex pr : f_client c k p ->
    firing n c log (k + 2) (mkTS (mkTimer ex false pr false 0 [] true) p [H_signal false] log)
| f_periodic k p ex pr : f_client c k p ->
    firing n c log (k + 1)
      (mkTS (mkTimer ex false pr false 0 [] true) p [H_periodic] (log ++ [notification n]))
| f_done k p ex pr : f_client c k p ->
    firing n c log k (mkTS (mkTimer ex false pr false 0 [] true) p [] (log ++ [notification n])).

Lemma single_handler (h1 h2 : list hpc) h x : h1 ++ h :: h2 = [x] -> h1 = [] /\ h = x /\ h2 = [].
Proof. destruct h1 as [|y [|z h1]]; cbn; intros H; simplify_eq/=; auto. Qed.

Lemma no_handler (h1 h2 : list hpc) h : h1 ++ h :: h2 <> [].
Proof. by destruct h1. Qed.

(** The next point of [firing] after a step. *)
Ltac firing_next :=
  rewrite ?app_nil_r;
  try (change (Called false) with (notification ByHandler));
  try (change Signalled with (notification ByNotification));
  eexists; (split;
    [|first [apply f_arm
    | apply (f_wait _ _ _ 1); constructor | apply (f_wait _ _ _ 0); constructor
    | apply (f_ready _ _ _ 1); constructor | apply (f_ready _ _ _ 0); constructor
    | apply (f_handler _ _ _ 1); constructor | apply (f_handler _ _ _ 0); constructor
    | apply (f_signal _ _ _ 1); constructor | apply (f_signal _ _ _ 0); constructor
    | apply (f_periodic _ _ _ 1); constructor | apply (f_periodic _ _ _ 0); constructor
    | apply (f_done _ _ _ 1); constructor | apply (f_done _ _ _ 0); constructor]]); lia.

Lemma firing_step n off log k s s' :
  firing n (OneshotAfter off) log k s -> quiet_step n s s' ->
  exists k', (k' < k)%nat /\ firing n (OneshotAfter off) log k' s'.
Proof.
  intros F (l & Hl & H).
  destruct F as [ex pr|ex pr|k p ex pr C|k p ex pr C|k p ex pr C|k p ex pr C|k p ex pr C|k p ex pr C];
    inversion H as [? ? ? ? c0|now ? ? t' p' ? ? E|? ? ? ? Hp|? ? e r ? ? Hr|now ? ? h1 h2 h t' o es ? E];
    simplify_eq/=; try (by destruct (Hl c0)); try lia;
    try (match goal with E : _ ++ _ :: _ = [] |- _ => by apply no_handler in E end);
    try (match goal with E : _ ++ _ :: _ = [_] |- _ => apply single_handler in E as (-> & -> & ->) end);
    try (match goal with C : f_client _ _ _ |- _ => inversion C; subst end);
    try destruct n; simplify_eq/=; firing_next.
Qed.

Lemma firing_progress n off log k s :
  firing n (OneshotAfter off) log k s -> (0 < k)%nat -> exists s', quiet_step n s s'.
Proof.
  intros F Hk.
  destruct F as [ex pr|ex pr|k p ex pr C|k p ex pr C|k p ex pr C|k p ex pr C|k p ex pr C|k p ex pr C].
  - eexists. exists LClient. split; [done|]. by apply (t_client n 0).
  - eexists. exists LClient. split; [done|]. by apply (t_client n 0).
  - eexists. exists LExpire. split; [done|]. apply t_expire. cbn. lia.
  - eexists. exists LDispatch. split; [done|]. by apply t_dispatch.
  - eexists. exists LHandler. split; [done|]. by apply (t_handler n 0 _ _ [] []).
  - destruct n; eexists; exists LHandler; (split; [done|]); by apply (t_handler _ 0 _ _ [] []).
  - eexists. exists LHandler. split; [done|]. by apply (t_handler n 0 _ _ [] []).
  - destruct C; [|lia]. eexists. exists LClient. split; [done|]. by apply (t_client n 0).
Qed.

Lemma firing_run n off log k s j s' :
  firing n (OneshotAfter off) log k s -> nsteps (quiet_step n) j s s' ->
  exists k', (j + k' <= k)%nat /\ firing n (OneshotAfter off) log k' s'.
Proof.
  intros F H. revert k F. induction H as [s|j s s1 s2 Hs _ IH]; intros k F; [by exists k|].
  destruct (firing_step _ _ _ _ _ _ F Hs) as (k1 & Hk & F1).
  destruct (IH k1 F1) as (k2 & Hk2 & F2). exists k2. split; [lia|done].
Qed.

(** a one-shot timer that is started while it is quiet and then left
    alone fires: whatever the interleaving of the client, the deadline and
    the handler thread, after at most eight steps nothing is left to do, and
    then the application was notified exactly once, the call has returned and
    the timer is stopped. *)
Theorem oneshot_fires n off s0 s1 :
  quiet s0 -> t_step n (LCall (OneshotAfter off)) s0 s1 ->
  (forall j s', nsteps (quiet_step n) j s1 s' -> (j <= 8)%nat) /\
  (forall j s', nsteps (quiet_step n) j s1 s' -> (forall s'', ~ quiet_step n s' s'') ->
     ts_log s' = ts_log s0 ++ [notification n] /\ isRunning (ts_timer s') = false /\
     exists r, ts_client s' = C_idle (Some (OneshotAfter off, r))).
Proof.
  intros (ex & pr & r & Hq) H.
  assert (firing n (OneshotAfter off) (ts_log s0) 8 s1) as F.
  { rewrite Hq in H. inversion H; subst. cbn. rewrite <- ?Hq. apply f_test. }
  split; intros j s' Hs; destruct (firing_run _ _ _ _ _ _ _ F Hs) as (k & Hk & F'); [lia|].
  intros Hstuck. destruct (decide (0 < k)%nat) as [Hk0|Hk0].
  { destruct (firing_progress _ _ _ _ _ F' Hk0) as [s'' Hs'']. by destruct (Hstuck s''). }
  inversion F' as [| | | | | | |k' p ex' pr' C]; subst; try lia.
  inversion C; subst; [lia|]. cbn. eauto.
Qed.

Lemma oneshot_fires_witness :
  ts_log (fired_once 5000) = ts_log t_init ++ [notification ByNotification].
Proof.
  apply (oneshot_fires ByNotification 5000 t_init
    (mkTS Timer_new (C_test (OneshotAfter 5000)) [] [])) with (j := 8%nat).
  - exists 0, 0, None. reflexivity.
  - apply t_call.
  - pose proof (t_exec_run ByNotification (tail (fire_once 5000))
      (mkTS Timer_new (C_test (OneshotAfter 5000)) [] []) (fired_once 5000) eq_refl) as H.
    cbn in H. clear -H.
    assert (forall tr s s', t_run ByNotification tr s s' -> Forall (fun l => forall c, l <> LCall c) tr ->
      nsteps (quiet_step ByNotification) (length tr) s s') as Hn.
    { clear H. intros tr s s' H. induction H as [s|tr l s s1 s2 _ IH Hs]; intros HF; [constructor|].
      apply Forall_app in HF as [HF Hl]. apply Forall_inv in Hl. rewrite length_app.
      eapply nsteps_trans; [by apply IH|]. cbn. apply nsteps_once. by exists l. }
    apply Hn in H; [exact H|]. repeat constructor; discriminate.
  - intros s'' (l & Hl & H). unfold fired_once in H. inversion H; subst; try done.
    + by destruct (Hl c).
    + cbn in *. lia.
    + by apply no_handler in H4.
Defined.

(** ** Departures from the description *)

(** Start, stop and start again before the cancelled wait is handled. *)
Definition restart_schedule (a b : Z) : list t_action :=
  [TCall (OneshotAfter a); TClient 0; TClient 0; TClient 0;
   TCall Stop; TClient 0; TClient 0; TClient 0;
   TCall (OneshotAfter b); TClient 0; TClient 0; TClient 0;
   TDispatch; THandler 0 0; THandler 0 0; THandler 0 0;
   TExpire; TDispatch; THandler 0 b].

(** a timer that is stopped and started again at once can lose its
    notification: the second start returns OS_SUCCESS, the handler of the
    cancelled first wait takes [_isRunning] for its own and clears it, and
    when the deadline passes nothing is signalled.  Nothing is left that could
    notify later. *)
Theorem restart_loses_notification (b : Z) :
  exists s, t_reach ByNotification s /\
    ts_client s = C_idle (Some (OneshotAfter b, OS_SUCCESS)) /\ ts_log s = [] /\
    (forall s', ~ quiet_step ByNotification s s').
Proof.
  assert (t_exec ByNotification t_init (restart_schedule b b) = Some
    (mkTS (mkTimer (b + 0) false 0 false 0 [] true) (C_idle (Some (OneshotAfter b, OS_SUCCESS))) [] []))
    as E by reflexivity.
  eexists. split; [exact (t_exec_reach _ _ _ E)|]. split_and!; [done|done|].
  intros s' (l & Hl & H). inversion H as [? ? ? ? c|? ? ? ? ? ? ? Ec|? ? ? ? Hp|? ? ? ? ? ? Hr|? ? ? h1 h2 h ? ? ? ? Eh E1 Hs];
    subst; try done; [by destruct (Hl c)|cbn in Hp; lia|by destruct h1].
Qed.

(** The handler has passed its test when the OsTimer is destroyed. *)
Definition destroy_schedule (a : Z) : list t_action :=
  [TCall (OneshotAfter a); TClient 0; TClient 0; TClient 0; TExpire; TDispatch; THandler 0 a;
   TCall Destroy; TClient a; TClient a].

(** the destructor does not wait for an event routine that has begun: a
    handler that passed its test of [_isRunning] uses the OsTimer object
    after the destructor has returned. *)
Theorem destroyed_timer_is_used n :
  exists s h now, t_reach n s /\ ts_client s = C_dead /\ h ∈ ts_handlers s /\
    hstep n now (ts_timer s) h = HUseAfterFree.
Proof.
  assert (t_exec n t_init (destroy_schedule 5000) = Some
    (mkTS (mkTimer 5000 false 0 false 0 [] false) C_dead [H_signal false] [])) as E by reflexivity.
  eexists _, (H_signal false), 0. split; [exact (t_exec_reach _ _ _ E)|]. by split_and!; [|left|].
Qed.

(** The event routine of a periodic timer stops the timer. *)
Definition stop_in_routine_schedule (off per : Z) : list t_action :=
  [TCall (PeriodicEvery off per); TClient 0; TClient 0; TClient 0; TClient 0;
   TExpire; TDispatch; THandler 0 off; THandler 0 off;
   TCall Stop; TClient off; THandler 0 off; THandler 0 off; THandler 0 off].

(** a periodic timer cannot be stopped from its event routine: stop
    returns OS_FAILED, and the timer is started again for its next period.
    The header says that a periodic timer is in the running state when its
    event routine is entered. *)
Theorem stop_in_event_routine_fails n (off per : Z) :
  exists s, t_reach n s /\ ts_client s = C_idle (Some (Stop, OS_FAILED)) /\
    ts_log s = [notification n] /\
    isRunning (ts_timer s) = true /\ periodic (ts_timer s) = true /\ pending (ts_timer s) = 1%nat /\
    expiresAt (ts_timer s) = off + per.
Proof.
  assert (t_exec n t_init (stop_in_routine_schedule off per) = Some
    (mkTS (mkTimer (off + per) true per true 1 [] true) (C_idle (Some (Stop, OS_FAILED))) []
      [notification n])) as E by (destruct n; reflexivity).
  eexists. split; [exact (t_exec_reach _ _ _ E)|]. by split_and!.
Qed.

(** A call executed without interruption. *)
Fixpoint run_call (fuel : nat) (now : Z) (t : Timer) (p : cpc) : Timer * cpc :=
  match fuel with
  | O => (t, p)
  | S f => match cstep now t p with Some (t', p') => run_call f now t' p' | None => (t, p) end
  end.

(** a start that fails is not without effect: periodicEvery on a timer
    that is running, and periodicAt with a time in the past, return OS_FAILED
    and leave the timer periodic, so that a one-shot timer that is running or
    started next fires again and again.  The header says that a start method
    has no effect on a timer that is already started. *)
Theorem failed_start_makes_periodic now t :
  (isRunning t = true -> forall off per,
     run_call 4 now t (begin (PeriodicEvery off per))
     = (set_periodic true per t, C_idle (Some (PeriodicEvery off per, OS_FAILED)))) /\
  (isRunning t = false -> forall w per, w <= now ->
     run_call 4 now t (begin (PeriodicAt w per))
     = (set_periodic true per t, C_idle (Some (PeriodicAt w per, OS_FAILED))) /\
     forall off, exists t', run_call 4 now (set_periodic true per t) (begin (OneshotAfter off))
       = (t', C_idle (Some (OneshotAfter off, OS_SUCCESS))) /\ periodic t' = true).
Proof.
  destruct t as [ex pe pr ru pd rd al]; cbn. split; intros ->; [done|].
  intros w per Hw. rewrite (proj2 (Z.leb_le _ _) Hw). split; [done|]. intros off. by eexists.
Qed.

(** The timer fires between the two steps of stop. *)
Definition stop_race_schedule (a : Z) : list t_action :=
  [TCall (OneshotAfter a); TClient 0; TClient 0; TClient 0; TCall Stop; TClient a;
   TExpire; TDispatch; THandler 0 a; THandler 0 a; THandler 0 a; TClient a; TClient a].

(** stop can return OS_SUCCESS for a one-shot timer whose event was
    signalled: it tests [_isRunning] and cancels in two separate steps.  The
    header says that after the event was signalled every stop returns
    OS_FAILED. *)
Theorem stop_succeeds_after_signal n :
  exists s, t_reach n s /\ ts_client s = C_idle (Some (Stop, OS_SUCCESS)) /\
    ts_log s = [notification n].
Proof.
  assert (t_exec n t_init (stop_race_schedule 5000) = Some
    (mkTS (mkTimer 5000 false 0 false 0 [] true) (C_idle (Some (Stop, OS_SUCCESS))) []
      [notification n])) as E by (destruct n; reflexivity).
  eexists. split; [exact (t_exec_reach _ _ _ E)|]. by split_and!.
Qed.

Lemma failed_start_makes_periodic_witness :
  run_call 4 10 (mkTimer 100 false 0 true 1 [] true) (begin (PeriodicEvery 5 7))
  = (mkTimer 100 true 7 true 1 [] true, C_idle (Some (PeriodicEvery 5 7, OS_FAILED))).
Proof. apply (failed_start_makes_periodic 10 (mkTimer 100 false 0 true 1 [] true)). reflexivity. Defined.
