(* ===== verification/Pcre.v ===== *)
(** * Perl-compatible patterns and RegEx

    [sipXportLib/src/utl/UtlRegex.cpp] wraps the PCRE library.  The library
    is a parameter here; its documented behaviour on the pattern syntax the
    sources use is the reference semantics [bt]: alternatives are tried from
    left to right, quantifiers are greedy and give back, possessive
    quantifiers and lookahead do not, and a search takes the first position
    with a match.  A subject that needs more recursion than RegEx allows makes
    the library report an error, which RegEx takes for no match. *)
From Stdlib Require Import ZArith Lia Ascii String.
From stdpp Require Import base list strings.
From S2P Require Import Prelude Format.
Local Open Scope nat_scope.

(** ** Patterns *)

Inductive pat :=
| PEps
| PCls (c : ascii -> bool)
| PSeq (p q : pat)
| PAlt (p q : pat)
| PStar (p : pat)            (* greedy *)
| PAtomic (p : pat)          (* (?>p) *)
| PGroup (i : nat) (p : pat) (* the i-th capturing parentheses *)
| PLook (p : pat)            (* (?=p) *)
| PBol                       (* ^ *)
| PEol.                      (* $ *)

(** The subject from the current position on, that position, and the
    captured substrings, the latest first. *)
Record mstate := mkM { m_pos : nat; m_rest : list ascii; m_caps : list (nat * (nat * nat)) }.

Definition advance (n : nat) (st : mstate) : mstate :=
  mkM (m_pos st + n) (drop n (m_rest st)) (m_caps st).
Definition capture (i b : nat) (st : mstate) : mstate :=
  mkM (m_pos st) (m_rest st) ((i, (b, m_pos st)) :: m_caps st).

(** [$]: at the end, or before a newline that ends the subject *)
Definition at_eol (r : list ascii) : bool :=
  match r with [] => true | [c] => bool_decide (c = "010"%char) | _ => false end.

(** A greedy loop over [body]; an iteration that consumes nothing is the
    last one. *)
Fixpoint star_loop (body : mstate -> (mstate -> option mstate) -> option mstate) (k : mstate -> option mstate)
    (n : nat) (st : mstate) : option mstate :=
  match n with
  | O => k st
  | S n' =>
      match body st (fun st' => if length (m_rest st') <? length (m_rest st) then star_loop body k n' st' else k st') with
      | Some r => Some r
      | None => k st
      end
  end.

(** Matching with a continuation: the first way to match [p] after which
    [k] succeeds. *)
Fixpoint bt (p : pat) (st : mstate) (k : mstate -> option mstate) : option mstate :=
  match p with
  | PEps => k st
  | PCls c => match m_rest st with x :: _ => if c x then k (advance 1 st) else None | [] => None end
  | PSeq p q => bt p st (fun st' => bt q st' k)
  | PAlt p q => match bt p st k with Some r => Some r | None => bt q st k end
  | PStar p =>
      star_loop (bt p) k (S (length (m_rest st))) st
  | PAtomic p => match bt p st Some with Some st' => k st' | None => None end
  | PGroup i p => bt p st (fun st' => k (capture i (m_pos st) st'))
  | PLook p =>
      match bt p st Some with
      | Some st' => k (mkM (m_pos st) (m_rest st) (m_caps st'))
      | None => None
      end
  | PBol => if m_pos st =? 0 then k st else None
  | PEol => if at_eol (m_rest st) then k st else None
  end.

(** [x+], [x++], [x?], [x{0,n}] and a literal *)
Definition PPlus (p : pat) : pat := PSeq p (PStar p).
Definition PPoss (c : ascii -> bool) : pat := PAtomic (PPlus (PCls c)).
Definition POpt (p : pat) : pat := PAlt p PEps.
Fixpoint PUpTo (n : nat) (c : ascii -> bool) : pat :=
  match n with O => PEps | S n' => POpt (PSeq (PCls c) (PUpTo n' c)) end.
Definition PChr (a : ascii) : pat := PCls (fun x => bool_decide (x = a)).
Fixpoint PLit (l : list ascii) : pat :=
  match l with [] => PEps | [a] => PChr a | a :: l' => PSeq (PChr a) (PLit l') end.
(** a literal under [(?i)] *)
Fixpoint PLitI (l : list ascii) : pat :=
  match l with [] => PEps | a :: l' => PSeq (PCls (fun x => bool_decide (tolower x = tolower a))) (PLitI l') end.

(** ** Searches *)

Record Match := mkMatch { mt_start : nat; mt_end : nat; mt_caps : list (nat * (nat * nat)) }.

Fixpoint search_from (p : pat) (pos : nat) (rest : list ascii) : option Match :=
  match bt p (mkM pos rest []) Some with
  | Some st' => Some (mkMatch pos (m_pos st') (m_caps st'))
  | None => match rest with [] => None | _ :: rest' => search_from p (S pos) rest' end
  end.

(** [pcre_exec] on the subject [s] from the offset [off] on *)
Definition search (p : pat) (s : list ascii) (off : nat) : option Match :=
  if off <=? length s then search_from p off (drop off s) else None.

(** The library: what it returns is what the pattern means, and it returns
    it at least up to a length that depends on the pattern. *)
Class Pcre (pcre_exec : pat -> list ascii -> nat -> option Match) := {
  pcre_limit : pat -> nat;
  pcre_sound p s off m : pcre_exec p s off = Some m -> search p s off = Some m;
  pcre_complete p s off : length s <= pcre_limit p -> pcre_exec p s off = search p s off }.

(** ** RegEx *)

(** RegEx::Matches: one more than the highest group that matched *)
Definition Matches (m : Match) : nat := S (fold_right Nat.max 0 (fst <$> mt_caps m)).

Definition cap (m : Match) (i : nat) : option (nat * nat) :=
  match i with
  | O => Some (mt_start m, mt_end m)
  | _ => snd <$> head (filter (fun c => fst c = i) (mt_caps m))
  end.

(** RegEx::MatchString: what is appended, if the i-th substring matched *)
Definition MatchString (s : list ascii) (m : Match) (i : nat) : option (list ascii) :=
  if i <? Matches m then (fun c => take (snd c - fst c) (drop (fst c) s)) <$> cap m i else None.

(** RegEx::AfterMatchString *)
Definition AfterMatchString (s : list ascii) (m : Match) : list ascii := drop (mt_end m) s.

Section RegEx.
Context (pcre_exec : pat -> list ascii -> nat -> option Match).

(** [re.SearchAt(s, off) && re.MatchStart(0) == off] *)
Definition SearchAt_here (p : pat) (s : list ascii) (off : nat) : option Match :=
  match pcre_exec p s off with
  | Some m => if mt_start m =? off then Some m else None
  | None => None
  end.
End RegEx.
