(* ===== verification/PcreSpec.v ===== *)
(** * Reasoning about patterns

    [consumes p st st'] says that [p] can match from [st] to [st'], in any of
    the ways backtracking may reach; it serves to show that a search fails.
    The equations of [bt] for the shapes the sources use serve to show where
    a search succeeds. *)
From Stdlib Require Import ZArith Lia Ascii String.
From stdpp Require Import base list strings.
From S2P Require Import Prelude Format Pcre.
Local Open Scope nat_scope.

(** ** What a match consumes *)

Inductive consumes : pat -> mstate -> mstate -> Prop :=
| C_eps st : consumes PEps st st
| C_cls (c : ascii -> bool) st x r : m_rest st = x :: r -> c x = true -> consumes (PCls c) st (advance 1 st)
| C_seq p q st st1 st2 : consumes p st st1 -> consumes q st1 st2 -> consumes (PSeq p q) st st2
| C_alt_l p q st st' : consumes p st st' -> consumes (PAlt p q) st st'
| C_alt_r p q st st' : consumes q st st' -> consumes (PAlt p q) st st'
| C_star_nil p st : consumes (PStar p) st st
| C_star_cons p st st1 st2 : consumes p st st1 -> consumes (PStar p) st1 st2 -> consumes (PStar p) st st2
| C_atomic p st st' : consumes p st st' -> consumes (PAtomic p) st st'
| C_group i p st st' : consumes p st st' -> consumes (PGroup i p) st (capture i (m_pos st) st')
| C_look p st st' : consumes p st st' -> consumes (PLook p) st (mkM (m_pos st) (m_rest st) (m_caps st'))
| C_bol st : m_pos st = 0 -> consumes PBol st st
| C_eol st : at_eol (m_rest st) = true -> consumes PEol st st.
Create HintDb pcre.
#[local] Arguments star_loop : simpl never.

Lemma star_loop_S body k n st :
  star_loop body k (S n) st =
  match body st (fun st' => if length (m_rest st') <? length (m_rest st) then star_loop body k n st' else k st') with
  | Some r => Some r
  | None => k st
  end.
Proof. done. Qed.

#[export] Hint Constructors consumes : pcre.

Lemma bt_consumes p st k r :
  bt p st k = Some r -> exists st', consumes p st st' /\ k st' = Some r.
Proof.
  revert st k r. induction p as [|c|p IHp q IHq|p IHp q IHq|p IHp|p IHp|i p IHp|p IHp| |]; simpl; intros st k r H.
  - eauto with pcre.
  - destruct (m_rest st) as [|x l] eqn:E; [done|]. destruct (c x) eqn:Hc; [|done]. eauto with pcre.
  - apply IHp in H as (st1 & H1 & H). apply IHq in H as (st2 & H2 & H). eauto with pcre.
  - destruct (bt p st k) eqn:E.
    + injection H as ->. apply IHp in E as (st' & ? & ?). eauto with pcre.
    + apply IHq in H as (st' & ? & ?). eauto with pcre.
  - revert H. generalize (S (length (m_rest st))) as n. intros n. revert st. induction n as [|n IHn]; intros st H.
    + eauto with pcre.
    + rewrite star_loop_S in H. destruct (bt p st _) as [r'|] eqn:E.
      * injection H as ->. apply IHp in E as (st1 & H1 & E).
        destruct (_ <? _); [|eauto with pcre]. apply IHn in E as (st2 & H2 & E). eauto with pcre.
      * eauto with pcre.
  - destruct (bt p st Some) as [st'|] eqn:E; [|done]. apply IHp in E as (st1 & H1 & [= ->]). eauto with pcre.
  - apply IHp in H as (st' & H1 & H). eauto with pcre.
  - destruct (bt p st Some) as [st'|] eqn:E; [|done]. apply IHp in E as (st1 & H1 & [= ->]). eauto with pcre.
  - destruct (Nat.eqb_spec (m_pos st) 0); [|done]. eauto with pcre.
  - destruct (at_eol (m_rest st)) eqn:E; [|done]. eauto with pcre.
Qed.

(** A search that would have to continue where [k] fails, fails. *)
Lemma bt_none p st k : (forall st', consumes p st st' -> k st' = None) -> bt p st k = None.
Proof.
  intros H. destruct (bt p st k) as [r|] eqn:E; [|done].
  apply bt_consumes in E as (st' & Hc & Hk). by rewrite (H st' Hc) in Hk.
Qed.

(** The text between two states. *)
Definition between (st : mstate) (w : list ascii) (st' : mstate) : Prop :=
  m_rest st = w ++ m_rest st' /\ m_pos st' = m_pos st + length w.

Lemma between_refl st : between st [] st.
Proof. split; simpl; lia || done. Qed.

Lemma between_trans st1 st2 st3 w v : between st1 w st2 -> between st2 v st3 -> between st1 (w ++ v) st3.
Proof. intros [E1 P1] [E2 P2]. split; [by rewrite E1, E2, app_assoc|rewrite length_app; lia]. Qed.

Lemma consumes_between p st st' : consumes p st st' -> exists w, between st w st'.
Proof.
  induction 1 as [|c st x r E Hc|p q st st1 st2 ? (w & H1) ? (v & H2)|? ? ? ? ? IH|? ? ? ? ? IH| |
    p st st1 st2 ? (w & H1) ? (v & H2)|? ? ? ? IH|i p st st' ? (w & H1)| | |]; eauto using between_refl, between_trans.
  - exists [x]. split; simpl; [by rewrite E|lia].
  - exists []. split; simpl; [done|lia].
Qed.

Lemma consumes_shorter p st st' : consumes p st st' -> length (m_rest st') <= length (m_rest st).
Proof. intros (w & E & _)%consumes_between. rewrite E, length_app. lia. Qed.

(** Every character a match consumes is one the pattern names. *)
Fixpoint names (p : pat) (x : ascii) : bool :=
  match p with
  | PEps | PLook _ | PBol | PEol => false
  | PCls c => c x
  | PSeq p q | PAlt p q => names p x || names q x
  | PStar p | PAtomic p | PGroup _ p => names p x
  end.

Lemma consumes_names p st st' :
  consumes p st st' -> exists w, between st w st' /\ Forall (fun x => names p x = true) w.
Proof.
  induction 1 as [|c st x r E Hc|p q st st1 st2 ? (w & H1 & F1) ? (v & H2 & F2)|? ? ? ? ? (w & H1 & F1)|? ? ? ? ? (w & H1 & F1)| |
    p st st1 st2 ? (w & H1 & F1) ? (v & H2 & F2)|? ? ? ? IH|i p st st' ? (w & H1 & F1)| | |];
    try (by exists []; split; [apply between_refl|]).
  - exists [x]. split; [|by constructor]. split; simpl; [by rewrite E|lia].
  - exists (w ++ v). split; [by eapply between_trans|]. apply Forall_app. simpl.
    split; eapply Forall_impl; eauto; intros x; simpl; intros ->; [done|apply orb_true_r].
  - exists w. split; [done|]. eapply Forall_impl; eauto. intros x; simpl; by intros ->.
  - exists w. split; [done|]. eapply Forall_impl; eauto. intros x; simpl; intros ->. apply orb_true_r.
  - exists (w ++ v). split; [by eapply between_trans|]. by apply Forall_app.
  - exact IH.
  - exists w. by destruct H1.
  - exists []. split; [|done]. split; simpl; [done|lia].
Qed.

(** Patterns that can match the empty string, and the characters a
    non-empty match can begin with. *)
Fixpoint nullable (p : pat) : bool :=
  match p with
  | PEps | PStar _ | PLook _ | PBol | PEol => true
  | PCls _ => false
  | PSeq p q => nullable p && nullable q
  | PAlt p q => nullable p || nullable q
  | PAtomic p | PGroup _ p => nullable p
  end.
Fixpoint begins (p : pat) (x : ascii) : bool :=
  match p with
  | PEps | PLook _ | PBol | PEol => false
  | PCls c => c x
  | PSeq p q => begins p x || (nullable p && begins q x)
  | PAlt p q => begins p x || begins q x
  | PStar p | PAtomic p | PGroup _ p => begins p x
  end.

Lemma consumes_begins p st st' :
  consumes p st st' ->
  (m_rest st' = m_rest st /\ nullable p = true) \/ (exists x r, m_rest st = x :: r /\ begins p x = true).
Proof.
  induction 1 as [|c st x r E Hc|p q st st1 st2 ? IH1 ? IH2|? ? ? ? ? IH|? ? ? ? ? IH| |
    p st st1 st2 ? IH1 ? IH2|? ? ? ? IH|i p st st' ? IH| | |]; simpl; try (by left); try exact IH.
  - right. eauto.
  - destruct IH1 as [[E1 N1]|(x & r & E & B)]; [|right; exists x, r; by rewrite B].
    rewrite N1, <- E1. destruct IH2 as [[E2 N2]|(x & r & E & B)]; [by left|].
    right. exists x, r. split; [done|]. rewrite B. apply orb_true_r.
  - destruct IH as [[E1 N1]|(x & r & E & B)]; [left|right; exists x, r]; [by rewrite N1|by rewrite B].
  - destruct IH as [[E1 N1]|(x & r & E & B)]; [left|right; exists x, r]; [by rewrite N1, orb_true_r|by rewrite B, orb_true_r].
  - destruct IH1 as [[E1 N1]|(x & r & E & B)]; [|right; by exists x, r].
    rewrite <- E1. destruct IH2 as [[E2 N2]|(x & r & E & B)]; [by left|]. right. by exists x, r.
Qed.

(** A pattern does not match where it cannot begin. *)
Lemma bt_cannot_begin p st k :
  nullable p = false -> (forall x r, m_rest st = x :: r -> begins p x = false) -> bt p st k = None.
Proof.
  intros Hn Hb. apply bt_none. intros st' [[_ N]|(x & r & E & B)]%consumes_begins; [congruence|].
  by rewrite (Hb x r E) in B.
Qed.

(** Inversions *)
Lemma consumes_seq_inv p q st st2 : consumes (PSeq p q) st st2 -> exists st1, consumes p st st1 /\ consumes q st1 st2.
Proof. inversion 1; subst; eauto. Qed.
Lemma consumes_alt_inv p q st st' : consumes (PAlt p q) st st' -> consumes p st st' \/ consumes q st st'.
Proof. inversion 1; subst; eauto. Qed.
Lemma consumes_chr_inv a st st' : consumes (PChr a) st st' -> m_rest st = a :: m_rest st'.
Proof.
  inversion 1 as [|? ? x r E Hx| | | | | | | | | |]; subst. apply bool_decide_eq_true in Hx as ->.
  cbn [advance m_rest]. by rewrite E.
Qed.

(** A match of the whole subject *)
Lemma full_names p v st (c : ascii -> bool) :
  consumes p (mkM 0 v []) st -> m_rest st = [] -> (forall x, names p x = true -> c x = true) -> Forall (fun x => c x = true) v.
Proof.
  intros Hc Er Hi. destruct (consumes_names _ _ _ Hc) as (w & [Ew _] & Hw). cbn [m_rest] in Ew.
  rewrite Er, app_nil_r in Ew. subst w. eapply Forall_impl; [exact Hw|]. exact Hi.
Qed.

(** A pattern that cannot match the empty string advances. *)
Lemma consumes_proper p st st' :
  consumes p st st' -> nullable p = false -> length (m_rest st') < length (m_rest st).
Proof.
  induction 1 as [|c st x r E Hc|p q st st1 st2 H1 IH1 H2 IH2|? ? ? ? ? IH|? ? ? ? ? IH| |
    p st st1 st2 H1 IH1 H2 IH2|? ? ? ? IH|i p st st' ? IH| | |]; cbn [nullable]; intros Hn; try done; auto.
  - cbn [advance m_rest]. rewrite length_drop, E. simpl. lia.
  - pose proof (consumes_shorter _ _ _ H1). pose proof (consumes_shorter _ _ _ H2).
    apply andb_false_iff in Hn as [Hn|Hn]; [specialize (IH1 Hn)|specialize (IH2 Hn)]; lia.
  - apply orb_false_iff in Hn as [Hn _]. auto.
  - apply orb_false_iff in Hn as [_ Hn]. auto.
Qed.

(** ** What the groups capture *)

(** The capturing parentheses of a pattern, and whether a match always sets
    the i-th. *)
Fixpoint groups (p : pat) : list (nat * pat) :=
  match p with
  | PEps | PCls _ | PBol | PEol => []
  | PSeq p q | PAlt p q => groups p ++ groups q
  | PStar p | PAtomic p | PLook p => groups p
  | PGroup i p => (i, p) :: groups p
  end.
Fixpoint must (i : nat) (p : pat) : bool :=
  match p with
  | PEps | PCls _ | PStar _ | PBol | PEol => false
  | PSeq p q => must i p || must i q
  | PAlt p q => must i p && must i q
  | PAtomic p | PLook p => must i p
  | PGroup j p => (i =? j) || must i p
  end.

(** A state inside the subject. *)
Definition inside (s : list ascii) (st : mstate) : Prop := m_pos st <= length s /\ m_rest st = drop (m_pos st) s.

Lemma inside_between s st st' w : inside s st -> between st w st' -> inside s st'.
Proof.
  intros [H1 H2] [H3 H4]. rewrite H2 in H3.
  assert (length (drop (m_pos st) s) = length (w ++ m_rest st')) as Hl by (by rewrite H3).
  rewrite length_drop, length_app in Hl. split; [lia|]. rewrite H4, <- drop_drop, H3. by rewrite drop_app_length.
Qed.

Definition group_ok (s : list ascii) (p : pat) (c : nat * (nat * nat)) : Prop :=
  exists q st1 st2, (fst c, q) ∈ groups p /\ consumes q st1 st2 /\ inside s st1 /\ inside s st2 /\ snd c = (m_pos st1, m_pos st2).

Lemma group_ok_incl s p q c : (forall x, x ∈ groups p -> x ∈ groups q) -> group_ok s p c -> group_ok s q c.
Proof. intros H (q' & st1 & st2 & Hin & Hr). exists q', st1, st2. auto. Qed.

Lemma consumes_groups s p st st' : consumes p st st' -> inside s st ->
  inside s st' /\ exists new, m_caps st' = new ++ m_caps st
    /\ (forall i, must i p = true -> i ∈ new.*1) /\ Forall (group_ok s p) new.
Proof.
  intros Hc Hin. split; [destruct (consumes_between _ _ _ Hc) as (w & Hw); by eapply inside_between|].
  revert Hin. induction Hc as [|c st x r E Hc|p q st st1 st2 H1 IH1 H2 IH2|p q st st' H1 IH|p q st st' H1 IH| |
    p st st1 st2 H1 IH1 H2 IH2|p st st' H1 IH|i p st st' H1 IH|p st st' H1 IH| |]; intros Hin;
    try (exists []; split_and!; [done|done|constructor]).
  - destruct (IH1 Hin) as (n1 & E1 & M1 & G1). destruct (consumes_between _ _ _ H1) as (w & Hw).
    destruct (IH2 (inside_between _ _ _ _ Hin Hw)) as (n2 & E2 & M2 & G2). exists (n2 ++ n1). split_and!.
    + by rewrite E2, E1, app_assoc.
    + intros i. cbn [must]. rewrite fmap_app, elem_of_app. intros [Hi|Hi]%orb_true_iff; auto.
    + apply Forall_app. split; [eapply Forall_impl; [exact G2|]|eapply Forall_impl; [exact G1|]];
        intros c; apply group_ok_incl; intros y Hy; cbn [groups]; apply elem_of_app; auto.
  - destruct (IH Hin) as (n & E & M & G). exists n. split_and!; [done| |].
    + intros i [Hi _]%andb_true_iff. auto.
    + eapply Forall_impl; [exact G|]. intros c. apply group_ok_incl. intros y Hy. cbn [groups]. apply elem_of_app. auto.
  - destruct (IH Hin) as (n & E & M & G). exists n. split_and!; [done| |].
    + intros i [_ Hi]%andb_true_iff. auto.
    + eapply Forall_impl; [exact G|]. intros c. apply group_ok_incl. intros y Hy. cbn [groups]. apply elem_of_app. auto.
  - destruct (IH1 Hin) as (n1 & E1 & _ & G1). destruct (consumes_between _ _ _ H1) as (w & Hw).
    destruct (IH2 (inside_between _ _ _ _ Hin Hw)) as (n2 & E2 & _ & G2). exists (n2 ++ n1).
    split_and!; [by rewrite E2, E1, app_assoc|done|]. apply Forall_app. split; [exact G2|].
    eapply Forall_impl; [exact G1|]. intros c. by apply group_ok_incl.
  - destruct (IH Hin) as (n & E & M & G). exists n. split_and!; [done|done|].
    eapply Forall_impl; [exact G|]. intros c. by apply group_ok_incl.
  - destruct (IH Hin) as (n & E & M & G). exists ((i, (m_pos st, m_pos st')) :: n).
    destruct (consumes_between _ _ _ H1) as (w & Hw). split_and!.
    + cbn [capture m_caps]. by rewrite E.
    + intros j. cbn [must fmap list_fmap fst]. rewrite elem_of_cons. intros [->%Nat.eqb_eq|Hj]%orb_true_iff; auto.
    + constructor.
      * exists p, st, st'. split_and!; [apply list_elem_of_here|done|done|by eapply inside_between|done].
      * eapply Forall_impl; [exact G|]. intros c. apply group_ok_incl. intros y Hy. by apply list_elem_of_further.
  - destruct (IH Hin) as (n & E & M & G). exists n. split_and!; [done|done|].
    eapply Forall_impl; [exact G|]. intros c. by apply group_ok_incl.
Qed.

(** ** Equations *)

Lemma bt_ext p st k k' :
  (forall st', length (m_rest st') <= length (m_rest st) -> k st' = k' st') -> bt p st k = bt p st k'.
Proof.
  revert st k k'. induction p as [|c|p IHp q IHq|p IHp q IHq|p IHp|p IHp|i p IHp|p IHp| |]; simpl; intros st k k' H;
    try (by rewrite H).
  - destruct (m_rest st) as [|x r] eqn:E; [done|]. destruct (c x); [|done]. apply H. cbn [advance m_rest]. rewrite length_drop, E. lia.
  - apply IHp. intros st1 H1. apply IHq. intros st2 H2. apply H. lia.
  - by rewrite (IHp st k k'), (IHq st k k').
  - assert (forall n st1, length (m_rest st1) <= length (m_rest st) ->
      star_loop (bt p) k n st1 = star_loop (bt p) k' n st1) as Hl; [|by apply Hl].
    induction n as [|n IHn]; intros st1 H1; [by apply H|].
    rewrite !star_loop_S, (H st1 H1). erewrite IHp; [done|]. intros st2 H2. simpl. destruct (_ <? _); [apply IHn|apply H]; lia.
  - destruct (bt p st Some) as [st'|] eqn:E; [|done]. apply bt_consumes in E as (st1 & H1 & [= ->]).
    apply H. by eapply consumes_shorter.
  - apply IHp. intros st' H'. by apply H.
  - destruct (bt p st Some) as [st'|]; [|done]. by apply H.
Qed.

(** The loop of [PStar] with any sufficient bound. *)
Definition star_step (p : pat) (k : mstate -> option mstate) (rec : mstate -> option mstate) (st : mstate) : option mstate :=
  match bt p st (fun st' => if length (m_rest st') <? length (m_rest st) then rec st' else k st') with
  | Some r => Some r
  | None => k st
  end.

Lemma bt_star p st k : bt (PStar p) st k = star_step p k (fun st' => bt (PStar p) st' k) st.
Proof.
  assert (forall n m st, length (m_rest st) < n -> length (m_rest st) < m ->
    star_loop (bt p) k n st = star_loop (bt p) k m st) as Hl.
  { induction n as [|n IHn]; intros [|m] st0 Hn Hm; try lia. rewrite !star_loop_S.
    erewrite bt_ext; [done|]. intros st1 H1. simpl.
    destruct (Nat.ltb_spec (length (m_rest st1)) (length (m_rest st0))); [apply IHn; lia|done]. }
  unfold star_step. cbn [bt]. rewrite star_loop_S. erewrite bt_ext; [done|]. intros st1 H1. simpl.
  destruct (Nat.ltb_spec (length (m_rest st1)) (length (m_rest st))); [apply Hl; lia|done].
Qed.

(** ** The shapes of the sources *)

Definition none_of (c : ascii -> bool) (r : list ascii) : Prop :=
  match r with [] => True | x :: _ => c x = false end.

Lemma bt_cls_fail c st k : none_of c (m_rest st) -> bt (PCls c) st k = None.
Proof. simpl. destruct (m_rest st) as [|x r]; [done|]. simpl. by intros ->. Qed.

Lemma bt_cls_hit c st k x r : m_rest st = x :: r -> c x = true -> bt (PCls c) st k = k (advance 1 st).
Proof. simpl. by intros -> ->. Qed.

(** A greedy run of a class where nothing is in the class, and where the
    continuation accepts the longest run. *)
Lemma bt_run_none c st k : none_of c (m_rest st) -> bt (PStar (PCls c)) st k = k st.
Proof. intros H. rewrite bt_star. unfold star_step. by rewrite bt_cls_fail. Qed.

Lemma advance_advance n m st : advance m (advance n st) = advance (n + m) st.
Proof. unfold advance. simpl. f_equal; [lia|]. by rewrite drop_drop. Qed.

Lemma advance_0 st : advance 0 st = st.
Proof. destruct st. unfold advance. simpl. by rewrite Nat.add_0_r. Qed.

Fixpoint give_back (k : mstate -> option mstate) (st : mstate) (n : nat) : option mstate :=
  match k (advance n st) with
  | Some s => Some s
  | None => match n with O => None | S n' => give_back k st n' end
  end.

Lemma give_back_S k st n :
  give_back k st (S n) = match give_back k (advance 1 st) n with Some s => Some s | None => k st end.
Proof.
  induction n as [|n IHn].
  - cbn [give_back]. rewrite advance_advance, advance_0. change (1 + 0) with 1.
    destruct (k (advance 1 st)); [done|]. by destruct (k st).
  - cbn [give_back] in *. rewrite advance_advance. change (1 + S n) with (S (S n)).
    by destruct (k (advance (S (S n)) st)).
Qed.

Lemma bt_run c st k w r :
  m_rest st = w ++ r -> Forall (fun x => c x = true) w -> none_of c r ->
  bt (PStar (PCls c)) st k = give_back k st (length w).
Proof.
  intros E Hw Hr. revert st E. induction Hw as [|x w Hx Hw IH]; intros st E.
  - rewrite bt_run_none by (by rewrite E). cbn [give_back length]. rewrite advance_0. by destruct (k st).
  - rewrite bt_star. unfold star_step. rewrite (bt_cls_hit c st _ x (w ++ r)) by done.
    rewrite (IH (advance 1 st)) by (simpl; by rewrite E).
    cbn [length]. rewrite give_back_S, (proj2 (Nat.ltb_lt _ _)); [done|].
    cbn [advance m_rest]. rewrite length_drop, E. simpl. lia.
Qed.

Lemma bt_run_all c st k w r s :
  m_rest st = w ++ r -> Forall (fun x => c x = true) w -> none_of c r ->
  k (advance (length w) st) = Some s -> bt (PStar (PCls c)) st k = Some s.
Proof. intros E Hw Hr Hk. rewrite (bt_run c st k w r) by done. by destruct w; cbn [give_back length] in *; rewrite Hk. Qed.

Lemma bt_not_begin p st k : nullable p = false -> none_of (begins p) (m_rest st) -> bt p st k = None.
Proof. intros Hn Hb. apply bt_cannot_begin; [done|]. intros x r E. by rewrite E in Hb. Qed.

Lemma none_of_imp (c d : ascii -> bool) r : (forall x, c x = false -> d x = false) -> none_of c r -> none_of d r.
Proof. destruct r as [|x r]; simpl; auto. Qed.

(** A possessive run takes the longest run and does not give back. *)
Lemma bt_poss c st k w r :
  m_rest st = w ++ r -> w <> [] -> Forall (fun x => c x = true) w -> none_of c r ->
  bt (PPoss c) st k = k (advance (length w) st).
Proof.
  intros E Hne Hw Hr. destruct w as [|x w]; [done|]. inversion Hw as [|? ? Hx Hw']; subst.
  change (bt (PPoss c) st k) with
    (match bt (PCls c) st (fun st' => bt (PStar (PCls c)) st' Some) with Some st' => k st' | None => None end).
  rewrite (bt_cls_hit c st _ x (w ++ r)) by done.
  assert (bt (PStar (PCls c)) (advance 1 st) Some = Some (advance (length (x :: w)) st)) as ->; [|done].
  apply (bt_run_all c _ _ w r); [simpl; by rewrite E|done|done|]. by rewrite advance_advance.
Qed.

Lemma bt_poss_fail c st k : none_of c (m_rest st) -> bt (PPoss c) st k = None.
Proof.
  intros H. apply bt_cannot_begin; [done|]. intros x r E. simpl. rewrite E in H. simpl in H. by rewrite H.
Qed.

Lemma bt_chr a st k r : m_rest st = a :: r -> bt (PChr a) st k = k (advance 1 st).
Proof. intros E. apply (bt_cls_hit _ _ _ a r); [done|]. by apply bool_decide_eq_true. Qed.

Lemma bt_chr_fail a st k : (forall r, m_rest st <> a :: r) -> bt (PChr a) st k = None.
Proof.
  intros H. apply bt_cls_fail. destruct (m_rest st) as [|x r] eqn:E; [done|]. apply bool_decide_eq_false.
  intros ->. by apply (H r).
Qed.

(** [x{0,n}] takes as many as it can, up to [n]. *)
Lemma bt_upto n c st k w r s :
  m_rest st = w ++ r -> Forall (fun x => c x = true) w -> length w <= n -> length w = n \/ none_of c r ->
  k (advance (length w) st) = Some s -> bt (PUpTo n c) st k = Some s.
Proof.
  revert st w. induction n as [|n IHn]; intros st w E Hw Hn Hr Hk.
  - destruct w; [|simpl in Hn; lia]. cbn [PUpTo bt]. by rewrite advance_0 in Hk.
  - cbn [PUpTo]. unfold POpt. cbn [bt]. destruct w as [|x w].
    + destruct Hr as [Hr|Hr]; [simpl in Hr; lia|]. simpl length in Hk. rewrite advance_0 in Hk.
      destruct (m_rest st) as [|y l] eqn:E'; [exact Hk|]. simpl in E. subst r. simpl in Hr. rewrite Hr. exact Hk.
    + inversion Hw as [|? ? Hx Hw']; subst. rewrite E. simpl app. cbn iota. rewrite Hx.
      rewrite (IHn (advance 1 st) w); [done|simpl; by rewrite E|done|simpl in Hn; lia| |].
      * destruct Hr as [Hr|Hr]; [left; simpl in Hr; lia|by right].
      * by rewrite advance_advance.
Qed.

(** A literal. *)
Lemma bt_lit l st k r : m_rest st = l ++ r -> bt (PLit l) st k = k (advance (length l) st).
Proof.
  revert st. induction l as [|a l IH]; intros st E; [cbn [PLit bt length]; by rewrite advance_0|].
  destruct l as [|b l]; [by apply (bt_chr a st k r)|].
  change (bt (PLit (a :: b :: l)) st k) with (bt (PChr a) st (fun st' => bt (PLit (b :: l)) st' k)).
  rewrite (bt_chr a st _ ((b :: l) ++ r)) by done. rewrite IH by (simpl; by rewrite E). by rewrite advance_advance.
Qed.

Lemma bt_liti l st k v r : m_rest st = v ++ r -> tolower <$> v = tolower <$> l ->
  bt (PLitI l) st k = k (advance (length l) st).
Proof.
  revert st v. induction l as [|a l IH]; intros st v E Hv; [cbn [PLitI bt length]; by rewrite advance_0|].
  destruct v as [|x v]; [done|]. injection Hv as Hx Hv. cbn [PLitI].
  change (bt (PSeq ?p ?q) st k) with (bt p st (fun st' => bt q st' k)).
  rewrite (bt_cls_hit _ st _ x (v ++ r)); [|done|by apply bool_decide_eq_true].
  rewrite (IH _ v); [by rewrite advance_advance|simpl; by rewrite E|done].
Qed.

(** ** Searches *)

Lemma search_here p s off st' :
  off <= length s -> bt p (mkM off (drop off s) []) Some = Some st' ->
  search p s off = Some (mkMatch off (m_pos st') (m_caps st')).
Proof.
  intros Ho H. unfold search. rewrite (proj2 (Nat.leb_le _ _) Ho).
  destruct (drop off s); simpl; by rewrite H.
Qed.

Lemma search_from_start p pos rest m :
  search_from p pos rest = Some m ->
  pos <= mt_start m /\ exists st', bt p (mkM (mt_start m) (drop (mt_start m - pos) rest) []) Some = Some st'
    /\ mt_end m = m_pos st' /\ mt_caps m = m_caps st'.
Proof.
  revert pos. induction rest as [|c rest IH]; intros pos; simpl;
    destruct (bt p _ Some) as [st'|] eqn:E; intros H; try discriminate H;
    try (injection H as <-; simpl; split; [lia|]; rewrite Nat.sub_diag; simpl; by eauto).
  apply IH in H as (Hle & st' & Hb & He & Hc). split; [lia|]. exists st'.
  replace (mt_start m - pos) with (S (mt_start m - S pos)) by lia. done.
Qed.

Lemma search_from_bound p pos rest m : search_from p pos rest = Some m -> mt_start m <= pos + length rest.
Proof.
  revert pos. induction rest as [|c rest IH]; intros pos; simpl; destruct (bt p _ Some); try done; try (intros [= <-]; simpl; lia).
  intros Hm%IH. lia.
Qed.

Lemma at_advance off w r caps n : n = length w -> advance n (mkM off (w ++ r) caps) = mkM (off + length w) r caps.
Proof. intros ->. unfold advance. simpl. by rewrite drop_app_length. Qed.

(** ** Repetition over chunks

    A text that the body of a loop consumes chunk by chunk and that cannot
    go on after its end. *)
Inductive chunks (p : pat) (tail : list ascii) : list ascii -> Prop :=
| chunks_nil : (forall st k, m_rest st = tail -> bt p st k = None) -> chunks p tail []
| chunks_cons c l : c <> [] ->
    (forall st k s, m_rest st = c ++ l ++ tail -> k (advance (length c) st) = Some s -> bt p st k = Some s) ->
    chunks p tail l -> chunks p tail (c ++ l).

Lemma bt_star_chunks p tail l st k s :
  chunks p tail l -> m_rest st = l ++ tail -> k (advance (length l) st) = Some s -> bt (PStar p) st k = Some s.
Proof.
  intros Hc. revert st k. induction Hc as [Hn|c l Hne Hp Hc IH]; intros st k E Hk.
  - rewrite bt_star. unfold star_step. rewrite Hn by done. by rewrite advance_0 in Hk.
  - rewrite bt_star. unfold star_step. rewrite <- app_assoc in E.
    erewrite Hp; [done|done|]. cbn beta.
    assert (m_rest (advance (length c) st) = l ++ tail) as E' by (cbn [advance m_rest]; rewrite E; apply drop_app_length).
    rewrite (proj2 (Nat.ltb_lt _ _)) by (rewrite E', E, (length_app c); destruct c; [done|simpl; lia]).
    apply IH; [done|]. rewrite advance_advance. by rewrite length_app in Hk.
Qed.

(** One or more chunks. *)
Lemma bt_plus_chunks p tail c l st k s :
  c <> [] -> (forall st k s, m_rest st = c ++ l ++ tail -> k (advance (length c) st) = Some s -> bt p st k = Some s) ->
  chunks p tail l -> m_rest st = c ++ l ++ tail -> k (advance (length (c ++ l)) st) = Some s ->
  bt (PPlus p) st k = Some s.
Proof.
  intros Hne Hp Hc E Hk. apply (Hp st _ s E). cbn beta. apply (bt_star_chunks p tail l); [done| |].
  - cbn [advance m_rest]. rewrite E. apply drop_app_length.
  - rewrite advance_advance. by rewrite length_app in Hk.
Qed.

(** A loop over runs of a class and other units: the text is cut into
    maximal runs and units. *)
Section Units.
Context (c : ascii -> bool) (q : pat) (unit_ok : list ascii -> Prop) (tail : list ascii).
Hypothesis unit_ne : forall u, unit_ok u -> u <> [].
Hypothesis unit_hit : forall u st k r, unit_ok u -> m_rest st = u ++ r -> bt q st k = k (advance (length u) st).
Hypothesis unit_first : forall u x r, unit_ok u -> u = x :: r -> c x = false.
Hypothesis tail_cls : none_of c tail.
Hypothesis tail_unit : forall st k, m_rest st = tail -> bt q st k = None.

(** Texts of runs and units. *)
Inductive units : list ascii -> Prop :=
| units_nil : units []
| units_run x l : c x = true -> units l -> units (x :: l)
| units_unit u l : unit_ok u -> units l -> units (u ++ l).

Lemma units_span l : units l ->
  exists w l', l = w ++ l' /\ Forall (fun x => c x = true) w /\ (l' = [] \/ exists u l2, l' = u ++ l2 /\ unit_ok u /\ units l2).
Proof.
  induction 1 as [|x l Hx Hl (w & l' & -> & Hw & Hr)|u l Hu Hl _].
  - exists [], []. by auto.
  - exists (x :: w), l'. split; [done|]. split; [by constructor|done].
  - exists [], (u ++ l). split; [done|]. split; [done|]. right. by exists u, l.
Qed.

Lemma bt_unit_step u l st k s :
  unit_ok u -> m_rest st = u ++ l ++ tail -> k (advance (length u) st) = Some s ->
  bt (PAlt (PPoss c) q) st k = Some s.
Proof.
  intros Hu E Hk. cbn [bt].
  rewrite bt_poss_fail.
  - by rewrite (unit_hit u st k (l ++ tail)).
  - rewrite E. destruct u as [|x u]; [by apply unit_ne in Hu|]. by apply (unit_first (x :: u) x u).
Qed.

Lemma bt_run_step w l st k s :
  w <> [] -> Forall (fun x => c x = true) w -> none_of c (l ++ tail) ->
  m_rest st = w ++ l ++ tail -> k (advance (length w) st) = Some s ->
  bt (PAlt (PPoss c) q) st k = Some s.
Proof. intros Hw Hc Hn E Hk. cbn [bt]. by rewrite (bt_poss c st k w (l ++ tail)), Hk by done. Qed.

Lemma units_none l2 u : unit_ok u -> none_of c ((u ++ l2) ++ tail).
Proof.
  intros Hu. destruct u as [|x u]; [by apply unit_ne in Hu|]. simpl. by apply (unit_first (x :: u) x u).
Qed.

Lemma units_chunks l : units l -> chunks (PAlt (PPoss c) q) tail l.
Proof.
  remember (length l) as n eqn:Hn. assert (length l <= n) as Hle by lia. clear Hn. revert l Hle.
  induction n as [n IH] using lt_wf_ind. intros l Hle Hl.
  assert (chunks (PAlt (PPoss c) q) tail []) as Hnil.
  { constructor. intros st k E. cbn [bt]. rewrite bt_poss_fail by (by rewrite E). by apply tail_unit. }
  destruct (units_span l Hl) as (w & l' & -> & Hw & Hr).
  assert (chunks (PAlt (PPoss c) q) tail l') as Hl'.
  { destruct Hr as [-> |(u & l2 & -> & Hu & Hl2)]; [done|].
    pose proof (unit_ne u Hu). constructor; [done| |].
    - intros st k s E Hk. by apply (bt_unit_step u l2).
    - destruct u as [|y u]; [done|]. rewrite !length_app in Hle. simpl in Hle.
      apply (IH (length l2)); [lia|lia|done]. }
  destruct w as [|x w]; [done|]. constructor; [done| |done].
  intros st k s E Hk. apply (bt_run_step (x :: w) l'); try done.
  destruct Hr as [-> |(u & l2 & -> & Hu & Hl2)]; [done|]. by apply units_none.
Qed.

Lemma bt_star_units l st k s :
  units l -> m_rest st = l ++ tail -> k (advance (length l) st) = Some s ->
  bt (PStar (PAlt (PPoss c) q)) st k = Some s.
Proof. intros Hl. by apply bt_star_chunks, units_chunks. Qed.

Lemma bt_plus_units l st k s :
  units l -> l <> [] -> m_rest st = l ++ tail -> k (advance (length l) st) = Some s ->
  bt (PPlus (PAlt (PPoss c) q)) st k = Some s.
Proof.
  intros Hl Hne E Hk. pose proof (units_chunks l Hl) as Hc. inversion Hc as [Hn El|c0 l0 Hne0 Hp Hc0 El]; [by subst|].
  subst l. rewrite <- app_assoc in E. by apply (bt_plus_chunks _ tail c0 l0).
Qed.
End Units.

(** The reference semantics is a library of this kind. *)
Definition search_Pcre (limit : nat) : Pcre search.
Proof. refine (Build_Pcre search (fun _ => limit) _ _); done. Defined.
