(* ===== verification/PcreText.v ===== *)
(** * The text of patterns

    Most patterns of the sources are constants and enter the models as [pat].
    The rules for numbers and domains build theirs at run time and hand the
    text to pcre_compile, through the constructor of RegEx.  The compiler is a
    parameter, [compile]; its documented behaviour on the part of the syntax
    that those texts use (anchors, dot, literals, escapes, \Q..\E, classes,
    groups, greedy quantifiers) is the reader [syntax]. *)
From Stdlib Require Import ZArith Lia Ascii String.
From stdpp Require Import base list strings.
From S2P Require Import Prelude Format Pcre PcreSpec.
Local Open Scope nat_scope.

Definition BACKSLASH : ascii := "092"%char.
Definition LF : ascii := "010"%char.

(** ** Tokens *)

(** An item of a character class: a character, or an unescaped hyphen. *)
Inductive citem := CChar (a : ascii) | CDash.

Inductive rtok :=
| RBol | REol | ROpen | RClose | RAny | RStar | RPlus | ROpt
| RLit (a : ascii)
| RCls (negated : bool) (ranges : list (ascii * ascii)).

(** The ranges of a class; a hyphen must stand between two characters, the
    first not above the second. *)
Fixpoint ranges_of (items : list citem) : option (list (ascii * ascii)) :=
  match items with
  | [] => Some []
  | CDash :: _ => None
  | CChar a :: CDash :: CChar b :: items' =>
      if (uchar a <=? uchar b)%Z then cons (a, b) <$> ranges_of items' else None
  | CChar a :: items' => cons (a, a) <$> ranges_of items'
  end.

Definition in_ranges (rs : list (ascii * ascii)) (x : ascii) : bool :=
  existsb (fun r => (uchar (fst r) <=? uchar x)%Z && (uchar x <=? uchar (snd r))%Z) rs.

(** The characters that mean something to the compiler outside a class and
    that [lex] does not read. *)
Definition unread : list ascii := bytes "|{".
Definition other_escape (c : ascii) : bool := isalnum c.

(** Where the lexer is: outside, between \Q and \E, at the beginning of a
    class, or in it with the items so far. *)
Inductive lmode := Plain | Quoted | ClassStart | Class (negated : bool) (items : list citem).

Definition lex_plain (c : ascii) : option rtok :=
  if decide (c = "^"%char) then Some RBol else if decide (c = "$"%char) then Some REol
  else if decide (c = "("%char) then Some ROpen else if decide (c = ")"%char) then Some RClose
  else if decide (c = "."%char) then Some RAny else if decide (c = "*"%char) then Some RStar
  else if decide (c = "+"%char) then Some RPlus else if decide (c = "?"%char) then Some ROpt
  else if decide (c ∈ unread) then None else Some (RLit c).

Fixpoint lex (m : lmode) (l : list ascii) : option (list rtok) :=
  match m, l with
  | Plain, [] | Quoted, [] => Some []
  | _, [] => None
  | Plain, c :: l' =>
      if decide (c = BACKSLASH) then
        match l' with
        | [] => None
        | d :: l'' =>
            if decide (d = "Q"%char) then lex Quoted l''
            else if other_escape d then None else cons (RLit d) <$> lex Plain l''
        end
      else if decide (c = "["%char) then lex ClassStart l'
      else t ← lex_plain c; cons t <$> lex Plain l'
  | Quoted, c :: l' =>
      match l' with
      | d :: l'' =>
          if decide (c = BACKSLASH /\ d = "E"%char) then lex Plain l'' else cons (RLit c) <$> lex Quoted l'
      | [] => cons (RLit c) <$> lex Quoted l'
      end
  | ClassStart, c :: l' =>
      if decide (c = "^"%char) then lex (Class true []) l'
      else if decide (c = BACKSLASH) then
        match l' with
        | [] => None
        | d :: l'' => if other_escape d then None else lex (Class false [CChar d]) l''
        end
      else if decide (c ∈ bytes "[]-") then None
      else lex (Class false [CChar c]) l'
  | Class n items, c :: l' =>
      if decide (c = "]"%char) then
        match items with
        | [] => None
        | _ => rs ← ranges_of items; cons (RCls n rs) <$> lex Plain l'
        end
      else if decide (c = BACKSLASH) then
        match l' with
        | [] => None
        | d :: l'' => if other_escape d then None else lex (Class n (items ++ [CChar d])) l''
        end
      else if decide (c = "["%char) then None
      else lex (Class n (items ++ [if decide (c = "-"%char) then CDash else CChar c])) l'
  end.

(** ** Patterns *)

Section Syntax.
Context (caseless : bool).

Definition same_char (a x : ascii) : bool := if caseless then bool_decide (tolower x = tolower a) else bool_decide (x = a).
Definition cls (negated : bool) (rs : list (ascii * ascii)) (x : ascii) : bool :=
  xorb negated (in_ranges rs x || (caseless && (in_ranges rs (tolower x) || in_ranges rs (toupper x)))).
Definition dot (x : ascii) : bool := negb (bool_decide (x = LF)).

Definition quantifier (t : rtok) : bool := match t with RStar | RPlus | ROpt => true | _ => false end.
(** A quantifier, which must not be followed by another. *)
Definition quantify (p : pat) (ts : list rtok) : option (pat * list rtok) :=
  let alone (q : pat) (r : list rtok) :=
    match r with t :: _ => if quantifier t then None else Some (q, r) | [] => Some (q, r) end in
  match ts with
  | RStar :: r => alone (PStar p) r
  | RPlus :: r => alone (PPlus p) r
  | ROpt :: r => alone (POpt p) r
  | _ => Some (p, ts)
  end.

(** A sequence up to the end or a closing parenthesis; [n] is the number of
    the next group. *)
Fixpoint sequence (fuel : nat) (n : nat) (ts : list rtok) : option (pat * nat * list rtok) :=
  match fuel with
  | O => None
  | S f =>
      let single (p : pat) (r : list rtok) :=
        '(q, r') ← quantify p r; '(rest, n', r'') ← sequence f n r'; Some (PSeq q rest, n', r'') in
      match ts with
      | [] | RClose :: _ => Some (PEps, n, ts)
      | RBol :: r => '(rest, n', r') ← sequence f n r; Some (PSeq PBol rest, n', r')
      | REol :: r => '(rest, n', r') ← sequence f n r; Some (PSeq PEol rest, n', r')
      | RAny :: r => single (PCls dot) r
      | RLit a :: r => single (PCls (same_char a)) r
      | RCls neg rs :: r => single (PCls (cls neg rs)) r
      | ROpen :: r =>
          '(body, n', r') ← sequence f (S n) r;
          match r' with
          | RClose :: r'' =>
              '(q, r3) ← quantify (PGroup n body) r''; '(rest, n'', r4) ← sequence f n' r3; Some (PSeq q rest, n'', r4)
          | _ => None
          end
      | RStar :: _ | RPlus :: _ | ROpt :: _ => None
      end
  end.

Definition syntax (text : list ascii) : option pat :=
  ts ← lex Plain text;
  '(p, _, r) ← sequence (S (length ts)) 1 ts;
  match r with [] => Some p | _ => None end.
End Syntax.

(** ** RegEx *)

(** The compiler reads this syntax as documented; where the reader gives no
    pattern nothing is said of it. *)
Class PcreCompile (compile : bool -> list ascii -> option pat) := {
  compile_syntax caseless text p : syntax caseless text = Some p -> compile caseless text = Some p }.

#[global] Instance syntax_compiles : PcreCompile syntax.
Proof. by split. Qed.

(** RegEx::RegEx(const char*, int): a text that does not compile is thrown. *)
Definition RegEx_new (compile : bool -> list ascii -> option pat) (caseless : bool) (text : list ascii) : outcome pat :=
  match compile caseless (cstr text) with Some p => Ok p | None => Throw end.

(** RegEx::SubStrings: the number of groups and one *)
Definition SubStrings (p : pat) : nat := S (length (groups p)).

(** RegEx::Match(i) as a C string: the i-th substring, empty where it did
    not take part. *)
Definition Match_sz (s : list ascii) (m : Match) (i : nat) : list ascii := cstr (default [] (MatchString s m i)).

(** ** Searches that cannot miss a match

    Without possessive parts and lookahead, and with loops whose bodies
    always advance, a search fails only where no match exists. *)
Fixpoint exhaustive (p : pat) : bool :=
  match p with
  | PEps | PCls _ | PBol | PEol => true
  | PSeq p q | PAlt p q => exhaustive p && exhaustive q
  | PStar p => exhaustive p && negb (nullable p)
  | PGroup _ p => exhaustive p
  | PAtomic _ | PLook _ => false
  end.

Lemma bt_finds p st st' k r :
  consumes p st st' -> exhaustive p = true -> k st' = Some r -> exists r', bt p st k = Some r'.
Proof.
  intros Hc. revert k r. induction Hc as [|c st x l E Hc|p q st st1 st2 H1 IH1 H2 IH2|p q st st' H1 IH|p q st st' H1 IH|p st|
    p st st1 st2 H1 IH1 H2 IH2|p st st' H1 IH|i p st st' H1 IH|p st st' H1 IH|st E|st E]; cbn [exhaustive]; intros k r He Hk;
    try (by cbn [bt]; rewrite ?E, ?Hc; eauto); try done.
  - apply andb_true_iff in He as [He1 He2]. destruct (IH2 k r He2 Hk) as (r2 & Hr2). exact (IH1 (fun st' => bt q st' k) r2 He1 Hr2).
  - apply andb_true_iff in He as [He _]. destruct (IH k r He Hk) as (r' & Hr). cbn [bt]. rewrite Hr. by eauto.
  - apply andb_true_iff in He as [_ He]. destruct (IH k r He Hk) as (r' & Hr). cbn [bt]. rewrite Hr. destruct (bt p st k); by eauto.
  - rewrite bt_star. unfold star_step. destruct (bt p st _); by eauto.
  - rewrite bt_star. unfold star_step. destruct (IH2 k r He Hk) as (r2 & Hr2). apply andb_true_iff in He as [He Hn%negb_true_iff].
    edestruct (IH1 (fun st' => if length (m_rest st') <? length (m_rest st) then bt (PStar p) st' k else k st') r2 He) as (r' & ->); [|by eauto].
    simpl. by rewrite (proj2 (Nat.ltb_lt _ _) (consumes_proper _ _ _ H1 Hn)).
Qed.

(** A pattern that begins with [^] matches at the beginning or not at all. *)
Lemma search_anchored q s m : search (PSeq PBol q) s 0 = Some m ->
  mt_start m = 0 /\ exists st', consumes q (mkM 0 s []) st' /\ mt_end m = m_pos st' /\ mt_caps m = m_caps st'.
Proof.
  unfold search. simpl. rewrite drop_0. intros (_ & st' & Hb & He & Hc)%search_from_start.
  rewrite Nat.sub_0_r in Hb. cbn [bt m_pos] in Hb. destruct (Nat.eqb_spec (mt_start m) 0) as [E|E]; [|done].
  split; [done|]. rewrite E, drop_0 in Hb. apply bt_consumes in Hb as (st1 & H1 & [= ->]). by eauto.
Qed.

Lemma search_anchored_hit q s st' : exhaustive q = true -> consumes q (mkM 0 s []) st' ->
  exists m, search (PSeq PBol q) s 0 = Some m.
Proof.
  intros He Hc. destruct (bt_finds q _ _ Some st' Hc He eq_refl) as (r & Hr).
  eexists. apply (search_here _ s 0 r); [lia|]. cbn [bt m_pos Nat.eqb]. by rewrite drop_0.
Qed.

(** ** Reading *)

(** More fuel changes no result. *)
Definition below {A} (a b : option A) : Prop := a = None \/ b = a.

Lemma below_bind {A B} (a b : option A) (k k' : A -> option B) : below a b -> (forall x, below (k x) (k' x)) -> below (a ≫= k) (b ≫= k').
Proof. intros [-> | ->] Hk; [by left|]. destruct a as [x|]; [apply Hk|by left]. Qed.

Lemma sequence_below cl f : forall g n ts, f <= g -> below (sequence cl f n ts) (sequence cl g n ts).
Proof.
  induction f as [|f IH]; intros [|g] n ts Hle; try (by left); [lia|]. apply le_S_n in Hle. cbn [sequence].
  destruct ts as [|[] ts]; try (by right); repeat (apply below_bind; [by apply IH || by right|intros]); repeat case_match; simplify_eq;
    try (by right); try (by left); repeat (apply below_bind; [by apply IH || by right|intros]); repeat case_match; simplify_eq; try (by right).
  apply below_bind; [by apply IH|intros x]. by right.
Qed.

Lemma sequence_mono cl f g n ts r : sequence cl f n ts = Some r -> f <= g -> sequence cl g n ts = Some r.
Proof. intros E Hle. destruct (sequence_below cl f g n ts Hle); congruence. Qed.

Definition unquantified (r : list rtok) : Prop := match r with t :: _ => quantifier t = false | [] => True end.

Lemma quantify_none p r : unquantified r -> quantify p r = Some (p, r).
Proof. by destruct r as [|[] r]. Qed.
Lemma quantify_star p r : unquantified r -> quantify p (RStar :: r) = Some (PStar p, r).
Proof. destruct r as [|[] r]; simpl; intros; by try discriminate. Qed.

(** ** Matching *)

Lemma advance_split v r st : m_rest st = v ++ r -> m_rest (advance (length v) st) = r.
Proof. intros E. cbn. by rewrite E, drop_app_length. Qed.

Lemma consumes_run (c : ascii -> bool) st st' : consumes (PStar (PCls c)) st st' <->
  exists v r, m_rest st = v ++ r /\ Forall (fun x => c x = true) v /\ st' = advance (length v) st.
Proof.
  split.
  - remember (PStar (PCls c)) as p eqn:Ep. induction 1 as [| | | | |p st|p st st1 st2 H1 IH1 H2 IH2| | | | |]; try done; injection Ep as ->.
    + exists [], (m_rest st). by rewrite advance_0.
    + inversion H1 as [|? ? x l E Hx| | | | | | | | | |]; subst. destruct (IH2 eq_refl) as (v & r & Er & Hv & ->). exists (x :: v), r.
      cbn [advance m_rest] in Er. rewrite E in Er |- *. simpl in Er. rewrite drop_0 in Er. subst l.
      split_and!; [done|by constructor|by rewrite advance_advance].
  - intros (v & r & E & Hv & ->). revert st E. induction Hv as [|x v Hx Hv IH]; intros st E; [rewrite advance_0; constructor|].
    apply C_star_cons with (advance 1 st); [by eapply C_cls|]. change (length (x :: v)) with (1 + length v). rewrite <- advance_advance.
    apply IH. cbn. by rewrite E.
Qed.

Lemma at_eol_line r : LF ∉ r -> at_eol r = true -> r = [].
Proof. destruct r as [|c [|]]; [done| |done]. intros Hr Hc%bool_decide_eq_true. destruct Hr. apply list_elem_of_singleton. by rewrite Hc. Qed.
