(* ===== verification/DigitMap.v ===== *)
(** * User patterns of the dial rules

    UrlMapping::convertRegularExpression and UrlMapping::getVDigits of
    [sipXcommserverLib/src/digitmaps/UrlMapping.cpp]: the notation of the rules
    ([x] for one character, [.] for any number of them, classes in brackets) is
    translated to the text of a regular expression whose one group holds the
    variable digits. *)
From Stdlib Require Import ZArith Lia Ascii String.
From stdpp Require Import base list strings sets.
From S2P Require Import Prelude Format Pcre PcreSpec PcreText.
Local Open Scope nat_scope.

(** ** The translation *)

Definition open_group (seenNonConstant : bool) : list ascii := if seenNonConstant then [] else bytes "(".

(** The branches over one character; [specialEscaped] after a backslash. *)
Definition convert_char (specialEscaped : bool) (c : ascii) (seenNonConstant : bool) : list ascii * bool :=
  let protect (t : list ascii) := (if specialEscaped then BACKSLASH :: t else t, seenNonConstant) in
  if decide (c = "["%char) then
    if specialEscaped then ([BACKSLASH; c], seenNonConstant) else (open_group seenNonConstant ++ [c], true)
  else if decide (c = "."%char) then
    if specialEscaped then (bytes "\.", seenNonConstant) else (open_group seenNonConstant ++ bytes ".*", true)
  else if decide (c = "+"%char) then protect (bytes "\+")
  else if decide (c = "$"%char) then protect (bytes "\$")
  else if decide (c = "?"%char) then protect (bytes "\?")
  else if decide (c = "*"%char) then protect (bytes "\*")
  else if decide (c = "("%char) then protect (bytes "\(")
  else if decide (c = ")"%char) then protect (bytes "\)")
  else if decide (c = "x"%char) then
    if specialEscaped then (bytes "x", seenNonConstant) else (open_group seenNonConstant ++ bytes ".", true)
  else if decide (c = BACKSLASH) then (bytes "\\", seenNonConstant)
  else ([c], seenNonConstant).

(** The loop over source.data().  A backslash at the end makes the terminating
    NUL the character, and the loop goes on behind it. *)
Fixpoint convert_loop (source : list ascii) (seenNonConstant : bool) : outcome (list ascii * bool) :=
  match source with
  | [] => Ok ([], seenNonConstant)
  | c :: source' =>
      if decide (c = NUL) then Ok ([], seenNonConstant)
      else if decide (c = BACKSLASH) then
        match source' with
        | [] => UB
        | d :: source'' =>
            let '(t, seen) := convert_char true d seenNonConstant in
            let! (r, seen) := convert_loop source'' seen in Ok (t ++ r, seen)
        end
      else
        let '(t, seen) := convert_char false c seenNonConstant in
        let! (r, seen) := convert_loop source' seen in Ok (t ++ r, seen)
  end.

Definition convertRegularExpression (source : list ascii) : outcome (list ascii) :=
  let! (t, seenNonConstant) := convert_loop source false in
  Ok (bytes "^" ++ t ++ (if seenNonConstant then bytes ")" else []) ++ bytes "$").

(** UrlMapping::getVDigits after a search in [user] *)
Definition getVDigits (userPattern : pat) (user : list ascii) (m : Match) : list ascii :=
  if 1 <? SubStrings userPattern then Match_sz user m 1 else [].

(** A userPattern against the user of a request: the variable digits, if it
    matches. *)
Definition match_user_pattern (compile : bool -> list ascii -> option pat) (pcre_exec : pat -> list ascii -> nat -> option Match)
    (userRE testUser : list ascii) : outcome (option (list ascii)) :=
  let! regStr := convertRegularExpression userRE in
  let! userExpression := RegEx_new compile false regStr in
  match pcre_exec userExpression testUser 0 with
  | Some m => Ok (Some (getVDigits userExpression testUser m))
  | None => Ok None
  end.

(** The conversions of UrlMappingTest::testUserPatternConversion *)
Example convert_examples :
  convertRegularExpression (bytes "19xxx") = Ok (bytes "^19(...)$")
  /\ convertRegularExpression (bytes "xxxxx") = Ok (bytes "^(.....)$")
  /\ convertRegularExpression (bytes "134.") = Ok (bytes "^134(.*)$").
Proof. by vm_compute. Qed.

(** ** The notation *)

Inductive dm :=
| DLit (a : ascii)
| DOne
| DMany
| DCls (negated : bool) (ranges : list (ascii * ascii)).

Definition variable (t : dm) : bool := match t with DLit _ => false | _ => true end.

(** Characters that the translation passes on although they mean something
    to the compiler, and those it protects by itself. *)
Definition passed_on : list ascii := bytes "|{^".
Definition protected : list ascii := bytes "+$?*()".

Inductive dmode := DPlain | DClassStart | DClass (negated : bool) (items : list citem).

(** The tokens of a pattern; a protected character must not be escaped, and
    neither [x] nor a dot nor a backslash may occur in a class. *)
Fixpoint digit_map (m : dmode) (l : list ascii) : option (list dm) :=
  match m, l with
  | DPlain, [] => Some []
  | _, [] => None
  | DPlain, c :: l' =>
      if decide (c = NUL) then None
      else if decide (c = BACKSLASH) then
        match l' with
        | [] => None
        | d :: l'' =>
            if decide (d = NUL \/ d ∈ protected ++ passed_on) then None else cons (DLit d) <$> digit_map DPlain l''
        end
      else if decide (c = "["%char) then digit_map DClassStart l'
      else if decide (c = "."%char) then cons DMany <$> digit_map DPlain l'
      else if decide (c = "x"%char) then cons DOne <$> digit_map DPlain l'
      else if decide (c ∈ passed_on) then None
      else cons (DLit c) <$> digit_map DPlain l'
  | DClassStart, c :: l' =>
      if decide (c = "^"%char) then digit_map (DClass true []) l'
      else if decide (c = NUL \/ c ∈ BACKSLASH :: bytes "[]-.x") then None
      else digit_map (DClass false [CChar c]) l'
  | DClass n items, c :: l' =>
      if decide (c = "]"%char) then
        match items with
        | [] => None
        | _ => rs ← ranges_of items; cons (DCls n rs) <$> digit_map DPlain l'
        end
      else if decide (c = NUL \/ c ∈ BACKSLASH :: bytes "[.x") then None
      else digit_map (DClass n (items ++ [if decide (c = "-"%char) then CDash else CChar c])) l'
  end.

(** What the tokens stand for. *)
Definition one_char (t : dm) (x : ascii) : bool :=
  match t with
  | DLit a => bool_decide (x = a)
  | DOne | DMany => negb (bool_decide (x = LF))
  | DCls n rs => xorb n (in_ranges rs x)
  end.

Fixpoint matches (ts : list dm) (w : list ascii) : bool :=
  match ts with
  | [] => bool_decide (w = [])
  | DMany :: ts' =>
      (fix any (w : list ascii) : bool :=
         matches ts' w || match w with x :: w' => one_char DMany x && any w' | [] => false end) w
  | t :: ts' => match w with x :: w' => one_char t x && matches ts' w' | [] => false end
  end.

(** The digits that stand before the first variable token. *)
Fixpoint constants (ts : list dm) : nat :=
  match ts with
  | DLit _ :: ts' => S (constants ts')
  | _ => 0
  end.

(** * What user patterns match

    The translation of a pattern compiles to an expression that matches
    exactly the users the notation means, and its group holds what follows the
    constant digits. *)
(** ** The text of the expression *)

Definition lmode_of (m : dmode) : lmode :=
  match m with DPlain => Plain | DClassStart => ClassStart | DClass n items => Class n items end.

Definition rtok_of (t : dm) : list rtok :=
  match t with DLit a => [RLit a] | DOne => [RAny] | DMany => [RAny; RStar] | DCls n rs => [RCls n rs] end.
(** The tokens of the expression; the group opens at the first variable one. *)
Fixpoint rtoks (seen : bool) (ts : list dm) : list rtok :=
  match ts with
  | [] => []
  | t :: ts' => (if variable t && negb seen then [ROpen] else []) ++ rtok_of t ++ rtoks (seen || variable t) ts'
  end.

(** A class is one variable token. *)
Lemma digit_map_class l : forall m ts, m <> DPlain -> digit_map m l = Some ts -> exists n rs ts', ts = DCls n rs :: ts'.
Proof.
  induction l as [|c l IH]; intros m ts Hm E; [by destruct m|]. destruct m as [| |n items]; [done| |]; cbn [digit_map] in E.
  - repeat case_decide; try done; by eapply IH in E.
  - case_decide.
    + destruct items as [|i items]; [done|]. destruct (ranges_of _) as [rs|]; [|done]. simpl in E.
      destruct (digit_map DPlain l); [|done]. injection E as <-. by eauto.
    + case_decide; [done|]. by eapply IH in E.
Qed.

Lemma rtoks_class seen n rs ts : rtoks seen (DCls n rs :: ts) = (if seen then [] else [ROpen]) ++ rtoks true (DCls n rs :: ts).
Proof. by destruct seen. Qed.

Lemma fmap_app_some {A} (a b : list A) (o : option (list A)) : app (a ++ b) <$> o = app a <$> (app b <$> o).
Proof. destruct o; simpl; [by rewrite app_assoc|done]. Qed.

Lemma fmap_cons_app {A} (a : A) (o : option (list A)) : cons a <$> o = app [a] <$> o.
Proof. by destruct o. Qed.

(** What the lexer reads back from the translation of one character; over
    all bytes, by evaluation. *)
Ltac each_byte d Hn :=
  revert Hn; destruct d as [[] [] [] [] [] [] [] []]; intros Hn;
  first [ eexists; split; [reflexivity|]; split; [repeat constructor; discriminate|reflexivity]
        | exfalso; apply Hn; vm_compute; set_solver ].

Lemma lex_escaped d seen rest : ~ (d = NUL \/ d ∈ protected ++ passed_on) ->
  exists t, convert_char true d seen = (t, seen) /\ nul_free t /\ lex Plain (t ++ rest) = cons (RLit d) <$> lex Plain rest.
Proof. intros Hn. each_byte d Hn. Qed.

Lemma lex_unescaped c seen rest : c ∉ NUL :: BACKSLASH :: bytes "[.x" ++ passed_on ->
  exists t, convert_char false c seen = (t, seen) /\ nul_free t /\ lex Plain (t ++ rest) = cons (RLit c) <$> lex Plain rest.
Proof. intros Hn. each_byte c Hn. Qed.

Lemma lex_class_first c rest : c ∉ NUL :: "^"%char :: BACKSLASH :: bytes "[]-.x" ->
  exists t, convert_char false c true = (t, true) /\ nul_free t /\ lex ClassStart (t ++ rest) = lex (Class false [CChar c]) rest.
Proof. intros Hn. each_byte c Hn. Qed.

Lemma lex_class_next c n items rest : c ∉ NUL :: "]"%char :: BACKSLASH :: bytes "[.x" ->
  exists t, convert_char false c true = (t, true) /\ nul_free t
    /\ lex (Class n items) (t ++ rest) = lex (Class n (items ++ [if decide (c = "-"%char) then CDash else CChar c])) rest.
Proof. intros Hn. each_byte c Hn. Qed.

(** The translation of the rest [l] of a pattern whose tokens are [ts]. *)
Definition translated (m : dmode) (seen : bool) (ts : list dm) (l : list ascii) : Prop :=
  exists t, convert_loop l seen = Ok (t, seen || existsb variable ts) /\ nul_free t
    /\ forall rest, lex (lmode_of m) (t ++ rest) = app (rtoks seen ts) <$> lex Plain rest.

Lemma translated_nil seen : translated DPlain seen [] [].
Proof.
  exists []. cbn. rewrite orb_false_r. split_and!; [done|constructor|]. intros rest. by destruct (lex Plain rest).
Qed.

(** One more character, or an escaped one, in front. *)
Lemma translated_char c l m m' seen seen' ts ts' t pre :
  translated m' seen' ts' l -> c <> NUL -> c <> BACKSLASH -> convert_char false c seen = (t, seen') -> nul_free t ->
  (forall rest, lex (lmode_of m) (t ++ rest) = app pre <$> lex (lmode_of m') rest) ->
  rtoks seen ts = pre ++ rtoks seen' ts' -> seen || existsb variable ts = seen' || existsb variable ts' ->
  translated m seen ts (c :: l).
Proof.
  intros (t' & Et' & Nt' & Lt') Hn Hb Et Nt Lt Hr Hv. exists (t ++ t'). cbn [convert_loop].
  rewrite !decide_False by done. rewrite Et, Et'. cbn [obind]. rewrite Hv, Hr. split_and!; [done|by apply Forall_app|].
  intros rest. by rewrite <- app_assoc, Lt, Lt', fmap_app_some.
Qed.

Lemma translated_escape d l seen ts t :
  translated DPlain seen ts l -> convert_char true d seen = (t, seen) -> nul_free t ->
  (forall rest, lex Plain (t ++ rest) = cons (RLit d) <$> lex Plain rest) ->
  translated DPlain seen (DLit d :: ts) (BACKSLASH :: d :: l).
Proof.
  intros (t' & Et' & Nt' & Lt') Et Nt Lt. exists (t ++ t'). cbn [convert_loop].
  rewrite decide_False, decide_True by done. rewrite Et, Et'. cbn [obind]. split_and!; [done|by apply Forall_app|].
  intros rest. cbn [rtoks variable andb rtok_of app existsb orb]. rewrite orb_false_r, <- app_assoc. cbn [lmode_of] in *. rewrite Lt, Lt'.
  by destruct (lex Plain rest).
Qed.

Lemma convert_class l : forall m ts, m <> DPlain -> (forall l' ts', length l' < length l -> digit_map DPlain l' = Some ts' -> translated DPlain true ts' l') ->
  digit_map m l = Some ts -> translated m true ts l.
Proof.
  induction l as [|c l IH]; intros m ts Hm Hp E; [by destruct m|].
  assert (forall m', m' <> DPlain -> digit_map m' l = Some ts -> translated m' true ts l) as IH'.
  { intros m' Hm' E'. apply IH; [done| |done]. intros l' ts' Hl'. apply Hp. simpl. lia. }
  destruct m as [| |n items]; [done| |]; cbn [digit_map] in E.
  - case_decide as Hc; [subst c|case_decide as Hc'; [done|]].
    + eapply (translated_char _ _ _ (DClass true []) _ _ _ _ _ []); [by apply IH'|done|done|reflexivity|by repeat constructor| |done|done].
      intros rest. cbn. by destruct (lex (Class true []) rest).
    + destruct (lex_class_first c []) as (t & Et & Nt & _); [set_solver|].
      eapply (translated_char _ _ _ (DClass false [CChar c]) _ _ _ _ _ []); [by apply IH'|by auto|set_solver|exact Et|exact Nt| |done|done].
      intros rest. destruct (lex_class_first c rest) as (t' & Et' & _ & Lt'); [set_solver|]. rewrite Et in Et'. injection Et' as <-.
      cbn [lmode_of]. rewrite Lt'. by destruct (lex _ rest).
  - case_decide as Hc; [subst c|case_decide as Hc'; [done|]].
    + destruct items as [|i items]; [done|]. destruct (ranges_of (i :: items)) as [rs|] eqn:Er; [|done]. cbn [mbind option_bind] in E.
      destruct (digit_map DPlain l) as [ts'|] eqn:E'; [|done]. injection E as <-.
      eapply (translated_char _ _ _ DPlain _ _ _ _ _ [RCls n rs]); [apply Hp; [simpl; lia|exact E']|done|done|reflexivity|by repeat constructor| |done|done].
      intros rest. cbn [lmode_of app lex decide]. rewrite decide_True by done. rewrite Er. cbn [mbind option_bind]. by destruct (lex Plain rest).
    + destruct (lex_class_next c n items []) as (t & Et & Nt & _); [set_solver|].
      eapply (translated_char _ _ _ (DClass n (items ++ [_])) _ _ _ _ _ []); [by apply IH'|by auto|set_solver|exact Et|exact Nt| |done|done].
      intros rest. destruct (lex_class_next c n items rest) as (t' & Et' & _ & Lt'); [set_solver|]. rewrite Et in Et'. injection Et' as <-.
      cbn [lmode_of]. rewrite Lt'. by destruct (lex _ rest).
Qed.

(** The translation of a pattern of the notation. *)
Lemma convert_lex n : forall l ts seen, length l <= n -> digit_map DPlain l = Some ts -> translated DPlain seen ts l.
Proof.
  induction n as [n IH] using lt_wf_ind. intros [|c l] ts seen Hl E; [injection E as <-; apply translated_nil|]. simpl in Hl.
  cbn [digit_map] in E. case_decide as Hn; [done|]. case_decide as Hb.
  { subst c. destruct l as [|d l]; [done|]. case_decide as Hd; [done|]. destruct (digit_map DPlain l) as [ts'|] eqn:E'; [|done].
    injection E as <-. destruct (lex_escaped d seen []) as (t & Et & Nt & _); [done|].
    eapply translated_escape; eauto; [apply (IH (length l)); simpl in *; done || lia|].
    intros rest. destruct (lex_escaped d seen rest) as (t' & Et' & _ & Lt'); [done|]. rewrite Et in Et'. by injection Et' as <-. }
  assert (forall ts', digit_map DPlain l = Some ts' -> forall seen, translated DPlain seen ts' l) as IH'.
  { intros ts' E' seen'. apply (IH (length l)); [lia|lia|done]. }
  case_decide as Hc; [|case_decide as Hd; [|case_decide as Hx; [|case_decide as Hp; [done|]]]].
  - subst c. destruct (digit_map_class l DClassStart ts) as (neg & rs & ts' & ->); [done|exact E|].
    eapply (translated_char _ _ _ DClassStart seen true _ _ _ (if seen then [] else [ROpen])); [|done|done|reflexivity| | | |];
      [apply convert_class; [done| |exact E]|by destruct seen; repeat constructor| |by rewrite <- rtoks_class|by destruct seen].
    + intros l' ts2 Hl'. apply (IH (length l')); lia.
    + intros rest. destruct seen; cbn; by destruct (lex ClassStart rest).
  - subst c. destruct (digit_map DPlain l) as [ts'|] eqn:E'; [|done]. injection E as <-.
    eapply (translated_char _ _ _ DPlain seen true _ _ _ ((if seen then [] else [ROpen]) ++ [RAny; RStar])); [by apply IH'|done|done|reflexivity| | | |];
      [by destruct seen; repeat constructor| |by destruct seen|by destruct seen].
    intros rest. destruct seen; cbn; by destruct (lex Plain rest).
  - subst c. destruct (digit_map DPlain l) as [ts'|] eqn:E'; [|done]. injection E as <-.
    eapply (translated_char _ _ _ DPlain seen true _ _ _ ((if seen then [] else [ROpen]) ++ [RAny])); [by apply IH'|done|done|reflexivity| | | |];
      [by destruct seen; repeat constructor| |by destruct seen|by destruct seen].
    intros rest. destruct seen; cbn; by destruct (lex Plain rest).
  - destruct (digit_map DPlain l) as [ts'|] eqn:E'; [|done]. injection E as <-.
    destruct (lex_unescaped c seen []) as (t & Et & Nt & _); [set_solver|].
    eapply (translated_char _ _ _ DPlain seen seen _ _ _ [RLit c]); eauto; [|cbn; by rewrite orb_false_r].
    intros rest. destruct (lex_unescaped c seen rest) as (t' & Et' & _ & Lt'); [set_solver|]. rewrite Et in Et'. injection Et' as <-.
    cbn [lmode_of]. rewrite Lt'. by destruct (lex _ rest).
Qed.

(** ** The compiled expression *)

Definition item_pat (t : dm) : pat :=
  match t with DLit a => PCls (same_char false a) | DOne => PCls dot | DMany => PStar (PCls dot) | DCls n rs => PCls (cls false n rs) end.
Definition items_pat (ts : list dm) (p : pat) : pat := foldr PSeq p (item_pat <$> ts).

Lemma rtoks_unquantified seen ts r : unquantified r -> unquantified (rtoks seen ts ++ r).
Proof. destruct ts as [|[]]; destruct seen; done. Qed.

(** Tokens that open no group. *)
Lemma sequence_items seen ts r f n p n' r' : seen = true \/ Forall (fun t => variable t = false) ts -> unquantified r ->
  sequence false f n r = Some (p, n', r') -> sequence false (length ts + f) n (rtoks seen ts ++ r) = Some (items_pat ts p, n', r').
Proof.
  intros Hv Hu E. induction ts as [|t ts IH]; [done|].
  assert (variable t && negb seen = false /\ sequence false (length ts + f) n (rtoks (seen || variable t) ts ++ r) = Some (items_pat ts p, n', r'))
    as [Hg IH'].
  { destruct Hv as [->|Hv]; [split; [by rewrite andb_false_r|apply IH; by left]|].
    inversion Hv as [|? ? Ht Hts]; subst. rewrite Ht, orb_false_r. split; [done|]. apply IH. by right. }
  clear IH. cbn [rtoks length Nat.add]. rewrite Hg. pose proof (rtoks_unquantified (seen || variable t) ts r Hu) as Hu'.
  destruct t; cbn [rtok_of app sequence variable] in *; rewrite ?quantify_none, ?quantify_star by done; cbn [mbind option_bind]; by rewrite IH'.
Qed.

(** The constants and the variable part. *)
Lemma constants_split ts : exists lits vars, ts = lits ++ vars /\ length lits = constants ts
  /\ Forall (fun t => variable t = false) lits /\ match vars with [] => True | t :: _ => variable t = true end.
Proof.
  induction ts as [|t ts (l & v & -> & Hl & Fl & Hv)]; [by exists [], []|]. destruct (variable t) eqn:Et.
  - exists [], (t :: l ++ v). by destruct t.
  - exists (t :: l), v. destruct t; try done. simpl. split_and!; [done|by rewrite Hl|by constructor|done].
Qed.

Lemma rtoks_app ls vs : Forall (fun t => variable t = false) ls -> rtoks false (ls ++ vs) = rtoks false ls ++ rtoks false vs.
Proof. induction 1 as [|t ls Ht Hl IH]; [done|]. simpl. rewrite Ht. simpl. by rewrite IH, app_assoc. Qed.

Definition tail_pat (vars : list dm) : pat :=
  match vars with [] => PSeq PEol PEps | _ => PSeq (PGroup 1 (items_pat vars PEps)) (PSeq PEol PEps) end.
Definition user_pat (lits vars : list dm) : pat := PSeq PBol (items_pat lits (tail_pat vars)).

Lemma rtoks_length seen ts : length ts <= length (rtoks seen ts).
Proof.
  revert seen. induction ts as [|t ts IH]; intros seen; simpl; [lia|]. rewrite !length_app. specialize (IH (seen || variable t)).
  assert (1 <= length (rtok_of t)) by (destruct t; simpl; lia). lia.
Qed.

Lemma sequence_tail vars : match vars with [] => True | t :: _ => variable t = true end ->
  exists n, sequence false (S (S (length vars))) 1 (rtoks false vars ++ (if existsb variable vars then [RClose] else []) ++ [REol])
    = Some (tail_pat vars, n, []).
Proof.
  intros Hv. destruct vars as [|t vars]; [by eexists|]. assert (existsb variable (t :: vars) = true) as -> by (simpl; by rewrite Hv).
  assert (rtoks false (t :: vars) = ROpen :: rtoks true (t :: vars)) as -> by (by destruct t).
  pose proof (sequence_items true (t :: vars) ([RClose] ++ [REol]) 1 2 PEps 2 [RClose; REol] ltac:(by left) eq_refl eq_refl) as Hs.
  rewrite Nat.add_1_r in Hs. exists 2. remember (rtoks true (t :: vars) ++ [RClose] ++ [REol]) as r eqn:Er.
  change (ROpen :: rtoks true (t :: vars)) with ([ROpen] ++ rtoks true (t :: vars)). rewrite <- app_assoc, <- Er. cbn [app].
  remember (S (length (t :: vars))) as f eqn:Ef. cbn [sequence].
  rewrite (sequence_mono _ _ f _ _ _ Hs) by lia. cbn [mbind option_bind quantify]. by subst f.
Qed.

Lemma expression_nul_free (b : bool) t : nul_free t -> nul_free (bytes "^" ++ t ++ (if b then bytes ")" else []) ++ bytes "$").
Proof. intros Ht. repeat apply Forall_app_2; [|exact Ht|destruct b|]; repeat first [apply Forall_nil_2|apply Forall_cons_2; [discriminate|]]. Qed.

Lemma user_pattern_compiles src ts lits vars : digit_map DPlain src = Some ts ->
  ts = lits ++ vars -> Forall (fun t => variable t = false) lits -> match vars with [] => True | t :: _ => variable t = true end ->
  exists re, convertRegularExpression src = Ok re /\ syntax false (cstr re) = Some (user_pat lits vars).
Proof.
  intros E -> Hl Hv. destruct (convert_lex (length src) src _ false ltac:(lia) E) as (t & Et & Nt & Lt).
  unfold convertRegularExpression. rewrite Et. cbn [obind]. eexists. split; [done|].
  assert (existsb variable (lits ++ vars) = existsb variable vars) as Hex.
  { rewrite existsb_app. replace (existsb variable lits) with false; [done|]. clear -Hl. induction Hl as [|? ? H]; simpl; [done|]. by rewrite H. }
  cbn [orb]. rewrite Hex. rewrite cstr_id.
  2:{ by apply expression_nul_free. }
  unfold syntax. cbn [lmode_of] in Lt. assert (lex Plain (bytes "^" ++ t ++ (if existsb variable vars then bytes ")" else []) ++ bytes "$")
    = Some (RBol :: rtoks false (lits ++ vars) ++ (if existsb variable vars then [RClose] else []) ++ [REol])) as ->.
  { change (bytes "^" ++ ?a) with ("^"%char :: a). assert (forall a, lex Plain ("^"%char :: a) = cons RBol <$> lex Plain a) as -> by done.
    rewrite Lt. by destruct (existsb variable vars). }
  cbn [mbind option_bind]. rewrite rtoks_app, <- app_assoc by done. destruct (sequence_tail vars Hv) as (n & Hs).
  assert (unquantified (rtoks false vars ++ (if existsb variable vars then [RClose] else []) ++ [REol])) as Hu.
  { apply rtoks_unquantified. by destruct (existsb variable vars). }
  pose proof (sequence_items false lits _ _ _ _ _ _ (or_intror Hl) Hu Hs) as Hs'.
  rewrite (sequence_mono false (S (length lits + S (S (length vars)))) _ 1 _ (user_pat lits vars, n, [])); [done| |].
  - cbn [sequence]. by rewrite Hs'.
  - cbn [length]. rewrite !length_app. pose proof (rtoks_length false lits). pose proof (rtoks_length false vars).
    change (length [REol]) with 1. lia.
Qed.

(** ** What the expression matches *)

Definition item_takes (t : dm) (v : list ascii) : Prop :=
  match t with
  | DMany => Forall (fun x => one_char DMany x = true) v
  | _ => exists x, v = [x] /\ one_char t x = true
  end.

Lemma matches_many ts w :
  matches (DMany :: ts) w = matches ts w || match w with x :: w' => one_char DMany x && matches (DMany :: ts) w' | [] => false end.
Proof. by destruct w. Qed.

Lemma matches_single t ts w : t <> DMany ->
  matches (t :: ts) w = true <-> exists v u, w = v ++ u /\ (exists x, v = [x] /\ one_char t x = true) /\ matches ts u = true.
Proof.
  intros Ht. assert (matches (t :: ts) w = match w with x :: w' => one_char t x && matches ts w' | [] => false end) as -> by (by destruct t).
  split.
  - destruct w as [|x w]; [done|]. intros [Hx Hw]%andb_true_iff. exists [x], w. by eauto.
  - intros (v & u & -> & (x & -> & Hx) & Hu). apply andb_true_iff. by split.
Qed.

Lemma matches_cons t ts w : matches (t :: ts) w = true <-> exists v u, w = v ++ u /\ item_takes t v /\ matches ts u = true.
Proof.
  destruct t as [a| | |n rs]; try (by apply matches_single).
  induction w as [|x w IH]; rewrite matches_many.
  - rewrite orb_false_r. split; [intros Hm; exists [], []; by split_and!; [|constructor|]|]. intros (v & u & E & _ & Hu). symmetry in E. by apply app_nil in E as [-> ->].
  - rewrite orb_true_iff, andb_true_iff, IH. split.
    + intros [Hm|[Hx (v & u & -> & Hv & Hu)]]; [exists [], (x :: w); by split_and!; [|constructor|]|]. exists (x :: v), u. split_and!; [done|by constructor|done].
    + intros ([|y v] & u & E & Hv & Hu); simpl in E; [left; by subst u|]. injection E as -> ->. inversion Hv; subst. right. by eauto 6.
Qed.

Lemma matches_app ts ts' w : matches (ts ++ ts') w = true <-> exists v u, w = v ++ u /\ matches ts v = true /\ matches ts' u = true.
Proof.
  revert w. induction ts as [|t ts IH]; intros w; simpl app.
  - split; [intros Hm; by exists [], w|]. intros (v & u & -> & Hv%bool_decide_eq_true & Hu). by rewrite Hv.
  - rewrite matches_cons. setoid_rewrite IH. setoid_rewrite matches_cons. split.
    + intros (v & u & -> & Hv & a & b & -> & Ha & Hb). exists (v ++ a), b. rewrite app_assoc. by eauto 8.
    + intros (v & u & -> & (a & b & -> & Ha & Hb) & Hu). exists a, (b ++ u). rewrite app_assoc. by eauto 8.
Qed.

Lemma constants_take lits w : Forall (fun t => variable t = false) lits -> matches lits w = true -> length w = length lits.
Proof.
  intros Hl. revert w. induction Hl as [|t lits Ht Hl IH]; intros w; [intros Hm%bool_decide_eq_true; by rewrite Hm|].
  rewrite matches_cons. intros (v & u & -> & Hv & Hu). destruct t; try done. destruct Hv as (x & -> & _). simpl. by rewrite (IH u).
Qed.

Lemma consumes_item t st st' : consumes (item_pat t) st st' <->
  exists v r, m_rest st = v ++ r /\ item_takes t v /\ st' = advance (length v) st.
Proof.
  assert (forall c : ascii -> bool, consumes (PCls c) st st' <->
    exists v r, m_rest st = v ++ r /\ (exists x, v = [x] /\ c x = true) /\ st' = advance (length v) st) as Hcls.
  { intros c. split.
    - inversion 1 as [|? ? x l E Hx| | | | | | | | | |]; subst. exists [x], l. by eauto 6.
    - intros (v & r & E & (x & -> & Hx) & ->). by eapply C_cls. }
  destruct t as [a| | |n rs]; cbn [item_pat item_takes]; [apply Hcls..|apply consumes_run|]. rewrite Hcls.
  unfold cls, one_char. simpl. by setoid_rewrite orb_false_r.
Qed.

Lemma consumes_items ts p st st' : consumes (items_pat ts p) st st' <->
  exists w r, m_rest st = w ++ r /\ matches ts w = true /\ consumes p (advance (length w) st) st'.
Proof.
  revert st. induction ts as [|t ts IH]; intros st.
  - split; [intros Hc; exists [], (m_rest st); by rewrite advance_0|]. intros (w & r & E & Hw%bool_decide_eq_true & Hc). subst w. by rewrite advance_0 in Hc.
  - change (items_pat (t :: ts) p) with (PSeq (item_pat t) (items_pat ts p)). split.
    + intros (st1 & (v & r & E & Hv & ->)%consumes_item & (w & r' & E' & Hw & Hc)%IH)%consumes_seq_inv.
      rewrite (advance_split _ _ _ E) in E'. subst r. exists (v ++ w), r'. rewrite E, app_assoc, length_app, <- advance_advance.
      split_and!; [done|apply matches_cons; by eauto|done].
    + intros (w & r & E & (v & u & -> & Hv & Hu)%matches_cons & Hc). rewrite length_app, <- advance_advance in Hc. rewrite <- app_assoc in E.
      apply C_seq with (advance (length v) st); [apply consumes_item; by eauto|]. apply IH. exists u, r. by rewrite (advance_split _ _ _ E).
Qed.

(** The group holds what follows the constants. *)
Definition user_caps (lits vars : list dm) (user : list ascii) : list (nat * (nat * nat)) :=
  match vars with [] => [] | _ => [(1, (length lits, length user))] end.

Lemma consumes_user lits vars user st' : Forall (fun t => variable t = false) lits -> LF ∉ user ->
  consumes (items_pat lits (tail_pat vars)) (mkM 0 user []) st' <->
  matches (lits ++ vars) user = true /\ st' = mkM (length user) [] (user_caps lits vars user).
Proof.
  intros Hl Hn. rewrite consumes_items, matches_app. cbn [m_rest]. split.
  - intros (w & r & -> & Hw & Hc). pose proof (constants_take _ _ Hl Hw) as Hlen. unfold advance in Hc. cbn in Hc. rewrite drop_app_length in Hc.
    destruct vars as [|t vars].
    + apply consumes_seq_inv in Hc as (st1 & H1 & H2). inversion H1 as [| | | | | | | | | | |? He]; subst. inversion H2; subst.
      cbn [m_rest] in He. apply at_eol_line in He as ->; [|set_solver]. rewrite app_nil_r. split; [exists w, []; by rewrite app_nil_r|done].
    + apply consumes_seq_inv in Hc as (st1 & H1 & H2). inversion H1 as [| | | | | | | |i p st0 st2 Hg| | |]; subst.
      apply consumes_items in Hg as (v & r' & E & Hv & He). inversion He; subst. cbn [m_rest] in E. subst r.
      apply consumes_seq_inv in H2 as (st3 & H3 & H4). inversion H3 as [| | | | | | | | | | |? He']; subst. inversion H4; subst.
      cbn [capture m_rest] in He'. rewrite (advance_split v r') in He' by done. apply at_eol_line in He' as ->; [|set_solver].
      rewrite app_nil_r in *. split; [by eauto|]. unfold capture, advance. cbn. by rewrite drop_all, Hlen, length_app, Hlen.
  - intros [(w & r & -> & Hw & Hr) ->]. pose proof (constants_take _ _ Hl Hw) as Hlen. exists w, r. split_and!; [done|done|].
    unfold advance. cbn. rewrite drop_app_length. destruct vars as [|t vars].
    + apply bool_decide_eq_true in Hr as ->. rewrite app_nil_r. eapply C_seq; constructor. done.
    + eapply C_seq; [|eapply C_seq; constructor]; [|done].
      replace (mkM (length (w ++ r)) [] _) with (capture 1 (length w) (advance (length r) (mkM (length w) r []))).
      * apply (C_group 1 _ (mkM (length w) r [])). apply consumes_items. exists r, []. rewrite app_nil_r. split_and!; [done|done|constructor].
      * unfold capture, advance. cbn. by rewrite drop_all, length_app, Hlen.
Qed.

Lemma items_exhaustive ts p : exhaustive p = true -> exhaustive (items_pat ts p) = true.
Proof. intros Hp. induction ts as [|[] ts IH]; simpl; done. Qed.

Lemma user_exhaustive lits vars : exhaustive (items_pat lits (tail_pat vars)) = true.
Proof.
  apply items_exhaustive. destruct vars as [|t vars]; [done|]. change (exhaustive (items_pat (t :: vars) PEps) && true = true).
  by rewrite items_exhaustive.
Qed.

Lemma items_groups ts p : groups (items_pat ts p) = groups p.
Proof. induction ts as [|[] ts IH]; simpl; done. Qed.

(** The variable digits of a match. *)
Definition vdigits (ts : list dm) (user : list ascii) : list ascii := if existsb variable ts then drop (constants ts) user else [].

Lemma user_digits lits vars user m : Forall (fun t => variable t = false) lits -> match vars with [] => True | t :: _ => variable t = true end ->
  nul_free user -> mt_caps m = user_caps lits vars user -> getVDigits (user_pat lits vars) user m = vdigits (lits ++ vars) user.
Proof.
  intros Hl Hv Hn Hm. assert (constants (lits ++ vars) = length lits) as Hc.
  { clear -Hl Hv. induction Hl as [|[] l Ht Hl IH]; simpl; try done; [by destruct vars as [|[]]|by rewrite IH]. }
  assert (existsb variable (lits ++ vars) = existsb variable vars) as Hex.
  { rewrite existsb_app. replace (existsb variable lits) with false; [done|]. clear -Hl. induction Hl as [|? ? H]; simpl; [done|]. by rewrite H. }
  unfold vdigits, getVDigits, SubStrings. rewrite Hex, Hc. unfold user_pat. cbn [groups app]. rewrite items_groups.
  destruct vars as [|t vars]; [done|]. cbn [tail_pat groups app length existsb]. rewrite Hv. cbn [orb Nat.ltb Nat.leb].
  unfold Match_sz, MatchString, Matches, cap. rewrite Hm. cbn. rewrite decide_True by done. cbn.
  rewrite cstr_id by (by apply Forall_take, Forall_drop).
  apply take_ge. rewrite length_drop. lia.
Qed.

Section UserPattern.
Context `{Pcre pcre_exec} `{PcreCompile compile}.

(** A user pattern compiles and matches the users its notation means. *)
Lemma user_pattern_spec src ts user : digit_map DPlain src = Some ts -> LF ∉ user -> nul_free user ->
  let answer := if matches ts user then Some (vdigits ts user) else None in
  exists re p, convertRegularExpression src = Ok re /\ compile false re = Some p
    /\ (length user <= pcre_limit p -> match_user_pattern compile pcre_exec src user = Ok answer)
    /\ (match_user_pattern compile pcre_exec src user = Ok answer \/ match_user_pattern compile pcre_exec src user = Ok None).
Proof.
  intros E Hn Hz answer. destruct (constants_split ts) as (lits & vars & Et & _ & Hl & Hv).
  destruct (user_pattern_compiles src ts lits vars E Et Hl Hv) as (re & Ere & Hsyn). subst ts.
  assert (forall m, search (user_pat lits vars) user 0 = Some m -> answer = Some (getVDigits (user_pat lits vars) user m)) as Hhit.
  { intros m (_ & st' & (Hm & ->)%consumes_user & _ & Hc)%search_anchored; [|done..]. unfold answer. rewrite Hm. f_equal. symmetry. by apply user_digits. }
  assert (search (user_pat lits vars) user 0 = None -> answer = None) as Hmiss.
  { intros Hs. unfold answer. destruct (matches (lits ++ vars) user) eqn:Em; [|done]. exfalso.
    destruct (search_anchored_hit (items_pat lits (tail_pat vars)) user (mkM (length user) [] (user_caps lits vars user))) as (m & Hm);
      [apply user_exhaustive|by apply consumes_user|]. unfold user_pat in Hs. congruence. }
  assert (nul_free re) as Hre.
  { destruct (convert_lex (length src) src _ false ltac:(lia) E) as (t & Ec & Nt & _). unfold convertRegularExpression in Ere. rewrite Ec in Ere.
    cbn [obind] in Ere. inversion Ere as [Er]. clear Er. by apply expression_nul_free. }
  rewrite cstr_id in Hsyn by done. apply compile_syntax in Hsyn as Hcomp. exists re, (user_pat lits vars). split_and!; [done|done| |].
  - intros Hlim. unfold match_user_pattern. rewrite Ere. cbn [obind]. unfold RegEx_new. rewrite cstr_id, Hcomp by done. cbn [obind].
    rewrite pcre_complete by done. destruct (search _ user 0) as [m|] eqn:Es; [by rewrite (Hhit m)|by rewrite Hmiss].
  - unfold match_user_pattern. rewrite Ere. cbn [obind]. unfold RegEx_new. rewrite cstr_id, Hcomp by done. cbn [obind].
    destruct (pcre_exec _ user 0) as [m|] eqn:Es; [left; apply pcre_sound in Es; by rewrite (Hhit m)|by right].
Qed.
(** C19: A user pattern that the notation reader accepts compiles, whatever
    stands around its digits, and matches the users its notation means: [x]
    any character, a dot any number of them, a class its characters, a
    character after a backslash and everything else itself.  The variable
    digits are what follows the constants in front.  The reader ([digit_map])
    does not accept the patterns that the code translates to something else:
    [|], [{] or [^] outside of a class, one of them or [+ $ ? * ( )] after a
    backslash, [x], a dot, a bracket or a backslash within a class, a class
    that is empty or not closed, a backslash at the end, and a NUL.  The user
    has no line feed and no NUL, and the library may only fail to find a match
    of a user longer than its limit. *)
Theorem user_pattern_means src ts user : digit_map DPlain src = Some ts -> LF ∉ user -> nul_free user ->
  let answer := if matches ts user then Some (vdigits ts user) else None in
  exists re p, convertRegularExpression src = Ok re /\ compile false re = Some p
    /\ (length user <= pcre_limit p -> match_user_pattern compile pcre_exec src user = Ok answer)
    /\ (match_user_pattern compile pcre_exec src user = Ok answer \/ match_user_pattern compile pcre_exec src user = Ok None).
Proof. apply user_pattern_spec. Qed.
End UserPattern.

Module DigitMapExamples.
Definition nine_digits : list ascii := bytes "9[2-9]x.".
#[local] Instance library : Pcre search := search_Pcre 100.

Lemma user_pattern_means_witness :
  exists re p, convertRegularExpression nine_digits = Ok re /\ syntax false re = Some p
    /\ match_user_pattern syntax search nine_digits (bytes "95551212") = Ok (Some (bytes "5551212")).
Proof.
  destruct (user_pattern_means (pcre_exec := search) (compile := syntax) nine_digits
    [DLit "9"; DCls false [("2"%char, "9"%char)]; DOne; DMany] (bytes "95551212")) as (re & p & H1 & H2 & H3 & _).
  - vm_compute. reflexivity.
  - apply (bool_decide_eq_true_1 (LF ∉ bytes "95551212")). vm_compute. reflexivity.
  - repeat constructor; discriminate.
  - exists re, p. split; [exact H1|]. split; [exact H2|]. apply H3. vm_compute. lia.
Defined.

(** A backslash in front of a character that the translation protects anyway
    protects the protection: the star becomes a quantifier of the backslash,
    the parenthesis opens a group. *)
Example escaped_special_is_lost :
  convertRegularExpression (bytes "\*5") = Ok (bytes "^\\*5$")
  /\ match_user_pattern syntax search (bytes "\*5") (bytes "*5") = Ok None
  /\ match_user_pattern syntax search (bytes "\*5") (bytes "\\5") = Ok (Some [])
  /\ convertRegularExpression (bytes "\(5") = Ok (bytes "^\\(5$").
Proof. by vm_compute. Qed.

(** In a class the wildcards are translated too: the letter to a dot. *)
Example class_of_wildcards : convertRegularExpression (bytes "[x.]") = Ok (bytes "^([..*])$").
Proof. by vm_compute. Qed.

(** A backslash at the end makes the loop read on behind the string. *)
Example trailing_backslash : convertRegularExpression (bytes "9\") = UB.
Proof. done. Qed.
End DigitMapExamples.
