(* ===== verification/Patterns.v ===== *)
(** * Host patterns of the rules

    [sipXcommserverLib/src/digitmaps/Patterns.cpp]: an IPv4 address in a
    subnet, and a domain name under a wildcard, whose compiled expressions the
    object keeps. *)
From Stdlib Require Import ZArith Lia Ascii String Bool.
From stdpp Require Import base list strings gmap sets.
From S2P Require Import Prelude Format Pcre PcreSpec PcreText.
Local Open Scope Z_scope.

(** ** Addresses *)

(** inet_pton(AF_INET, ...): four numbers up to 255 with dots between them,
    without leading zeros; the bytes in network order.  [tp] is the octet
    that is read, if a digit of it was seen. *)
Fixpoint inet_pton_loop (src : list ascii) (done_ : list Z) (tp : option Z) : option (list Z) :=
  match src with
  | [] => match tp with Some v => if (length done_ =? 3)%nat then Some (done_ ++ [v]) else None | None => None end
  | ch :: src' =>
      if isdigit ch then
        match tp with
        | Some v =>
            let new := v * 10 + (uchar ch - 48) in
            if v =? 0 then None else if 255 <? new then None else inet_pton_loop src' done_ (Some new)
        | None => if (length done_ =? 4)%nat then None else inet_pton_loop src' done_ (Some (uchar ch - 48))
        end
      else if decide (ch = "."%char) then
        match tp with
        | Some v => if (length done_ =? 3)%nat then None else inet_pton_loop src' (done_ ++ [v]) None
        | None => None
        end
      else None
  end.
Definition inet_pton (src : list ascii) : option (list Z) := inet_pton_loop (cstr src) [] None.

(** in_addr.s_addr: the bytes as a number on a little-endian machine; htonl
    exchanges them. *)
Definition s_addr (bytes : list Z) : Z := fold_right (fun b r => Z.lor b (Z.shiftl r 8)) 0 bytes.
Definition byte_of (x i : Z) : Z := Z.land (Z.shiftr x (8 * i)) 255.
Definition htonl (x : Z) : Z :=
  Z.lor (Z.shiftl (byte_of x 0) 24) (Z.lor (Z.shiftl (byte_of x 1) 16) (Z.lor (Z.shiftl (byte_of x 2) 8) (byte_of x 3))).

(** UtlString::index(char, start) *)
Fixpoint index_from (c : ascii) (start : nat) (l : list ascii) : option nat :=
  match l, start with
  | [], _ => None
  | x :: l', O => if decide (x = c) then Some 0%nat else S <$> index_from c 0 l'
  | _ :: l', S n => S <$> index_from c n l'
  end.

(** The octets that are missing in a pattern such as 192.168/16 *)
Definition pad_quad (xmlNet : list ascii) : list ascii :=
  match index_from "."%char 0 xmlNet with
  | None => xmlNet ++ bytes ".0.0.0"
  | Some dot =>
      match index_from "."%char (S dot) xmlNet with
      | None => xmlNet ++ bytes ".0.0"
      | Some dot =>
          match index_from "."%char (S dot) xmlNet with
          | None => xmlNet ++ bytes ".0"
          | Some _ => xmlNet
          end
      end
  end.

(** The mask: [((unsigned)~0) << (32-mask_size)] in network order *)
Definition subnet_mask (mask_size : Z) : Z := htonl (to_uint (Z.shiftl (2 ^ 32 - 1) (32 - mask_size))).

Definition IPv4subnet (ipv4 cidr : list ascii) : outcome bool :=
  match inet_pton ipv4 with
  | None => Ok false
  | Some in_address =>
      match index_from "/"%char 0 cidr with
      | None => Ok false
      | Some slash =>
          match inet_pton (pad_quad (take slash cidr)) with
          | None => Ok false
          | Some in_network =>
              let! mask_size := atoi (drop (S slash) cidr) in
              if (mask_size <=? 0) || (32 <? mask_size) then Ok false
              else Ok (Z.land (subnet_mask mask_size) (s_addr in_address) =? s_addr in_network)
          end
      end
  end.

(** ** Domains *)

(** The member mPatterns *)
Notation Patterns := (gmap (list ascii) pat).

Section DnsWildcard.
Context (compile : bool -> list ascii -> option pat) (pcre_exec : pat -> list ascii -> nat -> option Match).

(** The expression of a wildcard: anything that ends with a dot, the quoted
    domain, and an optional dot. *)
Definition wildcard_exp (wildcard : list ascii) : list ascii :=
  bytes "^(.+\.)*" ++ bytes "\Q" ++ drop 2 wildcard ++ bytes "\E" ++ bytes "(\.?)$".

(** A lone star, a pattern without the star in front, the expression from the
    table, or a new one that is put there. *)
Definition DnsWildcard (mPatterns : Patterns) (fqdn wildcard : list ascii) : outcome (bool * Patterns) :=
  if decide (wildcard = bytes "*") then Ok (true, mPatterns)
  else if negb (bool_decide (take 2 wildcard = bytes "*.")) then Ok (false, mPatterns)
  else
    let! (re, mPatterns) :=
      match mPatterns !! wildcard with
      | Some re => Ok (re, mPatterns)
      | None => let! re := RegEx_new compile true (wildcard_exp wildcard) in Ok (re, <[wildcard := re]> mPatterns)
      end in
    Ok (match pcre_exec re (cstr fqdn) 0 with Some _ => true | None => false end, mPatterns).
End DnsWildcard.

Example subnet_examples :
  IPv4subnet (bytes "10.1.2.3") (bytes "10.0.0.0/8") = Ok true
  /\ IPv4subnet (bytes "192.168.7.9") (bytes "192.168/16") = Ok true
  /\ IPv4subnet (bytes "192.169.7.9") (bytes "192.168/16") = Ok false
  /\ IPv4subnet (bytes "10.1.2.3") (bytes "10.1.0.0/8") = Ok false.
Proof. by vm_compute. Qed.

(** * What host patterns match

    A subnet pattern matches the addresses that agree with the network in the
    bits of the mask, provided that the network has no others; a wildcard
    matches the domain and the names under it, and the table of compiled
    expressions does not show. *)
(** ** Bytes and words *)

Definition is_byte (b : Z) : Prop := 0 <= b < 256.

Lemma byte_high b k : is_byte b -> 8 <= k -> Z.testbit b k = false.
Proof.
  intros Hb Hk. destruct (decide (b = 0)) as [->|]; [apply Z.bits_0|]. apply Z.bits_above_log2; [unfold is_byte in *; lia|].
  apply Z.log2_lt_pow2; [unfold is_byte in *; lia|]. assert (2 ^ 8 <= 2 ^ k) by (apply Z.pow_le_mono_r; lia). unfold is_byte in *. lia.
Qed.

Lemma byte_of_bit x i j : 0 <= i -> 0 <= j -> Z.testbit (byte_of x i) j = (j <? 8) && Z.testbit x (8 * i + j).
Proof.
  intros Hi Hj. unfold byte_of. rewrite Z.land_spec, Z.shiftr_spec by done. change 255 with (Z.ones 8).
  rewrite Z.testbit_ones by lia. rewrite (proj2 (Z.leb_le 0 j)) by lia. simpl. rewrite andb_comm. f_equal. f_equal. lia.
Qed.

(** The byte [j] of a word of four, the most significant first or last. *)
Ltac by_byte k :=
  destruct (decide (k < 8)); [|destruct (decide (k < 16)); [|destruct (decide (k < 24)); [|destruct (decide (k < 32))]]].

Lemma shifted_bit x n k : 0 <= n -> 0 <= k -> Z.testbit (Z.shiftl x n) k = (n <=? k) && Z.testbit x (k - n).
Proof.
  intros Hn Hk. rewrite Z.shiftl_spec by done. destruct (Z.leb_spec n k); [done|]. by rewrite Z.testbit_neg_r by lia.
Qed.

Definition swapped (k : Z) : Z := 8 * (3 - k / 8) + k mod 8.

Lemma htonl_bit x k : 0 <= k -> Z.testbit (htonl x) k = (k <? 32) && Z.testbit x (swapped k).
Proof.
  intros Hk. unfold htonl, swapped. rewrite !Z.lor_spec, !shifted_bit by lia.
  assert (forall n i, 0 <= n -> 0 <= i -> (n <=? k) && Z.testbit (byte_of x i) (k - n) = (n <=? k) && (k - n <? 8) && Z.testbit x (8 * i + (k - n))) as Hb.
  { intros n i Hn Hi. destruct (Z.leb_spec n k); [|done]. by rewrite byte_of_bit by lia. }
  rewrite !Hb, (byte_of_bit x 3 k) by lia. pose proof (Z.div_mod k 8 ltac:(lia)). pose proof (Z.mod_pos_bound k 8 ltac:(lia)).
  by_byte k; repeat match goal with
    | |- context [?a <=? ?b] => destruct (Z.leb_spec a b); try lia
    | |- context [?a <? ?b] => destruct (Z.ltb_spec a b); try lia
    end; cbn [andb orb]; rewrite ?orb_false_r; try done; f_equal; lia.
Qed.

Lemma swapped_range k : 0 <= k < 32 -> 0 <= swapped k < 32 /\ swapped (swapped k) = k.
Proof.
  intros Hk. unfold swapped. pose proof (Z.div_mod k 8 ltac:(lia)). pose proof (Z.mod_pos_bound k 8 ltac:(lia)).
  assert (0 <= k / 8 < 4) by lia. assert ((8 * (3 - k / 8) + k mod 8) / 8 = 3 - k / 8 /\ (8 * (3 - k / 8) + k mod 8) mod 8 = k mod 8) as [-> ->].
  { rewrite Z.add_comm, Z.mul_comm, Z.div_add, Z.mod_add, (Z.div_small (k mod 8)), Z.mod_mod by lia. lia. }
  lia.
Qed.

Lemma word_ext x y : 0 <= x < 2 ^ 32 -> 0 <= y < 2 ^ 32 -> (forall k, 0 <= k < 32 -> Z.testbit x k = Z.testbit y k) -> x = y.
Proof.
  intros Hx Hy Hb. apply Z.bits_inj'. intros k Hk. destruct (decide (k < 32)); [by apply Hb|].
  rewrite <- (Z.mod_small x (2 ^ 32)), <- (Z.mod_small y (2 ^ 32)) by done. rewrite !Z.mod_pow2_bits_high by lia. done.
Qed.

Lemma htonl_inj x y : 0 <= x < 2 ^ 32 -> 0 <= y < 2 ^ 32 -> htonl x = htonl y -> x = y.
Proof.
  intros Hx Hy E. apply word_ext; [done..|]. intros k Hk. destruct (swapped_range k Hk) as [Hr Hs]. rewrite <- Hs.
  assert (Z.testbit (htonl x) (swapped k) = Z.testbit (htonl y) (swapped k)) as Ht by (by rewrite E).
  rewrite !htonl_bit, (proj2 (Z.ltb_lt _ _)) in Ht by lia. done.
Qed.

Lemma htonl_land x y : Z.land (htonl x) (htonl y) = htonl (Z.land x y).
Proof.
  apply Z.bits_inj'. intros k Hk. rewrite Z.land_spec, !htonl_bit, Z.land_spec by lia.
  by destruct (k <? 32), (Z.testbit x (swapped k)), (Z.testbit y (swapped k)).
Qed.

(** The number that an address stands for. *)
Definition ip_value (l : list Z) : Z := fold_left (fun n b => n * 256 + b) l 0.

Lemma low_byte b r k : is_byte b -> 0 <= k -> Z.testbit (Z.lor b (Z.shiftl r 8)) k = if k <? 8 then Z.testbit b k else Z.testbit r (k - 8).
Proof.
  intros Hb Hk. rewrite Z.lor_spec, shifted_bit by lia. destruct (Z.ltb_spec k 8).
  - rewrite (proj2 (Z.leb_gt _ _)) by lia. by rewrite orb_false_r.
  - rewrite (byte_high b k Hb) by lia. by rewrite (proj2 (Z.leb_le 8 k)) by lia.
Qed.

Lemma add_byte n b : is_byte b -> n * 256 + b = Z.lor b (Z.shiftl n 8).
Proof.
  intros Hb. rewrite Z.shiftl_mul_pow2 by lia. change (2 ^ 8) with 256. assert (Z.land (n * 256) b = 0) as Hz.
  { apply Z.bits_inj'. intros k Hk. rewrite Z.land_spec, Z.bits_0. change 256 with (2 ^ 8). rewrite <- Z.shiftl_mul_pow2, shifted_bit by lia.
    destruct (Z.leb_spec 8 k); [|done]. rewrite (byte_high b k Hb) by lia. apply andb_false_r. }
  by rewrite Z.add_nocarry_lxor, Z.lxor_lor, Z.lor_comm.
Qed.

Lemma s_addr_value l : Forall is_byte l -> length l = 4%nat -> s_addr l = htonl (ip_value l) /\ 0 <= ip_value l < 2 ^ 32.
Proof.
  intros Hl Hlen. destruct l as [|a [|b [|c [|d [|]]]]]; try done. rewrite !Forall_cons in Hl. destruct Hl as (Ha & Hb & Hc & Hd & _).
  cbn [ip_value fold_left s_addr fold_right]. split; [|unfold is_byte in *; lia].
  apply Z.bits_inj'. intros k Hk. rewrite htonl_bit by done. rewrite !add_byte by done.
  pose proof (Z.div_mod k 8 ltac:(lia)). pose proof (Z.mod_pos_bound k 8 ltac:(lia)). unfold swapped.
  assert (forall j, 0 <= j <= 3 -> 8 * j <= k < 8 * j + 8 -> k / 8 = j /\ k mod 8 = k - 8 * j) as Hj by lia.
  by_byte k; [destruct (Hj 0) as [-> ->]; [lia..|]|destruct (Hj 1) as [-> ->]; [lia..|]|destruct (Hj 2) as [-> ->]; [lia..|]|destruct (Hj 3) as [-> ->]; [lia..|]|];
    [..|rewrite (proj2 (Z.ltb_ge k 32)) by lia]; rewrite ?(proj2 (Z.ltb_lt k 32)) by lia; cbn [andb];
    repeat (rewrite low_byte by (done || lia); match goal with |- context [?x <? 8] => destruct (Z.ltb_spec x 8); try lia end);
    rewrite ?Z.shiftl_0_l, ?Z.lor_0_r, ?Z.bits_0; try done; f_equal; lia.
Qed.

(** ** Subnets *)

Lemma mask_land n x : 1 <= n <= 32 -> 0 <= x < 2 ^ 32 ->
  Z.land (to_uint (Z.shiftl (2 ^ 32 - 1) (32 - n))) x = x / 2 ^ (32 - n) * 2 ^ (32 - n).
Proof.
  intros Hn Hx. rewrite <- Z.shiftr_div_pow2, <- Z.shiftl_mul_pow2 by lia. apply Z.bits_inj'. intros k Hk.
  rewrite Z.land_spec, (shifted_bit (Z.shiftr x _)) by lia. unfold to_uint. destruct (decide (k < 32)).
  - rewrite Z.mod_pow2_bits_low, shifted_bit by lia. change (2 ^ 32 - 1) with (Z.ones 32).
    destruct (Z.leb_spec (32 - n) k); [|done]. rewrite Z.testbit_ones, (proj2 (Z.leb_le _ _)), (proj2 (Z.ltb_lt _ _)), Z.shiftr_spec by lia.
    simpl. f_equal. lia.
  - rewrite Z.mod_pow2_bits_high by lia. simpl. rewrite Z.shiftr_spec by lia. replace (k - (32 - n) + (32 - n)) with k by lia.
    rewrite <- (Z.mod_small x (2 ^ 32)), Z.mod_pow2_bits_high by lia. by rewrite andb_false_r.
Qed.

Lemma inet_pton_loop_ok src : forall done_ tp l, Forall is_byte done_ -> match tp with Some v => is_byte v | None => True end ->
  inet_pton_loop src done_ tp = Some l -> Forall is_byte l /\ length l = 4%nat.
Proof.
  induction src as [|ch src IH]; intros d tp l Hd Ht E; cbn [inet_pton_loop] in E.
  - destruct tp as [v|]; [|done]. destruct (Nat.eqb_spec (length d) 3) as [E3|]; [|done]. injection E as <-.
    rewrite length_app, Forall_app, Forall_singleton. simpl. split; [done|lia].
  - destruct (isdigit ch) eqn:Hdig.
    + apply isdigit_uchar in Hdig. destruct tp as [v|].
      * destruct (v =? 0); [done|]. destruct (Z.ltb_spec 255 (v * 10 + (uchar ch - 48))); [done|]. eapply IH; [| |exact E]; [done|].
        unfold is_byte in *. lia.
      * destruct (_ =? 4)%nat; [done|]. eapply IH; [| |exact E]; [done|]. unfold is_byte. lia.
    + case_decide; [|done]. destruct tp as [v|]; [|done]. destruct (_ =? 3)%nat; [done|]. eapply IH; [| |exact E]; [|done].
      apply Forall_app. by rewrite Forall_singleton.
Qed.

Lemma inet_pton_ok src l : inet_pton src = Some l -> Forall is_byte l /\ length l = 4%nat.
Proof. by apply inet_pton_loop_ok. Qed.

Lemma index_from_app c a b : c ∉ a -> index_from c 0 (a ++ c :: b) = Some (length a).
Proof.
  induction a as [|x a IH]; intros Hc; simpl; [by rewrite decide_True|].
  rewrite decide_False by set_solver. rewrite IH by set_solver. done.
Qed.

(** An address is in a subnet of [n] bits exactly if clearing its other bits
    gives the network; a network with other bits set contains nothing, and a
    size outside 1 to 32 neither. *)
Theorem subnet_is_prefix ipv4 network size a w n :
  inet_pton ipv4 = Some a -> "/"%char ∉ network -> inet_pton (pad_quad network) = Some w -> atoi size = Ok n ->
  IPv4subnet ipv4 (network ++ "/"%char :: size)
  = Ok (bool_decide (1 <= n <= 32 /\ ip_value w = ip_value a / 2 ^ (32 - n) * 2 ^ (32 - n))).
Proof.
  intros Ha Hs Hw Hn. unfold IPv4subnet. rewrite Ha, index_from_app, take_app_length, Hw by done.
  replace (drop (S (length network)) (network ++ "/"%char :: size)) with size.
  2:{ clear. by induction network. }
  rewrite Hn. cbn [obind]. destruct (Z.leb_spec n 0); [by rewrite bool_decide_false by lia|].
  destruct (Z.ltb_spec 32 n); [by rewrite bool_decide_false by lia|]. cbn [orb]. f_equal.
  destruct (inet_pton_ok _ _ Ha) as [Fa La]. destruct (inet_pton_ok _ _ Hw) as [Fw Lw].
  destruct (s_addr_value a Fa La) as [-> Ra]. destruct (s_addr_value w Fw Lw) as [-> Rw].
  unfold subnet_mask. rewrite htonl_land, mask_land by lia.
  assert (0 <= ip_value a / 2 ^ (32 - n) * 2 ^ (32 - n) < 2 ^ 32) as Rm.
  { pose proof (Z.pow_pos_nonneg 2 (32 - n) ltac:(lia) ltac:(lia)). pose proof (Z.mul_div_le (ip_value a) (2 ^ (32 - n)) ltac:(lia)).
    pose proof (Z.div_pos (ip_value a) (2 ^ (32 - n)) ltac:(lia) ltac:(lia)). nia. }
  destruct (Z.eqb_spec (htonl (ip_value a / 2 ^ (32 - n) * 2 ^ (32 - n))) (htonl (ip_value w))) as [E|E]; symmetry.
  - apply bool_decide_eq_true. split; [lia|]. symmetry. by apply htonl_inj.
  - apply bool_decide_eq_false. intros [_ E']. by rewrite E' in E.
Qed.

(** ** Wildcards *)

Local Open Scope nat_scope.

Definition DOT : ascii := "."%char.

(** [fqdn] is the domain or a name under it, in any case and with an optional
    dot at the end. *)
Definition under_domain (domain fqdn : list ascii) : Prop :=
  exists prefix name final, fqdn = prefix ++ name ++ final /\ tolower <$> name = tolower <$> domain
    /\ (prefix = [] \/ exists labels, labels <> [] /\ prefix = labels ++ [DOT]) /\ (final = [] \/ final = [DOT]).

Definition lits_pat (l : list ascii) (p : pat) : pat := foldr (fun a => PSeq (PCls (same_char true a))) p l.
Definition label_pat : pat := PSeq (PPlus (PCls dot)) (PSeq (PCls (same_char true DOT)) PEps).
Definition final_pat : pat := PSeq (PGroup 2 (PSeq (POpt (PCls (same_char true DOT))) PEps)) (PSeq PEol PEps).
Definition wildcard_pat (domain : list ascii) : pat := PSeq PBol (PSeq (PStar (PGroup 1 label_pat)) (lits_pat domain final_pat)).

Lemma lex_quoted domain rest : BACKSLASH ∉ domain -> lex Quoted (domain ++ bytes "\E" ++ rest) = app (RLit <$> domain) <$> lex Plain rest.
Proof.
  induction domain as [|c d IH]; intros Hd; [simpl; by destruct (lex Plain rest)|].
  assert (lex Quoted ((c :: d) ++ bytes "\E" ++ rest) = cons (RLit c) <$> lex Quoted (d ++ bytes "\E" ++ rest)) as ->.
  { cbn [app lex]. destruct (d ++ bytes "\E" ++ rest) as [|x l]; [done|]. rewrite decide_False; [done|]. intros [-> _]. set_solver. }
  rewrite IH by set_solver. simpl. by destruct (lex Plain rest).
Qed.

Lemma sequence_lits l r f n p n' r' : unquantified r -> sequence true f n r = Some (p, n', r') ->
  sequence true (length l + f) n ((RLit <$> l) ++ r) = Some (lits_pat l p, n', r').
Proof.
  intros Hu E. induction l as [|a l IH]; [done|]. cbn [length Nat.add fmap list_fmap app sequence].
  rewrite quantify_none by (by destruct l). cbn [mbind option_bind]. by rewrite IH.
Qed.

Lemma wildcard_syntax domain : BACKSLASH ∉ domain -> syntax true (wildcard_exp (bytes "*." ++ domain)) = Some (wildcard_pat domain).
Proof.
  intros Hd. change (wildcard_exp (bytes "*." ++ domain)) with (bytes "^(.+\.)*\Q" ++ domain ++ bytes "\E" ++ bytes "(\.?)$"). unfold syntax.
  assert (forall l, lex Plain (bytes "^(.+\.)*\Q" ++ l) = app [RBol; ROpen; RAny; RPlus; RLit DOT; RClose; RStar] <$> lex Quoted l) as Hp.
  { intros l. simpl. by destruct (lex Quoted l). }
  rewrite Hp, (lex_quoted domain (bytes "(\.?)$") Hd).
  set (tail := [ROpen; RLit DOT; ROpt; RClose; REol]).
  change (lex Plain _) with (Some tail). cbn [fmap option_fmap option_map mbind option_bind].
  assert (sequence true 5 2 tail = Some (final_pat, 3, [])) as Ht by done.
  pose proof (sequence_lits domain tail 5 2 _ _ _ eq_refl Ht) as Hl.
  set (ts := (RLit <$> domain) ++ tail) in *. assert (length domain + 5 <= length ts) as Hle by (unfold ts; rewrite length_app, length_fmap; done).
  assert (unquantified ts) as Hu by (by destruct domain).
  cbn [app length]. clearbody ts. remember (S (S (S (S (S (S (length ts))))))) as f eqn:Ef.
  assert (sequence true f 2 (RAny :: RPlus :: RLit DOT :: RClose :: RStar :: ts) = Some (label_pat, 2, RClose :: RStar :: ts)) as Hbody by (by subst f).
  cbn [sequence]. rewrite Hbody. cbn [mbind option_bind]. rewrite quantify_star by done. cbn [mbind option_bind].
  rewrite (sequence_mono _ _ f _ _ _ Hl) by lia. done.
Qed.

(** What the parts of the expression take. *)
Lemma same_dot x : same_char true DOT x = true <-> x = DOT.
Proof. unfold same_char, DOT. rewrite bool_decide_eq_true. destruct x as [[] [] [] [] [] [] [] []]; vm_compute; split; congruence. Qed.

Lemma consumes_one (c : ascii -> bool) st st' : consumes (PCls c) st st' <-> exists x r, m_rest st = x :: r /\ c x = true /\ st' = advance 1 st.
Proof.
  split; [inversion 1 as [|? ? x l E Hx| | | | | | | | | |]; subst; by eauto|]. intros (x & r & E & Hx & ->). by eapply C_cls.
Qed.

Lemma consumes_some (c : ascii -> bool) st st' : consumes (PPlus (PCls c)) st st' <->
  exists v r, m_rest st = v ++ r /\ v <> [] /\ Forall (fun x => c x = true) v /\ st' = advance (length v) st.
Proof.
  split.
  - intros (st1 & (x & l & E & Hx & ->)%consumes_one & (v & r & E' & Hv & ->)%consumes_run)%consumes_seq_inv.
    cbn in E'. rewrite E in E' |- *. simpl in E'. rewrite drop_0 in E'. subst l. exists (x :: v), r. rewrite advance_advance. by split_and!; [| |constructor|].
  - intros ([|x v] & r & E & Hne & Hv & ->); [done|]. inversion Hv; subst. apply C_seq with (advance 1 st); [apply consumes_one; by eauto|].
    apply consumes_run. exists v, r. rewrite advance_advance. cbn. by rewrite E.
Qed.

Lemma consumes_lits l p st st' : consumes (lits_pat l p) st st' <->
  exists v r, m_rest st = v ++ r /\ tolower <$> v = tolower <$> l /\ consumes p (advance (length v) st) st'.
Proof.
  revert st. induction l as [|a l IH]; intros st.
  - split; [intros Hc; exists [], (m_rest st); by rewrite advance_0|]. intros (v & r & E & Hv & Hc). apply fmap_nil_inv in Hv as ->. by rewrite advance_0 in Hc.
  - cbn [lits_pat foldr]. split.
    + intros (st1 & (x & r & E & Hx & ->)%consumes_one & (v & r' & E' & Hv & Hc)%IH)%consumes_seq_inv.
      cbn in E'. rewrite E in E' |- *. simpl in E'. rewrite drop_0 in E'. subst r. exists (x :: v), r'. rewrite advance_advance in Hc.
      apply bool_decide_eq_true in Hx. split_and!; [done|by rewrite !fmap_cons, Hx, Hv|done].
    + intros ([|x v] & r & E & Hv & Hc); [done|]. injection Hv as Hx Hv. apply C_seq with (advance 1 st).
      * apply consumes_one. exists x, (v ++ r). split_and!; [done|by apply bool_decide_eq_true|done].
      * apply IH. exists v, r. rewrite advance_advance. cbn. by rewrite E.
Qed.

(** One label with its dot. *)
Lemma consumes_label st st' : consumes label_pat st st' <->
  exists labels r, m_rest st = labels ++ DOT :: r /\ labels <> [] /\ Forall (fun x => dot x = true) labels /\ st' = advance (S (length labels)) st.
Proof.
  unfold label_pat. split.
  - intros (st1 & (v & r & E & Hne & Hv & ->)%consumes_some & (st2 & (x & l & E' & ->%same_dot & ->)%consumes_one & Hc)%consumes_seq_inv)%consumes_seq_inv.
    inversion Hc; subst. rewrite (advance_split _ _ _ E) in E'. subst r. exists v, l. rewrite advance_advance, Nat.add_1_r. done.
  - intros (v & r & E & Hne & Hv & ->). apply C_seq with (advance (length v) st); [apply consumes_some; by eauto 6|].
    apply C_seq with (advance (S (length v)) st); [|constructor]. apply consumes_one. exists DOT, r.
    rewrite (advance_split _ _ _ E), advance_advance, Nat.add_1_r. split_and!; [done|by apply same_dot|done].
Qed.

Definition prefix_ok (prefix : list ascii) : Prop := prefix = [] \/ exists labels, labels <> [] /\ prefix = labels ++ [DOT].

Lemma consumes_prefix st st' : consumes (PStar (PGroup 1 label_pat)) st st' -> exists prefix, between st prefix st' /\ prefix_ok prefix.
Proof.
  remember (PStar (PGroup 1 label_pat)) as p eqn:Ep. induction 1 as [| | | | |p st|p st st1 st2 H1 _ H2 IH| | | | |]; try done; injection Ep as ->.
  - exists []. split; [apply between_refl|by left].
  - destruct (IH eq_refl) as (b & Hb & Hok). inversion H1 as [| | | | | | | |i q st0 st' Hl| | |]; subst.
    apply consumes_label in Hl as (v & r & E & Hne & _ & ->).
    assert (between st (v ++ [DOT]) (capture 1 (m_pos st) (advance (S (length v)) st))) as Ha.
    { split; cbn; [|rewrite length_app; simpl; lia]. rewrite E, cons_middle, app_assoc.
      by rewrite (drop_app_length' (v ++ [DOT])) by (rewrite length_app; simpl; lia). }
    exists ((v ++ [DOT]) ++ b). split; [by eapply between_trans|]. right. destruct Hok as [-> | (w & Hw & ->)].
    + exists v. by rewrite app_nil_r.
    + exists ((v ++ [DOT]) ++ w). rewrite app_assoc. split; [by destruct v|done].
Qed.

Lemma consumes_final st st' : LF ∉ m_rest st -> consumes final_pat st st' -> m_rest st = [] \/ m_rest st = [DOT].
Proof.
  intros Hn (st1 & H1 & (st2 & H2 & _)%consumes_seq_inv)%consumes_seq_inv. inversion H1 as [| | | | | | | |i q st0 st3 Hg| | |]; subst.
  inversion H2 as [| | | | | | | | | | |? He]; subst. cbn [capture m_rest] in He.
  apply consumes_seq_inv in Hg as (st4 & Ho & Hc). inversion Hc; subst.
  apply consumes_alt_inv in Ho as [(x & r & E & ->%same_dot & ->)%consumes_one|Ho].
  - right. cbn in He. rewrite E in He, Hn |- *. simpl in He. rewrite drop_0 in He. apply at_eol_line in He as ->; [done|set_solver].
  - left. inversion Ho; subst. by apply at_eol_line in He.
Qed.

Lemma final_consumes st : m_rest st = [] \/ m_rest st = [DOT] -> exists st', consumes final_pat st st'.
Proof.
  intros [E|E].
  - eexists. eapply C_seq; [apply C_group; eapply C_seq; [apply C_alt_r, C_eps|apply C_eps]|]. eapply C_seq; [apply C_eol; cbn; by rewrite E|apply C_eps].
  - eexists. eapply C_seq; [apply C_group; eapply C_seq; [apply C_alt_l; eapply C_cls; [exact E|by apply same_dot]|apply C_eps]|].
    eapply C_seq; [apply C_eol; cbn; by rewrite E|apply C_eps].
Qed.

Lemma wildcard_consumes domain fqdn : LF ∉ fqdn ->
  (exists st', consumes (PSeq (PStar (PGroup 1 label_pat)) (lits_pat domain final_pat)) (mkM 0 fqdn []) st') <-> under_domain domain fqdn.
Proof.
  intros Hn. split.
  - intros (st' & (st1 & (prefix & [Ep _] & Hok)%consumes_prefix & (name & final & Ef & Hname & Hc)%consumes_lits)%consumes_seq_inv).
    cbn in Ep. rewrite Ef in Ep. exists prefix, name, final. split_and!; [done|done|done|].
    rewrite <- (advance_split _ _ _ Ef). apply (consumes_final _ st'); [|done]. rewrite (advance_split _ _ _ Ef). set_solver.
  - intros (prefix & name & final & -> & Hname & Hok & Hfinal).
    assert (exists st1, consumes (PStar (PGroup 1 label_pat)) (mkM 0 (prefix ++ name ++ final) []) st1 /\ m_rest st1 = name ++ final) as (st1 & H1 & E1).
    { destruct Hok as [-> | (labels & Hne & ->)]; [eexists; split; [constructor|done]|].
      eexists. split; [eapply C_star_cons; [apply C_group, consumes_label|constructor]|].
      - exists labels, (name ++ final). cbn [m_rest]. rewrite <- app_assoc. split_and!; [done|done| |done].
        apply Forall_forall. intros x Hx. unfold dot. apply negb_true_iff, bool_decide_eq_false. intros ->. set_solver.
      - cbn [capture advance m_rest]. rewrite app_assoc. apply (drop_app_length' (labels ++ [DOT])). rewrite length_app. simpl. lia. }
    destruct (final_consumes (advance (length name) st1)) as (st2 & H2); [by rewrite (advance_split _ _ _ E1)|].
    exists st2. eapply C_seq; [exact H1|]. apply consumes_lits. by eauto.
Qed.

Section Wildcard.
Context `{Pcre pcre_exec} `{PcreCompile compile}.

(** The table holds what the wildcards compile to. *)
Definition table_ok (mPatterns : Patterns) : Prop :=
  forall wildcard re, mPatterns !! wildcard = Some re -> compile true (cstr (wildcard_exp wildcard)) = Some re.

Lemma table_lookup mPatterns wildcard p : table_ok mPatterns -> compile true (cstr (wildcard_exp wildcard)) = Some p ->
  exists mPatterns', match mPatterns !! wildcard with
    | Some re => Ok (re, mPatterns)
    | None => let! re := RegEx_new compile true (wildcard_exp wildcard) in Ok (re, <[wildcard := re]> mPatterns)
    end = Ok (p, mPatterns') /\ table_ok mPatterns'.
Proof.
  intros Ht Hc. destruct (mPatterns !! wildcard) as [re|] eqn:E.
  - rewrite (Ht _ _ E) in Hc. injection Hc as ->. by eauto.
  - unfold RegEx_new. rewrite Hc. cbn [obind]. eexists. split; [done|]. intros w re. rewrite lookup_insert_Some.
    intros [[<- <-]|[_ Hw]]; [done|by apply Ht].
Qed.

(** A wildcard matches the domain and the names under it. *)
Lemma wildcard_suffix mPatterns domain fqdn :
  table_ok mPatterns -> BACKSLASH ∉ domain -> nul_free domain -> LF ∉ fqdn -> nul_free fqdn ->
  exists p b mPatterns', compile true (wildcard_exp (bytes "*." ++ domain)) = Some p
    /\ DnsWildcard compile pcre_exec mPatterns fqdn (bytes "*." ++ domain) = Ok (b, mPatterns') /\ table_ok mPatterns'
    /\ (b = true -> under_domain domain fqdn) /\ (length fqdn <= pcre_limit p -> under_domain domain fqdn -> b = true).
Proof.
  intros Ht Hb Hd Hl Hf. assert (nul_free (wildcard_exp (bytes "*." ++ domain))) as Hw.
  { repeat apply Forall_app_2; try exact Hd; repeat constructor; discriminate. }
  pose proof (compile_syntax _ _ _ (wildcard_syntax domain Hb)) as Hc. rewrite <- (cstr_id _ Hw) in Hc.
  destruct (table_lookup mPatterns (bytes "*." ++ domain) _ Ht Hc) as (ps & Eps & Hps). rewrite (cstr_id _ Hw) in Hc.
  exists (wildcard_pat domain). eexists _, ps. split; [done|]. split.
  { unfold DnsWildcard. rewrite decide_False by done. rewrite bool_decide_true by done. cbn [negb]. rewrite Eps. cbn [obind]. by rewrite (cstr_id fqdn). }
  split; [done|]. rewrite <- (wildcard_consumes domain fqdn Hl). split.
  - destruct (pcre_exec _ fqdn 0) as [m|] eqn:E; [|done]. intros _. apply pcre_sound in E.
    apply search_anchored in E as (_ & st' & Hst & _). by eauto.
  - intros Hlim (st' & Hst). rewrite pcre_complete by done. unfold wildcard_pat.
    edestruct search_anchored_hit as (m & ->); [|exact Hst|done]. cbn [exhaustive nullable andb negb label_pat PPlus].
    clear. induction domain; done.
Qed.

(** C22: Whatever wildcards were used before, [*.domain] compiles and matches
    exactly the domain and the names under it, never a name that only ends with
    the same letters; beyond its limit the library may miss a match.  The
    domain must be free of backslashes, which end the quotation. *)
Theorem wildcard_is_suffix mPatterns domain fqdn :
  table_ok mPatterns -> BACKSLASH ∉ domain -> nul_free domain -> LF ∉ fqdn -> nul_free fqdn ->
  exists p b mPatterns', compile true (wildcard_exp (bytes "*." ++ domain)) = Some p
    /\ DnsWildcard compile pcre_exec mPatterns fqdn (bytes "*." ++ domain) = Ok (b, mPatterns') /\ table_ok mPatterns'
    /\ (b = true -> under_domain domain fqdn) /\ (length fqdn <= pcre_limit p -> under_domain domain fqdn -> b = true).
Proof. apply wildcard_suffix. Qed.
End Wildcard.

Module PatternsExamples.
Lemma subnet_is_prefix_witness : IPv4subnet (bytes "192.168.7.9") (bytes "192.168/16") = Ok true.
Proof.
  change (bytes "192.168/16") with (bytes "192.168" ++ "/"%char :: bytes "16").
  rewrite (subnet_is_prefix (bytes "192.168.7.9") (bytes "192.168") (bytes "16") [192; 168; 7; 9]%Z [192; 168; 0; 0]%Z 16%Z).
  - vm_compute. reflexivity.
  - vm_compute. reflexivity.
  - apply (bool_decide_eq_true_1 ("/"%char ∉ bytes "192.168")). vm_compute. reflexivity.
  - vm_compute. reflexivity.
  - vm_compute. reflexivity.
Defined.

(** A network with bits outside its mask contains nothing, not even itself. *)
Example network_with_host_bits : IPv4subnet (bytes "10.1.0.0") (bytes "10.1.0.0/8") = Ok false.
Proof. done. Qed.

#[local] Instance library : Pcre search := search_Pcre 100.

Lemma wildcard_is_suffix_witness :
  exists p b ps, syntax true (wildcard_exp (bytes "*.example.com")) = Some p
    /\ DnsWildcard syntax search ∅ (bytes "sip.EXAMPLE.com") (bytes "*.example.com") = Ok (b, ps) /\ b = true.
Proof.
  destruct (wildcard_is_suffix (pcre_exec := search) (compile := syntax) ∅ (bytes "example.com") (bytes "sip.EXAMPLE.com"))
    as (p & b & ps & H1 & H2 & _ & _ & H3).
  - intros w re E. rewrite lookup_empty in E. discriminate E.
  - apply (bool_decide_eq_true_1 (BACKSLASH ∉ bytes "example.com")). vm_compute. reflexivity.
  - repeat constructor; discriminate.
  - apply (bool_decide_eq_true_1 (LF ∉ bytes "sip.EXAMPLE.com")). vm_compute. reflexivity.
  - repeat constructor; discriminate.
  - exists p, b, ps. split; [exact H1|]. split; [exact H2|]. apply H3; [vm_compute; lia|].
    exists (bytes "sip."), (bytes "EXAMPLE.com"), []. split; [reflexivity|]. split; [vm_compute; reflexivity|].
    split; [right; exists (bytes "sip"); split; [discriminate|reflexivity]|left; reflexivity].
Defined.

Example no_match_inside_a_label :
  (let! r := DnsWildcard syntax search ∅ (bytes "badexample.com") (bytes "*.example.com") in Ok (fst r)) = Ok false.
Proof. by vm_compute. Qed.
End PatternsExamples.
