(* ===== verification/TinyXml.v ===== *)
(** * Document trees

    The tree that [sipXportLib/src/xmlparser/tinyxml.cpp] keeps of a file, as far
    as the readers of rules use it, and
    [sipXportLib/src/xmlparser/ExtractContent.cpp].  The loops over
    IterateChildren, and over FirstChild(v) and NextSibling(v), are loops over
    [children] and [children_named]. *)
From Stdlib Require Import ZArith Lia Ascii String.
From stdpp Require Import base list strings.
From S2P Require Import Prelude.

(** TiXmlNode with the kinds a child can have; the document is a list of
    nodes. *)
Inductive TiXmlNode :=
| ELEMENT (value : list ascii) (attributes : list (list ascii * list ascii)) (children : list TiXmlNode)
| COMMENT (value : list ascii)
| UNKNOWN (value : list ascii)
| TEXT (value : list ascii)
| DECLARATION (value : list ascii).

Definition Value (n : TiXmlNode) : list ascii :=
  match n with ELEMENT v _ _ | COMMENT v | UNKNOWN v | TEXT v | DECLARATION v => v end.
Definition children (n : TiXmlNode) : list TiXmlNode := match n with ELEMENT _ _ c => c | _ => [] end.
Definition is_element (n : TiXmlNode) : bool := match n with ELEMENT _ _ _ => true | _ => false end.

(** FirstChild(value) and NextSibling(value) select by the value of any node,
    an element's name or a text. *)
Definition children_named (value : list ascii) (n : TiXmlNode) : list TiXmlNode :=
  filter (fun c => Value c = value) (children n).
Definition FirstChild_named (value : list ascii) (nodes : list TiXmlNode) : option TiXmlNode :=
  head (filter (fun c => Value c = value) nodes).

(** TiXmlElement::Attribute *)
Definition Attribute (name : list ascii) (n : TiXmlNode) : option (list ascii) :=
  match n with ELEMENT _ a _ => snd <$> head (filter (fun p => fst p = name) a) | _ => None end.

(** The text of an element whose first child is a text *)
Definition first_text (n : TiXmlNode) : option (list ascii) :=
  match n with ELEMENT _ _ (TEXT t :: _) => Some t | _ => None end.

(** ** ExtractContent.cpp *)

Definition textContentShallow (node : option TiXmlNode) : list ascii :=
  match node with
  | None => []
  | Some n => children n ≫= (fun c => match c with TEXT t => t | _ => [] end)
  end.

(** textContent: comments are skipped; any other child puts the string back to
    its original length. *)
Fixpoint text_loop (string : list ascii) (nodes : list TiXmlNode) : option (list ascii) :=
  match nodes with
  | [] => Some string
  | TEXT t :: nodes' => text_loop (string ++ t) nodes'
  | COMMENT _ :: nodes' => text_loop string nodes'
  | _ => None
  end.
Definition textContent (string : list ascii) (node : TiXmlNode) : bool * list ascii :=
  match text_loop string (children node) with
  | Some s => (true, s)
  | None => (false, string)
  end.

Fixpoint textContentDeepRecursive (node : TiXmlNode) : list ascii :=
  match node with
  | ELEMENT _ _ c =>
      concat (map (fun child =>
        match child with TEXT t => t | ELEMENT _ _ _ => textContentDeepRecursive child | _ => [] end) c)
  | _ => []
  end.
Definition textContentDeep (node : option TiXmlNode) : list ascii :=
  match node with None => [] | Some n => textContentDeepRecursive n end.
