(* ===== verification/UrlCodec.v ===== *)
(** * Escaping and CGI variables

    [HttpMessage::escape] and [unescape] of
    [sipXtackLib/src/net/HttpMessage.cpp], which Url uses for the values of
    its parameters, and [HttpRequestContext::parseCgiVariables], which splits
    a parameter string.  A UtlString is its contents, changed as
    UtlStringRefine specifies the string methods; a [const char*] is the
    storage it points to.  A name/value pair is its name and its value, [None]
    for the null pointer (NameValuePair shows that its storage keeps them). *)
From Stdlib Require Import ZArith Lia Ascii String.
From stdpp Require Import base list strings sets.
From S2P Require Import Prelude UtlString UtlStringRefine NameValueTokenizer NameValueTokenizerSpec Format.
Local Open Scope Z_scope.

(** ** HttpMessage::unescape *)

(** The value of a hex digit as the tests of unescape compute it. *)
Definition hex_value (c : ascii) : option Z :=
  if in_range 48 57 c then Some (schar c - 48)
  else if in_range 97 102 c then Some (schar c - 87)
  else if in_range 65 70 c then Some (schar c - 55)
  else None.

(** The characters written to resultPtr; [escapedChar] keeps its value where
    a digit is not a hex digit. *)
Fixpoint unescape_loop (text : list ascii) (escapedChar : Z) : outcome (list ascii) :=
  match text with
  | [] => Ok []
  | c :: text' =>
      if decide (c = "+"%char) then
        let! r := unescape_loop text' escapedChar in Ok (" "%char :: r)
      else if decide (c = "%"%char) then
        match text' with
        | [] => Ok []
        | h :: text'' =>
            let escapedChar := match hex_value h with Some v => v * 16 | None => escapedChar end in
            match text'' with
            | [] => Ok []
            | l :: text3 =>
                let! escapedChar := match hex_value l with
                                    | Some v => int_arith (escapedChar + v)
                                    | None => Ok escapedChar
                                    end in
                let! r := unescape_loop text3 escapedChar in Ok (chr escapedChar :: r)
            end
        end
      else let! r := unescape_loop text' escapedChar in Ok (c :: r)
  end.

(** [escapedText.replace(0, n, resultPtr); escapedText.remove(n)] *)
Definition put_back (text result : list ascii) : list ascii :=
  let n := Z.of_nat (length result) in
  spec_op (ORemove n) (spec_op (OReplace 0 n (cstr result) [] (Z.of_nat (length (cstr result)))) text).

Definition unescape (escapedText : list ascii) : outcome (list ascii) :=
  let! result := unescape_loop (cstr escapedText) (-1) in Ok (put_back escapedText result).

(** ** HttpMessage::escape *)

Definition hex_upper (d : Z) : ascii := if d <? 10 then chr (48 + d) else chr (55 + d).

Definition escape_char (c : ascii) : list ascii :=
  if islower c || isupper c || isdigit c || bool_decide (c = "-"%char) || bool_decide (c = "_"%char)
     || bool_decide (c = "."%char) then [c]
  else if bool_decide (c = " "%char) then ["+"%char]
  else ["%"%char; hex_upper (uchar c / 16); hex_upper (uchar c mod 16)].

Definition escape (unEscapedText : list ascii) : list ascii := cstr unEscapedText ≫= escape_char.

(** ** HttpRequestContext::parseCgiVariables *)

Definition param : Type := list ascii * option (list ascii).

(** [while(nameLength > 0 && ( *namePtr == ' ' || *namePtr == '\t'))]: the
    name after its leading white space *)
Fixpoint skip_blank (name : list ascii) : list ascii :=
  match name with
  | c :: name' => if decide (c = " "%char \/ c = "009"%char) then skip_blank name' else name
  | [] => []
  end.

Definition WHITE : list ascii := [" "%char; "009"%char; "010"%char; "013"%char].

(** [strspn(s, accept)] *)
Definition strspn (s accept : list ascii) : Z :=
  Z.of_nat (length (fst (span (fun c => bool_decide (c ∈ accept)) (cstr s)))).

(** The pair of one field of [nameAndValueLength] characters at the offset
    [nameAndValuePtr] of the query string; the field has no name when nothing
    is left of it. *)
Definition cgi_pair (queryString : list ascii) (nameAndValuePtr nameAndValueLength : Z) (nameValueSeparator : list ascii)
    : outcome (option param) :=
  let! r := getSubField_ptr (drop (Z.to_nat nameAndValuePtr) queryString) nameAndValueLength 0 nameValueSeparator false in
  match r with
  | None => Ok None
  | Some (b, len, _) =>
      let! field := read_at queryString (nameAndValuePtr + b) len in
      let name := skip_blank field in
      if bool_decide (name = []) then Ok None
      else
        let nameEnd := nameAndValuePtr + b + len in
        let valueSeparatorOffset := strspn (drop (Z.to_nat nameEnd) queryString) (cstr nameValueSeparator) in
        let valuePtr := nameEnd + valueSeparatorOffset in
        let valueLength := nameAndValueLength - (valuePtr - nameAndValuePtr) in
        let! v0 := char_of queryString valuePtr in
        let! value :=
          (if (valueSeparatorOffset <=? 0) || bool_decide (v0 = NUL) || (valueLength <=? 0) then Ok []
           else
             let! raw := read_at queryString valuePtr valueLength in
             let! v := unescape (frontBackTrim raw WHITE) in Ok (cstr v)) in
        let! n := unescape name in
        Ok (Some (frontBackTrim n WHITE, Some value))
  end.

Fixpoint cgi_loop (fuel : nat) (queryString : list ascii) (queryStringLength : Z) (pairSeparator nameValueSeparator : list ascii)
    (lastCharIndex : Z) : outcome (list param) :=
  match fuel with
  | O => UB
  | S fuel' =>
      let! r := getSubField_ptr (drop (Z.to_nat lastCharIndex) queryString) (queryStringLength - lastCharIndex) 0
                  pairSeparator false in
      match r with
      | None => Ok []
      | Some (b, len, relativeIndex) =>
          let lastCharIndex' := lastCharIndex + relativeIndex in
          let! p := (if 0 <? len then cgi_pair queryString (lastCharIndex + b) len nameValueSeparator else Ok None) in
          let! c := char_of queryString lastCharIndex' in
          let! rest := (if (0 <? len) && negb (bool_decide (c = NUL))
                        then cgi_loop fuel' queryString queryStringLength pairSeparator nameValueSeparator lastCharIndex'
                        else Ok []) in
          Ok (match p with Some p => p :: rest | None => rest end)
      end
  end.

(** The variables of a terminated string, in order. *)
Definition parseCgiVariables (queryString pairSeparator nameValueSeparator : list ascii) : outcome (list param) :=
  let! n := strlen queryString in
  cgi_loop (S (length queryString)) queryString n pairSeparator nameValueSeparator 0.

(** ** Printed parameters *)

Definition value_of (p : param) : list ascii := default [] (snd p).

(** As Url prints a parameter: a value is escaped, a name is not, and an
    empty value is left out. *)
Definition print_value (v : list ascii) : list ascii := match v with [] => [] | _ => "="%char :: escape v end.
Definition print_param (p : param) : list ascii := fst p ++ print_value (value_of p).

(** ** Examples *)

Example unescape_hex : unescape "a%2Fb+c%zz" = Ok (bytes "a/b c/").
Proof. vm_compute. reflexivity. Qed.
Example cgi_example :
  parseCgiVariables (c_str "lr;;maddr=1.2.3.4; x =a%20b;y==") (c_str ";") (c_str "=")
  = Ok [(bytes "lr", Some []); (bytes "maddr", Some (bytes "1.2.3.4")); (bytes "x", Some (bytes "a b")); (bytes "y", Some [])].
Proof. vm_compute. reflexivity. Qed.

(** * Round trips of escaping and of parameter strings *)
(** ** Escaping *)

Lemma hex_value_upper d : 0 <= d < 16 -> hex_value (hex_upper d) = Some d.
Proof.
  intros H. assert (In d (Z.of_nat <$> seq 0 16)) as Hd.
  { apply list_elem_of_In, list_elem_of_fmap. exists (Z.to_nat d). split; [lia|]. apply elem_of_seq. lia. }
  simpl in Hd. decompose [or] Hd; subst; (done || vm_compute; reflexivity).
Qed.

(** What escape_char makes of a character. *)
Lemma escape_char_cases c :
  (escape_char c = [c] /\ c <> "+"%char /\ c <> "%"%char)
  \/ (c = " "%char /\ escape_char c = ["+"%char])
  \/ escape_char c = ["%"%char; hex_upper (uchar c / 16); hex_upper (uchar c mod 16)].
Proof.
  unfold escape_char. destruct (_ || _) eqn:E.
  - left. split; [done|]. split; intros ->; vm_compute in E; discriminate E.
  - right. destruct (bool_decide (c = " "%char)) eqn:Ec; [left|by right].
    by apply bool_decide_eq_true in Ec as ->.
Qed.

Lemma unescape_loop_escape t e : unescape_loop (t ≫= escape_char) e = Ok t.
Proof.
  revert e. induction t as [|c t IH]; intros e; [done|]. cbn [mbind list_bind].
  fold (mbind (M := list) escape_char t).
  destruct (escape_char_cases c) as [(-> & Hp & Hq) | [[-> ->] | ->]]; cbn [app unescape_loop].
  - rewrite !decide_False by done. by rewrite IH.
  - rewrite decide_True by done. by rewrite IH.
  - rewrite decide_False, decide_True by done. pose proof (uchar_range c).
    assert (0 <= uchar c / 16 < 16) by (split; [apply Z.div_pos|apply Z.div_lt_upper_bound]; lia).
    pose proof (Z.mod_pos_bound (uchar c) 16 ltac:(lia)).
    rewrite !hex_value_upper by done. pose proof (Z.div_mod (uchar c) 16 ltac:(lia)).
    rewrite int_arith_ok by (unfold INT_MIN, INT_MAX; lia). cbn [obind]. rewrite IH. cbn [obind].
    replace (uchar c / 16 * 16 + uchar c mod 16) with (uchar c) by lia. by rewrite chr_uchar.
Qed.

(** The characters escape writes. *)
Definition escaped (c : ascii) : bool :=
  islower c || isupper c || isdigit c || bool_decide (c = "-"%char) || bool_decide (c = "_"%char)
  || bool_decide (c = "."%char) || bool_decide (c = "+"%char) || bool_decide (c = "%"%char).

Lemma escape_char_escaped c : Forall (fun x => escaped x = true) (escape_char c).
Proof.
  assert (forallb escaped (escape_char c) = true) as H by (all_bytes c; reflexivity).
  rewrite forallb_forall in H. apply Forall_forall. intros x Hx. by apply H, list_elem_of_In.
Qed.

Lemma escape_escaped t : Forall (fun x => escaped x = true) (escape t).
Proof. unfold escape. apply Forall_bind, Forall_true. intros c. apply escape_char_escaped. Qed.

Lemma escaped_not_nul l : Forall (fun x => escaped x = true) l -> nul_free l.
Proof. intros H. eapply Forall_impl; [exact H|]. intros c Hc ->. vm_compute in Hc. done. Qed.

Lemma length_escape t : (length t <= length (t ≫= escape_char))%nat.
Proof.
  induction t as [|c t IH]; [done|]. cbn [mbind list_bind]. fold (mbind (M := list) escape_char t). rewrite length_app.
  destruct (escape_char_cases c) as [(-> & _) | [[_ ->] | ->]]; simpl; lia.
Qed.

Lemma put_back_short text result :
  nul_free result -> (length result <= length text)%nat -> put_back text result = result.
Proof.
  intros Hr Hl. unfold put_back. rewrite cstr_id by done. cbn [spec_op].
  rewrite !Nat2Z.id. change (Z.to_nat 0) with 0%nat. rewrite take_0, (firstn_all2 result) by lia. simpl.
  by rewrite take_app_length.
Qed.

(** unescape undoes escape on every string without NUL. *)
Theorem escape_roundtrip t : nul_free t -> unescape (escape t) = Ok t.
Proof.
  intros Ht. unfold unescape. rewrite (cstr_id (escape t)) by apply escaped_not_nul, escape_escaped.
  unfold escape. rewrite (cstr_id t) by done. rewrite unescape_loop_escape. cbn [obind].
  by rewrite put_back_short by (done || apply length_escape).
Qed.

Lemma escape_roundtrip_witness : unescape (escape (bytes "<sip:a b@c>;+%")) = Ok (bytes "<sip:a b@c>;+%").
Proof. apply (escape_roundtrip (bytes "<sip:a b@c>;+%")). repeat (constructor; [done|]). constructor. Defined.

(** ** Fields of a parameter string *)

Lemma subfield_run sep f : forall fuel text pre tail len b s,
  text = pre ++ f ++ tail -> sep ∉ f -> nul_free f -> Z.of_nat (length (pre ++ f)) <= len ->
  subfield_loop (length f + fuel) text len 0 [sep] false (-1) b s (Z.of_nat (length pre))
  = subfield_loop fuel text len 0 [sep] false (-1) b s (Z.of_nat (length (pre ++ f))).
Proof.
  induction f as [|c f IH]; intros fuel text pre tail len b s Ht Hs Hn Hl.
  - by rewrite app_nil_r.
  - inversion Hn as [|? ? Hc Hn']; subst x l. cbn [length Nat.add subfield_loop].
    change (-1 <? 0) with true. cbn iota.
    rewrite length_app in Hl. simpl in Hl.
    rewrite (proj2 (Z.leb_gt len _)), andb_false_r by lia.
    rewrite (char_of_app text pre c (f ++ tail)) by done. cbn [obind].
    rewrite bool_decide_false by done. cbn [obind andb].
    rewrite is_separator_spec, bool_decide_false by set_solver.
    replace (Z.of_nat (length pre) + 1) with (Z.of_nat (length (pre ++ [c]))) by (rewrite length_app; simpl; lia).
    rewrite (IH fuel text (pre ++ [c]) tail); [by rewrite <- app_assoc|rewrite Ht; by simplify_list_eq|set_solver|done|].
    rewrite !length_app. simpl. lia.
Qed.

(** The field ends at the end of the text, or at a separator. *)
Definition field_end (sep : ascii) (len : Z) (before : nat) (tail : list ascii) : Prop :=
  len = Z.of_nat before \/ (exists r, tail = sep :: r) /\ Z.of_nat before < len.

Lemma subfield_stop sep f fuel text pre tail len b :
  text = pre ++ f ++ tail -> f <> [] -> sep ∉ f -> nul_free f -> sep <> NUL ->
  field_end sep len (length (pre ++ f)) tail ->
  subfield_loop (length f + S (S fuel)) text len 0 [sep] false (-1) b (Z.of_nat (length pre) - 1) (Z.of_nat (length pre))
  = Ok (Some (0, Z.of_nat (length pre), Z.of_nat (length (pre ++ f)))).
Proof.
  intros Ht Hf Hs Hn Hsep He.
  rewrite (subfield_run sep f _ text pre tail) by (done || destruct He as [-> |[_ ?]]; lia).
  cbn [subfield_loop]. change (-1 <? 0) with true. cbn iota.
  replace (Z.of_nat (length pre) - 1 + 1) with (Z.of_nat (length pre)) by lia.
  destruct He as [-> |[(r & ->) Hlen]].
  - rewrite (proj2 (Z.leb_le 0 _)), (proj2 (Z.leb_le _ _) (Z.le_refl _)) by lia. done.
  - rewrite (proj2 (Z.leb_gt len _)), andb_false_r by lia.
    rewrite (char_of_app text (pre ++ f) sep r) by (done || rewrite Ht; by rewrite app_assoc). cbn [obind].
    rewrite bool_decide_false by done. cbn [obind andb].
    rewrite is_separator_spec, bool_decide_true by (done || by apply list_elem_of_singleton).
    assert (length (pre ++ f) <> length pre) by (rewrite length_app; destruct f; [done|simpl; lia]).
    rewrite (proj2 (Z.eqb_neq _ _)) by lia. done.
Qed.

(** The first field, with at most one separator in front of it. *)
Lemma getSubField_first sep s0 f tail text len :
  text = s0 ++ f ++ tail -> (s0 = [] \/ s0 = [sep]) -> f <> [] -> sep ∉ f -> nul_free f -> sep <> NUL ->
  field_end sep len (length (s0 ++ f)) tail -> tail <> [] ->
  getSubField_ptr text len 0 (c_str [sep]) false
  = Ok (Some (Z.of_nat (length s0), Z.of_nat (length f), Z.of_nat (length (s0 ++ f)))).
Proof.
  intros Ht Hs0 Hf Hs Hn Hsep He Htl. unfold getSubField_ptr.
  assert (cstr (c_str [sep]) = [sep]) as ->.
  { unfold c_str. apply cstr_app_nul. by apply Forall_singleton. }
  assert (exists fuel, S (length text) = (length s0 + (length f + S (S fuel)))%nat) as (fuel & ->).
  { exists (length tail - 1)%nat. rewrite Ht, !length_app. destruct tail; [done|]. simpl. lia. }
  assert (subfield_loop (length s0 + (length f + S (S fuel))) text len 0 [sep] false (-1) 0 (-1) 0
    = Ok (Some (0, Z.of_nat (length s0), Z.of_nat (length (s0 ++ f))))) as ->.
  { destruct Hs0 as [-> | ->].
    - exact (subfield_stop sep f fuel text [] tail len 0 Ht Hf Hs Hn Hsep He).
    - cbn [length Nat.add subfield_loop]. change (-1 <? 0) with true. cbn iota.
      assert (0 < len) by (destruct He as [-> |[_ ?]]; simpl in *; lia).
      rewrite (proj2 (Z.leb_gt len _)), andb_false_r by lia.
      rewrite (char_of_app text [] sep (f ++ tail)) by done. cbn [obind].
      rewrite bool_decide_false by done. cbn [obind andb].
      rewrite is_separator_spec, bool_decide_true by (done || by apply list_elem_of_singleton).
      change (negb (-1 + 1 =? 0)) with false. cbn iota.
      exact (subfield_stop sep f fuel text [sep] tail len (-1 + 1) Ht Hf Hs Hn Hsep He). }
  cbn [obind]. change (0 =? 0) with true. cbn iota. do 3 f_equal.
  rewrite length_app. f_equal. lia.
Qed.

(** ** Printed parameters *)

(** Characters of a name that survive printing and parsing. *)
Definition name_char (c : ascii) : bool :=
  bool_decide (c ∉ NUL :: "+"%char :: "%"%char :: "="%char :: WHITE).

Definition wf_param (sep : ascii) (p : param) : Prop :=
  fst p <> [] /\ Forall (fun c => name_char c = true) (fst p) /\ sep ∉ fst p
  /\ exists v, snd p = Some v /\ nul_free v.

Lemma param_char_facts c : name_char c = true ->
  c <> NUL /\ c <> "+"%char /\ c <> "%"%char /\ c <> "="%char /\ in_set WHITE c = false.
Proof.
  unfold name_char, in_set. rewrite bool_decide_eq_true, bool_decide_eq_false. intros H.
  split_and!; try (intros ->; apply H; set_solver). intros [Hw| ->]; apply H; set_solver.
Qed.

Lemma escaped_facts c : escaped c = true -> c <> NUL /\ c <> "="%char /\ in_set WHITE c = false.
Proof.
  intros H. split_and!; try (intros ->; vm_compute in H; discriminate H).
  unfold in_set. apply bool_decide_eq_false. intros [Hw | ->]; [|vm_compute in H; discriminate H].
  unfold WHITE in Hw. rewrite !elem_of_cons, elem_of_nil in Hw.
  destruct Hw as [-> | [-> | [-> | [-> | []]]]]; vm_compute in H; discriminate H.
Qed.

Lemma count_while_false (p : ascii -> bool) l : Forall (fun c => p c = false) l -> count_while p l = 0.
Proof. intros H. destruct H as [|c l Hc]; simpl; [done|]. by rewrite Hc. Qed.

Lemma frontBackTrim_id l : Forall (fun c => in_set WHITE c = false) l -> frontBackTrim l WHITE = l.
Proof.
  intros H. unfold frontBackTrim, frontTrim, backTrim. rewrite (count_while_false _ l H). cbn zeta.
  change (0 <? 0) with false. cbn iota. rewrite count_while_false; [done|]. by apply Forall_rev.
Qed.

Lemma unescape_name n : Forall (fun c => name_char c = true) n -> unescape n = Ok n.
Proof.
  intros H. assert (nul_free n) as Hn by (eapply Forall_impl; [exact H|]; intros c Hc; apply param_char_facts in Hc; tauto).
  unfold unescape. rewrite cstr_id by done.
  assert (forall e, unescape_loop n e = Ok n) as ->; [|cbn [obind]; by rewrite put_back_short].
  intros e. induction H as [|c n Hc H IH]; [done|]. apply param_char_facts in Hc as (_ & H1 & H2 & _).
  cbn [unescape_loop]. rewrite !decide_False by done. inversion Hn; subst. by rewrite IH.
Qed.

Lemma skip_blank_name n : Forall (fun c => name_char c = true) n -> skip_blank n = n.
Proof.
  intros H. destruct H as [|c n Hc H]; [done|]. cbn [skip_blank]. apply param_char_facts in Hc as (_ & _ & _ & _ & Hw).
  rewrite decide_False; [done|]. intros [-> | ->]; vm_compute in Hw; done.
Qed.

Lemma strspn_eq (t : list ascii) : match t with c :: _ => c <> "="%char | [] => True end -> strspn t (bytes "=") = 0.
Proof.
  destruct t as [|c t]; [done|]. intros Hc. unfold strspn. cbn [cstr]. case_decide; [done|]. cbn [span].
  rewrite bool_decide_false; [done|]. cbn. set_solver.
Qed.

Lemma strspn_eq_one (c : ascii) (t : list ascii) : c <> "="%char -> strspn ("="%char :: c :: t) (bytes "=") = 1.
Proof.
  intros Hc. unfold strspn. cbn [cstr]. rewrite decide_False by done. case_decide; [done|]. cbn [span].
  rewrite bool_decide_true by (cbn; set_solver). rewrite bool_decide_false by (cbn; set_solver). done.
Qed.

Lemma cgi_pair_printed sep p q pre tail :
  wf_param sep p -> q = pre ++ print_param p ++ tail ->
  (exists c r, tail = c :: r /\ c <> "="%char) ->
  cgi_pair q (Z.of_nat (length pre)) (Z.of_nat (length (print_param p))) (c_str "=") = Ok (Some p).
Proof.
  destruct p as [n v]. intros (Hne & Hn & Hs & v' & Hv & Hvn) Hq (tc & tr & Htl & Htc). simpl in Hne, Hn, Hs, Hv. subst v.
  assert (Forall (fun c => c <> NUL /\ c <> "="%char) n) as Hn2.
  { eapply Forall_impl; [exact Hn|]. intros c Hc. apply param_char_facts in Hc. tauto. }
  assert ("="%char ∉ n) as Heq by (rewrite Forall_forall in Hn2; intros Hin; by apply Hn2 in Hin as [_ ?]).
  assert (nul_free n) as Hnn by (eapply Forall_impl; [exact Hn2|]; intros c Hc; by apply Hc).
  unfold cgi_pair. rewrite Nat2Z.id.
  assert (Hd : drop (length pre) q = print_param (n, Some v') ++ tail) by (rewrite Hq; apply drop_app_length).
  rewrite Hd. unfold print_param, value_of in *. cbn [fst snd] in *. change (default [] (Some v')) with v' in *.
  set (vt := print_value v') in *.
  rewrite (getSubField_first "="%char [] n (vt ++ tail)); try done; [|by rewrite <- app_assoc|by left| |].
  - cbn [obind length app]. rewrite Z.add_0_r.
    assert (read_at q (Z.of_nat (length pre)) (Z.of_nat (length n)) = Ok n) as ->.
    { rewrite Hq, <- app_assoc. by apply read_at_split. }
    cbn [obind].
    rewrite skip_blank_name, bool_decide_false by done.
    assert (cstr (c_str "=") = bytes "=") as -> by done.
    replace (Z.to_nat (Z.of_nat (length pre) + Z.of_nat (length n))) with (length (pre ++ n)) by (rewrite length_app; lia).
    assert (drop (length (pre ++ n)) q = vt ++ tail) as -> by (rewrite Hq, <- app_assoc, app_assoc; apply drop_app_length).
    rewrite unescape_name by done.
    assert (frontBackTrim n WHITE = n) as Htr.
    { apply frontBackTrim_id. eapply Forall_impl; [exact Hn|]. intros c Hc. apply param_char_facts in Hc. tauto. }
    destruct v' as [|x v'].
    + subst vt. cbn [app print_value]. rewrite strspn_eq by (by rewrite Htl). rewrite Z.add_0_r.
      rewrite (char_of_app q (pre ++ n) tc tr) by first [rewrite length_app; lia | rewrite Hq, Htl; by simplify_list_eq].
      cbn [obind orb]. change (0 <=? 0) with true. cbn [orb obind]. by rewrite Htr.
    + destruct (escape (x :: v')) as [|y e] eqn:Ee; [by apply (f_equal length) in Ee; pose proof (length_escape (x :: v')); unfold escape in Ee; rewrite cstr_id in Ee by done; simpl in *; lia|].
      pose proof (escape_escaped (x :: v')) as Hesc. rewrite Ee in Hesc. inversion Hesc as [|? ? Hy He']; subst x0 l.
      apply escaped_facts in Hy as (Hy1 & Hy2 & Hy3).
      subst vt. unfold print_value in *. rewrite Ee in *. cbn [app]. rewrite strspn_eq_one by done.
      replace (Z.of_nat (length pre) + Z.of_nat (length n) + 1) with (Z.of_nat (length (pre ++ n ++ ["="%char]))) by (rewrite !length_app; simpl; lia).
      rewrite (char_of_app q (pre ++ n ++ ["="%char]) y (e ++ tail)) by (done || rewrite Hq; by simplify_list_eq).
      cbn [obind]. change (1 <=? 0) with false. rewrite bool_decide_false by done. cbn [orb].
      replace (Z.of_nat (length (n ++ "="%char :: y :: e)) - (Z.of_nat (length (pre ++ n ++ ["="%char])) - Z.of_nat (length pre)))
        with (Z.of_nat (length (y :: e))) by (rewrite !length_app; simpl; lia).
      rewrite (proj2 (Z.leb_gt _ _)) by (simpl; lia).
      assert (q = (pre ++ n ++ ["="%char]) ++ (y :: e) ++ tail) as -> by (rewrite Hq; by simplify_list_eq).
      rewrite read_at_split by done. cbn [obind].
      rewrite frontBackTrim_id by (eapply Forall_impl; [exact Hesc|]; intros c Hc; apply escaped_facts in Hc; tauto).
      rewrite <- Ee, escape_roundtrip by done. cbn [obind]. rewrite cstr_id by done. by rewrite Htr.
  - destruct v' as [|x v']; subst vt; [left; by rewrite app_nil_r|right]. split; [by eexists|].
    rewrite !length_app. simpl. lia.
  - rewrite Htl. by destruct vt.
Qed.

Lemma print_param_field sep p :
  wf_param sep p -> escaped sep = false -> sep <> "="%char ->
  print_param p <> [] /\ sep ∉ print_param p /\ nul_free (print_param p).
Proof.
  destruct p as [n v]. intros (Hne & Hn & Hs & v' & Hv & Hvn) Hsep Heq. simpl in *. subst v. unfold print_param, value_of. simpl.
  change (id v') with v'.
  assert (Forall (fun c => c <> sep /\ c <> NUL) (print_value v')) as Hpv.
  { unfold print_value. destruct v' as [|x v']; [constructor|]. constructor; [done|].
    eapply Forall_impl; [apply escape_escaped|]. intros c Hc. split; [congruence|]. apply escaped_facts in Hc. tauto. }
  split_and!.
  - by destruct n.
  - rewrite elem_of_app. intros [?|Hin]; [done|]. rewrite Forall_forall in Hpv. by destruct (Hpv _ Hin).
  - apply Forall_app. split.
    + eapply Forall_impl; [exact Hn|]. intros c Hc. apply param_char_facts in Hc. tauto.
    + eapply Forall_impl; [exact Hpv|]. by intros c [].
Qed.

Lemma cgi_loop_printed sep ps : forall fuel pre s0 q,
  ps <> [] -> Forall (wf_param sep) ps -> escaped sep = false -> sep <> "="%char -> sep <> NUL ->
  (s0 = [] \/ s0 = [sep]) -> (length ps <= fuel)%nat ->
  q = pre ++ s0 ++ join_fields sep (print_param <$> ps) ++ [NUL] ->
  cgi_loop fuel q (Z.of_nat (length q) - 1) (c_str [sep]) (c_str "=") (Z.of_nat (length pre)) = Ok ps.
Proof.
  induction ps as [|p ps IH]; intros fuel pre s0 q Hne Hwf Hsep Heq Hnul Hs0 Hfuel Hq; [done|].
  inversion Hwf as [|? ? Hp Hps]; subst x l. destruct fuel as [|fuel]; [simpl in Hfuel; lia|].
  destruct (print_param_field sep p Hp Hsep Heq) as (Hf1 & Hf2 & Hf3).
  set (f := print_param p) in *.
  assert (exists tail, q = pre ++ s0 ++ f ++ tail /\ tail <> []
    /\ field_end sep (Z.of_nat (length q) - 1 - Z.of_nat (length pre)) (length (s0 ++ f)) tail
    /\ (exists c r, tail = c :: r /\ c <> "="%char /\ (ps = [] <-> c = NUL))
    /\ (ps <> [] -> tail = [sep] ++ join_fields sep (print_param <$> ps) ++ [NUL])) as (tail & Ht & Htn & He & (c & r & Hc & Hce & Hcn) & Hrest).
  { destruct ps as [|p' ps].
    - exists [NUL]. rewrite Hq. cbn [fmap list_fmap join_fields]. fold f. split_and!; try done; [left; rewrite !length_app; simpl; lia|by exists NUL, []].
    - exists (sep :: join_fields sep (print_param <$> (p' :: ps)) ++ [NUL]). rewrite Hq. cbn [fmap list_fmap join_fields]. fold f.
      split_and!; try done; [by simplify_list_eq| |by eexists _, _].
      right. split; [by eexists|]. rewrite !length_app. cbn [length]. rewrite ?length_app. lia. }
  cbn [cgi_loop]. rewrite Nat2Z.id. rewrite Ht at 1. rewrite drop_app_length.
  rewrite (getSubField_first sep s0 f tail) by done. cbn [obind].
  rewrite (proj2 (Z.ltb_lt _ _)) by (destruct f; [done|simpl; lia]).
  replace (Z.of_nat (length pre) + Z.of_nat (length s0)) with (Z.of_nat (length (pre ++ s0))) by (rewrite length_app; lia).
  unfold f. rewrite (cgi_pair_printed sep p q (pre ++ s0) tail) by first [done | rewrite Ht; by simplify_list_eq | by eauto].
  fold f. cbn [obind].
  rewrite (char_of_app q (pre ++ s0 ++ f) c r) by first [rewrite !length_app; lia | rewrite Ht, Hc; by simplify_list_eq].
  cbn [obind andb]. destruct ps as [|p' ps].
  - rewrite bool_decide_true by (by apply Hcn). done.
  - rewrite bool_decide_false by (by intros ?%Hcn). cbn [negb].
    replace (Z.of_nat (length pre) + Z.of_nat (length (s0 ++ f))) with (Z.of_nat (length (pre ++ s0 ++ f))) by (rewrite !length_app; lia).
    rewrite (IH fuel (pre ++ s0 ++ f) [sep] q); try done; [by right|simpl in *; lia|].
    rewrite Ht, (Hrest ltac:(done)). by simplify_list_eq.
Qed.

Lemma join_cons sep f fs : fs <> [] -> join_fields sep (f :: fs) = f ++ sep :: join_fields sep fs.
Proof. by destruct fs. Qed.

Lemma length_join sep fs : Forall (fun f => f <> []) fs -> (length fs <= length (join_fields sep fs))%nat.
Proof.
  induction 1 as [|f fs Hf Hfs IH]; [simpl; lia|]. destruct f as [|x f]; [done|].
  destruct fs as [|g fs]; [simpl; lia|]. rewrite join_cons, length_app by done. simpl in *. lia.
Qed.

Lemma join_nul_free sep fs : sep <> NUL -> Forall nul_free fs -> nul_free (join_fields sep fs).
Proof.
  intros Hs. induction 1 as [|f fs Hf Hfs IH]; [constructor|]. destruct fs as [|g fs]; [done|].
  rewrite join_cons by done. apply Forall_app. split; [done|]. by constructor.
Qed.

(** A printed parameter string is parsed to the parameters that were
    printed, whatever the values. *)
Theorem cgi_roundtrip sep ps :
  ps <> [] -> Forall (wf_param sep) ps -> escaped sep = false -> sep <> "="%char -> sep <> NUL ->
  parseCgiVariables (c_str (join_fields sep (print_param <$> ps))) (c_str [sep]) (c_str "=") = Ok ps.
Proof.
  intros Hne Hwf Hsep Heq Hnul. set (t := join_fields sep (print_param <$> ps)).
  assert (Forall (fun f => nul_free f /\ f <> []) (print_param <$> ps)) as Hfs.
  { apply Forall_fmap. eapply Forall_impl; [exact Hwf|]. intros p Hp. simpl.
    destruct (print_param_field sep p Hp Hsep Heq) as (? & _ & ?). done. }
  assert (nul_free t) as Ht by (apply join_nul_free; [done|eapply Forall_impl; [exact Hfs|]; by intros f []]).
  assert (length ps <= length t)%nat as Hl.
  { rewrite <- (length_fmap print_param ps). apply length_join. eapply Forall_impl; [exact Hfs|]. by intros f []. }
  unfold parseCgiVariables, c_str at 1. rewrite strlen_terminated, cstr_id by done. cbn [obind].
  pose proof (cgi_loop_printed sep ps (S (length (c_str t))) [] [] (c_str t) Hne Hwf Hsep Heq Hnul (or_introl eq_refl)) as H.
  replace (Z.of_nat (length (c_str t)) - 1) with (Z.of_nat (length t)) in H by (unfold c_str; rewrite length_app; simpl; lia).
  apply H; [|done]. unfold c_str. rewrite length_app. lia.
Qed.

Lemma cgi_roundtrip_witness :
  parseCgiVariables (c_str (join_fields "&" (print_param <$>
    [(bytes "Expires", Some (bytes "30")); (bytes "body", Some (bytes "a=b&c d")); (bytes "x", Some [])])))
    (c_str ["&"%char]) (c_str "=")
  = Ok [(bytes "Expires", Some (bytes "30")); (bytes "body", Some (bytes "a=b&c d")); (bytes "x", Some [])].
Proof.
  apply (cgi_roundtrip "&"); try done.
  assert (forall p, bool_decide (fst p <> []) && forallb name_char (fst p) && bool_decide ("&"%char ∉ fst p)
    && match snd p with Some v => bool_decide (nul_free v) | None => false end = true -> wf_param "&" p) as H.
  { intros [n [v|]]; simpl; rewrite !andb_true_iff, !bool_decide_eq_true; [|by intros [_ ?]].
    intros [[[H1 H2] H3] H4]. split_and!; [done| |done|by eauto].
    rewrite forallb_forall in H2. apply Forall_forall. intros x Hx. by apply H2, list_elem_of_In. }
  repeat (constructor; [apply H; vm_compute; reflexivity|]). constructor.
Defined.
