(* ===== verification/Url.v ===== *)
(** * Url: SIP and other URLs

    Model of [sipXtackLib/src/net/Url.cpp]: the patterns, the parser
    [parseString] with its phases in the order of the code, the printers
    [getUri] and [toString], and the parameter lists with their lazy parsing.
    The UtlString members are their contents; RegEx::MatchString appends to
    them.  A [const char*] argument is the text before its terminator. *)
From Stdlib Require Import ZArith Lia Ascii String.
From stdpp Require Import base list strings.
From S2P Require Import Prelude UtlString UtlStringRefine NameValuePair NameValueTokenizer Format Pcre UrlCodec.
Local Open Scope Z_scope.

(** ** Patterns *)

(** The characters of a class *)
Definition one_of (l : list ascii) (c : ascii) : bool := bool_decide (c ∈ l).
Definition not_of (l : list ascii) (c : ascii) : bool := negb (bool_decide (c ∈ l)).

Definition DQUOTE : ascii := "034"%char.
Definition BACKSLASH : ascii := "092"%char.
Definition NEWLINE_CHAR : ascii := "010"%char.

Definition SWS : pat := PStar (PCls isspace).
Definition LWS : pat := PPlus (PCls isspace).
(** [.]: any character but a newline *)
Definition any_char : ascii -> bool := not_of [NEWLINE_CHAR].

Definition token_char (c : ascii) : bool := isalnum c || one_of ".!%*_+`'~-" c.
Definition SIP_TOKEN : pat := PPoss token_char.

Fixpoint PSeqs (l : list pat) : pat := match l with [] => PEps | [p] => p | p :: l' => PSeq p (PSeqs l') end.
Fixpoint PAlts (l : list pat) : pat := match l with [] => PEps | [p] => p | p :: l' => PAlt p (PAlts l') end.

(** [SIP_TOKEN(?:\s+SIP_TOKEN)*] and the body of a quoted string *)
Definition token_seq : pat := PSeq SIP_TOKEN (PStar (PSeq LWS SIP_TOKEN)).
Definition quoted_body : pat :=
  PStar (PAlt (PPoss (not_of [BACKSLASH; DQUOTE])) (PSeq (PChr BACKSLASH) (PCls any_char))).

Definition SipTokenSequenceOrQuoted : pat :=
  PSeqs [PBol; PAlt token_seq (PSeqs [PChr DQUOTE; quoted_body; PChr DQUOTE]); PEol].

Definition DisplayName : pat :=
  PSeqs [SWS;
         PAlt (PGroup 1 token_seq) (PSeqs [PChr DQUOTE; PGroup 2 quoted_body; PChr DQUOTE]);
         PLook (PSeq SWS (PChr "<"))].

Definition AngleBrackets : pat := PSeqs [SWS; PChr "<"; PGroup 1 (PPlus (PCls (not_of ">"))); PChr ">"].

Definition SUPPORTED_SCHEMES : pat :=
  PAlts [PGroup 1 (PLitI "UNKNOWN-URL-SCHEME"); PGroup 2 (PLitI "sip"); PGroup 3 (PLitI "sips");
         PGroup 4 (PLitI "http"); PGroup 5 (PLitI "https"); PGroup 6 (PLitI "ftp"); PGroup 7 (PLitI "file");
         PGroup 8 (PLitI "mailto")].

Definition SupportedScheme : pat := PSeq SUPPORTED_SCHEMES (PChr ":").
Definition SupportedSchemeSWS : pat := PSeqs [SWS; SUPPORTED_SCHEMES; SWS; PChr ":"].
Definition SupportedSchemeExact : pat := PSeqs [PBol; SUPPORTED_SCHEMES; PEol].

Definition hex_pair : pat := PSeqs [PChr "%"; PCls isxdigit; PCls isxdigit].
Definition user_char (c : ascii) : bool := isalnum c || one_of "_.!~*'()&=+$,;?/-" c.
Definition password_char (c : ascii) : bool := isalnum c || one_of "_.!~*'()&=+$,-" c.

Definition UsernameAndPassword : pat :=
  PSeqs [PGroup 1 (PPlus (PAlt (PPoss user_char) hex_pair));
         POpt (PSeq (PChr ":") (PGroup 2 (PStar (PAlt (PPoss password_char) hex_pair))));
         PChr "@"].

Definition label_char (c : ascii) : bool := isalnum c || one_of "-" c.
Definition DOMAIN_LABEL : pat := PSeq (PCls isalnum) (POpt (PSeq (PStar (PCls label_char)) (PCls isalnum))).
Definition dns_name : pat := PSeqs [PStar (PSeq DOMAIN_LABEL (PChr ".")); DOMAIN_LABEL; POpt (PChr ".")].
(** [x{1,n}] *)
Definition PRange (n : nat) (c : ascii -> bool) : pat := PSeq (PCls c) (PUpTo (n - 1) c).
Definition ipv4_address : pat :=
  PSeqs [PRange 3 isdigit; PChr "."; PRange 3 isdigit; PChr "."; PRange 3 isdigit; PChr "."; PRange 3 isdigit].
Definition ipv6_char (c : ascii) : bool := isxdigit c || one_of ":." c.
Definition ipv6_address : pat := PSeqs [PChr "["; PPoss ipv6_char; PChr "]"].
Definition host_address : pat := PAlts [dns_name; ipv4_address; ipv6_address].

Definition HostAndPort : pat := PSeq (PGroup 1 host_address) (POpt (PSeq (PChr ":") (PGroup 2 (PRange 6 isdigit)))).

Definition path_char (c : ascii) : bool := not_of "?," c && negb (isspace c).
Definition UrlPath : pat := PSeq (PGroup 1 (PPoss path_char)) (POpt (PCls (one_of "?,"))).
Definition url_param_char : ascii -> bool := not_of "?>,".
Definition UrlParams : pat := PSeqs [SWS; PChr ";"; PGroup 1 (PPoss url_param_char)].
Definition FieldParamName : pat := PSeqs [SWS; PChr ";"; SWS; PGroup 1 SIP_TOKEN; SWS].
Definition field_value : pat := PAlts [SIP_TOKEN; dns_name; ipv4_address; ipv6_address].
Definition FieldParamEqualsUnquotedValue : pat := PSeqs [PChr "="; SWS; PGroup 1 field_value].
Definition FieldParamValueOkUnquoted : pat := PSeqs [PBol; field_value; PEol].
(** The class in the source is written with two backslashes, which leave one in the
    pattern and escape the quote: it excludes the quote only. *)
Definition FieldParamEqualsQuotedValue : pat :=
  PSeqs [PChr "="; SWS;
         PGroup 1 (PSeqs [PChr DQUOTE;
                          PStar (PAlt (PPoss (not_of [DQUOTE])) (PSeq (PChr BACKSLASH) (PCls any_char)));
                          PChr DQUOTE])].
Definition header_char : ascii -> bool := not_of ",>".
Definition HeaderOrQueryParams : pat := PSeqs [SWS; PChr "?"; PGroup 1 (PPoss header_char)].
Definition AllDigits : pat :=
  PSeqs [PBol; POpt (PChr "+"); PPoss (fun c => isdigit c || one_of "*" c); PEol].
Definition CommaSeparator : pat := PSeqs [SWS; PChr ","; SWS].
Definition End_ : pat := PEol.
Definition EndComma : pat := PAlt PEol (PChr ",").
Definition EndSws : pat := PSeq SWS PEol.
Definition EndSwsComma : pat := PAlt (PSeq SWS PEol) (PSeqs [SWS; PChr ","; SWS]).
Definition EndUrl : pat := PSeq SWS PEol.

(** ** The object *)

Inductive Scheme :=
| UnknownUrlScheme | SipUrlScheme | SipsUrlScheme | HttpUrlScheme | HttpsUrlScheme | FtpUrlScheme | FileUrlScheme
| MailtoUrlScheme | NUM_SUPPORTED_URL_SCHEMES.

#[global] Instance Scheme_eq_dec : EqDecision Scheme.
Proof. solve_decision. Defined.

Inductive UriForm := NameAddr | AddrSpec.

#[global] Instance UriForm_eq_dec : EqDecision UriForm.
Proof. solve_decision. Defined.

(** The value of [static_cast<Scheme>(n)] *)
Definition scheme_of (n : nat) : Scheme :=
  match n with
  | 0%nat => UnknownUrlScheme | 1%nat => SipUrlScheme | 2%nat => SipsUrlScheme | 3%nat => HttpUrlScheme
  | 4%nat => HttpsUrlScheme | 5%nat => FtpUrlScheme | 6%nat => FileUrlScheme | 7%nat => MailtoUrlScheme
  | _ => NUM_SUPPORTED_URL_SCHEMES
  end.

Definition UnrecognizableUrlScheme : Scheme := NUM_SUPPORTED_URL_SCHEMES.
Definition SUPPORTED_SCHEMES_FIRST_MATCHES : nat := 2.

(** schemeName with the table SchemeName *)
Definition schemeName (s : Scheme) : list ascii :=
  match s with
  | SipUrlScheme => "sip" | SipsUrlScheme => "sips" | HttpUrlScheme => "http" | HttpsUrlScheme => "https"
  | FtpUrlScheme => "ftp" | FileUrlScheme => "file" | MailtoUrlScheme => "mailto"
  | UnknownUrlScheme | NUM_SUPPORTED_URL_SCHEMES => "UNKNOWN-URL-SCHEME"
  end.

Definition PORT_NONE : Z := -1.
Definition portIsValid (p : Z) : bool := (1 <=? p) && (p <=? 65535).

Record Url := mkUrl {
  mScheme : Scheme; mDisplayName : list ascii; mUserId : list ascii; mPassword : list ascii; mPasswordSet : bool;
  mHostAddress : list ascii; mHostPort : Z; mPath : list ascii;
  mRawUrlParameters : list ascii; mpUrlParameters : option (list param);
  mRawHeaderOrQueryParameters : list ascii; mpHeaderOrQueryParameters : option (list param);
  mpFieldParameters : option (list param); mAngleBracketsIncluded : bool }.

Definition set_scheme (s : Scheme) (u : Url) : Url :=
  mkUrl s (mDisplayName u) (mUserId u) (mPassword u) (mPasswordSet u) (mHostAddress u) (mHostPort u) (mPath u)
    (mRawUrlParameters u) (mpUrlParameters u) (mRawHeaderOrQueryParameters u) (mpHeaderOrQueryParameters u)
    (mpFieldParameters u) (mAngleBracketsIncluded u).
Definition set_display (d : list ascii) (u : Url) : Url :=
  mkUrl (mScheme u) d (mUserId u) (mPassword u) (mPasswordSet u) (mHostAddress u) (mHostPort u) (mPath u)
    (mRawUrlParameters u) (mpUrlParameters u) (mRawHeaderOrQueryParameters u) (mpHeaderOrQueryParameters u)
    (mpFieldParameters u) (mAngleBracketsIncluded u).
Definition set_user (user password : list ascii) (passwordSet : bool) (u : Url) : Url :=
  mkUrl (mScheme u) (mDisplayName u) user password passwordSet (mHostAddress u) (mHostPort u) (mPath u)
    (mRawUrlParameters u) (mpUrlParameters u) (mRawHeaderOrQueryParameters u) (mpHeaderOrQueryParameters u)
    (mpFieldParameters u) (mAngleBracketsIncluded u).
Definition set_host (host : list ascii) (port : Z) (u : Url) : Url :=
  mkUrl (mScheme u) (mDisplayName u) (mUserId u) (mPassword u) (mPasswordSet u) host port (mPath u)
    (mRawUrlParameters u) (mpUrlParameters u) (mRawHeaderOrQueryParameters u) (mpHeaderOrQueryParameters u)
    (mpFieldParameters u) (mAngleBracketsIncluded u).
Definition set_path (path : list ascii) (u : Url) : Url :=
  mkUrl (mScheme u) (mDisplayName u) (mUserId u) (mPassword u) (mPasswordSet u) (mHostAddress u) (mHostPort u) path
    (mRawUrlParameters u) (mpUrlParameters u) (mRawHeaderOrQueryParameters u) (mpHeaderOrQueryParameters u)
    (mpFieldParameters u) (mAngleBracketsIncluded u).
Definition set_url_params (raw : list ascii) (ps : option (list param)) (u : Url) : Url :=
  mkUrl (mScheme u) (mDisplayName u) (mUserId u) (mPassword u) (mPasswordSet u) (mHostAddress u) (mHostPort u) (mPath u)
    raw ps (mRawHeaderOrQueryParameters u) (mpHeaderOrQueryParameters u) (mpFieldParameters u) (mAngleBracketsIncluded u).
Definition set_header_params (raw : list ascii) (ps : option (list param)) (u : Url) : Url :=
  mkUrl (mScheme u) (mDisplayName u) (mUserId u) (mPassword u) (mPasswordSet u) (mHostAddress u) (mHostPort u) (mPath u)
    (mRawUrlParameters u) (mpUrlParameters u) raw ps (mpFieldParameters u) (mAngleBracketsIncluded u).
Definition set_field_params (ps : option (list param)) (u : Url) : Url :=
  mkUrl (mScheme u) (mDisplayName u) (mUserId u) (mPassword u) (mPasswordSet u) (mHostAddress u) (mHostPort u) (mPath u)
    (mRawUrlParameters u) (mpUrlParameters u) (mRawHeaderOrQueryParameters u) (mpHeaderOrQueryParameters u)
    ps (mAngleBracketsIncluded u).
Definition set_brackets (b : bool) (u : Url) : Url :=
  mkUrl (mScheme u) (mDisplayName u) (mUserId u) (mPassword u) (mPasswordSet u) (mHostAddress u) (mHostPort u) (mPath u)
    (mRawUrlParameters u) (mpUrlParameters u) (mRawHeaderOrQueryParameters u) (mpHeaderOrQueryParameters u)
    (mpFieldParameters u) b.

(** removeUrlParameters leaves the raw text when there is a list; there is
    never both. *)
Definition removeUrlParameters (u : Url) : Url :=
  match mpUrlParameters u with
  | Some _ => set_url_params (mRawUrlParameters u) None u
  | None => set_url_params [] None u
  end.
Definition removeHeaderParameters (u : Url) : Url := set_header_params [] None u.
Definition removeFieldParameters (u : Url) : Url := set_field_params None u.
Definition removeParameters (u : Url) : Url := removeHeaderParameters (removeFieldParameters (removeUrlParameters u)).

Definition reset (u : Url) : Url :=
  removeParameters (set_brackets false (set_path [] (set_host [] PORT_NONE (set_user [] [] false
    (set_display [] (set_scheme SipUrlScheme u)))))).

(** A new object after its member initializers and [reset()]. *)
Definition Url_default : Url := mkUrl SipUrlScheme [] [] [] false [] PORT_NONE [] [] None [] None None false.

(** ** Field parameter values *)

(** Url::gen_value_unescape; white space in front of the value is counted but not
    written, so the result begins with as many uninitialised bytes. *)
Fixpoint unquote_loop (text : list ascii) : list ascii :=
  match text with
  | [] => []
  | c :: text' =>
      if decide (c = BACKSLASH) then
        match text' with [] => [] | d :: text'' => d :: unquote_loop text'' end
      else if decide (c = DQUOTE) then []
      else c :: unquote_loop text'
  end.

Definition gen_value_unescape (fill : nat -> ascii) (escapedText : list ascii) : list ascii :=
  let '(ws, text) := span (one_of [" "%char; "009"%char]) (cstr escapedText) in
  let body := match text with
              | c :: text' => if decide (c = DQUOTE) then unquote_loop text' else text
              | [] => []
              end in
  put_back escapedText ((fill <$> seq 0 (length ws)) ++ body).

Section UrlParser.
Context (fill : nat -> ascii) (pcre_exec : pat -> list ascii -> nat -> option Match).

(** Url::gen_value_escape: a quote or a backslash is appended with a length
    of two from a single [char]. *)
Definition gen_value_escape (unEscapedText : list ascii) : outcome (list ascii) :=
  match pcre_exec FieldParamValueOkUnquoted (cstr unEscapedText) 0 with
  | Some _ => Ok unEscapedText
  | None =>
      if existsb (one_of [DQUOTE; BACKSLASH]) (cstr unEscapedText) then UB
      else Ok (DQUOTE :: cstr unEscapedText ++ [DQUOTE])
  end.

(** ** Lazy parsing of parameters *)

(** parseUrlParameters, parseHeaderOrQueryParameters; the result of the
    functions is whether there is a list afterwards. *)
Definition parseUrlParameters (u : Url) : outcome Url :=
  match mpUrlParameters u, mRawUrlParameters u with
  | None, _ :: _ =>
      let! ps := parseCgiVariables (c_str (mRawUrlParameters u)) (c_str ";") (c_str "=") in
      Ok (set_url_params [] (Some ps) u)
  | _, _ => Ok u
  end.
Definition parseHeaderOrQueryParameters (u : Url) : outcome Url :=
  match mpHeaderOrQueryParameters u, mRawHeaderOrQueryParameters u with
  | None, _ :: _ =>
      let! ps := parseCgiVariables (c_str (mRawHeaderOrQueryParameters u)) (c_str "&") (c_str "=") in
      Ok (set_header_params [] (Some ps) u)
  | _, _ => Ok u
  end.

(** ** parseString *)

Definition here : pat -> list ascii -> nat -> option Match := SearchAt_here pcre_exec.

(** [re.MatchString(&str, i)] appends what matched. *)
Definition append_match (s : list ascii) (m : Match) (i : nat) (str : list ascii) : list ascii :=
  str ++ default [] (MatchString s m i).

(** RegEx::AfterMatch and RegEx::MatchStart of a substring *)
Definition AfterMatch (m : Match) (i : nat) : outcome nat :=
  if (i <? Matches m)%nat then match cap m i with Some c => Ok (snd c) | None => UB end else UB.
Definition MatchStart (m : Match) (i : nat) : outcome nat :=
  if (i <? Matches m)%nat then match cap m i with Some c => Ok (fst c) | None => UB end else AssertFail.

(** The display name, if there is one. *)
Definition parse_display (s : list ascii) (u : Url) (workingOffset : nat) : Url * nat :=
  let u := set_display [] u in
  match here DisplayName s workingOffset with
  | Some m =>
      (match Matches m with
       | 2%nat => set_display (append_match s m 1 (mDisplayName u)) u
       | 3%nat => set_display (append_match s m 2 (mDisplayName u ++ [DQUOTE]) ++ [DQUOTE]) u
       | _ => u
       end, mt_end m)
  | None => (u, workingOffset)
  end.

(** The angle brackets: workingOffset and afterAngleBrackets. *)
Definition parse_brackets (s : list ascii) (workingOffset : nat) : outcome (nat * option nat) :=
  match here AngleBrackets s workingOffset with
  | Some m => let! i := MatchStart m 1 in Ok (i, Some (mt_end m))
  | None => Ok (workingOffset, None)
  end.

Definition parse_scheme (uriForm : UriForm) (s : list ascii) (workingOffset : nat) : Scheme * nat :=
  match here (if decide (uriForm = AddrSpec) then SupportedScheme else SupportedSchemeSWS) s workingOffset with
  | Some m => (scheme_of (Matches m - SUPPORTED_SCHEMES_FIRST_MATCHES), mt_end m)
  | None => (UnrecognizableUrlScheme, workingOffset)
  end.

(** The schemes with [//] in front of the host and a path behind it. *)
Definition has_path (scheme : Scheme) : bool :=
  match scheme with FileUrlScheme | FtpUrlScheme | HttpUrlScheme | HttpsUrlScheme => true | _ => false end.
Definition is_sip (scheme : Scheme) : bool :=
  match scheme with SipUrlScheme | SipsUrlScheme => true | _ => false end.

(** [strncmp("//", urlString + workingOffset, 2) == 0] *)
Definition skip_slashes (scheme : Scheme) (s : list ascii) (workingOffset : nat) : nat :=
  if has_path scheme && bool_decide (take 2 (drop workingOffset s) = bytes "//") then workingOffset + 2 else workingOffset.

Definition parse_user (s : list ascii) (u : Url) (workingOffset : nat) : Url * nat :=
  if decide (mScheme u = FileUrlScheme) then (u, workingOffset)
  else match here UsernameAndPassword s workingOffset with
       | Some m =>
           (set_user (append_match s m 1 (mUserId u)) (append_match s m 2 (mPassword u)) (mPasswordSet u) u, mt_end m)
       | None => (u, workingOffset)
       end.

Definition parse_host (s : list ascii) (u : Url) (workingOffset : nat) : outcome (Url * nat) :=
  match here HostAndPort s workingOffset with
  | Some m =>
      let! port := match MatchString s m 2 with Some p => atoi p | None => Ok (mHostPort u) end in
      let u := set_host (append_match s m 1 (mHostAddress u)) port u in
      Ok (if decide (mScheme u = UnrecognizableUrlScheme) then set_scheme SipUrlScheme u else u, mt_end m)
  | None =>
      let u := if decide (mScheme u = FileUrlScheme) then u
               else set_user [] [] (mPasswordSet u) (set_display [] (set_scheme UnknownUrlScheme u)) in
      Ok (if decide (mScheme u = UnrecognizableUrlScheme) then set_scheme UnknownUrlScheme u else u, workingOffset)
  end.

(** The path, or the url parameters. *)
Definition parse_path (uriForm : UriForm) (after : option nat) (s : list ascii) (u : Url) (workingOffset : nat)
    : outcome (Url * nat) :=
  if has_path (mScheme u) then
    match here UrlPath s workingOffset with
    | Some m => let! e := AfterMatch m 1 in Ok (set_path (append_match s m 1 (mPath u)) u, e)
    | None => Ok (u, workingOffset)
    end
  else if is_sip (mScheme u) && (bool_decide (uriForm = AddrSpec) || bool_decide (after <> None)) then
    match here UrlParams s workingOffset with
    | Some m =>
        let! e := AfterMatch m 1 in
        Ok (set_url_params (append_match s m 1 (mRawUrlParameters u)) (mpUrlParameters u) u, e)
    | None => Ok (u, workingOffset)
    end
  else Ok (u, workingOffset).

Definition parse_headers (s : list ascii) (u : Url) (workingOffset : nat) : Url * nat :=
  match here HeaderOrQueryParams s workingOffset with
  | Some m =>
      (set_header_params (append_match s m 1 (mRawHeaderOrQueryParameters u)) (mpHeaderOrQueryParameters u) u, mt_end m)
  | None => (u, workingOffset)
  end.

(** The loop over the field parameters. *)
Fixpoint field_loop (fuel : nat) (s : list ascii) (u : Url) (workingOffset : nat) : outcome (Url * nat) :=
  if decide (mScheme u = UnknownUrlScheme) then Ok (u, workingOffset)
  else match fuel with
  | O => UB
  | S fuel' =>
      match here EndUrl s workingOffset with
      | Some m => Ok (u, mt_end m)
      | None =>
          match here CommaSeparator s workingOffset with
          | Some _ => Ok (u, workingOffset)
          | None =>
              match here FieldParamName s workingOffset with
              | Some m =>
                  let name := append_match s m 1 [] in
                  let workingOffset := mt_end m in
                  let '(value, workingOffset) :=
                    match here FieldParamEqualsUnquotedValue s workingOffset with
                    | Some m => (append_match s m 1 [], mt_end m)
                    | None =>
                        match here FieldParamEqualsQuotedValue s workingOffset with
                        | Some m => (append_match s m 1 [], mt_end m)
                        | None => ([], workingOffset)
                        end
                    end in
                  let name := gen_value_unescape fill name in
                  let value := gen_value_unescape fill value in
                  field_loop fuel' s
                    (set_field_params (Some (default [] (mpFieldParameters u) ++ [(cstr name, Some (cstr value))])) u)
                    workingOffset
              | None => Ok (set_scheme UnknownUrlScheme u, workingOffset)
              end
          end
      end
  end.

Definition parse_fields (uriForm : UriForm) (after : option nat) (s : list ascii) (u : Url) (workingOffset : nat)
    : outcome (Url * nat) :=
  if decide (uriForm = NameAddr) then
    let '(u, workingOffset) :=
      match after with
      | Some a => if (workingOffset + 1 =? a)%nat then (u, a) else (set_scheme UnknownUrlScheme u, workingOffset)
      | None => (u, workingOffset)
      end in
    field_loop (S (length s)) s u workingOffset
  else Ok (u, workingOffset).

(** What may follow, and the text after it when the caller asks for it. *)
Definition parse_end (uriForm : UriForm) (nextUri : bool) (s : list ascii) (u : Url) (workingOffset : nat)
    : Url * list ascii :=
  let test := if decide (uriForm = AddrSpec) then (if nextUri then EndComma else End_)
              else (if nextUri then EndSwsComma else EndSws) in
  match here test s workingOffset with
  | Some m => (u, if nextUri then AfterMatchString s m else [])
  | None => (set_scheme UnknownUrlScheme u, [])
  end.

(** Url::parseString: the object afterwards and *nextUri; the result of the
    function is whether the scheme is known. *)
Definition parseString (s : list ascii) (uriForm : UriForm) (nextUri : bool) (u : Url) : outcome (Url * list ascii) :=
  let! (u, workingOffset, after) :=
    (if decide (uriForm = AddrSpec) then Ok (set_brackets false u, 0%nat, None)
     else
       let '(u, workingOffset) := parse_display s u 0 in
       let! (workingOffset, after) := parse_brackets s workingOffset in
       Ok (u, workingOffset, after)) in
  let '(scheme, workingOffset) := parse_scheme uriForm s workingOffset in
  let u := set_scheme scheme u in
  let workingOffset := skip_slashes scheme s workingOffset in
  let '(u, workingOffset) := parse_user s u workingOffset in
  let! (u, workingOffset) := parse_host s u workingOffset in
  let! (u, workingOffset) := parse_path uriForm after s u workingOffset in
  let! (u, workingOffset) :=
    (if decide (mScheme u = UnknownUrlScheme) then Ok (u, workingOffset)
     else
       let '(u, workingOffset) := parse_headers s u workingOffset in
       parse_fields uriForm after s u workingOffset) in
  if decide (mScheme u = UnknownUrlScheme) then Ok (u, [])
  else Ok (parse_end uriForm nextUri s u workingOffset).

Definition parse_ok (u : Url) : bool := bool_decide (mScheme u <> UnknownUrlScheme).

(** fromString, the constructors from a string, and operator=(const char* ) *)
Definition fromString (s : list ascii) (uriForm : UriForm) (nextUri : bool) (u : Url) : outcome (Url * list ascii) :=
  parseString (cstr s) uriForm nextUri (reset u).
Definition Url_of_string (s : list ascii) (uriForm : UriForm) : outcome Url :=
  match cstr s with
  | [] => Ok Url_default
  | t => let! r := parseString t uriForm false Url_default in Ok (fst r)
  end.
End UrlParser.

(** ** Printing *)

(** [;name=value] of every url parameter *)
Definition print_url_param (p : param) : list ascii := ";"%char :: print_param p.

(** [?name=value&name=value] *)
Fixpoint print_header_params (firstHeader : bool) (ps : list param) : list ascii :=
  match ps with
  | [] => []
  | p :: ps' => (if firstHeader then "?"%char else "&"%char) :: print_param p ++ print_header_params false ps'
  end.

Definition print_port (port : Z) : list ascii := ":"%char :: fmt_d port.

(** Url::getUri, which parses the parameters that are still raw. *)
Definition getUri (u : Url) : outcome (list ascii * Url) :=
  let t := schemeName (mScheme u) ++ bytes ":" ++ (if has_path (mScheme u) then bytes "//" else []) in
  let t := t ++ (if decide (mScheme u = FileUrlScheme) then []
                 else match mUserId u with
                      | [] => []
                      | user => user ++ (if negb (bool_decide (mPassword u = [])) || mPasswordSet u
                                         then ":"%char :: mPassword u else []) ++ bytes "@"
                      end) in
  let t := t ++ mHostAddress u ++ (if portIsValid (mHostPort u) then print_port (mHostPort u) else []) in
  let t := t ++ (if has_path (mScheme u) then mPath u else []) in
  let! u := parseUrlParameters u in
  let t := t ++ default [] (mpUrlParameters u) ≫= print_url_param in
  let! u := parseHeaderOrQueryParameters u in
  Ok (t ++ print_header_params true (default [] (mpHeaderOrQueryParameters u)), u).

Definition have (ps : option (list param)) : bool := match ps with Some (_ :: _) => true | _ => false end.

Section UrlPrinter.
Context (pcre_exec : pat -> list ascii -> nat -> option Match).

Fixpoint print_field_params (ps : list param) : outcome (list ascii) :=
  match ps with
  | [] => Ok []
  | p :: ps' =>
      let! v := match value_of p with
                | [] => Ok []
                | v => let! e := gen_value_escape pcre_exec v in Ok ("="%char :: e)
                end in
      let! rest := print_field_params ps' in
      Ok (";"%char :: fst p ++ v ++ rest)
  end.

(** Url::toString *)
Definition toString (u : Url) : outcome (list ascii * Url) :=
  let! u := parseUrlParameters u in
  let! u := parseHeaderOrQueryParameters u in
  let isNameAddr :=
    negb (bool_decide (mDisplayName u = [])) || mAngleBracketsIncluded u || have (mpFieldParameters u)
    || (is_sip (mScheme u) && (have (mpUrlParameters u) || have (mpHeaderOrQueryParameters u))) in
  let! (theAddrSpec, u) := getUri u in
  let! fields := print_field_params (default [] (mpFieldParameters u)) in
  Ok (mDisplayName u ++ (if isNameAddr then "<"%char :: theAddrSpec ++ bytes ">" else theAddrSpec) ++ fields, u).

(** Url::isDigitString, getDisplayName, setDisplayName *)
Definition isDigitString (dialed : list ascii) : bool :=
  match pcre_exec AllDigits dialed 0 with Some _ => true | None => false end.
Definition getDisplayName (u : Url) : list ascii :=
  if isDigitString (cstr (mDisplayName u)) then frontBackTrim (mDisplayName u) [DQUOTE] else mDisplayName u.
Definition setDisplayName (displayName : option (list ascii)) (u : Url) : Url :=
  match displayName with
  | Some d => if bool_decide (cstr d <> []) && bool_decide (is_Some (pcre_exec SipTokenSequenceOrQuoted (cstr d) 0))
              then set_display (cstr d) u else set_display [] u
  | None => set_display [] u
  end.

(** Url::scheme *)
Definition scheme (name : list ascii) : Scheme :=
  match pcre_exec SupportedSchemeExact (cstr name) 0 with
  | Some m => scheme_of (Matches m - SUPPORTED_SCHEMES_FIRST_MATCHES)
  | None => UnknownUrlScheme
  end.
Definition setUrlType (urlProtocol : option (list ascii)) (u : Url) : Url :=
  set_scheme (match urlProtocol with Some p => scheme p | None => UnknownUrlScheme end) u.
End UrlPrinter.

(** ** Parameters *)

(** The search of a UtlDList of NameValuePairInsensitive: hash, then
    compareTo. *)
Definition same_name (a b : list ascii) : bool :=
  (hash_upper a 0 =? hash_upper b 0) && (strcasecmp a b =? 0).

Definition find_param (name : list ascii) (ps : list param) : option nat :=
  fst <$> list_find (fun p => same_name (fst p) name = true) ps.

(** The loop that removes matching parameters. *)
Fixpoint remove_loop (fuel : nat) (name : list ascii) (ps : list param) : outcome (list param) :=
  match find_param name ps with
  | Some i => match fuel with O => UB | S fuel' => remove_loop fuel' name (delete i ps) end
  | None => Ok ps
  end.

(** getXParameter(name, value, index): [compareTo(name, ignoreCase)] *)
Fixpoint nth_named (name : list ascii) (index : Z) (ps : list param) : option (list ascii) :=
  match ps with
  | [] => None
  | p :: ps' =>
      if strcasecmp (fst p) name =? 0
      then (if index =? 0 then Some (value_of p) else nth_named name (index - 1) ps')
      else nth_named name index ps'
  end.

(** getXParameter(index, name, value) *)
Definition nth_param (index : Z) (ps : option (list param)) : option (list ascii * list ascii) :=
  if index <? 0 then None
  else (fun p => (fst p, value_of p)) <$> (default [] ps !! Z.to_nat index).

Definition set_param (name : list ascii) (value : option (list ascii)) (ps : list param) : list param :=
  match find_param name ps with
  | Some i => alter (fun p => (fst p, value)) i ps
  | None => ps ++ [(name, Some (default [] value))]
  end.

Definition getUrlParameter (name : list ascii) (index : Z) (u : Url) : outcome (option (list ascii) * Url) :=
  let! u := parseUrlParameters u in Ok (nth_named name index (default [] (mpUrlParameters u)), u).
Definition getUrlParameterAt (index : Z) (u : Url) : outcome (option (list ascii * list ascii) * Url) :=
  if index <? 0 then Ok (None, u)
  else let! u := parseUrlParameters u in Ok (nth_param index (mpUrlParameters u), u).
(** setUrlParameter; a null name is the empty one *)
Definition setUrlParameter (name : list ascii) (value : option (list ascii)) (u : Url) : outcome Url :=
  let! u := parseUrlParameters u in
  Ok (set_url_params (mRawUrlParameters u) (Some (set_param name value (default [] (mpUrlParameters u)))) u).
Definition removeUrlParameter (name : list ascii) (u : Url) : outcome Url :=
  let! u := parseUrlParameters u in
  match mpUrlParameters u with
  | Some ps => let! ps := remove_loop (length ps) name ps in Ok (set_url_params (mRawUrlParameters u) (Some ps) u)
  | None => Ok u
  end.

Definition getHeaderParameter (name : list ascii) (index : Z) (u : Url) : outcome (option (list ascii) * Url) :=
  let! u := parseHeaderOrQueryParameters u in Ok (nth_named name index (default [] (mpHeaderOrQueryParameters u)), u).
Definition getHeaderParameterAt (index : Z) (u : Url) : outcome (option (list ascii * list ascii) * Url) :=
  if index <? 0 then Ok (None, u)
  else let! u := parseHeaderOrQueryParameters u in Ok (nth_param index (mpHeaderOrQueryParameters u), u).
Definition removeHeaderParameter (name : list ascii) (u : Url) : outcome Url :=
  let! u := parseHeaderOrQueryParameters u in
  match mpHeaderOrQueryParameters u with
  | Some ps =>
      let! ps := remove_loop (length ps) name ps in
      Ok (set_header_params (mRawHeaderOrQueryParameters u) (Some ps) u)
  | None => Ok u
  end.

(** SipMessage::isUrlHeaderUnique with the table mUniqueUrlHeaders *)
Definition isUrlHeaderUnique (name : list ascii) : bool :=
  bool_decide ((toupper <$> cstr name) ∈ [bytes "EXPIRES"; bytes "ROUTE"]).

Definition setHeaderParameter (name : list ascii) (value : option (list ascii)) (u : Url) : outcome Url :=
  match name with
  | [] => Ok u
  | _ =>
      let! u := parseHeaderOrQueryParameters u in
      let u := match mpHeaderOrQueryParameters u with
               | Some _ => u
               | None => set_header_params (mRawHeaderOrQueryParameters u) (Some []) u
               end in
      let! u := (if is_sip (mScheme u) && isUrlHeaderUnique name then removeHeaderParameter name u else Ok u) in
      Ok (set_header_params (mRawHeaderOrQueryParameters u)
            (Some (default [] (mpHeaderOrQueryParameters u) ++ [(name, Some (default [] value))])) u)
  end.

Definition getFieldParameter (name : list ascii) (index : Z) (u : Url) : option (list ascii) :=
  nth_named name index (default [] (mpFieldParameters u)).
Definition getFieldParameterAt (index : Z) (u : Url) : option (list ascii * list ascii) :=
  nth_param index (mpFieldParameters u).
(** setFieldParameter asserts that there is a name. *)
Definition setFieldParameter (name : list ascii) (value : option (list ascii)) (u : Url) : outcome Url :=
  match name with
  | [] => AssertFail
  | _ => Ok (set_field_params (Some (set_param name value (default [] (mpFieldParameters u)))) u)
  end.
Definition removeFieldParameter (name : list ascii) (u : Url) : outcome Url :=
  match mpFieldParameters u with
  | Some ps => let! ps := remove_loop (length ps) name ps in Ok (set_field_params (Some ps) u)
  | None => Ok u
  end.

(** getUrlParameters, getHeaderParameters, getFieldParameters: the first
    pairs, and iActualReturn; a null array asks for the number only. *)
Definition list_params (iMaxReturn : Z) (arrays : bool) (ps : option (list param))
    : bool * list (list ascii * list ascii) * Z :=
  match ps with
  | None => (false, [], 0)
  | Some ps =>
      if arrays then
        let iActualReturn := Z.min iMaxReturn (Z.of_nat (length ps)) in
        (0 <? iActualReturn, (fun p => (fst p, value_of p)) <$> take (Z.to_nat iActualReturn) ps, iActualReturn)
      else (false, [], Z.of_nat (length ps))
  end.
Definition getUrlParameters (iMaxReturn : Z) (arrays : bool) (u : Url)
    : outcome (bool * list (list ascii * list ascii) * Z * Url) :=
  let! u := parseUrlParameters u in Ok (list_params iMaxReturn arrays (mpUrlParameters u), u).
Definition getHeaderParameters (iMaxReturn : Z) (arrays : bool) (u : Url)
    : outcome (bool * list (list ascii * list ascii) * Z * Url) :=
  let! u := parseHeaderOrQueryParameters u in Ok (list_params iMaxReturn arrays (mpHeaderOrQueryParameters u), u).
Definition getFieldParameters (iMaxReturn : Z) (arrays : bool) (u : Url) : bool * list (list ascii * list ascii) * Z :=
  list_params iMaxReturn arrays (mpFieldParameters u).

(** Url::operator=(const Url&) of another object, and the copy constructor:
    the parameters are copied parsed or raw, as they are. *)
Definition assign (rhs u : Url) : Url :=
  let u := reset u in
  mkUrl (mScheme rhs) (mDisplayName rhs) (mUserId rhs) (mPassword rhs) (mPasswordSet rhs) (mHostAddress rhs)
    (mHostPort rhs) (mPath rhs)
    (match mpUrlParameters rhs with Some _ => mRawUrlParameters u | None => mRawUrlParameters rhs end)
    (match mpUrlParameters rhs with Some ps => Some ps | None => mpUrlParameters u end)
    (match mpHeaderOrQueryParameters rhs with
     | Some _ => mRawHeaderOrQueryParameters u | None => mRawHeaderOrQueryParameters rhs end)
    (match mpHeaderOrQueryParameters rhs with Some ps => Some ps | None => mpHeaderOrQueryParameters u end)
    (match mpFieldParameters rhs with Some ps => Some ps | None => mpFieldParameters u end)
    (mAngleBracketsIncluded rhs).
Definition Url_copy (rhs : Url) : Url := assign rhs Url_default.

Definition includeAngleBrackets (u : Url) : Url := set_brackets true u.
Definition removeAngleBrackets (u : Url) : Url := set_brackets false u.

(** ** Other members *)

Definition setUserId (userId : option (list ascii)) (u : Url) : Url :=
  set_user (default [] userId) (mPassword u) (mPasswordSet u) u.
Definition setPassword (password : option (list ascii)) (u : Url) : Url :=
  match password with
  | Some p => set_user (mUserId u) p true u
  | None => set_user (mUserId u) [] false u
  end.
Definition setHostAddress (address : option (list ascii)) (u : Url) : Url :=
  set_host (default [] address) (mHostPort u) u.
Definition setHostPort (port : Z) (u : Url) : Url := set_host (mHostAddress u) port u.
Definition setPath (path : option (list ascii)) (u : Url) : Url := set_path (default [] path) u.

(** Url::getHostWithPort writes the port to a buffer of seven bytes. *)
Definition getHostWithPort (u : Url) : outcome (list ascii) :=
  if mHostPort u =? PORT_NONE then Ok (mHostAddress u)
  else if (7 <? length (print_port (mHostPort u)) + 1)%nat then UB
  else Ok (mHostAddress u ++ print_port (mHostPort u)).

(** Url::getPath: whether there is a path, and the path with the query in
    GET style *)
Definition getPath (getStyle : bool) (u : Url) : outcome (bool * list ascii * Url) :=
  let found := negb (bool_decide (mPath u = [])) in
  if getStyle then
    let! u := parseHeaderOrQueryParameters u in
    Ok (found, mPath u ++ print_header_params true (default [] (mpHeaderOrQueryParameters u)), u)
  else Ok (found, mPath u, u).

(** Url::isUserHostEqual, isUserHostPortEqual, getIdentity *)
Definition isUserHostEqual (u v : Url) : bool :=
  (strcasecmp (mHostAddress u) (mHostAddress v) =? 0) && (strcmp (mUserId u) (mUserId v) =? 0).
Definition isUserHostPortEqual (u v : Url) (impliedPort : Z) : bool :=
  let port (x : Url) := if negb (impliedPort =? PORT_NONE) && (mHostPort x =? PORT_NONE) then impliedPort else mHostPort x in
  (port u =? port v) && isUserHostEqual u v.
Definition getIdentity (u : Url) : list ascii :=
  mUserId u ++ bytes "@" ++ (tolower <$> mHostAddress u)
  ++ (if portIsValid (mHostPort u) then print_port (mHostPort u) else []).

(** Url::isGRUU, setGRUU *)
Definition SIP_GRUU_URI_PARAM : list ascii := bytes "gr".
Definition isGRUU (u : Url) : outcome (bool * Url) :=
  if is_sip (mScheme u) then
    let! (v, u) := getUrlParameter SIP_GRUU_URI_PARAM 0 u in Ok (bool_decide (is_Some v), u)
  else Ok (false, u).
Definition setGRUU (uniqueId : list ascii) (u : Url) : outcome Url :=
  if is_sip (mScheme u) then setUrlParameter SIP_GRUU_URI_PARAM (Some (cstr uniqueId)) u else AssertFail.

(** ** Examples *)

Definition zero_fill (n : nat) : ascii := NUL.

Definition reprint (s : list ascii) : outcome (Scheme * list ascii) :=
  let! u := Url_of_string zero_fill search s NameAddr in
  let! r := toString search u in Ok (mScheme u, fst r).

(** A text with [#] for the double quote. *)
Definition q (s : string) : list ascii := (fun c => if decide (c = "#"%char) then DQUOTE else c) <$> bytes s.

Example reprint_full :
  reprint (q "  Joe  User <sips:joe%20x:pw@Example.COM:5061;transport=tcp;lr?Expires=30&x=a%20b> ; tag=ab12 ;q=#0.5 x#")
  = Ok (SipsUrlScheme,
        q "Joe  User<sips:joe%20x:pw@Example.COM:5061;transport=tcp;lr?Expires=30&x=a+b>;tag=ab12;q=#0.5 x#").
Proof. vm_compute. reflexivity. Qed.
Example reprint_quoted : reprint (q "#a\#b# <sip:[fe80::1]>") = Ok (SipUrlScheme, q "#a\#b#<sip:[fe80::1]>").
Proof. vm_compute. reflexivity. Qed.
Example reprint_http : reprint "http://u@h.x.org:80/a/b;c?x=1&y" = Ok (HttpUrlScheme, bytes "http://u@h.x.org:80/a/b;c?x=1&y").
Proof. vm_compute. reflexivity. Qed.
Example reprint_bad : reprint "sip:a@b:99;x=<" = Ok (UnknownUrlScheme, bytes "<UNKNOWN-URL-SCHEME:a@b:99>;x").
Proof. vm_compute. reflexivity. Qed.
