(* ===== verification/UrlSyntax.v ===== *)
(** * What the patterns of Url match

    For every pattern of parseString: the texts it takes at the working
    offset, with the substrings it captures, and the texts where it does not
    match.  The lemmas are stated for any library that behaves as PCRE is
    documented to. *)
From Stdlib Require Import ZArith Lia Ascii String.
From stdpp Require Import base list strings sets.
From S2P Require Import Prelude UtlString UtlStringRefine NameValueTokenizer Format Pcre PcreSpec UrlCodec Url.
Local Open Scope nat_scope.

(** Equalities of concatenations. *)
Ltac assoc := simpl; rewrite <- ?app_assoc; simpl; rewrite <- ?app_assoc; reflexivity.

(** ** Searches at the working offset *)

Section Here.
Context `{Pcre pcre_exec}.

Lemma here_hit p s off st' :
  off <= length s -> length s <= pcre_limit p -> bt p (mkM off (drop off s) []) Some = Some st' ->
  here pcre_exec p s off = Some (mkMatch off (m_pos st') (m_caps st')).
Proof.
  intros Ho Hl Hb. unfold here, SearchAt_here. rewrite pcre_complete by done.
  rewrite (search_here p s off st') by done. simpl. by rewrite Nat.eqb_refl.
Qed.

Lemma here_inv p s off m :
  here pcre_exec p s off = Some m ->
  off <= length s /\ mt_start m = off /\
  exists st', bt p (mkM off (drop off s) []) Some = Some st' /\ mt_end m = m_pos st' /\ mt_caps m = m_caps st'.
Proof.
  unfold here, SearchAt_here. destruct (pcre_exec p s off) as [m'|] eqn:E; [|done].
  destruct (Nat.eqb_spec (mt_start m') off) as [Hs|]; [|done]. intros [= ->].
  apply pcre_sound in E. unfold search in E. destruct (Nat.leb_spec off (length s)) as [Hl|]; [|done].
  apply search_from_start in E as (_ & st' & Hb & He & Hc). rewrite Hs, Nat.sub_diag, drop_0 in Hb.
  split; [done|]. split; [done|]. by exists st'.
Qed.

Lemma here_miss p s off : bt p (mkM off (drop off s) []) Some = None -> here pcre_exec p s off = None.
Proof.
  intros Hb. destruct (here pcre_exec p s off) as [m|] eqn:E; [|done].
  apply here_inv in E as (_ & _ & st' & Hb' & _). congruence.
Qed.

(** The same at the end of a prefix of the subject. *)
Lemma here_at p pre rest st' :
  length (pre ++ rest) <= pcre_limit p -> bt p (mkM (length pre) rest []) Some = Some st' ->
  here pcre_exec p (pre ++ rest) (length pre) = Some (mkMatch (length pre) (m_pos st') (m_caps st')).
Proof. intros Hl Hb. apply here_hit; [rewrite length_app; lia|done|]. by rewrite drop_app_length. Qed.

Lemma here_start p s st' :
  length s <= pcre_limit p -> bt p (mkM 0 s []) Some = Some st' ->
  here pcre_exec p s 0 = Some (mkMatch 0 (m_pos st') (m_caps st')).
Proof. apply (here_at p [] s). Qed.

Lemma here_not p pre rest :
  (forall off, bt p (mkM off rest []) Some = None) -> here pcre_exec p (pre ++ rest) (length pre) = None.
Proof. intros Hb. apply here_miss. by rewrite drop_app_length. Qed.

Lemma here_cannot_begin p pre rest :
  nullable p = false -> none_of (begins p) rest -> here pcre_exec p (pre ++ rest) (length pre) = None.
Proof.
  intros Hn Hb. apply here_not. intros off. apply bt_cannot_begin; [done|]. simpl. by intros x r ->.
Qed.
End Here.

(** The substring of a capture. *)
Lemma sub_split (pre w post s : list ascii) b e :
  s = pre ++ w ++ post -> b = length pre -> e = length pre + length w -> take (e - b) (drop b s) = w.
Proof.
  intros -> -> ->. rewrite drop_app_length. replace (length pre + length w - length pre) with (length w) by lia.
  by rewrite take_app_length.
Qed.

(** ** Well-formed texts *)

Definition all (c : ascii -> bool) (l : list ascii) : Prop := Forall (fun x => c x = true) l.

(** A token sequence. *)
Inductive words : list ascii -> Prop :=
| words_one t : t <> [] -> all token_char t -> words t
| words_more t w l : t <> [] -> all token_char t -> w <> [] -> all isspace w -> words l -> words (t ++ w ++ l).

(** A backslash and the character it quotes. *)
Definition quoted_pair (u : list ascii) : Prop := exists d, u = [BACKSLASH; d] /\ any_char d = true.
Definition quoted_text : list ascii -> Prop := units (not_of [BACKSLASH; DQUOTE]) quoted_pair.

Definition display_text (d : list ascii) : Prop :=
  words d \/ exists b, d = DQUOTE :: b ++ [DQUOTE] /\ quoted_text b.

(** [%XX] *)
Definition hex_unit (u : list ascii) : Prop := exists a b, u = ["%"%char; a; b] /\ isxdigit a = true /\ isxdigit b = true.
Definition user_text : list ascii -> Prop := units user_char hex_unit.
Definition password_text : list ascii -> Prop := units password_char hex_unit.

Definition label (l : list ascii) : Prop :=
  (exists a, l = [a] /\ isalnum a = true)
  \/ (exists a m b, l = a :: m ++ [b] /\ isalnum a = true /\ all label_char m /\ isalnum b = true).
(** A domain name, without the dot of the root. *)
Inductive domain : list ascii -> Prop :=
| domain_label l : label l -> domain l
| domain_more l d : label l -> domain d -> domain (l ++ "."%char :: d).
Definition ipv6_text (h : list ascii) : Prop := exists a, h = "["%char :: a ++ ["]"%char] /\ a <> [] /\ all ipv6_char a.
Definition host_text (h : list ascii) : Prop := domain h \/ ipv6_text h.

(** ** Display names *)

Lemma bt_sws st k : none_of isspace (m_rest st) -> bt SWS st k = k st.
Proof. apply bt_run_none. Qed.

Lemma bt_seqs p q l st k : bt (PSeqs (p :: q :: l)) st k = bt p st (fun st' => bt (PSeqs (q :: l)) st' k).
Proof. done. Qed.
Lemma bt_seqs1 p st k : bt (PSeqs [p]) st k = bt p st k.
Proof. done. Qed.
Lemma bt_seq p q st k : bt (PSeq p q) st k = bt p st (fun st' => bt q st' k).
Proof. done. Qed.
Lemma bt_alt p q st k : bt (PAlt p q) st k = match bt p st k with Some r => Some r | None => bt q st k end.
Proof. done. Qed.
Lemma bt_group i p st k : bt (PGroup i p) st k = bt p st (fun st' => k (capture i (m_pos st) st')).
Proof. done. Qed.

Lemma isspace_not_token x : isspace x = true -> token_char x = false.
Proof. all_bytes x; intros H; (done || discriminate H). Qed.

Lemma token_not_space x : token_char x = true -> isspace x = false.
Proof. all_bytes x; intros H; (done || discriminate H). Qed.

Lemma bt_words_more t w l r st k s :
  w <> [] -> all isspace w -> t <> [] -> all token_char t -> none_of token_char (l ++ r) ->
  m_rest st = (w ++ t) ++ l ++ r -> k (advance (length (w ++ t)) st) = Some s ->
  bt (PSeq LWS SIP_TOKEN) st k = Some s.
Proof.
  intros Hw Hws Ht Htt Hn E Hk. destruct w as [|x w]; [done|]. inversion Hws as [|? ? Hx Hws']; subst.
  change (bt (PSeq LWS SIP_TOKEN) st k)
    with (bt (PCls isspace) st (fun st' => bt (PStar (PCls isspace)) st' (fun st' => bt SIP_TOKEN st' k))).
  rewrite (bt_cls_hit isspace st _ x (w ++ t ++ l ++ r)) by first [done | rewrite E; assoc].
  assert (m_rest (advance 1 st) = w ++ t ++ l ++ r) as E1 by (cbn [advance m_rest]; rewrite E; assoc).
  apply (bt_run_all isspace _ _ w (t ++ l ++ r)); [done|done| |].
  - destruct t as [|y t]; [done|]. inversion Htt; subst. by apply token_not_space.
  - rewrite (bt_poss token_char _ _ t (l ++ r)); [|cbn [advance m_rest] in *; rewrite E1; apply drop_app_length|done..].
    rewrite !advance_advance, <- Hk. do 2 f_equal. rewrite length_app. simpl. lia.
Qed.

Lemma words_chunks l r : words l -> none_of token_char r -> none_of isspace r ->
  exists t l', l = t ++ l' /\ t <> [] /\ all token_char t /\ none_of token_char (l' ++ r)
    /\ chunks (PSeq LWS SIP_TOKEN) r l'.
Proof.
  intros Hl Hr1 Hr2. induction Hl as [t Ht Htt|t w l Ht Htt Hw Hws Hl (t2 & l2 & -> & Ht2 & Htt2 & Hn2 & Hc)].
  - exists t, []. rewrite app_nil_r. split_and!; try done. constructor. intros st k E.
    apply bt_not_begin; [done|]. rewrite E. eapply none_of_imp; [|exact Hr2].
    intros x Hx. unfold LWS, PPlus. simpl. by rewrite Hx.
  - exists t, ((w ++ t2) ++ l2). split_and!; try done; [by rewrite <- app_assoc| |].
    + destruct w as [|x w]; [done|]. inversion Hws; subst. simpl. by apply isspace_not_token.
    + constructor; [by destruct w| |done]. intros st k s E Hk. by apply (bt_words_more t2 w l2 r).
Qed.

Lemma bt_token_seq l r st k s :
  words l -> none_of token_char r -> none_of isspace r ->
  m_rest st = l ++ r -> k (advance (length l) st) = Some s -> bt token_seq st k = Some s.
Proof.
  intros Hl Hr1 Hr2 E Hk. destruct (words_chunks l r Hl Hr1 Hr2) as (t & l' & -> & Ht & Htt & Hn & Hc).
  rewrite <- app_assoc in E. change (bt token_seq st k) with (bt SIP_TOKEN st (fun st' => bt (PStar (PSeq LWS SIP_TOKEN)) st' k)).
  rewrite (bt_poss token_char st _ t (l' ++ r)) by done.
  apply (bt_star_chunks _ r l'); [done|cbn [advance m_rest]; rewrite E; apply drop_app_length|].
  rewrite advance_advance. by rewrite length_app in Hk.
Qed.

Lemma bt_quoted_body b r st k s :
  quoted_text b -> m_rest st = b ++ DQUOTE :: r -> k (advance (length b) st) = Some s -> bt quoted_body st k = Some s.
Proof.
  intros Hb. apply (bt_star_units _ _ quoted_pair).
  - intros u (d & -> & _). done.
  - intros u st' k' r' (d & -> & Hd) E.
    change (bt (PSeq (PChr BACKSLASH) (PCls any_char)) st' k') with (bt (PChr BACKSLASH) st' (fun st'' => bt (PCls any_char) st'' k')).
    rewrite (bt_chr _ _ _ (d :: r')) by done. rewrite (bt_cls_hit _ _ _ d r') by (done || cbn [advance m_rest]; by rewrite E).
    by rewrite advance_advance.
  - intros u x r' (d & -> & _) [= <- _]. done.
  - done.
  - intros st' k' E. apply bt_not_begin; [done|]. by rewrite E.
  - done.
Qed.

Lemma bt_angle_ahead st r : m_rest st = "<"%char :: r -> bt (PLook (PSeq SWS (PChr "<"))) st Some = Some st.
Proof.
  destruct st as [p rr cc]. cbn [m_rest]. intros ->. cbn [bt].
  change (match bt SWS (mkM p ("<"%char :: r) cc) (fun st' => bt (PChr "<") st' Some) with
    | Some st' => Some (mkM p ("<"%char :: r) (m_caps st')) | None => None end = Some (mkM p ("<"%char :: r) cc)).
  rewrite bt_sws by done. by rewrite (bt_chr _ _ _ r).
Qed.

(** The display name in front of a left angle bracket. *)
Lemma bt_display_words d r off :
  words d ->
  bt DisplayName (mkM off (d ++ "<"%char :: r) []) Some
  = Some (mkM (off + length d) ("<"%char :: r) [(1, (off, off + length d))]).
Proof.
  intros Hw. assert (exists x d', d = x :: d' /\ token_char x = true) as (x & d' & Ed & Hx).
  { destruct Hw as [[|x t] Ht Htt|[|x t] w l Ht Htt _ _ _]; try done; inversion Htt; subst; by eauto. }
  unfold DisplayName. rewrite bt_seqs, bt_sws by (rewrite Ed; simpl; by apply token_not_space).
  rewrite bt_seqs, bt_alt, bt_group.
  erewrite (bt_token_seq d ("<"%char :: r)); [done|done..|]. rewrite at_advance by done. cbn beta.
  by apply (bt_angle_ahead _ r).
Qed.

Lemma bt_display_quoted b r off :
  quoted_text b ->
  bt DisplayName (mkM off (DQUOTE :: b ++ DQUOTE :: "<"%char :: r) []) Some
  = Some (mkM (off + 1 + length b + 1) ("<"%char :: r) [(2, (off + 1, off + 1 + length b))]).
Proof.
  intros Hb. unfold DisplayName. rewrite bt_seqs, bt_sws by done. rewrite bt_seqs, bt_alt, bt_group.
  rewrite (bt_not_begin token_seq) by done.
  rewrite bt_seqs, (bt_chr DQUOTE _ _ (b ++ DQUOTE :: "<"%char :: r)) by done.
  rewrite bt_seqs, bt_group. change (advance 1 (mkM off (DQUOTE :: ?l) [])) with (mkM (off + 1) l []).
  erewrite (bt_quoted_body b ("<"%char :: r)); [done|done|done|]. rewrite at_advance by done. cbn beta.
  rewrite bt_seqs1, (bt_chr DQUOTE _ _ ("<"%char :: r)) by done. by apply (bt_angle_ahead _ r).
Qed.

(** No display name where a URI or a bracket begins. *)
Lemma bt_no_display_bracket r off : bt DisplayName (mkM off ("<"%char :: r) []) Some = None.
Proof. by apply bt_not_begin. Qed.

Lemma bt_no_display_word t c r off :
  t <> [] -> all token_char t -> token_char c = false -> isspace c = false -> c <> "<"%char -> c <> DQUOTE ->
  bt DisplayName (mkM off (t ++ c :: r) []) Some = None.
Proof.
  intros Hne Ht Hc1 Hc2 Hc3 Hc4. unfold DisplayName. rewrite bt_seqs, bt_sws
    by (destruct t; [done|]; inversion Ht; subst; by apply token_not_space).
  rewrite bt_seqs, bt_alt, bt_group. unfold token_seq. rewrite bt_seq.
  rewrite (bt_poss token_char _ _ t (c :: r)) by done. rewrite at_advance by done.
  assert (forall st k, m_rest st = c :: r -> bt (PSeq LWS SIP_TOKEN) st k = None) as Hno.
  { intros st k E. apply bt_not_begin; [done|]. rewrite E. unfold LWS, PPlus. simpl. by rewrite Hc2. }
  rewrite bt_star. unfold star_step. rewrite Hno by done. cbn beta. rewrite bt_seqs1. cbn [bt].
  change (match (match bt SWS (mkM (off + length t) (c :: r) (m_caps (capture 1 off (mkM (off + length t) (c :: r) []))))
      (fun st' => bt (PChr "<") st' Some) with Some st' => Some (mkM (off + length t) (c :: r) (m_caps st')) | None => None end)
    with Some r0 => Some r0 | None => bt (PSeqs [PChr DQUOTE; PGroup 2 quoted_body; PChr DQUOTE]) (mkM off (t ++ c :: r) [])
      (fun st' => bt (PSeqs [PLook (PSeq SWS (PChr "<"))]) st' Some) end = None).
  rewrite bt_sws by done. rewrite bt_chr_fail by (intros r' [= ? _]; done).
  apply bt_not_begin; [done|]. destruct t as [|x t]; [done|]. inversion Ht as [|? ? Hx _]; subst. simpl.
  rewrite bool_decide_false; [done|]. intros ->. vm_compute in Hx. done.
Qed.

(** ** Angle brackets *)

Lemma bt_brackets t r off :
  t <> [] -> ">"%char ∉ t ->
  bt AngleBrackets (mkM off ("<"%char :: t ++ ">"%char :: r) []) Some
  = Some (mkM (off + 1 + length t + 1) r [(1, (off + 1, off + 1 + length t))]).
Proof.
  intros Hne Ht. assert (all (not_of ">") t) as Hall.
  { apply Forall_forall. intros x Hx. unfold not_of. rewrite bool_decide_false; [done|].
    intros ->%list_elem_of_singleton. done. }
  unfold AngleBrackets. rewrite bt_seqs, bt_sws by done.
  rewrite bt_seqs, (bt_chr "<" _ _ (t ++ ">"%char :: r)) by done.
  change (advance 1 (mkM off ("<"%char :: ?l) [])) with (mkM (off + 1) l []).
  rewrite bt_seqs, bt_group. destruct t as [|x t]; [done|]. inversion Hall as [|? ? Hx Hall']; subst.
  unfold PPlus. rewrite bt_seq, (bt_cls_hit _ _ _ x (t ++ ">"%char :: r)) by done.
  erewrite (bt_run_all (not_of ">") _ _ t (">"%char :: r)); [done|done|done|done|].
  rewrite advance_advance. change (x :: t ++ ?l) with ((x :: t) ++ l). rewrite at_advance by done. cbn beta.
  rewrite bt_seqs1, (bt_chr ">" _ _ r) by done. done.
Qed.

(** ** The scheme *)

Lemma bt_alts p q l st k :
  bt (PAlts (p :: q :: l)) st k = match bt p st k with Some r => Some r | None => bt (PAlts (q :: l)) st k end.
Proof. done. Qed.

(** A scheme name with a colon. *)
Lemma bt_scheme_sip k off r caps s :
  k (mkM (off + 3) (":"%char :: r) ((2, (off, off + 3)) :: caps)) = Some s ->
  bt SUPPORTED_SCHEMES (mkM off ("s"%char :: "i"%char :: "p"%char :: ":"%char :: r) caps) k = Some s.
Proof.
  intros Hk. unfold SUPPORTED_SCHEMES. rewrite bt_alts, (bt_not_begin (PGroup 1 _)) by done.
  rewrite bt_alts, bt_group. change ("s"%char :: "i"%char :: "p"%char :: ?l) with (bytes "sip" ++ l).
  rewrite (bt_liti (bytes "sip") _ _ (bytes "sip") (":"%char :: r)) by done. rewrite at_advance by done.
  unfold capture. cbn [m_pos m_rest m_caps]. simpl length. by rewrite Hk.
Qed.

Lemma bt_scheme_sips k off r caps s :
  (forall st, m_rest st = "s"%char :: ":"%char :: r -> k st = None) ->
  k (mkM (off + 4) (":"%char :: r) ((3, (off, off + 4)) :: caps)) = Some s ->
  bt SUPPORTED_SCHEMES (mkM off ("s"%char :: "i"%char :: "p"%char :: "s"%char :: ":"%char :: r) caps) k = Some s.
Proof.
  intros Hno Hk. unfold SUPPORTED_SCHEMES. rewrite bt_alts, (bt_not_begin (PGroup 1 _)) by done.
  rewrite bt_alts, bt_group. change ("s"%char :: "i"%char :: "p"%char :: ?l) with (bytes "sip" ++ l).
  rewrite (bt_liti (bytes "sip") _ _ (bytes "sip") ("s"%char :: ":"%char :: r)) by done. rewrite at_advance by done.
  rewrite Hno by done. rewrite bt_alts, bt_group.
  change (bytes "sip" ++ "s"%char :: ?l) with (bytes "sips" ++ l).
  rewrite (bt_liti (bytes "sips") _ _ (bytes "sips") (":"%char :: r)) by done. rewrite at_advance by done.
  unfold capture. cbn [m_pos m_rest m_caps]. simpl length. by rewrite Hk.
Qed.

Definition scheme_pattern (uriForm : UriForm) : pat :=
  if decide (uriForm = AddrSpec) then SupportedScheme else SupportedSchemeSWS.
Definition scheme_group (sc : Scheme) : nat := match sc with SipUrlScheme => 2 | _ => 3 end.

Lemma bt_scheme form sc r off :
  is_sip sc = true ->
  let n := length (schemeName sc) in
  bt (scheme_pattern form) (mkM off (schemeName sc ++ ":"%char :: r) []) Some
  = Some (mkM (off + n + 1) r [(scheme_group sc, (off, off + n))]).
Proof.
  intros Hs n. unfold scheme_pattern.
  assert (forall P : pat, (forall st k, bt P st k = bt SUPPORTED_SCHEMES st (fun st' => bt SWS st' (fun st' => bt (PChr ":") st' k)))
      \/ (forall st k, bt P st k = bt SUPPORTED_SCHEMES st (fun st' => bt (PChr ":") st' k)) ->
      bt P (mkM off (schemeName sc ++ ":"%char :: r) []) Some = Some (mkM (off + n + 1) r [(scheme_group sc, (off, off + n))])) as H.
  { intros P HP. destruct sc; try done; subst n; cbn [schemeName bytes String.list_ascii_of_string app length scheme_group].
    - destruct HP as [-> | ->]; apply bt_scheme_sip; cbn beta; rewrite ?bt_sws by done; by rewrite (bt_chr _ _ _ r).
    - destruct HP as [-> | ->]; apply bt_scheme_sips; cbn beta.
      + intros st E. rewrite bt_sws by (by rewrite E). apply bt_chr_fail. rewrite E. by intros r' [=].
      + rewrite bt_sws by done. by rewrite (bt_chr _ _ _ r).
      + intros st E. apply bt_chr_fail. rewrite E. by intros r' [=].
      + by rewrite (bt_chr _ _ _ r). }
  case_decide; [apply H; by right|]. unfold SupportedSchemeSWS. rewrite bt_seqs, bt_sws by (by destruct sc).
  apply H. left. intros st k. by rewrite !bt_seqs.
Qed.

(** ** User and password *)

Lemma hex_unit_hit u st k r : hex_unit u -> m_rest st = u ++ r -> bt hex_pair st k = k (advance (length u) st).
Proof.
  intros (a & b & -> & Ha & Hb) E. unfold hex_pair.
  rewrite bt_seqs, (bt_chr _ _ _ (a :: b :: r)) by done.
  rewrite bt_seqs, (bt_cls_hit _ _ _ a (b :: r)) by (done || cbn [advance m_rest]; by rewrite E).
  rewrite bt_seqs1, (bt_cls_hit _ _ _ b r) by (done || cbn [advance m_rest]; by rewrite E).
  by rewrite !advance_advance.
Qed.

Lemma bt_user_units (c : ascii -> bool) t x r st k s :
  c "%"%char = false -> c x = false -> x <> "%"%char ->
  units c hex_unit t -> t <> [] -> m_rest st = t ++ x :: r -> k (advance (length t) st) = Some s ->
  bt (PPlus (PAlt (PPoss c) hex_pair)) st k = Some s.
Proof.
  intros Hp Hx Hxp Ht Hne E Hk. apply (bt_plus_units c hex_pair hex_unit (x :: r)) with (l := t); try done.
  - by intros u (a & b & -> & _).
  - intros u st' k' r'. apply hex_unit_hit.
  - by intros u y r' (a & b & -> & _) [= <- _].
  - intros st' k' E'. apply bt_not_begin; [done|]. rewrite E'. unfold hex_pair. simpl. by rewrite bool_decide_false.
Qed.

Lemma bt_pw_units (c : ascii -> bool) t x r st k s :
  c "%"%char = false -> c x = false -> x <> "%"%char ->
  units c hex_unit t -> m_rest st = t ++ x :: r -> k (advance (length t) st) = Some s ->
  bt (PStar (PAlt (PPoss c) hex_pair)) st k = Some s.
Proof.
  intros Hp Hx Hxp Ht E Hk. apply (bt_star_units c hex_pair hex_unit (x :: r)) with (l := t); try done.
  - by intros u (a & b & -> & _).
  - intros u st' k' r'. apply hex_unit_hit.
  - by intros u y r' (a & b & -> & _) [= <- _].
  - intros st' k' E'. apply bt_not_begin; [done|]. rewrite E'. unfold hex_pair. simpl. by rewrite bool_decide_false.
Qed.

Lemma bt_user_only t r off :
  user_text t -> t <> [] ->
  bt UsernameAndPassword (mkM off (t ++ "@"%char :: r) []) Some
  = Some (mkM (off + length t + 1) r [(1, (off, off + length t))]).
Proof.
  intros Ht Hne. unfold UsernameAndPassword. rewrite bt_seqs, bt_group.
  apply (bt_user_units user_char t "@"%char r); try done. rewrite at_advance by done.
  unfold capture. cbn [m_pos m_rest m_caps]. rewrite bt_seqs. unfold POpt. rewrite bt_alt, bt_seq.
  rewrite bt_chr_fail by (by intros r' [=]). cbn [bt]. rewrite bt_seqs1, (bt_chr _ _ _ r) by done. done.
Qed.

Lemma bt_user_password t p r off :
  user_text t -> t <> [] -> password_text p ->
  bt UsernameAndPassword (mkM off (t ++ ":"%char :: p ++ "@"%char :: r) []) Some
  = Some (mkM (off + length t + 1 + length p + 1) r
      [(2, (off + length t + 1, off + length t + 1 + length p)); (1, (off, off + length t))]).
Proof.
  intros Ht Hne Hp. unfold UsernameAndPassword. rewrite bt_seqs, bt_group.
  apply (bt_user_units user_char t ":"%char (p ++ "@"%char :: r)); try done. rewrite at_advance by done.
  unfold capture at 1. cbn [m_pos m_rest m_caps]. rewrite bt_seqs. unfold POpt. rewrite bt_alt, bt_seq.
  rewrite (bt_chr _ _ _ (p ++ "@"%char :: r)) by done.
  change (advance 1 (mkM ?o (":"%char :: ?l) ?c)) with (mkM (o + 1) l c). rewrite bt_group.
  erewrite (bt_pw_units password_char p "@"%char r); try done. rewrite at_advance by done.
  rewrite bt_seqs1, (bt_chr _ _ _ r) by done. done.
Qed.

(** No user where no [@] can be reached. *)
Lemma bt_no_user t r off :
  "@"%char ∉ t -> none_of (names UsernameAndPassword) r ->
  bt UsernameAndPassword (mkM off (t ++ r) []) Some = None.
Proof.
  intros Ht Hr. apply bt_none. intros st' Hc. exfalso.
  destruct (consumes_names _ _ _ Hc) as (w & [E _] & Hw). cbn [m_rest] in E.
  assert ("@"%char ∈ w) as Hin.
  { unfold UsernameAndPassword in Hc. cbn [PSeqs] in Hc.
    inversion Hc as [| |? ? ? st1 ? H1 H2| | | | | | | | |]; subst.
    inversion H2 as [| |? ? ? st2 ? H3 H4| | | | | | | | |]; subst.
    inversion H4 as [|? ? x l El Hx| | | | | | | | | |]; subst. apply bool_decide_eq_true in Hx as ->.
    assert (exists v, between (mkM off (t ++ r) []) v st2) as (v & [Ev _]).
    { apply consumes_between in H1 as (v1 & B1). apply consumes_between in H3 as (v2 & B2). eauto using between_trans. }
    cbn [m_rest] in Ev. rewrite El in Ev. cbn [advance m_rest] in E. rewrite El in E. simpl in E. rewrite drop_0 in E.
    rewrite Ev in E. change ("@"%char :: l) with (["@"%char] ++ l) in E. rewrite app_assoc in E.
    apply app_inv_tail in E as <-. set_solver. }
  apply app_eq_app in E as (l & [[-> _]|[-> ->]]).
  - apply Ht. set_solver.
  - destruct l as [|x l]; [apply Ht; by rewrite app_nil_r in Hin|]. cbn [none_of app] in Hr.
    apply Forall_app in Hw as [_ Hw]. inversion Hw as [|? ? Hx _]; subst. congruence.
Qed.

(** ** Host and port *)

Lemma label_char_alnum x : isalnum x = true -> label_char x = true.
Proof. intros H. unfold label_char. by rewrite H. Qed.

(** A label takes the longest label first. *)
Lemma bt_label l r st k s :
  label l -> none_of label_char r -> m_rest st = l ++ r -> k (advance (length l) st) = Some s ->
  bt DOMAIN_LABEL st k = Some s.
Proof.
  intros [(a & -> & Ha)|(a & m & b & -> & Ha & Hm & Hb)] Hr E Hk; unfold DOMAIN_LABEL; rewrite bt_seq.
  - rewrite (bt_cls_hit _ _ _ a r) by done. unfold POpt. rewrite bt_alt, bt_seq.
    rewrite bt_run_none by (cbn [advance m_rest]; by rewrite E).
    rewrite bt_cls_fail; [exact Hk|]. cbn [advance m_rest]. rewrite E. simpl. rewrite drop_0.
    eapply none_of_imp; [|exact Hr]. intros x Hx. destruct (isalnum x) eqn:Ex; [|done]. by rewrite label_char_alnum in Hx.
  - rewrite (bt_cls_hit _ _ _ a (m ++ [b] ++ r)) by first [done | rewrite E; assoc].
    unfold POpt. rewrite bt_alt, bt_seq.
    rewrite (bt_run label_char _ _ (m ++ [b]) r); [|cbn [advance m_rest]; rewrite E; assoc| |done].
    + rewrite length_app, Nat.add_1_r. cbn [give_back].
      rewrite bt_cls_fail.
      2:{ cbn [advance m_rest]. rewrite drop_drop, E. simpl. rewrite (drop_app_length' (m ++ [b])) by (rewrite length_app; simpl; lia).
          eapply none_of_imp; [|exact Hr]. intros x Hx. destruct (isalnum x) eqn:Ex; [|done]. by rewrite label_char_alnum in Hx. }
      assert (bt (PCls isalnum) (advance (length m) (advance 1 st)) k = Some s) as Hb'.
      { rewrite (bt_cls_hit _ _ _ b r); [|cbn [advance m_rest]; rewrite E; simpl; rewrite drop_0, <- app_assoc; apply drop_app_length|done].
        rewrite !advance_advance, <- Hk. do 2 f_equal. simpl. rewrite length_app. simpl. lia. }
      destruct m as [|y m]; cbn [give_back length] in *; by rewrite Hb'.
    + apply Forall_app. split; [done|]. apply Forall_singleton. by apply label_char_alnum.
Qed.

Lemma label_all l : label l -> l <> [] /\ all label_char l.
Proof.
  intros [(a & -> & Ha)|(a & m & b & -> & Ha & Hm & Hb)]; (split; [done|]); constructor; auto using label_char_alnum.
  apply Forall_app. split; [done|]. apply Forall_singleton. by apply label_char_alnum.
Qed.

(** No label with a dot where a label without one ends the name. *)
Lemma bt_no_label_dot l r st k :
  label l -> none_of label_char r -> none_of (one_of ".") r -> m_rest st = l ++ r ->
  bt (PSeq DOMAIN_LABEL (PChr ".")) st k = None.
Proof.
  intros Hl Hr Hd E. apply bt_none. intros st' Hc. exfalso.
  inversion Hc as [| |? ? ? st1 ? H1 H2| | | | | | | | |]; subst.
  inversion H2 as [|? ? x r' Ex Hx| | | | | | | | | |]; subst. apply bool_decide_eq_true in Hx as ->.
  destruct (consumes_names _ _ _ H1) as (w & [Ew _] & _). rewrite E, Ex in Ew.
  destruct (label_all l Hl) as [_ Hall]. apply app_eq_app in Ew as (v & [[-> Ev]|[-> ->]]).
  - destruct v as [|y v]; simpl in Ev; [by rewrite <- Ev in Hd|]. injection Ev as <- _.
    apply Forall_app in Hall as [_ Hv]. inversion Hv as [|? ? Hy _]; subst. vm_compute in Hy. done.
  - destruct v as [|y v]; [done|]. simpl in Hr.
    assert (names DOMAIN_LABEL y = true) as Hy.
    { destruct (consumes_names _ _ _ H1) as (w & [Ew _] & Hw). rewrite E, Ex in Ew.
      assert (w = l ++ y :: v) as ->.
      { rewrite app_assoc in Ew. by apply app_inv_tail in Ew. }
      apply Forall_app in Hw as [_ Hw]. by inversion Hw. }
    assert (names DOMAIN_LABEL y = label_char y) as Hn by (clear; all_bytes y; reflexivity). congruence.
Qed.

(** The end of a host name. *)
Definition host_end (r : list ascii) : Prop := none_of label_char r /\ none_of (one_of ".") r.

Lemma domain_chunks d r : domain d -> host_end r ->
  exists pre l, d = pre ++ l /\ label l /\ chunks (PSeq DOMAIN_LABEL (PChr ".")) (l ++ r) pre.
Proof.
  intros Hd [Hr Hdot]. induction Hd as [l Hl|l d Hl Hd (pre & l' & -> & Hl' & Hc)].
  - exists [], l. split_and!; [done|done|]. constructor. intros st k E. by apply (bt_no_label_dot l r).
  - exists ((l ++ ["."%char]) ++ pre), l'. split_and!; [assoc|done|].
    constructor; [by destruct l| |done]. intros st k s E Hk. rewrite bt_seq.
    apply (bt_label l ("."%char :: pre ++ l' ++ r)); [done|done|rewrite E; assoc|].
    rewrite (bt_chr _ _ _ (pre ++ l' ++ r)) by (cbn [advance m_rest]; rewrite E, <- !app_assoc; apply drop_app_length).
    rewrite advance_advance. by rewrite length_app in Hk.
Qed.

Lemma bt_domain d r st k s :
  domain d -> host_end r -> m_rest st = d ++ r -> k (advance (length d) st) = Some s -> bt dns_name st k = Some s.
Proof.
  intros Hd He E Hk. destruct (domain_chunks d r Hd He) as (pre & l & -> & Hl & Hc). destruct He as [Hr Hdot].
  rewrite <- app_assoc in E. unfold dns_name. rewrite bt_seqs.
  apply (bt_star_chunks _ (l ++ r) pre); [done|done|]. rewrite bt_seqs.
  assert (m_rest (advance (length pre) st) = l ++ r) as E1 by (cbn [advance m_rest]; rewrite E; apply drop_app_length).
  apply (bt_label l r); [done|done|done|]. rewrite bt_seqs1. unfold POpt. rewrite bt_alt.
  rewrite bt_chr_fail.
  - cbn [bt]. rewrite advance_advance. by rewrite length_app in Hk.
  - cbn [advance m_rest] in *. rewrite E1, drop_app_length. by intros r' ->.
Qed.

Lemma domain_first d : domain d -> exists x d', d = x :: d' /\ isalnum x = true.
Proof. intros [l [(a & -> & Ha)|(a & m & b & -> & Ha & _)]|l d' [(a & -> & Ha)|(a & m & b & -> & Ha & _)] _]; by eauto. Qed.

Lemma bt_ipv6 a r st k s :
  a <> [] -> all ipv6_char a -> m_rest st = ("["%char :: a ++ ["]"%char]) ++ r ->
  k (advance (length ("["%char :: a ++ ["]"%char])) st) = Some s -> bt ipv6_address st k = Some s.
Proof.
  intros Hne Ha E Hk. unfold ipv6_address.
  rewrite bt_seqs, (bt_chr _ _ _ (a ++ "]"%char :: r)) by (rewrite E; assoc).
  assert (m_rest (advance 1 st) = a ++ "]"%char :: r) as E1 by (cbn [advance m_rest]; rewrite E; assoc).
  rewrite bt_seqs, (bt_poss ipv6_char _ _ a ("]"%char :: r)) by done.
  rewrite bt_seqs1, (bt_chr _ _ _ r) by (cbn [advance m_rest] in *; rewrite E1; apply drop_app_length).
  rewrite !advance_advance, <- Hk. do 2 f_equal. simpl. rewrite length_app. simpl. lia.
Qed.

Lemma bt_host h r st k s :
  host_text h -> host_end r -> m_rest st = h ++ r -> k (advance (length h) st) = Some s -> bt host_address st k = Some s.
Proof.
  intros [Hd|(a & -> & Hne & Ha)] He E Hk; unfold host_address; rewrite bt_alts.
  - by rewrite (bt_domain h r st k s).
  - rewrite bt_not_begin; [|done|by rewrite E]. rewrite bt_alts, bt_not_begin; [|done|by rewrite E].
    by apply (bt_ipv6 a r).
Qed.

(** The port is one to six digits. *)
Lemma bt_host_port h p r off :
  host_text h -> p <> [] -> length p <= 6 -> all isdigit p -> none_of isdigit r ->
  bt HostAndPort (mkM off (h ++ ":"%char :: p ++ r) []) Some
  = Some (mkM (off + length h + 1 + length p) r
      [(2, (off + length h + 1, off + length h + 1 + length p)); (1, (off, off + length h))]).
Proof.
  intros Hh Hp Hl Hd Hr. unfold HostAndPort. rewrite bt_seq, bt_group.
  apply (bt_host h (":"%char :: p ++ r)); try done. rewrite at_advance by done.
  unfold capture at 1. cbn [m_pos m_rest m_caps]. unfold POpt. rewrite bt_alt, bt_seq.
  rewrite (bt_chr _ _ _ (p ++ r)) by done.
  change (advance 1 (mkM ?o (":"%char :: ?l) ?c)) with (mkM (o + 1) l c). rewrite bt_group.
  destruct p as [|x p]; [done|]. inversion Hd as [|? ? Hx Hd']; subst. unfold PRange.
  rewrite bt_seq, (bt_cls_hit _ _ _ x (p ++ r)) by done. simpl in Hl.
  erewrite (bt_upto (6 - 1) isdigit _ _ p r); [done|done|done|lia|by right|].
  rewrite advance_advance. change (x :: p ++ r) with ((x :: p) ++ r). rewrite at_advance by done. done.
Qed.

Lemma bt_host_only h r off :
  host_text h -> host_end r -> none_of (one_of ":") r ->
  bt HostAndPort (mkM off (h ++ r) []) Some = Some (mkM (off + length h) r [(1, (off, off + length h))]).
Proof.
  intros Hh He Hr. unfold HostAndPort. rewrite bt_seq, bt_group.
  apply (bt_host h r); try done. rewrite at_advance by done. unfold POpt. rewrite bt_alt, bt_seq.
  rewrite bt_chr_fail; [done|]. cbn [capture m_rest]. by intros r' ->.
Qed.

(** ** Parameters *)

(** White space, a mark, and a run of other characters: the url and the
    header parameters. *)
Lemma bt_marked c mark t r off :
  isspace mark = false -> t <> [] -> all c t -> none_of c r ->
  bt (PSeqs [SWS; PChr mark; PGroup 1 (PPoss c)]) (mkM off (mark :: t ++ r) []) Some
  = Some (mkM (off + 1 + length t) r [(1, (off + 1, off + 1 + length t))]).
Proof.
  intros Hm Hne Ht Hr. rewrite bt_seqs, bt_sws by done. rewrite bt_seqs, (bt_chr _ _ _ (t ++ r)) by done.
  change (advance 1 (mkM ?o (mark :: ?l) ?c)) with (mkM (o + 1) l c).
  rewrite bt_seqs1, bt_group, (bt_poss c _ _ t r) by done. rewrite at_advance by done. done.
Qed.

(** A field parameter name: what comes next does not continue it. *)
Lemma bt_field_name n r off :
  n <> [] -> all token_char n -> none_of token_char r -> none_of isspace r ->
  bt FieldParamName (mkM off (";"%char :: n ++ r) []) Some
  = Some (mkM (off + 1 + length n) r [(1, (off + 1, off + 1 + length n))]).
Proof.
  intros Hne Hn Hr1 Hr2. unfold FieldParamName. rewrite bt_seqs, bt_sws by done.
  rewrite bt_seqs, (bt_chr _ _ _ (n ++ r)) by done.
  change (advance 1 (mkM ?o (";"%char :: ?l) ?c)) with (mkM (o + 1) l c).
  rewrite bt_seqs, bt_sws by (destruct n; [done|]; inversion Hn; subst; by apply token_not_space).
  rewrite bt_seqs, bt_group. unfold SIP_TOKEN. rewrite (bt_poss token_char _ _ n r) by done. rewrite at_advance by done.
  rewrite bt_seqs1, bt_sws by done. done.
Qed.

Lemma bt_field_token v r off :
  v <> [] -> all token_char v -> none_of token_char r ->
  bt FieldParamEqualsUnquotedValue (mkM off ("="%char :: v ++ r) []) Some
  = Some (mkM (off + 1 + length v) r [(1, (off + 1, off + 1 + length v))]).
Proof.
  intros Hne Hv Hr. unfold FieldParamEqualsUnquotedValue. rewrite bt_seqs, (bt_chr _ _ _ (v ++ r)) by done.
  change (advance 1 (mkM ?o ("="%char :: ?l) ?c)) with (mkM (o + 1) l c).
  rewrite bt_seqs, bt_sws by (destruct v; [done|]; inversion Hv; subst; by apply token_not_space).
  rewrite bt_seqs1, bt_group. unfold field_value. rewrite bt_alts. unfold SIP_TOKEN.
  rewrite (bt_poss token_char _ _ v r) by done. rewrite at_advance by done. done.
Qed.

Lemma bt_field_ipv6 a r off :
  a <> [] -> all ipv6_char a ->
  bt FieldParamEqualsUnquotedValue (mkM off ("="%char :: ("["%char :: a ++ ["]"%char]) ++ r) []) Some
  = Some (mkM (off + 1 + length ("["%char :: a ++ ["]"%char])) r [(1, (off + 1, off + 1 + length ("["%char :: a ++ ["]"%char])))]).
Proof.
  intros Hne Ha. unfold FieldParamEqualsUnquotedValue. set (v := "["%char :: a ++ ["]"%char]).
  rewrite bt_seqs, (bt_chr _ _ _ (v ++ r)) by done.
  change (advance 1 (mkM ?o ("="%char :: ?l) ?c)) with (mkM (o + 1) l c).
  rewrite bt_seqs, bt_sws by done. rewrite bt_seqs1, bt_group. unfold field_value.
  rewrite !bt_alts. do 3 (rewrite bt_not_begin by done).
  apply (bt_ipv6 a r); [done|done|done|]. fold v. rewrite at_advance by done. done.
Qed.

Lemma bt_no_unquoted r off : bt FieldParamEqualsUnquotedValue (mkM off ("="%char :: DQUOTE :: r) []) Some = None.
Proof.
  unfold FieldParamEqualsUnquotedValue. rewrite bt_seqs, (bt_chr _ _ _ (DQUOTE :: r)) by done.
  change (advance 1 (mkM ?o ("="%char :: ?l) ?c)) with (mkM (o + 1) l c).
  rewrite bt_seqs, bt_sws by done. by rewrite bt_seqs1, bt_not_begin.
Qed.

Lemma bt_field_quoted v r off :
  DQUOTE ∉ v ->
  bt FieldParamEqualsQuotedValue (mkM off ("="%char :: DQUOTE :: v ++ DQUOTE :: r) []) Some
  = Some (mkM (off + 1 + (length v + 2)) r [(1, (off + 1, off + 1 + (length v + 2)))]).
Proof.
  intros Hv. unfold FieldParamEqualsQuotedValue. rewrite bt_seqs, (bt_chr _ _ _ (DQUOTE :: v ++ DQUOTE :: r)) by done.
  change (advance 1 (mkM ?o ("="%char :: ?l) ?c)) with (mkM (o + 1) l c).
  rewrite bt_seqs, bt_sws by done. rewrite bt_seqs1, bt_group.
  rewrite bt_seqs, (bt_chr _ _ _ (v ++ DQUOTE :: r)) by done.
  change (advance 1 (mkM ?o (DQUOTE :: ?l) ?c)) with (mkM (o + 1) l c). rewrite bt_seqs.
  assert (chunks (PAlt (PPoss (not_of [DQUOTE])) (PSeq (PChr BACKSLASH) (PCls any_char))) (DQUOTE :: r) v) as Hc.
  { assert (chunks (PAlt (PPoss (not_of [DQUOTE])) (PSeq (PChr BACKSLASH) (PCls any_char))) (DQUOTE :: r) []) as Hn.
    { constructor. intros st k E. apply bt_not_begin; [done|]. by rewrite E. }
    destruct v as [|x v]; [done|]. rewrite <- (app_nil_r (x :: v)). constructor; [done| |done].
    intros st k s E Hk. rewrite bt_alt, (bt_poss _ _ _ (x :: v) (DQUOTE :: r)); [by rewrite Hk|done|done| |done].
    apply Forall_forall. intros y Hy. unfold not_of. rewrite bool_decide_false; [done|].
    intros ->%list_elem_of_singleton. done. }
  erewrite (bt_star_chunks _ (DQUOTE :: r) v); [done|done|done|]. rewrite at_advance by done.
  rewrite bt_seqs1, (bt_chr _ _ _ r) by done. unfold capture, advance. simpl. do 2 f_equal; [lia|]. do 3 f_equal. lia.
Qed.

Lemma bt_end_url off : bt EndUrl (mkM off [] []) Some = Some (mkM off [] []).
Proof. done. Qed.

Lemma bt_no_end_url x r off : isspace x = false -> bt EndUrl (mkM off (x :: r) []) Some = None.
Proof.
  intros Hx. unfold EndUrl. rewrite bt_seq, bt_sws by done. cbn [bt m_rest at_eol]. destruct r; [|done].
  rewrite bool_decide_false; [done|]. intros ->. vm_compute in Hx. done.
Qed.
