(* ===== verification/UrlSpec.v ===== *)
(** * Parsing and printing of SIP URLs

    The round trip: a well-formed SIP or SIPS URL printed by toString (or by
    getUri) is parsed back to the same URL.  Each phase of parseString has a
    lemma about the text it is given. *)
From Stdlib Require Import ZArith Lia Ascii String.
From stdpp Require Import base list strings sets.
From S2P Require Import Prelude UtlString UtlStringRefine NameValueTokenizer NameValueTokenizerSpec Format Pcre PcreSpec.
From S2P Require Import UrlCodec Url UrlSyntax.
Local Open Scope nat_scope.

(** ** Well-formed URLs *)

(** A parameter name that needs no escaping anywhere in a URL. *)
Definition uri_name_char (c : ascii) : bool := name_char c && not_of ";?>,&@<" c.
Definition wf_uri_param (p : param) : Prop :=
  fst p <> [] /\ all uri_name_char (fst p) /\ exists v, snd p = Some v /\ nul_free v.

(** A field parameter whose value toString can quote. *)
Definition field_char (c : ascii) : bool := not_of [NUL; DQUOTE; BACKSLASH; NEWLINE_CHAR] c.
Definition wf_field_param (p : param) : Prop :=
  fst p <> [] /\ all token_char (fst p) /\ exists v, snd p = Some v /\ all field_char v.

Definition params_ok (P : param -> Prop) (o : option (list param)) : Prop :=
  match o with None => True | Some ps => ps <> [] /\ Forall P ps end.

Record wf_sip_url (u : Url) : Prop := {
  wu_scheme : is_sip (mScheme u) = true;
  wu_display : nul_free (mDisplayName u) /\ (mDisplayName u = [] \/ display_text (mDisplayName u));
  wu_user : user_text (mUserId u);
  wu_password : password_text (mPassword u) /\ (mUserId u = [] -> mPassword u = []);
  wu_host : host_text (mHostAddress u);
  wu_port : mHostPort u = PORT_NONE \/ portIsValid (mHostPort u) = true;
  wu_path : mPath u = [];
  wu_raw : mRawUrlParameters u = [] /\ mRawHeaderOrQueryParameters u = [];
  wu_params : params_ok wf_uri_param (mpUrlParameters u);
  wu_headers : params_ok wf_uri_param (mpHeaderOrQueryParameters u);
  wu_fields : params_ok wf_field_param (mpFieldParameters u) }.

(** ** The printed texts *)

Definition user_part (u : Url) : list ascii :=
  match mUserId u with
  | [] => []
  | user => user ++ (if negb (bool_decide (mPassword u = [])) || mPasswordSet u then ":"%char :: mPassword u else []) ++ ["@"%char]
  end.
Definition port_part (u : Url) : list ascii := if portIsValid (mHostPort u) then print_port (mHostPort u) else [].
Definition param_part (u : Url) : list ascii := default [] (mpUrlParameters u) ≫= print_url_param.
Definition header_part (u : Url) : list ascii := print_header_params true (default [] (mpHeaderOrQueryParameters u)).
Definition uri_text (u : Url) : list ascii :=
  schemeName (mScheme u) ++ ":"%char :: user_part u ++ mHostAddress u ++ port_part u ++ param_part u ++ header_part u.

(** Nothing is left to parse on demand. *)
Lemma wf_params_parsed u : wf_sip_url u -> parseUrlParameters u = Ok u /\ parseHeaderOrQueryParameters u = Ok u.
Proof.
  intros []. destruct wu_raw0 as [E1 E2]. unfold parseUrlParameters, parseHeaderOrQueryParameters. rewrite E1, E2.
  by destruct (mpUrlParameters u), (mpHeaderOrQueryParameters u).
Qed.

Lemma getUri_text u : wf_sip_url u -> getUri u = Ok (uri_text u, u).
Proof.
  intros Hu. destruct (wf_params_parsed u Hu) as [Hp Hh]. destruct Hu. unfold getUri.
  rewrite Hp. cbn [obind]. rewrite Hh. cbn [obind]. do 2 f_equal.
  assert (has_path (mScheme u) = false) as -> by (by destruct (mScheme u)).
  rewrite decide_False by (intros E; by rewrite E in wu_scheme0).
  unfold uri_text, user_part, port_part, param_part, header_part. destruct (mUserId u); assoc.
Qed.

(** A printed list of parameters is a mark and the joined parameters. *)
Lemma param_part_join ps : ps <> [] ->
  ps ≫= print_url_param = ";"%char :: join_fields ";" (print_param <$> ps).
Proof.
  induction ps as [|p ps IH]; [done|]. intros _. cbn [mbind list_bind]. fold (mbind (M := list) print_url_param ps).
  destruct ps as [|p' ps]; [simpl; by rewrite app_nil_r|]. rewrite IH by done. done.
Qed.

Lemma header_part_join b ps : ps <> [] ->
  print_header_params b ps = (if b then "?"%char else "&"%char) :: join_fields "&" (print_param <$> ps).
Proof.
  revert b. induction ps as [|p ps IH]; intros b; [done|]. intros _. cbn [print_header_params].
  destruct ps as [|p' ps]; [simpl; by rewrite app_nil_r|]. rewrite IH by done. done.
Qed.

(** ** Characters of the printed texts *)

Lemma escaped_in (c : ascii -> bool) : forallb (fun n => implb (escaped (ascii_of_nat n)) (c (ascii_of_nat n))) (seq 0 256) = true ->
  forall x, escaped x = true -> c x = true.
Proof.
  intros H x Hx. rewrite forallb_forall in H. specialize (H (nat_of_ascii x)).
  rewrite ascii_nat_embedding, Hx in H. apply H. apply in_seq. pose proof (nat_ascii_bounded x). lia.
Qed.

(** Every character of a printed parameter: [c] holds of names, of [=] and
    of escaped values. *)
Lemma print_param_all (c : ascii -> bool) p :
  (forall x, uri_name_char x = true -> c x = true) -> c "="%char = true -> (forall x, escaped x = true -> c x = true) ->
  wf_uri_param p -> all c (print_param p).
Proof.
  intros H1 H2 H3 (_ & Hn & v & Hv & _). unfold print_param, value_of. rewrite Hv. simpl. apply Forall_app. split.
  - eapply Forall_impl; [exact Hn|]. auto.
  - unfold print_value. destruct v as [|x v]; [constructor|]. constructor; [done|].
    eapply Forall_impl; [apply escape_escaped|]. auto.
Qed.

Lemma join_all (c : ascii -> bool) sep fs : c sep = true -> Forall (all c) fs -> all c (join_fields sep fs).
Proof.
  intros Hs. induction 1 as [|f fs Hf Hfs IH]; [constructor|]. destruct fs as [|g fs]; [done|].
  rewrite join_cons by done. apply Forall_app. split; [done|]. by constructor.
Qed.

Lemma params_all (c : ascii -> bool) sep ps :
  (forall x, uri_name_char x = true -> c x = true) -> c "="%char = true -> (forall x, escaped x = true -> c x = true) ->
  c sep = true -> Forall wf_uri_param ps -> all c (join_fields sep (print_param <$> ps)).
Proof.
  intros H1 H2 H3 H4 Hps. apply join_all; [done|]. apply Forall_fmap. eapply Forall_impl; [exact Hps|].
  intros p Hp. by apply print_param_all.
Qed.

Lemma uri_name_facts c : uri_name_char c = true ->
  name_char c = true /\ c <> ";"%char /\ c <> "?"%char /\ c <> ">"%char /\ c <> ","%char /\ c <> "&"%char /\ c <> "@"%char.
Proof.
  unfold uri_name_char, not_of. rewrite andb_true_iff, negb_true_iff, bool_decide_eq_false. intros [H1 H2].
  split_and!; [done|..]; intros ->; apply H2; cbn; set_solver.
Qed.

Lemma not_of_intro l c : c ∉ l -> not_of l c = true.
Proof. intros H. unfold not_of. by rewrite bool_decide_false. Qed.

(** ** Phases *)

Section Phases.
Context (fill : nat -> ascii) `{Pcre pcre_exec}.

(** Short enough for every pattern of the parser. *)
Definition url_patterns : list pat :=
  [DisplayName; AngleBrackets; SupportedScheme; SupportedSchemeSWS; UsernameAndPassword; HostAndPort; UrlParams;
   HeaderOrQueryParams; EndUrl; CommaSeparator; FieldParamName; FieldParamEqualsUnquotedValue;
   FieldParamEqualsQuotedValue; End_; EndSws].
Definition short (s : list ascii) : Prop := Forall (fun p => length s <= pcre_limit p) url_patterns.

Lemma short_in s p : short s -> p ∈ url_patterns -> length s <= pcre_limit p.
Proof. unfold short. rewrite Forall_forall. auto. Qed.

Ltac lens := repeat (rewrite !length_app || cbn [length]); lia.

Ltac here_short := apply short_in; [done|unfold url_patterns; repeat (apply list_elem_of_here || apply list_elem_of_further)].

Lemma match_one s a b x y : MatchString s (mkMatch a b [(1, (x, y))]) 1 = Some (take (y - x) (drop x s)).
Proof. done. Qed.

(** The position after [pre]. *)
Lemma pos_app (pre w : list ascii) : length pre + length w = length (pre ++ w).
Proof. by rewrite length_app. Qed.

Lemma parse_display_words d r u :
  short (d ++ "<"%char :: r) -> words d ->
  parse_display pcre_exec (d ++ "<"%char :: r) u 0 = (set_display d u, length d).
Proof.
  intros Hs Hw. unfold parse_display.
  rewrite (here_start DisplayName (d ++ "<"%char :: r) _ ltac:(here_short) (bt_display_words d r 0 Hw)).
  cbn [m_pos m_caps]. change (Matches (mkMatch 0 (0 + length d) [(1, (0, 0 + length d))])) with 2. cbn iota.
  unfold append_match. rewrite match_one, (sub_split [] d ("<"%char :: r)) by done. done.
Qed.

Lemma parse_display_quoted b r u :
  short ((DQUOTE :: b ++ [DQUOTE]) ++ "<"%char :: r) -> quoted_text b ->
  parse_display pcre_exec ((DQUOTE :: b ++ [DQUOTE]) ++ "<"%char :: r) u 0
  = (set_display (DQUOTE :: b ++ [DQUOTE]) u, length (DQUOTE :: b ++ [DQUOTE])).
Proof.
  intros Hs Hb. unfold parse_display.
  assert ((DQUOTE :: b ++ [DQUOTE]) ++ "<"%char :: r = DQUOTE :: b ++ DQUOTE :: "<"%char :: r) as E by assoc.
  rewrite E in *.
  rewrite (here_start DisplayName (DQUOTE :: b ++ DQUOTE :: "<"%char :: r) _ ltac:(here_short) (bt_display_quoted b r 0 Hb)).
  cbn [m_pos m_caps]. f_equal; [|simpl; lens].
  change (Matches (mkMatch 0 _ [(2, ?c)])) with 3. cbn iota. unfold append_match.
  change (MatchString ?s (mkMatch 0 ?e [(2, (?x, ?y))]) 2) with (Some (take (y - x) (drop x s))).
  rewrite (sub_split [DQUOTE] b ([DQUOTE] ++ "<"%char :: r)) by done. done.
Qed.

Lemma parse_display_text d r u :
  short (d ++ "<"%char :: r) -> display_text d ->
  parse_display pcre_exec (d ++ "<"%char :: r) u 0 = (set_display d u, length d).
Proof. intros Hs [Hw|(b & -> & Hb)]; [by apply parse_display_words|by apply parse_display_quoted]. Qed.

Lemma parse_display_none s u :
  (forall off, bt DisplayName (mkM off s []) Some = None) -> parse_display pcre_exec s u 0 = (set_display [] u, 0).
Proof. intros Hb. unfold parse_display. by rewrite (here_not DisplayName [] s Hb : here pcre_exec DisplayName s 0 = None). Qed.

Lemma parse_brackets_text pre t r :
  short (pre ++ "<"%char :: t ++ ">"%char :: r) -> t <> [] -> ">"%char ∉ t ->
  parse_brackets pcre_exec (pre ++ "<"%char :: t ++ ">"%char :: r) (length pre)
  = Ok (length (pre ++ ["<"%char]), Some (length (pre ++ "<"%char :: t ++ [">"%char]))).
Proof.
  intros Hs Hne Ht. unfold parse_brackets.
  rewrite (here_at AngleBrackets pre _ _ ltac:(here_short) (bt_brackets t r (length pre) Hne Ht)).
  cbn [m_pos m_caps]. change (MatchStart (mkMatch ?a ?b [(1, (?x, ?y))]) 1) with (Ok x : outcome nat). cbn [obind mt_end].
  do 2 f_equal; [lens|]. f_equal. lens.
Qed.

Lemma parse_brackets_none pre s :
  none_of (fun c => isspace c || one_of "<" c) s -> parse_brackets pcre_exec (pre ++ s) (length pre) = Ok (length pre, None).
Proof.
  intros Hb. unfold parse_brackets. rewrite (here_cannot_begin AngleBrackets pre s); [done|done|].
  eapply none_of_imp; [|exact Hb]. intros x [Hx1 Hx2]%orb_false_iff. cbn. rewrite Hx1. cbn.
  apply bool_decide_eq_false in Hx2. rewrite !bool_decide_false; [done|]. intros ->. apply Hx2. cbn. set_solver.
Qed.

Lemma parse_scheme_text form sc pre r :
  short (pre ++ schemeName sc ++ ":"%char :: r) -> is_sip sc = true ->
  parse_scheme pcre_exec form (pre ++ schemeName sc ++ ":"%char :: r) (length pre)
  = (sc, length (pre ++ schemeName sc ++ [":"%char])).
Proof.
  intros Hs Hsc. unfold parse_scheme. fold (scheme_pattern form).
  rewrite (here_at (scheme_pattern form) pre _ _ ltac:(unfold scheme_pattern; case_decide; here_short) (bt_scheme form sc r (length pre) Hsc)).
  cbn [m_pos m_caps mt_end]. f_equal; [by destruct sc|]. lens.
Qed.

(** The text behind the user part cannot be taken for a user. *)
Definition no_user (r : list ascii) : Prop :=
  exists t tail, r = t ++ tail /\ "@"%char ∉ t /\ none_of (names UsernameAndPassword) tail.

Lemma match_two_first s a b x y c : MatchString s (mkMatch a b [(2, c); (1, (x, y))]) 1 = Some (take (y - x) (drop x s)).
Proof. done. Qed.
Lemma match_two_second s a b x y c : MatchString s (mkMatch a b [(2, (x, y)); (1, c)]) 2 = Some (take (y - x) (drop x s)).
Proof. done. Qed.

Lemma parse_user_text v pre r u :
  short (pre ++ user_part v ++ r) -> mScheme u <> FileUrlScheme -> mUserId u = [] -> mPassword u = [] ->
  user_text (mUserId v) -> password_text (mPassword v) -> (mUserId v = [] -> mPassword v = [] /\ no_user r) ->
  parse_user pcre_exec (pre ++ user_part v ++ r) u (length pre)
  = (set_user (mUserId v) (mPassword v) (mPasswordSet u) u, length (pre ++ user_part v)).
Proof.
  intros Hs Hf Hu Hp Htu Htp Hno. unfold parse_user. rewrite decide_False by done.
  unfold user_part in *. destruct (mUserId v) as [|x us] eqn:Ev.
  - destruct (Hno eq_refl) as [-> (t & tail & -> & Ht & Htl)]. rewrite app_nil_l.
    rewrite here_not by (intros off; by apply bt_no_user). rewrite app_nil_r. destruct u; simpl in *; by subst.
  - set (user := x :: us) in *. destruct (negb (bool_decide (mPassword v = [])) || mPasswordSet v) eqn:Epw.
    + assert (pre ++ (user ++ (":"%char :: mPassword v) ++ ["@"%char]) ++ r
        = pre ++ user ++ ":"%char :: mPassword v ++ "@"%char :: r) as E by assoc. rewrite E in *.
      rewrite (here_at UsernameAndPassword pre _ _ ltac:(here_short) (bt_user_password user (mPassword v) r (length pre) Htu ltac:(done) Htp)).
      cbn [m_pos m_caps mt_end]. unfold append_match. rewrite match_two_first, match_two_second, Hu, Hp.
      rewrite (sub_split pre user (":"%char :: mPassword v ++ "@"%char :: r)) by done.
      rewrite (sub_split (pre ++ user ++ [":"%char]) (mPassword v) ("@"%char :: r)) by first [assoc | lens].
      f_equal. lens.
    + apply orb_false_iff in Epw as [Epw _]. apply negb_false_iff, bool_decide_eq_true in Epw. rewrite Epw.
      assert (pre ++ (user ++ [] ++ ["@"%char]) ++ r = pre ++ user ++ "@"%char :: r) as E by assoc. rewrite E in *.
      rewrite (here_at UsernameAndPassword pre _ _ ltac:(here_short) (bt_user_only user r (length pre) Htu ltac:(done))).
      cbn [m_pos m_caps mt_end]. unfold append_match. rewrite match_one, Hu, Hp.
      rewrite (sub_split pre user ("@"%char :: r)) by done.
      change (MatchString ?s (mkMatch ?a ?b [(1, ?c)]) 2) with (None : option (list ascii)).
      f_equal. lens.
Qed.

Lemma port_digits port : portIsValid port = true ->
  fmt_d port <> [] /\ length (fmt_d port) <= 6 /\ all isdigit (fmt_d port) /\ atoi (fmt_d port) = Ok port.
Proof.
  unfold portIsValid. rewrite andb_true_iff, !Z.leb_le. intros Hp. unfold fmt_d. rewrite (proj2 (Z.ltb_ge _ _)) by lia.
  destruct (fmt_unsigned_spec port) as (H1 & H2 & H3); [lia|].
  pose proof (fmt_unsigned_length port 5 ltac:(simpl; lia) ltac:(lia)).
  assert (fmt_unsigned port <> []) by (intros E; rewrite E in H3; simpl in H3; lia).
  split_and!; [done|lia|done|].
  rewrite <- (app_nil_r (fmt_unsigned port)), atoi_digits; [by rewrite H2|done|done|rewrite H2; unfold INT_MAX; lia|done].
Qed.

(** What follows a host with its port, and one without. *)
Definition after_host (r : list ascii) : Prop := host_end r /\ none_of (one_of ":") r /\ none_of isdigit r.

Lemma parse_host_text v pre r u :
  short (pre ++ mHostAddress v ++ port_part v ++ r) -> is_sip (mScheme u) = true ->
  mHostAddress u = [] -> mHostPort u = PORT_NONE -> host_text (mHostAddress v) ->
  mHostPort v = PORT_NONE \/ portIsValid (mHostPort v) = true -> after_host r ->
  parse_host pcre_exec (pre ++ mHostAddress v ++ port_part v ++ r) u (length pre)
  = Ok (set_host (mHostAddress v) (mHostPort v) u, length (pre ++ mHostAddress v ++ port_part v)).
Proof.
  intros Hs Hsc Hu Hp Hh Hv (He & Hc & Hd). unfold parse_host, port_part in *.
  destruct (portIsValid (mHostPort v)) eqn:Ep.
  - destruct (port_digits _ Ep) as (Hp1 & Hp2 & Hp3 & Hp4). unfold print_port in *.
    assert (pre ++ mHostAddress v ++ (":"%char :: fmt_d (mHostPort v)) ++ r
      = pre ++ mHostAddress v ++ ":"%char :: fmt_d (mHostPort v) ++ r) as E by done. rewrite E in *.
    rewrite (here_at HostAndPort pre _ _ ltac:(here_short) (bt_host_port _ _ r (length pre) Hh Hp1 Hp2 Hp3 Hd)).
    cbn [m_pos m_caps mt_end]. unfold append_match. rewrite match_two_first, match_two_second.
    rewrite (sub_split (pre ++ mHostAddress v ++ [":"%char]) (fmt_d (mHostPort v)) r) by first [assoc | lens].
    rewrite (sub_split pre (mHostAddress v) (":"%char :: fmt_d (mHostPort v) ++ r)) by done.
    rewrite Hp4, Hu. cbn [obind]. rewrite decide_False by (cbn; intros E'; by rewrite E' in Hsc).
    do 2 f_equal. lens.
  - destruct Hv as [Hv|]; [|done]. rewrite app_nil_l in *.
    rewrite (here_at HostAndPort pre _ _ ltac:(here_short) (bt_host_only _ r (length pre) Hh He Hc)).
    cbn [m_pos m_caps mt_end]. unfold append_match. rewrite match_one, (sub_split pre (mHostAddress v) r) by done.
    change (MatchString ?s (mkMatch ?a ?b [(1, ?c)]) 2) with (None : option (list ascii)).
    cbn [obind]. rewrite Hp, Hu, Hv. rewrite decide_False by (cbn; intros E'; by rewrite E' in Hsc).
    do 2 f_equal. lens.
Qed.

(** The raw text of a list of parameters. *)
Definition raw_params (sep : ascii) (o : option (list param)) : list ascii :=
  match o with Some ps => join_fields sep (print_param <$> ps) | None => [] end.

Lemma parse_path_text form after v pre r u :
  short (pre ++ param_part v ++ r) -> is_sip (mScheme u) = true -> mRawUrlParameters u = [] -> mpUrlParameters u = None ->
  params_ok wf_uri_param (mpUrlParameters v) -> (mpUrlParameters v <> None -> form = AddrSpec \/ after <> None) ->
  none_of url_param_char r -> none_of (fun c => isspace c || one_of ";" c) r ->
  parse_path pcre_exec form after (pre ++ param_part v ++ r) u (length pre)
  = Ok (set_url_params (raw_params ";" (mpUrlParameters v)) None u, length (pre ++ param_part v)).
Proof.
  intros Hs Hsc Hu Hl Hv Hform Hr Hr2. unfold parse_path, param_part in *.
  assert (has_path (mScheme u) = false) as -> by (by destruct (mScheme u)). rewrite Hsc. cbn [andb].
  destruct (mpUrlParameters v) as [ps|]; cbn [default raw_params] in *.
  - assert (bool_decide (form = AddrSpec) || bool_decide (after <> None) = true) as ->.
    { destruct (Hform ltac:(done)) as [-> |Ha]; [done|]. rewrite (bool_decide_true (after <> None)) by done. apply orb_true_r. }
    destruct Hv as [Hne Hps]. change (id ps) with ps in *. rewrite param_part_join in * by done.
    set (t := join_fields ";" (print_param <$> ps)) in *.
    assert (t <> []) as Ht.
    { subst t. destruct ps as [|p ps]; [done|]. inversion Hps as [|? ? (Hn & _) _]; subst. cbn [fmap list_fmap].
      destruct p as [n o]; simpl in Hn. destruct n as [|x n]; [done|]. destruct (print_param <$> ps); done. }
    assert (all url_param_char t) as Hall.
    { apply params_all; [|done| |done|done].
      - intros x Hx. apply uri_name_facts in Hx as (_ & _ & H1 & H2 & H3 & _). apply not_of_intro. cbn. set_solver.
      - apply escaped_in. vm_compute. reflexivity. }
    rewrite (here_at UrlParams pre ((";"%char :: t) ++ r) _ ltac:(here_short)
      (bt_marked url_param_char ";" t r (length pre) ltac:(done) Ht Hall Hr)).
    cbn [m_pos m_caps]. change (AfterMatch (mkMatch ?a ?b [(1, (?x, ?y))]) 1) with (Ok y : outcome nat). cbn [obind].
    unfold append_match. rewrite match_one, (sub_split (pre ++ [";"%char]) t r) by first [assoc | lens].
    rewrite Hu, Hl. do 2 f_equal. lens.
  - change (([] : list param) ≫= print_url_param) with ([] : list ascii) in *. rewrite app_nil_l, app_nil_r in *.
    rewrite (here_cannot_begin UrlParams pre r); [|done|].
    2:{ eapply none_of_imp; [|exact Hr2]. intros x [Hx1 Hx2]%orb_false_iff. cbn. rewrite Hx1. cbn.
        apply bool_decide_eq_false in Hx2. rewrite !bool_decide_false; [done|]. intros ->. apply Hx2. cbn. set_solver. }
    assert (set_url_params [] None u = u) as -> by (destruct u; simpl in *; by subst).
    by destruct (bool_decide (form = AddrSpec) || bool_decide (after <> None)).
Qed.

Lemma parse_headers_text v pre r u :
  short (pre ++ header_part v ++ r) -> mRawHeaderOrQueryParameters u = [] -> mpHeaderOrQueryParameters u = None ->
  params_ok wf_uri_param (mpHeaderOrQueryParameters v) ->
  none_of header_char r -> none_of (fun c => isspace c || one_of "?" c) r ->
  parse_headers pcre_exec (pre ++ header_part v ++ r) u (length pre)
  = (set_header_params (raw_params "&" (mpHeaderOrQueryParameters v)) None u, length (pre ++ header_part v)).
Proof.
  intros Hs Hu Hl Hv Hr Hr2. unfold parse_headers, header_part in *.
  destruct (mpHeaderOrQueryParameters v) as [ps|]; cbn [default raw_params] in *.
  - destruct Hv as [Hne Hps]. change (id ps) with ps in *. rewrite header_part_join in * by done.
    set (t := join_fields "&" (print_param <$> ps)) in *.
    assert (t <> []) as Ht.
    { subst t. destruct ps as [|p ps]; [done|]. inversion Hps as [|? ? (Hn & _) _]; subst. cbn [fmap list_fmap].
      destruct p as [n o]; simpl in Hn. destruct n as [|x n]; [done|]. destruct (print_param <$> ps); done. }
    assert (all header_char t) as Hall.
    { apply params_all; [|done| |done|done].
      - intros x Hx. apply uri_name_facts in Hx as (_ & _ & _ & H2 & H3 & _). apply not_of_intro. cbn. set_solver.
      - apply escaped_in. vm_compute. reflexivity. }
    rewrite (here_at HeaderOrQueryParams pre (("?"%char :: t) ++ r) _ ltac:(here_short)
      (bt_marked header_char "?" t r (length pre) ltac:(done) Ht Hall Hr)).
    cbn [m_pos m_caps mt_end].
    unfold append_match. rewrite match_one, (sub_split (pre ++ ["?"%char]) t r) by first [assoc | lens].
    rewrite Hu, Hl. f_equal. lens.
  - change (print_header_params true []) with ([] : list ascii) in *. rewrite app_nil_l, app_nil_r in *.
    rewrite (here_cannot_begin HeaderOrQueryParams pre r); [|done|].
    2:{ eapply none_of_imp; [|exact Hr2]. intros x [Hx1 Hx2]%orb_false_iff. cbn. rewrite Hx1. cbn.
        apply bool_decide_eq_false in Hx2. rewrite !bool_decide_false; [done|]. intros ->. apply Hx2. cbn. set_solver. }
    f_equal. destruct u; simpl in *; by subst.
Qed.

(** ** Field parameters *)

(** The printed value: unquoted only when it is a token or an IPv6
    reference. *)
Definition plain_value (v : list ascii) : Prop := all token_char v \/ ipv6_text v.

Lemma consumes_ipv6 v st : consumes ipv6_address (mkM 0 v []) st -> m_rest st = [] -> ipv6_text v.
Proof.
  intros Hc Er. unfold ipv6_address in Hc. cbn [PSeqs] in Hc.
  apply consumes_seq_inv in Hc as (st1 & H1%consumes_chr_inv & Hc). cbn [m_rest] in H1.
  apply consumes_seq_inv in Hc as (st2 & H2 & H3%consumes_chr_inv). rewrite Er in H3.
  destruct (consumes_names _ _ _ H2) as (w & [Ew _] & Hw). rewrite H3 in Ew.
  exists w. split; [by rewrite H1, Ew|]. split.
  - intros ->. apply consumes_begins in H2 as [[E N]|(x & r & E & B)]; [done|].
    rewrite Ew in E. simpl in E. injection E as <- <-. by vm_compute in B.
  - eapply Forall_impl; [exact Hw|]. intros x. cbn. by rewrite orb_diag.
Qed.

(** A match of the whole value, but for a newline at its end. *)
Lemma ok_unquoted_match v m :
  pcre_exec FieldParamValueOkUnquoted v 0 = Some m ->
  exists st, consumes field_value (mkM 0 v []) st /\ at_eol (m_rest st) = true.
Proof.
  intros E. apply pcre_sound in E. unfold search in E. cbn [Nat.leb] in E. rewrite drop_0 in E.
  apply search_from_start in E as (_ & st' & (st1 & Hc & _)%bt_consumes & _).
  unfold FieldParamValueOkUnquoted in Hc. cbn [PSeqs] in Hc.
  apply consumes_seq_inv in Hc as (st2 & H1 & (st3 & H3 & H4)%consumes_seq_inv).
  inversion H1 as [| | | | | | | | | |? Hp|]; subst. cbn [m_pos] in Hp. rewrite Hp, Nat.sub_0_r, drop_0 in H3.
  inversion H4 as [| | | | | | | | | | |? He]; subst. by exists st1.
Qed.

Lemma ok_unquoted_full v m :
  all field_char v -> pcre_exec FieldParamValueOkUnquoted v 0 = Some m ->
  exists st, consumes field_value (mkM 0 v []) st /\ m_rest st = [].
Proof.
  intros Hv (st & H3 & He)%ok_unquoted_match. exists st. split; [done|].
  destruct (consumes_between _ _ _ H3) as (w & Ew & _). cbn [m_rest] in Ew.
  destruct (m_rest st) as [|x [|]] eqn:Er; [done| |done]. exfalso. cbn in He. apply bool_decide_eq_true in He as ->.
  rewrite Ew in Hv. apply Forall_app in Hv as [_ Hv]. inversion Hv as [|? ? Hn _]; subst. by vm_compute in Hn.
Qed.

Lemma ok_unquoted_no_quote v m : pcre_exec FieldParamValueOkUnquoted v 0 = Some m -> DQUOTE ∉ v.
Proof.
  intros (st & Hc & He)%ok_unquoted_match Hq. destruct (consumes_names _ _ _ Hc) as (w & [Ew _] & Hw). cbn [m_rest] in Ew.
  rewrite Ew in Hq. apply elem_of_app in Hq as [Hq|Hq].
  - rewrite Forall_forall in Hw. by specialize (Hw _ Hq).
  - destruct (m_rest st) as [|x [|]]; [by apply elem_of_nil in Hq| |done]. cbn in He. apply bool_decide_eq_true in He as ->.
    by apply list_elem_of_singleton in Hq.
Qed.

Lemma ok_unquoted_plain v m :
  all field_char v -> pcre_exec FieldParamValueOkUnquoted v 0 = Some m -> plain_value v.
Proof.
  intros Hv (st & Hc & Er)%ok_unquoted_full; [|done]. unfold field_value in Hc. cbn [PAlts] in Hc.
  repeat apply consumes_alt_inv in Hc as [Hc|Hc]; [| | |right; by apply (consumes_ipv6 v st)];
    left; apply (full_names _ _ _ token_char Hc Er); intros x; all_bytes x; intros Hx; (done || discriminate Hx).
Qed.

(** What gen_value_escape writes for a value. *)
Lemma gen_value_escape_cases v :
  all field_char v ->
  exists e, gen_value_escape pcre_exec v = Ok e /\ (e = v /\ plain_value v \/ e = DQUOTE :: v ++ [DQUOTE]).
Proof.
  intros Hv. assert (nul_free v) as Hn.
  { eapply Forall_impl; [exact Hv|]. intros x Hx ->. by vm_compute in Hx. }
  unfold gen_value_escape. rewrite (cstr_id v) by done.
  destruct (pcre_exec FieldParamValueOkUnquoted v 0) as [m|] eqn:E.
  - exists v. split; [done|]. left. split; [done|]. by apply (ok_unquoted_plain v m).
  - exists (DQUOTE :: v ++ [DQUOTE]). split; [|by right].
    assert (existsb (one_of [DQUOTE; BACKSLASH]) v = false) as ->; [|done].
    clear -Hv. induction Hv as [|x v Hx Hv IH]; [done|]. cbn [existsb]. rewrite IH, orb_false_r.
    revert Hx. all_bytes x; intros Hx; (done || discriminate Hx).
Qed.

Lemma plain_unescape v : v = [] \/ plain_value v -> gen_value_unescape fill v = v.
Proof.
  intros Hv. assert (nul_free v /\ match v with x :: _ => one_of [" "%char; "009"%char] x = false /\ x <> DQUOTE | [] => True end) as [Hn Hx].
  { destruct Hv as [-> |[Hv|(a & -> & _ & Ha)]]; [split; [constructor|done]| |].
    - split; [eapply Forall_impl; [exact Hv|]; intros x Hx ->; by vm_compute in Hx|].
      destruct Hv as [|x v Hx _]; [done|]. split; [|intros ->; by vm_compute in Hx].
      revert Hx. all_bytes x; intros Hx; (done || discriminate Hx).
    - split; [|split; [vm_compute; reflexivity|intros E; vm_compute in E; discriminate E]]. constructor; [done|]. apply Forall_app. split; [|by repeat constructor].
      eapply Forall_impl; [exact Ha|]. intros x Hx ->. by vm_compute in Hx. }
  unfold gen_value_unescape. rewrite cstr_id by done. destruct v as [|x v]; [done|]. destruct Hx as [Hx1 Hx2].
  cbn [span]. rewrite Hx1. cbn [length seq fmap list_fmap app]. rewrite decide_False by done.
  by apply put_back_short.
Qed.

Lemma unquote_text v t : DQUOTE ∉ v -> BACKSLASH ∉ v -> unquote_loop (v ++ DQUOTE :: t) = v.
Proof.
  intros H1 H2. induction v as [|x v IH]; cbn [app unquote_loop].
  - by rewrite decide_False, decide_True by done.
  - apply not_elem_of_cons in H1 as [H1 ?], H2 as [H2 ?]. rewrite !decide_False by done. by rewrite IH.
Qed.

Lemma field_char_facts v : all field_char v -> nul_free v /\ DQUOTE ∉ v /\ BACKSLASH ∉ v.
Proof.
  intros Hv. split_and!.
  - eapply Forall_impl; [exact Hv|]. intros x Hx ->. by vm_compute in Hx.
  - intros Hin. unfold all in Hv. rewrite Forall_forall in Hv. by specialize (Hv _ Hin).
  - intros Hin. unfold all in Hv. rewrite Forall_forall in Hv. by specialize (Hv _ Hin).
Qed.

Lemma quoted_unescape v : all field_char v -> gen_value_unescape fill (DQUOTE :: v ++ [DQUOTE]) = v.
Proof.
  intros (Hn & Hq & Hb)%field_char_facts. unfold gen_value_unescape. rewrite cstr_id.
  - cbn [span]. change (one_of [" "%char; "009"%char] DQUOTE) with false. cbn [length seq fmap list_fmap app].
    rewrite decide_True by done. rewrite unquote_text by done. apply put_back_short; [done|lens].
  - constructor; [done|]. apply Forall_app. split; [done|]. by repeat constructor.
Qed.

(** What follows a field parameter. *)
Definition field_rest (r : list ascii) : Prop := r = [] \/ exists r', r = ";"%char :: r'.

Lemma print_field_rest ps t : print_field_params pcre_exec ps = Ok t -> field_rest t.
Proof.
  destruct ps as [|p ps]; cbn [print_field_params]; [intros [= <-]; by left|].
  destruct (match value_of p with [] => _ | _ => _ end) as [v| | |]; cbn [obind]; try done.
  destruct (print_field_params pcre_exec ps); cbn [obind]; try done. intros [= <-]. right. by eexists.
Qed.

(** The value of a parameter as the loop reads it. *)
Definition field_value_at (s : list ascii) (off : nat) : list ascii * nat :=
  match here pcre_exec FieldParamEqualsUnquotedValue s off with
  | Some m => (append_match s m 1 [], mt_end m)
  | None =>
      match here pcre_exec FieldParamEqualsQuotedValue s off with
      | Some m => (append_match s m 1 [], mt_end m)
      | None => ([], off)
      end
  end.

Lemma field_value_none pre r : field_rest r -> field_value_at (pre ++ r) (length pre) = ([], length pre).
Proof.
  intros Hr. unfold field_value_at.
  by rewrite !here_cannot_begin by (done || by destruct Hr as [-> |[r' ->]]).
Qed.

Lemma field_value_plain pre v r :
  short (pre ++ "="%char :: v ++ r) -> v <> [] -> plain_value v -> field_rest r ->
  field_value_at (pre ++ "="%char :: v ++ r) (length pre) = (v, length (pre ++ "="%char :: v)).
Proof.
  intros Hs Hne Hv Hr. unfold field_value_at.
  assert (bt FieldParamEqualsUnquotedValue (mkM (length pre) ("="%char :: v ++ r) []) Some
    = Some (mkM (length pre + 1 + length v) r [(1, (length pre + 1, length pre + 1 + length v))])) as Hb.
  { destruct Hv as [Hv|(a & -> & Ha & Hall)]; [|by apply bt_field_ipv6].
    apply bt_field_token; [done|done|]. by destruct Hr as [-> |[r' ->]]. }
  rewrite (here_at FieldParamEqualsUnquotedValue pre _ _ ltac:(here_short) Hb). cbn [m_pos m_caps mt_end]. unfold append_match.
  rewrite match_one, (sub_split (pre ++ ["="%char]) v r) by first [assoc | lens]. f_equal. lens.
Qed.

Lemma field_value_quoted pre v r :
  short (pre ++ "="%char :: DQUOTE :: v ++ DQUOTE :: r) -> DQUOTE ∉ v ->
  field_value_at (pre ++ "="%char :: DQUOTE :: v ++ DQUOTE :: r) (length pre)
  = (DQUOTE :: v ++ [DQUOTE], length (pre ++ "="%char :: DQUOTE :: v ++ [DQUOTE])).
Proof.
  intros Hs Hv. unfold field_value_at.
  rewrite here_not by (intros off; apply bt_no_unquoted).
  rewrite (here_at FieldParamEqualsQuotedValue pre _ _ ltac:(here_short) (bt_field_quoted v r (length pre) Hv)). cbn [m_pos m_caps mt_end].
  unfold append_match.
  rewrite match_one, (sub_split (pre ++ ["="%char]) (DQUOTE :: v ++ [DQUOTE]) r) by first [assoc | lens]. f_equal. lens.
Qed.

(** A printed value is read back, up to the quotes that unescaping takes
    away. *)
Lemma field_value_printed pre v t r :
  short (pre ++ t ++ r) -> all field_char v -> field_rest r ->
  (match v with [] => Ok [] | a :: l => let! e := gen_value_escape pcre_exec (a :: l) in Ok ("="%char :: e) end) = Ok t ->
  exists raw, field_value_at (pre ++ t ++ r) (length pre) = (raw, length (pre ++ t)) /\ gen_value_unescape fill raw = v
    /\ none_of token_char (t ++ r) /\ none_of isspace (t ++ r).
Proof.
  intros Hs Hv Hr Ht. destruct v as [|x v'] eqn:Ev; [|rewrite <- Ev in *].
  - injection Ht as <-. exists []. rewrite app_nil_l, app_nil_r in *. split; [by apply field_value_none|].
    split; [by apply plain_unescape; left|]. by destruct Hr as [-> |[r' ->]].
  - assert (v <> []) as Hne by (by rewrite Ev). destruct (gen_value_escape_cases v Hv) as (e & He & Hcase).
    rewrite He in Ht. cbn [obind] in Ht. injection Ht as <-. destruct Hcase as [[-> Hp]| ->].
    + exists v. split; [by apply field_value_plain|]. split; [by apply plain_unescape; right|done].
    + exists (DQUOTE :: v ++ [DQUOTE]). destruct (field_char_facts v Hv) as (_ & Hq & _).
      assert (("="%char :: DQUOTE :: v ++ [DQUOTE]) ++ r = "="%char :: DQUOTE :: v ++ DQUOTE :: r) as E by assoc.
      rewrite E in *. split; [by apply field_value_quoted|]. split; [by apply quoted_unescape|done].
Qed.

Lemma field_loop_step fuel s u off :
  mScheme u <> UnknownUrlScheme ->
  here pcre_exec EndUrl s off = None -> here pcre_exec CommaSeparator s off = None ->
  field_loop fill pcre_exec (S fuel) s u off
  = match here pcre_exec FieldParamName s off with
    | Some m =>
        let '(value, off') := field_value_at s (mt_end m) in
        field_loop fill pcre_exec fuel s
          (set_field_params (Some (default [] (mpFieldParameters u)
             ++ [(cstr (gen_value_unescape fill (append_match s m 1 [])), Some (cstr (gen_value_unescape fill value)))])) u) off'
    | None => Ok (set_scheme UnknownUrlScheme u, off)
    end.
Proof.
  intros Hs He Hc. cbn [field_loop]. rewrite decide_False by done. rewrite He, Hc.
  destruct (here pcre_exec FieldParamName s off) as [m|]; [|done]. unfold field_value_at. cbn beta zeta. done.
Qed.

Definition add_fields (ps : list param) (u : Url) : Url :=
  match ps with [] => u | _ => set_field_params (Some (default [] (mpFieldParameters u) ++ ps)) u end.

Lemma add_fields_cons p ps u :
  add_fields ps (set_field_params (Some (default [] (mpFieldParameters u) ++ [p])) u) = add_fields (p :: ps) u.
Proof. destruct ps as [|p' ps]; [done|]. simpl. unfold set_field_params. simpl. by rewrite <- app_assoc. Qed.

Lemma field_loop_printed ps : forall fuel pre u t,
  Forall wf_field_param ps -> print_field_params pcre_exec ps = Ok t -> short (pre ++ t) ->
  mScheme u <> UnknownUrlScheme -> length ps < fuel ->
  field_loop fill pcre_exec fuel (pre ++ t) u (length pre) = Ok (add_fields ps u, length (pre ++ t)).
Proof.
  induction ps as [|p ps IH]; intros fuel pre u t Hps Ht Hs Hu Hf; (destruct fuel as [|fuel]; [lia|]).
  - injection Ht as <-. rewrite app_nil_r in *. cbn [field_loop]. rewrite decide_False by done.
    rewrite <- (app_nil_r pre) in Hs at 1. rewrite <- (app_nil_r pre) at 1.
    by rewrite (here_at EndUrl pre [] _ ltac:(here_short) (bt_end_url (length pre))).
  - inversion Hps as [|? ? (Hn1 & Hn2 & v & Hv & Hvc) Hps']; subst. cbn [print_field_params] in Ht.
    destruct p as [n o]. cbn [fst snd] in *. subst o. change (value_of (n, Some v)) with v in Ht.
    destruct (match v with [] => _ | _ => _ end) as [tv| | |] eqn:Etv; cbn [obind] in Ht; try done.
    destruct (print_field_params pcre_exec ps) as [rest| | |] eqn:Erest; cbn [obind] in Ht; try done.
    injection Ht as <-. pose proof (print_field_rest _ _ Erest) as Hrest.
    assert (pre ++ ";"%char :: n ++ tv ++ rest = (pre ++ ";"%char :: n) ++ tv ++ rest) as E by assoc.
    rewrite field_loop_step; [|done|apply here_not; intros off; by apply bt_no_end_url|by apply here_cannot_begin].
    destruct (field_value_printed (pre ++ ";"%char :: n) v tv rest ltac:(by rewrite <- E) Hvc Hrest Etv)
      as (raw & Eraw & Eun & Hr1 & Hr2).
    rewrite (here_at FieldParamName pre _ _ ltac:(here_short) (bt_field_name n (tv ++ rest) (length pre) Hn1 Hn2 Hr1 Hr2)).
    cbn [m_pos m_caps mt_end]. unfold append_match. rewrite match_one, (sub_split (pre ++ [";"%char]) n (tv ++ rest)) by first [assoc | lens].
    rewrite app_nil_l, plain_unescape by (right; by left).
    replace (length pre + 1 + length n) with (length (pre ++ ";"%char :: n)) by lens.
    rewrite E, Eraw, Eun. change (default [] (Some n)) with n. rewrite (cstr_id v), (cstr_id n); [|eapply Forall_impl; [exact Hn2|]; intros x Hx ->; by vm_compute in Hx
      |by apply field_char_facts].
    assert ((pre ++ ";"%char :: n) ++ tv ++ rest = ((pre ++ ";"%char :: n) ++ tv) ++ rest) as E2 by (by rewrite app_assoc).
    rewrite E2. rewrite IH; [by rewrite add_fields_cons|done|done|by rewrite <- E2, <- E|done|simpl in Hf; lia].
Qed.

Lemma print_fields_total ps : Forall wf_field_param ps -> exists t, print_field_params pcre_exec ps = Ok t /\ length ps <= length t.
Proof.
  induction 1 as [|p ps (Hn1 & Hn2 & v & Hv & Hvc) _ (t & Et & Hl)]; [by exists []|].
  cbn [print_field_params]. assert (value_of p = v) as -> by (unfold value_of; by rewrite Hv). rewrite Et.
  destruct (gen_value_escape_cases v Hvc) as (e & He & _).
  destruct v as [|x v]; [|rewrite He]; cbn [obind]; eexists; (split; [done|]); lens.
Qed.
End Phases.

(** ** Characters of a URI *)

Definition tail_char : ascii -> bool := not_of [NUL; "@"%char; ">"%char].
Definition uri_char : ascii -> bool := not_of [NUL; ">"%char].

Lemma units_all (c d : ascii -> bool) (ok : list ascii -> Prop) t :
  (forall x, c x = true -> d x = true) -> (forall u, ok u -> all d u) -> units c ok t -> all d t.
Proof.
  intros Hc Hu. induction 1 as [|x l Hx Hl IH|u l Hok Hl IH]; [constructor|constructor; [auto|exact IH]|].
  apply Forall_app. split; [by apply Hu|exact IH].
Qed.

Lemma isxdigit_uri x : isxdigit x = true -> uri_char x = true.
Proof. all_bytes x; intros Hx; (done || discriminate Hx). Qed.

Lemma hex_unit_all u : hex_unit u -> all uri_char u.
Proof. intros (a & b & -> & Ha & Hb). repeat constructor; by apply isxdigit_uri. Qed.

Lemma user_part_all v : user_text (mUserId v) -> password_text (mPassword v) -> all uri_char (user_part v).
Proof.
  intros Hu Hp. unfold user_part.
  assert (all uri_char (mUserId v)) as H1.
  { eapply units_all; [|apply hex_unit_all|exact Hu]. intros x. all_bytes x; intros Hx; (done || discriminate Hx). }
  assert (all uri_char (mPassword v)) as H2.
  { eapply units_all; [|apply hex_unit_all|exact Hp]. intros x. all_bytes x; intros Hx; (done || discriminate Hx). }
  destruct (mUserId v) as [|x us]; [constructor|]. apply Forall_app. split; [done|]. apply Forall_app.
  split; [|by repeat constructor]. destruct (_ || _); [by constructor|constructor].
Qed.

Lemma label_char_tail x : label_char x = true -> tail_char x = true.
Proof. all_bytes x; intros Hx; (done || discriminate Hx). Qed.

Lemma host_all h : host_text h -> all tail_char h.
Proof.
  intros [Hd|(a & -> & _ & Ha)].
  - induction Hd as [l Hl|l d Hl Hd IH]; destruct (label_all l Hl) as [_ H].
    + eapply Forall_impl; [exact H|]. exact label_char_tail.
    + apply Forall_app. split; [eapply Forall_impl; [exact H|]; exact label_char_tail|]. by constructor.
  - constructor; [done|]. apply Forall_app. split; [|by repeat constructor].
    eapply Forall_impl; [exact Ha|]. intros x. all_bytes x; intros Hx; (done || discriminate Hx).
Qed.

Lemma port_all v : all tail_char (port_part v).
Proof.
  unfold port_part. destruct (portIsValid (mHostPort v)) eqn:E; [|constructor]. constructor; [done|].
  destruct (port_digits _ E) as (_ & _ & Hd & _). eapply Forall_impl; [exact Hd|].
  intros x. all_bytes x; intros Hx; (done || discriminate Hx).
Qed.

Lemma params_tail sep o : tail_char sep = true -> params_ok wf_uri_param o -> all tail_char (raw_params sep o).
Proof.
  intros Hs Ho. destruct o as [ps|]; [|constructor]. destruct Ho as [_ Hps]. apply params_all; [|done| |done|done].
  - intros x Hx. apply uri_name_facts in Hx as (Hx & _ & _ & H1 & _ & _ & H2).
    apply param_char_facts in Hx as (H3 & _). apply not_of_intro. set_solver.
  - apply escaped_in. vm_compute. reflexivity.
Qed.

(** The parts as marks and raw texts. *)
Lemma param_part_raw v : params_ok wf_uri_param (mpUrlParameters v) ->
  param_part v = match mpUrlParameters v with Some _ => ";"%char :: raw_params ";" (mpUrlParameters v) | None => [] end.
Proof.
  unfold param_part. destruct (mpUrlParameters v) as [ps|]; [|done]. intros [Hne _]. by apply param_part_join.
Qed.
Lemma header_part_raw v : params_ok wf_uri_param (mpHeaderOrQueryParameters v) ->
  header_part v = match mpHeaderOrQueryParameters v with
                  | Some _ => "?"%char :: raw_params "&" (mpHeaderOrQueryParameters v) | None => [] end.
Proof.
  unfold header_part. destruct (mpHeaderOrQueryParameters v) as [ps|]; [|done]. intros [Hne _].
  by apply (header_part_join true).
Qed.

Lemma tail_all v : wf_sip_url v -> all tail_char (mHostAddress v ++ port_part v ++ param_part v ++ header_part v).
Proof.
  intros []. rewrite param_part_raw, header_part_raw by done. repeat (apply Forall_app; split);
    [by apply host_all|apply port_all|destruct (mpUrlParameters v) eqn:E|destruct (mpHeaderOrQueryParameters v) eqn:E];
    constructor; (done || by apply params_tail).
Qed.

Lemma uri_text_all v : wf_sip_url v -> all uri_char (uri_text v).
Proof.
  intros Hv. pose proof (tail_all v Hv) as Ht. destruct Hv. unfold uri_text. apply Forall_app. split.
  - destruct (mScheme v); try done; by repeat constructor.
  - constructor; [done|]. apply Forall_app. split; [apply user_part_all; tauto|].
    eapply Forall_impl; [exact Ht|]. intros x. all_bytes x; intros Hx; (done || discriminate Hx).
Qed.
