(* ===== verification/UrlSound.v ===== *)
(** * What parseString leaves behind

    For every text: the parser returns, with no undefined behaviour, and the
    members it fills in hold what the patterns allow.  Only the soundness of
    the regular expression library is used: the library may also give up. *)
From Stdlib Require Import ZArith Lia Ascii String.
From stdpp Require Import base list strings sets.
From S2P Require Import Prelude UtlString UtlStringRefine NameValueTokenizer Format Pcre PcreSpec.
From S2P Require Import UrlCodec Url UrlSyntax UrlSpec.
Local Open Scope nat_scope.

(** ** Texts of the groups *)

(** The text a pattern took. *)
Definition takes (p : pat) (w : list ascii) : Prop := exists st st', consumes p st st' /\ between st w st'.

Lemma between_eq st st' w w' : between st w st' -> between st w' st' -> w = w'.
Proof. intros [E1 _] [E2 _]. rewrite E1 in E2. by apply app_inv_tail in E2. Qed.

Lemma takes_names p w : takes p w -> all (names p) w.
Proof.
  intros (st & st' & Hc & Hb). destruct (consumes_names _ _ _ Hc) as (w' & Hb' & Hw).
  by rewrite (between_eq _ _ _ _ Hb Hb').
Qed.

Lemma takes_seq p q w : takes (PSeq p q) w -> exists a b, w = a ++ b /\ takes p a /\ takes q b.
Proof.
  intros (st & st' & (st1 & H1 & H2)%consumes_seq_inv & Hb).
  destruct (consumes_between _ _ _ H1) as (a & Ha). destruct (consumes_between _ _ _ H2) as (b & Hb').
  exists a, b. split; [|by split; eexists _, _].
  apply (between_eq _ _ _ _ Hb). by eapply between_trans.
Qed.

Lemma takes_alt p q w : takes (PAlt p q) w -> takes p w \/ takes q w.
Proof. intros (st & st' & [Hc|Hc]%consumes_alt_inv & Hb); [left|right]; by exists st, st'. Qed.

Lemma takes_group i p w : takes (PGroup i p) w -> takes p w.
Proof. intros (st & st' & Hc & Hb). inversion Hc; subst. exists st, st'0. by split; [|destruct Hb]. Qed.

Lemma takes_cls c w : takes (PCls c) w -> exists x, w = [x] /\ c x = true.
Proof.
  intros (st & st' & Hc & Hb). inversion Hc as [|? ? x r E Hx| | | | | | | | | |]; subst. exists x. split; [|done].
  destruct Hb as [Hb _]. cbn [advance m_rest] in Hb. rewrite E in Hb. simpl in Hb.
  by apply (app_inv_tail r [x] w) in Hb.
Qed.

Lemma takes_chr a w : takes (PChr a) w -> w = [a].
Proof. intros (x & -> & Hx)%takes_cls. by apply bool_decide_eq_true in Hx as ->. Qed.

Lemma takes_eps w : takes PEps w -> w = [].
Proof. intros (st & st' & Hc & [Hb _]). inversion Hc; subst. by apply (app_inv_tail (m_rest st') []) in Hb. Qed.

(** The iterations of a loop. *)
Lemma takes_star (P : list ascii -> Prop) p w :
  P [] -> (forall a b, takes p a -> P b -> P (a ++ b)) -> takes (PStar p) w -> P w.
Proof.
  intros H0 HS (st & st' & Hc & Hb). remember (PStar p) as ps eqn:Ep. revert w Hb Ep.
  induction Hc as [| | | | |p' st|p' st st1 st2 H1 IH1 H2 IH2| | | | |]; intros w Hb Ep; try done; injection Ep as ->.
  - destruct Hb as [Hb _]. by apply (app_inv_tail (m_rest st) []) in Hb as <-.
  - destruct (consumes_between _ _ _ H1) as (a & Ha). destruct (consumes_between _ _ _ H2) as (b & Hb').
    rewrite (between_eq _ _ _ _ Hb (between_trans _ _ _ _ _ Ha Hb')). apply HS; [by exists st, st1|by apply IH2].
Qed.

Lemma takes_ne p w : nullable p = false -> takes p w -> w <> [].
Proof.
  intros Hn (st & st' & Hc & [Hb _]) ->. apply consumes_proper in Hc; [|done]. rewrite Hb in Hc. simpl in Hc. lia.
Qed.

Lemma takes_plus c w : takes (PPlus (PCls c)) w -> w <> [] /\ all c w.
Proof.
  intros Hw. split; [by apply (takes_ne (PPlus (PCls c)))|].
  eapply Forall_impl; [exact (takes_names _ _ Hw)|]. intros x. cbn. by rewrite orb_diag.
Qed.

Lemma takes_poss c w : takes (PPoss c) w -> w <> [] /\ all c w.
Proof. intros (st & st' & Hc & Hb). inversion Hc; subst. apply takes_plus. by exists st, st'. Qed.

(** A search at the working offset. *)
Section Groups.
Context `{Pcre pcre_exec}.

Lemma head_filter_in (m : Match) i c :
  head (filter (fun c => fst c = i) (mt_caps m)) = Some c -> c ∈ mt_caps m /\ fst c = i.
Proof.
  intros Hh. apply head_Some in Hh as (l & Hl).
  assert (c ∈ filter (fun c => fst c = i) (mt_caps m)) as Hin by (rewrite Hl; apply list_elem_of_here).
  by apply list_elem_of_filter in Hin as [? ?].
Qed.

(** What a match from [off] on tells of its groups. *)
Lemma bt_groups p s off st' m :
  off <= length s -> bt p (mkM off (drop off s) []) Some = Some st' -> mt_end m = m_pos st' -> mt_caps m = m_caps st' ->
  off <= mt_end m <= length s /\ (nullable p = false -> off < mt_end m)
  /\ (forall i, 0 < i -> must i p = true -> i < Matches m /\ is_Some (cap m i))
  /\ (forall i w, 0 < i -> MatchString s m i = Some w -> exists q, (i, q) ∈ groups p /\ takes q w).
Proof.
  intros Ho (st1 & Hc & [= <-])%bt_consumes He Hcaps.
  assert (inside s (mkM off (drop off s) [])) as Hin by done.
  destruct (consumes_groups s p _ _ Hc Hin) as ([Hi1 Hi2] & new & En & Hm & Hg).
  rewrite He. cbn [m_caps] in En. rewrite app_nil_r in En. rewrite En in Hcaps.
  destruct (consumes_between _ _ _ Hc) as (w0 & Hb). split_and!.
  - destruct Hb as [_ Hb]. simpl in Hb. lia.
  - done.
  - intros Hn. apply consumes_proper in Hc; [|done]. rewrite Hi2 in Hc. simpl in Hc. rewrite !length_drop in Hc. lia.
  - intros i Hi Hmust. specialize (Hm i Hmust). split.
    + unfold Matches. rewrite Hcaps. clear -Hm. induction new as [|c new IH]; [by apply elem_of_nil in Hm|].
      cbn [fmap list_fmap fold_right] in *. apply elem_of_cons in Hm as [-> |Hm]; [lia|]. specialize (IH Hm). lia.
    + unfold cap. destruct i as [|i]; [lia|]. rewrite Hcaps. apply fmap_is_Some.
      apply list_elem_of_fmap in Hm as (c & Ec & Hcin).
      destruct (filter (fun c => fst c = S i) new) as [|c' l] eqn:Ef; [|by eexists].
      exfalso. apply (filter_nil_not_elem_of _ _ c Ef); done.
  - intros i w Hi Hw. unfold MatchString in Hw. destruct (i <? Matches m); [|done].
    unfold cap in Hw. destruct i as [|i]; [lia|].
    destruct (head _) as [c|] eqn:Eh; [|done]. cbn in Hw. injection Hw as <-.
    apply head_filter_in in Eh as [Hcin Hci]. rewrite Hcaps in Hcin. rewrite Forall_forall in Hg.
    destruct (Hg _ Hcin) as (q & sa & sb & Hq & Hcq & [Ha1 Ha2] & Hb2 & Ec). rewrite Hci in Hq.
    exists q. split; [done|]. exists sa, sb. split; [done|].
    destruct (consumes_between _ _ _ Hcq) as (w' & Hw'). rewrite Ec. cbn [fst snd].
    destruct Hw' as [Hw1 Hw2]. rewrite <- Ha2, Hw1, Hw2.
    replace (m_pos sa + length w' - m_pos sa) with (length w') by lia. by rewrite take_app_length.
Qed.

Lemma here_groups p s off m :
  here pcre_exec p s off = Some m ->
  off <= mt_end m <= length s /\ (nullable p = false -> off < mt_end m)
  /\ (forall i, 0 < i -> must i p = true -> i < Matches m /\ is_Some (cap m i))
  /\ (forall i w, 0 < i -> MatchString s m i = Some w -> exists q, (i, q) ∈ groups p /\ takes q w).
Proof. intros (Ho & _ & st' & Hb & He & Hcaps)%here_inv. by apply (bt_groups p s off st'). Qed.

(** A search through the whole text. *)
Lemma search_groups p s m :
  pcre_exec p s 0 = Some m ->
  (forall i, 0 < i -> must i p = true -> i < Matches m /\ is_Some (cap m i))
  /\ (forall i w, 0 < i -> MatchString s m i = Some w -> exists q, (i, q) ∈ groups p /\ takes q w).
Proof.
  intros Hm%pcre_sound. unfold search in Hm. simpl in Hm. rewrite drop_0 in Hm.
  pose proof (search_from_bound _ _ _ _ Hm). apply search_from_start in Hm as (Hs & st' & Hb & He & Hc). rewrite Nat.sub_0_r in Hb.
  destruct (bt_groups p s (mt_start m) st' m) as (_ & _ & ? & ?); [lia|done..|]. done.
Qed.
End Groups.

(** ** Users, hosts and ports *)

Lemma takes_seqs p q l w : takes (PSeqs (p :: q :: l)) w -> exists a b, w = a ++ b /\ takes p a /\ takes (PSeqs (q :: l)) b.
Proof. apply takes_seq. Qed.

Lemma takes_hex_pair w : takes hex_pair w -> hex_unit w.
Proof.
  intros (a & b & -> & ->%takes_chr & (c & d & -> & (x & -> & Hx)%takes_cls & (y & -> & Hy)%takes_cls)%takes_seqs)%takes_seqs.
  by exists x, y.
Qed.

Lemma units_app c ok a b : units c ok a -> units c ok b -> units c ok (a ++ b).
Proof.
  induction 1 as [|x l Hx Hl IH|u l Hu Hl IH]; intros Hb; [done|apply units_run; auto|].
  rewrite <- app_assoc. apply units_unit; auto.
Qed.

Lemma units_all_run c ok w : all c w -> units c ok w.
Proof. induction 1; [constructor|by apply units_run]. Qed.

Lemma takes_unit c w : takes (PAlt (PPoss c) hex_pair) w -> units c hex_unit w.
Proof.
  intros [[_ Hw]%takes_poss|Hw%takes_hex_pair]%takes_alt; [by apply units_all_run|].
  rewrite <- (app_nil_r w). apply units_unit; [done|constructor].
Qed.

Lemma takes_units c w : takes (PStar (PAlt (PPoss c) hex_pair)) w -> units c hex_unit w.
Proof. apply takes_star; [constructor|]. intros a b Ha Hb. apply units_app; [by apply takes_unit|done]. Qed.

Lemma takes_units1 c w : takes (PPlus (PAlt (PPoss c) hex_pair)) w -> units c hex_unit w.
Proof. intros (a & b & -> & Ha & Hb)%takes_seq. apply units_app; [by apply takes_unit|by apply takes_units]. Qed.

Lemma takes_class_star c w : takes (PStar (PCls c)) w -> all c w.
Proof. intros Hw%takes_names. exact Hw. Qed.

Lemma takes_label w : takes DOMAIN_LABEL w -> label w.
Proof.
  intros (a & b & -> & (x & -> & Hx)%takes_cls & Hb)%takes_seq.
  apply takes_alt in Hb as [(m & e & -> & Hm%takes_class_star & (y & -> & Hy)%takes_cls)%takes_seq| ->%takes_eps].
  - right. by exists x, m, y.
  - left. by exists x.
Qed.

(** A host name may end in the dot of the root. *)
Definition host_name (h : list ascii) : Prop := host_text h \/ exists d, domain d /\ h = d ++ ["."%char].

Lemma takes_dns_name w : takes dns_name w -> host_name w.
Proof.
  intros (a & b & -> & Ha & (l & e & -> & Hl%takes_label & He)%takes_seqs)%takes_seqs.
  assert (forall d, domain d -> domain (a ++ d)) as Hd.
  { revert Ha. apply (takes_star (fun a => forall d, domain d -> domain (a ++ d))); [done|].
    intros a1 b1 (l1 & dot & -> & Hl1%takes_label & ->%takes_chr)%takes_seq IH d Hd. rewrite <- !app_assoc.
    apply domain_more; [done|]. by apply IH. }
  specialize (Hd l (domain_label l Hl)).
  change (takes (POpt (PChr ".")) e) in He. apply takes_alt in He as [->%takes_chr| ->%takes_eps].
  - right. exists (a ++ l). split; [done|by rewrite app_assoc].
  - left. left. by rewrite app_nil_r.
Qed.

Lemma takes_upto n c w : takes (PUpTo n c) w -> length w <= n /\ all c w.
Proof.
  revert w. induction n as [|n IH]; intros w; cbn [PUpTo].
  - intros ->%takes_eps. split; [done|constructor].
  - intros [(a & b & -> & (x & -> & Hx)%takes_cls & (Hl & Hb)%IH)%takes_seq| ->%takes_eps]%takes_alt.
    + split; [simpl; lia|by constructor].
    + split; [simpl; lia|constructor].
Qed.

Lemma takes_range n c w : 0 < n -> takes (PRange n c) w -> w <> [] /\ length w <= n /\ all c w.
Proof.
  intros Hn (a & b & -> & (x & -> & Hx)%takes_cls & (Hl & Hb)%takes_upto)%takes_seq.
  split_and!; [done|simpl; lia|by constructor].
Qed.

Lemma digits_label w : w <> [] -> all isdigit w -> label w.
Proof.
  intros Hne Hw. assert (forall x, isdigit x = true -> isalnum x = true) as Hda by (intros x; all_bytes x; intros Hx; (done || discriminate Hx)).
  destruct w as [|x w]; [done|]. inversion Hw as [|? ? Hx Hw']; subst.
  destruct w as [|y w _] using rev_ind; [left; exists x; auto|].
  right. exists x, w, y. apply Forall_app in Hw' as [Hw1 Hy]. apply Forall_inv in Hy.
  split_and!; auto. eapply Forall_impl; [exact Hw1|]. intros z Hz. apply label_char_alnum. auto.
Qed.

Lemma takes_ipv4 w : takes ipv4_address w -> domain w.
Proof.
  intros (a & r & -> & (Ha & _ & Ha')%takes_range & (? & r1 & -> & ->%takes_chr & Hr)%takes_seqs)%takes_seqs; [|lia].
  apply takes_seqs in Hr as (b & r2 & -> & (Hb & _ & Hb')%takes_range & (? & r3 & -> & ->%takes_chr & Hr)%takes_seqs); [|lia].
  apply takes_seqs in Hr as (c & r4 & -> & (Hc & _ & Hc')%takes_range & (? & d & -> & ->%takes_chr & Hr)%takes_seqs); [|lia].
  apply takes_range in Hr as (Hd & _ & Hd'); [|lia].
  do 3 (apply domain_more; [by apply digits_label|]). by apply domain_label, digits_label.
Qed.

Lemma takes_ipv6 w : takes ipv6_address w -> ipv6_text w.
Proof.
  intros (a & r & -> & ->%takes_chr & (b & c & -> & (Hb & Hb')%takes_poss & ->%takes_chr)%takes_seqs)%takes_seqs.
  by exists b.
Qed.

Lemma takes_host w : takes host_address w -> host_name w.
Proof.
  intros [Hw|[Hw|Hw]%takes_alt]%takes_alt; [by apply takes_dns_name|left; left; by apply takes_ipv4|left; right; by apply takes_ipv6].
Qed.

Lemma host_name_ne h : host_name h -> h <> [].
Proof.
  intros [[Hd|(a & -> & _)]|(d & _ & ->)]; [|done|by destruct d].
  destruct (domain_first h Hd) as (x & d' & -> & _). done.
Qed.

Lemma short_port w : w <> [] -> length w <= 6 -> all isdigit w -> exists p, atoi w = Ok p /\ (0 <= p <= 999999)%Z.
Proof.
  intros Hne Hl Hw. pose proof (digits_value_bound w Hw) as Hb.
  assert (10 ^ Z.of_nat (length w) <= 10 ^ 6)%Z by (apply Z.pow_le_mono_r; lia). change (10 ^ 6)%Z with 1000000%Z in *.
  exists (digits_value w). split; [|lia].
  rewrite <- (app_nil_r w) at 1. apply atoi_digits; [done|done|unfold INT_MAX; lia|done].
Qed.

(** ** Display names *)

Lemma takes_words w : takes token_seq w -> words w.
Proof.
  intros (t & b & -> & [Ht1 Ht2]%takes_poss & Hb)%takes_seq. revert t Ht1 Ht2.
  apply (takes_star (fun b => forall t, t <> [] -> all token_char t -> words (t ++ b)) (PSeq LWS SIP_TOKEN) b); [| |done].
  - intros t Ht1 Ht2. rewrite app_nil_r. by apply words_one.
  - intros a c (sp & t2 & -> & [Hs1 Hs2]%takes_plus & [Ht1 Ht2]%takes_poss)%takes_seq IH t Ht3 Ht4. rewrite <- app_assoc.
    apply words_more; [done|done|done|done|by apply IH].
Qed.

Lemma takes_quoted w : takes quoted_body w -> quoted_text w.
Proof.
  apply takes_star; [constructor|]. intros a b Ha Hb. apply units_app; [|done].
  apply takes_alt in Ha as [[_ Ha]%takes_poss|(c & d & -> & ->%takes_chr & (x & -> & Hx)%takes_cls)%takes_seq];
    [by apply units_all_run|].
  apply (units_unit _ _ [BACKSLASH; x] []); [by exists x|constructor].
Qed.

(** ** The members *)

Record sane (u : Url) : Prop := {
  sn_display : mDisplayName u = [] \/ display_text (mDisplayName u);
  sn_user : user_text (mUserId u);
  sn_password : password_text (mPassword u);
  sn_host : mHostAddress u = [] \/ host_name (mHostAddress u);
  sn_port : mHostPort u = PORT_NONE \/ (0 <= mHostPort u <= 999999)%Z;
  sn_path : all path_char (mPath u);
  sn_params : all url_param_char (mRawUrlParameters u) /\ mpUrlParameters u = None;
  sn_headers : all header_char (mRawHeaderOrQueryParameters u) /\ mpHeaderOrQueryParameters u = None;
  sn_fields : params_ok (fun p => fst p <> [] /\ all token_char (fst p)) (mpFieldParameters u) }.

(** A scheme is recognised together with a host. *)
Definition settled (u : Url) : Prop :=
  mScheme u <> UnrecognizableUrlScheme
  /\ (mScheme u <> UnknownUrlScheme -> mScheme u <> FileUrlScheme -> mHostAddress u <> []).

Lemma sane_default : sane Url_default.
Proof. split; simpl; try done; auto; try constructor; try done; constructor. Qed.

Section Sound.
Context (fill : nat -> ascii) `{Pcre pcre_exec}.

(** What a group appends. *)
Lemma append_group p s off m i (P : list ascii -> Prop) :
  here pcre_exec p s off = Some m -> 0 < i -> P [] ->
  (forall q w, (i, q) ∈ groups p -> takes q w -> P w) -> P (append_match s m i []).
Proof.
  intros Hh Hi H0 HP. destruct (here_groups _ _ _ _ Hh) as (_ & _ & _ & Hg). unfold append_match. rewrite app_nil_l.
  destruct (MatchString s m i) as [w|] eqn:E; [|done]. destruct (Hg i w Hi E) as (q & Hq & Hw). by apply (HP q w).
Qed.

(** The group of a given number in a list of groups. *)
Ltac pick_group Hq :=
  repeat (apply elem_of_cons in Hq as [Hq|Hq]; [first [discriminate Hq | injection Hq as ->]|]); [..|try (by apply elem_of_nil in Hq)].

Lemma parse_display_sound s u off :
  exists d off', parse_display pcre_exec s u off = (set_display d u, off') /\ (d = [] \/ display_text d).
Proof.
  unfold parse_display. destruct (here pcre_exec DisplayName s off) as [m|] eqn:E; [|by exists [], off; auto].
  change (mDisplayName (set_display [] u)) with (@nil ascii). rewrite app_nil_l.
  destruct (Matches m) as [|[|[|[|]]]]; try (by exists [], (mt_end m); auto).
  - exists (append_match s m 1 []), (mt_end m). split; [done|].
    apply (append_group DisplayName s off m 1 (fun d => d = [] \/ display_text d)); [done|lia|by left|].
    intros q w Hq Hw. right. left. apply takes_words.
    change (groups DisplayName) with [(1, token_seq); (2, quoted_body)] in Hq. pick_group Hq. done.
  - exists (append_match s m 2 [DQUOTE] ++ [DQUOTE]), (mt_end m). split; [done|].
    right. right. exists (append_match s m 2 []). split; [done|].
    apply (append_group DisplayName s off m 2 quoted_text); [done|lia|constructor|].
    intros q w Hq Hw. apply takes_quoted.
    change (groups DisplayName) with [(1, token_seq); (2, quoted_body)] in Hq. pick_group Hq. done.
Qed.

Lemma parse_brackets_sound s off : exists r, parse_brackets pcre_exec s off = Ok r.
Proof.
  unfold parse_brackets. destruct (here pcre_exec AngleBrackets s off) as [m|] eqn:E; [|eauto].
  destruct (here_groups _ _ _ _ E) as (_ & _ & Hm & _). destruct (Hm 1 ltac:(lia) eq_refl) as [H1 [c Hc]].
  unfold MatchStart. rewrite (proj2 (Nat.ltb_lt _ _) H1), Hc. cbn [obind]. eauto.
Qed.

Lemma parse_user_sound s u off :
  mUserId u = [] -> mPassword u = [] ->
  exists a b off', parse_user pcre_exec s u off = (set_user a b (mPasswordSet u) u, off') /\ user_text a /\ password_text b.
Proof.
  intros Hu Hp.
  assert (exists a b off', (u, off) = (set_user a b (mPasswordSet u) u, off') /\ user_text a /\ password_text b) as Hid.
  { exists [], [], off. split; [destruct u; simpl in *; by subst|]. split; constructor. }
  unfold parse_user. case_decide; [done|].
  destruct (here pcre_exec UsernameAndPassword s off) as [m|] eqn:E; [|done]. rewrite Hu, Hp.
  assert (groups UsernameAndPassword = [(1, PPlus (PAlt (PPoss user_char) hex_pair)); (2, PStar (PAlt (PPoss password_char) hex_pair))])
    as Eg by reflexivity.
  eexists _, _, _. split; [done|]. split.
  - apply (append_group UsernameAndPassword s off m 1 user_text); [done|lia|constructor|].
    intros q w Hq Hw. rewrite Eg in Hq. pick_group Hq. by apply takes_units1.
  - apply (append_group UsernameAndPassword s off m 2 password_text); [done|lia|constructor|].
    intros q w Hq Hw. rewrite Eg in Hq. pick_group Hq. by apply takes_units.
Qed.

Definition same_params (u u' : Url) : Prop :=
  mRawUrlParameters u' = mRawUrlParameters u /\ mRawHeaderOrQueryParameters u' = mRawHeaderOrQueryParameters u
  /\ mpFieldParameters u' = mpFieldParameters u /\ mPath u' = mPath u.

Lemma parse_host_sound s u off :
  sane u -> mHostAddress u = [] -> mHostPort u = PORT_NONE ->
  exists u' off', parse_host pcre_exec s u off = Ok (u', off') /\ sane u' /\ settled u' /\ same_params u u'.
Proof.
  intros [] Hh Hp. unfold parse_host.
  destruct (here pcre_exec HostAndPort s off) as [m|] eqn:E.
  - assert (groups HostAndPort = [(1, host_address); (2, PRange 6 isdigit)]) as Eg by reflexivity.
    destruct (here_groups _ _ _ _ E) as (_ & _ & Hm & Hg). rewrite Hh, Hp.
    assert (exists port, (match MatchString s m 2 with Some p => atoi p | None => Ok PORT_NONE end) = Ok port
      /\ (port = PORT_NONE \/ (0 <= port <= 999999)%Z)) as (port & -> & Hport).
    { destruct (MatchString s m 2) as [w|] eqn:Em; [|by eauto]. destruct (Hg 2 w ltac:(lia) Em) as (q & Hq & Hw).
      rewrite Eg in Hq. pick_group Hq. apply takes_range in Hw as (H1 & H2 & H3); [|lia].
      destruct (short_port w H1 H2 H3) as (p & -> & Hb). eauto. }
    assert (host_name (append_match s m 1 [])) as Hhost.
    { destruct (Hm 1 ltac:(lia) eq_refl) as [H1 [c Hc]].
      destruct (MatchString s m 1) as [w|] eqn:Em.
      - destruct (Hg 1 w ltac:(lia) Em) as (q & Hq & Hw). unfold append_match. rewrite Em. rewrite app_nil_l.
        rewrite Eg in Hq. pick_group Hq. by apply takes_host.
      - unfold MatchString in Em. by rewrite (proj2 (Nat.ltb_lt _ _) H1), Hc in Em. }
    cbn [obind]. pose proof (host_name_ne _ Hhost) as Hne. eexists _, _. split; [done|].
    case_decide; (split; [split; simpl; auto|]); (split; [split; simpl; done|done]).
  - eexists _, _. split; [done|].
    assert (quoted_text [] /\ user_text [] /\ password_text []) as (_ & Hu0 & Hp0) by (split_and!; constructor).
    destruct (decide (mScheme u = FileUrlScheme)) as [Ef|Hf].
    + rewrite Ef, decide_False by done. split; [by split|]. split; [|done]. by split; rewrite Ef.
    + rewrite decide_False by done. split; [split; simpl; auto|]. split; [by split|done].
Qed.

Lemma parse_path_sound form after s u off :
  sane u -> settled u -> mPath u = [] -> mRawUrlParameters u = [] ->
  exists u' off', parse_path pcre_exec form after s u off = Ok (u', off') /\ sane u' /\ settled u'
    /\ mRawHeaderOrQueryParameters u' = mRawHeaderOrQueryParameters u /\ mpFieldParameters u' = mpFieldParameters u.
Proof.
  intros Hs Ht Hp Hr. unfold parse_path.
  assert (forall p m, here pcre_exec p s off = Some m -> must 1 p = true -> exists e, AfterMatch m 1 = Ok e) as Hafter.
  { intros p m E Hmust. destruct (here_groups _ _ _ _ E) as (_ & _ & Hm & _). destruct (Hm 1 ltac:(lia) Hmust) as [H1 [c Hc]].
    unfold AfterMatch. rewrite (proj2 (Nat.ltb_lt _ _) H1), Hc. eauto. }
  destruct (has_path (mScheme u)); [|destruct (_ && _); [|by eauto 10]].
  - destruct (here pcre_exec UrlPath s off) as [m|] eqn:E; [|by eauto 10].
    destruct (Hafter _ _ E eq_refl) as (e & ->). cbn [obind]. eexists _, _. split; [done|].
    assert (all path_char (append_match s m 1 [])) as Hall.
    { apply (append_group UrlPath s off m 1 (all path_char)); [done|lia|constructor|].
      intros q w Hq Hw. change (groups UrlPath) with [(1, PPoss path_char)] in Hq. pick_group Hq. by apply takes_poss. }
    rewrite Hp. destruct Hs. split; [by split|]. done.
  - destruct (here pcre_exec UrlParams s off) as [m|] eqn:E; [|by eauto 10].
    destruct (Hafter _ _ E eq_refl) as (e & ->). cbn [obind]. eexists _, _. split; [done|].
    assert (all url_param_char (append_match s m 1 [])) as Hall.
    { apply (append_group UrlParams s off m 1 (all url_param_char)); [done|lia|constructor|].
      intros q w Hq Hw. change (groups UrlParams) with [(1, PPoss url_param_char)] in Hq. pick_group Hq. by apply takes_poss. }
    rewrite Hr. destruct Hs. split; [split; simpl; auto; tauto|]. done.
Qed.

Lemma parse_headers_sound s u off :
  sane u -> settled u -> mRawHeaderOrQueryParameters u = [] ->
  exists u' off', parse_headers pcre_exec s u off = (u', off') /\ sane u' /\ settled u'
    /\ mpFieldParameters u' = mpFieldParameters u.
Proof.
  intros Hs Ht Hr. unfold parse_headers. destruct (here pcre_exec HeaderOrQueryParams s off) as [m|] eqn:E; [|by eauto 10].
  eexists _, _. split; [done|]. rewrite Hr.
  assert (all header_char (append_match s m 1 [])) as Hall.
  { apply (append_group HeaderOrQueryParams s off m 1 (all header_char)); [done|lia|constructor|].
    intros q w Hq Hw. change (groups HeaderOrQueryParams) with [(1, PPoss header_char)] in Hq. pick_group Hq. by apply takes_poss. }
  destruct Hs. split; [split; simpl; auto; tauto|]. done.
Qed.

Lemma must_text p s off m i :
  here pcre_exec p s off = Some m -> 0 < i -> must i p = true ->
  exists q w, (i, q) ∈ groups p /\ takes q w /\ append_match s m i [] = w.
Proof.
  intros E Hi Hmust. destruct (here_groups _ _ _ _ E) as (_ & _ & Hm & Hg). destruct (Hm i Hi Hmust) as [H1 [c Hc]].
  unfold append_match. rewrite app_nil_l. destruct (MatchString s m i) as [w|] eqn:Em.
  - destruct (Hg i w Hi Em) as (q & Hq & Hw). by exists q, w.
  - unfold MatchString in Em. by rewrite (proj2 (Nat.ltb_lt _ _) H1), Hc in Em.
Qed.

Lemma here_end p s off m : here pcre_exec p s off = Some m -> off <= mt_end m <= length s.
Proof. intros E. by destruct (here_groups _ _ _ _ E). Qed.

Lemma field_value_end s off : off <= length s -> off <= snd (field_value_at (pcre_exec := pcre_exec) s off) <= length s.
Proof.
  intros Ho. unfold field_value_at.
  destruct (here pcre_exec FieldParamEqualsUnquotedValue s off) eqn:E1; [by apply here_end in E1|].
  destruct (here pcre_exec FieldParamEqualsQuotedValue s off) eqn:E2; [by apply here_end in E2|]. simpl. lia.
Qed.

Lemma field_name_text s off m :
  here pcre_exec FieldParamName s off = Some m ->
  exists n, append_match s m 1 [] = n /\ cstr (gen_value_unescape fill n) = n /\ n <> [] /\ all token_char n
    /\ off < mt_end m <= length s.
Proof.
  intros E. destruct (here_groups _ _ _ _ E) as (He & Hlt & _).
  destruct (must_text _ _ _ _ 1 E ltac:(lia) eq_refl) as (q & w & Hq & Hw & Ew).
  change (groups FieldParamName) with [(1, SIP_TOKEN)] in Hq. pick_group Hq. apply takes_poss in Hw as [Hw1 Hw2].
  exists w. split; [done|]. split_and!; [|done|done|by apply Hlt|lia].
  rewrite plain_unescape by (right; by left). apply cstr_id. eapply Forall_impl; [exact Hw2|]. intros x Hx ->. by vm_compute in Hx.
Qed.

(** The loop ends: every parameter takes a character. *)
Lemma field_loop_sound fuel : forall s u off,
  sane u -> settled u -> length s - off < fuel ->
  exists u' off', field_loop fill pcre_exec fuel s u off = Ok (u', off') /\ sane u' /\ settled u'.
Proof.
  induction fuel as [|fuel IH]; intros s u off Hs Ht Hf; [lia|].
  destruct (decide (mScheme u = UnknownUrlScheme)) as [Hu|Hu].
  { exists u, off. cbn [field_loop]. by rewrite decide_True. }
  destruct (here pcre_exec EndUrl s off) as [m|] eqn:Ee.
  { exists u, (mt_end m). cbn [field_loop]. by rewrite decide_False, Ee. }
  destruct (here pcre_exec CommaSeparator s off) as [m|] eqn:Ec.
  { exists u, off. cbn [field_loop]. by rewrite decide_False, Ee, Ec. }
  rewrite field_loop_step by done. destruct (here pcre_exec FieldParamName s off) as [m|] eqn:En.
  2:{ eexists _, _. split; [done|]. destruct Hs. split; [by split|]. by split. }
  destruct (field_name_text s off m En) as (n & -> & -> & Hn1 & Hn2 & Hlt).
  pose proof (field_value_end s (mt_end m) ltac:(lia)) as Hv. destruct (field_value_at s (mt_end m)) as [value off'].
  cbn [snd] in Hv. apply IH; [|done|lia]. destruct Hs. split; simpl; auto. split; [by destruct (default _ _)|].
  apply Forall_app. split; [|by constructor]. destruct (mpFieldParameters u); [by destruct sn_fields0|constructor].
Qed.

Lemma parse_fields_sound form after s u off :
  sane u -> settled u ->
  exists u' off', parse_fields fill pcre_exec form after s u off = Ok (u', off') /\ sane u' /\ settled u'.
Proof.
  intros Hs Ht. unfold parse_fields. case_decide; [|by eauto].
  assert (exists u1 off1, (match after with
    | Some a => if off + 1 =? a then (u, a) else (set_scheme UnknownUrlScheme u, off)
    | None => (u, off) end) = (u1, off1) /\ sane u1 /\ settled u1) as (u1 & off1 & -> & Hs1 & Ht1).
  { destruct after as [a|]; [|by eauto]. destruct (off + 1 =? a); [by eauto|]. eexists _, _. split; [done|].
    destruct Hs. split; [by split|]. by split. }
  apply field_loop_sound; [done|done|lia].
Qed.

Lemma parse_end_sound form next s u off :
  sane u -> settled u -> exists u' t, parse_end pcre_exec form next s u off = (u', t) /\ sane u' /\ settled u'.
Proof.
  intros Hs Ht. unfold parse_end. destruct (here pcre_exec _ s off); eexists _, _; (split; [done|]); [done|].
  destruct Hs. split; [by split|]. by split.
Qed.

Lemma parse_sound s form next :
  exists u t, parseString fill pcre_exec s form next Url_default = Ok (u, t) /\ sane u /\ settled u.
Proof.
  unfold parseString.
  assert (exists d off after, (if decide (form = AddrSpec) then Ok (set_brackets false Url_default, 0, None)
    else let '(u, off) := parse_display pcre_exec s Url_default 0 in
         let! (off, after) := parse_brackets pcre_exec s off in Ok (u, off, after))
    = Ok (set_display d Url_default, off, after) /\ (d = [] \/ display_text d)) as (d & off & after & -> & Hd).
  { case_decide; [by exists [], 0, None; auto|].
    destruct (parse_display_sound s Url_default 0) as (d & off & -> & Hd).
    destruct (parse_brackets_sound s off) as ([off' after] & ->). exists d, off', after. done. }
  cbn [obind]. destruct (parse_scheme pcre_exec form s off) as [sc off1].
  destruct (parse_user_sound s (set_scheme sc (set_display d Url_default)) (skip_slashes sc s off1) eq_refl eq_refl)
    as (a & b & off2 & -> & Ha & Hb).
  edestruct parse_host_sound as (u1 & off3 & -> & Hs1 & Ht1 & Hp1 & Hp2 & Hp3 & Hp4).
  { pose proof sane_default as []. split; simpl; auto. }
  1-2: done.
  cbn [obind]. destruct (parse_path_sound form after s u1 off3 Hs1 Ht1 Hp4 Hp1) as (u2 & off4 & -> & Hs2 & Ht2 & Hh2 & Hf2).
  cbn [obind].
  assert (exists u3 off5, (if decide (mScheme u2 = UnknownUrlScheme) then Ok (u2, off4)
    else let '(u, off) := parse_headers pcre_exec s u2 off4 in parse_fields fill pcre_exec form after s u off)
    = Ok (u3, off5) /\ sane u3 /\ settled u3) as (u3 & off5 & -> & Hs3 & Ht3).
  { case_decide; [by eauto|]. destruct (parse_headers_sound s u2 off4 Hs2 Ht2) as (u' & off' & -> & Hs' & Ht' & _).
    { by rewrite Hh2. }
    by apply parse_fields_sound. }
  cbn [obind]. case_decide; [by eauto|].
  destruct (parse_end_sound form next s u3 off5 Hs3 Ht3) as (u4 & t & -> & Hs4 & Ht4). eauto.
Qed.

(** A parameter list is parsed or raw, never both: reset leaves nothing. *)
Lemma reset_fresh u : mpUrlParameters u = None \/ mRawUrlParameters u = [] -> reset u = Url_default.
Proof. destruct u as [? ? ? ? ? ? ? ? r [p|] ? ? ? ?]; simpl; [|done]. intros [|Hr]; [done|]. subst r. done. Qed.

(** C12: Whatever text a URL is made from, in either form, the constructor
    and fromString return: no assertion fails, nothing is read outside the
    text, the loop over field parameters ends.  Afterwards every member holds
    what the grammar of its pattern allows (a port is at most 999999, an
    undecodable text cannot leave a half-parsed host, parameters are still
    raw), and a recognised scheme other than file comes with a host; nothing of
    an earlier value of the object is left. *)
Theorem parse_total s form :
  (exists u, Url_of_string fill pcre_exec s form = Ok u /\ sane u /\ (cstr s <> [] -> settled u))
  /\ forall next v, mpUrlParameters v = None \/ mRawUrlParameters v = [] ->
       exists u t, fromString fill pcre_exec s form next v = Ok (u, t) /\ sane u /\ settled u.
Proof.
  split.
  - unfold Url_of_string. destruct (cstr s) as [|c r]; [exists Url_default; split_and!; [done|apply sane_default|done]|].
    destruct (parse_sound (c :: r) form false) as (u & t & -> & Hs & Ht). cbn [obind fst]. exists u. by split_and!.
  - intros next v Hv. unfold fromString. rewrite (reset_fresh v Hv). apply parse_sound.
Qed.
End Sound.

Lemma parse_total_witness :
  (exists u, Url_of_string zero_fill search (q "#A# <sip:b@c:123456;d>;e=#f") NameAddr = Ok u /\ sane u /\ settled u)
  /\ exists u t, fromString zero_fill search (bytes "sips:b,sip:c") AddrSpec true Url_default = Ok (u, t) /\ sane u /\ settled u.
Proof.
  split.
  - destruct (parse_total zero_fill (H := search_Pcre 0) (q "#A# <sip:b@c:123456;d>;e=#f") NameAddr) as [(u & E & Hs & Ht) _].
    exists u. split_and!; [done|done|]. apply Ht. done.
  - apply (parse_total zero_fill (H := search_Pcre 0) (bytes "sips:b,sip:c") AddrSpec). by left.
Defined.
