(* ===== verification/UrlRoundtrip.v ===== *)
(** * Round trips of SIP URLs

    A well-formed SIP or SIPS URL printed by toString is parsed back as a
    name-addr, and printed by getUri as an addr-spec, for every library that
    behaves as PCRE is documented to. *)
From Stdlib Require Import ZArith Lia Ascii String.
From stdpp Require Import base list strings sets.
From S2P Require Import Prelude UtlString UtlStringRefine NameValueTokenizer NameValueTokenizerSpec Format Pcre PcreSpec.
From S2P Require Import UrlCodec Url UrlSyntax UrlSpec.
Local Open Scope nat_scope.

(** What parsing leaves: raw parameters, no flags. *)
Definition parsed (v : Url) (d : list ascii) : Url :=
  mkUrl (mScheme v) d (mUserId v) (mPassword v) false (mHostAddress v) (mHostPort v) []
    (raw_params ";" (mpUrlParameters v)) None (raw_params "&" (mpHeaderOrQueryParameters v)) None None false.

(** The URL that a reader of the text sees: brackets and an empty password
    are not members of the text. *)
Definition canonical (u : Url) : Url := set_brackets false (set_user (mUserId u) (mPassword u) false u).

(** The parameters parsed on demand. *)
Definition force (u : Url) : outcome Url := let! u := parseUrlParameters u in parseHeaderOrQueryParameters u.

(** ** The parameters on demand *)

Lemma wf_uri_params sep ps : (sep = ";"%char \/ sep = "&"%char) -> Forall wf_uri_param ps -> Forall (wf_param sep) ps.
Proof.
  intros Hsep Hps. eapply Forall_impl; [exact Hps|]. intros p (H1 & H2 & H3). split_and!; [done| | |done].
  - eapply Forall_impl; [exact H2|]. intros x Hx. exact (proj1 (uri_name_facts x Hx)).
  - intros Hin. unfold all in H2. rewrite Forall_forall in H2. specialize (H2 _ Hin).
    apply uri_name_facts in H2 as (_ & H4 & _ & _ & _ & H5 & _). by destruct Hsep as [-> | ->].
Qed.

Lemma raw_params_ne sep o : params_ok wf_uri_param o -> o <> None -> raw_params sep o <> [].
Proof.
  destruct o as [ps|]; [|done]. intros [Hne Hps] _. cbn [raw_params]. destruct ps as [|p ps]; [done|].
  inversion Hps as [|? ? (Hn & _) _]; subst. cbn [fmap list_fmap]. destruct p as [n o]; simpl in Hn.
  destruct n as [|x n]; [done|]. destruct (print_param <$> ps); done.
Qed.

Lemma raw_params_parse sep o : (sep = ";"%char \/ sep = "&"%char) -> params_ok wf_uri_param o ->
  match raw_params sep o with
  | [] => o = None
  | _ => exists ps, o = Some ps /\ parseCgiVariables (c_str (raw_params sep o)) (c_str [sep]) (c_str "=") = Ok ps
  end.
Proof.
  intros Hsep Ho. destruct (raw_params sep o) as [|x r] eqn:E.
  - destruct o; [|done]. exfalso. by apply (raw_params_ne sep _ Ho).
  - destruct o as [ps|]; [|done]. exists ps. split; [done|]. rewrite <- E. destruct Ho as [Hne Hps]. apply cgi_roundtrip;
      [done|by apply wf_uri_params|by destruct Hsep as [-> | ->]..].
Qed.

Lemma force_params u raw o : mpUrlParameters u = None -> mRawUrlParameters u = raw -> params_ok wf_uri_param o ->
  raw = raw_params ";" o -> parseUrlParameters u = Ok (set_url_params [] o u).
Proof.
  intros H1 H2 Ho ->. unfold parseUrlParameters. rewrite H1. pose proof (raw_params_parse ";" o (or_introl eq_refl) Ho) as H.
  rewrite H2. destruct (raw_params ";" o) eqn:E.
  - subst o. f_equal. destruct u; simpl in *; by subst.
  - destruct H as (ps & -> & H). change (c_str ";") with (c_str [";"%char]). by rewrite H.
Qed.

Lemma force_headers u raw o : mpHeaderOrQueryParameters u = None -> mRawHeaderOrQueryParameters u = raw -> params_ok wf_uri_param o ->
  raw = raw_params "&" o -> parseHeaderOrQueryParameters u = Ok (set_header_params [] o u).
Proof.
  intros H1 H2 Ho ->. unfold parseHeaderOrQueryParameters. rewrite H1.
  pose proof (raw_params_parse "&" o (or_intror eq_refl) Ho) as H.
  rewrite H2. destruct (raw_params "&" o) eqn:E.
  - subst o. f_equal. destruct u; simpl in *; by subst.
  - destruct H as (ps & -> & H). change (c_str "&") with (c_str ["&"%char]). by rewrite H.
Qed.

Lemma force_parsed v d fs :
  wf_sip_url v ->
  force (set_field_params fs (parsed v d)) = Ok (canonical (set_display d (set_field_params fs v))).
Proof.
  intros []. unfold force. rewrite (force_params _ _ (mpUrlParameters v)) by done. cbn [obind].
  rewrite (force_headers _ _ (mpHeaderOrQueryParameters v)) by done.
  destruct v; simpl in *. destruct wu_raw as [-> ->]. by rewrite wu_path.
Qed.

(** ** The phases together *)

Section Roundtrip.
Context (fill : nat -> ascii) `{Pcre pcre_exec}.

(** parseString behind the display name and the brackets. *)
Definition parse_rest (form : UriForm) (after : option nat) (nextUri : bool) (s : list ascii) (u : Url) (off : nat)
    : outcome (Url * list ascii) :=
  let '(scheme, off) := parse_scheme pcre_exec form s off in
  let u := set_scheme scheme u in
  let off := skip_slashes scheme s off in
  let '(u, off) := parse_user pcre_exec s u off in
  let! (u, off) := parse_host pcre_exec s u off in
  let! (u, off) := parse_path pcre_exec form after s u off in
  let! (u, off) :=
    (if decide (mScheme u = UnknownUrlScheme) then Ok (u, off)
     else
       let '(u, off) := parse_headers pcre_exec s u off in
       parse_fields fill pcre_exec form after s u off) in
  if decide (mScheme u = UnknownUrlScheme) then Ok (u, [])
  else Ok (parse_end pcre_exec form nextUri s u off).

Definition uri_end (r : list ascii) : Prop := r = [] \/ exists r', r = ">"%char :: r'.

(** What stands behind the host, the parameters and the headers. *)
Lemma after_host_uri v r : wf_sip_url v -> uri_end r -> after_host (param_part v ++ header_part v ++ r).
Proof.
  intros [] Hr. rewrite param_part_raw, header_part_raw by done.
  destruct (mpUrlParameters v); [done|]. destruct (mpHeaderOrQueryParameters v); [done|]. by destruct Hr as [-> |[r' ->]].
Qed.

Lemma after_params_uri v r : wf_sip_url v -> uri_end r ->
  none_of url_param_char (header_part v ++ r) /\ none_of (fun c => isspace c || one_of ";" c) (header_part v ++ r).
Proof.
  intros [] Hr. rewrite header_part_raw by done.
  destruct (mpHeaderOrQueryParameters v); [done|]. by destruct Hr as [-> |[r' ->]].
Qed.

Lemma no_user_uri v r : wf_sip_url v -> uri_end r ->
  no_user (mHostAddress v ++ port_part v ++ param_part v ++ header_part v ++ r).
Proof.
  intros Hv Hr. exists (mHostAddress v ++ port_part v ++ param_part v ++ header_part v), r.
  split; [by rewrite <- !app_assoc|]. split; [|by destruct Hr as [-> |[r' ->]]].
  intros Hin. pose proof (tail_all v Hv) as Ht. unfold all in Ht. rewrite Forall_forall in Ht. by specialize (Ht _ Hin).
Qed.

Lemma parse_rest_uri form after nextUri pre v r d :
  wf_sip_url v -> short (pre ++ uri_text v ++ r) -> uri_end r ->
  (mpUrlParameters v <> None -> form = AddrSpec \/ after <> None) ->
  parse_rest form after nextUri (pre ++ uri_text v ++ r) (set_display d Url_default) (length pre)
  = let! (u, off) := parse_fields fill pcre_exec form after (pre ++ uri_text v ++ r) (parsed v d) (length (pre ++ uri_text v)) in
    if decide (mScheme u = UnknownUrlScheme) then Ok (u, []) else Ok (parse_end pcre_exec form nextUri (pre ++ uri_text v ++ r) u off).
Proof.
  intros Hv Hs Hr Hform. pose proof (after_host_uri v r Hv Hr) as Hah. destruct (after_params_uri v r Hv Hr) as [Hap1 Hap2].
  pose proof (no_user_uri v r Hv Hr) as Hnu. destruct Hv. unfold uri_text in *.
  set (P := param_part v) in *. set (Q := header_part v) in *. set (O := port_part v) in *. set (U := user_part v) in *.
  set (A := mHostAddress v) in *.
  assert (has_path (mScheme v) = false) as Hnp by (by destruct (mScheme v)).
  assert (mScheme v <> UnknownUrlScheme) as Hku by (intros E; by rewrite E in wu_scheme).
  assert (mScheme v <> FileUrlScheme) as Hkf by (intros E; by rewrite E in wu_scheme).
  set (pre1 := pre ++ schemeName (mScheme v) ++ [":"%char]).
  assert (pre ++ (schemeName (mScheme v) ++ ":"%char :: U ++ A ++ O ++ P ++ Q) ++ r
    = pre ++ schemeName (mScheme v) ++ ":"%char :: U ++ A ++ O ++ P ++ Q ++ r) as E0 by assoc.
  assert (pre ++ (schemeName (mScheme v) ++ ":"%char :: U ++ A ++ O ++ P ++ Q) ++ r
    = pre1 ++ U ++ A ++ O ++ P ++ Q ++ r) as E1 by (unfold pre1; assoc).
  assert (pre ++ (schemeName (mScheme v) ++ ":"%char :: U ++ A ++ O ++ P ++ Q) ++ r
    = (pre1 ++ U) ++ A ++ O ++ P ++ Q ++ r) as E2 by (unfold pre1; assoc).
  assert (pre ++ (schemeName (mScheme v) ++ ":"%char :: U ++ A ++ O ++ P ++ Q) ++ r
    = ((pre1 ++ U) ++ A ++ O) ++ P ++ Q ++ r) as E3 by (unfold pre1; assoc).
  assert (pre ++ (schemeName (mScheme v) ++ ":"%char :: U ++ A ++ O ++ P ++ Q) ++ r
    = (((pre1 ++ U) ++ A ++ O) ++ P) ++ Q ++ r) as E4 by (unfold pre1; assoc).
  set (s := pre ++ (schemeName (mScheme v) ++ ":"%char :: U ++ A ++ O ++ P ++ Q) ++ r) in *.
  unfold parse_rest. rewrite E0. rewrite parse_scheme_text by (done || by rewrite <- E0). rewrite <- E0. cbn iota zeta.
  assert (forall off, skip_slashes (mScheme v) s off = off) as -> by (intros off; unfold skip_slashes; by rewrite Hnp).
  fold pre1. rewrite E1. unfold U at 1. rewrite parse_user_text;
    [|fold U A O P Q; by rewrite <- E1|done|done|done|done|tauto|tauto]. fold U. rewrite <- E1. cbn iota zeta.
  rewrite E2. unfold A at 1, O at 1. rewrite parse_host_text;
    [|fold U A O P Q; by rewrite <- E2|done|done|done|done|done|done]. fold A O. rewrite <- E2. cbn [obind].
  rewrite E3. unfold P at 1. rewrite parse_path_text;
    [|fold U A O P Q; by rewrite <- E3|done|done|done|done|done|done|done]. fold P. rewrite <- E3. cbn [obind].
  rewrite decide_False by done.
  rewrite E4. unfold Q at 1. rewrite parse_headers_text;
    [|fold U A O P Q; by rewrite <- E4|done|done|done|by destruct Hr as [-> |[r' ->]]|by destruct Hr as [-> |[r' ->]]].
  fold Q. rewrite <- E4. cbn iota.
  replace ((((pre1 ++ U) ++ A ++ O) ++ P) ++ Q) with (pre ++ schemeName (mScheme v) ++ ":"%char :: U ++ A ++ O ++ P ++ Q)
    by (unfold pre1; assoc).
  done.
Qed.

(** ** Fields and the end of the text *)

Lemma add_fields_parsed v d :
  params_ok wf_field_param (mpFieldParameters v) ->
  add_fields (default [] (mpFieldParameters v)) (parsed v d) = set_field_params (mpFieldParameters v) (parsed v d).
Proof. destruct (mpFieldParameters v) as [[|p ps]|]; [by intros []|done|done]. Qed.

Lemma fields_parsed v u pre t :
  params_ok wf_field_param (mpFieldParameters v) ->
  print_field_params pcre_exec (default [] (mpFieldParameters v)) = Ok t -> short (pre ++ t) ->
  mScheme u <> UnknownUrlScheme ->
  field_loop fill pcre_exec (S (length (pre ++ t))) (pre ++ t) u (length pre)
  = Ok (add_fields (default [] (mpFieldParameters v)) u, length (pre ++ t)).
Proof.
  intros Hv Ht Hs Hu.
  assert (Forall wf_field_param (default [] (mpFieldParameters v))) as Hps by (destruct (mpFieldParameters v); [by destruct Hv|constructor]).
  eapply field_loop_printed; [done|done|done|done|].
  destruct (print_fields_total (default [] (mpFieldParameters v)) Hps) as (t' & Et & Hl).
  rewrite Ht in Et. injection Et as <-. rewrite length_app. lia.
Qed.

Lemma parse_end_text form s u : short s -> parse_end pcre_exec form false s u (length s) = (u, []).
Proof.
  intros Hs. unfold parse_end. rewrite <- (app_nil_r s) at 1. rewrite <- (app_nil_r s) in Hs.
  destruct (decide (form = AddrSpec)).
  - rewrite (here_at End_ s [] (mkM (length s) [] [])); [done| |done].
    apply short_in; [done|]. unfold url_patterns. repeat (apply list_elem_of_here || apply list_elem_of_further).
  - rewrite (here_at EndSws s [] (mkM (length s) [] [])); [done| |apply bt_end_url].
    apply short_in; [done|]. unfold url_patterns. repeat (apply list_elem_of_here || apply list_elem_of_further).
Qed.

(** A name-addr in angle brackets, behind its display name. *)
Lemma parse_bracketed v pre d t :
  wf_sip_url v -> print_field_params pcre_exec (default [] (mpFieldParameters v)) = Ok t ->
  short ((pre ++ ["<"%char]) ++ uri_text v ++ ">"%char :: t) ->
  parse_rest NameAddr (Some (length (pre ++ "<"%char :: uri_text v ++ [">"%char]))) false
    ((pre ++ ["<"%char]) ++ uri_text v ++ ">"%char :: t) (set_display d Url_default) (length (pre ++ ["<"%char]))
  = Ok (set_field_params (mpFieldParameters v) (parsed v d), []).
Proof.
  intros Hv Ht Hs. rewrite parse_rest_uri; [|done|done|by right; eexists|by right]. destruct Hv.
  assert (mScheme v <> UnknownUrlScheme) as Hk by (intros E; by rewrite E in wu_scheme).
  unfold parse_fields. rewrite decide_True by done.
  rewrite (proj2 (Nat.eqb_eq _ _)) by (rewrite !length_app; cbn [length]; rewrite !length_app; cbn [length]; lia).
  assert ((pre ++ ["<"%char]) ++ uri_text v ++ ">"%char :: t = (pre ++ "<"%char :: uri_text v ++ [">"%char]) ++ t) as E by assoc.
  rewrite E in *. rewrite (fields_parsed v) by done. cbn [obind].
  rewrite add_fields_parsed by done. rewrite decide_False by done. by rewrite parse_end_text.
Qed.

(** The bare URI of toString. *)
Lemma parse_bare v :
  wf_sip_url v -> mpUrlParameters v = None -> mpFieldParameters v = None -> short (uri_text v) ->
  parse_rest NameAddr None false (uri_text v) (set_display [] Url_default) 0 = Ok (parsed v [], []).
Proof.
  intros Hv Hp Hf Hs. pose proof (parse_rest_uri NameAddr None false [] v [] [] Hv) as E.
  rewrite app_nil_l, app_nil_r in E. change (length (@nil ascii)) with 0 in E.
  rewrite E; [|done|by left|by rewrite Hp]. destruct Hv.
  assert (mScheme v <> UnknownUrlScheme) as Hk by (intros E'; by rewrite E' in wu_scheme).
  unfold parse_fields. rewrite decide_True by done. rewrite app_nil_l.
  pose proof (fields_parsed v (parsed v []) (uri_text v) []) as F. rewrite Hf, app_nil_r in F.
  rewrite F by done. cbn [obind]. rewrite decide_False by done. by rewrite parse_end_text.
Qed.

Lemma parse_addr_spec v :
  wf_sip_url v -> short (uri_text v) ->
  parseString fill pcre_exec (uri_text v) AddrSpec false Url_default = Ok (parsed v [], []).
Proof.
  intros Hv Hs. change (parse_rest AddrSpec None false (uri_text v) (set_display [] Url_default) 0 = Ok (parsed v [], [])).
  pose proof (parse_rest_uri AddrSpec None false [] v [] [] Hv) as E.
  rewrite app_nil_l, app_nil_r in E. change (length (@nil ascii)) with 0 in E.
  rewrite E; [|done|by left|by left]. destruct Hv.
  assert (mScheme v <> UnknownUrlScheme) as Hk by (intros E'; by rewrite E' in wu_scheme).
  unfold parse_fields. rewrite decide_False by done. cbn [obind]. rewrite decide_False by done.
  by rewrite app_nil_l, parse_end_text.
Qed.

(** ** The texts *)

(** Whether toString writes angle brackets. *)
Definition name_addr (u : Url) : bool :=
  negb (bool_decide (mDisplayName u = [])) || mAngleBracketsIncluded u || have (mpFieldParameters u)
  || (is_sip (mScheme u) && (have (mpUrlParameters u) || have (mpHeaderOrQueryParameters u))).

Lemma toString_text u : wf_sip_url u ->
  exists t, print_field_params pcre_exec (default [] (mpFieldParameters u)) = Ok t
    /\ toString pcre_exec u
       = Ok (mDisplayName u ++ (if name_addr u then "<"%char :: uri_text u ++ [">"%char] else uri_text u) ++ t, u).
Proof.
  intros Hu. destruct (wf_params_parsed u Hu) as [Hp Hh].
  assert (Forall wf_field_param (default [] (mpFieldParameters u))) as Hps.
  { destruct Hu. destruct (mpFieldParameters u); [by destruct wu_fields|constructor]. }
  destruct (print_fields_total (pcre_exec := pcre_exec) _ Hps) as (t & Et & _). exists t. split; [done|].
  unfold toString. rewrite Hp. cbn [obind]. rewrite Hh. cbn [obind]. rewrite (getUri_text u Hu). cbn [obind].
  by rewrite Et.
Qed.

Lemma print_fields_nul_free ps : Forall wf_field_param ps ->
  forall t, print_field_params pcre_exec ps = Ok t -> nul_free t.
Proof.
  induction 1 as [|p ps (Hn1 & Hn2 & v & Hv & Hvc) _ IH]; intros t Ht; cbn [print_field_params] in Ht; [injection Ht as <-; constructor|].
  assert (value_of p = v) as Ev by (unfold value_of; by rewrite Hv). rewrite Ev in Ht.
  destruct (field_char_facts v Hvc) as (Hvn & _). destruct (gen_value_escape_cases (pcre_exec := pcre_exec) v Hvc) as (e & He & Hcase).
  assert (nul_free e) as Hen.
  { destruct Hcase as [[-> _]| ->]; [done|]. constructor; [done|]. apply Forall_app. split; [done|]. by repeat constructor. }
  destruct (print_field_params pcre_exec ps) as [rest| | |] eqn:Er.
  2-4: destruct v; [|rewrite He in Ht]; done.
  assert (exists tv, t = ";"%char :: fst p ++ tv ++ rest /\ nul_free tv) as (tv & -> & Htv).
  { destruct v as [|x v]; [|rewrite He in Ht]; cbn [obind] in Ht; injection Ht as <-.
    - exists []. split; [done|constructor].
    - exists ("="%char :: e). split; [done|by constructor]. }
  constructor; [done|]. apply Forall_app. split; [|apply Forall_app; split; [done|by apply IH]].
  eapply Forall_impl; [exact Hn2|]. intros x Hx ->. by vm_compute in Hx.
Qed.

Lemma uri_nul_free v : wf_sip_url v -> nul_free (uri_text v) /\ ">"%char ∉ uri_text v.
Proof.
  intros Hv. pose proof (uri_text_all v Hv) as H1. split.
  - eapply Forall_impl; [exact H1|]. intros x Hx ->. by vm_compute in Hx.
  - intros Hin. unfold all in H1. rewrite Forall_forall in H1. by specialize (H1 _ Hin).
Qed.

Lemma toString_nul_free u t : wf_sip_url u -> toString pcre_exec u = Ok (t, u) -> nul_free t.
Proof.
  intros Hu Ht. destruct (toString_text u Hu) as (f & Ef & E). rewrite E in Ht. injection Ht as <-.
  destruct (uri_nul_free u Hu) as [H1 _]. pose proof (wu_display u Hu) as [Hd _].
  assert (nul_free f) as Hf.
  { eapply print_fields_nul_free; [|exact Ef]. destruct Hu. destruct (mpFieldParameters u); [by destruct wu_fields|constructor]. }
  apply Forall_app. split; [done|]. apply Forall_app. split; [|done].
  destruct (name_addr u); [|done]. constructor; [done|]. apply Forall_app. split; [done|]. by repeat constructor.
Qed.

(** The front of a name-addr. *)
Lemma parse_name_addr v t :
  wf_sip_url v -> print_field_params pcre_exec (default [] (mpFieldParameters v)) = Ok t ->
  short (mDisplayName v ++ "<"%char :: uri_text v ++ ">"%char :: t) ->
  parseString fill pcre_exec (mDisplayName v ++ "<"%char :: uri_text v ++ ">"%char :: t) NameAddr false Url_default
  = Ok (set_field_params (mpFieldParameters v) (parsed v (mDisplayName v)), []).
Proof.
  intros Hv Ht Hs. unfold parseString. rewrite decide_False by done.
  assert (parse_display pcre_exec (mDisplayName v ++ "<"%char :: uri_text v ++ ">"%char :: t) Url_default 0
    = (set_display (mDisplayName v) Url_default, length (mDisplayName v))) as ->.
  { destruct (wu_display v Hv) as [_ [E|Hd]].
    - rewrite E. rewrite parse_display_none; [done|]. intros off. apply bt_no_display_bracket.
    - by apply parse_display_text. }
  destruct (uri_nul_free v Hv) as [_ Hgt].
  rewrite parse_brackets_text; [|done|by unfold uri_text; destruct (mScheme v)|done]. cbn [obind].
  assert (mDisplayName v ++ "<"%char :: uri_text v ++ ">"%char :: t = (mDisplayName v ++ ["<"%char]) ++ uri_text v ++ ">"%char :: t) as E by assoc.
  rewrite E in *. apply parse_bracketed; done.
Qed.

Lemma parse_bare_text v :
  wf_sip_url v -> mpUrlParameters v = None -> mpFieldParameters v = None -> short (uri_text v) ->
  parseString fill pcre_exec (uri_text v) NameAddr false Url_default = Ok (parsed v [], []).
Proof.
  intros Hv Hp Hf Hs. unfold parseString. rewrite decide_False by done.
  assert (is_sip (mScheme v) = true) as Hsc by (by destruct Hv).
  rewrite parse_display_none; [|intros off; unfold uri_text; apply bt_no_display_word; destruct (mScheme v); try done; by repeat constructor].
  pose proof (parse_brackets_none (pcre_exec := pcre_exec) [] (uri_text v)) as E. cbn [length app] in E.
  rewrite E by (unfold uri_text; by destruct (mScheme v)). cbn [obind]. by apply parse_bare.
Qed.

Lemma url_of_parse t form u :
  nul_free t -> t <> [] -> parseString fill pcre_exec t form false Url_default = Ok (u, []) ->
  Url_of_string fill pcre_exec t form = Ok u.
Proof. intros Hn Hne E. unfold Url_of_string. rewrite cstr_id by done. destruct t; [done|]. by rewrite E. Qed.

(** C11: A well-formed SIP or SIPS URL (display name, user, password, host,
    port, url, header and field parameters of any values that can be written)
    is printed by toString without undefined behaviour, and the text, when it
    is short enough for the regular expression library, is parsed back to the
    same URL: after the parameters are parsed on demand every member agrees,
    but for the two flags that the text does not carry. *)
Theorem url_roundtrip u :
  wf_sip_url u ->
  exists t, toString pcre_exec u = Ok (t, u)
    /\ (short t -> exists u', Url_of_string fill pcre_exec t NameAddr = Ok u' /\ force u' = Ok (canonical u)).
Proof.
  intros Hu. destruct (toString_text u Hu) as (f & Ef & E).
  eexists. split; [exact E|]. intros Hs. pose proof (toString_nul_free u _ Hu E) as Hn.
  assert (canonical (set_display (mDisplayName u) (set_field_params (mpFieldParameters u) u)) = canonical u) as Ec by (by destruct u).
  destruct (name_addr u) eqn:Ena.
  - assert (mDisplayName u ++ ("<"%char :: uri_text u ++ [">"%char]) ++ f = mDisplayName u ++ "<"%char :: uri_text u ++ ">"%char :: f)
      as E1 by assoc. rewrite E1 in *.
    eexists. split; [apply url_of_parse; [done|by destruct (mDisplayName u)|by apply parse_name_addr]|].
    by rewrite force_parsed, Ec.
  - unfold name_addr in Ena. rewrite !orb_false_iff in Ena. destruct Ena as [[[Ed _] Ef'] Ep].
    apply negb_false_iff, bool_decide_eq_true in Ed. pose proof (wu_scheme u Hu) as Hsc. rewrite Hsc in Ep.
    apply orb_false_iff in Ep as [Ep Eh].
    assert (mpFieldParameters u = None) as Enf by (pose proof (wu_fields u Hu); destruct (mpFieldParameters u) as [[|]|]; [by destruct H0|done|done]).
    assert (mpUrlParameters u = None) as Enp by (pose proof (wu_params u Hu); destruct (mpUrlParameters u) as [[|]|]; [by destruct H0|done|done]).
    rewrite Enf in Ef. injection Ef as <-. rewrite Ed, Enf in *. rewrite app_nil_l, app_nil_r in *.
    exists (parsed u []). split; [apply url_of_parse; [done|by unfold uri_text; destruct (mScheme u)|by apply parse_bare_text]|].
    rewrite <- Ec. by apply (force_parsed u [] None).
Qed.

(** The text of getUri is parsed back as an addr-spec to the same URL
    without display name and field parameters, which getUri leaves out. *)
Theorem uri_roundtrip u :
  wf_sip_url u ->
  exists t, getUri u = Ok (t, u)
    /\ (short t -> exists u', Url_of_string fill pcre_exec t AddrSpec = Ok u'
          /\ force u' = Ok (canonical (set_display [] (set_field_params None u)))).
Proof.
  intros Hu. exists (uri_text u). split; [by apply getUri_text|]. intros Hs. exists (parsed u []). split.
  - apply url_of_parse; [by apply uri_nul_free|by unfold uri_text; destruct (mScheme u)|by apply parse_addr_spec].
  - by apply (force_parsed u [] None).
Qed.
End Roundtrip.

(** ** Witnesses *)

(** A display name in quotes, every part present, and values with
    characters of every kind. *)
Definition demo_url : Url :=
  mkUrl SipsUrlScheme (q "#Joe <J>#") (bytes "joe%20x") (bytes "pw") true (bytes "pbx-1.example.com") 5061 []
    [] (Some [(bytes "transport", Some (bytes "tcp")); (bytes "lr", Some [])])
    [] (Some [(bytes "Expires", Some (bytes "30")); (bytes "x", Some (bytes "a=b&c; ?>"))])
    (Some [(bytes "tag", Some (bytes "a1")); (bytes "q", Some (bytes "0;5, x")); (bytes "ip", Some (bytes "[::1]"))]) true.

Lemma all_of (c : ascii -> bool) l : forallb c l = true -> all c l.
Proof. intros H. rewrite forallb_forall in H. apply Forall_forall. intros x Hx. by apply H, list_elem_of_In. Qed.

Lemma units_of (c : ascii -> bool) ok l : forallb c l = true -> units c ok l.
Proof. induction l as [|x l IH]; simpl; [constructor|]. intros [Hx Hl]%andb_true_iff. constructor; auto. Qed.

Lemma nul_free_of l : forallb (fun c => negb (bool_decide (c = NUL))) l = true -> nul_free l.
Proof.
  intros H. apply all_of in H. eapply Forall_impl; [exact H|]. intros x Hx. by apply negb_true_iff, bool_decide_eq_false in Hx.
Qed.

Lemma wf_uri_param_of n v :
  bool_decide (n <> []) && forallb uri_name_char n && forallb (fun c => negb (bool_decide (c = NUL))) v = true ->
  wf_uri_param (n, Some v).
Proof.
  rewrite !andb_true_iff, bool_decide_eq_true. intros [[H1 H2] H3]. split_and!; [done|by apply all_of|].
  exists v. split; [done|by apply nul_free_of].
Qed.

Lemma wf_field_param_of n v :
  bool_decide (n <> []) && forallb token_char n && forallb field_char v = true -> wf_field_param (n, Some v).
Proof.
  rewrite !andb_true_iff, bool_decide_eq_true. intros [[H1 H2] H3]. split_and!; [done|by apply all_of|].
  exists v. split; [done|by apply all_of].
Qed.

Lemma label_of a m b : isalnum a && forallb label_char m && isalnum b = true -> label (a :: m ++ [b]).
Proof. rewrite !andb_true_iff. intros [[H1 H2] H3]. right. exists a, m, b. split_and!; [done|done|by apply all_of|done]. Qed.

Lemma demo_url_wf : wf_sip_url demo_url.
Proof.
  split; cbn [demo_url mScheme mDisplayName mUserId mPassword mHostAddress mHostPort mPath mRawUrlParameters
    mRawHeaderOrQueryParameters mpUrlParameters mpHeaderOrQueryParameters mpFieldParameters].
  - done.
  - split; [by apply nul_free_of|]. right. right. exists (bytes "Joe <J>"). split; [done|by apply units_of].
  - change (units user_char hex_unit (bytes "joe" ++ bytes "%20" ++ bytes "x")).
    repeat (apply units_run; [done|]). apply (units_unit _ _ (bytes "%20")); [by exists "2"%char, "0"%char|]. by apply units_of.
  - split; [by apply units_of|done].
  - left. apply (domain_more (bytes "pbx-1")); [by apply (label_of "p" (bytes "bx-") "1")|].
    apply (domain_more (bytes "example")); [by apply (label_of "e" (bytes "xampl") "e")|].
    apply domain_label, (label_of "c" (bytes "o") "m"). done.
  - right. done.
  - done.
  - done.
  - split; [done|]. repeat (constructor; [apply wf_uri_param_of; vm_compute; reflexivity|]). constructor.
  - split; [done|]. repeat (constructor; [apply wf_uri_param_of; vm_compute; reflexivity|]). constructor.
  - split; [done|]. repeat (constructor; [apply wf_field_param_of; vm_compute; reflexivity|]). constructor.
Qed.

Lemma short_of limit t : length t <= limit -> short (H := search_Pcre limit) t.
Proof. intros Hl. by repeat constructor. Qed.

Lemma url_roundtrip_witness :
  exists t u', toString search demo_url = Ok (t, demo_url) /\ Url_of_string zero_fill search t NameAddr = Ok u'
    /\ force u' = Ok (canonical demo_url).
Proof.
  destruct (url_roundtrip zero_fill (H := search_Pcre 200) demo_url demo_url_wf) as (t & Et & Ht).
  assert (length t <= 200) as Hl by (vm_compute in Et; injection Et as <-; simpl; lia).
  destruct (Ht (short_of 200 t Hl)) as (u' & E1 & E2). exists t, u'. done.
Defined.

Lemma uri_roundtrip_witness :
  exists t u', getUri demo_url = Ok (t, demo_url) /\ Url_of_string zero_fill search t AddrSpec = Ok u'
    /\ force u' = Ok (canonical (set_display [] (set_field_params None demo_url))).
Proof.
  destruct (uri_roundtrip zero_fill (H := search_Pcre 200) demo_url demo_url_wf) as (t & Et & Ht).
  assert (length t <= 200) as Hl by (vm_compute in Et; injection Et as <-; simpl; lia).
  destruct (Ht (short_of 200 t Hl)) as (u' & E1 & E2). exists t, u'. done.
Defined.
