(* ===== verification/UrlParamSpec.v ===== *)
(** * Parameters and identity of a URL

    The url, header and field parameters are a list in which a name, compared
    without case, may occur several times: what the accessors, setters and
    removers do to the values of every name.  The identity string, under
    which locations and credentials are stored, is equal exactly for URLs that
    isUserHostPortEqual takes for equal. *)
From Stdlib Require Import ZArith Lia Ascii String.
From stdpp Require Import base list strings sets.
From S2P Require Import Prelude UtlString UtlStringRefine NameValuePair NameValueTokenizer Format Pcre PcreSpec.
From S2P Require Import UrlCodec Url UrlSyntax UrlSpec UrlRoundtrip.
Local Open Scope Z_scope.

(** ** Names without case *)

Definition same (a b : list ascii) : Prop := tolower <$> a = tolower <$> b.
#[global] Instance same_dec a b : Decision (same a b).
Proof. unfold same. apply _. Defined.

Lemma strcasecmp_same a b : nul_free a -> nul_free b -> strcasecmp a b = 0 <-> same a b.
Proof.
  intros Ha Hb. rewrite strcasecmp_lex, !cstr_id by done. split; [apply lexcmp_eq|]. intros E. unfold same in E. rewrite E. apply lexcmp_refl.
Qed.

Lemma same_name_spec a b : nul_free a -> nul_free b -> same_name a b = bool_decide (same a b).
Proof.
  intros Ha Hb. unfold same_name. destruct (decide (same a b)) as [H|H].
  - rewrite (bool_decide_true _ H), (hash_upper_eq a b 0 H), Z.eqb_refl. by apply Z.eqb_eq, strcasecmp_same.
  - rewrite (bool_decide_false _ H). apply andb_false_iff. right. apply Z.eqb_neq. by rewrite strcasecmp_same.
Qed.

(** The values of a name, in order. *)
Definition values (name : list ascii) (ps : list param) : list (list ascii) :=
  value_of <$> filter (fun p : param => same (fst p) name) ps.

Definition names_ok (ps : list param) : Prop := Forall (fun p : param => nul_free (fst p)) ps.

Lemma values_app name ps qs : values name (ps ++ qs) = values name ps ++ values name qs.
Proof. unfold values. by rewrite filter_app, fmap_app. Qed.

Lemma values_hit name p : same (fst p) name -> values name [p] = [value_of p].
Proof. intros H. unfold values. by rewrite filter_cons_True. Qed.
Lemma values_miss name p : ~ same (fst p) name -> values name [p] = [].
Proof. intros H. unfold values. by rewrite filter_cons_False. Qed.

Lemma nth_named_values name ps i :
  nul_free name -> names_ok ps -> nth_named name i ps = if i <? 0 then None else values name ps !! Z.to_nat i.
Proof.
  intros Hn Hps. revert i. induction Hps as [|p ps Hp Hps IH]; intros i; cbn [nth_named].
  - by destruct (i <? 0).
  - change (p :: ps) with ([p] ++ ps). rewrite values_app.
    destruct (Z.eqb_spec (strcasecmp (fst p) name) 0) as [E|E]; rewrite strcasecmp_same in E by done.
    + rewrite values_hit by done. destruct (Z.eqb_spec i 0) as [-> |Hi]; [done|]. rewrite IH.
      destruct (Z.ltb_spec i 0), (Z.ltb_spec (i - 1) 0); try lia; [done|].
      replace (Z.to_nat i) with (S (Z.to_nat (i - 1))) by lia. done.
    + by rewrite values_miss, IH by done.
Qed.

(** ** Search, removal and update *)

Lemma find_param_spec name ps :
  nul_free name -> names_ok ps ->
  match find_param name ps with
  | Some i => exists pre p post, ps = pre ++ p :: post /\ length pre = i /\ same (fst p) name
                /\ Forall (fun p : param => ~ same (fst p) name) pre
  | None => Forall (fun p : param => ~ same (fst p) name) ps
  end.
Proof.
  intros Hn Hps. unfold find_param.
  assert (forall p : param, p ∈ ps -> same_name (fst p) name = true <-> same (fst p) name) as Hs.
  { intros p Hp. unfold names_ok in Hps. rewrite Forall_forall in Hps. rewrite same_name_spec by auto. apply bool_decide_eq_true. }
  destruct (list_find (fun p => same_name (fst p) name = true) ps) as [[i p]|] eqn:E; cbn.
  - apply list_find_Some in E as (Hi & Hp & Hbefore). exists (take i ps), p, (drop (S i) ps).
    pose proof (list_elem_of_lookup_2 _ _ _ Hi) as Hin.
    split_and!; [by rewrite take_drop_middle|apply length_take_le, Nat.lt_le_incl; exact (lookup_lt_Some _ _ _ Hi)|by apply Hs|].
    apply Forall_forall. intros x Hx. apply list_elem_of_lookup in Hx as (j & Hj).
    apply lookup_take_Some in Hj as [Hj Hji]. rewrite <- Hs by (by eapply list_elem_of_lookup_2). by apply (Hbefore j).
  - apply list_find_None in E. apply Forall_forall. intros x Hx. rewrite Forall_forall in E. rewrite <- Hs by done. by apply E.
Qed.

Lemma filter_keep {A} (P : A -> Prop) `{!forall x, Decision (P x)} l : Forall P l -> filter P l = l.
Proof. induction 1 as [|x l Hx _ IH]; [done|]. by rewrite filter_cons_True, IH. Qed.

Lemma remove_loop_filter name : nul_free name -> forall fuel ps, names_ok ps -> (length ps <= fuel)%nat ->
  remove_loop fuel name ps = Ok (filter (fun p : param => ~ same (fst p) name) ps).
Proof.
  intros Hn. induction fuel as [|fuel IH]; intros ps Hps Hl; cbn [remove_loop];
    pose proof (find_param_spec name ps Hn Hps) as H; (destruct (find_param name ps) as [i|]; [|by rewrite filter_keep]);
    destruct H as (pre & p & post & -> & <- & Hp & Hpre).
  - rewrite length_app in Hl. simpl in Hl. lia.
  - rewrite delete_middle. unfold names_ok in *. rewrite Forall_app, Forall_cons in Hps. destruct Hps as (H1 & _ & H2).
    rewrite IH; [|by apply Forall_app|rewrite length_app in *; simpl in *; lia].
    rewrite !filter_app, filter_cons_False; [done|]. tauto.
Qed.

Lemma values_remove name other ps :
  values other (filter (fun p : param => ~ same (fst p) name) ps) = if decide (same other name) then [] else values other ps.
Proof.
  induction ps as [|p ps IH]; [by destruct (decide _)|].
  rewrite filter_cons. change (p :: ps) with ([p] ++ ps). rewrite values_app.
  destruct (decide (~ same (fst p) name)) as [Hp|Hp].
  - change (p :: filter ?P ps) with ([p] ++ filter P ps). rewrite values_app, IH.
    destruct (decide (same other name)) as [Ho|Ho]; [|done]. rewrite values_miss; [done|].
    intros E. apply Hp. unfold same in *. congruence.
  - apply dec_stable in Hp. rewrite IH. destruct (decide (same other name)) as [Ho|Ho]; [done|].
    rewrite values_miss; [done|]. intros E. apply Ho. unfold same in *. congruence.
Qed.

Lemma values_none name ps : Forall (fun p : param => ~ same (fst p) name) ps -> values name ps = [].
Proof. induction 1 as [|p ps Hp _ IH]; [done|]. change (p :: ps) with ([p] ++ ps). by rewrite values_app, values_miss, IH. Qed.

(** The first value is replaced, a new name is appended. *)
Lemma values_set name other v ps :
  nul_free name -> names_ok ps ->
  values other (set_param name (Some v) ps) = if decide (same other name) then v :: tail (values other ps) else values other ps.
Proof.
  intros Hn Hps. unfold set_param. pose proof (find_param_spec name ps Hn Hps) as H.
  destruct (find_param name ps) as [i|].
  - destruct H as (pre & p & post & -> & <- & Hp & Hpre).
    rewrite <- (Nat.add_0_r (length pre)) at 1. rewrite alter_app_r. cbn [alter list_alter].
    change (?x :: post) with ([x] ++ post). rewrite !values_app.
    destruct (decide (same other name)) as [Ho|Ho].
    + assert (same (fst p) other) as Hpo by (unfold same in *; congruence).
      rewrite (values_none other pre) by (eapply Forall_impl; [exact Hpre|]; unfold same in *; intros x Hx E; congruence).
      by rewrite !values_hit.
    + by rewrite !values_miss by (simpl; unfold same in *; congruence).
  - rewrite values_app. destruct (decide (same other name)) as [Ho|Ho].
    + rewrite (values_none other ps) by (eapply Forall_impl; [exact H|]; unfold same in *; intros x Hx E; congruence).
      by rewrite values_hit by (by unfold same in *).
    + rewrite values_miss by (simpl; unfold same in *; congruence). apply app_nil_r.
Qed.

Lemma names_set name v ps : nul_free name -> names_ok ps -> names_ok (set_param name v ps).
Proof.
  intros Hn Hps. unfold set_param. destruct (find_param name ps) as [i|].
  - unfold names_ok in *. rewrite Forall_forall in *. intros p Hp. apply list_elem_of_lookup in Hp as (j & Hj).
    destruct (decide (i = j)) as [<- |Hij].
    + rewrite list_lookup_alter_eq in Hj. destruct (ps !! i) as [p'|] eqn:E; [|done]. injection Hj as <-. simpl.
      apply Hps. by eapply list_elem_of_lookup_2.
    + rewrite list_lookup_alter_ne in Hj by done. apply Hps. by eapply list_elem_of_lookup_2.
  - apply Forall_app. split; [done|]. by repeat constructor.
Qed.

(** ** Operations on a URL

    The abstract state of a kind of parameters is the sequence of values of
    every name. *)
Definition table : Type := list ascii -> list (list ascii).
Definition t_set (name v : list ascii) (m : table) : table := fun k => if decide (same k name) then v :: tail (m k) else m k.
Definition t_add (name v : list ascii) (m : table) : table := fun k => if decide (same k name) then m k ++ [v] else m k.
Definition t_remove (name : list ascii) (m : table) : table := fun k => if decide (same k name) then [] else m k.
Definition t_get (name : list ascii) (i : Z) (m : table) : option (list ascii) :=
  if i <? 0 then None else m name !! Z.to_nat i.

Inductive param_op :=
| SetUrl (name v : list ascii) | RemoveUrl (name : list ascii) | GetUrl (name : list ascii) (i : Z)
| SetHeader (name v : list ascii) | RemoveHeader (name : list ascii) | GetHeader (name : list ascii) (i : Z)
| SetField (name v : list ascii) | RemoveField (name : list ascii) | GetField (name : list ascii) (i : Z).

Definition op_name (o : param_op) : list ascii :=
  match o with
  | SetUrl n _ | RemoveUrl n | GetUrl n _ | SetHeader n _ | RemoveHeader n | GetHeader n _ | SetField n _ | RemoveField n
  | GetField n _ => n
  end.
Definition op_ok (o : param_op) : Prop := nul_free (op_name o) /\ op_name o <> [].

Definition op_step (o : param_op) (u : Url) : outcome (option (list ascii) * Url) :=
  match o with
  | SetUrl n v => let! u := setUrlParameter n (Some v) u in Ok (None, u)
  | RemoveUrl n => let! u := removeUrlParameter n u in Ok (None, u)
  | GetUrl n i => getUrlParameter n i u
  | SetHeader n v => let! u := setHeaderParameter n (Some v) u in Ok (None, u)
  | RemoveHeader n => let! u := removeHeaderParameter n u in Ok (None, u)
  | GetHeader n i => getHeaderParameter n i u
  | SetField n v => let! u := setFieldParameter n (Some v) u in Ok (None, u)
  | RemoveField n => let! u := removeFieldParameter n u in Ok (None, u)
  | GetField n i => Ok (getFieldParameter n i u, u)
  end.

(** Url, header and field parameters, and whether the scheme is a SIP one. *)
Record tables := mkTables { t_url : table; t_header : table; t_field : table; t_sip : bool }.

Definition spec_step (o : param_op) (t : tables) : option (list ascii) * tables :=
  match o with
  | SetUrl n v => (None, mkTables (t_set n v (t_url t)) (t_header t) (t_field t) (t_sip t))
  | RemoveUrl n => (None, mkTables (t_remove n (t_url t)) (t_header t) (t_field t) (t_sip t))
  | GetUrl n i => (t_get n i (t_url t), t)
  | SetHeader n v =>
      (None, mkTables (t_url t)
               (if t_sip t && isUrlHeaderUnique n then t_add n v (t_remove n (t_header t)) else t_add n v (t_header t))
               (t_field t) (t_sip t))
  | RemoveHeader n => (None, mkTables (t_url t) (t_remove n (t_header t)) (t_field t) (t_sip t))
  | GetHeader n i => (t_get n i (t_header t), t)
  | SetField n v => (None, mkTables (t_url t) (t_header t) (t_set n v (t_field t)) (t_sip t))
  | RemoveField n => (None, mkTables (t_url t) (t_header t) (t_remove n (t_field t)) (t_sip t))
  | GetField n i => (t_get n i (t_field t), t)
  end.

Fixpoint op_run (os : list param_op) (u : Url) : outcome (list (option (list ascii)) * Url) :=
  match os with
  | [] => Ok ([], u)
  | o :: os => let! (r, u) := op_step o u in let! (rs, u) := op_run os u in Ok (r :: rs, u)
  end.
Fixpoint spec_run (os : list param_op) (t : tables) : list (option (list ascii)) * tables :=
  match os with
  | [] => ([], t)
  | o :: os => let '(r, t) := spec_step o t in let '(rs, t) := spec_run os t in (r :: rs, t)
  end.

(** The parameters of a URL, parsed or raw. *)
Definition url_list (u : Url) : outcome (list param) := let! u := parseUrlParameters u in Ok (default [] (mpUrlParameters u)).
Definition header_list (u : Url) : outcome (list param) :=
  let! u := parseHeaderOrQueryParameters u in Ok (default [] (mpHeaderOrQueryParameters u)).

Definition holds (ps : list param) (m : table) : Prop := names_ok ps /\ forall k, values k ps = m k.

Definition refines (u : Url) (t : tables) : Prop :=
  (exists ps, url_list u = Ok ps /\ holds ps (t_url t)) /\ (exists ps, header_list u = Ok ps /\ holds ps (t_header t))
  /\ holds (default [] (mpFieldParameters u)) (t_field t) /\ is_sip (mScheme u) = t_sip t.

Lemma holds_set ps m name v : nul_free name -> holds ps m -> holds (set_param name (Some v) ps) (t_set name v m).
Proof.
  intros Hn [H1 H2]. split; [by apply names_set|]. intros k. rewrite values_set by done. unfold t_set. by rewrite H2.
Qed.

Lemma holds_remove ps m name : holds ps m -> holds (filter (fun p : param => ~ same (fst p) name) ps) (t_remove name m).
Proof.
  intros [H1 H2]. split; [|intros k; rewrite values_remove; unfold t_remove; by rewrite H2].
  unfold names_ok in *. rewrite Forall_forall in *. intros p [_ Hp]%list_elem_of_filter. auto.
Qed.

Lemma holds_add ps m name v : nul_free name -> holds ps m -> holds (ps ++ [(name, Some v)]) (t_add name v m).
Proof.
  intros Hn [H1 H2]. split; [apply Forall_app; split; [done|by repeat constructor]|].
  intros k. rewrite values_app, H2. unfold t_add. destruct (decide (same k name)) as [Hk|Hk].
  - by rewrite values_hit by (unfold same in *; simpl; congruence).
  - rewrite values_miss by (unfold same in *; simpl; congruence). apply app_nil_r.
Qed.

Lemma holds_get ps m name i : nul_free name -> holds ps m -> nth_named name i ps = t_get name i m.
Proof. intros Hn [H1 H2]. rewrite nth_named_values by done. unfold t_get. by rewrite H2. Qed.

(** Parsing on demand changes nothing that can be observed. *)
Definition url_same (u u' : Url) : Prop :=
  url_list u' = url_list u /\ header_list u' = header_list u /\ mpFieldParameters u' = mpFieldParameters u
  /\ mScheme u' = mScheme u.

Lemma header_list_frame raw ps u : header_list (set_url_params raw ps u) = header_list u.
Proof.
  destruct u as [? ? ? ? ? ? ? ? ? ? rh [ph|] ? ?]; [done|]. unfold header_list, parseHeaderOrQueryParameters. simpl.
  destruct rh; [done|]. by destruct (parseCgiVariables _ _ _).
Qed.
Lemma url_list_frame raw ps u : url_list (set_header_params raw ps u) = url_list u.
Proof.
  destruct u as [? ? ? ? ? ? ? ? rp [pp|] ? ? ? ?]; [done|]. unfold url_list, parseUrlParameters. simpl.
  destruct rp; [done|]. by destruct (parseCgiVariables _ _ _).
Qed.

Lemma url_list_field ps u : url_list (set_field_params ps u) = url_list u.
Proof.
  destruct u as [? ? ? ? ? ? ? ? rp [pp|] ? ? ? ?]; [done|]. unfold url_list, parseUrlParameters. simpl.
  destruct rp; [done|]. by destruct (parseCgiVariables _ _ _).
Qed.
Lemma header_list_field ps u : header_list (set_field_params ps u) = header_list u.
Proof.
  destruct u as [? ? ? ? ? ? ? ? ? ? rh [ph|] ? ?]; [done|]. unfold header_list, parseHeaderOrQueryParameters. simpl.
  destruct rh; [done|]. by destruct (parseCgiVariables _ _ _).
Qed.

Lemma url_parsed u ps : url_list u = Ok ps ->
  exists u', parseUrlParameters u = Ok u' /\ default [] (mpUrlParameters u') = ps /\ url_same u u'.
Proof.
  intros Hp. unfold url_same. rewrite Hp. unfold url_list, parseUrlParameters in Hp |- *.
  destruct (mpUrlParameters u) as [l|] eqn:E1; [|destruct (mRawUrlParameters u) as [|c r] eqn:E2].
  - exists u. cbn [obind] in Hp. injection Hp as <-. rewrite E1. cbn [obind]. rewrite ?E1. by split_and!.
  - exists u. cbn [obind] in Hp. injection Hp as <-. rewrite E1, E2. cbn [obind]. rewrite ?E1. by split_and!.
  - destruct (parseCgiVariables _ _ _) as [l| | |]; try done. cbn [obind] in *. injection Hp as <-.
    eexists. split; [done|]. split_and!; [done|done|apply header_list_frame|done|done].
Qed.

Lemma header_parsed u ps : header_list u = Ok ps ->
  exists u', parseHeaderOrQueryParameters u = Ok u' /\ default [] (mpHeaderOrQueryParameters u') = ps /\ url_same u u'.
Proof.
  intros Hp. unfold url_same. rewrite Hp. unfold header_list, parseHeaderOrQueryParameters in Hp |- *.
  destruct (mpHeaderOrQueryParameters u) as [l|] eqn:E1; [|destruct (mRawHeaderOrQueryParameters u) as [|c r] eqn:E2].
  - exists u. cbn [obind] in Hp. injection Hp as <-. rewrite E1. cbn [obind]. rewrite ?E1. by split_and!.
  - exists u. cbn [obind] in Hp. injection Hp as <-. rewrite E1, E2. cbn [obind]. rewrite ?E1. by split_and!.
  - destruct (parseCgiVariables _ _ _) as [l| | |]; try done. cbn [obind] in *. injection Hp as <-.
    eexists. split; [done|]. split_and!; [done|apply url_list_frame|done|done|done].
Qed.

Lemma refines_same u u' t : url_same u u' -> refines u t -> refines u' t.
Proof. intros (E1 & E2 & E3 & E4). unfold refines. by rewrite E1, E2, E3, E4. Qed.

(** A new list of parameters. *)
Lemma refines_url u t raw ps m : refines u t -> holds ps m ->
  refines (set_url_params raw (Some ps) u) (mkTables m (t_header t) (t_field t) (t_sip t)).
Proof.
  intros (_ & H2 & H3 & H4) Hps. split_and!; [exists ps; by split|rewrite header_list_frame; exact H2|exact H3|exact H4].
Qed.
Lemma refines_header u t raw ps m : refines u t -> holds ps m ->
  refines (set_header_params raw (Some ps) u) (mkTables (t_url t) m (t_field t) (t_sip t)).
Proof.
  intros (H1 & _ & H3 & H4) Hps. split_and!; [rewrite url_list_frame; exact H1|exists ps; by split|exact H3|exact H4].
Qed.
Lemma refines_field u t ps m : refines u t -> holds ps m ->
  refines (set_field_params (Some ps) u) (mkTables (t_url t) (t_header t) m (t_sip t)).
Proof.
  intros (H1 & H2 & _ & H4) Hps.
  split_and!; [rewrite url_list_field; exact H1|rewrite header_list_field; exact H2|exact Hps|exact H4].
Qed.

Lemma removeUrl_refines u t name : nul_free name -> refines u t ->
  exists u', removeUrlParameter name u = Ok u'
    /\ refines u' (mkTables (t_remove name (t_url t)) (t_header t) (t_field t) (t_sip t)).
Proof.
  intros Hn Hr. pose proof Hr as ((ps & Hps & Hh) & _). destruct (url_parsed u ps Hps) as (u1 & Hu1 & Ed & Hsame).
  pose proof (refines_same _ _ _ Hsame Hr) as Hr1. unfold removeUrlParameter. rewrite Hu1. cbn [obind].
  pose proof (holds_remove _ _ name Hh) as Hrem. destruct (mpUrlParameters u1) as [l|] eqn:El.
  - change (l = ps) in Ed. subst l. rewrite remove_loop_filter by (done || by destruct Hh). cbn [obind].
    eexists. split; [done|]. by apply refines_url.
  - change ([] = ps) in Ed. subst ps. eexists. split; [done|]. destruct Hr1 as (H1 & H2 & H3 & H4). split_and!; [|done|done|done].
    destruct Hsame as (E & _). rewrite Hps in E. eauto.
Qed.

Lemma removeHeader_refines u t name : nul_free name -> refines u t ->
  exists u', removeHeaderParameter name u = Ok u'
    /\ refines u' (mkTables (t_url t) (t_remove name (t_header t)) (t_field t) (t_sip t)).
Proof.
  intros Hn Hr. pose proof Hr as (_ & (ps & Hps & Hh) & _). destruct (header_parsed u ps Hps) as (u1 & Hu1 & Ed & Hsame).
  pose proof (refines_same _ _ _ Hsame Hr) as Hr1. unfold removeHeaderParameter. rewrite Hu1. cbn [obind].
  pose proof (holds_remove _ _ name Hh) as Hrem. destruct (mpHeaderOrQueryParameters u1) as [l|] eqn:El.
  - change (l = ps) in Ed. subst l. rewrite remove_loop_filter by (done || by destruct Hh). cbn [obind].
    eexists. split; [done|]. by apply refines_header.
  - change ([] = ps) in Ed. subst ps. eexists. split; [done|]. destruct Hr1 as (H1 & H2 & H3 & H4). split_and!; [done| |done|done].
    destruct Hsame as (_ & E & _). rewrite Hps in E. eauto.
Qed.

Lemma removeField_refines u t name : nul_free name -> refines u t ->
  exists u', removeFieldParameter name u = Ok u'
    /\ refines u' (mkTables (t_url t) (t_header t) (t_remove name (t_field t)) (t_sip t)).
Proof.
  intros Hn Hr. pose proof Hr as (_ & _ & Hh & _). unfold removeFieldParameter.
  pose proof (holds_remove _ _ name Hh) as Hrem. destruct (mpFieldParameters u) as [l|] eqn:El.
  - rewrite remove_loop_filter by (done || by destruct Hh). cbn [obind].
    eexists. split; [done|]. by apply refines_field.
  - eexists. split; [done|]. destruct Hr as (H1 & H2 & H3 & H4). split_and!; [done|done| |done]. by rewrite El.
Qed.

Lemma removeHeader_list name u l u' :
  mpHeaderOrQueryParameters u = Some l -> removeHeaderParameter name u = Ok u' -> exists l', mpHeaderOrQueryParameters u' = Some l'.
Proof.
  unfold removeHeaderParameter, parseHeaderOrQueryParameters. intros E Hr. rewrite E in Hr. cbn [obind] in Hr. rewrite E in Hr.
  destruct (remove_loop _ _ _); try done. injection Hr as <-. by eexists.
Qed.

Lemma header_list_of u l t : mpHeaderOrQueryParameters u = Some l -> refines u t -> holds l (t_header t).
Proof.
  intros El (_ & (ps & Hps & Hh) & _). unfold header_list, parseHeaderOrQueryParameters in Hps. rewrite El in Hps.
  cbn [obind] in Hps. rewrite El in Hps. by injection Hps as <-.
Qed.

(** A header that may occur once replaces the one there is. *)
Lemma setHeader_refines u t name v : nul_free name -> name <> [] -> refines u t ->
  exists u', setHeaderParameter name (Some v) u = Ok u'
    /\ refines u' (mkTables (t_url t)
         (if t_sip t && isUrlHeaderUnique name then t_add name v (t_remove name (t_header t)) else t_add name v (t_header t))
         (t_field t) (t_sip t)).
Proof.
  intros Hn Hne Hr. destruct name as [|c n]; [done|]. unfold setHeaderParameter. set (name := c :: n) in *.
  pose proof Hr as (_ & (ps & Hps & Hh) & _). destruct (header_parsed u ps Hps) as (u1 & -> & Ed & Hsame).
  cbn [obind]. pose proof (refines_same _ _ _ Hsame Hr) as Hr1.
  assert (exists u2 l, (match mpHeaderOrQueryParameters u1 with Some _ => u1
    | None => set_header_params (mRawHeaderOrQueryParameters u1) (Some []) u1 end) = u2 /\ refines u2 t
      /\ mpHeaderOrQueryParameters u2 = Some l) as (u2 & l & -> & Hr2 & El2).
  { destruct (mpHeaderOrQueryParameters u1) as [l|] eqn:El; [by eauto|]. exists (set_header_params (mRawHeaderOrQueryParameters u1) (Some []) u1), [].
    split; [done|]. change ([] = ps) in Ed. subst ps. split; [|done]. destruct t. by apply (refines_header u1 _ _ [] _ Hr1). }
  destruct Hr2 as (H1 & H2 & H3 & H4). rewrite H4. pose proof (conj H1 (conj H2 (conj H3 H4)) : refines u2 t) as Hr2.
  destruct (t_sip t && isUrlHeaderUnique name).
  - destruct (removeHeader_refines u2 t name Hn Hr2) as (u3 & E3 & Hr3). destruct (removeHeader_list _ _ _ _ El2 E3) as (l3 & El3).
    rewrite E3. cbn [obind]. eexists. split; [done|]. rewrite El3.
    apply (refines_header _ _ _ _ _ Hr3), holds_add; [done|]. by apply (header_list_of u3 l3 _ El3 Hr3).
  - cbn [obind]. eexists. split; [done|]. rewrite El2.
    apply (refines_header _ _ _ _ _ Hr2), holds_add; [done|]. by apply (header_list_of u2 l _ El2 Hr2).
Qed.

Lemma op_step_refines o u t : op_ok o -> refines u t ->
  exists r u', op_step o u = Ok (r, u') /\ fst (spec_step o t) = r /\ refines u' (snd (spec_step o t)).
Proof.
  intros [Hn Hne] Hr. pose proof Hr as ((ps & Hps & Hh) & (qs & Hqs & Hq) & Hf & Hsip).
  destruct o as [n v|n|n i|n v|n|n i|n v|n|n i]; cbn [op_name] in *; cbn [op_step spec_step fst snd].
  - destruct (url_parsed u ps Hps) as (u1 & Hu1 & Ed & Hsame). unfold setUrlParameter. rewrite Hu1. cbn [obind]. rewrite Ed.
    eexists _, _. split_and!; [done|done|]. apply refines_url; [by apply (refines_same _ _ _ Hsame)|by apply holds_set].
  - destruct (removeUrl_refines u t n Hn Hr) as (u' & -> & Hr'). by eexists _, _.
  - destruct (url_parsed u ps Hps) as (u1 & Hu1 & Ed & Hsame). unfold getUrlParameter. rewrite Hu1. cbn [obind]. rewrite Ed.
    eexists _, _. split_and!; [done|by rewrite (holds_get ps (t_url t))|by apply (refines_same _ _ _ Hsame)].
  - destruct (setHeader_refines u t n v Hn Hne Hr) as (u' & -> & Hr'). by eexists _, _.
  - destruct (removeHeader_refines u t n Hn Hr) as (u' & -> & Hr'). by eexists _, _.
  - destruct (header_parsed u qs Hqs) as (u1 & Hu1 & Ed & Hsame). unfold getHeaderParameter. rewrite Hu1. cbn [obind]. rewrite Ed.
    eexists _, _. split_and!; [done|by rewrite (holds_get qs (t_header t))|by apply (refines_same _ _ _ Hsame)].
  - destruct n as [|c n]; [done|]. cbn [setFieldParameter obind]. eexists _, _. split_and!; [done|done|].
    apply refines_field; [done|by apply holds_set].
  - destruct (removeField_refines u t n Hn Hr) as (u' & -> & Hr'). by eexists _, _.
  - eexists _, _. split_and!; [done| |done]. unfold getFieldParameter. by rewrite (holds_get _ (t_field t)).
Qed.

(** C13: Any sequence of parameter operations on a URL (set, remove and get
    for url, header and field parameters), starting with parameters that are
    parsed or still raw, behaves as on three tables from names without case to
    sequences of values: a url or field parameter replaces the first value, a
    header parameter is appended, or replaces all values for the headers a SIP
    URL may have only once, and removal removes every value.  No operation
    fails. *)
Theorem url_params_refine os : forall u t, Forall op_ok os -> refines u t ->
  exists u', op_run os u = Ok (fst (spec_run os t), u') /\ refines u' (snd (spec_run os t)).
Proof.
  induction os as [|o os IH]; intros u t Hos Hr; [by exists u|]. inversion Hos as [|? ? Ho Hos']; subst.
  destruct (op_step_refines o u t Ho Hr) as (r & u1 & E1 & Er & Hr1). cbn [op_run spec_run]. rewrite E1. cbn [obind].
  destruct (spec_step o t) as [r' t1]. cbn [fst snd] in *. subst r'.
  destruct (IH u1 t1 Hos' Hr1) as (u2 & E2 & Hr2). rewrite E2. cbn [obind]. destruct (spec_run os t1) as [rs t2]. by exists u2.
Qed.

Definition raw_url : Url :=
  mkUrl SipUrlScheme [] (bytes "joe") [] false (bytes "h") PORT_NONE [] (bytes "transport=tcp;lr") None
    (bytes "Expires=30&X=1&x=2") None None false.
Definition raw_tables : tables :=
  mkTables (fun k => values k [(bytes "transport", Some (bytes "tcp")); (bytes "lr", Some [])])
    (fun k => values k [(bytes "Expires", Some (bytes "30")); (bytes "X", Some (bytes "1")); (bytes "x", Some (bytes "2"))])
    (fun k => values k []) true.
Definition param_ops : list param_op :=
  [SetHeader (bytes "EXPIRES") (bytes "60"); GetHeader (bytes "expires") 0; GetHeader (bytes "expires") 1;
   GetHeader (bytes "x") 1; RemoveHeader (bytes "X"); GetHeader (bytes "X") 0; SetUrl (bytes "Transport") (bytes "udp");
   GetUrl (bytes "transport") 0; SetField (bytes "tag") (bytes "1"); GetField (bytes "TAG") 0].

Lemma url_params_refine_witness :
  exists u', op_run param_ops raw_url = Ok (fst (spec_run param_ops raw_tables), u')
    /\ refines u' (snd (spec_run param_ops raw_tables)).
Proof.
  apply url_params_refine.
  - repeat (constructor; [split; [by apply nul_free_of|done]|]). constructor.
  - assert (forall n v, nul_free n -> nul_free (fst (n, v : option (list ascii)))) as Hn by done.
    split; [|split; [|split; [|done]]].
    + eexists. split; [vm_compute; reflexivity|]. split; [|done]. repeat (constructor; [by apply nul_free_of|]). constructor.
    + eexists. split; [vm_compute; reflexivity|]. split; [|done]. repeat (constructor; [by apply nul_free_of|]). constructor.
    + split; [constructor|done].
Defined.

(** ** Identity *)

Lemma split_first (x : ascii) a b c d : x ∉ a -> x ∉ c -> a ++ x :: b = c ++ x :: d -> a = c /\ b = d.
Proof.
  revert c. induction a as [|y a IH]; intros [|z c] Ha Hc; simpl; intros E; simplify_eq.
  - done.
  - exfalso. apply Hc, list_elem_of_here.
  - exfalso. apply Ha, list_elem_of_here.
  - apply not_elem_of_cons in Ha as [_ Ha], Hc as [_ Hc]. destruct (IH c Ha Hc) as [-> ->]; [done|]. done.
Qed.

Lemma not_in_lower (x : ascii) (h : list ascii) : (forall c, tolower c = x -> c = x) -> x ∉ h -> x ∉ tolower <$> h.
Proof. intros Hx Hh (c & E & Hc)%list_elem_of_fmap. apply Hh. rewrite <- (Hx c) by done. done. Qed.

Lemma all_not_in (c : ascii -> bool) (x : ascii) l : all c l -> c x = false -> x ∉ l.
Proof. intros Hl Hx Hin. unfold all in Hl. rewrite Forall_forall in Hl. specialize (Hl _ Hin). congruence. Qed.

Lemma domain_no_colon d : domain d -> ":"%char ∉ d.
Proof.
  induction 1 as [l Hl|l d Hl Hd IH]; destruct (label_all l Hl) as [_ Ha].
  - by apply (all_not_in label_char).
  - apply not_elem_of_app. split; [by apply (all_not_in label_char)|]. by apply not_elem_of_cons.
Qed.

(** A port part is empty or starts with a colon. *)
Definition port_text (p : list ascii) : Prop := p = [] \/ exists q, p = ":"%char :: q.

Lemma domain_port_split (d1 d2 p1 p2 : list ascii) :
  ":"%char ∉ d1 -> ":"%char ∉ d2 -> port_text p1 -> port_text p2 -> d1 ++ p1 = d2 ++ p2 -> d1 = d2 /\ p1 = p2.
Proof.
  intros H1 H2 P1 P2 E. destruct P1 as [-> |[q1 ->]], P2 as [-> |[q2 ->]]; rewrite ?app_nil_r in E.
  - done.
  - exfalso. apply H1. rewrite E. apply elem_of_app. right. apply list_elem_of_here.
  - exfalso. apply H2. rewrite <- E. apply elem_of_app. right. apply list_elem_of_here.
  - apply split_first in E as [-> ->]; done.
Qed.

Lemma lower_fix (x c : ascii) : isalnum x = false -> tolower c = x -> c = x.
Proof.
  intros Hx E. rewrite <- E in Hx. rewrite <- E. symmetry. revert Hx. clear. all_bytes c; intros Hx; (done || discriminate Hx).
Qed.

(** Host and port can be told apart in their concatenation. *)
Lemma host_port_split h1 h2 p1 p2 :
  host_text h1 -> host_text h2 -> port_text p1 -> port_text p2 ->
  (tolower <$> h1) ++ p1 = (tolower <$> h2) ++ p2 -> tolower <$> h1 = tolower <$> h2 /\ p1 = p2.
Proof.
  assert (forall d, domain d -> ":"%char ∉ tolower <$> d) as Hc.
  { intros d Hd. apply not_in_lower; [intros c; by apply lower_fix|by apply domain_no_colon]. }
  assert (forall a, all ipv6_char a -> "]"%char ∉ tolower <$> a) as Hb.
  { intros a Ha. apply not_in_lower; [intros c; by apply lower_fix|by apply (all_not_in ipv6_char)]. }
  assert (forall d x r, domain d -> tolower <$> d <> "["%char :: x /\ (tolower <$> d) ++ r <> "["%char :: x) as Hd.
  { intros d x r Hd. destruct (domain_first d Hd) as (y & d' & -> & Hy).
    assert (tolower y <> "["%char) as Hny by (intros E; apply (lower_fix "[") in E; [|done]; by rewrite E in Hy).
    split; intros E; injection E as E _; done. }
  intros H1 H2 P1 P2 E. destruct H1 as [D1|(a1 & -> & _ & A1)], H2 as [D2|(a2 & -> & _ & A2)].
  - apply domain_port_split; auto.
  - exfalso. exact (proj2 (Hd h1 _ p1 D1) E).
  - exfalso. exact (proj2 (Hd h2 _ p2 D2) (eq_sym E)).
  - rewrite !fmap_cons, !fmap_app in *. change (tolower <$> ["]"%char]) with ["]"%char] in *. injection E as E.
    rewrite <- !app_assoc in E. apply split_first in E as [-> ->]; auto.
Qed.

Lemma port_part_text u : port_text (port_part u).
Proof. unfold port_part. destruct (portIsValid _); [right; by eexists|by left]. Qed.

Lemma port_part_inj u v :
  (mHostPort u = PORT_NONE \/ portIsValid (mHostPort u) = true) -> (mHostPort v = PORT_NONE \/ portIsValid (mHostPort v) = true) ->
  port_part u = port_part v -> mHostPort u = mHostPort v.
Proof.
  unfold port_part. intros [Hu|Hu] [Hv|Hv]; rewrite ?Hu, ?Hv; try done. cbn [print_port]. intros E. injection E as E.
  destruct (port_digits _ Hu) as (_ & _ & _ & H1), (port_digits _ Hv) as (_ & _ & _ & H2). rewrite E in H1. congruence.
Qed.

Lemma user_no_at t : user_text t -> "@"%char ∉ t.
Proof.
  intros Ht. apply (all_not_in (not_of "@")); [|done]. eapply units_all; [| |exact Ht].
  - intros x. all_bytes x; intros Hx; (done || discriminate Hx).
  - intros w (a & b & -> & Ha & Hb).
    assert (forall x, isxdigit x = true -> not_of "@" x = true) as Hx by (intros x; all_bytes x; intros Hx; (done || discriminate Hx)).
    repeat constructor; auto.
Qed.

Lemma identity_text u : getIdentity u = mUserId u ++ "@"%char :: (tolower <$> mHostAddress u) ++ port_part u.
Proof. unfold getIdentity, port_part. assoc. Qed.

Lemma user_host_nul_free u : wf_sip_url u -> nul_free (mUserId u) /\ nul_free (mHostAddress u).
Proof.
  intros []. split.
  - assert (all uri_char (mUserId u)) as Ha.
    { eapply units_all; [|apply hex_unit_all|exact wu_user]. intros x. all_bytes x; intros Hx; (done || discriminate Hx). }
    eapply Forall_impl; [exact Ha|]. intros x Hx ->. by vm_compute in Hx.
  - eapply Forall_impl; [exact (host_all _ wu_host)|]. intros x Hx ->. by vm_compute in Hx.
Qed.

(** Two well-formed SIP URLs have the same identity, the string under
    which registrations and credentials are stored, exactly when
    isUserHostPortEqual takes them for the same address: user equal, host
    equal without case, ports equal. *)
Theorem identity_iff u v :
  wf_sip_url u -> wf_sip_url v -> getIdentity u = getIdentity v <-> isUserHostPortEqual u v PORT_NONE = true.
Proof.
  intros Hu Hv. destruct (user_host_nul_free u Hu) as [Hu1 Hu2], (user_host_nul_free v Hv) as [Hv1 Hv2].
  rewrite !identity_text. unfold isUserHostPortEqual, isUserHostEqual. change (negb (PORT_NONE =? PORT_NONE)) with false. cbn [andb].
  rewrite !andb_true_iff, !Z.eqb_eq, strcasecmp_same by done. unfold same. split.
  - intros E. apply split_first in E as [E1 E2]; [|apply user_no_at; by destruct Hu|apply user_no_at; by destruct Hv].
    apply host_port_split in E2 as [E2 E3]; [|by destruct Hu|by destruct Hv|apply port_part_text..].
    split_and!; [|done|rewrite E1; apply strcmp_refl]. apply port_part_inj; [by destruct Hu|by destruct Hv|done].
  - intros (E1 & E2 & E3). apply strcmp_eq_nul_free in E3; [|done|done]. rewrite E2, E3. unfold port_part. by rewrite E1.
Qed.

Lemma identity_iff_witness :
  getIdentity demo_url = getIdentity (setHostAddress (Some (bytes "PBX-1.Example.com")) demo_url)
  <-> isUserHostPortEqual demo_url (setHostAddress (Some (bytes "PBX-1.Example.com")) demo_url) PORT_NONE = true.
Proof.
  apply identity_iff; [exact demo_url_wf|]. destruct demo_url_wf. split; try done.
  left. apply (domain_more (bytes "PBX-1")); [by apply (label_of "P" (bytes "BX-") "1")|].
  apply (domain_more (bytes "Example")); [by apply (label_of "E" (bytes "xampl") "e")|].
  apply domain_label, (label_of "c" (bytes "o") "m"). done.
Defined.

(** ** Where printing and parsing do not fit

    A port of six digits is parsed, and then getHostWithPort writes past its
    buffer. *)
Lemma six_digit_port_overflows :
  exists u, Url_of_string zero_fill search (bytes "sip:h:123456") AddrSpec = Ok u /\ mScheme u = SipUrlScheme
    /\ getHostWithPort u = UB.
Proof. eexists. split; [vm_compute; reflexivity|]. split; [reflexivity|]. vm_compute. reflexivity. Qed.

(** A field parameter whose value holds a quote cannot be printed: the
    quote is appended with a length of two from a single character. *)
Lemma quote_in_field_is_ub u n v ps :
  mRawUrlParameters u = [] -> mRawHeaderOrQueryParameters u = [] -> mpFieldParameters u = Some ((n, Some v) :: ps) ->
  nul_free v -> DQUOTE ∈ v -> toString search u = UB.
Proof.
  intros H1 H2 Hf Hn Hq. unfold toString.
  assert (parseUrlParameters u = Ok u) as -> by (unfold parseUrlParameters; rewrite H1; by destruct (mpUrlParameters u)).
  cbn [obind].
  assert (parseHeaderOrQueryParameters u = Ok u) as Hh
    by (unfold parseHeaderOrQueryParameters; rewrite H2; by destruct (mpHeaderOrQueryParameters u)).
  rewrite Hh. cbn [obind]. unfold getUri.
  assert (parseUrlParameters u = Ok u) as -> by (unfold parseUrlParameters; rewrite H1; by destruct (mpUrlParameters u)).
  cbn [obind]. rewrite Hh. cbn [obind]. rewrite Hf. change (default [] (Some ?l)) with l. cbn [print_field_params].
  change (value_of (n, Some v)) with v.
  assert (gen_value_escape search v = UB) as Hub; [|destruct v; [by apply elem_of_nil in Hq|]; by rewrite Hub].
  unfold gen_value_escape. rewrite (cstr_id v) by done.
  destruct (search FieldParamValueOkUnquoted v 0) as [m|] eqn:E.
  - exfalso. by apply (ok_unquoted_no_quote (H := search_Pcre 0) v m).
  - assert (existsb (one_of [DQUOTE; BACKSLASH]) v = true) as ->; [|done]. apply existsb_exists. exists DQUOTE.
    split; [by apply list_elem_of_In|done].
Qed.

(** And a quoted value that holds an escaped quote is not parsed, because
    the class of FieldParamEqualsQuotedValue also takes the backslash. *)
Lemma escaped_quote_not_parsed :
  exists u, Url_of_string zero_fill search (q "<sip:a@b>;x=#c\#d#") NameAddr = Ok u /\ mScheme u = UnknownUrlScheme.
Proof. eexists. split; [vm_compute; reflexivity|reflexivity]. Qed.

(** A parameter name is unescaped when it is parsed and not escaped when it
    is printed. *)
Lemma name_not_escaped :
  exists u u', Url_of_string zero_fill search (bytes "<sip:a@b;x%3By=1>") NameAddr = Ok u
    /\ force u = Ok u' /\ mpUrlParameters u' = Some [(bytes "x;y", Some (bytes "1"))]
    /\ toString search u' = Ok (bytes "<sip:a@b;x;y=1>", u').
Proof. eexists _, _. split; [vm_compute; reflexivity|]. split; [vm_compute; reflexivity|]. split; [reflexivity|vm_compute; reflexivity]. Qed.
