(* ===== verification/RouteStateMsg.v ===== *)
(** * RouteState and the messages it lives in

    The constructor and [update] of [sipXproxy/src/RouteState.cpp]: the state
    is read from the routes that were removed from a request or from its
    Record-Route headers, and written to a Record-Route header as a URL
    parameter.  With it the accessors of [SipMessage.cpp] and
    [HttpMessage.cpp] that they call.  A message is its first line and its
    header table. *)
From Stdlib Require Import ZArith Lia Ascii String.
From stdpp Require Import base list strings.
From S2P Require Import Prelude UtlString UtlStringRefine NetBase64Codec NameValuePair RouteState NameValueTokenizer HttpMessage.
From S2P Require Import Format Pcre UrlCodec Url.
Local Open Scope Z_scope.

(** ** The message *)

Record SipMessage := mkMsg { mFirstHeaderLine : list ascii; mNameValues : list NameValuePair }.

Definition SIP_PROTOCOL_VERSION : list ascii := bytes "SIP/2.0".
Definition SIP_ACK_METHOD : list ascii := bytes "ACK".
Definition SIP_CALLID_FIELD : list ascii := bytes "CALL-ID".
Definition SIP_FROM_FIELD : list ascii := bytes "FROM".
Definition SIP_TO_FIELD : list ascii := bytes "TO".
Definition UrlParameterName : list ascii := bytes "sipXecs-rs".

(** UtlString::contains on the contents *)
Definition contains_sub (l pat : list ascii) : bool :=
  existsb (fun i => bool_decide (take (length pat) (drop i l) = pat)) (seq 0 (S (length l))).

(** [mFirstHeaderLine.index(SIP_PROTOCOL_VERSION) == 0] *)
Definition isResponse (m : SipMessage) : bool :=
  bool_decide (take (length SIP_PROTOCOL_VERSION) (mFirstHeaderLine m) = SIP_PROTOCOL_VERSION).

(** HttpMessage::getFirstHeaderLinePart *)
Fixpoint skip_seps (separator : ascii) (l : list ascii) : list ascii :=
  match l with c :: l' => if decide (c = separator) then skip_seps separator l' else l | [] => [] end.
Fixpoint strchr (l : list ascii) (separator : ascii) : option (list ascii) :=
  match l with c :: l' => if decide (c = separator) then Some l else strchr l' separator | [] => None end.
Fixpoint part_start (n : nat) (l : list ascii) (separator : ascii) : option (list ascii) :=
  match n with
  | O => Some l
  | S n' => match strchr l separator with
            | Some l' => part_start n' (skip_seps separator (tail l')) separator
            | None => None
            end
  end.
Definition getFirstHeaderLinePart (m : SipMessage) (partIndex : Z) (separator : ascii) : list ascii :=
  match part_start (Z.to_nat partIndex) (skip_seps separator (cstr (mFirstHeaderLine m))) separator with
  | None => []
  | Some l =>
      if partIndex <? 2
      then match strchr l separator with Some l' => take (length l - length l') l | None => l end
      else l
  end.

(** HttpMessage::getRequestMethod *)
Definition getRequestMethod (m : SipMessage) : list ascii := strip_spec is_blank both (getFirstHeaderLinePart m 0 " ").

(** SipMessage::getCallIdField *)
Definition getCallIdField (m : SipMessage) : outcome (list ascii) :=
  let! v := getHeaderValue (mNameValues m) 0 (Some SIP_CALLID_FIELD) in Ok (default [] v).

Section RouteStateMsg.
Context `{Base64Search} `{RouteSearch} (fill : nat -> ascii) (pcre_exec : pat -> list ascii -> nat -> option Match).

(** SipMessage::getFromUrl, getToUrl for a new Url: the assignment of a
    string to it is what the constructor from the string does. *)
Definition getFieldUrl (m : SipMessage) (name : list ascii) : outcome Url :=
  let! v := getHeaderValue (mNameValues m) 0 (Some name) in Url_of_string fill pcre_exec (default [] v) NameAddr.
Definition getFromUrl (m : SipMessage) : outcome Url := getFieldUrl m SIP_FROM_FIELD.
Definition getToUrl (m : SipMessage) : outcome Url := getFieldUrl m SIP_TO_FIELD.

(** ** The constructor *)

(** [getUrlParameter(UrlParameterName, routeStateValue)] and, when there is
    a value, [decode(routeStateValue)] *)
Definition try_decode (secret : list ascii) (rs : RouteState) (u : Url) : outcome (bool * RouteState) :=
  let! (routeStateValue, _) := getUrlParameter UrlParameterName 0 u in
  match routeStateValue with
  | Some t => decode fill secret rs t
  | None => Ok (false, rs)
  end.

(** The loop over the removed routes: mFoundRouteState *)
Fixpoint routes_loop (secret : list ascii) (rs : RouteState) (routes : list (list ascii)) : outcome (bool * RouteState) :=
  match routes with
  | [] => Ok (false, rs)
  | route :: routes' =>
      if contains_sub route UrlParameterName then
        let! routeUrl := Url_of_string fill pcre_exec route NameAddr in
        let! (found, rs) := try_decode secret rs routeUrl in
        if found : bool then Ok (true, rs) else routes_loop secret rs routes'
      else routes_loop secret rs routes'
  end.

Definition push_index (rrNum : Z) (rs : RouteState) : RouteState :=
  mkState (mRouteHostPort rs) (mMayBeMutable rs) (mRecordRouteIndices rs ++ [rrNum]) (mModified rs) (mFoundRouteState rs)
    (mAddCopyRequested rs) (mValues rs) (mCallId rs) (mFromTag rs).
Definition set_found (found : bool) (rs : RouteState) : RouteState :=
  mkState (mRouteHostPort rs) (mMayBeMutable rs) (mRecordRouteIndices rs) (mModified rs) found
    (mAddCopyRequested rs) (mValues rs) (mCallId rs) (mFromTag rs).
Definition set_mutable (rs : RouteState) : RouteState :=
  mkState (mRouteHostPort rs) true (mRecordRouteIndices rs) (mModified rs) (mFoundRouteState rs)
    (mAddCopyRequested rs) (mValues rs) (mCallId rs) (mFromTag rs).

(** The loop over the Record-Routes *)
Fixpoint record_routes_loop (fuel : nat) (secret : list ascii) (l : list NameValuePair) (rrNum : Z) (found : bool)
    (rs : RouteState) : outcome (bool * RouteState) :=
  let! (more, recordRoute) := getRecordRouteUri l rrNum in
  if more : bool then
    match fuel with
    | O => UB
    | S fuel' =>
        let! recordRouteUrl := Url_of_string fill pcre_exec recordRoute NameAddr in
        let! (found, rs) :=
          (if contains_sub recordRoute UrlParameterName then
             let! (ok, rs) := try_decode secret rs recordRouteUrl in
             Ok (found || ok, if ok : bool then push_index rrNum rs else rs)
           else
             let! recordRouteHostAndPort := getHostWithPort recordRouteUrl in
             Ok (found, if strcmp recordRouteHostAndPort (mRouteHostPort rs) =? 0 then push_index rrNum rs else rs)) in
        record_routes_loop fuel' secret l (rrNum + 1) found rs
    end
  else Ok (found, rs).

(** The text of the headers bounds the number of routes. *)
Definition table_size (l : list NameValuePair) : nat :=
  fold_right (fun nv n => (S (length (default [] (valueString nv))) + n)%nat) 0%nat l.

Definition RouteState_new (secret : list ascii) (message : SipMessage) (removedRoutes : list (list ascii))
    (routeHostPort : list ascii) : outcome RouteState :=
  let! callId := getCallIdField message in
  let! fromUrl := getFromUrl message in
  let fromTag := default [] (getFieldParameter (bytes "tag") 0 fromUrl) in
  let rs := mkState routeHostPort false [] false false false [] callId fromTag in
  let! (found, rs) := routes_loop secret rs removedRoutes in
  if found : bool then Ok (set_found true rs)
  else
    let! (found, rs) := record_routes_loop (table_size (mNameValues message)) secret (mNameValues message) 0 false rs in
    let rs := set_found found rs in
    if isResponse message then Ok rs
    else if found : bool then Ok (set_mutable rs)
    else if strcasecmp (getRequestMethod message) SIP_ACK_METHOD =? 0 then Ok rs
    else
      let! toUrl := getToUrl message in
      Ok (match getFieldParameter (bytes "tag") 0 toUrl with Some _ => rs | None => set_mutable rs end).

(** ** update *)

(** The loop over mRecordRouteIndices: the table and routeValue *)
Fixpoint rewrite_loop (token : list ascii) (positions : list Z) (l : list NameValuePair) (routeValue : list ascii)
    : outcome (list NameValuePair * list ascii) :=
  match positions with
  | [] => Ok (l, routeValue)
  | pos :: positions' =>
      let! (_, routeValue) := getRecordRouteUri l pos in
      let! recordRouteUrl := Url_of_string fill pcre_exec routeValue NameAddr in
      let! recordRouteUrl := setUrlParameter UrlParameterName (Some (cstr token)) recordRouteUrl in
      let! (routeValue, _) := toString pcre_exec recordRouteUrl in
      let! l := setRecordRouteField fill l (cstr routeValue) pos in
      rewrite_loop token positions' l routeValue
  end.

Definition update (secret : list ascii) (rs : RouteState) (request : SipMessage) : outcome SipMessage :=
  if mMayBeMutable rs && (mModified rs || mAddCopyRequested rs) then
    let! newRouteStateToken := encode fill secret rs [] in
    let! route := Url_of_string fill pcre_exec (mRouteHostPort rs) NameAddr in
    let! route := setUrlParameter (bytes "lr") None route in
    let! route := setUrlParameter UrlParameterName (Some (cstr newRouteStateToken)) route in
    let! (routeValue, _) := toString pcre_exec route in
    let! (l, routeValue) :=
      match mRecordRouteIndices rs with
      | [] => let! l := addRecordRouteUri fill (mNameValues request) (cstr routeValue) in Ok (l, routeValue)
      | positions => rewrite_loop newRouteStateToken positions (mNameValues request) routeValue
      end in
    let! l := (if mAddCopyRequested rs
                  && match mRecordRouteIndices rs with [] => true | i :: _ => negb (i =? 0) end
               then addRecordRouteUri fill l (cstr routeValue) else Ok l) in
    Ok (mkMsg (mFirstHeaderLine request) l)
  else Ok request.
End RouteStateMsg.
