(* ===== verification/RouteStateMsgSpec.v ===== *)
(** * The dialog state across messages

    What one pass through the proxy writes into a Record-Route header, the
    next messages of the dialog find again: a request that comes back with the
    route finds the state and cannot change it, a request that spirals
    through the proxy before the dialog exists finds it and may.  The theorems
    compose RouteState, the header table and Url. *)
From Stdlib Require Import ZArith Lia Ascii String.
From stdpp Require Import base list strings gmap sets.
From S2P Require Import Prelude UtlString UtlStringRefine NetBase64Codec NetBase64CodecSpec NetMd5Codec NameValuePair.
From S2P Require Import RouteState RouteStateSpec NameValueTokenizer NameValueTokenizerSpec HttpMessage HttpMessageSpec.
From S2P Require Import Format Pcre PcreSpec UrlCodec Url UrlSyntax UrlSpec UrlSound UrlRoundtrip RouteStateMsg.
Local Open Scope Z_scope.

(** ** Substrings and headers *)

Lemma contains_sub_app pre pat post : contains_sub (pre ++ pat ++ post) pat = true.
Proof.
  unfold contains_sub. apply existsb_exists. exists (length pre). split.
  - apply in_seq. rewrite length_app. lia.
  - apply bool_decide_eq_true. by rewrite drop_app_length, take_app_length.
Qed.

Lemma record_route_name : nul_free SIP_RECORD_ROUTE_FIELD /\ upper SIP_RECORD_ROUTE_FIELD = SIP_RECORD_ROUTE_FIELD.
Proof. split; [apply (bool_decide_unpack _); vm_compute; exact I|reflexivity]. Qed.

(** A Record-Route is added in front of the others. *)
Lemma addRecordRouteUri_spec fill l es t :
  table l es -> nul_free t -> "<"%char ∈ t ->
  exists l' es', addRecordRouteUri fill l t = Ok l' /\ table l' es'
    /\ values_of SIP_RECORD_ROUTE_FIELD es' = t :: values_of SIP_RECORD_ROUTE_FIELD es
    /\ forall m, m <> SIP_RECORD_ROUTE_FIELD -> values_of m es' = values_of m es.
Proof.
  intros Ht Hn Hlt. destruct record_route_name as [Hnr _]. unfold addRecordRouteUri. rewrite bool_decide_true by done.
  destruct (NameValuePair_new_value fill SIP_RECORD_ROUTE_FIELD t Hnr Hn) as (nv & -> & Hname & Hval). cbn [obind].
  rewrite Hname. change (list_find (fun x => strcmp (nv_name x) SIP_RECORD_ROUTE_FIELD = 0) l)
    with (list_find (has_name (Some SIP_RECORD_ROUTE_FIELD)) l).
  pose proof (table_one nv SIP_RECORD_ROUTE_FIELD t Hname Hval Hnr) as Hone.
  destruct (find_name SIP_RECORD_ROUTE_FIELD l es Ht Hnr) as [[Hv ->]|(es1 & v & es2 & nv' & -> & _ & Hv & ->)].
  - eexists _, ([(SIP_RECORD_ROUTE_FIELD, t)] ++ es). split; [done|]. split; [by apply (table_app [nv] l)|].
    split; [by rewrite values_of_app, values_of_cons_eq|]. intros m Hm. by rewrite values_of_app, values_of_cons_ne.
  - destruct (table_split _ _ _ _ Ht) as (l1 & nv1 & l2 & -> & Hl & Ht1 & He & Ht2). rewrite <- Hl.
    rewrite take_app_length, drop_app_length. eexists _, (es1 ++ [(SIP_RECORD_ROUTE_FIELD, t)] ++ (SIP_RECORD_ROUTE_FIELD, v) :: es2).
    split; [done|]. split.
    + apply table_app; [done|]. apply (table_app [nv] (nv1 :: l2)); [done|].
      destruct He as [He1 He2]. by apply (table_app [nv1] l2 [(SIP_RECORD_ROUTE_FIELD, v)]); [apply table_one|].
    + split; [by rewrite !values_of_app, Hv, !values_of_cons_eq|].
      intros m Hm. rewrite !values_of_app, !values_of_cons_ne by done. done.
Qed.

(** The routes of all Record-Route headers, one after the other. *)
Lemma getRecordRouteUri_flat l es A :
  table l es -> 0 <= A < INT_MAX -> Forall (fun v => Z.of_nat (length v) <= 65536) (values_of SIP_RECORD_ROUTE_FIELD es) ->
  getRecordRouteUri l A
  = Ok (match flat (values_of SIP_RECORD_ROUTE_FIELD es) !! Z.to_nat A with
        | Some u => let r := frontBackTrim u (bytes " " ++ ["009"%char]) in (negb (bool_decide (r = [])), r)
        | None => (false, [])
        end).
Proof.
  intros Ht HA Hl. destruct record_route_name as [Hnr Hup]. unfold getRecordRouteUri, getFieldSubfield.
  rewrite (field_values_all l es SIP_RECORD_ROUTE_FIELD A Ht Hnr) by (rewrite ?Hup; done || lia).
  rewrite Hup. cbn [obind]. rewrite (proj2 (Z.eqb_neq A BOTTOM_SUBFIELD)) by (unfold BOTTOM_SUBFIELD; lia). cbn [andb].
  destruct (flat (values_of SIP_RECORD_ROUTE_FIELD es) !! Z.to_nat A) as [u|]; done.
Qed.

(** ** The route *)

(** The parameters update writes. *)
Definition state_params (token : list ascii) : list param :=
  [(bytes "lr", Some []); (UrlParameterName, Some token)].
Definition route_url (u0 : Url) (token : list ascii) : Url := set_url_params [] (Some (state_params token)) u0.

Lemma route_url_set u0 token :
  mpUrlParameters u0 = None -> mRawUrlParameters u0 = [] ->
  (let! u := setUrlParameter (bytes "lr") None u0 in setUrlParameter UrlParameterName (Some token) u) = Ok (route_url u0 token).
Proof.
  intros H1 H2. assert (setUrlParameter (bytes "lr") None u0 = Ok (set_url_params [] (Some [(bytes "lr", Some [])]) u0)) as ->;
    [|done].
  unfold setUrlParameter. assert (parseUrlParameters u0 = Ok u0) as -> by (unfold parseUrlParameters; by rewrite H1, H2).
  cbn [obind]. by rewrite H1, H2.
Qed.

Lemma route_url_wf u0 token :
  wf_sip_url u0 -> nul_free token -> wf_sip_url (route_url u0 token).
Proof.
  intros [] Hn. split; try done; [split; [done|by destruct wu_raw]|]. split; [done|].
  constructor; [apply wf_uri_param_of; vm_compute; reflexivity|]. constructor; [|constructor].
  split_and!; [done| |by exists token]. apply all_of. vm_compute. reflexivity.
Qed.

Section Dialog.
Context `{Base64SearchLaws} `{RouteSearchLaws} (fill : nat -> ascii) `{Pcre pcre_exec}.

(** The route as it is written, with the name of its parameter in it. *)
Lemma route_text u0 token :
  wf_sip_url u0 -> nul_free token ->
  exists f, print_field_params pcre_exec (default [] (mpFieldParameters u0)) = Ok f
    /\ let t := mDisplayName u0 ++ "<"%char :: uri_text (route_url u0 token) ++ ">"%char :: f in
       toString pcre_exec (route_url u0 token) = Ok (t, route_url u0 token)
       /\ nul_free t /\ contains_sub t UrlParameterName = true.
Proof.
  intros Hu Hn. pose proof (route_url_wf u0 token Hu Hn) as Hw.
  destruct (toString_text (pcre_exec := pcre_exec) _ Hw) as (f & Ef & E). exists f. split; [exact Ef|].
  assert (name_addr (route_url u0 token) = true) as Ena.
  { unfold name_addr. rewrite (wu_scheme _ Hw). cbn [route_url mpUrlParameters set_url_params have state_params andb orb]. apply orb_true_r. }
  rewrite Ena in E. cbv zeta.
  assert (mDisplayName (route_url u0 token) ++ ("<"%char :: uri_text (route_url u0 token) ++ [">"%char]) ++ f
    = mDisplayName u0 ++ "<"%char :: uri_text (route_url u0 token) ++ ">"%char :: f) as E1 by assoc. rewrite E1 in E.
  split; [exact E|]. split; [by apply (toString_nul_free (pcre_exec := pcre_exec) _ _ Hw E)|].
  assert (exists a b, uri_text (route_url u0 token) = a ++ UrlParameterName ++ b) as (a & b & ->).
  { unfold uri_text. rewrite param_part_raw by (apply (wu_params _ Hw)).
    cbn [route_url mpUrlParameters set_url_params raw_params state_params].
    exists (schemeName (mScheme u0) ++ ":"%char :: user_part (route_url u0 token) ++ mHostAddress u0
      ++ port_part (route_url u0 token) ++ bytes ";lr;"), (print_value token ++ header_part (route_url u0 token)).
    cbn. rewrite <- !app_assoc. cbn. by rewrite <- !app_assoc. }
  assert (mDisplayName u0 ++ "<"%char :: (a ++ UrlParameterName ++ b) ++ ">"%char :: f
    = (mDisplayName u0 ++ "<"%char :: a) ++ UrlParameterName ++ (b ++ ">"%char :: f)) as -> by assoc.
  apply contains_sub_app.
Qed.

(** Parsed again, the route has the token as the value of its parameter. *)
Lemma route_token u0 token f :
  wf_sip_url u0 -> nul_free token -> print_field_params pcre_exec (default [] (mpFieldParameters u0)) = Ok f ->
  let t := mDisplayName u0 ++ "<"%char :: uri_text (route_url u0 token) ++ ">"%char :: f in
  UrlSpec.short t -> nul_free t ->
  exists u, Url_of_string fill pcre_exec t NameAddr = Ok u
    /\ forall secret rs, try_decode fill secret rs u = decode fill secret rs token.
Proof.
  intros Hu Hn Ef t Hs Hnf. pose proof (route_url_wf u0 token Hu Hn) as Hw.
  exists (set_field_params (mpFieldParameters u0) (parsed (route_url u0 token) (mDisplayName u0))). split.
  - apply url_of_parse; [done|unfold t; by destruct (mDisplayName u0)|].
    exact (parse_name_addr fill (route_url u0 token) f Hw Ef Hs).
  - intros secret rs. unfold try_decode, getUrlParameter.
    rewrite (force_params _ _ (Some (state_params token))) by (done || exact (wu_params _ Hw)). cbn [obind].
    cbn [mpUrlParameters set_url_params]. change (default [] (Some ?l)) with l. done.
Qed.

(** ** Decoding the token *)

(** What is known of a state with parameters: the text of its token. *)
Record recorded (secret : list ascii) (rs : RouteState) (es : list header) : Prop := {
  rc_values : represents (mValues rs) (list_to_map es);
  rc_entries : Forall2 entry_of (mValues rs) es;
  rc_some : es <> [];
  rc_wf : Forall wf_entry es;
  rc_secret : NetMd5Codec.short secret;
  rc_call : NetMd5Codec.short (mCallId rs);
  rc_text : NetMd5Codec.short (pairs_text es);
  rc_limit : (length (pairs_text es) + 33 <= state_limit)%nat }.

Definition token_of (secret : list ascii) (rs : RouteState) (es : list header) : list ascii :=
  pairs_text es ++ SIG_SEP :: sig_text secret (mCallId rs) (pairs_text es).

Lemma token_decodes secret rs es rs2 :
  recorded secret rs es -> mCallId rs2 = mCallId rs ->
  encode fill secret rs [] = Ok (token_of secret rs es)
  /\ exists vs, decode fill secret rs2 (token_of secret rs es) = Ok (true, with_values rs2 vs) /\ represents vs (list_to_map es).
Proof.
  intros [] Hc. split; [by apply encode_text|]. unfold token_of. rewrite <- Hc. apply decode_text; rewrite ?Hc; try done.
  replace (es.*1) with (nv_name <$> mValues rs); [apply rc_values0|].
  clear -rc_entries0. induction rc_entries0 as [|nv e l es [Hn _] _ IH]; [done|]. rewrite !fmap_cons. by f_equal.
Qed.

Lemma token_nul_free secret rs es : recorded secret rs es -> nul_free (token_of secret rs es).
Proof.
  intros []. apply Forall_app. split; [by apply pairs_text_nul_free|]. constructor; [discriminate|apply sig_text_nul_free].
Qed.

(** ** update and the constructor *)

(** The route as update writes it. *)
Definition state_route (u0 : Url) (token : list ascii) : list ascii :=
  match toString pcre_exec (route_url u0 token) with Ok (t, _) => t | _ => [] end.

(** What update adds for a state that had no Record-Route of its own. *)
Lemma update_adds secret rs m hs es u0 :
  recorded secret rs es -> table (mNameValues m) hs ->
  mMayBeMutable rs = true -> mModified rs = true -> mRecordRouteIndices rs = [] -> mAddCopyRequested rs = false ->
  Url_of_string fill pcre_exec (mRouteHostPort rs) NameAddr = Ok u0 -> wf_sip_url u0 -> mpUrlParameters u0 = None ->
  exists f m' hs', print_field_params pcre_exec (default [] (mpFieldParameters u0)) = Ok f
    /\ let t := mDisplayName u0 ++ "<"%char :: uri_text (route_url u0 (token_of secret rs es)) ++ ">"%char :: f in
       update fill pcre_exec secret rs m = Ok m' /\ state_route u0 (token_of secret rs es) = t
       /\ nul_free t /\ contains_sub t UrlParameterName = true
       /\ mFirstHeaderLine m' = mFirstHeaderLine m /\ table (mNameValues m') hs'
       /\ values_of SIP_RECORD_ROUTE_FIELD hs' = t :: values_of SIP_RECORD_ROUTE_FIELD hs
       /\ forall n, n <> SIP_RECORD_ROUTE_FIELD -> values_of n hs' = values_of n hs.
Proof.
  intros Hr Ht Hmut Hmod Hidx Hcopy Hu Hw Hp. pose proof (token_nul_free _ _ _ Hr) as Hn.
  destruct (token_decodes secret rs es rs Hr eq_refl) as [He _].
  destruct (route_text u0 _ Hw Hn) as (f & Ef & Et & Hnt & Hct).
  set (t := mDisplayName u0 ++ "<"%char :: uri_text (route_url u0 (token_of secret rs es)) ++ ">"%char :: f) in *.
  assert ("<"%char ∈ t) as Hlt by (unfold t; apply elem_of_app; right; apply list_elem_of_here).
  destruct (addRecordRouteUri_spec fill _ _ t Ht Hnt Hlt) as (l' & hs' & El & Ht' & Hv & Ho).
  exists f, (mkMsg (mFirstHeaderLine m) l'), hs'. split; [done|]. cbv zeta. fold t.
  split; [|split; [unfold state_route; by rewrite Et|done]].
  unfold update. rewrite Hmut, Hmod. cbn [andb orb]. rewrite He. cbn [obind]. rewrite Hu. cbn [obind].
  rewrite (cstr_id _ Hn). pose proof (route_url_set u0 (token_of secret rs es) Hp (proj1 (wu_raw _ Hw))) as Es.
  destruct (setUrlParameter (bytes "lr") None u0) as [u1| | |]; try done. cbn [obind] in Es |- *. rewrite Es. cbn [obind].
  rewrite Et. cbn [obind]. rewrite Hidx, (cstr_id _ Hnt), El. cbn [obind]. rewrite Hcopy. done.
Qed.

Lemma header_nul_free : nul_free SIP_CALLID_FIELD /\ nul_free SIP_FROM_FIELD /\ nul_free SIP_TO_FIELD.
Proof. split_and!; apply (bool_decide_unpack _); vm_compute; exact I. Qed.

(** Any header field can be parsed. *)
Lemma getFieldUrl_total m hs n : table (mNameValues m) hs -> nul_free n -> exists u, getFieldUrl fill pcre_exec m n = Ok u.
Proof.
  intros Ht Hn. unfold getFieldUrl. rewrite (getHeaderValue_nth _ hs n 0 Ht Hn : getHeaderValue _ 0 _ = _). cbn [obind].
  set (v := default [] _). unfold Url_of_string. destruct (cstr v) as [|c r]; [by eauto|].
  destruct (parse_sound fill (c :: r) NameAddr false) as (u & t & E & _). rewrite E. cbn [obind fst]. eauto.
Qed.

(** The message belongs to the call. *)
Definition of_call (hs : list header) (callId : list ascii) : Prop :=
  values_of SIP_CALLID_FIELD hs !! 0%nat = Some callId.

Lemma getCallIdField_of m hs c : table (mNameValues m) hs -> of_call hs c -> getCallIdField m = Ok c.
Proof.
  intros Ht Hc. destruct header_nul_free as (Hn & _). unfold getCallIdField.
  rewrite (getHeaderValue_nth _ hs SIP_CALLID_FIELD 0 Ht Hn : getHeaderValue _ 0 _ = _). cbn [obind].
  change (upper SIP_CALLID_FIELD) with SIP_CALLID_FIELD. rewrite Hc. by destruct c.
Qed.

(** The constructor up to the loop over the removed routes. *)
Lemma RouteState_new_start m hs c : table (mNameValues m) hs -> of_call hs c ->
  forall secret routes hp, exists tag,
  RouteState_new fill pcre_exec secret m routes hp
  = let! (found, rs) := routes_loop fill pcre_exec secret (mkState hp false [] false false false [] c tag) routes in
    if found : bool then Ok (set_found true rs)
    else
      let! (found, rs) := record_routes_loop fill pcre_exec (table_size (mNameValues m)) secret (mNameValues m) 0 false rs in
      let rs := set_found found rs in
      if isResponse m then Ok rs
      else if found : bool then Ok (set_mutable rs)
      else if strcasecmp (getRequestMethod m) SIP_ACK_METHOD =? 0 then Ok rs
      else
        let! toUrl := getToUrl fill pcre_exec m in
        Ok (match getFieldParameter (bytes "tag") 0 toUrl with Some _ => rs | None => set_mutable rs end).
Proof.
  intros Ht Hc secret routes hp. destruct header_nul_free as (_ & Hf & _).
  destruct (getFieldUrl_total m hs SIP_FROM_FIELD Ht Hf) as (fromUrl & Ef).
  exists (default [] (getFieldParameter (bytes "tag") 0 fromUrl)). unfold RouteState_new.
  rewrite (getCallIdField_of m hs c Ht Hc). cbn [obind]. unfold getFromUrl. rewrite Ef. done.
Qed.

(** Routes that are not ours are passed over. *)
Lemma routes_loop_skip secret rs pre routes :
  Forall (fun r => contains_sub r UrlParameterName = false) pre ->
  routes_loop fill pcre_exec secret rs (pre ++ routes) = routes_loop fill pcre_exec secret rs routes.
Proof. induction 1 as [|r pre Hr _ IH]; [done|]. cbn [app routes_loop]. by rewrite Hr. Qed.

(** A route with the state, among the routes removed from a message of the call. *)
Lemma removed_state_found secret rs es u0 f m hs pre post hp :
  recorded secret rs es -> wf_sip_url u0 -> print_field_params pcre_exec (default [] (mpFieldParameters u0)) = Ok f ->
  let t := mDisplayName u0 ++ "<"%char :: uri_text (route_url u0 (token_of secret rs es)) ++ ">"%char :: f in
  UrlSpec.short t -> nul_free t -> contains_sub t UrlParameterName = true ->
  table (mNameValues m) hs -> of_call hs (mCallId rs) -> Forall (fun r => contains_sub r UrlParameterName = false) pre ->
  exists rs2, RouteState_new fill pcre_exec secret m (pre ++ t :: post) hp = Ok rs2
    /\ mFoundRouteState rs2 = true /\ mMayBeMutable rs2 = false /\ represents (mValues rs2) (list_to_map es).
Proof.
  intros Hr Hw Ef t Hs Hnt Hct Ht2 Hc2 Hpre.
  destruct (RouteState_new_start m hs _ Ht2 Hc2 secret (pre ++ t :: post) hp) as (tag & ->).
  rewrite routes_loop_skip by done. cbn [routes_loop]. rewrite Hct.
  destruct (route_token u0 _ f Hw (token_nul_free _ _ _ Hr) Ef Hs Hnt) as (u & Eu & Htry). fold t in Eu. rewrite Eu.
  cbn [obind]. rewrite Htry.
  destruct (token_decodes secret rs es (mkState hp false [] false false false [] (mCallId rs) tag) Hr eq_refl) as [_ (vs & -> & Hvs)].
  cbn [obind]. eexists. split; [done|]. done.
Qed.

(** C10: The state that the proxy records in a dialog-forming request comes
    back: update puts one Record-Route in front of the others and changes no
    other header, and whenever a later message of the same call carries that
    route among the routes removed from it, wherever they stand, the
    constructor accepts it, has the same parameters, and the state can no
    longer be changed.  The same call means the same Call-Id: the From tag
    plays no part, although RouteState.h says that the signature binds it.
    The request had no Record-Route of this proxy with a state before
    ([mRecordRouteIndices] is empty: with one, update counts routes where it
    should count headers), no copy was asked for, the routes in front of ours
    carry no sipXecs-rs parameter, and the proxy's host and port read as a SIP
    URL without parameters and print to a route short enough to be parsed. *)
Theorem dialog_state_returns secret rs m hs es u0 :
  recorded secret rs es -> table (mNameValues m) hs ->
  mMayBeMutable rs = true -> mModified rs = true -> mRecordRouteIndices rs = [] -> mAddCopyRequested rs = false ->
  Url_of_string fill pcre_exec (mRouteHostPort rs) NameAddr = Ok u0 -> wf_sip_url u0 -> mpUrlParameters u0 = None ->
  let t := state_route u0 (token_of secret rs es) in UrlSpec.short t ->
  (exists m' hs', update fill pcre_exec secret rs m = Ok m' /\ table (mNameValues m') hs'
    /\ values_of SIP_RECORD_ROUTE_FIELD hs' = t :: values_of SIP_RECORD_ROUTE_FIELD hs
    /\ forall n, n <> SIP_RECORD_ROUTE_FIELD -> values_of n hs' = values_of n hs)
  /\ forall m2 hs2 pre post hp,
       table (mNameValues m2) hs2 -> of_call hs2 (mCallId rs) ->
       Forall (fun r => contains_sub r UrlParameterName = false) pre ->
       exists rs2, RouteState_new fill pcre_exec secret m2 (pre ++ t :: post) hp = Ok rs2
         /\ mFoundRouteState rs2 = true /\ mMayBeMutable rs2 = false /\ represents (mValues rs2) (list_to_map es).
Proof.
  intros Hr Ht Hmut Hmod Hidx Hcopy Hu Hw Hp t0 Hs. subst t0.
  destruct (update_adds secret rs m hs es u0) as (f & m' & hs' & Ef & E & Et & Hnt & Hct & _ & Ht' & Hv & Ho); try done.
  rewrite Et in *. set (t := mDisplayName u0 ++ "<"%char :: uri_text (route_url u0 (token_of secret rs es)) ++ ">"%char :: f) in *.
  split; [exists m', hs'; by split_and!|].
  intros m2 hs2 pre post hp Ht2 Hc2 Hpre. by apply (removed_state_found secret rs es u0 f m2 hs2 pre post hp).
Qed.

(** ** A request that spirals *)

(** A host and perhaps a port, as the proxy is configured. *)
Definition bare_url (u : Url) : Prop :=
  wf_sip_url u /\ mDisplayName u = [] /\ mUserId u = [] /\ mpUrlParameters u = None
  /\ mpHeaderOrQueryParameters u = None /\ mpFieldParameters u = None.

Definition route_char : ascii -> bool := not_of [NUL; ","%char; " "%char; "009"%char].

Lemma host_route h : host_text h -> all route_char h.
Proof.
  assert (forall x, label_char x = true -> route_char x = true) as Hl by (intros x; all_bytes x; intros Hx; (done || discriminate Hx)).
  intros [Hd|(a & -> & _ & Ha)].
  - induction Hd as [l Hl'|l d Hl' Hd IH]; destruct (label_all l Hl') as [_ Hall].
    + eapply Forall_impl; [exact Hall|]. exact Hl.
    + apply Forall_app. split; [eapply Forall_impl; [exact Hall|]; exact Hl|]. by constructor.
  - constructor; [done|]. apply Forall_app. split; [|by repeat constructor].
    eapply Forall_impl; [exact Ha|]. intros x. all_bytes x; intros Hx; (done || discriminate Hx).
Qed.

(** The route of a bare URL has no comma and no blank. *)
Lemma bare_route u0 token : bare_url u0 -> nul_free token -> all route_char (uri_text (route_url u0 token)).
Proof.
  intros (Hw & _ & Hu & _ & Hh & _) Hn. pose proof (route_url_wf u0 token Hw Hn) as Hw'. unfold uri_text.
  rewrite param_part_raw by (apply (wu_params _ Hw')). unfold user_part, header_part.
  cbn [route_url set_url_params mUserId mHostAddress mpUrlParameters mpHeaderOrQueryParameters mScheme]. rewrite Hu, Hh.
  repeat (apply Forall_app; split).
  - destruct Hw. destruct (mScheme u0); try done; by repeat constructor.
  - constructor; [done|]. cbn [app]. repeat (apply Forall_app; split).
    + apply host_route. by destruct Hw.
    + unfold port_part. destruct (portIsValid _) eqn:E; [|constructor]. constructor; [done|].
      destruct (port_digits _ E) as (_ & _ & Hd & _). eapply Forall_impl; [exact Hd|].
      intros x. all_bytes x; intros Hx; (done || discriminate Hx).
    + constructor; [done|]. apply Forall_app. split; [|constructor]. apply params_all; [| | |done|].
      * intros x Hx. apply uri_name_facts in Hx as (Hx & _ & _ & _ & H4 & _). apply param_char_facts in Hx as (H6 & _ & _ & _ & H5).
        apply not_of_intro. cbn. rewrite !elem_of_cons, elem_of_nil. intros [-> |[-> |[-> |[-> |[]]]]]; [done|done|by vm_compute in H5..].
      * done.
      * apply escaped_in. vm_compute. reflexivity.
      * apply (wu_params _ Hw').
Qed.

Lemma frontBackTrim_none l set : Forall (fun c => in_set set c = false) l -> frontBackTrim l set = l.
Proof.
  intros Hl. unfold frontBackTrim, frontTrim, backTrim. rewrite (count_while_false _ l Hl). cbn zeta.
  change (0 <? 0) with false. cbn iota. rewrite count_while_false; [done|]. by apply Forall_rev.
Qed.

Lemma route_subs t : all route_char t -> t <> [] -> subs t = [t] /\ frontBackTrim t (bytes " " ++ ["009"%char]) = t.
Proof.
  intros Ht Hne. split.
  - unfold subs. change SIP_MULTIFIELD_SEPARATOR with [","%char]. rewrite <- (app_nil_r t) at 1.
    rewrite fields_run; [|intros Hin; unfold all in Ht; rewrite Forall_forall in Ht; by specialize (Ht _ Hin)].
    cbn [fields app]. by rewrite filter_cons_True.
  - apply frontBackTrim_none. eapply Forall_impl; [exact Ht|]. intros x Hx. unfold in_set. apply bool_decide_eq_false.
    cbn. rewrite !elem_of_cons, elem_of_nil. intros [[-> |[-> |[]]]| ->]; by vm_compute in Hx.
Qed.

Lemma table_size_pos l hs n v vs : table l hs -> values_of n hs = v :: vs -> exists k, table_size l = S k.
Proof.
  intros [Hf _] Hv. destruct Hf as [|nv h l hs _ _]; [done|]. cbn [table_size fold_right]. by eexists.
Qed.

(** The loop over the Record-Routes of a message whose only route is ours. *)
Lemma record_routes_one secret l hs t u rs rs' :
  table l hs -> values_of SIP_RECORD_ROUTE_FIELD hs = [t] -> Z.of_nat (length t) <= 65536 -> all route_char t -> t <> [] ->
  contains_sub t UrlParameterName = true -> Url_of_string fill pcre_exec t NameAddr = Ok u ->
  try_decode fill secret rs u = Ok (true, rs') ->
  record_routes_loop fill pcre_exec (table_size l) secret l 0 false rs = Ok (true, push_index 0 rs').
Proof.
  intros Ht Hv Hl Hr Hne Hc Hu Hd. destruct (route_subs t Hr Hne) as [Hs Htrim].
  assert (Forall (fun v => Z.of_nat (length v) <= 65536) (values_of SIP_RECORD_ROUTE_FIELD hs)) as Hls by (rewrite Hv; by constructor).
  assert (flat (values_of SIP_RECORD_ROUTE_FIELD hs) = [t]) as Hfl.
  { rewrite Hv. destruct t as [|c t]; [done|]. cbn [flat]. by rewrite Hs. }
  pose proof (getRecordRouteUri_flat l hs 0 Ht ltac:(unfold INT_MAX; lia) Hls) as E0.
  pose proof (getRecordRouteUri_flat l hs 1 Ht ltac:(unfold INT_MAX; lia) Hls) as E1.
  rewrite Hfl in E0, E1. change (Z.to_nat 0) with 0%nat in E0. change (Z.to_nat 1) with 1%nat in E1.
  cbn [lookup list_lookup] in E0, E1. cbv zeta in E0. rewrite Htrim, bool_decide_false in E0 by done.
  destruct (table_size_pos l hs _ _ _ Ht Hv) as (k & ->). cbn [record_routes_loop]. rewrite E0. cbn [obind negb].
  rewrite Hu. cbn [obind]. rewrite Hc, Hd. cbn [obind orb]. destruct k; cbn [record_routes_loop]; change (0 + 1) with 1; by rewrite E1.
Qed.

(** A dialog-forming request that comes to the proxy a second time,
    before there is a dialog, finds the state of the first pass in the
    Record-Route that update wrote: it has the same parameters, the position of
    that Record-Route, and the state may still be changed. *)
Theorem spiral_state_returns secret rs m hs es u0 :
  recorded secret rs es -> table (mNameValues m) hs -> of_call hs (mCallId rs) -> isResponse m = false ->
  values_of SIP_RECORD_ROUTE_FIELD hs = [] ->
  mMayBeMutable rs = true -> mModified rs = true -> mRecordRouteIndices rs = [] -> mAddCopyRequested rs = false ->
  Url_of_string fill pcre_exec (mRouteHostPort rs) NameAddr = Ok u0 -> bare_url u0 ->
  let t := state_route u0 (token_of secret rs es) in UrlSpec.short t -> Z.of_nat (length t) <= 65536 ->
  exists m' hs', update fill pcre_exec secret rs m = Ok m' /\ table (mNameValues m') hs'
    /\ values_of SIP_RECORD_ROUTE_FIELD hs' = [t]
    /\ exists rs2, RouteState_new fill pcre_exec secret m' [] (mRouteHostPort rs) = Ok rs2
         /\ mFoundRouteState rs2 = true /\ mMayBeMutable rs2 = true /\ mRecordRouteIndices rs2 = [0]
         /\ represents (mValues rs2) (list_to_map es).
Proof.
  intros Hr Ht Hcall Hreq Hnone Hmut Hmod Hidx Hcopy Hu Hb t0 Hs Hlen. subst t0. pose proof Hb as (Hw & Hd & _ & Hp & _ & Hf).
  destruct (update_adds secret rs m hs es u0) as (f & m' & hs' & Ef & E & Et & Hnt & Hct & Hline & Ht' & Hv & Ho); try done.
  rewrite Et in *. clear Et. rewrite Hf in Ef. injection Ef as <-. rewrite Hd, Hnone in *. rewrite app_nil_l in *.
  set (t := "<"%char :: uri_text (route_url u0 (token_of secret rs es)) ++ [">"%char]) in *.
  exists m', hs'. split_and!; [exact E|exact Ht'|exact Hv|].
  assert (all route_char t) as Hrc.
  { constructor; [done|]. apply Forall_app. split; [|by repeat constructor]. apply bare_route; [done|by apply token_nul_free]. }
  destruct (route_token u0 (token_of secret rs es) [] Hw (token_nul_free _ _ _ Hr)) as (u & Eu & Htry);
    [by rewrite Hf|by rewrite Hd|by rewrite Hd|]. rewrite Hd, app_nil_l in Eu. fold t in Eu.
  assert (of_call hs' (mCallId rs)) as Hcall' by (unfold of_call; by rewrite Ho).
  destruct (RouteState_new_start m' hs' _ Ht' Hcall' secret [] (mRouteHostPort rs)) as (tag & ->). cbn [routes_loop obind].
  destruct (token_decodes secret rs es (mkState (mRouteHostPort rs) false [] false false false [] (mCallId rs) tag) Hr eq_refl)
    as [_ (vs & Hdec & Hvs)]. rewrite <- Htry in Hdec.
  rewrite (record_routes_one secret _ hs' t u _ _ Ht' Hv Hlen Hrc ltac:(done) Hct Eu Hdec). cbn [obind].
  assert (isResponse m' = false) as -> by (unfold isResponse in *; by rewrite Hline).
  eexists. split; [done|]. by split_and!.
Qed.
End Dialog.

(** ** Witnesses *)

#[local] Existing Instances pcre_search regex_search.

(** The proxy myhost.example.com records two parameters for a call. *)
Definition demo_state : RouteState := RouteStateSpec.sample_state true true RouteStateSpec.sample_call RouteStateSpec.sample_vs.
Definition demo_headers : list header :=
  [(bytes "VIA", bytes "SIP/2.0/UDP 10.0.0.1"); (bytes "FROM", bytes "<sip:a@b>;tag=1"); (bytes "TO", bytes "<sip:c@d>");
   (bytes "CALL-ID", RouteStateSpec.sample_call)].
Definition demo_message : SipMessage := mkMsg (bytes "INVITE sip:c@d SIP/2.0") (pair_of <$> demo_headers).
Definition demo_route : Url :=
  mkUrl SipUrlScheme [] [] [] false (bytes "myhost.example.com") PORT_NONE [] [] None [] None None false.

Lemma demo_table : table (mNameValues demo_message) demo_headers.
Proof.
  split; [apply pairs_of|];
    repeat (apply Forall_cons_2; [apply (bool_decide_unpack _); vm_compute; exact I|]); apply Forall_nil_2.
Qed.

Lemma demo_recorded : recorded [] demo_state RouteStateSpec.sample_es.
Proof.
  split; [apply sample_represents|apply sample_entries, sample_wf|discriminate|apply sample_wf|shorts..|].
  apply Nat.leb_le. vm_compute. reflexivity.
Qed.

Lemma demo_bare : bare_url demo_route.
Proof.
  split_and!; try done. split; try done.
  - split; [constructor|by left].
  - constructor.
  - split; [constructor|done].
  - left. apply (domain_more (bytes "myhost")); [by apply (label_of "m" (bytes "yhos") "t")|].
    apply (domain_more (bytes "example")); [by apply (label_of "e" (bytes "xampl") "e")|].
    apply domain_label, (label_of "c" (bytes "o") "m"). done.
  - by left.
Qed.

Lemma dialog_state_returns_witness :
  let t := state_route (pcre_exec := search) demo_route (token_of [] demo_state RouteStateSpec.sample_es) in
  t = bytes "<sip:myhost.example.com;lr;sipXecs-rs=plugin%2Aparam1%7EdmFsdWUx.plugin2%2A%7EdmFsdWUy%216cedf2bb36711d2e69b3012ab3d1e16d>"
  /\ exists rs2, RouteState_new zero_fill search [] demo_message [bytes "<sip:other;lr>"; t] (bytes "x") = Ok rs2
       /\ mFoundRouteState rs2 = true /\ mMayBeMutable rs2 = false
       /\ represents (mValues rs2) (list_to_map RouteStateSpec.sample_es).
Proof.
  cbv zeta. split; [vm_compute; reflexivity|].
  apply (@dialog_state_returns regex_search regex_search_laws pcre_search pcre_search_laws zero_fill search (search_Pcre 200)
    [] demo_state demo_message demo_headers RouteStateSpec.sample_es demo_route) with (pre := [bytes "<sip:other;lr>"]) (post := [])
    (hs2 := demo_headers); try exact eq_refl;
    [exact demo_recorded|exact demo_table|exact (proj1 demo_bare)|apply short_of, Nat.leb_le; vm_compute; reflexivity
    |exact demo_table|constructor; [vm_compute; reflexivity|constructor]].
Defined.

Lemma spiral_state_returns_witness :
  exists m' rs2, update zero_fill search [] demo_state demo_message = Ok m'
    /\ RouteState_new zero_fill search [] m' [] (bytes "myhost.example.com") = Ok rs2
    /\ mFoundRouteState rs2 = true /\ mMayBeMutable rs2 = true /\ mRecordRouteIndices rs2 = [0]
    /\ represents (mValues rs2) (list_to_map RouteStateSpec.sample_es).
Proof.
  destruct (@spiral_state_returns regex_search regex_search_laws pcre_search pcre_search_laws zero_fill search (search_Pcre 200)
    [] demo_state demo_message demo_headers RouteStateSpec.sample_es demo_route)
    as (m' & hs' & E & _ & _ & rs2 & E2 & Hrs2); try exact eq_refl;
    [exact demo_recorded|exact demo_table|exact demo_bare|apply short_of, Nat.leb_le; vm_compute; reflexivity
    |apply Z.leb_le; vm_compute; reflexivity|].
  exists m', rs2. split; [exact E|]. split; [exact E2|exact Hrs2].
Defined.

(** ** A port that is too long

    A Record-Route of another proxy with a port of six digits makes the
    constructor write past the buffer of getHostWithPort. *)
Lemma long_port_overflows :
  RouteState_new zero_fill search [] (mkMsg (bytes "INVITE sip:c@d SIP/2.0")
    (pair_of <$> demo_headers ++ [(bytes "RECORD-ROUTE", bytes "<sip:h:123456;lr>")])) [] (bytes "myhost.example.com") = UB.
Proof. vm_compute. reflexivity. Qed.
