(* ===== verification/UrlTotal.v ===== *)
(** * Printing of any URL that was parsed

    Parsing ends on every text (UrlSound); here the parameters that are parsed
    on demand are too, and whatever text without double quotes a URL was made
    from, getUri and toString print it without undefined behaviour. *)
From Stdlib Require Import ZArith Lia Ascii String.
From stdpp Require Import base list strings sets.
From S2P Require Import Prelude UtlString UtlStringRefine NameValueTokenizer NameValueTokenizerSpec Format Pcre PcreSpec.
From S2P Require Import UrlCodec Url UrlSyntax UrlSpec UrlSound.
Local Open Scope Z_scope.

(** ** Escapes *)

Lemma elem_of_cstr x l : x ∈ cstr l -> x ∈ l.
Proof. induction l as [|c l IH]; simpl; [done|]. case_decide; set_solver. Qed.

(** The longest text whose escapes cannot overflow an [int]. *)
Definition ESCAPES_MAX : Z := 100000000.

Lemma hex_value_range c v : hex_value c = Some v -> 0 <= v < 16.
Proof. all_bytes c; vm_compute; intros E; inversion E; split; congruence. Qed.

Lemma unescape_loop_total n : forall text e,
  (length text <= n)%nat -> -1 <= e <= 255 + 15 * (ESCAPES_MAX - Z.of_nat n) -> Z.of_nat n <= ESCAPES_MAX ->
  exists r, unescape_loop text e = Ok r.
Proof.
  unfold ESCAPES_MAX. induction n as [n IH] using lt_wf_ind. intros text e Hl He Hn. destruct text as [|c text]; [by eexists|].
  simpl in Hl. cbn [unescape_loop]. repeat case_decide.
  - destruct (IH (n - 1)%nat ltac:(lia) text e) as (r & ->); [lia..|]. by eexists.
  - destruct text as [|h [|l text]]; [by eexists..|]. simpl in Hl.
    assert (exists e', match hex_value h with Some v => v * 16 | None => e end = e'
      /\ -1 <= e' <= 255 + 15 * (100000000 - Z.of_nat n)) as (e' & -> & He').
    { destruct (hex_value h) as [v|] eqn:E; [|by eauto]. apply hex_value_range in E. eexists. split; [done|]. lia. }
    assert (exists e2, match hex_value l with Some v => int_arith (e' + v) | None => Ok e' end = Ok e2
      /\ -1 <= e2 <= 255 + 15 * (100000000 - Z.of_nat (n - 3))) as (e2 & -> & He2).
    { destruct (hex_value l) as [v|] eqn:E; [|exists e'; split; [done|lia]]. apply hex_value_range in E.
      exists (e' + v). split; [|lia]. unfold int_arith, INT_MIN, INT_MAX.
      rewrite (proj2 (Z.leb_le _ _)), (proj2 (Z.leb_le _ _)) by lia. done. }
    cbn [obind]. destruct (IH (n - 3)%nat ltac:(lia) text e2) as (r & ->); [lia..|]. by eexists.
  - destruct (IH (n - 1)%nat ltac:(lia) text e) as (r & ->); [lia..|]. by eexists.
Qed.

Lemma unescape_total t : Z.of_nat (length t) <= ESCAPES_MAX -> exists r, unescape t = Ok r.
Proof.
  intros Hl. unfold unescape. pose proof (length_cstr t).
  destruct (unescape_loop_total (length (cstr t)) (cstr t) (-1)) as (r & ->); [lia|unfold ESCAPES_MAX in *; lia|lia|]. by eexists.
Qed.

(** ** Parameters *)

Lemma fields_head seps cur t : exists f fs, fields seps cur t = f :: fs.
Proof. revert cur. induction t as [|c t IH]; intros cur; cbn [fields]; [by eauto|]. case_bool_decide; [destruct cur|]; eauto. Qed.

(** The first subfield of the [n] characters at [a] of a C string. *)
Lemma first_field t a n sep :
  nul_free t -> sep <> NUL -> 0 <= a -> 0 <= n -> a + n <= Z.of_nat (length t) ->
  exists b len, getSubField_ptr (drop (Z.to_nat a) (c_str t)) n 0 (c_str [sep]) false = Ok (Some (b, len, b + len))
    /\ 0 <= b /\ 0 <= len /\ b + len <= n.
Proof.
  intros Ht Hs Ha Hn Hl. unfold getSubField_ptr, c_str. rewrite cstr_app_nul by (by apply Forall_singleton).
  rewrite drop_app_le by lia. set (d := drop (Z.to_nat a) t).
  assert (nul_free d) as Hd by (by apply Forall_drop). assert (n <= Z.of_nat (length d)) as Hnd by (unfold d; rewrite length_drop; lia).
  destruct (subfield_loop_spec [sep] false 0 (take (Z.to_nat n) d) (S (length (d ++ [NUL]))) (d ++ [NUL]) [] []
    (drop (Z.to_nat n) d ++ [NUL]) (-1) 0 n) as (i & off & sp & E & Hm); try done.
  - simpl. by rewrite app_assoc, take_drop.
  - simpl. rewrite length_take. lia.
  - by apply Forall_take.
  - by left.
  - rewrite length_take, length_app. simpl. lia.
  - simpl length in E. change (Z.of_nat 0 - 1) with (-1) in E. change (Z.of_nat (0 + 0)) with 0 in E. rewrite E. cbn [obind].
    change (Z.to_nat (0 - -1 - 1)) with 0%nat in Hm. destruct (fields_head [sep] [] (take (Z.to_nat n) d)) as (f & fs & Ef).
    rewrite Ef in Hm. cbn [lookup list_lookup] in Hm. destruct Hm as (-> & -> & Hle & p & q & _ & ->). rewrite Z.eqb_refl.
    eexists _, _. split; [do 2 f_equal; f_equal; f_equal; lia|]. lia.
Qed.

Lemma read_c_str t a n : 0 <= a -> 0 <= n -> a + n <= Z.of_nat (length t) + 1 ->
  exists r, read_at (c_str t) a n = Ok r /\ Z.of_nat (length r) <= n.
Proof.
  intros. unfold read_at, c_str. rewrite length_app. cbn [length].
  rewrite (proj2 (Z.leb_le 0 a)), (proj2 (Z.leb_le 0 n)), (proj2 (Z.leb_le _ _)) by lia. cbn [andb].
  eexists. split; [done|]. rewrite length_take. lia.
Qed.

Lemma char_c_str t a : 0 <= a <= Z.of_nat (length t) -> exists c, char_of (c_str t) a = Ok c.
Proof.
  intros. unfold char_of, read_at, c_str. rewrite length_app. cbn [length].
  rewrite (proj2 (Z.leb_le 0 a)), (proj2 (Z.leb_le 0 1)), (proj2 (Z.leb_le _ _)) by lia. cbn [andb obind].
  destruct (drop (Z.to_nat a) (t ++ [NUL])) as [|c r] eqn:E; [|by eexists].
  apply (f_equal length) in E. rewrite length_drop, length_app in E. simpl in E. lia.
Qed.

Lemma strspn_bound t a acc : nul_free t -> 0 <= a <= Z.of_nat (length t) ->
  0 <= strspn (drop (Z.to_nat a) (c_str t)) acc <= Z.of_nat (length t) - a.
Proof.
  intros Ht Ha. unfold strspn, c_str. rewrite drop_app_le, cstr_app_nul by (lia || by apply Forall_drop).
  assert (forall l : list ascii, (length (fst (span (fun c => bool_decide (c ∈ acc)) l)) <= length l)%nat) as Hs.
  { induction l as [|c l IH]; simpl; [done|]. case_bool_decide; simpl; [|lia].
    destruct (span _ l) as [x y]. simpl in *. lia. }
  pose proof (Hs (drop (Z.to_nat a) t)) as H. rewrite length_drop in H. lia.
Qed.

Lemma length_skip_blank l : (length (skip_blank l) <= length l)%nat.
Proof. induction l as [|c l IH]; cbn [skip_blank]; [done|]. case_decide; simpl; lia. Qed.

Lemma length_frontBackTrim l ws : (length (frontBackTrim l ws) <= length l)%nat.
Proof.
  assert (forall (x : list ascii) pos n, 0 <= pos -> 0 <= n -> (length (spec_op (ORemoveN pos n) x) <= length x)%nat) as Hr.
  { intros x pos n Hp Hn. cbn [spec_op]. destruct (Z.leb_spec (pos + n) (Z.of_nat (length x))); [|done].
    rewrite length_app, length_take, length_drop. lia. }
  assert (forall x : list ascii, (length (frontTrim x ws) <= length x)%nat) as Hf.
  { intros x. unfold frontTrim. destruct (Z.ltb_spec 0 (count_while (in_set ws) x)); [apply Hr; lia|done]. }
  assert (forall x : list ascii, (length (backTrim x ws) <= length x)%nat) as Hb.
  { intros x. unfold backTrim. destruct (Z.ltb_spec 0 (count_while (in_set ws) (rev x))); [|done].
    destruct (count_while_spec (in_set ws) (rev x)) as (Hc & _). rewrite length_rev in Hc. apply Hr; lia. }
  unfold frontBackTrim. etransitivity; [apply Hb|apply Hf].
Qed.

Lemma cgi_pair_total t a n :
  nul_free t -> 0 <= a -> 0 < n -> a + n <= Z.of_nat (length t) -> Z.of_nat (length t) <= ESCAPES_MAX ->
  exists p, cgi_pair (c_str t) a n (c_str "=") = Ok p.
Proof.
  intros Ht Ha Hn Hl Hm. unfold cgi_pair.
  destruct (first_field t a n "=" Ht ltac:(done) Ha ltac:(lia) Hl) as (b & len & E & Hb & Hlen & Hbl).
  change (c_str "=") with (c_str ["="%char]). rewrite E. cbn [obind].
  destruct (read_c_str t (a + b) len) as (field & -> & Hfl); [lia..|]. cbn [obind]. case_bool_decide; [by eexists|].
  set (k := strspn _ _). assert (0 <= k <= Z.of_nat (length t) - (a + b + len)) as Hk by (apply strspn_bound; [done|lia]).
  destruct (char_c_str t (a + b + len + k)) as (v0 & ->); [lia|]. cbn [obind].
  pose proof (length_skip_blank field).
  destruct (unescape_total (skip_blank field)) as (nm & ->); [lia|].
  destruct ((k <=? 0) || bool_decide (v0 = NUL) || (n - (a + b + len + k - a) <=? 0)) eqn:Ec; [by eexists|].
  apply orb_false_iff in Ec as [_ Ec]. apply Z.leb_gt in Ec.
  destruct (read_c_str t (a + b + len + k) (n - (a + b + len + k - a))) as (raw & -> & Hraw); [lia..|]. cbn [obind].
  pose proof (length_frontBackTrim raw WHITE).
  destruct (unescape_total (frontBackTrim raw WHITE)) as (v & ->); [lia|]. by eexists.
Qed.

Lemma cgi_loop_total t sep : nul_free t -> sep <> NUL -> Z.of_nat (length t) <= ESCAPES_MAX ->
  forall fuel a, 0 <= a <= Z.of_nat (length t) -> (length t < Z.to_nat a + fuel)%nat ->
  exists ps, cgi_loop fuel (c_str t) (Z.of_nat (length t)) (c_str [sep]) (c_str "=") a = Ok ps.
Proof.
  intros Ht Hs Hm. induction fuel as [|fuel IH]; intros a Ha Hf; [lia|]. cbn [cgi_loop].
  destruct (first_field t a (Z.of_nat (length t) - a) sep Ht Hs) as (b & len & -> & Hb & Hlen & Hbl); [lia..|]. cbn [obind].
  assert (exists p, (if 0 <? len then cgi_pair (c_str t) (a + b) len (c_str "=") else Ok None) = Ok p) as (p & ->).
  { destruct (Z.ltb_spec 0 len); [|by eauto]. apply cgi_pair_total; [done|lia..|done]. }
  cbn [obind]. destruct (char_c_str t (a + (b + len))) as (c & ->); [lia|]. cbn [obind].
  assert (exists ps, (if (0 <? len) && negb (bool_decide (c = NUL)) then
    cgi_loop fuel (c_str t) (Z.of_nat (length t)) (c_str [sep]) (c_str "=") (a + (b + len)) else Ok []) = Ok ps) as (ps & ->).
  { destruct (Z.ltb_spec 0 len); [|by eexists]. cbn [andb]. destruct (negb _); [|by eexists]. apply IH; lia. }
  cbn [obind]. by eexists.
Qed.

Lemma parseCgiVariables_total t sep : nul_free t -> sep <> NUL -> Z.of_nat (length t) <= ESCAPES_MAX ->
  exists ps, parseCgiVariables (c_str t) (c_str [sep]) (c_str "=") = Ok ps.
Proof.
  intros Ht Hs Hm. unfold parseCgiVariables. unfold c_str at 1. rewrite strlen_terminated, cstr_id by done. cbn [obind].
  apply (cgi_loop_total t sep Ht Hs Hm); [lia|]. unfold c_str. rewrite length_app. simpl. lia.
Qed.

(** ** What parsing leaves of the text *)

Definition piece (s w : list ascii) : Prop := nul_free w /\ (length w <= length s)%nat.

(** A field value that toString can print. *)
Definition simple_value (v : list ascii) : Prop := v = [] \/ plain_value v.

Record within (s : list ascii) (u : Url) : Prop := {
  wi_params : piece s (mRawUrlParameters u);
  wi_headers : piece s (mRawHeaderOrQueryParameters u);
  wi_fields : DQUOTE ∉ s -> Forall (fun p => simple_value (value_of p)) (default [] (mpFieldParameters u)) }.

Definition same_lists (u u' : Url) : Prop :=
  mRawUrlParameters u' = mRawUrlParameters u /\ mRawHeaderOrQueryParameters u' = mRawHeaderOrQueryParameters u
  /\ mpFieldParameters u' = mpFieldParameters u.

Lemma within_same s u u' : same_lists u u' -> within s u -> within s u'.
Proof. intros (E1 & E2 & E3) []. split; by rewrite ?E1, ?E2, ?E3. Qed.

Lemma piece_match s m i : nul_free s -> piece s (append_match s m i []).
Proof.
  intros Hs. unfold append_match, MatchString. rewrite app_nil_l.
  destruct (_ <? _)%nat; [|split; [constructor|simpl; lia]]. destruct (cap m i) as [[b e]|]; [|split; [constructor|simpl; lia]].
  cbn. split; [by apply Forall_take, Forall_drop|]. rewrite length_take, length_drop. lia.
Qed.

Lemma infix_match s m i x : x ∉ s -> x ∉ append_match s m i [].
Proof.
  intros Hx Hin. apply Hx. unfold append_match, MatchString in Hin. rewrite app_nil_l in Hin.
  destruct (_ <? _)%nat; [|by apply elem_of_nil in Hin]. destruct (cap m i) as [[b e]|]; [|by apply elem_of_nil in Hin].
  cbn in Hin. apply elem_of_take in Hin as (j & Hj & _). rewrite lookup_drop in Hj. by apply list_elem_of_lookup_2 in Hj.
Qed.

Section Within.
Context (fill : nat -> ascii) `{Pcre pcre_exec}.

Lemma parse_user_lists s u off u' off' : parse_user pcre_exec s u off = (u', off') -> same_lists u u'.
Proof. unfold parse_user. case_decide; [|destruct (here _ _ _ _)]; intros E; by inversion E. Qed.

Lemma parse_host_lists s u off u' off' : parse_host pcre_exec s u off = Ok (u', off') -> same_lists u u'.
Proof.
  unfold parse_host. destruct (here _ _ _ _) as [m|].
  - destruct (match MatchString s m 2 with Some p => _ | None => _ end) as [port| | |]; try done. cbn [obind].
    intros E. inversion E. by case_decide.
  - intros E. inversion E. repeat case_decide; done.
Qed.

Lemma parse_path_within form after s u off u' off' : nul_free s -> within s u -> mRawUrlParameters u = [] ->
  parse_path pcre_exec form after s u off = Ok (u', off') ->
  within s u' /\ mRawHeaderOrQueryParameters u' = mRawHeaderOrQueryParameters u.
Proof.
  intros Hs Hw Hr. unfold parse_path. destruct (has_path _); [|destruct (_ && _)].
  - destruct (here _ _ _ _) as [m|]; [|intros E; by inversion E; subst].
    destruct (AfterMatch m 1); try done. intros E. inversion E; subst. split; [|done]. by apply (within_same s u).
  - destruct (here _ _ _ _) as [m|]; [|intros E; by inversion E; subst].
    destruct (AfterMatch m 1); try done. intros E. inversion E; subst. split; [|done]. rewrite Hr. destruct Hw.
    split; simpl; [by apply piece_match|done..].
  - intros E. by inversion E; subst.
Qed.

Lemma parse_headers_within s u off u' off' : nul_free s -> within s u -> mRawHeaderOrQueryParameters u = [] ->
  parse_headers pcre_exec s u off = (u', off') -> within s u'.
Proof.
  intros Hs Hw Hr. unfold parse_headers. destruct (here _ _ _ _) as [m|]; intros E; inversion E; subst; [|done].
  rewrite Hr. destruct Hw. split; simpl; [done|by apply piece_match|done].
Qed.

(** ** Field values *)

Lemma takes_field_value w : takes field_value w -> plain_value w.
Proof.
  assert (forall l, label l -> all token_char l) as Hlab.
  { intros l Hl. destruct (label_all l Hl) as [_ Ha]. eapply Forall_impl; [exact Ha|].
    intros x. all_bytes x; intros Hx; (done || discriminate Hx). }
  assert (forall d, domain d -> all token_char d) as Hdom.
  { induction 1; [by apply Hlab|]. apply Forall_app. split; [by apply Hlab|]. by constructor. }
  intros [Hw|[Hw|[Hw|Hw]%takes_alt]%takes_alt]%takes_alt.
  - left. by apply takes_poss in Hw as [_ Hw].
  - apply takes_dns_name in Hw as [[Hd|Hi]|(d & Hd & ->)]; [left; by apply Hdom|by right|].
    left. apply Forall_app. split; [by apply Hdom|by repeat constructor].
  - left. by apply Hdom, takes_ipv4.
  - right. by apply takes_ipv6.
Qed.

Lemma field_value_simple s off : DQUOTE ∉ s -> simple_value (fst (field_value_at (pcre_exec := pcre_exec) s off)).
Proof.
  intros Hq. unfold field_value_at. destruct (here pcre_exec FieldParamEqualsUnquotedValue s off) as [m|] eqn:E.
  - right. apply (append_group (pcre_exec := pcre_exec) FieldParamEqualsUnquotedValue s off m 1 plain_value); [done|lia|by left; constructor|].
    intros q w Hin Hw. change (groups FieldParamEqualsUnquotedValue) with [(1%nat, field_value)] in Hin.
    apply elem_of_cons in Hin as [Hin|Hin]; [|by apply elem_of_nil in Hin]. injection Hin as ->. by apply takes_field_value.
  - destruct (here pcre_exec FieldParamEqualsQuotedValue s off) as [m|] eqn:E2; [|by left]. exfalso.
    destruct (must_text (pcre_exec := pcre_exec) _ _ _ _ 1%nat E2 ltac:(lia) eq_refl) as (q & w & Hin & Hw & Ew).
    apply (infix_match s m 1%nat DQUOTE Hq). rewrite Ew. clear -Hin Hw.
    match type of Hin with _ ∈ ?g => change g with [(1%nat, PSeqs [PChr DQUOTE;
      PStar (PAlt (PPoss (not_of [DQUOTE])) (PSeq (PChr BACKSLASH) (PCls any_char))); PChr DQUOTE])] in Hin end.
    apply elem_of_cons in Hin as [Hin|Hin]; [|by apply elem_of_nil in Hin]. injection Hin as ->.
    apply takes_seq in Hw as (a & b & -> & Ha & _). apply takes_chr in Ha as ->. set_solver.
Qed.

Lemma simple_unescape v : simple_value v -> cstr (gen_value_unescape fill v) = v.
Proof.
  intros Hv. rewrite plain_unescape by done. apply cstr_id. destruct Hv as [->|[Ha|(a & -> & _ & Ha)]]; [constructor| |].
  - eapply Forall_impl; [exact Ha|]. intros x Hx ->. by vm_compute in Hx.
  - constructor; [done|]. apply Forall_app. split; [|by repeat constructor].
    eapply Forall_impl; [exact Ha|]. intros x Hx ->. by vm_compute in Hx.
Qed.

Lemma field_loop_within s fuel : forall u off u' off', within s u ->
  field_loop fill pcre_exec fuel s u off = Ok (u', off') -> within s u'.
Proof.
  induction fuel as [|fuel IH]; intros u off u' off' Hw.
  { cbn [field_loop]. case_decide; [|done]. intros E. by inversion E; subst. }
  destruct (decide (mScheme u = UnknownUrlScheme)) as [Hu|Hu].
  { cbn [field_loop]. rewrite decide_True by done. intros E. by inversion E; subst. }
  destruct (here pcre_exec EndUrl s off) as [m|] eqn:Ee.
  { cbn [field_loop]. rewrite decide_False, Ee by done. intros E. by inversion E; subst. }
  destruct (here pcre_exec CommaSeparator s off) as [m|] eqn:Ec.
  { cbn [field_loop]. rewrite decide_False, Ee, Ec by done. intros E. by inversion E; subst. }
  rewrite field_loop_step by done. destruct (here pcre_exec FieldParamName s off) as [m|] eqn:En.
  2:{ intros E. inversion E; subst. by apply (within_same s u). }
  destruct (field_value_at s (mt_end m)) as [value off2] eqn:Ev. apply IH. destruct Hw. split; [done|done|].
  intros Hq. simpl. apply Forall_app. split; [by apply wi_fields0|]. apply Forall_singleton. cbn [value_of snd default].
  pose proof (field_value_simple s (mt_end m) Hq) as Hv. rewrite Ev in Hv. by rewrite simple_unescape.
Qed.

Lemma parse_fields_within form after s u off u' off' : within s u ->
  parse_fields fill pcre_exec form after s u off = Ok (u', off') -> within s u'.
Proof.
  intros Hw. unfold parse_fields. case_decide; [|intros E; by inversion E; subst].
  assert (exists u1 off1, (match after with
    | Some a => if (off + 1 =? a)%nat then (u, a) else (set_scheme UnknownUrlScheme u, off)
    | None => (u, off) end) = (u1, off1) /\ within s u1) as (u1 & off1 & -> & Hw1).
  { destruct after as [a|]; [|by eauto]. destruct (off + 1 =? a)%nat; [by eauto|]. eexists _, _. split; [done|]. by apply (within_same s u). }
  by apply field_loop_within.
Qed.

Lemma parse_within s form next u t : nul_free s ->
  parseString fill pcre_exec s form next Url_default = Ok (u, t) -> within s u.
Proof.
  intros Hs. unfold parseString.
  assert (exists d off after, (if decide (form = AddrSpec) then Ok (set_brackets false Url_default, 0%nat, None)
    else let '(u, off) := parse_display pcre_exec s Url_default 0 in
         let! (off, after) := parse_brackets pcre_exec s off in Ok (u, off, after))
    = Ok (set_display d Url_default, off, after)) as (d & off & after & ->).
  { case_decide; [by exists [], 0%nat, None|].
    destruct (parse_display_sound (pcre_exec := pcre_exec) s Url_default 0) as (d & off & -> & _).
    destruct (parse_brackets_sound (pcre_exec := pcre_exec) s off) as ([off' after] & ->). by exists d, off', after. }
  cbn [obind]. destruct (parse_scheme pcre_exec form s off) as [sc off1].
  assert (within s Url_default) as Hw by (split; [split; [constructor|simpl; lia]..|by intros _; constructor]).
  assert (within s (set_scheme sc (set_display d Url_default))) as Hw0 by (by apply (within_same s Url_default)).
  destruct (parse_user pcre_exec s _ _) as [u1 off2] eqn:E1. apply parse_user_lists in E1.
  destruct (parse_host pcre_exec s u1 off2) as [[u2 off3]| | |] eqn:E2; try done. apply parse_host_lists in E2. cbn [obind].
  destruct (parse_path pcre_exec form after s u2 off3) as [[u3 off4]| | |] eqn:E3; try done. cbn [obind].
  assert (within s u3 /\ mRawHeaderOrQueryParameters u3 = []) as [Hw3 Hr3].
  { destruct (parse_path_within _ _ _ _ _ _ _ Hs (within_same _ _ _ E2 (within_same _ _ _ E1 Hw0))
      ltac:(rewrite (proj1 E2), (proj1 E1); done) E3) as [Hw3 Hr3]. split; [done|].
    rewrite Hr3. destruct E2 as (_ & -> & _). by destruct E1 as (_ & -> & _). }
  assert (forall r, (if decide (mScheme u3 = UnknownUrlScheme) then Ok (u3, off4)
    else let '(u, off) := parse_headers pcre_exec s u3 off4 in parse_fields fill pcre_exec form after s u off) = Ok r ->
    within s (fst r)) as Hf.
  { intros [u4 off5]. case_decide; [intros E; by inversion E; subst|].
    destruct (parse_headers pcre_exec s u3 off4) as [u' off'] eqn:E4. apply parse_headers_within in E4; [|done..].
    by apply parse_fields_within. }
  destruct (if decide (mScheme u3 = UnknownUrlScheme) then _ else _) as [[u4 off5]| | |]; try done.
  specialize (Hf _ eq_refl). cbn [obind fst] in *. case_decide; [intros E; by inversion E; subst|].
  unfold parse_end. destruct (here _ _ _ _); intros E; inversion E; subst; [done|]. by apply (within_same s u4).
Qed.

(** ** Sizes *)

Definition sized (n : nat) (u : Url) : Prop := (length (mUserId u) <= n)%nat /\ (length (mHostAddress u) <= n)%nat.

Lemma length_match s m i : (length (append_match s m i []) <= length s)%nat.
Proof.
  unfold append_match, MatchString. rewrite app_nil_l. destruct (_ <? _)%nat; [|simpl; lia].
  destruct (cap m i) as [[b e]|]; cbn; [|lia]. rewrite length_take, length_drop. lia.
Qed.

Lemma field_loop_sized s n fuel : forall u off u' off', sized n u -> field_loop fill pcre_exec fuel s u off = Ok (u', off') -> sized n u'.
Proof.
  induction fuel as [|fuel IH]; intros u off u' off' Hw.
  { cbn [field_loop]. case_decide; [|done]. intros E. by inversion E; subst. }
  destruct (decide (mScheme u = UnknownUrlScheme)) as [Hu|Hu].
  { cbn [field_loop]. rewrite decide_True by done. intros E. by inversion E; subst. }
  destruct (here pcre_exec EndUrl s off) as [m|] eqn:Ee.
  { cbn [field_loop]. rewrite decide_False, Ee by done. intros E. by inversion E; subst. }
  destruct (here pcre_exec CommaSeparator s off) as [m|] eqn:Ec.
  { cbn [field_loop]. rewrite decide_False, Ee, Ec by done. intros E. by inversion E; subst. }
  rewrite field_loop_step by done. destruct (here pcre_exec FieldParamName s off) as [m|] eqn:En.
  2:{ intros E. by inversion E; subst. }
  destruct (field_value_at s (mt_end m)) as [value off2]. by apply IH.
Qed.

(** User and host are no longer than the text. *)
Lemma parse_sized s form next u t : parseString fill pcre_exec s form next Url_default = Ok (u, t) -> sized (length s) u.
Proof.
  unfold parseString.
  assert (exists d off after, (if decide (form = AddrSpec) then Ok (set_brackets false Url_default, 0%nat, None)
    else let '(u, off) := parse_display pcre_exec s Url_default 0 in
         let! (off, after) := parse_brackets pcre_exec s off in Ok (u, off, after))
    = Ok (set_display d Url_default, off, after)) as (d & off & after & ->).
  { case_decide; [by exists [], 0%nat, None|].
    destruct (parse_display_sound (pcre_exec := pcre_exec) s Url_default 0) as (d & off & -> & _).
    destruct (parse_brackets_sound (pcre_exec := pcre_exec) s off) as ([off' after] & ->). by exists d, off', after. }
  cbn [obind]. destruct (parse_scheme pcre_exec form s off) as [sc off1].
  assert (exists u1 off2, parse_user pcre_exec s (set_scheme sc (set_display d Url_default)) (skip_slashes sc s off1) = (u1, off2)
    /\ (length (mUserId u1) <= length s)%nat /\ mHostAddress u1 = []) as (u1 & off2 & -> & Hu1 & Hh1).
  { unfold parse_user. case_decide; [eexists _, _; split; [done|]; split; [simpl; lia|done]|].
    destruct (here _ _ _ _); eexists _, _; (split; [done|]); simpl; (split; [|done]); [apply length_match|lia]. }
  destruct (parse_host pcre_exec s u1 off2) as [[u2 off3]| | |] eqn:E2; try done. cbn [obind].
  assert (sized (length s) u2) as Hs2.
  { unfold parse_host in E2. destruct (here _ _ _ _) as [m|].
    - destruct (match MatchString s m 2 with Some p => _ | None => _ end) as [port| | |]; try done. cbn [obind] in E2.
      rewrite Hh1 in E2. pose proof (length_match s m 1). injection E2 as <- _. case_decide; split; simpl; lia.
    - injection E2 as <- _. repeat case_decide; split; simpl; rewrite ?Hh1; simpl; lia. }
  destruct (parse_path pcre_exec form after s u2 off3) as [[u3 off4]| | |] eqn:E3; try done. cbn [obind].
  assert (sized (length s) u3) as Hs3.
  { unfold parse_path in E3. destruct (has_path _); [|destruct (_ && _)]; [| |by inversion E3; subst];
      (destruct (here _ _ _ _) as [m|]; [destruct (AfterMatch m 1); try done|]); by inversion E3; subst. }
  assert (forall r, (if decide (mScheme u3 = UnknownUrlScheme) then Ok (u3, off4)
    else let '(u, off) := parse_headers pcre_exec s u3 off4 in parse_fields fill pcre_exec form after s u off) = Ok r ->
    sized (length s) (fst r)) as Hf.
  { intros [u4 off5]. case_decide; [intros E; by inversion E; subst|].
    destruct (parse_headers pcre_exec s u3 off4) as [u' off'] eqn:E4. assert (sized (length s) u') as Hs'.
    { unfold parse_headers in E4. destruct (here _ _ _ _); by inversion E4; subst. }
    unfold parse_fields. case_decide; [|intros E; by inversion E; subst].
    destruct after as [a|]; [|by apply field_loop_sized]. destruct (off' + 1 =? a)%nat; by apply field_loop_sized. }
  destruct (if decide (mScheme u3 = UnknownUrlScheme) then _ else _) as [[u4 off5]| | |]; try done.
  specialize (Hf _ eq_refl). cbn [obind fst] in *. case_decide; [intros E; by inversion E; subst|].
  unfold parse_end. destruct (here _ _ _ _); intros E; by inversion E; subst.
Qed.
End Within.

(** The values of parsed variables are no longer than their text. *)
Lemma unescape_loop_length n : forall text e r, (length text <= n)%nat -> unescape_loop text e = Ok r -> (length r <= length text)%nat.
Proof.
  induction n as [n IH] using lt_wf_ind. intros text e r Hl. destruct text as [|c text]; [by intros [= <-]|]. simpl in Hl. cbn [unescape_loop].
  repeat case_decide.
  - destruct (unescape_loop text e) as [r'| | |] eqn:E; try done. intros [= <-]. apply (IH (n - 1)%nat) in E; simpl; lia.
  - destruct text as [|h [|l text]]; [by intros [= <-]; simpl; lia..|]. simpl in Hl.
    destruct (match hex_value l with Some v => _ | None => _ end) as [e2| | |]; try done. cbn [obind].
    destruct (unescape_loop text e2) as [r'| | |] eqn:E; try done. intros [= <-]. apply (IH (n - 3)%nat) in E; simpl; lia.
  - destruct (unescape_loop text e) as [r'| | |] eqn:E; try done. intros [= <-]. apply (IH (n - 1)%nat) in E; simpl; lia.
Qed.

Lemma length_put_back t r : (length r <= length t)%nat -> (length (put_back t r) <= length t)%nat.
Proof.
  intros Hr. unfold put_back. pose proof (length_cstr r). cbn [spec_op].
  repeat (case_match || case_decide); rewrite ?length_app, ?length_take, ?length_drop, ?length_app; simpl; try lia.
Qed.

Lemma cgi_pair_length q a n sep p : cgi_pair q a n sep = Ok (Some p) -> (length (value_of p) <= length q)%nat.
Proof.
  unfold cgi_pair. destruct (getSubField_ptr _ _ _ _ _) as [[[[b len] ?]|]| | |]; try done. cbn [obind].
  destruct (read_at q _ len) as [field| | |]; try done. cbn [obind]. case_bool_decide; [done|].
  destruct (char_of q _) as [v0| | |]; try done. cbn [obind].
  match goal with |- (let! value := ?m in _) = _ -> _ => destruct m as [value| | |] eqn:Ev; try done end. cbn [obind].
  destruct (unescape _) as [nm| | |]; try done. cbn [obind]. intros [= <-]. cbn [value_of snd default].
  destruct (_ || _); [by injection Ev as <-; simpl; lia|].
  destruct (read_at q _ _) as [raw| | |] eqn:Er; try done. cbn [obind] in Ev.
  destruct (unescape (frontBackTrim raw WHITE)) as [v| | |] eqn:Eu; try done. injection Ev as <-.
  unfold unescape in Eu. apply obind_Ok in Eu as (r & Eu & Hr).
  assert (length r <= length (cstr (frontBackTrim raw WHITE)))%nat as Hun by (by eapply unescape_loop_length).
  pose proof (length_cstr (frontBackTrim raw WHITE)). pose proof (length_frontBackTrim raw WHITE). pose proof (length_cstr v).
  assert (length raw <= length q)%nat as Hraw.
  { unfold read_at in Er. destruct (_ && _); [|done]. injection Er as <-. rewrite length_take, length_drop. lia. }
  assert (length v <= length (frontBackTrim raw WHITE))%nat as Hpb by (injection Hr as <-; apply length_put_back; lia).
  unfold id. lia.
Qed.

Lemma cgi_loop_lengths q n ps sep : forall fuel a l, cgi_loop fuel q n ps sep a = Ok l -> Forall (fun p => (length (value_of p) <= length q)%nat) l.
Proof.
  induction fuel as [|fuel IH]; intros a l; [done|]. cbn [cgi_loop].
  destruct (getSubField_ptr _ _ _ _ _) as [[[[b len] rel]|]| | |]; try done; cbn [obind]; [|by intros [= <-]].
  destruct (if 0 <? len then _ else _) as [p| | |] eqn:Ep; try done. cbn [obind]. destruct (char_of _ _) as [c| | |]; try done. cbn [obind].
  destruct (if _ && _ then _ else _) as [rest| | |] eqn:Er; try done. cbn [obind]. intros [= <-].
  assert (Forall (fun p => (length (value_of p) <= length q)%nat) rest) as Hrest.
  { destruct (_ && _); [by eapply IH|by injection Er as <-]. }
  destruct p as [p|]; [|done]. constructor; [|done]. destruct (0 <? len); [by eapply cgi_pair_length|done].
Qed.

Lemma parseCgiVariables_lengths t ps sep l : nul_free t -> parseCgiVariables (c_str t) ps sep = Ok l ->
  Forall (fun p => (length (value_of p) <= S (length t))%nat) l.
Proof.
  intros Ht. unfold parseCgiVariables. unfold c_str at 1. rewrite strlen_terminated, cstr_id by done. cbn [obind]. intros E.
  apply cgi_loop_lengths in E. eapply Forall_impl; [exact E|]. intros p. unfold c_str. rewrite length_app. simpl. lia.
Qed.

(** ** Operations on a parsed URL *)

(** The members other than the parameters and headers. *)
Definition core (u : Url) : Url := set_header_params [] None (set_url_params [] None u).

(** A parameter list that is parsed, or raw and short enough to be. *)
Definition lazy_list (raw : list ascii) (ps : option (list param)) : Prop :=
  match ps with Some _ => raw = [] | None => nul_free raw /\ Z.of_nat (length raw) <= ESCAPES_MAX end.

(** What every operation of a parsed URL keeps. *)
Record ready (u : Url) : Prop := {
  rd_params : lazy_list (mRawUrlParameters u) (mpUrlParameters u);
  rd_headers : lazy_list (mRawHeaderOrQueryParameters u) (mpHeaderOrQueryParameters u) }.

Definition quotable (u : Url) : Prop := Forall (fun p => simple_value (value_of p)) (default [] (mpFieldParameters u)).

Lemma ready_fresh u : ready u -> reset u = Url_default.
Proof. intros [Hp _]. apply reset_fresh. unfold lazy_list in Hp. destruct (mpUrlParameters u); [by right|by left]. Qed.

Lemma core_fields u u' : core u' = core u -> quotable u -> quotable u'.
Proof. intros Hc%(f_equal mpFieldParameters) Hq. unfold quotable. simpl in Hc. by rewrite Hc. Qed.

Lemma parseUrlParameters_ready u : ready u ->
  exists u', parseUrlParameters u = Ok u' /\ ready u' /\ core u' = core u /\ (mpUrlParameters u' <> None \/ mRawUrlParameters u' = [])
    /\ mRawHeaderOrQueryParameters u' = mRawHeaderOrQueryParameters u /\ mpHeaderOrQueryParameters u' = mpHeaderOrQueryParameters u.
Proof.
  intros Hr. unfold parseUrlParameters. pose proof Hr as [Hp Hh]. unfold lazy_list in Hp.
  destruct (mpUrlParameters u) eqn:E1; [exists u; split_and!; (done || by rewrite E1; left)|].
  destruct (mRawUrlParameters u) as [|c raw] eqn:E2; [exists u; split_and!; (done || by right)|].
  destruct Hp as [Hp1 Hp2]. destruct (parseCgiVariables_total (c :: raw) ";" Hp1 ltac:(done) Hp2) as (ps & Eps).
  change (c_str ";") with (c_str [";"%char]). rewrite Eps. cbn [obind]. eexists. split; [done|]. split; [by split|]. by split_and!; [|left|..].
Qed.

Lemma parseHeaders_ready u : ready u ->
  exists u', parseHeaderOrQueryParameters u = Ok u' /\ ready u' /\ core u' = core u
    /\ (mpHeaderOrQueryParameters u' <> None \/ mRawHeaderOrQueryParameters u' = [])
    /\ mRawUrlParameters u' = mRawUrlParameters u /\ mpUrlParameters u' = mpUrlParameters u.
Proof.
  intros Hr. unfold parseHeaderOrQueryParameters. pose proof Hr as [Hp Hh]. unfold lazy_list in Hh.
  destruct (mpHeaderOrQueryParameters u) eqn:E1; [exists u; split_and!; (done || by rewrite E1; left)|].
  destruct (mRawHeaderOrQueryParameters u) as [|c raw] eqn:E2; [exists u; split_and!; (done || by right)|].
  destruct Hh as [Hh1 Hh2]. destruct (parseCgiVariables_total (c :: raw) "&" Hh1 ltac:(done) Hh2) as (ps & Eps).
  change (c_str "&") with (c_str ["&"%char]). rewrite Eps. cbn [obind]. eexists. split; [done|]. split; [by split|]. by split_and!; [|left|..].
Qed.

Lemma getUrlParameter_ready name i u : ready u ->
  exists v u', getUrlParameter name i u = Ok (v, u') /\ ready u' /\ core u' = core u
    /\ (mRawUrlParameters u = [] -> mpUrlParameters u = None -> v = None).
Proof.
  intros Hr. unfold getUrlParameter. destruct (parseUrlParameters_ready u Hr) as (u' & E & Hr' & Hc & _). rewrite E. cbn [obind].
  eexists _, _. split; [done|]. split_and!; [done..|]. intros H1 H2. unfold parseUrlParameters in E. rewrite H1, H2 in E.
  inversion E; subst. by rewrite H2.
Qed.

Lemma remove_loop_total name : forall fuel ps, (length ps <= fuel)%nat -> exists ps', remove_loop fuel name ps = Ok ps'.
Proof.
  assert (forall ps i, find_param name ps = Some i -> (i < length ps)%nat) as Hlt.
  { intros ps i Hi. unfold find_param in Hi. apply fmap_Some in Hi as ([j p] & E & ->).
    apply list_find_Some in E as (E & _). by apply lookup_lt_Some in E. }
  induction fuel as [|fuel IH]; intros ps Hl; cbn [remove_loop].
  - destruct (find_param name ps) as [i|] eqn:E; [apply Hlt in E; lia|by eexists].
  - destruct (find_param name ps) as [i|] eqn:E; [|by eexists]. apply Hlt in E. apply IH.
    rewrite length_delete by (by apply lookup_lt_is_Some). lia.
Qed.

Lemma removeUrlParameter_ready name u : ready u ->
  exists u', removeUrlParameter name u = Ok u' /\ ready u' /\ core u' = core u.
Proof.
  intros Hr. unfold removeUrlParameter. destruct (parseUrlParameters_ready u Hr) as (u' & -> & Hr' & Hc & _). cbn [obind].
  destruct (mpUrlParameters u') as [ps|] eqn:E; [|by eauto].
  destruct (remove_loop_total name (length ps) ps ltac:(lia)) as (ps' & ->). cbn [obind]. eexists. split; [done|].
  split; [|done]. destruct Hr' as [Hp Hh]. rewrite E in Hp. by split.
Qed.

Lemma setUrlParameter_ready name v u : ready u -> exists u', setUrlParameter name v u = Ok u' /\ ready u' /\ core u' = core u.
Proof.
  intros Hr. unfold setUrlParameter. destruct (parseUrlParameters_ready u Hr) as (u' & -> & [Hp Hh] & Hc & Hn & _). cbn [obind].
  eexists. split; [done|]. split; [|done]. split; [|done]. simpl.
  unfold lazy_list in Hp. destruct (mpUrlParameters u'); [done|by destruct Hn].
Qed.

Lemma removeHeaderParameter_ready name u : ready u ->
  exists u', removeHeaderParameter name u = Ok u' /\ ready u' /\ core u' = core u /\ (mpHeaderOrQueryParameters u <> None -> mpHeaderOrQueryParameters u' <> None).
Proof.
  intros Hr. unfold removeHeaderParameter. destruct (parseHeaders_ready u Hr) as (u' & E' & Hr' & Hc & _). rewrite E'. cbn [obind].
  destruct (mpHeaderOrQueryParameters u') as [ps|] eqn:E.
  - destruct (remove_loop_total name (length ps) ps ltac:(lia)) as (ps' & ->). cbn [obind]. eexists. split; [done|].
    split; [|done]. destruct Hr' as [Hp Hh]. rewrite E in Hh. by split.
  - exists u'. split_and!; [done..|]. intros Hn. unfold parseHeaderOrQueryParameters in E'.
    destruct (mpHeaderOrQueryParameters u) eqn:E0; [|done]. injection E' as <-. congruence.
Qed.

Lemma setHeaderParameter_ready name v u : ready u -> exists u', setHeaderParameter name v u = Ok u' /\ ready u' /\ core u' = core u.
Proof.
  intros Hr. unfold setHeaderParameter. destruct name as [|c name]; [by eauto|].
  destruct (parseHeaders_ready u Hr) as (u1 & -> & Hr1 & Hc1 & Hn1 & _). cbn [obind].
  set (u2 := match mpHeaderOrQueryParameters u1 with Some _ => u1 | None => _ end).
  assert (ready u2 /\ core u2 = core u /\ mpHeaderOrQueryParameters u2 <> None) as (Hr2 & Hc2 & Hn2).
  { unfold u2. destruct (mpHeaderOrQueryParameters u1) eqn:E; [by rewrite E|]. destruct Hn1 as [Hn1|Hn1]; [done|].
    split; [|done]. destruct Hr1 as [Hp _]. by split. }
  assert (exists u3, (if is_sip (mScheme u2) && isUrlHeaderUnique (c :: name) then removeHeaderParameter (c :: name) u2 else Ok u2) = Ok u3
    /\ ready u3 /\ core u3 = core u /\ mpHeaderOrQueryParameters u3 <> None) as (u3 & -> & [Hp3 Hh3] & Hc3 & Hn3).
  { destruct (_ && _); [|by eauto]. destruct (removeHeaderParameter_ready (c :: name) u2 Hr2) as (u3 & -> & Hr3 & Hc3 & Hn3).
    exists u3. split_and!; [done|done|by rewrite Hc3|by apply Hn3]. }
  cbn [obind]. eexists. split; [done|]. split; [|done]. split; [done|]. simpl. unfold lazy_list in Hh3.
  by destruct (mpHeaderOrQueryParameters u3).
Qed.

Lemma setFieldParameter_ready name v u : name <> [] -> simple_value v -> ready u -> quotable u ->
  exists u', setFieldParameter name (Some v) u = Ok u' /\ ready u' /\ quotable u'.
Proof.
  intros Hn Hv [Hp Hh] Hq. unfold setFieldParameter. destruct name as [|c name]; [done|]. eexists. split; [done|]. split; [by split|].
  unfold quotable in *. cbn [set_field_params mpFieldParameters default]. unfold set_param. destruct (find_param _ _) as [i|].
  - by apply Forall_alter.
  - apply Forall_app. split; [done|]. by apply Forall_singleton.
Qed.

Lemma Url_copy_ready u : ready u -> ready (Url_copy u) /\ (quotable u -> quotable (Url_copy u)).
Proof.
  intros [Hp Hh]. split; [|unfold quotable; simpl; by destruct (mpFieldParameters u)].
  split; simpl; [destruct (mpUrlParameters u)|destruct (mpHeaderOrQueryParameters u)]; done.
Qed.

(** The text of getUri up to the parameters. *)
Definition address_text (u : Url) : list ascii :=
  schemeName (mScheme u) ++ bytes ":" ++ (if has_path (mScheme u) then bytes "//" else [])
  ++ (if decide (mScheme u = FileUrlScheme) then []
      else match mUserId u with
           | [] => []
           | user => user ++ (if negb (bool_decide (mPassword u = [])) || mPasswordSet u
                              then ":"%char :: mPassword u else []) ++ bytes "@"
           end)
  ++ mHostAddress u ++ (if portIsValid (mHostPort u) then print_port (mHostPort u) else [])
  ++ (if has_path (mScheme u) then mPath u else []).

Lemma getUri_ready u : ready u ->
  exists u', getUri u = Ok (address_text u ++ (default [] (mpUrlParameters u') ≫= print_url_param)
      ++ print_header_params true (default [] (mpHeaderOrQueryParameters u')), u') /\ ready u' /\ core u' = core u
    /\ (mpUrlParameters u <> None -> mpUrlParameters u' = mpUrlParameters u).
Proof.
  intros Hr. unfold getUri. destruct (parseUrlParameters_ready u Hr) as (u1 & E1 & Hr1 & Hc1 & _ & _ & _). rewrite E1. cbn [obind].
  destruct (parseHeaders_ready u1 Hr1) as (u2 & -> & Hr2 & Hc2 & _ & _ & Hm2). cbn [obind].
  exists u2. split; [rewrite Hm2; do 2 f_equal; unfold address_text; by rewrite <- !app_assoc|].
  split; [done|]. split; [by rewrite Hc2|]. intros Hs. rewrite Hm2. unfold parseUrlParameters in E1.
  destruct (mpUrlParameters u) eqn:E; [|done]. injection E1 as <-. by rewrite E.
Qed.

Section Printing.
Context (fill : nat -> ascii) `{Pcre pcre_exec}.

Lemma gen_value_escape_simple v : simple_value v -> exists e, gen_value_escape pcre_exec v = Ok e.
Proof.
  intros Hv. unfold gen_value_escape. destruct (pcre_exec _ _ _); [by eexists|].
  assert (existsb (one_of [DQUOTE; BACKSLASH]) (cstr v) = false) as ->; [|by eexists].
  assert (Forall (fun c => one_of [DQUOTE; BACKSLASH] c = false) v) as Hn.
  { destruct Hv as [->|[Ha|(a & -> & _ & Ha)]]; [constructor| |].
    - eapply Forall_impl; [exact Ha|]. intros x. all_bytes x; intros Hx; (done || discriminate Hx).
    - constructor; [done|]. apply Forall_app. split; [|by repeat constructor].
      eapply Forall_impl; [exact Ha|]. intros x. all_bytes x; intros Hx; (done || discriminate Hx). }
  apply not_true_is_false. intros (x & Hx & Ht)%existsb_exists. apply list_elem_of_In, elem_of_cstr in Hx.
  rewrite Forall_forall in Hn. by rewrite (Hn _ Hx) in Ht.
Qed.

Lemma print_fields_quotable ps : Forall (fun p => simple_value (value_of p)) ps -> exists t, print_field_params pcre_exec ps = Ok t.
Proof.
  induction 1 as [|p ps Hp _ (t & IH)]; [by eexists|]. cbn [print_field_params]. rewrite IH.
  destruct (value_of p) as [|c v] eqn:E; [by eexists|].
  destruct (gen_value_escape_simple (c :: v) Hp) as (e & ->). by eexists.
Qed.

(** Whether toString writes angle brackets, once the lists are parsed. *)
Definition brackets_of (u : Url) : bool :=
  negb (bool_decide (mDisplayName u = [])) || mAngleBracketsIncluded u || have (mpFieldParameters u)
  || (is_sip (mScheme u) && (have (mpUrlParameters u) || have (mpHeaderOrQueryParameters u))).

Lemma toString_ready u : ready u -> quotable u ->
  exists u' f, ready u' /\ core u' = core u
    /\ print_field_params pcre_exec (default [] (mpFieldParameters u)) = Ok f
    /\ let t := address_text u ++ (default [] (mpUrlParameters u') ≫= print_url_param)
                ++ print_header_params true (default [] (mpHeaderOrQueryParameters u')) in
       toString pcre_exec u = Ok (mDisplayName u ++ (if brackets_of u' then "<"%char :: t ++ bytes ">" else t) ++ f, u').
Proof.
  intros Hr Hq. unfold toString.
  destruct (parseUrlParameters_ready u Hr) as (u1 & E1 & Hr1 & Hc1 & Hn1 & _). rewrite E1. cbn [obind].
  destruct (parseHeaders_ready u1 Hr1) as (u2 & E2 & Hr2 & Hc2 & Hn2 & Hp2 & Hm2). rewrite E2. cbn [obind].
  assert (parseUrlParameters u2 = Ok u2) as E3.
  { unfold parseUrlParameters. rewrite Hp2, Hm2. destruct Hn1 as [Hn1| ->]; [by destruct (mpUrlParameters u1)|by destruct (mpUrlParameters u1)]. }
  assert (parseHeaderOrQueryParameters u2 = Ok u2) as E4.
  { unfold parseHeaderOrQueryParameters. destruct Hn2 as [Hn2| ->]; by destruct (mpHeaderOrQueryParameters u2). }
  assert (core u2 = core u) as Hc by (by rewrite Hc2).
  destruct (print_fields_quotable _ Hq) as (f & Ef).
  exists u2, f. split_and!; [done..|]. unfold getUri. rewrite E3. cbn [obind]. rewrite E4. cbn [obind].
  pose proof (f_equal mScheme Hc) as H1. pose proof (f_equal mUserId Hc) as H2. pose proof (f_equal mPassword Hc) as H3.
  pose proof (f_equal mPasswordSet Hc) as H4. pose proof (f_equal mHostAddress Hc) as H5. pose proof (f_equal mHostPort Hc) as H6.
  pose proof (f_equal mPath Hc) as H7. pose proof (f_equal mDisplayName Hc) as H8. pose proof (f_equal mpFieldParameters Hc) as H9.
  simpl in H1, H2, H3, H4, H5, H6, H7, H8, H9. rewrite H9, Ef. cbn [obind]. cbv zeta. unfold brackets_of.
  rewrite H9, H8, H1, H2, H3, H4, H5, H6, H7. unfold address_text. rewrite <- !app_assoc. done.
Qed.

(** A parsed URL is ready. *)
Lemma parsed_ready s form next u t : nul_free s -> Z.of_nat (length s) <= ESCAPES_MAX ->
  parseString fill pcre_exec s form next Url_default = Ok (u, t) -> sane u -> ready u.
Proof.
  intros Hs Hl E Hsane. apply (parse_within fill) in E; [|done]. destruct E as [[Hp1 Hp2] [Hh1 Hh2] _].
  split; unfold lazy_list; [rewrite (proj2 (sn_params _ Hsane))|rewrite (proj2 (sn_headers _ Hsane))]; split; (done || lia).
Qed.

Lemma Url_of_string_ready s form : Z.of_nat (length s) <= ESCAPES_MAX ->
  exists u, Url_of_string fill pcre_exec s form = Ok u /\ sane u /\ ready u /\ (DQUOTE ∉ s -> quotable u).
Proof.
  intros Hl. unfold Url_of_string. pose proof (length_cstr s). pose proof (cstr_nul_free s) as Hn.
  destruct (cstr s) as [|c r] eqn:E.
  - exists Url_default. split; [done|]. split; [apply sane_default|]. split; [|by intros _; constructor].
    split; simpl; (split; [constructor|simpl; unfold ESCAPES_MAX; lia]).
  - destruct (parse_sound fill (c :: r) form false) as (u & t & Ep & Hs & _). rewrite Ep. cbn [obind fst]. exists u.
    split; [done|]. split; [done|]. split; [apply (parsed_ready _ _ _ _ _ Hn ltac:(lia) Ep Hs)|].
    intros Hq. apply (parse_within fill) in Ep; [|done]. apply (wi_fields _ _ Ep). intros Hin. apply Hq.
    rewrite <- E in Hin. by apply elem_of_cstr in Hin.
Qed.

(** A URL made from any text prints: getUri never fails, and toString
    does not when the text has no double quote; printing changes no member but
    that raw parameters are now parsed. *)
Theorem parsed_url_prints s form : Z.of_nat (length s) <= ESCAPES_MAX ->
  exists u, Url_of_string fill pcre_exec s form = Ok u
    /\ (exists t u', getUri u = Ok (t, u') /\ core u' = core u)
    /\ (DQUOTE ∉ s -> exists t u', toString pcre_exec u = Ok (t, u') /\ core u' = core u).
Proof.
  intros Hl. destruct (Url_of_string_ready s form Hl) as (u & E & _ & Hr & Hq). exists u. split; [done|]. split.
  - destruct (getUri_ready u Hr) as (u' & -> & _ & Hc & _). by eexists _, _.
  - intros Hs. destruct (toString_ready u Hr (Hq Hs)) as (u' & f & _ & Hc & _ & ->). by eexists _, _.
Qed.
End Printing.

Lemma parsed_url_prints_witness :
  exists u, Url_of_string zero_fill search (bytes "x <sip:a@b;%3Blr=%41?c=%d>;y=[::1") NameAddr = Ok u
    /\ (exists t u', getUri u = Ok (t, u') /\ core u' = core u)
    /\ exists t u', toString search u = Ok (t, u') /\ core u' = core u.
Proof.
  destruct (parsed_url_prints zero_fill (H := search_Pcre 0) (bytes "x <sip:a@b;%3Blr=%41?c=%d>;y=[::1") NameAddr)
    as (u & E & Hg & Hs); [vm_compute; discriminate|].
  exists u. split; [done|]. split; [done|]. apply Hs. apply (bool_decide_unpack _). vm_compute. exact I.
Defined.
