(* ===== verification/ProxyRoutes.v ===== *)
(** * Routes of a request at a proxy

    [SipMessage::normalizeProxyRoutes], which undoes strict routing and takes
    off the routes that lead to this proxy (RFC 3261 section 16.4), with the
    operations on the Route headers and on the request line that it calls, and
    the host aliases of [SipUserAgent.cpp] that tell which routes are its
    own.  A hash bag of strings is the list of its elements. *)
From Stdlib Require Import ZArith Lia Ascii String.
From stdpp Require Import base list strings.
From S2P Require Import Prelude UtlString UtlStringRefine NameValuePair NameValueTokenizer HttpMessage.
From S2P Require Import Format Pcre UrlCodec Url RouteState RouteStateMsg.
Local Open Scope Z_scope.

Definition SIP_ROUTE_FIELD : list ascii := bytes "ROUTE".
Definition HEADER_LINE_PART_DELIMITER : ascii := " ".

(** ** The request line *)

Definition getRequestUri (m : SipMessage) : list ascii := getFirstHeaderLinePart m 1 HEADER_LINE_PART_DELIMITER.

(** setFirstHeaderLine(subfield0, subfield1, subfield2), of C strings *)
Definition setFirstHeaderLine (subfield0 subfield1 subfield2 : list ascii) (m : SipMessage) : SipMessage :=
  mkMsg (subfield0 ++ HEADER_LINE_PART_DELIMITER :: subfield1 ++ HEADER_LINE_PART_DELIMITER :: subfield2) (mNameValues m).

Definition changeRequestUri (newUri : list ascii) (m : SipMessage) : SipMessage :=
  let method := getFirstHeaderLinePart m 0 HEADER_LINE_PART_DELIMITER in
  let protocol := getFirstHeaderLinePart m 2 HEADER_LINE_PART_DELIMITER in
  setFirstHeaderLine (cstr method) newUri (cstr protocol) m.

Section ProxyRoutes.
Context (fill : nat -> ascii) (pcre_exec : pat -> list ascii -> nat -> option Match).

Definition changeUri (newUri : list ascii) (m : SipMessage) : outcome SipMessage :=
  let! cleanUri := Url_of_string fill pcre_exec newUri NameAddr in
  let! (uriString, _) := getUri cleanUri in
  Ok (changeRequestUri (cstr uriString) m).

(** ** Route headers *)

Definition getRouteField (l : list NameValuePair) : outcome (bool * list ascii) :=
  let! fieldValue := getHeaderValue l 0 (Some SIP_ROUTE_FIELD) in
  Ok (bool_decide (is_Some fieldValue), default [] fieldValue).

Definition setRouteField (l : list NameValuePair) (routeField : list ascii) : outcome (list NameValuePair) :=
  setHeaderValue fill l SIP_ROUTE_FIELD routeField 0.

(** Angle brackets where the text has none *)
Definition bracketed (routeUri : list ascii) : list ascii :=
  (if bool_decide ("<"%char ∈ routeUri) then [] else bytes "<") ++ routeUri
  ++ (if bool_decide (">"%char ∈ routeUri) then [] else bytes ">").

Definition addRouteUri (l : list NameValuePair) (routeUri : list ascii) : outcome (list NameValuePair) :=
  let routeParameter := bracketed routeUri in
  let! (found, routeField) := getRouteField l in
  let '(routeParameter, l) :=
    if found : bool then (routeParameter ++ SIP_MULTIFIELD_SEPARATOR, snd (removeHeader l (Some SIP_ROUTE_FIELD) 0))
    else (routeParameter, l) in
  insertHeaderField fill l SIP_ROUTE_FIELD (cstr (routeParameter ++ routeField)) 0.

(** [while ((routeField = getHeaderValue(index, SIP_ROUTE_FIELD)))]: index *)
Fixpoint route_headers_loop (fuel : nat) (l : list NameValuePair) (index : Z) : outcome Z :=
  let! routeField := getHeaderValue l index (Some SIP_ROUTE_FIELD) in
  match routeField with
  | Some _ => match fuel with O => UB | S fuel' => route_headers_loop fuel' l (index + 1) end
  | None => Ok index
  end.
(** After the loop routeField is null, so the route gets a header of its own. *)
Definition addLastRouteUri (l : list NameValuePair) (routeUri : list ascii) : outcome (list NameValuePair) :=
  match routeUri with
  | [] => Ok l
  | _ =>
      let! index := route_headers_loop (length l) l 0 in
      setHeaderValue fill l SIP_ROUTE_FIELD (bracketed routeUri) index
  end.

Definition getRouteUri (l : list NameValuePair) (index : Z) : outcome (bool * list ascii) :=
  let! (fieldExists, routeUri) := getFieldSubfield l SIP_ROUTE_FIELD index false in
  let routeUri := frontBackTrim routeUri (bytes " " ++ ["009"%char]) in
  Ok (fieldExists && negb (bool_decide (routeUri = [])), routeUri).

(** The loop of getLastRouteUri: routeUri and index *)
Fixpoint last_route_loop (fuel : nat) (l : list NameValuePair) (index : Z) (routeUri : list ascii)
    : outcome (list ascii * Z) :=
  let! (more, tempRoute) := getFieldSubfield l SIP_ROUTE_FIELD index false in
  if more : bool then
    match fuel with O => UB | S fuel' => last_route_loop fuel' l (index + 1) tempRoute end
  else Ok (routeUri, index).

(** getLastRouteUri for an empty routeUri: the result, routeUri and lastIndex *)
Definition getLastRouteUri (l : list NameValuePair) : outcome (bool * list ascii * Z) :=
  let! (routeUri, index) := last_route_loop (table_size l) l 0 [] in
  Ok (negb (bool_decide (routeUri = [])), routeUri, index - 1).

(** A route as removeRouteUri writes it back *)
Definition keep_route (aRouteUri : list ascii) : list ascii :=
  if bool_decide ("<"%char ∈ aRouteUri) then aRouteUri else bytes "<" ++ aRouteUri ++ bytes ">".

(** The loop of removeRouteUri: newRouteField and [*routeUri] *)
Fixpoint remove_route_loop (fuel : nat) (l : list NameValuePair) (index uriIndex : Z) (newRouteField routeUri : list ascii)
    : outcome (list ascii * list ascii) :=
  let! (more, aRouteUri) := getFieldSubfield l SIP_ROUTE_FIELD uriIndex false in
  if more : bool then
    match fuel with
    | O => UB
    | S fuel' =>
        if uriIndex =? index then remove_route_loop fuel' l index (uriIndex + 1) newRouteField aRouteUri
        else
          let newRouteField := newRouteField ++ (if bool_decide (newRouteField = []) then [] else bytes ",") in
          remove_route_loop fuel' l index (uriIndex + 1) (newRouteField ++ cstr (keep_route aRouteUri)) routeUri
    end
  else Ok (newRouteField, routeUri).

(** [while(removeHeader(name, 0))] *)
Fixpoint remove_all_loop (fuel : nat) (l : list NameValuePair) (name : list ascii) : outcome (list NameValuePair) :=
  let '(removed, l) := removeHeader l (Some name) 0 in
  if removed : bool then match fuel with O => UB | S fuel' => remove_all_loop fuel' l name end else Ok l.

(** removeRouteUri: the headers and [*routeUri] *)
Definition removeRouteUri (l : list NameValuePair) (index : Z) (routeUri : list ascii)
    : outcome (list NameValuePair * list ascii) :=
  let! (newRouteField, routeUri) := remove_route_loop (table_size l) l index 0 [] routeUri in
  let! l := remove_all_loop (length l) l SIP_ROUTE_FIELD in
  let! l := (if bool_decide (newRouteField = []) then Ok l
             else insertHeaderField fill l SIP_ROUTE_FIELD (cstr newRouteField) 0) in
  Ok (l, routeUri).

(** ** Host aliases *)

(** [:port] in the buffer portString *)
Definition alias_port (port : Z) : list ascii := print_port port.

Fixpoint setHostAliases_loop (fuel : nat) (aliases : list ascii) (aliasIndex : Z) (aliasString : list ascii)
    (mMyHostAliases : list (list ascii)) : outcome (list (list ascii)) :=
  let! (more, aliasString) := getSubField (c_str aliases) aliasIndex (c_str (bytes ", " ++ ["009"%char])) aliasString false in
  if more : bool then
    match fuel with
    | O => UB
    | S fuel' =>
        let! aliasUrl := Url_of_string fill pcre_exec aliasString NameAddr in
        let port := mHostPort aliasUrl in
        let hostAlias := mHostAddress aliasUrl ++ (if portIsValid port then alias_port port else bytes ":5060") in
        setHostAliases_loop fuel' aliases (aliasIndex + 1) aliasString (mMyHostAliases ++ [hostAlias])
    end
  else Ok mMyHostAliases.
Definition setHostAliases (aliases : list ascii) (mMyHostAliases : list (list ascii)) : outcome (list (list ascii)) :=
  setHostAliases_loop (S (length aliases)) aliases 0 [] mMyHostAliases.

(** isMyHostAlias, which may parse the parameters of the route. *)
Definition isMyHostAlias (mMyHostAliases : list (list ascii)) (route : Url) : outcome (bool * Url) :=
  let port := mHostPort route in
  let! (suffix, route) :=
    (if port =? PORT_NONE then
       if bool_decide (schemeName (mScheme route) = bytes "sips") then Ok (bytes ":5061", route)
       else
         let! (v, route) := getUrlParameter (bytes "transport") 0 route in
         let transport := default [] v in
         Ok (if bool_decide (transport = bytes "tls") || bool_decide (transport = bytes "TLS")
             then bytes ":5061" else bytes ":5060", route)
     else Ok (alias_port port, route)) in
  Ok (bool_decide (mHostAddress route ++ suffix ∈ mMyHostAliases), route).

(** ** normalizeProxyRoutes *)

Record RouteWork := mkWork {
  w_msg : SipMessage; w_requestUri : Url; w_topRouteUrl : Url; w_removedRoutes : option (list (list ascii)) }.

Definition set_headers (l : list NameValuePair) (m : SipMessage) : SipMessage := mkMsg (mFirstHeaderLine m) l.

(** [if (removedRoutes)] append the printed url *)
Definition save_route (removedRoutes : option (list (list ascii))) (url : Url)
    : outcome (option (list (list ascii)) * Url) :=
  match removedRoutes with
  | Some rs => let! (t, url) := toString pcre_exec url in Ok (Some (rs ++ [t]), url)
  | None => Ok (None, url)
  end.

(** One round of [while (! doneNormalizingRouteSet)] *)
Definition normalize_round (mMyHostAliases : list (list ascii)) (w : RouteWork) : outcome (bool * RouteWork) :=
  let m := w_msg w in
  let requestUriString := getRequestUri m in
  let! (requestUri, _) := fromString fill pcre_exec requestUriString AddrSpec false (w_requestUri w) in
  let! (lr, requestUri) := getUrlParameter (bytes "lr") 0 requestUri in
  let! (strict, requestUri) :=
    match lr with Some _ => isMyHostAlias mMyHostAliases requestUri | None => Ok (false, requestUri) end in
  if strict : bool then
    let! (found, lastRouteValue, lastRouteIndex) := getLastRouteUri (mNameValues m) in
    if found : bool then
      let! (l, lastRouteValue) := removeRouteUri (mNameValues m) lastRouteIndex lastRouteValue in
      let! m := changeUri (cstr lastRouteValue) (set_headers l m) in
      let! (removedRoutes, requestUri) := save_route (w_removedRoutes w) requestUri in
      Ok (false, mkWork m requestUri (w_topRouteUrl w) removedRoutes)
    else
      let! requestUri := removeUrlParameter (bytes "lr") requestUri in
      let! (newUri, requestUri) := toString pcre_exec requestUri in
      Ok (false, mkWork (changeRequestUri (cstr newUri) m) requestUri (w_topRouteUrl w) (w_removedRoutes w))
  else
    let! (top, topRouteValue) := getRouteUri (mNameValues m) 0 in
    if top : bool then
      let! (topRouteUrl, _) := fromString fill pcre_exec topRouteValue NameAddr false (w_topRouteUrl w) in
      let! (mine, topRouteUrl) := isMyHostAlias mMyHostAliases topRouteUrl in
      if mine : bool then
        let! (removedRoutes, topRouteUrl) := save_route (w_removedRoutes w) topRouteUrl in
        let! (l, _) := removeRouteUri (mNameValues m) 0 [] in
        Ok (false, mkWork (set_headers l m) requestUri topRouteUrl removedRoutes)
      else Ok (true, mkWork m requestUri topRouteUrl (w_removedRoutes w))
    else Ok (true, mkWork m requestUri (w_topRouteUrl w) (w_removedRoutes w)).

Fixpoint normalize_loop (fuel : nat) (mMyHostAliases : list (list ascii)) (w : RouteWork) : outcome RouteWork :=
  let! (doneNormalizingRouteSet, w) := normalize_round mMyHostAliases w in
  if doneNormalizingRouteSet : bool then Ok w
  else match fuel with O => UB | S fuel' => normalize_loop fuel' mMyHostAliases w end.

(** The message, the request uri and the removed routes *)
Definition normalizeProxyRoutes (mMyHostAliases : list (list ascii)) (m : SipMessage) (requestUri : Url)
    (removedRoutes : option (list (list ascii))) : outcome (SipMessage * Url * option (list (list ascii))) :=
  let! w := normalize_loop (table_size (mNameValues m) + 2) mMyHostAliases (mkWork m requestUri Url_default removedRoutes) in
  Ok (w_msg w, w_requestUri w, w_removedRoutes w).
End ProxyRoutes.
