(* ===== verification/RouteTableSpec.v ===== *)
(** * Route headers and the request line

    The routes of a request are the subfields of its Route headers, in order.
    Here is what [getRouteUri], [getLastRouteUri] and [removeRouteUri] do to
    that sequence, and what [changeRequestUri] does to the parts of the
    request line. *)
From Stdlib Require Import ZArith Lia Ascii String.
From stdpp Require Import base list strings sets.
From S2P Require Import Prelude UtlString UtlStringRefine NameValuePair NameValueTokenizer NameValueTokenizerSpec HttpMessage HttpMessageSpec.
From S2P Require Import Format UrlCodec RouteStateMsg ProxyRoutes.
Local Open Scope Z_scope.

Lemma route_name : nul_free SIP_ROUTE_FIELD /\ upper SIP_ROUTE_FIELD = SIP_ROUTE_FIELD.
Proof. split; [apply (bool_decide_unpack _); vm_compute; exact I|reflexivity]. Qed.

(** The routes of a header table. *)
Definition routes_of (hs : list header) : list (list ascii) := flat (values_of SIP_ROUTE_FIELD hs).

(** Headers that getSubField reads to their end. *)
Definition readable (hs : list header) : Prop := Forall (fun v => Z.of_nat (length v) <= 65536) (values_of SIP_ROUTE_FIELD hs).

(** Every list of routes that is left when some are taken off fits in a
    header. *)
Definition fits (hs : list header) : Prop :=
  readable hs /\ Z.of_nat (length (join_fields "," (keep_route <$> routes_of hs))) <= 65536.

(** ** Subfields *)

Lemma subs_facts v : Forall (fun f => f <> [] /\ ","%char ∉ f) (subs v).
Proof.
  unfold subs. change SIP_MULTIFIELD_SEPARATOR with [","%char].
  assert (forall t cur, ","%char ∉ cur -> Forall (fun f => ","%char ∉ f) (fields [","%char] cur t)) as H.
  { induction t as [|c t IH]; intros cur Hc; cbn [fields]; [by constructor|]. case_bool_decide as Hs.
    - destruct cur; [|constructor; [done|]]; apply IH; set_solver.
    - apply IH. set_solver. }
  apply Forall_forall. intros f [Hf Hin]%list_elem_of_filter. split; [done|].
  specialize (H v [] ltac:(set_solver)). rewrite Forall_forall in H. by apply H.
Qed.

Lemma flat_facts vs : Forall (fun f => f <> [] /\ ","%char ∉ f) (flat vs).
Proof. induction vs as [|[|c v] vs IH]; cbn [flat]; [constructor..|]. apply Forall_app. split; [apply subs_facts|done]. Qed.

Lemma flat_nul_free vs : Forall nul_free vs -> Forall nul_free (flat vs).
Proof.
  induction 1 as [|v vs Hv _ IH]; [constructor|]. destruct v as [|c v]; cbn [flat]; [constructor|].
  apply Forall_app. split; [|done]. apply Forall_forall. intros f [_ Hf]%list_elem_of_filter.
  pose proof (fields_nul_free SIP_MULTIFIELD_SEPARATOR (c :: v) [] ltac:(constructor) Hv) as Hn.
  rewrite Forall_forall in Hn. by apply Hn.
Qed.

Lemma table_values_nul_free l hs n : table l hs -> Forall nul_free (values_of n hs).
Proof.
  intros Ht. apply Forall_lookup_2. intros k v Hv. exact (value_nul_free l hs Ht n k v Hv).
Qed.

Lemma subs_join fs : fs <> [] -> Forall (fun f => f <> [] /\ ","%char ∉ f) fs -> subs (join_fields "," fs) = fs.
Proof.
  intros Hne Hf. unfold subs. change SIP_MULTIFIELD_SEPARATOR with [","%char]. rewrite fields_join.
  - induction Hf as [|f fs [Hf _] _ IH]; [done|]. rewrite filter_cons_True by done. f_equal. destruct fs; [done|by apply IH].
  - done.
  - eapply Forall_impl; [exact Hf|]. by intros f [].
  - apply Forall_take. eapply Forall_impl; [exact Hf|]. by intros f [].
Qed.

Lemma flat_one v : v <> [] -> flat [v] = subs v.
Proof. intros Hv. destruct v; [done|]. cbn [flat]. apply app_nil_r. Qed.

(** ** Reading *)

Lemma route_subfield l hs k :
  table l hs -> readable hs -> Z.of_nat k < INT_MAX ->
  getFieldSubfield l SIP_ROUTE_FIELD (Z.of_nat k) false
  = Ok (match routes_of hs !! k with Some u => (true, u) | None => (false, []) end).
Proof.
  intros Ht Hl HA. destruct route_name as [Hnr Hup]. unfold getFieldSubfield.
  rewrite (field_values_all l hs SIP_ROUTE_FIELD _ Ht Hnr) by (rewrite ?Hup; done || lia).
  rewrite Hup, Nat2Z.id. cbn [obind]. rewrite (proj2 (Z.eqb_neq _ BOTTOM_SUBFIELD)) by (unfold BOTTOM_SUBFIELD; lia). cbn [andb].
  unfold routes_of. by destruct (flat _ !! k).
Qed.

Lemma flat_length vs : (length (flat vs) <= list_sum (S ∘ length <$> vs))%nat.
Proof.
  induction vs as [|[|c v] vs IH]; cbn [flat]; [simpl; lia..|]. rewrite length_app. pose proof (length_subs (c :: v)).
  change (list_sum (S ∘ length <$> (c :: v) :: vs)) with (S (length (c :: v)) + list_sum (S ∘ length <$> vs))%nat. lia.
Qed.

Lemma values_size l hs n : table l hs -> (list_sum (S ∘ length <$> values_of n hs) <= table_size l)%nat.
Proof.
  intros [Hf _]. induction Hf as [|nv [m v] l hs [_ (Hv & tail & Hval)] _ IH]; [simpl; lia|].
  assert (table_size (nv :: l) = (S (length (v ++ NUL :: tail)) + table_size l)%nat) as ->.
  { unfold table_size. cbn [fold_right]. by rewrite Hval. }
  rewrite length_app. destruct (decide (m = n)) as [->|Hne].
  - rewrite values_of_cons_eq, fmap_cons.
    change (list_sum ((S ∘ length) v :: ?x)) with (S (length v) + list_sum x)%nat. lia.
  - rewrite values_of_cons_ne by done. lia.
Qed.

Lemma routes_count l hs : table l hs -> (length (routes_of hs) <= table_size l)%nat.
Proof. intros Ht. etransitivity; [apply flat_length|]. by apply values_size. Qed.

(** [keep_route]: brackets are added once. *)
Lemma keep_route_facts r : r <> [] -> ","%char ∉ r -> keep_route r <> [] /\ ","%char ∉ keep_route r.
Proof. intros Hr Hc. unfold keep_route. case_bool_decide; [done|]. split; [done|set_solver]. Qed.

Lemma keep_route_nul_free r : nul_free r -> nul_free (keep_route r).
Proof.
  intros Hr. unfold keep_route. case_bool_decide; [done|]. constructor; [done|]. apply Forall_app. split; [done|].
  by repeat constructor.
Qed.

Lemma keep_route_idemp r : keep_route (keep_route r) = keep_route r.
Proof. unfold keep_route at 1. rewrite bool_decide_true; [done|]. unfold keep_route. case_bool_decide; set_solver. Qed.

Lemma keep_routes_idemp (rs : list (list ascii)) : keep_route <$> (keep_route <$> rs) = keep_route <$> rs.
Proof. rewrite <- list_fmap_compose. apply list_fmap_ext. intros i r _. apply keep_route_idemp. Qed.

Lemma routes_facts hs : Forall (fun f => f <> [] /\ ","%char ∉ f) (routes_of hs).
Proof. apply flat_facts. Qed.

Lemma kept_facts rs : Forall (fun f => f <> [] /\ ","%char ∉ f) rs -> Forall (fun f => f <> [] /\ ","%char ∉ f) (keep_route <$> rs).
Proof. intros Hr. apply Forall_fmap. eapply Forall_impl; [exact Hr|]. intros r [H1 H2]. by apply keep_route_facts. Qed.

Lemma routes_bound hs : fits hs -> Z.of_nat (length (routes_of hs)) < INT_MAX.
Proof.
  intros [_ Hj]. pose proof (length_join "," (keep_route <$> routes_of hs)) as Hl. rewrite length_fmap in Hl.
  unfold INT_MAX. enough (length (routes_of hs) <= length (join_fields "," (keep_route <$> routes_of hs)))%nat by lia. apply Hl.
  eapply Forall_impl; [apply kept_facts, routes_facts|]. by intros f [].
Qed.

(** ** The last route *)

Section Loops.
Context (l : list NameValuePair) (hs : list header) (Ht : table l hs) (Hfit : fits hs).
Let rs := routes_of hs.

Lemma last_route_loop_spec n : forall fuel r,
  (n <= length rs)%nat -> (length rs - n <= fuel)%nat ->
  last_route_loop fuel l (Z.of_nat n) r = Ok (default r (last (drop n rs)), Z.of_nat (length rs)).
Proof.
  remember (length rs - n)%nat as k eqn:Ek. revert n Ek. pose proof (routes_bound hs Hfit) as Hb. fold rs in Hb.
  induction k as [|k IH]; intros n Ek fuel r Hn Hf.
  - assert (n = length rs) as -> by lia. rewrite drop_all. destruct fuel; cbn [last_route_loop];
      rewrite (route_subfield l hs) by (apply Hfit || done); fold rs; rewrite lookup_ge_None_2 by lia; done.
  - destruct fuel as [|fuel]; [lia|]. cbn [last_route_loop]. rewrite (route_subfield l hs) by (apply Hfit || done || lia). fold rs.
    destruct (rs !! n) as [u|] eqn:E; [|apply lookup_ge_None_1 in E; lia]. cbn [obind].
    replace (Z.of_nat n + 1) with (Z.of_nat (S n)) by lia. rewrite IH by lia.
    rewrite (drop_S rs u n E). rewrite last_cons. by destruct (last (drop (S n) rs)).
Qed.

Lemma getLastRouteUri_spec :
  getLastRouteUri l = Ok (match last rs with
                          | Some r => (true, r, Z.of_nat (length rs) - 1)
                          | None => (false, [], -1) end).
Proof.
  unfold getLastRouteUri. pose proof (routes_count l hs Ht) as Hc. fold rs in Hc.
  rewrite (last_route_loop_spec 0 (table_size l) [] ltac:(lia) ltac:(lia) : last_route_loop _ _ 0 _ = _).
  rewrite drop_0. cbn [obind]. destruct (last rs) as [r|] eqn:E.
  - cbn [default]. rewrite bool_decide_false; [done|]. pose proof (routes_facts hs) as Hf. rewrite Forall_forall in Hf.
    apply Hf. apply last_Some in E as (rs' & E). fold rs. rewrite E. set_solver.
  - apply last_None in E. by rewrite E.
Qed.

(** ** Removal *)

Lemma join_snoc fs x : Forall (fun f => f <> []) fs ->
  join_fields "," fs ++ (if bool_decide (join_fields "," fs = []) then [] else bytes ",") ++ x = join_fields "," (fs ++ [x]).
Proof.
  induction 1 as [|f fs Hf Hfs IH]; [done|]. destruct fs as [|g fs].
  - simpl. rewrite bool_decide_false by done. done.
  - change (join_fields "," (f :: g :: fs)) with (f ++ ","%char :: join_fields "," (g :: fs)).
    change (join_fields "," ((f :: g :: fs) ++ [x])) with (f ++ ","%char :: join_fields "," ((g :: fs) ++ [x])).
    rewrite <- IH, bool_decide_false by (by destruct f). inversion Hfs; subst.
    rewrite bool_decide_false by (destruct g; [done|by destruct fs]). by rewrite <- app_assoc.
Qed.

(** The routes from the [n]-th on, without the [i]-th. *)
Definition others (i n : nat) : list (list ascii) := if decide (n <= i)%nat then delete (i - n)%nat (drop n rs) else drop n rs.

Lemma others_end i : others i (length rs) = [].
Proof. unfold others. rewrite drop_all. by case_decide. Qed.
Lemma others_skip i n r : rs !! n = Some r -> n <> i -> others i n = r :: others i (S n).
Proof.
  intros Hr Hne. unfold others. rewrite (drop_S rs r n Hr). repeat case_decide; try lia; [|done].
  by replace (i - n)%nat with (S (i - S n)) by lia.
Qed.
Lemma others_drop i : others i i = others i (S i).
Proof.
  unfold others. rewrite decide_True, decide_False, Nat.sub_diag by lia.
  replace (S i) with (i + 1)%nat by lia. rewrite <- drop_drop. by destruct (drop i rs).
Qed.

Lemma routes_nul_free : Forall nul_free rs.
Proof. apply flat_nul_free. by apply (table_values_nul_free l). Qed.

Lemma remove_route_loop_spec i n : forall fuel acc r0,
  (n <= length rs)%nat -> (length rs - n <= fuel)%nat -> Forall (fun f => f <> []) acc ->
  exists r, remove_route_loop fuel l (Z.of_nat i) (Z.of_nat n) (join_fields "," acc) r0
            = Ok (join_fields "," (acc ++ (keep_route <$> others i n)), r)
    /\ ((i < n)%nat -> r = r0) /\ ((n <= i)%nat -> r = default r0 (rs !! i)).
Proof.
  remember (length rs - n)%nat as k eqn:Ek. revert n Ek. pose proof (routes_bound hs Hfit) as Hb. fold rs in Hb.
  induction k as [|k IH]; intros n Ek fuel acc r0 Hn Hf Hacc.
  - assert (n = length rs) as -> by lia. rewrite others_end, app_nil_r. exists r0. split.
    + destruct fuel; cbn [remove_route_loop]; rewrite (route_subfield l hs) by (apply Hfit || done); fold rs;
        rewrite lookup_ge_None_2 by lia; done.
    + split; [done|]. intros. by rewrite lookup_ge_None_2.
  - destruct fuel as [|fuel]; [lia|]. cbn [remove_route_loop]. rewrite (route_subfield l hs) by (apply Hfit || done || lia). fold rs.
    destruct (rs !! n) as [u|] eqn:E; [|apply lookup_ge_None_1 in E; lia]. cbn [obind].
    replace (Z.of_nat n + 1) with (Z.of_nat (S n)) by lia. destruct (Z.eqb_spec (Z.of_nat n) (Z.of_nat i)) as [Ei|Ei].
    + assert (n = i) as -> by lia. rewrite others_drop. destruct (IH (S i) ltac:(lia) fuel acc u ltac:(lia) ltac:(lia) Hacc) as (r & -> & Hr & _).
      exists r. split; [done|]. split; [lia|]. intros _. rewrite E. apply Hr. lia.
    + assert (nul_free u) as Hu by (pose proof routes_nul_free as Hf2; rewrite Forall_forall in Hf2; apply Hf2; by apply list_elem_of_lookup_2 in E).
      rewrite <- app_assoc, (cstr_id (keep_route u)), join_snoc by (done || by apply keep_route_nul_free).
      destruct (IH (S n) ltac:(lia) fuel (acc ++ [keep_route u]) r0 ltac:(lia) ltac:(lia)) as (r & -> & Hr1 & Hr2).
      { apply Forall_app. split; [done|]. apply Forall_singleton. pose proof (routes_facts hs) as Hf2. rewrite Forall_forall in Hf2.
        destruct (Hf2 u) as [H1 H2]; [by apply list_elem_of_lookup_2 in E|]. by apply keep_route_facts. }
      exists r. split; [rewrite (others_skip i n u E) by lia; rewrite fmap_cons; by rewrite <- app_assoc|].
      split; intros; [apply Hr1|apply Hr2]; lia.
Qed.
End Loops.

Lemma remove_all_spec name : nul_free name -> forall fuel l hs,
  table l hs -> (length (values_of (upper name) hs) <= fuel)%nat ->
  exists l' hs', remove_all_loop fuel l name = Ok l' /\ table l' hs' /\ values_of (upper name) hs' = []
    /\ forall m, m <> upper name -> values_of m hs' = values_of m hs.
Proof.
  intros Hn. induction fuel as [|fuel IH]; intros l hs Ht Hl; cbn [remove_all_loop];
    destruct (removeHeader_spec l hs name 0 Ht Hn) as (l1 & hs1 & E & Ht1 & Hv1 & Ho1); change (Z.of_nat 0) with 0 in E; rewrite E;
    destruct (values_of (upper name) hs) as [|v vs] eqn:Ev; try (simpl in Hl; lia); cbn [length Nat.ltb Nat.leb].
  - exists l1, hs1. by split_and!.
  - exists l1, hs1. by split_and!.
  - destruct (IH l1 hs1 Ht1) as (l' & hs' & -> & Ht' & Hv' & Ho'); [rewrite Hv1; simpl in *; lia|].
    exists l', hs'. split_and!; [done..|]. intros m Hm. by rewrite Ho', Ho1.
Qed.

Lemma insertHeaderField_front fill l hs name v : table l hs -> nul_free name -> nul_free v ->
  exists l', insertHeaderField fill l name v 0 = Ok l' /\ table l' ((upper name, v) :: hs).
Proof.
  intros Ht Hn Hv. unfold insertHeaderField.
  destruct (NameValuePair_new_value fill name v Hn Hv) as (nv & -> & Hname & Hval). cbn [obind Nat.leb].
  rewrite take_0, drop_0. eexists. split; [done|]. apply (table_app [_] l [_] hs); [|done].
  apply table_one; [simpl; by rewrite Hname|done|by apply upper_nul_free].
Qed.

Lemma join_length_sum sep (fs : list (list ascii)) : S (length (join_fields sep fs)) = (list_sum (S ∘ length <$> fs) + if decide (fs = []) then 1 else 0)%nat.
Proof.
  induction fs as [|f fs IH]; [done|]. rewrite decide_False by done.
  change (list_sum (S ∘ length <$> f :: fs)) with (S (length f) + list_sum (S ∘ length <$> fs))%nat. destruct fs as [|g fs].
  - simpl. lia.
  - rewrite join_cons, length_app by done. cbn [length]. rewrite decide_False in IH by done. lia.
Qed.

Lemma join_delete_length sep (fs : list (list ascii)) i : (length (join_fields sep (delete i fs)) <= length (join_fields sep fs))%nat.
Proof.
  destruct (decide (i < length fs)%nat) as [Hi|Hi]; [|by rewrite delete_ge by lia].
  pose proof (join_length_sum sep fs) as H1. pose proof (join_length_sum sep (delete i fs)) as H2.
  apply lookup_lt_is_Some in Hi as (f & Hf). apply list_elem_of_split_length in Hf as (a & b & -> & ->).
  rewrite delete_middle in *. rewrite fmap_app, list_sum_app in *. rewrite fmap_cons in H1.
  change (list_sum (?x :: ?y)) with (x + list_sum y)%nat in H1. unfold compose in *.
  repeat case_decide; try (by destruct a); lia.
Qed.

(** removeRouteUri: the [i]-th route is returned, the others stay in order in
    one header at the front, and no other header is touched. *)
Lemma removeRouteUri_spec fill l hs i r0 : table l hs -> fits hs ->
  exists l' hs', removeRouteUri fill l (Z.of_nat i) r0 = Ok (l', default r0 (routes_of hs !! i)) /\ table l' hs' /\ fits hs'
    /\ routes_of hs' = keep_route <$> delete i (routes_of hs)
    /\ forall n, n <> SIP_ROUTE_FIELD -> values_of n hs' = values_of n hs.
Proof.
  intros Ht Hf. destruct route_name as [Hn Hup]. unfold removeRouteUri. pose proof (routes_count l hs Ht) as Hc.
  destruct (remove_route_loop_spec l hs Ht Hf i 0 (table_size l) [] r0 ltac:(lia) ltac:(lia) ltac:(constructor)) as (r & E & _ & Hr).
  cbn [join_fields app] in E. change (Z.of_nat 0) with 0 in E. rewrite E. cbn [obind]. rewrite (Hr ltac:(lia)). clear r E Hr.
  assert (others hs i 0 = delete i (routes_of hs)) as ->.
  { unfold others. by rewrite decide_True, drop_0, Nat.sub_0_r by lia. }
  set (fs := keep_route <$> delete i (routes_of hs)).
  destruct (remove_all_spec SIP_ROUTE_FIELD Hn (length l) l hs Ht (length_values_of l hs _ Ht)) as (l1 & hs1 & -> & Ht1 & Hv1 & Ho1).
  cbn [obind]. rewrite Hup in Hv1, Ho1.
  assert (Forall (fun f => f <> [] /\ ","%char ∉ f) fs) as Hfs by (apply kept_facts, Forall_delete, routes_facts).
  assert (Z.of_nat (length (join_fields "," fs)) <= 65536) as Hlen.
  { destruct Hf as [_ Hf]. unfold fs. rewrite list_fmap_delete. pose proof (join_delete_length "," (keep_route <$> routes_of hs) i). lia. }
  assert (forall hs2, routes_of hs2 = fs -> readable hs2 -> fits hs2) as Hfits.
  { intros hs2 Hr2 Hrd. split; [done|]. rewrite Hr2. unfold fs. by rewrite keep_routes_idemp. }
  case_bool_decide as Hj; cbn [obind].
  - assert (fs = []) as Efs.
    { destruct fs as [|f fs']; [done|]. inversion Hfs as [|? ? [Hne _]]; subst. destruct f; [done|]. by destruct fs'. }
    assert (routes_of hs1 = fs) as Hr1 by (unfold routes_of; by rewrite Hv1, Efs).
    exists l1, hs1. split_and!; [done|done| |done|done]. apply Hfits; [done|]. unfold readable. rewrite Hv1. constructor.
  - assert (nul_free (join_fields "," fs)) as Hnj.
    { apply join_nul_free; [done|]. apply Forall_fmap, Forall_delete. eapply Forall_impl; [apply (routes_nul_free l hs Ht)|].
      intros. by apply keep_route_nul_free. }
    rewrite (cstr_id _ Hnj). destruct (insertHeaderField_front fill l1 hs1 SIP_ROUTE_FIELD _ Ht1 Hn Hnj) as (l2 & -> & Ht2).
    cbn [obind]. rewrite Hup in Ht2. set (hs2 := (SIP_ROUTE_FIELD, join_fields "," fs) :: hs1) in *.
    assert (values_of SIP_ROUTE_FIELD hs2 = [join_fields "," fs]) as Hv2 by (unfold hs2; by rewrite values_of_cons_eq, Hv1).
    assert (routes_of hs2 = fs) as Hr2.
    { unfold routes_of. rewrite Hv2, flat_one by done. apply subs_join; [|done]. intros ->. done. }
    exists l2, hs2. split_and!; [done|done| |done|].
    + apply Hfits; [done|]. unfold readable. rewrite Hv2. by constructor.
    + intros n Hne. unfold hs2. rewrite values_of_cons_ne by done. by apply Ho1.
Qed.

Lemma getRouteUri_first l hs : table l hs -> fits hs ->
  getRouteUri l 0 = Ok (match routes_of hs with
                        | r :: _ => let t := frontBackTrim r (bytes " " ++ ["009"%char]) in (negb (bool_decide (t = [])), t)
                        | [] => (false, []) end).
Proof.
  intros Ht Hf. unfold getRouteUri. rewrite (route_subfield l hs 0 Ht (proj1 Hf) eq_refl : getFieldSubfield _ _ 0 _ = _).
  by destruct (routes_of hs) as [|r rs].
Qed.

(** ** The request line *)

Definition not_space (c : ascii) : bool := negb (bool_decide (c = " "%char)).
(** The first word of a text. *)
Definition cut (l : list ascii) : list ascii := fst (span not_space l).

Definition method_of (m : SipMessage) : list ascii := getFirstHeaderLinePart m 0 HEADER_LINE_PART_DELIMITER.
(** A line that begins with a word: the method of a request. *)
Definition request_line (m : SipMessage) : Prop := method_of m <> [].

Lemma span_cons c l : span not_space (c :: l)
  = if decide (c = " "%char) then ([], c :: l) else (c :: fst (span not_space l), snd (span not_space l)).
Proof.
  cbn [span]. unfold not_space at 1. case_decide; [by rewrite bool_decide_true|]. rewrite bool_decide_false by done.
  cbn [negb]. by destruct (span not_space l).
Qed.

Lemma strchr_span l : strchr l " " = match snd (span not_space l) with [] => None | r => Some r end.
Proof. induction l as [|c l IH]; [done|]. rewrite span_cons. cbn [strchr]. by case_decide. Qed.

Lemma span_parts l : l = fst (span not_space l) ++ snd (span not_space l)
  /\ Forall (fun c => c <> " "%char) (fst (span not_space l))
  /\ (snd (span not_space l) = [] \/ exists r, snd (span not_space l) = " "%char :: r).
Proof.
  induction l as [|c l (E & Hw & Hr)]; [split_and!; [done|constructor|by left]|]. rewrite span_cons. case_decide as Hc.
  - subst. split_and!; [done|constructor|right; by eexists].
  - cbn [fst snd app]. split_and!; [by f_equal|by constructor|done].
Qed.

Lemma span_word w r : Forall (fun c => c <> " "%char) w -> span not_space (w ++ " "%char :: r) = (w, " "%char :: r).
Proof. induction 1 as [|c w Hc _ IH]; [done|]. cbn [app]. by rewrite span_cons, decide_False, IH. Qed.

Lemma cut_app a b : Forall (fun c => c <> " "%char) a -> cut (a ++ b) = a ++ cut b.
Proof. unfold cut. induction 1 as [|c w Hc _ IH]; [done|]. cbn [app]. rewrite span_cons, decide_False by done. cbn [fst]. by f_equal. Qed.

Lemma cut_id w : Forall (fun c => c <> " "%char) w -> cut w = w.
Proof. intros Hw. rewrite <- (app_nil_r w) at 1. rewrite cut_app by done. apply app_nil_r. Qed.

Lemma take_front {A} (l a b : list A) : l = a ++ b -> take (length l - length b) l = a.
Proof. intros ->. rewrite length_app. replace (_ + _ - _)%nat with (length a) by lia. by rewrite take_app_length. Qed.

(** The first word of a line. *)
Lemma first_part m l : cstr (mFirstHeaderLine m) = l -> skip_seps " " l = l ->
  getFirstHeaderLinePart m 0 " " = cut l.
Proof.
  intros El Hsk. unfold getFirstHeaderLinePart. rewrite El. change (Z.to_nat 0) with 0%nat. cbn [part_start]. rewrite Hsk. change (0 <? 2) with true. cbn iota.
  rewrite strchr_span. destruct (span_parts l) as (E & _ & _). unfold cut. destruct (snd (span not_space l)) as [|c r] eqn:Er.
  - rewrite app_nil_r in E. by rewrite <- E.
  - by apply take_front.
Qed.

Lemma skip_seps_spec c l : (skip_seps c l = [] \/ exists x r, skip_seps c l = x :: r /\ x <> c).
Proof. induction l as [|x l IH]; cbn [skip_seps]; [by left|]. case_decide; [done|]. right. eauto. Qed.
Lemma skip_seps_nul_free c l : nul_free l -> nul_free (skip_seps c l).
Proof. induction 1 as [|x l Hx Hl IH]; cbn [skip_seps]; [constructor|]. case_decide; [done|by constructor]. Qed.

Lemma method_facts m : nul_free (method_of m) /\ Forall (fun c => c <> " "%char) (method_of m).
Proof.
  unfold method_of, getFirstHeaderLinePart. change (Z.to_nat 0) with 0%nat. cbn [part_start]. change (0 <? 2) with true. cbn iota.
  set (l := skip_seps _ _). assert (nul_free l) as Hl by (apply skip_seps_nul_free, cstr_nul_free).
  change HEADER_LINE_PART_DELIMITER with " "%char. rewrite strchr_span. destruct (span_parts l) as (E & Hw & _).
  destruct (snd (span not_space l)) as [|c r] eqn:Er.
  - rewrite app_nil_r in E. rewrite E at 2. done.
  - assert (take (length l - length (c :: r)) l = fst (span not_space l)) as ->.
    { by apply take_front. }
    split; [|done]. rewrite E in Hl. by apply Forall_app in Hl as [? _].
Qed.

(** changeRequestUri puts the first word of the new text there and keeps the
    method. *)
Lemma changeRequestUri_parts m x t :
  request_line m -> nul_free (x :: t) -> x <> " "%char ->
  let m' := changeRequestUri (x :: t) m in
  getRequestUri m' = cut (x :: t) /\ method_of m' = method_of m /\ mNameValues m' = mNameValues m.
Proof.
  intros Hm Hn Hx. destruct (method_facts m) as [Hmn Hms]. unfold request_line in Hm. cbv zeta. unfold changeRequestUri. fold (method_of m).
  set (proto := cstr (getFirstHeaderLinePart m 2 _)). assert (nul_free proto) as Hp by apply cstr_nul_free.
  rewrite (cstr_id _ Hmn). unfold setFirstHeaderLine. change HEADER_LINE_PART_DELIMITER with " "%char.
  set (line := method_of m ++ " "%char :: (x :: t) ++ " "%char :: proto).
  assert (nul_free line) as Hl.
  { apply Forall_app. split; [done|]. constructor; [done|]. apply Forall_app. split; [done|]. by constructor. }
  assert (skip_seps " " line = line) as Hsk.
  { unfold line. destruct (method_of m) as [|c w]; [done|]. inversion Hms; subst. cbn [app skip_seps]. by rewrite decide_False. }
  split_and!; [| |done].
  - unfold getRequestUri, getFirstHeaderLinePart. cbn [mFirstHeaderLine]. rewrite (cstr_id _ Hl). change HEADER_LINE_PART_DELIMITER with " "%char.
    rewrite Hsk. change (Z.to_nat 1) with 1%nat. cbn [part_start].
    unfold line at 1. rewrite strchr_span, span_word by done. cbn [snd tail app skip_seps]. rewrite decide_False by done.
    cbn [part_start]. change (1 <? 2) with true. cbn iota. rewrite strchr_span.
    set (rest := x :: t ++ " "%char :: proto). destruct (span_parts rest) as (E & Hw & Hr).
    assert (fst (span not_space rest) = cut (x :: t)) as Ecut.
    { unfold rest. change (x :: t ++ ?q) with ((x :: t) ++ q). destruct (span_parts (x :: t)) as (E2 & Hw2 & [H2|(r2 & H2)]);
        rewrite H2 in E2; fold (cut (x :: t)) in *.
      - rewrite app_nil_r in E2. rewrite E2 at 1. by rewrite span_word.
      - rewrite E2 at 1. rewrite <- app_assoc. cbn [app]. by rewrite span_word. }
    destruct (snd (span not_space rest)) as [|c r] eqn:Er.
    + exfalso. rewrite app_nil_r in E. rewrite <- E in Hw. rewrite Forall_forall in Hw.
      apply (Hw " "%char); [|done]. unfold rest. apply list_elem_of_further, elem_of_app. right. apply list_elem_of_here.
    + rewrite <- Ecut. by apply take_front.
  - transitivity (cut line); [exact (first_part (mkMsg line (mNameValues m)) line (cstr_id _ Hl) Hsk)|].
    unfold line, cut. by rewrite span_word.
Qed.
