(* ===== verification/ProxyRoutesSpec.v ===== *)
(** * Route processing of a request

    [normalizeProxyRoutes] ends on every request whose routes have no double
    quotes, without undefined behaviour; afterwards the request URI is not a
    loose route of this proxy and the first route does not lead to it, what
    was taken off is recorded, and what is left is a segment of the routes
    that came.  With RouteStateMsg: a request of a dialog that carries the
    route of the proxy has its state found. *)
From Stdlib Require Import ZArith Lia Ascii String.
From stdpp Require Import base list strings sets.
From S2P Require Import Prelude UtlString UtlStringRefine NameValuePair NameValueTokenizer NameValueTokenizerSpec HttpMessage HttpMessageSpec.
From S2P Require Import Format Pcre PcreSpec UrlCodec Url UrlSyntax UrlSpec UrlSound UrlRoundtrip UrlTotal.
From S2P Require Import RouteStateMsg ProxyRoutes RouteTableSpec.
Local Open Scope Z_scope.

(** ** URIs in addr-spec form *)

(** What a request URI never has. *)
Definition undressed (u : Url) : Prop :=
  mDisplayName u = [] /\ mpFieldParameters u = None /\ mAngleBracketsIncluded u = false /\ mPasswordSet u = false.

Section AddrSpec.
Context (fill : nat -> ascii) `{Pcre pcre_exec}.

Lemma parse_user_keeps s u off u' off' : parse_user pcre_exec s u off = (u', off') ->
  mScheme u' = mScheme u /\ (undressed u -> undressed u').
Proof. unfold parse_user. case_decide; [|destruct (here _ _ _ _)]; intros E; inversion E; subst; done. Qed.

Lemma parse_host_keeps s u off u' off' : parse_host pcre_exec s u off = Ok (u', off') ->
  (undressed u -> undressed u') /\ (mScheme u = UnknownUrlScheme -> mScheme u' = UnknownUrlScheme)
  /\ (off <= off')%nat /\ (here pcre_exec HostAndPort s off = None -> mScheme u <> FileUrlScheme -> mScheme u' = UnknownUrlScheme).
Proof.
  unfold parse_host. destruct (here pcre_exec HostAndPort s off) as [m|] eqn:Eh.
  - destruct (match MatchString s m 2 with Some p => _ | None => _ end) as [port| | |]; try done. cbn [obind].
    intros [= <- <-]. split_and!; [|intros Hs; by rewrite decide_False by (simpl; by rewrite Hs)| |done].
    + intros Hd. case_decide; exact Hd.
    + by destruct (here_end (pcre_exec := pcre_exec) _ _ _ _ Eh).
  - intros [= <- <-]. split_and!; [| |done|].
    + intros (?&?&?&?). repeat case_decide; by split_and!.
    + intros Hs. rewrite (decide_False (P := mScheme u = FileUrlScheme)) by (by rewrite Hs). by rewrite decide_False.
    + intros _ Hf. rewrite (decide_False (P := mScheme u = FileUrlScheme)) by done. by rewrite decide_False.
Qed.

Lemma parse_path_keeps form after s u off u' off' : parse_path pcre_exec form after s u off = Ok (u', off') ->
  (undressed u -> undressed u') /\ mScheme u' = mScheme u
  /\ (mRawUrlParameters u' = mRawUrlParameters u \/ is_sip (mScheme u) = true /\ here pcre_exec UrlParams s off <> None).
Proof.
  unfold parse_path. destruct (has_path _); [|destruct (is_sip (mScheme u) && _) eqn:Es].
  - destruct (here _ _ _ _) as [m|]; [|intros E; inversion E; subst; by auto].
    destruct (AfterMatch m 1); try done. intros E. inversion E; subst. split_and!; [done|done|by left].
  - destruct (here pcre_exec UrlParams s off) as [m|] eqn:Eh; [|intros E; inversion E; subst; by auto].
    destruct (AfterMatch m 1); try done. intros E. inversion E; subst. apply andb_true_iff in Es as [Es _].
    split_and!; [done|done|by right].
  - intros E. inversion E; subst. by auto.
Qed.

Lemma parse_end_keeps form next s u off u' t : parse_end pcre_exec form next s u off = (u', t) ->
  (undressed u -> undressed u') /\ mRawUrlParameters u' = mRawUrlParameters u
  /\ (mScheme u' = mScheme u \/ mScheme u' = UnknownUrlScheme).
Proof. unfold parse_end. destruct (here _ _ _ _); intros E; inversion E; subst; auto. Qed.

(** The phases of an addr-spec, one after the other. *)
Lemma addr_spec_phases s next u t : parseString fill pcre_exec s AddrSpec next Url_default = Ok (u, t) ->
  exists sc off1 u1 off2 u2 off3, parse_scheme pcre_exec AddrSpec s 0 = (sc, off1)
    /\ parse_user pcre_exec s (set_scheme sc Url_default) (skip_slashes sc s off1) = (u1, off2)
    /\ parse_host pcre_exec s u1 off2 = Ok (u2, off3)
    /\ undressed u
    /\ (mRawUrlParameters u = [] \/ is_sip (mScheme u2) = true /\ here pcre_exec UrlParams s off3 <> None
        /\ (mScheme u = mScheme u2 \/ mScheme u = UnknownUrlScheme)).
Proof.
  unfold parseString. rewrite decide_True by done. cbn [obind].
  destruct (parse_scheme pcre_exec AddrSpec s 0) as [sc off1] eqn:E0.
  change (set_brackets false Url_default) with Url_default.
  destruct (parse_user pcre_exec s (set_scheme sc Url_default) (skip_slashes sc s off1)) as [u1 off2] eqn:E1.
  destruct (parse_host pcre_exec s u1 off2) as [[u2 off3]| | |] eqn:E2; try done. cbn [obind].
  destruct (parse_path pcre_exec AddrSpec None s u2 off3) as [[u3 off4]| | |] eqn:E3; try done. cbn [obind]. intros E.
  exists sc, off1, u1, off2, u2, off3. do 3 (split; [done|]).
  apply parse_user_lists in E1 as Hl1. apply parse_host_lists in E2 as Hl2.
  apply parse_user_keeps in E1 as [_ Hd1]. apply parse_host_keeps in E2 as (Hd2 & _). apply parse_path_keeps in E3 as (Hd3 & Hs3 & Hr3).
  assert (undressed u3) as Hd by (by apply Hd3, Hd2, Hd1).
  assert (mRawUrlParameters u2 = []) as Hr2 by (rewrite (proj1 Hl2), (proj1 Hl1); done). rewrite Hr2 in Hr3.
  assert (undressed u /\ mRawUrlParameters u = mRawUrlParameters u3 /\ (mScheme u = mScheme u3 \/ mScheme u = UnknownUrlScheme))
    as (Hdu & Hru & Hsu).
  { destruct (decide (mScheme u3 = UnknownUrlScheme)) as [Hun|Hun].
    - cbn [obind] in E. rewrite decide_True in E by done. inversion E; subst. auto.
    - unfold parse_headers, parse_fields in E.
      destruct (here pcre_exec HeaderOrQueryParams s off4) as [m|]; rewrite decide_False in E by done; cbn [obind] in E;
        rewrite decide_False in E by done;
        injection E as E; apply parse_end_keeps in E as (Hd4 & Hr4 & Hs4); (split; [by apply Hd4|]); (split; [done|]); done. }
  split; [done|]. rewrite Hru. rewrite Hs3 in Hsu. destruct Hr3 as [Hr3|[Hr3 Hh3]]; [by left|by right].
Qed.

(** ** Texts without parameters *)

Definition no_params (s : list ascii) : Prop :=
  forall u t, parseString fill pcre_exec s AddrSpec false Url_default = Ok (u, t) -> mRawUrlParameters u = [].

Lemma params_semicolon s off : here pcre_exec UrlParams s off <> None -> ";"%char ∈ drop off s.
Proof.
  intros Hh. destruct (here pcre_exec UrlParams s off) as [m|] eqn:E; [|done]. apply here_inv in E as (_ & _ & st & Hb & _).
  apply bt_consumes in Hb as (st1 & Hc & _). destruct (consumes_between _ _ _ Hc) as (w & Hw).
  destruct (takes_seq (PStar (PCls isspace)) (PSeq (PChr ";") (PGroup 1 (PPoss url_param_char))) w) as (a & b & -> & _ & Ht);
    [by exists (mkM off (drop off s) []), st1|].
  apply takes_seq in Ht as (c & d & -> & Hc2 & _). apply takes_chr in Hc2 as ->.
  destruct Hw as [Hw _]. cbn [m_rest] in Hw. rewrite Hw. set_solver.
Qed.

Lemma bare_bracket r : no_params ("<"%char :: r).
Proof.
  intros u t E. destruct (addr_spec_phases _ _ _ _ E) as (sc & off1 & u1 & off2 & u2 & off3 & E0 & E1 & E2 & _ & [Hr|(Hs & _)]); [done|].
  exfalso. unfold parse_scheme in E0. rewrite decide_True in E0 by done.
  rewrite (here_cannot_begin SupportedScheme [] ("<"%char :: r) eq_refl) in E0 by done. injection E0 as <- <-.
  change (skip_slashes UnrecognizableUrlScheme ("<"%char :: r) 0) with 0%nat in E1. unfold parse_user in E1.
  rewrite decide_False in E1 by done. rewrite (here_cannot_begin UsernameAndPassword [] ("<"%char :: r) eq_refl) in E1 by done.
  injection E1 as <- <-. apply parse_host_keeps in E2 as (_ & _ & _ & Hn). rewrite Hn in Hs; [done| |done].
  apply (here_cannot_begin HostAndPort [] ("<"%char :: r) eq_refl). done.
Qed.

Lemma bt_scheme_unknown r :
  bt SupportedScheme (mkM 0 (schemeName UnknownUrlScheme ++ ":"%char :: r) []) Some
  = Some (mkM 19 r [(1%nat, (0%nat, 18%nat))]).
Proof.
  unfold SupportedScheme. rewrite bt_seq. unfold SUPPORTED_SCHEMES. rewrite bt_alts, bt_group.
  rewrite (bt_liti (bytes "UNKNOWN-URL-SCHEME") _ _ (bytes "UNKNOWN-URL-SCHEME") (":"%char :: r)) by done.
  rewrite at_advance by done. unfold capture. cbn [m_pos m_rest m_caps]. by rewrite (bt_chr _ _ _ r).
Qed.

Lemma bare_unknown r : short (schemeName UnknownUrlScheme ++ ":"%char :: r) -> no_params (schemeName UnknownUrlScheme ++ ":"%char :: r).
Proof.
  intros Hsh u t E. destruct (addr_spec_phases _ _ _ _ E) as (sc & off1 & u1 & off2 & u2 & off3 & E0 & E1 & E2 & _ & [Hr|(Hs & _)]); [done|].
  exfalso. unfold parse_scheme in E0. rewrite decide_True in E0 by done.
  rewrite (here_start SupportedScheme _ (mkM 19 r [(1%nat, (0%nat, 18%nat))])) in E0; [|apply short_in; [done|set_solver]|apply bt_scheme_unknown].
  injection E0 as <- <-. apply parse_user_keeps in E1 as [Hk _]. apply parse_host_keeps in E2 as (_ & Hn & _).
  rewrite Hn in Hs; [done|]. by rewrite Hk.
Qed.

(** Characters of hosts, and of any part of an address. *)
Definition host_char : ascii -> bool := not_of [NUL; " "%char; ";"%char; "@"%char].
Definition line_char : ascii -> bool := not_of [NUL; " "%char].

Lemma host_name_chars h : h = [] \/ host_name h -> all host_char h.
Proof.
  assert (forall x, label_char x = true -> host_char x = true) as Hl by (intros x; all_bytes x; intros Hx; (done || discriminate Hx)).
  assert (forall d, domain d -> all host_char d) as Hd.
  { induction 1 as [l H1|l d H1 _ IH]; destruct (label_all l H1) as [_ H2].
    - eapply Forall_impl; [exact H2|exact Hl].
    - apply Forall_app. split; [eapply Forall_impl; [exact H2|exact Hl]|by constructor]. }
  intros [->|[[Hh|(a & -> & _ & Ha)]|(d & Hh & ->)]]; [constructor|by apply Hd| |].
  - constructor; [done|]. apply Forall_app. split; [|by repeat constructor].
    eapply Forall_impl; [exact Ha|]. intros x. all_bytes x; intros Hx; (done || discriminate Hx).
  - apply Forall_app. split; [by apply Hd|by repeat constructor].
Qed.

Lemma port_chars v : all host_char (port_part v).
Proof.
  unfold port_part. destruct (portIsValid (mHostPort v)) eqn:E; [|constructor]. constructor; [done|].
  destruct (port_digits _ E) as (_ & _ & Hd & _). eapply Forall_impl; [exact Hd|].
  intros x. all_bytes x; intros Hx; (done || discriminate Hx).
Qed.

Lemma user_part_chars v : user_text (mUserId v) -> password_text (mPassword v) -> all line_char (user_part v).
Proof.
  intros Hu Hp. unfold user_part.
  assert (forall u, hex_unit u -> all line_char u) as Hh.
  { intros u (a & b & -> & Ha & Hb). assert (forall x, isxdigit x = true -> line_char x = true) as Hx
      by (intros x; all_bytes x; intros Hx; (done || discriminate Hx)). repeat constructor; by apply Hx. }
  assert (all line_char (mUserId v)) as H1.
  { eapply units_all; [|apply Hh|exact Hu]. intros x. all_bytes x; intros Hx; (done || discriminate Hx). }
  assert (all line_char (mPassword v)) as H2.
  { eapply units_all; [|apply Hh|exact Hp]. intros x. all_bytes x; intros Hx; (done || discriminate Hx). }
  destruct (mUserId v) as [|x us]; [constructor|]. apply Forall_app. split; [done|]. apply Forall_app.
  split; [|by repeat constructor]. destruct (_ || _); [by constructor|constructor].
Qed.

Lemma char_absent (c : ascii -> bool) x l : c x = false -> all c l -> x ∉ l.
Proof. intros Hx Hl Hin. unfold all in Hl. rewrite Forall_forall in Hl. by rewrite Hl in Hx. Qed.

(** A bare address: a user may have semicolons, what follows it may not. *)
Lemma bare_address v : is_sip (mScheme v) = true -> user_text (mUserId v) -> password_text (mPassword v) ->
  (mUserId v = [] -> mPassword v = []) -> mHostAddress v = [] \/ host_name (mHostAddress v) ->
  let s := schemeName (mScheme v) ++ ":"%char :: user_part v ++ mHostAddress v ++ port_part v in short s -> no_params s.
Proof.
  intros Hsip Hu Hp Hup Hh s Hsh u t E.
  destruct (addr_spec_phases _ _ _ _ E) as (sc & off1 & u1 & off2 & u2 & off3 & E0 & E1 & E2 & _ & [Hr|(_ & Hsemi & _)]); [done|].
  exfalso. set (pre := schemeName (mScheme v) ++ [":"%char]).
  assert (parse_scheme pcre_exec AddrSpec s 0 = (mScheme v, length pre)) as E0'
    by exact (parse_scheme_text AddrSpec (mScheme v) [] (user_part v ++ mHostAddress v ++ port_part v) Hsh Hsip).
  rewrite E0 in E0'. injection E0' as -> ->.
  assert (skip_slashes (mScheme v) s (length pre) = length pre) as Esk by (unfold skip_slashes; by destruct (mScheme v)).
  rewrite Esk in E1. assert (s = pre ++ user_part v ++ mHostAddress v ++ port_part v) as Es by (unfold s, pre; assoc).
  assert (all host_char (mHostAddress v ++ port_part v)) as Hhp.
  { apply Forall_app. split; [by apply host_name_chars|apply port_chars]. }
  rewrite Es in E1, Hsh. rewrite parse_user_text in E1.
  - injection E1 as <- <-. apply parse_host_keeps in E2 as (_ & _ & Hle & _). apply params_semicolon in Hsemi.
    assert (exists k, drop off3 s = drop k (mHostAddress v ++ port_part v)) as (k & Ek).
    { exists (off3 - length (pre ++ user_part v))%nat. rewrite Es, app_assoc. by rewrite drop_app_ge. }
    rewrite Ek in Hsemi. apply (char_absent host_char ";"%char (drop k (mHostAddress v ++ port_part v))); [done| |done].
    by apply Forall_drop.
  - done.
  - simpl. by destruct (mScheme v).
  - done.
  - done.
  - done.
  - done.
  - intros Hnil. split; [by apply Hup|]. exists (mHostAddress v ++ port_part v), []. split; [by rewrite app_nil_r|].
    split; [by apply (char_absent host_char)|done].
Qed.
End AddrSpec.

(** ** Addresses of this proxy *)

Section Normalize.
Context (fill : nat -> ascii) `{Pcre pcre_exec} (aliases : list (list ascii)).

Lemma isMyHostAlias_ready u : ready u -> exists b u', isMyHostAlias aliases u = Ok (b, u') /\ ready u' /\ core u' = core u.
Proof.
  intros Hr. unfold isMyHostAlias. destruct (_ =? _); [|by eexists _, _]. case_bool_decide; [by eexists _, _|].
  destruct (getUrlParameter_ready (bytes "transport") 0 u Hr) as (v & u' & -> & Hr' & Hc & _). by eexists _, _.
Qed.

(** Whether a request URI is a loose route of this proxy, and the URI as it
    is then parsed. *)
Definition check_request (r : list ascii) : outcome (bool * Url) :=
  let! (u, _) := fromString fill pcre_exec r AddrSpec false Url_default in
  let! (lr, u) := getUrlParameter (bytes "lr") 0 u in
  match lr with Some _ => isMyHostAlias aliases u | None => Ok (false, u) end.

(** Whether a route leads to this proxy. *)
Definition check_route (r : list ascii) : outcome (bool * Url) :=
  let! (u, _) := fromString fill pcre_exec r NameAddr false Url_default in isMyHostAlias aliases u.

(** The members that make the address of a URI with url parameters. *)
Definition address_ok (u : Url) : Prop :=
  (is_sip (mScheme u) = true \/ mScheme u = UnknownUrlScheme) /\ user_text (mUserId u) /\ password_text (mPassword u)
  /\ (mHostAddress u = [] \/ host_name (mHostAddress u)).

Lemma core_members u u' : core u' = core u ->
  mScheme u' = mScheme u /\ mUserId u' = mUserId u /\ mPassword u' = mPassword u /\ mHostAddress u' = mHostAddress u
  /\ mHostPort u' = mHostPort u /\ (undressed u -> undressed u').
Proof.
  intros Hc. unfold undressed. pose proof (f_equal mScheme Hc). pose proof (f_equal mUserId Hc). pose proof (f_equal mPassword Hc).
  pose proof (f_equal mHostAddress Hc). pose proof (f_equal mHostPort Hc). pose proof (f_equal mDisplayName Hc) as Ed.
  pose proof (f_equal mpFieldParameters Hc) as Ef. pose proof (f_equal mAngleBracketsIncluded Hc) as Eb.
  pose proof (f_equal mPasswordSet Hc) as Ep. simpl in *. split_and!; try done. by rewrite Ed, Ef, Eb, Ep.
Qed.

Lemma core_address u u' : core u' = core u -> address_ok u -> address_ok u'.
Proof. intros (E1 & E2 & E3 & E4 & _)%core_members. unfold address_ok. by rewrite E1, E2, E3, E4. Qed.

Lemma undressed_quotable u : undressed u -> quotable u.
Proof. intros (_ & E & _). unfold quotable. rewrite E. constructor. Qed.

Lemma check_request_ready r : Z.of_nat (length r) <= ESCAPES_MAX ->
  exists b u, check_request r = Ok (b, u) /\ ready u /\ undressed u /\ (b = true -> address_ok u)
    /\ (no_params fill (pcre_exec := pcre_exec) (cstr r) -> b = false).
Proof.
  intros Hl. unfold check_request, fromString. change (reset Url_default) with Url_default. pose proof (length_cstr r).
  destruct (parse_sound fill (cstr r) AddrSpec false) as (u0 & t & E & Hs & _). rewrite E. cbn [obind].
  pose proof (parsed_ready fill _ _ _ _ _ (cstr_nul_free r) ltac:(lia) E Hs) as Hr0.
  destruct (getUrlParameter_ready (bytes "lr") 0 u0 Hr0) as (lr & u1 & -> & Hr1 & Hc1 & Hnone). cbn [obind].
  destruct (addr_spec_phases fill _ _ _ _ E) as (sc & off1 & v1 & off2 & v2 & off3 & _ & _ & _ & Hd & Hp).
  destruct (core_members _ _ Hc1) as (_ & _ & _ & _ & _ & Hd1).
  destruct lr as [v|].
  - destruct (isMyHostAlias_ready u1 Hr1) as (b & u3 & -> & Hr3 & Hc3). exists b, u3. split; [done|]. split; [done|].
    destruct (core_members _ _ Hc3) as (_ & _ & _ & _ & _ & Hd3). split; [by apply Hd3, Hd1|]. split.
    + intros _. apply (core_address _ _ Hc3), (core_address _ _ Hc1). destruct Hs. split_and!; try done.
      destruct Hp as [Hp|(Hp & _ & [->|Hp'])]; [exfalso|by left|by right]. by specialize (Hnone Hp (proj2 sn_params)).
    + intros Hn. by specialize (Hnone (Hn _ _ E) (proj2 (sn_params _ Hs))).
  - exists false, u1. split_and!; try done. by apply Hd1.
Qed.

Lemma check_route_ready r : Z.of_nat (length r) <= ESCAPES_MAX ->
  exists b u, check_route r = Ok (b, u) /\ ready u /\ (DQUOTE ∉ r -> quotable u).
Proof.
  intros Hl. unfold check_route, fromString. change (reset Url_default) with Url_default. pose proof (length_cstr r).
  destruct (parse_sound fill (cstr r) NameAddr false) as (u0 & t & E & Hs & _). rewrite E. cbn [obind].
  pose proof (parsed_ready fill _ _ _ _ _ (cstr_nul_free r) ltac:(lia) E Hs) as Hr0.
  destruct (isMyHostAlias_ready u0 Hr0) as (b & u1 & -> & Hr1 & Hc1). exists b, u1. split_and!; [done..|].
  intros Hq. apply (core_fields _ _ Hc1). apply (parse_within fill) in E; [|apply cstr_nul_free]. apply (wi_fields _ _ E).
  intros Hin. by apply elem_of_cstr in Hin.
Qed.

(** ** Taking lr off *)

Lemma cstr_app a b : nul_free a -> cstr (a ++ b) = a ++ cstr b.
Proof. induction 1 as [|c a Hc _ IH]; [done|]. simpl. rewrite decide_False by done. by rewrite IH. Qed.

Lemma line_chars (l : list ascii) : all line_char l -> nul_free l /\ Forall (fun c => c <> " "%char) l.
Proof. intros Hl. split; (eapply Forall_impl; [exact Hl|]); intros x Hx ->; by vm_compute in Hx. Qed.

Lemma prefix_request (a b : list ascii) : all line_char a -> cut (cstr (a ++ b)) = a ++ cut (cstr b).
Proof. intros [H1 H2]%line_chars. by rewrite cstr_app, cut_app. Qed.

Lemma bracket_request (b : list ascii) : cut (cstr ("<"%char :: b)) = "<"%char :: cut (cstr b).
Proof. exact (prefix_request ["<"%char] b ltac:(by repeat constructor)). Qed.

Lemma unknown_request (b : list ascii) :
  cut (cstr (schemeName UnknownUrlScheme ++ ":"%char :: b)) = schemeName UnknownUrlScheme ++ ":"%char :: cut (cstr b).
Proof. exact (prefix_request (schemeName UnknownUrlScheme ++ [":"%char]) b ltac:(by repeat constructor)). Qed.

(** What is printed without lr is a text without parameters: a bare address,
    or a text that no addr-spec begins with. *)
Lemma strip_text u u1 t u2 : ready u -> undressed u -> address_ok u ->
  removeUrlParameter (bytes "lr") u = Ok u1 -> toString pcre_exec u1 = Ok (t, u2) -> short (cut (cstr t)) ->
  ready u2 /\ no_params fill (pcre_exec := pcre_exec) (cut (cstr t)) /\ exists x w, cstr t = x :: w /\ x <> " "%char.
Proof.
  intros Hr Hd Ha E1 E2 Hsh. destruct (removeUrlParameter_ready (bytes "lr") u Hr) as (u1' & E1' & Hr1 & Hc1).
  rewrite E1 in E1'. injection E1' as <-. destruct (core_members _ _ Hc1) as (_ & _ & _ & _ & _ & Hd1). specialize (Hd1 Hd).
  apply (core_address _ _ Hc1) in Ha. destruct (toString_ready (pcre_exec := pcre_exec) u1 Hr1 (undressed_quotable _ Hd1))
    as (u2' & f & Hr2 & Hc2 & Ef & E2'). rewrite E2 in E2'. cbv zeta in E2'. injection E2' as Et <-.
  split; [done|]. destruct Hd1 as (Hdn & Hdf & Hdb & Hdp). rewrite Hdf in Ef. injection Ef as <-. rewrite Hdn, app_nil_r, app_nil_l in Et.
  destruct (core_members _ _ Hc2) as (Hs2 & _ & _ & _ & _ & Hd2). destruct (Hd2 ltac:(by split_and!)) as (Hn2 & Hf2 & Hb2 & _).
  destruct Ha as (Hsc & Hu & Hp & Hh).
  assert (address_text u1 = schemeName (mScheme u1) ++ ":"%char :: user_part u1 ++ mHostAddress u1 ++ port_part u1) as Ea.
  { unfold address_text, user_part, port_part. destruct Hsc as [Hsc|Hsc]; [|rewrite Hsc; cbn; rewrite app_nil_r; done].
    destruct (mScheme u1); try done; cbn; rewrite app_nil_r; done. }
  destruct Hsc as [Hsc|Hsc].
  - destruct (brackets_of u2) eqn:Eb; rewrite Et in *.
    + rewrite bracket_request. split; [exact (bare_bracket fill _)|]. exists "<"%char. eexists. split; [reflexivity|done].
    + unfold brackets_of in Eb. rewrite Hn2, Hf2, Hb2, Hs2, Hsc in Eb. cbn in Eb. apply orb_false_iff in Eb as [Ep Eh].
      assert (forall o, have o = false -> default [] o = []) as Hhave by (intros [[|p ps]|]; done).
      rewrite (Hhave _ Ep), (Hhave _ Eh) in *. cbn [mbind list_bind print_header_params] in *. rewrite !app_nil_r, Ea in *.
      set (v := if decide (mUserId u1 = []) then set_user [] [] false u1 else u1).
      assert (mScheme v = mScheme u1 /\ user_part v = user_part u1 /\ mHostAddress v = mHostAddress u1 /\ port_part v = port_part u1
        /\ user_text (mUserId v) /\ password_text (mPassword v) /\ (mUserId v = [] -> mPassword v = [])) as (V1 & V2 & V3 & V4 & V5 & V6 & V7).
      { unfold v. case_decide as Hnil; [|by split_and!]. split_and!; try done; [|constructor..].
        unfold user_part. simpl. by rewrite Hnil. }
      assert (all line_char (schemeName (mScheme u1) ++ ":"%char :: user_part u1 ++ mHostAddress u1 ++ port_part u1)) as Hline.
      { assert (forall l, all host_char l -> all line_char l) as Hhl
          by (intros l Hl; eapply Forall_impl; [exact Hl|]; intros x; all_bytes x; intros Hx; (done || discriminate Hx)).
        apply Forall_app. split; [destruct (mScheme u1); try done; by repeat constructor|]. constructor; [done|].
        apply Forall_app. split; [by apply user_part_chars|]. apply Forall_app. split; apply Hhl; [by apply host_name_chars|apply port_chars]. }
      destruct (line_chars _ Hline) as [Hl1 Hl2]. rewrite (cstr_id _ Hl1), (cut_id _ Hl2) in *. split.
      * rewrite <- V1, <- V2, <- V3, <- V4 in Hsh |- *. apply (bare_address fill v); try done; [by rewrite V1|by rewrite V3].
      * destruct (mScheme u1); try done; by eexists _, _.
  - assert (brackets_of u2 = false) as Eb by (unfold brackets_of; rewrite Hn2, Hf2, Hb2, Hs2, Hsc; done). rewrite Eb in Et.
    rewrite Ea, Hsc, <- app_assoc in Et. cbn [app] in Et. rewrite Et, unknown_request in Hsh. rewrite Et, unknown_request.
    split; [exact (bare_unknown fill _ Hsh)|]. exists "U"%char. eexists. split; [reflexivity|done].
Qed.

(** ** One round *)

Lemma fromString_fresh s form next u : ready u ->
  fromString fill pcre_exec s form next u = fromString fill pcre_exec s form next Url_default.
Proof. intros Hr. unfold fromString. by rewrite (ready_fresh u Hr). Qed.

Lemma round_check w b uc : ready (w_requestUri w) -> check_request (getRequestUri (w_msg w)) = Ok (b, uc) ->
  let m := w_msg w in
  normalize_round fill pcre_exec aliases w
  = if b then
      let! (found, lastRouteValue, lastRouteIndex) := getLastRouteUri (mNameValues m) in
      if found : bool then
        let! (l, lastRouteValue) := removeRouteUri fill (mNameValues m) lastRouteIndex lastRouteValue in
        let! m := changeUri fill pcre_exec (cstr lastRouteValue) (set_headers l m) in
        let! (removedRoutes, requestUri) := save_route pcre_exec (w_removedRoutes w) uc in
        Ok (false, mkWork m requestUri (w_topRouteUrl w) removedRoutes)
      else
        let! requestUri := removeUrlParameter (bytes "lr") uc in
        let! (newUri, requestUri) := toString pcre_exec requestUri in
        Ok (false, mkWork (changeRequestUri (cstr newUri) m) requestUri (w_topRouteUrl w) (w_removedRoutes w))
    else
      let! (top, topRouteValue) := getRouteUri (mNameValues m) 0 in
      if top : bool then
        let! (topRouteUrl, _) := fromString fill pcre_exec topRouteValue NameAddr false (w_topRouteUrl w) in
        let! (mine, topRouteUrl) := isMyHostAlias aliases topRouteUrl in
        if mine : bool then
          let! (removedRoutes, topRouteUrl) := save_route pcre_exec (w_removedRoutes w) topRouteUrl in
          let! (l, _) := removeRouteUri fill (mNameValues m) 0 [] in
          Ok (false, mkWork (set_headers l m) uc topRouteUrl removedRoutes)
        else Ok (true, mkWork m uc topRouteUrl (w_removedRoutes w))
      else Ok (true, mkWork m uc (w_topRouteUrl w) (w_removedRoutes w)).
Proof.
  intros Hr E. cbv zeta. unfold normalize_round. rewrite (fromString_fresh _ _ _ _ Hr). unfold check_request in E.
  destruct (fromString fill pcre_exec _ AddrSpec false Url_default) as [[u0 t]| | |]; try done. cbn [obind] in E |- *.
  destruct (getUrlParameter (bytes "lr") 0 u0) as [[lr u1]| | |]; try done. cbn [obind] in E |- *.
  destruct lr as [v|]; rewrite E; by destruct b.
Qed.

(** Texts that may become the request URI: the one there is, and the URIs of
    the routes. *)
Inductive may_become (m : SipMessage) (hs : list header) : list ascii -> Prop :=
| become_first : may_become m hs (getRequestUri m)
| become_route r r' u t u' : r ∈ routes_of hs -> r' = r \/ r' = keep_route r ->
    Url_of_string fill pcre_exec r' NameAddr = Ok u -> getUri u = Ok (t, u') -> may_become m hs (cut (cstr t)).

(** The text can be parsed, and what is left of it without lr is within the
    reach of the matcher. *)
Definition reachable (r : list ascii) : Prop :=
  Z.of_nat (length r) <= ESCAPES_MAX
  /\ forall u u1 t u2, check_request r = Ok (true, u) -> removeUrlParameter (bytes "lr") u = Ok u1 ->
       toString pcre_exec u1 = Ok (t, u2) -> short (cut (cstr t)) /\ Z.of_nat (length (cut (cstr t))) <= ESCAPES_MAX.

(** The first route, and whether it leads to this proxy. *)
Definition first_route_ours (hs : list header) : outcome bool :=
  match routes_of hs with
  | r :: _ => match frontBackTrim r (bytes " " ++ ["009"%char]) with
              | [] => Ok false
              | t => let! (b, _) := check_route t in Ok b
              end
  | [] => Ok false
  end.

Section Message.
Context (m0 : SipMessage) (hs0 : list header) (pre0 : list (list ascii)).
Context (Hquote : Forall (fun r => DQUOTE ∉ r) (routes_of hs0)) (Hreach : forall r, may_become m0 hs0 r -> reachable r).

(** How the routes are resolved: the request URI, the routes that are left and
    the texts that were recorded, from those of the request on.  A request
    URI that is a loose route of this proxy is recorded as it prints, and the
    last route takes its place; without routes it only loses lr.  A first
    route that leads to this proxy is recorded as it prints and taken off. *)
Inductive resolved : list ascii -> list (list ascii) -> list (list ascii) -> Prop :=
| resolved_none : resolved (getRequestUri m0) (routes_of hs0) []
| resolved_strict uri rs r rem u p u' v t v' :
    resolved uri (rs ++ [r]) rem -> check_request uri = Ok (true, u) -> toString pcre_exec u = Ok (p, u') ->
    Url_of_string fill pcre_exec r NameAddr = Ok v -> getUri v = Ok (t, v') ->
    resolved (cut (cstr t)) (keep_route <$> rs) (rem ++ [p])
| resolved_strip uri rem u u1 t u2 :
    resolved uri [] rem -> check_request uri = Ok (true, u) ->
    removeUrlParameter (bytes "lr") u = Ok u1 -> toString pcre_exec u1 = Ok (t, u2) ->
    resolved (cut (cstr t)) [] rem
| resolved_top uri r rs rem uc u p u' :
    resolved uri (r :: rs) rem -> check_request uri = Ok (false, uc) ->
    check_route (frontBackTrim r (bytes " " ++ ["009"%char])) = Ok (true, u) -> toString pcre_exec u = Ok (p, u') ->
    resolved uri (keep_route <$> rs) (rem ++ [p]).

Lemma resolved_length uri rs rem : resolved uri rs rem -> (length rem + length rs = length (routes_of hs0))%nat.
Proof. induction 1; rewrite ?length_app, ?length_fmap in *; simpl in *; lia. Qed.

(** What every round keeps: [rs] are the routes that are left of those that
    came, [k] is whether lr may still be taken off. *)
Record round_state (w : RouteWork) (hs : list header) (k : bool) : Prop := {
  st_table : table (mNameValues (w_msg w)) hs;
  st_fits : fits hs;
  st_line : request_line (w_msg w);
  st_method : method_of (w_msg w) = method_of m0;
  st_ready : ready (w_requestUri w) /\ ready (w_topRouteUrl w);
  st_segment : exists i n, keep_route <$> routes_of hs = keep_route <$> take n (drop i (routes_of hs0));
  st_routes : forall r, r ∈ routes_of hs -> exists r0, r0 ∈ routes_of hs0 /\ (r = r0 \/ r = keep_route r0);
  st_removed : exists rem, w_removedRoutes w = Some (pre0 ++ rem) /\ resolved (getRequestUri (w_msg w)) (routes_of hs) rem;
  st_others : forall n, n <> SIP_ROUTE_FIELD -> values_of n hs = values_of n hs0;
  st_uri : if k then may_become m0 hs0 (getRequestUri (w_msg w))
           else Z.of_nat (length (getRequestUri (w_msg w))) <= ESCAPES_MAX /\ nul_free (getRequestUri (w_msg w))
                /\ no_params fill (pcre_exec := pcre_exec) (getRequestUri (w_msg w)) }.

Lemma route_short hs r : readable hs -> r ∈ routes_of hs -> Z.of_nat (length r) <= 65536.
Proof.
  intros Hr Hin. unfold routes_of in Hin. induction Hr as [|v vs Hv _ IH]; [by apply elem_of_nil in Hin|].
  destruct v as [|c v]; cbn [flat] in Hin; [by apply elem_of_nil in Hin|]. apply elem_of_app in Hin as [Hin|Hin]; [|by apply IH].
  enough (length r <= length (c :: v))%nat by lia. apply list_elem_of_filter in Hin as [_ Hin]. clear -Hin.
  assert (forall t cur, Forall (fun f => (length f <= length cur + length t)%nat) (fields SIP_MULTIFIELD_SEPARATOR cur t)) as Hf.
  { induction t as [|x t IH]; intros cur; cbn [fields]; [constructor; [simpl; lia|constructor]|]. case_bool_decide.
    - assert (Forall (fun f => (length f <= length cur + length (x :: t))%nat) (fields SIP_MULTIFIELD_SEPARATOR [] t)) as Hn
        by (eapply Forall_impl; [apply (IH [])|]; simpl; intros; lia).
      destruct cur; [done|]. constructor; [simpl; lia|done].
    - eapply Forall_impl; [apply (IH (cur ++ [x]))|]. simpl. intros f Hf. rewrite length_app in Hf. simpl in Hf. lia. }
  specialize (Hf (c :: v) []). rewrite Forall_forall in Hf. by apply Hf.
Qed.

Lemma elem_of_frontBackTrim x l ws : x ∈ frontBackTrim l ws -> x ∈ l.
Proof.
  assert (forall l pos n, x ∈ spec_op (ORemoveN pos n) l -> x ∈ l) as Hr.
  { intros l' pos n. cbn [spec_op]. destruct (_ <=? _); [|done]. intros [(j & Hj & _)%elem_of_take|Hin]%elem_of_app;
      [by apply list_elem_of_lookup_2 in Hj|]. apply list_elem_of_lookup_1 in Hin as (j & Hj).
    rewrite lookup_drop in Hj. by apply list_elem_of_lookup_2 in Hj. }
  unfold frontBackTrim, backTrim, frontTrim. repeat (destruct (_ <? _)); eauto.
Qed.

Lemma round_route_facts w hs k r : round_state w hs k -> r ∈ routes_of hs -> DQUOTE ∉ r /\ nul_free r.
Proof.
  intros Hw Hin. split.
  - destruct (st_routes _ _ _ Hw r Hin) as (r0 & Hr0 & Hor). rewrite Forall_forall in Hquote. specialize (Hquote r0 Hr0).
    destruct Hor as [->| ->]; [done|]. unfold keep_route. case_bool_decide; [done|]. set_solver.
  - pose proof (routes_nul_free _ _ (st_table _ _ _ Hw)) as Hf. rewrite Forall_forall in Hf. by apply Hf.
Qed.

Lemma save_route_total rem u : ready u -> quotable u ->
  exists p u', save_route pcre_exec (Some rem) u = Ok (Some (rem ++ [p]), u') /\ ready u' /\ toString pcre_exec u = Ok (p, u').
Proof.
  intros Hr Hq. unfold save_route. destruct (toString_ready (pcre_exec := pcre_exec) u Hr Hq) as (u' & f & Hr' & _ & _ & ->).
  cbn [obind]. by eexists _, _.
Qed.

Lemma printed_uri_head u t u' : ready u -> getUri u = Ok (t, u') -> exists x w, cstr t = x :: w /\ x <> " "%char.
Proof.
  intros Hr E. destruct (getUri_ready u Hr) as (u2 & E2 & _). rewrite E in E2. injection E2 as -> _. unfold address_text.
  destruct (mScheme u); rewrite <- !app_assoc; eexists _, _; (split; [reflexivity|done]).
Qed.

Lemma changeUri_spec r m : Z.of_nat (length r) <= ESCAPES_MAX -> request_line m ->
  exists m' u t u', changeUri fill pcre_exec r m = Ok m' /\ Url_of_string fill pcre_exec r NameAddr = Ok u /\ getUri u = Ok (t, u')
    /\ getRequestUri m' = cut (cstr t) /\ method_of m' = method_of m /\ mNameValues m' = mNameValues m.
Proof.
  intros Hl Hm. destruct (Url_of_string_ready fill (pcre_exec := pcre_exec) r NameAddr Hl) as (u & Eu & _ & Hr & _).
  destruct (getUri_ready u Hr) as (u' & Et & _). unfold changeUri. rewrite Eu. cbn [obind]. rewrite Et. cbn [obind].
  set (t := _ ++ _) in Et |- *. destruct (printed_uri_head u t u' Hr Et) as (x & w & Ex & Hx). rewrite Ex.
  destruct (changeRequestUri_parts m x w Hm) as (H1 & H2 & H3); [rewrite <- Ex; apply cstr_nul_free|done|].
  eexists _, u, t, u'. split; [done|]. split; [done|]. split; [done|]. by rewrite Ex.
Qed.

Lemma segment_tail (f : list ascii -> list ascii) a rs R i n :
  f <$> a :: rs = f <$> take n (drop i R) -> f <$> rs = f <$> take (n - 1) (drop (S i) R).
Proof.
  intros E. destruct n as [|n]; [done|]. rewrite Nat.sub_succ, Nat.sub_0_r. replace (S i) with (i + 1)%nat by lia.
  rewrite <- drop_drop. destruct (drop i R) as [|b R']; [done|]. cbn [take drop] in *. rewrite !fmap_cons in E. by injection E.
Qed.

Lemma segment_init (f : list ascii -> list ascii) a rs R i n :
  f <$> rs ++ [a] = f <$> take n (drop i R) -> exists n', f <$> rs = f <$> take n' (drop i R).
Proof.
  intros E. exists (Nat.min (length rs) n). apply (f_equal (take (length rs))) in E.
  rewrite fmap_app in E. rewrite <- (length_fmap f rs) in E at 1. rewrite take_app_length in E. rewrite E.
  by rewrite <- fmap_take, take_take.
Qed.

(** The routes after one was taken off, as far as the invariant says. *)
Lemma routes_kept w hs k hs' i : round_state w hs k -> routes_of hs' = keep_route <$> delete i (routes_of hs) ->
  forall r, r ∈ routes_of hs' -> exists r0, r0 ∈ routes_of hs0 /\ (r = r0 \/ r = keep_route r0).
Proof.
  intros Hw E r Hin. rewrite E in Hin. apply list_elem_of_fmap in Hin as (r1 & -> & Hin).
  assert (r1 ∈ routes_of hs) as Hin1.
  { clear -Hin. revert i Hin. generalize (routes_of hs). intros l. induction l as [|x l IH]; intros [|i] Hin; simpl in Hin; try done;
      [by right|]. apply elem_of_cons in Hin as [->|Hin]; [by left|right; by apply (IH i)]. }
  destruct (st_routes _ _ _ Hw r1 Hin1) as (r0 & Hr0 & Hor). exists r0. split; [done|]. right.
  destruct Hor as [->| ->]; [done|]. apply keep_route_idemp.
Qed.

(** A strict route: the last route becomes the request URI. *)
Lemma round_strict w hs uc rs r : round_state w hs true -> check_request (getRequestUri (w_msg w)) = Ok (true, uc) ->
  ready uc -> undressed uc -> routes_of hs = rs ++ [r] ->
  exists w' hs', normalize_round fill pcre_exec aliases w = Ok (false, w') /\ round_state w' hs' true
    /\ routes_of hs' = keep_route <$> rs.
Proof.
  intros Hw Ec Hr Hd Ers. pose proof Hw as []. destruct st_ready0 as [Hr1 Hr2].
  rewrite (round_check w true uc Hr1 Ec). destruct st_removed0 as (rem & Erem & Hlen).
  rewrite (getLastRouteUri_spec _ _ st_table0 st_fits0), Ers, last_snoc. cbn [obind].
  assert (r ∈ routes_of hs) as Hin by (rewrite Ers; set_solver).
  replace (Z.of_nat (length (rs ++ [r])) - 1) with (Z.of_nat (length rs)) by (rewrite length_app; simpl; lia).
  destruct (removeRouteUri_spec fill _ _ (length rs) r st_table0 st_fits0) as (l' & hs' & -> & Ht' & Hf' & Hr' & Ho'). cbn [obind].
  rewrite Ers, list_lookup_middle by done. change (default r (Some r)) with r.
  destruct (round_route_facts _ _ _ _ Hw Hin) as [_ Hnr]. pose proof (route_short hs r (proj1 st_fits0) Hin) as Hsr.
  rewrite (cstr_id _ Hnr).
  destruct (changeUri_spec r (set_headers l' (w_msg w))) as (m' & u & t & u' & -> & Eu & Et & Hu & Hm & Hn);
    [unfold ESCAPES_MAX; lia|exact st_line0|]. cbn [obind].
  rewrite Erem. destruct (save_route_total (pre0 ++ rem) uc Hr (undressed_quotable _ Hd)) as (p & u4 & -> & Hr4 & Ep). cbn [obind].
  rewrite Ers, delete_middle, app_nil_r in Hr'. eexists _, hs'. split; [done|]. split; [|done].
  split; cbn [w_msg w_requestUri w_topRouteUrl w_removedRoutes].
  - rewrite Hn. exact Ht'.
  - done.
  - unfold request_line. rewrite Hm. exact st_line0.
  - rewrite Hm. exact st_method0.
  - done.
  - destruct st_segment0 as (i & n & Eseg). rewrite Ers in Eseg. destruct (segment_init _ _ _ _ _ _ Eseg) as (n' & E').
    exists i, n'. by rewrite Hr', keep_routes_idemp.
  - apply (routes_kept w hs true hs' (length rs) Hw). by rewrite Ers, delete_middle, app_nil_r.
  - exists (rem ++ [p]). split; [by rewrite app_assoc|]. rewrite Hr', Hu. rewrite Ers in Hlen. by eapply resolved_strict.
  - intros n Hne. by rewrite Ho', st_others0.
  - rewrite Hu. destruct (st_routes0 r Hin) as (r0 & Hr0 & Hor). exact (become_route m0 hs0 r0 r u t u' Hr0 Hor Eu Et).
Qed.

(** lr in the request URI and no route: lr is taken off. *)
Lemma round_strip w hs uc : round_state w hs true -> check_request (getRequestUri (w_msg w)) = Ok (true, uc) ->
  ready uc -> undressed uc -> address_ok uc -> routes_of hs = [] ->
  exists w', normalize_round fill pcre_exec aliases w = Ok (false, w') /\ round_state w' hs false.
Proof.
  intros Hw Ec Hr Hd Ha Ers. pose proof Hw as []. destruct st_ready0 as [Hr1 Hr2].
  rewrite (round_check w true uc Hr1 Ec). rewrite (getLastRouteUri_spec _ _ st_table0 st_fits0), Ers. cbn [last obind].
  destruct (removeUrlParameter_ready (bytes "lr") uc Hr) as (u1 & E1 & Hr3 & Hc1). rewrite E1. cbn [obind].
  destruct (core_members _ _ Hc1) as (_ & _ & _ & _ & _ & Hd1).
  destruct (toString_ready (pcre_exec := pcre_exec) u1 Hr3 (undressed_quotable _ (Hd1 Hd))) as (u2 & f & _ & _ & _ & E2). cbv zeta in E2.
  rewrite E2. cbn [obind]. set (t := _ ++ _) in E2 |- *. destruct (Hreach _ st_uri0) as [_ Hsh].
  destruct (Hsh _ _ _ _ Ec E1 E2) as [Hs1 Hs2].
  destruct (strip_text uc u1 t u2 Hr Hd Ha E1 E2 Hs1) as (Hru & Hno & x & v & Ex & Hx).
  destruct (changeRequestUri_parts (w_msg w) x v st_line0) as (H1 & H2 & H3); [rewrite <- Ex; apply cstr_nul_free|done|].
  rewrite <- Ex in H1, H2, H3. eexists. split; [done|].
  split; cbn [w_msg w_requestUri w_topRouteUrl w_removedRoutes]; try done.
  - unfold request_line. by rewrite H2.
  - by rewrite H2.
  - destruct st_removed0 as (rem & Erem & Hrem). exists rem. split; [done|]. rewrite H1, Ers in *. by eapply resolved_strip.
  - rewrite H1. split; [done|]. split; [|done]. unfold cut. destruct (span_parts (cstr t)) as (E & _ & _).
    pose proof (cstr_nul_free t) as Hn. rewrite E in Hn. by apply Forall_app in Hn as [? _].
Qed.

(** The request URI is settled: the first route is taken off if it is ours. *)
Lemma round_top w hs k uc : round_state w hs k -> check_request (getRequestUri (w_msg w)) = Ok (false, uc) -> ready uc ->
  (exists w' hs' r rs, normalize_round fill pcre_exec aliases w = Ok (false, w') /\ routes_of hs = r :: rs /\ round_state w' hs' k
     /\ routes_of hs' = keep_route <$> rs)
  \/ exists w', normalize_round fill pcre_exec aliases w = Ok (true, w') /\ w_msg w' = w_msg w /\ w_requestUri w' = uc
       /\ w_removedRoutes w' = w_removedRoutes w /\ first_route_ours hs = Ok false.
Proof.
  intros Hw Ec Hr. pose proof Hw as []. destruct st_ready0 as [Hr1 Hr2].
  rewrite (round_check w false uc Hr1 Ec), (getRouteUri_first _ _ st_table0 st_fits0). unfold first_route_ours.
  destruct (routes_of hs) as [|r rs] eqn:Ers; [right; by eexists|]. cbv zeta. cbn [obind].
  set (t := frontBackTrim r _). destruct (decide (t = [])) as [Et|Et].
  { right. rewrite Et, bool_decide_true by done. by eexists. }
  rewrite bool_decide_false by done. cbn [negb]. assert (r ∈ routes_of hs) as Hin by (rewrite Ers; set_solver).
  pose proof (route_short hs r (proj1 st_fits0) Hin) as Hsr. pose proof (length_frontBackTrim r (bytes " " ++ ["009"%char])) as Hst. fold t in Hst.
  destruct (check_route_ready t) as (b & u & Eb & Hru & Hq); [unfold ESCAPES_MAX; lia|].
  rewrite (fromString_fresh _ _ _ _ Hr2). pose proof Eb as Eb2. unfold check_route in Eb2.
  destruct (fromString fill pcre_exec t NameAddr false Url_default) as [[u0 x]| | |]; try done. cbn [obind] in Eb2 |- *.
  rewrite Eb2. cbn [obind]. destruct b.
  - left. destruct st_removed0 as (rem & Erem & Hlen). rewrite Erem.
    destruct (save_route_total (pre0 ++ rem) u Hru) as (p & u4 & -> & Hr4 & Ep).
    { apply Hq. intros Hx%elem_of_frontBackTrim. by destruct (round_route_facts _ _ _ _ Hw Hin) as [Hd _]. }
    cbn [obind]. destruct (removeRouteUri_spec fill _ _ 0 [] st_table0 st_fits0) as (l' & hs' & E & Ht' & Hf' & Hr' & Ho').
    change (Z.of_nat 0) with 0 in E. rewrite E. cbn [obind]. clear E. rewrite Ers in Hr'. cbn [delete list_delete] in Hr'.
    eexists _, hs', r, rs. split; [done|]. split; [done|]. split; [|done].
    split; cbn [w_msg w_requestUri w_topRouteUrl w_removedRoutes]; try done.
    + destruct st_segment0 as (i & n & Eseg). exists (S i), (n - 1)%nat. rewrite Hr', keep_routes_idemp.
      by apply (segment_tail _ r).
    + apply (routes_kept w hs k hs' 0 Hw). by rewrite Ers.
    + exists (rem ++ [p]). split; [by rewrite app_assoc|]. rewrite Hr'. by eapply resolved_top.
    + intros n Hne. by rewrite Ho', st_others0.
  - right. eexists. split; [done|]. split_and!; try done. destruct t as [|c t]; [done|]. by rewrite Eb.
Qed.

(** ** The loop *)

Lemma round_progress w hs k : round_state w hs k -> exists b w1,
  normalize_round fill pcre_exec aliases w = Ok (b, w1)
  /\ if b : bool then w_msg w1 = w_msg w /\ w_removedRoutes w1 = w_removedRoutes w
       /\ check_request (getRequestUri (w_msg w1)) = Ok (false, w_requestUri w1) /\ first_route_ours hs = Ok false
     else exists hs1 k1, round_state w1 hs1 k1
       /\ (length (routes_of hs1) + (if k1 : bool then 1 else 0) < length (routes_of hs) + (if k : bool then 1 else 0))%nat.
Proof.
  intros Hw.
  assert (Z.of_nat (length (getRequestUri (w_msg w))) <= ESCAPES_MAX) as Hl.
  { pose proof (st_uri _ _ _ Hw) as Hu. destruct k; [by apply Hreach|by destruct Hu]. }
  destruct (check_request_ready _ Hl) as (b & uc & Ec & Hr & Hd & Ha & Hno). destruct b.
  - assert (k = true) as ->.
    { pose proof (st_uri _ _ _ Hw) as Hu. destruct k; [done|]. destruct Hu as (_ & Hn & Hnp). rewrite (cstr_id _ Hn) in Hno. by apply Hno in Hnp. }
    destruct (routes_of hs) as [|x xs] eqn:Ers.
    + destruct (round_strip w hs uc Hw Ec Hr Hd (Ha eq_refl) Ers) as (w1 & E & Hw1). exists false, w1. split; [done|].
      exists hs, false. split; [done|]. rewrite Ers. simpl. lia.
    + destruct (exists_last (l := x :: xs) ltac:(done)) as (rs & r & El). rewrite El in Ers.
      destruct (round_strict w hs uc rs r Hw Ec Hr Hd Ers) as (w1 & hs1 & E & Hw1 & Hr1). exists false, w1. split; [done|].
      exists hs1, true. split; [done|]. rewrite Hr1, length_fmap, El, length_app. simpl. lia.
  - destruct (round_top w hs k uc Hw Ec Hr) as [(w1 & hs1 & r & rs & E & Ers & Hw1 & Hr1)|(w1 & E & Em & Eu & Er & Ef)].
    + exists false, w1. split; [done|]. exists hs1, k. split; [done|]. rewrite Hr1, Ers, length_fmap. simpl. lia.
    + exists true, w1. split; [done|]. rewrite Em, Eu. done.
Qed.

Lemma normalize_loop_ends fuel : forall w hs k, round_state w hs k -> (length (routes_of hs) + (if k : bool then 1 else 0) <= fuel)%nat ->
  exists w' wl hs' k', normalize_loop fill pcre_exec fuel aliases w = Ok w' /\ round_state wl hs' k'
    /\ w_msg w' = w_msg wl /\ w_removedRoutes w' = w_removedRoutes wl
    /\ check_request (getRequestUri (w_msg w')) = Ok (false, w_requestUri w') /\ first_route_ours hs' = Ok false.
Proof.
  induction fuel as [|fuel IH]; intros w hs k Hw Hf; destruct (round_progress w hs k Hw) as (b & w1 & E & Hb); cbn [normalize_loop];
    rewrite E; cbn [obind]; destruct b.
  - exists w1, w, hs, k. done.
  - destruct Hb as (hs1 & k1 & Hw1 & Hlt). lia.
  - exists w1, w, hs, k. done.
  - destruct Hb as (hs1 & k1 & Hw1 & Hlt). apply (IH w1 hs1 k1 Hw1). lia.
Qed.
End Message.

(** C8: Route processing ends, without undefined behaviour, for every request
    line and every set of Route headers whose routes have no double quotes
    and whose texts are short enough for their parsers ([fits], [reachable]).
    What it leaves and records is what resolving the routes one after the
    other gives ([resolved]): the texts recorded are, in order, the printed
    URLs of this proxy that were resolved, the request URI of a strict route,
    whose place the last route takes, or the first route.  At the end the
    request URI is no loose route of this proxy and the URI returned is what
    it parses to, the first route does not lead to this proxy, one text is
    recorded for each route that left the headers, those that are left are a
    segment of the ones that came, and the method and all other headers are
    as they were. *)
Theorem normalize_ends m hs :
  table (mNameValues m) hs -> fits hs -> request_line m -> Forall (fun r => DQUOTE ∉ r) (routes_of hs) ->
  (forall r, may_become m hs r -> reachable r) ->
  exists m' u removed hs', normalizeProxyRoutes fill pcre_exec aliases m Url_default (Some []) = Ok (m', u, Some removed)
    /\ table (mNameValues m') hs'
    /\ check_request (getRequestUri m') = Ok (false, u) /\ first_route_ours hs' = Ok false
    /\ resolved m hs (getRequestUri m') (routes_of hs') removed
    /\ (length removed + length (routes_of hs') = length (routes_of hs))%nat
    /\ (exists i n, keep_route <$> routes_of hs' = keep_route <$> take n (drop i (routes_of hs)))
    /\ method_of m' = method_of m
    /\ forall n, n <> SIP_ROUTE_FIELD -> values_of n hs' = values_of n hs.
Proof.
  intros Ht Hf Hl Hq Hreach. unfold normalizeProxyRoutes. pose proof (routes_count _ _ Ht) as Hc.
  assert (ready Url_default) as Hd by (split; simpl; (split; [constructor|done])).
  destruct (normalize_loop_ends m hs [] Hq Hreach (table_size (mNameValues m) + 2) (mkWork m Url_default Url_default (Some [])) hs true)
    as (w' & wl & hs' & k' & -> & [] & Em & Er & Hreq & Htop); [|lia|].
  - split; simpl; try done; [exists 0%nat, (length (routes_of hs)); by rewrite drop_0, firstn_all|by intros r Hr; exists r; auto|exists []; split; [done|constructor]|constructor].
  - cbn [obind]. destruct st_removed0 as (rem & Erem & Hlen). rewrite app_nil_l in Erem. rewrite Er, Erem.
    rewrite <- Em in *. eexists _, _, _, hs'. split; [done|]. split_and!; try done. by eapply resolved_length.
Qed.
End Normalize.

(** ** Examples and witnesses *)

Definition demo_aliases : list (list ascii) := [bytes "me.com:5060"].

Definition run_routes (line : string) (routes : list string) : outcome (SipMessage * Url * option (list (list ascii))) :=
  normalizeProxyRoutes zero_fill search demo_aliases
    (mkMsg (bytes line) (pair_of <$> ((fun r => (SIP_ROUTE_FIELD, q r)) <$> routes))) Url_default (Some []).

(** The two examples in the comments of normalizeProxyRoutes. *)
Example strict_route_undone : exists m u,
  run_routes "INVITE sip:me.com;lr SIP/2.0" ["<sip:proxy.example.com;lr>, <sip:user@elsewhere.example.com>"]%string
  = Ok (m, u, Some [bytes "<sip:me.com;lr>"])
  /\ mFirstHeaderLine m = bytes "INVITE sip:user@elsewhere.example.com SIP/2.0"
  /\ getRouteUri (mNameValues m) 0 = Ok (true, bytes "<sip:proxy.example.com;lr>") /\ getRouteUri (mNameValues m) 1 = Ok (false, []).
Proof. eexists _, _. split; [vm_compute; reflexivity|]. split_and!; vm_compute; reflexivity. Qed.

Example own_route_popped : exists m u,
  run_routes "INVITE sip:user@elsewhere.example.com SIP/2.0" ["<sip:me.com;lr>, <sip:proxy.example.com;lr>"]%string
  = Ok (m, u, Some [bytes "<sip:me.com;lr>"])
  /\ mFirstHeaderLine m = bytes "INVITE sip:user@elsewhere.example.com SIP/2.0"
  /\ getRouteUri (mNameValues m) 0 = Ok (true, bytes "<sip:proxy.example.com;lr>") /\ getRouteUri (mNameValues m) 1 = Ok (false, []).
Proof. eexists _, _. split; [vm_compute; reflexivity|]. split_and!; vm_compute; reflexivity. Qed.

(** A request URI with lr and another parameter, and no route, is written
    back with angle brackets into the request line, which is not a request
    URI any more: the URI that is returned has no known scheme. *)
Theorem stripped_uri_in_brackets : exists m u,
  run_routes "INVITE sip:me.com;transport=tcp;lr SIP/2.0" [] = Ok (m, u, Some [])
  /\ mFirstHeaderLine m = bytes "INVITE <sip:me.com;transport=tcp> SIP/2.0" /\ mScheme u = UnknownUrlScheme.
Proof. eexists _, _. split; [vm_compute; reflexivity|]. split_and!; vm_compute; reflexivity. Qed.

(** A Route header to this proxy with an escaped quote in a field parameter
    reaches the undefined behaviour of gen_value_escape. *)
Lemma quoted_route_is_ub : run_routes "INVITE sip:a@b SIP/2.0" ["<sip:me.com;lr>;x=#a\\#b#"]%string = UB.
Proof. vm_compute. reflexivity. Qed.

Definition demo_request : SipMessage :=
  mkMsg (bytes "INVITE sip:me.com;lr SIP/2.0") (pair_of <$> [(SIP_ROUTE_FIELD, bytes "<sip:p.com;lr>,<sip:u@e.com>")]).
Definition demo_request_headers : list header := [(SIP_ROUTE_FIELD, bytes "<sip:p.com;lr>,<sip:u@e.com>")].

Lemma demo_request_table : table (mNameValues demo_request) demo_request_headers.
Proof.
  split; [apply pairs_of|];
    repeat (apply Forall_cons_2; [apply (bool_decide_unpack _); vm_compute; exact I|]); apply Forall_nil_2.
Qed.

(** A concrete text is reachable when these evaluate. *)
Lemma reachable_by_computation aliases r :
  (length r <=? 1000)%nat
  && match check_request zero_fill (pcre_exec := search) aliases r with
     | Ok (true, u) => match (let! u1 := removeUrlParameter (bytes "lr") u in toString search u1) with
                       | Ok (t, _) => (length (cut (cstr t)) <=? 1000)%nat | _ => true end
     | _ => true end = true ->
  reachable zero_fill (H := search_Pcre 1000) aliases r.
Proof.
  intros [Hl Hc]%andb_true_iff. apply Nat.leb_le in Hl. split; [unfold ESCAPES_MAX; lia|]. intros u u1 t u2 E1 E2 E3.
  rewrite E1, E2 in Hc. cbn [obind] in Hc. rewrite E3 in Hc. apply Nat.leb_le in Hc.
  split; [by apply short_of|unfold ESCAPES_MAX; lia].
Qed.

Lemma normalize_ends_witness :
  exists m' u removed hs', normalizeProxyRoutes zero_fill search demo_aliases demo_request Url_default (Some []) = Ok (m', u, Some removed)
    /\ table (mNameValues m') hs' /\ getRequestUri m' = bytes "sip:u@e.com" /\ removed = [bytes "<sip:me.com;lr>"]
    /\ routes_of hs' = [bytes "<sip:p.com;lr>"]
    /\ resolved zero_fill (pcre_exec := search) demo_aliases demo_request demo_request_headers
         (bytes "sip:u@e.com") [bytes "<sip:p.com;lr>"] [bytes "<sip:me.com;lr>"].
Proof.
  destruct (normalize_ends zero_fill (H := search_Pcre 1000) demo_aliases demo_request demo_request_headers)
    as (m' & u & removed & hs' & E & Ht & _ & _ & Hres & _).
  - exact demo_request_table.
  - split; [apply Forall_singleton; vm_compute; discriminate|vm_compute; discriminate].
  - vm_compute. discriminate.
  - change (routes_of demo_request_headers) with [bytes "<sip:p.com;lr>"; bytes "<sip:u@e.com>"].
    repeat (apply Forall_cons_2; [apply (bool_decide_unpack _); vm_compute; exact I|]). apply Forall_nil_2.
  - intros r [|r1 r2 u t u' Hr [->| ->] Eu Et].
    + apply reachable_by_computation. vm_compute. reflexivity.
    + change (routes_of demo_request_headers) with [bytes "<sip:p.com;lr>"; bytes "<sip:u@e.com>"] in Hr.
      apply elem_of_cons in Hr as [->|[->|[]%elem_of_nil]%elem_of_cons]; vm_compute in Eu; injection Eu as <-; vm_compute in Et;
        injection Et as <- _; apply reachable_by_computation; vm_compute; reflexivity.
    + change (routes_of demo_request_headers) with [bytes "<sip:p.com;lr>"; bytes "<sip:u@e.com>"] in Hr.
      apply elem_of_cons in Hr as [->|[->|[]%elem_of_nil]%elem_of_cons]; vm_compute in Eu; injection Eu as <-; vm_compute in Et;
        injection Et as <- _; apply reachable_by_computation; vm_compute; reflexivity.
  - exists m', u, removed, hs'. split; [exact E|]. split; [exact Ht|]. vm_compute in E. injection E as <- <- <-.
    split; [reflexivity|]. split; [reflexivity|].
    enough (routes_of hs' = [bytes "<sip:p.com;lr>"]) as Hrs by (split; [exact Hrs|rewrite Hrs in Hres; exact Hres]).
    assert (table (mNameValues (mkMsg (bytes "INVITE sip:u@e.com SIP/2.0") (pair_of <$> [(SIP_ROUTE_FIELD, bytes "<sip:p.com;lr>")]))) hs') as Ht'
      by exact Ht.
    clear -Ht'. destruct Ht' as [Hf _]. inversion Hf as [|nv h l hs [Hn [Hv (tl & Hs)]] Hf']; subst. inversion Hf'; subst.
    destruct h as [a b]. simpl in *. subst a. injection Hs as Hs.
    assert (b = bytes "<sip:p.com;lr>") as ->; [|reflexivity].
    apply (f_equal cstr) in Hs. rewrite cstr_app_nul in Hs by done. by vm_compute in Hs.
Defined.
