(* ===== verification/ProxyDialogSpec.v ===== *)
(** * A request of a dialog at the proxy

    The composition of route processing and dialog state: a request that
    carries the route this proxy recorded (RouteState::update, RouteStateMsg)
    has it taken off by normalizeProxyRoutes, and the RouteState made from the
    routes that were taken off has the recorded parameters. *)
From Stdlib Require Import ZArith Lia Ascii String.
From stdpp Require Import base list strings gmap sets.
From S2P Require Import Prelude UtlString UtlStringRefine NetBase64Codec NetBase64CodecSpec NetMd5Codec NameValuePair.
From S2P Require Import RouteState RouteStateSpec NameValueTokenizer NameValueTokenizerSpec HttpMessage HttpMessageSpec.
From S2P Require Import Format Pcre PcreSpec UrlCodec Url UrlSyntax UrlSpec UrlSound UrlRoundtrip UrlTotal.
From S2P Require Import RouteStateMsg RouteStateMsgSpec ProxyRoutes RouteTableSpec ProxyRoutesSpec.
Local Open Scope Z_scope.

(** ** Parsing parameters on demand changes no text *)

Lemma parseUrlParameters_again u u' : parseUrlParameters u = Ok u' -> parseUrlParameters u' = Ok u'.
Proof.
  unfold parseUrlParameters. destruct (mpUrlParameters u) eqn:E1; [intros [= <-]; by rewrite E1|].
  destruct (mRawUrlParameters u) as [|c r] eqn:E2; [intros [= <-]; by rewrite E1, E2|].
  destruct (parseCgiVariables _ _ _); try done. by intros [= <-].
Qed.

Section Dialog.
Context `{Base64SearchLaws} `{RouteSearchLaws} (fill : nat -> ascii) `{Pcre pcre_exec} (aliases : list (list ascii)).

Lemma alias_text u b u' : isMyHostAlias aliases u = Ok (b, u') -> toString pcre_exec u' = toString pcre_exec u.
Proof.
  unfold isMyHostAlias. destruct (_ =? _); [|by intros [= _ <-]]. case_bool_decide; [by intros [= _ <-]|].
  unfold getUrlParameter. destruct (parseUrlParameters u) as [u1| | |] eqn:E; try done. cbn [obind]. intros [= _ <-].
  unfold toString. rewrite E, (parseUrlParameters_again _ _ E). done.
Qed.

(** The route this proxy records: it is its own, and its text is what is
    saved when it is taken off. *)
Lemma own_route u0 token :
  bare_url u0 -> nul_free token -> isMyHostAlias aliases u0 = Ok (true, u0) ->
  let t := "<"%char :: uri_text (route_url u0 token) ++ [">"%char] in UrlSpec.short t ->
  exists u u', check_route fill (pcre_exec := pcre_exec) aliases t = Ok (true, u) /\ toString pcre_exec u = Ok (t, u').
Proof.
  intros (Hw & Hd & Hu & Hp & Hh & Hf) Hn Ha t Hs. pose proof (route_url_wf u0 token Hw Hn) as Hwr.
  set (v := route_url u0 token) in *.
  assert (mDisplayName v = [] /\ mpFieldParameters v = None /\ mUserId v = []) as (Vd & Vf & Vu) by done.
  assert (parseString fill pcre_exec t NameAddr false Url_default = Ok (parsed v [], [])) as Ep.
  { pose proof (parse_name_addr fill v [] Hwr) as E. rewrite Vf, Vd, app_nil_l in E. unfold t. rewrite (E eq_refl Hs).
    done. }
  assert (nul_free t) as Hnt.
  { constructor; [done|]. apply Forall_app. split; [by apply uri_nul_free|by repeat constructor]. }
  assert (exists u, isMyHostAlias aliases (parsed v []) = Ok (true, u)) as (u & Eu).
  { unfold isMyHostAlias in Ha |- *. cbn [mHostPort mScheme mHostAddress parsed].
    change (mHostPort v) with (mHostPort u0). change (mScheme v) with (mScheme u0). change (mHostAddress v) with (mHostAddress u0).
    destruct (mHostPort u0 =? PORT_NONE) eqn:E1; [|injection Ha as Ha; eexists; cbn; by rewrite Ha].
    case_bool_decide; [injection Ha as Ha; eexists; cbn; by rewrite Ha|].
    assert (getUrlParameter (bytes "transport") 0 u0 = Ok (None, u0)) as Et.
    { unfold getUrlParameter. destruct (wf_params_parsed u0 Hw) as [-> _]. cbn [obind]. by rewrite Hp. }
    rewrite Et in Ha. cbn [obind default] in Ha. injection Ha as Ha.
    unfold getUrlParameter. rewrite (force_params _ _ (mpUrlParameters v)) by (done || apply (wu_params _ Hwr)). cbn [obind].
    eexists. f_equal. f_equal. exact Ha. }
  exists u. unfold check_route, fromString. change (reset Url_default) with Url_default. rewrite (cstr_id _ Hnt), Ep. cbn [obind].
  assert (exists u', toString pcre_exec (parsed v []) = Ok (t, u')) as (u' & Et); [|exists u'; split; [exact Eu|by rewrite (alias_text _ _ _ Eu)]].
  assert (wf_sip_url (canonical v)) as Hwc by (destruct Hwr; by split).
  destruct (toString_text (pcre_exec := pcre_exec) _ Hwc) as (f & Ef & Ec). change (mpFieldParameters (canonical v)) with (mpFieldParameters v) in Ef. rewrite Vf in Ef. injection Ef as <-.
  assert (name_addr (canonical v) = true) as Ena.
  { unfold name_addr. rewrite (wu_scheme _ Hwc). cbn [canonical v route_url state_params mpUrlParameters set_url_params set_brackets set_user have andb orb].
    apply orb_true_r. }
  rewrite Ena in Ec. pose proof (force_parsed v [] None Hwr) as Ef. unfold force in Ef.
  assert (set_field_params None (parsed v []) = parsed v []) as Esp by done. rewrite Esp in Ef.
  assert (canonical (set_display [] (set_field_params None v)) = canonical v) as Ecan by (unfold canonical, set_display, set_field_params, set_brackets, set_user; simpl; by rewrite Hd, Hf).
  rewrite Ecan in Ef. exists (canonical v).
  assert (toString pcre_exec (parsed v []) = toString pcre_exec (canonical v)) as ->.
  { unfold toString at 1. destruct (parseUrlParameters (parsed v [])) as [u1| | |]; try done. cbn [obind] in Ef |- *. rewrite Ef. cbn [obind].
    unfold toString. destruct (wf_params_parsed _ Hwc) as [-> E2]. cbn [obind]. by rewrite E2. }
  rewrite Ec. do 2 f_equal. cbn [app mDisplayName canonical set_brackets set_user]. change (mDisplayName v) with (mDisplayName u0).
  rewrite Hd, app_nil_l, app_nil_r. f_equal. f_equal. unfold uri_text.
  assert (user_part (canonical v) = user_part v) as -> by (unfold user_part; change (mUserId (canonical v)) with (mUserId v); by rewrite Vu).
  reflexivity.
Qed.

(** The routes that are left may become what they could before. *)
Lemma may_become_tail m hs hs1 t rest r :
  routes_of hs = t :: rest -> routes_of hs1 = keep_route <$> rest ->
  may_become fill (pcre_exec := pcre_exec) m hs1 r -> may_become fill (pcre_exec := pcre_exec) m hs r.
Proof.
  intros E E1 [|r1 r2 u x u' Hr Hor Eu Et]; [constructor|]. rewrite E1 in Hr. apply list_elem_of_fmap in Hr as (r0 & -> & Hr).
  apply (become_route _ _ _ r0 r2 u x u'); [rewrite E; by right| |done|done]. right.
  destruct Hor as [->| ->]; [done|apply keep_route_idemp].
Qed.

(** The first round on a request whose first route is the recorded one. *)
Lemma own_route_round m hs rest uc t u ut :
  table (mNameValues m) hs -> fits hs -> request_line m -> Forall (fun r => DQUOTE ∉ r) (routes_of hs) ->
  routes_of hs = t :: rest -> t <> [] -> frontBackTrim t (bytes " " ++ ["009"%char]) = t ->
  check_request fill (pcre_exec := pcre_exec) aliases (getRequestUri m) = Ok (false, uc) -> ready uc ->
  check_route fill (pcre_exec := pcre_exec) aliases t = Ok (true, u) -> toString pcre_exec u = Ok (t, ut) ->
  exists w hs1, normalize_round fill pcre_exec aliases (mkWork m Url_default Url_default (Some [])) = Ok (false, w)
    /\ round_state fill (pcre_exec := pcre_exec) aliases m hs1 [t] w hs1 true /\ routes_of hs1 = keep_route <$> rest
    /\ forall n, n <> SIP_ROUTE_FIELD -> values_of n hs1 = values_of n hs.
Proof.
  intros Ht Hf Hl Hq Ers Hne Htrim Ec Hr Ek Es.
  assert (ready Url_default) as Hd by (split; simpl; (split; [constructor|done])).
  rewrite (round_check fill aliases (mkWork m Url_default Url_default (Some [])) false uc Hd Ec). cbn [w_msg w_topRouteUrl w_removedRoutes].
  rewrite (getRouteUri_first _ _ Ht Hf), Ers. cbv zeta. rewrite Htrim, bool_decide_false by done. cbn [obind negb].
  assert (t ∈ routes_of hs) as Hin by (rewrite Ers; by left).
  destruct (check_route_ready fill (pcre_exec := pcre_exec) aliases t) as (b & u1 & Ek' & Hru & Hqu).
  { pose proof (route_short hs t (proj1 Hf) Hin). unfold ESCAPES_MAX. lia. }
  rewrite Ek in Ek'. injection Ek' as <- <-. rewrite Forall_forall in Hq. specialize (Hqu (Hq t Hin)).
  unfold check_route in Ek. destruct (fromString fill pcre_exec t NameAddr false Url_default) as [[u0 x]| | |]; try done.
  cbn [obind] in Ek |- *. rewrite Ek. cbn [obind]. unfold save_route. rewrite Es. cbn [obind].
  destruct (toString_ready (pcre_exec := pcre_exec) u Hru Hqu) as (ut' & f & Hrt & _ & _ & Es'). rewrite Es in Es'. injection Es' as _ <-.
  destruct (removeRouteUri_spec fill _ _ 0 [] Ht Hf) as (l' & hs1 & E & Ht' & Hf' & Hr' & Ho').
  change (Z.of_nat 0) with 0 in E. rewrite E. cbn [obind]. rewrite Ers in Hr'. cbn [delete list_delete] in Hr'.
  eexists _, hs1. split; [done|]. split; [|done].
  split; cbn [w_msg w_requestUri w_topRouteUrl w_removedRoutes]; try done.
  - exists 0%nat, (length (routes_of hs1)). by rewrite drop_0, firstn_all.
  - intros r Hin2. exists r. auto.
  - exists []. split; [done|]. apply (resolved_none fill (pcre_exec := pcre_exec) aliases m hs1).
  - apply (become_first fill m hs1).
Qed.

(** C9: A request of a dialog finds the state of the dialog: when its first
    route is the one that this proxy recorded (RouteState::update) and its
    request URI is no loose route of the proxy, normalizeProxyRoutes takes the
    route off, and the RouteState made from the routes that were taken off has
    exactly the recorded parameters and cannot be changed. *)
Theorem dialog_request_finds_state secret rs es u0 m hs rest hp uc :
  recorded secret rs es -> bare_url u0 -> isMyHostAlias aliases u0 = Ok (true, u0) ->
  let t := state_route (pcre_exec := pcre_exec) u0 (token_of secret rs es) in UrlSpec.short t ->
  table (mNameValues m) hs -> fits hs -> request_line m -> of_call hs (mCallId rs) -> routes_of hs = t :: rest ->
  Forall (fun r => DQUOTE ∉ r) (routes_of hs) ->
  (forall r, may_become fill (pcre_exec := pcre_exec) m hs r -> reachable fill (pcre_exec := pcre_exec) aliases r) ->
  check_request fill (pcre_exec := pcre_exec) aliases (getRequestUri m) = Ok (false, uc) ->
  exists m' u removed rs2, normalizeProxyRoutes fill pcre_exec aliases m Url_default (Some []) = Ok (m', u, Some removed)
    /\ RouteState_new fill pcre_exec secret m' removed hp = Ok rs2
    /\ mFoundRouteState rs2 = true /\ mMayBeMutable rs2 = false /\ represents (mValues rs2) (list_to_map es).
Proof.
  intros Hrec Hb Ha t0 Hs Ht Hf Hl Hcall Ers Hq Hreach Ec. subst t0. pose proof Hb as (Hw & Hd & _ & Hp & _ & Hfl).
  pose proof (token_nul_free _ _ _ Hrec) as Hn.
  destruct (route_text (pcre_exec := pcre_exec) u0 _ Hw Hn) as (f & Ef & Et & Hnt & Hct). rewrite Hfl in Ef. injection Ef as <-.
  cbv zeta in Et, Hnt, Hct. unfold state_route in *. rewrite Et, Hd, app_nil_l in *.
  set (t := "<"%char :: uri_text (route_url u0 (token_of secret rs es)) ++ [">"%char]) in *.
  destruct (own_route u0 _ Hb Hn Ha Hs) as (u & ut & Ek & Eu).
  assert (all route_char t) as Hrc.
  { constructor; [done|]. apply Forall_app. split; [by apply bare_route|by repeat constructor]. }
  destruct (route_subs t Hrc ltac:(done)) as [_ Htrim].
  assert (Z.of_nat (length (getRequestUri m)) <= ESCAPES_MAX) as Hlm by (apply Hreach, become_first).
  destruct (check_request_ready fill (pcre_exec := pcre_exec) aliases _ Hlm) as (b & uc' & Ec' & Huc & _). rewrite Ec in Ec'. injection Ec' as <- <-.
  destruct (own_route_round m hs rest uc t u ut Ht Hf Hl Hq Ers ltac:(done) Htrim Ec Huc Ek Eu) as (w & hs1 & E1 & Hw1 & Hr1 & Ho1).
  pose proof (routes_count _ _ Ht) as Hc. rewrite Ers in Hc.
  destruct (normalize_loop_ends fill (pcre_exec := pcre_exec) aliases m hs1 [t]) with (fuel := (table_size (mNameValues m) + 1)%nat)
    (w := w) (hs := hs1) (k := true) as (w' & wl & hs' & k' & E2 & [] & Em & Er & _); [| |done| |].
  - rewrite Hr1. apply Forall_fmap. rewrite Ers in Hq. inversion Hq as [|? ? _ Hq']; subst. eapply Forall_impl; [exact Hq'|].
    intros r Hr. unfold keep_route. simpl. case_bool_decide; [done|]. set_solver.
  - intros r Hr. apply Hreach. by apply (may_become_tail m hs hs1 t rest).
  - rewrite Hr1, length_fmap. simpl in *. lia.
  - destruct st_removed as (rem & Erem & _). unfold normalizeProxyRoutes.
    replace (table_size (mNameValues m) + 2)%nat with (S (table_size (mNameValues m) + 1)) by lia. cbn [normalize_loop].
    rewrite E1. cbn [obind]. rewrite E2. cbn [obind]. rewrite Er, Erem.
    assert (of_call hs' (mCallId rs)) as Hcall' by (unfold of_call; by rewrite st_others, Ho1). rewrite <- Em in st_table.
    destruct (removed_state_found fill (pcre_exec := pcre_exec) secret rs es u0 [] (w_msg w') hs' [] rem hp) as (rs2 & E & Hrs2); try done.
    + by rewrite Hfl.
    + by rewrite Hd.
    + by rewrite Hd.
    + by rewrite Hd.
    + rewrite Hd, app_nil_l in E. eexists _, _, _, rs2. split; [reflexivity|]. split; [exact E|exact Hrs2].
Qed.
End Dialog.

(** ** Witness *)

#[local] Existing Instances pcre_search regex_search.

Definition own_aliases : list (list ascii) := [bytes "myhost.example.com:5060"].
Definition recorded_route : list ascii :=
  bytes "<sip:myhost.example.com;lr;sipXecs-rs=plugin%2Aparam1%7EdmFsdWUx.plugin2%2A%7EdmFsdWUy%216cedf2bb36711d2e69b3012ab3d1e16d>".
Definition bye_headers : list header := (SIP_ROUTE_FIELD, recorded_route) :: demo_headers.
Definition bye_request : SipMessage := mkMsg (bytes "BYE sip:a@10.0.0.1 SIP/2.0") (pair_of <$> bye_headers).

Lemma bye_table : table (mNameValues bye_request) bye_headers.
Proof.
  split; [apply pairs_of|];
    repeat (apply Forall_cons_2; [apply (bool_decide_unpack _); vm_compute; exact I|]); apply Forall_nil_2.
Qed.

Lemma bye_routes : routes_of bye_headers = [recorded_route].
Proof. vm_compute. reflexivity. Qed.

Lemma bye_reachable r : may_become zero_fill (pcre_exec := search) bye_request bye_headers r ->
  reachable zero_fill (H := search_Pcre 1000) own_aliases r.
Proof.
  intros [|r1 r2 u t u' Hr Hor Eu Et]; [apply reachable_by_computation; vm_compute; reflexivity|].
  rewrite bye_routes in Hr. apply list_elem_of_singleton in Hr as ->.
  assert (r2 = recorded_route) as -> by (by destruct Hor as [->| ->]). vm_compute in Eu. injection Eu as <-. vm_compute in Et.
  injection Et as <- _. apply reachable_by_computation. vm_compute. reflexivity.
Qed.

Lemma dialog_request_finds_state_witness :
  exists m' u removed rs2,
    normalizeProxyRoutes zero_fill search own_aliases bye_request Url_default (Some []) = Ok (m', u, Some removed)
    /\ RouteState_new zero_fill search [] m' removed (bytes "myhost.example.com") = Ok rs2
    /\ mFoundRouteState rs2 = true /\ mMayBeMutable rs2 = false
    /\ represents (mValues rs2) (list_to_map RouteStateSpec.sample_es).
Proof.
  destruct (check_request zero_fill (pcre_exec := search) own_aliases (getRequestUri bye_request)) as [[[] uc]| | |] eqn:Ec;
    try (by vm_compute in Ec).
  apply (@dialog_request_finds_state regex_search regex_search_laws pcre_search pcre_search_laws zero_fill search (search_Pcre 1000)
    own_aliases [] demo_state RouteStateSpec.sample_es demo_route bye_request bye_headers [] (bytes "myhost.example.com") uc).
  - exact demo_recorded.
  - exact demo_bare.
  - vm_compute. reflexivity.
  - apply short_of, Nat.leb_le. vm_compute. reflexivity.
  - exact bye_table.
  - split; [apply Forall_singleton; vm_compute; discriminate|vm_compute; discriminate].
  - vm_compute. discriminate.
  - vm_compute. reflexivity.
  - vm_compute. reflexivity.
  - rewrite bye_routes. apply Forall_singleton. apply (bool_decide_unpack _). vm_compute. exact I.
  - exact bye_reachable.
  - exact Ec.
Defined.
