(* ===== verification/SipNonceDb.v ===== *)
(** * Authentication nonces

    [sipXcommserverLib/src/sipXecsService/SipNonceDb.cpp] and
    [SharedSecret.cpp]: a nonce is a signature over the time, the call and the
    realm, followed by the time.  The clock is the argument [now] of the
    functions that read it. *)
From Stdlib Require Import ZArith Lia Ascii String.
From stdpp Require Import base list strings sets.
From S2P Require Import Prelude NetBase64Codec NetMd5Codec Format.
Local Open Scope Z_scope.

(** ** SharedSecret *)

Section Secret.
Context `{Base64Search}.

(** SharedSecret::SharedSecret, with the value of SHARED_SECRET in the
    configuration: without one the secret stays empty. *)
Definition SharedSecret_new (fill : nat -> ascii) (configured : option (list ascii)) : outcome (list ascii) :=
  match configured with
  | Some base64secret =>
      let! (ok, secret) := decode RFC4648MimeAlphabet fill base64secret in
      if negb ok || bool_decide (secret = []) then AssertFail else Ok secret
  | None => Ok []
  end.
End Secret.

(** ** SipNonceDb *)

Definition HEX_TIMESTAMP_LENGTH : Z := 8.
Definition MD5_SIZE : Z := 32.

(** [sprintf(dateString, "%08x", (int)now)] *)
Fixpoint hex_fixed (k : nat) (n : Z) : list ascii :=
  match k with O => [] | S k' => hex_fixed k' (Z.shiftr n 4) ++ [hex_digit (Z.land n 15)] end.
Definition fmt_08x (n : Z) : list ascii := hex_fixed 8 (to_uint n).

Section Nonce.
Context (fill : nat -> ascii) (mpNonceSignatureSecret : list ascii).

(** [timestamp] is a C string; md5 reads HEX_TIMESTAMP_LENGTH bytes of it. *)
Definition nonceSignature (callId fromTag realm timestamp : list ascii) : outcome (list ascii) :=
  let! t := read_at (c_str timestamp) 0 HEX_TIMESTAMP_LENGTH in
  let! md5 := hash_all (NetMd5Codec_default fill)
                [t; callId; bytes ","; fromTag; bytes ","; mpNonceSignatureSecret; bytes ","; realm] in
  let! (signatureValue, _) := appendHashValue md5 [] in
  Ok signatureValue.

Definition createNewNonce (now : Z) (callId fromTag realm : list ascii) : outcome (list ascii) :=
  let dateString := fmt_08x (to_int now) in
  let! nonce := nonceSignature callId fromTag realm dateString in
  Ok (nonce ++ dateString).

Definition isNonceValid (now : Z) (nonce callId fromTag realm : list ascii) (expiredTime : Z) : outcome bool :=
  if Z.of_nat (length nonce) =? MD5_SIZE + HEX_TIMESTAMP_LENGTH then
    let timestamp := take (Z.to_nat HEX_TIMESTAMP_LENGTH) (drop (Z.to_nat MD5_SIZE) nonce) in
    let rcvdSignature := take (Z.to_nat MD5_SIZE) nonce in
    let! msgSignature := nonceSignature callId fromTag realm timestamp in
    if strcmp rcvdSignature msgSignature =? 0 then
      let '(t, _, _) := strtol timestamp 16 in
      let nonceCreated := to_size t in
      Ok (now <=? to_size (nonceCreated + expiredTime))
    else Ok false
  else Ok false.
End Nonce.

(** * Nonces are accepted for their call and time only

    A nonce made for a call is valid in that call until it expires; what is
    accepted carries a signature over the secret, and for calls whose
    identifiers have no comma a nonce of one call is accepted in another only
    where MD5 collides. *)
(** ** Time stamps *)

Lemma hex_digit_is_digit d :
  0 <= d < 16 -> digit_of (hex_digit d) = d /\ is_digit_of 16 (hex_digit d) = true /\ isspace (hex_digit d) = false
    /\ hex_digit d ∉ bytes "-+xX" /\ hex_digit d <> NUL.
Proof.
  intros Hd. assert (forallb (fun n => let c := hex_digit (Z.of_nat n) in
    (digit_of c =? Z.of_nat n) && is_digit_of 16 c && negb (isspace c)
    && bool_decide (c ∉ bytes "-+xX") && bool_decide (c <> NUL)) (seq 0 16) = true) as E by (vm_compute; reflexivity).
  rewrite forallb_forall in E. specialize (E (Z.to_nat d)). rewrite in_seq, Z2Nat.id in E by lia.
  specialize (E ltac:(lia)). cbv zeta in E. rewrite !andb_true_iff, Z.eqb_eq, negb_true_iff, !bool_decide_eq_true in E.
  tauto.
Qed.

(** The characters of printed time stamps *)
Definition stamp_char (c : ascii) : Prop :=
  is_digit_of 16 c = true /\ isspace c = false /\ c ∉ bytes "-+xX" /\ c <> NUL.

Lemma number_of_snoc base ds c : number_of base (ds ++ [c]) = base * number_of base ds + digit_of c.
Proof. unfold number_of. by rewrite foldl_app. Qed.

Lemma hex_fixed_spec k n :
  0 <= n -> length (hex_fixed k n) = k /\ Forall stamp_char (hex_fixed k n)
    /\ number_of 16 (hex_fixed k n) = n mod 16 ^ Z.of_nat k.
Proof.
  revert n. induction k as [|k IH]; intros n Hn; cbn [hex_fixed].
  - rewrite Z.mod_1_r. by repeat constructor.
  - change 15 with (Z.ones 4). rewrite Z.land_ones, Z.shiftr_div_pow2 by lia. change (2 ^ 4) with 16.
    pose proof (Z.mod_pos_bound n 16 ltac:(lia)).
    destruct (hex_digit_is_digit (n mod 16)) as (Hd & Hc); [lia|].
    destruct (IH (n / 16)) as (Hl & Hf & Hv); [apply Z.div_pos; lia|].
    rewrite length_app, Hl. split; [simpl; lia|]. split; [apply Forall_app; split; [done|]; apply Forall_cons_2; [exact Hc|constructor]|].
    rewrite number_of_snoc, Hv, Hd, Nat2Z.inj_succ, Z.pow_succ_r by lia.
    rewrite Z.rem_mul_r by lia. lia.
Qed.

Lemma stamp_nul_free l : Forall stamp_char l -> nul_free l.
Proof. intros Hf. eapply Forall_impl; [exact Hf|]. intros c (_ & _ & _ & Hc). exact Hc. Qed.

(** [strtol] reads a printed time stamp back. *)
Lemma strtol_stamp l :
  Forall stamp_char l -> l <> [] -> 0 <= number_of 16 l <= LONG_MAX -> strtol l 16 = (number_of 16 l, false, []).
Proof.
  intros Hf Hne Hv. unfold strtol. rewrite cstr_id by (by apply stamp_nul_free).
  assert (span isspace l = ([], l)) as ->.
  { destruct Hf as [|c l (_ & Hs & _) Hf]; [done|]. simpl. by rewrite Hs. }
  cbn [snd]. pose proof Hf as Hf'. destruct Hf' as [|c l' (Hc & Hs & Hn & _) Hf']; [done|].
  assert (c <> "-"%char /\ c <> "+"%char) as [H1 H2].
  { split; intros ->; apply Hn; vm_compute; repeat constructor. }
  rewrite !decide_False by done.
  assert (skip_0x 16 (c :: l') = c :: l') as ->.
  { unfold skip_0x. destruct Hf' as [|x l2 (_ & _ & Hx & _) [|d l3 _ _]]; [done|done|].
    rewrite (bool_decide_false (x = "x"%char \/ x = "X"%char)); [by rewrite andb_false_r|].
    intros [-> | ->]; apply Hx; vm_compute; repeat constructor. }
  replace (c :: l') with ((c :: l') ++ []) at 1 by apply app_nil_r.
  rewrite fmt_span_app; [|by eapply Forall_impl; [exact Hf|]; intros ? (? & _)|done].
  rewrite Z.mul_1_l. unfold LONG_MIN. destruct (Z.ltb_spec (number_of 16 (c :: l')) (- 2 ^ 63)); [lia|].
  destruct (Z.ltb_spec LONG_MAX (number_of 16 (c :: l'))); [lia|done].
Qed.

(** ** Signatures *)

Section Spec.
Context (fill : nat -> ascii) (secret : list ascii) (Hsecret : short secret).

(** The text that is signed *)
Definition signed_text (callId fromTag realm timestamp : list ascii) : list ascii :=
  timestamp ++ callId ++ bytes "," ++ fromTag ++ bytes "," ++ secret ++ bytes "," ++ realm.

Lemma nonceSignature_spec callId fromTag realm timestamp :
  short callId -> short fromTag -> short realm -> length timestamp = 8%nat ->
  nonceSignature fill secret callId fromTag realm timestamp = Ok (hex (md5 (signed_text callId fromTag realm timestamp))).
Proof.
  intros Hc Hf Hr Ht. unfold nonceSignature, c_str.
  rewrite read_at_ok by (rewrite ?length_app, ?Ht; unfold HEX_TIMESTAMP_LENGTH; simpl; lia).
  cbn [obind]. change (drop (Z.to_nat 0) (timestamp ++ [NUL])) with (timestamp ++ [NUL]).
  rewrite take_app_le, take_ge by (rewrite Ht; unfold HEX_TIMESTAMP_LENGTH; lia).
  destruct (hash_all_holds [timestamp; callId; bytes ","; fromTag; bytes ","; secret; bytes ","; realm]
    (NetMd5Codec_default fill) [] (init_holds fill) eq_refl) as (m & -> & Hm & Hfin).
  { repeat apply Forall_cons_2; try apply Forall_nil_2; try done; unfold short; rewrite ?Ht; vm_compute; done. }
  cbn [obind]. unfold appendHashValue. rewrite Hfin, (MD5Final_holds _ _ Hm). cbn [obind].
  do 3 f_equal. unfold signed_text. simpl. by rewrite app_nil_r.
Qed.

Lemma hex_digest msg : length (hex (md5 msg)) = 32%nat /\ nul_free (hex (md5 msg)).
Proof.
  pose proof (length_md5 msg) as Hl. revert Hl. generalize (md5 msg) as d. intros d Hd. split.
  - assert (length (hex d) = 2 * length d)%nat as ->; [|lia]. clear Hd. induction d as [|c d IH]; simpl; lia.
  - clear Hd. induction d as [|c d IH]; simpl; [constructor|].
    pose proof (uchar_range c). change 15 with (Z.ones 4). rewrite Z.land_ones, Z.shiftr_div_pow2 by lia. change (2 ^ 4) with 16.
    pose proof (Z.mod_pos_bound (uchar c) 16 ltac:(lia)).
    repeat apply Forall_cons_2; [| |exact IH]; apply hex_digit_is_digit.
    + split; [apply Z.div_pos; lia|apply Z.div_lt_upper_bound; lia].
    + lia.
Qed.

(** What isNonceValid decides, for a nonce of the right length *)
Lemma isNonceValid_spec now nonce callId fromTag realm expiredTime :
  short callId -> short fromTag -> short realm ->
  isNonceValid fill secret now nonce callId fromTag realm expiredTime
  = Ok (bool_decide (length nonce = 40%nat)
        && bool_decide (take 32 nonce = hex (md5 (signed_text callId fromTag realm (drop 32 nonce))))
        && (now <=? to_size (to_size (fst (fst (strtol (drop 32 nonce) 16))) + expiredTime))).
Proof.
  intros Hc Hf Hr. unfold isNonceValid. change (MD5_SIZE + HEX_TIMESTAMP_LENGTH) with 40.
  change (Z.to_nat HEX_TIMESTAMP_LENGTH) with 8%nat. change (Z.to_nat MD5_SIZE) with 32%nat.
  destruct (Z.eqb_spec (Z.of_nat (length nonce)) 40) as [Hn|Hn]; [|by rewrite bool_decide_false by lia].
  rewrite bool_decide_true by lia. assert (length (drop 32 nonce) = 8%nat) as Hd by (rewrite length_drop; lia).
  rewrite take_ge by lia. rewrite nonceSignature_spec by done. cbn [obind andb].
  destruct (hex_digest (signed_text callId fromTag realm (drop 32 nonce))) as [Hl Hnul].
  destruct (Z.eqb_spec (strcmp (take 32 nonce) (hex (md5 (signed_text callId fromTag realm (drop 32 nonce))))) 0) as [E|E].
  - rewrite strcmp_lex, lexcmp_eq, (cstr_id (hex _)) in E by done.
    rewrite bool_decide_true; [by destruct (strtol (drop 32 nonce) 16) as [[t ?] ?]|]. rewrite <- E. symmetry.
    pose proof (length_cstr (take 32 nonce)) as Hle. rewrite E, Hl in Hle. rewrite <- (take_cstr _ []) at 1.
    rewrite app_nil_r, E, Hl. rewrite take_take. by rewrite Nat.min_id.
  - rewrite bool_decide_false; [done|]. intros Heq. apply E. rewrite Heq. apply strcmp_refl.
Qed.

Lemma createNewNonce_spec now callId fromTag realm :
  short callId -> short fromTag -> short realm ->
  createNewNonce fill secret now callId fromTag realm
  = Ok (hex (md5 (signed_text callId fromTag realm (fmt_08x (to_int now)))) ++ fmt_08x (to_int now)).
Proof.
  intros Hc Hf Hr. unfold createNewNonce. rewrite nonceSignature_spec; [done|done..|].
  apply hex_fixed_spec, to_uint_range.
Qed.

(** Up to 2106 the time stamp is the time. *)
Lemma stamp_time now : 0 <= now < 2 ^ 32 -> to_uint (to_int now) = now.
Proof. intros Hn. unfold to_uint, to_int. rewrite Zminus_mod_idemp_l. rewrite Z.add_simpl_r. by apply Z.mod_small. Qed.

(** A nonce made for a call is valid for that call and realm exactly until
    the given number of seconds has passed. *)
Theorem nonce_valid_until_expiry created now callId fromTag realm expiredTime :
  short callId -> short fromTag -> short realm ->
  0 <= created < 2 ^ 32 -> 0 <= now < 2 ^ 64 -> 0 <= expiredTime < 2 ^ 63 ->
  exists nonce, createNewNonce fill secret created callId fromTag realm = Ok nonce
    /\ isNonceValid fill secret now nonce callId fromTag realm expiredTime = Ok (now <=? created + expiredTime).
Proof.
  intros Hc Hf Hr Hcr Hnow Hexp. eexists. split; [by apply createNewNonce_spec|].
  rewrite isNonceValid_spec by done.
  destruct (hex_digest (signed_text callId fromTag realm (fmt_08x (to_int created)))) as [Hl _].
  destruct (hex_fixed_spec 8 (to_uint (to_int created))) as (Hl8 & Hst & Hv); [apply to_uint_range|].
  change (hex_fixed 8 (to_uint (to_int created))) with (fmt_08x (to_int created)) in Hl8, Hst, Hv.
  rewrite stamp_time, Z.mod_small in Hv by (simpl; lia).
  rewrite length_app, Hl, Hl8. rewrite take_app_le, take_ge, drop_app_le, drop_ge by lia.
  rewrite app_nil_l, !bool_decide_true by done. cbn [andb].
  rewrite strtol_stamp; [|done|by intros E; rewrite E in Hl8|rewrite Hv; unfold LONG_MAX; lia]. cbn [fst]. rewrite Hv.
  unfold to_size. rewrite (Z.mod_small created) by lia. by rewrite Z.mod_small by lia.
Qed.

(** A prefix without commas ends at the first comma. *)
Lemma comma_prefix a b x y :
  ","%char ∉ a -> ","%char ∉ b -> a ++ bytes "," ++ x = b ++ bytes "," ++ y -> a = b /\ x = y.
Proof.
  revert b. induction a as [|c a IH]; intros [|d b] Ha Hb E; simpl in E.
  - by injection E as ->.
  - injection E as <- _. set_solver.
  - injection E as -> _. set_solver.
  - injection E as -> E. destruct (IH b) as [-> ->]; [set_solver..|done|done].
Qed.

Lemma signed_text_inj callId fromTag realm callId' fromTag' realm' t t' :
  length t = length t' -> ","%char ∉ callId -> ","%char ∉ fromTag -> ","%char ∉ callId' -> ","%char ∉ fromTag' ->
  signed_text callId fromTag realm t = signed_text callId' fromTag' realm' t' ->
  callId = callId' /\ fromTag = fromTag' /\ realm = realm' /\ t = t'.
Proof.
  intros Hl H1 H2 H3 H4 E. unfold signed_text in E. apply app_inj_1 in E as [-> E]; [|done].
  apply comma_prefix in E as [-> E]; [|done..]. apply comma_prefix in E as [-> E]; [|done..].
  by apply app_inv_head in E; injection E as ->.
Qed.

Lemma hex_inj a b : hex a = hex b -> a = b.
Proof.
  revert b. induction a as [|c a IH]; intros [|d b] E; try done. unfold hex in E. cbn [flat_map] in E.
  injection E as E1 E2 E. f_equal; [|by apply IH]. clear IH E.
  assert (forall e, uchar e = 16 * digit_of (hex_digit (Z.shiftr (uchar e) 4)) + digit_of (hex_digit (Z.land (uchar e) 15))) as Hu.
  { intros e. all_bytes e; reflexivity. }
  assert (uchar c = uchar d) as Hcd by (rewrite (Hu c), (Hu d), E1, E2; done).
  rewrite <- (chr_uchar c), <- (chr_uchar d). by rewrite Hcd.
Qed.

(** C27: A nonce is accepted for the call and the realm it was made for: if it was made for another call or realm, without commas in the call
    identifiers, the texts signed for the two are different and have the same
    MD5 digest. *)
Theorem nonce_bound_to_call created now callId fromTag realm callId' fromTag' realm' expiredTime nonce :
  short callId -> short fromTag -> short realm -> short callId' -> short fromTag' -> short realm' ->
  ","%char ∉ callId -> ","%char ∉ fromTag -> ","%char ∉ callId' -> ","%char ∉ fromTag' ->
  createNewNonce fill secret created callId fromTag realm = Ok nonce ->
  exists valid, isNonceValid fill secret now nonce callId' fromTag' realm' expiredTime = Ok valid
    /\ (valid = true -> (callId = callId' /\ fromTag = fromTag' /\ realm = realm')
                       \/ let x := signed_text callId fromTag realm (drop 32 nonce) in
                          let y := signed_text callId' fromTag' realm' (drop 32 nonce) in
                          x <> y /\ md5 x = md5 y).
Proof.
  intros Hc Hf Hr Hc' Hf' Hr' N1 N2 N3 N4 Hn. rewrite createNewNonce_spec in Hn by done. injection Hn as <-.
  eexists. split; [by apply isNonceValid_spec|]. cbv zeta. rewrite !andb_true_iff, !bool_decide_eq_true. intros [[_ E] _].
  destruct (hex_digest (signed_text callId fromTag realm (fmt_08x (to_int created)))) as [Hl _].
  rewrite take_app_le, take_ge, drop_app_le, (drop_ge (hex _)) in E by lia. rewrite app_nil_l in E. apply hex_inj in E.
  rewrite drop_app_le, (drop_ge (hex _)), app_nil_l by lia.
  destruct (decide (signed_text callId fromTag realm (fmt_08x (to_int created))
                    = signed_text callId' fromTag' realm' (fmt_08x (to_int created)))) as [Et|Et].
  - left. apply signed_text_inj in Et; [tauto|done..].
  - by right.
Qed.

(** Only a text that ends with its own signature is accepted. *)
Theorem nonce_authentic now nonce callId fromTag realm expiredTime :
  short callId -> short fromTag -> short realm ->
  isNonceValid fill secret now nonce callId fromTag realm expiredTime = Ok true ->
  exists timestamp, length timestamp = 8%nat
    /\ nonce = hex (md5 (signed_text callId fromTag realm timestamp)) ++ timestamp.
Proof.
  intros Hc Hf Hr E. rewrite isNonceValid_spec in E by done. injection E as E.
  rewrite !andb_true_iff, !bool_decide_eq_true in E. destruct E as [[Hl Hs] _]. exists (drop 32 nonce).
  split; [rewrite length_drop; lia|]. by rewrite <- Hs, take_drop.
Qed.
End Spec.

(** ** Concrete nonces *)

Definition nonce_secret : list ascii := bytes "s3cret".
Definition nonce_fill : nat -> ascii := fun _ => "?"%char.

Ltac short_text := unfold short; vm_compute; done.

Lemma nonce_valid_until_expiry_witness :
  exists nonce, createNewNonce nonce_fill nonce_secret 1200000000 (bytes "call1") (bytes "tag1") (bytes "example.com") = Ok nonce
    /\ isNonceValid nonce_fill nonce_secret 1200000300 nonce (bytes "call1") (bytes "tag1") (bytes "example.com") 300 = Ok true.
Proof.
  apply (nonce_valid_until_expiry nonce_fill nonce_secret ltac:(short_text) 1200000000 1200000300); try short_text; lia.
Defined.

Definition nonce1 : list ascii :=
  match createNewNonce nonce_fill nonce_secret 1200000000 (bytes "call1") (bytes "tag1") (bytes "example.com") with
  | Ok n => n | _ => [] end.

Lemma nonce_bound_to_call_witness :
  exists valid, isNonceValid nonce_fill nonce_secret 1200000001 nonce1 (bytes "call2") (bytes "tag1") (bytes "example.com") 300 = Ok valid
    /\ (valid = true -> (bytes "call1" = bytes "call2" /\ bytes "tag1" = bytes "tag1" /\ bytes "example.com" = bytes "example.com")
                       \/ let x := signed_text nonce_secret (bytes "call1") (bytes "tag1") (bytes "example.com") (drop 32 nonce1) in
                          let y := signed_text nonce_secret (bytes "call2") (bytes "tag1") (bytes "example.com") (drop 32 nonce1) in
                          x <> y /\ md5 x = md5 y).
Proof.
  apply (nonce_bound_to_call nonce_fill nonce_secret ltac:(short_text) 1200000000); try short_text;
    try (apply (bool_decide_unpack _); vm_compute; done).
Defined.

Lemma nonce_authentic_witness :
  exists timestamp, length timestamp = 8%nat
    /\ nonce1 = hex (md5 (signed_text nonce_secret (bytes "call1") (bytes "tag1") (bytes "example.com") timestamp)) ++ timestamp.
Proof.
  apply (nonce_authentic nonce_fill nonce_secret ltac:(short_text) 1200000001 nonce1 (bytes "call1") (bytes "tag1")
    (bytes "example.com") 300); try short_text; vm_compute; reflexivity.
Defined.

(** The comma only separates where the parts have none: a nonce of one call is
    valid in another. *)
Example nonce_comma_shift :
  exists nonce, createNewNonce nonce_fill nonce_secret 1200000000 (bytes "a,b") (bytes "c") (bytes "r") = Ok nonce
    /\ isNonceValid nonce_fill nonce_secret 1200000000 nonce (bytes "a") (bytes "b,c") (bytes "r") 300 = Ok true.
Proof. eexists. split; [vm_compute; reflexivity|vm_compute; reflexivity]. Qed.

(** From 2106 on the time stamp wraps around and every new nonce is expired. *)
Example nonce_expired_at_once :
  exists nonce, createNewNonce nonce_fill nonce_secret (2 ^ 32) (bytes "a") (bytes "c") (bytes "r") = Ok nonce
    /\ isNonceValid nonce_fill nonce_secret (2 ^ 32) nonce (bytes "a") (bytes "c") (bytes "r") 300 = Ok false.
Proof. eexists. split; [vm_compute; reflexivity|vm_compute; reflexivity]. Qed.
