(* ===== verification/SipMatch.v ===== *)
(** * Which SIP messages belong together

    The comparisons of [sipXtackLib/src/net/SipMessage.cpp] that pair a
    response, an ACK or a CANCEL with its request, the fields they read (Call-Id,
    CSeq, From, To), and [setResponseData], which builds a response from a
    request.  The tag that [CallId::getNewTag] supplies is an argument. *)
From Stdlib Require Import ZArith Lia Ascii String.
From stdpp Require Import base list strings.
From S2P Require Import Prelude UtlString UtlStringRefine NameValuePair NameValueTokenizer HttpMessage.
From S2P Require Import Format Pcre UrlCodec Url RouteState RouteStateMsg ProxyRoutes.
Local Open Scope Z_scope.

Definition SIP_INVITE_METHOD : list ascii := bytes "INVITE".
Definition SIP_MESSAGE_METHOD : list ascii := bytes "MESSAGE".
Definition SIP_REGISTER_METHOD : list ascii := bytes "REGISTER".
Definition SIP_PUBLISH_METHOD : list ascii := bytes "PUBLISH".
Definition SIP_CSEQ_FIELD : list ascii := bytes "CSEQ".
Definition SIP_VIA_FIELD : list ascii := bytes "VIA".
Definition SIP_CONTACT_FIELD : list ascii := bytes "CONTACT".
Definition SIP_REQUIRE_FIELD : list ascii := bytes "REQUIRE".
Definition SIP_REQUEST_DISPOSITION_FIELD : list ascii := bytes "REQUEST-DISPOSITION".
Definition SIP_SUBFIELD_SEPARATORS : list ascii := "009"%char :: bytes " ".
Definition SIP_SUBFIELD_SEPARATOR : list ascii := bytes " ".
Definition SIP_TRYING_CODE : Z := 100.
Definition SIP_PORT : Z := 5060.

(** ** Fields *)

(** SipMessage::getFromField, getToField *)
Definition getFromField (m : SipMessage) : outcome (list ascii) :=
  let! v := getHeaderValue (mNameValues m) 0 (Some SIP_FROM_FIELD) in Ok (default [] v).
Definition getToField (m : SipMessage) : outcome (list ascii) :=
  let! v := getHeaderValue (mNameValues m) 0 (Some SIP_TO_FIELD) in Ok (default [] v).

Definition is_separator_char (c : ascii) : bool := bool_decide (c ∈ SIP_SUBFIELD_SEPARATORS).

(** What getCSeqField takes from the value of the header: the result,
    sequenceNum and sequenceMethod *)
Definition parse_cseq (value : list ascii) : bool * Z * list ascii :=
  let valueStart := Z.of_nat (length (fst (span is_separator_char value))) in
  let number := drop (Z.to_nat valueStart) value in
  let numStringLen := Z.of_nat (length (fst (span (fun c => negb (is_separator_char c)) number))) - valueStart in
  let sequenceMethod := frontBackTrim (drop (Z.to_nat (numStringLen + valueStart)) value) SIP_SUBFIELD_SEPARATORS in
  let ret := negb (bool_decide (sequenceMethod = [])) in
  let '(result, range_error, endptr) := strtol number 10 in
  let at_end := match endptr with c :: _ => bool_decide (c ∈ bytes " " ++ ["009"; "013"]%char) | [] => false end in
  if negb range_error && (0 <=? result) && (result <=? INT_MAX) && at_end
  then (ret, result, sequenceMethod) else (false, -1, sequenceMethod).

(** SipMessage::getCSeqField, with both output arguments *)
Definition getCSeqField (m : SipMessage) : outcome (bool * Z * list ascii) :=
  let! value := getHeaderValue (mNameValues m) 0 (Some SIP_CSEQ_FIELD) in
  Ok (match value with None => (false, -1, []) | Some value => parse_cseq value end).

(** HttpMessage::getResponseStatusCode *)
Definition getResponseStatusCode (m : SipMessage) : outcome Z := atoi (getFirstHeaderLinePart m 1 " ").

Section Match.
Context (fill : nat -> ascii) (pcre_exec : pat -> list ascii -> nat -> option Match).

Definition tag_of (u : Url) : list ascii := default [] (getFieldParameter (bytes "tag") 0 u).

(** SipMessage::isSameSession(const Url&, const Url&, UtlBoolean) *)
Definition isSameSession_url (firstUrl secondUrl : Url) (comparingToUrl : bool) : outcome bool :=
  let firstTag := tag_of firstUrl in
  let secondTag := tag_of secondUrl in
  if comparingToUrl then
    Ok (bool_decide (firstTag = []) || bool_decide (secondTag = []) || (strcmp firstTag secondTag =? 0))
  else if bool_decide (firstTag = []) && bool_decide (secondTag = []) then
    let firstPort := mHostPort firstUrl in
    let secondPort := mHostPort secondUrl in
    let! (firstProtocol, _) := getUrlParameter (bytes "transport") 0 firstUrl in
    let! (secondProtocol, _) := getUrlParameter (bytes "transport") 0 secondUrl in
    Ok ((strcmp (mHostAddress firstUrl) (mHostAddress secondUrl) =? 0)
        && ((firstPort =? secondPort)
            || ((firstPort =? PORT_NONE) && (secondPort =? SIP_PORT))
            || ((firstPort =? SIP_PORT) && (secondPort =? PORT_NONE)))
        && (strcmp (default [] firstProtocol) (default [] secondProtocol) =? 0)
        && (strcmp (mUserId firstUrl) (mUserId secondUrl) =? 0))
  else Ok (strcmp firstTag secondTag =? 0).

(** SipMessage::isSameSession(const SipMessage* ) *)
Definition isSameSession (this message : SipMessage) : outcome bool :=
  let! localCallId := getCallIdField this in
  let! otherCallId := getCallIdField message in
  if strcmp localCallId otherCallId =? 0 then
    let! otherFromUrl := getFromUrl fill pcre_exec message in
    let! localFromUrl := getFromUrl fill pcre_exec this in
    let! otherToUrl := getToUrl fill pcre_exec message in
    let! localToUrl := getToUrl fill pcre_exec this in
    let! from_same := isSameSession_url localFromUrl otherFromUrl false in
    if from_same : bool then isSameSession_url localToUrl otherToUrl true else Ok false
  else Ok false.

(** SipMessage::isSameMessage *)
Definition isSameMessage (this message : SipMessage) (responseCodesMustMatch : bool) : outcome bool :=
  let thisIsResponse := isResponse this in
  if bool_decide (isResponse message = thisIsResponse) then
    let! kind_same :=
      (if thisIsResponse then
         let! thisResponseCode := getResponseStatusCode this in
         let! thatResponseCode := getResponseStatusCode message in
         Ok (negb responseCodesMustMatch || (thisResponseCode =? thatResponseCode))
       else Ok (strcmp (getRequestMethod this) (getRequestMethod message) =? 0)) in
    if kind_same : bool then
      let! same_session := isSameSession this message in
      if same_session : bool then
        let! (_, thisSequenceNum, thisSequenceMethod) := getCSeqField this in
        let! (_, thatSequenceNum, thatSequenceMethod) := getCSeqField message in
        Ok ((thisSequenceNum =? thatSequenceNum) && (strcmp thisSequenceMethod thatSequenceMethod =? 0))
      else Ok false
    else Ok false
  else Ok false.

(** SipMessage::isResponseTo *)
Definition isResponseTo (this request : SipMessage) : outcome bool :=
  if negb (isResponse request) && isResponse this then
    let! same_session := isSameSession this request in
    if same_session : bool then
      let! (_, thisSequenceNum, thisSequenceMethod) := getCSeqField this in
      let! (_, thatSequenceNum, thatSequenceMethod) := getCSeqField request in
      Ok ((thisSequenceNum =? thatSequenceNum) && (strcmp thisSequenceMethod thatSequenceMethod =? 0))
    else Ok false
  else Ok false.

(** SipMessage::isAckFor *)
Definition isAckFor (this inviteResponse : SipMessage) : outcome bool :=
  if isResponse inviteResponse && negb (isResponse this) then
    if strcmp (getRequestMethod this) SIP_ACK_METHOD =? 0 then
      let! same_session := isSameSession this inviteResponse in
      if same_session : bool then
        let! (_, thisSequenceNum, _) := getCSeqField this in
        let! (_, thatSequenceNum, thatSequenceMethod) := getCSeqField inviteResponse in
        Ok ((thisSequenceNum =? thatSequenceNum) && (strcmp thatSequenceMethod SIP_INVITE_METHOD =? 0))
      else Ok false
    else Ok false
  else Ok false.

(** SipMessage::isSameTransaction *)
Definition isSameTransaction (this message : SipMessage) : outcome bool :=
  let! same_session := isSameSession this message in
  if same_session : bool then
    let! (_, thisSequenceNum, _) := getCSeqField this in
    let! (_, thatSequenceNum, _) := getCSeqField message in
    Ok (thisSequenceNum =? thatSequenceNum)
  else Ok false.

(** SipMessage::isInviteFor *)
Definition isInviteFor (this cancelRequest : SipMessage) : outcome bool :=
  if negb (isResponse this) then
    if strcmp (getRequestMethod this) SIP_INVITE_METHOD =? 0 then isSameTransaction this cancelRequest else Ok false
  else Ok false.

(** ** Building a response *)

Definition on_headers (f : list NameValuePair -> outcome (list NameValuePair)) (m : SipMessage) : outcome SipMessage :=
  let! l := f (mNameValues m) in Ok (mkMsg (mFirstHeaderLine m) l).

(** SipMessage::setRawFromField, setRawToField, setCallIdField, setCSeqField,
    setContactField *)
Definition setRawFromField (url : list ascii) : SipMessage -> outcome SipMessage :=
  on_headers (fun l => setHeaderValue fill l SIP_FROM_FIELD url 0).
Definition setRawToField (url : list ascii) : SipMessage -> outcome SipMessage :=
  on_headers (fun l => setHeaderValue fill l SIP_TO_FIELD url 0).
Definition setCallIdField (callId : list ascii) : SipMessage -> outcome SipMessage :=
  on_headers (fun l => setHeaderValue fill l SIP_CALLID_FIELD callId 0).
Definition setCSeqField (sequenceNumber : Z) (method : list ascii) : SipMessage -> outcome SipMessage :=
  on_headers (fun l => setHeaderValue fill l SIP_CSEQ_FIELD (fmt_d sequenceNumber ++ SIP_SUBFIELD_SEPARATOR ++ method) 0).
Definition setContactField (contactField : list ascii) (index : Z) : SipMessage -> outcome SipMessage :=
  on_headers (fun l => setHeaderValue fill l SIP_CONTACT_FIELD contactField index).

(** SipMessage::incrementCSeqNumber *)
Definition incrementCSeqNumber (m : SipMessage) : outcome SipMessage :=
  let! (ok, seqNum, seqMethod) := getCSeqField m in
  let '(seqNum, seqMethod) := if ok : bool then (seqNum, seqMethod) else (1, seqMethod ++ bytes "UNKNOWN") in
  let! seqNum := int_arith (seqNum + 1) in
  setCSeqField seqNum seqMethod m.

(** The first place from [start] on where [pat] or a character stands, or -1 *)
Definition index_of (pat uri : list ascii) (start : Z) : Z :=
  match list_find (fun i => take (length pat) (drop i uri) = pat)
                  (seq (Z.to_nat start) (S (length uri) - Z.to_nat start)) with
  | Some (_, i) => Z.of_nat i
  | None => -1
  end.

(** SipMessage::setUriParameter, for a value that may be null *)
Definition setUriParameter (uri parameterName : list ascii) (parameterValue : option (list ascii)) : list ascii :=
  let value := default [] parameterValue in
  let parameterString := parameterName ++ (if bool_decide (value = []) then [] else bytes "=") in
  let tagIndex := index_of parameterString uri 0 in
  if 0 <=? tagIndex then
    let tagIndex := tagIndex + Z.of_nat (length parameterString) in
    let tagSpace := index_of (bytes " ") uri tagIndex in
    let tagTab := index_of ["009"%char] uri tagIndex in
    let tagSemi := index_of (bytes ";") uri tagIndex in
    let tagEnd := tagSpace in
    let tagEnd := if (tagIndex <=? tagTab) && ((tagTab <? tagEnd) || (tagEnd <? tagIndex)) then tagTab else tagEnd in
    let tagEnd := if (tagIndex <=? tagSemi) && ((tagSemi <? tagEnd) || (tagEnd <? tagIndex)) then tagSemi else tagEnd in
    take (Z.to_nat tagIndex) uri ++ value ++ (if tagIndex <=? tagEnd then drop (Z.to_nat tagEnd) uri else [])
  else uri ++ bytes ";" ++ parameterString ++ value.

(** SipMessage::isRecordRouteAccepted *)
Definition isRecordRouteAccepted (m : SipMessage) : bool :=
  if isResponse m then false
  else let method := getRequestMethod m in
       negb ((strcmp method SIP_MESSAGE_METHOD =? 0) || (strcmp method SIP_REGISTER_METHOD =? 0)
             || (strcmp method SIP_PUBLISH_METHOD =? 0)).

(** SipMessage::addViaField(viaField, FALSE) *)
Definition addViaField (viaField : list ascii) : SipMessage -> outcome SipMessage :=
  on_headers (fun l => let! nv := NameValuePair_new fill (c_str SIP_VIA_FIELD) (Some (c_str viaField)) in Ok (l ++ [nv])).

(** SipMessage::getViaFieldSubField: the result and viaSubField *)
Definition getViaFieldSubField (l : list NameValuePair) (subFieldIndex : Z) : outcome (bool * list ascii) :=
  let! (found, via) := getFieldSubfield l SIP_VIA_FIELD subFieldIndex true in
  Ok (found && negb (bool_decide (via = [])), if found : bool then via else []).

(** SipMessage::setViaFromRequest *)
Fixpoint via_loop (fuel : nat) (request this : SipMessage) (subFieldindex : Z) : outcome SipMessage :=
  let! (found, viaSubField) := getViaFieldSubField (mNameValues request) subFieldindex in
  if found : bool then
    match fuel with
    | O => UB
    | S fuel' => let! this := addViaField (cstr viaSubField) this in via_loop fuel' request this (subFieldindex + 1)
    end
  else Ok this.
Definition setViaFromRequest (request this : SipMessage) : outcome SipMessage :=
  via_loop (table_size (mNameValues request)) request this 0.

(** The loop over the Record-Routes of the request *)
Fixpoint record_route_loop (fuel : nat) (request this : SipMessage) (recordRouteIndex : Z) : outcome SipMessage :=
  let! recordRouteField := getHeaderValue (mNameValues request) recordRouteIndex (Some SIP_RECORD_ROUTE_FIELD) in
  match recordRouteField with
  | Some v =>
      match fuel with
      | O => UB
      | S fuel' =>
          let! this := on_headers (fun l => setRecordRouteField fill l v recordRouteIndex) this in
          record_route_loop fuel' request this (recordRouteIndex + 1)
      end
  | None => Ok this
  end.

(** HttpMessage::setResponseFirstHeaderLine *)
Definition setResponseFirstHeaderLine (protocol : list ascii) (statusCode : Z) (statusText : list ascii) (m : SipMessage)
    : SipMessage := setFirstHeaderLine protocol (fmt_d statusCode) statusText m.

(** SipMessage::setResponseData with its fields as C strings *)
Definition setResponseData_fields (newTag : list ascii) (statusCode : Z) (statusText fromField toField callId : list ascii)
    (sequenceNumber : Z) (sequenceMethod : list ascii) (localContact : option (list ascii)) (this : SipMessage)
    : outcome SipMessage :=
  let this := setResponseFirstHeaderLine SIP_PROTOCOL_VERSION statusCode statusText this in
  let! this := setRawFromField fromField this in
  let! this :=
    (if negb (statusCode =? SIP_TRYING_CODE) && negb (contains_sub toField (bytes ";tag="))
     then setRawToField (setUriParameter toField (bytes "tag") (Some newTag)) this
     else setRawToField toField this) in
  let! this := setCallIdField callId this in
  let! this := (if 0 <=? sequenceNumber then setCSeqField sequenceNumber sequenceMethod this else Ok this) in
  match localContact with Some c => setContactField c 0 this | None => Ok this end.

(** SipMessage::setResponseData(const SipMessage* , ...) *)
Definition setResponseData (newTag : list ascii) (request : SipMessage) (responseCode : Z) (responseText : list ascii)
    (localContact : option (list ascii)) (echoRecordRouteIfApplicable : bool) (this : SipMessage) : outcome SipMessage :=
  let! fromField := getFromField request in
  let! toField := getToField request in
  let! callId := getCallIdField request in
  let! (_, sequenceNum, sequenceMethod) := getCSeqField request in
  let! this := setResponseData_fields newTag responseCode responseText fromField toField callId
                 sequenceNum (cstr sequenceMethod) localContact this in
  let! this := setViaFromRequest request this in
  if echoRecordRouteIfApplicable && isRecordRouteAccepted request
  then record_route_loop (S (length (mNameValues request))) request this 0 else Ok this.
End Match.

(** ** Two searches whose index does not move

    [None]: the loop has not ended after [fuel] rounds. *)

(** SipMessage::isRequestDispositionSet *)
Fixpoint isRequestDispositionSet (fuel : nat) (l : list NameValuePair) (dispositionToken : list ascii)
    : outcome (option bool) :=
  match fuel with
  | O => Ok None
  | S fuel' =>
      let! (found, field) := getFieldSubfield l SIP_REQUEST_DISPOSITION_FIELD 0 false in
      if found : bool then
        if strcmp (toupper <$> field) dispositionToken =? 0 then Ok (Some true)
        else isRequestDispositionSet fuel' l dispositionToken
      else Ok (Some false)
  end.

(** SipMessage::isRequireExtensionSet *)
Fixpoint isRequireExtensionSet (fuel : nat) (l : list NameValuePair) (extension : list ascii) (alreadySet : bool)
    : outcome (option bool) :=
  match fuel with
  | O => Ok None
  | S fuel' =>
      let! (found, extensionString) := getFieldSubfield l SIP_REQUIRE_FIELD 0 false in
      if found : bool then
        isRequireExtensionSet fuel' l extension (alreadySet || (strcmp (tolower <$> extensionString) extension =? 0))
      else Ok (Some alreadySet)
  end.
