(* ===== verification/SipMatchSpec.v ===== *)
(** * A response belongs to its request

    What [setResponseData] builds from a request is recognised by
    [isResponseTo], for every request with a usable CSeq; two searches over
    header values do not end. *)
From Stdlib Require Import ZArith Lia Ascii String.
From stdpp Require Import base list strings sets.
From S2P Require Import Prelude UtlString UtlStringRefine NameValuePair NameValueTokenizer NameValueTokenizerSpec HttpMessage HttpMessageSpec.
From S2P Require Import Format Pcre PcreSpec UrlCodec Url UrlSound UrlTotal RouteState RouteStateMsg RouteStateMsgSpec ProxyRoutes RouteTableSpec SipMatch.
Local Open Scope Z_scope.

(** ** Trimming *)

Lemma frontTrim_strip l ws : frontTrim l ws = strip_front (in_set ws) l.
Proof.
  unfold frontTrim, strip_front. destruct (count_while_spec (in_set ws) l) as (Hc & _).
  destruct (Z.ltb_spec 0 (count_while (in_set ws) l)).
  - cbn [spec_op]. by rewrite (proj2 (Z.leb_le _ _)) by lia.
  - by replace (count_while (in_set ws) l) with 0 by lia.
Qed.

Lemma backTrim_strip l ws : backTrim l ws = strip_back (in_set ws) l.
Proof.
  unfold backTrim, strip_back, strip_front. destruct (count_while_spec (in_set ws) (rev l)) as (Hc & _).
  rewrite length_rev in Hc. rewrite skipn_rev, rev_involutive.
  destruct (Z.ltb_spec 0 (count_while (in_set ws) (rev l))) as [Hpos|Hz].
  - cbn [spec_op]. set (n := count_while _ _) in *. rewrite (proj2 (Z.leb_le _ _)) by lia.
    rewrite (drop_ge l) by lia. rewrite app_nil_r. f_equal. lia.
  - replace (count_while (in_set ws) (rev l)) with 0 by lia. by rewrite Nat.sub_0_r, take_ge.
Qed.

Lemma strip_front_cons p c l : strip_front p (c :: l) = if p c then strip_front p l else c :: l.
Proof.
  unfold strip_front. simpl. destruct (p c); [|done].
  destruct (count_while_spec p l) as (Hc & _). by rewrite Z2Nat.inj_add by lia.
Qed.

Lemma strip_front_head p l : match strip_front p l with [] => True | c :: _ => p c = false end.
Proof. induction l as [|c l IH]; [done|]. rewrite strip_front_cons. by destruct (p c) eqn:E. Qed.

Lemma strip_front_id p l : match l with [] => True | c :: _ => p c = false end -> strip_front p l = l.
Proof. destruct l as [|c l]; [done|]. intros Hc. by rewrite strip_front_cons, Hc. Qed.

Lemma strip_back_prefix p l : exists r, l = strip_back p l ++ r.
Proof.
  unfold strip_back. exists (rev (take (Z.to_nat (count_while p (rev l))) (rev l))).
  unfold strip_front. rewrite <- rev_app_distr, take_drop. by rewrite rev_involutive.
Qed.

(** Trimming twice, or after a blank in front, trims once. *)
Lemma trim_again l ws c : in_set ws c = true -> frontBackTrim (c :: frontBackTrim l ws) ws = frontBackTrim l ws.
Proof.
  intros Hc. unfold frontBackTrim. rewrite !frontTrim_strip, !backTrim_strip, strip_front_cons, Hc.
  set (u := strip_front (in_set ws) l). pose proof (strip_front_head (in_set ws) l) as Hh. fold u in Hh.
  destruct (strip_back_prefix (in_set ws) u) as (r & Hr). rewrite (strip_front_id _ (strip_back _ u)).
  - unfold strip_back. rewrite rev_involutive. f_equal. apply strip_front_id, strip_front_head.
  - destruct (strip_back (in_set ws) u) as [|d t]; [done|]. by rewrite Hr in Hh.
Qed.

(** ** CSeq *)

Lemma number_of_digits ds : all_digits ds -> number_of 10 ds = digits_value ds.
Proof.
  intros Hd. unfold number_of, digits_value. revert Hd. generalize 0 as acc.
  induction ds as [|c ds IH]; intros acc Hd; [done|]. inversion Hd as [|? ? Hc Hd']; subst. simpl. rewrite IH by done.
  f_equal. unfold digit_of, digit_value. rewrite Hc. f_equal. apply isdigit_uchar in Hc. unfold schar.
  by rewrite (proj2 (Z.ltb_lt _ _)) by lia.
Qed.

Lemma digit_facts c :
  isdigit c = true -> is_digit_of 10 c = true /\ isspace c = false /\ is_separator_char c = false
    /\ c <> "-"%char /\ c <> "+"%char /\ c <> NUL.
Proof. all_bytes c; intros; try discriminate; split_and!; done. Qed.

Lemma skip_0x_decimal s : skip_0x 10 s = s.
Proof. by destruct s as [|? [|? [|? ?]]]. Qed.

Lemma strtol_decimal ds rest :
  all_digits ds -> ds <> [] -> nul_free (ds ++ rest) -> match rest with [] => True | c :: _ => is_digit_of 10 c = false end ->
  digits_value ds <= LONG_MAX -> strtol (ds ++ rest) 10 = (digits_value ds, false, rest).
Proof.
  intros Hd Hne Hnf Hr Hmax. unfold strtol. rewrite cstr_id by done.
  assert (Forall (fun c => is_digit_of 10 c = true) ds) as Hf by (eapply Forall_impl; [exact Hd|]; intros c; apply digit_facts).
  pose proof Hd as Hd'. destruct Hd' as [|c ds' Hc _]; [done|]. apply digit_facts in Hc as (_ & Hs & _ & H1 & H2 & _).
  cbn [span app]. rewrite Hs. cbn [snd]. rewrite !decide_False, skip_0x_decimal by done.
  change (c :: ds' ++ rest) with ((c :: ds') ++ rest). rewrite fmt_span_app by done. cbv zeta.
  rewrite number_of_digits, Z.mul_1_l by done. pose proof (digits_value_bound _ Hd).
  unfold LONG_MIN. by rewrite !(proj2 (Z.ltb_ge _ _)) by lia.
Qed.

(** A printed CSeq is read back. *)
Lemma parse_printed_cseq n x :
  0 <= n <= INT_MAX -> nul_free x ->
  let method := frontBackTrim x SIP_SUBFIELD_SEPARATORS in
  parse_cseq (fmt_d n ++ SIP_SUBFIELD_SEPARATOR ++ method) = (negb (bool_decide (method = [])), n, method).
Proof.
  intros Hn Hx method. unfold fmt_d. rewrite (proj2 (Z.ltb_ge _ _)) by lia.
  destruct (fmt_unsigned_spec n) as (Hd & Hv & Hl); [unfold INT_MAX in Hn; lia|].
  set (ds := fmt_unsigned n) in *. assert (exists c ds', ds = c :: ds') as (c & ds' & Eds) by (destruct ds; [simpl in Hl; lia|eauto]).
  assert (Forall (fun c => is_digit_of 10 c = true /\ isspace c = false /\ is_separator_char c = false
    /\ c <> "-"%char /\ c <> "+"%char /\ c <> NUL) ds) as Hf by (eapply Forall_impl; [exact Hd|]; apply digit_facts).
  assert (nul_free (ds ++ SIP_SUBFIELD_SEPARATOR ++ method)) as Hnf.
  { apply Forall_app; split; [eapply Forall_impl; [exact Hf|]; naive_solver|]. apply Forall_cons_2; [done|].
    apply Forall_forall. intros y Hy. apply (proj1 (Forall_forall _ _) Hx).
    unfold method, frontBackTrim in Hy. rewrite frontTrim_strip, backTrim_strip in Hy.
    destruct (strip_back_prefix (in_set SIP_SUBFIELD_SEPARATORS) (strip_front (in_set SIP_SUBFIELD_SEPARATORS) x)) as (r & Hr).
    assert (y ∈ strip_front (in_set SIP_SUBFIELD_SEPARATORS) x) as Hy' by (rewrite Hr; set_solver).
    unfold strip_front in Hy'. rewrite <- (take_drop (Z.to_nat (count_while (in_set SIP_SUBFIELD_SEPARATORS) x)) x). set_solver. }
  pose proof Hf as Hc. rewrite Eds in Hc. inversion Hc as [|? ? (C1 & C2 & C3 & C4 & C5 & C6) _]; subst x0 l.
  unfold parse_cseq. set (v := ds ++ SIP_SUBFIELD_SEPARATOR ++ method) in *.
  assert (span is_separator_char v = ([], v)) as -> by (unfold v; rewrite Eds; simpl; by rewrite C3).
  cbn [fst length]. change (Z.to_nat (Z.of_nat 0)) with 0%nat. rewrite drop_0.
  assert (span (fun c => negb (is_separator_char c)) v = (ds, SIP_SUBFIELD_SEPARATOR ++ method)) as ->.
  { unfold v. apply fmt_span_app; [eapply Forall_impl; [exact Hf|]; intros y (_ & _ & -> & _); done|done]. }
  cbn [fst]. replace (Z.of_nat (length ds) - Z.of_nat 0 + Z.of_nat 0) with (Z.of_nat (length ds)) by lia.
  rewrite Nat2Z.id.
  assert (drop (length ds) v = SIP_SUBFIELD_SEPARATOR ++ method) as -> by apply drop_app_length.
  assert (frontBackTrim (SIP_SUBFIELD_SEPARATOR ++ method) SIP_SUBFIELD_SEPARATORS = method) as ->
    by (apply trim_again; vm_compute; done).
  assert (strtol v 10 = (n, false, SIP_SUBFIELD_SEPARATOR ++ method)) as ->.
  { rewrite <- Hv at 1. apply strtol_decimal; [done|by rewrite Eds|done|done|]. rewrite Hv. unfold LONG_MAX, INT_MAX in *. lia. }
  cbn [app SIP_SUBFIELD_SEPARATOR bytes String.list_ascii_of_string]. rewrite bool_decide_true by (vm_compute; repeat constructor).
  by rewrite !(proj2 (Z.leb_le _ _)) by lia.
Qed.

Lemma fmt_d_nul_free n : nul_free (fmt_d n).
Proof.
  assert (forall fuel k, 0 <= k -> nul_free (dec_digits fuel k)) as Hd.
  { induction fuel as [|fuel IH]; intros k Hk; cbn [dec_digits]; [constructor|]. apply Forall_app. split.
    - destruct (k <? 10); [constructor|]. apply IH. apply Z.div_pos; lia.
    - apply Forall_cons_2; [|constructor]. apply isdigit_not_nul. apply digit_spec. apply Z.mod_pos_bound. lia. }
  unfold fmt_d, fmt_unsigned. destruct (Z.ltb_spec n 0); [apply Forall_cons_2; [done|]|]; apply Hd; lia.
Qed.

(** ** Reading and writing first values *)

Definition first_value (n : list ascii) (es : list header) : list ascii := default [] (values_of n es !! 0%nat).

(** The names the comparisons read are written in capitals. *)
Definition plain_name (n : list ascii) : Prop := nul_free n /\ upper n = n.

Lemma plain_names :
  Forall plain_name [SIP_FROM_FIELD; SIP_TO_FIELD; SIP_CALLID_FIELD; SIP_CSEQ_FIELD; SIP_CONTACT_FIELD; SIP_VIA_FIELD;
                     SIP_RECORD_ROUTE_FIELD].
Proof.
  repeat apply Forall_cons_2; try apply Forall_nil_2; (split; [apply (bool_decide_unpack _); vm_compute; exact I|reflexivity]).
Qed.

Ltac plain := apply (proj1 (Forall_forall _ _) plain_names); vm_compute; repeat constructor.

Lemma via_name : nul_free SIP_VIA_FIELD.
Proof. apply (bool_decide_unpack _); vm_compute; exact I. Qed.

Lemma read_first l es n :
  table l es -> plain_name n ->
  exists v, getHeaderValue l 0 (Some n) = Ok v /\ default [] v = first_value n es /\ (v = None -> first_value n es = []).
Proof.
  intros Ht [Hn Hu]. rewrite (getHeaderValue_nth l es n 0 Ht Hn : getHeaderValue _ 0 _ = _). rewrite Hu.
  eexists. split; [done|]. unfold first_value. by destruct (values_of n es !! 0%nat) as [[|c w]|].
Qed.

Lemma getFields m es :
  table (mNameValues m) es ->
  getFromField m = Ok (first_value SIP_FROM_FIELD es) /\ getToField m = Ok (first_value SIP_TO_FIELD es)
  /\ getCallIdField m = Ok (first_value SIP_CALLID_FIELD es) /\ getCSeqField m = Ok (parse_cseq (first_value SIP_CSEQ_FIELD es)).
Proof.
  intros Ht. unfold getFromField, getToField, getCallIdField, getCSeqField.
  destruct (read_first _ es SIP_FROM_FIELD Ht ltac:(plain)) as (v1 & -> & <- & _).
  destruct (read_first _ es SIP_TO_FIELD Ht ltac:(plain)) as (v2 & -> & <- & _).
  destruct (read_first _ es SIP_CALLID_FIELD Ht ltac:(plain)) as (v3 & -> & <- & _).
  destruct (read_first _ es SIP_CSEQ_FIELD Ht ltac:(plain)) as (v4 & -> & <- & _).
  cbn [obind]. split_and!; try done. by destruct v4.
Qed.

Lemma first_nul_free l es n : table l es -> nul_free (first_value n es).
Proof.
  intros Ht. unfold first_value. destruct (values_of n es !! 0%nat) as [v|] eqn:E; [|constructor].
  by eapply value_nul_free.
Qed.

(** ** The fields of a response *)

Section Response.
Context (fill : nat -> ascii) `{Pcre pcre_exec}.

(** [m'] is [m] with headers that agree with [es] on all names but [ns]. *)
Definition keeps (ns : list (list ascii)) (m : SipMessage) (es : list header) (m' : SipMessage) (es' : list header) : Prop :=
  mFirstHeaderLine m' = mFirstHeaderLine m /\ table (mNameValues m') es'
  /\ forall n, n ∉ ns -> values_of n es' = values_of n es.

Lemma keeps_refl m es : table (mNameValues m) es -> keeps [] m es m es.
Proof. done. Qed.

Lemma keeps_trans ns1 ns2 m1 es1 m2 es2 m3 es3 :
  keeps ns1 m1 es1 m2 es2 -> keeps ns2 m2 es2 m3 es3 -> keeps (ns1 ++ ns2) m1 es1 m3 es3.
Proof.
  intros (F1 & _ & V1) (F2 & T2 & V2). split; [congruence|]. split; [done|]. intros n Hn.
  rewrite V2, V1 by set_solver. done.
Qed.

Lemma keeps_first ns m es m' es' n : keeps ns m es m' es' -> n ∉ ns -> first_value n es' = first_value n es.
Proof. intros (_ & _ & V) Hn. unfold first_value. by rewrite V. Qed.

Lemma set_at m es n v k :
  table (mNameValues m) es -> plain_name n -> nul_free v ->
  exists m' es', on_headers (fun l => setHeaderValue fill l n v (Z.of_nat k)) m = Ok m' /\ keeps [n] m es m' es'
    /\ (k = 0%nat -> first_value n es' = v).
Proof.
  intros Ht [Hn Hu] Hv. unfold on_headers.
  destruct (setHeaderValue_spec fill (mNameValues m) es n k v Ht Hn Hv) as (l' & es' & -> & Ht' & Hvs & Ho). rewrite Hu in *.
  cbn [obind]. eexists _, es'. split; [done|]. split; [split; [done|]; split; [done|]; intros; apply Ho; set_solver|].
  intros ->. unfold first_value. rewrite Hvs. destruct (values_of n es); done.
Qed.

Lemma add_via m es v :
  table (mNameValues m) es -> nul_free v -> exists m' es', addViaField fill v m = Ok m' /\ keeps [SIP_VIA_FIELD] m es m' es'.
Proof.
  intros Ht Hv. unfold addViaField, on_headers.
  destruct (NameValuePair_new_value fill SIP_VIA_FIELD v) as (nv & -> & Hname & Hval); [apply via_name|done|]. cbn [obind].
  eexists _, (es ++ [(SIP_VIA_FIELD, v)]). split; [done|]. split; [done|]. split.
  - apply table_app; [done|]. apply table_one; [done|done|apply via_name].
  - intros n Hn. rewrite values_of_app, values_of_cons_ne by set_solver. by rewrite app_nil_r.
Qed.

(** Values of Via that are copied whole: no control characters, and not more
    than a header can hold. *)
Definition good_vias (es : list header) : Prop :=
  Forall (fun v => Z.of_nat (length v) <= 65536 /\ printable v) (values_of SIP_VIA_FIELD es)
  /\ Z.of_nat (length (flat (values_of SIP_VIA_FIELD es))) < INT_MAX.

Lemma via_loop_ok request hs : table (mNameValues request) hs -> good_vias hs ->
  forall fuel k m es, (length (flat (values_of SIP_VIA_FIELD hs)) <= k + fuel)%nat -> Z.of_nat k < INT_MAX ->
  table (mNameValues m) es ->
  exists m' es', via_loop fill fuel request m (Z.of_nat k) = Ok m' /\ keeps [SIP_VIA_FIELD] m es m' es'.
Proof.
  intros Ht [Hg Hmax]. assert (Forall (fun v => Z.of_nat (length v) <= 65536 /\ (true = false \/ printable v))
    (values_of (upper SIP_VIA_FIELD) hs)) as Hg' by (eapply Forall_impl; [exact Hg|]; intros v [? ?]; auto).
  induction fuel as [|fuel IH]; intros k m es Hf Hk Hm;
    cbn [via_loop]; unfold getViaFieldSubField;
    rewrite (getFieldSubfield_valid true _ hs SIP_VIA_FIELD (Z.of_nat k) Ht) by (first [exact Hg'|apply via_name|change (upper SIP_VIA_FIELD) with SIP_VIA_FIELD; lia]);
    change (upper SIP_VIA_FIELD) with SIP_VIA_FIELD; rewrite (proj2 (Z.eqb_neq _ BOTTOM_SUBFIELD)) by (unfold BOTTOM_SUBFIELD; lia);
    rewrite Nat2Z.id.
  - rewrite lookup_ge_None_2 by lia. cbn [obind andb]. exists m, es. split; [done|]. by split.
  - destruct (flat (values_of SIP_VIA_FIELD hs) !! k) as [u|] eqn:Eu; cbn [obind andb].
    + apply lookup_lt_Some in Eu as Hlt. case_bool_decide; cbn [negb]; [exists m, es; split; [done|by split]|].
      destruct (add_via m es (cstr u) Hm (cstr_nul_free u)) as (m1 & es1 & -> & Hk1). cbn [obind].
      destruct (IH (S k) m1 es1) as (m2 & es2 & E2 & Hk2); [lia|lia|apply Hk1|]. exists m2, es2.
      replace (Z.of_nat k + 1) with (Z.of_nat (S k)) by lia. split; [exact E2|].
      pose proof (keeps_trans _ _ _ _ _ _ _ _ Hk1 Hk2) as (F & T & V). split; [done|]. split; [done|]. intros n Hn.
      apply V. set_solver.
    + exists m, es. split; [done|]. by split.
Qed.

Lemma record_route_loop_ok request hs : table (mNameValues request) hs ->
  forall fuel k m es, (length (values_of SIP_RECORD_ROUTE_FIELD hs) < k + fuel)%nat -> table (mNameValues m) es ->
  exists m' es', record_route_loop fill fuel request m (Z.of_nat k) = Ok m' /\ keeps [SIP_RECORD_ROUTE_FIELD] m es m' es'.
Proof.
  intros Ht. assert (plain_name SIP_RECORD_ROUTE_FIELD) as [Hn Hu] by plain.
  induction fuel as [|fuel IH]; intros k m es Hf Hm; cbn [record_route_loop];
    rewrite (getHeaderValue_nth _ hs SIP_RECORD_ROUTE_FIELD k Ht Hn), Hu; cbn [obind].
  - rewrite lookup_ge_None_2 by lia. exists m, es. split; [done|]. by split.
  - destruct (values_of SIP_RECORD_ROUTE_FIELD hs !! k) as [[|c v]|] eqn:Ev; [exists m, es; split; [done|by split]| |exists m, es; split; [done|by split]].
    apply lookup_lt_Some in Ev as Hlt.
    destruct (set_at m es SIP_RECORD_ROUTE_FIELD (c :: v) k Hm (conj Hn Hu)) as (m1 & es1 & E1 & Hk1 & _);
      [exact (value_nul_free _ _ Ht _ _ _ Ev)|]. unfold setRecordRouteField. rewrite E1. cbn [obind].
    destruct (IH (S k) m1 es1) as (m2 & es2 & E2 & Hk2); [lia|apply Hk1|]. exists m2, es2.
    replace (Z.of_nat k + 1) with (Z.of_nat (S k)) by lia. split; [exact E2|].
    pose proof (keeps_trans _ _ _ _ _ _ _ _ Hk1 Hk2) as (F & T & V). split; [done|]. split; [done|]. intros n Hn'.
    apply V. set_solver.
Qed.

Lemma setUriParameter_nul_free uri name value :
  nul_free uri -> nul_free name -> nul_free value -> nul_free (setUriParameter uri name (Some value)).
Proof.
  intros Hu Hn Hv. unfold setUriParameter. cbn [default]. assert (nul_free (bytes "=") /\ nul_free (bytes ";")) as [? ?]
    by (split; apply (bool_decide_unpack _); vm_compute; exact I).
  destruct (0 <=? _).
  - apply Forall_app. split; [by apply Forall_take|]. apply Forall_app. split; [done|].
    destruct (_ <=? _); [by apply Forall_drop|constructor].
  - repeat (apply Forall_app; split); try done. by case_bool_decide; [constructor|].
Qed.

(** The text of the To field of the response *)
Definition to_of_response (newTag : list ascii) (code : Z) (toField : list ascii) : list ascii :=
  if negb (code =? SIP_TRYING_CODE) && negb (contains_sub toField (bytes ";tag="))
  then setUriParameter toField (bytes "tag") (Some newTag) else toField.

(** The fields setResponseData sets *)
Definition response_fields : list (list ascii) :=
  [SIP_FROM_FIELD; SIP_TO_FIELD; SIP_CALLID_FIELD; SIP_CSEQ_FIELD; SIP_VIA_FIELD; SIP_RECORD_ROUTE_FIELD].

Lemma setResponseData_spec newTag request hs code text contact echo m es :
  table (mNameValues request) hs -> good_vias hs -> table (mNameValues m) es ->
  nul_free newTag -> (forall c, contact = Some c -> nul_free c) ->
  0 <= snd (fst (parse_cseq (first_value SIP_CSEQ_FIELD hs))) ->
  exists r es', setResponseData fill newTag request code text contact echo m = Ok r
    /\ mFirstHeaderLine r = SIP_PROTOCOL_VERSION ++ " "%char :: fmt_d code ++ " "%char :: text
    /\ table (mNameValues r) es'
    /\ first_value SIP_FROM_FIELD es' = first_value SIP_FROM_FIELD hs
    /\ first_value SIP_TO_FIELD es' = to_of_response newTag code (first_value SIP_TO_FIELD hs)
    /\ first_value SIP_CALLID_FIELD es' = first_value SIP_CALLID_FIELD hs
    /\ first_value SIP_CSEQ_FIELD es'
       = fmt_d (snd (fst (parse_cseq (first_value SIP_CSEQ_FIELD hs)))) ++ SIP_SUBFIELD_SEPARATOR
         ++ cstr (snd (parse_cseq (first_value SIP_CSEQ_FIELD hs)))
    /\ (contact = None -> forall n, n ∉ response_fields -> values_of n es' = values_of n es).
Proof.
  intros Hr Hvia Hm Htag Hcontact Hseq. unfold setResponseData.
  destruct (getFields request hs) as (-> & -> & -> & ->); [done|]. cbn [obind].
  destruct (parse_cseq (first_value SIP_CSEQ_FIELD hs)) as [[ok num] method]. cbn [fst snd] in *.
  unfold setResponseData_fields. set (m0 := setResponseFirstHeaderLine _ _ _ m).
  assert (table (mNameValues m0) es) as Hm0 by done.
  destruct (set_at m0 es SIP_FROM_FIELD (first_value SIP_FROM_FIELD hs) 0 Hm0 ltac:(plain)) as (m1 & e1 & E1 & K1 & V1);
    [by eapply first_nul_free|]. unfold setRawFromField. change (Z.of_nat 0) with 0 in E1. rewrite E1. cbn [obind]. specialize (V1 eq_refl).
  assert (nul_free (to_of_response newTag code (first_value SIP_TO_FIELD hs))) as Hto.
  { unfold to_of_response. pose proof (first_nul_free _ _ SIP_TO_FIELD Hr). destruct (_ && _); [|done].
    apply setUriParameter_nul_free; [done| |done]. apply (bool_decide_unpack _); vm_compute; exact I. }
  destruct (set_at m1 e1 SIP_TO_FIELD _ 0 (proj1 (proj2 K1)) ltac:(plain) Hto) as (m2 & e2 & E2 & K2 & V2).
  specialize (V2 eq_refl). change (Z.of_nat 0) with 0 in E2.
  assert ((if negb (code =? SIP_TRYING_CODE) && negb (contains_sub (first_value SIP_TO_FIELD hs) (bytes ";tag="))
     then setRawToField fill (setUriParameter (first_value SIP_TO_FIELD hs) (bytes "tag") (Some newTag)) m1
     else setRawToField fill (first_value SIP_TO_FIELD hs) m1) = Ok m2) as ->.
  { rewrite <- E2. unfold setRawToField, to_of_response. by destruct (_ && _). }
  cbn [obind].
  destruct (set_at m2 e2 SIP_CALLID_FIELD (first_value SIP_CALLID_FIELD hs) 0 (proj1 (proj2 K2)) ltac:(plain)) as (m3 & e3 & E3 & K3 & V3);
    [by eapply first_nul_free|]. unfold setCallIdField. change (Z.of_nat 0) with 0 in E3. rewrite E3. cbn [obind]. specialize (V3 eq_refl).
  rewrite (proj2 (Z.leb_le _ _) Hseq).
  assert (nul_free (fmt_d num ++ SIP_SUBFIELD_SEPARATOR ++ cstr method)) as Hcs.
  { apply Forall_app. split; [|apply Forall_cons_2; [done|apply cstr_nul_free]]. apply fmt_d_nul_free. }
  destruct (set_at m3 e3 SIP_CSEQ_FIELD _ 0 (proj1 (proj2 K3)) ltac:(plain) Hcs) as (m4 & e4 & E4 & K4 & V4).
  unfold setCSeqField. change (Z.of_nat 0) with 0 in E4. rewrite E4. cbn [obind]. specialize (V4 eq_refl).
  assert (exists m5 e5, match contact with Some c => setContactField fill c 0 m4 | None => Ok m4 end = Ok m5
    /\ keeps [SIP_CONTACT_FIELD] m4 e4 m5 e5 /\ (contact = None -> e5 = e4)) as (m5 & e5 & -> & K5 & Hnone).
  { destruct contact as [c|]; [|exists m4, e4; split; [done|]; split; [|done]; split; [done|]; split; [apply K4|done]].
    destruct (set_at m4 e4 SIP_CONTACT_FIELD c 0 (proj1 (proj2 K4)) ltac:(plain)) as (m5 & e5 & E5 & K5 & _); [by apply Hcontact|].
    exists m5, e5. by split_and!. }
  cbn [obind]. unfold setViaFromRequest.
  destruct (via_loop_ok request hs Hr Hvia (table_size (mNameValues request)) 0 m5 e5) as (m6 & e6 & E6 & K6);
    [|unfold INT_MAX; lia|apply K5|].
  { etransitivity; [apply flat_length|]. rewrite Nat.add_0_l. by apply values_size. }
  change (Z.of_nat 0) with 0 in E6. rewrite E6. cbn [obind].
  assert (exists m7 e7, (if echo && isRecordRouteAccepted request
      then record_route_loop fill (S (length (mNameValues request))) request m6 0 else Ok m6) = Ok m7
    /\ keeps [SIP_RECORD_ROUTE_FIELD] m6 e6 m7 e7) as (m7 & e7 & -> & K7).
  { destruct (echo && _); [|exists m6, e6; split; [done|]; split; [done|]; split; [apply K6|done]].
    apply (record_route_loop_ok request hs Hr _ 0); [|apply K6].
    pose proof (length_values_of _ _ SIP_RECORD_ROUTE_FIELD Hr). lia. }
  exists m7, e7. split; [done|].
  pose proof (keeps_trans _ _ _ _ _ _ _ _ K4 (keeps_trans _ _ _ _ _ _ _ _ K5 (keeps_trans _ _ _ _ _ _ _ _ K6 K7))) as K47.
  pose proof (keeps_trans _ _ _ _ _ _ _ _ K5 (keeps_trans _ _ _ _ _ _ _ _ K6 K7)) as K57.
  pose proof (keeps_trans _ _ _ _ _ _ _ _ K3 K47) as K37. pose proof (keeps_trans _ _ _ _ _ _ _ _ K2 K37) as K27.
  pose proof (keeps_trans _ _ _ _ _ _ _ _ K1 K27) as K17.
  split; [rewrite (proj1 K17); done|]. split; [apply K17|].
  split; [by rewrite (keeps_first _ _ _ _ _ SIP_FROM_FIELD K27) by (apply (bool_decide_unpack _); vm_compute; exact I)|].
  split; [by rewrite (keeps_first _ _ _ _ _ SIP_TO_FIELD K37) by (apply (bool_decide_unpack _); vm_compute; exact I)|].
  split; [by rewrite (keeps_first _ _ _ _ _ SIP_CALLID_FIELD K47) by (apply (bool_decide_unpack _); vm_compute; exact I)|].
  split; [by rewrite (keeps_first _ _ _ _ _ SIP_CSEQ_FIELD K57) by (apply (bool_decide_unpack _); vm_compute; exact I)|].
  intros Hc n Hn. specialize (Hnone Hc). subst e5.
  destruct (keeps_trans _ _ _ _ _ _ _ _ K6 K7) as (_ & _ & V67). rewrite V67 by set_solver.
  destruct (keeps_trans _ _ _ _ _ _ _ _ K1 (keeps_trans _ _ _ _ _ _ _ _ K2 (keeps_trans _ _ _ _ _ _ _ _ K3 K4))) as (_ & _ & V14).
  apply V14. set_solver.
Qed.

Lemma elem_of_trim y x ws : y ∈ frontBackTrim x ws -> y ∈ x.
Proof.
  unfold frontBackTrim. rewrite frontTrim_strip, backTrim_strip. intros Hy.
  destruct (strip_back_prefix (in_set ws) (strip_front (in_set ws) x)) as (r & Hr).
  assert (y ∈ strip_front (in_set ws) x) as Hy' by (rewrite Hr; set_solver). unfold strip_front in Hy'.
  rewrite <- (take_drop (Z.to_nat (count_while (in_set ws) x)) x). set_solver.
Qed.

Lemma parse_cseq_shape v : nul_free v ->
  exists x, snd (parse_cseq v) = frontBackTrim x SIP_SUBFIELD_SEPARATORS /\ nul_free x /\ nul_free (snd (parse_cseq v))
    /\ snd (fst (parse_cseq v)) <= INT_MAX.
Proof.
  intros Hv. unfold parse_cseq. set (x := drop (Z.to_nat (_ + _)) v). exists x. assert (nul_free x) as Hx by (by apply Forall_drop).
  assert (nul_free (frontBackTrim x SIP_SUBFIELD_SEPARATORS)) as Hm.
  { apply Forall_forall. intros y Hy%elem_of_trim. by apply (proj1 (Forall_forall _ _) Hx). }
  destruct (strtol _ 10) as [[n e] r]. set (b := match r with [] => false | c :: _ => _ end).
  destruct (negb e && (0 <=? n) && (n <=? INT_MAX) && b) eqn:E; cbn [fst snd]; split_and!; try done.
  rewrite !andb_true_iff, !Z.leb_le in E. tauto.
Qed.

Lemma getUrls m es :
  table (mNameValues m) es ->
  getFromUrl fill pcre_exec m = Url_of_string fill pcre_exec (first_value SIP_FROM_FIELD es) NameAddr
  /\ getToUrl fill pcre_exec m = Url_of_string fill pcre_exec (first_value SIP_TO_FIELD es) NameAddr.
Proof.
  intros Ht. unfold getFromUrl, getToUrl, getFieldUrl.
  destruct (read_first _ es SIP_FROM_FIELD Ht ltac:(plain)) as (v1 & -> & <- & _).
  destruct (read_first _ es SIP_TO_FIELD Ht ltac:(plain)) as (v2 & -> & <- & _). done.
Qed.

Lemma same_from u : ready u -> isSameSession_url u u false = Ok true.
Proof.
  intros Hr. unfold isSameSession_url. case_bool_decide; cbn [andb]; [|by rewrite strcmp_refl].
  destruct (getUrlParameter_ready (bytes "transport") 0 u Hr) as (v & u' & -> & _). cbn [obind].
  by rewrite !strcmp_refl, !Z.eqb_refl.
Qed.

Lemma same_to u1 u2 : u1 = u2 \/ tag_of u2 = [] -> isSameSession_url u1 u2 true = Ok true.
Proof.
  intros [<-|E]; unfold isSameSession_url; [by rewrite strcmp_refl, !orb_true_r|].
  rewrite E, (bool_decide_true ([] = [])) by done. by rewrite orb_true_r.
Qed.

(** Two messages with the same fields, or a request without tag in its To *)
Lemma same_session r es request hs toUrl toUrl' :
  table (mNameValues r) es -> table (mNameValues request) hs ->
  first_value SIP_FROM_FIELD es = first_value SIP_FROM_FIELD hs ->
  first_value SIP_CALLID_FIELD es = first_value SIP_CALLID_FIELD hs ->
  Z.of_nat (length (first_value SIP_FROM_FIELD hs)) <= ESCAPES_MAX ->
  Url_of_string fill pcre_exec (first_value SIP_TO_FIELD es) NameAddr = Ok toUrl' ->
  Url_of_string fill pcre_exec (first_value SIP_TO_FIELD hs) NameAddr = Ok toUrl ->
  toUrl' = toUrl \/ tag_of toUrl = [] -> isSameSession fill pcre_exec r request = Ok true.
Proof.
  intros Hr Hq Ef Ec Hlen Et' Et Hto. unfold isSameSession.
  destruct (getFields r es) as (_ & _ & -> & _); [done|].
  destruct (getFields request hs) as (_ & _ & -> & _); [done|].
  cbn [obind]. rewrite Ec, strcmp_refl. cbn [Z.eqb].
  destruct (getUrls r es) as (-> & ->); [done|].
  destruct (getUrls request hs) as (-> & ->); [done|].
  rewrite Ef. destruct (Url_of_string_ready fill (first_value SIP_FROM_FIELD hs) NameAddr Hlen) as (fromUrl & -> & _ & Hrd & _).
  rewrite Et, Et'. cbn [obind]. rewrite (same_from _ Hrd). cbn [obind]. by apply same_to.
Qed.

Lemma response_status code text l :
  0 <= code <= INT_MAX -> nul_free text ->
  getResponseStatusCode (mkMsg (SIP_PROTOCOL_VERSION ++ " "%char :: fmt_d code ++ " "%char :: text) l) = Ok code.
Proof.
  intros Hc Ht. unfold getResponseStatusCode, getFirstHeaderLinePart. cbn [mFirstHeaderLine].
  rewrite cstr_id by (apply Forall_app; split; [apply (bool_decide_unpack _); vm_compute; exact I|apply Forall_cons_2; [done|]];
    apply Forall_app; split; [apply fmt_d_nul_free|by apply Forall_cons_2]).
  unfold fmt_d. rewrite (proj2 (Z.ltb_ge _ _)) by lia.
  destruct (fmt_unsigned_spec code) as (Hd & Hv & Hl); [unfold INT_MAX in Hc; lia|]. set (ds := fmt_unsigned code) in *.
  change (skip_seps " " (SIP_PROTOCOL_VERSION ++ " "%char :: ds ++ " "%char :: text))
    with (SIP_PROTOCOL_VERSION ++ " "%char :: ds ++ " "%char :: text).
  change (part_start (Z.to_nat 1) (SIP_PROTOCOL_VERSION ++ " "%char :: ds ++ " "%char :: text) " ")
    with (Some (skip_seps " " (ds ++ " "%char :: text))).
  assert (Forall (fun c => c <> " "%char) ds) as Hns by (eapply Forall_impl; [exact Hd|]; intros c Hc' ->; vm_compute in Hc'; done).
  assert (skip_seps " " (ds ++ " "%char :: text) = ds ++ " "%char :: text) as ->.
  { destruct Hns as [|c ds' Hc']; [simpl in Hl; lia|]. cbn [app skip_seps]. by rewrite decide_False. }
  change (1 <? 2) with true. cbn iota. rewrite strchr_span, span_word by done. cbn [snd].
  rewrite (take_front _ ds (" "%char :: text)) by done. rewrite <- (app_nil_r ds). rewrite atoi_digits; [by rewrite Hv|done| |rewrite Hv; lia|done].
  intros E. rewrite E in Hl. simpl in Hl. lia.
Qed.

(** C28: A response that setResponseData makes from a request, of any status, is
    recognised as a response to it, and has the status: for a request with
    readable Via headers, a readable sequence number, a From header that the
    Url parser can take, and a To header whose tag is written ;tag= or that
    has none.  A tag written with white space after the semicolon is not
    seen: the response gets a second one and is not recognised
    ([spaced_tag]). *)
Theorem response_matches_request newTag request hs code text contact echo toUrl :
  table (mNameValues request) hs -> isResponse request = false -> good_vias hs ->
  nul_free newTag -> nul_free text -> (forall c, contact = Some c -> nul_free c) -> 0 <= code <= INT_MAX ->
  0 <= snd (fst (parse_cseq (first_value SIP_CSEQ_FIELD hs))) ->
  Z.of_nat (length (first_value SIP_FROM_FIELD hs)) <= ESCAPES_MAX ->
  Url_of_string fill pcre_exec (first_value SIP_TO_FIELD hs) NameAddr = Ok toUrl ->
  contains_sub (first_value SIP_TO_FIELD hs) (bytes ";tag=") = true \/ tag_of toUrl = [] ->
  exists r, setResponseData fill newTag request code text contact echo (mkMsg [] []) = Ok r
    /\ isResponseTo fill pcre_exec r request = Ok true /\ getResponseStatusCode r = Ok code.
Proof.
  intros Ht Hreq Hvia Htag Htext Hcont Hcode Hseq Hfrom Hto Hcase.
  destruct (setResponseData_spec newTag request hs code text contact echo (mkMsg [] []) []) as
    (r & es & E & Hline & Hr & Vf & Vt & Vc & Vs & _); [done|done|apply table_nil|done..|].
  exists r. split; [done|]. split; [|destruct r as [line l]; cbn in Hline; subst line; by apply response_status].
  unfold isResponseTo. rewrite Hreq. assert (isResponse r = true) as ->.
  { unfold isResponse. rewrite Hline, take_app_length. by apply bool_decide_eq_true. }
  cbn [negb andb].
  assert (exists u, Url_of_string fill pcre_exec (first_value SIP_TO_FIELD es) NameAddr = Ok u) as (u & Hu).
  { destruct (getFieldUrl_total fill r es SIP_TO_FIELD Hr ltac:(apply header_nul_free)) as (u & Hu). exists u. rewrite <- Hu.
    symmetry. by apply getUrls. }
  rewrite (same_session r es request hs toUrl u); [|done..|].
  - cbn [obind]. destruct (getFields r es) as (_ & _ & _ & ->); [done|].
    destruct (getFields request hs) as (_ & _ & _ & ->); [done|]. cbn [obind].
    rewrite Vs. pose proof (parse_cseq_shape _ (first_nul_free _ _ SIP_CSEQ_FIELD Ht)) as (x & Hx & Hnx & Hnm & Hmax).
    rewrite cstr_id by done. rewrite Hx, parse_printed_cseq by done. cbn [obind]. rewrite <- Hx.
    destruct (parse_cseq (first_value SIP_CSEQ_FIELD hs)) as [[b n] method]. cbn [fst snd obind].
    by rewrite Z.eqb_refl, strcmp_refl.
  - destruct Hcase as [Hc|Hc]; [|by right]. left. rewrite Vt in Hu. unfold to_of_response in Hu.
    rewrite Hc, andb_false_r in Hu. congruence.
Qed.
End Response.

(** ** Searches that do not end

    Both loops read the subfield with index 0 again and again. *)

Lemma first_subfield l es name :
  table l es -> plain_name name -> Forall (fun v => Z.of_nat (length v) <= 65536) (values_of name es) ->
  getFieldSubfield l name 0 false
  = Ok (match flat (values_of name es) !! 0%nat with Some u => (true, u) | None => (false, []) end).
Proof.
  intros Ht [Hn Hu] Hl. unfold getFieldSubfield. rewrite (field_values_all l es name 0 Ht Hn) by (rewrite ?Hu; done || lia).
  rewrite Hu. cbn [obind]. change (Z.to_nat 0) with 0%nat. change (0 =? BOTTOM_SUBFIELD) with false. cbn [andb].
  by destruct (flat _ !! 0%nat).
Qed.

(** isRequireExtensionSet does not return for a message with a Require
    header, and isRequestDispositionSet does not for one whose first request
    disposition is not the one that is asked for. *)
Theorem searches_do_not_return fuel l es extension token u v :
  table l es -> Forall (fun v => Z.of_nat (length v) <= 65536) (snd <$> es) ->
  flat (values_of SIP_REQUIRE_FIELD es) !! 0%nat = Some u ->
  flat (values_of SIP_REQUEST_DISPOSITION_FIELD es) !! 0%nat = Some v -> strcmp (toupper <$> v) token <> 0 ->
  isRequireExtensionSet fuel l extension false = Ok None /\ isRequestDispositionSet fuel l token = Ok None.
Proof.
  intros Ht Hl Hu Hv Hne.
  assert (forall n, Forall (fun v => Z.of_nat (length v) <= 65536) (values_of n es)) as Hln.
  { intros n. apply Forall_forall. intros w Hw. unfold values_of in Hw. apply list_elem_of_fmap in Hw as (e & -> & He).
    apply list_elem_of_filter in He as [_ He]. rewrite Forall_forall in Hl. by apply Hl, list_elem_of_fmap_2. }
  assert (plain_name SIP_REQUIRE_FIELD /\ plain_name SIP_REQUEST_DISPOSITION_FIELD) as [P1 P2].
  { split; split; try reflexivity; apply (bool_decide_unpack _); vm_compute; exact I. }
  split.
  - generalize false. induction fuel as [|fuel IH]; intros b; [done|]. cbn [isRequireExtensionSet].
    rewrite (first_subfield l es SIP_REQUIRE_FIELD Ht P1 (Hln _)), Hu. cbn [obind]. apply IH.
  - induction fuel as [|fuel IH]; [done|]. cbn [isRequestDispositionSet].
    rewrite (first_subfield l es SIP_REQUEST_DISPOSITION_FIELD Ht P2 (Hln _)), Hv. cbn [obind].
    by rewrite (proj2 (Z.eqb_neq _ _) Hne).
Qed.

(** ** Concrete messages *)

Definition invite_headers : list header :=
  [(SIP_VIA_FIELD, bytes "SIP/2.0/UDP a.example.com;branch=z9hG4bK-1, SIP/2.0/TCP b.example.com;branch=z9hG4bK-2");
   (SIP_FROM_FIELD, bytes "Ann <sip:ann@example.com>;tag=f1"); (SIP_TO_FIELD, bytes "<sip:bob@example.com>");
   (SIP_CALLID_FIELD, bytes "call-1"); (SIP_CSEQ_FIELD, bytes "7 INVITE"); (SIP_REQUIRE_FIELD, bytes "100rel");
   (SIP_REQUEST_DISPOSITION_FIELD, bytes "fork, parallel")].
Definition invite : SipMessage := mkMsg (bytes "INVITE sip:bob@example.com SIP/2.0") (pair_of <$> invite_headers).

Lemma invite_table : table (mNameValues invite) invite_headers.
Proof.
  split; [apply pairs_of|];
    repeat (apply Forall_cons_2; [apply (bool_decide_unpack _); vm_compute; exact I|]); apply Forall_nil_2.
Qed.

Definition bob_url : Url :=
  match Url_of_string (fun _ => "?"%char) search (bytes "<sip:bob@example.com>") NameAddr with Ok u => u | _ => Url_default end.

Lemma response_matches_request_witness :
  exists r, setResponseData (fun _ => "?"%char) (bytes "t9") invite 302 (bytes "Moved Temporarily") None true (mkMsg [] []) = Ok r
    /\ isResponseTo (fun _ => "?"%char) search r invite = Ok true /\ getResponseStatusCode r = Ok 302.
Proof.
  apply (response_matches_request (fun _ => "?"%char) (H := search_Pcre 65536) (bytes "t9") invite invite_headers 302
    (bytes "Moved Temporarily") None true bob_url).
  - apply invite_table.
  - vm_compute. reflexivity.
  - split; [|vm_compute; reflexivity].
    repeat (apply Forall_cons_2; [split; [vm_compute; discriminate|apply (bool_decide_unpack _); vm_compute; exact I]|]); apply Forall_nil_2.
  - apply (bool_decide_unpack _); vm_compute; exact I.
  - apply (bool_decide_unpack _); vm_compute; exact I.
  - discriminate.
  - vm_compute. split; discriminate.
  - vm_compute. discriminate.
  - vm_compute. discriminate.
  - vm_compute. reflexivity.
  - right. vm_compute. reflexivity.
Defined.

Lemma searches_do_not_return_witness :
  isRequireExtensionSet 1000 (mNameValues invite) (bytes "replaces") false = Ok None
  /\ isRequestDispositionSet 1000 (mNameValues invite) (bytes "PARALLEL") = Ok None.
Proof.
  apply (searches_do_not_return 1000 (mNameValues invite) invite_headers (bytes "replaces") (bytes "PARALLEL")
    (bytes "100rel") (bytes "fork")).
  - apply invite_table.
  - repeat (apply Forall_cons_2; [vm_compute; discriminate|]); apply Forall_nil_2.
  - vm_compute. reflexivity.
  - vm_compute. reflexivity.
  - vm_compute. discriminate.
Defined.

(** White space before the number of a CSeq shifts the method: its start is
    counted from the wrong place. *)
Example cseq_leading_space : parse_cseq (bytes "  17 INVITE") = (true, 17, bytes "17 INVITE").
Proof. vm_compute. reflexivity. Qed.

(** A To tag after white space: the response has another one. *)
Example spaced_tag :
  let bye := mkMsg (bytes "BYE sip:bob@example.com SIP/2.0")
    (pair_of <$> [(SIP_FROM_FIELD, bytes "<sip:ann@example.com>;tag=f1"); (SIP_TO_FIELD, bytes "<sip:bob@example.com>; tag=b1");
                  (SIP_CALLID_FIELD, bytes "call-1"); (SIP_CSEQ_FIELD, bytes "8 BYE")]) in
  (let! r := setResponseData (fun _ => "?"%char) (bytes "t9") bye 200 (bytes "OK") None true (mkMsg [] []) in
   isResponseTo (fun _ => "?"%char) search r bye) = Ok false.
Proof. vm_compute. reflexivity. Qed.

(** The CANCEL of an INVITE is paired with it, but not with another call. *)
Example cancel_matches :
  let cancel c := mkMsg (bytes "CANCEL sip:bob@example.com SIP/2.0")
    (pair_of <$> [(SIP_FROM_FIELD, bytes "<sip:ann@example.com>;tag=f1"); (SIP_TO_FIELD, bytes "<sip:bob@example.com>");
                  (SIP_CALLID_FIELD, bytes c); (SIP_CSEQ_FIELD, bytes "7 CANCEL")]) in
  isInviteFor (fun _ => "?"%char) search invite (cancel "call-1") = Ok true
  /\ isInviteFor (fun _ => "?"%char) search invite (cancel "call-2") = Ok false.
Proof. vm_compute. split; reflexivity. Qed.
