(* ===== verification/SipTarget.v ===== *)
(** * Targets, top Via and Warning of a message

    [SipMessage::applyTargetUriHeaderParams], which moves the header
    parameters of a request URI into the message, [getTopVia], Max-Forwards
    and the Warning header, of [sipXtackLib/src/net/SipMessage.cpp]. *)
From Stdlib Require Import ZArith Lia Ascii String.
From stdpp Require Import base list strings.
From S2P Require Import Prelude UtlString UtlStringRefine NameValuePair RouteState NameValueTokenizer HttpMessage.
From S2P Require Import HttpMessageSpec Format Pcre UrlCodec Url RouteStateMsg RouteStateMsgSpec ProxyRoutes SipMatch.
From S2P Require Import SipMatchSpec.
Local Open Scope Z_scope.

Definition SIP_MAX_FORWARDS_FIELD : list ascii := bytes "MAX-FORWARDS".
Definition SIP_WARNING_FIELD : list ascii := bytes "WARNING".
Definition SIP_DEFAULT_MAX_FORWARDS : Z := 20.

(** The table mDisallowedUrlHeaders *)
Definition mDisallowedUrlHeaders : list (list ascii) :=
  bytes <$> ["FROM"; "CONTACT"; "M"; "CONTENT-LENGTH"; "L"; "CONTENT-TYPE"; "C"; "CONTENT-ENCODING"; "E"; "CSEQ";
             "RECORD-ROUTE"; "REFER-TO"; "REFERRED-BY"; "TO"; "T"; "USER-AGENT"; "VIA"; "V"]%string.

(** SipMessage::isUrlHeaderAllowed *)
Definition isUrlHeaderAllowed (headerFieldName : list ascii) : bool :=
  negb (bool_decide ((toupper <$> cstr headerFieldName) ∈ mDisallowedUrlHeaders)).

(** OsSocket::IpProtocolSocketType *)
Inductive IpProtocolSocketType := UNKNOWN | TCP | UDP | MULTICAST | SSL_SOCKET.

(** SipMessage::convertProtocolStringToEnum *)
Definition convertProtocolStringToEnum (protocolString : list ascii) : IpProtocolSocketType :=
  if strcasecmp protocolString (bytes "UDP") =? 0 then UDP
  else if strcasecmp protocolString (bytes "TCP") =? 0 then TCP
  else if strcasecmp protocolString (bytes "TLS") =? 0 then SSL_SOCKET
  else UNKNOWN.

Section Target.
Context (fill : nat -> ascii) (pcre_exec : pat -> list ascii -> nat -> option Match).

(** The loop over the routes of a Route header parameter: routeParams *)
Fixpoint loose_routes_loop (fuel : nat) (hdrValue : list ascii) (route : Z) (routeParams : list ascii)
    : outcome (list ascii) :=
  let! (more, thisRoute) := getSubField (c_str hdrValue) route (c_str SIP_MULTIFIELD_SEPARATOR) [] false in
  if more : bool then
    match fuel with
    | O => UB
    | S fuel' =>
        let! newRouteUrl := Url_of_string fill pcre_exec thisRoute NameAddr in
        let! (lr, newRouteUrl) := getUrlParameter (bytes "lr") 0 newRouteUrl in
        let! newRouteUrl := match lr with
                            | Some _ => Ok newRouteUrl
                            | None => setUrlParameter (bytes "lr") None newRouteUrl
                            end in
        let! (newRoute, _) := toString pcre_exec newRouteUrl in
        let routeParams := routeParams ++ (if bool_decide (routeParams = []) then [] else SIP_MULTIFIELD_SEPARATOR) in
        loose_routes_loop fuel' hdrValue (route + 1) (routeParams ++ newRoute)
    end
  else Ok routeParams.

(** The body of the loop over the header parameters *)
Definition apply_header (hdrName hdrValue : list ascii) (l : list NameValuePair) : outcome (list NameValuePair) :=
  if isUrlHeaderAllowed hdrName then
    if strcasecmp hdrName SIP_ROUTE_FIELD =? 0 then
      let! routeParams := loose_routes_loop (S (length hdrValue)) (cstr hdrValue) 0 [] in
      if bool_decide (routeParams = []) then Ok l else addRouteUri fill l (cstr routeParams)
    else if isUrlHeaderUnique hdrName then setHeaderValue fill l (cstr hdrName) (cstr hdrValue) 0
    else addHeaderField fill l (cstr hdrName) (cstr hdrValue)
  else Ok l.

(** The loop over the header parameters: requestUri, header and the message *)
Fixpoint header_params_loop (fuel : nat) (requestUri : Url) (header : Z) (m : SipMessage)
    : outcome (Url * Z * SipMessage) :=
  let! (p, requestUri) := getHeaderParameterAt header requestUri in
  match p with
  | Some (hdrName, hdrValue) =>
      match fuel with
      | O => UB
      | S fuel' =>
          let! m := on_headers (apply_header hdrName hdrValue) m in
          header_params_loop fuel' requestUri (header + 1) m
      end
  | None => Ok (requestUri, header, m)
  end.

(** SipMessage::applyTargetUriHeaderParams *)
Definition applyTargetUriHeaderParams (m : SipMessage) : outcome SipMessage :=
  let uriWithHeaderParams := getRequestUri m in
  let! requestUri := Url_of_string fill pcre_exec uriWithHeaderParams AddrSpec in
  let! (requestUri, header, m) := header_params_loop (S (length uriWithHeaderParams)) requestUri 0 m in
  if header =? 0 then Ok m
  else
    let! (uriWithoutHeaderParams, _) := getUri (removeHeaderParameters requestUri) in
    Ok (changeRequestUri (cstr uriWithoutHeaderParams) m).

(** SipMessage::getMaxForwards, setMaxForwards and decrementMaxForwards *)
Definition getMaxForwards (m : SipMessage) : outcome (option Z) :=
  let! value := getHeaderValue (mNameValues m) 0 (Some SIP_MAX_FORWARDS_FIELD) in
  match value with Some v => let! n := atoi v in Ok (Some n) | None => Ok None end.
Definition setMaxForwards (maxForwards : Z) : SipMessage -> outcome SipMessage :=
  on_headers (fun l => setHeaderValue fill l SIP_MAX_FORWARDS_FIELD (fmt_d maxForwards) 0).
Definition decrementMaxForwards (m : SipMessage) : outcome SipMessage :=
  let! n := getMaxForwards m in
  let! n := int_arith (default SIP_DEFAULT_MAX_FORWARDS n - 1) in
  setMaxForwards n m.

(** [index = s.index('/'); if (index >= 0) s.remove(0, index + 1)] *)
Definition after_slash (s : list ascii) : option (list ascii) :=
  match list_find (fun c => c = "/"%char) s with Some (i, _) => Some (drop (S i) s) | None => None end.

(** SipMessage::getTopVia for its address, port and protocol *)
Definition getTopVia (m : SipMessage) : outcome (list ascii * Z * list ascii) :=
  let! (found, via) := getFieldSubfield (mNameValues m) SIP_VIA_FIELD 0 false in
  if found : bool then
    let! (_, sipProtocol) := getSubField (c_str via) 0 (c_str SIP_SUBFIELD_SEPARATORS) [] false in
    let! (_, url) := getSubField (c_str via) 1 (c_str SIP_SUBFIELD_SEPARATORS) [] false in
    let protocol := match after_slash sipProtocol with
                    | Some s => default s (after_slash s)
                    | None => sipProtocol
                    end in
    let! viaParam := Url_of_string fill pcre_exec url AddrSpec in
    let! (receivedAddress, viaParam) := getUrlParameter (bytes "received") 0 viaParam in
    let! (maddr, viaParam) := getUrlParameter (bytes "maddr") 0 viaParam in
    let address := if negb (bool_decide (default [] maddr = [])) then default [] maddr
                   else if negb (bool_decide (default [] receivedAddress = [])) then cstr (default [] receivedAddress)
                   else mHostAddress viaParam in
    Ok (address, mHostPort viaParam, cstr protocol)
  else Ok ([], 0, []).

(** SipMessage::setWarningField: [sprintf] writes into the buffer of a
    UtlString that was given the capacity it seems to need. *)
Definition setWarningField `{Storage} (code : Z) (hostname text : list ascii) (m : SipMessage) : outcome SipMessage :=
  let sizeNeeded := 3 + Z.of_nat (length hostname) + Z.of_nat (length text) + 3 in
  let! warningContent := capacity UtlString_default sizeNeeded in
  if sizeNeeded <=? mCapacity warningContent then
    let number := repeat " "%char (3 - length (fmt_d code)) ++ fmt_d code in
    let! data := write_at (mpData warningContent) 0
                   (number ++ " "%char :: hostname ++ " "%char :: DQUOTE :: text ++ [DQUOTE; NUL]) in
    on_headers (fun l => setHeaderValue fill l SIP_WARNING_FIELD (cstr data) 0) m
  else Ok m.
End Target.

(** * The buffer of a Warning header

    setWarningField asks for two bytes less than it writes; the minimal
    increment of UtlString::capacity hides it for short texts. *)
Lemma write_at_outside buf off d : Z.of_nat (length buf) < off + Z.of_nat (length d) -> write_at buf off d = UB.
Proof. intros Hl. unfold write_at. destruct (_ && _) eqn:E; [|done]. rewrite andb_true_iff, !Z.leb_le in E. lia. Qed.

Lemma warning_number code : 300 <= code <= 399 ->
  length (fmt_d code) = 3%nat /\ nul_free (fmt_d code) /\ repeat " "%char (3 - length (fmt_d code)) ++ fmt_d code = fmt_d code.
Proof.
  intros Hc. assert (length (fmt_d code) = 3%nat) as Hl.
  { assert (forallb (fun n => (length (fmt_d (Z.of_nat n)) =? 3)%nat) (seq 300 100) = true) as E by (vm_compute; reflexivity).
    rewrite forallb_forall in E. specialize (E (Z.to_nat code)). rewrite in_seq, Z2Nat.id in E by lia. by apply Nat.eqb_eq, E; lia. }
  rewrite Hl. split; [done|]. split; [apply fmt_d_nul_free|done].
Qed.

(** The buffer that is left to sprintf *)
Lemma warning_capacity `{Storage} N : 6 <= N <= PTRDIFF_MAX ->
  exists w, capacity UtlString_default N = Ok w /\ N <= mCapacity w
    /\ Z.of_nat (length (mpData w)) = (if N <=? 100 then 100 else if N <? 200 then 200 else N).
Proof.
  intros HN. unfold capacity. change (mCapacity UtlString_default) with 100. change (100 + UTLSTRING_MIN_INCREMENT) with 200.
  change (to_size 200) with 200. change (0 <? mSize UtlString_default) with false. cbn iota.
  rewrite (proj2 (Z.ltb_lt 0 N)), andb_true_r by lia.
  destruct (Z.ltb_spec 100 N) as [Hb|Hs].
  - rewrite (proj2 (Z.leb_gt N 100)) by lia. set (N' := if N <? 200 then 200 else N).
    assert (N <= N' /\ 100 < N' <= PTRDIFF_MAX) as [H1 H2] by (unfold N', PTRDIFF_MAX in *; destruct (Z.ltb_spec N 200); lia).
    unfold new_char. rewrite (proj2 (Z.leb_le _ _)) by lia. cbn [obind].
    assert (length (uninit <$> seq 0 (Z.to_nat N')) = Z.to_nat N') as Hl by (by rewrite length_fmap, length_seq).
    rewrite write_at_ok by (rewrite ?Hl; simpl; lia). cbn [obind]. eexists. split; [done|]. cbn [mCapacity mpData].
    split; [done|]. rewrite !length_app, length_drop, Hl. simpl. lia.
  - rewrite (proj2 (Z.leb_le N 100)) by lia. exists UtlString_default. split; [done|]. split; [simpl; unfold DEFAULT_UTLSTRING_CAPACITY; lia|].
    change (Z.of_nat (S (length (uninit <$> seq 1 99))) = 100). by rewrite length_fmap, length_seq.
Qed.

(** The lengths for which the buffer is large enough *)
Definition warning_fits (n : nat) : Prop := (n <= 92 \/ 95 <= n <= 192)%nat.
#[global] Instance warning_fits_dec n : Decision (warning_fits n).
Proof. unfold warning_fits. apply _. Defined.

(** What sprintf writes *)
Definition warning_value (code : Z) (hostname text : list ascii) : list ascii :=
  fmt_d code ++ " "%char :: hostname ++ " "%char :: DQUOTE :: text ++ [DQUOTE].

Lemma warning_write `{Storage} fill code hostname text m :
  300 <= code <= 399 -> nul_free hostname -> nul_free text -> Z.of_nat (length hostname + length text) <= PTRDIFF_MAX - 6 ->
  setWarningField fill code hostname text m
  = if decide (warning_fits (length hostname + length text))
    then on_headers (fun l => setHeaderValue fill l SIP_WARNING_FIELD (warning_value code hostname text) 0) m else UB.
Proof.
  intros Hc Hh Htx Hmax. destruct (warning_number code Hc) as (Hl3 & Hn3 & En). unfold setWarningField. rewrite En in *.
  set (n := (length hostname + length text)%nat) in *.
  replace (3 + Z.of_nat (length hostname) + Z.of_nat (length text) + 3) with (Z.of_nat n + 6) by (unfold n; lia).
  destruct (warning_capacity (Z.of_nat n + 6)) as (w & -> & Hcap & Hdata); [lia|]. cbn [obind].
  rewrite (proj2 (Z.leb_le _ _)) by lia.
  set (out := fmt_d code ++ " "%char :: hostname ++ " "%char :: DQUOTE :: text ++ [DQUOTE; NUL]).
  assert (length out = n + 8)%nat as Hout.
  { unfold out, n. rewrite !length_app. cbn [length]. rewrite !length_app. cbn [length]. rewrite !length_app, Hl3. cbn [length]. lia. }
  assert (warning_fits n <-> Z.of_nat n + 8 <= Z.of_nat (length (mpData w))) as Hroom.
  { unfold warning_fits. rewrite Hdata. destruct (Z.leb_spec (Z.of_nat n + 6) 100), (Z.ltb_spec (Z.of_nat n + 6) 200); lia. }
  case_decide as Hf; rewrite Hroom in Hf; [|rewrite write_at_outside; [done|rewrite Hout; lia]].
  rewrite write_at_ok by (rewrite ?Hout; lia). cbn [obind].
  change (take (Z.to_nat 0) (mpData w)) with (@nil ascii). rewrite app_nil_l.
  assert (cstr (out ++ drop (Z.to_nat 0 + length out) (mpData w)) = warning_value code hostname text) as ->; [|done].
  assert (out = warning_value code hostname text ++ [NUL]) as -> by (unfold out, warning_value; by simplify_list_eq).
  rewrite <- app_assoc. simpl. apply cstr_app_nul. unfold warning_value. apply Forall_app. split; [done|].
  apply Forall_cons_2; [done|]. apply Forall_app. split; [done|]. repeat (apply Forall_cons_2; [done|]).
  apply Forall_app. split; [done|]. by repeat constructor.
Qed.

Lemma warning_value_nul_free code hostname text : nul_free hostname -> nul_free text -> nul_free (warning_value code hostname text).
Proof.
  intros Hh Ht. unfold warning_value. apply Forall_app. split; [apply fmt_d_nul_free|].
  apply Forall_cons_2; [done|]. apply Forall_app. split; [done|]. repeat (apply Forall_cons_2; [done|]).
  apply Forall_app. split; [done|]. by repeat constructor.
Qed.

Lemma warning_name : plain_name SIP_WARNING_FIELD.
Proof. split; [apply (bool_decide_unpack _); vm_compute; exact I|reflexivity]. Qed.

(** C40: For a host and a text of together up to 92, or 95 to 192, characters
    setWarningField sets the Warning header to them; for every other length
    sprintf writes behind the buffer it made. *)
Theorem warning_buffer `{Storage} fill code hostname text m es :
  table (mNameValues m) es -> 300 <= code <= 399 -> nul_free hostname -> nul_free text ->
  Z.of_nat (length hostname + length text) <= PTRDIFF_MAX - 6 ->
  if decide (warning_fits (length hostname + length text))
  then exists m' es', setWarningField fill code hostname text m = Ok m' /\ table (mNameValues m') es'
       /\ first_value SIP_WARNING_FIELD es' = fmt_d code ++ " "%char :: hostname ++ " "%char :: DQUOTE :: text ++ [DQUOTE]
  else setWarningField fill code hostname text m = UB.
Proof.
  intros Ht Hc Hh Htx Hmax. rewrite warning_write by done. case_decide; [|done].
  destruct (set_at fill m es SIP_WARNING_FIELD (warning_value code hostname text) 0 Ht warning_name) as (m' & es' & E & Hk & Hfv);
    [by apply warning_value_nul_free|]. exists m', es'. split; [exact E|]. split; [apply Hk|by apply Hfv].
Qed.

Definition warning_storage : Storage := fun _ => "?"%char.

Lemma warning_buffer_witness :
  setWarningField (H := warning_storage) (fun _ => "?"%char) 399 (bytes "example.com") (repeat "x"%char 82) (mkMsg [] []) = UB.
Proof.
  assert (~ warning_fits (length (bytes "example.com") + length (repeat "x"%char 82))) as Hn
    by (unfold warning_fits; vm_compute; intros [?|[? ?]]; lia).
  pose proof (warning_buffer (H := warning_storage) (fun _ => "?"%char) 399 (bytes "example.com") (repeat "x"%char 82) (mkMsg [] []) []) as Hw.
  rewrite decide_False in Hw by done. apply Hw.
  - apply table_nil.
  - lia.
  - apply (bool_decide_unpack _); vm_compute; exact I.
  - apply (bool_decide_unpack _); vm_compute; exact I.
  - vm_compute. discriminate.
Defined.
