(* ===== verification/Redirect.v ===== *)
(** * The redirect server

    [sipXregistry/src/SipRedirectServer.cpp] with [RedirectPlugin.cpp] and
    [RedirectSuspend.cpp]: a request goes through the redirect plug-ins, which
    add contacts, report an error or ask for time; a request that waits is kept
    in mSuspendList until its plug-ins have called back, it is cancelled, or the
    server stops.  Plug-ins are loaded at run time and are an interface here;
    they change contacts and error descriptions only through the public methods
    of those classes.  Suspend objects live on a heap, the suspend list is the
    UtlHashMap of UtlHashMap.v with its iterators. *)
From Stdlib Require Import ZArith Lia Ascii String.
From stdpp Require Import base list strings gmap.
From S2P Require Import Prelude UtlString UtlStringRefine Containable UtlHashMap NameValuePair NameValueTokenizer HttpMessage.
From S2P Require Import Format Pcre UrlCodec Url RouteState RouteStateMsg ProxyRoutes SipMatch SipTarget.
Local Open Scope Z_scope.

(** ** ContactList *)

Record ContactList := mkContacts {
  mRequestString : list ascii; mbListWasModified : bool; mContactList : list (list ascii); diversionHeader : list ascii }.

Definition ContactList_new (requestString : list ascii) : ContactList := mkContacts requestString false [] [].

Definition modified (cl : ContactList) (l : list (list ascii)) : ContactList :=
  mkContacts (mRequestString cl) true l (diversionHeader cl).

(** ContactList::add, set, remove, removeAll, touch: the result and the list *)
Definition contacts_add (contact : list ascii) (cl : ContactList) : bool * ContactList :=
  (true, modified cl (mContactList cl ++ [contact])).
Definition contacts_set (index : nat) (contact : list ascii) (cl : ContactList) : bool * ContactList :=
  if (index <? length (mContactList cl))%nat then (true, modified cl (<[index := contact]> (mContactList cl)))
  else (false, cl).
Definition contacts_get (index : nat) (cl : ContactList) : option (list ascii) := mContactList cl !! index.
Definition contacts_remove (index : nat) (cl : ContactList) : bool * ContactList :=
  if (index <? length (mContactList cl))%nat then (true, modified cl (delete index (mContactList cl))) else (false, cl).
Definition contacts_removeAll (cl : ContactList) : bool * ContactList := (true, modified cl []).
Definition contacts_touch (cl : ContactList) : ContactList := modified cl (mContactList cl).
Definition contacts_entries (cl : ContactList) : Z := Z.of_nat (length (mContactList cl)).
Definition resetWasModifiedFlag (cl : ContactList) : ContactList :=
  mkContacts (mRequestString cl) false (mContactList cl) (diversionHeader cl).
Definition setDiversionHeader (diversion : list ascii) (cl : ContactList) : ContactList :=
  mkContacts (mRequestString cl) (mbListWasModified cl) (mContactList cl) diversion.

(** What a plug-in can do to the list *)
Inductive ContactOp :=
| CAdd (contact : list ascii)
| CSet (index : nat) (contact : list ascii)
| CRemove (index : nat)
| CRemoveAll
| CTouch
| CSetDiversion (diversion : list ascii).

Definition contact_op (cl : ContactList) (o : ContactOp) : ContactList :=
  match o with
  | CAdd c => snd (contacts_add c cl)
  | CSet i c => snd (contacts_set i c cl)
  | CRemove i => snd (contacts_remove i cl)
  | CRemoveAll => snd (contacts_removeAll cl)
  | CTouch => contacts_touch cl
  | CSetDiversion d => setDiversionHeader d cl
  end.

(** ** ErrorDescriptor *)

Definition SIP_FORBIDDEN_CODE : Z := 403.
Definition SIP_FORBIDDEN_TEXT : list ascii := bytes "Forbidden".
Definition SIP_4XX_CLASS_CODE : Z := 400.
Definition SIP_7XX_CLASS_CODE : Z := 700.
Definition SIP_WARN_INCOMPAT_PROTO_CODE : Z := 300.
Definition SIP_WARN_MISC_CODE : Z := 399.
Definition UNINITIALIZED_WARNING_CODE : Z := -1.

Record ErrorDescriptor := mkError {
  mStatusCode : Z; mReasonPhrase : list ascii; mWarningCode : Z; mWarningText : list ascii;
  mAppendRequestToResponse : bool; mOptionalFieldsValues : list (list ascii * list ascii) }.

Definition ErrorDescriptor_new : ErrorDescriptor :=
  mkError SIP_FORBIDDEN_CODE SIP_FORBIDDEN_TEXT UNINITIALIZED_WARNING_CODE [] false [].

Definition setStatusLineData (statusCode : Z) (reasonPhrase : list ascii) (e : ErrorDescriptor) : bool * ErrorDescriptor :=
  if (SIP_4XX_CLASS_CODE <=? statusCode) && (statusCode <? SIP_7XX_CLASS_CODE)
  then (true, mkError statusCode reasonPhrase (mWarningCode e) (mWarningText e) (mAppendRequestToResponse e)
                (mOptionalFieldsValues e))
  else (false, e).
Definition setWarningData (warningCode : Z) (warningText : list ascii) (e : ErrorDescriptor) : bool * ErrorDescriptor :=
  if (SIP_WARN_INCOMPAT_PROTO_CODE <=? warningCode) && (warningCode <=? SIP_WARN_MISC_CODE)
  then (true, mkError (mStatusCode e) (mReasonPhrase e) warningCode warningText (mAppendRequestToResponse e)
                (mOptionalFieldsValues e))
  else (false, e).
Definition setAppendRequest (b : bool) (e : ErrorDescriptor) : ErrorDescriptor :=
  mkError (mStatusCode e) (mReasonPhrase e) (mWarningCode e) (mWarningText e) b (mOptionalFieldsValues e).
(** [destroy(&fieldName)] and [insertKeyAndValue] *)
Definition setOptionalFieldValue (fieldName fieldValue : list ascii) (e : ErrorDescriptor) : ErrorDescriptor :=
  mkError (mStatusCode e) (mReasonPhrase e) (mWarningCode e) (mWarningText e) (mAppendRequestToResponse e)
    ((fieldName, fieldValue) :: filter (fun f => fst f <> fieldName) (mOptionalFieldsValues e)).
Definition getOptinalFieldValue (fieldName : list ascii) (e : ErrorDescriptor) : option (list ascii) :=
  snd <$> head (filter (fun f => fst f = fieldName) (mOptionalFieldsValues e)).
Definition isWarningDataSet (e : ErrorDescriptor) : bool := negb (mWarningCode e =? UNINITIALIZED_WARNING_CODE).
Definition getWarningData (e : ErrorDescriptor) : option (Z * list ascii) :=
  if isWarningDataSet e then Some (mWarningCode e, mWarningText e) else None.

Definition SIP_RETRY_AFTER_FIELD : list ascii := bytes "RETRY-AFTER".
Definition SIP_UNSUPPORTED_FIELD : list ascii := bytes "UNSUPPORTED".
Definition SIP_ALLOW_FIELD : list ascii := bytes "ALLOW".
Definition SIP_ACCEPT_FIELD : list ascii := bytes "ACCEPT".
Definition SIP_ACCEPT_ENCODING_FIELD : list ascii := bytes "ACCEPT-ENCODING".
Definition SIP_ACCEPT_LANGUAGE_FIELD : list ascii := bytes "ACCEPT-LANGUAGE".

(** The seven optional fields, one setter each *)
Inductive OptionalField := FRetryAfter | FRequire | FUnsupported | FAllow | FAccept | FAcceptEncoding | FAcceptLanguage.
Definition field_name (f : OptionalField) : list ascii :=
  match f with
  | FRetryAfter => SIP_RETRY_AFTER_FIELD
  | FRequire => SIP_REQUIRE_FIELD
  | FUnsupported => SIP_UNSUPPORTED_FIELD
  | FAllow => SIP_ALLOW_FIELD
  | FAccept => SIP_ACCEPT_FIELD
  | FAcceptEncoding => SIP_ACCEPT_ENCODING_FIELD
  | FAcceptLanguage => SIP_ACCEPT_LANGUAGE_FIELD
  end.

Inductive ErrorOp :=
| ESetStatusLine (statusCode : Z) (reasonPhrase : list ascii)
| ESetWarning (warningCode : Z) (warningText : list ascii)
| EAppendRequest (b : bool)
| ESetField (f : OptionalField) (fieldValue : list ascii).

Definition error_op (e : ErrorDescriptor) (o : ErrorOp) : ErrorDescriptor :=
  match o with
  | ESetStatusLine c t => snd (setStatusLineData c t e)
  | ESetWarning c t => snd (setWarningData c t e)
  | EAppendRequest b => setAppendRequest b e
  | ESetField f v => setOptionalFieldValue (field_name f) v e
  end.

(** ** RedirectPlugin *)

Inductive LookUpStatus := ERROR | SEARCH_PENDING | SUCCESS | InvalidStatus.
#[global] Instance LookUpStatus_dec : EqDecision LookUpStatus.
Proof. solve_decision. Defined.

(** The exceptions handleMessage tells apart *)
Inductive Exn := DBException | BoostException | StdException | UnknownException.

(** What lookUp returns and changes *)
Record Answer := mkAnswer {
  a_status : LookUpStatus; a_requestString : list ascii; a_requestUri : Url; a_contactOps : list ContactOp;
  a_privateStorage : option nat; a_errorOps : list ErrorOp }.

(** The virtual methods; a plug-in has a state of type [P], private storage is
    known by its address. *)
Class RedirectPlugin (P : Type) : Type := {
  lookUp : P -> SipMessage -> list ascii -> Url -> list ascii -> ContactList -> Z -> nat -> option nat ->
           ErrorDescriptor -> (Exn + Answer) * P;
  observe : P -> SipMessage -> list ascii -> Url -> list ascii -> ContactList -> Z -> nat -> P;
  plugin_cancel : P -> Z -> P
}.

(** ** RedirectSuspend *)

Record redirector := mkRedirector { suspended : bool; needsCancel : bool; privateStorage : option nat }.
Record RedirectSuspend := mkSuspend { mMessage : SipMessage; mSuspendCount : Z; mRedirectors : list redirector }.

Definition RedirectSuspend_new (noRedirectors : nat) : RedirectSuspend :=
  mkSuspend (mkMsg [] []) 0 (replicate noRedirectors (mkRedirector false false None)).

(** ** SipRedirectServer *)

Definition LOWEST_AUTHORITY_LEVEL : Z := 0.
Definition SIP_CANCEL_METHOD : list ascii := bytes "CANCEL".
Definition SIP_DIVERSION_FIELD : list ascii := bytes "DIVERSION".
Definition SIP_USER_AGENT_FIELD : list ascii := bytes "USER-AGENT".
Definition PORT_DEFAULT : Z := -2.

Record RedirectorDescriptor := mkDescriptor { bActive : bool; authorityLevel : Z }.

(** What initialize leaves, and the User-Agent value of the SipUserAgent *)
Record Config := mkConfig {
  mpConfiguredRedirectors : list RedirectorDescriptor; mProxyNormalPort : Z; mDefaultDomain : list ascii;
  mAckRouteToProxy : list ascii; selfHeaderValue : list ascii }.

(** SipRedirectServer::initialize, from the configured domain and port, and
    for each plug-in whether its initialize succeeded and its configured
    authority level *)
Definition initialize (domain : list ascii) (port : Z) (redirectors : list (bool * option Z)) (self : list ascii) : Config :=
  mkConfig ((fun r => mkDescriptor (fst r) (default LOWEST_AUTHORITY_LEVEL (snd r))) <$> redirectors)
    (if port =? PORT_DEFAULT then SIP_PORT else port) domain (bytes "<" ++ domain ++ bytes ";lr>") self.

(** What the server does to the outside: calls of plug-ins, messages sent
    (with the request they are for and the one that is attached as a body),
    private storage deleted *)
Inductive event :=
| ELookUp (seqNo : Z) (redirectorNo : nat) (status : option LookUpStatus) (listModified : bool)
| EObserve (seqNo : Z) (redirectorNo : nat)
| ECancel (seqNo : Z) (redirectorNo : nat)
| ESend (request response : SipMessage) (fragment : option SipMessage)
| EForwardAck (request ack : SipMessage) (address : list ascii) (port : Z) (protocol : IpProtocolSocketType)
| EDropAck (ack : SipMessage)
| EDelete (storage : nat)
| EFinalize (redirectorNo : nat).

Record Server (P : Type) := mkServer {
  mNextSeqNo : Z; mSuspendList : UtlHashMap UtlInt nat; objects : gmap nat RedirectSuspend; next_object : nat;
  plugins : list P; trace : list event; tags : nat }.
Arguments mkServer {P} _ _ _ _ _ _ _.
Arguments mNextSeqNo {P} _. Arguments mSuspendList {P} _. Arguments objects {P} _. Arguments next_object {P} _.
Arguments plugins {P} _. Arguments trace {P} _. Arguments tags {P} _.

(** SipRedirectServer::SipRedirectServer, with the plug-ins that were loaded *)
Definition Server_new {P} (redirectPlugins : list P) : Server P := mkServer 0 UtlHashMap_default ∅ 0 redirectPlugins [] 0.

(** The message a pointer refers to: one of the caller, or the copy in a
    suspend object *)
Inductive MsgPtr := Caller (m : SipMessage) | InObject (a : nat).

(** The local variables of processRedirect *)
Record Work (P : Type) := mkWorkR {
  w_server : Server P; w_suspendObject : option nat; w_willSuspend : bool; w_willError : bool;
  w_contactListAuthorityLevel : Z; w_contactList : ContactList; w_errorDescriptor : ErrorDescriptor;
  w_stringUri : list ascii; w_uri : Url }.
Arguments mkWorkR {P} _ _ _ _ _ _ _ _ _.
Arguments w_server {P} _. Arguments w_suspendObject {P} _. Arguments w_willSuspend {P} _. Arguments w_willError {P} _.
Arguments w_contactListAuthorityLevel {P} _. Arguments w_contactList {P} _. Arguments w_errorDescriptor {P} _.
Arguments w_stringUri {P} _. Arguments w_uri {P} _.

Section Server.
Context {P : Type} `{RedirectPlugin P} `{Storage}.
Context (fill : nat -> ascii) (pcre_exec : pat -> list ascii -> nat -> option Match).
Context (cfg : Config) (newTag : nat -> list ascii).
Abbreviation server := (Server P).
Abbreviation work := (Work P).

Definition mRedirectorCount : nat := length (mpConfiguredRedirectors cfg).

Definition emit (e : event) (s : server) : server :=
  mkServer (mNextSeqNo s) (mSuspendList s) (objects s) (next_object s) (plugins s) (trace s ++ [e]) (tags s).
Definition set_plugin (i : nat) (p : P) (s : server) : server :=
  mkServer (mNextSeqNo s) (mSuspendList s) (objects s) (next_object s) (<[i := p]> (plugins s)) (trace s) (tags s).
Definition set_object (a : nat) (o : RedirectSuspend) (s : server) : server :=
  mkServer (mNextSeqNo s) (mSuspendList s) (<[a := o]> (objects s)) (next_object s) (plugins s) (trace s) (tags s).
Definition set_list (m : UtlHashMap UtlInt nat) (s : server) : server :=
  mkServer (mNextSeqNo s) m (objects s) (next_object s) (plugins s) (trace s) (tags s).

(** [p->...]: the object must be alive. *)
Definition object (s : server) (a : nat) : outcome RedirectSuspend :=
  match objects s !! a with Some o => Ok o | None => UB end.
Definition deref (s : server) (p : MsgPtr) : outcome SipMessage :=
  match p with Caller m => Ok m | InObject a => let! o := object s a in Ok (mMessage o) end.

(** [suspendObject->mRedirectors[i]] *)
Definition slot (o : RedirectSuspend) (i : nat) : outcome redirector :=
  match mRedirectors o !! i with Some r => Ok r | None => UB end.
Definition set_slot (i : nat) (r : redirector) (o : RedirectSuspend) : RedirectSuspend :=
  mkSuspend (mMessage o) (mSuspendCount o) (<[i := r]> (mRedirectors o)).

(** [response.setResponseData(request, code, text)] on a new message; each
    response takes a tag of its own. *)
Definition new_response (s : server) (request : SipMessage) (code : Z) (text : list ascii) : outcome (SipMessage * server) :=
  let! r := setResponseData fill (newTag (tags s)) request code text None true (mkMsg [] []) in
  Ok (r, mkServer (mNextSeqNo s) (mSuspendList s) (objects s) (next_object s) (plugins s) (trace s) (S (tags s))).

(** SipUserAgent::setUserAgentHeader *)
Definition setUserAgentHeader (m : SipMessage) : outcome SipMessage :=
  let! uaName := getHeaderValue (mNameValues m) 0 (Some SIP_USER_AGENT_FIELD) in
  match uaName with
  | Some _ => Ok m
  | None => on_headers (fun l => setHeaderValue fill l SIP_USER_AGENT_FIELD (cstr (selfHeaderValue cfg)) 0) m
  end.

(** ** cancelRedirect *)

Fixpoint cancel_loop (n i : nat) (seqNo : Z) (a : nat) (s : server) : outcome server :=
  match n with
  | O => Ok s
  | S n' =>
      match mpConfiguredRedirectors cfg !! i, plugins s !! i with
      | Some d, Some p =>
          let! needed := (if bActive d then let! o := object s a in let! r := slot o i in Ok (needsCancel r) else Ok false) in
          cancel_loop n' (S i) seqNo a
            (if needed : bool then emit (ECancel seqNo i) (set_plugin i (plugin_cancel p seqNo) s) else s)
      | _, _ => UB
      end
  end.

(** [delete suspendObject]: RedirectSuspend::~RedirectSuspend *)
Definition delete_object (a : nat) (s : server) : outcome server :=
  let! o := object s a in
  let freed := omap privateStorage (mRedirectors o) in
  Ok (mkServer (mNextSeqNo s) (mSuspendList s) (delete a (objects s)) (next_object s) (plugins s)
        (trace s ++ (EDelete <$> freed)) (tags s)).

(** SipRedirectServer::cancelRedirect *)
Definition cancelRedirect (seqNo : Z) (a : nat) (s : server) : outcome server :=
  let! s := cancel_loop mRedirectorCount 0 seqNo a s in
  let! (_, deleted, m) := destroy (mSuspendList s) (Some (mkInt seqNo)) in
  let s := set_list m s in
  match deleted with
  | Some (_, Some b) => delete_object b s
  | _ => Ok s
  end.

(** ** processRedirect *)

(** [new RedirectSuspend] and its insertion into mSuspendList *)
Definition suspend_request (message : SipMessage) (seqNo : Z) (s : server) : outcome (nat * server) :=
  let a := next_object s in
  let o := RedirectSuspend_new mRedirectorCount in
  let! (_, m) := insertKeyAndValue (mSuspendList s) (Some (mkInt seqNo)) (VObj a) in
  Ok (a, mkServer (if seqNo =? mNextSeqNo s then to_uint (mNextSeqNo s + 1) else mNextSeqNo s) m
           (<[a := mkSuspend message (mSuspendCount o) (mRedirectors o)]> (objects s)) (S a) (plugins s) (trace s) (tags s)).

(** The work after lookUp has returned *)
Definition after_lookUp (i : nat) (d : RedirectorDescriptor) (message : SipMessage) (seqNo : Z) (ans : Answer) (w : work)
    (s : server) : outcome work :=
  let contactList := foldl contact_op (resetWasModifiedFlag (w_contactList w)) (a_contactOps ans) in
  let errorDescriptor := foldl error_op (w_errorDescriptor w) (a_errorOps ans) in
  let! (suspendObject, s) :=
    match w_suspendObject w with
    | Some a => Ok (Some a, s)
    | None =>
        if bool_decide (a_status ans = SEARCH_PENDING) || bool_decide (is_Some (a_privateStorage ans))
        then let! (a, s) := suspend_request message seqNo s in Ok (Some a, s)
        else Ok (None, s)
    end in
  let! s := match suspendObject with
            | Some a =>
                let! o := object s a in
                let! r := slot o i in
                Ok (set_object a (set_slot i (mkRedirector (suspended r) (needsCancel r) (a_privateStorage ans)) o) s)
            | None => Ok s
            end in
  let w' level willSuspend willError s :=
    mkWorkR s suspendObject willSuspend willError level contactList errorDescriptor (a_requestString ans) (a_requestUri ans) in
  match a_status ans with
  | SUCCESS =>
      Ok (w' (if mbListWasModified contactList then authorityLevel d else w_contactListAuthorityLevel w)
            (w_willSuspend w) (w_willError w) s)
  | ERROR => Ok (w' (w_contactListAuthorityLevel w) (w_willSuspend w) true s)
  | SEARCH_PENDING =>
      match suspendObject with
      | Some a =>
          let! o := object s a in
          let! r := slot o i in
          let! count := int_arith (mSuspendCount o + 1) in
          let o := set_slot i (mkRedirector true true (privateStorage r)) o in
          Ok (w' (w_contactListAuthorityLevel w) true (w_willError w) (set_object a (mkSuspend (mMessage o) count (mRedirectors o)) s))
      | None => UB
      end
  | InvalidStatus => Ok (w' (w_contactListAuthorityLevel w) (w_willSuspend w) (w_willError w) s)
  end.

(** One plug-in: the work and the exception it raised, if any *)
Definition redirect_one (i : nat) (pMessage : MsgPtr) (method : list ascii) (seqNo : Z) (w : work) : outcome (work * option Exn) :=
  let s := w_server w in
  match mpConfiguredRedirectors cfg !! i, plugins s !! i with
  | Some d, Some p =>
      if bActive d then
        let! message := deref s pMessage in
        if w_contactListAuthorityLevel w <=? authorityLevel d then
          let! privateStorageP :=
            match w_suspendObject w with
            | Some a => let! o := object s a in let! r := slot o i in Ok (privateStorage r)
            | None => Ok None
            end in
          let '(answer, p) := lookUp p message (w_stringUri w) (w_uri w) method (resetWasModifiedFlag (w_contactList w))
                                seqNo i privateStorageP (w_errorDescriptor w) in
          let s := set_plugin i p s in
          match answer with
          | inl e =>
              Ok (mkWorkR (emit (ELookUp seqNo i None false) s) (w_suspendObject w) (w_willSuspend w) (w_willError w)
                    (w_contactListAuthorityLevel w) (w_contactList w) (w_errorDescriptor w) (w_stringUri w) (w_uri w), Some e)
          | inr ans =>
              let modified := mbListWasModified (foldl contact_op (resetWasModifiedFlag (w_contactList w)) (a_contactOps ans)) in
              let! w := after_lookUp i d message seqNo ans w (emit (ELookUp seqNo i (Some (a_status ans)) modified) s) in
              Ok (w, None)
          end
        else
          let p := observe p message (w_stringUri w) (w_uri w) method (w_contactList w) seqNo i in
          Ok (mkWorkR (emit (EObserve seqNo i) (set_plugin i p s)) (w_suspendObject w) (w_willSuspend w) (w_willError w)
                (w_contactListAuthorityLevel w) (w_contactList w) (w_errorDescriptor w) (w_stringUri w) (w_uri w), None)
      else Ok (w, None)
  | _, _ => UB
  end.

(** The loop over the plug-ins; [n] are left. *)
Fixpoint redirect_loop (n i : nat) (pMessage : MsgPtr) (method : list ascii) (seqNo : Z) (w : work)
    : outcome (work * option Exn) :=
  match n with
  | O => Ok (w, None)
  | S n' =>
      if w_willError w then Ok (w, None)
      else
        let! (w, exn) := redirect_one i pMessage method seqNo w in
        match exn with Some _ => Ok (w, exn) | None => redirect_loop n' (S i) pMessage method seqNo w end
  end.

(** ** The answer to a request that does not wait any more *)

Definition SIP_TEMPORARY_MOVE_CODE : Z := 302.
Definition SIP_TEMPORARY_MOVE_TEXT : list ascii := bytes "Moved Temporarily".
Definition SIP_NOT_FOUND_CODE : Z := 404.
Definition SIP_NOT_FOUND_TEXT : list ascii := bytes "Not Found".
Definition SIP_REQUEST_TERMINATED_CODE : Z := 487.
Definition SIP_REQUEST_TERMINATED_TEXT : list ascii := bytes "Request Terminated".
Definition SIP_SERVICE_UNAVAILABLE_CODE : Z := 503.
Definition HTTP_CONTENT_TYPE_FIELD : list ascii := bytes "CONTENT-TYPE".
Definition CONTENT_TYPE_MESSAGE_SIPFRAG : list ascii := bytes "message/sipfrag".

Definition setField (name value : list ascii) : SipMessage -> outcome SipMessage :=
  on_headers (fun l => setHeaderValue fill l name value 0).

(** One of the optional fields of an error response: setAcceptField, ... *)
Definition set_optional (errorDescriptor : ErrorDescriptor) (f : OptionalField) (response : SipMessage) : outcome SipMessage :=
  match getOptinalFieldValue (field_name f) errorDescriptor with
  | Some textValue => setField (field_name f) (cstr textValue) response
  | None => Ok response
  end.

(** SipRedirectServer::buildResponseFromRequestAndErrorDescriptor: the response
    and the request that setRequestDiagBody makes its body *)
Definition buildResponseFromRequestAndErrorDescriptor (request : SipMessage) (errorDescriptor : ErrorDescriptor) (s : server)
    : outcome (SipMessage * option SipMessage * server) :=
  let! (response, s) := new_response s request (mStatusCode errorDescriptor) (cstr (mReasonPhrase errorDescriptor)) in
  let! response := match getWarningData errorDescriptor with
                   | Some (code, text) => setWarningField fill code (cstr (mDefaultDomain cfg)) (cstr text) response
                   | None => Ok response
                   end in
  let append := mAppendRequestToResponse errorDescriptor in
  let! response := (if append then setField HTTP_CONTENT_TYPE_FIELD CONTENT_TYPE_MESSAGE_SIPFRAG response else Ok response) in
  let! response := set_optional errorDescriptor FAccept response in
  let! response := set_optional errorDescriptor FAcceptEncoding response in
  let! response := set_optional errorDescriptor FAcceptLanguage response in
  let! response := set_optional errorDescriptor FAllow response in
  let! response := set_optional errorDescriptor FRequire response in
  let! response := set_optional errorDescriptor FRetryAfter response in
  let! response := set_optional errorDescriptor FUnsupported response in
  Ok (response, if append then Some request else None, s).

(** The contacts of a 302 response, from [index] on *)
Fixpoint contacts_loop (contacts : list (list ascii)) (index : Z) (response : SipMessage) : outcome SipMessage :=
  match contacts with
  | [] => Ok response
  | c :: contacts' =>
      let! response := setContactField fill (cstr c) (to_int index) response in contacts_loop contacts' (index + 1) response
  end.

(** The response: an error, 302 or 404 *)
Definition build_response (request : SipMessage) (willError : bool) (contactList : ContactList)
    (errorDescriptor : ErrorDescriptor) (s : server) : outcome (SipMessage * option SipMessage * server) :=
  if willError then buildResponseFromRequestAndErrorDescriptor request errorDescriptor s
  else if 0 <? contacts_entries contactList then
    let! (response, s) := new_response s request SIP_TEMPORARY_MOVE_CODE SIP_TEMPORARY_MOVE_TEXT in
    let! response := contacts_loop (mContactList contactList) 0 response in
    let! response := (if bool_decide (diversionHeader contactList = []) then Ok response
                      else on_headers (fun l => addHeaderField fill l SIP_DIVERSION_FIELD (cstr (diversionHeader contactList)))
                             response) in
    Ok (response, None, s)
  else
    let! (response, s) := new_response s request SIP_NOT_FOUND_CODE SIP_NOT_FOUND_TEXT in
    Ok (response, None, s).

(** An ACK for which one contact was found, as it goes back to the proxy *)
Definition forward_ack (message : SipMessage) (contactNameAddr : list ascii) : outcome event :=
  let! contactUri := Url_of_string fill pcre_exec contactNameAddr NameAddr in
  let! (contactAddrSpec, _) := getUri contactUri in
  let ackCopy := setFirstHeaderLine SIP_ACK_METHOD (cstr contactAddrSpec) SIP_PROTOCOL_VERSION message in
  let! ackCopy := on_headers (fun l => remove_all_loop (S (length l)) l SIP_ROUTE_FIELD) ackCopy in
  let! ackCopy := applyTargetUriHeaderParams fill pcre_exec ackCopy in
  let! ackCopy := on_headers (fun l => addRouteUri fill l (cstr (mAckRouteToProxy cfg))) ackCopy in
  let! maxForwards := getMaxForwards ackCopy in
  let! maxForwards := int_arith (default SIP_DEFAULT_MAX_FORWARDS maxForwards - 1) in
  let! ackCopy := setMaxForwards fill maxForwards ackCopy in
  let! (lastViaAddress, lastViaPort, lastViaProtocol) := getTopVia fill pcre_exec ackCopy in
  Ok (EForwardAck message ackCopy lastViaAddress lastViaPort (convertProtocolStringToEnum (cstr lastViaProtocol))).

(** What is sent once the plug-ins have done all they can *)
Definition finish (message : SipMessage) (method : list ascii) (willError : bool) (contactList : ContactList)
    (errorDescriptor : ErrorDescriptor) (s : server) : outcome server :=
  if strcasecmp method SIP_ACK_METHOD =? 0 then
    match willError, mContactList contactList with
    | false, [contactNameAddr] => let! e := forward_ack message contactNameAddr in Ok (emit e s)
    | _, _ => Ok (emit (EDropAck message) s)
    end
  else
    let! (response, fragment, s) := build_response message willError contactList errorDescriptor s in
    let! response := setUserAgentHeader response in
    Ok (emit (ESend message response fragment) s).

(** SipRedirectServer::processRedirect: the exception a plug-in raised, if any,
    and the server *)
Definition processRedirect (pMessage : MsgPtr) (method : list ascii) (seqNo : Z) (suspendObject : option nat) (s : server)
    : outcome (option Exn * server) :=
  let! message := deref s pMessage in
  let stringUri := getRequestUri message in
  let! requestUri := Url_of_string fill pcre_exec stringUri AddrSpec in
  let requestUri := if negb (mProxyNormalPort cfg =? PORT_NONE) && (mHostPort requestUri =? mProxyNormalPort cfg)
                    then setHostPort PORT_NONE requestUri else requestUri in
  let! (w, exn) := redirect_loop mRedirectorCount 0 pMessage method seqNo
                     (mkWorkR s suspendObject false false LOWEST_AUTHORITY_LEVEL (ContactList_new stringUri)
                        ErrorDescriptor_new stringUri requestUri) in
  match exn with
  | Some _ => Ok (exn, w_server w)
  | None =>
      if w_willError w || negb (w_willSuspend w) then
        let! message := deref (w_server w) pMessage in
        let! s := finish message method (w_willError w) (w_contactList w) (w_errorDescriptor w) (w_server w) in
        let! s := match w_suspendObject w with Some a => cancelRedirect seqNo a s | None => Ok s end in
        Ok (None, s)
      else Ok (None, w_server w)
  end.

(** ** handleMessage *)

(** [itor()] on the iterator the server has made, and [itor.value()] *)
Definition next_suspended (s : server) : outcome (option (UtlInt * nat) * server) :=
  let! (k, m) := iter_call (mSuspendList s) 0 in
  let s := set_list m s in
  match k, mIteratorList m !! 0%nat with
  | Some k, Some it => let! v := iter_value m it in match v with VObj a => Ok (Some (k, a), s) | _ => UB end
  | None, _ => Ok (None, s)
  | _, None => UB
  end.

(** The loop of CANCEL *)
Fixpoint cancel_invite_loop (fuel : nat) (message : SipMessage) (s : server) : outcome server :=
  let! (next, s) := next_suspended s in
  match next, fuel with
  | None, _ => Ok s
  | Some _, O => UB
  | Some (requestNo, a), S fuel' =>
      let! o := object s a in
      let! applies := isInviteFor fill pcre_exec (mMessage o) message in
      let! s := (if applies : bool then
                   let! (response, s) := new_response s (mMessage o) SIP_REQUEST_TERMINATED_CODE SIP_REQUEST_TERMINATED_TEXT in
                   cancelRedirect (to_uint (mValue requestNo)) a (emit (ESend (mMessage o) response None) s)
                 else Ok s) in
      cancel_invite_loop fuel' message s
  end.

(** The loop of OS_SHUTDOWN *)
Fixpoint cancel_all_loop (fuel : nat) (s : server) : outcome server :=
  let! (next, s) := next_suspended s in
  match next, fuel with
  | None, _ => Ok s
  | Some _, O => UB
  | Some (key, a), S fuel' => let! s := cancelRedirect (to_uint (mValue key)) a s in cancel_all_loop fuel' s
  end.

(** [f] between the construction and the destruction of an iterator *)
Definition with_iterator (f : nat -> server -> outcome server) (s : server) : outcome server :=
  let! s' := f (S (Z.to_nat (entries (mSuspendList s)))) (set_list (iter_new (mSuspendList s)) s) in
  let! m := iter_delete (mSuspendList s') 0 in
  Ok (set_list m s').

Inductive OsMsg :=
| PHONE_APP (message : SipMessage)
| REDIRECT_RESTART (seqNo : Z) (redirectorNo : Z)
| OS_SHUTDOWN
| OTHER_MSG.

Definition errorString (e : Exn) : list ascii :=
  bytes match e with
        | DBException => "Registry - Mongo DB Exception"
        | BoostException => "Registry - Boost Library Exception"
        | StdException => "Registry - Standard Library Exception"
        | UnknownException => "Registry - Unknown Exception"
        end.

(** The case PHONE_APP *)
Definition handle_request (message : SipMessage) (s : server) : outcome (option Exn * server) :=
  let method := getRequestMethod message in
  if strcasecmp method SIP_CANCEL_METHOD =? 0 then
    let! s := with_iterator (fun fuel => cancel_invite_loop fuel message) s in Ok (None, s)
  else processRedirect (Caller message) method (mNextSeqNo s) None s.

(** The case REDIRECT_RESTART: [handled], the exception and the server *)
Definition handle_restart (seqNo redirectorNo : Z) (s : server) : outcome (bool * option Exn * server) :=
  let! v := findValue (mSuspendList s) (mkInt seqNo) in
  match v with
  | VObj a =>
      if (redirectorNo <? 0) || (Z.of_nat mRedirectorCount <=? redirectorNo) then Ok (false, None, s)
      else
        let! o := object s a in
        let! r := slot o (Z.to_nat redirectorNo) in
        if suspended r then
          let! count := int_arith (mSuspendCount o - 1) in
          let o := set_slot (Z.to_nat redirectorNo) (mkRedirector false (needsCancel r) (privateStorage r)) o in
          let s := set_object a (mkSuspend (mMessage o) count (mRedirectors o)) s in
          if count =? 0 then
            let! (exn, s) := processRedirect (InObject a) (getRequestMethod (mMessage o)) seqNo (Some a) s in
            Ok (bool_decide (exn = None), exn, s)
          else Ok (true, None, s)
        else Ok (false, None, s)
  | _ => Ok (false, None, s)
  end.

(** The case OS_SHUTDOWN; the plug-ins are deleted. *)
Definition handle_shutdown (s : server) : outcome server :=
  let! s := with_iterator cancel_all_loop s in
  Ok (mkServer (mNextSeqNo s) (mSuspendList s) (objects s) (next_object s) []
        (trace s ++ (EFinalize <$> seq 0 (length (plugins s)))) (tags s)).

(** SipRedirectServer::handleMessage *)
Definition handleMessage (eventMessage : OsMsg) (s : server) : outcome (bool * server) :=
  match eventMessage with
  | PHONE_APP message =>
      let! (exn, s) := handle_request message s in
      match exn with
      | None => Ok (true, s)
      | Some e =>
          let! (finalResponse, s) := new_response s message SIP_SERVICE_UNAVAILABLE_CODE (errorString e) in
          Ok (true, emit (ESend message finalResponse None) s)
      end
  | REDIRECT_RESTART seqNo redirectorNo =>
      let! (handled, _, s) := handle_restart seqNo redirectorNo s in Ok (handled, s)
  | OS_SHUTDOWN => let! s := handle_shutdown s in Ok (true, s)
  | OTHER_MSG => Ok (false, s)
  end.

(** SipRedirectServer::getPrivateStorage: the result of findValue is used
    without a check. *)
Definition getPrivateStorage (requestSeqNo : Z) (redirectorNo : Z) (s : server) : outcome (option nat) :=
  let! v := findValue (mSuspendList s) (mkInt requestSeqNo) in
  match v with
  | VObj a => let! o := object s a in
              if redirectorNo <? 0 then UB else let! r := slot o (Z.to_nat redirectorNo) in Ok (privateStorage r)
  | _ => UB
  end.
End Server.
