(* ===== verification/RedirectHeap.v ===== *)
(** * The suspended requests of the redirect server

    The invariant that ties mSuspendList to the suspend objects on the heap,
    and what the operations on them do: suspending a request, changing its
    flags, cancelling it. *)
From Stdlib Require Import ZArith Lia Ascii String.
From stdpp Require Import base list strings gmap sets.
From S2P Require Import Prelude UtlString Containable UtlHashMap UtlHashMapSpec UtlHashMapIterSpec UtlHashMapWalk.
From S2P Require Import NameValuePair HttpMessage Url RouteStateMsg SipMatch SipTarget Redirect.
Local Open Scope Z_scope.

(** ** Outcomes that may be excused

    [safe E m Q]: [m] returns a result that satisfies [Q], or [E] excuses it. *)
Definition safe {A} (E : Prop) (m : outcome A) (Q : A -> Prop) : Prop :=
  match m with Ok a => Q a | _ => E end.

Lemma safe_bind {A B} E (m : outcome A) (f : A -> outcome B) (Q : B -> Prop) :
  safe E m (fun a => safe E (f a) Q) -> safe E (obind m f) Q.
Proof. by destruct m. Qed.

Lemma safe_mono {A} E (m : outcome A) (Q R : A -> Prop) : safe E m Q -> (forall a, Q a -> R a) -> safe E m R.
Proof. destruct m; simpl; auto. Qed.

Lemma safe_seq {A B} E (m : outcome A) (f : A -> outcome B) (P : A -> Prop) (Q : B -> Prop) :
  safe E m P -> (forall a, P a -> safe E (f a) Q) -> safe E (obind m f) Q.
Proof. intros Hm Hf. apply safe_bind. by eapply safe_mono. Qed.

Lemma safe_Ok {A} (m : outcome A) Q : safe False m Q <-> exists a, m = Ok a /\ Q a.
Proof. destruct m; simpl; split; try done; [by eauto|by intros (? & [= ->] & ?)|by intros (? & ? & ?)..]. Qed.

Lemma safe_weaken {A} (E F : Prop) (m : outcome A) Q : (E -> F) -> safe E m Q -> safe F m Q.
Proof. by destruct m; simpl. Qed.

Lemma safe_of_Ok {A} E (m : outcome A) Q : (exists a, m = Ok a /\ Q a) -> safe E m Q.
Proof. intros (a & -> & Ha). exact Ha. Qed.

Lemma safe_excused {A} (E : Prop) (m : outcome A) : E -> safe E m (fun _ => True).
Proof. by destruct m. Qed.

Lemma filter_replicate_none {A} (Q : A -> Prop) `{forall x, Decision (Q x)} n x : ~ Q x -> filter Q (replicate n x) = [].
Proof. intros Hx. induction n as [|n IH]; [done|]. simpl. by rewrite filter_cons_False. Qed.

Section Heap.
Context {P : Type} `{RedirectPlugin P} (cfg : Config) (G : SipMessage -> Prop).
Abbreviation server := (Server P).
Abbreviation count := (mRedirectorCount cfg).
Implicit Types (s : server) (l : list (Z * nat)) (o : RedirectSuspend) (a : nat).

(** ** The invariant *)

Definition kvs (m : UtlHashMap UtlInt nat) : list (UtlInt * vptr nat) := kv_of <$> concat (mpBucket m).
Definition entry (e : Z * nat) : UtlInt * vptr nat := (mkInt (fst e), VObj (snd e)).

(** The number of plug-ins a request waits for *)
Definition number_suspended (rs : list redirector) : nat := length (filter (fun r => suspended r = true) rs).

Definition slots_ok o : Prop :=
  length (mRedirectors o) = count /\ mSuspendCount o = Z.of_nat (number_suspended (mRedirectors o))
  /\ Forall (fun r => suspended r = true -> needsCancel r = true) (mRedirectors o).

(** The entries of mSuspendList are [l]: distinct numbers, already used, each
    with an object of its own, and no object is outside the list. *)
Record tidy s l : Prop := {
  t_inv : hm_inv (valid := fun _ => True) (mSuspendList s);
  t_list : kvs (mSuspendList s) ≡ₚ entry <$> l;
  t_addr : NoDup (snd <$> l);
  t_dom : forall a, is_Some (objects s !! a) <-> a ∈ snd <$> l;
  t_next : forall a, a ∈ snd <$> l -> (a < next_object s)%nat;
  t_keys : Forall (fun e => 0 <= fst e < mNextSeqNo s) l;
  t_length : Z.of_nat (length l) <= mNextSeqNo s;
  t_objects : forall a o, objects s !! a = Some o -> slots_ok o /\ G (mMessage o);
  t_plugins : length (plugins s) = count
}.

(** The requests that wait *)
Definition waiting_in (h : gmap nat RedirectSuspend) l : list SipMessage := omap (fun e => mMessage <$> h !! snd e) l.
Definition waiting s l : list SipMessage := waiting_in (objects s) l.

(** Nothing but plug-ins, trace and tags has changed. *)
Definition same_heap s s' : Prop :=
  mNextSeqNo s' = mNextSeqNo s /\ mSuspendList s' = mSuspendList s /\ objects s' = objects s
  /\ next_object s' = next_object s /\ length (plugins s') = length (plugins s).

Lemma same_heap_refl s : same_heap s s.
Proof. done. Qed.
Lemma same_heap_trans s1 s2 s3 : same_heap s1 s2 -> same_heap s2 s3 -> same_heap s1 s3.
Proof. intros (? & ? & ? & ? & ?) (? & ? & ? & ? & ?). split_and!; congruence. Qed.

Lemma tidy_same s s' l : same_heap s s' -> tidy s l -> tidy s' l /\ waiting s' l = waiting s l.
Proof.
  intros (E1 & E2 & E3 & E4 & E5) []. unfold waiting. rewrite E3. split; [|done]. split; rewrite ?E1, ?E2, ?E3, ?E4; try done.
  by rewrite E5.
Qed.

Lemma emit_same e s : same_heap s (emit e s).
Proof. done. Qed.
Lemma set_plugin_same i p s : same_heap s (set_plugin i p s).
Proof. split_and!; try done. apply length_insert. Qed.

Lemma keys_small s l e : tidy s l -> mNextSeqNo s < 2 ^ 32 -> e ∈ l -> to_uint (fst e) = fst e.
Proof. intros Ht Hn He. pose proof (t_keys _ _ Ht) as Hk. rewrite Forall_forall in Hk. specialize (Hk e He). apply to_uint_small. lia. Qed.

Lemma tidy_perm s l l' : l ≡ₚ l' -> tidy s l -> tidy s l'.
Proof.
  intros Hp []. split; try done; try (by rewrite <- Hp).
  - intros a. rewrite <- Hp. done.
  - intros a. rewrite <- Hp. auto.
Qed.

Lemma waiting_perm s l l' : l ≡ₚ l' -> waiting s l ≡ₚ waiting s l'.
Proof. intros Hp. unfold waiting, waiting_in. by rewrite Hp. Qed.

Lemma waiting_ext h h' l :
  (forall e, e ∈ l -> mMessage <$> h' !! snd e = mMessage <$> h !! snd e) -> waiting_in h' l = waiting_in h l.
Proof.
  unfold waiting_in. induction l as [|e l IH]; intros He; [done|]. csimpl. rewrite (He e) by set_solver.
  by rewrite IH by set_solver.
Qed.

(** ** One object *)

Lemma live s l k a : tidy s l -> (k, a) ∈ l -> exists o, objects s !! a = Some o /\ object s a = Ok o.
Proof.
  intros Ht Hin. destruct (proj2 (t_dom _ _ Ht a)) as [o Ho]; [apply list_elem_of_fmap; by exists (k, a)|].
  exists o. unfold object. by rewrite Ho.
Qed.

Lemma slot_ok o i : slots_ok o -> (i < count)%nat -> exists r, mRedirectors o !! i = Some r /\ slot o i = Ok r.
Proof.
  intros (Hl & _) Hi. destruct (lookup_lt_is_Some_2 (mRedirectors o) i) as [r Hr]; [lia|]. exists r. unfold slot. by rewrite Hr.
Qed.

(** Another object with the same request in its place *)
Lemma tidy_set_object s l a o o' :
  tidy s l -> objects s !! a = Some o -> mMessage o' = mMessage o -> slots_ok o' ->
  tidy (set_object a o' s) l /\ waiting (set_object a o' s) l = waiting s l.
Proof.
  intros [] Ho Hm Hs. split.
  - split; simpl; try done.
    + intros b. rewrite lookup_insert_is_Some'. rewrite <- t_dom0. split; [|by auto]. intros [<-|?]; [by eauto|done].
    + intros b o1 Hb. destruct (decide (a = b)) as [<-|Hne].
      * rewrite lookup_insert_eq in Hb. injection Hb as <-. split; [done|]. rewrite Hm. by apply t_objects0 in Ho as [_ ?].
      * rewrite lookup_insert_ne in Hb by done. eauto.
  - apply waiting_ext. intros e _. simpl. destruct (decide (a = snd e)) as [->|Hne].
    + rewrite lookup_insert_eq, Ho. simpl. by rewrite Hm.
    + by rewrite lookup_insert_ne.
Qed.

(** ** mSuspendList *)

Lemma tidy_abstracts s l : tidy s l -> mIteratorList (mSuspendList s) = [] -> abstracts (valid := fun _ => True) (mSuspendList s) (entry <$> l).
Proof. intros [] Hi. by split_and!. Qed.

Lemma entries_unique s l x y : tidy s l -> x ∈ l -> y ∈ l -> fst x = fst y -> x = y.
Proof.
  intros Ht Hx Hy E. pose proof (t_inv _ _ Ht) as (_ & _ & _ & (_ & _ & Hu)).
  assert (forall z, z ∈ l -> exists p, p ∈ concat (mpBucket (mSuspendList s)) /\ kv_of p = entry z) as Hp.
  { intros z Hz. assert (entry z ∈ kvs (mSuspendList s)) as Hin by (rewrite (t_list _ _ Ht); by apply list_elem_of_fmap_2).
    apply list_elem_of_fmap in Hin as (p & -> & Hp). by exists p. }
  destruct (Hp x Hx) as (p & Hpi & Ep), (Hp y Hy) as (q & Hqi & Eq). injection Ep as Ek Ev. injection Eq as Ek' Ev'.
  assert (p = q) as <-.
  { apply Hu; [done..|]. rewrite Ek, Ek'. by rewrite E, key_refl. }
  destruct x, y. simpl in *. congruence.
Qed.

Lemma find_entry s l k : tidy s l -> mIteratorList (mSuspendList s) = [] -> mNextSeqNo s < 2 ^ 32 -> 0 <= k < 2 ^ 32 ->
  match find_kv (mkInt k) (entry <$> l) with
  | Some kv => exists a, kv = entry (k, a) /\ (k, a) ∈ l
  | None => forall a, (k, a) ∉ l
  end.
Proof.
  intros Ht Hi Hn Hk. destruct (decide (k ∈ fst <$> l)) as [Hin|Hout].
  - apply list_elem_of_fmap in Hin as ([k' a] & -> & Hin). simpl.
    rewrite (find_kv_Some (valid := fun _ => True) _ _ (entry (k', a))); [by exists a|..].
    + apply (abstracts_unique (valid := fun _ => True) (mSuspendList s)). by apply tidy_abstracts.
    + by apply list_elem_of_fmap_2.
    + simpl. by rewrite Z.sub_diag.
  - rewrite find_kv_None.
    + intros a Ha. apply Hout, list_elem_of_fmap. by exists (k, a).
    + intros kv Hkv E. apply list_elem_of_fmap in Hkv as (e & -> & He). apply Hout, list_elem_of_fmap. exists e. split; [|done].
      apply int_equal in E. rewrite (keys_small s l) in E by done. by rewrite E, to_uint_small by lia.
Qed.

(** [new RedirectSuspend], and its insertion *)
Lemma suspend_request_spec s l message :
  tidy s l -> mIteratorList (mSuspendList s) = [] -> mNextSeqNo s + 1 < 3 * 2 ^ 30 -> G message ->
  exists s', suspend_request cfg message (mNextSeqNo s) s = Ok (next_object s, s')
    /\ tidy s' ((mNextSeqNo s, next_object s) :: l) /\ mIteratorList (mSuspendList s') = []
    /\ objects s' !! next_object s = Some (mkSuspend message 0 (mRedirectors (RedirectSuspend_new count)))
    /\ (forall a, a <> next_object s -> objects s' !! a = objects s !! a)
    /\ waiting s' ((mNextSeqNo s, next_object s) :: l) = message :: waiting s l
    /\ mNextSeqNo s' = mNextSeqNo s + 1 /\ plugins s' = plugins s /\ trace s' = trace s.
Proof.
  intros Ht Hi Hn HG. assert (0 <= mNextSeqNo s) as H0 by (pose proof (t_length _ _ Ht); lia).
  pose proof (tidy_abstracts _ _ Ht Hi) as Ha. unfold suspend_request.
  destruct (insertKeyAndValue_spec (mSuspendList s) (entry <$> l) (mkInt (mNextSeqNo s)) (VObj (next_object s)) Ha I) as (m' & Em & Ha').
  { rewrite length_fmap. pose proof (t_length _ _ Ht). lia. }
  rewrite Em. cbn [obind]. rewrite Z.eqb_refl. eexists. split; [done|].
  assert (forall a, (mNextSeqNo s, a) ∉ l) as Hfresh.
  { intros a Hin. pose proof (t_keys _ _ Ht) as Hk. rewrite Forall_forall in Hk. specialize (Hk _ Hin). simpl in Hk. lia. }
  pose proof (find_entry s l (mNextSeqNo s) Ht Hi ltac:(lia) ltac:(lia)) as Hf. unfold spec_insert in *.
  destruct (find_kv _ _) as [kv|]; [destruct Hf as (a & _ & Hin); by destruct (Hfresh a)|]. simpl in Ha'.
  destruct Ha' as (Hinv & Hit & Hperm). assert (next_object s ∉ snd <$> l) as Hobj.
  { intros Hin. pose proof (t_next _ _ Ht _ Hin). lia. }
  destruct Ht. split; [|split_and!].
  - split; simpl; try done.
    + apply NoDup_cons. by split.
    + intros a. rewrite lookup_insert_is_Some', t_dom0. set_solver.
    + intros a Hin. apply elem_of_cons in Hin as [->|Hin]; [lia|]. specialize (t_next0 _ Hin). lia.
    + rewrite to_uint_small by lia. constructor; [simpl; lia|]. eapply Forall_impl; [exact t_keys0|]. simpl. lia.
    + rewrite to_uint_small by lia. lia.
    + intros a o Hl. destruct (decide (a = next_object s)) as [->|Hne].
      * rewrite lookup_insert_eq in Hl. injection Hl as <-. split; [|done]. split_and!; simpl.
        -- apply length_replicate.
        -- unfold number_suspended. rewrite filter_replicate_none; [done|done].
        -- apply Forall_replicate. done.
      * rewrite lookup_insert_ne in Hl by done. eauto.
  - done.
  - by apply lookup_insert_eq.
  - intros a Hne. simpl. by rewrite lookup_insert_ne.
  - unfold waiting, waiting_in. csimpl. rewrite lookup_insert_eq. csimpl. f_equal. apply waiting_ext. intros e He.
    rewrite lookup_insert_ne; [done|]. intros E. apply Hobj. rewrite E. by apply list_elem_of_fmap_2.
  - simpl. apply to_uint_small. lia.
  - done.
  - done.
Qed.

(** ** Cancelling *)

(** The plug-ins that are told, and the storage that is deleted *)
Definition to_cancel o (i : nat) : Prop :=
  exists d r, mpConfiguredRedirectors cfg !! i = Some d /\ bActive d = true /\ mRedirectors o !! i = Some r /\ needsCancel r = true.
#[global] Instance to_cancel_dec o i : Decision (to_cancel o i).
Proof.
  destruct (mpConfiguredRedirectors cfg !! i) as [d|] eqn:Ed; [|right; by intros (d & r & ? & _); simplify_eq].
  destruct (mRedirectors o !! i) as [r|] eqn:Er; [|right; by intros (d' & r & ? & _ & ? & _); simplify_eq].
  destruct (bActive d) eqn:Ea; [|right; intros (d' & r' & ? & ? & ? & ?); simplify_eq; congruence].
  destruct (needsCancel r) eqn:En; [|right; intros (d' & r' & ? & ? & ? & ?); simplify_eq; congruence].
  left. by exists d, r.
Defined.
Definition cancels (seqNo : Z) o (i n : nat) : list event := ECancel seqNo <$> filter (to_cancel o) (seq i n).
Definition freed o : list event := EDelete <$> omap privateStorage (mRedirectors o).

Lemma cancel_loop_spec n seqNo a o : slots_ok o -> forall i s,
  objects s !! a = Some o -> length (plugins s) = count -> (i + n = count)%nat ->
  exists s', cancel_loop cfg n i seqNo a s = Ok s' /\ same_heap s s' /\ trace s' = trace s ++ cancels seqNo o i n /\ tags s' = tags s.
Proof.
  intros Hs. induction n as [|n IH]; intros i s Ho Hp Hi; cbn [cancel_loop].
  - exists s. split_and!; try done. by rewrite app_nil_r.
  - destruct (lookup_lt_is_Some_2 (mpConfiguredRedirectors cfg) i) as [d Hd]; [unfold mRedirectorCount in *; lia|].
    destruct (lookup_lt_is_Some_2 (plugins s) i) as [p Hpl]; [lia|]. rewrite Hd, Hpl.
    destruct (slot_ok o i Hs) as (r & Hr & Hslot); [lia|].
    assert ((if bActive d then let! o := object s a in let! r := slot o i in Ok (needsCancel r) else Ok false)
      = Ok (bool_decide (to_cancel o i))) as ->.
    { unfold object. rewrite Ho. cbn [obind]. rewrite Hslot. cbn [obind].
      destruct (bActive d) eqn:Ea; [f_equal; symmetry; destruct (needsCancel r) eqn:En|f_equal; symmetry].
      - apply bool_decide_eq_true. by exists d, r.
      - apply bool_decide_eq_false. intros (d' & r' & ? & ? & ? & ?). simplify_eq; congruence.
      - apply bool_decide_eq_false. intros (d' & r' & ? & ? & ? & ?). simplify_eq; congruence. }
    cbn [obind]. unfold cancels. cbn [seq]. rewrite filter_cons. case_bool_decide as Hc; [rewrite decide_True by done|rewrite decide_False by done].
    + set (s1 := emit (ECancel seqNo i) (set_plugin i (plugin_cancel p seqNo) s)).
      assert (same_heap s s1) as Hsame by (apply (same_heap_trans _ (set_plugin i (plugin_cancel p seqNo) s)); [apply set_plugin_same|done]).
      destruct (IH (S i) s1) as (s' & -> & Hs' & Ht' & Htag); [done|by destruct Hsame as (_ & _ & _ & _ & ->)|lia|].
      exists s'. split_and!; [done|by eapply same_heap_trans| |done]. rewrite Ht'. simpl. by rewrite <- app_assoc.
    + destruct (IH (S i) s) as (s' & -> & Hs' & Ht'); [done..|lia|]. by exists s'.
Qed.

(** The key leaves the list, the object and its storage are deleted. *)
Lemma cancelRedirect_spec s l l' k a o m' :
  tidy s l -> l ≡ₚ (k, a) :: l' -> objects s !! a = Some o ->
  removeKeyAndValue (mSuspendList s) (Some (mkInt k)) = Ok (Some (mkInt k), VObj a, m') ->
  hm_inv (valid := fun _ => True) m' -> kvs m' ≡ₚ entry <$> l' ->
  exists s', cancelRedirect cfg k a s = Ok s' /\ tidy s' l' /\ waiting s l ≡ₚ mMessage o :: waiting s' l'
    /\ mSuspendList s' = m' /\ mNextSeqNo s' = mNextSeqNo s /\ objects s' = delete a (objects s)
    /\ trace s' = trace s ++ cancels k o 0 count ++ freed o.
Proof.
  intros Ht Hl Ho Hrm Hinv Hkvs. pose proof (t_objects _ _ Ht _ _ Ho) as [Hs _].
  destruct (cancel_loop_spec count k a o Hs 0 s Ho (t_plugins _ _ Ht)) as (s1 & E1 & Hsame & Htr & _); [lia|].
  unfold cancelRedirect. rewrite E1. cbn [obind]. pose proof Hsame as (Hn & Hlist & Hobj & Hnext & Hpl).
  rewrite Hlist. unfold destroy. rewrite Hrm. cbn [obind fst snd]. unfold delete_object, object. simpl. rewrite Hobj, Ho. cbn [obind].
  eexists. split; [done|]. simpl. rewrite ?Hn, ?Hobj, ?Hnext, ?Htr.
  apply (tidy_perm _ _ _ Hl) in Ht as Ht2. destruct Ht2. simpl in *. apply NoDup_cons in t_addr0 as [Ha Hnd].
  split_and!; try done.
  - split; simpl; try done.
    + intros b. rewrite ?Hobj. destruct (decide (a = b)) as [<-|Hne].
      * rewrite lookup_delete_eq. split; [by intros [? ?]|done].
      * rewrite lookup_delete_ne by done. rewrite t_dom0. set_solver.
    + intros b Hb. rewrite ?Hnext. apply t_next0. set_solver.
    + rewrite ?Hn. by apply Forall_cons in t_keys0 as [_ ?].
    + rewrite ?Hn. lia.
    + intros b o1 Hb. rewrite ?Hobj in Hb. apply lookup_delete_Some in Hb as [_ Hb]. exact (t_objects0 _ _ Hb).
    + by rewrite Hpl.
  - rewrite (waiting_perm _ _ _ Hl). unfold waiting, waiting_in. csimpl. rewrite Ho. csimpl. f_equiv. apply reflexive_eq.
    symmetry. apply waiting_ext. intros e He. rewrite ?Hobj, lookup_delete_ne; [done|]. intros ->. apply Ha. by apply list_elem_of_fmap_2.
  - by rewrite <- app_assoc.
Qed.

(** Without an iterator *)
Lemma cancel_one s l k a : tidy s l -> mIteratorList (mSuspendList s) = [] -> mNextSeqNo s < 3 * 2 ^ 30 -> (k, a) ∈ l ->
  exists l' o s', l ≡ₚ (k, a) :: l' /\ objects s !! a = Some o /\ cancelRedirect cfg k a s = Ok s' /\ tidy s' l'
    /\ mIteratorList (mSuspendList s') = [] /\ waiting s l ≡ₚ mMessage o :: waiting s' l'
    /\ mNextSeqNo s' = mNextSeqNo s /\ objects s' = delete a (objects s)
    /\ trace s' = trace s ++ cancels k o 0 count ++ freed o.
Proof.
  intros Ht Hi Hn Hin. apply elem_of_Permutation in Hin as Hl. destruct Hl as (l' & Hl).
  destruct (live s l k a Ht Hin) as (o & Ho & _). exists l', o.
  pose proof (t_keys _ _ Ht) as Hk. rewrite Forall_forall in Hk. pose proof (Hk _ Hin) as Hka. simpl in Hka.
  pose proof (tidy_abstracts _ _ Ht Hi) as Ha.
  destruct (removeKeyAndValue_spec (mSuspendList s) (entry <$> l) (mkInt k) Ha I) as (m' & Em & Hinv' & Hi' & Hp').
  { rewrite length_fmap. pose proof (t_length _ _ Ht). lia. }
  pose proof (find_entry s l k Ht Hi ltac:(lia) ltac:(lia)) as Hf.
  destruct (find_kv (mkInt k) (entry <$> l)) as [kv|]; [|by destruct (Hf a)]. destruct Hf as (a' & -> & Hin').
  assert (a' = a) as -> by (pose proof (entries_unique s l _ _ Ht Hin' Hin eq_refl); congruence). simpl in Em.
  assert (kvs m' ≡ₚ entry <$> l') as Hkvs.
  { unfold kvs. rewrite Hp'. unfold remove_kv. rewrite Hl, fmap_cons, filter_cons_False.
    - apply reflexive_eq, remove_kv_none. intros kv Hkv E. apply list_elem_of_fmap in Hkv as (e & -> & He).
      assert (e ∈ l) as Hel by (rewrite Hl; set_solver). pose proof (Hk _ Hel) as Hke. apply int_equal in E.
      rewrite !to_uint_small in E by lia.
      assert (e = (k, a)) as -> by (by apply (entries_unique s l)).
      pose proof (t_addr _ _ Ht) as Hnd. rewrite Hl in Hnd. simpl in Hnd. apply NoDup_cons in Hnd as [Hnd _].
      apply Hnd, list_elem_of_fmap. by exists (k, a).
    - intros Hne. apply Hne. simpl. by rewrite Z.sub_diag. }
  destruct (cancelRedirect_spec s l l' k a o m') as (s' & E & Ht' & Hw & Hm & Hrest); try done.
  destruct Hrest as (Hn2 & Ho2 & Htr2). exists s'. split_and!; try done. by rewrite Hm.
Qed.
End Heap.
