(* ===== verification/RedirectDue.v ===== *)
(** * Cancellation as the interface promises it

    RedirectPlugin.h guarantees that cancel is called for a plug-in that has
    returned SEARCH_PENDING, after the last call of lookUp for the request.  The
    invariant [due] over the trace of events says who still has to be told. *)
From Stdlib Require Import ZArith Lia Ascii String.
From stdpp Require Import base list strings gmap sets.
From S2P Require Import Prelude UtlString Containable UtlHashMap RouteStateMsg Redirect RedirectHeap.
Local Open Scope Z_scope.

(** The last word on [k] and [i] was SEARCH_PENDING, not cancel. *)
Definition hold (k : Z) (i : nat) (b : bool) (e : event) : bool :=
  match e with
  | ELookUp k' i' (Some SEARCH_PENDING) _ => if bool_decide (k' = k /\ i' = i) then true else b
  | ECancel k' i' => if bool_decide (k' = k /\ i' = i) then false else b
  | _ => b
  end.
Definition held (k : Z) (i : nat) (tr : list event) : bool := foldl (hold k i) false tr.

(** A call for request [k] *)
Definition calls (k : Z) (e : event) : Prop :=
  match e with ELookUp k' _ _ _ => k' = k | EObserve k' _ => k' = k | ECancel _ _ => False | _ => False end.

(** After cancel there is no other call for the request, and no second cancel. *)
Definition quiet_after_cancel (tr : list event) : Prop :=
  forall pre k i post, tr = pre ++ ECancel k i :: post -> Forall (fun e => ~ calls k e) post /\ ECancel k i ∉ post.

Lemma quiet_snoc tr e :
  quiet_after_cancel tr -> (forall k i, ECancel k i ∈ tr -> ~ calls k e /\ e <> ECancel k i) -> quiet_after_cancel (tr ++ [e]).
Proof.
  intros Hq He pre k i post E. destruct post as [|x post _] using rev_ind.
  - split; [constructor|]. by intros ?%elem_of_nil.
  - replace (pre ++ ECancel k i :: post ++ [x]) with ((pre ++ ECancel k i :: post) ++ [x]) in E by (by rewrite <- app_assoc).
    apply app_inj_tail in E as [E <-]. destruct (Hq _ _ _ _ E) as [Hf Hn].
    destruct (He k i) as [Hc Hne]; [rewrite E; set_solver|]. split; [by apply Forall_app; split; [|apply Forall_singleton]|set_solver].
Qed.

Lemma held_snoc k i tr e : held k i (tr ++ [e]) = hold k i (held k i tr) e.
Proof. unfold held. by rewrite foldl_app. Qed.

Lemma held_after k i tr evs : Forall (fun e => forall b, hold k i b e = b) evs -> held k i (tr ++ evs) = held k i tr.
Proof.
  unfold held. rewrite foldl_app. generalize (foldl (hold k i) false tr) as b. induction evs as [|e evs IH]; intros b Hf; [done|].
  apply Forall_cons in Hf as [He Hf]. simpl. rewrite He. by apply IH.
Qed.

Section Due.
Context {P : Type} `{RedirectPlugin P} (cfg : Config) (G : SipMessage -> Prop).
Abbreviation server := (Server P).
Abbreviation tidy := (tidy cfg G).
Implicit Types (s : server) (l : list (Z * nat)) (o : RedirectSuspend) (tr : list event).

(** The object of request [k] remembers to tell the active plug-in [i]. *)
Definition needs s l (k : Z) (i : nat) : Prop :=
  exists a o r d, (k, a) ∈ l /\ objects s !! a = Some o /\ mRedirectors o !! i = Some r /\ needsCancel r = true
    /\ mpConfiguredRedirectors cfg !! i = Some d /\ bActive d = true.

Record due tr s l : Prop := {
  d_held : forall k i, held k i tr = true -> needs s l k i;
  d_gone : forall k i, ECancel k i ∈ tr -> k < mNextSeqNo s /\ k ∉ fst <$> l;
  d_quiet : quiet_after_cancel tr
}.

Lemma due_mono tr s l s' l' :
  due tr s l -> mNextSeqNo s <= mNextSeqNo s' -> (forall k, k ∈ fst <$> l' -> k ∈ fst <$> l \/ mNextSeqNo s <= k) ->
  (forall k i, needs s l k i -> needs s' l' k i) -> due tr s' l'.
Proof.
  intros [Hh Hg Hq] Hn Hl Hneeds. split; [by auto| |done]. intros k i Hk. destruct (Hg k i Hk) as [Hlt Hout]. split; [lia|].
  intros Hin. destruct (Hl k Hin); [done|lia].
Qed.

Lemma due_same tr s l s' : mNextSeqNo s' = mNextSeqNo s -> objects s' = objects s -> due tr s l -> due tr s' l.
Proof.
  intros E1 E3 Hd. eapply due_mono; [exact Hd|lia|by auto|]. intros k i (a & o & r & d & ? & ? & ?).
  exists a, o, r, d. by rewrite E3.
Qed.

Lemma due_perm tr s l l' : l ≡ₚ l' -> due tr s l -> due tr s l'.
Proof.
  intros Hp Hd. eapply due_mono; [exact Hd|lia|intros k; rewrite <- Hp; by left|].
  intros k i (a & o & r & d & Hin & ?). exists a, o, r, d. by rewrite <- Hp.
Qed.

(** A call for a request that is or comes into the list was not cancelled. *)
Lemma due_fresh tr s l k : due tr s l -> mNextSeqNo s <= k \/ k ∈ fst <$> l -> forall i, ECancel k i ∉ tr.
Proof. intros Hd Hk i Hin. destruct (d_gone _ _ _ Hd k i Hin) as [Hlt Hout]. destruct Hk; [lia|done]. Qed.

(** Events that are no cancel and no SEARCH_PENDING *)
Definition plain_event (fresh : Z -> Prop) (e : event) : Prop :=
  match e with
  | ELookUp k _ st _ => st <> Some SEARCH_PENDING /\ fresh k
  | EObserve k _ => fresh k
  | ECancel _ _ => False
  | _ => True
  end.

Lemma due_plain tr s l e : due tr s l -> plain_event (fun k => mNextSeqNo s <= k \/ k ∈ fst <$> l) e -> due (tr ++ [e]) s l.
Proof.
  intros Hd He. split.
  - intros k i. rewrite held_snoc. destruct e as [k' i' [[| | |]|] ch| | | | | | |]; simpl in *; first [by apply (d_held _ _ _ Hd)|naive_solver].
  - intros k i Hin. apply (d_gone _ _ _ Hd k i). apply elem_of_app in Hin as [Hin|Hin]; [done|].
    apply list_elem_of_singleton in Hin. by subst e.
  - apply quiet_snoc; [apply Hd|]. intros k i Hin. split; [|intros ->; done].
    destruct e; simpl in *; try (by intros []); intros ->; (destruct He as [_ He] || idtac); by eapply (due_fresh tr s l k Hd He).
Qed.

Lemma due_plains tr s l evs :
  due tr s l -> Forall (plain_event (fun k => mNextSeqNo s <= k \/ k ∈ fst <$> l)) evs -> due (tr ++ evs) s l.
Proof.
  intros Hd Hf. revert tr Hd. induction Hf as [|e evs He _ IH]; intros tr Hd; [by rewrite app_nil_r|].
  replace (tr ++ e :: evs) with ((tr ++ [e]) ++ evs) by (by rewrite <- app_assoc). by apply IH, due_plain.
Qed.

(** SEARCH_PENDING, once the object remembers it *)
Lemma due_pending tr s l k i ch :
  due tr s l -> k ∈ fst <$> l -> needs s l k i -> due (tr ++ [ELookUp k i (Some SEARCH_PENDING) ch]) s l.
Proof.
  intros Hd Hk Hn. split.
  - intros k' i'. rewrite held_snoc. simpl. case_bool_decide as E; [by destruct E as [<- <-]|apply (d_held _ _ _ Hd)].
  - intros k' i' Hin. apply (d_gone _ _ _ Hd k' i'). apply elem_of_app in Hin as [Hin|Hin]; [done|]. by apply list_elem_of_singleton in Hin.
  - apply quiet_snoc; [apply Hd|]. intros k' i' Hin. split; [|done]. simpl. intros ->. by eapply (due_fresh tr s l k' Hd (or_intror Hk)).
Qed.

(** Cancelling request [k] tells every plug-in that was to be told. *)
Lemma held_cancelled k i o tr n j :
  held k i (tr ++ cancels cfg k o j n) = if bool_decide (to_cancel cfg o i /\ (j <= i < j + n)%nat) then false else held k i tr.
Proof.
  unfold cancels. revert tr j. induction n as [|n IH]; intros tr j; cbn [seq].
  - rewrite app_nil_r, bool_decide_false by lia. done.
  - rewrite filter_cons. case_decide as Hc.
    + rewrite fmap_cons. replace (tr ++ ECancel k j :: (ECancel k <$> filter (to_cancel cfg o) (seq (S j) n)))
        with ((tr ++ [ECancel k j]) ++ (ECancel k <$> filter (to_cancel cfg o) (seq (S j) n))) by (by rewrite <- app_assoc).
      rewrite IH, held_snoc. simpl. destruct (decide (i = j)) as [->|Hne].
      * rewrite (bool_decide_true (k = k /\ j = j)) by done. rewrite (bool_decide_true (_ /\ (j <= j < j + S n)%nat)) by (split; [done|lia]).
        by case_bool_decide.
      * rewrite (bool_decide_false (k = k /\ j = i)) by naive_solver. repeat case_bool_decide; naive_solver lia.
    + rewrite IH. repeat case_bool_decide; try done.
      * naive_solver lia.
      * destruct (decide (i = j)) as [->|Hne]; naive_solver lia.
Qed.

Lemma held_other k k' i o tr n j : k <> k' -> held k i (tr ++ cancels cfg k' o j n) = held k i tr.
Proof.
  intros Hne. apply held_after. unfold cancels. apply Forall_fmap. apply Forall_true. intros x b. simpl. by rewrite bool_decide_false by naive_solver.
Qed.

Lemma held_freed k i o tr : held k i (tr ++ freed o) = held k i tr.
Proof. apply held_after. unfold freed. by apply Forall_fmap, Forall_true. Qed.

Lemma quiet_cancels tr k o :
  quiet_after_cancel tr -> (forall i, ECancel k i ∉ tr) -> forall n j, quiet_after_cancel (tr ++ cancels cfg k o j n ++ freed o).
Proof.
  intros Hq Hn n j.
  assert (quiet_after_cancel (tr ++ cancels cfg k o j n) /\ forall i, ECancel k i ∈ tr ++ cancels cfg k o j n -> (i < j + n)%nat) as [Hc Hi].
  { induction n as [|n [IHq IHn]].
    - unfold cancels. simpl. rewrite app_nil_r. split; [done|]. intros i Hi. by destruct (Hn i).
    - unfold cancels in *. rewrite seq_S, filter_app, fmap_app. rewrite filter_cons. case_decide; simpl; [|rewrite app_nil_r; split; [done|]; intros i Hi%IHn; lia].
      rewrite app_assoc. split.
      + apply quiet_snoc; [done|]. intros k' i' Hin. split; [by intros []|]. intros [= -> <-]. apply IHn in Hin. lia.
      + intros i Hin. apply elem_of_app in Hin as [Hin%IHn|Hin]; [lia|]. apply list_elem_of_singleton in Hin. injection Hin as ->. lia. }
  rewrite app_assoc. unfold freed. induction (omap privateStorage (mRedirectors o)) as [|x xs IH] using rev_ind; [by rewrite app_nil_r|].
  rewrite fmap_app, app_assoc. apply quiet_snoc; [done|]. intros k' i' Hin. split; [by intros []|done].
Qed.

Lemma due_cancel tr s l s' l' k a o :
  tidy s l -> due tr s l -> l ≡ₚ (k, a) :: l' -> objects s !! a = Some o -> mNextSeqNo s' = mNextSeqNo s -> objects s' = delete a (objects s) ->
  due (tr ++ cancels cfg k o 0 (mRedirectorCount cfg) ++ freed o) s' l'.
Proof.
  intros Ht Hd Hl Ho Hn Hob. assert ((k, a) ∈ l) as Hin by (rewrite Hl; set_solver).
  assert (forall k' a', (k', a') ∈ l' -> k' <> k /\ a' <> a) as Hne.
  { pose proof (t_addr _ _ _ _ Ht) as Hnd. rewrite Hl in Hnd. simpl in Hnd. apply NoDup_cons in Hnd as [Hnd _].
    intros k' a' Hin'. assert (a' <> a) as Hna by (intros ->; apply Hnd, list_elem_of_fmap; by exists (k', a)). split; [|done].
    intros ->. apply Hna. assert ((k, a') = (k, a)) as E by (apply (entries_unique cfg G s l); [done|rewrite Hl; set_solver|done|done]). congruence. }
  split.
  - intros k' i. rewrite app_assoc, held_freed. destruct (decide (k' = k)) as [->|Hk].
    + rewrite held_cancelled. case_bool_decide as Hc; [done|]. intros Hh. destruct Hc.
      destruct (d_held _ _ _ Hd k i Hh) as (a' & o' & r & d & Hin' & Ho' & Hr & Hnc & Hcd & Hact).
      assert ((k, a') = (k, a)) as [= ->] by (by apply (entries_unique cfg G s l)). simplify_eq. split; [by exists d, r|].
      apply lookup_lt_Some in Hcd. unfold mRedirectorCount. lia.
    + rewrite held_other by done. intros Hh. destruct (d_held _ _ _ Hd k' i Hh) as (a' & o' & r & d & Hin' & Ho' & Hrest).
      exists a', o', r, d. rewrite Hl in Hin'. apply elem_of_cons in Hin' as [[= -> ->]|Hin']; [done|]. split; [done|].
      rewrite Hob, lookup_delete_ne by (intros <-; by destruct (Hne k' a Hin')). done.
  - intros k' i Hc. rewrite Hn. rewrite app_assoc in Hc. apply elem_of_app in Hc as [Hc|Hc].
    2:{ unfold freed in Hc. by apply list_elem_of_fmap in Hc as (? & ? & _). }
    apply elem_of_app in Hc as [Hc|Hc].
    + destruct (d_gone _ _ _ Hd k' i Hc) as [Hlt Hout]. split; [done|]. intros Hin'. apply Hout. rewrite Hl. simpl. set_solver.
    + unfold cancels in Hc. apply list_elem_of_fmap in Hc as (? & [= -> ->] & _). pose proof (t_keys _ _ _ _ Ht) as Hk. rewrite Forall_forall in Hk.
      specialize (Hk _ Hin). simpl in Hk. split; [lia|]. intros Hin'. apply list_elem_of_fmap in Hin' as ([k2 a2] & E & Hin'). simpl in E. subst k2.
      by destruct (Hne k a2 Hin').
  - apply quiet_cancels; [apply Hd|]. apply (due_fresh tr s l k Hd). right. apply list_elem_of_fmap. by exists (k, a).
Qed.
End Due.
