(* ===== verification/RedirectPass.v ===== *)
(** * One pass through the redirect plug-ins

    What the loop of processRedirect keeps: the list of suspended requests, the
    flags of the request in work, and the authority a plug-in needs. *)
From Stdlib Require Import ZArith Lia Ascii String.
From stdpp Require Import base list strings gmap sets.
From S2P Require Import Prelude UtlString Containable UtlHashMap UtlHashMapSpec.
From S2P Require Import NameValuePair HttpMessage Url RouteStateMsg SipMatch SipTarget Redirect RedirectHeap RedirectDue.
Local Open Scope Z_scope.

(** ** Counting the plug-ins a request waits for *)

Abbreviation one b := (if b : bool then 1%nat else 0%nat).

Lemma number_suspended_cons r rs : number_suspended (r :: rs) = (one (suspended r) + number_suspended rs)%nat.
Proof. unfold number_suspended. rewrite filter_cons. by destruct (suspended r). Qed.

Lemma number_suspended_insert rs i r r' :
  rs !! i = Some r ->
  (number_suspended (<[i := r']> rs) + one (suspended r) = number_suspended rs + one (suspended r'))%nat.
Proof.
  revert i. induction rs as [|x rs IH]; intros i Hi; [done|]. destruct i as [|i]; simpl in Hi.
  - injection Hi as ->. simpl. rewrite !number_suspended_cons. lia.
  - change (<[S i:=r']> (x :: rs)) with (x :: <[i:=r']> rs). rewrite !number_suspended_cons. specialize (IH i Hi). lia.
Qed.

Lemma number_suspended_le rs : (number_suspended rs <= length rs)%nat.
Proof. apply length_filter. Qed.

Section Pass.
Context {P : Type} `{RedirectPlugin P} (cfg : Config) (G : SipMessage -> Prop).
Hypothesis count_small : Z.of_nat (mRedirectorCount cfg) <= INT_MAX.
Abbreviation server := (Server P).
Abbreviation work := (Work P).
Abbreviation count := (mRedirectorCount cfg).
Abbreviation tidy := (tidy cfg G).
Abbreviation slots_ok := (slots_ok cfg).
Implicit Types (s : server) (w : work) (l : list (Z * nat)) (o : RedirectSuspend) (a : nat).

Lemma slots_set_storage o i r st :
  slots_ok o -> mRedirectors o !! i = Some r -> slots_ok (set_slot i (mkRedirector (suspended r) (needsCancel r) st) o).
Proof.
  intros (Hl & Hc & Hf) Hr. split_and!; simpl.
  - by rewrite length_insert.
  - rewrite Hc. pose proof (number_suspended_insert _ i r (mkRedirector (suspended r) (needsCancel r) st) Hr) as E. simpl in E. lia.
  - apply Forall_insert; [done|]. simpl. rewrite Forall_lookup in Hf. eauto.
Qed.

Lemma slots_pending o i r st :
  slots_ok o -> mRedirectors o !! i = Some r -> suspended r = false ->
  let o' := mkSuspend (mMessage o) (mSuspendCount o + 1) (<[i := mkRedirector true true st]> (mRedirectors o)) in
  slots_ok o' /\ INT_MIN <= mSuspendCount o + 1 <= INT_MAX /\ (0 < number_suspended (mRedirectors o'))%nat.
Proof.
  intros (Hl & Hc & Hf) Hr Hs o'. subst o'. simpl.
  pose proof (number_suspended_insert _ i r (mkRedirector true true st) Hr) as E. rewrite Hs in E. simpl in E.
  pose proof (number_suspended_le (<[i:=mkRedirector true true st]> (mRedirectors o))) as Hle. rewrite length_insert in Hle.
  unfold RedirectHeap.slots_ok. simpl. rewrite length_insert. split_and!; first [lia | by apply Forall_insert | idtac].
  unfold INT_MIN. lia.
Qed.

(** ** The request in work *)

(** A request that waits is owed the call back of a plug-in. *)
Definition waits o : Prop := (0 < number_suspended (mRedirectors o))%nat.
Definition owed (Q : nat -> Prop) s l : Prop := forall k a o, (k, a) ∈ l -> Q a -> objects s !! a = Some o -> waits o.

(** [rest]: the other requests that wait; plug-ins from [i] on have not been
    asked in this pass.  [X]: no plug-in has raised an exception.  [tr]: the
    events so far. *)
Context (X : Prop).
Record pass (message : SipMessage) (seqNo : Z) (rest : list SipMessage) (N : Z) (tr : list event) (i : nat)
    (s : server) (so : option nat) (willSuspend : bool) (l : list (Z * nat)) : Prop := {
  p_tidy : tidy s l;
  p_iter : mIteratorList (mSuspendList s) = [];
  p_bound : mNextSeqNo s + (if so then 0 else 1) <= N;
  p_object : match so with
             | None => seqNo = mNextSeqNo s /\ willSuspend = false /\ waiting s l ≡ₚ rest
             | Some a => (seqNo, a) ∈ l /\ waiting s l ≡ₚ message :: rest
                 /\ exists o, objects s !! a = Some o /\ mMessage o = message
                      /\ (forall j r, (i <= j)%nat -> mRedirectors o !! j = Some r -> suspended r = false)
                      /\ (willSuspend = true <-> waits o)
             end;
  p_owed : X -> owed (fun a => so <> Some a) s l;
  p_due : due cfg tr s l
}.

Lemma pass_same message seqNo rest N tr i s s' so ws l :
  same_heap s s' -> pass message seqNo rest N tr i s so ws l -> pass message seqNo rest N tr i s' so ws l.
Proof.
  intros Hs []. destruct (tidy_same cfg G s s' l Hs p_tidy0) as [Ht Hw]. destruct Hs as (E1 & E2 & E3 & E4 & E5).
  split; rewrite ?E1, ?E2, ?Hw; try done.
  - destruct so as [a|]; [|done]. by rewrite E3.
  - intros HX k a o. rewrite E3. by apply (p_owed0 HX).
  - by apply (due_same cfg tr s).
Qed.

Lemma pass_later message seqNo rest N tr i j s so ws l :
  (i <= j)%nat -> pass message seqNo rest N tr i s so ws l -> pass message seqNo rest N tr j s so ws l.
Proof.
  intros Hij []. split; [done..| |done|done]. destruct so as [a|]; [|done]. destruct p_object0 as (Hin & Hw & o & Ho & Hm & Hj & Hc).
  split_and!; [done..|]. exists o. split_and!; [done..| |done]. intros k r Hk. apply Hj. lia.
Qed.

Lemma owed_set s l a o : (X -> owed (fun b => Some a <> Some b) s l) -> X -> owed (fun b => Some a <> Some b) (set_object a o s) l.
Proof. intros Ho HX k b o' Hin Hne Hb. simpl in Hb. rewrite lookup_insert_ne in Hb by congruence. by apply (Ho HX k b). Qed.

(** An object that remembers as much *)
Lemma due_set_object tr s l a o o' :
  objects s !! a = Some o -> (forall i r, mRedirectors o !! i = Some r -> needsCancel r = true -> exists r', mRedirectors o' !! i = Some r' /\ needsCancel r' = true) ->
  due cfg tr s l -> due cfg tr (set_object a o' s) l.
Proof.
  intros Ho Hr Hd. eapply due_mono; [exact Hd|done|by auto|]. intros k i (b & ob & r & d & Hin & Hob & Hri & Hn & Hrest).
  destruct (decide (a = b)) as [<-|Hne].
  - simplify_eq. destruct (Hr i r Hri Hn) as (r' & Hr' & Hn'). exists a, o', r', d. split_and!; try done; try apply Hrest. apply lookup_insert_eq.
  - exists b, ob, r, d. split_and!; try done; try apply Hrest. simpl. by rewrite lookup_insert_ne.
Qed.

Section One.
Context (message : SipMessage) (seqNo : Z) (rest : list SipMessage) (N : Z).
Hypothesis good : G message.
Hypothesis N_small : N < 3 * 2 ^ 30.
Abbreviation pass := (pass message seqNo rest N).

(** The suspend object, made when it is needed *)
Lemma obtain_object tr i s so ws l (needed : bool) :
  pass tr i s so ws l ->
  exists so' s' l',
    match so with
    | Some a => Ok (Some a, s)
    | None => if needed then let! (a, s) := suspend_request cfg message seqNo s in Ok (Some a, s) else Ok (None, s)
    end = Ok (so', s')
    /\ pass tr i s' so' ws l' /\ trace s' = trace s /\ plugins s' = plugins s
    /\ (needed = true -> is_Some so') /\ (forall a, so = Some a -> so' = Some a).
Proof.
  intros []. destruct so as [a|]; [exists (Some a), s, l; by split_and!|]. destruct needed; [|exists None, s, l; by split_and!].
  destruct p_object0 as (-> & -> & Hw).
  destruct (suspend_request_spec cfg G s l message) as (s' & -> & Ht & Hi & Ho & Hobj & Hw' & Hn & Hp & Htr); [done|done|lia|done|].
  cbn [obind]. eexists _, s', _. split; [done|]. split; [|by split_and!]. split; [done|done|lia| | |].
  - split; [set_solver|]. split; [by rewrite Hw', Hw|]. eexists. split; [done|]. simpl. split_and!; [done| |].
    + intros j r _ Hj. by apply lookup_replicate in Hj as [-> _].
    + unfold waits, number_suspended. simpl. rewrite filter_replicate_none by done. simpl. split; [done|lia].
  - intros HX k a o Hin Hne Hoa. apply elem_of_cons in Hin as [[= -> ->]|Hin]; [done|].
    rewrite Hobj in Hoa by congruence. by apply (p_owed0 HX k a o).
  - eapply due_mono; [exact p_due0|lia|intros k Hk; simpl in Hk; apply elem_of_cons in Hk as [->|Hk]; [right; lia|by left]|].
    intros k i' (a & o & r & d & Hin & Hoa & Hrest). exists a, o, r, d. split; [set_solver|]. split; [|done]. rewrite Hobj; [done|].
    intros ->. assert (next_object s < next_object s)%nat; [|lia]. apply (t_next _ _ _ _ p_tidy0), list_elem_of_fmap. by eexists (_, _).
Qed.

(** Its private storage *)
Lemma store_private tr i s so ws l st :
  pass tr i s so ws l -> (i < count)%nat ->
  exists s',
    match so with
    | Some a => let! o := object s a in let! r := slot o i in
                Ok (set_object a (set_slot i (mkRedirector (suspended r) (needsCancel r) st) o) s)
    | None => Ok s
    end = Ok s' /\ pass tr i s' so ws l /\ trace s' = trace s /\ plugins s' = plugins s.
Proof.
  intros Hp Hi. destruct so as [a|]; [|by exists s]. destruct Hp as [Ht Hit Hb (Hin & Hw & o & Ho & Hm & Hj & Hc) Howed Hdue].
  pose proof (t_objects _ _ _ _ Ht _ _ Ho) as [Hs _]. destruct (slot_ok cfg o i Hs Hi) as (r & Hr & Hslot).
  unfold object. rewrite Ho. cbn [obind]. rewrite Hslot. cbn [obind]. eexists. split; [done|]. split; [|done].
  destruct (tidy_set_object cfg G s l a o (set_slot i (mkRedirector (suspended r) (needsCancel r) st) o) Ht Ho eq_refl)
    as [Ht' Hw']; [by apply slots_set_storage|].
  split; [done..| |exact (owed_set s l a _ Howed)|].
  2:{ eapply due_set_object; [exact Ho| |exact Hdue]. intros j r' Hj' Hn'. simpl. destruct (decide (i = j)) as [<-|Hne].
      - simplify_eq. eexists. rewrite list_lookup_insert_eq by (by eapply lookup_lt_Some). split; [done|]. done.
      - exists r'. by rewrite list_lookup_insert_ne. }
  rewrite Hw'. split; [done|]. split; [done|]. eexists. split; [by apply lookup_insert_eq|]. simpl. split; [done|].
  pose proof (number_suspended_insert _ i r (mkRedirector (suspended r) (needsCancel r) st) Hr) as E. simpl in E. split.
  - intros j r' Hle Hjr. apply list_lookup_insert_Some in Hjr as [(<- & <- & _)|(_ & Hjr)]; [|by eapply Hj].
    simpl. by eapply Hj.
  - rewrite Hc. unfold waits. simpl. lia.
Qed.

(** SEARCH_PENDING *)
Lemma mark_pending tr i s a ws l d ch :
  pass tr i s (Some a) ws l -> (i < count)%nat -> mpConfiguredRedirectors cfg !! i = Some d -> bActive d = true ->
  exists o r, object s a = Ok o /\ slot o i = Ok r /\ int_arith (mSuspendCount o + 1) = Ok (mSuspendCount o + 1)
    /\ pass (tr ++ [ELookUp seqNo i (Some SEARCH_PENDING) ch]) (S i) (set_object a (mkSuspend (mMessage o) (mSuspendCount o + 1)
                                   (<[i := mkRedirector true true (privateStorage r)]> (mRedirectors o))) s) (Some a) true l.
Proof.
  intros Hp Hi Hcd Hact. destruct Hp as [Ht Hit Hb (Hin & Hw & o & Ho & Hm & Hj & Hc) Howed Hdue].
  pose proof (t_objects _ _ _ _ Ht _ _ Ho) as [Hs _]. destruct (slot_ok cfg o i Hs Hi) as (r & Hr & Hslot).
  exists o, r. unfold object. rewrite Ho. split; [done|]. split; [done|].
  destruct (slots_pending o i r (privateStorage r) Hs Hr) as (Hs' & Hint & Hpos); [by eapply Hj|].
  split; [by apply int_arith_ok|].
  set (o' := mkSuspend (mMessage o) (mSuspendCount o + 1) _) in *.
  destruct (tidy_set_object cfg G s l a o o' Ht Ho eq_refl Hs') as [Ht' Hw'].
  split; [done..| |exact (owed_set s l a _ Howed)|].
  2:{ apply due_pending; [|apply list_elem_of_fmap; by exists (seqNo, a)|].
      - eapply due_set_object; [exact Ho| |exact Hdue]. intros j r' Hj' Hn'. simpl. destruct (decide (i = j)) as [<-|Hne].
        + eexists. rewrite list_lookup_insert_eq by (by eapply lookup_lt_Some). done.
        + exists r'. by rewrite list_lookup_insert_ne.
      - exists a, o', (mkRedirector true true (privateStorage r)), d. split_and!; try done; [apply lookup_insert_eq|].
        simpl. apply list_lookup_insert_eq. by eapply lookup_lt_Some. }
  rewrite Hw'. split; [done|]. split; [done|]. eexists. split; [by apply lookup_insert_eq|]. split; [done|]. split; [|done].
  intros j r' Hle Hjr. simpl in Hjr. rewrite list_lookup_insert_ne in Hjr by lia. eapply Hj; [|done]. lia.
Qed.

(** An event of this request that asks for nothing *)
Lemma pass_plain tr i s so ws l e :
  pass tr i s so ws l -> plain_event (fun k => k = seqNo) e -> pass (tr ++ [e]) i s so ws l.
Proof.
  intros [Ht Hi Hb Ho Hw Hd] He. split; try done. apply due_plain; [done|].
  assert (mNextSeqNo s <= seqNo \/ seqNo ∈ fst <$> l) as Hk.
  { destruct so as [a|]; [right; apply list_elem_of_fmap; destruct Ho as (Hin & _); by exists (seqNo, a)|destruct Ho as (-> & _); left; lia]. }
  destruct e; simpl in *; try done; [destruct He as [? ->]|subst]; done.
Qed.

Lemma after_lookUp_ok tr ch i d ans w s l :
  pass tr i s (w_suspendObject w) (w_willSuspend w) l -> (i < count)%nat -> mpConfiguredRedirectors cfg !! i = Some d -> bActive d = true ->
  exists w' l', after_lookUp cfg i d message seqNo ans w s = Ok w'
    /\ pass (tr ++ [ELookUp seqNo i (Some (a_status ans)) ch]) (S i) (w_server w') (w_suspendObject w') (w_willSuspend w') l'
    /\ trace (w_server w') = trace s /\ plugins (w_server w') = plugins s
    /\ (forall a, w_suspendObject w = Some a -> w_suspendObject w' = Some a)
    /\ w_errorDescriptor w' = foldl error_op (w_errorDescriptor w) (a_errorOps ans)
    /\ w_contactListAuthorityLevel w'
       = if bool_decide (a_status ans = SUCCESS)
            && mbListWasModified (foldl contact_op (resetWasModifiedFlag (w_contactList w)) (a_contactOps ans))
         then authorityLevel d else w_contactListAuthorityLevel w.
Proof.
  intros Hp Hi Hcd Hact. unfold after_lookUp.
  destruct (obtain_object tr i s _ _ l (bool_decide (a_status ans = SEARCH_PENDING) || bool_decide (is_Some (a_privateStorage ans))) Hp)
    as (so & s1 & l1 & E1 & Hp1 & Ht1 & Hpl1 & Hneed & Hso). rewrite E1. cbn [obind].
  destruct (store_private tr i s1 so _ l1 (a_privateStorage ans) Hp1 Hi) as (s2 & E2 & Hp2 & Ht2 & Hpl2). rewrite E2. cbn [obind].
  assert (trace s2 = trace s /\ plugins s2 = plugins s) as [Ht Hpl] by (split; congruence). clear E1 E2.
  destruct (a_status ans) eqn:Est; cbn [andb orb bool_decide].
  - eexists _, l1. split; [done|]. simpl. split_and!; try done. apply pass_plain; [|done]. eapply pass_later; [|exact Hp2]. lia.
  - destruct Hneed as [a ->]; [done|].
    destruct (mark_pending tr i s2 a _ l1 d ch Hp2 Hi Hcd Hact) as (o & r & E3 & E4 & E & Hp3).
    rewrite E3. cbn [obind]. rewrite E4. cbn [obind]. rewrite E. cbn [obind].
    eexists _, l1. split; [done|]. simpl. by split_and!.
  - eexists _, l1. split; [done|]. simpl. split_and!; try done. apply pass_plain; [|done]. eapply pass_later; [|exact Hp2]. lia.
  - eexists _, l1. split; [done|]. simpl. split_and!; try done. apply pass_plain; [|done]. eapply pass_later; [|exact Hp2]. lia.
Qed.

(** ** The events of a pass *)

(** lookUp is called for active plug-ins whose level is at least [level], which
    rises to the level of a plug-in that changed the contacts; the others only
    observe. *)
Fixpoint pass_events (level : Z) (evs : list event) : Prop :=
  match evs with
  | [] => True
  | ELookUp _ i status changed :: evs' =>
      exists d, mpConfiguredRedirectors cfg !! i = Some d /\ bActive d = true /\ level <= authorityLevel d
        /\ pass_events (if bool_decide (status = Some SUCCESS) && changed then authorityLevel d else level) evs'
  | EObserve _ i :: evs' =>
      exists d, mpConfiguredRedirectors cfg !! i = Some d /\ bActive d = true /\ authorityLevel d < level /\ pass_events level evs'
  | _ => False
  end.

(** A plug-in has raised an exception. *)
Definition thrown (e : event) : Prop := match e with ELookUp _ _ None _ => True | _ => False end.
#[global] Instance thrown_dec e : Decision (thrown e).
Proof. destruct e as [? ? [?|] ?| | | | | | |]; simpl; apply _. Defined.

Context (Err : ErrorDescriptor -> Prop).
Hypothesis plugin_errors : forall p m uri url method contacts k i st e ans p',
  lookUp p m uri url method contacts k i st e = (inr ans, p') -> Err e -> Err (foldl error_op e (a_errorOps ans)).

(** The message pointer and the suspend object belong together. *)
Definition ptr_ok (pMessage : MsgPtr) (so : option nat) : Prop :=
  pMessage = Caller message \/ exists a, pMessage = InObject a /\ so = Some a.

Lemma deref_ok tr i s so ws l pMessage : pass tr i s so ws l -> ptr_ok pMessage so -> deref s pMessage = Ok message.
Proof.
  intros [_ _ _ Ho _ _] [->|(a & -> & ->)]; [done|]. destruct Ho as (_ & _ & o & Ho & Hm & _). simpl. unfold object. rewrite Ho. simpl. by rewrite Hm.
Qed.

Definition pass_w (i : nat) w l : Prop :=
  pass (trace (w_server w)) i (w_server w) (w_suspendObject w) (w_willSuspend w) l /\ Err (w_errorDescriptor w).

(** What a step or the loop leaves: the events, and an exception at the end *)
Definition passes (pMessage : MsgPtr) (j : nat) w (r : work * option Exn) : Prop :=
  exists l evs, pass_w j (fst r) l /\ ptr_ok pMessage (w_suspendObject (fst r))
    /\ trace (w_server (fst r)) = trace (w_server w) ++ evs 
    /\ (forall more, pass_events (w_contactListAuthorityLevel (fst r)) more -> pass_events (w_contactListAuthorityLevel w) (evs ++ more))
    /\ match snd r with
       | None => Forall (fun e => ~ thrown e) evs
       | Some _ => exists e, e ∈ evs /\ thrown e
       end.

Lemma redirect_one_ok i pMessage method w l :
  pass_w i w l -> ptr_ok pMessage (w_suspendObject w) -> (i < count)%nat ->
  exists w' exn, redirect_one cfg i pMessage method seqNo w = Ok (w', exn) /\ passes pMessage (S i) w (w', exn).
Proof.
  intros [Hp He] Hptr Hi. unfold redirect_one. set (s := w_server w) in *.
  destruct (lookup_lt_is_Some_2 (mpConfiguredRedirectors cfg) i Hi) as [d Hd].
  destruct (lookup_lt_is_Some_2 (plugins s) i) as [p Hpl]; [rewrite (t_plugins _ _ _ _ (p_tidy _ _ _ _ _ _ _ _ _ _ Hp)); done|].
  rewrite Hd, Hpl. destruct (bActive d) eqn:Ea.
  2:{ exists w, None. split; [done|]. exists l, []. split_and!; try done; [|by rewrite app_nil_r|by constructor].
      split; [|done]. eapply pass_later; [|exact Hp]. lia. }
  rewrite (deref_ok _ i s _ _ l pMessage Hp Hptr). cbn [obind].
  assert (forall p' ev, plain_event (fun k => k = seqNo) ev ->
    pass (trace s ++ [ev]) (S i) (emit ev (set_plugin i p' s)) (w_suspendObject w) (w_willSuspend w) l) as Hemit.
  { intros p' ev Hev. eapply pass_same; [|apply pass_plain; [eapply pass_later; [|exact Hp]; lia|done]]. eapply same_heap_trans; [apply set_plugin_same|done]. }
  destruct (Z.leb_spec (w_contactListAuthorityLevel w) (authorityLevel d)) as [Hle|Hgt].
  2:{ eexists _, None. split; [done|]. exists l, [EObserve seqNo i]. split_and!; try done.
      - split; [by apply Hemit|done].
      - intros evs Hevs. simpl. by exists d.
      - apply Forall_singleton. intros []. }
  assert (exists st, match w_suspendObject w with
    | Some a => let! o := object s a in let! r := slot o i in Ok (privateStorage r) | None => Ok None end = Ok st) as (st & ->).
  { destruct (w_suspendObject w) as [a|]; [|by exists None]. destruct Hp as [Ht _ _ (_ & _ & o & Ho & _) _ _].
    destruct (slot_ok cfg o i (proj1 (t_objects _ _ _ _ Ht _ _ Ho)) Hi) as (r & _ & Hr). unfold object. rewrite Ho. cbn [obind].
    rewrite Hr. by eexists. }
  cbn [obind]. destruct (lookUp _ _ _ _ _ _ _ _ _ _) as [[e|ans] p'] eqn:El.
  - eexists _, (Some e). split; [done|]. exists l, [ELookUp seqNo i None false]. split_and!; try done.
    + split; [by apply Hemit|done].
    + intros evs Hevs. simpl. by exists d.
    + eexists. split; [apply list_elem_of_singleton; reflexivity|done].
  - set (ev := ELookUp seqNo i (Some (a_status ans)) _).
    destruct (after_lookUp_ok (trace s) (mbListWasModified (foldl contact_op (resetWasModifiedFlag (w_contactList w)) (a_contactOps ans)))
      i d ans w (emit ev (set_plugin i p' s)) l) as (w' & l' & E & Hp' & Ht & _ & Hso & Herr & Hlev); [|done..|].
    { eapply pass_same; [|exact Hp]. eapply same_heap_trans; [apply set_plugin_same|done]. }
    rewrite E. cbn [obind]. exists w', None. split; [done|]. exists l', [ev]. split_and!; try done.
    + split; [simpl; by rewrite Ht|]. simpl. rewrite Herr. by eapply plugin_errors.
    + simpl. destruct Hptr as [->|(a & -> & Ha)]; [by left|]. right. exists a. by auto.
    + intros evs Hevs. simpl in *. exists d. rewrite Hlev in Hevs. split_and!; try done. by destruct (a_status ans).
    + apply Forall_singleton. intros [].
Qed.

(** The loop ends after the last plug-in, at an error or at an exception. *)
Lemma redirect_loop_ok n : forall i pMessage method w l,
  pass_w i w l -> ptr_ok pMessage (w_suspendObject w) -> (i + n = count)%nat ->
  exists r, redirect_loop cfg n i pMessage method seqNo w = Ok r /\ passes pMessage count w r.
Proof.
  induction n as [|n IH]; intros i pMessage method w l Hp Hptr Hi; cbn [redirect_loop].
  - exists (w, None). split; [done|]. exists l, []. replace i with count in Hp by lia. split_and!; try done; [by rewrite app_nil_r|by constructor].
  - destruct (w_willError w).
    { exists (w, None). split; [done|]. exists l, []. split_and!; try done; [|by rewrite app_nil_r|by constructor].
      destruct Hp as [Hp He]. split; [|done]. eapply pass_later; [|exact Hp]. lia. }
    destruct (redirect_one_ok i pMessage method w l Hp Hptr) as (w1 & exn & -> & l1 & evs1 & Hp1 & Hptr1 & Ht1 & Hev1 & Hex1); [lia|].
    cbn [obind]. simpl in *. destruct exn as [e|].
    { exists (w1, Some e). split; [done|]. exists l1, evs1. split_and!; try done. destruct Hp1 as [Hp1 He1]. split; [|done].
      eapply pass_later; [|exact Hp1]. lia. }
    destruct (IH (S i) pMessage method w1 l1 Hp1 Hptr1) as ([w2 exn2] & -> & l2 & evs2 & Hp2 & Hptr2 & Ht2 & Hev2 & Hex2); [lia|].
    exists (w2, exn2). split; [done|]. exists l2, (evs1 ++ evs2). simpl in *. split_and!; try done.
    + by rewrite Ht2, Ht1, <- app_assoc.
    + intros more Hm. rewrite <- app_assoc. auto.
    + destruct exn2 as [e2|]; [|by apply Forall_app]. destruct Hex2 as (e & He & Hthr). exists e. split; [set_solver|done].
Qed.
End One.
End Pass.
