(* ===== verification/RedirectRun.v ===== *)
(** * Runs of the redirect server

    The invariant over handleMessage.  What is needed of the messages, that
    their URIs are read and their responses built, is the interface
    [MessageWork]. *)
From Stdlib Require Import ZArith Lia Ascii String.
From stdpp Require Import base list strings gmap sets.
From S2P Require Import Prelude UtlString Containable UtlHashMap UtlHashMapSpec UtlHashMapIterSpec UtlHashMapWalk.
From S2P Require Import NameValuePair HttpMessage Format Pcre Url RouteStateMsg ProxyRoutes SipMatch SipTarget Redirect RedirectHeap RedirectDue RedirectPass.
Local Open Scope Z_scope.

(** The request an event answers; an ACK is answered when it is forwarded or
    dropped. *)
Definition answer_of (e : event) : option SipMessage :=
  match e with
  | ESend request _ _ => Some request
  | EForwardAck request _ _ _ _ => Some request
  | EDropAck ack => Some ack
  | _ => None
  end.
Definition answered (evs : list event) : list SipMessage := omap answer_of evs.

Lemma answered_app a b : answered (a ++ b) = answered a ++ answered b.
Proof. apply omap_app. Qed.

Lemma answered_none evs : Forall (fun e => answer_of e = None) evs -> answered evs = [].
Proof. induction 1 as [|e evs He _ IH]; [done|]. unfold answered in *. csimpl. by rewrite He. Qed.

Section Run.
Context {P : Type} `{RedirectPlugin P} `{Storage}.
Context (fill : nat -> ascii) (pcre_exec : pat -> list ascii -> nat -> option Match) (cfg : Config) (newTag : nat -> list ascii).
Context (E : Prop) (G : SipMessage -> Prop) (Err : ErrorDescriptor -> Prop).
Abbreviation server := (Server P).
Implicit Types (s : server) (l : list (Z * nat)) (m : SipMessage).

(** A response leaves the requests alone. *)
Definition responds_in s (r : SipMessage * server) : Prop := same_heap s (snd r) /\ trace (snd r) = trace s.

Class MessageWork : Prop := {
  uri_read : forall m, G m -> safe E (Url_of_string fill pcre_exec (getRequestUri m) AddrSpec) (fun _ => True);
  response_built : forall m code text s, G m -> safe E (new_response fill newTag s m code text) (responds_in s);
  answer_sent : forall m willError contacts e s, G m -> Err e ->
    safe E (finish fill pcre_exec cfg newTag m (getRequestMethod m) willError contacts e s) (fun s' =>
      same_heap s s' /\ exists ev, trace s' = trace s ++ [ev] /\ answer_of ev = Some m);
  invite_compared : forall m m', G m -> G m' -> safe E (isInviteFor fill pcre_exec m m') (fun _ => True);
  no_error_yet : Err ErrorDescriptor_new;
  plugin_error : forall (p : P) m uri url method contacts k i st e ans p',
    lookUp p m uri url method contacts k i st e = (inr ans, p') -> Err e -> Err (foldl error_op e (a_errorOps ans))
}.
Context `{Work : MessageWork}.
Hypothesis count_small : Z.of_nat (mRedirectorCount cfg) <= INT_MAX.

Abbreviation count := (mRedirectorCount cfg).
Abbreviation tidy := (tidy cfg G).

Lemma pass_events_unanswered level evs : pass_events cfg level evs -> answered evs = [].
Proof.
  revert level. induction evs as [|e evs IH]; intros level Hev; [done|]. destruct e; simpl in Hev; try done;
    destruct Hev as (d & _ & _ & _ & Hev); unfold answered in *; csimpl; by eapply IH.
Qed.

(** Events after the pass *)
Definition silent (e : event) : Prop := match e with ECancel _ _ | EDelete _ => True | _ => False end.
Lemma cancels_silent k o i n : Forall silent (cancels cfg k o i n ++ freed o).
Proof. apply Forall_app. split; apply Forall_fmap, Forall_true; done. Qed.
Lemma silent_unanswered evs : Forall silent evs -> answered evs = [].
Proof. intros Hs. apply answered_none. eapply Forall_impl; [exact Hs|]. by intros []. Qed.

(** ** processRedirect *)

(** The outcome of processing [m], which was or is now in the list: an
    exception, or it is answered, or it waits. *)
Definition processed (X : Prop) (N : Z) m (rest : list SipMessage) s (r : option Exn * server) : Prop :=
  let s' := snd r in
  exists l evs tail, tidy s' l /\ mIteratorList (mSuspendList s') = [] /\ mNextSeqNo s' <= N /\ due cfg (trace s') s' l
    /\ trace s' = trace s ++ evs ++ tail /\ pass_events cfg LOWEST_AUTHORITY_LEVEL evs
    /\ Forall (fun e => silent e \/ is_Some (answer_of e)) tail
    /\ match fst r with
       | None => Forall (fun e => ~ thrown e) evs /\ answered tail ++ waiting s' l ≡ₚ m :: rest
                 /\ (X -> owed (fun _ => True) s' l)
       | Some _ => exists e, e ∈ evs /\ thrown e
       end.

Lemma processRedirect_ok X N m rest pMessage seqNo so s l :
  N < 3 * 2 ^ 30 -> G m -> pass cfg G X m seqNo rest N (trace s) 0 s so false l -> ptr_ok m pMessage so ->
  safe E (processRedirect fill pcre_exec cfg newTag pMessage (getRequestMethod m) seqNo so s) (processed X N m rest s).
Proof.
  intros HN HG Hp Hptr. unfold processRedirect. rewrite (deref_ok cfg G X m seqNo rest N _ 0 s so false l pMessage Hp Hptr). cbn [obind].
  eapply safe_seq; [by apply uri_read|]. intros uri _. cbv zeta beta.
  match goal with |- context [redirect_loop cfg count 0 pMessage _ seqNo ?w0] =>
    destruct (redirect_loop_ok cfg G count_small X m seqNo rest N HG HN Err plugin_error count 0 pMessage (getRequestMethod m) w0 l)
      as ([w exn] & -> & l1 & evs & [Hp1 He1] & Hptr1 & Ht1 & Hev1 & Hex1) end; [by split; [|apply no_error_yet]|done|lia|].
  cbn [obind fst snd] in *. specialize (Hev1 [] I). rewrite app_nil_r in Hev1. simpl in Hev1, Ht1.
  destruct exn as [e|].
  { destruct Hp1 as [Ht Hit Hb Ho Howed Hdue]. exists l1, evs, []. simpl. rewrite app_nil_r. split_and!; try done. by destruct (w_suspendObject w); lia. }
  destruct (w_willError w || negb (w_willSuspend w)) eqn:Hdone.
  2:{ apply orb_false_iff in Hdone as [_ Hws]. apply negb_false_iff in Hws. destruct Hp1 as [Ht Hit Hb Ho Howed Hdue]. exists l1, evs, [].
      rewrite Hws in Ho. simpl. rewrite app_nil_r. destruct (w_suspendObject w) as [a|]; [|by destruct Ho as (_ & [=] & _)].
      destruct Ho as (Hin & Hw & o & Ho & Hm & _ & Hwt). split_and!; try done; [lia|].
      intros HX k b o' Hkb _ Hb'. destruct (decide (a = b)) as [<-|Hne]; [|by apply (Howed HX k b); [|congruence|]].
      simplify_eq. by apply Hwt. }
  rewrite (deref_ok cfg G X m seqNo rest N _ count _ _ _ l1 pMessage Hp1 Hptr1). cbn [obind].
  eapply safe_seq; [by apply answer_sent|]. intros s2 (Hsame & ev & Htr & Hans).
  apply (pass_same cfg G X) with (s' := s2) in Hp1; [|done]. destruct Hp1 as [Ht Hit Hb Ho Howed Hdue].
  assert (due cfg (trace s2) s2 l1) as Hdue2 by (rewrite Htr; apply due_plain; [done|]; by destruct ev).
  destruct (w_suspendObject w) as [a|].
  - destruct Ho as (Hin & Hw & o & Ho & Hm & _).
    destruct (cancel_one cfg G s2 l1 seqNo a Ht Hit) as (l2 & o' & s3 & Hl & Ho' & -> & Ht3 & Hit3 & Hw3 & Hn3 & Hobj & Htr3); [lia|done|].
    simplify_eq. cbn [obind]. exists l2, evs, (ev :: cancels cfg seqNo o 0 count ++ freed o). simpl. split_and!; try done.
    + lia.
    + rewrite Htr3. by apply (due_cancel cfg G _ s2 l1 s3 l2 seqNo a o).
    + rewrite Htr3, Htr, Ht1, <- !app_assoc. done.
    + constructor; [right; by eexists|]. eapply Forall_impl; [apply cancels_silent|]. by left.
    + unfold answered. csimpl. rewrite Hans. csimpl. fold (answered (cancels cfg seqNo o 0 count ++ freed o)).
      rewrite silent_unanswered by apply cancels_silent. simpl. rewrite <- Hw3. done.
    + intros HX k b o' Hkb _ Hb'. rewrite Hobj in Hb'. apply lookup_delete_Some in Hb' as [Hne Hb']. apply (Howed HX k b); [|congruence|done].
      rewrite Hl. set_solver.
  - destruct Ho as (Hseq & Hws & Hw). cbn [obind]. exists l1, evs, [ev]. simpl. split_and!; try done.
    + lia.
    + rewrite Htr, Ht1, <- !app_assoc. done.
    + apply Forall_singleton. right. by eexists.
    + unfold answered. csimpl. rewrite Hans. simpl. by rewrite Hw.
    + intros HX k b o' Hkb _ Hb'. by apply (Howed HX k b).
Qed.

(** ** Walking through the list *)

Abbreviation walking := (walking (valid := fun _ : UtlInt => True)).
Abbreviation standing := (standing (valid := fun _ : UtlInt => True)).

Lemma tidy_set_list s l h :
  tidy s l -> hm_inv (valid := fun _ => True) h -> kvs h ≡ₚ kvs (mSuspendList s) -> tidy (set_list h s) l.
Proof. intros [] Hi Hp. split; simpl; try done. by rewrite Hp. Qed.

Lemma next_suspended_ok s l pend :
  tidy s l -> walking (mSuspendList s) pend ->
  match pend with
  | [] => exists h, next_suspended s = Ok (None, set_list h s) /\ tidy (set_list h s) l /\ walking h []
  | p :: rest => exists h k a, next_suspended s = Ok (Some (mkInt k, a), set_list h s) /\ tidy (set_list h s) l
      /\ standing h p rest /\ kv_of p = entry (k, a) /\ (k, a) ∈ l
  end.
Proof.
  intros Ht Hw. pose proof (walk_next _ _ Hw) as Hn. unfold next_suspended. destruct pend as [|p rest].
  - destruct Hn as (h & -> & Hw' & Hb). cbn [obind]. exists h. split; [done|]. split; [|done].
    apply tidy_set_list; [done|apply Hw'|]. unfold kvs. by rewrite Hb.
  - destruct Hn as (h & -> & Hs & Hb). cbn [obind].
    assert (tidy (set_list h s) l) as Ht' by (apply tidy_set_list; [done|apply Hs|unfold kvs; by rewrite Hb]).
    assert (kv_of p ∈ kvs h) as Hin by (apply list_elem_of_fmap_2; by eapply standing_in).
    rewrite (t_list _ _ _ _ Ht' : kvs h ≡ₚ _) in Hin. apply list_elem_of_fmap in Hin as ([k a] & Ekv & Hin).
    destruct (walk_key_value _ _ _ Hs) as (it & -> & _ & ->). exists h, k, a.
    pose proof (f_equal fst Ekv) as Ek. pose proof (f_equal snd Ekv) as Ev. simpl in Ek, Ev. rewrite Ek, Ev. by split_and!.
Qed.

(** Cancelling the entry the iterator stands on *)
Lemma cancel_standing s l k a p pend :
  tidy s l -> standing (mSuspendList s) p pend -> kv_of p = entry (k, a) -> (k, a) ∈ l -> mNextSeqNo s < 3 * 2 ^ 30 ->
  exists l' o s', l ≡ₚ (k, a) :: l' /\ objects s !! a = Some o /\ cancelRedirect cfg (to_uint k) a s = Ok s' /\ tidy s' l'
    /\ walking (mSuspendList s') pend /\ waiting s l ≡ₚ mMessage o :: waiting s' l' /\ mNextSeqNo s' = mNextSeqNo s
    /\ objects s' = delete a (objects s) /\ trace s' = trace s ++ cancels cfg k o 0 count ++ freed o
    /\ kvs (mSuspendList s) ≡ₚ kv_of p :: kvs (mSuspendList s').
Proof.
  intros Ht Hs Ekv Hin Hn. apply elem_of_Permutation in Hin as Hl. destruct Hl as (l' & Hl).
  destruct (live cfg G s l k a Ht Hin) as (o & Ho & _). exists l', o.
  assert (to_uint k = k) as -> by (apply (keys_small cfg G s l (k, a) Ht ltac:(lia) Hin)).
  destruct (walk_remove _ _ _ Hs) as (h & Er & Hw & Hperm).
  { assert (length (kvs (mSuspendList s)) = length l) as Hlen by (rewrite (t_list _ _ _ _ Ht); apply length_fmap).
    unfold kvs in Hlen. rewrite length_fmap in Hlen. rewrite Hlen. pose proof (t_length _ _ _ _ Ht). unfold SIZE_MAX. lia. }
  assert (kvs (mSuspendList s) ≡ₚ kv_of p :: kvs h) as Hkvs by (unfold kvs; by rewrite Hperm).
  pose proof (f_equal fst Ekv) as Ek. pose proof (f_equal snd Ekv) as Ev. simpl in Ek, Ev. rewrite Ek, Ev in Er.
  destruct (cancelRedirect_spec cfg G s l l' k a o h) as (s' & Ec & Ht' & Hwt & Hls & Hnn & Hob & Htr); try done.
  - apply Hw.
  - apply (Permutation_cons_inv (a := entry (k, a))). rewrite <- Ekv at 1. rewrite <- Hkvs, (t_list _ _ _ _ Ht), Hl. done.
  - exists s'. rewrite Hls. by split_and!.
Qed.

Lemma waiting_set_list h s l : waiting (set_list h s) l = waiting s l.
Proof. done. Qed.

(** What a loop over the list leaves: some requests answered, the objects of
    the others untouched *)
Definition walked s l (evs : list event) s' l' : Prop :=
  tidy s' l' /\ walking (mSuspendList s') [] /\ mNextSeqNo s' = mNextSeqNo s /\ trace s' = trace s ++ evs
  /\ l' ⊆ l /\ (forall k a, (k, a) ∈ l' -> objects s' !! a = objects s !! a)
  /\ (due cfg (trace s) s l -> due cfg (trace s') s' l').

(** CANCEL *)
Lemma cancel_invite_loop_ok message : G message -> forall fuel s l pend,
  tidy s l -> walking (mSuspendList s) pend -> (length pend <= fuel)%nat -> mNextSeqNo s < 3 * 2 ^ 30 ->
  safe E (cancel_invite_loop fill pcre_exec cfg newTag fuel message s) (fun s' => exists l' evs,
    walked s l evs s' l' /\ Forall (fun e => silent e \/ is_Some (answer_of e)) evs /\ answered evs ++ waiting s' l' ≡ₚ waiting s l).
Proof.
  intros HG. induction fuel as [|fuel IH]; intros s l pend Ht Hw Hf Hn; cbn [cancel_invite_loop];
    pose proof (next_suspended_ok s l pend Ht Hw) as Hnext; destruct pend as [|p rest].
  1, 3: destruct Hnext as (h & -> & Ht' & Hw'); cbn [obind]; exists l, []; split; [|by split; [constructor|]];
    split_and!; try done; [by rewrite app_nil_r|intros Hd; by apply (due_same cfg _ s)].
  - simpl in Hf. lia.
  - destruct Hnext as (h & k & a & -> & Ht' & Hs & Ekv & Hin). cbn [obind].
    destruct (live cfg G _ l k a Ht' Hin) as (o & Ho & ->). cbn [obind]. pose proof (t_objects _ _ _ _ Ht' _ _ Ho) as [_ HGo].
    eapply safe_seq; [by apply invite_compared|]. intros applies _. destruct applies.
    + apply safe_bind, safe_bind. eapply safe_mono; [by apply response_built|]. intros [response s1] [Hsame Htr1]. simpl in Hsame, Htr1.
      cbn beta iota. change (mValue (mkInt k)) with k. set (s2 := emit (ESend (mMessage o) response None) s1).
      assert (same_heap (set_list h s) s2) as Hsame2 by (eapply same_heap_trans; [exact Hsame|done]).
      destruct (tidy_same cfg G _ _ l Hsame2 Ht') as [Ht2 Hw2]. pose proof Hsame2 as (Hn2 & Hl2 & Ho2 & _).
      destruct (cancel_standing s2 l k a p rest) as (l' & o' & s3 & Hl & Ho' & -> & Ht3 & Hw3 & Hwt3 & Hn3 & Hob3 & Htr3 & _);
        [done|by rewrite Hl2|done|done|rewrite Hn2; done|].
      assert (o' = o) as -> by congruence. cbn [safe].
      eapply safe_mono; [apply (IH s3 l' rest); [done|done|simpl in Hf; lia|rewrite Hn3, Hn2; done]|].
      intros s4 (l4 & evs & (Ht4 & Hw4 & Hn4 & Htr4 & Hsub & Hob4 & Hdue4) & Hev & Hacc).
      exists l4, (ESend (mMessage o) response None :: (cancels cfg k o 0 count ++ freed o) ++ evs). split; [split_and!; try done|].
      * rewrite Hn4, Hn3, Hn2. done.
      * rewrite Htr4, Htr3. simpl. rewrite Htr1. simpl. by rewrite <- !app_assoc.
      * intros e He. rewrite Hl. right. by apply Hsub.
      * intros k' b Hb. rewrite (Hob4 k' b Hb), Hob3, Ho2. simpl. rewrite lookup_delete_ne; [done|]. intros ->.
        pose proof (t_addr _ _ _ _ Ht2) as Hnd. rewrite Hl in Hnd. simpl in Hnd. apply NoDup_cons in Hnd as [Hnd _].
        apply Hnd, list_elem_of_fmap. exists (k', b). split; [done|]. by apply Hsub.
      * intros Hdue. apply Hdue4. rewrite Htr3. apply (due_cancel cfg G _ s2 l s3 l' k a o); try done. simpl. rewrite Htr1. simpl.
        apply due_plain; [|done]. apply (due_same cfg _ s); [exact Hn2|exact Ho2|exact Hdue].
      * split.
        -- constructor; [right; by eexists|]. apply Forall_app. split; [|done]. eapply Forall_impl; [apply cancels_silent|]. by left.
        -- unfold answered. csimpl. rewrite omap_app. fold (answered (cancels cfg k o 0 count ++ freed o)). fold (answered evs).
           rewrite silent_unanswered by apply cancels_silent. simpl. rewrite Hacc, <- Hwt3. rewrite Hw2. done.
    + cbn [obind]. eapply safe_mono; [apply (IH _ l rest); [done| |simpl in Hf; lia|done]|].
      * by eapply standing_walking.
      * intros s4 (l4 & evs & (Ht4 & Hw4 & Hn4 & Htr4 & Hsub & Hob4 & Hdue4) & Hev & Hacc). exists l4, evs. split; [|done]. split_and!; try done. intros Hd. apply Hdue4. by apply (due_same cfg _ s).
Qed.

(** OS_SHUTDOWN: the events of every entry *)
Definition farewell s (e : Z * nat) : list event :=
  match objects s !! snd e with Some o => cancels cfg (fst e) o 0 count ++ freed o | None => [] end.

Lemma cancel_all_loop_ok : forall fuel s l pend,
  tidy s l -> walking (mSuspendList s) pend -> kv_of <$> pend ≡ₚ entry <$> l -> (length pend <= fuel)%nat -> mNextSeqNo s < 3 * 2 ^ 30 ->
  exists s' evs, cancel_all_loop cfg fuel s = Ok s' /\ tidy s' [] /\ walking (mSuspendList s') []
    /\ mNextSeqNo s' = mNextSeqNo s /\ trace s' = trace s ++ evs /\ evs ≡ₚ l ≫= farewell s.
Proof.
  induction fuel as [|fuel IH]; intros s l pend Ht Hw Hperm Hf Hn; cbn [cancel_all_loop];
    pose proof (next_suspended_ok s l pend Ht Hw) as Hnext; destruct pend as [|p rest].
  1, 3: destruct Hnext as (h & -> & Ht' & Hw'); cbn [obind]; simpl in Hperm; symmetry in Hperm; apply Permutation_nil_r in Hperm;
    apply fmap_nil_inv in Hperm as ->; exists (set_list h s), []; split_and!; try done; by rewrite app_nil_r.
  - simpl in Hf. lia.
  - destruct Hnext as (h & k & a & -> & Ht' & Hs & Ekv & Hin). cbn [obind].
    change (mValue (mkInt k)) with k. destruct (cancel_standing (set_list h s) l k a p rest) as (l' & o & s3 & Hl & Ho & -> & Ht3 & Hw3 & Hwt3 & Hn3 & Hob3 & Htr3 & _);
      [done..|]. cbn [obind].
    destruct (IH s3 l' rest) as (s4 & evs & -> & Ht4 & Hw4 & Hn4 & Htr4 & Hevs); [done|done| |simpl in Hf; lia|rewrite Hn3; done|].
    { apply (Permutation_cons_inv (a := entry (k, a))). rewrite <- Ekv at 1. rewrite fmap_cons in Hperm. rewrite Hperm, Hl. done. }
    exists s4, ((cancels cfg k o 0 count ++ freed o) ++ evs). split_and!; try done.
    + rewrite Hn4, Hn3. done.
    + rewrite Htr4, Htr3. simpl. by rewrite <- !app_assoc.
    + rewrite Hl. csimpl. unfold farewell at 1. simpl in Ho |- *. rewrite Ho. f_equiv. rewrite Hevs. apply reflexive_eq.
      assert (a ∉ snd <$> l') as Hna.
      { pose proof (t_addr _ _ _ _ Ht) as Hnd. rewrite Hl in Hnd. simpl in Hnd. by apply NoDup_cons in Hnd as [? _]. }
      clear - Hna Hob3. revert Hna. induction l' as [|e l' IHl]; intros Hna; [done|]. csimpl. rewrite IHl by set_solver. f_equal.
      unfold farewell. rewrite Hob3. simpl. rewrite lookup_delete_ne by set_solver. done.
Qed.

(** ** handleMessage *)

Lemma list_size s l : tidy s l -> Z.of_nat (length (concat (mpBucket (mSuspendList s)))) = Z.of_nat (length l)
  /\ entries (mSuspendList s) = Z.of_nat (length l).
Proof.
  intros Ht. assert (length (kvs (mSuspendList s)) = length l) as Hlen by (rewrite (t_list _ _ _ _ Ht); apply length_fmap).
  unfold kvs in Hlen. rewrite length_fmap in Hlen. rewrite Hlen. split; [done|].
  pose proof (t_inv _ _ _ _ Ht) as (_ & _ & He & _). unfold entries. by rewrite He, Hlen.
Qed.

(** The iterator is made before the loop [f] and destroyed after it. *)
Lemma with_iterator_ok f s l (Q : server -> list (Z * nat) -> Prop) :
  tidy s l -> mIteratorList (mSuspendList s) = [] -> mNextSeqNo s < 3 * 2 ^ 30 ->
  (forall s1, tidy s1 l -> walking (mSuspendList s1) (concat (mpBucket (mSuspendList s))) -> objects s1 = objects s ->
     mNextSeqNo s1 = mNextSeqNo s -> trace s1 = trace s ->
     safe E (f (S (length l)) s1) (fun s2 => exists l', tidy s2 l' /\ walking (mSuspendList s2) [] /\ mNextSeqNo s2 = mNextSeqNo s
       /\ (forall h, Q (set_list h s2) l'))) ->
  safe E (with_iterator f s) (fun s' => exists l', tidy s' l' /\ mIteratorList (mSuspendList s') = []
    /\ mNextSeqNo s' = mNextSeqNo s /\ Q s' l').
Proof.
  intros Ht Hi Hn Hf. unfold with_iterator. destruct (list_size s l Ht) as [_ ->]. rewrite Nat2Z.id.
  pose proof (walk_start _ (t_inv _ _ _ _ Ht) Hi) as Hw.
  eapply safe_seq; [apply Hf; try done; apply tidy_set_list; [done|apply Hw|done]|]. intros s2 (l' & Ht2 & Hw2 & Hn2 & HQ).
  destruct (list_size s2 l' Ht2) as [Hsz _]. pose proof (t_length _ _ _ _ Ht2) as Hle.
  destruct (walk_end _ Hw2) as (h & -> & Hinv & Hit & Hperm); [lia|]. cbn [obind]. exists l'. split_and!; try done.
  apply tidy_set_list; [done..|]. unfold kvs. by rewrite Hperm.
Qed.

(** The state between two messages: [reqs] have been received. *)
Definition no_exception (evs : list event) : Prop := Forall (fun e => ~ thrown e) evs.
Definition steady (N : Z) (reqs : list SipMessage) s : Prop :=
  exists l, tidy s l /\ mIteratorList (mSuspendList s) = [] /\ mNextSeqNo s <= N /\ due cfg (trace s) s l
    /\ (no_exception (trace s) -> reqs ≡ₚ answered (trace s) ++ waiting s l /\ owed (fun _ => True) s l).

Lemma not_thrown evs : Forall (fun e => silent e \/ is_Some (answer_of e)) evs -> no_exception evs.
Proof. intros Hf. eapply Forall_impl; [exact Hf|]. intros [] [?|[? ?]]; simpl in *; naive_solver. Qed.

(** One pass through the plug-ins, then answers and cancellations *)
Definition one_pass s s' : Prop :=
  exists evs tail, trace s' = trace s ++ evs ++ tail /\ pass_events cfg LOWEST_AUTHORITY_LEVEL evs
    /\ Forall (fun e => silent e \/ is_Some (answer_of e)) tail.

Lemma no_pass s s' evs : trace s' = trace s ++ evs -> Forall (fun e => silent e \/ is_Some (answer_of e)) evs -> one_pass s s'.
Proof. intros Ht Hf. by exists [], evs. Qed.

(** A request that was processed is accounted for. *)
Lemma processed_steady N m rest s r reqs :
  processed (no_exception (trace s)) N m rest s r ->
  (no_exception (trace s) -> reqs ≡ₚ answered (trace s) ++ m :: rest) ->
  steady N reqs (snd r) /\ one_pass s (snd r) /\ (is_Some (fst r) -> ~ no_exception (trace (snd r))).
Proof.
  intros (l & evs & tail & Ht & Hi & Hn & Hdue & Htr & Hev & Htail & Hr) Hreqs. split_and!.
  - exists l. split_and!; try done. intros Hne. rewrite Htr in Hne |- *. apply Forall_app in Hne as [Hne Hne2].
    destruct (fst r) as [e|]; [destruct Hr as (e' & He & Hth); rewrite Forall_forall in Hne2; by destruct (Hne2 e'); [set_solver|]|].
    destruct Hr as (_ & Hacc & Howed). split; [|by apply Howed]. rewrite !answered_app, (pass_events_unanswered _ _ Hev). simpl.
    rewrite <- app_assoc, Hacc. by apply Hreqs.
  - by exists evs, tail.
  - intros [e He] Hne. rewrite He in Hr. destruct Hr as (e' & He' & Hth). rewrite Htr in Hne. unfold no_exception in Hne.
    rewrite Forall_forall in Hne. apply (Hne e'); [set_solver|done].
Qed.

(** A request *)
Definition is_cancel m : bool := strcasecmp (getRequestMethod m) SIP_CANCEL_METHOD =? 0.

Lemma handle_request_ok N reqs m s :
  G m -> N + 1 < 3 * 2 ^ 30 -> steady N reqs s ->
  safe E (handle_request fill pcre_exec cfg newTag m s) (fun r =>
    steady (N + 1) (if is_cancel m then reqs else m :: reqs) (snd r) /\ one_pass s (snd r) /\ (is_Some (fst r) -> ~ no_exception (trace (snd r)))).
Proof.
  intros HG HN (l & Ht & Hi & Hn & Hdue & Hacc). unfold handle_request. fold (is_cancel m). destruct (is_cancel m).
  - eapply safe_seq.
    + apply (with_iterator_ok (fun fuel => cancel_invite_loop fill pcre_exec cfg newTag fuel m) s l (fun s' l' =>
        one_pass s s' /\ due cfg (trace s') s' l' /\ (no_exception (trace s') -> reqs ≡ₚ answered (trace s') ++ waiting s' l' /\ owed (fun _ => True) s' l')));
        [done|done|lia|].
      intros s1 Ht1 Hw1 Hob1 Hn1 Htr1.
      eapply safe_mono; [apply (cancel_invite_loop_ok m HG _ s1 l _ Ht1 Hw1); [destruct (list_size s l Ht); lia|lia]|].
      intros s2 (l' & evs & (Ht2 & Hw2 & Hn2 & Htr2 & Hsub & Hob2 & Hdue2) & Hev & Hacc2). exists l'. split_and!; try done; [congruence|].
      intros h. split; [by apply (no_pass _ _ evs); [simpl; by rewrite Htr2, Htr1|]|].
      split; [apply (due_same cfg _ s2); [done|done|]; apply Hdue2; rewrite Htr1; by apply (due_same cfg _ s)|]. intros Hne. simpl in Hne |- *. rewrite Htr2, Htr1 in Hne |- *. apply Forall_app in Hne as [Hne _].
      destruct (Hacc Hne) as [Hr Ho]. split.
      * rewrite answered_app, <- app_assoc, waiting_set_list, Hacc2. rewrite Hr. f_equiv. unfold waiting. by rewrite Hob1.
      * intros k b o Hb _ Hob. simpl in Hob. rewrite (Hob2 k b Hb), Hob1 in Hob. apply (Ho k b); [by apply Hsub|done|done].
    + intros s' (l' & Ht' & Hi' & Hn' & Hone & Hdue' & HQ). simpl. split_and!; [|done|by intros [? ?]]. exists l'. split_and!; try done. lia.
  - eapply safe_mono; [eapply (processRedirect_ok (no_exception (trace s)) (N + 1) m (waiting s l) (Caller m) (mNextSeqNo s) None s l); try done|].
    + split; try done; [lia|]. intros Hne k a o Hin _ Ho. by apply (proj2 (Hacc Hne) k a).
    + by left.
    + intros r Hr. apply (processed_steady _ _ _ _ _ _ Hr). intros Hne. rewrite (proj1 (Hacc Hne)). apply Permutation_middle.
Qed.

(** The entry of a call back *)
Lemma findValue_entry s l k : tidy s l -> mIteratorList (mSuspendList s) = [] -> mNextSeqNo s < 2 ^ 32 -> 0 <= k < 2 ^ 32 ->
  (exists a, findValue (mSuspendList s) (mkInt k) = Ok (VObj a) /\ (k, a) ∈ l)
  \/ (findValue (mSuspendList s) (mkInt k) = Ok VNull /\ forall a, (k, a) ∉ l).
Proof.
  intros Ht Hi Hn Hk. pose proof (find_entry cfg G s l k Ht Hi Hn Hk) as Hf.
  destruct (lookup_abstract _ _ (mkInt k) (tidy_abstracts cfg G s l Ht Hi) I) as (r & Er & Hr & _).
  unfold findValue. rewrite Er. cbn [obind fst snd]. rewrite <- Hr in Hf. destruct r as [p|]; simpl in Hf.
  - destruct Hf as (a & Ekv & Hin). left. exists a. pose proof (f_equal snd Ekv) as Ev. simpl in Ev. by rewrite Ev.
  - by right.
Qed.

(** One plug-in less to wait for *)
Lemma slots_resume o i r :
  slots_ok cfg o -> mRedirectors o !! i = Some r -> suspended r = true ->
  let o' := mkSuspend (mMessage o) (mSuspendCount o - 1) (<[i := mkRedirector false (needsCancel r) (privateStorage r)]> (mRedirectors o)) in
  slots_ok cfg o' /\ INT_MIN <= mSuspendCount o - 1 <= INT_MAX.
Proof.
  intros (Hl & Hc & Hf) Hr Hs o'. subst o'. simpl.
  pose proof (number_suspended_insert _ i r (mkRedirector false (needsCancel r) (privateStorage r)) Hr) as En. rewrite Hs in En. simpl in En.
  pose proof (number_suspended_le (mRedirectors o)). unfold slots_ok. simpl. rewrite length_insert.
  split_and!; try done; try lia; [|unfold INT_MIN; lia]. by apply Forall_insert.
Qed.

(** A call back: with an unknown number, or from a plug-in that does not
    hold the request, nothing happens. *)
Definition resumes s l (seqNo redirectorNo : Z) : Prop :=
  exists a o r, (seqNo, a) ∈ l /\ objects s !! a = Some o /\ 0 <= redirectorNo < Z.of_nat count
    /\ mRedirectors o !! Z.to_nat redirectorNo = Some r /\ suspended r = true.

Lemma handle_restart_ok N reqs seqNo redirectorNo s :
  0 <= seqNo < 2 ^ 32 -> N < 3 * 2 ^ 30 -> steady N reqs s ->
  safe E (handle_restart fill pcre_exec cfg newTag seqNo redirectorNo s) (fun r => steady N reqs (snd r) /\ one_pass s (snd r)).
Proof.
  intros Hk HN Hst. pose proof Hst as (l & Ht & Hi & Hn & Hdue & Hacc). unfold handle_restart.
  assert (one_pass s s) as Hnothing by (apply (no_pass s s []); [by rewrite app_nil_r|constructor]).
  destruct (findValue_entry s l seqNo Ht Hi ltac:(lia) Hk) as [(a & -> & Hin)|[-> _]]; cbn [obind]; [|done].
  destruct (Z.ltb_spec redirectorNo 0); [done|]. destruct (Z.leb_spec (Z.of_nat count) redirectorNo); [done|]. cbn [orb].
  destruct (live cfg G s l seqNo a Ht Hin) as (o & Ho & ->). cbn [obind]. pose proof (t_objects _ _ _ _ Ht _ _ Ho) as [Hs HG].
  destruct (slot_ok cfg o (Z.to_nat redirectorNo) Hs) as (r & Hr & ->); [lia|]. cbn [obind].
  destruct (suspended r) eqn:Hsusp; [|done].
  destruct (slots_resume o (Z.to_nat redirectorNo) r Hs Hr Hsusp) as [Hs' Hint]. rewrite int_arith_ok by done. cbn [obind set_slot mMessage mRedirectors].
  set (o' := mkSuspend (mMessage o) (mSuspendCount o - 1) _) in *. set (s1 := set_object a o' s).
  destruct (tidy_set_object cfg G s l a o o' Ht Ho eq_refl Hs') as [Ht' Hw']. fold s1 in Ht', Hw'.
  assert (due cfg (trace s1) s1 l) as Hdue1.
  { apply (due_set_object cfg _ s l a o); [done| |done]. intros j r' Hj Hnc. simpl. destruct (decide (Z.to_nat redirectorNo = j)) as [<-|Hne].
    - simplify_eq. eexists. rewrite list_lookup_insert_eq by (by eapply lookup_lt_Some). done.
    - exists r'. by rewrite list_lookup_insert_ne. }
  pose proof Hs' as (_ & Hcount & _). change (mSuspendCount o') with (mSuspendCount o - 1) in Hcount.
  destruct (Z.eqb_spec (mSuspendCount o - 1) 0) as [Hzero|Hpos].
  - pose proof Hin as Hl. apply elem_of_Permutation in Hl as (l' & Hl).
    assert (waiting s1 l ≡ₚ mMessage o :: waiting s1 l') as Hwl.
    { rewrite (waiting_perm _ _ _ Hl). unfold waiting, waiting_in. csimpl. by rewrite lookup_insert_eq. }
    eapply safe_seq; [apply (processRedirect_ok (no_exception (trace s)) N (mMessage o) (waiting s1 l') (InObject a) seqNo (Some a) s1 l); try done|].
    + split; try done; [simpl; lia| |].
      * split; [done|]. split; [done|]. exists o'. split; [apply lookup_insert_eq|]. split; [done|].
        assert (number_suspended (mRedirectors o') = 0%nat) as Hnone by lia. split; [|unfold waits; split; [done|lia]].
        intros j r' _ Hj. destruct (suspended r') eqn:Esusp; [|done]. exfalso.
        assert (r' ∈ filter (fun r => suspended r = true) (mRedirectors o')) as Hel
          by (apply list_elem_of_filter; split; [done|by eapply list_elem_of_lookup_2]).
        unfold number_suspended in Hnone. apply nil_length_inv in Hnone. rewrite Hnone in Hel. set_solver.
      * intros Hne k b ob Hb Hnb Hob. simpl in Hob. rewrite lookup_insert_ne in Hob by congruence. by apply (proj2 (Hacc Hne) k b).
    + right. by exists a.
    + intros [exn s2] Hp. cbn [fst snd]. destruct (processed_steady _ _ _ _ _ reqs Hp) as (Hst2 & Hone & _); [|by split].
      intros Hne. rewrite (proj1 (Hacc Hne)), <- Hwl, Hw'. done.
  - cbn [snd]. split; [|exact Hnothing]. exists l. split_and!; try done. intros Hne. destruct (Hacc Hne) as [Hr2 Ho2].
    assert (reqs ≡ₚ answered (trace s1) ++ waiting s1 l) as Hr3 by (rewrite Hw'; exact Hr2). split; [exact Hr3|].
    intros k b ob Hb _ Hob. simpl in Hob. destruct (decide (a = b)) as [<-|Hnb].
    + rewrite lookup_insert_eq in Hob. injection Hob as <-. unfold waits. lia.
    + rewrite lookup_insert_ne in Hob by done. by apply (Ho2 k b).
Qed.

(** The requests of a message *)
Definition requests_of (msg : OsMsg) : list SipMessage :=
  match msg with PHONE_APP m => if is_cancel m then [] else [m] | _ => [] end.

(** Messages as they arrive before the server is told to stop *)
Definition message_ok (msg : OsMsg) : Prop :=
  match msg with
  | PHONE_APP m => G m
  | REDIRECT_RESTART seqNo _ => 0 <= seqNo < 2 ^ 32
  | OS_SHUTDOWN => False
  | OTHER_MSG => True
  end.

Lemma steady_more N N' reqs s : N <= N' -> steady N reqs s -> steady N' reqs s.
Proof. intros Hle (l & Ht & Hi & Hn & Hdue & Hacc). exists l. split_and!; try done. lia. Qed.

Lemma handleMessage_ok N reqs msg s :
  message_ok msg -> N + 1 < 3 * 2 ^ 30 -> steady N reqs s ->
  safe E (handleMessage fill pcre_exec cfg newTag msg s) (fun r =>
    steady (N + 1) (requests_of msg ++ reqs) (snd r) /\ one_pass s (snd r)).
Proof.
  intros Hm HN Hst. assert (one_pass s s) as Hnothing by (apply (no_pass s s []); [by rewrite app_nil_r|constructor]).
  destruct msg as [m|seqNo redirectorNo| |]; cbn [handleMessage requests_of].
  - eapply safe_seq; [by apply (handle_request_ok N reqs)|]. intros [[e|] s1] (Hst1 & Hone & Hex); cbn [fst snd] in *.
    + eapply safe_seq; [by apply response_built|]. intros [r s2] [Hsame Htr]. cbn [fst snd] in *.
      destruct Hst1 as (l & Ht & Hi & Hn & Hdue & _). pose proof Hsame as (E1 & E2 & E3 & _).
      split.
      * exists l. destruct (tidy_same cfg G s1 (emit (ESend m r None) s2) l) as [Ht2 _]; [eapply same_heap_trans; [exact Hsame|done]|done|].
        split_and!; [done|simpl; by rewrite E2|simpl; by rewrite E1| |].
        { simpl. rewrite Htr. apply due_plain; [|done]. by apply (due_same cfg _ s1). }
        simpl. rewrite Htr. intros Hne. apply Forall_app in Hne as [Hne _]. by destruct Hex.
      * destruct Hone as (evs & tail & Ht1 & Hev & Htail). exists evs, (tail ++ [ESend m r None]). simpl. rewrite Htr, Ht1, <- !app_assoc.
        split_and!; try done. apply Forall_app. split; [done|]. apply Forall_singleton. right. by eexists.
    + by destruct (is_cancel m).
  - eapply safe_seq; [by apply (handle_restart_ok N reqs); [|lia|]|]. intros [[handled exn] s1] [Hst1 Hone]. cbn [snd] in *.
    split; [|done]. eapply steady_more; [|exact Hst1]. lia.
  - done.
  - split; [|done]. eapply steady_more; [|exact Hst]. lia.
Qed.

(** ** Runs *)

Fixpoint run (msgs : list OsMsg) s : outcome server :=
  match msgs with
  | [] => Ok s
  | msg :: msgs' => let! (_, s) := handleMessage fill pcre_exec cfg newTag msg s in run msgs' s
  end.

Lemma run_ok msgs : forall N reqs s,
  Forall message_ok msgs -> N + Z.of_nat (length msgs) < 3 * 2 ^ 30 -> steady N reqs s ->
  safe E (run msgs s) (steady (N + Z.of_nat (length msgs)) (reverse (msgs ≫= requests_of) ++ reqs)).
Proof.
  induction msgs as [|msg msgs IH]; intros N reqs s Hf HN Hst; cbn [run].
  - simpl. by rewrite Z.add_0_r.
  - apply Forall_cons in Hf as [Hm Hf]. cbn [length] in *. eapply safe_seq; [apply (handleMessage_ok N reqs); [done|lia|done]|].
    intros [b s1] [Hst1 _]. cbn [snd] in Hst1. eapply safe_mono; [apply (IH (N + 1) (requests_of msg ++ reqs) s1 Hf); [lia|exact Hst1]|].
    intros s2. replace (N + 1 + Z.of_nat (length msgs)) with (N + Z.of_nat (S (length msgs))) by lia. csimpl.
    assert (reverse (requests_of msg) = requests_of msg) as Hrev by (destruct msg as [m| | |]; [simpl; destruct (is_cancel m)| | |]; done).
    by rewrite reverse_app, Hrev, <- app_assoc.
Qed.
End Run.
