(* ===== verification/RedirectAnswer.v ===== *)
(** * The responses of the redirect server

    For a request that can be read, the final response is built without
    failing: its status is 302, 404 or the error of a plug-in, its From, Call-Id
    and CSeq are those of the request, and a 302 has the contacts that were
    found, in their order. *)
From Stdlib Require Import ZArith Lia Ascii String.
From stdpp Require Import base list strings gmap sets.
From S2P Require Import Prelude UtlString UtlStringRefine Containable UtlHashMap NameValuePair NameValueTokenizer HttpMessage HttpMessageSpec.
From S2P Require Import Format Pcre PcreSpec UrlCodec Url UrlSyntax UrlTotal RouteState RouteStateMsg RouteStateMsgSpec ProxyRoutes.
From S2P Require Import SipMatch SipMatchSpec SipTarget Redirect RedirectHeap RedirectPass RedirectRun.
Local Open Scope Z_scope.

(** ** Setting fields *)

(** The names of the fields a response gets after setResponseData *)
Definition later_fields : list (list ascii) :=
  [SIP_WARNING_FIELD; HTTP_CONTENT_TYPE_FIELD; SIP_ACCEPT_FIELD; SIP_ACCEPT_ENCODING_FIELD; SIP_ACCEPT_LANGUAGE_FIELD;
   SIP_ALLOW_FIELD; SIP_REQUIRE_FIELD; SIP_RETRY_AFTER_FIELD; SIP_UNSUPPORTED_FIELD; SIP_CONTACT_FIELD; SIP_DIVERSION_FIELD;
   SIP_USER_AGENT_FIELD].

Lemma later_plain : Forall plain_name later_fields.
Proof.
  repeat apply Forall_cons_2; try apply Forall_nil_2; (split; [apply (bool_decide_unpack _); vm_compute; exact I|reflexivity]).
Qed.
Lemma later_other : Forall (fun n => n ∉ response_fields) later_fields.
Proof. apply (bool_decide_unpack _). vm_compute. exact I. Qed.

Ltac later := apply (bool_decide_unpack _); vm_compute; exact I.

Section Fields.
Context (fill : nat -> ascii).

(** setHeaderValue at any index, negative ones included *)
Lemma set_any m es n v index :
  table (mNameValues m) es -> plain_name n -> nul_free v ->
  exists m' es', on_headers (fun l => setHeaderValue fill l n v index) m = Ok m' /\ keeps [n] m es m' es'.
Proof.
  intros Ht Hn Hv. destruct (Z.ltb_spec index 0) as [Hneg|Hpos].
  - unfold on_headers, setHeaderValue, getHeaderField. rewrite (proj2 (Z.ltb_lt _ _)) by lia. destruct Hn as [Hn Hu].
    destruct (addHeaderField_spec fill _ es n v Ht Hn Hv) as (l' & -> & Ht'). cbn [obind]. eexists _, _. split; [done|].
    split; [done|]. split; [done|]. intros x Hx. rewrite Hu, values_of_app, values_of_cons_ne by set_solver. by rewrite app_nil_r.
  - replace index with (Z.of_nat (Z.to_nat index)) by lia.
    destruct (set_at fill m es n v (Z.to_nat index) Ht Hn Hv) as (m' & es' & E & Hk & _). by exists m', es'.
Qed.

Lemma add_field m es n v :
  table (mNameValues m) es -> plain_name n -> nul_free v ->
  exists m' es', on_headers (fun l => addHeaderField fill l n v) m = Ok m' /\ keeps [n] m es m' es'.
Proof.
  intros Ht [Hn Hu] Hv. unfold on_headers. destruct (addHeaderField_spec fill _ es n v Ht Hn Hv) as (l' & -> & Ht').
  cbn [obind]. eexists _, _. split; [done|]. split; [done|]. split; [done|]. intros x Hx.
  rewrite Hu, values_of_app, values_of_cons_ne by set_solver. by rewrite app_nil_r.
Qed.

Lemma keeps_more ns ns' m es m' es' : ns ⊆ ns' -> keeps ns m es m' es' -> keeps ns' m es m' es'.
Proof. intros Hs (F & T & V). split_and!; try done. intros n Hn. apply V. set_solver. Qed.

Lemma keeps_step ns m es m1 es1 m2 es2 : keeps ns m es m1 es1 -> keeps ns m1 es1 m2 es2 -> keeps ns m es m2 es2.
Proof. intros H1 H2. eapply keeps_more; [|exact (keeps_trans _ _ _ _ _ _ _ _ H1 H2)]. set_solver. Qed.

(** A list of setters, each keeping all but [ns] *)
Definition setter (ns : list (list ascii)) (f : SipMessage -> outcome SipMessage) : Prop :=
  forall m es, table (mNameValues m) es -> exists m' es', f m = Ok m' /\ keeps ns m es m' es'.

Lemma setter_id ns : setter ns Ok.
Proof. intros m es Ht. exists m, es. by split. Qed.

Lemma setter_field ns n v index : n ∈ ns -> plain_name n -> nul_free v -> setter ns (on_headers (fun l => setHeaderValue fill l n v index)).
Proof.
  intros Hin Hn Hv m es Ht. destruct (set_any m es n v index Ht Hn Hv) as (m' & es' & E & Hk). exists m', es'. split; [done|].
  eapply keeps_more; [|exact Hk]. set_solver.
Qed.

Lemma setter_then ns f g : setter ns f -> setter ns g -> setter ns (fun m => let! m := f m in g m).
Proof.
  intros Hf Hg m es Ht. destruct (Hf m es Ht) as (m1 & es1 & -> & Hk1). destruct (Hg m1 es1) as (m2 & es2 & E2 & Hk2); [apply Hk1|].
  exists m2, es2. split; [exact E2|]. by eapply keeps_step.
Qed.

Lemma later_field n : n ∈ later_fields -> plain_name n.
Proof. intros Hn. exact (proj1 (Forall_forall _ _) later_plain n Hn). Qed.
End Fields.

Section Answer.
Context {P : Type} `{RedirectPlugin P} `{Storage}.
Context (fill : nat -> ascii) `{Pcre pcre_exec} (cfg : Config) (newTag : nat -> list ascii).
Hypothesis tags_nul_free : forall n, nul_free (newTag n).
Abbreviation server := (Server P).
Implicit Types (s : server) (m r : SipMessage) (es hs : list header).

(** ** Requests and errors *)

(** The headers of a request that can be answered *)
Record answerable m hs : Prop := {
  q_table : table (mNameValues m) hs;
  q_vias : good_vias hs;
  q_cseq : 0 <= snd (fst (parse_cseq (first_value SIP_CSEQ_FIELD hs)));
  q_from : Z.of_nat (length (first_value SIP_FROM_FIELD hs)) <= ESCAPES_MAX;
  q_uri : Z.of_nat (length (getRequestUri m)) <= ESCAPES_MAX
}.

(** It is no ACK, for which a contact is read and a message sent on. *)
Definition good_request m : Prop := (exists hs, answerable m hs) /\ strcasecmp (getRequestMethod m) SIP_ACK_METHOD <> 0.

(** Errors as setStatusLineData and setWarningData leave them, with a warning
    that fits *)
Definition error_ok (e : ErrorDescriptor) : Prop :=
  400 <= mStatusCode e < 700
  /\ (mWarningCode e = UNINITIALIZED_WARNING_CODE
      \/ 300 <= mWarningCode e <= 399 /\ warning_fits (length (cstr (mDefaultDomain cfg)) + length (cstr (mWarningText e)))).

Definition modest (o : ErrorOp) : Prop :=
  match o with ESetWarning _ t => warning_fits (length (cstr (mDefaultDomain cfg)) + length (cstr t)) | _ => True end.

#[global] Instance modest_dec o : Decision (modest o).
Proof. destruct o; simpl; apply _. Defined.

Lemma error_op_ok e o : modest o -> error_ok e -> error_ok (error_op e o).
Proof.
  intros Hm [Hs Hw]. destruct o as [c t|c t|b|f v]; simpl.
  - unfold setStatusLineData, SIP_4XX_CLASS_CODE, SIP_7XX_CLASS_CODE. destruct (_ && _) eqn:Hc; [|by split].
    apply andb_prop in Hc as [Hlo Hhi]. apply Z.leb_le in Hlo. apply Z.ltb_lt in Hhi. by split.
  - unfold setWarningData, SIP_WARN_INCOMPAT_PROTO_CODE, SIP_WARN_MISC_CODE. destruct (_ && _) eqn:Hc; [|by split].
    apply andb_prop in Hc as [Hlo Hhi]. apply Z.leb_le in Hlo, Hhi. split; [done|]. right. by split.
  - by split.
  - by split.
Qed.

Lemma error_ops_ok os e : Forall modest os -> error_ok e -> error_ok (foldl error_op e os).
Proof. intros Hos. revert e. induction Hos as [|o os Ho _ IH]; intros e He; [done|]. by apply IH, error_op_ok. Qed.

(** ** The parts of a response *)

(** [r] answers a request with headers [hs]. *)
Definition answers_with hs (code : Z) (text : list ascii) r es : Prop :=
  mFirstHeaderLine r = SIP_PROTOCOL_VERSION ++ " "%char :: fmt_d code ++ " "%char :: text
  /\ table (mNameValues r) es
  /\ first_value SIP_FROM_FIELD es = first_value SIP_FROM_FIELD hs
  /\ first_value SIP_CALLID_FIELD es = first_value SIP_CALLID_FIELD hs
  /\ snd (fst (parse_cseq (first_value SIP_CSEQ_FIELD es))) = snd (fst (parse_cseq (first_value SIP_CSEQ_FIELD hs)))
  /\ snd (parse_cseq (first_value SIP_CSEQ_FIELD es)) = snd (parse_cseq (first_value SIP_CSEQ_FIELD hs)).

Lemma answers_keeps hs code text r es r' es' :
  answers_with hs code text r es -> keeps later_fields r es r' es' -> answers_with hs code text r' es'.
Proof.
  intros (F & T & V1 & V2 & V3 & V4) Hk. split; [rewrite (proj1 Hk); done|]. split; [apply Hk|].
  rewrite !(keeps_first _ _ _ _ _ _ Hk) by later. done.
Qed.

Lemma new_response_ok s m hs code text :
  answerable m hs ->
  exists r es s', new_response fill newTag s m code text = Ok (r, s') /\ answers_with hs code text r es
    /\ (forall n, n ∈ later_fields -> values_of n es = []) /\ same_heap s s' /\ trace s' = trace s.
Proof.
  intros []. unfold new_response.
  destruct (setResponseData_spec fill (newTag (tags s)) m hs code text None true (mkMsg [] []) []) as
    (r & es & -> & F & T & V1 & _ & V3 & V4 & V5); [done|done|apply table_nil|done|done|done|].
  cbn [obind]. eexists r, es, _. split; [done|]. split; [|split; [|done]].
  - pose proof (parse_cseq_shape _ (first_nul_free _ _ SIP_CSEQ_FIELD q_table0)) as (x & Hx & Hnx & Hnm & Hmax).
    rewrite cstr_id, Hx in V4 by done. split_and!; try done; rewrite V4, parse_printed_cseq by done; done.
  - intros n Hn. rewrite V5; [done|done|]. exact (proj1 (Forall_forall _ _) later_other n Hn).
Qed.

Lemma set_optional_setter e f : setter later_fields (set_optional fill e f).
Proof.
  unfold set_optional. destruct (getOptinalFieldValue (field_name f) e) as [v|]; [|intros m es Ht; exists m, es; by split].
  apply setter_field; [destruct f; later|apply later_field; destruct f; later|apply cstr_nul_free].
Qed.

Lemma warning_setter e : error_ok e ->
  setter later_fields (fun r => match getWarningData e with
    | Some (code, text) => setWarningField fill code (cstr (mDefaultDomain cfg)) (cstr text) r | None => Ok r end).
Proof.
  intros [_ Hw]. unfold getWarningData, isWarningDataSet. destruct (Z.eqb_spec (mWarningCode e) UNINITIALIZED_WARNING_CODE) as [|Hne];
    cbn [negb]; [apply setter_id|]. destruct Hw as [|[Hc Hf]]; [done|]. intros m es Ht.
  rewrite warning_write; [|done|apply cstr_nul_free..|destruct Hf; unfold PTRDIFF_MAX; lia]. rewrite decide_True by done.
  apply setter_field; [later|apply warning_name|apply warning_value_nul_free; apply cstr_nul_free|done].
Qed.

Lemma error_response_ok s m hs e :
  answerable m hs -> error_ok e ->
  exists r es s', buildResponseFromRequestAndErrorDescriptor fill cfg newTag m e s
      = Ok (r, if mAppendRequestToResponse e then Some m else None, s')
    /\ answers_with hs (mStatusCode e) (cstr (mReasonPhrase e)) r es /\ same_heap s s' /\ trace s' = trace s.
Proof.
  intros Hq He. unfold buildResponseFromRequestAndErrorDescriptor.
  destruct (new_response_ok s m hs (mStatusCode e) (cstr (mReasonPhrase e)) Hq) as (r & es & s' & -> & Ha & _ & Hs & Ht). cbn [obind].
  assert (setter later_fields (fun r => if mAppendRequestToResponse e then setField fill HTTP_CONTENT_TYPE_FIELD CONTENT_TYPE_MESSAGE_SIPFRAG r else Ok r)) as Hfrag.
  { destruct (mAppendRequestToResponse e); [|apply setter_id]. apply setter_field; [later|apply later_field; later|].
    apply (bool_decide_unpack _). vm_compute. exact I. }
  destruct (warning_setter e He r es) as (r1 & e1 & -> & K1); [apply Ha|]. cbn [obind].
  destruct (Hfrag r1 e1) as (r2 & e2 & -> & K2); [apply K1|]. cbn [obind]. pose proof (keeps_step _ _ _ _ _ _ _ K1 K2) as K.
  do 7 (match goal with K : keeps later_fields r es ?ra ?ea |- context [set_optional fill e ?f ?ra] =>
    let rb := fresh "r" in let eb := fresh "e" in let Kb := fresh "K" in
    destruct (set_optional_setter e f ra ea) as (rb & eb & -> & Kb); [apply K|]; cbn [obind];
    apply (keeps_step _ _ _ _ _ _ _ K) in Kb; clear K end).
  eexists _, _, s'. split; [done|]. split; [|done]. by eapply answers_keeps.
Qed.

(** The contacts are appended one after the other. *)
Lemma contacts_loop_ok cs : forall k r es,
  table (mNameValues r) es -> length (values_of SIP_CONTACT_FIELD es) = k -> Z.of_nat (k + length cs) <= INT_MAX ->
  exists r' es', contacts_loop fill cs (Z.of_nat k) r = Ok r' /\ keeps [SIP_CONTACT_FIELD] r es r' es'
    /\ values_of SIP_CONTACT_FIELD es' = values_of SIP_CONTACT_FIELD es ++ (cstr <$> cs).
Proof.
  induction cs as [|c cs IH]; intros k r es Ht Hk Hmax; cbn [contacts_loop].
  - exists r, es. rewrite app_nil_r. by split_and!.
  - rewrite to_int_small by (unfold INT_MAX in *; cbn [length] in Hmax; lia).
    assert (plain_name SIP_CONTACT_FIELD) as [Hn Hu] by plain. unfold setContactField, on_headers.
    destruct (setHeaderValue_spec fill (mNameValues r) es SIP_CONTACT_FIELD k (cstr c) Ht Hn (cstr_nul_free c)) as (l' & es1 & -> & Ht1 & Hv1 & Ho1).
    rewrite Hu in Hv1, Ho1. cbn [obind]. rewrite (proj2 (Nat.ltb_ge _ _)) in Hv1 by lia.
    destruct (IH (S k) (mkMsg (mFirstHeaderLine r) l') es1) as (r2 & es2 & E2 & (F2 & T2 & V2) & Hv2); [done|rewrite Hv1, length_app; simpl; lia|simpl in Hmax; lia|].
    exists r2, es2. replace (Z.of_nat k + 1) with (Z.of_nat (S k)) by lia. split; [exact E2|]. split; [split_and!|].
    + exact F2.
    + done.
    + intros n Hne. rewrite V2, Ho1 by set_solver. done.
    + rewrite Hv2, Hv1, <- app_assoc. done.
Qed.

(** More contacts than an int counts still make a response. *)
Lemma contacts_loop_setter cs : forall index, setter [SIP_CONTACT_FIELD] (contacts_loop fill cs index).
Proof.
  induction cs as [|c cs IH]; intros index; cbn [contacts_loop]; [apply setter_id|].
  apply (setter_then _ (setContactField fill (cstr c) (to_int index))); [|apply IH].
  apply setter_field; [set_solver|plain|apply cstr_nul_free].
Qed.

Lemma user_agent_setter : setter [SIP_USER_AGENT_FIELD] (setUserAgentHeader fill cfg).
Proof.
  intros m es Ht. assert (plain_name SIP_USER_AGENT_FIELD) as Hn by (apply later_field; later). unfold setUserAgentHeader.
  destruct (read_first _ es SIP_USER_AGENT_FIELD Ht Hn) as (v & -> & _). cbn [obind].
  destruct v as [v|]; [by apply setter_id|]. apply setter_field; [set_solver|done|apply cstr_nul_free|done].
Qed.

(** ** The whole answer *)

Definition final_status (willError : bool) (contacts : ContactList) (e : ErrorDescriptor) : Z * list ascii :=
  if willError then (mStatusCode e, cstr (mReasonPhrase e))
  else if bool_decide (mContactList contacts = []) then (SIP_NOT_FOUND_CODE, SIP_NOT_FOUND_TEXT)
  else (SIP_TEMPORARY_MOVE_CODE, SIP_TEMPORARY_MOVE_TEXT).

Lemma diversion_setter contacts :
  setter [SIP_DIVERSION_FIELD] (fun r => if bool_decide (diversionHeader contacts = []) then Ok r
    else on_headers (fun l => addHeaderField fill l SIP_DIVERSION_FIELD (cstr (diversionHeader contacts))) r).
Proof.
  case_bool_decide; [apply setter_id|]. intros m es Ht. apply add_field; [done|apply later_field; later|apply cstr_nul_free].
Qed.

Lemma build_response_ok s m hs willError contacts e :
  answerable m hs -> (willError = true -> error_ok e) ->
  exists r frag es s', build_response fill cfg newTag m willError contacts e s = Ok (r, frag, s')
    /\ answers_with hs (fst (final_status willError contacts e)) (snd (final_status willError contacts e)) r es
    /\ same_heap s s' /\ trace s' = trace s
    /\ (willError = false -> Z.of_nat (length (mContactList contacts)) <= INT_MAX ->
        values_of SIP_CONTACT_FIELD es = cstr <$> mContactList contacts).
Proof.
  intros Hq He. unfold build_response, final_status. destruct willError.
  { destruct (error_response_ok s m hs e Hq (He eq_refl)) as (r & es & s' & -> & Ha & Hs & Ht). by eexists r, _, es, s'. }
  unfold contacts_entries. destruct (decide (mContactList contacts = [])) as [Hc|Hc];
    [rewrite (bool_decide_true (mContactList contacts = [])) by done|rewrite (bool_decide_false (mContactList contacts = [])) by done].
  { rewrite Hc. simpl. destruct (new_response_ok s m hs SIP_NOT_FOUND_CODE SIP_NOT_FOUND_TEXT Hq) as (r & es & s' & -> & Ha & Hn & Hs & Ht).
    cbn [obind]. eexists r, _, es, s'. split_and!; try done. intros _ _. apply Hn. later. }
  rewrite (proj2 (Z.ltb_lt _ _)) by (destruct (mContactList contacts); [done|simpl; lia]).
  destruct (new_response_ok s m hs SIP_TEMPORARY_MOVE_CODE SIP_TEMPORARY_MOVE_TEXT Hq) as (r & es & s' & -> & Ha & Hn & Hs & Ht).
  cbn [obind]. assert (values_of SIP_CONTACT_FIELD es = []) as Hnone by (apply Hn; later).
  assert (exists r1 es1, contacts_loop fill (mContactList contacts) 0 r = Ok r1 /\ keeps [SIP_CONTACT_FIELD] r es r1 es1
    /\ (Z.of_nat (length (mContactList contacts)) <= INT_MAX -> values_of SIP_CONTACT_FIELD es1 = cstr <$> mContactList contacts))
    as (r1 & es1 & -> & K1 & Hv1).
  { destruct (decide (Z.of_nat (length (mContactList contacts)) <= INT_MAX)) as [Hmax|Hmax].
    - destruct (contacts_loop_ok (mContactList contacts) 0 r es) as (r1 & es1 & E1 & K1 & Hv1); [apply Ha|by rewrite Hnone|done|].
      exists r1, es1. rewrite Hnone in Hv1. by split_and!.
    - destruct (contacts_loop_setter (mContactList contacts) 0 r es) as (r1 & es1 & E1 & K1); [apply Ha|]. exists r1, es1. by split_and!. }
  cbn [obind]. destruct (diversion_setter contacts r1 es1) as (r2 & es2 & -> & K2); [apply K1|]. cbn [obind].
  eexists r2, _, es2, s'. split; [done|]. split; [|split; [done|]; split; [done|]].
  - eapply answers_keeps; [eapply answers_keeps; [exact Ha|]|]; (eapply keeps_more; [|eassumption]); later.
  - intros _ Hmax. destruct K2 as (_ & _ & V2). rewrite V2; [by apply Hv1|]. later.
Qed.

Lemma finish_ok s m hs willError contacts e :
  answerable m hs -> strcasecmp (getRequestMethod m) SIP_ACK_METHOD <> 0 -> (willError = true -> error_ok e) ->
  exists r frag es s', finish fill pcre_exec cfg newTag m (getRequestMethod m) willError contacts e s = Ok s'
    /\ trace s' = trace s ++ [ESend m r frag] /\ same_heap s s'
    /\ answers_with hs (fst (final_status willError contacts e)) (snd (final_status willError contacts e)) r es
    /\ (willError = false -> Z.of_nat (length (mContactList contacts)) <= INT_MAX ->
        values_of SIP_CONTACT_FIELD es = cstr <$> mContactList contacts).
Proof.
  intros Hq Hack He. unfold finish. rewrite (proj2 (Z.eqb_neq _ _) Hack).
  destruct (build_response_ok s m hs willError contacts e Hq He) as (r & frag & es & s' & -> & Ha & Hs & Ht & Hc). cbn [obind].
  destruct (user_agent_setter r es) as (r2 & es2 & -> & K2); [apply Ha|]. cbn [obind].
  eexists r2, frag, es2, _. split; [done|]. simpl. rewrite Ht. split; [done|]. split; [done|]. split.
  - eapply answers_keeps; [exact Ha|]. eapply keeps_more; [|exact K2]. later.
  - intros Hw Hmax. destruct K2 as (_ & _ & V2). rewrite V2; [by apply Hc|]. later.
Qed.

(** ** CANCEL *)

Lemma isInviteFor_ok m hs m' hs' : answerable m hs -> answerable m' hs' -> exists b, isInviteFor fill pcre_exec m m' = Ok b.
Proof.
  intros [T1 _ _ F1 _] [T2 _ _ F2 _]. unfold isInviteFor. destruct (negb _); [|by eexists]. destruct (_ =? 0); [|by eexists].
  unfold isSameTransaction, isSameSession.
  destruct (getFields m hs T1) as (_ & _ & -> & ->), (getFields m' hs' T2) as (_ & _ & -> & ->). cbn [obind].
  destruct (strcmp _ _ =? 0); [|by eexists].
  pose proof (getFieldUrl_total fill m hs SIP_TO_FIELD T1 ltac:(apply header_nul_free)) as (to1 & E1).
  pose proof (getFieldUrl_total fill m' hs' SIP_TO_FIELD T2 ltac:(apply header_nul_free)) as (to2 & E2).
  unfold getToUrl. rewrite E1, E2. rewrite (proj1 (getUrls fill (pcre_exec := pcre_exec) m hs T1)), (proj1 (getUrls fill (pcre_exec := pcre_exec) m' hs' T2)).
  destruct (Url_of_string_ready fill _ NameAddr F1) as (u1 & -> & _ & R1 & _), (Url_of_string_ready fill _ NameAddr F2) as (u2 & -> & _ & R2 & _).
  cbn [obind]. assert (exists b, isSameSession_url u1 u2 false = Ok b) as (b & ->).
  { unfold isSameSession_url. destruct (_ && _); [|by eexists].
    destruct (getUrlParameter_ready (bytes "transport") 0 u1 R1) as (v1 & u1' & -> & _). cbn [obind].
    destruct (getUrlParameter_ready (bytes "transport") 0 u2 R2) as (v2 & u2' & -> & _). cbn [obind]. by eexists. }
  cbn [obind]. destruct b; cbn [obind]; [|by eexists]. unfold isSameSession_url. cbn [obind]. destruct (_ || _); cbn [obind]; [|by eexists].
  destruct (parse_cseq (first_value SIP_CSEQ_FIELD hs)) as [[? ?] ?], (parse_cseq (first_value SIP_CSEQ_FIELD hs')) as [[? ?] ?]. by eexists.
Qed.
End Answer.
