(* ===== verification/RedirectSpec.v ===== *)
(** * The redirect server: what it promises

    Over every run of messages: each request is answered once or waits for a
    plug-in that owes a call back; what a plug-in of higher authority found is
    not changed by one of lower authority; stale call backs do nothing; a stop
    cancels everything that waits. *)
From Stdlib Require Import ZArith Lia Ascii String.
From stdpp Require Import base list strings gmap sets.
From S2P Require Import Prelude UtlString UtlStringRefine Containable UtlHashMap UtlHashMapSpec UtlHashMapIterSpec UtlHashMapWalk.
From S2P Require Import NameValuePair NameValueTokenizer HttpMessage HttpMessageSpec.
From S2P Require Import Format Pcre PcreSpec UrlCodec Url UrlSyntax UrlTotal RouteState RouteStateMsg RouteStateMsgSpec ProxyRoutes.
From S2P Require Import SipMatch SipMatchSpec SipTarget Redirect RedirectHeap RedirectDue RedirectPass RedirectRun RedirectAnswer.
Local Open Scope Z_scope.

Section Spec.
Context {P : Type} `{RedirectPlugin P} `{Storage}.
Context (fill : nat -> ascii) `{Pcre pcre_exec} (cfg : Config) (newTag : nat -> list ascii).
Abbreviation server := (Server P).
Abbreviation anything := (fun _ : SipMessage => True).
Implicit Types (s : server) (m r : SipMessage) (l : list (Z * nat)).

(** Some plug-in can answer with a warning that does not fit into the buffer
    of setWarningField (see [warning_fits]). *)
Definition overlong_warning : Prop :=
  exists (p : P) m uri url method contacts k i st e ans p',
    lookUp p m uri url method contacts k i st e = (inr ans, p') /\ ~ Forall (modest cfg) (a_errorOps ans).

(** ** The two instances of the interface to messages *)

(** Any request: what is built when nothing fails. *)
Ltac excused :=
  repeat (eapply safe_seq; [by apply safe_excused|];
          let x := fresh "x" in intros x _; repeat match goal with |- safe _ (match ?y with (_, _) => _ end) _ => destruct y end).

Lemma any_response m code text s : safe True (new_response fill newTag s m code text) (responds_in s).
Proof. unfold new_response. eapply safe_seq; [by apply safe_excused|]. by intros r _. Qed.

Lemma any_build m we contacts e s : safe True (build_response fill cfg newTag m we contacts e s) (fun res => same_heap s (snd res) /\ trace (snd res) = trace s).
Proof.
  unfold build_response. destruct we.
  - unfold buildResponseFromRequestAndErrorDescriptor. eapply safe_seq; [apply any_response|]. intros [r s'] Hr.
    excused. exact Hr.
  - destruct (0 <? _).
    + eapply safe_seq; [apply any_response|]. intros [r s'] Hr. excused. exact Hr.
    + eapply safe_seq; [apply any_response|]. intros [r s'] Hr. exact Hr.
Qed.

Lemma any_work : MessageWork fill pcre_exec cfg newTag True anything (fun _ => True).
Proof.
  split; try done.
  - intros m _. by apply safe_excused.
  - intros m code text s _. apply any_response.
  - intros m we contacts e s _ _. unfold finish. destruct (_ =? 0).
    + destruct we, (mContactList contacts) as [|c [|]]; try (split; [done|]; by eexists).
      eapply safe_seq with (P := fun ev => answer_of ev = Some m); [|intros ev Hev; split; [done|by exists ev]].
      unfold forward_ack. excused. done.
    + eapply safe_seq; [apply any_build|]. intros [[r frag] s'] [Hs Ht]. simpl in Hs, Ht. eapply safe_seq; [by apply safe_excused|].
      intros r' _. simpl. rewrite Ht. split; [done|]. by eexists.
  - intros m m' _ _. by apply safe_excused.
Qed.

(** Requests that can be answered: only such a warning makes a failure. *)
Lemma good_work : (forall n, nul_free (newTag n)) ->
  MessageWork fill pcre_exec cfg newTag overlong_warning good_request (fun e => error_ok cfg e \/ overlong_warning).
Proof.
  intros Htags. split.
  - intros m [(hs & Hq) _]. apply safe_of_Ok. destruct (Url_of_string_ready fill (getRequestUri m) AddrSpec (q_uri _ _ Hq)) as (u & E & _). by exists u.
  - intros m code text s [(hs & Hq) _]. apply safe_of_Ok.
    destruct (new_response_ok fill newTag Htags s m hs code text Hq) as (r & es & s' & E & _ & _ & Hs & Ht). by exists (r, s').
  - intros m we contacts e s [(hs & Hq) Hack] [He|Hlong].
    + apply safe_of_Ok. destruct (finish_ok fill (pcre_exec := pcre_exec) cfg newTag Htags s m hs we contacts e Hq Hack (fun _ => He))
        as (r & frag & es & s' & E & Ht & Hs & _).
      exists s'. split; [done|]. split; [done|]. by eexists.
    + eapply safe_weaken; [exact (fun _ => Hlong)|]. pose proof any_work as [_ _ Hsent _ _ _]. by apply Hsent.
  - intros m m' [(hs & Hq) _] [(hs' & Hq') _]. apply safe_of_Ok. destruct (isInviteFor_ok fill m hs m' hs' Hq Hq') as (b & E). by exists b.
  - left. split; [simpl; unfold SIP_FORBIDDEN_CODE; lia|]. by left.
  - intros p m uri url method contacts k i st e ans p' El [He|He]; [|by right].
    destruct (decide (Forall (modest cfg) (a_errorOps ans))) as [Hm|Hm]; [left; by apply error_ops_ok|right].
    by exists p, m, uri, url, method, contacts, k, i, st, e, ans, p'.
Qed.

(** ** The theorems *)

Hypothesis count_small : Z.of_nat (mRedirectorCount cfg) <= INT_MAX.

Lemma new_steady (G : SipMessage -> Prop) (ps : list P) : length ps = mRedirectorCount cfg -> steady cfg G 0 [] (Server_new ps).
Proof.
  intros Hps. pose proof (default_abstracts (K := UtlInt) (V := nat) (valid := fun _ => True)) as (Hi & Hit & Hp). exists []. split_and!; try done.
  - split; [exact Hi|exact Hp|constructor| | |constructor|done| |done].
    + intros a. simpl. rewrite lookup_empty. split; [by intros [? ?]|by intros ?%elem_of_nil].
    + intros a Ha. by apply elem_of_nil in Ha.
    + intros a o Ha. simpl in Ha. by rewrite lookup_empty in Ha.
  - split; [done|by intros k i ?%elem_of_nil|]. intros pre k i post E. by destruct pre.
Qed.

(** C6: A run of messages, none of which is an ACK or malformed ([good_request]:
    the headers can be read, the CSeq has a number, the From header and the
    request URI are no longer than the Url parser can take), does not fail
    unless some plug-in can answer with a warning that overflows the buffer
    of setWarningField ([overlong_warning]).  As long as no plug-in has raised
    an exception, every request (other than a CANCEL) has been answered
    exactly once or is waiting, and one that waits is owed the call back of a
    plug-in.  There are fewer than 3 * 2^30 messages, after which the sequence
    numbers would repeat, and the To tags that are made up hold no NUL. *)
Theorem redirect_answers_every_request (ps : list P) msgs :
  (forall n, nul_free (newTag n)) -> length ps = mRedirectorCount cfg ->
  Forall (message_ok good_request) msgs -> Z.of_nat (length msgs) < 3 * 2 ^ 30 ->
  match run fill pcre_exec cfg newTag msgs (Server_new ps) with
  | Ok s => exists l, tidy cfg good_request s l
      /\ (no_exception (trace s) ->
          msgs ≫= requests_of ≡ₚ answered (trace s) ++ waiting s l /\ owed (fun _ => True) s l)
  | _ => overlong_warning
  end.
Proof.
  intros Htags Hps Hmsgs Hlen. pose proof (good_work Htags) as Hwork.
  pose proof (run_ok fill pcre_exec cfg newTag _ good_request _ count_small msgs 0 [] (Server_new ps) Hmsgs
    ltac:(lia) (new_steady good_request ps Hps)) as Hrun.
  destruct (run fill pcre_exec cfg newTag msgs (Server_new ps)) as [s| | |]; try exact Hrun.
  destruct Hrun as (l & Ht & _ & _ & _ & Hacc).
  exists l. split; [done|]. intros Hne. destruct (Hacc Hne) as [Hr Ho]. split; [|done].
  rewrite app_nil_r in Hr. by rewrite <- Hr, reverse_Permutation.
Qed.

(** C7: The same accounting for any requests, ACKs included, as far as the run is
    defined: the list of suspended requests and their objects stay in step. *)
Theorem redirect_state_invariant (ps : list P) msgs s :
  length ps = mRedirectorCount cfg -> Forall (message_ok anything) msgs -> Z.of_nat (length msgs) < 3 * 2 ^ 30 ->
  run fill pcre_exec cfg newTag msgs (Server_new ps) = Ok s ->
  exists l, tidy cfg anything s l
    /\ (no_exception (trace s) -> msgs ≫= requests_of ≡ₚ answered (trace s) ++ waiting s l /\ owed (fun _ => True) s l).
Proof.
  intros Hps Hmsgs Hlen E. pose proof any_work as Hwork.
  pose proof (run_ok fill pcre_exec cfg newTag True anything (fun _ => True) count_small msgs 0 [] (Server_new ps) Hmsgs
    ltac:(lia) (new_steady anything ps Hps)) as Hrun. rewrite E in Hrun. destruct Hrun as (l & Ht & _ & _ & _ & Hacc). exists l.
  split_and!; try done. intros Hne. destruct (Hacc Hne) as [Hr Ho]. split; [|done].
  rewrite app_nil_r in Hr. by rewrite <- Hr, reverse_Permutation.
Qed.

(** ** Authority *)

(** The authority of the contact list after these calls: that of the last
    plug-in whose lookUp has returned SUCCESS with a changed list. *)
Fixpoint list_authority (level : Z) (evs : list event) : Z :=
  match evs with
  | [] => level
  | ELookUp _ i (Some SUCCESS) true :: evs' =>
      list_authority (match mpConfiguredRedirectors cfg !! i with Some d => authorityLevel d | None => level end) evs'
  | _ :: evs' => list_authority level evs'
  end.

(** What a call of a plug-in says about its authority *)
Definition entitled (level : Z) (e : event) : Prop :=
  match e with
  | ELookUp _ j _ _ => exists d, mpConfiguredRedirectors cfg !! j = Some d /\ bActive d = true /\ level <= authorityLevel d
  | EObserve _ j => exists d, mpConfiguredRedirectors cfg !! j = Some d /\ bActive d = true /\ authorityLevel d < level
  | _ => True
  end.

Lemma pass_events_entitled pre : forall level e post,
  pass_events cfg level (pre ++ e :: post) -> entitled (list_authority level pre) e.
Proof.
  induction pre as [|e0 pre IH]; intros level e post Hev.
  - destruct e; simpl in Hev |- *; try done; destruct Hev as (d & Hd & Ha & Hle & _); by exists d.
  - destruct e0 as [k i st ch| | | | | | |]; simpl in Hev; try done; destruct Hev as (d & Hd & _ & _ & Hev); apply IH in Hev; [|done].
    simpl. destruct st as [[]|], ch; try done. by rewrite Hd.
Qed.

Lemma pass_entitled (evs tail pre : list event) e post :
  pass_events cfg LOWEST_AUTHORITY_LEVEL evs -> Forall (fun e => silent e \/ is_Some (answer_of e)) tail ->
  evs ++ tail = pre ++ e :: post -> entitled (list_authority LOWEST_AUTHORITY_LEVEL pre) e.
Proof.
  intros Hev Htail E. destruct (decide (length pre < length evs)%nat) as [Hl|Hl].
  - apply (pass_events_entitled pre _ e (drop (S (length pre)) evs)). replace (pre ++ _) with evs; [done|].
    rewrite <- (take_drop (S (length pre)) evs) at 1. rewrite cons_middle, app_assoc. f_equal.
    transitivity (take (S (length pre)) (evs ++ tail)); [rewrite take_app_le by lia; done|].
    rewrite E, cons_middle, app_assoc, take_app_length' by (rewrite length_app; simpl; lia). done.
  - assert (e ∈ tail) as Hin.
    { apply (list_elem_of_lookup_2 _ (length pre - length evs)). rewrite <- lookup_app_r by lia. rewrite E. by apply list_lookup_middle. }
    rewrite Forall_forall in Htail. destruct (Htail e Hin) as [Hs|[m Hm]]; by destruct e.
Qed.

(** C14: While one message is handled, lookUp is called for a plug-in, and
    observe for another, as their authority demands: let the level be the
    authority of the last plug-in whose lookUp has returned SUCCESS with a
    changed contact list, LOWEST_AUTHORITY_LEVEL before any has.  A plug-in
    whose lookUp is called is active and has at least that authority; one
    that may only observe is active and has less.  A plug-in that changes the
    contacts and returns SEARCH_PENDING does not raise the level, whatever
    SipRedirectServer.h says ([pending_change_unprotected]). *)
Theorem contacts_keep_authority (ps : list P) msgs msg s handled s' pre e post :
  length ps = mRedirectorCount cfg -> Forall (message_ok anything) (msgs ++ [msg]) -> Z.of_nat (length msgs) + 1 < 3 * 2 ^ 30 ->
  run fill pcre_exec cfg newTag msgs (Server_new ps) = Ok s -> handleMessage fill pcre_exec cfg newTag msg s = Ok (handled, s') ->
  trace s' = trace s ++ pre ++ e :: post -> entitled (list_authority LOWEST_AUTHORITY_LEVEL pre) e.
Proof.
  intros Hps Hmsgs Hlen E Eh Htr. pose proof any_work as Hwork. apply Forall_app in Hmsgs as [Hmsgs Hmsg]. apply Forall_cons in Hmsg as [Hmsg _].
  pose proof (run_ok fill pcre_exec cfg newTag True anything (fun _ => True) count_small msgs 0 [] (Server_new ps) Hmsgs
    ltac:(lia) (new_steady anything ps Hps)) as Hst. rewrite E in Hst. simpl in Hst.
  pose proof (handleMessage_ok fill pcre_exec cfg newTag True anything (fun _ => True) count_small _ _ msg s Hmsg Hlen Hst) as Hh.
  rewrite Eh in Hh. destruct Hh as [_ (evs & tail & Ht & Hev & Htail)]. simpl in Ht. rewrite Ht in Htr. apply app_inv_head in Htr.
  by eapply pass_entitled.
Qed.

(** ** Answers, call backs and the end *)

(** C15: The answer to an answerable request that is no ACK is one response: the
    error of the plug-in, 404 without contacts, or 302 with exactly the
    contacts that were collected, in order; it has the From header and the
    Call-Id of the request, and the number and the method of its CSeq.  An
    error has a status from 400 to 699 and a warning that fits into the buffer
    ([error_ok]), the tags that are made up hold no NUL, and there are at most
    INT_MAX contacts. *)
Theorem final_response_content s m hs willError contacts e :
  (forall n, nul_free (newTag n)) -> answerable m hs -> strcasecmp (getRequestMethod m) SIP_ACK_METHOD <> 0 ->
  (willError = true -> error_ok cfg e) -> Z.of_nat (length (mContactList contacts)) <= INT_MAX ->
  exists r frag es s', finish fill pcre_exec cfg newTag m (getRequestMethod m) willError contacts e s = Ok s'
    /\ trace s' = trace s ++ [ESend m r frag] /\ table (mNameValues r) es
    /\ mFirstHeaderLine r = SIP_PROTOCOL_VERSION ++ " "%char :: fmt_d (fst (final_status willError contacts e)) ++ " "%char
                              :: snd (final_status willError contacts e)
    /\ first_value SIP_FROM_FIELD es = first_value SIP_FROM_FIELD hs
    /\ first_value SIP_CALLID_FIELD es = first_value SIP_CALLID_FIELD hs
    /\ snd (fst (parse_cseq (first_value SIP_CSEQ_FIELD es))) = snd (fst (parse_cseq (first_value SIP_CSEQ_FIELD hs)))
    /\ snd (parse_cseq (first_value SIP_CSEQ_FIELD es)) = snd (parse_cseq (first_value SIP_CSEQ_FIELD hs))
    /\ (willError = false -> values_of SIP_CONTACT_FIELD es = cstr <$> mContactList contacts).
Proof.
  intros Htags Hq Hack He Hmax.
  destruct (finish_ok fill (pcre_exec := pcre_exec) cfg newTag Htags s m hs willError contacts e Hq Hack He)
    as (r & frag & es & s' & E & Ht & _ & (F & T & V1 & V2 & V3 & V4) & Hc).
  exists r, frag, es, s'. split_and!; try done. by intros Hw; apply Hc.
Qed.

Lemma run_steady (ps : list P) msgs s :
  length ps = mRedirectorCount cfg -> Forall (message_ok anything) msgs -> Z.of_nat (length msgs) < 3 * 2 ^ 30 ->
  run fill pcre_exec cfg newTag msgs (Server_new ps) = Ok s ->
  exists l, tidy cfg anything s l /\ mIteratorList (mSuspendList s) = [] /\ mNextSeqNo s < 3 * 2 ^ 30 /\ due cfg (trace s) s l.
Proof.
  intros Hps Hmsgs Hlen E. pose proof any_work as Hwork.
  pose proof (run_ok fill pcre_exec cfg newTag True anything (fun _ => True) count_small msgs 0 [] (Server_new ps) Hmsgs
    ltac:(lia) (new_steady anything ps Hps)) as Hst. rewrite E in Hst. destruct Hst as (l & Ht & Hi & Hn & Hd & _). exists l.
  split_and!; try done. lia.
Qed.

Lemma held_or_cancelled k i post : ECancel k i ∈ post \/ foldl (hold k i) true post = true.
Proof.
  induction post as [|e post IH]; [by right|]. destruct e as [k' i' [[| | |]|] ch'| |k' i'| | | | |]; simpl;
    try case_bool_decide as Ek; try (destruct IH; [left; set_solver|by right]). destruct Ek as [-> ->]. left. set_solver.
Qed.

(** C16: What RedirectPlugin.h promises the plug-ins: whenever lookUp has returned
    SEARCH_PENDING for a request, cancel is called for it later unless the
    request still waits; and after cancel there is neither another call of
    lookUp or observe for the request, by any plug-in, nor a second cancel. *)
Theorem cancel_as_promised (ps : list P) msgs s :
  length ps = mRedirectorCount cfg -> Forall (message_ok anything) msgs -> Z.of_nat (length msgs) < 3 * 2 ^ 30 ->
  run fill pcre_exec cfg newTag msgs (Server_new ps) = Ok s ->
  (exists l, tidy cfg anything s l
     /\ forall pre k i ch post, trace s = pre ++ ELookUp k i (Some SEARCH_PENDING) ch :: post -> ECancel k i ∈ post \/ k ∈ fst <$> l)
  /\ forall pre k i post, trace s = pre ++ ECancel k i :: post -> Forall (fun e => ~ calls k e) post /\ ECancel k i ∉ post.
Proof.
  intros Hps Hmsgs Hlen E. destruct (run_steady ps msgs s Hps Hmsgs Hlen E) as (l & Ht & _ & _ & Hd). split; [|exact (d_quiet _ _ _ _ Hd)].
  exists l. split; [done|]. intros pre k i ch post Htr.
  assert (ECancel k i ∈ post \/ held k i (trace s) = true) as [Hin|Hh]; [|by left|right].
  { rewrite Htr. unfold held. rewrite foldl_app. simpl. rewrite bool_decide_true by done. apply held_or_cancelled. }
  destruct (d_held _ _ _ _ Hd k i Hh) as (a & o & r & d & Hin & _). apply list_elem_of_fmap. by exists (k, a).
Qed.

(** C18: A call back for a request that does not wait, from a plug-in that does not
    exist or has not asked for time, changes nothing and is not handled. *)
Theorem stale_callback_ignored (ps : list P) msgs s seqNo redirectorNo :
  length ps = mRedirectorCount cfg -> Forall (message_ok anything) msgs -> Z.of_nat (length msgs) < 3 * 2 ^ 30 ->
  run fill pcre_exec cfg newTag msgs (Server_new ps) = Ok s -> 0 <= seqNo < 2 ^ 32 ->
  exists l, tidy cfg anything s l
    /\ (~ resumes cfg s l seqNo redirectorNo ->
        handleMessage fill pcre_exec cfg newTag (REDIRECT_RESTART seqNo redirectorNo) s = Ok (false, s)).
Proof.
  intros Hps Hmsgs Hlen E Hk. destruct (run_steady ps msgs s Hps Hmsgs Hlen E) as (l & Ht & Hi & Hn & _). exists l. split; [done|].
  intros Hno. cbn [handleMessage]. unfold handle_restart.
  destruct (findValue_entry cfg anything s l seqNo Ht Hi ltac:(lia) Hk) as [(a & -> & Hin)|[-> _]]; cbn [obind]; [|done].
  destruct (Z.ltb_spec redirectorNo 0); [done|]. destruct (Z.leb_spec (Z.of_nat (mRedirectorCount cfg)) redirectorNo); [done|]. cbn [orb].
  destruct (live cfg anything s l seqNo a Ht Hin) as (o & Ho & ->). cbn [obind]. pose proof (t_objects _ _ _ _ Ht _ _ Ho) as [Hs _].
  destruct (slot_ok cfg o (Z.to_nat redirectorNo) Hs) as (r & Hr & ->); [lia|]. cbn [obind].
  destruct (suspended r) eqn:Hsusp; [|done]. destruct Hno. by exists a, o, r.
Qed.

(** C17: OS_SHUTDOWN in any state that is reached: every request that waits is
    cancelled at the plug-ins that hold it, all private storage is deleted, no
    object and no entry is left, and the plug-ins are finalized. *)
Theorem shutdown_cancels_everything (ps : list P) msgs s :
  length ps = mRedirectorCount cfg -> Forall (message_ok anything) msgs -> Z.of_nat (length msgs) < 3 * 2 ^ 30 ->
  run fill pcre_exec cfg newTag msgs (Server_new ps) = Ok s ->
  exists l evs s', tidy cfg anything s l /\ handleMessage fill pcre_exec cfg newTag OS_SHUTDOWN s = Ok (true, s')
    /\ trace s' = trace s ++ evs ++ (EFinalize <$> seq 0 (length ps)) /\ evs ≡ₚ l ≫= farewell cfg s
    /\ objects s' = ∅ /\ entries (mSuspendList s') = 0.
Proof.
  intros Hps Hmsgs Hlen E. destruct (run_steady ps msgs s Hps Hmsgs Hlen E) as (l & Ht & Hi & Hn & _).
  pose proof (with_iterator_ok cfg False anything (cancel_all_loop cfg) s l (fun s' l' => l' = [] /\ exists evs, trace s' = trace s ++ evs
    /\ evs ≡ₚ l ≫= farewell cfg s) Ht Hi Hn) as Hw.
  assert (safe False (with_iterator (cancel_all_loop cfg) s) (fun s' => exists l', tidy cfg anything s' l' /\ mIteratorList (mSuspendList s') = []
    /\ mNextSeqNo s' = mNextSeqNo s /\ l' = [] /\ exists evs, trace s' = trace s ++ evs /\ evs ≡ₚ l ≫= farewell cfg s)) as Hsafe.
  { apply Hw. intros s1 Ht1 Hw1 Hob1 Hn1 Htr1. apply safe_Ok.
    destruct (cancel_all_loop_ok cfg anything (S (length l)) s1 l _ Ht1 Hw1) as (s2 & evs & E2 & Ht2 & Hw2 & Hn2 & Htr2 & Hevs).
    - exact (t_list _ _ _ _ Ht).
    - destruct (list_size cfg anything s l Ht). lia.
    - lia.
    - exists s2. split; [done|]. exists []. split_and!; try done; [congruence|]. intros h. split; [done|]. exists evs. simpl.
      rewrite Htr2, Htr1. split; [done|]. rewrite Hevs. unfold farewell. by rewrite Hob1. }
  apply safe_Ok in Hsafe as (s' & E' & l' & Ht' & Hi' & Hn' & -> & evs & Htr' & Hevs).
  exists l, evs. eexists. split; [done|]. cbn [handleMessage]. unfold handle_shutdown. rewrite E'. cbn [obind]. split; [done|]. simpl.
  rewrite Htr', <- app_assoc, (t_plugins _ _ _ _ Ht'), <- Hps. split_and!; try done.
  - apply map_empty. intros a. pose proof (t_dom _ _ _ _ Ht' a) as Hd. destruct (objects s' !! a) as [o|]; [|done].
    exfalso. apply (not_elem_of_nil a). apply Hd. by exists o.
  - by destruct (list_size cfg anything s' [] Ht') as [_ ->].
Qed.
End Spec.

(** ** Concrete runs *)

Module RedirectExamples.
(** A plug-in that answers as it was told *)
Inductive told := Raise (e : Exn) | Tell (status : LookUpStatus) (contacts : list ContactOp) (storage : option nat).
#[global] Instance told_plugin : RedirectPlugin (list told) := {
  lookUp := fun p m uri url method contacts k i st e =>
    match p with
    | [] => (inr (mkAnswer SUCCESS uri url [] st []), [])
    | Raise x :: p' => (inl x, p')
    | Tell status cs st' :: p' => (inr (mkAnswer status uri url cs st' []), p')
    end;
  observe := fun p m uri url method contacts k i => p;
  plugin_cancel := fun p k => p
}.

Definition storage : Storage := fun _ => "?"%char.
Definition cfg2 : Config :=
  initialize (bytes "example.com") PORT_DEFAULT [(true, Some 10); (true, None)] (bytes "sipXregistry").
Definition tag_of_number (n : nat) : list ascii := bytes "t" ++ fmt_d (Z.of_nat n).
Definition go (ps : list (list told)) (msgs : list OsMsg) : outcome (Server (list told)) :=
  run (H0 := storage) (fun _ => "?"%char) search cfg2 tag_of_number msgs (Server_new ps).

(** What is seen from the outside, without the messages *)
Inductive seen := Lookup (i : nat) | Observe (i : nat) | Cancel (i : nat) | Status (line : list ascii) | Forward | Dropped | Freed | Final (i : nat).
Definition see (e : event) : seen :=
  match e with
  | ELookUp _ i _ _ => Lookup i | EObserve _ i => Observe i | ECancel _ i => Cancel i
  | ESend _ r _ => Status (mFirstHeaderLine r) | EForwardAck _ _ _ _ _ => Forward | EDropAck _ => Dropped
  | EDelete _ => Freed | EFinalize i => Final i
  end.
Definition view (o : outcome (Server (list told))) : outcome (list seen * Z) :=
  let! s := o in Ok (see <$> trace s, entries (mSuspendList s)).

Definition found : list ContactOp := [CAdd (bytes "<sip:bob@10.0.0.1>")].

(** The first plug-in finds a contact, the second may only observe. *)
Example observed :
  view (go [[Tell SUCCESS found None]; [Tell SUCCESS [CRemoveAll] None]] [PHONE_APP invite])
  = Ok ([Lookup 0; Observe 1; Status (bytes "SIP/2.0 302 Moved Temporarily")], 0).
Proof. vm_compute. reflexivity. Qed.

(** It finds a contact and asks for time: the second, of less authority, is
    asked too, and may remove what the first has found. *)
Example pending_change_unprotected :
  view (go [[Tell SEARCH_PENDING found None]; [Tell SUCCESS [CRemoveAll] None]] [PHONE_APP invite])
  = Ok ([Lookup 0; Lookup 1], 1).
Proof. vm_compute. reflexivity. Qed.

Definition cancel_headers : list header :=
  [(SIP_VIA_FIELD, bytes "SIP/2.0/UDP a.example.com;branch=z9hG4bK-1"); (SIP_FROM_FIELD, bytes "Ann <sip:ann@example.com>;tag=f1");
   (SIP_TO_FIELD, bytes "<sip:bob@example.com>"); (SIP_CALLID_FIELD, bytes "call-1"); (SIP_CSEQ_FIELD, bytes "7 CANCEL")].
Definition cancel : SipMessage := mkMsg (bytes "CANCEL sip:bob@example.com SIP/2.0") (pair_of <$> cancel_headers).

(** A request waits, is resumed and answered; another is cancelled. *)
Definition waiting_plugins : list (list told) :=
  [[Tell SEARCH_PENDING [] (Some 5%nat); Tell SUCCESS found (Some 5%nat); Tell SEARCH_PENDING [] (Some 6%nat)]; []].
Definition waiting_run : list OsMsg :=
  [PHONE_APP invite; REDIRECT_RESTART 0 1; REDIRECT_RESTART 0 0; PHONE_APP invite; PHONE_APP cancel; REDIRECT_RESTART 1 0].
Example resumed_and_cancelled :
  view (go waiting_plugins waiting_run)
  = Ok ([Lookup 0; Lookup 1; Lookup 0; Observe 1; Status (bytes "SIP/2.0 302 Moved Temporarily"); Cancel 0; Freed;
         Lookup 0; Lookup 1; Status (bytes "SIP/2.0 487 Request Terminated"); Cancel 0; Freed], 0).
Proof. vm_compute. reflexivity. Qed.

(** A plug-in that raises an exception after another has asked for time: the
    request is answered with 503 but still waits, and the call back makes a
    second final response.  When the exception comes after the call back, the
    request is never answered: it stays in the list, and no later call back
    for it is handled. *)
Theorem exception_breaks_accounting :
  view (go [[Tell SEARCH_PENDING [] None; Tell SUCCESS found None]; [Raise StdException]] [PHONE_APP invite; REDIRECT_RESTART 0 0])
  = Ok ([Lookup 0; Lookup 1; Status (bytes "SIP/2.0 503 Registry - Standard Library Exception");
         Lookup 0; Observe 1; Status (bytes "SIP/2.0 302 Moved Temporarily"); Cancel 0], 0)
  /\ view (go [[Tell SEARCH_PENDING [] None; Raise StdException]; []] [PHONE_APP invite; REDIRECT_RESTART 0 0; REDIRECT_RESTART 0 0])
  = Ok ([Lookup 0; Lookup 1; Lookup 0], 1).
Proof. vm_compute. split; reflexivity. Qed.

(** ** Witnesses *)

Lemma invite_answerable : answerable invite invite_headers.
Proof.
  split.
  - apply invite_table.
  - split; [|vm_compute; reflexivity].
    repeat (apply Forall_cons_2; [split; [vm_compute; discriminate|apply (bool_decide_unpack _); vm_compute; exact I]|]); apply Forall_nil_2.
  - vm_compute. discriminate.
  - vm_compute. discriminate.
  - vm_compute. discriminate.
Qed.
Lemma cancel_answerable : answerable cancel cancel_headers.
Proof.
  split.
  - split; [apply pairs_of|]; repeat (apply Forall_cons_2; [apply (bool_decide_unpack _); vm_compute; exact I|]); apply Forall_nil_2.
  - split; [|vm_compute; reflexivity].
    repeat (apply Forall_cons_2; [split; [vm_compute; discriminate|apply (bool_decide_unpack _); vm_compute; exact I]|]); apply Forall_nil_2.
  - vm_compute. discriminate.
  - vm_compute. discriminate.
  - vm_compute. discriminate.
Qed.
Lemma invite_good : good_request invite.
Proof. split; [exists invite_headers; apply invite_answerable|vm_compute; discriminate]. Qed.
Lemma cancel_good : good_request cancel.
Proof. split; [exists cancel_headers; apply cancel_answerable|vm_compute; discriminate]. Qed.

Lemma tag_nul_free n : nul_free (tag_of_number n).
Proof. unfold tag_of_number. apply Forall_app. split; [apply (bool_decide_unpack _); vm_compute; exact I|apply fmt_d_nul_free]. Qed.

Lemma waiting_run_good : Forall (message_ok good_request) waiting_run.
Proof. repeat apply Forall_cons_2; try apply Forall_nil_2; simpl; (apply invite_good || apply cancel_good || lia). Qed.
Lemma waiting_run_any : Forall (message_ok (fun _ => True)) waiting_run.
Proof. repeat apply Forall_cons_2; try apply Forall_nil_2; simpl; (done || lia). Qed.

Lemma redirect_answers_every_request_witness :
  match go waiting_plugins waiting_run with
  | Ok s => exists l, tidy cfg2 good_request s l
      /\ (no_exception (trace s) -> waiting_run ≫= requests_of ≡ₚ answered (trace s) ++ waiting s l /\ owed (fun _ => True) s l)
  | _ => overlong_warning (P := list told) cfg2
  end.
Proof.
  apply (redirect_answers_every_request (H0 := storage) (fun _ => "?"%char) (H1 := search_Pcre 65536) cfg2 tag_of_number).
  - vm_compute. discriminate.
  - exact tag_nul_free.
  - reflexivity.
  - exact waiting_run_good.
  - vm_compute. reflexivity.
Defined.

(** Messages up to a point where a request waits *)
Definition pending_server : Server (list told) := match go waiting_plugins [PHONE_APP invite] with Ok s => s | _ => Server_new [] end.
Lemma pending_any : Forall (message_ok (fun _ => True)) [PHONE_APP invite].
Proof. by repeat constructor. Qed.

Lemma redirect_state_invariant_witness :
  exists l, tidy cfg2 (fun _ => True) pending_server l
    /\ (no_exception (trace pending_server) ->
        [PHONE_APP invite] ≫= requests_of ≡ₚ answered (trace pending_server) ++ waiting pending_server l /\ owed (fun _ => True) pending_server l).
Proof.
  apply (redirect_state_invariant (H0 := storage) (fun _ => "?"%char) (pcre_exec := search) cfg2 tag_of_number ltac:(vm_compute; discriminate)
    waiting_plugins [PHONE_APP invite] pending_server).
  - reflexivity.
  - exact pending_any.
  - vm_compute. reflexivity.
  - vm_compute. reflexivity.
Defined.

Definition finished_server : Server (list told) := match go waiting_plugins waiting_run with Ok s => s | _ => Server_new [] end.
Lemma cancel_as_promised_witness :
  (exists l, tidy cfg2 (fun _ => True) finished_server l
     /\ forall pre k i ch post, trace finished_server = pre ++ ELookUp k i (Some SEARCH_PENDING) ch :: post -> ECancel k i ∈ post \/ k ∈ fst <$> l)
  /\ forall pre k i post, trace finished_server = pre ++ ECancel k i :: post -> Forall (fun e => ~ calls k e) post /\ ECancel k i ∉ post.
Proof.
  apply (cancel_as_promised (H0 := storage) (fun _ => "?"%char) (pcre_exec := search) cfg2 tag_of_number ltac:(vm_compute; discriminate)
    waiting_plugins waiting_run finished_server).
  - reflexivity.
  - exact waiting_run_any.
  - vm_compute. reflexivity.
  - vm_compute. reflexivity.
Defined.

Lemma stale_callback_ignored_witness :
  exists l, tidy cfg2 (fun _ => True) pending_server l
    /\ (~ resumes cfg2 pending_server l 0 1 ->
        handleMessage (H0 := storage) (fun _ => "?"%char) search cfg2 tag_of_number (REDIRECT_RESTART 0 1) pending_server = Ok (false, pending_server)).
Proof.
  apply (stale_callback_ignored (H0 := storage) (fun _ => "?"%char) (pcre_exec := search) cfg2 tag_of_number ltac:(vm_compute; discriminate)
    waiting_plugins [PHONE_APP invite] pending_server 0 1).
  - reflexivity.
  - exact pending_any.
  - vm_compute. reflexivity.
  - vm_compute. reflexivity.
  - lia.
Defined.

Lemma shutdown_cancels_everything_witness :
  exists l evs s', tidy cfg2 (fun _ => True) pending_server l
    /\ handleMessage (H0 := storage) (fun _ => "?"%char) search cfg2 tag_of_number OS_SHUTDOWN pending_server = Ok (true, s')
    /\ trace s' = trace pending_server ++ evs ++ (EFinalize <$> seq 0 (length waiting_plugins)) /\ evs ≡ₚ l ≫= farewell cfg2 pending_server
    /\ objects s' = ∅ /\ entries (mSuspendList s') = 0.
Proof.
  apply (shutdown_cancels_everything (H0 := storage) (fun _ => "?"%char) (pcre_exec := search) cfg2 tag_of_number ltac:(vm_compute; discriminate)
    waiting_plugins [PHONE_APP invite] pending_server).
  - reflexivity.
  - exact pending_any.
  - vm_compute. reflexivity.
  - vm_compute. reflexivity.
Defined.

Definition cfg3 : Config := initialize (bytes "example.com") PORT_DEFAULT [(true, Some 10); (true, Some 10)] (bytes "sipXregistry").
Definition asked_server : Server (list told) :=
  match handleMessage (H0 := storage) (fun _ => "?"%char) search cfg3 tag_of_number (PHONE_APP invite) (Server_new [[Tell SUCCESS found None]; []]) with
  | Ok (_, s) => s | _ => Server_new [] end.

Lemma contacts_keep_authority_witness :
  entitled cfg3 (list_authority cfg3 LOWEST_AUTHORITY_LEVEL [ELookUp 0 0 (Some SUCCESS) true]) (ELookUp 0 1 (Some SUCCESS) false).
Proof.
  apply (contacts_keep_authority (H0 := storage) (fun _ => "?"%char) (pcre_exec := search) cfg3 tag_of_number ltac:(vm_compute; discriminate)
    [[Tell SUCCESS found None]; []] [] (PHONE_APP invite) (Server_new [[Tell SUCCESS found None]; []]) true asked_server
    [ELookUp 0 0 (Some SUCCESS) true] (ELookUp 0 1 (Some SUCCESS) false) (drop 2 (trace asked_server))).
  - reflexivity.
  - exact pending_any.
  - vm_compute. reflexivity.
  - vm_compute. reflexivity.
  - vm_compute. reflexivity.
  - vm_compute. reflexivity.
Defined.

Definition one_contact : ContactList := contact_op (ContactList_new (bytes "sip:bob@example.com")) (CAdd (bytes "<sip:bob@10.0.0.1>")).
Lemma final_response_content_witness :
  exists r frag es s',
    finish (H0 := storage) (fun _ => "?"%char) search cfg2 tag_of_number invite (getRequestMethod invite) false one_contact ErrorDescriptor_new
      (Server_new waiting_plugins) = Ok s'
    /\ trace s' = [] ++ [ESend invite r frag] /\ table (mNameValues r) es
    /\ mFirstHeaderLine r = SIP_PROTOCOL_VERSION ++ " "%char :: fmt_d (fst (final_status false one_contact ErrorDescriptor_new)) ++ " "%char
                              :: snd (final_status false one_contact ErrorDescriptor_new)
    /\ first_value SIP_FROM_FIELD es = first_value SIP_FROM_FIELD invite_headers
    /\ first_value SIP_CALLID_FIELD es = first_value SIP_CALLID_FIELD invite_headers
    /\ snd (fst (parse_cseq (first_value SIP_CSEQ_FIELD es))) = snd (fst (parse_cseq (first_value SIP_CSEQ_FIELD invite_headers)))
    /\ snd (parse_cseq (first_value SIP_CSEQ_FIELD es)) = snd (parse_cseq (first_value SIP_CSEQ_FIELD invite_headers))
    /\ (false = false -> values_of SIP_CONTACT_FIELD es = cstr <$> mContactList one_contact).
Proof.
  apply (final_response_content (H0 := storage) (fun _ => "?"%char) (pcre_exec := search) cfg2 tag_of_number (Server_new waiting_plugins) invite
    invite_headers false one_contact ErrorDescriptor_new).
  - exact tag_nul_free.
  - exact invite_answerable.
  - vm_compute. discriminate.
  - discriminate.
  - vm_compute. discriminate.
Defined.
End RedirectExamples.
