(* ===== verification/UrlMapping.v ===== *)
(** * Dial rules

    [sipXcommserverLib/src/digitmaps/UrlMapping.cpp] with the four readers of
    rule files that are made from it: [AuthRulesUrlMapping.cpp],
    [MappingRulesUrlMapping.cpp], [FallbackRulesUrlMapping.cpp] and
    [EmergencyRulesUrlMapping.cpp].  A rule file is a document tree; a request
    URI is matched against the patterns of its rules, and the rule that matches
    gives permissions or contacts. *)
From Stdlib Require Import ZArith Lia Ascii String.
From stdpp Require Import base list strings gmap.
From S2P Require Import Prelude UtlString Format Pcre PcreSpec PcreText DigitMap Patterns TinyXml UrlCodec Url.
Local Open Scope Z_scope.

(** The values of OsStatus that occur here *)
Inductive OsStatus := OS_INVALID | OS_SUCCESS | OS_FAILED | OS_NOT_FOUND | OS_FILE_READ_FAILED.
#[global] Instance OsStatus_eq_dec : EqDecision OsStatus.
Proof. solve_decision. Defined.

(** ** Replacement tokens *)

Definition XML_SYMBOL_USER : list ascii := bytes "{user}".
Definition XML_SYMBOL_USER_ESCAPED : list ascii := bytes "{user-escaped}".
Definition XML_SYMBOL_DIGITS : list ascii := bytes "{digits}".
Definition XML_SYMBOL_DIGITS_ESCAPED : list ascii := bytes "{digits-escaped}".
Definition XML_SYMBOL_HOST : list ascii := bytes "{host}".
Definition XML_SYMBOL_HEADERPARAMS : list ascii := bytes "{headerparams}".
Definition XML_SYMBOL_URLPARAMS : list ascii := bytes "{urlparams}".
Definition XML_SYMBOL_URI : list ascii := bytes "{uri}".
Definition XML_SYMBOL_LOCALHOST : list ascii := bytes "{localhost}".
Definition XML_SYMBOL_MEDIASERVER : list ascii := bytes "{mediaserver}".
Definition XML_SYMBOL_VOICEMAIL : list ascii := bytes "{voicemail}".
Definition XML_SYMBOL_VDIGITS : list ascii := bytes "{vdigits}".
Definition XML_SYMBOL_VDIGITS_ESCAPED : list ascii := bytes "{vdigits-escaped}".

(** {(?:user(?:-escaped)?|digits(?:-escaped)?|host|(?:header|url)?params)} *)
Definition ComponentSymbols : pat :=
  PSeqs [PChr "{";
         PAlts [PSeq (PLit (bytes "user")) (POpt (PLit (bytes "-escaped")));
                PSeq (PLit (bytes "digits")) (POpt (PLit (bytes "-escaped")));
                PLit (bytes "host");
                PSeq (POpt (PAlt (PLit (bytes "header")) (PLit (bytes "url")))) (PLit (bytes "params"))];
         PChr "}"].

(** UtlString::index of a string, and UtlString::contains *)
Fixpoint begins_with (same : ascii -> ascii -> bool) (what value : list ascii) : bool :=
  match what, value with
  | [], _ => true
  | a :: what', x :: value' => same a x && begins_with same what' value'
  | _ :: _, [] => false
  end.
Fixpoint occurrence (same : ascii -> ascii -> bool) (what value : list ascii) : option nat :=
  if begins_with same what value then Some 0%nat
  else match value with [] => None | _ :: value' => S <$> occurrence same what value' end.
Definition matchCase (a x : ascii) : bool := bool_decide (x = a).
Definition ignoreCase (a x : ascii) : bool := bool_decide (tolower x = tolower a).
Definition contains (value what : list ascii) : bool :=
  match occurrence matchCase what value with Some _ => true | None => false end.

(** SymbolMap::replaceEach; the text from lastIndex on is searched *)
Fixpoint replace_loop (fuel : nat) (value replaceWhat replaceWith : list ascii) : list ascii :=
  match fuel with
  | O => value
  | S f =>
      match occurrence ignoreCase replaceWhat value with
      | Some index =>
          take index value ++ replaceWith ++ replace_loop f (drop (index + length replaceWhat) value) replaceWhat replaceWith
      | None => value
      end
  end.
Definition replaceEach (value replaceWhat replaceWith : list ascii) : list ascii :=
  replace_loop (S (length value)) value replaceWhat replaceWith.
Definition replace_if (value replaceWhat replaceWith : list ascii) : list ascii :=
  if contains value replaceWhat then replaceEach value replaceWhat replaceWith else value.

Record SymbolMap := mkSymbols {
  mReplacementMediaserver : list ascii; mReplacementVoicemail : list ascii; mReplacementLocalhost : list ascii;
  mOriginalUrl : Url;
  (** mReplacementUser, mReplacementUserEscaped and mReplacementHost, once
      mComponentsBuilt *)
  mComponents : option (list ascii * list ascii * list ascii);
  (** mReplacementUrlParams once mUrlParamsBuilt, mReplacementHeaderParams
      once mHeaderParamsBuilt *)
  mUrlParams : option (list ascii); mHeaderParams : option (list ascii) }.

Definition SymbolMap_new (original : Url) (mediaserver voicemail localhost : list ascii) : SymbolMap :=
  mkSymbols mediaserver voicemail localhost (Url_copy original) None None None.

Definition buildComponents (u : Url) : outcome (list ascii * list ascii * list ascii) :=
  let user := mUserId u in
  let! host := getHostWithPort u in
  Ok (user, escape user, host).

(** The loop over the parameters in buildUrlParams and buildHeaderParams:
    names and values with semicolons between them *)
Fixpoint param_list (first : bool) (ps : list (list ascii * list ascii)) : list ascii :=
  match ps with
  | [] => []
  | (name, value) :: ps' => (if first then [] else bytes ";") ++ name ++ bytes "=" ++ value ++ param_list false ps'
  end.
Definition buildUrlParams (u : Url) : outcome (list ascii) :=
  let! (_, iEntries, u) := getUrlParameters 0 false u in
  if 0 <? iEntries then
    let! (_, pairs, _, _) := getUrlParameters iEntries true u in Ok (param_list true pairs)
  else Ok [].
Definition buildHeaderParams (u : Url) : outcome (list ascii) :=
  let! (_, iEntries, u) := getHeaderParameters 0 false u in
  if 0 <? iEntries then
    let! (_, pairs, _, _) := getHeaderParameters iEntries true u in Ok (param_list true pairs)
  else Ok [].

Section Rules.
Context (fill : nat -> ascii) (pcre_exec : pat -> list ascii -> nat -> option Match) (compile : bool -> list ascii -> option pat).

(** SymbolMap::replace: the symbols that name parts of the request URI *)
Definition replace_components (value : list ascii) (s : SymbolMap) : outcome (list ascii * SymbolMap) :=
  match pcre_exec ComponentSymbols (cstr value) 0 with
  | None => Ok (value, s)
  | Some _ =>
      let! c := match mComponents s with Some c => Ok c | None => buildComponents (mOriginalUrl s) end in
      let '(user, userEscaped, host) := c in
      let value := replace_if value XML_SYMBOL_USER user in
      let value := replace_if value XML_SYMBOL_USER_ESCAPED userEscaped in
      let value := replace_if value XML_SYMBOL_DIGITS user in
      let value := replace_if value XML_SYMBOL_DIGITS_ESCAPED userEscaped in
      let value := replace_if value XML_SYMBOL_HOST host in
      Ok (value, mkSymbols (mReplacementMediaserver s) (mReplacementVoicemail s) (mReplacementLocalhost s) (mOriginalUrl s)
                   (Some c) (mUrlParams s) (mHeaderParams s))
  end.

Definition replace_url_params (value : list ascii) (s : SymbolMap) : outcome (list ascii * SymbolMap) :=
  if contains value XML_SYMBOL_URLPARAMS then
    let! p := match mUrlParams s with Some p => Ok p | None => buildUrlParams (mOriginalUrl s) end in
    Ok (replaceEach value XML_SYMBOL_URLPARAMS p,
        mkSymbols (mReplacementMediaserver s) (mReplacementVoicemail s) (mReplacementLocalhost s) (mOriginalUrl s)
          (mComponents s) (Some p) (mHeaderParams s))
  else Ok (value, s).

Definition replace_header_params (value : list ascii) (s : SymbolMap) : outcome (list ascii * SymbolMap) :=
  if contains value XML_SYMBOL_HEADERPARAMS then
    let! p := match mHeaderParams s with Some p => Ok p | None => buildHeaderParams (mOriginalUrl s) end in
    Ok (replaceEach value XML_SYMBOL_HEADERPARAMS p,
        mkSymbols (mReplacementMediaserver s) (mReplacementVoicemail s) (mReplacementLocalhost s) (mOriginalUrl s)
          (mComponents s) (mUrlParams s) (Some p))
  else Ok (value, s).

Definition replace (value vdigits : list ascii) (s : SymbolMap) : outcome (list ascii * SymbolMap) :=
  let value := replace_if value XML_SYMBOL_MEDIASERVER (mReplacementMediaserver s) in
  let value := replace_if value XML_SYMBOL_VOICEMAIL (mReplacementVoicemail s) in
  let value := replace_if value XML_SYMBOL_LOCALHOST (mReplacementLocalhost s) in
  let! value :=
    (if contains value XML_SYMBOL_URI then
       let! (replacementUri, _) := toString pcre_exec (mOriginalUrl s) in
       Ok (replaceEach value XML_SYMBOL_URI replacementUri)
     else Ok value) in
  let value := replace_if value XML_SYMBOL_VDIGITS vdigits in
  let value := replace_if value XML_SYMBOL_VDIGITS_ESCAPED (escape vdigits) in
  let! (value, s) := replace_components value s in
  let! (value, s) := replace_url_params value s in
  replace_header_params value s.

(** ** The object *)

Record UrlMapping := mkMapping {
  mDoc : option (list TiXmlNode); mPatterns : option Patterns;
  mVoicemail : list ascii; mLocalhost : list ascii; mMediaServer : list ascii }.

Definition UrlMapping_new : UrlMapping := mkMapping None None [] [] [].

(** TiXmlDocument::LoadFile: whether the file was read, and the tree *)
Context (LoadFile : list ascii -> bool * list TiXmlNode).

(** loadMappings; the replacement texts are appended to those there are *)
Definition loadMappings (configFileName mediaserver voicemail localhost : list ascii) (this : UrlMapping) : OsStatus * UrlMapping :=
  let '(loaded, doc) := LoadFile configFileName in
  if loaded then
    (OS_SUCCESS, mkMapping (Some doc) (Some ∅) (mVoicemail this ++ voicemail) (mLocalhost this ++ localhost) (mMediaServer this ++ mediaserver))
  else (OS_NOT_FOUND, mkMapping (Some doc) (Some ∅) (mVoicemail this) (mLocalhost this) (mMediaServer this)).

(** ** Matching *)

Definition SIP_PORT : Z := 5060.
Definition SIP_TLS_PORT : Z := 5061.

Definition match_ports (p1 p2 : Z) : bool :=
  let unset (p : Z) := (p =? 0) || (p =? PORT_NONE) in
  let standard (p : Z) := (p =? SIP_PORT) || (p =? SIP_TLS_PORT) in
  if p1 =? p2 then true
  else if unset p1 && unset p2 then true
  else if unset p1 && standard p2 then true
  else if standard p1 && unset p2 then true
  else false.

(** hostMatchFound for one hostPattern, by its format *)
Definition host_pattern (requestUri : Url) (node : TiXmlNode) (patterns : Patterns) : outcome (bool * Patterns) :=
  match first_text node with
  | None => Ok (false, patterns)
  | Some pattern =>
      let fmt := default (bytes "url") (Attribute (bytes "format") node) in
      if strcasecmp fmt (bytes "url") =? 0 then
        let! xmlUrl := Url_of_string fill pcre_exec pattern NameAddr in
        Ok ((strcasecmp (mHostAddress xmlUrl) (mHostAddress requestUri) =? 0) && match_ports (mHostPort xmlUrl) (mHostPort requestUri),
            patterns)
      else if strcasecmp fmt (bytes "IPv4subnet") =? 0 then
        let! b := IPv4subnet (mHostAddress requestUri) pattern in Ok (b, patterns)
      else if strcasecmp fmt (bytes "DnsWildcard") =? 0 then
        DnsWildcard compile pcre_exec patterns (mHostAddress requestUri) pattern
      else Ok (false, patterns)
  end.

(** getUserMatchContainer: over the userPatterns of a userMatch, and over the
    userMatches of a hostMatch *)
Fixpoint user_patterns (testUser : list ascii) (nodes : list TiXmlNode) : outcome (option (list ascii)) :=
  match nodes with
  | [] => Ok None
  | node :: nodes' =>
      match first_text node with
      | None => user_patterns testUser nodes'
      | Some userRE =>
          let! found := match_user_pattern compile pcre_exec userRE testUser in
          match found with
          | Some variableDigits => Ok (Some variableDigits)
          | None => user_patterns testUser nodes'
          end
      end
  end.
Fixpoint user_matches (testUser : list ascii) (nodes : list TiXmlNode) : outcome (option (TiXmlNode * list ascii)) :=
  match nodes with
  | [] => Ok None
  | node :: nodes' =>
      if is_element node && bool_decide (Value node = bytes "userMatch") then
        let! found := user_patterns testUser (children_named (bytes "userPattern") node) in
        match found with
        | Some variableDigits => Ok (Some (node, variableDigits))
        | None => user_matches testUser nodes'
        end
      else user_matches testUser nodes'
  end.
Definition getUserMatchContainer (requestUri : Url) (hostMatchNode : TiXmlNode) : outcome (option (TiXmlNode * list ascii)) :=
  user_matches (mUserId requestUri) (children hostMatchNode).

(** Over the hostPatterns of a hostMatch; [host] is
    prMatchingHostMatchContainerNode *)
Fixpoint host_patterns (requestUri : Url) (hostMatchNode : TiXmlNode) (nodes : list TiXmlNode) (host : option TiXmlNode) (patterns : Patterns)
    : outcome (option (TiXmlNode * list ascii) * option TiXmlNode * Patterns) :=
  match nodes with
  | [] => Ok (None, host, patterns)
  | node :: nodes' =>
      let! (hostMatchFound, patterns) := host_pattern requestUri node patterns in
      if hostMatchFound : bool then
        let! found := getUserMatchContainer requestUri hostMatchNode in
        match found with
        | Some r => Ok (Some r, Some hostMatchNode, patterns)
        | None => host_patterns requestUri hostMatchNode nodes' (Some hostMatchNode) patterns
        end
      else host_patterns requestUri hostMatchNode nodes' host patterns
  end.

(** Whether a hostMatch is of the wanted type; the element ruleType must have
    a child. *)
Definition rule_type_ok (ruleType : option (list ascii)) (hostMatchNode : TiXmlNode) : outcome bool :=
  match ruleType with
  | None => Ok true
  | Some t =>
      match FirstChild_named (bytes "ruleType") (children hostMatchNode) with
      | None => Ok false
      | Some typeNode =>
          match children typeNode with
          | [] => UB
          | c :: _ => Ok (bool_decide (Value c = t))
          end
      end
  end.

Fixpoint host_matches (requestUri : Url) (ruleType : option (list ascii)) (nodes : list TiXmlNode) (host : option TiXmlNode) (patterns : Patterns)
    : outcome (option (TiXmlNode * list ascii) * option TiXmlNode * Patterns) :=
  match nodes with
  | [] => Ok (None, host, patterns)
  | node :: nodes' =>
      if is_element node && bool_decide (Value node = bytes "hostMatch") then
        let! ok := rule_type_ok ruleType node in
        if ok : bool then
          let! (found, host, patterns) := host_patterns requestUri node (children_named (bytes "hostPattern") node) host patterns in
          match found with
          | Some r => Ok (Some r, host, patterns)
          | None => host_matches requestUri ruleType nodes' host patterns
          end
        else host_matches requestUri ruleType nodes' host patterns
      else host_matches requestUri ruleType nodes' host patterns
  end.

(** What getUserMatchContainerMatchingRequestURI returns and sets *)
Record Found := mkFound {
  f_status : OsStatus; f_variableDigits : list ascii; f_userMatch : option TiXmlNode; f_hostMatch : option TiXmlNode }.

Definition getUserMatchContainerMatchingRequestURI (this : UrlMapping) (requestUri : Url) (ruleType : option (list ascii))
    : outcome (Found * UrlMapping) :=
  match mDoc this, mPatterns this with
  | Some doc, Some patterns =>
      match FirstChild_named (bytes "mappings") doc with
      | None => Ok (mkFound OS_FILE_READ_FAILED [] None None, this)
      | Some mappings =>
          if is_element mappings then
            let! (found, host, patterns) := host_matches requestUri ruleType (children mappings) None patterns in
            let this := mkMapping (mDoc this) (Some patterns) (mVoicemail this) (mLocalhost this) (mMediaServer this) in
            Ok (match found with
                | Some (node, variableDigits) => mkFound OS_SUCCESS variableDigits (Some node) host
                | None => mkFound OS_FAILED [] None host
                end, this)
          else Ok (mkFound OS_INVALID [] None None, this)
      end
  | _, _ => UB
  end.

(** ** Transforms *)

(** The rows of a ResultSet: a UtlHashMap is the association of its keys *)
Inductive row_value := VString (s : list ascii) | VInt (n : Z).
Definition Row : Type := list (list ascii * row_value).
Definition ResultSet : Type := list Row.
Definition addValue (record : Row) (results : ResultSet) : ResultSet := results ++ [record].
Definition getIndex (index : Z) (results : ResultSet) : OsStatus * Row :=
  match (if index <? 0 then None else results !! Z.to_nat index) with
  | Some row => (OS_SUCCESS, row)
  | None => (OS_FAILED, [])
  end.

(** The name and value of an element, in either syntax; there always is one *)
Definition getNamedAttribute (component : TiXmlNode) : list ascii * list ascii :=
  let componentContent := default [] (first_text component) in
  match Attribute (bytes "name") component with
  | Some name => (name, componentContent)
  | None =>
      match index_from "="%char 0 componentContent with
      | Some equalsOffset => (take equalsOffset componentContent, drop (S equalsOffset) componentContent)
      | None => (componentContent, [])
      end
  end.

Inductive TransformState :=
| NoTransformsApplied | UserTransformed | HostTransformed | UrlParamAdded | HeaderParamAdded | FieldParamAdded
| FullUrlTransformed | TransformError.
Definition rank (s : TransformState) : nat :=
  match s with
  | NoTransformsApplied => 0 | UserTransformed => 1 | HostTransformed => 2 | UrlParamAdded => 3 | HeaderParamAdded => 4
  | FieldParamAdded => 5 | FullUrlTransformed => 6 | TransformError => 7
  end%nat.

(** One element of a transform *)
Definition transform_element (vdigits : list ascii) (node : TiXmlNode) (state : TransformState) (u : Url) (symbols : SymbolMap)
    : outcome (TransformState * Url * SymbolMap) :=
  let tagged (tag : string) := bool_decide (Value node = bytes tag) in
  if (rank state =? 0)%nat && tagged "url"%string then
    match first_text node with
    | None => Ok (state, u, symbols)
    | Some text =>
        let! (url, symbols) := replace text vdigits symbols in
        let! (u, _) := fromString fill pcre_exec url NameAddr false u in
        Ok (if parse_ok u then FullUrlTransformed else TransformError, u, symbols)
    end
  else if (rank state <? rank UserTransformed)%nat && tagged "user"%string then
    match first_text node with
    | None => Ok (state, u, symbols)
    | Some text =>
        let! (transformUser, symbols) := replace text vdigits symbols in
        Ok (UserTransformed, setUserId (Some (cstr transformUser)) u, symbols)
    end
  else if (rank state <? rank HostTransformed)%nat && tagged "host"%string then
    match first_text node with
    | None => Ok (state, u, symbols)
    | Some text =>
        let! (transformHost, symbols) := replace text vdigits symbols in
        let! parsedHostPort := Url_of_string fill pcre_exec transformHost NameAddr in
        let u := setHostPort (mHostPort parsedHostPort) (setHostAddress (Some (cstr (mHostAddress parsedHostPort))) u) in
        let! u := removeUrlParameter (bytes "transport") u in
        Ok (HostTransformed, u, symbols)
    end
  else
    let '(name, value) := getNamedAttribute node in
    if (rank state <=? rank UrlParamAdded)%nat && tagged "urlparams"%string then
      let! (value, symbols) := replace value vdigits symbols in
      let! u := setUrlParameter (cstr name) (Some (cstr value)) u in
      Ok (UrlParamAdded, u, symbols)
    else if (rank state <=? rank HeaderParamAdded)%nat && tagged "headerparams"%string then
      let! (value, symbols) := replace value vdigits symbols in
      let! u := setHeaderParameter (cstr name) (Some (cstr value)) u in
      Ok (HeaderParamAdded, u, symbols)
    else if (rank state <=? rank FieldParamAdded)%nat && tagged "fieldparams"%string then
      let! (value, symbols) := replace value vdigits symbols in
      let! u := setFieldParameter (cstr name) (Some (cstr value)) u in
      Ok (FieldParamAdded, u, symbols)
    else Ok (TransformError, u, symbols).

(** The loop over the children of a transform, up to the first error *)
Fixpoint transform_loop (vdigits : list ascii) (nodes : list TiXmlNode) (state : TransformState) (u : Url) (symbols : SymbolMap)
    : outcome (TransformState * Url * SymbolMap) :=
  match nodes with
  | [] => Ok (state, u, symbols)
  | node :: nodes' =>
      if is_element node then
        let! (state, u, symbols) := transform_element vdigits node state u symbols in
        if (rank state <? rank TransformError)%nat then transform_loop vdigits nodes' state u symbols
        else Ok (state, u, symbols)
      else transform_loop vdigits nodes' state u symbols
  end.

Definition contact_row (uri contact : list ascii) : Row :=
  [(bytes "uri", VString uri); (bytes "callid", VString (bytes " ")); (bytes "contact", VString contact);
   (bytes "expires", VInt 0); (bytes "cseq", VInt 0); (bytes "qvalue", VString (bytes "1.0"))].

(** The loop over the transforms of doTransform *)
Fixpoint transforms (requestUri : Url) (vdigits : list ascii) (nodes : list TiXmlNode) (symbols : SymbolMap)
    (contacts : ResultSet) (returnStatus : OsStatus) : outcome (OsStatus * ResultSet) :=
  match nodes with
  | [] => Ok (returnStatus, contacts)
  | node :: nodes' =>
      if is_element node then
        let! (state, u, symbols) := transform_loop vdigits (children node) NoTransformsApplied (Url_copy requestUri) symbols in
        if (rank state <? rank TransformError)%nat then
          let! (uri, _) := toString pcre_exec requestUri in
          let! (contact, _) := toString pcre_exec u in
          transforms requestUri vdigits nodes' symbols (addValue (contact_row uri contact) contacts) OS_SUCCESS
        else transforms requestUri vdigits nodes' symbols contacts returnStatus
      else transforms requestUri vdigits nodes' symbols contacts returnStatus
  end.
Definition doTransform (this : UrlMapping) (requestUri : Url) (vdigits : list ascii) (contacts : ResultSet) (permMatchNode : TiXmlNode)
    : outcome (OsStatus * ResultSet) :=
  transforms requestUri vdigits (children_named (bytes "transform") permMatchNode)
    (SymbolMap_new requestUri (mMediaServer this) (mVoicemail this) (mLocalhost this)) contacts OS_FAILED.

(** ** AuthRulesUrlMapping *)

Definition permission_row (uri permission : list ascii) : Row :=
  [(bytes "identity", VString uri); (bytes "permission", VString permission)].

(** The loop over the permissions of a permissionMatch, in both readers: the
    permissions, and whether there was a permission element.  A text node of
    the value permission is no element. *)
Fixpoint permissions_loop (uri : list ascii) (nodes : list TiXmlNode) (permissions : ResultSet) (found : bool)
    : outcome (ResultSet * bool) :=
  match nodes with
  | [] => Ok (permissions, found)
  | node :: nodes' =>
      if is_element node then
        match children node with
        | [] => permissions_loop uri nodes' permissions found
        | text :: _ => permissions_loop uri nodes' (addValue (permission_row uri (Value text)) permissions) true
        end
      else UB
  end.

Fixpoint auth_perm_loop (uri : list ascii) (nodes : list TiXmlNode) (permissions : ResultSet) : outcome (OsStatus * ResultSet) :=
  match nodes with
  | [] => Ok (OS_FAILED, permissions)
  | node :: nodes' =>
      if is_element node && bool_decide (Value node = bytes "permissionMatch") then
        let! (permissions, found) := permissions_loop uri (children_named (bytes "permission") node) permissions false in
        if found : bool then Ok (OS_SUCCESS, permissions) else auth_perm_loop uri nodes' permissions
      else auth_perm_loop uri nodes' permissions
  end.

(** AuthRulesUrlMapping::parsePermMatchContainer *)
Definition auth_parsePermMatchContainer (requestUri : Url) (permissions : ResultSet) (userMatchNode : TiXmlNode) : outcome (OsStatus * ResultSet) :=
  let! (uri, _) := toString pcre_exec requestUri in
  auth_perm_loop uri (children userMatchNode) permissions.

Definition getPermissionRequired (this : UrlMapping) (requestUri : Url) (permissions : ResultSet) : outcome (OsStatus * ResultSet * UrlMapping) :=
  let! (found, this) := getUserMatchContainerMatchingRequestURI this requestUri None in
  match f_status found, f_userMatch found with
  | OS_SUCCESS, Some node =>
      let! (status, permissions) := auth_parsePermMatchContainer requestUri permissions node in Ok (status, permissions, this)
  | OS_SUCCESS, None => UB
  | _, _ => Ok (OS_FAILED, permissions, this)
  end.

(** ** MappingRulesUrlMapping *)

(** The loop of parsePermMatchContainer; bPermissionFound is not reset *)
Fixpoint mapping_perm_loop (this : UrlMapping) (requestUri : Url) (uri vdigits : list ascii) (nodes : list TiXmlNode)
    (bPermissionFound : bool) (contacts permissions : ResultSet) (callTag : list ascii)
    : outcome (OsStatus * ResultSet * ResultSet * list ascii) :=
  match nodes with
  | [] => Ok (OS_FAILED, contacts, permissions, callTag)
  | node :: nodes' =>
      if is_element node then
        let callTag := if decide (Value node = bytes "callTag") then textContentShallow (Some node) else callTag in
        if decide (Value node = bytes "permissionMatch") then
          let permissionNodes := children_named (bytes "permission") node in
          let! (permissions, bPermissionFound) := permissions_loop uri permissionNodes permissions bPermissionFound in
          if bool_decide (permissionNodes = []) || bPermissionFound then
            let! (status, contacts) := doTransform this requestUri vdigits contacts node in
            if decide (status = OS_SUCCESS) then Ok (OS_SUCCESS, contacts, permissions, callTag)
            else mapping_perm_loop this requestUri uri vdigits nodes' bPermissionFound contacts permissions callTag
          else mapping_perm_loop this requestUri uri vdigits nodes' bPermissionFound contacts permissions callTag
        else mapping_perm_loop this requestUri uri vdigits nodes' bPermissionFound contacts permissions callTag
      else mapping_perm_loop this requestUri uri vdigits nodes' bPermissionFound contacts permissions callTag
  end.

Definition UNKNOWN_TAG : list ascii := bytes "UNK".

(** MappingRulesUrlMapping::parsePermMatchContainer *)
Definition mapping_parsePermMatchContainer (this : UrlMapping) (requestUri : Url) (vdigits : list ascii) (contacts permissions : ResultSet)
    (userMatchNode : TiXmlNode) : outcome (OsStatus * ResultSet * ResultSet * list ascii) :=
  let! (uri, _) := toString pcre_exec requestUri in
  mapping_perm_loop this requestUri uri vdigits (children userMatchNode) false contacts permissions UNKNOWN_TAG.

(** MappingRulesUrlMapping::getContactList *)
Definition mapping_getContactList (this : UrlMapping) (requestUri : Url) (contacts permissions : ResultSet) (callTag : list ascii)
    : outcome (OsStatus * ResultSet * ResultSet * list ascii * UrlMapping) :=
  let! (found, this) := getUserMatchContainerMatchingRequestURI this requestUri None in
  match f_status found, f_userMatch found with
  | OS_SUCCESS, Some node =>
      let! r := mapping_parsePermMatchContainer this requestUri (f_variableDigits found) contacts permissions node in Ok (r, this)
  | OS_SUCCESS, None => UB
  | _, _ => Ok (OS_FAILED, contacts, permissions, callTag, this)
  end.

(** ** FallbackRulesUrlMapping *)

(** The loop over the callerLocations of a callerLocationMatch [parent]; at the
    location its transforms are taken, and the loop ends *)
Fixpoint location_loop (this : UrlMapping) (requestUri : Url) (vdigits location : list ascii) (parent : TiXmlNode) (nodes : list TiXmlNode)
    (contacts : ResultSet) : outcome (option OsStatus * ResultSet) :=
  match nodes with
  | [] => Ok (None, contacts)
  | node :: nodes' =>
      if bool_decide (first_text node = Some location) then
        let! (status, contacts) := doTransform this requestUri vdigits contacts parent in Ok (Some status, contacts)
      else location_loop this requestUri vdigits location parent nodes' contacts
  end.

(** Over the children of the userMatch; the status once a location matched *)
Fixpoint location_matches (this : UrlMapping) (requestUri : Url) (vdigits location : list ascii) (nodes : list TiXmlNode)
    (contacts : ResultSet) (callTag : list ascii) : outcome (option OsStatus * ResultSet * list ascii) :=
  match nodes with
  | [] => Ok (None, contacts, callTag)
  | node :: nodes' =>
      if is_element node then
        let callTag := if decide (Value node = bytes "callTag") then textContentShallow (Some node) else callTag in
        if decide (Value node = bytes "callerLocationMatch") then
          let! (found, contacts) :=
            location_loop this requestUri vdigits location node (children_named (bytes "callerLocation") node) contacts in
          match found with
          | Some status => Ok (Some status, contacts, callTag)
          | None => location_matches this requestUri vdigits location nodes' contacts callTag
          end
        else location_matches this requestUri vdigits location nodes' contacts callTag
      else location_matches this requestUri vdigits location nodes' contacts callTag
  end.

(** FallbackRulesUrlMapping::getContactList: the transforms of the location, or
    those of the userMatch itself *)
Definition fallback_getContactList (this : UrlMapping) (requestUri : Url) (location : list ascii) (contacts : ResultSet)
    : outcome (OsStatus * ResultSet * list ascii * UrlMapping) :=
  let! (found, this) := getUserMatchContainerMatchingRequestURI this requestUri None in
  match f_status found, f_userMatch found with
  | OS_SUCCESS, Some node =>
      let! (status, contacts, callTag) :=
        location_matches this requestUri (f_variableDigits found) location (children node) contacts UNKNOWN_TAG in
      match status with
      | Some status => Ok (status, contacts, callTag, this)
      | None =>
          let! (status, contacts) := doTransform this requestUri (f_variableDigits found) contacts node in
          Ok (status, contacts, callTag, this)
      end
  | OS_SUCCESS, None => UB
  | _, _ => Ok (OS_FAILED, contacts, UNKNOWN_TAG, this)
  end.

(** ** EmergencyRulesUrlMapping *)

(** getMatchedRule: whether a rule matched, its name and its description *)
Definition getMatchedRule (this : UrlMapping) (requestUri : Url) (nameStr descriptionStr : list ascii)
    : outcome (bool * list ascii * list ascii * UrlMapping) :=
  let! (found, this) := getUserMatchContainerMatchingRequestURI this requestUri (Some (bytes "Emergency")) in
  match f_status found, f_hostMatch found with
  | OS_SUCCESS, Some host =>
      let content (tag : string) (old : list ascii) :=
        match FirstChild_named (bytes tag) (children host) with
        | Some n => textContentShallow (Some n)
        | None => old
        end in
      Ok (true, content "name"%string nameStr, content "description"%string descriptionStr, this)
  | _, _ => Ok (false, nameStr, descriptionStr, this)
  end.
End Rules.
