(* ===== verification/UrlMappingSpec.v ===== *)
(** * Which rule applies

    The search through a rule file finds the first rule, in the order of the
    document, whose host pattern and user pattern match; the compiled
    wildcards that the object keeps do not show; the permissions that
    AuthRulesUrlMapping returns are those of that rule. *)
From Stdlib Require Import ZArith Lia Ascii String.
From stdpp Require Import base list strings gmap.
From S2P Require Import Prelude UtlString Format Pcre PcreSpec PcreText DigitMap Patterns TinyXml UrlCodec Url UrlMapping.
Local Open Scope nat_scope.

(** ** First elements *)

Definition or_else {A} (a b : option A) : option A := match a with Some _ => a | None => b end.

Lemma head_app {A} (l l' : list A) : head (l ++ l') = or_else (head l) (head l').
Proof. by destruct l. Qed.

Lemma head_bind {A B} (f : A -> list B) x l : head ((x :: l) ≫= f) = or_else (head (f x)) (head (l ≫= f)).
Proof. apply head_app. Qed.

Section Rules.
Context (fill : nat -> ascii) (pcre_exec : pat -> list ascii -> nat -> option Match) (compile : bool -> list ascii -> option pat).
Context (requestUri : Url) (ruleType : option (list ascii)).

(** ** The rules of a document *)

(** What the patterns say of the request URI, each by itself. *)
Record answers := mkAnswers { host_says : TiXmlNode -> bool; user_says : list ascii -> option (list ascii); type_says : TiXmlNode -> bool }.

Definition is_tag (tag : string) (n : TiXmlNode) : bool := is_element n && bool_decide (Value n = bytes tag).
Definition select (p : TiXmlNode -> bool) (l : list TiXmlNode) : list TiXmlNode := filter (fun n => p n = true) l.

Definition user_texts (userMatch : TiXmlNode) : list (list ascii) := omap first_text (children_named (bytes "userPattern") userMatch).
Definition user_candidates (a : answers) (nodes : list TiXmlNode) : list (TiXmlNode * list ascii) :=
  select (is_tag "userMatch") nodes ≫= fun um => user_texts um ≫= fun t => option_list ((um,.) <$> user_says a t).
Definition host_candidates (a : answers) (h : TiXmlNode) : list (TiXmlNode * list ascii * TiXmlNode) :=
  select (host_says a) (children_named (bytes "hostPattern") h) ≫= fun _ => (fun r => (r, h)) <$> user_candidates a (children h).
(** Every rule that matches, in the order of the document: the userMatch, the
    variable digits and the hostMatch. *)
Definition candidates (a : answers) (nodes : list TiXmlNode) : list (TiXmlNode * list ascii * TiXmlNode) :=
  select (fun h => is_tag "hostMatch" h && type_says a h) nodes ≫= host_candidates a.

(** Every pattern of the document can be evaluated, with these answers. *)
Definition evaluated (a : answers) (nodes : list TiXmlNode) : Prop :=
  forall h, h ∈ nodes -> is_tag "hostMatch" h = true ->
    rule_type_ok ruleType h = Ok (type_says a h)
    /\ (forall hp, hp ∈ children_named (bytes "hostPattern") h ->
          (let! r := host_pattern fill pcre_exec compile requestUri hp ∅ in Ok (fst r)) = Ok (host_says a hp))
    /\ (forall um t, um ∈ children h -> t ∈ user_texts um -> match_user_pattern compile pcre_exec t (mUserId requestUri) = Ok (user_says a t)).

(** The answers, and whether there are any, by evaluation. *)
Definition answers_of : answers :=
  mkAnswers (fun hp => match host_pattern fill pcre_exec compile requestUri hp ∅ with Ok r => fst r | _ => false end)
    (fun t => match match_user_pattern compile pcre_exec t (mUserId requestUri) with Ok r => r | _ => None end)
    (fun h => match rule_type_ok ruleType h with Ok b => b | _ => false end).
Definition evaluable (nodes : list TiXmlNode) : bool :=
  forallb (fun h => negb (is_tag "hostMatch" h)
    || (is_ok (rule_type_ok ruleType h)
        && forallb (fun hp => is_ok (host_pattern fill pcre_exec compile requestUri hp ∅)) (children_named (bytes "hostPattern") h)
        && forallb (fun um => forallb (fun t => is_ok (match_user_pattern compile pcre_exec t (mUserId requestUri))) (user_texts um)) (children h))) nodes.

Lemma forallb_elem {A} (f : A -> bool) l x : forallb f l = true -> x ∈ l -> f x = true.
Proof. intros Hf Hx. apply list_elem_of_In in Hx. by eapply forallb_forall in Hf. Qed.

Lemma evaluable_evaluated nodes : evaluable nodes = true -> evaluated answers_of nodes.
Proof.
  intros He h Hh Ht. apply (forallb_elem _ _ h) in He; [|done]. cbv beta in He. rewrite Ht in He. cbn [negb orb] in He.
  apply andb_true_iff in He as [[Hr Hp]%andb_true_iff Hu]. cbn [answers_of host_says user_says type_says]. split_and!.
  - by destruct (rule_type_ok ruleType h).
  - intros hp Hhp. apply (forallb_elem _ _ hp) in Hp; [|done]. cbv beta in Hp.
    by destruct (host_pattern fill pcre_exec compile requestUri hp ∅).
  - intros um t Hum Ht'. apply (forallb_elem _ _ um) in Hu; [|done]. apply (forallb_elem _ _ t) in Hu; [|done].
    cbv beta in Hu. by destruct (match_user_pattern compile pcre_exec t (mUserId requestUri)).
Qed.

(** The kept expressions do not show. *)
Lemma host_pattern_table patterns node b : table_ok (compile := compile) patterns ->
  (let! r := host_pattern fill pcre_exec compile requestUri node ∅ in Ok (fst r)) = Ok b ->
  exists patterns', host_pattern fill pcre_exec compile requestUri node patterns = Ok (b, patterns') /\ table_ok (compile := compile) patterns'.
Proof.
  intros Ht. unfold host_pattern. destruct (first_text node) as [t|]; [|intros [= <-]; by eauto].
  destruct (_ =? 0)%Z; [|destruct (_ =? 0)%Z; [|destruct (_ =? 0)%Z]].
  - destruct (Url_of_string _ _ _ _); intros [= <-]. by eauto.
  - destruct (IPv4subnet _ _); intros [= <-]. by eauto.
  - unfold DnsWildcard. case_decide; [intros [= <-]; by eauto|]. destruct (negb _); [intros [= <-]; by eauto|].
    rewrite lookup_empty. unfold RegEx_new at 1. destruct (compile true (cstr (wildcard_exp t))) as [re|] eqn:Ec; [|done].
    cbn [obind]. intros [= <-]. destruct (table_lookup patterns t re Ht Ec) as (ps & -> & Hps). cbn [obind]. by eauto.
  - intros [= <-]. by eauto.
Qed.

Lemma user_patterns_first (a : answers) nodes : (forall t, t ∈ omap first_text nodes -> match_user_pattern compile pcre_exec t (mUserId requestUri) = Ok (user_says a t)) ->
  user_patterns pcre_exec compile (mUserId requestUri) nodes = Ok (head (omap first_text nodes ≫= fun t => option_list (user_says a t))).
Proof.
  induction nodes as [|n nodes IH]; intros Hu; [done|]. cbn [user_patterns omap list_omap] in *. destruct (first_text n) as [t|]; [|by apply IH].
  rewrite Hu by apply list_elem_of_here. cbn [obind]. rewrite head_bind. destruct (user_says a t) as [vd|]; [done|].
  apply IH. intros t' Ht'. apply Hu. by apply list_elem_of_further.
Qed.

Lemma select_cons p n l : select p (n :: l) = (if p n then [n] else []) ++ select p l.
Proof. unfold select. rewrite filter_cons. destruct (p n); [by rewrite decide_True|by rewrite decide_False]. Qed.

Lemma option_list_pair {A B} (x : A) (l : list (list ascii)) (f : list ascii -> option B) :
  head (l ≫= fun t => option_list ((x,.) <$> f t)) = (x,.) <$> head (l ≫= fun t => option_list (f t)).
Proof. induction l as [|t l IH]; [done|]. rewrite !head_bind, IH. by destruct (f t). Qed.

Lemma user_matches_first (a : answers) nodes :
  (forall um t, um ∈ nodes -> t ∈ user_texts um -> match_user_pattern compile pcre_exec t (mUserId requestUri) = Ok (user_says a t)) ->
  user_matches pcre_exec compile (mUserId requestUri) nodes = Ok (head (user_candidates a nodes)).
Proof.
  induction nodes as [|n nodes IH]; intros Hu; [done|]. cbn [user_matches].
  assert (user_matches pcre_exec compile (mUserId requestUri) nodes = Ok (head (user_candidates a nodes))) as IH'.
  { apply IH. intros um t Hum. apply Hu. by apply list_elem_of_further. }
  unfold user_candidates in *. rewrite select_cons. change (is_element n && bool_decide (Value n = bytes "userMatch")) with (is_tag "userMatch" n).
  destruct (is_tag "userMatch" n); [|done]. rewrite (user_patterns_first a) by (intros t; apply Hu, list_elem_of_here). cbn [obind app].
  rewrite head_bind, option_list_pair. unfold user_texts. 
  destruct (head (omap first_text (children_named (bytes "userPattern") n) ≫= _)) as [vd|]; [done|]. exact IH'.
Qed.

Lemma host_patterns_first (a : answers) h nodes : 
  (forall hp, hp ∈ nodes -> (let! r := host_pattern fill pcre_exec compile requestUri hp ∅ in Ok (fst r)) = Ok (host_says a hp)) ->
  (forall um t, um ∈ children h -> t ∈ user_texts um -> match_user_pattern compile pcre_exec t (mUserId requestUri) = Ok (user_says a t)) ->
  forall host patterns, table_ok (compile := compile) patterns ->
  let found := head (select (host_says a) nodes ≫= fun _ => (fun r => (r, h)) <$> user_candidates a (children h)) in
  exists host' patterns', host_patterns fill pcre_exec compile requestUri h nodes host patterns = Ok (fst <$> found, host', patterns')
    /\ table_ok (compile := compile) patterns' /\ (is_Some found -> host' = Some h).
Proof.
  intros Hh Hu. induction nodes as [|n nodes IH]; intros host patterns Ht; [by exists host, patterns; split_and!; [| |intros []]|].
  cbn [host_patterns]. destruct (host_pattern_table patterns n (host_says a n) Ht) as (ps & -> & Hps); [apply Hh, list_elem_of_here|]. cbn [obind].
  rewrite select_cons. destruct (host_says a n); [|apply IH; [intros hp Hhp; apply Hh; by apply list_elem_of_further|done]].
  unfold getUserMatchContainer. rewrite (user_matches_first a) by done. cbn [obind app]. rewrite head_bind.
  destruct (head (user_candidates a (children h))) as [r|] eqn:Er.
  - apply head_Some in Er as (l & ->). cbn [fmap list_fmap head or_else option_fmap option_map]. by exists (Some h), ps.
  - apply head_None in Er. rewrite Er. cbn [fmap list_fmap head or_else].
    destruct (IH (fun hp Hhp => Hh hp ltac:(by apply list_elem_of_further)) (Some h) ps Hps) as (host' & ps' & E & Hps' & Hhost).
    rewrite Er in *. by exists host', ps'.
Qed.

Lemma host_matches_first (a : answers) nodes : evaluated a nodes -> forall host patterns, table_ok (compile := compile) patterns ->
  exists host' patterns', host_matches fill pcre_exec compile requestUri ruleType nodes host patterns = Ok (fst <$> head (candidates a nodes), host', patterns')
    /\ table_ok (compile := compile) patterns' /\ (forall r, head (candidates a nodes) = Some r -> host' = Some (snd r)).
Proof.
  induction nodes as [|n nodes IH]; intros He host patterns Ht; [by exists host, patterns|].
  assert (evaluated a nodes) as He' by (intros h Hh; apply He; by apply list_elem_of_further). specialize (IH He').
  cbn [host_matches]. change (is_element n && bool_decide (Value n = bytes "hostMatch")) with (is_tag "hostMatch" n).
  unfold candidates in *. rewrite select_cons. destruct (is_tag "hostMatch" n) eqn:En; cbn [andb]; [|by apply IH].
  destruct (He n ltac:(apply list_elem_of_here) En) as (Hr & Hh & Hu). rewrite Hr. cbn [obind]. destruct (type_says a n); [|by apply IH].
  cbn [app]. rewrite head_bind.
  destruct (host_patterns_first a n (children_named (bytes "hostPattern") n) Hh Hu host patterns Ht) as (host' & ps & E & Hps & Hhost).
  rewrite E. cbn [obind]. fold (host_candidates a n) in Hhost |- *.
  destruct (head (host_candidates a n)) as [r|] eqn:Ec; cbn [fmap option_fmap option_map or_else].
  - assert (snd r = n) as Hsnd.
    { apply head_Some in Ec as (l & Ec). assert (r ∈ host_candidates a n) as Hin by (rewrite Ec; apply list_elem_of_here).
      unfold host_candidates in Hin. by apply list_elem_of_bind in Hin as (? & (? & -> & _)%list_elem_of_fmap & _). }
    exists host', ps. split_and!; [done|done|]. intros r' [= <-]. rewrite Hsnd. by apply Hhost.
  - destruct (IH host' ps Hps) as (host2 & ps2 & E2 & Hps2 & Hhost2). by exists host2, ps2.
Qed.
End Rules.

(** ** What the schema says

    authrules.xsd and urlmap.xsd of the host patterns, and the notation of
    the user patterns. *)

Section Schema.
Context (fill : nat -> ascii) `{Pcre pcre_exec} `{PcreCompile compile} (requestUri : Url).
Abbreviation host := (mHostAddress requestUri).
Abbreviation user := (mUserId requestUri).

Definition has_format (format : string) (hp : TiXmlNode) : Prop := default (bytes "url") (Attribute (bytes "format") hp) = bytes format.

(** The port 5060 matches an unspecified value. *)
Definition effective_port (p : Z) : Z := if decide (p = PORT_NONE) then SIP_PORT else p.
(** The code takes 5061 and 0 for unspecified ports too, which the schema does
    not say: neither port is 0, and a 5061 does not meet an unspecified one. *)
Definition ports_settled (p1 p2 : Z) : Prop :=
  p1 <> 0%Z /\ p2 <> 0%Z /\ ~ (p1 = SIP_TLS_PORT /\ p2 = PORT_NONE) /\ ~ (p1 = PORT_NONE /\ p2 = SIP_TLS_PORT).

Lemma match_ports_settled p1 p2 : ports_settled p1 p2 -> match_ports p1 p2 = bool_decide (effective_port p1 = effective_port p2).
Proof.
  unfold ports_settled, match_ports, effective_port, SIP_PORT, SIP_TLS_PORT, PORT_NONE. intros (H1 & H2 & H3 & H4).
  destruct (Z.eqb_spec p1 p2) as [->|Hne]; [by rewrite bool_decide_true|].
  rewrite (proj2 (Z.eqb_neq p1 0)), (proj2 (Z.eqb_neq p2 0)) by done. cbn [orb].
  destruct (Z.eqb_spec p1 (-1)), (Z.eqb_spec p2 (-1)), (Z.eqb_spec p1 5060), (Z.eqb_spec p2 5060), (Z.eqb_spec p1 5061), (Z.eqb_spec p2 5061);
    cbn [andb orb]; repeat case_decide; case_bool_decide; try done; lia.
Qed.

(** A host pattern the schema describes, and whether the host of the request
    matches it: host and port but for the case; an address in a subnet, whose
    network has no bits outside the mask; the domains under a wildcard. *)
Inductive schema_host : TiXmlNode -> bool -> Prop :=
| schema_hostport hp text xmlUrl :
    first_text hp = Some text -> has_format "url" hp -> Url_of_string fill pcre_exec text NameAddr = Ok xmlUrl ->
    nul_free (mHostAddress xmlUrl) -> ports_settled (mHostPort xmlUrl) (mHostPort requestUri) ->
    schema_host hp (bool_decide (tolower <$> mHostAddress xmlUrl = tolower <$> host
                                 /\ effective_port (mHostPort xmlUrl) = effective_port (mHostPort requestUri)))
| schema_subnet hp network size w n a :
    first_text hp = Some (network ++ "/"%char :: size) -> has_format "IPv4subnet" hp -> "/"%char ∉ network ->
    inet_pton (pad_quad network) = Some w -> atoi size = Ok n -> (1 <= n <= 32)%Z -> (2 ^ (32 - n) | ip_value w)%Z ->
    inet_pton host = Some a ->
    schema_host hp (bool_decide (ip_value a / 2 ^ (32 - n) = ip_value w / 2 ^ (32 - n))%Z)
| schema_no_address hp text :
    first_text hp = Some text -> has_format "IPv4subnet" hp -> inet_pton host = None -> schema_host hp false
| schema_all hp : first_text hp = Some (bytes "*") -> has_format "DnsWildcard" hp -> schema_host hp true
| schema_wildcard hp domain b :
    first_text hp = Some (bytes "*." ++ domain) -> has_format "DnsWildcard" hp -> BACKSLASH ∉ domain -> nul_free domain ->
    (b = true <-> under_domain domain host) -> schema_host hp b.

(** A request URI as the library can match it. *)
Definition matchable : Prop :=
  LF ∉ user /\ nul_free user /\ LF ∉ host /\ nul_free host
  /\ forall p, length user <= pcre_limit p /\ length host <= pcre_limit p.

Lemma schema_host_pattern hp b : matchable -> schema_host hp b ->
  (let! r := host_pattern fill pcre_exec compile requestUri hp ∅ in Ok (fst r)) = Ok b.
Proof.
  intros (_ & _ & Hlf & Hnul & Hlim). unfold host_pattern.
  destruct 1 as [hp text x Et Ef Eu Hn Hp|hp network size w n a Et Ef Hs Ew En Hr Hd Ea|hp text Et Ef Ea|hp Et Ef|hp domain b Et Ef Hb Hn Hiff];
    unfold has_format in Ef; rewrite Et, Ef; cbn [fst].
  - rewrite strcasecmp_refl. cbn [Z.eqb]. rewrite Eu. cbn [obind fst]. f_equal. rewrite match_ports_settled, bool_decide_and by done. f_equal.
    rewrite strcasecmp_lex, !cstr_id by done. destruct (Z.eqb_spec (lexcmp (tolower <$> mHostAddress x) (tolower <$> host)) 0) as [E|E].
    + apply lexcmp_eq in E. by rewrite bool_decide_true.
    + rewrite bool_decide_false; [done|]. intros E'. rewrite E' in E. by rewrite lexcmp_refl in E.
  - change (strcasecmp (bytes "IPv4subnet") (bytes "url") =? 0)%Z with false. rewrite strcasecmp_refl. cbn [Z.eqb].
    rewrite (subnet_is_prefix host network size a w n) by done. cbn [obind fst]. f_equal. apply bool_decide_ext.
    destruct Hd as [q ->]. pose proof (Z.pow_pos_nonneg 2 (32 - n) ltac:(lia) ltac:(lia)). rewrite Z.div_mul by lia. nia.
  - change (strcasecmp (bytes "IPv4subnet") (bytes "url") =? 0)%Z with false. rewrite strcasecmp_refl. cbn [Z.eqb].
    unfold IPv4subnet. by rewrite Ea.
  - change (strcasecmp (bytes "DnsWildcard") (bytes "url") =? 0)%Z with false. done.
  - change (strcasecmp (bytes "DnsWildcard") (bytes "url") =? 0)%Z with false.
    change (strcasecmp (bytes "DnsWildcard") (bytes "IPv4subnet") =? 0)%Z with false. rewrite strcasecmp_refl. cbn [Z.eqb].
    destruct (wildcard_suffix (pcre_exec := pcre_exec) (compile := compile) ∅ domain host) as (p & b' & ps & _ & E & _ & H1 & H2); try done.
    rewrite E. cbn [obind fst]. f_equal. specialize (H2 (proj2 (Hlim p))). apply Bool.eq_true_iff_eq. rewrite Hiff. by split.
Qed.

(** The answers that the schema and the notation give: every host pattern and
    every user pattern is one they describe. *)
Definition schema_says (a : answers) (nodes : list TiXmlNode) : Prop :=
  forall h, h ∈ nodes -> is_tag "hostMatch" h = true ->
    type_says a h = true
    /\ (forall hp, hp ∈ children_named (bytes "hostPattern") h -> schema_host hp (host_says a hp))
    /\ (forall um t, um ∈ children h -> t ∈ user_texts um -> exists ts, digit_map DPlain t = Some ts
          /\ user_says a t = if matches ts user then Some (vdigits ts user) else None).

Lemma schema_evaluated a nodes : matchable -> schema_says a nodes -> evaluated fill pcre_exec compile requestUri None a nodes.
Proof.
  intros Hm Hs h Hh Ht. destruct (Hs h Hh Ht) as (Hty & Hhost & Huser). split; [simpl; by rewrite Hty|]. split.
  - intros hp Hhp. apply schema_host_pattern; auto.
  - intros um t Hum Htx. destruct (Huser um t Hum Htx) as (ts & Ets & ->). destruct Hm as (Hl & Hn & _ & _ & Hlim).
    destruct (user_pattern_spec (pcre_exec := pcre_exec) (compile := compile) t ts user Ets Hl Hn) as (re & p & _ & _ & Hans & _).
    apply Hans, Hlim.
Qed.
End Schema.

(** ** The search *)

Section Search.
Context (fill : nat -> ascii) (pcre_exec : pat -> list ascii -> nat -> option Match) (compile : bool -> list ascii -> option pat).

(** A loaded object whose document has the rules [nodes]. *)
Definition has_rules (this : UrlMapping) (nodes : list TiXmlNode) : Prop :=
  exists doc patterns v at_, mDoc this = Some doc /\ mPatterns this = Some patterns /\ table_ok (compile := compile) patterns
    /\ FirstChild_named (bytes "mappings") doc = Some (ELEMENT v at_ nodes).
Definition same_rules (this this' : UrlMapping) : Prop :=
  mDoc this' = mDoc this /\ mVoicemail this' = mVoicemail this /\ mLocalhost this' = mLocalhost this /\ mMediaServer this' = mMediaServer this.

Definition finds (a : answers) (nodes : list TiXmlNode) (found : Found) : Prop :=
  match head (candidates a nodes) with
  | Some (userMatch, variableDigits, hostMatch) => found = mkFound OS_SUCCESS variableDigits (Some userMatch) (Some hostMatch)
  | None => f_status found = OS_FAILED /\ f_userMatch found = None /\ f_variableDigits found = []
  end.

(** The search ends with the first rule of the document that matches, and the
    table stays right for the next request; the answers of the patterns do
    not depend on it. *)
Lemma search_finds this requestUri ruleType a nodes :
  has_rules this nodes -> evaluated fill pcre_exec compile requestUri ruleType a nodes ->
  exists found this', getUserMatchContainerMatchingRequestURI fill pcre_exec compile this requestUri ruleType = Ok (found, this')
    /\ has_rules this' nodes /\ same_rules this this' /\ finds a nodes found.
Proof.
  intros (doc & patterns & v & at_ & Ed & Ep & Ht & Em) He. unfold getUserMatchContainerMatchingRequestURI. rewrite Ed, Ep, Em.
  cbn [is_element children]. destruct (host_matches_first _ _ _ _ _ a nodes He None patterns Ht) as (host & ps & -> & Hps & Hhost). cbn [obind].
  eexists _, _. split; [done|]. split; [by exists doc, ps, v, at_|]. split; [done|].
  unfold finds. destruct (head (candidates a nodes)) as [[[um vd] h]|] eqn:Ec; [|done]. cbn. f_equal. exact (Hhost _ eq_refl).
Qed.

(** ** Permissions *)

Definition permission_nodes (permissionMatch : TiXmlNode) : list TiXmlNode := children_named (bytes "permission") permissionMatch.
Definition permission_texts (permissionMatch : TiXmlNode) : list (list ascii) :=
  omap (fun p => Value <$> head (children p)) (permission_nodes permissionMatch).
(** The permissions of a userMatch: those of the first permissionMatch that has
    any. *)
Definition required (userMatch : TiXmlNode) : option (list (list ascii)) :=
  head (filter (fun ts => ts <> []) (permission_texts <$> select (is_tag "permissionMatch") (children userMatch))).

Lemma permissions_loop_all uri nodes : Forall (fun n => is_element n = true) nodes -> forall permissions found,
  let ts := omap (fun p => Value <$> head (children p)) nodes in
  permissions_loop uri nodes permissions found = Ok (permissions ++ (permission_row uri <$> ts), found || negb (bool_decide (ts = []))).
Proof.
  induction 1 as [|n nodes Hn Hns IH]; intros permissions found ts.
  - subst ts. cbn. by rewrite app_nil_r, orb_false_r.
  - subst ts. cbn [permissions_loop]. rewrite Hn.
    destruct (children n) as [|c l] eqn:Ec; rewrite IH; simpl; rewrite Ec; simpl; [done|].
    unfold addValue. rewrite <- app_assoc. by rewrite orb_true_r.
Qed.

(** The children of the schema: no text stands for a permission. *)
Definition permissions_are_elements (userMatch : TiXmlNode) : Prop :=
  forall pm, pm ∈ children userMatch -> is_tag "permissionMatch" pm = true -> Forall (fun n => is_element n = true) (permission_nodes pm).

Lemma auth_perm_first uri nodes permissions :
  (forall pm, pm ∈ nodes -> is_tag "permissionMatch" pm = true -> Forall (fun n => is_element n = true) (permission_nodes pm)) ->
  auth_perm_loop uri nodes permissions
  = Ok match head (filter (fun ts => ts <> []) (permission_texts <$> select (is_tag "permissionMatch") nodes)) with
       | Some ts => (OS_SUCCESS, permissions ++ (permission_row uri <$> ts))
       | None => (OS_FAILED, permissions)
       end.
Proof.
  induction nodes as [|n nodes IH]; intros Hn; [done|]. cbn [auth_perm_loop]. rewrite select_cons.
  change (is_element n && bool_decide (Value n = bytes "permissionMatch")) with (is_tag "permissionMatch" n).
  assert (auth_perm_loop uri nodes permissions = Ok match head (filter (fun ts => ts <> []) (permission_texts <$> select (is_tag "permissionMatch") nodes)) with
    | Some ts => (OS_SUCCESS, permissions ++ (permission_row uri <$> ts)) | None => (OS_FAILED, permissions) end) as IH'.
  { apply IH. intros pm Hpm. apply Hn. by apply list_elem_of_further. }
  destruct (is_tag "permissionMatch" n) eqn:Et; [|done].
  rewrite permissions_loop_all by (apply Hn; [apply list_elem_of_here|done]). cbn [obind orb app fmap list_fmap]. rewrite filter_cons.
  change (omap (fun p => Value <$> head (children p)) (children_named (bytes "permission") n)) with (permission_texts n).
  destruct (permission_texts n) as [|t ts] eqn:Ep.
  - rewrite decide_False by (intros H; by apply H). cbn. by rewrite app_nil_r.
  - rewrite decide_True by done. rewrite bool_decide_false by done. done.
Qed.

(** What a call needs, with the answers of the patterns as the code gives them *)
Lemma permissions_of_first this requestUri a nodes permissions uri u :
  has_rules this nodes -> evaluated fill pcre_exec compile requestUri None a nodes -> toString pcre_exec requestUri = Ok (uri, u) ->
  (forall r, r ∈ candidates a nodes -> permissions_are_elements (fst (fst r))) ->
  exists this', has_rules this' nodes /\ same_rules this this'
    /\ getPermissionRequired fill pcre_exec compile this requestUri permissions
       = Ok (match head (candidates a nodes) ≫= (fun r => required (fst (fst r))) with
             | Some ts => (OS_SUCCESS, permissions ++ (permission_row uri <$> ts))
             | None => (OS_FAILED, permissions)
             end, this').
Proof.
  intros Hr He Hu Hp. destruct (search_finds this requestUri None a nodes Hr He) as (found & this' & E & Hr' & Hs & Hf).
  exists this'. split; [done|]. split; [done|]. unfold getPermissionRequired. rewrite E. cbn [obind]. unfold finds in Hf.
  destruct (head (candidates a nodes)) as [[[um vd] h]|] eqn:Ec.
  - rewrite Hf. cbn [f_status f_userMatch]. unfold auth_parsePermMatchContainer. rewrite Hu. cbn [obind].
    apply head_Some in Ec as (l & Ec). rewrite auth_perm_first.
    + cbn [mbind option_bind fst]. fold (required um). destruct (required um); done.
    + apply (Hp (um, vd, h)). rewrite Ec. apply list_elem_of_here.
  - by destruct Hf as (-> & _).
Qed.
End Search.

(** C20: What a call needs: the permissions of the first rule that matches the
    request, in the order of the document, all of its first permissionMatch
    that names any, under the identity of the request; without such a rule or
    permission the caller is told that there are none.  A rule matches if a
    host pattern matches as authrules.xsd says ([schema_host]) and a user
    pattern as its notation says.  Every pattern of the file is one these
    describe: no port is 0, a port 5061 does not meet an unspecified one and a
    network has no bits outside its mask, where the code does not do what the
    schema says; a user pattern is accepted by the reader of the notation.  The
    permissions are elements, and the library's limits, a line feed or a NUL
    do not come in. *)
Theorem permissions_of_first_rule (fill : nat -> ascii) `{Pcre pcre_exec} `{PcreCompile compile} this requestUri a nodes permissions uri u :
  has_rules compile this nodes -> matchable requestUri -> schema_says fill (pcre_exec := pcre_exec) requestUri a nodes ->
  toString pcre_exec requestUri = Ok (uri, u) ->
  (forall r, r ∈ candidates a nodes -> permissions_are_elements (fst (fst r))) ->
  exists this', has_rules compile this' nodes /\ same_rules this this'
    /\ getPermissionRequired fill pcre_exec compile this requestUri permissions
       = Ok (match head (candidates a nodes) ≫= (fun r => required (fst (fst r))) with
             | Some ts => (OS_SUCCESS, permissions ++ (permission_row uri <$> ts))
             | None => (OS_FAILED, permissions)
             end, this').
Proof.
  intros Hr Hm Hs Hu Hp. eapply permissions_of_first; [exact Hr| |exact Hu|exact Hp]. by eapply schema_evaluated.
Qed.

(** ** An example *)

Module MappingExamples.
Definition el (tag : string) (c : list TiXmlNode) : TiXmlNode := ELEMENT (bytes tag) [] c.
Definition txt (tag : string) (t : string) : TiXmlNode := el tag [TEXT (bytes t)].
Definition wildcard (t : string) : TiXmlNode := ELEMENT (bytes "hostPattern") [(bytes "format", bytes "DnsWildcard")] [TEXT (bytes t)].
Definition rules : list TiXmlNode :=
  [COMMENT (bytes "long distance first");
   el "hostMatch" [wildcard "*.example.com"; txt "hostPattern" "example.org:5060";
     el "userMatch" [txt "userPattern" "911"; el "permissionMatch" []];
     el "userMatch" [txt "userPattern" "9011."; txt "userPattern" "91xxxxxxxxxx";
       el "permissionMatch" [txt "permission" "LongDistance"; txt "permission" "International"]]];
   el "hostMatch" [txt "hostPattern" "example.org"; el "userMatch" [txt "userPattern" "."; el "permissionMatch" [txt "permission" "Any"]]]].
Definition mapping : UrlMapping := mkMapping (Some [DECLARATION []; ELEMENT (bytes "mappings") [] rules]) (Some ∅) [] [] [].
Definition request : Url := mkUrl SipUrlScheme [] (bytes "916175551212") [] false (bytes "sip.Example.com") PORT_NONE [] [] None [] None None false.
Definition fill0 (n : nat) : ascii := NUL.

Lemma mapping_rules : has_rules syntax mapping rules.
Proof.
  exists [DECLARATION []; ELEMENT (bytes "mappings") [] rules], ∅, (bytes "mappings"), []. split_and!; try reflexivity.
  intros w re E. rewrite lookup_empty in E. discriminate E.
Defined.

Definition says : answers := answers_of fill0 search syntax request None.

#[local] Instance library : Pcre search := search_Pcre 1000.

Lemma request_matchable : matchable request.
Proof.
  split; [|split; [|split; [|split]]];
    [apply (bool_decide_eq_true_1 (LF ∉ mUserId request)); vm_compute; reflexivity|repeat constructor; discriminate
    |apply (bool_decide_eq_true_1 (LF ∉ mHostAddress request)); vm_compute; reflexivity|repeat constructor; discriminate|].
  intros p. simpl. lia.
Defined.

Lemma hostport_says hp text x b : first_text hp = Some text -> has_format "url" hp -> Url_of_string fill0 search text NameAddr = Ok x ->
  nul_free (mHostAddress x) -> ports_settled (mHostPort x) (mHostPort request) ->
  b = bool_decide (tolower <$> mHostAddress x = tolower <$> mHostAddress request /\ effective_port (mHostPort x) = effective_port (mHostPort request)) ->
  schema_host fill0 (pcre_exec := search) request hp b.
Proof. intros H1 H2 H3 H4 H5 ->. by apply (schema_hostport _ _ _ text x). Qed.

Lemma says_schema : schema_says fill0 (pcre_exec := search) request says rules.
Proof.
  intros h Hh Ht. repeat (apply elem_of_cons in Hh as [->|Hh]); [discriminate Ht| | |by apply not_elem_of_nil in Hh]; (split; [reflexivity|]; split).
  - intros hp Hhp. change (children_named _ _) with [wildcard "*.example.com"; txt "hostPattern" "example.org:5060"] in Hhp.
    repeat (apply elem_of_cons in Hhp as [->|Hhp]); [| |by apply not_elem_of_nil in Hhp].
    + apply (schema_wildcard fill0 (pcre_exec := search) request _ (bytes "example.com")); [reflexivity|reflexivity| |repeat constructor; discriminate|].
      * apply (bool_decide_eq_true_1 (BACKSLASH ∉ bytes "example.com")). vm_compute. reflexivity.
      * split; [intros _|intros _; vm_compute; reflexivity]. exists (bytes "sip."), (bytes "Example.com"), []. split; [reflexivity|].
        split; [reflexivity|]. split; [right; exists (bytes "sip"); split; [discriminate|reflexivity]|left; reflexivity].
    + eapply hostport_says; [reflexivity|reflexivity|vm_compute; reflexivity|repeat constructor; discriminate| |vm_compute; reflexivity].
      split_and!; try discriminate; intros [H1 H2]; discriminate.
  - intros um t Hum Htx. simpl in Hum. repeat (apply elem_of_cons in Hum as [->|Hum]); [| | | |by apply not_elem_of_nil in Hum]; vm_compute in Htx;
      repeat (apply elem_of_cons in Htx as [->|Htx]); try (by apply not_elem_of_nil in Htx); eexists; (split; [vm_compute; reflexivity|vm_compute; reflexivity]).
  - intros hp Hhp. change (children_named _ _) with [txt "hostPattern" "example.org"] in Hhp.
    repeat (apply elem_of_cons in Hhp as [->|Hhp]); [|by apply not_elem_of_nil in Hhp].
    eapply hostport_says; [reflexivity|reflexivity|vm_compute; reflexivity|repeat constructor; discriminate| |vm_compute; reflexivity].
    split_and!; try discriminate; intros [H1 H2]; discriminate.
  - intros um t Hum Htx. simpl in Hum. repeat (apply elem_of_cons in Hum as [->|Hum]); [| |by apply not_elem_of_nil in Hum]; vm_compute in Htx;
      repeat (apply elem_of_cons in Htx as [->|Htx]); try (by apply not_elem_of_nil in Htx); eexists; (split; [vm_compute; reflexivity|vm_compute; reflexivity]).
Defined.

Lemma permissions_of_first_rule_witness :
  exists this', getPermissionRequired fill0 search syntax mapping request []
    = Ok (OS_SUCCESS, permission_row (bytes "sip:916175551212@sip.Example.com") <$> [bytes "LongDistance"; bytes "International"], this').
Proof.
  destruct (permissions_of_first_rule fill0 (pcre_exec := search) (compile := syntax) mapping request says rules [] (bytes "sip:916175551212@sip.Example.com") request)
    as (this' & _ & _ & E).
  - exact mapping_rules.
  - exact request_matchable.
  - exact says_schema.
  - vm_compute. reflexivity.
  - intros r Hr. change (candidates says rules) with (candidates says rules) in Hr. revert Hr. vm_compute. intros Hr.
    repeat (apply elem_of_cons in Hr as [Hr|Hr]; [subst r|]); try (by apply not_elem_of_nil in Hr);
      intros pm Hpm; repeat (apply elem_of_cons in Hpm as [Hpm|Hpm]; [subst pm; intros _; repeat constructor|]); by apply not_elem_of_nil in Hpm.
  - exists this'. exact E.
Defined.
End MappingExamples.
