(* ===== verification/UrlTransformSpec.v ===== *)
(** * The tokens of a transform

    The tokens of a transform's text are replaced by what they stand for. *)
From Stdlib Require Import ZArith Lia Ascii String.
From stdpp Require Import base list strings gmap sets.
From S2P Require Import Prelude UtlString Format Pcre PcreSpec PcreText DigitMap Patterns TinyXml UrlCodec Url UrlMapping.
Local Open Scope nat_scope.

(** ** Templates *)

Inductive symbol :=
| SMediaserver | SVoicemail | SLocalhost | SUri | SVdigits | SVdigitsEscaped
| SUser | SUserEscaped | SDigits | SDigitsEscaped | SHost | SUrlParams | SHeaderParams.
#[global] Instance symbol_eq_dec : EqDecision symbol.
Proof. solve_decision. Defined.

Definition symbol_text (s : symbol) : list ascii :=
  match s with
  | SMediaserver => XML_SYMBOL_MEDIASERVER | SVoicemail => XML_SYMBOL_VOICEMAIL | SLocalhost => XML_SYMBOL_LOCALHOST
  | SUri => XML_SYMBOL_URI | SVdigits => XML_SYMBOL_VDIGITS | SVdigitsEscaped => XML_SYMBOL_VDIGITS_ESCAPED
  | SUser => XML_SYMBOL_USER | SUserEscaped => XML_SYMBOL_USER_ESCAPED | SDigits => XML_SYMBOL_DIGITS
  | SDigitsEscaped => XML_SYMBOL_DIGITS_ESCAPED | SHost => XML_SYMBOL_HOST | SUrlParams => XML_SYMBOL_URLPARAMS
  | SHeaderParams => XML_SYMBOL_HEADERPARAMS
  end.

(** A text with tokens in it. *)
Inductive piece := Plain_text (t : list ascii) | Token (s : symbol).
Definition print_piece (p : piece) : list ascii := match p with Plain_text t => t | Token s => symbol_text s end.
Definition print (ps : list piece) : list ascii := ps ≫= print_piece.

Definition OPEN_BRACE : ascii := "{"%char.
Definition no_brace (t : list ascii) : Prop := OPEN_BRACE ∉ t.
Definition piece_ok (p : piece) : Prop := match p with Plain_text t => no_brace t | Token _ => True end.

(** Replacement of one token. *)
Definition put (s : symbol) (v : list ascii) (p : piece) : piece :=
  match p with Token s' => if decide (s' = s) then Plain_text v else p | _ => p end.

(** A comparison of characters for which only the brace is like the brace. *)
Class Braces (same : ascii -> ascii -> bool) := {
  same_refl a : same a a = true;
  same_brace x : same OPEN_BRACE x = true -> x = OPEN_BRACE }.
#[global] Instance matchCase_braces : Braces matchCase.
Proof. split; [intros a; by apply bool_decide_eq_true|intros x; by intros ->%bool_decide_eq_true]. Qed.
#[global] Instance ignoreCase_braces : Braces ignoreCase.
Proof. split; [intros a; by apply bool_decide_eq_true|]. intros x. destruct x as [[] [] [] [] [] [] [] []]; vm_compute; congruence. Qed.

Lemma begins_refl `{Braces same} w r : begins_with same w (w ++ r) = true.
Proof. induction w as [|a w IH]; [done|]. simpl. by rewrite same_refl. Qed.

Lemma occurrence_found `{Braces same} w a b : exists i, occurrence same w (a ++ w ++ b) = Some i.
Proof.
  induction a as [|x a (i & IH)]; simpl app.
  - exists 0. destruct (w ++ b) eqn:E; cbn [occurrence]; rewrite <- E, begins_refl; done.
  - cbn [occurrence]. rewrite IH. destruct (begins_with _ _ _); by eauto.
Qed.

Lemma symbol_brace s : exists t, symbol_text s = OPEN_BRACE :: t /\ no_brace t.
Proof. destruct s; (eexists; split; [reflexivity|]; apply (bool_decide_eq_true_1 (OPEN_BRACE ∉ _)); vm_compute; reflexivity). Qed.

(** No token begins inside a text without braces, nor inside another token. *)
Lemma occurrence_skip `{Braces same} s t r : no_brace t ->
  occurrence same (symbol_text s) (t ++ r) = Nat.add (length t) <$> occurrence same (symbol_text s) r.
Proof.
  intros Ht. destruct (symbol_brace s) as (w & -> & _). induction t as [|x t IH]; simpl app; [by destruct (occurrence _ _ r)|].
  cbn [occurrence begins_with]. destruct (same OPEN_BRACE x) eqn:E; [apply same_brace in E; subst x; destruct Ht; apply list_elem_of_here|].
  cbn [andb]. rewrite IH by (intros Hin; apply Ht; by apply list_elem_of_further). by destruct (occurrence _ _ r).
Qed.

Lemma symbols_differ s s' r : s <> s' -> begins_with ignoreCase (symbol_text s) (symbol_text s' ++ r) = false.
Proof. destruct s, s'; intros Hne; try done; reflexivity. Qed.

Lemma occurrence_other s s' r : s <> s' ->
  occurrence ignoreCase (symbol_text s) (symbol_text s' ++ r) = Nat.add (length (symbol_text s')) <$> occurrence ignoreCase (symbol_text s) r.
Proof.
  intros Hne. pose proof (symbols_differ s s' r Hne) as Hb. destruct (symbol_brace s') as (t & Et & Ht). rewrite Et in *.
  cbn [app occurrence] in *. rewrite Hb, occurrence_skip by done. by destruct (occurrence _ _ r).
Qed.

Lemma replace_skip f what v t r : occurrence ignoreCase what (t ++ r) = Nat.add (length t) <$> occurrence ignoreCase what r ->
  replace_loop f (t ++ r) what v = t ++ replace_loop f r what v.
Proof.
  destruct f as [|f]; [done|]. intros E. cbn [replace_loop]. rewrite E. destruct (occurrence _ _ r) as [i|]; [|done]. cbn [fmap option_fmap option_map].
  rewrite take_app_add, <- !app_assoc. do 3 f_equal. rewrite <- Nat.add_assoc. by rewrite drop_app_add.
Qed.

Lemma replace_print s v ps : Forall piece_ok ps -> forall f, length (print ps) < f ->
  replace_loop f (print ps) (symbol_text s) v = print (put s v <$> ps).
Proof.
  induction 1 as [|p ps Hp Hps IH]; intros f Hf.
  - destruct f as [|f]; [done|]. cbn [print mbind list_bind replace_loop]. by destruct s.
  - change (print (p :: ps)) with (print_piece p ++ print ps) in *. rewrite length_app in Hf.
    change (print (put s v <$> p :: ps)) with (print_piece (put s v p) ++ print (put s v <$> ps)).
    destruct p as [t|s']; cbn [print_piece put] in *.
    + rewrite replace_skip by (by apply occurrence_skip). by rewrite IH by lia.
    + case_decide as Es; [subst s'|rewrite replace_skip by (by apply occurrence_other); by rewrite IH by lia].
      destruct f as [|f]; [lia|]. cbn [replace_loop].
      assert (occurrence ignoreCase (symbol_text s) (symbol_text s ++ print ps) = Some 0) as ->.
      { pose proof (begins_refl (same := ignoreCase) (symbol_text s) (print ps)) as Hb. destruct (symbol_text s ++ print ps); cbn [occurrence]; by rewrite Hb. }
      cbn [Nat.add print_piece]. rewrite take_0, drop_app_length. cbn [app]. f_equal. apply IH. destruct (symbol_brace s) as (t & E & _). rewrite E in Hf. simpl in Hf. lia.
Qed.

Lemma print_app ps qs : print (ps ++ qs) = print ps ++ print qs.
Proof. apply bind_app. Qed.

Lemma put_absent s v (ps : list piece) : Token s ∉ ps -> put s v <$> ps = ps.
Proof.
  induction ps as [|p ps IH]; intros Hs; [done|]. rewrite fmap_cons, IH by set_solver. f_equal.
  destruct p as [|s']; [done|]. cbn [put]. rewrite decide_False; [done|]. intros ->. set_solver.
Qed.

Lemma token_found `{Braces same} s (ps : list piece) : Token s ∈ ps -> exists i, occurrence same (symbol_text s) (print ps) = Some i.
Proof.
  intros (l1 & l2 & ->)%list_elem_of_split. rewrite print_app. apply (occurrence_found (symbol_text s) (print l1) (print l2)).
Qed.

Lemma replaceEach_print s v (ps : list piece) : Forall piece_ok ps -> replaceEach (print ps) (symbol_text s) v = print (put s v <$> ps).
Proof. intros Hps. apply replace_print; [done|lia]. Qed.

Lemma contains_print s v (ps : list piece) : contains (print ps) (symbol_text s) = false -> put s v <$> ps = ps.
Proof.
  unfold contains. intros E. apply put_absent. intros (i & Hi)%(token_found (same := matchCase)). by rewrite Hi in E.
Qed.

Lemma replace_if_print s v ps : Forall piece_ok ps -> replace_if (print ps) (symbol_text s) v = print (put s v <$> ps).
Proof.
  intros Hps. unfold replace_if. destruct (contains _ _) eqn:E; [by apply replaceEach_print|]. by rewrite (contains_print s v ps E).
Qed.

(** ** All tokens *)

Section Fill.
Context (env : symbol -> list ascii).

(** The text after the tokens [done_] are replaced. *)
Definition put_all (done_ : list symbol) (p : piece) : piece :=
  match p with Token s => if decide (s ∈ done_) then Plain_text (env s) else p | _ => p end.

Lemma put_put_all s done_ p : put s (env s) (put_all done_ p) = put_all (s :: done_) p.
Proof.
  destruct p as [t|s']; [done|]. cbn [put_all]. destruct (decide (s' ∈ done_)) as [Hin|Hin].
  - rewrite (decide_True (P := s' ∈ s :: done_)) by (by apply list_elem_of_further). done.
  - cbn [put]. destruct (decide (s' = s)) as [->|Hne]; [by rewrite decide_True by apply list_elem_of_here|].
    rewrite decide_False; [done|]. intros [?|?]%elem_of_cons; done.
Qed.

Lemma put_all_list s done_ (ps : list piece) : put s (env s) <$> (put_all done_ <$> ps) = put_all (s :: done_) <$> ps.
Proof. rewrite <- list_fmap_compose. apply list_fmap_ext. intros i p _. apply put_put_all. Qed.

Definition filled (ps : list piece) : Prop := Forall (fun p => match p with Plain_text t => no_brace t | Token s => no_brace (env s) end) ps.

Lemma filled_ok done_ ps : filled ps -> Forall piece_ok (put_all done_ <$> ps).
Proof.
  intros Hf. apply Forall_fmap. eapply Forall_impl; [exact Hf|]. intros [t|s] Hp; [done|]. cbn. by case_decide.
Qed.

Lemma step_if s done_ ps : filled ps ->
  replace_if (print (put_all done_ <$> ps)) (symbol_text s) (env s) = print (put_all (s :: done_) <$> ps).
Proof. intros Hf. rewrite replace_if_print by (by apply filled_ok). by rewrite put_all_list. Qed.

Lemma step_each s done_ ps : filled ps ->
  replaceEach (print (put_all done_ <$> ps)) (symbol_text s) (env s) = print (put_all (s :: done_) <$> ps).
Proof. intros Hf. rewrite replaceEach_print by (by apply filled_ok). by rewrite put_all_list. Qed.

Lemma step_none s done_ ps : contains (print (put_all done_ <$> ps)) (symbol_text s) = false ->
  print (put_all done_ <$> ps) = print (put_all (s :: done_) <$> ps).
Proof. intros E. by rewrite <- put_all_list, (contains_print s _ _ E). Qed.

(** What the template stands for. *)
Definition meaning (ps : list piece) : list ascii := ps ≫= fun p => match p with Plain_text t => t | Token s => env s end.

Lemma all_done done_ ps : (forall s, s ∈ done_) -> print (put_all done_ <$> ps) = meaning ps.
Proof.
  intros Hall. unfold print, meaning. induction ps as [|p ps IH]; [done|]. rewrite fmap_cons. rewrite !bind_cons. rewrite IH. f_equal.
  destruct p as [t|s]; [done|]. cbn. by rewrite decide_True.
Qed.
End Fill.

(** ** SymbolMap::replace *)

Definition component (s : symbol) : bool :=
  match s with SUser | SUserEscaped | SDigits | SDigitsEscaped | SHost => true | _ => false end.

Lemma bt_component s n r : component s = true -> exists st', bt ComponentSymbols (mkM n (symbol_text s ++ r) []) Some = Some st'.
Proof. destruct s; intros Hs; try discriminate Hs; eexists; vm_compute; reflexivity. Qed.

Lemma search_from_later p a w st' : forall pos, bt p (mkM (pos + length a) w []) Some = Some st' -> exists m, search_from p pos (a ++ w) = Some m.
Proof.
  induction a as [|x a IH]; intros pos E; cbn [length app] in *.
  - rewrite Nat.add_0_r in E. destruct w; cbn [search_from]; rewrite E; by eexists.
  - cbn [search_from]. destruct (bt p (mkM pos _ []) Some); [by eexists|]. apply IH. by rewrite Nat.add_succ_r in E.
Qed.

Section Replace.
Context `{Pcre pcre_exec}.

Lemma components_found s (ps : list piece) : component s = true -> Token s ∈ ps -> length (print ps) <= pcre_limit ComponentSymbols ->
  pcre_exec ComponentSymbols (print ps) 0 <> None.
Proof.
  intros Hs (l1 & l2 & ->)%list_elem_of_split Hl. rewrite pcre_complete by done. unfold search. simpl. rewrite drop_0, print_app.
  change (print (Token s :: l2)) with (symbol_text s ++ print l2).
  destruct (bt_component s (0 + length (print l1)) (print l2) Hs) as (st' & Hb).
  destruct (search_from_later _ _ _ _ _ Hb) as (m & ->). done.
Qed.

(** What the request URI gives for the tokens. *)
Record parts := mkParts {
  p_uri : list ascii; p_user : list ascii; p_userEscaped : list ascii; p_host : list ascii;
  p_urlParams : list ascii; p_headerParams : list ascii }.

(** The texts that were already built are the right ones. *)
Definition knows (s : SymbolMap) (c : parts) : Prop :=
  (exists u, toString pcre_exec (mOriginalUrl s) = Ok (p_uri c, u))
  /\ buildComponents (mOriginalUrl s) = Ok (p_user c, p_userEscaped c, p_host c)
  /\ buildUrlParams (mOriginalUrl s) = Ok (p_urlParams c) /\ buildHeaderParams (mOriginalUrl s) = Ok (p_headerParams c)
  /\ (mComponents s = None \/ mComponents s = Some (p_user c, p_userEscaped c, p_host c))
  /\ (mUrlParams s = None \/ mUrlParams s = Some (p_urlParams c)) /\ (mHeaderParams s = None \/ mHeaderParams s = Some (p_headerParams c)).

Definition env_of (s : SymbolMap) (c : parts) (vdigits : list ascii) (t : symbol) : list ascii :=
  match t with
  | SMediaserver => mReplacementMediaserver s | SVoicemail => mReplacementVoicemail s | SLocalhost => mReplacementLocalhost s
  | SUri => p_uri c | SVdigits => vdigits | SVdigitsEscaped => escape vdigits
  | SUser | SDigits => p_user c | SUserEscaped | SDigitsEscaped => p_userEscaped c | SHost => p_host c
  | SUrlParams => p_urlParams c | SHeaderParams => p_headerParams c
  end.

(** The tokens in the order of their replacement, up to the search for the
    parts of the URI, with it, and at the end. *)
Definition before : list symbol := [SVdigitsEscaped; SVdigits; SUri; SLocalhost; SVoicemail; SMediaserver].
Definition after : list symbol := SHost :: SDigitsEscaped :: SDigits :: SUserEscaped :: SUser :: before.

Lemma no_components env (ps : list piece) : nul_free (print (put_all env before <$> ps)) ->
  length (print (put_all env before <$> ps)) <= pcre_limit ComponentSymbols ->
  pcre_exec ComponentSymbols (cstr (print (put_all env before <$> ps))) 0 = None -> put_all env after <$> ps = put_all env before <$> ps.
Proof.
  intros Hn Hl E. rewrite cstr_id in E by done. unfold after. rewrite <- !put_all_list.
  assert (forall t, component t = true -> Token t ∉ put_all env before <$> ps) as Habs.
  { intros t Ht Hin. by apply (components_found t _ Ht Hin Hl). }
  rewrite (put_absent SUser), (put_absent SUserEscaped), (put_absent SDigits), (put_absent SDigitsEscaped), (put_absent SHost) by (by apply Habs).
  done.
Qed.

Lemma replace_components_filled s c vdigits ps : knows s c -> filled (env_of s c vdigits) ps ->
  nul_free (print (put_all (env_of s c vdigits) before <$> ps)) ->
  length (print (put_all (env_of s c vdigits) before <$> ps)) <= pcre_limit ComponentSymbols ->
  exists s', replace_components pcre_exec (print (put_all (env_of s c vdigits) before <$> ps)) s
      = Ok (print (put_all (env_of s c vdigits) after <$> ps), s')
    /\ knows s' c /\ env_of s' c vdigits = env_of s c vdigits.
Proof.
  intros Hk Hf Hn Hl. set (env := env_of s c vdigits) in *. unfold replace_components.
  destruct (pcre_exec ComponentSymbols _ 0) as [m|] eqn:E.
  - assert (match mComponents s with Some c0 => Ok c0 | None => buildComponents (mOriginalUrl s) end = Ok (p_user c, p_userEscaped c, p_host c)) as ->.
    { destruct Hk as (_ & Hb & _ & _ & [-> | ->] & _); done. }
    cbn [obind]. change (p_user c) with (env SUser) at 1. change (p_userEscaped c) with (env SUserEscaped) at 1.
    change (p_user c) with (env SDigits) at 1. change (p_userEscaped c) with (env SDigitsEscaped) at 1. change (p_host c) with (env SHost) at 1.
    change XML_SYMBOL_USER with (symbol_text SUser). change XML_SYMBOL_USER_ESCAPED with (symbol_text SUserEscaped).
    change XML_SYMBOL_DIGITS with (symbol_text SDigits). change XML_SYMBOL_DIGITS_ESCAPED with (symbol_text SDigitsEscaped).
    change XML_SYMBOL_HOST with (symbol_text SHost). rewrite !step_if by done. eexists. split; [done|]. split; [|done].
    destruct Hk as (H1 & H2 & H3 & H4 & _ & H6). split_and!; try done. by right. all: apply H6.
  - rewrite <- (no_components env ps Hn Hl E). by exists s.
Qed.

Lemma replace_params_filled s c vdigits ps : knows s c -> filled (env_of s c vdigits) ps ->
  exists s1 s2, replace_url_params (print (put_all (env_of s c vdigits) after <$> ps)) s
      = Ok (print (put_all (env_of s c vdigits) (SUrlParams :: after) <$> ps), s1)
    /\ replace_header_params (print (put_all (env_of s c vdigits) (SUrlParams :: after) <$> ps)) s1 = Ok (meaning (env_of s c vdigits) ps, s2)
    /\ knows s2 c.
Proof.
  intros Hk Hf. set (env := env_of s c vdigits) in *.
  assert (exists s1, replace_url_params (print (put_all env after <$> ps)) s = Ok (print (put_all env (SUrlParams :: after) <$> ps), s1) /\ knows s1 c) as (s1 & E1 & Hk1).
  { unfold replace_url_params. change XML_SYMBOL_URLPARAMS with (symbol_text SUrlParams). destruct (contains _ _) eqn:E.
    - assert (match mUrlParams s with Some p => Ok p | None => buildUrlParams (mOriginalUrl s) end = Ok (p_urlParams c)) as ->.
      { destruct Hk as (_ & _ & Hb & _ & _ & [-> | ->] & _); done. }
      cbn [obind]. change (p_urlParams c) with (env SUrlParams) at 1. rewrite step_each by done. eexists. split; [done|].
      destruct Hk as (H1 & H2 & H3 & H4 & H5 & _ & H7). split_and!; try done. by right.
    - rewrite <- (step_none env SUrlParams after ps E). by exists s. }
  exists s1. unfold replace_header_params. change XML_SYMBOL_HEADERPARAMS with (symbol_text SHeaderParams).
  assert (forall t, t ∈ SHeaderParams :: SUrlParams :: after) as Hall by (intros []; cbv; set_solver).
  destruct (contains _ _) eqn:E.
  - assert (match mHeaderParams s1 with Some p => Ok p | None => buildHeaderParams (mOriginalUrl s1) end = Ok (p_headerParams c)) as ->.
    { destruct Hk1 as (_ & _ & _ & Hb & _ & _ & [-> | ->]); done. }
    cbn [obind]. change (p_headerParams c) with (env SHeaderParams) at 1. rewrite step_each by done. rewrite (all_done env _ ps Hall). eexists. split; [done|]. split; [done|].
    destruct Hk1 as (H1 & H2 & H3 & H4 & H5 & H6 & _). split_and!; try done. by right.
  - exists s1. split; [exact E1|]. split; [|done]. rewrite (step_none env SHeaderParams _ ps E). by rewrite (all_done env _ ps Hall).
Qed.

(** The tokens of a text are replaced by what they stand for, each once, and
    the rest stays as it is, as long as no replacement brings in a brace; what
    was built of the URI is kept for the next text. *)
Theorem template_filled s c vdigits (ps : list piece) : knows s c -> filled (env_of s c vdigits) ps ->
  nul_free (print (put_all (env_of s c vdigits) before <$> ps)) ->
  length (print (put_all (env_of s c vdigits) before <$> ps)) <= pcre_limit ComponentSymbols ->
  exists s', replace pcre_exec (print ps) vdigits s = Ok (meaning (env_of s c vdigits) ps, s') /\ knows s' c.
Proof.
  intros Hk Hf Hn Hl. set (env := env_of s c vdigits) in *. unfold replace.
  assert (print ps = print (put_all env [] <$> ps)) as ->.
  { f_equal. clear. induction ps as [|[] ps IH]; [done|..]; rewrite fmap_cons, <- IH; done. }
  change XML_SYMBOL_MEDIASERVER with (symbol_text SMediaserver). change XML_SYMBOL_VOICEMAIL with (symbol_text SVoicemail).
  change XML_SYMBOL_LOCALHOST with (symbol_text SLocalhost). change XML_SYMBOL_URI with (symbol_text SUri).
  change XML_SYMBOL_VDIGITS with (symbol_text SVdigits). change XML_SYMBOL_VDIGITS_ESCAPED with (symbol_text SVdigitsEscaped).
  change (mReplacementMediaserver s) with (env SMediaserver) at 1. change (mReplacementVoicemail s) with (env SVoicemail) at 1.
  change (mReplacementLocalhost s) with (env SLocalhost) at 1. rewrite !step_if by done.
  assert ((if contains (print (put_all env [SLocalhost; SVoicemail; SMediaserver] <$> ps)) (symbol_text SUri)
    then let! (replacementUri, _) := toString pcre_exec (mOriginalUrl s) in
         Ok (replaceEach (print (put_all env [SLocalhost; SVoicemail; SMediaserver] <$> ps)) (symbol_text SUri) replacementUri)
    else Ok (print (put_all env [SLocalhost; SVoicemail; SMediaserver] <$> ps)))
    = Ok (print (put_all env [SUri; SLocalhost; SVoicemail; SMediaserver] <$> ps))) as ->.
  { destruct (contains _ _) eqn:E; [|by rewrite (step_none env SUri _ ps E) at 1]. destruct Hk as ((u & ->) & _). cbn [obind].
    change (p_uri c) with (env SUri). by rewrite step_each. }
  cbn [obind]. change vdigits with (env SVdigits) at 1. change (escape vdigits) with (env SVdigitsEscaped) at 1. rewrite !step_if by done. fold before.
  destruct (replace_components_filled s c vdigits ps Hk Hf Hn Hl) as (s1 & E1 & Hk1 & Henv). fold env in E1. rewrite E1. cbn [obind].
  destruct (replace_params_filled s1 c vdigits ps Hk1) as (s2 & s3 & E2 & E3 & Hk3); [by rewrite Henv|]. rewrite Henv in E2, E3. fold env in E2, E3 |- *.
  rewrite E2. cbn [obind]. rewrite E3. by eauto.
Qed.
End Replace.

(** ** Examples *)

Module TransformExamples.
Definition fill0 (n : nat) : ascii := NUL.
Definition request : Url := mkUrl SipUrlScheme [] (bytes "9#1") [] false (bytes "example.org") 5080 [] [] None [] None None false.
Definition symbols : SymbolMap := SymbolMap_new request (bytes "ms.example.org") [] (bytes "lh").
Definition known : parts := mkParts (bytes "sip:9#1@example.org:5080") (bytes "9#1") (bytes "9%231") (bytes "example.org:5080") [] [].
Definition template : list piece :=
  [Plain_text (bytes "<sip:"); Token SVdigits; Plain_text (bytes "@"); Token SMediaserver; Plain_text (bytes ";user="); Token SUserEscaped;
   Plain_text (bytes ";host="); Token SHost; Plain_text (bytes ">")].
#[local] Instance library : Pcre search := search_Pcre 200.

Lemma template_filled_witness :
  exists s', replace search (bytes "<sip:{vdigits}@{mediaserver};user={user-escaped};host={host}>") (bytes "#1") symbols
      = Ok (bytes "<sip:#1@ms.example.org;user=9%231;host=example.org:5080>", s') /\ knows (pcre_exec := search) s' known.
Proof.
  apply (template_filled (pcre_exec := search) symbols known (bytes "#1") template).
  - split_and!; try (by left); [exists request|..]; vm_compute; reflexivity.
  - repeat (apply Forall_cons; split; [apply (bool_decide_eq_true_1 (OPEN_BRACE ∉ _)); vm_compute; reflexivity|]). apply Forall_nil. exact I.
  - apply (bool_decide_eq_true_1 (nul_free _)). vm_compute. reflexivity.
  - vm_compute. lia.
Defined.
End TransformExamples.
