(* ===== verification/UrlContactSpec.v ===== *)
(** * What transforms make of a request

    doTransform returns on every rule whose texts can be printed, accepts the
    elements of a transform in the order of the schema, and makes of each
    transform that follows it the contact that its elements describe. *)
From Stdlib Require Import ZArith Lia Ascii String.
From stdpp Require Import base list strings gmap sets.
From S2P Require Import Prelude UtlString Format Pcre PcreSpec PcreText DigitMap Patterns TinyXml UrlCodec Url UrlSound UrlTotal UrlMapping.
From S2P Require Import UrlTransformSpec.
Local Open Scope nat_scope.

(** ** The order of the elements of a transform *)

Inductive kind := KUrl | KUser | KHost | KUrlParams | KHeaderParams | KFieldParams | KOther.
#[export] Instance kind_eq_dec : EqDecision kind.
Proof. solve_decision. Defined.
Definition kind_of (n : TiXmlNode) : kind :=
  let tagged (tag : string) := bool_decide (Value n = bytes tag) in
  if tagged "url"%string then KUrl else if tagged "user"%string then KUser else if tagged "host"%string then KHost
  else if tagged "urlparams"%string then KUrlParams else if tagged "headerparams"%string then KHeaderParams
  else if tagged "fieldparams"%string then KFieldParams else KOther.
Definition elements (nodes : list TiXmlNode) : list TiXmlNode := filter (fun n => is_element n = true) nodes.
Definition kinds (nodes : list TiXmlNode) : list kind := kind_of <$> elements nodes.

(** urlmap.xsd: a url alone, or at most one user and one host, and then any
    number of url, header and field parameters, in this order. *)
Definition any_number (k : kind) (rest : list kind -> Prop) (ks : list kind) : Prop := exists n r, ks = replicate n k ++ r /\ rest r.
Definition at_most_one (k : kind) (rest : list kind -> Prop) (ks : list kind) : Prop := rest ks \/ exists r, ks = k :: r /\ rest r.
Definition parameters : list kind -> Prop := any_number KUrlParams (any_number KHeaderParams (any_number KFieldParams (fun r => r = []))).
Definition schema (ks : list kind) : Prop := ks = [KUrl] \/ at_most_one KUser (at_most_one KHost parameters) ks.

(** What transform_element makes of the state, if all elements have text. *)
Definition next (state : TransformState) (k : kind) : TransformState :=
  let r := rank state in
  match k with
  | KUrl => if r =? 0 then FullUrlTransformed else TransformError
  | KUser => if r <? 1 then UserTransformed else TransformError
  | KHost => if r <? 2 then HostTransformed else TransformError
  | KUrlParams => if r <=? 3 then UrlParamAdded else TransformError
  | KHeaderParams => if r <=? 4 then HeaderParamAdded else TransformError
  | KFieldParams => if r <=? 5 then FieldParamAdded else TransformError
  | KOther => TransformError
  end.
Definition accepted (state : TransformState) (ks : list kind) : Prop := foldl next state ks <> TransformError.

Lemma error_stays ks : foldl next TransformError ks = TransformError.
Proof. induction ks as [|[] ks IH]; done. Qed.

Lemma any_number_cons k rest x ks : any_number k rest (x :: ks) <-> (x = k /\ any_number k rest ks) \/ rest (x :: ks).
Proof.
  split.
  - intros ([|n] & r & E & Hr); simpl in E; [right; by rewrite E|]. injection E as -> ->. left. split; [done|]. by exists n, r.
  - intros [(-> & n & r & -> & Hr)|Hr]; [by exists (S n), r|by exists 0, (x :: ks)].
Qed.
Lemma any_number_nil k (rest : list kind -> Prop) : rest [] -> any_number k rest [].
Proof. intros Hr. by exists 0, []. Qed.

Definition field_tail : list kind -> Prop := any_number KFieldParams (fun r => r = []).
Definition header_tail : list kind -> Prop := any_number KHeaderParams field_tail.

Lemma accepted_field ks : accepted FieldParamAdded ks <-> field_tail ks.
Proof.
  unfold accepted, field_tail. induction ks as [|k ks IH]; [split; [intros _; by apply any_number_nil|done]|].
  rewrite any_number_cons, <- IH. cbn [foldl]. destruct k; cbn [next rank Nat.eqb Nat.ltb Nat.leb]; rewrite ?error_stays; split; intros Hk; try (by destruct Hk as [[? ?]|?]); by auto.
Qed.
Lemma accepted_header ks : accepted HeaderParamAdded ks <-> header_tail ks.
Proof.
  unfold header_tail. induction ks as [|k ks IH]; [split; [intros _; by apply any_number_nil, any_number_nil|done]|].
  rewrite any_number_cons, <- IH. unfold field_tail. rewrite any_number_cons. fold field_tail. rewrite <- accepted_field. unfold accepted. cbn [foldl].
  destruct k; cbn [next rank Nat.eqb Nat.ltb Nat.leb]; rewrite ?error_stays; split; intros Hk; try (by destruct Hk as [[? ?]|[[? ?]|?]]); by auto.
Qed.
Lemma accepted_params state ks : state = HostTransformed \/ state = UrlParamAdded -> accepted state ks <-> parameters ks.
Proof.
  revert state. induction ks as [|k ks IH]; intros state Hs.
  { split; [intros _; by apply any_number_nil, any_number_nil, any_number_nil|by destruct Hs as [-> | ->]]. }
  unfold parameters. rewrite any_number_cons. fold field_tail. fold header_tail. fold parameters. rewrite <- (IH UrlParamAdded) by auto.
  unfold header_tail. rewrite any_number_cons. fold header_tail. rewrite <- accepted_header.
  unfold field_tail. rewrite any_number_cons. fold field_tail. rewrite <- accepted_field. unfold accepted. cbn [foldl].
  destruct Hs as [-> | ->]; destruct k; cbn [next rank Nat.eqb Nat.ltb Nat.leb]; rewrite ?error_stays; split; intros Hk;
    try (by destruct Hk as [[? ?]|[[? ?]|[[? ?]|?]]]); by auto.
Qed.
Lemma at_most_one_cons k rest x ks : at_most_one k rest (x :: ks) <-> rest (x :: ks) \/ (x = k /\ rest ks).
Proof. unfold at_most_one. split; [intros [?|(r & [= -> ->] & ?)]; auto|intros [?|[-> ?]]; eauto]. Qed.

Lemma accepted_user ks : accepted UserTransformed ks <-> at_most_one KHost parameters ks.
Proof.
  destruct ks as [|k ks]; [split; [intros _; left; by apply (accepted_params HostTransformed); auto|done]|].
  rewrite at_most_one_cons, <- (accepted_params HostTransformed (k :: ks)), <- (accepted_params HostTransformed ks) by auto.
  unfold accepted. cbn [foldl]. destruct k; cbn [next rank Nat.eqb Nat.ltb Nat.leb]; rewrite ?error_stays; split; intros Hk;
    try (by destruct Hk as [?|[? ?]]); by auto.
Qed.

Lemma accepted_schema ks : accepted NoTransformsApplied ks <-> schema ks.
Proof.
  unfold schema. destruct ks as [|k ks]; [split; [intros _; right; left; by apply accepted_user|done]|].
  rewrite at_most_one_cons, <- !accepted_user. unfold accepted. cbn [foldl].
  destruct k; cbn [next rank Nat.eqb Nat.ltb Nat.leb]; rewrite ?error_stays; split; intros Hk; try (by destruct Hk as [?|[?|[? ?]]]); try (by auto).
  - left. destruct ks as [|[] ks]; [done|..]; cbn [foldl next rank Nat.eqb Nat.ltb Nat.leb] in Hk; by rewrite error_stays in Hk.
  - destruct Hk as [[= ->]|[?|[? ?]]]; done.
Qed.

(** ** Transforms of a rule *)

(** The comparisons of a known tag. *)
Ltac tags :=
  repeat match goal with
  | |- context [bool_decide (bytes ?a = bytes ?b)] =>
      let v := eval vm_compute in (bool_decide (bytes a = bytes b)) in change (bool_decide (bytes a = bytes b)) with v
  end.

Section Transforms.
Context (fill : nat -> ascii) (pcre_exec : pat -> list ascii -> nat -> option Match).

Definition has_text (n : TiXmlNode) : Prop := is_Some (first_text n).

(** The steps of an operation that returned. *)
Ltac returned E :=
  repeat match type of E with
  | obind ?m _ = Ok _ => let r := fresh "r" in destruct m as [r| | |]; cbn [obind] in E; [|discriminate E..]; try destruct r as [? ?]
  | (let '(_, _) := ?x in _) = Ok _ => destruct x as [? ?]
  end.

Lemma element_next vdigits node state u symbols state' u' symbols' : has_text node ->
  transform_element fill pcre_exec vdigits node state u symbols = Ok (state', u', symbols') ->
  state' = next state (kind_of node) \/ (kind_of node = KUrl /\ state' = TransformError).
Proof.
  intros (text & Ht). unfold transform_element, kind_of. rewrite Ht.
  destruct (decide (Value node = bytes "url")) as [-> |N1]; [tags|destruct (decide (Value node = bytes "user")) as [-> |N2]; [tags|
    destruct (decide (Value node = bytes "host")) as [-> |N3]; [tags|destruct (decide (Value node = bytes "urlparams")) as [-> |N4]; [tags|
    destruct (decide (Value node = bytes "headerparams")) as [-> |N5]; [tags|destruct (decide (Value node = bytes "fieldparams")) as [-> |N6]; [tags|]]]]]];
    rewrite ?bool_decide_false by done; rewrite ?andb_true_r, ?andb_false_r; cbn [next]; intros E.
  - destruct (rank state =? 0); returned E; injection E as <- _ _; [|by left]. destruct (parse_ok _); auto.
  - destruct (rank state <? 1) eqn:R; cbn [rank] in E; rewrite ?R in E; returned E; injection E as <- _ _; by left.
  - destruct (rank state <? 2) eqn:R; cbn [rank] in E; rewrite ?R in E; returned E; injection E as <- _ _; by left.
  - destruct (rank state <=? 3) eqn:R; cbn [rank] in E; rewrite ?R in E; returned E; injection E as <- _ _; by left.
  - destruct (rank state <=? 4) eqn:R; cbn [rank] in E; rewrite ?R in E; returned E; injection E as <- _ _; by left.
  - destruct (rank state <=? 5) eqn:R; cbn [rank] in E; rewrite ?R in E; returned E; injection E as <- _ _; by left.
  - returned E. injection E as <- _ _. by left.
Qed.

Lemma elements_cons n nodes : elements (n :: nodes) = (if is_element n then [n] else []) ++ elements nodes.
Proof. unfold elements. rewrite filter_cons. by destruct (is_element n). Qed.

Lemma rank_error state : (rank state <? rank TransformError) = false <-> state = TransformError.
Proof. by destruct state. Qed.

Lemma loop_next vdigits nodes : Forall has_text (elements nodes) -> forall state u symbols state' u' symbols',
  transform_loop fill pcre_exec vdigits nodes state u symbols = Ok (state', u', symbols') ->
  state' = foldl next state (kinds nodes) \/ (KUrl ∈ kinds nodes /\ state' = TransformError).
Proof.
  unfold kinds. induction nodes as [|n nodes IH]; intros Hn state u symbols state' u' symbols' E; [injection E as <- _ _; by left|].
  cbn [transform_loop] in E. rewrite elements_cons in Hn |- *. destruct (is_element n); [|by eapply IH]. cbn [app] in *.
  inversion Hn as [|? ? Hn1 Hns]; subst. destruct (transform_element _ _ _ _ _ _ _) as [[[s1 u1] y1]| | |] eqn:E1; try discriminate E. cbn [obind] in E.
  rewrite fmap_cons. cbn [foldl]. destruct (element_next _ _ _ _ _ _ _ _ Hn1 E1) as [-> |[Hk ->]].
  - destruct (rank _ <? _) eqn:R; [destruct (IH Hns _ _ _ _ _ _ E) as [?|[? ?]]; [by left|right; split; [by apply list_elem_of_further|done]]|].
    apply rank_error in R. injection E as <- _ _. left. by rewrite R, error_stays.
  - cbn in E. injection E as <- _ _. right. split; [rewrite Hk; apply list_elem_of_here|done].
Qed.

Lemma url_alone ks : schema ks -> KUrl ∈ ks -> ks = [KUrl].
Proof.
  intros [-> |Hs]; [done|]. intros (l1 & l2 & ->)%list_elem_of_split. exfalso.
  assert (accepted NoTransformsApplied (l1 ++ KUrl :: l2)) as Ha by (apply accepted_schema; by right).
  destruct l1 as [|k l1].
  - destruct Hs as [Hs|(r & [=] & _)]. simpl in Hs. apply accepted_user in Hs. unfold accepted in Hs. cbn in Hs. by rewrite error_stays in Hs.
  - unfold accepted in Ha. rewrite foldl_app in Ha.
    assert (forall ks st, st <> NoTransformsApplied -> foldl next st ks <> NoTransformsApplied) as Hst.
    { clear. induction ks as [|k ks IH]; intros st Hst; [done|]. apply IH. destruct k, st; done. }
    assert (foldl next NoTransformsApplied (k :: l1) <> NoTransformsApplied) as Hn by (cbn [foldl]; apply Hst; by destruct k).
    destruct (foldl next NoTransformsApplied (k :: l1)); cbn [foldl next rank Nat.eqb] in Ha; try (by rewrite error_stays in Ha); done.
Qed.

End Transforms.

(** ** Every replacement returns *)

Section Total.
Context (fill : nat -> ascii) `{Pcre pcre_exec}.

(** A request URI that can be printed and whose port fits the buffer of
    getHostWithPort. *)
Definition printable (u : Url) : Prop := ready u /\ quotable u /\ is_ok (getHostWithPort u) = true.

(** Symbol maps of the same request, whatever has been built of it. *)
Definition like (s s' : SymbolMap) : Prop :=
  mReplacementMediaserver s' = mReplacementMediaserver s /\ mReplacementVoicemail s' = mReplacementVoicemail s
  /\ mReplacementLocalhost s' = mReplacementLocalhost s /\ mOriginalUrl s' = mOriginalUrl s.

Lemma like_refl s : like s s.
Proof. done. Qed.
Lemma like_trans s1 s2 s3 : like s1 s2 -> like s2 s3 -> like s1 s3.
Proof. intros (A & B & C & D) (A' & B' & C' & D'). split_and!; congruence. Qed.

Lemma built_url_params u : ready u -> exists t, buildUrlParams u = Ok t.
Proof.
  intros Hr. unfold buildUrlParams, getUrlParameters. destruct (parseUrlParameters_ready u Hr) as (u1 & -> & Hr1 & _). cbn [obind].
  destruct (list_params _ _ _) as [[b l] n]. destruct (0 <? n)%Z; [|by eexists].
  destruct (parseUrlParameters_ready u1 Hr1) as (u2 & -> & _). cbn [obind]. destruct (list_params _ _ _) as [[b' l'] n']. by eexists.
Qed.
Lemma built_header_params u : ready u -> exists t, buildHeaderParams u = Ok t.
Proof.
  intros Hr. unfold buildHeaderParams, getHeaderParameters. destruct (parseHeaders_ready u Hr) as (u1 & -> & Hr1 & _). cbn [obind].
  destruct (list_params _ _ _) as [[b l] n]. destruct (0 <? n)%Z; [|by eexists].
  destruct (parseHeaders_ready u1 Hr1) as (u2 & -> & _). cbn [obind]. destruct (list_params _ _ _) as [[b' l'] n']. by eexists.
Qed.

Lemma knows_new u ms vm lh : printable u -> exists c, knows (pcre_exec := pcre_exec) (SymbolMap_new u ms vm lh) c.
Proof.
  intros (Hr & Hq & Hh). destruct (Url_copy_ready u Hr) as [Hr' Hq']. specialize (Hq' Hq).
  destruct (toString_ready (pcre_exec := pcre_exec) (Url_copy u) Hr' Hq') as (u' & f & _ & _ & _ & Et).
  destruct (built_url_params _ Hr') as (ps & Ep). destruct (built_header_params _ Hr') as (hs & Eh).
  destruct (getHostWithPort u) as [host| | |] eqn:Eg; try discriminate Hh.
  eexists (mkParts _ (mUserId u) (escape (mUserId u)) host ps hs). split_and!; [eexists; exact Et| |exact Ep|exact Eh|by left..].
  change ((let! h := getHostWithPort u in Ok (mUserId u, escape (mUserId u), h)) = Ok (mUserId u, escape (mUserId u), host)). by rewrite Eg.
Qed.

(** What replace makes of a text, from the parts of the URI. *)
Definition replaced (value vdigits : list ascii) (s : SymbolMap) (c : parts) : list ascii :=
  let value := replace_if value XML_SYMBOL_MEDIASERVER (mReplacementMediaserver s) in
  let value := replace_if value XML_SYMBOL_VOICEMAIL (mReplacementVoicemail s) in
  let value := replace_if value XML_SYMBOL_LOCALHOST (mReplacementLocalhost s) in
  let value := replace_if value XML_SYMBOL_URI (p_uri c) in
  let value := replace_if value XML_SYMBOL_VDIGITS vdigits in
  let value := replace_if value XML_SYMBOL_VDIGITS_ESCAPED (escape vdigits) in
  let value :=
    match pcre_exec ComponentSymbols (cstr value) 0 with
    | None => value
    | Some _ =>
        replace_if (replace_if (replace_if (replace_if (replace_if value XML_SYMBOL_USER (p_user c)) XML_SYMBOL_USER_ESCAPED (p_userEscaped c))
          XML_SYMBOL_DIGITS (p_user c)) XML_SYMBOL_DIGITS_ESCAPED (p_userEscaped c)) XML_SYMBOL_HOST (p_host c)
    end in
  replace_if (replace_if value XML_SYMBOL_URLPARAMS (p_urlParams c)) XML_SYMBOL_HEADERPARAMS (p_headerParams c).

Lemma components_known value s c : knows (pcre_exec := pcre_exec) s c ->
  exists s', replace_components pcre_exec value s = Ok (match pcre_exec ComponentSymbols (cstr value) 0 with
    | None => value
    | Some _ =>
        replace_if (replace_if (replace_if (replace_if (replace_if value XML_SYMBOL_USER (p_user c)) XML_SYMBOL_USER_ESCAPED (p_userEscaped c))
          XML_SYMBOL_DIGITS (p_user c)) XML_SYMBOL_DIGITS_ESCAPED (p_userEscaped c)) XML_SYMBOL_HOST (p_host c)
    end, s') /\ knows (pcre_exec := pcre_exec) s' c /\ like s s'.
Proof.
  intros Hk. unfold replace_components. destruct (pcre_exec ComponentSymbols _ 0); [|by exists s].
  assert (match mComponents s with Some c0 => Ok c0 | None => buildComponents (mOriginalUrl s) end = Ok (p_user c, p_userEscaped c, p_host c)) as ->.
  { destruct Hk as (_ & Hb & _ & _ & [-> | ->] & _); done. }
  cbn [obind]. eexists. split; [done|]. split; [|done]. destruct Hk as (H1 & H2 & H3 & H4 & _ & H6). split_and!; try done; [by right|apply H6..].
Qed.

Lemma url_params_known value s c : knows (pcre_exec := pcre_exec) s c ->
  exists s', replace_url_params value s = Ok (replace_if value XML_SYMBOL_URLPARAMS (p_urlParams c), s') /\ knows (pcre_exec := pcre_exec) s' c /\ like s s'.
Proof.
  intros Hk. unfold replace_url_params, replace_if. destruct (contains _ _); [|by exists s].
  assert (match mUrlParams s with Some p => Ok p | None => buildUrlParams (mOriginalUrl s) end = Ok (p_urlParams c)) as ->.
  { destruct Hk as (_ & _ & Hb & _ & _ & [-> | ->] & _); done. }
  cbn [obind]. eexists. split; [done|]. split; [|done]. destruct Hk as (H1 & H2 & H3 & H4 & H5 & _ & H7). split_and!; try done. by right.
Qed.

Lemma header_params_known value s c : knows (pcre_exec := pcre_exec) s c ->
  exists s', replace_header_params value s = Ok (replace_if value XML_SYMBOL_HEADERPARAMS (p_headerParams c), s')
    /\ knows (pcre_exec := pcre_exec) s' c /\ like s s'.
Proof.
  intros Hk. unfold replace_header_params, replace_if. destruct (contains _ _); [|by exists s].
  assert (match mHeaderParams s with Some p => Ok p | None => buildHeaderParams (mOriginalUrl s) end = Ok (p_headerParams c)) as ->.
  { destruct Hk as (_ & _ & _ & Hb & _ & _ & [-> | ->]); done. }
  cbn [obind]. eexists. split; [done|]. split; [|done]. destruct Hk as (H1 & H2 & H3 & H4 & H5 & H6 & _). split_and!; try done. by right.
Qed.

Lemma replace_known value vdigits s c : knows (pcre_exec := pcre_exec) s c ->
  exists s', replace pcre_exec value vdigits s = Ok (replaced value vdigits s c, s') /\ knows (pcre_exec := pcre_exec) s' c /\ like s s'.
Proof.
  intros Hk. unfold replace. set (v3 := replace_if _ XML_SYMBOL_LOCALHOST _).
  assert ((if contains v3 XML_SYMBOL_URI then let! (replacementUri, _) := toString pcre_exec (mOriginalUrl s) in Ok (replaceEach v3 XML_SYMBOL_URI replacementUri)
    else Ok v3) = Ok (replace_if v3 XML_SYMBOL_URI (p_uri c))) as ->.
  { destruct Hk as ((u & ->) & _). cbn [obind]. unfold replace_if. by destruct (contains v3 _). }
  cbn [obind]. match goal with |- context [replace_components pcre_exec ?v s] => destruct (components_known v s c Hk) as (s1 & -> & Hk1 & L1) end.
  cbn [obind]. match goal with |- context [replace_url_params ?v s1] => destruct (url_params_known v s1 c Hk1) as (s2 & -> & Hk2 & L2) end.
  cbn [obind]. match goal with |- context [replace_header_params ?v s2] => destruct (header_params_known v s2 c Hk2) as (s3 & -> & Hk3 & L3) end.
  exists s3. split; [done|]. split; [done|]. by eapply like_trans, like_trans.
Qed.

(** ** Every element is taken *)

(** The text that an element gets, for a symbol map in which nothing is built. *)
Definition expand (symbols : SymbolMap) (vdigits text : list ascii) : list ascii :=
  match replace pcre_exec text vdigits symbols with Ok r => fst r | _ => [] end.

(** A url without double quotes, a field parameter with a name and a value
    that needs no quoting. *)
Definition harmless (symbols : SymbolMap) (vdigits : list ascii) (node : TiXmlNode) : Prop :=
  match kind_of node with
  | KUrl => forall text, first_text node = Some text ->
      DQUOTE ∉ expand symbols vdigits text /\ (Z.of_nat (length (expand symbols vdigits text)) <= ESCAPES_MAX)%Z
  | KFieldParams => let '(name, value) := getNamedAttribute node in cstr name <> [] /\ simple_value (cstr (expand symbols vdigits value))
  | _ => True
  end.

Lemma expand_replaced symbols s c vdigits text : knows (pcre_exec := pcre_exec) symbols c -> like symbols s ->
  expand symbols vdigits text = replaced text vdigits s c.
Proof.
  intros Hk (L1 & L2 & L3 & L4). unfold expand. destruct (replace_known text vdigits symbols c Hk) as (s' & -> & _). cbn [fst].
  unfold replaced. by rewrite L1, L2, L3.
Qed.

Lemma fromString_ready text u : ready u -> DQUOTE ∉ text -> (Z.of_nat (length text) <= ESCAPES_MAX)%Z ->
  exists u' t, fromString fill pcre_exec text NameAddr false u = Ok (u', t) /\ ready u' /\ quotable u'.
Proof.
  intros Hr Hq Hl. unfold fromString. rewrite ready_fresh by done. pose proof (length_cstr text). pose proof (cstr_nul_free text) as Hn.
  destruct (parse_sound fill (cstr text) NameAddr false) as (u' & t & E & Hs & _). exists u', t. split; [done|].
  split; [apply (parsed_ready fill _ _ _ _ _ Hn ltac:(lia) E Hs)|]. apply (parse_within fill) in E; [|done]. apply (wi_fields _ _ E).
  intros Hin. by apply Hq, elem_of_cstr.
Qed.

Lemma Url_of_string_returns s form : exists u, Url_of_string fill pcre_exec s form = Ok u.
Proof.
  unfold Url_of_string. destruct (cstr s) as [|c r]; [by eexists|].
  destruct (parse_sound fill (c :: r) form false) as (u & t & -> & _). by eexists.
Qed.

Lemma element_returns symbols0 c vdigits node state u symbols :
  knows (pcre_exec := pcre_exec) symbols0 c -> harmless symbols0 vdigits node ->
  knows (pcre_exec := pcre_exec) symbols c -> like symbols0 symbols -> ready u -> quotable u ->
  exists state' u' symbols', transform_element fill pcre_exec vdigits node state u symbols = Ok (state', u', symbols')
    /\ knows (pcre_exec := pcre_exec) symbols' c /\ like symbols0 symbols' /\ ready u' /\ quotable u'.
Proof.
  intros Hk0 Hn Hk Hl Hr Hq. unfold transform_element. unfold harmless, kind_of in Hn.
  assert (forall text, exists s', replace pcre_exec text vdigits symbols = Ok (expand symbols0 vdigits text, s')
    /\ knows (pcre_exec := pcre_exec) s' c /\ like symbols0 s') as Hrep.
  { intros text. destruct (replace_known text vdigits symbols c Hk) as (s' & E & Hk' & Hl'). exists s'.
    rewrite E, (expand_replaced symbols0 symbols c) by done. split; [done|]. split; [done|]. by eapply like_trans. }
  destruct (bool_decide (Value node = bytes "url")) eqn:T1.
  { apply bool_decide_eq_true in T1. rewrite T1. tags. rewrite andb_true_r, !andb_false_r. destruct (rank state =? 0); cbn [andb].
    - destruct (first_text node) as [text|]; [|by eauto 8]. destruct (Hn text eq_refl) as [Hd Hlen].
      destruct (Hrep text) as (s' & -> & Hk' & Hl'). cbn [obind].
      destruct (fromString_ready _ u Hr Hd Hlen) as (u' & t & -> & Hr' & Hq'). cbn [obind]. eauto 10.
    - destruct (getNamedAttribute node). eauto 8. }
  rewrite andb_false_r. destruct (_ && bool_decide (Value node = bytes "user")) eqn:T2.
  { destruct (first_text node) as [text|]; [|by eauto 8]. destruct (Hrep text) as (s' & -> & Hk' & Hl'). cbn [obind].
    eexists _, _, s'. split; [done|]. split_and!; [done|done| |done]. destruct Hr. by split. }
  destruct (_ && bool_decide (Value node = bytes "host")) eqn:T3.
  { destruct (first_text node) as [text|]; [|by eauto 8]. destruct (Hrep text) as (s' & -> & Hk' & Hl'). cbn [obind].
    destruct (Url_of_string_returns (expand symbols0 vdigits text) NameAddr) as (h & ->). cbn [obind].
    set (u1 := setHostPort _ _). assert (ready u1) as Hr1 by (destruct Hr; by split).
    destruct (removeUrlParameter_ready (bytes "transport") u1 Hr1) as (u2 & -> & Hr2 & Hc2). cbn [obind].
    eexists _, u2, s'. split; [done|]. split_and!; [done|done|done|]. apply (core_fields _ _ Hc2). done. }
  destruct (getNamedAttribute node) as [name value]. destruct (Hrep value) as (s' & Er & Hk' & Hl').
  destruct (_ && bool_decide (Value node = bytes "urlparams")) eqn:T4.
  { rewrite Er. cbn [obind]. destruct (setUrlParameter_ready (cstr name) (Some (cstr (expand symbols0 vdigits value))) u Hr) as (u' & -> & Hr' & Hc').
    cbn [obind]. eexists _, u', s'. split; [done|]. split_and!; [done..|]. by apply (core_fields _ _ Hc'). }
  destruct (_ && bool_decide (Value node = bytes "headerparams")) eqn:T5.
  { rewrite Er. cbn [obind]. destruct (setHeaderParameter_ready (cstr name) (Some (cstr (expand symbols0 vdigits value))) u Hr) as (u' & -> & Hr' & Hc').
    cbn [obind]. eexists _, u', s'. split; [done|]. split_and!; [done..|]. by apply (core_fields _ _ Hc'). }
  destruct (_ && bool_decide (Value node = bytes "fieldparams")) eqn:T6; [|by eauto 8].
  apply andb_true_iff in T6 as [_ T6]. apply bool_decide_eq_true in T6. rewrite T6 in Hn. revert Hn. tags. intros [Hname Hval]. rewrite Er. cbn [obind].
  destruct (setFieldParameter_ready (cstr name) (cstr (expand symbols0 vdigits value)) u Hname Hval Hr Hq) as (u' & -> & Hr' & Hq').
  cbn [obind]. eauto 10.
Qed.

Lemma loop_returns symbols0 c vdigits nodes :
  knows (pcre_exec := pcre_exec) symbols0 c -> Forall (harmless symbols0 vdigits) (elements nodes) ->
  forall state u symbols, knows (pcre_exec := pcre_exec) symbols c -> like symbols0 symbols -> ready u -> quotable u ->
  exists state' u' symbols', transform_loop fill pcre_exec vdigits nodes state u symbols = Ok (state', u', symbols')
    /\ knows (pcre_exec := pcre_exec) symbols' c /\ like symbols0 symbols' /\ ready u' /\ quotable u'.
Proof.
  intros Hk0. induction nodes as [|n nodes IH]; intros Hn state u symbols Hk Hl Hr Hq; [by eauto 8|].
  cbn [transform_loop]. rewrite elements_cons in Hn. destruct (is_element n); [|by apply IH]. inversion Hn as [|? ? Hn1 Hns]; subst.
  destruct (element_returns symbols0 c vdigits n state u symbols) as (st1 & u1 & y1 & -> & Hk1 & Hl1 & Hr1 & Hq1); [done..|]. cbn [obind].
  destruct (_ <? _); [by apply IH|by eauto 8].
Qed.

(** ** What the elements make of the request *)

(** One element: the complete address, or another user, another host and port
    (without the transport of the old one), another parameter. *)
Definition edit (symbols : SymbolMap) (vdigits : list ascii) (node : TiXmlNode) (u : Url) : outcome Url :=
  let text := expand symbols vdigits (default [] (first_text node)) in
  let '(name, value) := getNamedAttribute node in
  let value := expand symbols vdigits value in
  match kind_of node with
  | KUrl => let! (u, _) := fromString fill pcre_exec text NameAddr false u in Ok u
  | KUser => Ok (setUserId (Some (cstr text)) u)
  | KHost =>
      let! h := Url_of_string fill pcre_exec text NameAddr in
      removeUrlParameter (bytes "transport") (setHostPort (mHostPort h) (setHostAddress (Some (cstr (mHostAddress h))) u))
  | KUrlParams => setUrlParameter (cstr name) (Some (cstr value)) u
  | KHeaderParams => setHeaderParameter (cstr name) (Some (cstr value)) u
  | KFieldParams => setFieldParameter (cstr name) (Some (cstr value)) u
  | KOther => Ok u
  end.
Fixpoint edits (symbols : SymbolMap) (vdigits : list ascii) (nodes : list TiXmlNode) (u : Url) : outcome Url :=
  match nodes with
  | [] => Ok u
  | node :: nodes' => let! u := edit symbols vdigits node u in edits symbols vdigits nodes' u
  end.

(** The contact of a transform, if it has one: the request URI edited by the
    elements, if they follow the schema, and if a url alone has a scheme. *)
Inductive contact_of (symbols : SymbolMap) (requestUri : Url) (vdigits : list ascii) (node : TiXmlNode) : option (list ascii) -> Prop :=
| contact_edited u contact u' :
    schema (kinds (children node)) -> edits symbols vdigits (elements (children node)) (Url_copy requestUri) = Ok u ->
    kinds (children node) <> [KUrl] \/ mScheme u <> UnknownUrlScheme -> toString pcre_exec u = Ok (contact, u') ->
    contact_of symbols requestUri vdigits node (Some contact)
| contact_not_parsed u :
    kinds (children node) = [KUrl] -> edits symbols vdigits (elements (children node)) (Url_copy requestUri) = Ok u ->
    mScheme u = UnknownUrlScheme -> contact_of symbols requestUri vdigits node None
| contact_out_of_order : ~ schema (kinds (children node)) -> contact_of symbols requestUri vdigits node None.

(** The state after an element in its place. *)
Definition settle (state : TransformState) (k : kind) (u : Url) : TransformState :=
  match k with KUrl => if parse_ok u then FullUrlTransformed else TransformError | _ => next state k end.

Lemma element_edits symbols0 c vdigits node state u symbols :
  knows (pcre_exec := pcre_exec) symbols0 c -> has_text node -> harmless symbols0 vdigits node ->
  knows (pcre_exec := pcre_exec) symbols c -> like symbols0 symbols -> ready u -> quotable u -> next state (kind_of node) <> TransformError ->
  exists u' symbols', transform_element fill pcre_exec vdigits node state u symbols = Ok (settle state (kind_of node) u', u', symbols')
    /\ edit symbols0 vdigits node u = Ok u'
    /\ knows (pcre_exec := pcre_exec) symbols' c /\ like symbols0 symbols' /\ ready u' /\ quotable u'.
Proof.
  intros Hk0 (text & Ht) Hn Hk Hl Hr Hq Hok.
  destruct (element_returns symbols0 c vdigits node state u symbols) as (st1 & u1 & y1 & E & Hk1 & Hl1 & Hr1 & Hq1); [done..|].
  exists u1, y1. enough (st1 = settle state (kind_of node) u1 /\ edit symbols0 vdigits node u = Ok u1) as [-> He] by done.
  assert (forall t, exists s', replace pcre_exec t vdigits symbols = Ok (expand symbols0 vdigits t, s')) as Hrep.
  { intros t. destruct (replace_known t vdigits symbols c Hk) as (s' & E' & _). exists s'. by rewrite E', (expand_replaced symbols0 symbols c). }
  clear Hn. revert Hok E. unfold transform_element, edit, kind_of. rewrite Ht. cbn [default].
  destruct (getNamedAttribute node) as [name value]. destruct (Hrep text) as (s1 & ->). destruct (Hrep value) as (s2 & ->).
  destruct (decide (Value node = bytes "url")) as [-> |N1]; [tags|destruct (decide (Value node = bytes "user")) as [-> |N2]; [tags|
    destruct (decide (Value node = bytes "host")) as [-> |N3]; [tags|destruct (decide (Value node = bytes "urlparams")) as [-> |N4]; [tags|
    destruct (decide (Value node = bytes "headerparams")) as [-> |N5]; [tags|destruct (decide (Value node = bytes "fieldparams")) as [-> |N6]; [tags|]]]]]];
    rewrite ?bool_decide_false by done; rewrite ?andb_true_r, ?andb_false_r; cbn [next settle obind id]; unfold id; cbn [rank].
  - destruct (rank state =? 0); [|done]. intros _. destruct (fromString _ _ _ _ _ _) as [[u2 t]| | |]; try done. cbn [obind]. by intros [= <- <- <-].
  - destruct (rank state <? 1); [|done]. intros _. by intros [= <- <- <-].
  - destruct (rank state <? 2); [|done]. intros _. destruct (Url_of_string _ _ _ _) as [h| | |]; try done. cbn [obind].
    destruct (removeUrlParameter _ _); try done. cbn [obind]. by intros [= <- <- <-].
  - destruct (rank state <=? 3); [|done]. intros _. destruct (setUrlParameter _ _ _); try done. cbn [obind]. by intros [= <- <- <-].
  - destruct (rank state <=? 4); [|done]. intros _. destruct (setHeaderParameter _ _ _); try done. cbn [obind]. by intros [= <- <- <-].
  - destruct (rank state <=? 5); [|done]. intros _. destruct (setFieldParameter _ _ _); try done. cbn [obind]. by intros [= <- <- <-].
  - done.
Qed.

Abbreviation fine symbols vdigits := (fun e => has_text e /\ harmless symbols vdigits e).

Lemma loop_edits symbols0 c vdigits nodes :
  knows (pcre_exec := pcre_exec) symbols0 c -> Forall (fine symbols0 vdigits) (elements nodes) -> KUrl ∉ kinds nodes ->
  forall state u symbols, accepted state (kinds nodes) ->
  knows (pcre_exec := pcre_exec) symbols c -> like symbols0 symbols -> ready u -> quotable u ->
  exists state' u' symbols', transform_loop fill pcre_exec vdigits nodes state u symbols = Ok (state', u', symbols')
    /\ (rank state' <? rank TransformError) = true /\ edits symbols0 vdigits (elements nodes) u = Ok u'
    /\ knows (pcre_exec := pcre_exec) symbols' c /\ like symbols0 symbols' /\ ready u' /\ quotable u'.
Proof.
  intros Hk0. unfold kinds. induction nodes as [|n nodes IH]; intros Hn Hu state u symbols Ha Hk Hl Hr Hq.
  { eexists _, _, _. split; [done|]. split; [|by split_and!]. destruct (_ <? _) eqn:R; [done|]. by apply rank_error in R. }
  cbn [transform_loop]. rewrite elements_cons in Hn, Hu, Ha |- *. destruct (is_element n); [|by apply IH]. cbn [app edits] in *.
  apply Forall_cons in Hn as [[Hn1 Hn2] Hns]. rewrite fmap_cons in Hu, Ha. unfold accepted in Ha. cbn [foldl] in Ha.
  assert (next state (kind_of n) <> TransformError) as Hne by (intros He; rewrite He, error_stays in Ha; done).
  assert (kind_of n <> KUrl) as Hk' by (intros E; apply Hu; rewrite E; apply list_elem_of_here).
  destruct (element_edits symbols0 c vdigits n state u symbols) as (u1 & y1 & -> & -> & Hk1 & Hl1 & Hr1 & Hq1); [done..|]. cbn [obind].
  assert (settle state (kind_of n) u1 = next state (kind_of n)) as -> by (by destruct (kind_of n)).
  destruct (_ <? _) eqn:R; [|by apply rank_error in R]. apply IH; try done. intros Hin. apply Hu. by apply list_elem_of_further.
Qed.

Lemma kinds_single nodes : kinds nodes = [KUrl] -> exists e, elements nodes = [e] /\ kind_of e = KUrl.
Proof. unfold kinds. destruct (elements nodes) as [|e [|]]; try done. intros [= E]. by exists e. Qed.

(** The loop, when the first element is the only one. *)
Lemma loop_single vdigits nodes e : elements nodes = [e] -> forall state u symbols r,
  transform_element fill pcre_exec vdigits e state u symbols = Ok r -> transform_loop fill pcre_exec vdigits nodes state u symbols = Ok r.
Proof.
  induction nodes as [|n nodes IH]; intros He state u symbols r E; [done|]. cbn [transform_loop]. rewrite elements_cons in He.
  destruct (is_element n); [|by apply IH]. injection He as -> He. rewrite E. destruct r as [[state1 u1] y1]. cbn [obind].
  destruct (_ <? _); [|done]. clear -He. induction nodes as [|n nodes IH]; [done|]. rewrite elements_cons in He. cbn [transform_loop].
  destruct (is_element n); [done|by apply IH].
Qed.

Lemma schema_or_not ks : schema ks \/ ~ schema ks.
Proof. rewrite <- accepted_schema. unfold accepted. destruct (foldl next NoTransformsApplied ks); (by left) || (right; auto). Qed.

(** Elements out of order end in the error state. *)
Lemma loop_rejected symbols0 c vdigits nodes u symbols :
  knows (pcre_exec := pcre_exec) symbols0 c -> Forall (fine symbols0 vdigits) (elements nodes) -> ~ schema (kinds nodes) ->
  knows (pcre_exec := pcre_exec) symbols c -> like symbols0 symbols -> ready u -> quotable u ->
  exists u' symbols', transform_loop fill pcre_exec vdigits nodes NoTransformsApplied u symbols = Ok (TransformError, u', symbols')
    /\ knows (pcre_exec := pcre_exec) symbols' c /\ like symbols0 symbols'.
Proof.
  intros Hk0 Hn Hns Hk Hl Hr Hq.
  assert (Forall has_text (elements nodes) /\ Forall (harmless symbols0 vdigits) (elements nodes)) as [Hn1 Hn2]
    by (split; (eapply Forall_impl; [exact Hn|]; by intros e [? ?])).
  destruct (loop_returns symbols0 c vdigits nodes Hk0 Hn2 NoTransformsApplied u symbols) as (st1 & u1 & y1 & E & Hk1 & Hl1 & _); [done..|].
  exists u1, y1. enough (st1 = TransformError) as -> by done.
  destruct (loop_next _ _ _ _ Hn1 _ _ _ _ _ _ E) as [Hs|[_ ?]]; [|done]. rewrite <- accepted_schema in Hns. unfold accepted in Hns.
  rewrite Hs. destruct (foldl next NoTransformsApplied (kinds nodes)); (done || (exfalso; by apply Hns)).
Qed.

(** One transform: whether it gives a contact, and which. *)
Lemma transform_contact symbols0 c requestUri vdigits node symbols :
  ready requestUri -> quotable requestUri -> knows (pcre_exec := pcre_exec) symbols0 c ->
  Forall (fine symbols0 vdigits) (elements (children node)) -> knows (pcre_exec := pcre_exec) symbols c -> like symbols0 symbols ->
  exists state u symbols', transform_loop fill pcre_exec vdigits (children node) NoTransformsApplied (Url_copy requestUri) symbols = Ok (state, u, symbols')
    /\ knows (pcre_exec := pcre_exec) symbols' c /\ like symbols0 symbols'
    /\ if rank state <? rank TransformError
       then exists contact u', toString pcre_exec u = Ok (contact, u') /\ contact_of symbols0 requestUri vdigits node (Some contact)
       else contact_of symbols0 requestUri vdigits node None.
Proof.
  intros Hr Hq Hk0 Hn Hk Hl. destruct (Url_copy_ready requestUri Hr) as [Hrc Hqc]. specialize (Hqc Hq).
  assert (forall v, ready v -> quotable v -> exists contact u', toString pcre_exec v = Ok (contact, u')) as Hprint.
  { intros v Hv Hv'. destruct (toString_ready (pcre_exec := pcre_exec) v Hv Hv') as (u3 & g & _ & _ & _ & ->). eauto. }
  destruct (schema_or_not (kinds (children node))) as [Hs|Hs].
  2:{ destruct (loop_rejected symbols0 c vdigits (children node) (Url_copy requestUri) symbols) as (u1 & y1 & E & Hk1 & Hl1); [done..|].
      eexists _, u1, y1. split_and!; [exact E|done..|]. by apply contact_out_of_order. }
  destruct (decide (KUrl ∈ kinds (children node))) as [Hin|Hin].
  - pose proof (url_alone _ Hs Hin) as Eks. destruct (kinds_single _ Eks) as (e & Ee & Ek). rewrite Ee in Hn. apply Forall_singleton in Hn as [Hn1 Hn2].
    destruct (element_edits symbols0 c vdigits e NoTransformsApplied (Url_copy requestUri) symbols)
      as (u1 & y1 & E1 & Ed & Hk1 & Hl1 & Hr1 & Hq1); [done..|by rewrite Ek|]. rewrite Ek in E1. cbn [settle] in E1.
    eexists _, u1, y1. split; [by apply (loop_single _ _ e)|]. split_and!; try done.
    assert (edits symbols0 vdigits (elements (children node)) (Url_copy requestUri) = Ok u1) as Hed by (rewrite Ee; cbn [edits]; by rewrite Ed).
    unfold parse_ok. destruct (decide (mScheme u1 = UnknownUrlScheme)) as [Esc|Esc].
    + rewrite bool_decide_false by auto. by apply contact_not_parsed with u1.
    + rewrite bool_decide_true by done. destruct (Hprint u1 Hr1 Hq1) as (contact & u' & Et).
      exists contact, u'. split; [done|]. apply contact_edited with u1 u'; [done|exact Hed|by right|exact Et].
  - destruct (loop_edits symbols0 c vdigits (children node) Hk0 Hn Hin NoTransformsApplied (Url_copy requestUri) symbols)
      as (st1 & u1 & y1 & E & R & Hed & Hk1 & Hl1 & Hr1 & Hq1); [by apply accepted_schema|done..|].
    exists st1, u1, y1. split_and!; try done. rewrite R. destruct (Hprint u1 Hr1 Hq1) as (contact & u' & Et).
    exists contact, u'. split; [done|]. apply contact_edited with u1 u'; try done. left. intros Ek. apply Hin. rewrite Ek. apply list_elem_of_here.
Qed.

Lemma transforms_contacts symbols0 c requestUri vdigits uri u0 nodes :
  ready requestUri -> quotable requestUri -> toString pcre_exec requestUri = Ok (uri, u0) -> knows (pcre_exec := pcre_exec) symbols0 c ->
  Forall (fun n => Forall (fine symbols0 vdigits) (elements (children n))) nodes ->
  forall symbols contacts status, knows (pcre_exec := pcre_exec) symbols c -> like symbols0 symbols ->
  exists cs, Forall2 (contact_of symbols0 requestUri vdigits) (elements nodes) cs
    /\ transforms fill pcre_exec requestUri vdigits nodes symbols contacts status
       = Ok (match omap id cs with [] => status | _ => OS_SUCCESS end, contacts ++ (contact_row uri <$> omap id cs)).
Proof.
  intros Hr Hq Eu Hk0 Hn. induction Hn as [|n nodes Hn Hns IH]; intros symbols contacts status Hk Hl.
  { exists []. split; [constructor|]. simpl. by rewrite app_nil_r. }
  cbn [transforms]. rewrite elements_cons. destruct (is_element n); [|by apply IH].
  destruct (transform_contact symbols0 c requestUri vdigits n symbols) as (st & u & y & -> & Hk1 & Hl1 & Hc); [done..|]. cbn [obind].
  destruct (_ <? _).
  - destruct Hc as (contact & u' & Et & Hc). rewrite Eu, Et. cbn [obind].
    destruct (IH y (addValue (contact_row uri contact) contacts) OS_SUCCESS Hk1 Hl1) as (cs & Hcs & ->). exists (Some contact :: cs).
    split; [by constructor|]. unfold addValue. rewrite <- app_assoc.
    change (omap id (Some contact :: cs)) with (contact :: omap id cs). rewrite fmap_cons. by destruct (omap id cs).
  - destruct (IH y contacts status Hk1 Hl1) as (cs & Hcs & ->). exists (None :: cs). split; [by constructor|done].
Qed.

(** C21: doTransform returns for every request URI that can be printed and every
    rule whose elements have text and are harmless (a url without double
    quotes and not too long, a field parameter with a name and a value that
    needs no quoting), without undefined behaviour.  Every transform of the
    rule gives the contact that urlmap.xsd describes ([contact_of]), in order:
    the request URI with the user, the host and port, and the parameters of
    its elements, or the complete url, after the symbols are replaced, as it
    prints; the host also takes the transport parameter away.  A transform
    whose elements are not in the order of the schema gives none, and neither
    does a url whose scheme is not known.  The contacts are added to those
    there are, and the status tells whether there are any. *)
Theorem contacts_follow_schema this requestUri vdigits contacts permMatchNode :
  let nodes := children_named (bytes "transform") permMatchNode in
  let symbols := SymbolMap_new requestUri (mMediaServer this) (mVoicemail this) (mLocalhost this) in
  printable requestUri ->
  Forall (fun n => Forall (fun e => has_text e /\ harmless symbols vdigits e) (elements (children n))) nodes ->
  exists uri u cs, toString pcre_exec requestUri = Ok (uri, u)
    /\ Forall2 (contact_of symbols requestUri vdigits) (elements nodes) cs
    /\ doTransform fill pcre_exec this requestUri vdigits contacts permMatchNode
       = Ok (match omap id cs with [] => OS_FAILED | _ => OS_SUCCESS end, contacts ++ (contact_row uri <$> omap id cs)).
Proof.
  intros nodes symbols Hu Hn. destruct (knows_new requestUri (mMediaServer this) (mVoicemail this) (mLocalhost this) Hu) as (c & Hk).
  fold symbols in Hk. destruct Hu as (Hr & Hq & _).
  destruct (toString_ready (pcre_exec := pcre_exec) requestUri Hr Hq) as (u & f & _ & _ & _ & Eu). cbv zeta in Eu.
  destruct (transforms_contacts symbols c requestUri vdigits _ _ nodes Hr Hq Eu Hk Hn symbols contacts OS_FAILED Hk (like_refl _)) as (cs & Hcs & E).
  eexists _, _, cs. split; [exact Eu|]. split; [exact Hcs|exact E].
Qed.
End Total.

(** ** Examples *)

Module ContactExamples.
Definition fill0 (n : nat) : ascii := NUL.
Definition request : Url := mkUrl SipUrlScheme [] (bytes "9#1") [] false (bytes "example.org") 5080 [] [] None [] None None false.
Definition symbols : SymbolMap := SymbolMap_new request (bytes "ms.example.org") [] (bytes "lh").
#[local] Instance library : Pcre search := search_Pcre 200.

Definition el (tag : string) (t : string) : TiXmlNode := ELEMENT (bytes tag) [] [TEXT (bytes t)].
Definition rule : TiXmlNode :=
  ELEMENT (bytes "permissionMatch") []
    [ELEMENT (bytes "transform") [] [el "user" "{vdigits}"; COMMENT []; el "host" "gw.example.org"; el "urlparams" "q=1"; el "urlparams" "r=2"];
     ELEMENT (bytes "transform") [] [el "host" "a.example.org"; el "user" "b"];
     ELEMENT (bytes "transform") [] [el "url" "<sip:{digits-escaped}@vm.example.org>"]].
Definition no_texts : UrlMapping := mkMapping None None [] [] [].
Notation result := (doTransform fill0 search no_texts request (bytes "1") [] rule).

Lemma contacts_follow_schema_witness :
  exists uri u cs, toString search request = Ok (uri, u)
    /\ Forall2 (contact_of fill0 (pcre_exec := search) (SymbolMap_new request [] [] []) request (bytes "1"))
         (elements (children_named (bytes "transform") rule)) cs
    /\ result = Ok (match omap id cs with [] => OS_FAILED | _ => OS_SUCCESS end, contact_row uri <$> omap id cs).
Proof.
  apply (contacts_follow_schema fill0 (pcre_exec := search) no_texts request (bytes "1") [] rule).
  - split_and!; [split; (split; [constructor|vm_compute; discriminate])|constructor|reflexivity].
  - repeat (apply Forall_cons; split; [repeat (apply Forall_cons; split; [split; [eexists; vm_compute; reflexivity|]|]); try apply Forall_nil; try exact I|]);
      try apply Forall_nil; try exact I.
    intros text E. vm_compute in E. injection E as <-.
    split; [apply (bool_decide_eq_true_1 (DQUOTE ∉ _)); vm_compute; reflexivity|vm_compute; discriminate].
Defined.

(** The contacts: the first and the last transform; the second has its
    elements in the wrong order. *)
Example contacts_of_rule :
  (let! r := result in Ok (snd r ≫= filter (fun kv => fst kv = bytes "contact")))
  = Ok [(bytes "contact", VString (bytes "<sip:1@gw.example.org;q=1;r=2>")); (bytes "contact", VString (bytes "sip:9%231@vm.example.org"))].
Proof. vm_compute. reflexivity. Qed.

(** Loading a second file doubles the replacement texts. *)
Example reload_appends :
  let load := loadMappings (fun _ => (true, [])) (bytes "f") (bytes "ms") (bytes "vm") (bytes "lh") in
  mVoicemail (snd (load (snd (load UrlMapping_new)))) = bytes "vmvm".
Proof. done. Qed.

(** A fieldparams element without a name fails an assertion. *)
Example nameless_field : 
  transform_element fill0 search [] (el "fieldparams" "=1") NoTransformsApplied request symbols = AssertFail.
Proof. vm_compute. reflexivity. Qed.

(** A text node that reads permission is taken for an element, an empty
    ruleType for one with a child. *)
Example stray_permission : auth_perm_loop [] [ELEMENT (bytes "permissionMatch") [] [TEXT (bytes "permission")]] [] = UB.
Proof. done. Qed.
Example empty_rule_type : rule_type_ok (Some (bytes "Emergency")) (ELEMENT (bytes "hostMatch") [] [ELEMENT (bytes "ruleType") [] []]) = UB.
Proof. done. Qed.
End ContactExamples.
