(* ===== verification/ForwardRules.v ===== *)
(** * Forwarding rules of the proxy

    [sipXproxy/src/ForwardRules.cpp]: the file forwardingrules.xml says which
    server a request is sent to, by the host of its URI, its method and one of
    its header fields. *)
From Stdlib Require Import ZArith Lia Ascii String.
From stdpp Require Import base list strings gmap.
From S2P Require Import Prelude UtlString UtlStringRefine NameValuePair HttpMessage Format Pcre PcreText Patterns TinyXml UrlCodec Url.
From S2P Require Import RouteStateMsg UrlMapping.
Local Open Scope Z_scope.

Definition tagged (tag : string) (n : TiXmlNode) : bool := bool_decide (Value n = bytes tag).

(** The reference arguments of getRoute *)
Record Route := mkRoute { r_routeTo : list ascii; r_mappingType : list ascii; r_authRequired : bool; r_ruriParams : list ascii }.

Definition getYN (boolText : option (list ascii)) (defaultValue : bool) : bool :=
  match boolText with
  | Some (c :: _) =>
      if bool_decide (c ∈ ["y"; "Y"; "T"; "t"; "1"]%char) then true
      else if bool_decide (c ∈ ["n"; "N"; "F"; "f"; "0"]%char) then false
      else defaultValue
  | _ => defaultValue
  end.

(** getRouteTo: the arguments are set also where it fails *)
Definition getRouteTo (nodeWithRouteToChild : TiXmlNode) (r : Route) : OsStatus * Route :=
  match FirstChild_named (bytes "routeTo") (children nodeWithRouteToChild) with
  | None => (OS_FAILED, r)
  | Some routeToNode =>
      if is_element routeToNode then
        let authRequired := getYN (Attribute (bytes "authRequired") routeToNode) false in
        let ruriParams := default [] (Attribute (bytes "ruriParams") routeToNode) in
        let routeTo := strip_spec is_blank both (default [] (first_text routeToNode)) in
        (if bool_decide (routeTo <> []) || authRequired then OS_SUCCESS else OS_FAILED,
         mkRoute routeTo (r_mappingType r) authRequired ruriParams)
      else (OS_FAILED, r)
  end.

Section Rules.
Context (fill : nat -> ascii) (pcre_exec : pat -> list ascii -> nat -> option Match) (compile : bool -> list ascii -> option pat).

(** RegEx::RegEx(text, PCRE_ANCHORED), for searches from the beginning *)
Definition RegEx_anchored (text : list ascii) : outcome pat :=
  let! p := RegEx_new compile false text in Ok (PSeq PBol p).

(** The loop over the fieldPatterns of a fieldMatch: whether one was found,
    now or before.  For an expression that does not compile RegEx throws the
    text of a string that is destroyed by then, and the handler logs it; a text
    node that reads fieldPattern is no element. *)
Fixpoint field_patterns (fieldValue : list ascii) (nodes : list TiXmlNode) (fieldPatternFound : bool) : outcome bool :=
  match nodes with
  | [] => Ok fieldPatternFound
  | node :: nodes' =>
      if is_element node then
        let! found :=
          match children node with
          | [] => Ok false
          | text :: _ =>
              match RegEx_anchored (Value text) with
              | Ok p => Ok (match pcre_exec p (cstr fieldValue) 0 with Some _ => true | None => false end)
              | _ => UB
              end
          end in
        field_patterns fieldValue nodes' (found || fieldPatternFound)
      else UB
  end.

(** The loop of parseFieldMatchContainer; fieldPatternFound is declared
    outside of it *)
Fixpoint field_matches (headers : list NameValuePair) (nodes : list TiXmlNode) (fieldPatternFound : bool) (r : Route)
    : outcome (OsStatus * Route) :=
  match nodes with
  | [] => Ok (OS_FAILED, r)
  | node :: nodes' =>
      if is_element node && tagged "fieldMatch" node then
        let! (fieldNameMatches, noFieldPatternRequired, fieldValue) :=
          match Attribute (bytes "fieldName") node with
          | None => Ok (false, true, [])
          | Some [] => Ok (false, false, [])
          | Some fieldNameXml =>
              let! v := getHeaderValue headers 0 (Some fieldNameXml) in
              Ok (match v with Some v => (true, false, v) | None => (false, false, []) end)
          end in
        let fieldPatterns := if fieldNameMatches && negb noFieldPatternRequired then children_named (bytes "fieldPattern") node else [] in
        let! fieldPatternFound := field_patterns fieldValue fieldPatterns fieldPatternFound in
        let fieldPatternPresent := bool_decide (fieldPatterns <> []) in
        if (fieldNameMatches && (fieldPatternFound || negb fieldPatternPresent)) || noFieldPatternRequired then
          let '(status, r) := getRouteTo node r in
          if decide (status = OS_SUCCESS) then Ok (OS_SUCCESS, r) else field_matches headers nodes' fieldPatternFound r
        else field_matches headers nodes' fieldPatternFound r
      else field_matches headers nodes' fieldPatternFound r
  end.
Definition parseFieldMatchContainer (headers : list NameValuePair) (methodMatchNode : TiXmlNode) (r : Route) : outcome (OsStatus * Route) :=
  field_matches headers (children methodMatchNode) false r.

(** The loop over the methodPatterns of a methodMatch *)
Fixpoint method_patterns (headers : list NameValuePair) (method : list ascii) (methodMatchNode : TiXmlNode) (nodes : list TiXmlNode) (r : Route)
    : outcome (OsStatus * Route) :=
  match nodes with
  | [] => Ok (OS_FAILED, r)
  | node :: nodes' =>
      match first_text node with
      | Some methodString =>
          if strcasecmp methodString method =? 0 then
            let! (status, r) := parseFieldMatchContainer headers methodMatchNode r in
            if decide (status = OS_SUCCESS) then Ok (OS_SUCCESS, r)
            else
              let '(status, r) := getRouteTo methodMatchNode r in
              if decide (status = OS_SUCCESS) then Ok (OS_SUCCESS, r)
              else method_patterns headers method methodMatchNode nodes' r
          else method_patterns headers method methodMatchNode nodes' r
      | None => method_patterns headers method methodMatchNode nodes' r
      end
  end.
Fixpoint method_matches (headers : list NameValuePair) (method : list ascii) (nodes : list TiXmlNode) (r : Route) : outcome (OsStatus * Route) :=
  match nodes with
  | [] => Ok (OS_FAILED, r)
  | node :: nodes' =>
      if is_element node && tagged "methodMatch" node then
        let! (status, r) := method_patterns headers method node (children_named (bytes "methodPattern") node) r in
        if decide (status = OS_SUCCESS) then Ok (OS_SUCCESS, r) else method_matches headers method nodes' r
      else method_matches headers method nodes' r
  end.
Definition parseMethodMatchContainer (request : SipMessage) (routeMatchNode : TiXmlNode) (r : Route) : outcome (OsStatus * Route) :=
  let! (status, r) := method_matches (mNameValues request) (getRequestMethod request) (children routeMatchNode) r in
  if decide (status = OS_FAILED) then Ok (getRouteTo routeMatchNode r) else Ok (status, r).

(** Whether an element of a route matches the host: [None] for an element that
    is no pattern or has no text.  A routeFrom leaves routeMatchFound as it is
    where it does not match; the other two set it. *)
Definition route_pattern (testHost : list ascii) (testPort : Z) (node : TiXmlNode) (routeMatchFound : bool) (patterns : Patterns)
    : outcome (option bool * Patterns) :=
  match first_text node with
  | None => Ok (None, patterns)
  | Some pattern =>
      if tagged "routeFrom" node then
        let! xmlUrl := Url_of_string fill pcre_exec pattern NameAddr in
        let xmlPort := mHostPort xmlUrl in
        let matches := (strcasecmp (mHostAddress xmlUrl) testHost =? 0)
                       && (((xmlPort =? SIP_PORT) && (testPort =? PORT_NONE)) || (xmlPort =? testPort)) in
        Ok (Some (matches || routeMatchFound), patterns)
      else if tagged "routeIPv4subnet" node then
        let! b := IPv4subnet testHost pattern in Ok (Some b, patterns)
      else if tagged "routeDnsWildcard" node then
        let! (b, patterns) := DnsWildcard compile pcre_exec patterns testHost pattern in Ok (Some b, patterns)
      else Ok (None, patterns)
  end.

(** What is carried through the loops: routeMatchFound, the arguments and the
    compiled wildcards *)
Fixpoint route_patterns (request : SipMessage) (testHost : list ascii) (testPort : Z) (routeMatchNode : TiXmlNode) (nodes : list TiXmlNode)
    (routeMatchFound : bool) (r : Route) (patterns : Patterns) : outcome (OsStatus * bool * Route * Patterns) :=
  match nodes with
  | [] => Ok (OS_FAILED, routeMatchFound, r, patterns)
  | node :: nodes' =>
      let! (m, patterns) := route_pattern testHost testPort node routeMatchFound patterns in
      match m with
      | Some true =>
          let! (status, r) := parseMethodMatchContainer request routeMatchNode r in
          if decide (status = OS_SUCCESS) then Ok (OS_SUCCESS, true, r, patterns)
          else route_patterns request testHost testPort routeMatchNode nodes' true r patterns
      | Some false => route_patterns request testHost testPort routeMatchNode nodes' false r patterns
      | None => route_patterns request testHost testPort routeMatchNode nodes' routeMatchFound r patterns
      end
  end.

Fixpoint routes_loop (request : SipMessage) (testHost : list ascii) (testPort : Z) (nodes : list TiXmlNode)
    (routeMatchFound : bool) (r : Route) (patterns : Patterns) : outcome (OsStatus * Route * Patterns) :=
  match nodes with
  | [] => Ok (OS_FAILED, r, patterns)
  | node :: nodes' =>
      if is_element node && tagged "route" node then
        let r := mkRoute [] (default [] (Attribute (bytes "mappingType") node)) (r_authRequired r) (r_ruriParams r) in
        let! (status, routeMatchFound, r, patterns) :=
          route_patterns request testHost testPort node (filter (fun n => is_element n = true) (children node)) routeMatchFound r patterns in
        if decide (status = OS_SUCCESS) then Ok (OS_SUCCESS, r, patterns)
        else routes_loop request testHost testPort nodes' routeMatchFound r patterns
      else routes_loop request testHost testPort nodes' routeMatchFound r patterns
  end.

Definition parseRouteMatchContainer (requestUri : Url) (request : SipMessage) (routesNode : TiXmlNode) (r : Route) (patterns : Patterns)
    : outcome (OsStatus * Route * Patterns) :=
  let testPort := if mHostPort requestUri =? SIP_PORT then PORT_NONE else mHostPort requestUri in
  if is_element routesNode then routes_loop request (mHostAddress requestUri) testPort (children routesNode) false r patterns else UB.

(** The object: mDoc and mPatterns, which are null together, and the members
    that loadMappings sets *)
Record ForwardRules := mkRules {
  mRules : option (list TiXmlNode * Patterns); mVoicemail : list ascii; mLocalhost : list ascii; mMediaServer : list ascii }.

Definition ForwardRules_new : ForwardRules := mkRules None [] [] [].

Definition getRoute (this : ForwardRules) (requestUri : Url) (request : SipMessage) (r : Route) : outcome (OsStatus * Route * ForwardRules) :=
  match mRules this with
  | None => UB
  | Some (doc, patterns) =>
      match FirstChild_named (bytes "routes") doc with
      | None => Ok (OS_FILE_READ_FAILED, r, this)
      | Some routesNode =>
          let! (status, r, patterns) := parseRouteMatchContainer requestUri request routesNode r patterns in
          Ok (status, r, mkRules (Some (doc, patterns)) (mVoicemail this) (mLocalhost this) (mMediaServer this))
      end
  end.
End Rules.

(** ** Loading *)

(** loadMappings; [LoadFile] is TiXmlDocument::LoadFile *)
Definition loadMappings (LoadFile : list ascii -> bool * list TiXmlNode) (configFileName mediaserver voicemail localhost : list ascii)
    (this : ForwardRules) : OsStatus * ForwardRules :=
  let '(loaded, doc) := LoadFile configFileName in
  if loaded then
    (OS_SUCCESS, mkRules (Some (doc, ∅)) (mVoicemail this ++ voicemail) (mLocalhost this ++ localhost) (mMediaServer this ++ mediaserver))
  else (OS_NOT_FOUND, mkRules (Some (doc, ∅)) (mVoicemail this) (mLocalhost this) (mMediaServer this)).

Definition text_element (tag : string) (text : list ascii) : TiXmlNode := ELEMENT (bytes tag) [] [TEXT text].

(** The document of buildDefaultRules; a null argument is the default of the
    code, or the empty text *)
Definition default_rules (domain hostname ipAddress fqhn : option (list ascii)) (localPort : Z) : list TiXmlNode :=
  let localPort := if localPort =? 5060 then PORT_NONE else localPort in
  let portString := if portIsValid localPort then print_port localPort else [] in
  let hostnamePort := default (bytes "localhost") hostname ++ portString in
  let domainPort := default [] domain ++ portString in
  let ipAddressPort := default (bytes "127.0.0.1") ipAddress ++ portString in
  let fqhnPort := default (bytes "localhost") fqhn ++ portString in
  let server (port : string) := default [] fqhn ++ bytes port in
  let routeToReg := text_element "routeTo" (server ":5070") in
  let event (pattern : string) (address : list ascii) :=
    ELEMENT (bytes "fieldMatch") [(bytes "fieldName", bytes "Event")]
      [text_element "fieldPattern" (bytes pattern); text_element "routeTo" address] in
  let methodMatch :=
    ELEMENT (bytes "methodMatch") []
      [text_element "methodPattern" (bytes "SUBSCRIBE"); event "message-summary*" (server ":5110"); event "sip-config" (server ":5090"); routeToReg] in
  let route :=
    ELEMENT (bytes "route") [(bytes "mappingType", bytes "local")]
      [text_element "routeFrom" domainPort; text_element "routeFrom" hostnamePort; text_element "routeFrom" fqhnPort;
       text_element "routeFrom" ipAddressPort; methodMatch; routeToReg] in
  let routeConfig :=
    ELEMENT (bytes "route") []
      [text_element "routeFrom" (bytes "sipuaconfig." ++ default [] domain); text_element "routeFrom" (bytes "sipuaconfig"); routeToReg] in
  [ELEMENT (bytes "routes") [] [route; routeConfig]].

Definition buildDefaultRules (domain hostname ipAddress fqhn : option (list ascii)) (localPort : Z) (this : ForwardRules) : ForwardRules :=
  mkRules (Some (default_rules domain hostname ipAddress fqhn localPort, ∅)) (mVoicemail this) (mLocalhost this) (mMediaServer this).
