(* ===== verification/ForwardRulesSpec.v ===== *)
(** * Where a request is sent

    The routes of the forwarding rules are read against a list of candidates:
    every routeTo that the rules allow for the request, in the order of the
    document.  getRoute gives the first of them, as long as each route and each
    fieldMatch that applies gives one; otherwise the flags that it does not
    reset are seen (ForwardExamples). *)
From Stdlib Require Import ZArith Lia Ascii String.
From stdpp Require Import base list strings gmap.
From S2P Require Import Prelude UtlString UtlStringRefine NameValuePair HttpMessage Format Pcre PcreSpec PcreText Patterns TinyXml UrlCodec Url.
From S2P Require Import RouteStateMsg UrlMapping UrlMappingSpec ForwardRules.
Local Open Scope nat_scope.

Section Candidates.
Context (fill : nat -> ascii) (pcre_exec : pat -> list ascii -> nat -> option Match) (compile : bool -> list ascii -> option pat).
Context (request : SipMessage) (testHost : list ascii) (testPort : Z).

Definition named (tag : string) (nodes : list TiXmlNode) : list TiXmlNode := select (is_tag tag) nodes.
Definition nodes_of (tag : string) (n : TiXmlNode) : list TiXmlNode := named tag (children n).

(** The target that the routeTo of an element names, if it is usable. *)
Definition leads_to (n : TiXmlNode) : option Route :=
  let '(status, r) := getRouteTo n (mkRoute [] [] false []) in if decide (status = OS_SUCCESS) then Some r else None.

(** What one pattern says of the request, by itself. *)
Definition field_value (name : list ascii) : option (list ascii) :=
  match getHeaderValue (mNameValues request) 0 (Some name) with Ok v => v | _ => None end.
Definition pattern_hit (value : list ascii) (n : TiXmlNode) : bool :=
  match children n with
  | [] => false
  | text :: _ => match RegEx_anchored compile (Value text) with Ok p => bool_decide (is_Some (pcre_exec p (cstr value) 0)) | _ => false end
  end.
Definition field_hit (n : TiXmlNode) : bool :=
  match Attribute (bytes "fieldName") n with
  | None => true
  | Some [] => false
  | Some name =>
      match field_value name with
      | None => false
      | Some v => let ps := children_named (bytes "fieldPattern") n in bool_decide (ps = []) || existsb (pattern_hit v) ps
      end
  end.
Definition method_hit (n : TiXmlNode) : bool :=
  match first_text n with Some t => (strcasecmp t (getRequestMethod request) =? 0)%Z | None => false end.
Definition host_hit (n : TiXmlNode) : bool :=
  match route_pattern fill pcre_exec compile testHost testPort n false ∅ with Ok (Some b, _) => b | _ => false end.

(** The targets of a methodMatch, of a route and of all routes. *)
Definition method_candidates (mm : TiXmlNode) : list Route :=
  select method_hit (children_named (bytes "methodPattern") mm) ≫= fun _ =>
    (select field_hit (nodes_of "fieldMatch" mm) ≫= fun fm => option_list (leads_to fm)) ++ option_list (leads_to mm).
Definition route_candidates (route : TiXmlNode) : list Route :=
  (nodes_of "methodMatch" route ≫= method_candidates) ++ option_list (leads_to route).
Definition typed (route : TiXmlNode) (r : Route) : Route :=
  mkRoute (r_routeTo r) (default [] (Attribute (bytes "mappingType") route)) (r_authRequired r) (r_ruriParams r).
Definition hits (route : TiXmlNode) : list TiXmlNode := select host_hit (select is_element (children route)).
Definition forward_candidates (routes : list TiXmlNode) : list Route :=
  named "route" routes ≫= fun route => hits route ≫= fun _ => typed route <$> route_candidates route.

(** The patterns can be evaluated. *)
Definition field_readable (n : TiXmlNode) : bool :=
  match Attribute (bytes "fieldName") n with
  | None | Some [] => true
  | Some name =>
      is_ok (getHeaderValue (mNameValues request) 0 (Some name))
      && forallb (fun p => is_element p && match children p with [] => true | t :: _ => is_ok (RegEx_anchored compile (Value t)) end)
           (children_named (bytes "fieldPattern") n)
  end.
Definition route_readable (route : TiXmlNode) : bool :=
  forallb (fun n => is_ok (route_pattern fill pcre_exec compile testHost testPort n false ∅)) (select is_element (children route))
  && forallb (fun mm => forallb field_readable (nodes_of "fieldMatch" mm)) (nodes_of "methodMatch" route).

(** Every fieldMatch and every route that applies leads somewhere. *)
Definition fields_lead (mm : TiXmlNode) : bool := forallb (fun fm => bool_decide (is_Some (leads_to fm))) (select field_hit (nodes_of "fieldMatch" mm)).
Definition route_leads (route : TiXmlNode) : bool :=
  forallb fields_lead (nodes_of "methodMatch" route) && (bool_decide (hits route = []) || bool_decide (route_candidates route <> [])).

(** ** The loops *)

Definition answer (m : list ascii) (c : list Route) (status : OsStatus) (r : Route) : Prop :=
  match head c with
  | Some x => status = OS_SUCCESS /\ r = mkRoute (r_routeTo x) m (r_authRequired x) (r_ruriParams x)
  | None => status = OS_FAILED /\ r_mappingType r = m
  end.

Lemma getRouteTo_answer n r : exists status r', getRouteTo n r = (status, r') /\ answer (r_mappingType r) (option_list (leads_to n)) status r'.
Proof.
  unfold leads_to, getRouteTo. destruct (FirstChild_named _ _) as [e|]; [|by eexists _, _]. destruct (is_element e); [|by eexists _, _].
  eexists _, _. split; [done|]. unfold answer. cbn [r_mappingType]. by destruct (bool_decide _ || _).
Qed.

(** A candidate list in front of another. *)
Lemma answer_app m c c' status r : answer m c status r -> c <> [] -> answer m (c ++ c') status r.
Proof. unfold answer. by destruct c. Qed.
Lemma answer_success m c r : answer m c OS_SUCCESS r -> c <> [].
Proof. unfold answer. destruct c; [by intros [? _]|done]. Qed.
Lemma answer_failed m c r : answer m c OS_FAILED r -> c = [] /\ r_mappingType r = m.
Proof. unfold answer. destruct c; [by intros [_ ?]|by intros [? _]]. Qed.
Lemma answer_status m c status r : answer m c status r -> status = OS_SUCCESS \/ status = OS_FAILED.
Proof. unfold answer. destruct (head c); intros [? _]; auto. Qed.

Lemma field_patterns_hit value nodes :
  forallb (fun p => is_element p && match children p with [] => true | t :: _ => is_ok (RegEx_anchored compile (Value t)) end) nodes = true ->
  forall found, field_patterns pcre_exec compile value nodes found = Ok (existsb (pattern_hit value) nodes || found).
Proof.
  induction nodes as [|n nodes IH]; intros Hn found; [done|]. cbn [forallb] in Hn. apply andb_true_iff in Hn as [[Hn Ht]%andb_true_iff Hns].
  cbn [field_patterns existsb]. rewrite Hn. unfold pattern_hit at 1. destruct (children n) as [|t c]; [cbn [obind]; by rewrite IH|].
  destruct (RegEx_anchored compile (Value t)) as [p| | |]; try discriminate Ht. cbn [obind]. rewrite IH by done. f_equal.
  destruct (pcre_exec p _ 0); [rewrite bool_decide_true by done|rewrite bool_decide_false by (by intros [])]; destruct (existsb _ _), found; done.
Qed.

Lemma named_cons tag n nodes : named tag (n :: nodes) = (if is_tag tag n then [n] else []) ++ named tag nodes.
Proof. apply select_cons. Qed.

Lemma Ok_pair {A B} (a a' : A) (b b' : B) : Ok (a, b) = Ok (a', b') -> a = a' /\ b = b'.
Proof. by intros [= -> ->]. Qed.

Lemma field_matches_answer nodes :
  forallb field_readable (named "fieldMatch" nodes) = true ->
  forallb (fun fm => bool_decide (is_Some (leads_to fm))) (select field_hit (named "fieldMatch" nodes)) = true ->
  forall r, exists status r', field_matches pcre_exec compile (mNameValues request) nodes false r = Ok (status, r')
    /\ answer (r_mappingType r) (select field_hit (named "fieldMatch" nodes) ≫= fun fm => option_list (leads_to fm)) status r'.
Proof.
  induction nodes as [|n nodes IH]; intros Hr Hl r; [by eexists _, _|]. rewrite named_cons in Hr, Hl |- *. cbn [field_matches].
  change (is_element n && tagged "fieldMatch" n) with (is_tag "fieldMatch" n). destruct (is_tag "fieldMatch" n); [|by apply IH]. cbn [app] in *.
  cbn [forallb] in Hr. apply andb_true_iff in Hr as [Hr Hrs]. rewrite select_cons in Hl |- *. rewrite forallb_app in Hl. apply andb_true_iff in Hl as [Hl Hls].
  specialize (IH Hrs Hls). unfold field_readable in Hr. rewrite bind_app.
  assert (forall hit, hit = field_hit n -> exists found, (let! (fieldNameMatches, noFieldPatternRequired, fieldValue) :=
      match Attribute (bytes "fieldName") n with
      | None => Ok (false, true, []) | Some [] => Ok (false, false, [])
      | Some fieldNameXml => let! v := getHeaderValue (mNameValues request) 0 (Some fieldNameXml) in
          Ok (match v with Some v => (true, false, v) | None => (false, false, []) end)
      end in
      let fieldPatterns := if fieldNameMatches && negb noFieldPatternRequired then children_named (bytes "fieldPattern") n else [] in
      let! fieldPatternFound := field_patterns pcre_exec compile fieldValue fieldPatterns false in
      Ok ((fieldNameMatches && (fieldPatternFound || negb (bool_decide (fieldPatterns <> [])))) || noFieldPatternRequired, fieldPatternFound))
    = Ok (hit, found) /\ (hit = false -> found = false)) as Hhit.
  { intros hit ->. unfold field_hit, field_value. destruct (Attribute (bytes "fieldName") n) as [[|c name]|]; [by eexists|..|by eexists].
    apply andb_true_iff in Hr as [Hv Hp]. destruct (getHeaderValue _ _ _) as [v| | |]; try discriminate Hv. cbn [obind].
    destruct v as [v|]; [|by eexists]. cbn [andb negb]. rewrite field_patterns_hit by done. cbn [obind]. rewrite !orb_false_r.
    exists (existsb (pattern_hit v) (children_named (bytes "fieldPattern") n)). split; [f_equal; f_equal|].
    - destruct (children_named _ n) as [|p ps]; [done|]. rewrite bool_decide_true, (bool_decide_false (_ = [])) by done. by destruct (existsb _ _).
    - intros [_ ?]%orb_false_iff. done. }
  destruct (Hhit _ eq_refl) as (found & E & Hf). clear Hhit.
  apply obind_Ok in E as ([[fm np] fv] & E0 & E). rewrite E0. cbn [obind]. cbv zeta in E.
  apply obind_Ok in E as (fnd & E2 & E). rewrite E2. cbn [obind]. apply Ok_pair in E as [E1 ->]. rewrite E1.
  destruct (field_hit n).
  - destruct (getRouteTo_answer n r) as (status & r' & -> & Ha). cbn [forallb] in Hl. apply andb_true_iff in Hl as [Hl _].
    apply bool_decide_eq_true in Hl as (x & Hx). rewrite Hx in Ha. unfold answer in Ha. cbn [head option_list] in Ha. destruct Ha as [-> Ha].
    rewrite decide_True by done. eexists _, _. split; [done|]. unfold answer. cbn [mbind list_bind]. rewrite Hx. cbn [option_list app head]. by split.
  - rewrite Hf by done. cbn [app mbind list_bind]. apply IH.
Qed.

Lemma method_patterns_answer mm nodes :
  forallb field_readable (nodes_of "fieldMatch" mm) = true -> fields_lead mm = true ->
  forall r, exists status r', method_patterns pcre_exec compile (mNameValues request) (getRequestMethod request) mm nodes r = Ok (status, r')
    /\ answer (r_mappingType r) (select method_hit nodes ≫= fun _ =>
         (select field_hit (nodes_of "fieldMatch" mm) ≫= fun fm => option_list (leads_to fm)) ++ option_list (leads_to mm)) status r'.
Proof.
  intros Hr Hl. set (body := _ ++ option_list (leads_to mm)).
  induction nodes as [|n nodes IH]; intros r; [by eexists _, _|]. cbn [method_patterns]. rewrite select_cons, bind_app.
  unfold method_hit at 1. destruct (first_text n) as [t|]; [|by apply IH]. destruct (_ =? 0)%Z; [|by apply IH].
  destruct (field_matches_answer (children mm) Hr Hl r) as (st1 & r1 & E1 & Ha1). unfold parseFieldMatchContainer. rewrite E1. cbn [obind].
  cbn [mbind list_bind]. rewrite app_nil_r. fold (nodes_of "fieldMatch" mm) in Ha1.
  destruct (answer_status _ _ _ _ Ha1) as [-> | ->].
  { rewrite decide_True by done. eexists _, _. split; [done|]. pose proof (answer_success _ _ _ Ha1).
    apply answer_app; [by apply answer_app|]. by intros [? _]%app_eq_nil. }
  rewrite decide_False by done. apply answer_failed in Ha1 as [Ec1 Hm1].
  destruct (getRouteTo_answer mm r1) as (st2 & r2 & -> & Ha2). rewrite Hm1 in Ha2. destruct (answer_status _ _ _ _ Ha2) as [-> | ->].
  { rewrite decide_True by done. eexists _, _. split; [done|]. unfold body at 1. rewrite Ec1. apply answer_app; [done|]. by eapply answer_success. }
  rewrite decide_False by done. apply answer_failed in Ha2 as [Ec2 Hm2]. assert (body = []) as Hb by (unfold body; by rewrite Ec1, Ec2).
  clearbody body. subst body. cbn [app]. rewrite <- Hm2. apply IH.
Qed.

Lemma method_matches_answer nodes :
  forallb (fun mm => forallb field_readable (nodes_of "fieldMatch" mm)) (named "methodMatch" nodes) = true ->
  forallb fields_lead (named "methodMatch" nodes) = true ->
  forall r, exists status r', method_matches pcre_exec compile (mNameValues request) (getRequestMethod request) nodes r = Ok (status, r')
    /\ answer (r_mappingType r) (named "methodMatch" nodes ≫= method_candidates) status r'.
Proof.
  induction nodes as [|n nodes IH]; intros Hr Hl r; [by eexists _, _|]. rewrite named_cons in Hr, Hl |- *. cbn [method_matches].
  change (is_element n && tagged "methodMatch" n) with (is_tag "methodMatch" n). destruct (is_tag "methodMatch" n); [|by apply IH]. cbn [app] in *.
  cbn [forallb] in Hr, Hl. apply andb_true_iff in Hr as [Hr Hrs]. apply andb_true_iff in Hl as [Hl Hls]. rewrite bind_cons.
  destruct (method_patterns_answer n (children_named (bytes "methodPattern") n) Hr Hl r) as (st1 & r1 & -> & Ha1). cbn [obind]. fold (method_candidates n) in Ha1.
  destruct (answer_status _ _ _ _ Ha1) as [-> | ->].
  { rewrite decide_True by done. eexists _, _. split; [done|]. apply answer_app; [done|]. by eapply answer_success. }
  rewrite decide_False by done. apply answer_failed in Ha1 as [-> Hm1]. rewrite <- Hm1. by apply IH.
Qed.

Lemma parseMethod_answer route :
  forallb (fun mm => forallb field_readable (nodes_of "fieldMatch" mm)) (nodes_of "methodMatch" route) = true ->
  forallb fields_lead (nodes_of "methodMatch" route) = true ->
  forall r, exists status r', parseMethodMatchContainer pcre_exec compile request route r = Ok (status, r')
    /\ answer (r_mappingType r) (route_candidates route) status r'.
Proof.
  intros Hr Hl r. unfold parseMethodMatchContainer, route_candidates. destruct (method_matches_answer (children route) Hr Hl r) as (st1 & r1 & -> & Ha1).
  cbn [obind]. fold (nodes_of "methodMatch" route) in Ha1. destruct (answer_status _ _ _ _ Ha1) as [-> | ->].
  { rewrite decide_False by done. eexists _, _. split; [done|]. apply answer_app; [done|]. by eapply answer_success. }
  rewrite decide_True by done. apply answer_failed in Ha1 as [-> Hm1]. cbn [app]. rewrite <- Hm1.
  destruct (getRouteTo_answer route r1) as (st2 & r2 & -> & Ha2). by eexists _, _.
Qed.
(** The kept expressions do not show. *)
Lemma route_pattern_table n patterns : table_ok (compile := compile) patterns ->
  is_ok (route_pattern fill pcre_exec compile testHost testPort n false ∅) = true ->
  exists m patterns', route_pattern fill pcre_exec compile testHost testPort n false patterns = Ok (m, patterns')
    /\ table_ok (compile := compile) patterns' /\ default false m = host_hit n.
Proof.
  intros Ht. unfold host_hit, route_pattern. destruct (first_text n) as [t|]; [|by eauto].
  destruct (tagged "routeFrom" n); [|destruct (tagged "routeIPv4subnet" n); [|destruct (tagged "routeDnsWildcard" n); [|by eauto]]].
  - destruct (Url_of_string _ _ _ _); try done. cbn [obind]. eauto.
  - destruct (IPv4subnet _ _); try done. cbn [obind]. eauto.
  - unfold DnsWildcard. case_decide; [by eauto|]. destruct (negb _); [by eauto|].
    rewrite lookup_empty. unfold RegEx_new at 1 3. destruct (compile true (cstr (wildcard_exp t))) as [re|] eqn:Ec; [|done].
    cbn [obind]. intros _. destruct (table_lookup patterns t re Ht Ec) as (ps & -> & Hps). cbn [obind]. by eauto.
Qed.

Lemma route_patterns_answer route nodes :
  forallb (fun n => is_ok (route_pattern fill pcre_exec compile testHost testPort n false ∅)) nodes = true ->
  forallb (fun mm => forallb field_readable (nodes_of "fieldMatch" mm)) (nodes_of "methodMatch" route) = true ->
  forallb fields_lead (nodes_of "methodMatch" route) = true ->
  bool_decide (select host_hit nodes = []) || bool_decide (route_candidates route <> []) = true ->
  forall r patterns, table_ok (compile := compile) patterns ->
  exists status flag r' patterns', route_patterns fill pcre_exec compile request testHost testPort route nodes false r patterns = Ok (status, flag, r', patterns')
    /\ table_ok (compile := compile) patterns' /\ answer (r_mappingType r) (select host_hit nodes ≫= fun _ => route_candidates route) status r'
    /\ (status = OS_FAILED -> flag = false /\ r' = r).
Proof.
  intros Hn Hr Hl. induction nodes as [|n nodes IH]; intros Hc r patterns Ht; [by exists OS_FAILED, false, r, patterns|].
  cbn [forallb] in Hn. apply andb_true_iff in Hn as [Hn Hns]. specialize (IH Hns). cbn [route_patterns]. rewrite select_cons in Hc |- *. rewrite bind_app.
  destruct (route_pattern_table n patterns Ht Hn) as (m & ps & -> & Hps & Hm). cbn [obind]. rewrite <- Hm in Hc |- *.
  destruct m as [[|]|]; unfold default, id in *; [|by apply IH..].
  destruct (parseMethod_answer route Hr Hl r) as (st1 & r1 & -> & Ha1). cbn [obind]. cbn [app bool_decide] in Hc.
  assert (route_candidates route <> []) as Hne.
  { apply orb_true_iff in Hc as [Hc|Hc]; [apply bool_decide_eq_true in Hc; discriminate Hc|by apply bool_decide_eq_true in Hc]. }
  destruct (answer_status _ _ _ _ Ha1) as [-> | ->]; [|by apply answer_failed in Ha1 as [? _]].
  rewrite decide_True by done. eexists _, _, _, _. split; [done|]. split; [done|]. split; [|done].
  cbn [mbind list_bind]. rewrite app_nil_r. by apply answer_app.
Qed.

Lemma routes_answer nodes :
  forallb route_readable (named "route" nodes) = true -> forallb route_leads (named "route" nodes) = true ->
  forall r patterns, table_ok (compile := compile) patterns ->
  exists status r' patterns', routes_loop fill pcre_exec compile request testHost testPort nodes false r patterns = Ok (status, r', patterns')
    /\ table_ok (compile := compile) patterns'
    /\ match head (forward_candidates nodes) with Some x => status = OS_SUCCESS /\ r' = x | None => status = OS_FAILED end.
Proof.
  unfold forward_candidates. induction nodes as [|n nodes IH]; intros Hr Hl r patterns Ht; [by eexists _, _, _|].
  rewrite named_cons in Hr, Hl |- *. cbn [routes_loop]. change (is_element n && tagged "route" n) with (is_tag "route" n).
  destruct (is_tag "route" n); [|by apply IH]. cbn [app forallb] in *. apply andb_true_iff in Hr as [[Hr1 Hr2]%andb_true_iff Hrs].
  apply andb_true_iff in Hl as [[Hl1 Hl2]%andb_true_iff Hls]. rewrite head_bind.
  set (r0 := mkRoute _ _ _ _). destruct (route_patterns_answer n _ Hr1 Hr2 Hl1 Hl2 r0 patterns Ht) as (st1 & flag & r1 & ps & E & Hps & Ha & Hf).
  fold (select is_element (children n)). rewrite E. cbn [obind]. fold (hits n) in Ha.
  assert (head (hits n ≫= fun _ => typed n <$> route_candidates n) = typed n <$> head (hits n ≫= fun _ => route_candidates n)) as Eh.
  { clear. induction (hits n) as [|h hs IH]; [done|]. rewrite !head_bind, IH. by destruct (route_candidates n). }
  rewrite Eh. clear Eh. destruct (answer_status _ _ _ _ Ha) as [-> | ->].
  - rewrite decide_True by done. unfold answer in Ha. destruct (head (hits n ≫= _)) as [x|]; [|by destruct Ha].
    destruct Ha as [_ ->]. cbn [fmap option_fmap option_map or_else]. by eexists _, _, _.
  - destruct (Hf eq_refl) as [-> ->]. rewrite decide_False by done. apply answer_failed in Ha as [-> _]. cbn [head fmap option_fmap option_map or_else].
    by apply IH.
Qed.
End Candidates.

Section Forward.
Context (fill : nat -> ascii) (pcre_exec : pat -> list ascii -> nat -> option Match) (compile : bool -> list ascii -> option pat).

(** The loaded rules: the routes of the document, and a table of wildcards
    that holds what they compile to. *)
Definition has_routes (this : ForwardRules) (routes : list TiXmlNode) : Prop :=
  exists doc patterns v a, mRules this = Some (doc, patterns) /\ table_ok (compile := compile) patterns
    /\ FirstChild_named (bytes "routes") doc = Some (ELEMENT v a routes).

Definition test_port (requestUri : Url) : Z := if (mHostPort requestUri =? SIP_PORT)%Z then PORT_NONE else mHostPort requestUri.

(** C23: getRoute returns the first target that the routes have for the
    request: of the first route with a pattern for its host, the routeTo of the
    first fieldMatch that applies in a methodMatch for its method, or that of
    the methodMatch, or that of the route; there is none exactly if no route
    has a pattern for the host.  This asks that every route and every
    fieldMatch that applies leads somewhere ([route_leads]; otherwise the flags
    that the loops do not reset show, [stale_route_match] and
    [stale_field_match]), and that the patterns can be evaluated
    ([route_readable]); the wildcards compiled for earlier requests do not
    matter, and neither do the values the arguments had.  A pattern applies as
    the code compares it, which is not in everything what forwardingrules.xsd
    says: the host of a routeFrom is compared without case, a network with
    bits outside its mask matches nothing, a fieldPattern is compared with
    case and anchored at its beginning only; and neither the final routeTo of
    the routes nor the routeTo of a route whose patterns do not match is
    used. *)
Theorem first_route_wins this requestUri request r routes :
  let host := mHostAddress requestUri in let port := test_port requestUri in
  has_routes this routes ->
  forallb (route_readable fill pcre_exec compile request host port) (named "route" routes) = true ->
  forallb (route_leads fill pcre_exec compile request host port) (named "route" routes) = true ->
  exists status r' this', getRoute fill pcre_exec compile this requestUri request r = Ok (status, r', this') /\ has_routes this' routes
    /\ match head (forward_candidates fill pcre_exec compile request host port routes) with
        | Some x => status = OS_SUCCESS /\ r' = x
        | None => status = OS_FAILED
        end.
Proof.
  intros host port (doc & patterns & v & a & Em & Ht & Ed) Hr Hl. unfold getRoute. rewrite Em, Ed. unfold parseRouteMatchContainer.
  cbn [is_element children]. fold (test_port requestUri).
  destruct (routes_answer fill pcre_exec compile request host port routes Hr Hl r patterns Ht) as (status & r' & ps & E & Hps & Ha).
  fold host port. rewrite E. cbn [obind]. eexists _, _, _. split; [done|]. split; [|done]. by exists doc, ps, v, a.
Qed.
End Forward.

(** ** Examples *)

Module ForwardExamples.
Definition fill0 (n : nat) : ascii := NUL.
Definition rules : ForwardRules :=
  buildDefaultRules (Some (bytes "example.com")) (Some (bytes "host")) (Some (bytes "10.1.1.1")) (Some (bytes "host.example.com")) 5060 ForwardRules_new.
Definition default_routes : list TiXmlNode :=
  match default_rules (Some (bytes "example.com")) (Some (bytes "host")) (Some (bytes "10.1.1.1")) (Some (bytes "host.example.com")) 5060 with
  | [ELEMENT _ _ c] => c | _ => [] end.
Definition to (host : string) : Url := mkUrl SipUrlScheme [] (bytes "joe") [] false (bytes host) 5060 [] [] None [] None None false.
Definition subscribe (event : string) : SipMessage :=
  mkMsg (bytes "SUBSCRIBE sip:joe@example.com SIP/2.0") (pair_of <$> [(bytes "EVENT", bytes event)]).
Definition nothing : Route := mkRoute [] [] false [].
Definition target (o : outcome (OsStatus * Route * ForwardRules)) : outcome (OsStatus * list ascii) :=
  let! (status, r, _) := o in Ok (status, r_routeTo r).
Definition route_for (this : ForwardRules) (host event : string) : outcome (OsStatus * list ascii) :=
  target (getRoute fill0 search syntax this (to host) (subscribe event) nothing).

Lemma first_route_wins_witness :
  exists this', getRoute fill0 search syntax rules (to "Example.com") (subscribe "message-summary") nothing
    = Ok (OS_SUCCESS, mkRoute (bytes "host.example.com:5110") (bytes "local") false [], this').
Proof.
  destruct (first_route_wins fill0 search syntax rules (to "Example.com") (subscribe "message-summary") nothing default_routes)
    as (status & r' & this' & E & _ & Ha).
  - exists [ELEMENT (bytes "routes") [] default_routes], ∅, (bytes "routes"), []. split_and!; try reflexivity.
    intros w re Ew. rewrite lookup_empty in Ew. discriminate Ew.
  - vm_compute. reflexivity.
  - vm_compute. reflexivity.
  - exists this'. revert Ha. vm_compute. intros [-> ->]. exact E.
Defined.

(** The default rules: the events of the servers, everything else to the
    registrar; nothing for another domain.  A field pattern is anchored at the
    beginning only, and it is compared with case. *)
Example default_routing :
  route_for rules "example.com" "sip-config" = Ok (OS_SUCCESS, bytes "host.example.com:5090")
  /\ route_for rules "example.com" "message-summaryX" = Ok (OS_SUCCESS, bytes "host.example.com:5110")
  /\ route_for rules "example.com" "Message-Summary" = Ok (OS_SUCCESS, bytes "host.example.com:5070")
  /\ route_for rules "sipuaconfig" "x" = Ok (OS_SUCCESS, bytes "host.example.com:5070")
  /\ route_for rules "elsewhere.org" "x" = Ok (OS_FAILED, []).
Proof. by vm_compute. Qed.

Definition el (tag : string) (c : list TiXmlNode) : TiXmlNode := ELEMENT (bytes tag) [] c.
Definition txt (tag text : string) : TiXmlNode := text_element tag (bytes text).
Definition with_routes (routes : list TiXmlNode) : ForwardRules := mkRules (Some ([el "routes" routes], ∅)) [] [] [].

(** A route for the host without a routeTo leaves routeMatchFound set: the
    request goes to the next route, which is for another host. *)
Example stale_route_match :
  let other := el "route" [txt "routeFrom" "other.org"; txt "routeTo" "other-server"] in
  route_for (with_routes [other]) "example.com" "x" = Ok (OS_FAILED, [])
  /\ route_for (with_routes [el "route" [txt "routeFrom" "example.com"]; other]) "example.com" "x" = Ok (OS_SUCCESS, bytes "other-server").
Proof. by vm_compute. Qed.

(** The same with fieldPatternFound: a matching fieldMatch without a routeTo
    makes the next one match. *)
Example stale_field_match :
  let event (c : list TiXmlNode) := ELEMENT (bytes "fieldMatch") [(bytes "fieldName", bytes "Event")] c in
  let route (fields : list TiXmlNode) :=
    with_routes [el "route" [txt "routeFrom" "example.com"; el "methodMatch" (txt "methodPattern" "subscribe" :: fields)]] in
  let mwi := event [txt "fieldPattern" "message-summary"; txt "routeTo" "status-server"] in
  route_for (route [mwi]) "example.com" "dialog" = Ok (OS_FAILED, [])
  /\ route_for (route [event [txt "fieldPattern" "dialog"]; mwi]) "example.com" "dialog" = Ok (OS_SUCCESS, bytes "status-server").
Proof. by vm_compute. Qed.

(** The schema allows a final routeTo for requests that no route is for; it is
    not read. *)
Example final_routeTo_ignored :
  route_for (with_routes [el "route" [txt "routeFrom" "other.org"; txt "routeTo" "other-server"]; txt "routeTo" "last-resort"]) "example.com" "x"
  = Ok (OS_FAILED, []).
Proof. by vm_compute. Qed.
End ForwardExamples.
