(* ===== verification/SipXauthIdentity.v ===== *)
(** * Signed identities

    [sipXtackLib/src/net/SipXauthIdentity.cpp]: the identity of an
    authenticated user travels in a header, as a URL with a time stamp and a
    signature made with a secret that the servers share. *)
From Stdlib Require Import ZArith Lia Ascii String.
From stdpp Require Import base list strings.
From S2P Require Import Prelude UtlString NetMd5Codec NameValuePair HttpMessage Format OsTime OsDateTime Pcre UrlCodec Url RouteStateMsg SipMatch.
Local Open Scope Z_scope.

(** ** Numbers *)

(** [%lX] of a long *)
Definition upper_digit (d : Z) : ascii := if d <? 10 then chr (48 + d) else chr (55 + d).
Fixpoint upper_digits (fuel : nat) (n : Z) : list ascii :=
  match fuel with
  | O => []
  | S f => (if n <? 16 then [] else upper_digits f (n / 16)) ++ [upper_digit (n mod 16)]
  end.
Definition fmt_lX (n : Z) : list ascii := upper_digits 16 (to_size n).

(** [strtoul(s, &end, 16)]: the value and the text at [end] *)
Definition ULONG_MAX : Z := 2 ^ 64 - 1.
Definition strtoul (s : list ascii) (base : Z) : Z * list ascii :=
  let s := cstr s in
  let s1 := snd (span isspace s) in
  let '(neg, s2) := match s1 with
                    | c :: s2 => if decide (c = "-"%char) then (true, s2)
                                 else if decide (c = "+"%char) then (false, s2) else (false, s1)
                    | [] => (false, s1)
                    end in
  let '(ds, rest) := span (is_digit_of base) (skip_0x base s2) in
  match ds with
  | [] => (0, s)
  | _ =>
      let v := number_of base ds in
      (if ULONG_MAX <? v then ULONG_MAX else if neg : bool then to_size (- v) else v, rest)
  end.

(** SipXauthIdentity::from_string: the value, and whether all of the text was
    read *)
Definition from_string (s : list ascii) : Z * bool :=
  let '(value, rest) := strtoul s 16 in
  (value, Z.of_nat (length (cstr s)) - Z.of_nat (length rest) =? Z.of_nat (length s)).

(** ** The encoding *)

Inductive HeaderName := AuthIdentityHeaderName | PAssertedIdentityHeaderName.
#[global] Instance HeaderName_eq_dec : EqDecision HeaderName.
Proof. solve_decision. Defined.
Definition header_text (h : HeaderName) : list ascii :=
  match h with AuthIdentityHeaderName => bytes "X-sipX-Authidentity" | PAssertedIdentityHeaderName => bytes "P-Asserted-Identity" end.

Inductive DialogRule := requireDialogBinding | allowUnbound.
#[global] Instance DialogRule_eq_dec : EqDecision DialogRule.
Proof. solve_decision. Defined.

Definition SignatureFieldSeparator : list ascii := bytes ":".
Definition SignatureUrlParamName : list ascii := bytes "signature".

Definition upper_hex (c : ascii) : bool := in_range 48 57 c || in_range 65 70 c.
Definition lower_hex (c : ascii) : bool := in_range 48 57 c || in_range 97 102 c.
(** ([0-9A-F]+):(:?)([0-9a-f]{32}) *)
Definition SignatureRegEx : pat :=
  PSeqs [PGroup 1 (PPlus (PCls upper_hex)); PChr ":"; PGroup 2 (POpt (PChr ":")); PGroup 3 (PSeqs (repeat (PCls lower_hex) 32))].

Record SipXauthIdentity := mkIdentity { mIsValidIdentity : bool; mIdentity : list ascii }.
Definition SipXauthIdentity_new : SipXauthIdentity := mkIdentity false [].

Definition getIdentityValue (this : SipXauthIdentity) : bool * list ascii :=
  (mIsValidIdentity this, if mIsValidIdentity this then mIdentity this else []).
Definition setIdentity (identityValue : list ascii) (this : SipXauthIdentity) : SipXauthIdentity := mkIdentity true identityValue.

(** HttpMessage::getCountHeaderFields of a name *)
Definition getCountHeaderFields (l : list NameValuePair) (name : list ascii) : Z :=
  Z.of_nat (length (filter (has_name (Some (toupper <$> name))) l)).

(** The loops of remove and normalize, from a position down to the first *)
Fixpoint remove_down (name : list ascii) (count : nat) (l : list NameValuePair) : list NameValuePair :=
  match count with
  | O => l
  | S i => remove_down name i (snd (removeHeader l (Some name) (Z.of_nat i)))
  end.
Definition remove (headerName : HeaderName) (l : list NameValuePair) : list NameValuePair :=
  let idHeaderCount := getCountHeaderFields l (header_text headerName) in
  if 0 <? idHeaderCount then remove_down (header_text headerName) (Z.to_nat idHeaderCount) l else l.
Definition normalize (headerName : HeaderName) (l : list NameValuePair) : list NameValuePair :=
  let idHeaderCount := getCountHeaderFields l (header_text headerName) in
  if 1 <? idHeaderCount then remove_down (header_text headerName) (Z.to_nat (idHeaderCount - 1)) l else l.

Section Identity.
Context (fill : nat -> ascii) (pcre_exec : pat -> list ascii -> nat -> option Match).

(** The two statics *)
Context (sSignatureSecret : list ascii) (sSignatureValidityInterval : OsTime).

(** The hash of both directions *)
Definition signature_hash (stamp fromTag callId identity : list ascii) (bound : bool) : outcome (list ascii) :=
  let! m := hash_all (NetMd5Codec_default fill)
              ([stamp; sSignatureSecret] ++ (if bound then [fromTag; callId] else []) ++ [identity]) in
  let! (hash, _) := appendHashValue m [] in Ok hash.

(** SipXauthIdentity::encode: the text *)
Definition encode (identity callId fromTag : list ascii) (timestamp : OsDateTime) (bindRule : DialogRule) : outcome (list ascii) :=
  let! osTime := cvtToTimeSinceEpoch timestamp in
  let stamp := fmt_lX (mSeconds osTime) in
  let bound := bool_decide (bindRule = requireDialogBinding) in
  let! hash := signature_hash stamp fromTag callId identity bound in
  let strSignature := stamp ++ SignatureFieldSeparator ++ (if bound then [] else SignatureFieldSeparator) ++ hash in
  let! encodedUrl := Url_of_string fill pcre_exec identity NameAddr in
  let! encodedUrl := setUrlParameter SignatureUrlParamName (Some (cstr strSignature)) (set_scheme SipUrlScheme encodedUrl) in
  let! (identityValue, _) := toString pcre_exec encodedUrl in
  Ok identityValue.

(** SipXauthIdentity::decode of a text; [now] is OsDateTime::getSecsSinceEpoch *)
Definition decode (now : Z) (identityValue callId fromTag : list ascii) (bindRule : DialogRule) : outcome SipXauthIdentity :=
  let! encodedUrl := Url_of_string fill pcre_exec identityValue NameAddr in
  if decide (mScheme encodedUrl = SipUrlScheme) then
    let decodedIdentity := getIdentity encodedUrl in
    let! (signatureParam, _) := getUrlParameter SignatureUrlParamName 0 encodedUrl in
    match signatureParam with
    | None => Ok SipXauthIdentity_new
    | Some signatureParamValue =>
        let subject := cstr signatureParamValue in
        match pcre_exec SignatureRegEx subject 0 with
        | None => Ok SipXauthIdentity_new
        | Some m =>
            let isBound := bool_decide (MatchString subject m 2 = Some []) in
            if bool_decide (bindRule = requireDialogBinding) && negb isBound then Ok SipXauthIdentity_new
            else
              match MatchString subject m 1, MatchString subject m 3 with
              | Some timestamp, Some actualSignatureHash =>
                  let '(epochTimestamp, complete) := from_string timestamp in
                  if negb complete then Ok SipXauthIdentity_new
                  else if negb (isNoWait sSignatureValidityInterval)
                          && (to_size (epochTimestamp + mSeconds sSignatureValidityInterval) <? now) then Ok SipXauthIdentity_new
                  else
                    let! validSignature := signature_hash timestamp fromTag callId decodedIdentity isBound in
                    if strcmp validSignature actualSignatureHash =? 0 then Ok (mkIdentity true decodedIdentity)
                    else Ok SipXauthIdentity_new
              | _, _ => Ok SipXauthIdentity_new
              end
        end
    end
  else Ok SipXauthIdentity_new.

(** The call that a message belongs to: Call-Id and From tag *)
Definition dialog_of (message : SipMessage) : outcome (list ascii * list ascii) :=
  let! callId := getCallIdField message in
  let! fromUrl := getFromUrl fill pcre_exec message in
  Ok (callId, tag_of fromUrl).

(** SipXauthIdentity::decode of a header: the last one counts *)
Definition decode_header (now : Z) (headerName : HeaderName) (message : SipMessage) (callId fromTag : list ascii) (bindRule : DialogRule)
    : outcome SipXauthIdentity :=
  let idHeaderCount := getCountHeaderFields (mNameValues message) (header_text headerName) in
  if 1 <=? idHeaderCount then
    let! v := getHeaderValue (mNameValues message) (idHeaderCount - 1) (Some (header_text headerName)) in
    decode now (default [] v) callId fromTag bindRule
  else Ok SipXauthIdentity_new.

(** The two constructors from a message *)
Definition SipXauthIdentity_of (now : Z) (message : SipMessage) (headerName : HeaderName) (bindRule : DialogRule) : outcome SipXauthIdentity :=
  let! (callId, fromTag) := dialog_of message in
  decode_header now headerName message callId fromTag bindRule.
Definition SipXauthIdentity_either (now : Z) (message : SipMessage) (bSipXauthIdentityTakesPrecedence : bool) (bindRule : DialogRule)
    : outcome (SipXauthIdentity * list ascii) :=
  let! (callId, fromTag) := dialog_of message in
  let '(first, second) := if bSipXauthIdentityTakesPrecedence then (AuthIdentityHeaderName, PAssertedIdentityHeaderName)
                          else (PAssertedIdentityHeaderName, AuthIdentityHeaderName) in
  let! this := decode_header now first message callId fromTag bindRule in
  if mIsValidIdentity this then Ok (this, header_text first)
  else
    let! this := decode_header now second message callId fromTag bindRule in
    Ok (this, if mIsValidIdentity this then header_text second else []).

(** SipXauthIdentity::insert; [now] is the current time, [timestamp] the
    argument *)
Definition insert (this : SipXauthIdentity) (headerName : HeaderName) (timestamp : option OsDateTime) (now : OsDateTime) (message : SipMessage)
    : outcome (bool * SipMessage) :=
  if mIsValidIdentity this then
    let message := mkMsg (mFirstHeaderLine message) (remove headerName (mNameValues message)) in
    let! callId := getCallIdField message in
    let! fromUrl := getFromUrl fill pcre_exec message in
    let! value := encode (mIdentity this) callId (tag_of fromUrl) (default now timestamp) requireDialogBinding in
    let value := if decide (headerName = PAssertedIdentityHeaderName) then cstr (getDisplayName pcre_exec fromUrl) ++ value else value in
    let! l := addHeaderField fill (mNameValues message) (header_text headerName) (cstr value) in
    Ok (true, mkMsg (mFirstHeaderLine message) l)
  else Ok (false, message).

(** The three encodeUri; the one with a Call-Id and a From URL writes the
    asserted identity *)
Definition encode_into (headerName : HeaderName) (this : SipXauthIdentity) (dialog : outcome (list ascii * list ascii)) (bindRule : DialogRule)
    (timestamp : option OsDateTime) (now : OsDateTime) (uri : Url) : outcome (bool * Url) :=
  if mIsValidIdentity this then
    let! uri := removeHeaderParameter (header_text headerName) uri in
    let! (callId, fromTag) := dialog in
    let! value := encode (mIdentity this) callId fromTag (default now timestamp) bindRule in
    let! uri := setHeaderParameter (header_text headerName) (Some (cstr value)) uri in
    Ok (true, uri)
  else Ok (false, uri).
Definition encodeUri_bound (this : SipXauthIdentity) (request : SipMessage) (timestamp : option OsDateTime) (now : OsDateTime) (uri : Url)
    : outcome (bool * Url) :=
  encode_into AuthIdentityHeaderName this (dialog_of request) requireDialogBinding timestamp now uri.
Definition encodeUri_unbound (this : SipXauthIdentity) (timestamp : option OsDateTime) (now : OsDateTime) (uri : Url) : outcome (bool * Url) :=
  encode_into AuthIdentityHeaderName this (Ok ([], [])) allowUnbound timestamp now uri.
Definition encodeUri_call (this : SipXauthIdentity) (pCallId : list ascii) (fromUrl : Url) (timestamp : option OsDateTime) (now : OsDateTime) (uri : Url)
    : outcome (bool * Url) :=
  encode_into PAssertedIdentityHeaderName this (Ok (cstr pCallId, tag_of fromUrl)) requireDialogBinding timestamp now uri.
End Identity.

(** SipXauthIdentity::setSecret: the new value of the static *)
Definition setSecret (secret : list ascii) (sSignatureSecret : list ascii) : list ascii := cstr secret.
