(* ===== verification/SipXauthIdentitySpec.v ===== *)
(** * Which identities are accepted

    Decoding returns on every text; what it accepts carries the digest of the
    secret with the time stamp, the dialog and the identity, and is not older
    than the interval.  An identity that was encoded is accepted in its dialog
    until then.  The parts that are hashed are not delimited, so the dialog and
    the identity can be divided in another way (IdentityExamples). *)
From Stdlib Require Import ZArith Lia Ascii String.
From stdpp Require Import base list strings sets.
From S2P Require Import Prelude NetMd5Codec NameValuePair HttpMessage HttpMessageSpec Format OsTime OsDateTime Pcre PcreSpec.
From S2P Require Import UrlCodec Url UrlSyntax UrlSpec UrlSound UrlRoundtrip RouteStateMsg UrlTotal SipNonceDb SipMatch.
From S2P Require Import SipMatchSpec SipXauthIdentity.
Local Open Scope Z_scope.

(** ** Time stamps *)

Lemma upper_hex_stamp c : upper_hex c = true -> stamp_char c.
Proof.
  intros Hc. assert (forallb (fun n => let c := ascii_of_nat n in implb (upper_hex c) (is_digit_of 16 c && negb (isspace c)
    && bool_decide (c ∉ bytes "-+xX") && bool_decide (c <> NUL))) (seq 0 256) = true) as E by (vm_compute; reflexivity).
  rewrite forallb_forall in E. specialize (E (nat_of_ascii c)). rewrite in_seq, ascii_nat_embedding in E.
  specialize (E ltac:(pose proof (nat_ascii_bounded c); lia)). cbv zeta in E. rewrite Hc in E. cbn [implb] in E.
  rewrite !andb_true_iff, negb_true_iff, !bool_decide_eq_true in E. unfold stamp_char. tauto.
Qed.

Lemma strtoul_stamp l : Forall stamp_char l -> l <> [] -> strtoul l 16 = (Z.min (number_of 16 l) ULONG_MAX, []).
Proof.
  intros Hf Hne. unfold strtoul. rewrite cstr_id by (by apply stamp_nul_free).
  assert (span isspace l = ([], l)) as ->.
  { destruct Hf as [|c l (_ & Hs & _) Hf]; [done|]. simpl. by rewrite Hs. }
  cbn [snd]. pose proof Hf as Hf'. destruct Hf' as [|c l' (Hc & Hs & Hn & _) Hf']; [done|].
  assert (c <> "-"%char /\ c <> "+"%char) as [H1 H2].
  { split; intros ->; apply Hn; vm_compute; repeat constructor. }
  rewrite !decide_False by done.
  assert (skip_0x 16 (c :: l') = c :: l') as ->.
  { unfold skip_0x. destruct Hf' as [|x l2 (_ & _ & Hx & _) [|d l3 _ _]]; [done|done|].
    rewrite (bool_decide_false (x = "x"%char \/ x = "X"%char)); [by rewrite andb_false_r|].
    intros [-> | ->]; apply Hx; vm_compute; repeat constructor. }
  replace (c :: l') with ((c :: l') ++ []) at 1 by apply app_nil_r.
  rewrite fmt_span_app; [|by eapply Forall_impl; [exact Hf|]; intros ? (? & _)|done].
  f_equal. destruct (Z.ltb_spec ULONG_MAX (number_of 16 (c :: l'))); lia.
Qed.

Lemma from_string_stamp l : Forall stamp_char l -> l <> [] -> from_string l = (Z.min (number_of 16 l) ULONG_MAX, true).
Proof.
  intros Hf Hne. unfold from_string. rewrite strtoul_stamp by done. rewrite cstr_id by (by apply stamp_nul_free).
  f_equal. apply Z.eqb_eq. simpl. lia.
Qed.

(** ** Digests *)

Section Spec.
Context (fill : nat -> ascii) `{Pcre pcre_exec}.
Context (secret : list ascii) (interval : OsTime) (Hsecret : NetMd5Codec.short secret).

Definition signed (stamp fromTag callId identity : list ascii) (bound : bool) : list ascii :=
  stamp ++ secret ++ (if bound then fromTag ++ callId else []) ++ identity.

Lemma signature_hash_spec stamp fromTag callId identity bound :
  NetMd5Codec.short stamp -> NetMd5Codec.short fromTag -> NetMd5Codec.short callId -> NetMd5Codec.short identity ->
  signature_hash fill secret stamp fromTag callId identity bound = Ok (hex (md5 (signed stamp fromTag callId identity bound))).
Proof.
  intros Hs Hf Hc Hi. unfold signature_hash.
  destruct (hash_all_holds ([stamp; secret] ++ (if bound then [fromTag; callId] else []) ++ [identity])
    (NetMd5Codec_default fill) [] (init_holds fill) eq_refl) as (m & -> & Hm & Hfin).
  { destruct bound; repeat apply Forall_cons_2; try apply Forall_nil_2; done. }
  cbn [obind]. unfold appendHashValue. rewrite Hfin, (MD5Final_holds _ _ Hm). cbn [obind].
  do 3 f_equal. unfold signed. destruct bound; simpl; by rewrite ?app_nil_r, <- ?app_assoc.
Qed.

(** ** Decoding *)

Lemma length_print_port p : (length (print_port p) <= 22)%nat.
Proof.
  assert (forall fuel n, (length (dec_digits fuel n) <= fuel)%nat) as Hd.
  { induction fuel as [|f IH]; intros n; simpl; [lia|]. rewrite length_app. simpl. destruct (_ <? _); simpl; [lia|]. specialize (IH (n / 10)). lia. }
  unfold print_port, fmt_d, fmt_unsigned. pose proof (Hd 20%nat (- p)). pose proof (Hd 20%nat p). destruct (_ <? 0); cbn [length]; lia.
Qed.

Lemma identity_length n u : sized n u -> (length (getIdentity u) <= 2 * n + 23)%nat.
Proof.
  intros [Hu Hh]. unfold getIdentity. rewrite !length_app, length_fmap. pose proof (length_print_port (mHostPort u)).
  change (length (bytes "@")) with 1%nat. destruct (portIsValid _); cbn [length]; lia.
Qed.

Lemma Url_of_string_sized s form u : Url_of_string fill pcre_exec s form = Ok u -> sized (length s) u.
Proof.
  unfold Url_of_string. pose proof (length_cstr s). destruct (cstr s) as [|c r] eqn:E; [by intros [= <-]; split; apply Nat.le_0_l|].
  destruct (parseString _ _ (c :: r) form false Url_default) as [[u' t]| | |] eqn:Ep; try done. intros [= <-].
  apply parse_sized in Ep as [Hu Hh]; [|done]. simpl in *. split; lia.
Qed.

(** A parameter value of a parsed URL. *)
Lemma parameter_length name u v u' : ready u -> getUrlParameter name 0 u = Ok (Some v, u') ->
  mpUrlParameters u = None -> (length v <= S (length (mRawUrlParameters u)))%nat.
Proof.
  intros [Hp _] E Hn. unfold lazy_list in Hp. rewrite Hn in Hp. unfold getUrlParameter, parseUrlParameters in E. rewrite Hn in E.
  destruct (mRawUrlParameters u) as [|c raw] eqn:Er; [cbn [obind] in E; rewrite Hn in E; by injection E as E _|].
  destruct (parseCgiVariables _ _ _) as [ps| | |] eqn:Ec; try done. cbn [obind set_url_params mpUrlParameters default] in E.
  apply parseCgiVariables_lengths in Ec; [|apply Hp]. injection E as E _. revert E. generalize 0 as i. unfold id. clear -Ec.
  induction Ec as [|p ps Hp _ IH]; intros i; cbn [nth_named]; [done|]. destruct (_ =? 0); [destruct (i =? 0)|]; [by intros [= <-]|apply IH..].
Qed.

(** ** The signature parameter *)

Lemma consumes_no_groups p st st' s : inside s st -> consumes p st st' -> groups p = [] -> m_caps st' = m_caps st.
Proof.
  intros Hs Hc Hg. destruct (consumes_groups s p _ _ Hc Hs) as (_ & new & -> & _ & Hok).
  destruct Hok as [|c new (q & _ & _ & Hq & _) _]; [done|]. rewrite Hg in Hq. by apply elem_of_nil in Hq.
Qed.

Lemma consumes_group i p st st' s : inside s st -> consumes (PGroup i p) st st' -> groups p = [] ->
  exists w, takes p w /\ between st w st' /\ inside s st' /\ m_caps st' = (i, (m_pos st, m_pos st + length w)%nat) :: m_caps st.
Proof.
  intros Hs Hc Hg. inversion Hc as [| | | | | | | |? ? ? st1 Hp| | |]; subst.
  destruct (consumes_between _ _ _ Hp) as (w & Hw). exists w. split; [by eexists _, _|]. split; [done|].
  split; [exact (inside_between _ _ _ _ Hs Hw)|]. cbn [capture m_caps]. rewrite (consumes_no_groups p st st1 s) by done.
  by destruct Hw as [_ ->].
Qed.

Lemma sub_inside s st w st' : inside s st -> between st w st' ->
  take (m_pos st + length w - m_pos st) (drop (m_pos st) s) = w.
Proof. intros [_ <-] [-> _]. rewrite Nat.add_comm, Nat.add_sub. apply take_app_length. Qed.

Lemma takes_class_repeat c n w : takes (PSeqs (repeat (PCls c) n)) w -> length w = n /\ all c w.
Proof.
  revert w. induction n as [|[|n] IH]; intros w.
  - intros ->%takes_eps. split; [done|constructor].
  - intros (x & -> & Hx)%takes_cls. split; [done|by repeat constructor].
  - intros (a & b & -> & (x & -> & Hx)%takes_cls & (Hl & Hb)%IH)%takes_seqs. split; [simpl; lia|by constructor].
Qed.

Lemma three_groups s m c1 c2 c3 : mt_caps m = [(3%nat, c3); (2%nat, c2); (1%nat, c1)] ->
  MatchString s m 1 = Some (take (snd c1 - fst c1) (drop (fst c1) s))
  /\ MatchString s m 2 = Some (take (snd c2 - fst c2) (drop (fst c2) s))
  /\ MatchString s m 3 = Some (take (snd c3 - fst c3) (drop (fst c3) s)).
Proof. intros E. unfold MatchString, Matches, cap. rewrite E. done. Qed.

(** What the three groups of SignatureRegEx are. *)
Lemma signature_match subject m : pcre_exec SignatureRegEx subject 0 = Some m ->
  exists a ts sep hash b, subject = a ++ ts ++ ":"%char :: sep ++ hash ++ b
    /\ MatchString subject m 1 = Some ts /\ MatchString subject m 2 = Some sep /\ MatchString subject m 3 = Some hash
    /\ ts <> [] /\ all upper_hex ts /\ (sep = [] \/ sep = bytes ":") /\ length hash = 32%nat /\ all lower_hex hash.
Proof.
  intros Hm%pcre_sound. unfold search in Hm. simpl in Hm. rewrite drop_0 in Hm.
  pose proof (search_from_bound _ _ _ _ Hm) as Hle. apply search_from_start in Hm as (_ & st' & Hb & He & Hcaps).
  rewrite Nat.sub_0_r in Hb. set (h := PSeqs (repeat (PCls lower_hex) 32)). assert (groups h = []) as Eh by (vm_compute; reflexivity).
  change SignatureRegEx with (PSeq (PGroup 1 (PPlus (PCls upper_hex))) (PSeq (PChr ":") (PSeq (PGroup 2 (POpt (PChr ":"))) (PGroup 3 h)))) in Hb.
  apply bt_consumes in Hb as (st4 & Hc & [= ->]). assert (inside subject (mkM (mt_start m) (drop (mt_start m) subject) [])) as Hi0 by done.
  apply consumes_seq_inv in Hc as (st1 & H1 & (st2 & H2 & (st3 & H3 & H4)%consumes_seq_inv)%consumes_seq_inv).
  destruct (consumes_group _ _ _ _ subject Hi0 H1 eq_refl) as (ts & T1 & B1 & I1 & C1).
  destruct (consumes_between _ _ _ H2) as (c & B2). assert (c = bytes ":") as -> by (apply takes_chr; by eexists _, _).
  pose proof (inside_between _ _ _ _ I1 B2) as I2. pose proof (consumes_no_groups _ _ _ subject I1 H2 eq_refl) as C2.
  destruct (consumes_group _ _ _ _ subject I2 H3 eq_refl) as (sep & T3 & B3 & I3 & C3).
  destruct (consumes_group _ _ _ _ subject I3 H4 Eh) as (hash & T4 & B4 & I4 & C4).
  rewrite C3, C2, C1 in C4. rewrite C4 in Hcaps. apply takes_plus in T1 as [Hne Hu]. apply takes_class_repeat in T4 as [Hl Hh].
  exists (take (mt_start m) subject), ts, sep, hash, (m_rest st'). split.
  { rewrite <- (take_drop (mt_start m) subject) at 1. f_equal. destruct B1 as [B1 _], B2 as [B2 _], B3 as [B3 _], B4 as [B4 _].
    cbn [m_rest] in B1. rewrite B1, B2, B3, B4. done. }
  destruct (three_groups subject m _ _ _ Hcaps) as (-> & -> & ->). cbn [fst snd].
  pose proof (sub_inside _ _ _ _ Hi0 B1) as S1. pose proof (sub_inside _ _ _ _ I2 B3) as S3. pose proof (sub_inside _ _ _ _ I3 B4) as S4.
  cbn [m_pos] in *. rewrite S1, S3, S4. split_and!; try done.
  apply takes_alt in T3 as [->%takes_chr| ->%takes_eps]; auto.
Qed.

Definition bound_sep (bound : bool) : list ascii := if bound then [] else bytes ":".

(** What makes a signature parameter good for an identity at a time. *)
Definition authentic (now : Z) (param callId fromTag identity : list ascii) (bindRule : DialogRule) : Prop :=
  exists a ts bound b,
    cstr param = a ++ ts ++ ":"%char :: bound_sep bound ++ hex (md5 (signed ts fromTag callId identity bound)) ++ b
    /\ ts <> [] /\ all upper_hex ts
    /\ (bindRule = requireDialogBinding -> bound = true)
    /\ (isNoWait interval = true \/ now <= to_size (Z.min (number_of 16 ts) ULONG_MAX + mSeconds interval)).

(** C25: Decoding returns for every text; an identity that it accepts is the
    one of the URL in the text, whose signature parameter carries, behind a
    time stamp that is not too old, the digest of the stamp with the secret,
    the dialog (always, when binding is required) and that identity; otherwise
    the identity is empty. *)
Theorem identity_authentic now text callId fromTag bindRule :
  NetMd5Codec.short callId -> NetMd5Codec.short fromTag -> Z.of_nat (length text) <= ESCAPES_MAX ->
  exists this, decode fill pcre_exec secret interval now text callId fromTag bindRule = Ok this
    /\ (if mIsValidIdentity this
        then exists u param u', Url_of_string fill pcre_exec text NameAddr = Ok u /\ mScheme u = SipUrlScheme
               /\ mIdentity this = getIdentity u
               /\ getUrlParameter SignatureUrlParamName 0 u = Ok (Some param, u')
               /\ authentic now param callId fromTag (mIdentity this) bindRule
        else mIdentity this = []).
Proof.
  intros Hc Hf Hl. unfold decode. destruct (Url_of_string_ready fill text NameAddr Hl) as (u & Eu & Hsane & Hr & _). rewrite Eu. cbn [obind].
  case_decide as Hsip; [|by exists SipXauthIdentity_new].
  destruct (getUrlParameter_ready SignatureUrlParamName 0 u Hr) as (o & u' & Eg & _). rewrite Eg. cbn [obind].
  destruct o as [param|]; [|by exists SipXauthIdentity_new].
  assert (NetMd5Codec.short param) as Hp.
  { pose proof (parameter_length _ _ _ _ Hr Eg (proj2 (sn_params _ Hsane))) as Hlen. destruct Hr as [Hr _]. unfold lazy_list in Hr.
    rewrite (proj2 (sn_params _ Hsane)) in Hr. unfold NetMd5Codec.short, ESCAPES_MAX in *. lia. }
  assert (NetMd5Codec.short (getIdentity u)) as Hid.
  { pose proof (identity_length _ _ (Url_of_string_sized _ _ _ Eu)). unfold NetMd5Codec.short, ESCAPES_MAX in *. lia. }
  destruct (pcre_exec SignatureRegEx (cstr param) 0) as [m|] eqn:Em; [|by exists SipXauthIdentity_new].
  apply signature_match in Em as (a & ts & sep & hash & b & Ep & -> & -> & -> & Hne & Hu & Hsep & Hlh & Hh).
  assert (Forall stamp_char ts) as Hts by (eapply Forall_impl; [exact Hu|apply upper_hex_stamp]).
  set (bound := bool_decide (Some sep = Some [])). assert (sep = bound_sep bound) as Es by (unfold bound; by destruct Hsep as [-> | ->]).
  destruct (bool_decide (bindRule = requireDialogBinding) && negb bound) eqn:Eb; [by exists SipXauthIdentity_new|].
  rewrite from_string_stamp by done. cbn [negb].
  destruct (negb (isNoWait interval) && (_ <? now)) eqn:Et; [by exists SipXauthIdentity_new|].
  rewrite signature_hash_spec; [cbn [obind]| |done|done|done].
  2: { pose proof (length_cstr param) as Hlc. unfold NetMd5Codec.short in *. rewrite Ep, !length_app in Hlc. lia. }
  destruct (strcmp _ _ =? 0) eqn:Ec; [|by exists SipXauthIdentity_new]. eexists. split; [done|]. cbn [mIsValidIdentity mIdentity].
  exists u, param, u'. split_and!; [done..|]. exists a, ts, bound, b. apply Z.eqb_eq in Ec.
  rewrite strcmp_lex, lexcmp_eq in Ec. rewrite !cstr_id in Ec; [| |apply hex_digest].
  2: { eapply Forall_impl; [exact Hh|]. intros x Hx ->. by vm_compute in Hx. }
  split_and!; [by rewrite Ec, <- Es|done|done| |].
  - intros ->. rewrite bool_decide_true in Eb by done. by destruct bound.
  - apply andb_false_iff in Et as [Et|Et]; [left; by apply negb_false_iff|right; by apply Z.ltb_ge].
Qed.

(** ** An encoded identity *)

Lemma upper_digits_spec fuel n : 0 <= n < 16 ^ Z.of_nat fuel -> fuel <> 0%nat ->
  let l := upper_digits fuel n in l <> [] /\ (length l <= fuel)%nat /\ all upper_hex l /\ number_of 16 l = n.
Proof.
  assert (forall d, 0 <= d < 16 -> upper_hex (upper_digit d) = true /\ digit_of (upper_digit d) = d) as Hd.
  { intros d Hd. assert (forallb (fun n => upper_hex (upper_digit (Z.of_nat n)) && (digit_of (upper_digit (Z.of_nat n)) =? Z.of_nat n)) (seq 0 16) = true)
      as E by (vm_compute; reflexivity).
    rewrite forallb_forall in E. specialize (E (Z.to_nat d)). rewrite in_seq, Z2Nat.id, andb_true_iff, Z.eqb_eq in E by lia. apply E. lia. }
  revert n. induction fuel as [|fuel IH]; intros n Hn Hf; [done|]. cbn [upper_digits]. pose proof (Z.mod_pos_bound n 16 ltac:(lia)).
  destruct (Hd (n mod 16) ltac:(lia)) as [Hx Hv]. destruct (Z.ltb_spec n 16).
  - rewrite app_nil_l. split_and!; [done|simpl; lia|by repeat constructor|]. unfold number_of. cbn [foldl]. rewrite Hv, Z.mod_small by lia. lia.
  - destruct (IH (n / 16)) as (Hne & Hl & Ha & Hn'); [|by destruct fuel; [simpl in Hn; lia|]|].
    { rewrite Nat2Z.inj_succ, Z.pow_succ_r in Hn by lia. split; [apply Z.div_pos; lia|apply Z.div_lt_upper_bound; lia]. }
    split_and!; [by destruct (upper_digits fuel _)|rewrite length_app; simpl; lia|apply Forall_app; split; [done|by repeat constructor]|].
    rewrite number_of_snoc, Hn', Hv. pose proof (Z.div_mod n 16). lia.
Qed.

Lemma bt_class_repeat c n w r st k : m_rest st = w ++ r -> length w = S n -> all c w ->
  bt (PSeqs (repeat (PCls c) (S n))) st k = k (advance (S n) st).
Proof.
  revert w st. induction n as [|n IH]; intros w st E Hl Ha; (destruct Ha as [|x w Hx Ha]; [done|]).
  - change (bt (PCls c) st k = k (advance 1 st)). by apply (bt_cls_hit c st k x (w ++ r)).
  - change (bt (PCls c) st (fun st' => bt (PSeqs (repeat (PCls c) (S n))) st' k) = k (advance (S (S n)) st)).
    rewrite (bt_cls_hit c st _ x (w ++ r)) by done. rewrite (IH w); [by rewrite advance_advance| |simpl in Hl; lia|done].
    cbn [advance m_rest]. by rewrite E.
Qed.

(** The search finds a signature that fills the subject. *)
Lemma signature_found ts bound hash :
  let s := ts ++ ":"%char :: bound_sep bound ++ hash in
  ts <> [] -> all upper_hex ts -> length hash = 32%nat -> all lower_hex hash -> (length s <= pcre_limit SignatureRegEx)%nat ->
  exists m, pcre_exec SignatureRegEx s 0 = Some m
    /\ MatchString s m 1 = Some ts /\ MatchString s m 2 = Some (bound_sep bound) /\ MatchString s m 3 = Some hash.
Proof.
  intros s Hne Hu Hl Hh Hlim. rewrite pcre_complete by done. set (h := PSeqs (repeat (PCls lower_hex) 32)).
  set (n1 := length ts). set (n2 := (n1 + 1 + length (bound_sep bound))%nat).
  set (caps := [(3%nat, (n2, (n2 + 32)%nat)); (2%nat, ((n1 + 1)%nat, n2)); (1%nat, (0%nat, n1))]).
  rewrite (search_here SignatureRegEx s 0 (mkM (n2 + 32) [] caps)); [|lia|].
  2: { change SignatureRegEx with (PSeq (PGroup 1 (PPlus (PCls upper_hex))) (PSeq (PChr ":") (PSeq (PGroup 2 (POpt (PChr ":"))) (PGroup 3 h)))).
    rewrite bt_seq, bt_group, drop_0. unfold PPlus. rewrite bt_seq. subst s n1. destruct Hu as [|x ts Hx Hu]; [done|].
    rewrite (bt_cls_hit _ _ _ x (ts ++ ":"%char :: bound_sep bound ++ hash)) by done.
    apply (bt_run_all upper_hex _ _ ts (":"%char :: bound_sep bound ++ hash)); [done|done|done|].
    rewrite advance_advance. change (1 + length ts)%nat with (length (x :: ts)). rewrite at_advance by done. cbn [capture m_pos m_rest m_caps].
    rewrite bt_seq, (bt_chr _ _ _ (bound_sep bound ++ hash)) by done. rewrite bt_seq, bt_group.
    assert (none_of (fun c => bool_decide (c = ":"%char)) hash) as Hcol.
    { destruct Hh as [|y hash Hy _]; [done|]. simpl. apply bool_decide_eq_false. intros ->. by vm_compute in Hy. }
    change (advance 1 (mkM ?p (?c :: ?l) ?cs)) with (mkM (p + 1) l cs). destruct bound.
    - unfold POpt. rewrite bt_alt, bt_chr_fail. 2: { intros r E. change (hash = ":"%char :: r) in E. rewrite E in Hcol. by apply bool_decide_eq_false in Hcol. }
      change (bt PEps ?st ?k) with (k st). cbn beta. rewrite bt_group. cbn [capture m_pos m_rest m_caps bound_sep app].
      rewrite (bt_class_repeat lower_hex 31 hash []); [|by rewrite app_nil_r|done|done].
      unfold capture, advance, caps, n2. cbn [m_pos m_rest m_caps bound_sep]. rewrite !drop_ge by (rewrite ?length_drop; simpl; lia).
      rewrite Nat.add_0_l. simpl length. by rewrite !Nat.add_0_r.
    - unfold POpt. rewrite bt_alt. rewrite (bt_chr _ _ _ hash) by done. change (advance 1 (mkM ?p (bound_sep false ++ ?l) ?cs)) with (mkM (p + 1) l cs).
      rewrite bt_group. cbn [capture m_pos m_rest m_caps].
      rewrite (bt_class_repeat lower_hex 31 hash []); [|by rewrite app_nil_r|done|done].
      unfold capture, advance, caps, n2. cbn [m_pos m_rest m_caps bound_sep]. rewrite !drop_ge by (rewrite ?length_drop; simpl; lia).
      rewrite Nat.add_0_l. done. }
  cbn [m_pos m_caps]. eexists. split; [done|]. destruct (three_groups s (mkMatch 0 (n2 + 32) caps) (0, n1)%nat ((n1 + 1)%nat, n2) (n2, (n2 + 32)%nat) eq_refl) as (-> & -> & ->).
  cbn [fst snd]. split_and!; f_equal.
  - apply (sub_split [] ts (":"%char :: bound_sep bound ++ hash)); [done|done|simpl; lia].
  - apply (sub_split (ts ++ bytes ":") (bound_sep bound) hash); [unfold s; by rewrite <- app_assoc|by rewrite length_app|].
    rewrite length_app. unfold n2. simpl. lia.
  - apply (sub_split (ts ++ ":"%char :: bound_sep bound) hash []); [unfold s; by rewrite app_nil_r, <- app_assoc| |];
      rewrite length_app; unfold n2; simpl; lia.
Qed.

Lemma hex_lower l : all lower_hex (hex l).
Proof.
  induction l as [|c l IH]; [constructor|]. unfold hex. cbn [flat_map]. apply Forall_app. split; [|exact IH].
  assert (forall c, all lower_hex [hex_digit (Z.shiftr (uchar c) 4); hex_digit (Z.land (uchar c) 15)]) as Hc; [|apply Hc].
  clear. intros c. repeat constructor; all_bytes c; reflexivity.
Qed.

(** The text that carries an identity. *)
Definition signature_text (seconds : Z) (callId fromTag identity : list ascii) (bindRule : DialogRule) : list ascii :=
  let bound := bool_decide (bindRule = requireDialogBinding) in
  fmt_lX seconds ++ ":"%char :: bound_sep bound ++ hex (md5 (signed (fmt_lX seconds) fromTag callId identity bound)).
Definition with_signature (v : Url) (sig : list ascii) : Url :=
  set_url_params [] (Some [(SignatureUrlParamName, Some sig)]) (set_scheme SipUrlScheme v).

(** A URL that an identity can be read from: nothing in it but user, host
    and port needs to be there. *)
Definition names (v : Url) (identity : list ascii) : Prop :=
  Url_of_string fill pcre_exec identity NameAddr = Ok v /\ getIdentity v = identity
  /\ wf_sip_url (set_scheme SipUrlScheme v) /\ mpUrlParameters v = None.

Section Encoded.
Context (v : Url) (identity callId fromTag : list ascii) (Hv : names v identity).
Context (Hid : NetMd5Codec.short identity) (Hcall : NetMd5Codec.short callId) (Htag : NetMd5Codec.short fromTag).

Lemma stamp_facts seconds : 0 <= seconds < 2 ^ 63 ->
  let l := fmt_lX seconds in l <> [] /\ (length l <= 16)%nat /\ all upper_hex l /\ number_of 16 l = seconds.
Proof.
  intros Hs. unfold fmt_lX, to_size. rewrite Z.mod_small by lia. apply upper_digits_spec; [simpl; lia|done].
Qed.

Lemma signature_nul_free seconds bindRule : 0 <= seconds < 2 ^ 63 -> nul_free (signature_text seconds callId fromTag identity bindRule).
Proof.
  intros Hs. destruct (stamp_facts seconds Hs) as (_ & _ & Hu & _). unfold signature_text. apply Forall_app. split.
  - apply stamp_nul_free. eapply Forall_impl; [exact Hu|apply upper_hex_stamp].
  - constructor; [done|]. apply Forall_app. split; [by case_bool_decide; repeat constructor|apply hex_digest].
Qed.

Lemma with_signature_wf sig : nul_free sig -> wf_sip_url (with_signature v sig).
Proof.
  intros Hs. destruct Hv as (_ & _ & [] & _). split; try done; [by split; [|apply wu_raw]|]. split; [done|].
  constructor; [|constructor]. split; [done|]. split; [|by exists sig]. apply all_of. by vm_compute.
Qed.

Lemma with_signature_brackets sig : name_addr (with_signature v sig) = true.
Proof. unfold name_addr. cbn. by rewrite !orb_true_r. Qed.

Lemma encode_spec timestamp time bindRule :
  cvtToTimeSinceEpoch timestamp = Ok time -> 0 <= mSeconds time < 2 ^ 63 ->
  let u := with_signature v (signature_text (mSeconds time) callId fromTag identity bindRule) in
  exists f, print_field_params pcre_exec (default [] (mpFieldParameters u)) = Ok f
    /\ encode fill pcre_exec secret identity callId fromTag timestamp bindRule = Ok (mDisplayName u ++ "<"%char :: uri_text u ++ ">"%char :: f).
Proof.
  intros Et Hs u. destruct (stamp_facts _ Hs) as (_ & Hl & _). pose proof (signature_nul_free (mSeconds time) bindRule Hs) as Hn.
  destruct (toString_text u (with_signature_wf _ Hn)) as (f & Ef & E). exists f. split; [done|].
  unfold encode. rewrite Et. cbn [obind]. rewrite signature_hash_spec; [cbn [obind]|unfold NetMd5Codec.short; lia|done..].
  destruct Hv as (Ev & _ & Hwf & Hp). rewrite Ev. cbn [obind]. unfold setUrlParameter. rewrite (proj1 (wf_params_parsed _ Hwf)). cbn [obind].
  assert (mpUrlParameters (set_scheme SipUrlScheme v) = None) as -> by done. rewrite (proj1 (wu_raw _ Hwf)). cbn [default set_param find_param].
  assert (forall x, set_param SignatureUrlParamName (Some x) [] = [(SignatureUrlParamName, Some x)]) as -> by done.
  replace (fmt_lX (mSeconds time) ++ SignatureFieldSeparator ++ _ ++ _)
    with (signature_text (mSeconds time) callId fromTag identity bindRule)
    by (unfold signature_text, bound_sep, SignatureFieldSeparator; by case_bool_decide).
  rewrite cstr_id by done. change (toString pcre_exec _) with (toString pcre_exec u). rewrite E. cbn [obind].
  unfold u at 2. rewrite with_signature_brackets. cbn [app]. by rewrite <- app_assoc.
Qed.

Lemma encoded_nul_free timestamp time bindRule t :
  cvtToTimeSinceEpoch timestamp = Ok time -> 0 <= mSeconds time < 2 ^ 63 ->
  encode fill pcre_exec secret identity callId fromTag timestamp bindRule = Ok t -> nul_free t.
Proof.
  intros Et Hs E. destruct (encode_spec timestamp time bindRule Et Hs) as (f & Ef & E'). rewrite E in E'. injection E' as ->.
  pose proof (with_signature_wf _ (signature_nul_free (mSeconds time) bindRule Hs)) as Hwf. destruct (toString_text _ Hwf) as (f' & Ef' & Es).
  rewrite Ef in Ef'. injection Ef' as <-. rewrite with_signature_brackets in Es. pose proof (toString_nul_free _ _ Hwf Es) as H'.
  cbn [app] in H'. by rewrite <- app_assoc in H'.
Qed.

(** What was encoded for a dialog is accepted in that dialog, with the same
    identity, exactly until the validity interval after its time stamp has
    passed (for ever, when the interval is zero). *)
Lemma encoded_accepted now timestamp time bindRule bindRule' :
  cvtToTimeSinceEpoch timestamp = Ok time -> 0 <= mSeconds time < 2 ^ 62 -> 0 <= mSeconds interval < 2 ^ 62 ->
  (bindRule' = requireDialogBinding -> bindRule = requireDialogBinding) -> (50 <= pcre_limit SignatureRegEx)%nat ->
  exists t, encode fill pcre_exec secret identity callId fromTag timestamp bindRule = Ok t
    /\ (UrlSpec.short t -> decode fill pcre_exec secret interval now t callId fromTag bindRule'
          = Ok (if isNoWait interval || (now <=? mSeconds time + mSeconds interval) then mkIdentity true identity else SipXauthIdentity_new)).
Proof.
  intros Et Hs Hi Hrule Hlim. destruct (encode_spec timestamp time bindRule Et ltac:(lia)) as (f & Ef & Ee). eexists. split; [exact Ee|].
  apply (encoded_nul_free _ _ _ _ Et ltac:(lia)) in Ee as Hnt.
  pose proof (signature_nul_free (mSeconds time) bindRule ltac:(lia)) as Hn. set (sig := signature_text _ _ _ _ _) in *.
  set (u := with_signature v sig) in *. pose proof (with_signature_wf sig Hn : wf_sip_url u) as Hwf. intros Ht.
  unfold decode. rewrite (url_of_parse fill _ _ _ Hnt ltac:(by destruct (mDisplayName u)) (parse_name_addr fill u f Hwf Ef Ht)). cbn [obind].
  rewrite decide_True by done. assert (getIdentity (set_field_params (mpFieldParameters u) (parsed u (mDisplayName u))) = identity) as -> by apply Hv.
  unfold getUrlParameter. rewrite (force_params _ _ (mpUrlParameters u)) by (done || apply Hwf). cbn [obind].
  change (nth_named _ 0 _) with (Some sig). cbn iota zeta. rewrite cstr_id by done.
  destruct (stamp_facts (mSeconds time) ltac:(lia)) as (Hne & Hl & Hu & Hnum). set (bound := bool_decide (bindRule = requireDialogBinding)).
  assert (Forall stamp_char (fmt_lX (mSeconds time))) as Hst by (eapply Forall_impl; [exact Hu|apply upper_hex_stamp]).
  destruct (hex_digest (signed (fmt_lX (mSeconds time)) fromTag callId identity bound)) as [Hlh _].
  destruct (signature_found (fmt_lX (mSeconds time)) bound _ Hne Hu Hlh (hex_lower _)) as (m & Em & M1 & M2 & M3).
  { rewrite length_app. cbn [length]. rewrite length_app, Hlh. assert (length (bound_sep bound) <= 1)%nat by (by destruct bound; simpl; lia). lia. }
  change (fmt_lX (mSeconds time) ++ _) with sig in Em, M1, M2, M3. rewrite Em, M1, M2, M3.
  assert (bool_decide (Some (bound_sep bound) = Some []) = bound) as -> by (by destruct bound).
  assert (bool_decide (bindRule' = requireDialogBinding) && negb bound = false) as ->.
  { unfold bound. case_bool_decide as Hb; [|done]. by rewrite (bool_decide_true _ (Hrule Hb)). }
  rewrite from_string_stamp by done. rewrite Hnum. cbn [negb]. unfold to_size. rewrite Z.min_l by (unfold ULONG_MAX; lia). rewrite Z.mod_small by lia.
  destruct (isNoWait interval); cbn [negb andb orb]; [|destruct (Z.ltb_spec (mSeconds time + mSeconds interval) now)].
  2: { by rewrite (proj2 (Z.leb_gt _ _)) by lia. }
  2: rewrite (proj2 (Z.leb_le _ _)) by lia.
  all: rewrite signature_hash_spec; [|unfold NetMd5Codec.short; lia|done..]; cbn [obind]; by rewrite strcmp_refl.
Qed.
End Encoded.
End Spec.

(** ** Concrete identities *)

Module IdentityExamples.
Definition fill : nat -> ascii := fun _ => "?"%char.
Definition secret : list ascii := bytes "testsecret".
Definition callId : list ascii := bytes "f88dfabce84b6a2787ef024a7dbe8749".
Definition fromTag : list ascii := bytes "30543f3483e1cb11ecb40866edd3295b".
Definition identity : list ascii := bytes "identity@example.com".
Definition hour : OsTime := mkOsTime 3600 0.
(** 24 July 2007, 2:00:19 *)
Definition made : OsDateTime := mkOsDateTime 2007 6 24 2 0 19 0.
Definition time : OsTime := mkOsTime 1185242419 0.
(** The text of the unit test *)
Definition text : list ascii := bytes "<sip:identity@example.com;signature=46A55D33%3A56681beb4f29fc796f6ae9d0ad0269d2>".

Example encoded : encode fill search secret identity callId fromTag made requireDialogBinding = Ok text.
Proof. vm_compute. reflexivity. Qed.

Example decoded : decode fill search secret hour 1185246019 text callId fromTag requireDialogBinding = Ok (mkIdentity true identity)
  /\ decode fill search secret hour 1185246020 text callId fromTag requireDialogBinding = Ok SipXauthIdentity_new
  /\ decode fill search secret hour 1185246019 text (bytes "x") fromTag requireDialogBinding = Ok SipXauthIdentity_new.
Proof. vm_compute. done. Qed.

(** What is hashed has no separators: a caller who is [xadmin] in the call
    [c] is [admin] in the call [cx], with the same signature. *)
Definition moved (user : string) : list ascii := bytes ("<sip:" ++ user ++ "@example.com;signature=46A55D33%3Ae64e693ff9848e21b527cf63e8fbc2d1>").
Example identity_not_delimited :
  encode fill search secret (bytes "xadmin@example.com") (bytes "c") fromTag made requireDialogBinding = Ok (moved "xadmin")
  /\ decode fill search secret hour 1185242419 (moved "admin") (bytes "cx") fromTag requireDialogBinding
     = Ok (mkIdentity true (bytes "admin@example.com")).
Proof. vm_compute. done. Qed.

Lemma identity_authentic_witness :
  exists this, decode fill search secret hour 1185246019 text callId fromTag requireDialogBinding = Ok this
    /\ mIsValidIdentity this = true
    /\ exists u param u', Url_of_string fill search text NameAddr = Ok u /\ mScheme u = SipUrlScheme /\ mIdentity this = getIdentity u
         /\ getUrlParameter SignatureUrlParamName 0 u = Ok (Some param, u')
         /\ authentic secret hour 1185246019 param callId fromTag (mIdentity this) requireDialogBinding.
Proof.
  destruct (identity_authentic fill (H := search_Pcre 200) secret hour ltac:(short_text) 1185246019 text callId fromTag requireDialogBinding
    ltac:(short_text) ltac:(short_text) ltac:(vm_compute; done)) as (this & E & Hthis).
  exists this. split; [done|]. rewrite (proj1 decoded) in E. injection E as <-. split; [done|exact Hthis].
Defined.

(** The URL of the identity *)
Definition identity_url : Url := mkUrl SipUrlScheme [] (bytes "identity") [] false (bytes "example.com") PORT_NONE [] [] None [] None None false.

Lemma identity_names : names fill (pcre_exec := search) identity_url identity.
Proof.
  split; [vm_compute; reflexivity|]. split; [vm_compute; reflexivity|]. split; [|done].
  split; cbn [identity_url set_scheme mScheme mDisplayName mUserId mPassword mHostAddress mHostPort mPath mRawUrlParameters
    mRawHeaderOrQueryParameters mpUrlParameters mpHeaderOrQueryParameters mpFieldParameters]; try done.
  - split; [constructor|by left].
  - by apply units_of.
  - split; [constructor|done].
  - left. apply (domain_more (bytes "example") (bytes "com")); [|constructor]; right;
      [exists "e"%char, (bytes "xampl"), "e"%char|exists "c"%char, (bytes "o"), "m"%char]; split_and!; try done; by apply all_of.
  - by left.
Qed.
End IdentityExamples.

(** * Identities in messages

    What remove, normalize and insert do to the headers of a message, and that
    an inserted identity is read back from the message. *)
Lemma header_text_nul_free h : nul_free (header_text h).
Proof. apply nul_free_of. by destruct h. Qed.

Lemma count_values l es name : table l es -> nul_free name ->
  getCountHeaderFields l name = Z.of_nat (length (values_of (upper name) es)).
Proof.
  intros [Hf Hn] Hname. unfold getCountHeaderFields. f_equal. apply upper_nul_free in Hname. fold (upper name).
  induction Hf as [|nv [m w] l es [Hm _] Hf IH]; [done|]. inversion Hn as [|? ? Hm' Hn']; subst. simpl in Hm, Hm'. specialize (IH Hn').
  rewrite filter_cons. destruct (decide (m = upper name)) as [-> |Hne].
  - rewrite decide_True by (unfold has_name; rewrite Hm; apply strcmp_refl). rewrite values_of_cons_eq. cbn [length]. by rewrite IH.
  - rewrite decide_False; [by rewrite values_of_cons_ne|]. intros Hh. apply Hne. apply strcmp_eq_nul_free; [done|done|]. by rewrite <- Hm.
Qed.

Lemma remove_down_spec l es name count : table l es -> nul_free name -> (count <= length (values_of (upper name) es))%nat ->
  exists es', table (remove_down name count l) es' /\ values_of (upper name) es' = drop count (values_of (upper name) es)
    /\ forall m, m <> upper name -> values_of m es' = values_of m es.
Proof.
  revert l es. induction count as [|i IH]; intros l es Ht Hn Hc; [by exists es|]. cbn [remove_down].
  destruct (removeHeader_spec l es name i Ht Hn) as (l1 & es1 & -> & Ht1 & Hv1 & Ho1). cbn [snd].
  destruct (IH l1 es1 Ht1 Hn) as (es2 & Ht2 & Hv2 & Ho2); [rewrite Hv1, length_delete by (apply lookup_lt_is_Some; lia); lia|].
  exists es2. split; [done|]. split; [|by intros m Hm; rewrite Ho2, Ho1]. rewrite Hv2, Hv1, delete_take_drop.
  rewrite drop_app_le, drop_ge by (rewrite length_take; lia). done.
Qed.

(** remove leaves no identity of the name, normalize only the last one. *)
Lemma remove_spec h l es : table l es ->
  exists es', table (remove h l) es' /\ values_of (upper (header_text h)) es' = []
    /\ forall m, m <> upper (header_text h) -> values_of m es' = values_of m es.
Proof.
  intros Ht. pose proof (header_text_nul_free h) as Hn. unfold remove. rewrite (count_values l es) by done.
  destruct (Z.ltb_spec 0 (Z.of_nat (length (values_of (upper (header_text h)) es)))).
  - rewrite Nat2Z.id. destruct (remove_down_spec l es (header_text h) _ Ht Hn (Nat.le_refl _)) as (es' & ? & E & ?).
    exists es'. by rewrite E, drop_all.
  - exists es. split; [done|]. split; [|done]. apply nil_length_inv. lia.
Qed.

Lemma normalize_spec h l es : table l es ->
  let vs := values_of (upper (header_text h)) es in
  exists es', table (normalize h l) es' /\ values_of (upper (header_text h)) es' = drop (length vs - 1) vs
    /\ forall m, m <> upper (header_text h) -> values_of m es' = values_of m es.
Proof.
  intros Ht vs. pose proof (header_text_nul_free h) as Hn. unfold normalize. rewrite (count_values l es) by done. fold vs.
  destruct (Z.ltb_spec 1 (Z.of_nat (length vs))).
  - replace (Z.to_nat (Z.of_nat (length vs) - 1)) with (length vs - 1)%nat by lia. apply remove_down_spec; [done..|fold vs; lia].
  - exists es. replace (length vs - 1)%nat with 0%nat by lia. done.
Qed.

Section Messages.
Context (fill : nat -> ascii) `{Pcre pcre_exec} (secret : list ascii) (interval : OsTime).

(** The call of a message is in headers that no identity is in. *)
Lemma dialog_of_values m m' es es' h :
  table (mNameValues m) es -> table (mNameValues m') es' ->
  (forall n, n <> upper (header_text h) -> values_of n es' = values_of n es) -> dialog_of fill pcre_exec m' = dialog_of fill pcre_exec m.
Proof.
  intros Ht Ht' Ho. unfold dialog_of. destruct (getFields m es Ht) as (_ & _ & -> & _). destruct (getFields m' es' Ht') as (_ & _ & -> & _).
  rewrite (proj1 (getUrls fill m es Ht)), (proj1 (getUrls fill m' es' Ht')). unfold first_value. rewrite !Ho by (by destruct h). done.
Qed.

(** The constructor reads the last header of the name. *)
Lemma identity_of_values now m es h bindRule : table (mNameValues m) es ->
  SipXauthIdentity_of fill pcre_exec secret interval now m h bindRule
  = let! (callId, fromTag) := dialog_of fill pcre_exec m in
    match last (values_of (upper (header_text h)) es) with
    | Some v => decode fill pcre_exec secret interval now v callId fromTag bindRule
    | None => Ok SipXauthIdentity_new
    end.
Proof.
  intros Ht. unfold SipXauthIdentity_of. destruct (dialog_of _ _ m) as [[callId fromTag]| | |]; try done. cbn [obind].
  pose proof (header_text_nul_free h) as Hn. unfold decode_header. rewrite (count_values _ es) by done. set (vs := values_of _ es).
  rewrite last_lookup. destruct (Z.leb_spec 1 (Z.of_nat (length vs))).
  - replace (Z.of_nat (length vs) - 1) with (Z.of_nat (pred (length vs))) by lia. rewrite (getHeaderValue_nth _ es) by done. fold vs.
    cbn [obind]. destruct (vs !! pred (length vs)) as [[|c w]|] eqn:E; [done|done|]. apply lookup_ge_None in E. lia.
  - rewrite (lookup_ge_None_2 vs) by lia. done.
Qed.

(** Normalizing does not change which identity is read. *)
Lemma normalize_identity now m h bindRule es : table (mNameValues m) es ->
  SipXauthIdentity_of fill pcre_exec secret interval now (mkMsg (mFirstHeaderLine m) (normalize h (mNameValues m))) h bindRule
  = SipXauthIdentity_of fill pcre_exec secret interval now m h bindRule.
Proof.
  intros Ht. destruct (normalize_spec h _ es Ht) as (es' & Ht' & Hv & Ho). set (m' := mkMsg _ _).
  rewrite (identity_of_values now m' es' h bindRule Ht'), (identity_of_values now m es h bindRule Ht). rewrite Hv.
  rewrite (dialog_of_values m m' es es' h) by done. set (vs := values_of _ es). replace (last (drop (length vs - 1) vs)) with (last vs); [done|].
  rewrite !last_lookup, length_drop, lookup_drop. f_equal. lia.
Qed.

Context (Hsecret : NetMd5Codec.short secret).

(** C24: insert replaces every identity header of the message by one, in
    which the identity is signed for the dialog of the message, and leaves the
    other headers alone; a server with the same secret reads the same identity
    from the message, exactly until the validity interval after the time stamp
    has passed. *)
Theorem inserted_identity_read v identity m es callId fromTag timestamp time clock now bindRule :
  names fill (pcre_exec := pcre_exec) v identity -> NetMd5Codec.short identity ->
  table (mNameValues m) es -> dialog_of fill pcre_exec m = Ok (callId, fromTag) ->
  NetMd5Codec.short callId -> NetMd5Codec.short fromTag ->
  cvtToTimeSinceEpoch (default clock timestamp) = Ok time -> 0 <= mSeconds time < 2 ^ 62 -> 0 <= mSeconds interval < 2 ^ 62 ->
  (50 <= pcre_limit SignatureRegEx)%nat ->
  exists t m' es',
    insert fill pcre_exec secret (setIdentity identity SipXauthIdentity_new) AuthIdentityHeaderName timestamp clock m = Ok (true, m')
    /\ table (mNameValues m') es' /\ mFirstHeaderLine m' = mFirstHeaderLine m
    /\ values_of (upper (header_text AuthIdentityHeaderName)) es' = [t]
    /\ (forall n, n <> upper (header_text AuthIdentityHeaderName) -> values_of n es' = values_of n es)
    /\ (UrlSpec.short t -> SipXauthIdentity_of fill pcre_exec secret interval now m' AuthIdentityHeaderName bindRule
          = Ok (if isNoWait interval || (now <=? mSeconds time + mSeconds interval) then mkIdentity true identity else SipXauthIdentity_new)).
Proof.
  intros Hv Hid Ht Hd Hc Hf Etime Htime Hint Hlim. set (h := AuthIdentityHeaderName).
  destruct (encoded_accepted fill secret interval Hsecret v identity callId fromTag Hv Hid Hc Hf now _ _ requireDialogBinding bindRule
    Etime Htime Hint ltac:(done) Hlim) as (t & Et & Hdec).
  pose proof (encoded_nul_free fill secret Hsecret v identity callId fromTag Hv Hid Hc Hf _ _ _ t Etime ltac:(lia) Et) as Hn.
  destruct (remove_spec h _ es Ht) as (es1 & Ht1 & Hv1 & Ho1). set (m1 := mkMsg (mFirstHeaderLine m) (remove h (mNameValues m))).
  assert (dialog_of fill pcre_exec m1 = Ok (callId, fromTag)) as Hd1 by (rewrite (dialog_of_values m m1 es es1 h); done).
  destruct (addHeaderField_spec fill _ es1 (header_text h) t Ht1 (header_text_nul_free h) Hn) as (l' & El & Htl).
  set (m' := mkMsg (mFirstHeaderLine m) l'). set (es' := es1 ++ [(upper (header_text h), t)]).
  assert (values_of (upper (header_text h)) es' = [t]) as Hv' by (unfold es'; by rewrite values_of_app, Hv1, values_of_cons_eq).
  assert (forall n, n <> upper (header_text h) -> values_of n es' = values_of n es) as Ho'.
  { intros n Hne. unfold es'. by rewrite values_of_app, values_of_cons_ne, app_nil_r, Ho1. }
  exists t, m', es'. split; [|split_and!; [done..|]].
  - unfold insert. cbn [mIsValidIdentity mIdentity setIdentity]. fold m1. unfold dialog_of in Hd1.
    destruct (getCallIdField m1) as [c| | |]; try done. cbn [obind] in *. destruct (getFromUrl fill pcre_exec m1) as [f| | |]; try done.
    cbn [obind] in *. injection Hd1 as -> ->. rewrite Et. cbn [obind]. rewrite decide_False by done. rewrite cstr_id by done.
    cbn [mNameValues m1]. rewrite El. done.
  - intros Hs. rewrite (identity_of_values now m' es' h bindRule Htl), Hv'. rewrite (dialog_of_values m m' es es' h) by done.
    rewrite Hd. cbn [obind last]. by apply Hdec.
Qed.
End Messages.

(** ** Witness *)

Module HeaderExamples.
Import IdentityExamples.

(** A request that carries two forged identities *)
Definition headers : list header :=
  [(bytes "FROM", bytes "Caller <sip:caller@example.org>; tag=30543f3483e1cb11ecb40866edd3295b");
   (bytes "X-SIPX-AUTHIDENTITY", bytes "<sip:root@example.com;signature=46A55D33%3Ac3452b346f3c63a929441ba27d9344d9>");
   (bytes "CALL-ID", callId);
   (bytes "X-SIPX-AUTHIDENTITY", bytes "Blah-Blah")].
Definition request : SipMessage := mkMsg (bytes "INVITE sip:user@somewhere.example.com SIP/2.0") (pair_of <$> headers).

Lemma request_table : table (mNameValues request) headers.
Proof.
  split; [apply pairs_of|]; repeat (apply Forall_cons_2; [apply (bool_decide_unpack _); vm_compute; exact I|]); apply Forall_nil_2.
Qed.

Lemma inserted_identity_read_witness :
  exists m', insert fill search secret (setIdentity identity SipXauthIdentity_new) AuthIdentityHeaderName (Some made) made request = Ok (true, m')
    /\ SipXauthIdentity_of fill search secret hour 1185246019 m' AuthIdentityHeaderName requireDialogBinding = Ok (mkIdentity true identity).
Proof.
  destruct (inserted_identity_read fill (H := search_Pcre 200) secret hour ltac:(short_text) identity_url identity request headers callId fromTag
    (Some made) time made 1185246019 requireDialogBinding identity_names ltac:(short_text) request_table ltac:(vm_compute; reflexivity)
    ltac:(short_text) ltac:(short_text) ltac:(vm_compute; reflexivity) ltac:(vm_compute; done) ltac:(vm_compute; done)
    ltac:(apply Nat.leb_le; vm_compute; reflexivity)) as (t & m' & es' & E & Ht & _ & Hv & _ & Hread).
  exists m'. split; [exact E|]. rewrite Hread; [reflexivity|]. apply short_of.
  vm_compute in E. injection E as <-. pose proof (getHeaderValue_nth _ _ (header_text AuthIdentityHeaderName) 0 Ht (header_text_nul_free _)) as G.
  rewrite Hv in G. vm_compute in G. destruct t as [|c t]; [simpl; lia|]. injection G as <- <-. apply Nat.leb_le. vm_compute. reflexivity.
Defined.
End HeaderExamples.
