(* ===== verification/HttpAuth.v ===== *)
(** * Digest authentication

    [NetAttributeTokenizer.cpp] and the parts of [HttpMessage.cpp] and
    [SipMessage.cpp] that write and read challenges and credentials
    (RFC 2617), and verify the digest of a request. *)
From Stdlib Require Import ZArith Lia Ascii String.
From stdpp Require Import base list strings.
From S2P Require Import Prelude UtlString NetMd5Codec NameValuePair HttpMessage Format Pcre UrlCodec Url RouteStateMsg ProxyRoutes SipMatch.
Local Open Scope Z_scope.

(** ** NetAttributeTokenizer *)

Definition attributeSeparators : list ascii := bytes ", " ++ ["009"; "010"; "013"]%char.
Definition quoteCharacters : list ascii := ["'"%char; DQUOTE].
Definition is_separator (c : ascii) : bool := bool_decide (c ∈ attributeSeparators).
Definition is_quote (c : ascii) : bool := bool_decide (c ∈ quoteCharacters).
Definition is_equals (c : ascii) : bool := bool_decide (c = "="%char).

(** The object: the length of attributeParseString and what is left of it
    from parseIndex on; the text has no NUL, and a parseIndex behind the end is
    one at the end. *)
Record NetAttributeTokenizer := mkTokenizer { t_length : Z; t_rest : list ascii }.
Definition NetAttributeTokenizer_new (parseString : list ascii) : NetAttributeTokenizer :=
  mkTokenizer (Z.of_nat (length (cstr parseString))) (cstr parseString).

(** The bytes of the buffer of a UtlString that was empty and had a text of
    [n] characters appended *)
Definition appended_capacity (n : Z) : Z :=
  if DEFAULT_UTLSTRING_CAPACITY <? n + 1 then Z.max (DEFAULT_UTLSTRING_CAPACITY + UTLSTRING_MIN_INCREMENT) (n + 1)
  else DEFAULT_UTLSTRING_CAPACITY.

(** The quoted value and what is left from its end quote on; a quote character
    after an odd number of backslashes does not end it *)
Fixpoint quoted_value (escapeCount : nat) (l : list ascii) : list ascii * list ascii :=
  match l with
  | [] => ([], [])
  | c :: l' =>
      if is_quote c && Nat.even escapeCount then ([], l)
      else
        let '(v, rest) := quoted_value (if decide (c = BACKSLASH) then S escapeCount else O) l' in
        (c :: v, rest)
  end.

(** getNextAttribute: the result, the name and the value.  An equals sign at
    the end is taken for the start of a quoted value, since the terminator is
    found in the quote characters, and the byte behind it is read. *)
Definition getNextAttribute (t : NetAttributeTokenizer) : outcome (bool * list ascii * list ascii * NetAttributeTokenizer) :=
  let rest := snd (span is_separator (t_rest t)) in
  let '(attributeName, rest) := span (fun c => negb (is_separator c) && negb (is_equals c)) rest in
  let '(between, rest) := span (fun c => is_separator c || is_equals c) rest in
  let! (attributeValue, rest) :=
    (if existsb is_equals between then
       match rest with
       | [] => if t_length t + 1 <? appended_capacity (t_length t) then Ok ([], []) else UB
       | c :: rest' =>
           if is_quote c then let '(v, rest) := quoted_value 0 rest' in Ok (v, drop 1 rest)
           else Ok (span (fun c => negb (is_separator c)) rest)
       end
     else Ok ([], rest)) in
  Ok (bool_decide (attributeName <> []), attributeName, attributeValue, mkTokenizer (t_length t) rest).

(** ** Credentials *)

Definition HTTP_PROXY_AUTHORIZATION_FIELD : list ascii := bytes "PROXY-AUTHORIZATION".
Definition HTTP_PROXY_AUTHENTICATE_FIELD : list ascii := bytes "PROXY-AUTHENTICATE".
Definition HTTP_DIGEST_AUTHENTICATION : list ascii := bytes "Digest".
Definition HTTP_AUTHENTICATION_REALM_TOKEN : list ascii := bytes "realm".
Definition HTTP_AUTHENTICATION_NONCE_TOKEN : list ascii := bytes "nonce".
Definition HTTP_AUTHENTICATION_CNONCE_TOKEN : list ascii := bytes "cnonce".
Definition HTTP_AUTHENTICATION_NONCE_COUNT_TOKEN : list ascii := bytes "nc".
Definition HTTP_AUTHENTICATION_QOP_TOKEN : list ascii := bytes "qop".
Definition HTTP_AUTHENTICATION_OPAQUE_TOKEN : list ascii := bytes "opaque".
Definition HTTP_AUTHENTICATION_USERNAME_TOKEN : list ascii := bytes "username".
Definition HTTP_AUTHENTICATION_RESPONSE_TOKEN : list ascii := bytes "response".
Definition HTTP_AUTHENTICATION_URI_TOKEN : list ascii := bytes "uri".
Definition HTTP_QOP_AUTH : list ascii := bytes "auth".
Definition HTTP_PROXY_UNAUTHORIZED_CODE : Z := 407.
Definition HTTP_PROXY_UNAUTHORIZED_TEXT : list ascii := bytes "Proxy Authentication Required".

(** The output arguments of getDigestAuthorizationData *)
Record Digest := mkDigest {
  d_user : list ascii; d_realm : list ascii; d_nonce : list ascii; d_opaque : list ascii; d_response : list ascii; d_uri : list ascii;
  d_cnonce : list ascii; d_nonceCount : list ascii; d_qop : list ascii; d_user_base : list ascii }.
Definition Digest_empty : Digest := mkDigest [] [] [] [] [] [] [] [] [] [].

(** [value.last('/')] splits the user from the instrument *)
Definition user_base_of (value : list ascii) : list ascii :=
  match list_find (fun c => c = "/"%char) (rev value) with
  | Some (i, _) => take (length value - S i) value
  | None => value
  end.

(** One attribute: values of a name that comes again are appended *)
Definition digest_attribute (name value : list ascii) (d : Digest) : Digest :=
  let named (token : list ascii) := strcasecmp (toupper <$> name) token =? 0 in
  let '(mkDigest user realm nonce opaque response uri cnonce nonceCount qop user_base) := d in
  if named HTTP_AUTHENTICATION_REALM_TOKEN then mkDigest user (realm ++ value) nonce opaque response uri cnonce nonceCount qop user_base
  else if named HTTP_AUTHENTICATION_NONCE_TOKEN then mkDigest user realm (nonce ++ value) opaque response uri cnonce nonceCount qop user_base
  else if named HTTP_AUTHENTICATION_CNONCE_TOKEN then mkDigest user realm nonce opaque response uri (cnonce ++ value) nonceCount qop user_base
  else if named HTTP_AUTHENTICATION_NONCE_COUNT_TOKEN then mkDigest user realm nonce opaque response uri cnonce (nonceCount ++ value) qop user_base
  else if named HTTP_AUTHENTICATION_QOP_TOKEN then mkDigest user realm nonce opaque response uri cnonce nonceCount (qop ++ value) user_base
  else if named HTTP_AUTHENTICATION_OPAQUE_TOKEN then mkDigest user realm nonce (opaque ++ value) response uri cnonce nonceCount qop user_base
  else if named HTTP_AUTHENTICATION_USERNAME_TOKEN then
    mkDigest (user ++ value) realm nonce opaque response uri cnonce nonceCount qop (user_base ++ user_base_of value)
  else if named HTTP_AUTHENTICATION_RESPONSE_TOKEN then mkDigest user realm nonce opaque (response ++ value) uri cnonce nonceCount qop user_base
  else if named HTTP_AUTHENTICATION_URI_TOKEN then mkDigest user realm nonce opaque response (uri ++ value) cnonce nonceCount qop user_base
  else d.

(** [while(tokenizer.getNextAttribute(name, value))]; every round takes a
    character *)
Fixpoint digest_loop (fuel : nat) (t : NetAttributeTokenizer) (d : Digest) : outcome Digest :=
  let! (found, name, value, t) := getNextAttribute t in
  if found : bool then
    match fuel with
    | O => UB
    | S fuel => digest_loop fuel t (digest_attribute name value d)
    end
  else Ok d.

Definition parse_digest (value : list ascii) : outcome Digest :=
  let! (_, scheme, _, t) := getNextAttribute (NetAttributeTokenizer_new value) in
  if strcasecmp scheme HTTP_DIGEST_AUTHENTICATION =? 0 then digest_loop (length (t_rest t)) t Digest_empty else Ok Digest_empty.

(** HttpMessage::getDigestAuthorizationData for PROXY *)
Definition getDigestAuthorizationData (l : list NameValuePair) (index : Z) : outcome (option Digest) :=
  let! value := getHeaderValue l index (Some HTTP_PROXY_AUTHORIZATION_FIELD) in
  match value with
  | Some value => let! d := parse_digest value in Ok (Some d)
  | None => Ok None
  end.

(** The text of HttpMessage::setDigestAuthorizationData; an empty argument is
    as a null pointer, but for the realm, which is never null here *)
Definition quoted_field (token value : list ascii) : list ascii := token ++ bytes "=" ++ [DQUOTE] ++ value ++ [DQUOTE].
Definition digest_field (user realm nonce uri response algorithm cnonce opaque qop nonceCount : list ascii) : list ascii :=
  let optional (present : bool) (text : list ascii) := if present then bytes ", " ++ text else [] in
  let given (v : list ascii) := bool_decide (v <> []) in
  HTTP_DIGEST_AUTHENTICATION
  ++ (if given user then bytes " " ++ quoted_field HTTP_AUTHENTICATION_USERNAME_TOKEN user else [])
  ++ bytes ", " ++ quoted_field HTTP_AUTHENTICATION_REALM_TOKEN realm
  ++ optional (given nonce) (quoted_field HTTP_AUTHENTICATION_NONCE_TOKEN nonce)
  ++ optional (given uri) (quoted_field HTTP_AUTHENTICATION_URI_TOKEN uri)
  ++ optional (given response) (quoted_field HTTP_AUTHENTICATION_RESPONSE_TOKEN response)
  ++ optional (given algorithm) (bytes "algorithm=" ++ algorithm)
  ++ optional (given cnonce && given qop) (quoted_field HTTP_AUTHENTICATION_CNONCE_TOKEN cnonce)
  ++ optional (given opaque) (quoted_field HTTP_AUTHENTICATION_OPAQUE_TOKEN opaque)
  ++ optional (given qop) (HTTP_AUTHENTICATION_QOP_TOKEN ++ bytes "=" ++ qop)
  ++ optional (given nonceCount) (HTTP_AUTHENTICATION_NONCE_COUNT_TOKEN ++ bytes "=" ++ nonceCount).

(** ** Digests *)

Inductive AuthQopValues := AUTH_QOP_EMPTY | AUTH_QOP_HAS_AUTH | AUTH_QOP_NOT_SUPPORTED.
#[global] Instance AuthQopValues_eq_dec : EqDecision AuthQopValues.
Proof. solve_decision. Defined.

(** UtlString::findToken of auth between commas, any case *)
Definition QopAuth : pat := PSeqs [PAlt PBol (PChr ","); SWS; PLitI HTTP_QOP_AUTH; SWS; PAlt (PChr ",") PEol].

Section Auth.
Context (fill : nat -> ascii) (pcre_exec : pat -> list ascii -> nat -> option Match).

Definition parseQopValue (qop : list ascii) : AuthQopValues :=
  match qop with
  | [] => AUTH_QOP_EMPTY
  | _ => match pcre_exec QopAuth (cstr qop) 0 with Some _ => AUTH_QOP_HAS_AUTH | None => AUTH_QOP_NOT_SUPPORTED end
  end.

(** SipMessage::verifyQopConsistency; [strlen] of the two texts *)
Definition verifyQopConsistency (cnonce nonceCount qop : list ascii) : AuthQopValues :=
  let empty (s : list ascii) := bool_decide (cstr s = []) in
  match parseQopValue qop with
  | AUTH_QOP_HAS_AUTH => if empty cnonce || empty nonceCount then AUTH_QOP_NOT_SUPPORTED else AUTH_QOP_HAS_AUTH
  | AUTH_QOP_EMPTY => if negb (empty cnonce) || negb (empty nonceCount) then AUTH_QOP_NOT_SUPPORTED else AUTH_QOP_EMPTY
  | AUTH_QOP_NOT_SUPPORTED => AUTH_QOP_NOT_SUPPORTED
  end.

(** HttpMessage::buildMd5Digest for no algorithm; the arguments are C strings
    and none is null, so the part of the quality of protection is always in *)
Definition buildMd5Digest (userPasswordDigest nonce cnonce nonceCount qop method uri : list ascii) : outcome (list ascii) :=
  let! encodedA2 := md5_encode fill (method ++ bytes ":" ++ uri) in
  md5_encode fill (userPasswordDigest ++ bytes ":" ++ nonce ++ bytes ":" ++ nonceCount ++ bytes ":" ++ cnonce ++ bytes ":" ++ qop
    ++ bytes ":" ++ encodedA2).

(** The loop over the responses in the message *)
Fixpoint response_loop (fuel : nat) (l : list NameValuePair) (referenceHash : list ascii) (authIndex : Z) : outcome bool :=
  let! d := getDigestAuthorizationData l authIndex in
  match d with
  | Some d =>
      if strcmp referenceHash (d_response d) =? 0 then Ok true
      else match fuel with
           | O => UB
           | S fuel => response_loop fuel l referenceHash (authIndex + 1)
           end
  | None => Ok false
  end.

(** SipMessage::verifyMd5Authorization with HttpMessage::verifyMd5Authorization;
    an empty method or URI is read from the request line again *)
Definition verifyMd5Authorization (m : SipMessage) (userId password nonce realm cnonce nonceCount qop uri : list ascii) : outcome bool :=
  let! method := (if isResponse m then let! (_, _, method) := getCSeqField m in Ok method else Ok (getRequestMethod m)) in
  let uri := match cstr uri with [] => getRequestUri m | uri => uri end in
  let method := match cstr method with [] => getRequestMethod m | method => method end in
  let! encodedA1 := md5_encode fill (cstr userId ++ bytes ":" ++ cstr realm ++ bytes ":" ++ cstr password) in
  let! referenceHash := buildMd5Digest encodedA1 (cstr nonce) (cstr cnonce) (cstr nonceCount) (cstr qop) (cstr method) (cstr uri) in
  response_loop (length (mNameValues m)) (mNameValues m) referenceHash 0.

(** ** Challenges *)

(** HttpMessage::setAuthenticateData for Digest and PROXY, without opaque and
    domain *)
Definition challenge_field (realm nonce : list ascii) : list ascii :=
  HTTP_DIGEST_AUTHENTICATION ++ bytes " " ++ quoted_field HTTP_AUTHENTICATION_REALM_TOKEN realm
  ++ (if bool_decide (nonce <> []) then bytes ", " ++ quoted_field HTTP_AUTHENTICATION_NONCE_TOKEN nonce else [])
  ++ bytes ", " ++ quoted_field HTTP_AUTHENTICATION_QOP_TOKEN HTTP_QOP_AUTH.

(** SipMessage::setRequestUnauthorized for PROXY; echoing the Record-Routes
    is the default *)
Definition setRequestUnauthorized (newTag : list ascii) (request : SipMessage) (realm nonce : list ascii) (this : SipMessage)
    : outcome SipMessage :=
  let! this := setResponseData fill newTag request HTTP_PROXY_UNAUTHORIZED_CODE HTTP_PROXY_UNAUTHORIZED_TEXT None true this in
  on_headers (fun l => addHeaderField fill l HTTP_PROXY_AUTHENTICATE_FIELD (cstr (challenge_field (cstr realm) (cstr nonce)))) this.
End Auth.
