(* ===== verification/HttpAuthSpec.v ===== *)
(** * What credentials are read and accepted

    The attributes that setDigestAuthorizationData writes are read back by the
    tokenizer, reading ends on every header, and the digest that is compared is
    the one of RFC 2617. *)
From Stdlib Require Import ZArith Lia Ascii String.
From stdpp Require Import base list strings.
From S2P Require Import Prelude NetMd5Codec NameValuePair HttpMessage HttpMessageSpec Format Pcre PcreSpec UrlCodec Url UrlSyntax UrlRoundtrip.
From S2P Require Import RouteStateMsg ProxyRoutes SipNonceDb SipMatch HttpAuth.
Local Open Scope Z_scope.

(** ** Reading ends *)

(** Behind every equals sign something comes that could be a value. *)
Definition values_follow (l : list ascii) : Prop :=
  forall a b, l = a ++ "="%char :: b -> exists c, c ∈ b /\ is_separator c = false /\ is_equals c = false.

Lemma values_follow_suffix a l : values_follow (a ++ l) -> values_follow l.
Proof. intros H x b ->. apply (H (a ++ x)). by rewrite <- app_assoc. Qed.

Lemma quoted_value_split k l v r : quoted_value k l = (v, r) -> l = v ++ r.
Proof.
  revert k v r. induction l as [|c l IH]; intros k v r; cbn [quoted_value]; [by intros [= <- <-]|].
  destruct (is_quote c && Nat.even k); [by intros [= <- <-]|].
  destruct (quoted_value _ l) as [v' r'] eqn:E. intros [= <- <-]. by rewrite (IH _ _ _ E).
Qed.

Lemma between_equals w : existsb is_equals w = true -> exists a b, w = a ++ "="%char :: b.
Proof.
  intros (x & Hin & Hx)%existsb_exists. apply list_elem_of_In in Hin. apply bool_decide_eq_true in Hx as ->.
  by apply list_elem_of_split in Hin as (a & b & ->); eexists _, _.
Qed.

(** An attribute is taken from the front; a found one is not empty. *)
Lemma getNextAttribute_total t : values_follow (t_rest t) ->
  exists found name value taken rest, getNextAttribute t = Ok (found, name, value, mkTokenizer (t_length t) rest)
    /\ t_rest t = taken ++ rest /\ (found = true -> taken <> []).
Proof.
  intros Hf. unfold getNextAttribute. destruct (span is_separator (t_rest t)) as [w0 r0] eqn:E0. cbn [snd].
  apply span_split in E0 as (Et & _ & _).
  destruct (span _ r0) as [name r1] eqn:E1. apply span_split in E1 as (-> & _ & _).
  destruct (span _ r1) as [w2 r2] eqn:E2. apply span_split in E2 as (-> & Hw2 & _).
  assert (forall v r v' : list ascii, r2 = v ++ r -> exists found n val taken rest,
    Ok (bool_decide (name <> []), name, v', mkTokenizer (t_length t) r) = Ok (found, n, val, mkTokenizer (t_length t) rest)
    /\ t_rest t = taken ++ rest /\ (found = true -> taken <> [])) as Hdone.
  { intros v r v' ->. exists (bool_decide (name <> [])), name, v', (w0 ++ name ++ w2 ++ v), r. split; [done|].
    split; [by rewrite Et, <- !app_assoc|]. intros Hn%bool_decide_eq_true. by destruct w0, name. }
  destruct (existsb is_equals w2) eqn:Ee; [|by apply (Hdone [] r2)].
  destruct r2 as [|c r2].
  { exfalso. apply between_equals in Ee as (a & b & ->). rewrite app_nil_r in Et.
    destruct (Hf (w0 ++ name ++ a) b) as (c & Hc & Hs & Hq); [by rewrite Et, <- !app_assoc|].
    apply Forall_app in Hw2 as [_ Hw2]. inversion Hw2 as [|? ? _ Hb]; subst. rewrite Forall_forall in Hb. specialize (Hb c Hc).
    by rewrite Hs, Hq in Hb. }
  destruct (is_quote c).
  - destruct (quoted_value 0 r2) as [v r] eqn:Eq. apply quoted_value_split in Eq as ->. cbn [obind].
    destruct r as [|q r]; [apply (Hdone (c :: v) [] v); by rewrite app_comm_cons|].
    apply (Hdone (c :: v ++ [q]) r v). simpl. by rewrite <- app_assoc.
  - destruct (span _ (c :: r2)) as [v r] eqn:Es. apply span_split in Es as (Er & _ & _). cbn [obind]. by apply (Hdone v r v).
Qed.

Lemma digest_loop_total fuel : forall t d, values_follow (t_rest t) -> (length (t_rest t) <= fuel)%nat ->
  exists d', digest_loop fuel t d = Ok d'.
Proof.
  induction fuel as [|fuel IH]; intros t d Hf Hl; cbn [digest_loop];
    destruct (getNextAttribute_total t Hf) as (found & name & value & taken & rest & -> & Et & Hne); cbn [obind];
    (destruct found; [|by eexists]).
  - specialize (Hne eq_refl). rewrite Et in Hl. destruct taken; [done|simpl in Hl; lia].
  - specialize (Hne eq_refl). apply IH; cbn [t_rest]; rewrite Et in *; [by apply values_follow_suffix in Hf|].
    destruct taken; [done|]. simpl in Hl. rewrite length_app in Hl. lia.
Qed.

Lemma parse_digest_total value : values_follow (cstr value) -> exists d, parse_digest value = Ok d.
Proof.
  intros Hf. unfold parse_digest.
  destruct (getNextAttribute_total (NetAttributeTokenizer_new value) Hf) as (? & scheme & ? & taken & rest & -> & Et & _). cbn [obind].
  destruct (_ =? 0); [|by eexists]. apply digest_loop_total; [|done].
  cbn [t_rest NetAttributeTokenizer_new] in *. rewrite Et in Hf. by apply values_follow_suffix in Hf.
Qed.

(** ** Writing and reading *)

Definition name_ok (n : list ascii) : Prop := n <> [] /\ all (fun c => negb (is_separator c) && negb (is_equals c)) n.
(** A text that can stand between quotes, and one that needs none *)
Definition plain_char (c : ascii) : bool := negb (is_quote c) && bool_decide (c <> BACKSLASH) && bool_decide (c <> NUL).
Definition plain (v : list ascii) : Prop := all plain_char v.
Definition word_char (c : ascii) : bool := negb (is_separator c) && negb (is_equals c) && plain_char c.
Definition word (v : list ascii) : Prop := v <> [] /\ all word_char v.

(** What stands behind an attribute *)
Definition attribute_end (r : list ascii) : Prop := match r with [] => True | c :: _ => is_separator c = true end.

Lemma name_stop n r : name_ok n ->
  span is_separator (n ++ "="%char :: r) = ([], n ++ "="%char :: r)
  /\ span (fun c => negb (is_separator c) && negb (is_equals c)) (n ++ "="%char :: r) = (n, "="%char :: r).
Proof.
  intros [Hne Hn]. split.
  - rewrite <- (app_nil_l (n ++ _)) at 1. apply fmt_span_app; [constructor|]. destruct Hn as [|c n Hc _]; [done|].
    apply andb_true_iff in Hc as [Hc _]. by apply negb_true_iff.
  - by apply fmt_span_app.
Qed.

Lemma skip_separators w l : all is_separator w -> (match l with [] => True | c :: _ => is_separator c = false end) ->
  snd (span is_separator (w ++ l)) = l.
Proof. intros Hw Hl. by rewrite fmt_span_app. Qed.

Lemma quoted_value_plain v r : plain v -> quoted_value 0 (v ++ DQUOTE :: r) = (v, DQUOTE :: r).
Proof.
  induction 1 as [|c v Hc _ IH]; [done|]. unfold plain_char in Hc. rewrite !andb_true_iff, negb_true_iff, !bool_decide_eq_true in Hc.
  destruct Hc as [[Hq Hb] _]. cbn [app quoted_value]. rewrite Hq, decide_False by done. cbn [andb]. by rewrite IH.
Qed.

(** The two forms of an attribute *)
Lemma next_quoted k w n v r : all is_separator w -> name_ok n -> plain v ->
  getNextAttribute (mkTokenizer k (w ++ quoted_field n v ++ r)) = Ok (true, n, v, mkTokenizer k r).
Proof.
  intros Hw Hn Hv. unfold getNextAttribute, quoted_field. cbn [t_rest t_length].
  replace (w ++ (n ++ bytes "=" ++ [DQUOTE] ++ v ++ [DQUOTE]) ++ r) with (w ++ n ++ "="%char :: DQUOTE :: v ++ DQUOTE :: r) by assoc.
  rewrite skip_separators; [|done|].
  2: { destruct Hn as [Hne Hn]. destruct Hn as [|c n Hc _]; [done|]. apply andb_true_iff in Hc as [Hc _]. by apply negb_true_iff. }
  rewrite (proj2 (name_stop n _ Hn)). change ("="%char :: DQUOTE :: v ++ DQUOTE :: r) with (bytes "=" ++ DQUOTE :: v ++ DQUOTE :: r).
  rewrite fmt_span_app; [|by repeat constructor|done]. change (existsb is_equals (bytes "=")) with true.
  change (is_quote DQUOTE) with true. cbn iota. rewrite quoted_value_plain by done. cbn [obind drop].
  rewrite drop_0, bool_decide_true by apply Hn. done.
Qed.

Lemma next_word k w n v r : all is_separator w -> name_ok n -> word v -> attribute_end r ->
  getNextAttribute (mkTokenizer k (w ++ (n ++ bytes "=" ++ v) ++ r)) = Ok (true, n, v, mkTokenizer k r).
Proof.
  intros Hw Hn [Hne Hv] Hr. unfold getNextAttribute. cbn [t_rest t_length].
  replace (w ++ (n ++ bytes "=" ++ v) ++ r) with (w ++ n ++ "="%char :: v ++ r) by assoc.
  rewrite skip_separators; [|done|].
  2: { destruct Hn as [Hne' Hn]. destruct Hn as [|c n Hc _]; [done|]. apply andb_true_iff in Hc as [Hc _]. by apply negb_true_iff. }
  rewrite (proj2 (name_stop n _ Hn)). change ("="%char :: v ++ r) with (bytes "=" ++ v ++ r).
  destruct Hv as [|c v Hc Hv]; [done|]. pose proof Hc as Hc'. unfold word_char, plain_char in Hc'.
  rewrite !andb_true_iff, !negb_true_iff, !bool_decide_eq_true in Hc'. destruct Hc' as [[Hs He] [[Hq _] _]].
  rewrite fmt_span_app; [|by repeat constructor|cbn [app]; by rewrite Hs, He]. change (existsb is_equals (bytes "=")) with true.
  cbn [app]. cbn iota. rewrite Hq. change (c :: v ++ r) with ((c :: v) ++ r). rewrite fmt_span_app.
  - cbn [obind]. rewrite bool_decide_true by apply Hn. done.
  - constructor; [by rewrite Hs|]. eapply Forall_impl; [exact Hv|]. intros x Hx. unfold word_char in Hx.
    rewrite !andb_true_iff in Hx. tauto.
  - destruct r as [|x r]; [done|]. by rewrite Hr.
Qed.

(** The end of the header *)
Lemma next_end k : getNextAttribute (mkTokenizer k []) = Ok (false, [], [], mkTokenizer k []).
Proof. reflexivity. Qed.

(** An attribute as it is printed behind another one *)
Definition attr : Type := bool * list ascii * list ascii.
Definition attr_text (a : attr) : list ascii :=
  let '(quoted, n, v) := a in bytes ", " ++ (if quoted : bool then quoted_field n v else n ++ bytes "=" ++ v).
Definition attr_ok (a : attr) : Prop := let '(quoted, n, v) := a in (name_ok n /\ nul_free n) /\ if quoted : bool then plain v else word v.
Definition attr_step (d : Digest) (a : attr) : Digest := let '(_, n, v) := a in digest_attribute n v d.

Lemma attrs_end attrs : attribute_end (attrs ≫= attr_text).
Proof. destruct attrs as [|[[q n] v] attrs]; [done|]. reflexivity. Qed.

Lemma next_attr k w q n v r : all is_separator w -> attr_ok (q, n, v) -> attribute_end r ->
  getNextAttribute (mkTokenizer k (w ++ (if q then quoted_field n v else n ++ bytes "=" ++ v) ++ r)) = Ok (true, n, v, mkTokenizer k r).
Proof. intros Hw [[Hn _] Hv] Hr. destruct q; [by apply next_quoted|by apply next_word]. Qed.

Lemma attr_nul_free q n v : attr_ok (q, n, v) -> nul_free (if q : bool then quoted_field n v else n ++ bytes "=" ++ v).
Proof.
  assert (forall v, plain v -> nul_free v) as Hp.
  { intros v' Hv. eapply Forall_impl; [exact Hv|]. intros c Hc. unfold plain_char in Hc. rewrite !andb_true_iff, !bool_decide_eq_true in Hc. tauto. }
  intros [[_ Hn] Hv]. destruct q; unfold quoted_field; repeat (apply Forall_app; split); try done; try (by repeat constructor); [by apply Hp|].
  destruct Hv as [_ Hv]. apply Hp. eapply Forall_impl; [exact Hv|]. intros c Hc. unfold word_char in Hc. rewrite !andb_true_iff in Hc. tauto.
Qed.

Lemma attrs_nul_free attrs : Forall attr_ok attrs -> nul_free (attrs ≫= attr_text).
Proof.
  induction 1 as [|[[q n] v] attrs Ha _ IH]; [constructor|]. change (((q, n, v) :: attrs) ≫= attr_text) with (attr_text (q, n, v) ++ (attrs ≫= attr_text)).
  apply Forall_app. split; [|done]. cbn [attr_text]. apply Forall_app. split; [by repeat constructor|by apply attr_nul_free].
Qed.

Lemma digest_loop_attrs attrs : Forall attr_ok attrs -> forall fuel k d, (length attrs <= fuel)%nat ->
  digest_loop fuel (mkTokenizer k (attrs ≫= attr_text)) d = Ok (foldl attr_step d attrs).
Proof.
  induction 1 as [|[[q n] v] attrs Ha _ IH]; intros fuel k d Hl; [by destruct fuel|]. destruct fuel as [|fuel]; [simpl in Hl; lia|].
  cbn [digest_loop]. change (((q, n, v) :: attrs) ≫= attr_text) with (attr_text (q, n, v) ++ (attrs ≫= attr_text)). cbn [attr_text].
  rewrite <- app_assoc. rewrite next_attr; [|by repeat constructor|done|apply attrs_end]. cbn [obind]. rewrite IH by (simpl in Hl; lia). done.
Qed.

(** A header of a scheme and attributes *)
Lemma parse_digest_attrs w q n v attrs :
  let text := HTTP_DIGEST_AUTHENTICATION ++ w ++ (if q : bool then quoted_field n v else n ++ bytes "=" ++ v) ++ (attrs ≫= attr_text) in
  w <> [] -> nul_free w -> all is_separator w -> attr_ok (q, n, v) -> Forall attr_ok attrs ->
  parse_digest text = Ok (foldl attr_step Digest_empty ((q, n, v) :: attrs)).
Proof.
  intros text Hne Hnw Hw Ha Hattrs. unfold parse_digest, NetAttributeTokenizer_new. rewrite cstr_id.
  2: { unfold text. repeat (apply Forall_app; split); [by repeat constructor|done|by apply attr_nul_free|by apply attrs_nul_free]. }
  unfold text.
  set (body := (if q : bool then quoted_field n v else n ++ bytes "=" ++ v)). set (k := Z.of_nat _).
  assert (exists c b, body = c :: b /\ is_separator c = false /\ is_equals c = false) as (c & b & Eb & Hs & He).
  { destruct Ha as [[[Hne' Hn'] _] _]. destruct Hn' as [|c n Hc _]; [done|]. apply andb_true_iff in Hc as [Hs He].
    apply negb_true_iff in Hs, He. unfold body, quoted_field. destruct q; simpl; by eexists _, _. }
  assert (getNextAttribute (mkTokenizer k (HTTP_DIGEST_AUTHENTICATION ++ w ++ body ++ (attrs ≫= attr_text)))
    = Ok (true, HTTP_DIGEST_AUTHENTICATION, [], mkTokenizer k (body ++ (attrs ≫= attr_text)))) as ->.
  { unfold getNextAttribute. cbn [t_rest t_length]. rewrite <- (app_nil_l (HTTP_DIGEST_AUTHENTICATION ++ _)).
    rewrite skip_separators; [|constructor|done].
    rewrite fmt_span_app; [|by repeat constructor|destruct Hw as [|x w Hx _]; [done|]; cbn [app]; by rewrite Hx].
    rewrite fmt_span_app; [|eapply Forall_impl; [exact Hw|]; intros x ->; done|rewrite Eb; cbn [app]; by rewrite Hs, He].
    assert (existsb is_equals w = false) as ->; [|done]. clear -Hw. induction Hw as [|x w Hx _ IH]; [done|]. cbn [existsb]. rewrite IH, orb_false_r.
    apply bool_decide_eq_false. intros ->. by vm_compute in Hx. }
  cbn [obind t_rest]. change (strcasecmp HTTP_DIGEST_AUTHENTICATION HTTP_DIGEST_AUTHENTICATION =? 0) with true. cbn iota.
  assert (length attrs < length (body ++ (attrs ≫= attr_text)))%nat as Hlen.
  { rewrite length_app, Eb. simpl. clear. induction attrs as [|[[q n] v] attrs IH]; [simpl; lia|].
    change (((q, n, v) :: attrs) ≫= attr_text) with (attr_text (q, n, v) ++ (attrs ≫= attr_text)). rewrite length_app. simpl. lia. }
  destruct (length (body ++ _)) as [|fuel]; [lia|]. cbn [digest_loop].
  pose proof (next_attr k [] q n v (attrs ≫= attr_text) ltac:(constructor) Ha (attrs_end attrs)) as E. rewrite app_nil_l in E.
  fold body in E. rewrite E. cbn [obind]. rewrite digest_loop_attrs by (done || lia). done.
Qed.

Definition optional_attr (present : bool) (a : attr) : list attr := if present then [a] else [].

Lemma fold_optional present a attrs d :
  foldl attr_step d (optional_attr present a ++ attrs) = foldl attr_step (if present then attr_step d a else d) attrs.
Proof. by destruct present. Qed.

Lemma optional_step (present : bool) a d d' : attr_step d a = d' -> (present = false -> d = d') -> (if present then attr_step d a else d) = d'.
Proof. destruct present; auto. Qed.

Ltac token_ok := split; [split; [done|]; apply all_of; vm_compute; reflexivity|by repeat constructor].

(** What setDigestAuthorizationData writes is read back by
    getDigestAuthorizationData: every value that can be quoted comes back, the
    ones without quotes when they are words; the user is also given without
    the part behind its last slash. *)
Lemma credentials_roundtrip user realm nonce uri response algorithm cnonce opaque qop nonceCount :
  user <> [] -> (qop = [] -> cnonce = []) ->
  Forall plain [user; realm; nonce; uri; response; cnonce; opaque] ->
  Forall (fun v => v = [] \/ word v) [algorithm; qop; nonceCount] ->
  parse_digest (digest_field user realm nonce uri response algorithm cnonce opaque qop nonceCount)
  = Ok (mkDigest user realm nonce opaque response uri cnonce nonceCount qop (user_base_of user)).
Proof.
  intros Hu Hqc Hplain Hword.
  apply Forall_cons in Hplain as [Pu [Pr [Pn [Pi [Ps [Pc [Po _]%Forall_cons]%Forall_cons]%Forall_cons]%Forall_cons]%Forall_cons]%Forall_cons].
  apply Forall_cons in Hword as [Wa [Wq [Wn _]%Forall_cons]%Forall_cons]. set (given := fun v : list ascii => bool_decide (v <> [])).
  set (attrs := optional_attr (given nonce) (true, HTTP_AUTHENTICATION_NONCE_TOKEN, nonce)
    ++ optional_attr (given uri) (true, HTTP_AUTHENTICATION_URI_TOKEN, uri)
    ++ optional_attr (given response) (true, HTTP_AUTHENTICATION_RESPONSE_TOKEN, response)
    ++ optional_attr (given algorithm) (false, bytes "algorithm", algorithm)
    ++ optional_attr (given cnonce && given qop) (true, HTTP_AUTHENTICATION_CNONCE_TOKEN, cnonce)
    ++ optional_attr (given opaque) (true, HTTP_AUTHENTICATION_OPAQUE_TOKEN, opaque)
    ++ optional_attr (given qop) (false, HTTP_AUTHENTICATION_QOP_TOKEN, qop)
    ++ optional_attr (given nonceCount) (false, HTTP_AUTHENTICATION_NONCE_COUNT_TOKEN, nonceCount)).
  assert (digest_field user realm nonce uri response algorithm cnonce opaque qop nonceCount
    = HTTP_DIGEST_AUTHENTICATION ++ bytes " " ++ quoted_field HTTP_AUTHENTICATION_USERNAME_TOKEN user
      ++ (((true, HTTP_AUTHENTICATION_REALM_TOKEN, realm) :: attrs) ≫= attr_text)) as E.
  { unfold digest_field. rewrite bool_decide_true by done. fold given.
    change (((true, HTTP_AUTHENTICATION_REALM_TOKEN, realm) :: attrs) ≫= attr_text)
      with (attr_text (true, HTTP_AUTHENTICATION_REALM_TOKEN, realm) ++ (attrs ≫= attr_text)).
    assert (forall b a, optional_attr b a ≫= attr_text = if b then attr_text a else []) as Ho by (intros [] a; [apply app_nil_r|done]).
    unfold attrs. rewrite !bind_app, !Ho. cbn [attr_text]. rewrite <- !app_assoc. reflexivity. }
  assert (Forall attr_ok ((true, HTTP_AUTHENTICATION_REALM_TOKEN, realm) :: attrs)) as Hok.
  { assert (forall b a, (b = true -> attr_ok a) -> Forall attr_ok (optional_attr b a)) as Ho by (intros [] a Ha; [constructor; [by apply Ha|]|]; constructor).
    assert (forall v, v = [] \/ word v -> given v = true -> word v) as Hg by (intros v [-> |Hv]; [done|by intros _]).
    constructor; [split; [token_ok|done]|]. unfold attrs. rewrite !Forall_app. split_and!; apply Ho; intros Hb; (split; [token_ok|]); try done; by apply Hg. }
  rewrite E. rewrite (parse_digest_attrs (bytes " ") true); [|done|by repeat constructor|by repeat constructor|split; [token_ok|done]|done].
  f_equal. cbn [foldl]. change (attr_step (attr_step Digest_empty (true, HTTP_AUTHENTICATION_USERNAME_TOKEN, user)) (true, HTTP_AUTHENTICATION_REALM_TOKEN, realm))
    with (mkDigest user realm [] [] [] [] [] [] [] (user_base_of user)). unfold attrs.
  rewrite fold_optional, (optional_step (given nonce) _ _ (mkDigest user realm nonce [] [] [] [] [] [] (user_base_of user))) by (done || by destruct nonce).
  rewrite fold_optional, (optional_step (given uri) _ _ (mkDigest user realm nonce [] [] uri [] [] [] (user_base_of user))) by (done || by destruct uri).
  rewrite fold_optional, (optional_step (given response) _ _ (mkDigest user realm nonce [] response uri [] [] [] (user_base_of user))) by (done || by destruct response).
  rewrite fold_optional, (optional_step (given algorithm) _ _ (mkDigest user realm nonce [] response uri [] [] [] (user_base_of user))) by (done || by destruct algorithm).
  rewrite fold_optional, (optional_step (given cnonce && given qop) _ _ (mkDigest user realm nonce [] response uri cnonce [] [] (user_base_of user)));
    [|done|destruct qop; [by rewrite (Hqc eq_refl)|by destruct cnonce]].
  rewrite fold_optional, (optional_step (given opaque) _ _ (mkDigest user realm nonce opaque response uri cnonce [] [] (user_base_of user))) by (done || by destruct opaque).
  rewrite fold_optional, (optional_step (given qop) _ _ (mkDigest user realm nonce opaque response uri cnonce [] qop (user_base_of user))) by (done || by destruct qop).
  rewrite <- (app_nil_r (optional_attr (given nonceCount) _)), fold_optional.
  rewrite (optional_step (given nonceCount) _ _ (mkDigest user realm nonce opaque response uri cnonce nonceCount qop (user_base_of user)))
    by (done || by destruct nonceCount). done.
Qed.

(** ** The digest of RFC 2617 *)

Lemma md5_encode_spec fill text : nul_free text -> NetMd5Codec.short text -> md5_encode fill text = Ok (hex (md5 text)).
Proof.
  intros Hnul Hs. unfold md5_encode. rewrite cstr_id by done.
  destruct (MD5Update_holds _ _ text (init_holds fill) Hs) as (c & -> & Hc). cbn [obind]. rewrite (MD5Final_holds _ _ Hc). done.
Qed.

Definition colon_join (parts : list (list ascii)) : list ascii :=
  match parts with [] => [] | p :: parts' => p ++ (parts' ≫= fun q => ":"%char :: q) end.
Definition digest_response (user realm password nonce nonceCount cnonce qop method uri : list ascii) : list ascii :=
  hex (md5 (colon_join [hex (md5 (colon_join [user; realm; password])); nonce; nonceCount; cnonce; qop; hex (md5 (colon_join [method; uri]))])).

(** Texts that fit into a digest *)
Definition hashable (v : list ascii) : Prop := nul_free v /\ Z.of_nat (length v) < 2 ^ 28.

Lemma colon_join_hashable parts : (length parts <= 8)%nat -> Forall hashable parts ->
  nul_free (colon_join parts) /\ NetMd5Codec.short (colon_join parts).
Proof.
  intros Hl Hp.
  assert (forall parts, Forall hashable parts -> nul_free (parts ≫= fun q => ":"%char :: q)
    /\ Z.of_nat (length (parts ≫= fun q => ":"%char :: q)) <= Z.of_nat (length parts) * 2 ^ 28) as Hrest.
  { clear. intros parts Hp. induction Hp as [|q parts [Hq Hlq] _ [IHn IHl]]; [split; [constructor|simpl; lia]|].
    change ((q :: parts) ≫= fun q => ":"%char :: q) with ((":"%char :: q) ++ (parts ≫= fun q => ":"%char :: q)). split.
    - apply Forall_app. split; [constructor; [done|exact Hq]|exact IHn].
    - rewrite length_app. cbn [length]. lia. }
  destruct Hp as [|q parts [Hq Hlq] Hp]; [by split; [constructor|]|]. destruct (Hrest parts Hp) as [Hn Hlen]. unfold colon_join, NetMd5Codec.short. split.
  - by apply Forall_app.
  - rewrite length_app. simpl in Hl. lia.
Qed.

Lemma hashable_hex d : hashable (hex (md5 d)).
Proof. destruct (hex_digest d) as [Hl Hn]. split; [done|]. rewrite Hl. done. Qed.

Section Digest.
Context (fill : nat -> ascii).

(** A request that carries the digest is accepted. *)
Lemma verify_digest m user password nonce realm cnonce nonceCount qop uri d :
  isResponse m = false -> getRequestMethod m <> [] -> uri <> [] ->
  Forall hashable [user; password; nonce; realm; cnonce; nonceCount; qop; uri; getRequestMethod m] ->
  getDigestAuthorizationData (mNameValues m) 0 = Ok (Some d) ->
  d_response d = digest_response user realm password nonce nonceCount cnonce qop (getRequestMethod m) uri ->
  verifyMd5Authorization fill m user password nonce realm cnonce nonceCount qop uri = Ok true.
Proof.
  intros Hr Hm Hu Hh Hd Hresp. pose proof Hh as Hn. eapply Forall_impl in Hn; [|intros v [Hv _]; exact (cstr_id v Hv)].
  rewrite !Forall_cons in Hh, Hn. destruct Hh as (Hus & Hpw & Hno & Hre & Hcn & Hnc & Hqop & Huri & Hme & _).
  destruct Hn as (Eus & Epw & Eno & Ere & Ecn & Enc & Eqop & Euri & Eme & _).
  unfold verifyMd5Authorization. rewrite Hr. cbn [obind]. rewrite Eme, Euri.
  destruct uri as [|u uri]; [done|]. destruct (getRequestMethod m) as [|c method]; [done|]. rewrite Eus, Epw, Eno, Ere, Ecn, Enc, Eqop, Eme, Euri.
  set (method' := c :: method) in *. set (uri' := u :: uri) in *.
  assert (forall parts, (length parts <= 8)%nat -> Forall hashable parts -> md5_encode fill (colon_join parts) = Ok (hex (md5 (colon_join parts)))) as Henc.
  { intros parts Hl Hp. apply md5_encode_spec; by apply colon_join_hashable. }
  assert (md5_encode fill (user ++ bytes ":" ++ realm ++ bytes ":" ++ password) = Ok (hex (md5 (colon_join [user; realm; password])))) as ->.
  { rewrite <- Henc by solve [simpl; lia | rewrite !Forall_cons; by split_and!]. by rewrite <- (app_nil_r password) at 1. }
  cbn [obind]. unfold buildMd5Digest.
  assert (md5_encode fill (method' ++ bytes ":" ++ uri') = Ok (hex (md5 (colon_join [method'; uri'])))) as ->.
  { rewrite <- Henc by solve [simpl; lia | rewrite !Forall_cons; by split_and!]. by rewrite <- (app_nil_r uri') at 1. }
  cbn [obind]. set (a1 := hex (md5 (colon_join [user; realm; password]))). set (a2 := hex (md5 (colon_join [method'; uri']))).
  assert (hashable a1 /\ hashable a2) as [Ha1 Ha2] by (split; apply hashable_hex).
  assert (md5_encode fill (a1 ++ bytes ":" ++ nonce ++ bytes ":" ++ nonceCount ++ bytes ":" ++ cnonce ++ bytes ":" ++ qop ++ bytes ":" ++ a2)
    = Ok (d_response d)) as ->.
  { rewrite Hresp. unfold digest_response. rewrite <- Henc by solve [simpl; lia | rewrite !Forall_cons; by split_and!]. fold a1 a2. by rewrite <- (app_nil_r a2) at 1. }
  cbn [obind]. destruct (length (mNameValues m)); cbn [response_loop]; rewrite Hd; cbn [obind]; by rewrite strcmp_refl.
Qed.
End Digest.

(** ** Nonces and digests can be quoted *)

Lemma digit_plain c : is_digit_of 16 c = true -> plain_char c = true.
Proof. all_bytes c; done. Qed.

Lemma hex_plain l : plain (hex (md5 l)).
Proof.
  generalize (md5 l). clear l. induction l as [|c l IH]; [constructor|]. unfold plain, hex. cbn [flat_map]. apply Forall_app. split; [|exact IH].
  assert (forall c, all plain_char [hex_digit (Z.shiftr (uchar c) 4); hex_digit (Z.land (uchar c) 15)]) as Hc; [|apply Hc].
  clear. intros c. repeat constructor; all_bytes c; reflexivity.
Qed.

Lemma nonce_plain fill secret created callId fromTag realm nonce :
  NetMd5Codec.short secret -> NetMd5Codec.short callId -> NetMd5Codec.short fromTag -> NetMd5Codec.short realm ->
  createNewNonce fill secret created callId fromTag realm = Ok nonce -> plain nonce /\ hashable nonce.
Proof.
  intros Hsec Hc Hf Hr Hn. rewrite (createNewNonce_spec fill _ Hsec created callId fromTag _ Hc Hf Hr) in Hn. injection Hn as <-.
  set (signed := md5 _). destruct (hex_fixed_spec 8 (to_uint (to_int created))) as (Hl & Hst & _); [apply to_uint_range|].
  change (hex_fixed 8 (to_uint (to_int created))) with (fmt_08x (to_int created)) in *. split.
  - apply Forall_app. split; [apply hex_plain|]. eapply Forall_impl; [exact Hst|]. intros c (Hd & _). by apply digit_plain.
  - destruct (hex_digest (signed_text secret callId fromTag realm (fmt_08x (to_int created)))) as [Hl1 Hn1]. fold signed in Hl1, Hn1. split.
    + apply Forall_app. split; [done|by apply stamp_nul_free].
    + rewrite length_app, Hl1, Hl. done.
Qed.
