(* ===== verification/SipRouter.v ===== *)
(** * The routing decision of the proxy

    [sipXproxy/src/SipRouter.cpp]: proxyMessage, which decides whether a
    request is sent on, where to, and who may send it, and the steps it takes;
    handleMessage and handleRequest, which run it in the threads of a pool.
    The request and the response are changed in place; the databases and the
    authorization plug-ins are interfaces, whose calls may throw. *)
From Stdlib Require Import ZArith Lia Ascii String.
From stdpp Require Import base list strings.
From S2P Require Import Prelude UtlString NetBase64Codec NetMd5Codec NameValuePair HttpMessage Format OsTime OsDateTime Pcre UrlCodec Url.
From S2P Require Import RouteState RouteStateMsg ProxyRoutes SipNonceDb SipMatch SipTarget UrlMapping ForwardRules SipXauthIdentity HttpAuth.
Local Open Scope Z_scope.

(** ** The parts around the router *)

(** What can be caught *)
Inductive Exn := MongoException | BoostException | StandardException | UnknownException.
Definition errorString (e : Exn) : list ascii :=
  match e with
  | MongoException => bytes "Proxy - Mongo DB Exception"
  | BoostException => bytes "Proxy - Boost Library Exception"
  | StandardException => bytes "Proxy - Standard Library Exception"
  | UnknownException => bytes "Proxy - Unknown Exception"
  end.

Record EntityRecord := mkEntity {
  e_userId : list ascii; e_identity : list ascii; e_realm : list ascii; e_password : list ascii; e_authType : list ascii;
  e_permissions : list (list ascii) }.

(** The databases: EntityDB and RegDB *)
Record Databases := mkDatabases {
  findByIdentity : list ascii -> Exn + option EntityRecord;
  findByUserId : list ascii -> Exn + option EntityRecord;
  getUnexpiredContactsUser : list ascii -> Z -> Exn + list (list ascii);
  isRegisteredBinding : Url -> Exn + bool }.

Inductive AuthResult := CONTINUE | DENY | ALLOW.
#[global] Instance AuthResult_eq_dec : EqDecision AuthResult.
Proof. solve_decision. Defined.

(** AuthPlugin: a call leaves a request and returns or throws; with [Throw] the
    request is as it was *)
Record AuthPlugin := mkPlugin {
  authorizeAndModify : list ascii -> Url -> RouteState -> list ascii -> AuthResult -> SipMessage -> bool -> list ascii
                       -> outcome (SipMessage * (Exn + (AuthResult * RouteState * list ascii)));
  willModifyTrustedRequest : bool;
  modifyTrustedRequest : Url -> SipMessage -> bool -> outcome (SipMessage * (Exn + unit)) }.

(** The members of the router and of its user agent; the secrets are statics
    of the classes that sign *)
Record SipRouter := mkRouter {
  rt_mDomainName : list ascii; rt_mRealm : list ascii; rt_mRouteHostPort : list ascii; rt_mRouteHostSecurePort : list ascii;
  rt_mEnsureTcpLifetime : bool; rt_mNonceExpiration : Z; rt_mpForwardingRules : option ForwardRules; rt_mAuthPlugins : list AuthPlugin;
  rt_mMyHostAliases : list (list ascii); rt_allowedSipExtensions : list (list ascii); rt_mMaxForwards : Z; rt_serverHeader : list ascii;
  rt_routeSecret : list ascii; rt_identitySecret : list ascii; rt_identityInterval : OsTime; rt_nonceSecret : list ascii;
  rt_urlSecret : list ascii }.

(** How a message was received: getSendProtocol and getSendAddress *)
Record Received := mkReceived { sendProtocol : IpProtocolSocketType; sendAddress : list ascii; sendPort : Z }.
Definition is_ssl (received : Received) : bool := match sendProtocol received with SSL_SOCKET => true | _ => false end.
Definition is_tcp (received : Received) : bool := match sendProtocol received with TCP => true | _ => false end.

(** The clock: seconds since the epoch, and the date *)
Record Clock := mkClock { c_now : Z; c_date : OsDateTime }.

Inductive ProxyAction := SendRequest | SendResponse | DoNothing.

(** Calls of the plug-ins *)
Inductive Event :=
| Authorized (id : list ascii) (priorResult result : AuthResult)
| Trusted.

(** ** The effects of proxyMessage *)

Record Work := mkWork { w_request : SipMessage; w_response : SipMessage; w_events : list Event }.
Definition M (A : Type) : Type := Work -> outcome (Work * (Exn + A)).
Definition mret {A} (a : A) : M A := fun w => Ok (w, inr a).
Definition mbind {A B} (m : M A) (f : A -> M B) : M B :=
  fun w => let! (w, r) := m w in match r with inl e => Ok (w, inl e) | inr a => f a w end.
Notation "'do*' x ':=' c1 'in' c2" := (mbind c1 (fun x => c2)) (at level 10, x pattern, c1 at level 100, c2 at level 200).
(** The only exceptions of the modelled calls are those of RegEx, which are
    texts; they are thrown before the call that throws has changed the
    request or the response *)
Definition catching {A} (o : outcome A) (w : Work) : outcome (Work * (Exn + A)) :=
  match o with
  | Ok a => Ok (w, inr a)
  | Throw => Ok (w, inl UnknownException)
  | AssertFail => AssertFail
  | UB => UB
  end.
Definition lift {A} (o : outcome A) : M A := catching o.
Definition throwing {A} (r : Exn + A) : M A := fun w => Ok (w, r).
Definition request : M SipMessage := fun w => Ok (w, inr (w_request w)).
Definition set_request (m : SipMessage) : M unit := fun w => Ok (mkWork m (w_response w) (w_events w), inr ()).
Definition set_response (m : SipMessage) : M unit := fun w => Ok (mkWork (w_request w) m (w_events w), inr ()).
Definition read {A} (f : SipMessage -> outcome A) : M A := fun w => catching (f (w_request w)) w.
Definition change_request (f : SipMessage -> outcome SipMessage) : M unit := do* m := read f in set_request m.
Definition change_response (f : SipMessage -> SipMessage -> outcome SipMessage) : M unit :=
  do* m := (fun w => catching (f (w_request w) (w_response w)) w) in set_response m.
Definition log_event (e : Event) : M unit := fun w => Ok (mkWork (w_request w) (w_response w) (w_events w ++ [e]), inr ()).

(** ** Header names *)

Definition SIP_SIPX_SPIRAL_HEADER : list ascii := bytes "X-sipX-Spiral".
Definition SIPX_NO_NAT_URI_PARAM : list ascii := bytes "x-sipX-nonat".
Definition SIPX_PRIVATE_CONTACT_URI_PARAM : list ascii := bytes "x-sipX-privcontact".
Definition SIPX_ROUTE_TO_REGISTRAR_URI_PARAM : list ascii := bytes "x-sipX-routetoreg".
Definition P_PID_HEADER : list ascii := bytes "P-Preferred-Identity".
Definition SIP_PROXY_REQUIRE_FIELD : list ascii := bytes "PROXY-REQUIRE".
Definition SIP_UNSUPPORTED_FIELD : list ascii := bytes "UNSUPPORTED".
Definition SIP_REPLACES_FIELD : list ascii := bytes "REPLACES".
Definition SIP_PATH_FIELD : list ascii := bytes "PATH".
Definition SIP_SERVER_FIELD : list ascii := bytes "SERVER".
Definition SIP_FORBIDDEN_CODE : Z := 403.
Definition SIP_BAD_EXTENSION_CODE : Z := 420.
Definition SIP_BAD_EXTENSION_TEXT : list ascii := bytes "Extension Not Supported".
Definition SIP_SERVICE_UNAVAILABLE_CODE : Z := 503.

(** HttpMessage::getHeaderValue of the first header, as a test *)
Definition has_header (name : list ascii) (m : SipMessage) : outcome bool :=
  let! v := getHeaderValue (mNameValues m) 0 (Some name) in Ok (bool_decide (is_Some v)).
Definition header_line_contains (m : SipMessage) (text : string) : bool := contains_sub (tolower <$> mFirstHeaderLine m) (bytes text).

(** SipMessage::getContactEntry.  The entries of one header: texts between
    commas outside of quotes; a last one with an open quote is none *)
Fixpoint contact_entries (quoted : bool) (entry value : list ascii) : list (list ascii) :=
  match value with
  | [] => if quoted then [] else [entry]
  | c :: value' =>
      let quoted := if decide (c = DQUOTE) then negb quoted else quoted in
      if bool_decide (c = ","%char) && negb quoted then entry :: contact_entries quoted [] value'
      else contact_entries quoted (entry ++ [c]) value'
  end.
Fixpoint contact_loop (fuel : nat) (l : list NameValuePair) (header : Z) (addressIndex : nat) : outcome (option (list ascii)) :=
  let! value := getHeaderValue l header (Some SIP_CONTACT_FIELD) in
  match value with
  | None => Ok None
  | Some value =>
      let entries := contact_entries false [] value in
      match entries !! addressIndex with
      | Some entry => Ok (Some entry)
      | None =>
          match fuel with
          | O => UB
          | S fuel => contact_loop fuel l (header + 1) (addressIndex - length entries)
          end
      end
  end.
Definition getContactEntry (m : SipMessage) (addressIndex : nat) : outcome (option (list ascii)) :=
  contact_loop (length (mNameValues m)) (mNameValues m) 0 addressIndex.

(** ** The steps *)

Section Router.
Context `{Base64Search} `{RouteSearch} (fill : nat -> ascii) (pcre_exec : pat -> list ascii -> nat -> option Match).
Context (compile : bool -> list ascii -> option pat).
Context (this : SipRouter) (db : Databases) (newTag : list ascii).

(** SipMessage::getTopVia for receivedSet *)
Definition received_set (m : SipMessage) : outcome bool :=
  let! (found, via) := getFieldSubfield (mNameValues m) SIP_VIA_FIELD 0 false in
  if found : bool then
    let! (_, url) := NameValueTokenizer.getSubField (c_str via) 1 (c_str SIP_SUBFIELD_SEPARATORS) [] false in
    let! viaParam := Url_of_string fill pcre_exec url AddrSpec in
    let! (receivedAddress, _) := getUrlParameter (bytes "received") 0 viaParam in
    Ok (bool_decide (is_Some receivedAddress))
  else Ok false.

(** SipUserAgent::isExtensionAllowed *)
Definition isExtensionAllowed (extension : list ascii) : bool :=
  bool_decide ((tolower <$> cstr extension) ∈ rt_allowedSipExtensions this).

(** areAllExtensionsSupported: disallowedExtensions, [None] where all are *)
Fixpoint extensions_loop (fuel : nat) (l : list NameValuePair) (extensionIndex : Z) (disallowed : option (list ascii))
    : outcome (option (list ascii)) :=
  let! (found, extension) := getFieldSubfield l SIP_PROXY_REQUIRE_FIELD extensionIndex false in
  if found : bool then
    let disallowed :=
      if isExtensionAllowed extension then disallowed
      else Some (match default [] disallowed with [] => [] | d => d ++ SIP_MULTIFIELD_SEPARATOR ++ bytes " " end ++ cstr extension) in
    match fuel with O => UB | S fuel => extensions_loop fuel l (extensionIndex + 1) disallowed end
  else Ok disallowed.
Definition areAllExtensionsSupported (m : SipMessage) : outcome (option (list ascii)) :=
  extensions_loop (table_size (mNameValues m)) (mNameValues m) 0 None.

(** SipMessage::setRequestBadExtension *)
Definition setRequestBadExtension (disallowedExtension : list ascii) (m response : SipMessage) : outcome SipMessage :=
  let! response := setResponseData fill newTag m SIP_BAD_EXTENSION_CODE SIP_BAD_EXTENSION_TEXT None true response in
  on_headers (fun l => addHeaderField fill l SIP_UNSUPPORTED_FIELD (cstr disallowedExtension)) response.

(** addNatMappingInfoToContacts, for one contact: [None] where it is left *)
Definition nat_contact (received : Received) (bReceivedSet : bool) (contactString : list ascii) : outcome (option (list ascii)) :=
  let! newContactUri := Url_of_string fill pcre_exec contactString NameAddr in
  if (strcmp contactString (bytes "*") =? 0) || negb (is_sip (mScheme newContactUri)) then Ok None
  else
    let! newContactUri :=
      (if bReceivedSet then
         let! newContactUri := removeUrlParameter SIPX_NO_NAT_URI_PARAM newContactUri in
         let! newContactUri := removeUrlParameter SIPX_PRIVATE_CONTACT_URI_PARAM newContactUri in
         let port := if mHostPort newContactUri =? PORT_NONE then [] else bytes ":" ++ fmt_d (mHostPort newContactUri) in
         let! (transport, newContactUri) := getUrlParameter (bytes "transport") 0 newContactUri in
         let value := mHostAddress newContactUri ++ port
                      ++ match transport with Some t => bytes ";transport=" ++ t | None => [] end in
         setUrlParameter SIPX_PRIVATE_CONTACT_URI_PARAM (Some (cstr value))
           (setHostPort (sendPort received) (setHostAddress (Some (cstr (sendAddress received))) newContactUri))
       else
         let! (priv, newContactUri) := getUrlParameter SIPX_PRIVATE_CONTACT_URI_PARAM 0 newContactUri in
         let! (nonat, newContactUri) :=
           match priv with Some _ => Ok (priv, newContactUri) | None => getUrlParameter SIPX_NO_NAT_URI_PARAM 0 newContactUri end in
         match nonat with Some _ => Ok newContactUri | None => setUrlParameter SIPX_NO_NAT_URI_PARAM (Some []) newContactUri end) in
    let! (newContactString, _) := toString pcre_exec newContactUri in
    Ok (Some newContactString).

(** The loop.  The number of an entry is taken for the number of a header;
    where there is no header of that number one is added, which then is the
    next entry, so the loop can go on until the memory is used up: [UB]
    when [fuel] rounds were not enough. *)
Fixpoint contacts_loop (fuel : nat) (received : Received) (bReceivedSet : bool) (contactNumber : nat) (m : SipMessage) : outcome SipMessage :=
  let! contact := getContactEntry m contactNumber in
  match contact with
  | None => Ok m
  | Some contactString =>
      match fuel with
      | O => UB
      | S fuel =>
          let! new := nat_contact received bReceivedSet contactString in
          let! m := match new with
                    | Some newContactString => setContactField fill (cstr newContactString) (Z.of_nat contactNumber) m
                    | None => Ok m
                    end in
          contacts_loop fuel received bReceivedSet (S contactNumber) m
      end
  end.
Definition addNatMappingInfoToContacts (fuel : nat) (received : Received) (m : SipMessage) : outcome SipMessage :=
  let! bReceivedSet := received_set m in contacts_loop fuel received bReceivedSet 0 m.

(** SignedUrl::computeSignature and SignedUrl::sign *)
Definition computeSignature (userInfo hostPort : list ascii) : outcome (list ascii) :=
  let! m := hash_all (NetMd5Codec_default fill)
              ([rt_urlSecret this] ++ (if bool_decide (userInfo = []) then [] else [userInfo]) ++ [hostPort]) in
  let! (signature, _) := appendHashValue m [] in Ok signature.
Definition sign (urlToSign : Url) : outcome Url :=
  let! (_, urlToSign) := toString pcre_exec urlToSign in
  let! (_, urlToSign) := getUrlParameter (bytes "sipX-sig") 0 urlToSign in
  let! hostPort := getHostWithPort urlToSign in
  let! strSignature := computeSignature (mUserId urlToSign) hostPort in
  setUrlParameter (bytes "sipX-sig") (Some (cstr strSignature)) urlToSign.

(** SipMessage::addPathUri of a text that is not empty *)
Definition addPathUri (pathUri : list ascii) (l : list NameValuePair) : outcome (list NameValuePair) :=
  match pathUri with
  | [] => Ok l
  | _ =>
      let pathUriString := if bool_decide ("<"%char ∈ pathUri) then pathUri else bytes "<" ++ pathUri ++ bytes ">" in
      let! fieldValue := getHeaderValue l 0 (Some SIP_PATH_FIELD) in
      let '(pathUriString, l) :=
        match fieldValue with
        | Some v => (pathUriString ++ SIP_MULTIFIELD_SEPARATOR ++ v, snd (removeHeader l (Some SIP_PATH_FIELD) 0))
        | None => (pathUriString, l)
        end in
      insertHeaderField fill l SIP_PATH_FIELD (cstr pathUriString) 0
  end.

Definition addPathHeaderIfNATOrTlsRegisterRequest (m : SipMessage) : outcome SipMessage :=
  if strcmp (getRequestMethod m) SIP_REGISTER_METHOD =? 0 then
    let! (_, _, protocol) := getTopVia fill pcre_exec m in
    let! bReceivedSet := received_set m in
    let bIsTls := strcasecmp protocol (bytes "tls") =? 0 in
    if bReceivedSet || bIsTls then
      let! pathUri := Url_of_string fill pcre_exec (if bIsTls then rt_mRouteHostSecurePort this else rt_mRouteHostPort this) NameAddr in
      let! pathUri := (if bIsTls then setUrlParameter (bytes "transport=tls") None pathUri else Ok pathUri) in
      let! pathUri := sign pathUri in
      let! (pathUriString, _) := toString pcre_exec pathUri in
      on_headers (addPathUri (cstr pathUriString)) m
    else Ok m
  else Ok m.

(** ** Identities and credentials *)

(** getCredential of an identity and of a user, for the realm *)
Definition getCredential_identity (uri : Url) : Exn + option EntityRecord :=
  match findByIdentity db (getIdentity uri) with
  | inl e => inl e
  | inr (Some entity) => inr (if decide (e_realm entity = rt_mRealm this) then Some entity else None)
  | inr None => inr None
  end.
Definition getCredential_user (userid : list ascii) : Exn + option EntityRecord :=
  match findByUserId db userid with
  | inl e => inl e
  | inr (Some entity) => inr (if decide (e_realm entity = rt_mRealm this) then Some entity else None)
  | inr None => inr None
  end.

(** isAuthenticated: the loop over the credentials; the identity of the user
    that was authenticated *)
Definition check_credentials (now : Z) (m : SipMessage) (callId fromTag : list ascii) (d : Digest) : outcome (Exn + option (list ascii)) :=
  if negb (strcmp (rt_mRealm this) (d_realm d) =? 0) then Ok (inr None)
  else
    let! valid := isNonceValid fill (rt_nonceSecret this) now (d_nonce d) callId fromTag (rt_mRealm this) (rt_mNonceExpiration this) in
    if negb valid then Ok (inr None)
    else if decide (verifyQopConsistency pcre_exec (d_cnonce d) (d_nonceCount d) (d_qop d) = AUTH_QOP_NOT_SUPPORTED) then Ok (inr None)
    else
      match getCredential_user (d_user_base d) with
      | inl e => Ok (inl e)
      | inr None => Ok (inr None)
      | inr (Some entity) =>
          let! userUrl := Url_of_string fill pcre_exec (e_identity entity) NameAddr in
          let! authenticated := verifyMd5Authorization fill m (d_user d) (e_password entity) (d_nonce d) (d_realm d) (d_cnonce d)
                                  (d_nonceCount d) (d_qop d) (d_uri d) in
          Ok (inr (if authenticated : bool then Some (getIdentity userUrl) else None))
      end.
Fixpoint credentials_loop (fuel : nat) (now : Z) (m : SipMessage) (callId fromTag : list ascii) (requestAuthIndex : Z)
    : outcome (Exn + option (list ascii)) :=
  let! d := getDigestAuthorizationData (mNameValues m) requestAuthIndex in
  match d with
  | None => Ok (inr None)
  | Some d =>
      let! r := check_credentials now m callId fromTag d in
      match r with
      | inr None =>
          match fuel with O => UB | S fuel => credentials_loop fuel now m callId fromTag (requestAuthIndex + 1) end
      | _ => Ok r
      end
  end.
Definition isAuthenticated (now : Z) (m : SipMessage) : outcome (Exn + option (list ascii)) :=
  let! (callId, fromTag) := dialog_of fill pcre_exec m in
  credentials_loop (length (mNameValues m)) now m callId fromTag 0.

Definition authenticationChallenge (now : Z) (m response : SipMessage) : outcome SipMessage :=
  let! (callId, fromTag) := dialog_of fill pcre_exec m in
  let! newNonce := createNewNonce fill (rt_nonceSecret this) now callId fromTag (rt_mRealm this) in
  setRequestUnauthorized fill newTag m (rt_mRealm this) newNonce response.

Definition isPAIdentityApplicable (now : Z) (m : SipMessage) : outcome bool :=
  let! (sipxIdentity, _) := SipXauthIdentity_either fill pcre_exec (rt_identitySecret this) (rt_identityInterval this) now m true allowUnbound in
  if mIsValidIdentity sipxIdentity then Ok false
  else
    let! toUrl := getToUrl fill pcre_exec m in
    let! replaces := has_header SIP_REPLACES_FIELD m in
    Ok (bool_decide (tag_of toUrl = []) && (strcasecmp (getRequestMethod m) SIP_INVITE_METHOD =? 0) && negb replaces).

Definition isLocalDomain (url : Url) (bIncludeDomainAliases : bool) : outcome bool :=
  if strcasecmp (rt_mDomainName this) (mHostAddress url) =? 0 then Ok true
  else if bIncludeDomainAliases then let! (b, _) := isMyHostAlias (rt_mMyHostAliases this) url in Ok b
  else Ok false.

(** ** proxyMessage *)

(** The flags *)
Record Flags := mkFlags { bRequestShouldBeAuthorized : bool; bForwardingRulesShouldBeEvaluated : bool; bMessageWillSpiral : bool;
                          returnedAction : ProxyAction }.

(** A new request of a user that could be asked for credentials: the flags *)
Definition assert_identity (clock : Clock) : M Flags :=
  let go := mkFlags false true false SendRequest in
  do* applicable := read (isPAIdentityApplicable (c_now clock)) in
  if applicable : bool then
    do* fromUrl := read (getFromUrl fill pcre_exec) in
    do* (mine, fromUrl) := lift (isMyHostAlias (rt_mMyHostAliases this) fromUrl) in
    let fromUrl := if mine : bool then setHostAddress (Some (rt_mDomainName this)) fromUrl else fromUrl in
    do* credential := throwing (getCredential_identity fromUrl) in
    match credential with
    | None => mret go
    | Some _ =>
        do* authenticated := read (isAuthenticated (c_now clock)) in
        do* authUser := throwing authenticated in
        match authUser with
        | None =>
            do* _ := change_response (authenticationChallenge (c_now clock)) in
            mret (mkFlags false false false SendResponse)
        | Some _ =>
            do* _ := change_request (fun m =>
              let! present := has_header (header_text PAssertedIdentityHeaderName) m in
              Ok (if present : bool
                  then set_headers (snd (removeHeader (mNameValues m) (Some (header_text PAssertedIdentityHeaderName)) 0)) m else m)) in
            do* _ := change_request (fun m =>
              let! (_, m) := SipXauthIdentity.insert fill pcre_exec (rt_identitySecret this) (setIdentity (getIdentity fromUrl) SipXauthIdentity_new)
                               PAssertedIdentityHeaderName None (c_date clock) m in Ok m) in
            mret go
        end
    end
  else mret go.

Definition set_spiral_header : SipMessage -> outcome SipMessage :=
  on_headers (fun l => setHeaderValue fill l SIP_SIPX_SPIRAL_HEADER (bytes "true") 0).

(** A GRUU of this domain in a dialog: the request uri and the flags *)
Definition resolve_gruu (clock : Clock) (normalizedRequestUri : Url) : M (Url * Flags) :=
  do* registrations := throwing (getUnexpiredContactsUser db (getIdentity normalizedRequestUri) (c_now clock)) in
  match registrations with
  | [] => mret (normalizedRequestUri, mkFlags true true false SendRequest)
  | contact :: _ =>
      do* contactUri := lift (Url_of_string fill pcre_exec contact NameAddr) in
      do* (changedUri, contactUri) := lift (getUri contactUri) in
      do* _ := change_request (fun m => Ok (changeRequestUri changedUri m)) in
      mret (contactUri, mkFlags true false false SendRequest)
  end.

(** What kind of request it is: the request uri and the flags *)
Definition classify (fuel : nat) (received : Received) (clock : Clock) (routeState : RouteState) (normalizedRequestUri : Url) : M (Url * Flags) :=
  do* spiraling := read (has_header SIP_SIPX_SPIRAL_HEADER) in
  if spiraling : bool then mret (normalizedRequestUri, mkFlags true true false SendRequest)
  else
    do* _ := change_request (addNatMappingInfoToContacts fuel received) in
    if negb (mFoundRouteState routeState) then
      do* _ := change_request set_spiral_header in
      do* _ := change_request addPathHeaderIfNATOrTlsRegisterRequest in
      do* flags := assert_identity clock in
      mret (normalizedRequestUri, flags)
    else if mMayBeMutable routeState then
      do* _ := change_request set_spiral_header in
      mret (normalizedRequestUri, mkFlags true false true SendRequest)
    else
      do* local := lift (isLocalDomain normalizedRequestUri false) in
      do* (gruu, normalizedRequestUri) :=
        lift (if local : bool then isGRUU normalizedRequestUri else Ok (false, normalizedRequestUri)) in
      if gruu : bool then resolve_gruu clock normalizedRequestUri
      else mret (normalizedRequestUri, mkFlags true false false SendRequest).

(** addRuriParams *)
Definition addRuriParams (ruriParams : list ascii) (m : SipMessage) : outcome SipMessage :=
  let! paramsList := parseCgiVariables (c_str ruriParams) (c_str ";") (c_str "=") in
  match paramsList with
  | [] => Ok m
  | _ =>
      let! reqUri := Url_of_string fill pcre_exec (getRequestUri m) AddrSpec in
      let! reqUri := foldl (fun u p => let! u := u in setUrlParameter (cstr (fst p)) (Some (value_of p)) u) (Ok reqUri) paramsList in
      let! (reqUriStr, _) := toString pcre_exec reqUri in
      changeUri fill pcre_exec (cstr reqUriStr) m
  end.

(** A target of the forwarding rules: whether the request will spiral *)
Definition add_route (mappedTo : list ascii) (bMessageWillSpiral : bool) : M bool :=
  match mappedTo with
  | [] => mret bMessageWillSpiral
  | _ =>
      do* nextHopUrl := lift (Url_of_string fill pcre_exec mappedTo NameAddr) in
      do* (dummyString, nextHopUrl) := lift (getUrlParameter SIPX_ROUTE_TO_REGISTRAR_URI_PARAM 0 nextHopUrl) in
      do* nextHopUrl := lift (match dummyString with
                              | Some _ => removeUrlParameter SIPX_ROUTE_TO_REGISTRAR_URI_PARAM nextHopUrl
                              | None => Ok nextHopUrl
                              end) in
      do* nextHopUrl := lift (setUrlParameter (bytes "lr") None nextHopUrl) in
      do* (routeString, _) := lift (toString pcre_exec nextHopUrl) in
      do* _ := change_request (on_headers (fun l => addRouteUri fill l (cstr routeString))) in
      mret (bool_decide (is_Some dummyString) || bMessageWillSpiral)
  end.

(** The forwarding rules: the flags, and the rules with what they compiled *)
Definition forward (normalizedRequestUri : Url) (flags : Flags) : M Flags :=
  let '(mkFlags authorize rules spiral action) := flags in
  if rules then
    do* (top, _) := read (fun m => getRouteUri (mNameValues m) 0) in
    do* (authorize, spiral) :=
      (if top : bool then mret (true, spiral)
       else
         do* route :=
           match rt_mpForwardingRules this with
           | None => mret None
           | Some mpForwardingRules =>
               do* (status, route, _) :=
                 read (fun m => getRoute fill pcre_exec compile mpForwardingRules normalizedRequestUri m (mkRoute [] [] false [])) in
               mret (if decide (status = OS_SUCCESS) then Some route else None)
           end in
         match route with
         | None => mret (true, spiral)
         | Some route =>
             do* spiral := add_route (r_routeTo route) spiral in
             do* _ := (match r_ruriParams route with [] => mret () | ruriParams => change_request (addRuriParams ruriParams) end) in
             mret (if r_authRequired route then true else authorize, spiral)
         end) in
    do* _ := (if spiral : bool then mret ()
              else change_request (fun m => Ok (set_headers (snd (removeHeader (mNameValues m) (Some SIP_SIPX_SPIRAL_HEADER) 0)) m))) in
    mret (mkFlags authorize rules spiral action)
  else mret flags.

(** The loop over the plug-ins: all are called; the first result other than
    CONTINUE is the decision *)
Fixpoint plugins_loop (plugins : list AuthPlugin) (authUser : list ascii) (normalizedRequestUri : Url) (method : list ascii) (spiral : bool)
    (authStatus authDecision : AuthResult) (routeState : RouteState) (rejectReason : list ascii)
    : M (AuthResult * RouteState * list ascii) :=
  match plugins with
  | [] => mret (authDecision, routeState, rejectReason)
  | plugin :: plugins' =>
      do* m := request in
      do* (m, r) := lift (authorizeAndModify plugin authUser normalizedRequestUri routeState method authStatus m spiral rejectReason) in
      do* _ := set_request m in
      do* (pluginResult, routeState, rejectReason) := throwing r in
      do* _ := log_event (Authorized authUser authStatus pluginResult) in
      let '(authStatus, authDecision) :=
        if decide (authDecision = CONTINUE /\ pluginResult <> CONTINUE) then (pluginResult, pluginResult) else (authStatus, authDecision) in
      plugins_loop plugins' authUser normalizedRequestUri method spiral authStatus authDecision routeState rejectReason
  end.

(** The user of the request, if there is one *)
Definition authenticated_user (clock : Clock) : M (option (list ascii)) :=
  do* sipxIdentity := read (fun m => SipXauthIdentity_of fill pcre_exec (rt_identitySecret this) (rt_identityInterval this) (c_now clock) m
                                       AuthIdentityHeaderName allowUnbound) in
  if mIsValidIdentity sipxIdentity then
    do* _ := change_request (fun m => Ok (set_headers (normalize AuthIdentityHeaderName (mNameValues m)) m)) in
    mret (Some (mIdentity sipxIdentity))
  else
    do* authenticated := read (isAuthenticated (c_now clock)) in
    throwing authenticated.

Definition authorize (clock : Clock) (routeState : RouteState) (normalizedRequestUri : Url) (flags : Flags) : M Flags :=
  let '(mkFlags authorize rules spiral action) := flags in
  if authorize then
    do* dialog := lift (if mMayBeMutable routeState then Ok false else isDialogAuthorized routeState) in
    let authStatus := if dialog : bool then ALLOW else CONTINUE in
    do* authUser := authenticated_user clock in
    do* m := request in
    let method := getRequestMethod m in
    let '(authStatus, authDecision) :=
      if isResponse m || (strcmp method SIP_ACK_METHOD =? 0) then (ALLOW, ALLOW) else (authStatus, CONTINUE) in
    do* (authDecision, routeState, rejectReason) :=
      plugins_loop (rt_mAuthPlugins this) (default [] authUser) normalizedRequestUri method spiral authStatus authDecision routeState [] in
    match authDecision with
    | DENY =>
        do* _ := change_response (fun m response =>
          match authUser with
          | Some _ => setResponseData fill newTag m SIP_FORBIDDEN_CODE (cstr rejectReason) None true response
          | None => authenticationChallenge (c_now clock) m response
          end) in
        mret (mkFlags authorize rules spiral SendResponse)
    | _ =>
        do* _ := (if mMayBeMutable routeState then
                    do* routeState := lift (markDialogAsAuthorized fill routeState) in
                    change_request (update fill pcre_exec (rt_routeSecret this) routeState)
                  else mret ()) in
        mret flags
    end
  else mret flags.

(** A Record-Route to this proxy; [route] is its host and port *)
Definition record_route (hostPort : list ascii) (transport : option string) (m : SipMessage) : outcome SipMessage :=
  let! route := Url_of_string fill pcre_exec hostPort NameAddr in
  let! route := setUrlParameter (bytes "lr") None route in
  let! route := match transport with Some t => setUrlParameter (bytes t) None route | None => Ok route end in
  let! (recordRoute, _) := toString pcre_exec route in
  on_headers (fun l => addRecordRouteUri fill l (cstr recordRoute)) m.

Definition tls_target (m : SipMessage) : bool := header_line_contains m "transport=tls" || header_line_contains m "sips:".
Definition outbound_record_route (m : SipMessage) : outcome SipMessage :=
  if tls_target m then record_route (rt_mRouteHostSecurePort this) (Some "transport=tls"%string) m else Ok m.

(** The Record-Routes of a request that is not authorized *)
Definition record_route_trusted (received : Received) (m : SipMessage) : outcome SipMessage :=
  if isRecordRouteAccepted m then
    if is_ssl received then
      let! m := record_route (rt_mRouteHostSecurePort this) (Some "transport=tls"%string) m in
      record_route (rt_mRouteHostPort this) None m
    else
      let keep_tcp := rt_mEnsureTcpLifetime this && (is_tcp received || header_line_contains m "transport=tcp") in
      let! m := record_route (rt_mRouteHostPort this) (if keep_tcp then Some "transport=tcp"%string else None) m in
      outbound_record_route m
  else Ok m.

Fixpoint trusted_loop (plugins : list AuthPlugin) (normalizedRequestUri : Url) (spiral : bool) : M unit :=
  match plugins with
  | [] => mret ()
  | plugin :: plugins' =>
      do* m := request in
      do* (m, r) := lift (modifyTrustedRequest plugin normalizedRequestUri m spiral) in
      do* _ := set_request m in
      do* _ := throwing r in
      do* _ := log_event Trusted in
      trusted_loop plugins' normalizedRequestUri spiral
  end.

Definition add_record_routes (received : Received) (normalizedRequestUri : Url) (flags : Flags) : M unit :=
  if negb (bRequestShouldBeAuthorized flags) then
    do* _ := change_request (record_route_trusted received) in
    trusted_loop (filter (fun p => willModifyTrustedRequest p = true) (rt_mAuthPlugins this)) normalizedRequestUri (bMessageWillSpiral flags)
  else if bMessageWillSpiral flags then mret ()
  else change_request (fun m =>
    if isRecordRouteAccepted m then
      if is_ssl received then record_route (rt_mRouteHostSecurePort this) (Some "transport=tls"%string) m else outbound_record_route m
    else Ok m).

(** The block that exceptions are caught from *)
Definition proxy_body (fuel : nat) (received : Received) (clock : Clock) : M Flags :=
  do* disallowedExtensions := read areAllExtensionsSupported in
  match disallowedExtensions with
  | Some disallowed =>
      do* _ := change_response (setRequestBadExtension disallowed) in
      mret (mkFlags true true false SendResponse)
  | None =>
      do* (m, normalizedRequestUri, removedRoutes) :=
        read (fun m => normalizeProxyRoutes fill pcre_exec (rt_mMyHostAliases this) m Url_default (Some [])) in
      do* _ := set_request m in
      do* routeState := read (fun m => RouteState_new fill pcre_exec (rt_routeSecret this) m (default [] removedRoutes) (rt_mRouteHostPort this)) in
      do* (normalizedRequestUri, flags) := classify fuel received clock routeState normalizedRequestUri in
      do* flags := forward normalizedRequestUri flags in
      do* flags := authorize clock routeState normalizedRequestUri flags in
      do* _ := add_record_routes received normalizedRequestUri flags in
      mret flags
  end.

(** performPreRoutingChecks *)
Definition performPreRoutingChecks (m : SipMessage) : SipMessage :=
  let ppidcount := getCountHeaderFields (mNameValues m) P_PID_HEADER in
  if 0 <? ppidcount then set_headers (remove_down P_PID_HEADER (Z.to_nat ppidcount) (mNameValues m)) m else m.

(** SipUserAgent::setServerHeader *)
Definition setServerHeader (response : SipMessage) : outcome SipMessage :=
  let! present := has_header SIP_SERVER_FIELD response in
  if present : bool then Ok response
  else on_headers (fun l => setHeaderValue fill l SIP_SERVER_FIELD (cstr (rt_serverHeader this)) 0) response.

(** What is done for the action *)
Definition finish_action (action : ProxyAction) (spiral : bool) (w : Work) : outcome Work :=
  match action with
  | SendRequest =>
      let! maxForwards := getMaxForwards (w_request w) in
      let! maxForwards := match maxForwards with Some n => int_arith (n - 1) | None => Ok (rt_mMaxForwards this) end in
      let! m := setMaxForwards fill maxForwards (w_request w) in
      Ok (mkWork (if spiral then m else performPreRoutingChecks m) (w_response w) (w_events w))
  | SendResponse =>
      let! response := setServerHeader (w_response w) in
      Ok (mkWork (w_request w) response (w_events w))
  | DoNothing => Ok w
  end.

(** After an exception bMessageWillSpiral may be either, and is not read *)
Definition proxyMessage (fuel : nat) (received : Received) (clock : Clock) (sipRequest sipResponse : SipMessage)
    : outcome (ProxyAction * Work) :=
  let! (w, r) := proxy_body fuel received clock (mkWork sipRequest sipResponse []) in
  match r with
  | inr flags => let! w := finish_action (returnedAction flags) (bMessageWillSpiral flags) w in Ok (returnedAction flags, w)
  | inl e =>
      let! response := setResponseData fill newTag (w_request w) SIP_SERVICE_UNAVAILABLE_CODE (errorString e) None true (w_response w) in
      let! w := finish_action SendResponse false (mkWork (w_request w) response (w_events w)) in
      Ok (SendResponse, w)
  end.

(** ** Dispatching *)

(** The members: the free places that _pThreadPoolSem counts, the requests in
    the pool that no thread has finished, _lastFilledQueueAlarmLog *)
Record Dispatch := mkDispatch { d_free : nat; d_scheduled : list SipMessage; d_lastAlarm : Z }.
Record DispatchConfig := mkDispatchConfig { rejectOnFilledQueue : bool; rejectOnFilledQueuePercent : Z; maxTransactionCount : Z }.
Definition FILLED_QUEUE_ALARM_RATE : Z := 300.

(** What is known of a request when it is taken from the queue: three
    properties, which are empty where they are not set, and the most messages
    the queue of the router may hold *)
Record Load := mkLoad { l_queueSize : list ascii; l_maxQueueSize : list ascii; l_transactionCount : list ascii; l_appMaxQueueSize : Z }.

(** boost::lexical_cast of int, which throws *)
Context (lexical_cast : list ascii -> option Z).
Context (config : DispatchConfig).

(** The three casts: the first that throws leaves the rest at 0 *)
Definition load_counts (load : Load) : Z * Z * Z :=
  match lexical_cast (l_maxQueueSize load) with
  | None => (0, 0, 0)
  | Some transportMaxQueueSize =>
      match lexical_cast (l_queueSize load) with
      | None => (transportMaxQueueSize, 0, 0)
      | Some count => (transportMaxQueueSize, count, default 0 (lexical_cast (l_transactionCount load)))
      end
  end.
(** Whether the queues are too full, and whether there are too many
    transactions; the queue of the router is compared by the size of the other *)
Definition violations (load : Load) : outcome (bool * bool) :=
  let '(transportMaxQueueSize, count, transCount) := load_counts load in
  let! transport := int_arith (transportMaxQueueSize * rejectOnFilledQueuePercent config) in
  let! application := int_arith (l_appMaxQueueSize load * rejectOnFilledQueuePercent config) in
  Ok ((Z.quot transport 100 <? count) || (Z.quot application 100 <? count), maxTransactionCount config <? transCount).

Definition handleRequest (fuel : nat) (received : Received) (clock : Clock) (m : SipMessage) : outcome (list SipMessage) :=
  let! (action, w) := proxyMessage fuel received clock m (mkMsg [] []) in
  Ok (match action with SendRequest => [w_request w] | SendResponse => [w_response w] | DoNothing => [] end).

Definition unavailable (m : SipMessage) (text : string) : outcome SipMessage :=
  setResponseData fill newTag m SIP_SERVICE_UNAVAILABLE_CODE (bytes text) None true (mkMsg [] []).

(** How a message was handled *)
Inductive Handled :=
| Ignored
| Rejected
| InDialog
| Scheduled
| NoThread
| Blocked.

(** The rest of handleMessage, from the semaphore on: [scheduled] is what
    OsThreadPool::schedule returns.  A message that waits for the semaphore
    goes on from here when a place is free. *)
Definition dispatch (fuel : nat) (received : Received) (clock : Clock) (scheduled midDialog : bool) (m : SipMessage) (s : Dispatch)
    : outcome (Handled * Dispatch * list SipMessage) :=
  match d_free s with
  | O => Ok (Blocked, s, [])
  | S free =>
      if midDialog then
        let! sent := handleRequest fuel received clock m in
        Ok (InDialog, s, sent)
      else if scheduled then Ok (Scheduled, mkDispatch free (d_scheduled s ++ [m]) (d_lastAlarm s), [])
      else
        let! finalResponse := unavailable m "No Thread Available" in
        Ok (NoThread, mkDispatch free (d_scheduled s) (d_lastAlarm s), [finalResponse])
  end.

(** handleMessage of a message that is a SIP message; [uptime] is the time
    since boot *)
Definition handleMessage (fuel : nat) (received : Received) (clock : Clock) (uptime : Z) (scheduled transportError : bool) (load : Load)
    (m : SipMessage) (s : Dispatch) : outcome (Handled * Dispatch * list SipMessage) :=
  if transportError || isResponse m then Ok (Ignored, s, [])
  else
    let! fromUrl := getFromUrl fill pcre_exec m in
    let! toUrl := getToUrl fill pcre_exec m in
    let midDialog := bool_decide (tag_of fromUrl <> []) && bool_decide (tag_of toUrl <> []) in
    let! (full, busy) :=
      (if rejectOnFilledQueue config && bool_decide (l_queueSize load <> []) && bool_decide (l_maxQueueSize load <> [])
       then violations load else Ok (false, false)) in
    if full && negb midDialog then
      let! finalResponse := unavailable m "Queue Size Is Too High" in
      Ok (Rejected, s, [finalResponse])
    else
      let s := if (full || busy) && ((d_lastAlarm s =? 0) || (d_lastAlarm s + FILLED_QUEUE_ALARM_RATE <=? uptime))
               then mkDispatch (d_free s) (d_scheduled s) uptime else s in
      dispatch fuel received clock scheduled midDialog m s.

(** A thread of the pool ends the request at [i] *)
Definition finish_request (fuel : nat) (received : Received) (clock : Clock) (i : nat) (s : Dispatch) : option (outcome (Dispatch * list SipMessage)) :=
  (fun m => let! sent := handleRequest fuel received clock m in Ok (mkDispatch (S (d_free s)) (delete i (d_scheduled s)) (d_lastAlarm s), sent))
  <$> d_scheduled s !! i.
End Router.
