(* ===== verification/SipRouterSpec.v ===== *)
(** * Who may send a request through the proxy

    What [proxyMessage] of [SipRouter] promises: a request goes on only when
    the plug-ins let it, or when the forwarding rules say that it needs no
    authorization; the user the plug-ins are asked about is one that signed an
    identity or proved a password; the refusals carry the status they should. *)
From Stdlib Require Import ZArith Lia Ascii String.
From stdpp Require Import base list strings.
From S2P Require Import Prelude UtlString NetBase64Codec NetMd5Codec NameValuePair HttpMessage Format OsTime OsDateTime Pcre UrlCodec Url.
From S2P Require Import UrlSyntax RouteState RouteStateMsg ProxyRoutes SipNonceDb SipMatch SipTarget UrlMapping ForwardRules SipXauthIdentity HttpAuth HttpAuthSpec SipRouter.
From S2P Require Import PcreSpec PcreText NetBase64CodecSpec RouteStateSpec HttpMessageSpec.
Local Open Scope Z_scope.

(** ** Runs of the steps *)

Lemma mbind_inv {A B} (m : M A) (f : A -> M B) w w' r :
  mbind m f w = Ok (w', r) <->
  (exists e, m w = Ok (w', inl e) /\ r = inl e) \/ (exists w1 a, m w = Ok (w1, inr a) /\ f a w1 = Ok (w', r)).
Proof.
  unfold mbind. rewrite obind_Ok. split.
  - intros ([w1 [e|a]] & Hm & Hf); [|right; by exists w1, a]. left. exists e. by simplify_eq.
  - intros [(e & Hm & ->)|(w1 & a & Hm & Hf)]; eexists; (split; [exact Hm|done]).
Qed.
Lemma mbind_ok {A B} (m : M A) (f : A -> M B) w w' b :
  mbind m f w = Ok (w', inr b) -> exists w1 a, m w = Ok (w1, inr a) /\ f a w1 = Ok (w', inr b).
Proof. intros [(e & _ & Hr)|Hr]%mbind_inv; [done|exact Hr]. Qed.

Lemma catching_ok {A} (o : outcome A) w w' a : catching o w = Ok (w', inr a) <-> o = Ok a /\ w' = w.
Proof. destruct o; simpl; split; try (intros [? ?]; by simplify_eq); intros ?; by simplify_eq. Qed.
Lemma change_request_ok f w w' r :
  change_request f w = Ok (w', inr r) <->
  exists m, f (w_request w) = Ok m /\ w' = mkWork m (w_response w) (w_events w).
Proof.
  destruct r. unfold change_request, mbind, read, set_request. destruct (f (w_request w)) as [m| | |]; simpl; split; try done.
  - intros Heq. exists m. by simplify_eq.
  - intros (? & [= <-] & ->). done.
  - by intros (? & ? & _).
  - by intros (? & ? & _).
  - by intros (? & ? & _).
Qed.
Lemma change_response_ok f w w' r :
  change_response f w = Ok (w', inr r) <->
  exists m, f (w_request w) (w_response w) = Ok m /\ w' = mkWork (w_request w) m (w_events w).
Proof.
  destruct r. unfold change_response, mbind, set_response. destruct (f (w_request w) (w_response w)) as [m| | |]; simpl; split; try done.
  - intros Heq. exists m. by simplify_eq.
  - intros (? & [= <-] & ->). done.
  - by intros (? & ? & _).
  - by intros (? & ? & _).
  - by intros (? & ? & _).
Qed.

(** Take apart the steps of the runs that returned *)
Ltac atom :=
  match goal with
  | H : mret _ _ = Ok (_, _) |- _ => unfold mret in H; injection H; clear H; intros; subst
  | H : read _ _ = Ok (_, inr _) |- _ => apply catching_ok in H as [? ->]
  | H : lift _ _ = Ok (_, inr _) |- _ => apply catching_ok in H as [? ->]
  | H : request _ = Ok (_, _) |- _ => unfold request in H; injection H; clear H; intros; subst
  | H : set_request _ _ = Ok (_, _) |- _ => unfold set_request in H; injection H; clear H; intros; subst
  | H : log_event _ _ = Ok (_, _) |- _ => unfold log_event in H; injection H; clear H; intros; subst
  | H : throwing _ _ = Ok (_, _) |- _ => unfold throwing in H; injection H; clear H; intros; subst
  | H : change_request _ _ = Ok (_, inr _) |- _ => apply change_request_ok in H as (? & ? & ->)
  | H : change_response _ _ = Ok (_, inr _) |- _ => apply change_response_ok in H as (? & ? & ->)
  | H : Ok _ = Ok _ |- _ => injection H; clear H; intros; subst
  | H : inr _ = inr _ |- _ => injection H; clear H; intros; subst
  | H : () = _ |- _ => clear H
  | H : _ = () |- _ => clear H
  end.
Ltac atoms := repeat (atom; cbn [fst snd w_request w_response w_events] in * ).
Ltac step :=
  match goal with
  | H : mbind _ _ _ = Ok (_, inr _) |- _ => apply mbind_ok in H; destruct H as (? & ? & ? & H)
  | p : (_ * _)%type |- _ => destruct p
  end.
Ltac steps := repeat (first [atom | step]; cbn [fst snd w_request w_response w_events] in * ).

(** ** Steps that call no plug-in *)

Definition quiet {A} (m : M A) : Prop := forall w w' r, m w = Ok (w', r) -> w_events w' = w_events w.
Create HintDb quiet.
Section Quiet.
Context {A B : Type}.
Lemma quiet_mret (a : A) : quiet (mret a).
Proof. intros w w' r Heq. unfold mret in Heq. by simplify_eq. Qed.
Lemma quiet_mbind (m : M A) (f : A -> M B) : quiet m -> (forall a, quiet (f a)) -> quiet (mbind m f).
Proof.
  intros Hm Hf w w' r [(e & He & _)|(w1 & a & H1 & H2)]%mbind_inv; [by apply Hm in He|]. apply Hm in H1. apply Hf in H2. congruence.
Qed.
Lemma quiet_lift (o : outcome A) : quiet (lift o).
Proof. intros w w' r. unfold lift. destruct o; simpl; intros ?; by simplify_eq. Qed.
Lemma quiet_read (f : SipMessage -> outcome A) : quiet (read f).
Proof. intros w w' r. unfold read. destruct (f _); simpl; intros ?; by simplify_eq. Qed.
Lemma quiet_throwing (x : Exn + A) : quiet (throwing x).
Proof. intros w w' r Heq. unfold throwing in Heq. by simplify_eq. Qed.
End Quiet.
Lemma quiet_set_request m : quiet (set_request m).
Proof. intros w w' r Heq. unfold set_request in Heq. by simplify_eq. Qed.
Lemma quiet_change_request f : quiet (change_request f).
Proof. apply quiet_mbind; [apply quiet_read|apply quiet_set_request]. Qed.
Lemma quiet_change_response f : quiet (change_response f).
Proof.
  apply quiet_mbind.
  - intros w w' r. destruct (f _ _); simpl; intros ?; by simplify_eq.
  - intros m w w' r Heq. unfold set_response in Heq. by simplify_eq.
Qed.
#[export] Hint Resolve quiet_mret quiet_mbind quiet_lift quiet_read quiet_throwing quiet_change_request quiet_change_response quiet_set_request : quiet.
Ltac quiet :=
  repeat (cbv beta zeta; match goal with
          | |- quiet (mbind _ _) => apply quiet_mbind; [|intros ?]
          | |- context [let '_ := ?p in _] => is_var p; destruct p
          | |- quiet (match ?x with _ => _ end) => destruct x
          | |- quiet _ => solve [eauto with quiet nocore]
          end).

(** ** The verdict of the plug-ins *)

(** The first result that is not CONTINUE *)
Fixpoint verdict (events : list Event) : AuthResult :=
  match events with
  | [] => CONTINUE
  | Authorized _ _ CONTINUE :: events' => verdict events'
  | Authorized _ _ result :: _ => result
  | Trusted :: events' => verdict events'
  end.

(** The answer of a plug-in that was asked about this user and uri *)
Definition answer_of (user : list ascii) (uri : Url) (plugin : AuthPlugin) (e : Event) : Prop :=
  exists prior result routeState method m spiral reason m' routeState' reason', e = Authorized user prior result
    /\ authorizeAndModify plugin user uri routeState method prior m spiral reason = Ok (m', inr (result, routeState', reason')).

(** What each plug-in is told: [status] before any has decided, then the
    decision *)
Fixpoint chained (status decision : AuthResult) (events : list Event) : Prop :=
  match events with
  | [] => True
  | Authorized _ prior result :: events' =>
      prior = status
      /\ (if decide (decision = CONTINUE /\ result <> CONTINUE) then chained result result events' else chained status decision events')
  | Trusted :: _ => False
  end.

(** ACKs and responses are let through whatever the plug-ins say *)
Definition exempt (m : SipMessage) : bool := isResponse m || (strcmp (getRequestMethod m) SIP_ACK_METHOD =? 0).

(** All plug-ins are asked, each with the decision so far *)
Lemma plugins_loop_spec plugins user uri method spiral status decision routeState reason w w' decision' routeState' reason' :
  plugins_loop plugins user uri method spiral status decision routeState reason w = Ok (w', inr (decision', routeState', reason')) ->
  exists evs, w_events w' = w_events w ++ evs /\ Forall2 (answer_of user uri) plugins evs
    /\ chained status decision evs /\ decision' = (if decide (decision = CONTINUE) then verdict evs else decision) /\ w_response w' = w_response w.
Proof.
  revert status decision routeState reason w. induction plugins as [|plugin plugins IH]; intros status decision routeState reason w Hrun; cbn [plugins_loop] in Hrun.
  - steps. exists []. rewrite app_nil_r. by destruct decision'.
  - apply mbind_ok in Hrun as (w1 & m & Hm & Hrun). atoms. apply mbind_ok in Hrun as (w2 & [m' r] & Hcall & Hrun). atoms.
    apply mbind_ok in Hrun as (w3 & [] & Hset & Hrun). apply mbind_ok in Hrun as (w4 & [[result rs] why] & Ht & Hrun).
    apply mbind_ok in Hrun as (w5 & [] & Hlog & Hrun). atoms.
    destruct (if decide (decision = CONTINUE /\ result <> CONTINUE) then _ else _) as [status' decision1] eqn:Ed.
    apply IH in Hrun as (evs & Hev & Hall & Hchain & Hdec & Hresp). exists (Authorized user status result :: evs). cbn [w_events] in Hev.
    rewrite Hev, <- app_assoc. split_and!; [done|constructor; [by eexists _, _, _, _, _, _, _, _, _, _|done]| | |done].
    { cbn [chained]. split; [done|]. destruct decision, result; vm_compute in Ed; simplify_eq; exact Hchain. }
    rewrite Hdec. destruct decision, result; vm_compute in Ed; simplify_eq; done.
Qed.

(** ** Authorization *)

Section Router.
Context `{Base64Search} `{RouteSearch} (fill : nat -> ascii) (pcre_exec : pat -> list ascii -> nat -> option Match).
Context (compile : bool -> list ascii -> option pat).
Context (this : SipRouter) (db : Databases) (newTag : list ascii).

(** The user of a request: the one of a signed identity, else the one of the
    credentials, else none *)
Definition user_of_request (now : Z) (m : SipMessage) (user : option (list ascii)) : Prop :=
  exists identity,
    SipXauthIdentity_of fill pcre_exec (rt_identitySecret this) (rt_identityInterval this) now m AuthIdentityHeaderName allowUnbound = Ok identity
    /\ if mIsValidIdentity identity then user = Some (mIdentity identity) else isAuthenticated fill pcre_exec this db now m = Ok (inr user).

Lemma authenticated_user_spec clock w w' user :
  authenticated_user fill pcre_exec this db clock w = Ok (w', inr user) ->
  user_of_request (c_now clock) (w_request w) user /\ w_events w' = w_events w /\ w_response w' = w_response w
  /\ mFirstHeaderLine (w_request w') = mFirstHeaderLine (w_request w).
Proof.
  unfold authenticated_user. intros Hrun. apply mbind_ok in Hrun as (w1 & identity & Hid & Hrun). steps.
  unfold user_of_request. destruct (mIsValidIdentity identity) eqn:Ev; steps.
  - split_and!; try done. exists identity. by rewrite Ev.
  - split_and!; try done. exists identity. rewrite Ev. split; [done|]. congruence.
Qed.

Lemma exempt_first_line m m' : mFirstHeaderLine m = mFirstHeaderLine m' -> exempt m = exempt m'.
Proof. unfold exempt, isResponse, getRequestMethod, getFirstHeaderLinePart. by intros ->. Qed.

(** What is left to the answer when the plug-ins refuse *)
Definition refusal (clock : Clock) (user : option (list ascii)) (m response response' : SipMessage) : Prop :=
  match user with
  | Some _ => exists reason, setResponseData fill newTag m SIP_FORBIDDEN_CODE (cstr reason) None true response = Ok response'
  | None => authenticationChallenge fill pcre_exec this newTag (c_now clock) m response = Ok response'
  end.

Lemma authorize_spec clock routeState uri flags w w' flags' :
  authorize fill pcre_exec this db newTag clock routeState uri flags w = Ok (w', inr flags') ->
  bRequestShouldBeAuthorized flags = true ->
  exists user evs dialog, user_of_request (c_now clock) (w_request w) user /\ w_events w' = w_events w ++ evs
    /\ Forall2 (answer_of (default [] user) uri) (rt_mAuthPlugins this) evs
    /\ (if mMayBeMutable routeState then Ok false else isDialogAuthorized routeState) = Ok dialog
    /\ chained (if exempt (w_request w) || dialog then ALLOW else CONTINUE) (if exempt (w_request w) then ALLOW else CONTINUE) evs
    /\ if exempt (w_request w) || negb (bool_decide (verdict evs = DENY)) then flags' = flags /\ w_response w' = w_response w
       else returnedAction flags' = SendResponse /\ bRequestShouldBeAuthorized flags' = true
            /\ refusal clock user (w_request w') (w_response w) (w_response w').
Proof.
  destruct flags as [auth rules spiral action]. intros Hrun; cbn [bRequestShouldBeAuthorized]; intros ->. cbn [authorize] in Hrun.
  apply mbind_ok in Hrun as (w1 & dialog & Hd & Hrun). atoms.
  apply mbind_ok in Hrun as (w2 & user & Hu & Hrun). apply authenticated_user_spec in Hu as (Hu & Hev & Hresp & Hline).
  apply mbind_ok in Hrun as (w3 & m & Hm & Hrun). atoms. fold (exempt (w_request w3)) in Hrun. rewrite (exempt_first_line _ _ Hline) in Hrun.
  destruct (if exempt _ then _ else _) as [status decision] eqn:Es.
  apply mbind_ok in Hrun as (w4 & [[decision' rs'] reason] & Hp & Hrun). apply plugins_loop_spec in Hp as (evs & Hev' & Hall & Hprior & Hdec & Hresp').
  exists user, evs, dialog. split; [done|].
  assert (chained (if exempt (w_request w) || dialog then ALLOW else CONTINUE) (if exempt (w_request w) then ALLOW else CONTINUE) evs) as Hprior'.
  { destruct (exempt _), dialog; by simplify_eq. }
  assert (decision' = if exempt (w_request w) then ALLOW else verdict evs) as Hdec'.
  { rewrite Hdec. destruct (exempt _); simplify_eq; done. }
  clear Hdec.
  assert (w_events w4 = w_events w ++ evs) as E4 by congruence. assert (w_response w4 = w_response w) as R4 by congruence.
  destruct (exempt (w_request w) || negb (bool_decide (verdict evs = DENY))) eqn:Eok.
  - assert (decision' <> DENY) as Hnd.
    { intros ->. destruct (exempt _); [done|]. rewrite <- Hdec' in Eok. done. }
    destruct decision'; [| done |]; apply mbind_ok in Hrun as (w5 & [] & Hup & Hrun); atoms;
      destruct (mMayBeMutable rs'); steps; done.
  - apply orb_false_iff in Eok as [Ee Ev]. apply negb_false_iff, bool_decide_eq_true in Ev. rewrite Ee, Ev in Hdec'. subst decision'.
    cbn beta iota in Hrun. steps. rewrite <- R4. split_and!; try done. unfold refusal. destruct user; [by exists reason|done].
Qed.

Lemma authorize_waived clock routeState uri flags w w' flags' :
  authorize fill pcre_exec this db newTag clock routeState uri flags w = Ok (w', inr flags') ->
  bRequestShouldBeAuthorized flags = false -> flags' = flags /\ w' = w.
Proof. destruct flags as [auth rules spiral action]. cbn. intros Hrun ->. by atoms. Qed.

(** ** Before the authorization *)

(** The rules give a request a target that needs no authorization *)
Definition rules_trust (uri : Url) (m : SipMessage) : Prop :=
  exists text rules route rules', getRouteUri (mNameValues m) 0 = Ok (false, text) /\ rt_mpForwardingRules this = Some rules
    /\ getRoute fill pcre_exec compile rules uri m (mkRoute [] [] false []) = Ok (OS_SUCCESS, route, rules')
    /\ r_authRequired route = false.

Lemma quiet_assert_identity clock : quiet (assert_identity fill pcre_exec this db newTag clock).
Proof. unfold assert_identity. quiet. Qed.
Lemma quiet_resolve_gruu clock uri : quiet (resolve_gruu fill pcre_exec db clock uri).
Proof. unfold resolve_gruu. quiet. Qed.
#[local] Hint Resolve quiet_assert_identity quiet_resolve_gruu : quiet.
Lemma quiet_classify fuel received clock routeState uri : quiet (classify fill pcre_exec this db newTag fuel received clock routeState uri).
Proof. unfold classify. quiet. Qed.
Lemma quiet_forward uri flags : quiet (forward fill pcre_exec compile this uri flags).
Proof. unfold forward, add_route. quiet. Qed.

(** Only a request that is new to the proxy goes without authorization so far *)
Lemma classify_spec fuel received clock routeState uri w w' uri' flags :
  classify fill pcre_exec this db newTag fuel received clock routeState uri w = Ok (w', inr (uri', flags)) ->
  (bRequestShouldBeAuthorized flags = false ->
     has_header SIP_SIPX_SPIRAL_HEADER (w_request w) = Ok false /\ mFoundRouteState routeState = false /\ uri' = uri)
  /\ match returnedAction flags with
     | SendRequest => w_response w' = w_response w /\ (bRequestShouldBeAuthorized flags = false -> bForwardingRulesShouldBeEvaluated flags = true)
     | SendResponse => bRequestShouldBeAuthorized flags = false /\ bForwardingRulesShouldBeEvaluated flags = false
                       /\ isAuthenticated fill pcre_exec this db (c_now clock) (w_request w') = Ok (inr None)
                       /\ authenticationChallenge fill pcre_exec this newTag (c_now clock) (w_request w') (w_response w) = Ok (w_response w')
     | DoNothing => False
     end.
Proof.
  unfold classify. intros Hrun. apply mbind_ok in Hrun as (w1 & spiraling & Hs & Hrun). atoms.
  destruct spiraling; [by atoms|].
  apply mbind_ok in Hrun as (w2 & [] & Hnat & Hrun). atoms.
  destruct (mFoundRouteState routeState); cbn [negb] in Hrun.
  - destruct (mMayBeMutable routeState); [by steps|].
    apply mbind_ok in Hrun as (w3 & local & Hl & Hrun). atoms.
    apply mbind_ok in Hrun as (w3 & [gruu uri1] & Hg & Hrun). atoms.
    destruct gruu; [|by atoms]. unfold resolve_gruu in Hrun. apply mbind_ok in Hrun as (w4 & [|contact regs] & Hr & Hrun); by steps.
  - apply mbind_ok in Hrun as (w3 & [] & K3 & Hrun). apply mbind_ok in Hrun as (w4 & [] & K4 & Hrun).
    apply mbind_ok in Hrun as (w5 & flags5 & K5 & Hrun). atoms. cbn [w_request]. unfold assert_identity in K5.
    apply mbind_ok in K5 as (w6 & applicable & K6 & K5). atoms. destruct applicable; [|by atoms].
    apply mbind_ok in K5 as (w7 & fromUrl & K7 & K5). atoms. apply mbind_ok in K5 as (w7 & [mine fromUrl'] & K8 & K5). atoms.
    apply mbind_ok in K5 as (w8 & [entity|] & K9 & K5); atoms; [|done].
    apply mbind_ok in K5 as (w8 & authenticated & K10 & K5); atoms.
    apply mbind_ok in K5 as (w8 & [user|] & K11 & K5); steps; [done|]. split; [done|]. cbn [returnedAction bRequestShouldBeAuthorized bForwardingRulesShouldBeEvaluated].
    by split_and!.
Qed.

Lemma forward_spec uri flags w w' flags' :
  forward fill pcre_exec compile this uri flags w = Ok (w', inr flags') ->
  returnedAction flags' = returnedAction flags /\ w_response w' = w_response w
  /\ if bForwardingRulesShouldBeEvaluated flags then bRequestShouldBeAuthorized flags' = false ->
                                                       bRequestShouldBeAuthorized flags = false /\ rules_trust uri (w_request w)
     else flags' = flags.
Proof.
  destruct flags as [auth rules spiral action]. unfold forward. destruct rules; [|by intros; atoms].
  intros Hrun. apply mbind_ok in Hrun as (w1 & [top text] & Ht & Hrun). atoms.
  apply mbind_ok in Hrun as (w1 & [auth1 spiral1] & Hc & Hrun). apply mbind_ok in Hrun as (w2 & [] & Hs & Hrun). atoms.
  assert (w_response w' = w_response w1) as Hresp' by (destruct spiral1; by atoms). rewrite Hresp'. clear Hs Hresp' w'.
  cbn [returnedAction bRequestShouldBeAuthorized bForwardingRulesShouldBeEvaluated]. split; [done|].
  destruct top; [by atoms|]. apply mbind_ok in Hc as (w2 & route & Hr & Hc).
  destruct (rt_mpForwardingRules this) as [fr|] eqn:Efr; [|by atoms].
  apply mbind_ok in Hr as (w3 & [[status r] fr'] & Hg & Hr). atoms.
  destruct (decide (status = OS_SUCCESS)) as [-> |]; [|by atoms].
  apply mbind_ok in Hc as (w4 & spiral2 & Ha & Hc). apply mbind_ok in Hc as (w5 & [] & Hp & Hc). atoms.
  assert (w_response w4 = w_response w) as <-.
  { revert Ha. unfold add_route. destruct (r_routeTo r); intros; by steps. }
  split; [destruct (r_ruriParams r); by atoms|].
  destruct (r_authRequired r) eqn:Er; [done|]. intros ->. split; [done|]. exists text, fr, r, fr'. done.
Qed.

Lemma trusted_loop_spec plugins uri spiral w w' :
  trusted_loop plugins uri spiral w = Ok (w', inr ()) ->
  w_events w' = w_events w ++ repeat Trusted (length plugins) /\ w_response w' = w_response w.
Proof.
  revert w. induction plugins as [|plugin plugins IH]; intros w Hrun; cbn [trusted_loop] in Hrun.
  - steps. by rewrite app_nil_r.
  - apply mbind_ok in Hrun as (w1 & m & Hm & Hrun). atoms. apply mbind_ok in Hrun as (w2 & [m' r] & Hcall & Hrun). atoms.
    apply mbind_ok in Hrun as (w3 & [] & Hset & Hrun). apply mbind_ok in Hrun as (w4 & [] & Ht & Hrun).
    apply mbind_ok in Hrun as (w5 & [] & Hlog & Hrun). atoms. apply IH in Hrun as [Hev Hresp]. cbn [w_events] in Hev.
    rewrite Hev, <- app_assoc. done.
Qed.

Lemma add_record_routes_spec received uri flags w w' :
  add_record_routes fill pcre_exec this received uri flags w = Ok (w', inr ()) ->
  w_response w' = w_response w
  /\ w_events w' = w_events w ++ (if bRequestShouldBeAuthorized flags then []
       else repeat Trusted (length (filter (fun p => willModifyTrustedRequest p = true) (rt_mAuthPlugins this)))).
Proof.
  unfold add_record_routes. destruct (bRequestShouldBeAuthorized flags); cbn [negb]; rewrite ?app_nil_r.
  - destruct (bMessageWillSpiral flags); intros; by atoms.
  - intros (w1 & [] & Hr & Hrun)%mbind_ok. atoms. by apply trusted_loop_spec in Hrun as [Hev Hresp].
Qed.

(** ** The whole body *)

(** How far a request came that needs no extension the proxy does not have *)
Record Passage (fuel : nat) (received : Received) (clock : Clock) (sipRequest sipResponse : SipMessage) := mkPassage {
  p_work : Work; p_uri : Url; p_removed : option (list (list ascii)); p_state : RouteState;
  p_work1 : Work; p_uri1 : Url; p_flags1 : Flags; p_work2 : Work; p_flags2 : Flags;
  p_normalized : normalizeProxyRoutes fill pcre_exec (rt_mMyHostAliases this) sipRequest Url_default (Some []) = Ok (w_request p_work, p_uri, p_removed);
  p_start : w_response p_work = sipResponse /\ w_events p_work = [];
  p_found : RouteState_new fill pcre_exec (rt_routeSecret this) (w_request p_work) (default [] p_removed) (rt_mRouteHostPort this) = Ok p_state;
  p_classified : classify fill pcre_exec this db newTag fuel received clock p_state p_uri p_work = Ok (p_work1, inr (p_uri1, p_flags1));
  p_forwarded : forward fill pcre_exec compile this p_uri1 p_flags1 p_work1 = Ok (p_work2, inr p_flags2) }.
#[local] Arguments p_work {_ _ _ _ _} _.
#[local] Arguments p_uri {_ _ _ _ _} _.
#[local] Arguments p_removed {_ _ _ _ _} _.
#[local] Arguments p_state {_ _ _ _ _} _.
#[local] Arguments p_work1 {_ _ _ _ _} _.
#[local] Arguments p_uri1 {_ _ _ _ _} _.
#[local] Arguments p_flags1 {_ _ _ _ _} _.
#[local] Arguments p_work2 {_ _ _ _ _} _.
#[local] Arguments p_flags2 {_ _ _ _ _} _.
#[local] Arguments p_normalized {_ _ _ _ _} _.
#[local] Arguments p_start {_ _ _ _ _} _.
#[local] Arguments p_found {_ _ _ _ _} _.
#[local] Arguments p_classified {_ _ _ _ _} _.
#[local] Arguments p_forwarded {_ _ _ _ _} _.

Lemma proxy_body_spec fuel received clock sipRequest sipResponse w flags :
  proxy_body fill pcre_exec compile this db newTag fuel received clock (mkWork sipRequest sipResponse []) = Ok (w, inr flags) ->
  (exists bad, areAllExtensionsSupported this sipRequest = Ok (Some bad) /\ returnedAction flags = SendResponse
     /\ setRequestBadExtension fill newTag bad sipRequest sipResponse = Ok (w_response w))
  \/ (areAllExtensionsSupported this sipRequest = Ok None /\
      exists (p : Passage fuel received clock sipRequest sipResponse) w3,
        authorize fill pcre_exec this db newTag clock (p_state p) (p_uri1 p) (p_flags2 p) (p_work2 p) = Ok (w3, inr flags)
        /\ add_record_routes fill pcre_exec this received (p_uri1 p) flags w3 = Ok (w, inr ())).
Proof.
  unfold proxy_body. intros (w1 & bad & Hb & Hrun)%mbind_ok. atoms. destruct bad as [bad|]; [left|right].
  - exists bad. steps. split_and!; done.
  - split; [done|]. apply mbind_ok in Hrun as (w1 & [[m uri] removed] & Hn & Hrun). atoms.
    apply mbind_ok in Hrun as (w1 & [] & Hset & Hrun). atoms. apply mbind_ok in Hrun as (w1 & rs & Hrs & Hrun). atoms.
    apply mbind_ok in Hrun as (w1 & [uri1 flags1] & Hc & Hrun). apply mbind_ok in Hrun as (w2 & flags2 & Hf & Hrun).
    apply mbind_ok in Hrun as (w3 & flags3 & Ha & Hrun). apply mbind_ok in Hrun as (w4 & [] & Hr & Hrun). atoms.
    eexists (mkPassage _ _ _ _ _ _ uri removed rs w1 uri1 flags1 w2 flags2 _ _ _ Hc Hf), w3. done.
    Unshelve. all: done.
Qed.

Lemma passage_quiet fuel received clock sipRequest sipResponse (p : Passage fuel received clock sipRequest sipResponse) : w_events (p_work2 p) = [].
Proof.
  rewrite (quiet_forward _ _ _ _ _ (p_forwarded p)), (quiet_classify _ _ _ _ _ _ _ _ (p_classified p)). apply (p_start p).
Qed.

(** A request without authorization so far *)
Lemma passage_trusted fuel received clock sipRequest sipResponse (p : Passage fuel received clock sipRequest sipResponse) :
  bRequestShouldBeAuthorized (p_flags2 p) = false ->
  has_header SIP_SIPX_SPIRAL_HEADER (w_request (p_work p)) = Ok false /\ mFoundRouteState (p_state p) = false
  /\ (returnedAction (p_flags2 p) = SendRequest -> rules_trust (p_uri p) (w_request (p_work1 p))).
Proof.
  intros Hauth. destruct (forward_spec _ _ _ _ _ (p_forwarded p)) as (Hact & _ & Hf). destruct (classify_spec _ _ _ _ _ _ _ _ _ (p_classified p)) as [Hnew Hc].
  assert (bRequestShouldBeAuthorized (p_flags1 p) = false) as Hauth1.
  { destruct (bForwardingRulesShouldBeEvaluated _); [by apply Hf|congruence]. }
  destruct (Hnew Hauth1) as (Hh & Hfound & Huri). split_and!; [done|done|]. intros Hsend. rewrite Hact in Hsend. rewrite Hsend in Hc.
  destruct Hc as [_ Hr]. rewrite (Hr Hauth1) in Hf. rewrite <- Huri. by apply Hf.
Qed.

(** Why a request was sent on: every plug-in was asked about the user of the
    request and told the decision so far, which at first is ALLOW only for an
    ACK or where the dialog was authorized before, and the first that took a decision did not refuse, or
    the request is an ACK; or the request is new to the proxy (no spiral header, no signed
    route state), no route is left in it, and the forwarding rules have a
    target for its uri that needs no authorization *)
Definition allowed (fuel : nat) (received : Received) (clock : Clock) (sipRequest sipResponse : SipMessage) (w : Work) : Prop :=
  areAllExtensionsSupported this sipRequest = Ok None /\
  exists p : Passage fuel received clock sipRequest sipResponse,
    if bRequestShouldBeAuthorized (p_flags2 p)
    then exists user dialog, user_of_request (c_now clock) (w_request (p_work2 p)) user
           /\ Forall2 (answer_of (default [] user) (p_uri1 p)) (rt_mAuthPlugins this) (w_events w)
           /\ (if mMayBeMutable (p_state p) then Ok false else isDialogAuthorized (p_state p)) = Ok dialog
           /\ chained (if exempt (w_request (p_work2 p)) || dialog then ALLOW else CONTINUE)
                (if exempt (w_request (p_work2 p)) then ALLOW else CONTINUE) (w_events w)
           /\ (verdict (w_events w) <> DENY \/ exempt (w_request (p_work2 p)) = true)
    else has_header SIP_SIPX_SPIRAL_HEADER (w_request (p_work p)) = Ok false /\ mFoundRouteState (p_state p) = false
         /\ rules_trust (p_uri p) (w_request (p_work1 p)) /\ Forall (eq Trusted) (w_events w).

Lemma forwarded_allowed fuel received clock sipRequest sipResponse w :
  proxyMessage fill pcre_exec compile this db newTag fuel received clock sipRequest sipResponse = Ok (SendRequest, w) ->
  allowed fuel received clock sipRequest sipResponse w.
Proof.
  unfold proxyMessage, allowed. intros ([w1 r] & Hbody & Hrun)%obind_Ok. destruct r as [e|flags].
  { apply obind_Ok in Hrun as (? & _ & Hrun). apply obind_Ok in Hrun as (? & _ & Hrun). done. }
  apply obind_Ok in Hrun as (w2 & Hfin & Hrun). injection Hrun as Hact ->.
  apply proxy_body_spec in Hbody as [(bad & _ & Hresp & _)|(Hext & p & w3 & Ha & Hr)]; [congruence|]. split; [done|]. exists p.
  assert (w_events w = w_events w1) as ->.
  { rewrite Hact in Hfin. simpl in Hfin. apply obind_Ok in Hfin as (? & _ & Hfin). apply obind_Ok in Hfin as (? & _ & Hfin).
    apply obind_Ok in Hfin as (? & _ & Hfin). by simplify_eq. }
  apply add_record_routes_spec in Hr as [_ Hev]. pose proof (passage_quiet _ _ _ _ _ p) as Hq.
  destruct (bRequestShouldBeAuthorized (p_flags2 p)) eqn:Eauth.
  - apply authorize_spec in Ha as (user & evs & dialog & Hu & Hev3 & Hall & Hdialog & Hprior & Hcase); [|done]. rewrite Hq in Hev3. simpl in Hev3.
    exists user, dialog. destruct (exempt _ || negb _) eqn:Eok; [|destruct Hcase; congruence].
    destruct Hcase as [-> _]. rewrite Eauth, app_nil_r in Hev. rewrite Hev, Hev3. split_and!; try done.
    apply orb_true_iff in Eok as [Eok|Eok]; [by right|left]. by apply negb_true_iff, bool_decide_eq_false in Eok.
  - destruct (authorize_waived _ _ _ _ _ _ _ Ha Eauth) as [-> ->].
    destruct (passage_trusted _ _ _ _ _ p Eauth) as (Hh & Hfound & Hrt).
    split_and!; [done|done|by apply Hrt|]. rewrite Hev, Hq, Eauth. cbn [app]. clear. induction (length _); by constructor.
Qed.

(** C1: The proxy sends a request on only when it is allowed: when every
    authorization plug-in was asked about the user of the request (of a valid
    signed identity, else of credentials that were verified, else none) and the
    first that took a decision did not refuse, or it is an ACK; or when it is
    new to the proxy and the forwarding rules have a target for its uri that
    needs no authorization. *)
Theorem forwarded_only_if_allowed fuel received clock sipRequest sipResponse w :
  proxyMessage fill pcre_exec compile this db newTag fuel received clock sipRequest sipResponse = Ok (SendRequest, w) ->
  allowed fuel received clock sipRequest sipResponse w.
Proof. apply forwarded_allowed. Qed.

(** ** Refusals *)








(** ** Credentials *)

Lemma response_loop_sound fuel l hash i : response_loop fuel l hash i = Ok true ->
  exists j d, getDigestAuthorizationData l j = Ok (Some d) /\ strcmp hash (d_response d) = 0.
Proof.
  revert i. induction fuel as [|fuel IH]; intros i Hrun; cbn [response_loop] in Hrun; apply obind_Ok in Hrun as ([d|] & Hd & Hrun); try done;
    (destruct (Z.eqb_spec (strcmp hash (d_response d)) 0); [by exists i, d|]); [done|by apply IH in Hrun].
Qed.

(** What a user has proved: the digest over the password of the database and
    a nonce this proxy made for the call *)
Definition genuine (now : Z) (m : SipMessage) (callId fromTag : list ascii) (d : Digest) (entity : EntityRecord) : Prop :=
  strcmp (rt_mRealm this) (d_realm d) = 0
  /\ isNonceValid fill (rt_nonceSecret this) now (d_nonce d) callId fromTag (rt_mRealm this) (rt_mNonceExpiration this) = Ok true
  /\ verifyQopConsistency pcre_exec (d_cnonce d) (d_nonceCount d) (d_qop d) <> AUTH_QOP_NOT_SUPPORTED
  /\ findByUserId db (d_user_base d) = inr (Some entity) /\ e_realm entity = rt_mRealm this
  /\ exists a1 hash j d' method, md5_encode fill (cstr (d_user d) ++ bytes ":" ++ cstr (d_realm d) ++ bytes ":" ++ cstr (e_password entity)) = Ok a1
       /\ buildMd5Digest fill a1 (cstr (d_nonce d)) (cstr (d_cnonce d)) (cstr (d_nonceCount d)) (cstr (d_qop d)) (cstr method)
            (cstr (match cstr (d_uri d) with [] => getRequestUri m | uri => uri end)) = Ok hash
       /\ (isResponse m = false -> cstr method = cstr (getRequestMethod m))
       /\ getDigestAuthorizationData (mNameValues m) j = Ok (Some d') /\ strcmp hash (d_response d') = 0.

Lemma check_credentials_sound now m callId fromTag d user :
  check_credentials fill pcre_exec this db now m callId fromTag d = Ok (inr (Some user)) ->
  exists entity userUrl, genuine now m callId fromTag d entity
    /\ Url_of_string fill pcre_exec (e_identity entity) NameAddr = Ok userUrl /\ user = getIdentity userUrl.
Proof.
  unfold check_credentials, getCredential_user. destruct (Z.eqb_spec (strcmp (rt_mRealm this) (d_realm d)) 0) as [Hrealm|]; [|done]. cbn [negb].
  intros (valid & Hvalid & Hrun)%obind_Ok. destruct valid; [|done]. cbn [negb] in Hrun. case_decide as Hq; [done|].
  destruct (findByUserId db (d_user_base d)) as [|[entity|]] eqn:Ef; [done| |done]. case_decide as Her; [|done].
  apply obind_Ok in Hrun as (userUrl & Hurl & Hrun). apply obind_Ok in Hrun as (ok & Hver & Hrun). destruct ok; [|done]. injection Hrun as <-.
  exists entity, userUrl. split_and!; [|done|done]. unfold genuine. split_and!; try done.
  unfold verifyMd5Authorization in Hver. apply obind_Ok in Hver as (method & Hm & Hver). apply obind_Ok in Hver as (a1 & Ha1 & Hver).
  apply obind_Ok in Hver as (hash & Hh & Hver). apply response_loop_sound in Hver as (j & d' & Hd' & Hcmp).
  eexists a1, hash, j, d', _. split_and!; [done|exact Hh| |done|done].
  intros Hreq. rewrite Hreq in Hm. injection Hm as <-. destruct (cstr (getRequestMethod m)) eqn:Ec; [by rewrite Ec|].
  rewrite <- Ec. apply cstr_id, cstr_nul_free.
Qed.

Definition proved (now : Z) (m : SipMessage) (user : list ascii) : Prop :=
  exists callId fromTag i d entity userUrl, dialog_of fill pcre_exec m = Ok (callId, fromTag)
    /\ getDigestAuthorizationData (mNameValues m) i = Ok (Some d) /\ genuine now m callId fromTag d entity
    /\ Url_of_string fill pcre_exec (e_identity entity) NameAddr = Ok userUrl /\ user = getIdentity userUrl.

(** C2: A user the proxy takes for authenticated by credentials has proved
    who it is: some Proxy-Authorization of the request is for the realm of the
    proxy, with a nonce the proxy made for this call that has not expired; its
    user is in the database in that realm, and the request carries the digest
    over the password of the database. *)
Theorem credentials_genuine now m user :
  isAuthenticated fill pcre_exec this db now m = Ok (inr (Some user)) -> proved now m user.
Proof.
  unfold isAuthenticated, proved. intros ([callId fromTag] & Hdialog & Hrun)%obind_Ok. exists callId, fromTag. revert Hrun.
  generalize 0 as i. generalize (length (mNameValues m)) as fuel.
  induction fuel as [|fuel IH]; intros i Hrun; cbn [credentials_loop] in Hrun; apply obind_Ok in Hrun as ([d|] & Hd & Hrun); try done;
    apply obind_Ok in Hrun as (r & Hr & Hrun); destruct r as [e|[u|]]; try done; try (by apply IH in Hrun);
    injection Hrun as ->; apply check_credentials_sound in Hr as (entity & userUrl & Hg & Hu & ->); by exists i, d, entity, userUrl.
Qed.

(** C3: A challenge can be answered.  A request of a call for which the proxy
    made a nonce, that carries in its first Proxy-Authorization what
    setDigestAuthorizationData writes for a user of the realm, with that nonce
    and the digest of RFC 2617 over the password the database has, is
    authenticated as that user until the nonce expires. *)
Theorem answered_challenge `{!Pcre pcre_exec} created now m callId fromTag nonce user cnonce nonceCount opaque uri entity userUrl :
  let realm := rt_mRealm this in
  dialog_of fill pcre_exec m = Ok (callId, fromTag) ->
  createNewNonce fill (rt_nonceSecret this) created callId fromTag realm = Ok nonce ->
  Forall NetMd5Codec.short [rt_nonceSecret this; callId; fromTag] ->
  0 <= created < 2 ^ 32 -> created <= now <= created + rt_mNonceExpiration this -> rt_mNonceExpiration this < 2 ^ 63 ->
  findByUserId db (user_base_of user) = inr (Some entity) -> e_realm entity = realm ->
  Url_of_string fill pcre_exec (e_identity entity) NameAddr = Ok userUrl ->
  isResponse m = false -> Forall (fun v => v <> []) [getRequestMethod m; user; uri; cnonce] -> word nonceCount ->
  Forall plain [user; realm; uri; cnonce; opaque] ->
  Forall hashable [user; e_password entity; realm; cnonce; nonceCount; uri; getRequestMethod m] ->
  (4 <= pcre_limit QopAuth)%nat ->
  getHeaderValue (mNameValues m) 0 (Some HTTP_PROXY_AUTHORIZATION_FIELD)
  = Ok (Some (digest_field user realm nonce uri
               (digest_response user realm (e_password entity) nonce nonceCount cnonce HTTP_QOP_AUTH (getRequestMethod m) uri)
               [] cnonce opaque HTTP_QOP_AUTH nonceCount)) ->
  isAuthenticated fill pcre_exec this db now m = Ok (inr (Some (getIdentity userUrl))).
Proof.
  intros realm Hdialog Hnonce Hshort Hcr Hnow Hexp Hdb Her Hurl Hreq Hne Hword Hplain Hhash Hlim Hhdr.
  rewrite !Forall_cons in Hshort. destruct Hshort as (Hsec & Hsc & Hsf & _).
  rewrite !Forall_cons in Hhash. destruct Hhash as (Hhu & Hhp & Hhr & Hhc & Hhn & Hhi & Hhm & _).
  rewrite !Forall_cons in Hne. destruct Hne as (Hnem & Hneu & Hnei & Hnec & _).
  assert (NetMd5Codec.short realm) as Hsr by (unfold NetMd5Codec.short; destruct Hhr; lia).
  destruct (nonce_plain fill _ _ _ _ _ _ Hsec Hsc Hsf Hsr Hnonce) as [Hpn Hhnonce].
  assert (isNonceValid fill (rt_nonceSecret this) now nonce callId fromTag realm (rt_mNonceExpiration this) = Ok true) as Hvalid.
  { destruct (nonce_valid_until_expiry fill _ Hsec created now callId fromTag realm (rt_mNonceExpiration this) Hsc Hsf Hsr) as (n & En & Ev); [lia..|].
    rewrite En in Hnonce. injection Hnonce as ->. rewrite Ev. f_equal. apply Z.leb_le. lia. }
  set (response := digest_response _ _ _ _ _ _ _ _ _) in Hhdr. 
  set (d := mkDigest user realm nonce opaque response uri cnonce nonceCount HTTP_QOP_AUTH (user_base_of user)).
  assert (getDigestAuthorizationData (mNameValues m) 0 = Ok (Some d)) as Hd.
  { unfold getDigestAuthorizationData. rewrite Hhdr. cbn [obind]. rewrite credentials_roundtrip; [done|done|done| |].
    - rewrite !Forall_cons in Hplain |- *. destruct Hplain as (? & ? & ? & ? & ? & _). split_and!; try done; [apply hex_plain|by repeat apply Forall_cons_2].
    - rewrite !Forall_cons. split_and!; [by left| |by right|constructor]. right. split; [done|]. by repeat constructor. }
  assert (check_credentials fill pcre_exec this db now m callId fromTag d = Ok (inr (Some (getIdentity userUrl)))) as Hcheck.
  { unfold check_credentials, d. cbn [d_realm d_nonce d_cnonce d_nonceCount d_qop d_user_base d_user d_uri]. fold realm.
    rewrite strcmp_refl. cbn [negb Z.eqb]. rewrite Hvalid. cbn [obind negb].
    assert (verifyQopConsistency pcre_exec cnonce nonceCount HTTP_QOP_AUTH = AUTH_QOP_HAS_AUTH) as ->.
    { unfold verifyQopConsistency. change (parseQopValue pcre_exec HTTP_QOP_AUTH) with
        (match pcre_exec QopAuth HTTP_QOP_AUTH 0 with Some _ => AUTH_QOP_HAS_AUTH | None => AUTH_QOP_NOT_SUPPORTED end).
      rewrite pcre_complete by done. change (search QopAuth HTTP_QOP_AUTH 0) with (Some (mkMatch 0 4 [])). cbn iota.
      rewrite !cstr_id by (apply Hhc || apply Hhn). destruct Hword. by rewrite !bool_decide_false. }
    rewrite decide_False by done. unfold getCredential_user. rewrite Hdb. fold realm. rewrite decide_True by done. rewrite Hurl. cbn [obind].
    rewrite (verify_digest fill m user (e_password entity) nonce realm cnonce nonceCount HTTP_QOP_AUTH uri d); try done.
    rewrite !Forall_cons. split_and!; try done; by repeat constructor. }
  unfold isAuthenticated. rewrite Hdialog. cbn [obind].
  destruct (length (mNameValues m)); cbn [credentials_loop]; rewrite Hd; cbn [obind]; by rewrite Hcheck.
Qed.
(** ** Places in the thread pool *)

Section Dispatching.
Context (lexical_cast : list ascii -> option Z) (config : DispatchConfig).

(** A message is taken from the queue, goes on after it waited, or is ended
    by a thread of the pool *)
Inductive dispatch_step (s : Dispatch) : option Handled -> Dispatch -> Prop :=
| step_take fuel received clock uptime scheduled transportError load m h s' sent :
    handleMessage fill pcre_exec compile this db newTag lexical_cast config fuel received clock uptime scheduled transportError load m s = Ok (h, s', sent) ->
    dispatch_step s (Some h) s'
| step_resume fuel received clock scheduled midDialog m h s' sent :
    dispatch fill pcre_exec compile this db newTag fuel received clock scheduled midDialog m s = Ok (h, s', sent) -> dispatch_step s (Some h) s'
| step_finish fuel received clock i s' sent :
    finish_request fill pcre_exec compile this db newTag fuel received clock i s = Some (Ok (s', sent)) -> dispatch_step s None s'.
Inductive dispatch_run (s : Dispatch) : list (option Handled) -> Dispatch -> Prop :=
| run_nil : dispatch_run s [] s
| run_snoc labels s1 label s2 : dispatch_run s labels s1 -> dispatch_step s1 label s2 -> dispatch_run s (labels ++ [label]) s2.

(** Requests for which the pool had no thread *)
Definition no_threads (labels : list (option Handled)) : nat :=
  length (filter (fun label => match label with Some NoThread => true | _ => false end = true) labels).
Lemma no_threads_one label : no_threads [label] = match label with Some NoThread => 1%nat | _ => O end.
Proof. by destruct label as [[]|]. Qed.
Definition places (s : Dispatch) : nat := (d_free s + length (d_scheduled s))%nat.

Lemma dispatch_places fuel received clock scheduled midDialog m s h s' sent :
  dispatch fill pcre_exec compile this db newTag fuel received clock scheduled midDialog m s = Ok (h, s', sent) ->
  (places s' + no_threads [Some h])%nat = places s /\ (d_free s = O -> h = Blocked).
Proof.
  unfold dispatch, places. rewrite no_threads_one. destruct (d_free s) as [|free] eqn:Ef; [intros [= <- <- <-]; rewrite Ef; simpl; split; [lia|done]|].
  destruct midDialog; [intros (x & _ & [= <- <- <-])%obind_Ok; rewrite Ef; simpl; split; [lia|done]|].
  destruct scheduled; [intros [= <- <- <-]; cbn; rewrite length_app; simpl; split; [lia|done]|].
  intros (x & _ & [= <- <- <-])%obind_Ok. simpl. split; [lia|done].
Qed.

Lemma step_places s label s' : dispatch_step s label s' ->
  (places s' + no_threads [label])%nat = places s
  /\ (d_free s = O -> match label with Some h => h = Ignored \/ h = Rejected \/ h = Blocked | None => True end).
Proof.
  intros [fuel received clock uptime scheduled err load m h s1 sent Hrun|fuel received clock scheduled mid m h s1 sent Hrun|fuel received clock i s1 sent Hrun].
  - rewrite no_threads_one. unfold handleMessage in Hrun. destruct (err || isResponse m); [injection Hrun as <- <- <-; cbn; split; [lia|auto]|].
    apply obind_Ok in Hrun as (from & _ & Hrun). apply obind_Ok in Hrun as (to & _ & Hrun). apply obind_Ok in Hrun as ([full busy] & _ & Hrun).
    destruct (full && _).
    + apply obind_Ok in Hrun as (r & _ & Hrun). injection Hrun as <- <- <-. cbn. split; [lia|auto].
    + apply dispatch_places in Hrun as [Hp Hb]. rewrite no_threads_one in Hp. destruct (_ && _) in Hp, Hb; (split; [exact Hp|auto]).
  - apply dispatch_places in Hrun as [Hp Hb]. split; [exact Hp|auto].
  - unfold finish_request in Hrun. apply fmap_Some in Hrun as (m & Hm & Hrun). symmetry in Hrun. apply obind_Ok in Hrun as (x & _ & Hrun). injection Hrun as <- <-.
    apply lookup_lt_Some in Hm as Hlt. unfold places. rewrite no_threads_one. cbn. rewrite length_delete by done. split; [lia|done].
Qed.

(** C26: Every place of the semaphore is free, or held by a request in the
    pool, or lost: a request for which the pool has no thread is answered, but
    its place is never given back.  Once as many requests failed so as there
    are places, every message that is not ignored or rejected waits for ever. *)
Theorem places_are_lost n labels s :
  dispatch_run (mkDispatch n [] 0) labels s ->
  (d_free s + length (d_scheduled s) + no_threads labels)%nat = n
  /\ (no_threads labels = n -> forall label s', dispatch_step s label s' ->
        label = Some Ignored \/ label = Some Rejected \/ label = Some Blocked).
Proof.
  intros Hrun. assert ((places s + no_threads labels)%nat = n) as Hinv.
  { induction Hrun as [|labels s1 label s2 _ IH Hstep]; [change (no_threads []) with O; unfold places; simpl; lia|]. apply step_places in Hstep as [Hp _].
    unfold no_threads in *. rewrite filter_app, length_app. lia. }
  split; [exact Hinv|]. intros Hall label s' Hstep. unfold places in Hinv.
  destruct label as [h|].
  - apply step_places in Hstep as [_ Hb]. destruct (Hb ltac:(lia)) as [-> |[-> | ->]]; auto.
  - inversion Hstep as [| |fuel received clock i s1 sent Hfin]; subst. unfold finish_request in Hfin. apply fmap_Some in Hfin as (m & Hm & _).
    apply lookup_lt_Some in Hm. lia.
Qed.
End Dispatching.
End Router.
Arguments p_work {H H0 fill pcre_exec compile this db newTag fuel received clock sipRequest sipResponse} _.
Arguments p_uri {H H0 fill pcre_exec compile this db newTag fuel received clock sipRequest sipResponse} _.
Arguments p_removed {H H0 fill pcre_exec compile this db newTag fuel received clock sipRequest sipResponse} _.
Arguments p_state {H H0 fill pcre_exec compile this db newTag fuel received clock sipRequest sipResponse} _.
Arguments p_work1 {H H0 fill pcre_exec compile this db newTag fuel received clock sipRequest sipResponse} _.
Arguments p_uri1 {H H0 fill pcre_exec compile this db newTag fuel received clock sipRequest sipResponse} _.
Arguments p_flags1 {H H0 fill pcre_exec compile this db newTag fuel received clock sipRequest sipResponse} _.
Arguments p_work2 {H H0 fill pcre_exec compile this db newTag fuel received clock sipRequest sipResponse} _.
Arguments p_flags2 {H H0 fill pcre_exec compile this db newTag fuel received clock sipRequest sipResponse} _.
Arguments p_normalized {H H0 fill pcre_exec compile this db newTag fuel received clock sipRequest sipResponse} _.
Arguments p_start {H H0 fill pcre_exec compile this db newTag fuel received clock sipRequest sipResponse} _.
Arguments p_found {H H0 fill pcre_exec compile this db newTag fuel received clock sipRequest sipResponse} _.
Arguments p_classified {H H0 fill pcre_exec compile this db newTag fuel received clock sipRequest sipResponse} _.
Arguments p_forwarded {H H0 fill pcre_exec compile this db newTag fuel received clock sipRequest sipResponse} _.

(** ** A proxy with one plug-in *)

Module RouterExamples.
#[local] Existing Instances pcre_search regex_search.

Definition fill : nat -> ascii := fun _ => "?"%char.
Definition realm : list ascii := bytes "example.com".
(** Unknown users are refused, and 200 may not call. *)
Definition members_only : AuthPlugin :=
  mkPlugin (fun user _ routeState _ _ m _ reason =>
              Ok (m, inr (if decide (user = bytes "200@example.com") then DENY else if decide (user = []) then DENY else ALLOW, routeState, bytes "Not allowed")))
           false (fun _ m _ => Ok (m, inr ())).
Definition router : SipRouter :=
  mkRouter realm realm (bytes "10.1.1.20:5060") (bytes "10.1.1.20:5061") false 300 None [members_only] [] [bytes "sip-cc"] 20 (bytes "sipXecs")
    (bytes "route") (bytes "identity") (mkOsTime 300 0) (bytes "nonce") (bytes "url").
Definition password : list ascii := bytes "1234".
Definition entity (user : list ascii) : EntityRecord := mkEntity user (user ++ bytes "@example.com") realm password (bytes "DIGEST") [].
Definition databases : Databases :=
  mkDatabases (fun identity => inr (if decide (identity = bytes "100@example.com") then Some (entity (bytes "100")) else None)) (fun user => inr (Some (entity user))) (fun _ _ => inr []) (fun _ => inr false).
Definition received : Received := mkReceived UDP (bytes "10.1.1.30") 5060.
Definition clock : Clock := mkClock 1200000100 (mkOsDateTime 2008 0 10 21 21 40 0).

Definition callId : list ascii := bytes "call-1".
Definition uri : list ascii := bytes "sip:300@example.com".
Definition nonce : list ascii := match createNewNonce fill (bytes "nonce") 1200000000 callId (bytes "t1") realm with Ok n => n | _ => [] end.
Definition credentials (user : list ascii) : list ascii :=
  digest_field user realm nonce uri
    (digest_response user realm password nonce (bytes "00000001") (bytes "a1b2") HTTP_QOP_AUTH (bytes "INVITE") uri)
    [] (bytes "a1b2") [] HTTP_QOP_AUTH (bytes "00000001").
(** An INVITE in the name of 100 *)
Definition invite (authorization : list (list ascii * list ascii)) : SipMessage :=
  mkMsg (bytes "INVITE sip:300@example.com SIP/2.0")
    (List.map pair_of ([(bytes "VIA", bytes "SIP/2.0/UDP 10.1.1.30;branch=z9hG4bK1"); (bytes "FROM", bytes "<sip:100@example.com>;tag=t1");
                  (bytes "TO", bytes "<sip:300@example.com>"); (bytes "CALL-ID", callId); (bytes "CSEQ", bytes "1 INVITE");
                  (bytes "CONTACT", bytes "<sip:100@10.1.1.30>")] ++ authorization)).
Definition authorization (user : list ascii) : list (list ascii * list ascii) := [(HTTP_PROXY_AUTHORIZATION_FIELD, credentials user)].
Definition spiral : list (list ascii * list ascii) := [(bytes "X-SIPX-SPIRAL", bytes "true")].
Definition run (m : SipMessage) := proxyMessage fill search syntax router databases (bytes "tag9") 10 received clock m (mkMsg [] []).
Definition work_of (m : SipMessage) : Work := match run m with Ok (_, w) => w | _ => mkWork m m [] end.

(** Three places, one of which is lost *)
Definition dispatch_config : DispatchConfig := mkDispatchConfig true 50 1000.
Definition no_load : Load := mkLoad [] [] [] 1000.
Definition taken (scheduled : bool) (s : Dispatch) : Handled * Dispatch :=
  match handleMessage fill search syntax router databases (bytes "tag9") (fun _ => None) dispatch_config 10 received clock 500 scheduled false no_load
          (invite (authorization (bytes "100"))) s with
  | Ok (h, s, _) => (h, s) | _ => (Ignored, s) end.
Definition dispatched : Dispatch := snd (taken true (snd (taken false (mkDispatch 3 [] 0)))).

(** The identity that the proxy signs into a new call is the one of the
    From header, which need not be the user that was authenticated: with the
    password of 201 a call goes out under the signed identity of 100. *)
Example asserted_identity_unproved :
  exists m w user identity, isAuthenticated fill search router databases (c_now clock) m = Ok (inr (Some user))
    /\ run m = Ok (SendRequest, w) /\ identity <> user
    /\ SipXauthIdentity_of fill search (rt_identitySecret router) (rt_identityInterval router) (c_now clock) (w_request w)
         PAssertedIdentityHeaderName allowUnbound = Ok (mkIdentity true identity).
Proof.
  set (m := invite (authorization (bytes "201"))). exists m, (work_of m), (bytes "201@example.com"), (bytes "100@example.com").
  split_and!; [vm_compute; reflexivity|vm_compute; reflexivity|done|vm_compute; reflexivity].
Qed.

Ltac short_texts := repeat (apply Forall_cons_2; [unfold NetMd5Codec.short; vm_compute; done|]); apply Forall_nil_2.
Ltac hashable_texts := repeat (apply Forall_cons_2; [split; [apply (bool_decide_unpack _); vm_compute; exact I|vm_compute; done]|]); apply Forall_nil_2.

Lemma forwarded_only_if_allowed_witness :
  allowed fill search syntax router databases (bytes "tag9") 10 received clock (invite (authorization (bytes "100"))) (mkMsg [] [])
    (work_of (invite (authorization (bytes "100")))).
Proof. apply forwarded_only_if_allowed. vm_compute. reflexivity. Defined.


Lemma places_are_lost_witness :
  (d_free dispatched + length (d_scheduled dispatched) + no_threads [Some NoThread; Some Scheduled])%nat = 3%nat
  /\ d_free dispatched = 1%nat /\ length (d_scheduled dispatched) = 1%nat.
Proof.
  split; [|split; vm_compute; reflexivity].
  apply (places_are_lost fill search syntax router databases (bytes "tag9") (fun _ => None) dispatch_config 3 [Some NoThread; Some Scheduled]).
  apply (run_snoc _ _ _ _ _ _ _ _ _ [Some NoThread] (snd (taken false (mkDispatch 3 [] 0)))).
  - apply (run_snoc _ _ _ _ _ _ _ _ _ [] (mkDispatch 3 [] 0)); [constructor|].
    eapply (step_take _ _ _ _ _ _ _ _ _ 10 received clock 500 false false no_load (invite (authorization (bytes "100")))). vm_compute. reflexivity.
  - eapply (step_take _ _ _ _ _ _ _ _ _ 10 received clock 500 true false no_load (invite (authorization (bytes "100")))). vm_compute. reflexivity.
Defined.

Lemma credentials_genuine_witness :
  proved fill search router databases 1200000100 (invite (authorization (bytes "100"))) (bytes "100@example.com").
Proof. apply credentials_genuine. vm_compute. reflexivity. Defined.

Lemma answered_challenge_witness :
  isAuthenticated fill search router databases 1200000100 (invite (authorization (bytes "100"))) = Ok (inr (Some (bytes "100@example.com"))).
Proof.
  destruct (Url_of_string fill search (bytes "100@example.com") NameAddr) as [u| | |] eqn:E; [|by vm_compute in E..].
  replace (bytes "100@example.com") with (getIdentity u) by (vm_compute in E; injection E as <-; vm_compute; reflexivity).
  apply (answered_challenge fill search router databases (Pcre0 := search_Pcre 100) 1200000000 1200000100 (invite (authorization (bytes "100")))
    callId (bytes "t1") nonce (bytes "100") (bytes "a1b2") (bytes "00000001") [] uri (entity (bytes "100")) u);
    [vm_compute; reflexivity|vm_compute; reflexivity|short_texts|lia|simpl; lia|simpl; lia|reflexivity|reflexivity|exact E|vm_compute; reflexivity
    |by repeat constructor|split; [done|]; by repeat constructor|by repeat constructor|hashable_texts|simpl; lia|vm_compute; reflexivity].
Defined.
End RouterExamples.
