(* ===== verification/AuthPlugins.v ===== *)
(** * Authorization plug-ins

    [EnforceAuthRules.cpp], [SubscriptionAuth.cpp], [CallDestination.cpp],
    [CallerAlertInfo.cpp] and [RequestLinter.cpp] of
    [sipXproxy/lib/authplugins]: the plug-ins as values of the interface that
    the router calls, what they decide, and what the first means for the
    requests the router sends on. *)
From Stdlib Require Import ZArith Lia Ascii String.
From stdpp Require Import base list strings sets.
From S2P Require Import Containable UtlSListSpec.
From S2P Require Import Prelude UtlString NetBase64Codec NameValuePair NameValueTokenizer HttpMessage Format OsTime Pcre PcreText UrlCodec Url.
From S2P Require Import RouteState RouteStateMsg ProxyRoutes SipNonceDb SipMatch TinyXml Patterns UrlMapping SipXauthIdentity HttpAuth SipRouter.
From S2P Require Import HttpAuthSpec HttpMessageSpec NetBase64CodecSpec RouteStateSpec SipRouterSpec.
Local Open Scope Z_scope.

(** ** Sets of texts *)

(** std::set<std::string>: its elements in order *)
Fixpoint set_insert (x : list ascii) (l : list (list ascii)) : list (list ascii) :=
  match l with
  | [] => [x]
  | y :: l' => if lexcmp x y =? 0 then l else if lexcmp x y <? 0 then x :: l else y :: set_insert x l'
  end.

(** A text appended behind a separator, where there is one already *)
Definition joined (sep text acc : list ascii) : list ascii := match acc with [] => text | _ => acc ++ sep ++ text end.

Section Plugins.
Context (fill : nat -> ascii) (pcre_exec : pat -> list ascii -> nat -> option Match) (compile : bool -> list ascii -> option pat).
Context (db : Databases).

(** ** EnforceAuthRules *)

(** The rules, and what the plug-in asks its router *)
Record EnforceAuthRules := mkEnforce { mpAuthorizationRules : option UrlMapping; trustSbcRegisteredCalls : bool; mRelayAllowed : bool }.

(** readConfig: the rules of a file, or none *)
Definition enforce_readConfig (LoadFile : list ascii -> bool * list TiXmlNode) (fileName : list ascii) (this : EnforceAuthRules) : EnforceAuthRules :=
  let '(status, rules) := loadMappings LoadFile fileName [] [] [] UrlMapping_new in
  mkEnforce (if decide (status = OS_SUCCESS) then Some rules else None) (trustSbcRegisteredCalls this) (mRelayAllowed this).

(** The value of permission in a row *)
Definition permission_value (record : Row) : list ascii :=
  match list_find (fun kv => fst kv = bytes "permission") record with
  | Some (_, (_, VString permission)) => permission
  | _ => []
  end.
Definition required_permissions (requiredSet : ResultSet) : list (list ascii) :=
  foldl (fun l record => match permission_value record with [] => l | p => set_insert (cstr p) l end) [] requiredSet.

Definition is_validuser (permission : list ascii) : bool := bool_decide ((tolower <$> permission) = bytes "validuser").

(** The loop over the required permissions: authorized, matchedPermission and
    unmatchedPermissions *)
Fixpoint permission_loop (granted required : list (list ascii)) (authorized : bool) (matched unmatched : list ascii) : bool * list ascii * list ascii :=
  match required with
  | [] => (authorized, matched, unmatched)
  | permission :: required' =>
      if is_validuser permission || bool_decide (permission ∈ granted)
      then permission_loop granted required' true (joined (bytes "+") (cstr permission) matched) unmatched
      else permission_loop granted required' authorized matched (joined (bytes "|") (cstr permission) unmatched)
  end.

Definition isAuthorized (id : list ascii) (requiredSet : ResultSet) : Exn + (bool * list ascii * list ascii) :=
  match id with
  | [] => inr (false, [], [])
  | _ =>
      match findByIdentity db id with
      | inl e => inl e
      | inr None => inr (false, [], [])
      | inr (Some entity) =>
          match required_permissions requiredSet with
          | [] => inr (true, [], [])
          | required => inr (permission_loop (e_permissions entity) required false [] [])
          end
      end
  end.

(** authorizeAndModify; what the rules compiled is kept for later calls, where
    it is the same.  The request is left as it is. *)
Definition enforce (router : SipRouter) (this : EnforceAuthRules) (id : list ascii) (requestUri : Url) (routeState : RouteState) (method : list ascii)
    (priorResult : AuthResult) (request : SipMessage) (bSpiralingRequest : bool) (reason : list ascii)
    : outcome (SipMessage * (Exn + (AuthResult * RouteState * list ascii))) :=
  let answer (result : AuthResult) (reason : list ascii) := Ok (request, inr (result, routeState, reason)) in
  if decide (priorResult = CONTINUE) then
    match (if trustSbcRegisteredCalls this then isRegisteredBinding db requestUri else inr false) with
    | inl e => Ok (request, inl e)
    | inr true => answer ALLOW reason
    | inr false =>
        match mpAuthorizationRules this with
        | None => answer CONTINUE reason
        | Some rules =>
            let! (_, requiredPermissions, _) := getPermissionRequired fill pcre_exec compile rules requestUri [] in
            match requiredPermissions with
            | [] =>
                if negb (mRelayAllowed this) && bSpiralingRequest then
                  let! fromUri := getFromUrl fill pcre_exec request in
                  let! fromLocal := isLocalDomain router fromUri true in
                  if fromLocal : bool then answer ALLOW reason
                  else
                    let! toLocal := isLocalDomain router requestUri true in
                    answer (if toLocal : bool then ALLOW else DENY) reason
                else answer ALLOW reason
            | _ =>
                match id with
                | [] => answer DENY reason
                | _ =>
                    match isAuthorized id requiredPermissions with
                    | inl e => Ok (request, inl e)
                    | inr (true, _, _) => answer ALLOW reason
                    | inr (false, _, unmatchedPermissions) => answer DENY (reason ++ bytes "Requires " ++ unmatchedPermissions)
                    end
                end
            end
        end
    end
  else answer CONTINUE reason.
Definition enforce_plugin (router : SipRouter) (this : EnforceAuthRules) : AuthPlugin :=
  mkPlugin (enforce router this) false (fun _ m _ => Ok (m, inr ())).

(** ** SubscriptionAuth *)

Record SubscriptionAuth := mkSubscriptionAuth {
  mEventPackagesRequiringAuthentication : list (list ascii); mTargetsExemptedFromAuthentication : list pat }.

Definition SIP_SUBSCRIBE_METHOD : list ascii := bytes "SUBSCRIBE".
Definition SIP_EVENT_FIELD : list ascii := bytes "EVENT".
Definition config_separators : list ascii := bytes ", " ++ ["009"%char].

(** The subfields of a configuration value; every round takes a character *)
Fixpoint config_loop (fuel : nat) (text : list ascii) (index : Z) : outcome (list (list ascii)) :=
  let! (found, name) := getSubField (c_str text) index (c_str config_separators) [] false in
  if found : bool then
    match fuel with
    | O => UB
    | S fuel => let! names := config_loop fuel text (index + 1) in Ok (name :: names)
    end
  else Ok [].
(** readConfig, with the two values, which are empty where they are not set; an
    expression that does not compile is left out *)
Definition subscription_readConfig (eventPackages targets : list ascii) : outcome SubscriptionAuth :=
  let! names := (if bool_decide (eventPackages = []) then Ok [] else config_loop (S (length eventPackages)) eventPackages 0) in
  let! expressions := (if bool_decide (targets = []) then Ok [] else config_loop (S (length targets)) targets 0) in
  Ok (mkSubscriptionAuth names (omap (fun text => compile false (cstr text)) expressions)).

Definition isTargetExemptedFromAuthentication (this : SubscriptionAuth) (targetUser : list ascii) : bool :=
  existsb (fun re => bool_decide (is_Some (pcre_exec re (cstr targetUser) 0))) (mTargetsExemptedFromAuthentication this).

(** authorizeAndModify; UtlList::contains is UtlSList::find, as it is on the
    chained blocks ([found]) *)
Definition subscription (this : SubscriptionAuth) (id : list ascii) (requestUri : Url) (routeState : RouteState) (method : list ascii)
    (priorResult : AuthResult) (request : SipMessage) (bSpiralingRequest : bool) (reason : list ascii)
    : outcome (SipMessage * (Exn + (AuthResult * RouteState * list ascii))) :=
  if bool_decide (priorResult = CONTINUE) && bool_decide (id = []) && (strcmp method SIP_SUBSCRIBE_METHOD =? 0) then
    let! value := getHeaderValue (mNameValues request) 0 (Some SIP_EVENT_FIELD) in
    match value with
    | Some eventField =>
        let! package := found eventField (mEventPackagesRequiringAuthentication this) in
        if bool_decide (is_Some package) && negb (isTargetExemptedFromAuthentication this (mUserId requestUri))
        then Ok (request, inr (DENY, routeState, bytes "Authentication Required to Subscribe to " ++ eventField))
        else Ok (request, inr (CONTINUE, routeState, reason))
    | None => Ok (request, inr (CONTINUE, routeState, reason))
    end
  else Ok (request, inr (CONTINUE, routeState, reason)).
Definition subscription_plugin (this : SubscriptionAuth) : AuthPlugin := mkPlugin (subscription this) false (fun _ m _ => Ok (m, inr ())).

(** ** Plug-ins that decide nothing *)

Definition SIP_SIPX_CALL_DEST_FIELD : list ascii := bytes "sipXecs-CallDest".

(** CallDestination::moveCallDestToRecordRoute *)
Definition moveCallDestToRecordRoute (request : SipMessage) : outcome SipMessage :=
  let! inviteUri := Url_of_string fill pcre_exec (getRequestUri request) AddrSpec in
  let! (headercalldest, inviteUri) := getUrlParameter SIP_SIPX_CALL_DEST_FIELD 0 inviteUri in
  let! recordroute := getHeaderValue (mNameValues request) 0 (Some SIP_RECORD_ROUTE_FIELD) in
  match headercalldest, recordroute with
  | Some headercalldest, Some recordroute =>
      let! inviteUri := removeUrlParameter SIP_SIPX_CALL_DEST_FIELD inviteUri in
      let! (uri, _) := toString pcre_exec inviteUri in
      let! request := changeUri fill pcre_exec (cstr uri) request in
      let! recordrouteUri := Url_of_string fill pcre_exec recordroute NameAddr in
      let! (routecalldest, recordrouteUri) := getUrlParameter SIP_SIPX_CALL_DEST_FIELD 0 recordrouteUri in
      let headercalldest := match routecalldest with Some routecalldest => routecalldest ++ bytes "," ++ headercalldest | None => headercalldest end in
      let! recordrouteUri := setUrlParameter SIP_SIPX_CALL_DEST_FIELD (Some (cstr headercalldest)) recordrouteUri in
      let! (text, _) := toString pcre_exec recordrouteUri in
      on_headers (fun l => setRecordRouteField fill l (cstr text) 0) request
  | _, _ => Ok request
  end.
Definition call_destination (id : list ascii) (requestUri : Url) (routeState : RouteState) (method : list ascii)
    (priorResult : AuthResult) (request : SipMessage) (bSpiralingRequest : bool) (reason : list ascii)
    : outcome (SipMessage * (Exn + (AuthResult * RouteState * list ascii))) :=
  let! request := (if strcmp method SIP_INVITE_METHOD =? 0 then moveCallDestToRecordRoute request else Ok request) in
  Ok (request, inr (CONTINUE, routeState, reason)).

Record CallerAlertInfo := mkAlertInfo { mExternalText : list ascii; mExternalEnabled : bool; mInternalText : list ascii; mInternalEnabled : bool; mReplaceExisting : bool }.
Definition ALERT_INFO : list ascii := bytes "Alert-Info".
Definition alert_info (router : SipRouter) (this : CallerAlertInfo) (id : list ascii) (requestUri : Url) (routeState : RouteState) (method : list ascii)
    (priorResult : AuthResult) (request : SipMessage) (bSpiralingRequest : bool) (reason : list ascii)
    : outcome (SipMessage * (Exn + (AuthResult * RouteState * list ascii))) :=
  let set (enabled : bool) (text : list ascii) :=
    if enabled then on_headers (fun l => setHeaderValue fill l ALERT_INFO (cstr text) 0) request else Ok request in
  let! request :=
    (if negb (bool_decide (priorResult = DENY)) && (strcmp method SIP_INVITE_METHOD =? 0) then
       let! existing := has_header ALERT_INFO request in
       if negb existing || mReplaceExisting this then
         let! fromAddress := getFromUrl fill pcre_exec request in
         let! local := isLocalDomain router fromAddress true in
         if local : bool then set (mInternalEnabled this) (mInternalText this) else set (mExternalEnabled this) (mExternalText this)
       else Ok request
     else Ok request) in
  Ok (request, inr (CONTINUE, routeState, reason)).

(** RequestLinter::removeOurPAssertedIdentityHeader; every round removes a
    header or goes on to the next *)
Fixpoint linter_loop (fuel : nat) (router : SipRouter) (index : Z) (l : list NameValuePair) : outcome (list NameValuePair) :=
  let! value := getHeaderValue l index (Some (header_text PAssertedIdentityHeaderName)) in
  match value with
  | None => Ok l
  | Some pPAssertedIdentity =>
      match fuel with
      | O => UB
      | S fuel =>
          let! url := Url_of_string fill pcre_exec pPAssertedIdentity NameAddr in
          let! local := isLocalDomain router url true in
          if local : bool then linter_loop fuel router index (snd (removeHeader l (Some (header_text PAssertedIdentityHeaderName)) index))
          else linter_loop fuel router (index + 1) l
      end
  end.
Definition request_linter (router : SipRouter) (id : list ascii) (requestUri : Url) (routeState : RouteState) (method : list ascii)
    (priorResult : AuthResult) (request : SipMessage) (bSpiralingRequest : bool) (reason : list ascii)
    : outcome (SipMessage * (Exn + (AuthResult * RouteState * list ascii))) :=
  let! request := (if bSpiralingRequest then Ok request
                   else on_headers (linter_loop (length (mNameValues request)) router 0) request) in
  Ok (request, inr (CONTINUE, routeState, reason)).

Definition call_destination_plugin : AuthPlugin := mkPlugin call_destination false (fun _ m _ => Ok (m, inr ())).
Definition alert_info_plugin (router : SipRouter) (this : CallerAlertInfo) : AuthPlugin := mkPlugin (alert_info router this) false (fun _ m _ => Ok (m, inr ())).
Definition request_linter_plugin (router : SipRouter) : AuthPlugin := mkPlugin (request_linter router) false (fun _ m _ => Ok (m, inr ())).
End Plugins.

(** ** What the plug-ins decide *)

Lemma elem_set_insert x y l : y ∈ set_insert x l <-> y = x \/ y ∈ l.
Proof.
  induction l as [|z l IH]; cbn [set_insert]; [set_solver|].
  destruct (Z.eqb_spec (lexcmp x z) 0) as [->%lexcmp_eq|_]; [set_solver|]. destruct (_ <? 0); set_solver.
Qed.

Lemma required_elem rows p :
  p ∈ required_permissions rows <-> exists record, record ∈ rows /\ permission_value record <> [] /\ p = cstr (permission_value record).
Proof.
  unfold required_permissions. induction rows as [|record rows IH] using rev_ind; [set_solver|].
  rewrite foldl_app. cbn [foldl]. destruct (permission_value record) as [|c v] eqn:Ev.
  - rewrite IH. split; intros (r & Hr & Hne & ->); exists r; (split; [|done]); [set_solver|].
    apply elem_of_app in Hr as [Hr|Hr]; [done|]. assert (r = record) as -> by set_solver. done.
  - rewrite elem_set_insert, IH. split.
    + intros [-> |(r & Hr & Hne & ->)]; [exists record; rewrite Ev|exists r]; set_solver.
    + intros (r & Hr & Hne & ->). apply elem_of_app in Hr as [Hr|Hr]; [right; by exists r|left]. assert (r = record) as -> by set_solver. by rewrite Ev.
Qed.

Lemma permission_loop_spec granted required b mt um :
  fst (fst (permission_loop granted required b mt um)) = true <-> b = true \/ exists p, p ∈ required /\ (is_validuser p = true \/ p ∈ granted).
Proof.
  revert b mt um. induction required as [|p required IH]; intros b mt um; cbn [permission_loop fst].
  - split; [auto|]. intros [Hb|(p & ?%elem_of_nil & _)]; done.
  - destruct (is_validuser p || bool_decide (p ∈ granted)) eqn:Ep; rewrite IH.
    + rewrite orb_true_iff, bool_decide_eq_true in Ep. split; [|auto]. intros _. right. exists p. split; [apply list_elem_of_here|done].
    + rewrite orb_false_iff, bool_decide_eq_false in Ep. destruct Ep as [E1 E2].
      split; (intros [Hb|(q & Hq & Hh)]; [auto|right; exists q; split; [|done]]); [by apply list_elem_of_further|].
      apply elem_of_cons in Hq as [-> |Hq]; [destruct Hh; congruence|done].
Qed.

Section Decisions.
Context (fill : nat -> ascii) (pcre_exec : pat -> list ascii -> nat -> option Match) (compile : bool -> list ascii -> option pat).
Context (db : Databases).

(** A user has one of the permissions: the database has the user, and it has
    been given one of them, or one is ValidUser, or none has a name *)
Definition holds (id : list ascii) (rows : ResultSet) : Prop :=
  exists entity, id <> [] /\ findByIdentity db id = inr (Some entity)
    /\ ((forall record, record ∈ rows -> permission_value record = [])
        \/ exists record, record ∈ rows /\ permission_value record <> []
             /\ (is_validuser (cstr (permission_value record)) = true \/ cstr (permission_value record) ∈ e_permissions entity)).

Lemma isAuthorized_spec id rows b matched unmatched : isAuthorized db id rows = inr (b, matched, unmatched) -> b = true <-> holds id rows.
Proof.
  unfold isAuthorized, holds. destruct id as [|c id]; [intros [= <- <- <-]; split; [done|]; by intros (? & ? & _)|].
  destruct (findByIdentity db (c :: id)) as [|[entity|]] eqn:Ef; [done| |intros [= <- <- <-]; split; [done|]; by intros (? & _ & ? & _)].
  destruct (required_permissions rows) as [|p ps] eqn:Er.
  - intros [= <- <- <-]. split; [|done]. intros _. exists entity. split_and!; [done|done|]. left. intros record Hr.
    destruct (decide (permission_value record = [])) as [|Hne]; [done|]. exfalso.
    assert (cstr (permission_value record) ∈ required_permissions rows) as Hin by (apply required_elem; by exists record).
    rewrite Er in Hin. by apply elem_of_nil in Hin.
  - intros Heq. assert (permission_loop (e_permissions entity) (p :: ps) false [] [] = (b, matched, unmatched)) as Hl by congruence. pose proof (permission_loop_spec (e_permissions entity) (p :: ps) false [] []) as Hspec. rewrite Hl in Hspec. cbn [fst] in Hspec.
    rewrite Hspec. rewrite <- Er. split.
    + intros [|(q & (record & Hr & Hne & ->)%required_elem & Hq)]; [done|]. exists entity. split_and!; [done|done|]. right. by exists record.
    + intros (entity' & _ & [= <-] & [Hall|(record & Hr & Hne & Hh)]).
      * exfalso. assert (p ∈ required_permissions rows) as (record & Hr & Hne & _)%required_elem by (rewrite Er; apply list_elem_of_here).
        by apply Hne, Hall.
      * right. exists (cstr (permission_value record)). split; [apply required_elem; by exists record|done].
Qed.

(** What EnforceAuthRules answers when no plug-in before it has decided *)
Lemma enforce_spec router this id uri rs method m spiral reason m' result rs' reason' :
  enforce fill pcre_exec compile db router this id uri rs method CONTINUE m spiral reason = Ok (m', inr (result, rs', reason')) ->
  match result with
  | CONTINUE => mpAuthorizationRules this = None
  | ALLOW => (trustSbcRegisteredCalls this = true /\ isRegisteredBinding db uri = inr true)
             \/ exists rules status required rules', mpAuthorizationRules this = Some rules
                  /\ getPermissionRequired fill pcre_exec compile rules uri [] = Ok (status, required, rules') /\ (required = [] \/ holds id required)
  | DENY => exists rules status required rules', mpAuthorizationRules this = Some rules
              /\ getPermissionRequired fill pcre_exec compile rules uri [] = Ok (status, required, rules')
              /\ if decide (required = []) then spiral = true /\ mRelayAllowed this = false else ~ holds id required
  end.
Proof.
  unfold enforce. rewrite decide_True by done. intros Hrun.
  destruct (if trustSbcRegisteredCalls this then _ else _) as [|[]] eqn:Et; [done| |].
  { simplify_eq. left. by destruct (trustSbcRegisteredCalls this). }
  destruct (mpAuthorizationRules this) as [rules|]; [|by simplify_eq].
  apply obind_Ok in Hrun as ([[status required] rules'] & Hp & Hrun).
  destruct required as [|row rows].
  - destruct (negb (mRelayAllowed this) && spiral) eqn:Es; [|simplify_eq; right; exists rules, status, [], rules'; auto].
    apply andb_true_iff in Es as [Hrel ->]. apply negb_true_iff in Hrel.
    apply obind_Ok in Hrun as (from & _ & Hrun). apply obind_Ok in Hrun as (fl & _ & Hrun).
    destruct fl; [simplify_eq; right; exists rules, status, [], rules'; auto|]. apply obind_Ok in Hrun as (tl & _ & Hrun).
    destruct tl; simplify_eq; [right; exists rules, status, [], rules'; auto|]. eexists _, _, _, _. split_and!; try done.
  - destruct id as [|c id].
    + simplify_eq. eexists _, _, _, _. split_and!; try done. by intros (? & ? & _).
    + destruct (isAuthorized db (c :: id) (row :: rows)) as [|[[[] matched] unmatched]] eqn:Ea; [done| |]; simplify_eq; apply isAuthorized_spec in Ea.
      * right. eexists _, _, _, _. split_and!; try done. right. by apply Ea.
      * eexists _, _, _, _. split_and!; try done. intros Hh. by apply Ea in Hh.
Qed.

(** A plug-in that never decides *)
Definition neutral (plugin : AuthPlugin) : Prop :=
  forall id uri rs method prior m spiral reason m' result rs' reason',
    authorizeAndModify plugin id uri rs method prior m spiral reason = Ok (m', inr (result, rs', reason')) -> result = CONTINUE.

Lemma call_destination_neutral : neutral (call_destination_plugin fill pcre_exec).
Proof. intros id uri rs method prior m spiral reason m' result rs' reason' (m1 & _ & Heq)%obind_Ok. by simplify_eq. Qed.
Lemma alert_info_neutral router this : neutral (alert_info_plugin fill pcre_exec router this).
Proof. intros id uri rs method prior m spiral reason m' result rs' reason' (m1 & _ & Heq)%obind_Ok. by simplify_eq. Qed.
Lemma request_linter_neutral router : neutral (request_linter_plugin fill pcre_exec router).
Proof. intros id uri rs method prior m spiral reason m' result rs' reason' (m1 & _ & Heq)%obind_Ok. by simplify_eq. Qed.

(** Behind plug-ins that never decide the first result is not changed. *)
Lemma neutral_before user uri before plugin others status events :
  Forall neutral before -> Forall2 (answer_of user uri) (before ++ plugin :: others) events -> chained status CONTINUE events ->
  exists e events', answer_of user uri plugin e /\ verdict events = verdict (e :: events') /\ exists result, e = Authorized user status result.
Proof.
  intros Hn. revert events. induction Hn as [|q before Hq _ IH]; intros events Hall Hchain; cbn [app] in Hall;
    inversion Hall as [|? ? e es He Hes Heq1 Heq2]; subst; pose proof He as (prior & result & rs & method & m & spiral & reason & m' & rs' & reason' & -> & Hcall).
  - cbn [chained] in Hchain. destruct Hchain as [-> _]. exists (Authorized user status result), es. split_and!; [done|done|by exists result].
  - apply Hq in Hcall as ->. cbn [chained] in Hchain. destruct Hchain as [_ Hchain]. rewrite decide_False in Hchain by (intros [_ ?]; done).
    destruct (IH es Hes Hchain) as (e & events' & ? & ? & ?). by exists e, events'.
Qed.

(** ** The router with EnforceAuthRules *)

Context `{Base64Search} `{RouteSearch} (router this : SipRouter) (newTag : list ascii).

(** Why a request was sent on: it needed no authorization; or it is an ACK; or
    its dialog was authorized; or its target is a registered binding that is
    trusted; or the rules ask for no permission, or the user of the request has
    one of those they ask for *)
Definition permitted (plugin : EnforceAuthRules) (rules : UrlMapping) (fuel : nat) (received : Received) (clock : Clock) (sipRequest sipResponse : SipMessage) : Prop :=
  exists p : Passage fill pcre_exec compile this db newTag fuel received clock sipRequest sipResponse,
    (bRequestShouldBeAuthorized (p_flags2 p) = false /\ mFoundRouteState (p_state p) = false
       /\ rules_trust fill pcre_exec compile this (p_uri p) (w_request (p_work1 p)))
    \/ exempt (w_request (p_work2 p)) = true
    \/ (mMayBeMutable (p_state p) = false /\ isDialogAuthorized (p_state p) = Ok true)
    \/ (trustSbcRegisteredCalls plugin = true /\ isRegisteredBinding db (p_uri1 p) = inr true)
    \/ exists user status required rules', user_of_request fill pcre_exec this db (c_now clock) (w_request (p_work2 p)) user
         /\ getPermissionRequired fill pcre_exec compile rules (p_uri1 p) [] = Ok (status, required, rules')
         /\ (required = [] \/ holds (default [] user) required).

(** C5: Where EnforceAuthRules with rules comes after plug-ins that decide
    nothing, the proxy sends a request on only in these cases: it need not be
    authorized, because it is new to the proxy and the forwarding rules trust
    its target; it is an ACK; it belongs to a dialog that was authorized before;
    its target is a registered binding and such calls are trusted; or the rules
    ask for no permission for its target, or for some of which the database
    grants one to the user of the request.  Where one of them is ValidUser, in
    any case, or where none has a name, any user that the database knows will
    do. *)
Theorem permission_needed plugin rules before others fuel received clock sipRequest sipResponse w :
  rt_mAuthPlugins this = before ++ enforce_plugin fill pcre_exec compile db router plugin :: others -> Forall neutral before ->
  mpAuthorizationRules plugin = Some rules ->
  proxyMessage fill pcre_exec compile this db newTag fuel received clock sipRequest sipResponse = Ok (SendRequest, w) ->
  permitted plugin rules fuel received clock sipRequest sipResponse.
Proof.
  intros Hplugins Hneutral Hrules Hrun. apply forwarded_allowed in Hrun as (_ & p & Hp). exists p.
  destruct (bRequestShouldBeAuthorized (p_flags2 p)); [right|left; destruct Hp as (_ & ? & ? & _); done].
  destruct Hp as (user & dialog & Hu & Hall & Hdialog & Hchain & Hverdict). rewrite Hplugins in Hall.
  destruct (exempt (w_request (p_work2 p))) eqn:Ee; [by left|right]. destruct Hverdict as [Hverdict|]; [|done]. cbn [orb] in Hchain.
  destruct dialog; [left; by destruct (mMayBeMutable (p_state p))|right].
  destruct (neutral_before _ _ _ _ _ _ _ Hneutral Hall Hchain) as (e & events' & He & Hv & result & ->).
  destruct He as (prior & result' & rs & method & m & spiral & reason & m' & rs' & reason' & [= <- <-] & Hcall).
  rewrite Hv in Hverdict. cbn [enforce_plugin authorizeAndModify] in Hcall. apply enforce_spec in Hcall. destruct result.
  - congruence.
  - by destruct Hverdict.
  - destruct Hcall as [Hreg|(rules1 & status & required & rules' & Hr & Hg & Hreq)]; [by left|right].
    rewrite Hrules in Hr. injection Hr as <-. by exists user, status, required, rules'.
Qed.
End Decisions.

(** ** Witnesses *)

Module PluginExamples.
Import RouterExamples.
#[local] Existing Instances pcre_search regex_search.

(** Users of three digits need the permission Internal. *)
Definition el (tag : string) (c : list TiXmlNode) : TiXmlNode := ELEMENT (bytes tag) [] c.
Definition txt (tag : string) (t : string) : TiXmlNode := el tag [TEXT (bytes t)].
Definition rules : UrlMapping :=
  mkMapping (Some [el "mappings" [el "hostMatch" [txt "hostPattern" "example.com";
    el "userMatch" [txt "userPattern" "xxx"; el "permissionMatch" [txt "permission" "Internal"]]]]]) (Some ∅) [] [] [].
Definition plugin : EnforceAuthRules := mkEnforce (Some rules) false false.
Definition granted (user : list ascii) : list (list ascii) := if decide (user = bytes "100") then [bytes "Internal"] else [].
Definition with_permissions (user : list ascii) : EntityRecord :=
  mkEntity user (user ++ bytes "@example.com") realm password (bytes "DIGEST") (granted user).
Definition databases : Databases :=
  mkDatabases (fun identity => inr (Some (with_permissions (take 3 identity)))) (fun user => inr (Some (with_permissions user)))
    (fun _ _ => inr []) (fun _ => inr false).
Definition guarded : SipRouter :=
  mkRouter realm realm (bytes "10.1.1.20:5060") (bytes "10.1.1.20:5061") false 300 None
    [call_destination_plugin fill search; enforce_plugin fill search syntax databases router plugin] [] [bytes "sip-cc"] 20 (bytes "sipXecs")
    (bytes "route") (bytes "identity") (mkOsTime 300 0) (bytes "nonce") (bytes "url").
Definition guarded_run (user : list ascii) :=
  proxyMessage fill search syntax guarded databases (bytes "tag9") 10 received clock (invite (spiral ++ authorization user)) (mkMsg [] []).
Definition guarded_work (user : list ascii) : Work := match guarded_run user with Ok (_, w) => w | _ => mkWork (mkMsg [] []) (mkMsg [] []) [] end.

Lemma permission_needed_witness :
  permitted fill search syntax databases guarded (bytes "tag9") plugin rules 10 received clock (invite (spiral ++ authorization (bytes "100"))) (mkMsg [] [])
  /\ exists w, guarded_run (bytes "101") = Ok (SendResponse, w) /\ mFirstHeaderLine (w_response w) = bytes "SIP/2.0 403 Requires Internal".
Proof.
  split.
  - apply (permission_needed fill search syntax databases router guarded (bytes "tag9") plugin rules [call_destination_plugin fill search] []
      10 received clock _ _ (guarded_work (bytes "100")));
      [reflexivity|constructor; [apply call_destination_neutral|constructor]|reflexivity|vm_compute; reflexivity].
  - exists (guarded_work (bytes "101")). split; vm_compute; reflexivity.
Defined.

(** SubscriptionAuth compares the whole Event header with the packages: with a
    parameter behind it a subscription to a package that requires
    authentication is not challenged. *)
Definition subscribe (event : string) : SipMessage :=
  mkMsg (bytes "SUBSCRIBE sip:300@example.com SIP/2.0") [pair_of (SIP_EVENT_FIELD, bytes event)].
Definition no_state : RouteState := mkState [] false [] false false false [] [] [].
Definition subscription_result (event : string) : option AuthResult :=
  match subscription_readConfig syntax (bytes "dialog, message-summary") [] with
  | Ok this =>
      match subscription search this [] Url_default no_state SIP_SUBSCRIBE_METHOD CONTINUE (subscribe event) false [] with
      | Ok (_, inr (result, _, _)) => Some result
      | _ => None
      end
  | _ => None
  end.
Example event_parameter_not_challenged : subscription_result "dialog" = Some DENY /\ subscription_result "dialog;id=7" = Some CONTINUE.
Proof. split; vm_compute; reflexivity. Qed.

(** The last package: UtlSList::find goes on behind it. *)
Example last_package_undefined :
  (let! this := subscription_readConfig syntax (bytes "dialog, message-summary") [] in
   subscription search this [] Url_default no_state SIP_SUBSCRIBE_METHOD CONTINUE (subscribe "message-summary") false []) = UB.
Proof. vm_compute. reflexivity. Qed.

(** CallDestination reads the first Record-Route header as one URL: where it
    has two, both are lost. *)
Definition two_record_routes : SipMessage :=
  mkMsg (bytes "INVITE sip:300@example.com;sipXecs-CallDest=INT SIP/2.0")
    [pair_of (SIP_RECORD_ROUTE_FIELD, bytes "<sip:10.1.1.20:5060;lr>,<sip:other.example.org;lr>")].
Example record_routes_lost :
  moveCallDestToRecordRoute fill search two_record_routes
  = Ok (mkMsg (bytes "INVITE sip:300@example.com SIP/2.0")
          [pair_of (SIP_RECORD_ROUTE_FIELD, bytes "UNKNOWN-URL-SCHEME:10.1.1.20:5060;lr;sipXecs-CallDest=INT")]).
Proof. vm_compute. reflexivity. Qed.
End PluginExamples.
